(* ===== verification/_CoqProject ===== *)
-Q . S2P
Prelude.v
GoStrings.v
InvCache.v
Authz.v
AuditSpool.v
Membership.v
NovaApi.v
Reconcile.v
DbCreds.v
OpenStackFold.v
NodeProtocol.v
WgParse.v
WgIdentity.v
WgState.v
NetIP.v
Syncx.v
WgGraph.v
WgDerive.v
WgTopology.v
WgGraphLaws.v
WgTunnels.v
InvMemory.v
Assessment.v
FleetCatalog.v
FleetCache.v
VmAddress.v
GoFormat.v
GoURL.v
NetAddr.v
GoIP.v
GoBase64.v
Motd.v
HwSpec.v
HwCollect.v
Watchdog.v
NodeAgent.v
OsProbe.v
WgFailover.v
Socks5.v
Gateway.v
GatewayShell.v
NodeExec.v
VmEnroll.v
NodeAuthz.v
CertRenewal.v
VaultClient.v
VaultToken.v
KvSet.v
KvRedact.v
KvTree.v
KvExec.v
Effects.v
Strutil.v
AccessLog.v
Sshc.v
Access.v
SshCommand.v
DnsHosts.v
DnsWrite.v
Explore.v
ExploreLaws.v
Migrate.v
Inventory.v
InventoryLaws.v
Login.v
AppStore.v
AuditRedact.v
AuditStore.v
KernelCollect.v
SessionWatch.v
