(* ===== verification/Prelude.v ===== *)
(** * vctl: a verification library

    vctl is a fleet CLI: engineers reach hosts through short-lived SSH
    certificates and database credentials issued by Vault, the inventory, the
    grants and the audit log live in Postgres, and a set of collectors keep the
    inventory true (WireGuard gateways, OpenStack control planes, host agents).
    This library models the parts of it that decide something: who may run what,
    what is kept when Postgres is away, which hosts a deployment owns, what a
    stored observation means, who may reach a node through the gateway, and what
    is known afterwards of who did what.
    Definitions carry the source's names; each is executable, so the examples
    and witnesses evaluate it.

    ** The parts and how they meet

    A process first takes on an identity ([Login]) and opens the inventory
    ([AppStore]): Postgres with a leased credential, or the local snapshot.  A
    command passes the authorization gate ([Authz]), which asks Vault for the
    caller's identity and Postgres for grants, and falls back to the local
    snapshot ([InvCache]) when Postgres is away.  Vault is spoken to through its
    client ([VaultClient]), whose token lives in a file between commands
    ([VaultToken]).  Connections to Postgres use a credential kept alive by
    [DbCreds].  A connection to a host ([Access], over [Sshc]; [SshCommand] says
    which server or VM is meant) ends in an audit record ([AccessLog]); a record
    that cannot be written goes to the outbox ([AuditSpool]) and is replayed by a
    later command.  On the host itself [SessionWatch] turns logins into session
    rows and [KernelCollect] stores the commands run in them, their arguments
    filtered by [AuditRedact], in the tables of [AuditStore], which a retention
    pass keeps small.  A reconcile run ([Reconcile]) lists a control plane through
    [NovaApi], decides with [Membership] which inventory hosts are the
    deployment's, and records the decision; a listing of hosts folds the roles
    agents report with those decisions ([OpenStackFold]), and the fleet reader
    keeps such listings on disk ([FleetCatalog], [FleetCache]).  How a VM is
    reached is chosen by [VmAddress], and what a deployment adds up to is judged
    in one place ([Assessment]).

    The overlay network is read from its gateways ([WgParse]), its keys resolved
    to hosts ([WgIdentity]), its live counters kept per tunnel ([WgState]); the
    graph of it ([WgGraph]) is built by [WgTopology] and read by [WgDerive];
    [WgFailover] asks the standby hubs and [Socks5] carries connections into the
    tunnel.  The inventory is first filled from an ssh configuration ([Syncx]),
    lives in tables the migrations of [Migrate] make, and is edited by hand or
    synchronised ([Inventory]); the browser of [Explore] shows a fleet and
    connects to its machines; the names of hosts are published by the DNS command
    ([DnsWrite]) in files [DnsHosts] reads.  Offline, hosts are resolved and
    listed over the snapshot ([InvMemory], comparing addresses by [NetIP]).

    A host's agent ([NodeAgent], kept honest by [Watchdog]) reports hardware
    ([HwSpec], [HwCollect]) and the OpenStack it finds ([OsProbe]) and writes
    the login banner ([Motd]).  Operators reach nodes without SSH through the
    gateway: it admits by [NodeAuthz], brokers requests ([Gateway], whose
    requests and identities are [NodeProtocol]'s) and shells ([GatewayShell]),
    and the agent at the other end runs them ([NodeExec]); a VM gets its
    identity from [VmEnroll] and keeps it by [CertRenewal].

    Secrets are read and written by the kv commands: [KvTree] finds one, [KvSet]
    edits it, [KvExec] hands it to a command whose output goes through
    [KvRedact].

    ** Files, in dependency order

    - [Prelude]: Go's [(T, error)] as [result] and its monad, int64 wrap-around
      and the saturating clock ([time.Sub]), strict orders as classes with a
      stable insertion sort equal to any sort the source's [sort.Slice] may
      perform when the order is total, lists and options.
    - [GoStrings], [GoFormat], [GoURL], [GoIP], [GoBase64], [NetIP], [NetAddr]:
      what the source calls of the standard library, with its laws: byte strings
      and numbers; padding, quoting and calendar; [url.Parse] of URLs that have a
      scheme, and queries; the text of an address; raw URL base64; [net.ParseIP]
      and [net.SplitHostPort]; [netip.ParseAddr] and the text it prints.
    - [Effects]: programs that ask the outside and go on with its answer, with
      their runs and a rule per construct; the commands from [AccessLog] on are
      written in it.  [Strutil]: src/internal/strutil.
    - [InvCache]: src/internal/invcache/snapshot.go and the readers and writers
      of src/internal/app/inventory.go.  [Snapshot] is the file's record,
      [FileStore] the file (absent, unreadable, another version, or a record).
    - [Authz]: src/internal/authz/authz.go and its wiring in
      src/internal/cli/internal/cmdkit/rbac.go.  [gated] is the command catalog,
      [Check] the gate; a decision returns its verdict and the outside calls it
      made.
    - [AuditSpool]: src/internal/auditspool/auditspool.go over a directory, with
      any disk or sink operation allowed to fail; [drain_step] is the same drain
      in atomic steps, which processes may interleave.
    - [Membership], [NovaApi], [Reconcile]: src/internal/openstack/membership,
      src/internal/openstackapi, src/internal/openstack/reconcile, the last with
      the trace of its repository writes and its command-line adapter.
    - [DbCreds]: src/internal/dbcreds/cache.go over the class [Issuer].
    - [OpenStackFold]: src/internal/store/openstack_fold.go.
    - [NodeProtocol]: src/internal/nodeaccess/protocol.go, [Validate] and the
      certificate identities.
    - [WgParse], [WgIdentity], [WgState], [WgGraph], [WgDerive], [WgTopology],
      [WgGraphLaws], [WgTunnels]: src/internal/wireguard: parse.go and collect.go,
      identity.go, state.go, the data of topology.go, derive.go, the builder of
      topology.go, and two files of its theorems.
    - [Syncx]: src/internal/syncx/sync.go.
    - [InvMemory]: src/internal/invcache/memory.go, and the listing row of
      src/internal/store.
    - [Assessment]: src/internal/openstack/assessment.go, [Assess] in phases.
    - [FleetCatalog], [FleetCache]: src/internal/openstack/fleet: catalog.go;
      cache.go, policy.go and reader.go.
    - [VmAddress]: src/internal/openstack/address.go and loginuser.go.
    - [Motd], [HwSpec], [HwCollect], [Watchdog], [NodeAgent], [OsProbe]:
      src/internal/motd, src/internal/hwspec, src/internal/nodeagent and
      src/internal/hoststatus/probes.
    - [WgFailover]: src/internal/cli/wg_failover.go, the bounded fan-out as a
      step relation.  [Socks5]: src/internal/socks5.
    - [Gateway], [GatewayShell]: src/internal/nodeaccess/gateway.go, requests and
      shells.  A run is a list of atomic actions, each what one handler does
      while it holds the lock or between two waits; the log says what was sent,
      recorded and answered.
    - [NodeExec]: execute.go, agent.go, shell.go and shell_agent.go there.
    - [VmEnroll], [NodeAuthz], [CertRenewal]: vendordata.go; vctl_adapters.go
      and keystone_ca.go; cert_renewal.go and enroll.go.
    - [VaultClient], [VaultToken]: src/internal/vaultc.  An operation is a
      [prog]: the requests it makes and what it does with the answers, run
      against any server.
    - [KvSet], [KvRedact], [KvTree], [KvExec]: src/internal/cli/kv_*.go.  The
      class [Kv2] states what Vault documents of a versioned secret.
    - [AccessLog]: LogAccess of src/internal/app.  [Sshc], [Access],
      [SshCommand]: src/internal/sshc, src/internal/access and
      src/internal/cli/ssh.go with the openstack package's VM connection.
    - [DnsHosts], [DnsWrite]: src/internal/dnshosts; src/internal/cli/dns.go with
      the clients of src/internal/gitlabapi and src/internal/kubeapi.
    - [Explore], [ExploreLaws]: src/internal/cli/openstack/explore_*.go, every
      message as a function of the screen model, and its theorems.
    - [Migrate]: src/internal/store/migrate.go.  [Inventory], [InventoryLaws]:
      the edits of src/internal/store with src/internal/cli/edit.go and add.go.
    - [Login], [AppStore]: src/internal/app/app.go, src/internal/vaultc/oidc.go,
      src/internal/agent and src/internal/cli/login.go and status.go; the stores
      of app.go and inventory.go and the pool of src/internal/store.
    - [AuditRedact]: src/internal/auditredact, with a matcher for the part of
      Go's regular expressions it uses.  [AuditStore]: the session and event
      tables of src/internal/store and the prune command of
      src/internal/cli/retention.go.  [KernelCollect]: src/internal/cli/collect.go
      and collect_hold.go.  [SessionWatch]: src/internal/cli/watch.go and
      periodic.go.

    ** What the theorems show

    - Safety of the gate: over every history of commands, refreshes, clears and
      disk failures, a non-admin gets through only on a grant Postgres confirmed,
      now or within the offline window; the verdict on every branch.
    - Safety of node access: whatever operators, agents and clocks do, requests
      and shells go only where they were authorized to and come back only from
      there, and are audited first; an agent runs only what was validated; a
      certificate is signed only for the instance of a grant, and carries its
      key and identity; the cloud's token goes only to its own Keystone; a
      renewal never mixes two identities, but for one crash point that is shown,
      and through the gateway keeps whose it is.
    - Conservation of the audit log: a drain alone loses and (on a working disk)
      repeats nothing, under any failure of sink and disk; interleaved with
      appends and crashes, what is delivered and stored is what was logged, but
      for the two records that an append cut short can cost.  Two overlapping
      drains break both, by an explicit run.
    - Accountability: every access is recorded before or after it happens as the
      code promises; every kernel event read is stored, held or counted as given
      up; a login is one session however often it is seen while its process lives; a retention pass
      deletes nothing that is in its horizon or needed by what stays; the value of
      a filtered flag leaves no trace.
    - Identity: a configured identity is the one a process gets, a browser's
      answer is to the login that was begun, and a database connection ends
      before its lease.
    - Changes: a rename, a sync and a migration are whole or not at all; DNS
      changes build on the repository's head and a verified name answers.
    - The browser: whatever order messages come in, its cursors are on rows that
      exist and nothing runs on a machine that was not asked for.
    - Membership: nothing is confirmed that the control plane did not name, a
      partial answer demotes nobody, and a name is never guessed.  A reconcile
      run writes only what the answers justify and isolates its farms.
    - Secrets: an edit makes one version, the next after the one it read; the
      tree walk ends and misses nothing; the output filter is the replacement of
      the whole output however it arrives, for spellings without brackets that
      do not overlap, with an overlap that leaks and a bracket that matters shown.
    - Clients and caches: paging ends and is whole or an error; a credential
      handed out outlives the asked time; a cleared reading stays cleared; a
      token stored is the token the next process has until it expires.
    - Observations: the role fold is the newest pass per host; the gateway dump
      is read back exactly and without secrets; a graph's edges end at what is
      drawn, but for the cases named; the live view is what was measured; the
      hardware table and the probe's reading are exact.
    - Offline reads: resolution is the Postgres query's answer (an [ILIKE] whose
      meaning is given apart from the code's pattern) unless the query has a
      backslash, and listings are the inventory.
    - Inventory: an ssh configuration is read as written, and the jump-host walk
      ends with every needed host and nothing else.
    - The agent: every database handle is closed once, calls are bounded, and a
      failing agent stops answering its watchdog after an hour, and no sooner.

    Where a comment or a help text promises more than the code does, a lemma
    shows the difference on a concrete run.

    ** Bounds and fuel

    Integers are [Z] with int64 wrap-around where the source computes
    ([wrap64], [clamp64]), floats IEEE binary64 ([SpecFloat]).  Loops that are
    not structural carry fuel, and each is shown to have enough:
    [Instances] pages with 101 units, one more than the instance limit of 20000
    divided by a page of 200 allows; a drain's send loop has one unit per
    pending record, since every round advances or stops, and the drain one pass
    per listed batch; the jump-host walk has one unit per selected host and per
    known alias, since a host is queued once; [NetIP] reads at most eight groups;
    the SMBIOS walk has one unit per byte of the table, since a structure has at
    least four; the fan-out ends after two moves a host; the frames of a shell's
    output have one unit per byte; the tree walk has one level more than its
    limit, since a level that goes on has met an entry; an edit of a secret is
    tried three times, as the source does, and so are a DNS commit and its
    projection; a verification looks at most 42 times; a jump chain is followed
    one round per inventory host and one more; a deletion loop has one unit per
    row and one more, since a full batch deletes a row; replacing in a text has
    one unit per byte and one more, since a match takes a byte.  Loops that end
    with the process (the agents', the watchers') are stated for every number of
    rounds.  Everything else recurses on its data.

    ** What is abstract, and what is left out

    - Case folding and spaces are ASCII's; bytes beyond 127 are carried but not
      folded.  The offline name pattern alone compares characters, and what it
      takes for the same letter is a parameter.  One command reads the clock where the source does, as an answer of
      the outside; the monotonic reading of a [time.Time] is not kept.
    - JSON is kept as the decoded object, or as its absence for malformed text;
      a stored file is the value it decodes to.  The spool scanner's 1 MiB line
      limit and blank lines are not modelled, and a disk read fails when the
      file is opened or not at all.
    - A sort that need not be stable is a stable one; where the order a Go map is
      visited in matters, that order is a parameter ([visit]).
    - HTTP exchanges, [time.Parse], HMAC, X.509 and PEM parsing, TLS, the SQL of
      src/internal/store, Vault's server, SSH and every command run on a host are
      parameters or recorded calls.  The Vault library is taken to send a request
      once.  A command's output is what it wrote: memory does not run out.
    - A pattern compiled from a query is its pieces; a date in an anomaly's text is
      a parameter, since a time's zone is not kept.
    - A lock that serialises the operations of one object is modelled by running
      them one after another, in any order.
    - Records keep the fields the modelled code uses ([Deployment] most of all).
    - A statement of SQL is a function of the tables it names, whole or not done;
      Postgres may fail any of them, and where it matters take effect and report
      failure.  Its casts to addresses are parameters, texts sort as bytes, and
      columns nobody reads ([updated_at]) are left out.  DDL is a constructor per
      text.
    - A timeout is one of the outside's answers.  Somebody at a terminal is asked
      once per login.  A redirect is inside the answer to its request.
    - What is written to a terminal or to standard error is left out, unless a
      command's result is that text; styles and detail texts of the browser are
      parameters, and its input is valid UTF-8.
    - A regular expression matches bytes: every class the filter negates holds
      only ASCII, so the bytes of a longer rune are all in it.

    ** Not modelled

    - Reports without state of their own: the doctor and the farm credentials
      (src/internal/openstack/doctor, farmcreds), the audit and spec listings, the
      disk footprint of retention.
    - Network and device plumbing: the Keystone exchange and JSON transport of
      src/internal/openstackapi, the raw terminal of the node shell client, the
      wireguard-go device (src/internal/wgtun), vSphere, TLS configuration.
    - Configuration and kubeconfig files, read by YAML libraries.
    - The /proc readers of src/internal/hoststatus: the agent takes the load and
      disk readings as given.
    - Terminal rendering (src/internal/ui), forms and pickers (cmdkit), the MCP
      front of the inventory readers, process entry points, and the commands that
      only join modelled parts.
    - The roles an audit connection may use (src/internal/audit) are types: the
      functions here take the tables they may touch. *)

From Stdlib Require Import Ascii String ZArith Lia.
From stdpp Require Export base decidable option sorting gmap strings numbers list_basics list_relations list_monad list_misc list_tactics list.

(** ** Fallible code: Go's [(T, error)] *)

Inductive result (E A : Type) : Type :=
| Ok (a : A)
| Err (e : E).
Arguments Ok {E A} a.
Arguments Err {E A} e.

#[export] Instance result_ret E : MRet (result E) := λ A a, Ok a.
#[export] Instance result_bind E : MBind (result E) := λ A B f r,
  match r with Ok a => f a | Err e => Err e end.
#[export] Instance result_eq_dec E A `{EqDecision E, EqDecision A} :
  EqDecision (result E A).
Proof.
  intros [a|e] [b|e'].
  - destruct (decide (a = b)) as [->|]; [by left | right; congruence].
  - by right.
  - by right.
  - destruct (decide (e = e')) as [->|]; [by left | right; congruence].
Defined.

Definition is_ok {E A} (r : result E A) : bool :=
  match r with Ok _ => true | Err _ => false end.

Lemma bind_Ok {E A B} (r : result E A) (f : A → result E B) b :
  r ≫= f = Ok b ↔ ∃ a, r = Ok a ∧ f a = Ok b.
Proof.
  destruct r as [a|e]; simpl; split; [by eauto | | discriminate | ].
  - intros (a' & [= ->] & ?). done.
  - by intros (? & ? & ?).
Qed.

(** ** Machine integers

    Go's [int] and [int64] are 64 bits wide and wrap around. *)

Open Scope Z_scope.

Definition int64_min : Z := - 2 ^ 63.
Definition int64_max : Z := 2 ^ 63 - 1.
Definition in_int64 (z : Z) : Prop := int64_min ≤ z ≤ int64_max.

(** Two's complement truncation to 64 bits. *)
Definition wrap64 (z : Z) : Z := (z + 2 ^ 63) mod 2 ^ 64 - 2 ^ 63.

(** Saturation, as [time.Time.Sub] does. *)
Definition clamp64 (z : Z) : Z := Z.max int64_min (Z.min int64_max z).

Lemma wrap64_id z : in_int64 z → wrap64 z = z.
Proof.
  unfold in_int64, int64_min, int64_max, wrap64. intros Hz.
  rewrite Z.mod_small; lia.
Qed.

Lemma wrap64_range z : in_int64 (wrap64 z).
Proof.
  unfold in_int64, int64_min, int64_max, wrap64.
  pose proof (Z.mod_pos_bound (z + 2 ^ 63) (2 ^ 64) ltac:(lia)). lia.
Qed.

Lemma clamp64_range z : in_int64 (clamp64 z).
Proof. unfold in_int64, clamp64, int64_min, int64_max. lia. Qed.

Lemma clamp64_id z : in_int64 z → clamp64 z = z.
Proof. unfold in_int64, clamp64. lia. Qed.

Lemma clamp64_mono a b : a ≤ b → clamp64 a ≤ clamp64 b.
Proof. unfold clamp64. lia. Qed.

(** ** Time

    A [time.Time] is a count of nanoseconds since Go's zero instant, so the
    zero value is [0] and [IsZero] is a comparison with it.  A
    [time.Duration] is an [int64] of nanoseconds. *)

Definition time_t : Type := Z.
Definition duration : Type := Z.

Definition IsZero (t : time_t) : bool := t =? 0.
Definition Sub (t u : time_t) : duration := clamp64 (t - u).
Definition Add (t : time_t) (d : duration) : time_t := t + d.
Definition After (t u : time_t) : bool := u <? t.

Definition Nanosecond : duration := 1.
Definition Microsecond : duration := 1000 * Nanosecond.
Definition Millisecond : duration := 1000 * Microsecond.
Definition Second : duration := 1000 * Millisecond.
Definition Minute : duration := 60 * Second.
Definition Hour : duration := 60 * Minute.

(** [d.Truncate(m)] for [m > 0]: towards zero, to a multiple of [m]. *)
Definition Truncate (d m : duration) : duration := d - Z.rem d m.

Lemma Sub_mono t t' u : t ≤ t' → Sub t u ≤ Sub t' u.
Proof. intros. unfold Sub. apply clamp64_mono. lia. Qed.

(** Below the saturation bounds [Sub] is the exact difference. *)
Lemma Sub_ge (t u : time_t) (d : duration) :
  int64_min < d → d ≤ Sub t u → u + d ≤ t.
Proof. unfold Sub, clamp64, int64_min, int64_max. lia. Qed.

Lemma Sub_le (t u : time_t) (d : duration) :
  d < int64_max → Sub t u ≤ d → t ≤ u + Z.max int64_min d.
Proof. unfold Sub, clamp64, int64_min, int64_max. lia. Qed.

Lemma Sub_exact (t u : time_t) : in_int64 (t - u) → Sub t u = t - u.
Proof. apply clamp64_id. Qed.

(** ** Sorting

    [sort.Slice], [sort.Strings] and [slices.Sorted] are modelled by one stable
    insertion sort over the source's own [less]; stability is what
    [sort.SliceStable] promises, and where the source uses the unstable sort the
    theorems are stated so that the order of ties does not matter. *)

Class StrictWeak {A} (less : A → A → bool) : Prop := {
  less_asym x y : less x y = true → less y x = false;
  less_cotrans x y z : less x y = false → less y z = false → less x z = false;
}.

Class StrictTotal {A} (less : A → A → bool) : Prop := {
  strict_total_weak :: StrictWeak less;
  less_connex x y : less x y = false → less y x = false → x = y;
}.

(** [not_after less x y]: [x] may stand before [y]. *)
Definition not_after {A} (less : A → A → bool) (x y : A) : Prop := less y x = false.

#[export] Instance not_after_transitive {A} (less : A → A → bool) :
  StrictWeak less → Transitive (not_after less).
Proof. intros ? x y z Hxy Hyz. unfold not_after in *. by eapply less_cotrans. Qed.

Section sort.
Context {A : Type} (less : A → A → bool).

Fixpoint sort_insert (x : A) (l : list A) : list A :=
  match l with
  | [] => [x]
  | y :: l' => if less y x then y :: sort_insert x l' else x :: l
  end.

Definition sort (l : list A) : list A := foldr sort_insert [] l.

Lemma sort_insert_perm x l : sort_insert x l ≡ₚ x :: l.
Proof.
  induction l as [|y l IH]; simpl; [done|].
  destruct (less y x); [|done]. rewrite IH. constructor.
Qed.

Lemma sort_perm l : sort l ≡ₚ l.
Proof.
  induction l as [|x l IH]; simpl; [done|]. by rewrite sort_insert_perm, IH.
Qed.

Lemma sort_elem_of x l : x ∈ sort l ↔ x ∈ l.
Proof. by rewrite sort_perm. Qed.

Lemma sort_length l : length (sort l) = length l.
Proof. by rewrite sort_perm. Qed.

Lemma sort_NoDup l : NoDup l → NoDup (sort l).
Proof. by rewrite sort_perm. Qed.

Context `{!StrictWeak less}.

Lemma sort_insert_sorted x l :
  StronglySorted (not_after less) l → StronglySorted (not_after less) (sort_insert x l).
Proof.
  induction 1 as [|y l Hl IH Hy]; simpl; [repeat constructor|].
  destruct (less y x) eqn:Hyx.
  - constructor; [done|]. rewrite sort_insert_perm. constructor; [|done].
    by apply less_asym.
  - constructor; [by constructor|]. constructor; [done|].
    eapply Forall_impl; [exact Hy|]. intros z Hyz. exact (less_cotrans z y x Hyz Hyx).
Qed.

Lemma sort_sorted l : StronglySorted (not_after less) (sort l).
Proof. induction l; simpl; [constructor|]. by apply sort_insert_sorted. Qed.
End sort.

(** Sorting forgets the order its input arrived in, provided [less] separates
    the elements that occur. *)
Lemma sort_Permutation_strong {A} (less : A → A → bool) `{!StrictWeak less} l1 l2 :
  (∀ x y, x ∈ l1 → y ∈ l1 → less x y = false → less y x = false → x = y) →
  l1 ≡ₚ l2 → sort less l1 = sort less l2.
Proof.
  intros Hsep Hp. eapply (StronglySorted_unique_strong (not_after less)).
  - intros x y Hx Hy Hxy Hyx. rewrite sort_elem_of in Hx, Hy. rewrite <-Hp in Hy.
    by apply Hsep.
  - by apply sort_sorted.
  - by apply sort_sorted.
  - by rewrite !sort_perm.
Qed.

#[export] Instance sort_proper {A} (less : A → A → bool) `{!StrictTotal less} :
  Proper ((≡ₚ) ==> (=)) (sort less).
Proof. intros l1 l2 Hp. apply (sort_Permutation_strong less); [|exact Hp]. intros x y _ _. apply less_connex. Qed.

(** The comparator idiom [if a.K != b.K { return a.K < b.K }; rest]. *)
Definition less_then {A K} `{EqDecision K} (ltb : K → K → bool) (key : A → K)
    (rest : A → A → bool) (x y : A) : bool :=
  if decide (key x = key y) then rest x y else ltb (key x) (key y).

#[export] Instance less_then_weak {A K} `{EqDecision K} (ltb : K → K → bool)
    (key : A → K) (rest : A → A → bool) :
  StrictTotal ltb → StrictWeak rest → StrictWeak (less_then ltb key rest).
Proof.
  intros HK HR. split; unfold less_then.
  - intros x y. repeat case_decide; try congruence; apply less_asym.
  - intros x y z Hxy Hyz.
    destruct (decide (key x = key y)) as [E1|E1], (decide (key y = key z)) as [E2|E2],
      (decide (key x = key z)) as [E3|E3]; try congruence.
    + by eapply less_cotrans.
    + rewrite <-E3 in Hyz. by destruct E1; apply less_connex.
    + by eapply less_cotrans.
Qed.

Definition less_on {A K} (ltb : K → K → bool) (key : A → K) (x y : A) : bool :=
  ltb (key x) (key y).

#[export] Instance less_on_weak {A K} (ltb : K → K → bool) (key : A → K) :
  StrictWeak ltb → StrictWeak (less_on ltb key).
Proof. intros H. split; unfold less_on; intros; [by apply less_asym | by eapply less_cotrans]. Qed.

#[export] Instance less_then_total {A K} `{EqDecision K} (ltb : K → K → bool)
    (key : A → K) (rest : A → A → bool) :
  StrictTotal ltb → StrictTotal rest → StrictTotal (less_then ltb key rest).
Proof.
  intros HK HR. split; [apply _|]. intros x y. unfold less_then.
  repeat case_decide; try congruence; [apply less_connex|].
  intros Hxy Hyx. destruct H0. by apply less_connex.
Qed.

(** Go compares strings byte by byte. *)
Definition string_ltb : string → string → bool := String.ltb.

Lemma string_ltb_leb x y : string_ltb x y = false ↔ String.leb y x = true.
Proof.
  unfold string_ltb, String.ltb, String.leb. rewrite (String.compare_antisym x y).
  by destruct (String.compare y x).
Qed.

#[export] Instance string_ltb_total : StrictTotal string_ltb.
Proof.
  split; [split|]; intros *; rewrite ?string_ltb_leb.
  - unfold string_ltb, String.ltb, String.leb.
    by destruct (String.compare x y).
  - intros Hyx Hzy. assert (String.le z x) as Hle; [|exact (Is_true_true_1 _ Hle)].
    transitivity y; by apply Is_true_true.
  - intros. by apply String.leb_antisym.
Qed.

#[export] Instance Z_ltb_total : StrictTotal Z.ltb.
Proof. split; [split|]; intros *; rewrite ?Z.ltb_lt, ?Z.ltb_ge; lia. Qed.

(** The reversed order, for [a > b]. *)
#[export] Instance Z_gtb_total : StrictTotal (λ x y, y <? x).
Proof. split; [split|]; intros *; rewrite ?Z.ltb_lt, ?Z.ltb_ge; lia. Qed.

(** [sort.Strings] and [slices.Sorted]. *)
Definition sort_strings : list string → list string := sort string_ltb.

(** ** Lists *)

Fixpoint list_last {A} (d : A) (l : list A) : A :=
  match l with [] => d | x :: l' => list_last x l' end.

Lemma foldl_app_acc {A B} (f : A → list B) (l : list A) (acc : list B) :
  foldl (λ acc a, acc ++ f a) acc l = acc ++ (l ≫= f).
Proof.
  revert acc. induction l as [|a l IH]; intros acc; csimpl; [by rewrite app_nil_r|].
  by rewrite IH, <-(assoc_L (++)).
Qed.

Lemma foldl_invariant {A B} (P : list B → A → Prop) (f : A → B → A) (l : list B) (a : A) :
  P [] a → (∀ seen a b, P seen a → P (seen ++ [b]) (f a b)) → P l (foldl f a l).
Proof.
  intros H0 Hstep. cut (∀ seen a, P seen a → P (seen ++ l) (foldl f a l)); [intros H; by apply (H [])|].
  clear a H0. induction l as [|b l IH]; intros seen a Ha; cbn [foldl]; [by rewrite app_nil_r|].
  replace (seen ++ b :: l) with ((seen ++ [b]) ++ l) by (by rewrite <-(assoc_L (++))).
  apply IH, Hstep, Ha.
Qed.

Lemma filter_ext_in {A} (P Q : A → Prop) `{!∀ x, Decision (P x), !∀ x, Decision (Q x)} (l : list A) :
  (∀ x, x ∈ l → P x ↔ Q x) → filter P l = filter Q l.
Proof.
  induction l as [|x l IH]; intros HPQ; [done|]. rewrite !list.filter_cons, IH by (intros; apply HPQ; by right).
  assert (P x ↔ Q x) as Hx by (apply HPQ; by left). repeat case_decide; naive_solver.
Qed.

(** ** Records updated field by field

    [r <| f := v |>] is [r] with its field [f] replaced, for a record type with
    a [Rebuild] instance: the record put together again from its fields. *)

Class Rebuild (R : Type) := rebuild : R → R.
Class Field {R T} (f : R → T) := set_field : (T → T) → R → R.
Arguments set_field {R T} f {_} _ _.

Ltac field_setter f :=
  match type of f with
  | ?R → _ =>
      let whole := constr:(_ : Rebuild R) in
      let body := eval hnf in whole in
      match eval pattern f in body with ?F _ => exact (λ g r, F (λ x, g (f x)) r) end
  end.
#[export] Hint Extern 1 (Field ?f) => field_setter f : typeclass_instances.

Declare Scope record_scope.
Notation "r <| f := v |>" := (set_field f (λ _, v) r) (at level 12, left associativity, f at next level) : record_scope.

(** ** Automation *)

(** Case analysis on every boolean test of the goal, recording it. *)
Ltac case_if :=
  match goal with
  | |- context [if ?b then _ else _] => destruct b eqn:?
  end.

Ltac bool_simpl :=
  repeat match goal with
  | H : (_ && _) = true |- _ => apply andb_true_iff in H as [??]
  | H : (_ || _) = false |- _ => apply orb_false_iff in H as [??]
  | H : negb _ = true |- _ => apply negb_true_iff in H
  | H : negb _ = false |- _ => apply negb_false_iff in H
  | H : (_ <? _) = true |- _ => apply Z.ltb_lt in H
  | H : (_ <? _) = false |- _ => apply Z.ltb_ge in H
  | H : (_ <=? _) = true |- _ => apply Z.leb_le in H
  | H : (_ <=? _) = false |- _ => apply Z.leb_gt in H
  | H : (_ =? _) = true |- _ => apply Z.eqb_eq in H
  | H : (_ =? _) = false |- _ => apply Z.eqb_neq in H
  | H : bool_decide _ = true |- _ => apply bool_decide_eq_true in H
  | H : bool_decide _ = false |- _ => apply bool_decide_eq_false in H
  end.

(** Walk a [result] computation that is known to have succeeded. *)
Ltac result_inv :=
  repeat match goal with
  | H : Ok _ = Ok _ |- _ => injection H as H; subst
  | H : Err _ = Ok _ |- _ => discriminate H
  | H : Ok _ = Err _ |- _ => discriminate H
  | H : _ ≫= _ = Ok _ |- _ => apply bind_Ok in H as (? & ? & H)
  end.

Create HintDb vctl.
#[export] Hint Resolve sort_perm sort_sorted sort_NoDup wrap64_range clamp64_range : vctl.

(** The map a loop of assignments [m[key(x)] = val(x)] leaves. *)
Definition map_by {A V} (key : A → string) (val : A → V) (l : list A) : gmap string V :=
  foldl (λ m x, <[key x := val x]> m) ∅ l.

Lemma map_by_spec {A V} (key : A → string) (val : A → V) (l : list A) :
  (∀ k v, map_by key val l !! k = Some v → ∃ x, x ∈ l ∧ key x = k ∧ v = val x) ∧
  ∀ x, x ∈ l → is_Some (map_by key val l !! key x).
Proof.
  unfold map_by. apply (foldl_invariant (λ seen (m : gmap string V),
    (∀ k v, m !! k = Some v → ∃ x, x ∈ seen ∧ key x = k ∧ v = val x) ∧ ∀ x, x ∈ seen → is_Some (m !! key x))).
  - split; [intros k v; by rewrite lookup_empty|set_solver].
  - intros seen m x (Hs & Hd). split.
    + intros k v [[<- <-]|[_ H]]%lookup_insert_Some; [exists x; set_solver|]. apply Hs in H as (y & ? & ?). exists y. set_solver.
    + intros y [Hy|Hy]%elem_of_app; [|apply list_elem_of_singleton in Hy as ->; by rewrite lookup_insert_eq].
      destruct (decide (key x = key y)) as [<-|]; [by rewrite lookup_insert_eq|rewrite lookup_insert_ne by done; by apply Hd].
Qed.
