(* ===== verification/GoStrings.v ===== *)
(** The part of Go's [strings], [strconv] and [unicode] that the modelled code
    calls, on byte strings.  Case mapping and white space are those of ASCII:
    the texts the program handles (host names, policies, [wg] dumps, ssh
    configuration) are ASCII, and a byte above 127 is a letter to none of these
    functions. *)

From Stdlib Require Import Ascii String DecimalString DecimalZ.
From S2P Require Import Prelude.

Local Open Scope Z_scope.

(** ** Bytes *)

Definition byte_val (c : ascii) : Z := Z.of_N (N_of_ascii c).

Definition in_range (lo hi : Z) (c : ascii) : bool := (lo <=? byte_val c) && (byte_val c <=? hi).

Definition is_digit : ascii → bool := in_range 48 57.
Definition is_upper : ascii → bool := in_range 65 90.
Definition is_lower : ascii → bool := in_range 97 122.
Definition is_alnum (c : ascii) : bool := is_digit c || is_upper c || is_lower c.

Definition is_space : ascii → bool := Ascii.is_space.

Definition lower_char (c : ascii) : ascii :=
  if is_upper c then ascii_of_N (N_of_ascii c + 32) else c.

Lemma byte_val_range c : 0 ≤ byte_val c < 256.
Proof. unfold byte_val. pose proof (N_ascii_bounded c). lia. Qed.

(** *** Runes

    What [range] over a string gives: its UTF-8 encoded characters, and
    U+FFFD for each byte that is not of one. *)

Definition rune : Type := Z.
Definition RuneError : rune := 65533.

Definition tail_byte : ascii → bool := in_range 128 191.
Definition tail_bits (c : ascii) : Z := byte_val c - 128.

(** The second byte that may follow the first of three, and of four. *)
Definition second_of_three (a b : ascii) : bool :=
  in_range 224 239 a && in_range (if byte_val a =? 224 then 160 else 128) (if byte_val a =? 237 then 159 else 191) b.
Definition second_of_four (a b : ascii) : bool :=
  in_range 240 244 a && in_range (if byte_val a =? 240 then 144 else 128) (if byte_val a =? 244 then 143 else 191) b.

Fixpoint runes (s : string) : list rune :=
  match s with
  | EmptyString => []
  | String a s1 =>
      if byte_val a <? 128 then byte_val a :: runes s1
      else match s1 with
      | EmptyString => [RuneError]
      | String b s2 =>
          if in_range 194 223 a && tail_byte b then (byte_val a - 192) * 64 + tail_bits b :: runes s2
          else match s2 with
          | EmptyString => RuneError :: runes s1
          | String c s3 =>
              if second_of_three a b && tail_byte c then ((byte_val a - 224) * 64 + tail_bits b) * 64 + tail_bits c :: runes s3
              else match s3 with
              | EmptyString => RuneError :: runes s1
              | String d s4 =>
                  if second_of_four a b && tail_byte c && tail_byte d
                  then (((byte_val a - 240) * 64 + tail_bits b) * 64 + tail_bits c) * 64 + tail_bits d :: runes s4
                  else RuneError :: runes s1
              end
          end
      end
  end.

Example runes_decoded : runes (String "a" (String "195" (String "169" (String "237" (String "149" (String "156" (String "240" (String "159" (String "152" (String "128" (String "255" EmptyString))))))))))) =
  [97; 233; 54620; 128512; RuneError].
Proof. reflexivity. Qed.

(** ** Whole-string functions *)

Fixpoint string_all (p : ascii → bool) (s : string) : bool :=
  match s with EmptyString => true | String c s' => p c && string_all p s' end.

Fixpoint string_exists (p : ascii → bool) (s : string) : bool :=
  match s with EmptyString => false | String c s' => p c || string_exists p s' end.

Fixpoint string_map (f : ascii → ascii) (s : string) : string :=
  match s with EmptyString => EmptyString | String c s' => String (f c) (string_map f s') end.

Definition ToLower : string → string := string_map lower_char.
Definition EqualFold (s t : string) : bool := String.eqb (ToLower s) (ToLower t).

Definition HasPrefix (s p : string) : bool := String.prefix p s.

Fixpoint drop_bytes (n : nat) (s : string) : string :=
  match n, s with
  | O, _ => s
  | S n', String _ s' => drop_bytes n' s'
  | S _, EmptyString => EmptyString
  end.

Fixpoint take_bytes (n : nat) (s : string) : string :=
  match n, s with
  | S n', String c s' => String c (take_bytes n' s')
  | _, _ => EmptyString
  end.

Definition TrimPrefix (s p : string) : string :=
  if HasPrefix s p then drop_bytes (String.length p) s else s.

Fixpoint rev_bytes (s acc : string) : string :=
  match s with EmptyString => acc | String c s' => rev_bytes s' (String c acc) end.
Definition reverse_string (s : string) : string := rev_bytes s EmptyString.

Definition HasSuffix (s p : string) : bool := HasPrefix (reverse_string s) (reverse_string p).

Definition TrimSuffix (s p : string) : string :=
  if HasSuffix s p then take_bytes (String.length s - String.length p) s else s.

Fixpoint TrimLeftFunc (p : ascii → bool) (s : string) : string :=
  match s with
  | String c s' => if p c then TrimLeftFunc p s' else s
  | EmptyString => EmptyString
  end.
Definition TrimRightFunc (p : ascii → bool) (s : string) : string :=
  reverse_string (TrimLeftFunc p (reverse_string s)).
Definition TrimFunc (p : ascii → bool) (s : string) : string :=
  TrimRightFunc p (TrimLeftFunc p s).

Definition TrimSpace : string → string := TrimFunc is_space.

(** Membership of a byte in a cutset, for [Trim], [TrimLeft], [ContainsAny]. *)
Definition in_cutset (cut : string) (c : ascii) : bool := string_exists (Ascii.eqb c) cut.
Definition Trim (s cut : string) : string := TrimFunc (in_cutset cut) s.
Definition TrimLeft (s cut : string) : string := TrimLeftFunc (in_cutset cut) s.
Definition ContainsAny (s cut : string) : bool := string_exists (in_cutset cut) s.

(** [strings.Cut]: the text before and after the first [sep], if there is one. *)
Fixpoint Cut (s sep : string) : option (string * string) :=
  if HasPrefix s sep then Some (EmptyString, drop_bytes (String.length sep) s)
  else match s with
       | EmptyString => None
       | String c s' =>
           match Cut s' sep with
           | Some (a, b) => Some (String c a, b)
           | None => None
           end
       end.

Definition Contains (s sub : string) : bool :=
  match Cut s sub with Some _ => true | None => false end.

(** [strings.Split] on a one-byte separator. *)
Fixpoint Split (s : string) (sep : ascii) : list string :=
  match s with
  | EmptyString => [EmptyString]
  | String c s' =>
      if Ascii.eqb c sep then EmptyString :: Split s' sep
      else match Split s' sep with
           | w :: ws => String c w :: ws
           | [] => [String c EmptyString]
           end
  end.

Fixpoint Join (ws : list string) (sep : string) : string :=
  match ws with
  | [] => EmptyString
  | [w] => w
  | w :: ws' => w +:+ sep +:+ Join ws' sep
  end.

(** [strings.Fields]: maximal runs of non-space bytes. *)
Fixpoint fields_go (s : string) (cur : option string) : list string :=
  match s with
  | EmptyString => match cur with Some w => [reverse_string w] | None => [] end
  | String c s' =>
      if is_space c then
        match cur with
        | Some w => reverse_string w :: fields_go s' None
        | None => fields_go s' None
        end
      else fields_go s' (Some (String c (default EmptyString cur)))
  end.
Definition Fields (s : string) : list string := fields_go s None.

(** [slices.Contains] and a membership test on strings. *)
Definition slices_Contains (l : list string) (x : string) : bool := bool_decide (x ∈ l).

(** internal/strutil. *)
Definition FirstNonEmpty (vals : list string) : string := default "" (head (filter (λ v, v ≠ "") vals)).

(** ** Numbers

    [strconv.Atoi] and [strconv.ParseInt(s, 10, 64)] agree on a 64-bit
    platform.  A value out of range comes back saturated together with an
    error, a malformed one as zero with an error. *)

Inductive num_error := ErrSyntax | ErrRange.

Definition digit_val (c : ascii) : Z := byte_val c - 48.

Fixpoint digits_val (s : string) (acc : Z) : option Z :=
  match s with
  | EmptyString => Some acc
  | String c s' => if is_digit c then digits_val s' (acc * 10 + digit_val c) else None
  end.

Definition parse_digits (s : string) : option Z :=
  match s with EmptyString => None | _ => digits_val s 0 end.

Definition clamp_num (z : Z) : Z * option num_error :=
  if bool_decide (in_int64 z) then (z, None) else (clamp64 z, Some ErrRange).

Definition strip_sign (s : string) : bool * string :=
  match s with
  | String "-" s' => (true, s')
  | String "+" s' => (false, s')
  | _ => (false, s)
  end.

Definition ParseInt10 (s : string) : Z * option num_error :=
  let '(neg, ds) := strip_sign s in
  match parse_digits ds with
  | None => (0, Some ErrSyntax)
  | Some n => clamp_num (if neg then - n else n)
  end.

Definition Atoi : string → Z * option num_error := ParseInt10.

(** [strconv.ParseInt(s, 0, 64)]: a base prefix and digit-separating
    underscores are allowed. *)
Definition letter_digit (c : ascii) : option Z :=
  let l := lower_char c in
  if is_digit c then Some (digit_val c)
  else if is_lower l then Some (byte_val l - 87) else None.

Fixpoint base_digits (base : Z) (s : string) (acc : Z) : option Z :=
  match s with
  | EmptyString => Some acc
  | String "_" s' => base_digits base s' acc
  | String c s' =>
      match letter_digit c with
      | Some d => if d <? base then base_digits base s' (acc * base + d) else None
      | None => None
      end
  end.

Fixpoint underscore_go (hex : bool) (saw : ascii) (s : string) : bool :=
  match s with
  | EmptyString => negb (Ascii.eqb saw "_")
  | String c s' =>
      if is_digit c || (hex && in_range 97 102 (lower_char c)) then underscore_go hex "0" s'
      else if Ascii.eqb c "_" then Ascii.eqb saw "0" && underscore_go hex "_" s'
      else if Ascii.eqb saw "_" then false
      else underscore_go hex "!" s'
  end.

Definition base_prefix (s : string) : option (Z * string) :=
  match s with
  | String "0" (String c (String _ _ as rest)) =>
      let l := lower_char c in
      if Ascii.eqb l "b" then Some (2, rest)
      else if Ascii.eqb l "o" then Some (8, rest)
      else if Ascii.eqb l "x" then Some (16, rest) else None
  | _ => None
  end.

Definition underscoreOK (s : string) : bool :=
  match s with
  | String "0" (String c rest) =>
      let l := lower_char c in
      if Ascii.eqb l "b" || Ascii.eqb l "o" || Ascii.eqb l "x"
      then underscore_go (Ascii.eqb l "x") "0" rest
      else underscore_go false "^" s
  | _ => underscore_go false "^" s
  end.

Definition ParseUint0 (s : string) : option Z :=
  match s with
  | EmptyString => None
  | _ =>
      let '(base, ds) :=
        match base_prefix s with
        | Some br => br
        | None => match s with String "0" s' => (8, s') | _ => (10, s) end
        end in
      match base_digits base ds 0 with
      | Some n => if negb (string_exists (Ascii.eqb "_") s) || underscoreOK s then Some n else None
      | None => None
      end
  end.

Definition ParseInt0 (s : string) : Z * option num_error :=
  let '(neg, ds) := strip_sign s in
  match ParseUint0 ds with
  | None => (0, Some ErrSyntax)
  | Some n => clamp_num (if neg then - n else n)
  end.

(** [strconv.Itoa]. *)
Definition Itoa (z : Z) : string := NilZero.string_of_int (Z.to_int z).

(** ** Printing and parsing integers *)

Lemma digits_val_uint d acc :
  digits_val (NilEmpty.string_of_uint d) (Z.pos acc) = Some (Z.pos (Pos.of_uint_acc d acc)).
Proof.
  revert acc. induction d; intros acc; [done|..]; cbn [NilEmpty.string_of_uint digits_val];
    match goal with |- context [is_digit ?c] => change (is_digit c) with true end;
    cbn [Pos.of_uint_acc]; rewrite <-IHd; f_equal; unfold digit_val, byte_val; simpl; lia.
Qed.

Lemma digits_val_uint0 d :
  digits_val (NilEmpty.string_of_uint d) 0 = Some (Z.of_N (Pos.of_uint d)).
Proof.
  induction d; [done|exact IHd|..];
    (cbn [NilEmpty.string_of_uint digits_val];
     match goal with |- context [is_digit ?c] => change (is_digit c) with true end;
     exact (digits_val_uint d _)).
Qed.

Lemma parse_digits_uint d :
  parse_digits (NilZero.string_of_uint d) = Some (Z.of_N (Pos.of_uint d)).
Proof.
  destruct d; [done|..];
    (etrans; [|apply (digits_val_uint0 (_ d))]; reflexivity).
Qed.

Lemma strip_sign_uint d :
  strip_sign (NilZero.string_of_uint d) = (false, NilZero.string_of_uint d).
Proof. by destruct d. Qed.

Lemma ParseInt10_Itoa z : in_int64 z → ParseInt10 (Itoa z) = (z, None).
Proof.
  intros Hz. unfold ParseInt10, Itoa. rewrite <-(DecimalZ.of_to z) in Hz |- * at 2.
  destruct (Z.to_int z) as [d|d]; cbn [NilZero.string_of_int Z.of_int] in *.
  - rewrite strip_sign_uint, parse_digits_uint. unfold clamp_num.
    by rewrite bool_decide_eq_true_2.
  - cbn [strip_sign]. rewrite parse_digits_uint. unfold clamp_num.
    rewrite bool_decide_eq_true_2; done.
Qed.

(** ** Strings as lists of bytes *)

Lemma HasPrefix_app p s : HasPrefix (p +:+ s) p = true.
Proof.
  unfold HasPrefix. induction p as [|c p IH]; simpl; [by destruct s|].
  change (String c p +:+ s) with (String c (p +:+ s)). cbn.
  destruct (ascii_dec c c); done.
Qed.

Lemma HasPrefix_inv s p : HasPrefix s p = true → ∃ t, s = p +:+ t.
Proof.
  unfold HasPrefix. revert s. induction p as [|c p IH]; intros s; [by exists s|].
  destruct s as [|d s]; [done|]. cbn. destruct (ascii_dec c d) as [->|]; [|done].
  intros [t ->]%IH. by exists t.
Qed.

Lemma drop_bytes_app p s : drop_bytes (String.length p) (p +:+ s) = s.
Proof. by induction p. Qed.

Lemma TrimPrefix_app p s : TrimPrefix (p +:+ s) p = s.
Proof. unfold TrimPrefix. by rewrite HasPrefix_app, drop_bytes_app. Qed.

Lemma string_app_cons c (a b : string) : String c a +:+ b = String c (a +:+ b).
Proof. done. Qed.

Lemma length_string_app a b : String.length (a +:+ b) = (String.length a + String.length b)%nat.
Proof. induction a as [|c a IH]; [done|]. rewrite string_app_cons. cbn [String.length]. by rewrite IH. Qed.

Lemma take_bytes_app a b : take_bytes (String.length a) (a +:+ b) = a.
Proof. induction a as [|c a IH]; [by destruct b|]. rewrite string_app_cons. cbn [take_bytes String.length]. by rewrite IH. Qed.

Lemma take_bytes_all n s : (String.length s ≤ n)%nat → take_bytes n s = s.
Proof. revert n. induction s as [|c s IH]; intros [|n] H; cbn in *; try done; try lia. by rewrite IH by lia. Qed.

Lemma take_bytes_length n s : String.length (take_bytes n s) = Nat.min n (String.length s).
Proof. revert n. induction s as [|c s IH]; intros [|n]; cbn; try done. by rewrite IH. Qed.

Lemma take_bytes_cut n a b : (String.length a ≤ n)%nat → take_bytes n (a +:+ b) = a +:+ take_bytes (n - String.length a) b.
Proof. revert n. induction a as [|c a IH]; intros n H; cbn in *; [by rewrite Nat.sub_0_r|]. destruct n as [|n]; [lia|]. rewrite !string_app_cons. cbn [take_bytes]. f_equal. apply IH. lia. Qed.

Lemma take_drop_bytes n s : take_bytes n s +:+ drop_bytes n s = s.
Proof. revert n. induction s as [|c s IH]; intros [|n]; try done. cbn [take_bytes drop_bytes]. rewrite string_app_cons. f_equal. apply IH. Qed.

Lemma string_app_assoc (a b c : string) : (a +:+ b) +:+ c = a +:+ (b +:+ c).
Proof.
  induction a as [|x a IH]; [done|].
  change (String x ((a +:+ b) +:+ c) = String x (a +:+ (b +:+ c))). by rewrite IH.
Qed.

Lemma string_app_nil_r (a : string) : a +:+ EmptyString = a.
Proof. induction a as [|x a IH]; [done|]. change (String x (a +:+ EmptyString) = String x a). by rewrite IH. Qed.

#[export] Instance string_app_inj p : Inj (=) (=) (String.append p).
Proof. intros s t. induction p as [|c p IH]; [done|]. intros [= ?]. auto. Qed.

Lemma string_all_app p a b : string_all p (a +:+ b) = string_all p a && string_all p b.
Proof.
  induction a as [|c a IH]; [done|].
  change (p c && string_all p (a +:+ b) = p c && string_all p a && string_all p b).
  by rewrite IH, andb_assoc.
Qed.

Lemma rev_bytes_app s acc : rev_bytes s acc = rev_bytes s EmptyString +:+ acc.
Proof.
  revert acc. induction s as [|c s IH]; intros acc; [done|]. simpl.
  rewrite IH, (IH (String c EmptyString)), string_app_assoc. done.
Qed.

Lemma reverse_string_cons c s : reverse_string (String c s) = reverse_string s +:+ String c EmptyString.
Proof. unfold reverse_string. simpl. by rewrite rev_bytes_app. Qed.

Lemma reverse_string_app a b : reverse_string (a +:+ b) = reverse_string b +:+ reverse_string a.
Proof.
  induction a as [|c a IH]; [by rewrite string_app_nil_r|].
  change (reverse_string (String c (a +:+ b)) = reverse_string b +:+ reverse_string (String c a)).
  by rewrite !reverse_string_cons, IH, string_app_assoc.
Qed.

Lemma reverse_string_involutive s : reverse_string (reverse_string s) = s.
Proof.
  induction s as [|c s IH]; [done|].
  by rewrite reverse_string_cons, reverse_string_app, IH.
Qed.

(** ** Splitting and joining *)

Definition lacks (c : ascii) (s : string) : bool := string_all (λ d, negb (Ascii.eqb d c)) s.

Lemma lacks_app c a b : lacks c (a +:+ b) = lacks c a && lacks c b.
Proof. apply string_all_app. Qed.

Lemma Split_lacks c s : lacks c s = true → Split s c = [s].
Proof.
  induction s as [|d s IH]; [done|]. unfold lacks in *. simpl. intros H. bool_simpl.
  rewrite H. by rewrite IH.
Qed.

Lemma Split_app c a b : lacks c a = true →
  Split (a +:+ String c b) c = a :: Split b c.
Proof.
  induction a as [|d a IH]; unfold lacks in *; simpl.
  - intros _. change (Split (String c b) c = "" :: Split b c). simpl. by rewrite Ascii.eqb_refl.
  - intros H. bool_simpl. change (Split (String d (a +:+ String c b)) c = String d a :: Split b c).
    simpl. rewrite H. by rewrite IH.
Qed.

Lemma Split_Join c ws : ws ≠ [] → Forall (λ w, lacks c w = true) ws →
  Split (Join ws (String c EmptyString)) c = ws.
Proof.
  intros Hne Hws. induction Hws as [|w ws Hw Hws IH]; [done|].
  destruct ws as [|w' ws]; [by apply Split_lacks|].
  change (Split (w +:+ String c (Join (w' :: ws) (String c EmptyString))) c = w :: w' :: ws).
  rewrite Split_app by done. by rewrite IH.
Qed.

Lemma Split_not_nil c s : Split s c ≠ [].
Proof. destruct s as [|d s]; [done|]. cbn. destruct (Ascii.eqb d c); [done|]. by destruct (Split s c). Qed.

(** The pieces of a text hold no separator, and a separator ends a piece. *)
Lemma Split_all_lack c s : Forall (λ w, lacks c w = true) (Split s c).
Proof.
  induction s as [|d s IH]; [by repeat constructor|]. cbn. destruct (Ascii.eqb d c) eqn:E; [by constructor|].
  destruct (Split s c) as [|w ws]; constructor; unfold lacks in *; cbn [string_all]; rewrite ?E; cbn; [done|constructor|by apply Forall_cons in IH as [? _]|by apply Forall_cons in IH as [_ ?]].
Qed.

Lemma Split_cut c a b : Split (a +:+ String c b) c = Split a c ++ Split b c.
Proof.
  induction a as [|d a IH]; [change ("" +:+ String c b) with (String c b); cbn; by rewrite Ascii.eqb_refl|].
  rewrite string_app_cons. cbn [Split]. rewrite IH. destruct (Ascii.eqb d c); [done|].
  pose proof (Split_not_nil c a). by destruct (Split a c).
Qed.

Lemma Cut_one_app c a b : lacks c a = true → Cut (a +:+ b) (String c "") = (λ p, (a +:+ p.1, p.2)) <$> Cut b (String c "").
Proof.
  induction a as [|d a IH]; intros H; [change ("" +:+ b) with b; destruct (Cut b (String c "")) as [[]|]; reflexivity|].
  unfold lacks in *. cbn [string_all] in H. apply andb_true_iff in H as [Hd H]. rewrite string_app_cons. cbn [Cut].
  assert (HasPrefix (String d (a +:+ b)) (String c "") = false) as ->.
  { unfold HasPrefix. cbn [String.prefix]. destruct (ascii_dec c d) as [->|]; [by rewrite Ascii.eqb_refl in Hd|done]. }
  rewrite IH by done. by destruct (Cut b _) as [[]|].
Qed.

Lemma Cut_one_here c b : Cut (String c b) (String c "") = Some ("", b).
Proof. cbn [Cut]. unfold HasPrefix. cbn [String.prefix]. destruct (ascii_dec c c); [|done]. by destruct b. Qed.

(** ** Trimming *)

Lemma TrimLeftFunc_nil p s : TrimLeftFunc p s = EmptyString ↔ string_all p s = true.
Proof.
  induction s as [|c s IH]; [done|]. cbn [TrimLeftFunc string_all]. destruct (p c); [by rewrite IH|].
  by split.
Qed.

Lemma string_all_reverse p s : string_all p (reverse_string s) = string_all p s.
Proof.
  induction s as [|c s IH]; [done|]. rewrite reverse_string_cons, string_all_app, IH. cbn [string_all].
  rewrite andb_true_r. apply andb_comm.
Qed.

Lemma TrimRightFunc_nil p s : TrimRightFunc p s = EmptyString ↔ string_all p s = true.
Proof.
  unfold TrimRightFunc. rewrite <-(string_all_reverse p s), <-TrimLeftFunc_nil. split; [|by intros ->].
  intros H. apply (f_equal reverse_string) in H. by rewrite reverse_string_involutive in H.
Qed.

Lemma TrimFunc_nil p s : TrimFunc p s = EmptyString ↔ string_all p s = true.
Proof.
  unfold TrimFunc. rewrite TrimRightFunc_nil. split.
  - induction s as [|c s IH]; [done|]. cbn [TrimLeftFunc string_all]. destruct (p c) eqn:E; [done|]. cbn. by rewrite E.
  - intros H. by apply TrimLeftFunc_nil in H as ->.
Qed.

Lemma Trim_nil s cut : Trim s cut = EmptyString ↔ string_all (in_cutset cut) s = true.
Proof. apply TrimFunc_nil. Qed.

(** Trimming bytes that do not occur changes nothing. *)
Lemma TrimLeftFunc_id p s : string_all (λ c, negb (p c)) s = true → TrimLeftFunc p s = s.
Proof. destruct s as [|c s]; [done|]. cbn. by destruct (p c). Qed.

Lemma TrimRightFunc_id p s : string_all (λ c, negb (p c)) s = true → TrimRightFunc p s = s.
Proof. intros H. unfold TrimRightFunc. rewrite TrimLeftFunc_id by (by rewrite string_all_reverse). apply reverse_string_involutive. Qed.

Lemma TrimFunc_id p s : string_all (λ c, negb (p c)) s = true → TrimFunc p s = s.
Proof. intros H. unfold TrimFunc. rewrite TrimLeftFunc_id by done. by apply TrimRightFunc_id. Qed.

Lemma string_all_impl p q s : (∀ c, p c = true → q c = true) → string_all p s = true → string_all q s = true.
Proof. intros H. induction s as [|c s IH]; cbn; [done|]. rewrite !andb_true_iff. intros [? ?]. auto. Qed.

Lemma string_all_Join p ws sep : Forall (λ w, string_all p w = true) ws → string_all p sep = true → string_all p (Join ws sep) = true.
Proof.
  intros H Hs. induction H as [|w [|w' ws] Hw _ IH]; [done|done|].
  change (Join (w :: w' :: ws) sep) with (w +:+ sep +:+ Join (w' :: ws) sep). by rewrite !string_all_app, Hw, Hs, IH.
Qed.

Lemma string_all_ext p q s : (∀ c, p c = q c) → string_all p s = string_all q s.
Proof. intros H. induction s as [|c s IH]; cbn; [done|]. by rewrite H, IH. Qed.

(** ** Words: visible bytes only; a name is not empty. *)

Definition visible (c : ascii) : bool := (33 <=? byte_val c) && (byte_val c <=? 126).
Definition word (s : string) : Prop := string_all visible s = true.
Definition name (s : string) : Prop := word s ∧ s ≠ "".

Lemma visible_not c d : visible d = true → visible c = false → Ascii.eqb d c = false.
Proof. intros Hd Hc. destruct (Ascii.eqb_spec d c) as [->|]; congruence. Qed.

Lemma word_lacks c s : visible c = false → word s → lacks c s = true.
Proof.
  intros Hc. apply string_all_impl. intros d Hd. by rewrite (visible_not c d).
Qed.

Lemma word_not_space s : word s → string_all (λ c, negb (is_space c)) s = true.
Proof.
  apply string_all_impl. intros c Hc. unfold visible in Hc.
  destruct c as [[] [] [] [] [] [] [] []]; try reflexivity; discriminate Hc.
Qed.

Lemma word_TrimSpace s : word s → TrimSpace s = s.
Proof. intros H. by apply TrimFunc_id, word_not_space. Qed.

Lemma word_app a b : word (a +:+ b) ↔ word a ∧ word b.
Proof. unfold word. rewrite string_all_app. apply andb_true_iff. Qed.

Lemma word_cons c s : word (String c s) ↔ visible c = true ∧ word s.
Proof. unfold word. cbn [string_all]. apply andb_true_iff. Qed.

Lemma visible_not_space c : visible c = true → is_space c = false.
Proof.
  intros H. assert (word (String c EmptyString)) as Hw by (apply word_cons; by split).
  apply word_not_space in Hw. cbn in Hw. rewrite andb_true_r in Hw. by apply negb_true_iff.
Qed.

(** *** Fields *)

(** A non-empty run of bytes that are not white space. *)
Definition spaceless (s : string) : bool := string_all (λ c, negb (is_space c)) s.
Definition field (s : string) : Prop := spaceless s = true ∧ s ≠ "".

Lemma name_field s : name s → field s.
Proof. intros [H Hne]. split; [by apply word_not_space|done]. Qed.

Lemma spaceless_app a b : spaceless (a +:+ b) = spaceless a && spaceless b.
Proof. apply string_all_app. Qed.

Lemma spaceless_lacks c s : is_space c = true → spaceless s = true → lacks c s = true.
Proof. intros Hc. apply string_all_impl. intros d Hd. apply negb_true_iff, Ascii.eqb_neq. intros ->. by rewrite Hc in Hd. Qed.

Lemma fields_go_field w rest cur : spaceless w = true → w ≠ EmptyString ∨ is_Some cur →
  fields_go (w +:+ rest) cur = fields_go rest (Some (reverse_string w +:+ default EmptyString cur)).
Proof.
  revert cur. induction w as [|c w IH]; intros cur Hw Hne.
  - destruct Hne as [?|[v ->]]; done.
  - cbn [spaceless string_all] in Hw. apply andb_true_iff in Hw as [Hc%negb_true_iff Hw]. rewrite string_app_cons. cbn [fields_go]. rewrite Hc.
    rewrite IH by eauto. do 2 f_equal. rewrite reverse_string_cons, string_app_assoc. done.
Qed.

Lemma fields_go_word w rest cur : word w → w ≠ EmptyString ∨ is_Some cur →
  fields_go (w +:+ rest) cur = fields_go rest (Some (reverse_string w +:+ default EmptyString cur)).
Proof. intros H. by apply fields_go_field, word_not_space. Qed.

Lemma Fields_one w : field w → Fields w = [w].
Proof.
  intros [Hw Hne]. rewrite <- (string_app_nil_r w) at 1. unfold Fields. rewrite fields_go_field by auto. cbn. by rewrite string_app_nil_r, reverse_string_involutive.
Qed.

Lemma Fields_cons w c s : field w → is_space c = true → Fields (w +:+ String c s) = w :: Fields s.
Proof.
  intros [Hw Hne] Hc. unfold Fields. rewrite fields_go_field by auto. cbn [fields_go default]. rewrite Hc. by rewrite string_app_nil_r, reverse_string_involutive.
Qed.

Lemma Fields_spaces p s : string_all is_space p = true → Fields (p +:+ s) = Fields s.
Proof.
  unfold Fields. induction p as [|c p IH]; [done|]. cbn [string_all]. intros [Hc Hp]%andb_true_iff. rewrite string_app_cons. cbn [fields_go]. rewrite Hc. by apply IH.
Qed.

Lemma Fields_field s : Forall field (Fields s).
Proof.
  unfold Fields. assert (∀ cur, match cur with Some w => field w | None => True end → Forall field (fields_go s cur)) as H; [|by apply (H None)].
  assert (∀ w, field w → field (reverse_string w)) as Hrev.
  { intros w [Hw Hne]. split; [unfold spaceless; by rewrite string_all_reverse|]. intros E. apply Hne. by rewrite <- (reverse_string_involutive w), E. }
  induction s as [|c s IH]; intros cur Hcur; cbn [fields_go].
  - destruct cur; [|by constructor]. constructor; [by apply Hrev|constructor].
  - destruct (is_space c) eqn:Ec.
    + destruct cur; [constructor; [by apply Hrev|]|]; by apply IH.
    + apply IH. split; [|done]. cbn [spaceless string_all]. rewrite Ec. cbn. destruct cur as [w|]; [apply Hcur|done].
Qed.

Lemma Fields_Join ws : Forall name ws → Fields (Join ws " ") = ws.
Proof.
  unfold Fields. induction 1 as [|w ws [Hw Hne] Hws IH]; [done|].
  destruct ws as [|w' ws]; cbn [Join].
  - rewrite <-(string_app_nil_r w), fields_go_word by auto. cbn. by rewrite !string_app_nil_r, reverse_string_involutive.
  - rewrite fields_go_word by auto. rewrite string_app_cons. cbn [fields_go].
    change (is_space " ") with true. cbn [default]. rewrite string_app_nil_r, reverse_string_involutive. f_equal. apply IH.
Qed.

(** *** Trimming around a text *)

Lemma TrimLeftFunc_app p a b : string_all p a = true → TrimLeftFunc p (a +:+ b) = TrimLeftFunc p b.
Proof. induction a as [|c a IH]; [done|]. rewrite string_app_cons. cbn [string_all TrimLeftFunc]. intros [Hc H]%andb_true_iff. rewrite Hc. by apply IH. Qed.

Lemma TrimLeftFunc_head p c s : p c = false → TrimLeftFunc p (String c s) = String c s.
Proof. cbn. by intros ->. Qed.

Lemma TrimRightFunc_app p a b : b ≠ EmptyString → string_all (λ c, negb (p c)) b = true → TrimRightFunc p (a +:+ b) = a +:+ b.
Proof.
  intros Hne Hb. unfold TrimRightFunc. rewrite reverse_string_app.
  assert (string_all (λ c, negb (p c)) (reverse_string b) = true) as Hr by by rewrite string_all_reverse.
  destruct (reverse_string b) as [|c r] eqn:E.
  - destruct Hne. by rewrite <-(reverse_string_involutive b), E.
  - cbn in Hr. apply andb_true_iff in Hr as [Hc _]. apply negb_true_iff in Hc. rewrite string_app_cons, TrimLeftFunc_head by done.
    by rewrite <-string_app_cons, <-E, <-reverse_string_app, reverse_string_involutive.
Qed.

Lemma word_uint d : word (NilEmpty.string_of_uint d).
Proof. unfold word. induction d; cbn; [done|..]; by rewrite IHd. Qed.

Lemma word_Itoa z : word (Itoa z).
Proof.
  unfold Itoa, NilZero.string_of_int. destruct (Z.to_int z) as [d|d]; unfold NilZero.string_of_uint; destruct d; try apply word_uint.
  all: unfold word; cbn [string_all]; rewrite ?andb_true_r; first [apply word_uint|reflexivity].
Qed.

Lemma Itoa_not s z : match s with String c _ => negb (is_digit c) && negb (Ascii.eqb c "-") | EmptyString => true end = true → Itoa z ≠ s.
Proof.
  intros Hs <-. unfold Itoa, NilZero.string_of_int in Hs. destruct (Z.to_int z) as [d|d]; destruct d; discriminate Hs.
Qed.

Lemma HasPrefix_char c d s : HasPrefix (String d s) (String c EmptyString) = Ascii.eqb c d.
Proof.
  unfold HasPrefix. cbn. destruct (ascii_dec c d) as [->|Hn]; [rewrite Ascii.eqb_refl; by destruct s|].
  by rewrite (proj2 (Ascii.eqb_neq _ _) Hn).
Qed.

Lemma TrimLeftFunc_snoc p c s : p c = false → TrimLeftFunc p (s +:+ String c EmptyString) = TrimLeftFunc p s +:+ String c EmptyString.
Proof.
  intros Hc. induction s as [|d s IH]; [by apply TrimLeftFunc_head|]. rewrite string_app_cons. cbn [TrimLeftFunc].
  destruct (p d); [done|]. by rewrite string_app_cons.
Qed.

(** A text whose first byte stays keeps it. *)
(** Trimming on the right takes off a suffix of such bytes. *)
Lemma TrimRightFunc_split p s : ∃ t, s = TrimRightFunc p s +:+ t ∧ string_all p t = true.
Proof.
  assert (∀ r, ∃ t, reverse_string r = reverse_string (TrimLeftFunc p r) +:+ t ∧ string_all p t = true) as H.
  { induction r as [|c r IH]; [by exists ""|]. cbn [TrimLeftFunc]. destruct (p c) eqn:Hc.
    - destruct IH as (t & E & Ht). exists (t +:+ String c ""). rewrite reverse_string_cons, E, string_app_assoc. split; [done|].
      rewrite string_all_app, Ht. cbn. by rewrite Hc.
    - exists "". by rewrite string_app_nil_r. }
  specialize (H (reverse_string s)). by rewrite reverse_string_involutive in H.
Qed.

Lemma TrimFunc_head p c s : p c = false → TrimFunc p (String c s) = String c (TrimRightFunc p s).
Proof.
  intros Hc. unfold TrimFunc, TrimRightFunc. rewrite TrimLeftFunc_head, reverse_string_cons, TrimLeftFunc_snoc, reverse_string_app by done.
  done.
Qed.
