(* ===== verification/InvCache.v ===== *)
(** The local inventory snapshot (internal/invcache/snapshot.go) with the store
    rows it holds (internal/store).  A snapshot is what an offline command reads
    instead of Postgres: hosts with their last status, and the command grants
    last confirmed for each identity.  The file is the JSON of the record; the
    model keeps the record and the version it was written under, since nothing
    but a version test is made on the text. *)

From Stdlib Require Import Floats.SpecFloat.
From S2P Require Import Prelude GoStrings.

(** ** Rows *)

Record Server := {
  Hostname : string;
  IP : string;
  Port : Z;
  User : string;
  JumpVia : string;
  DC : string;
  CARole : string;
  CAKeyVersion : Z;
  LastSeenUp : option time_t;
  ExtraIPs : list string;
  ServerState : string;
}.

Record ServerStatus := {
  StatusHostname : string;
  LastSeenAt : time_t;
  AgentVersion : string;
  OS : string;
  Kernel : string;
  UptimeSeconds : Z;
  Load1 : option spec_float;
  MemoryUsedPct : option spec_float;
  DiskRootUsedPct : option spec_float;
  ObservedIPs : list string;
  MountCount : option Z;
  CollectMs : option Z;
}.

Record ServerWithStatus := { server : Server; status : option ServerStatus }.

(** ** Snapshot *)

Definition snapshotVersion : Z := 1.

Record GrantRecord := { gr_Commands : list string; gr_CapturedAt : time_t }.

(** A Go map that may be nil reads like an empty one; [SetGrants] is the only
    writer and allocates it first. *)
Record Snapshot := {
  Version : Z;
  CapturedAt : time_t;
  Servers : list ServerWithStatus;
  Grants : gmap string GrantRecord;
}.

Definition empty_snapshot : Snapshot :=
  {| Version := 0; CapturedAt := 0; Servers := []; Grants := ∅ |}.

Definition Age (s : Snapshot) (now : time_t) : duration := Sub now (CapturedAt s).

Definition HasInventory (s : option Snapshot) : bool :=
  match s with
  | None => false
  | Some s => negb (IsZero (CapturedAt s)) && bool_decide (0 < length (Servers s))%nat
  end.

Definition NeedsRefresh (s : Snapshot) (now : time_t) (interval : duration) : bool :=
  negb (HasInventory (Some s)) || (interval <=? Age s now).

Definition Expired (s : Snapshot) (now : time_t) (maxAge : duration) : bool :=
  (0 <? maxAge) && HasInventory (Some s) && (maxAge <? Age s now).

(** Rows by (dc, hostname), the order of the Postgres listings. *)
Definition server_less : ServerWithStatus → ServerWithStatus → bool :=
  less_then string_ltb (λ r, DC (server r)) (less_on string_ltb (λ r, Hostname (server r))).

Definition sortServers : list ServerWithStatus → list ServerWithStatus := sort server_less.

Definition SetInventory (s : Snapshot) (servers : list ServerWithStatus) (now : time_t) : Snapshot :=
  {| Version := Version s; CapturedAt := now; Servers := sortServers servers; Grants := Grants s |}.

Definition Grant (s : option Snapshot) (identity : string) : option GrantRecord :=
  match s with None => None | Some s => Grants s !! identity end.

Definition SetGrants (s : Snapshot) (identity : string) (commands : list string) (now : time_t)
    : Snapshot :=
  if decide (identity = "") then s
  else {| Version := Version s; CapturedAt := CapturedAt s; Servers := Servers s;
          Grants := <[identity := {| gr_Commands := sort_strings commands; gr_CapturedAt := now |}]>
                      (Grants s) |}.

Inductive capture_error := CaptureRead (msg : string) | CaptureEmpty.

Definition Capture (list_all : result string (list ServerWithStatus)) (snap : Snapshot) (now : time_t)
    : result capture_error Snapshot :=
  match list_all with
  | Err e => Err (CaptureRead e)
  | Ok [] => Err CaptureEmpty
  | Ok servers => Ok (SetInventory snap servers now)
  end.

(** ** The file

    [None] is a missing (or unreadable, or unparsable) file: [Load] answers
    [ErrNoSnapshot] to all of them. *)

Inductive store_error := ErrNoSnapshot | ErrNoPath | ErrUpdate | ErrDisk.

(** [disk_ok] is whether a write succeeds at this moment: creating the private
    directory and the atomic rename can both fail. *)
Record FileStore := { path_set : bool; disk_ok : bool; file : option Snapshot }.

Definition Load (f : FileStore) : result store_error Snapshot :=
  if negb (path_set f) then Err ErrNoSnapshot
  else match file f with
       | None => Err ErrNoSnapshot
       | Some snap => if Version snap =? snapshotVersion then Ok snap else Err ErrNoSnapshot
       end.

Definition Save (f : FileStore) (snap : Snapshot) : result store_error FileStore :=
  if negb (path_set f) then Err ErrNoPath
  else if negb (disk_ok f) then Err ErrDisk
  else Ok {| path_set := path_set f; disk_ok := disk_ok f;
             file := Some {| Version := snapshotVersion; CapturedAt := CapturedAt snap;
                             Servers := Servers snap; Grants := Grants snap |} |}.

(** [Update] loads, applies [fn] and writes back; [fn] refusing abandons the
    write. *)
Definition Update (f : FileStore) (fn : Snapshot → option Snapshot) : result store_error FileStore :=
  let snap := match Load f with Ok s => s | Err _ => empty_snapshot end in
  match fn snap with
  | None => Err ErrUpdate
  | Some snap' => Save f snap'
  end.

Definition Clear (f : FileStore) : FileStore :=
  if path_set f then {| path_set := true; disk_ok := disk_ok f; file := None |} else f.

(** ** The cache behind the command line (internal/app/inventory.go) *)

Record CacheConfig := { CacheDisabled : bool; cache_file : FileStore }.

Definition readCache (c : CacheConfig) : option Snapshot :=
  if CacheDisabled c then None
  else match Load (cache_file c) with Ok s => Some s | Err _ => None end.

Definition updateCache (c : CacheConfig) (fn : Snapshot → option Snapshot) : CacheConfig :=
  if CacheDisabled c then c
  else match Update (cache_file c) fn with
       | Ok f => {| CacheDisabled := CacheDisabled c; cache_file := f |}
       | Err _ => c
       end.

Definition RecordGrants (c : CacheConfig) (identity : string) (commands : list string) (now : time_t)
    : CacheConfig :=
  if decide (identity = "") then c
  else updateCache c (λ snap, Some (SetGrants snap identity commands now)).

Definition CachedGrants (c : CacheConfig) (identity : string) : option GrantRecord :=
  match readCache c with None => None | Some snap => Grant (Some snap) identity end.

Definition RefreshSnapshot (c : CacheConfig) (list_all : result string (list ServerWithStatus))
    (interval : duration) (now : time_t) : CacheConfig :=
  updateCache c (λ snap,
    if NeedsRefresh snap now interval then
      match Capture list_all snap now with Ok s => Some s | Err _ => None end
    else None).

(** ** Facts used by the authorization gate *)

Lemma CachedGrants_RecordGrants c id cmds now id' :
  CachedGrants (RecordGrants c id cmds now) id' =
    if decide (id = "") then CachedGrants c id'
    else if CacheDisabled c || negb (path_set (cache_file c)) || negb (disk_ok (cache_file c))
    then CachedGrants c id'
    else if decide (id = id') then Some {| gr_Commands := sort_strings cmds; gr_CapturedAt := now |}
    else CachedGrants c id'.
Proof.
  unfold RecordGrants. case_decide as Hid; [done|].
  unfold updateCache, CachedGrants, readCache. destruct (CacheDisabled c) eqn:Hd.
  { simpl. by rewrite Hd. }
  unfold Update, Save. destruct (cache_file c) as [[] [] fl] eqn:Hf; simpl; rewrite ?Hd, ?Hf; try done.
  rewrite ?Hd, ?Hf. unfold SetGrants. rewrite decide_False by done. simpl.
  case_decide as Hne.
  - subst. by rewrite lookup_insert_eq.
  - rewrite lookup_insert_ne by done. unfold Load; simpl.
    destruct fl as [s|]; simpl; [destruct (Version s =? snapshotVersion)|]; simpl;
      by rewrite ?lookup_empty.
Qed.

Lemma Capture_Grants rows s now s' : Capture rows s now = Ok s' → Grants s' = Grants s.
Proof. unfold Capture. by destruct rows as [[|r rows]|]; intros [= <-]. Qed.

(** An update that leaves the grants of the snapshot alone leaves the cached
    grants alone, whether or not the write happens. *)
Lemma CachedGrants_updateCache c fn id :
  (∀ s s', fn s = Some s' → Grants s' = Grants s) →
  CachedGrants (updateCache c fn) id = CachedGrants c id.
Proof.
  intros Hfn. unfold updateCache, CachedGrants, readCache.
  destruct (CacheDisabled c) eqn:Hd; rewrite ?Hd; [done|].
  unfold Update, Save.
  destruct (fn _) as [s'|] eqn:Hs'; simpl; rewrite ?Hd; [|done].
  apply Hfn in Hs'. unfold Load. destruct (path_set (cache_file c)) eqn:Hp; simpl; rewrite ?Hd, ?Hp; [|done].
  destruct (disk_ok (cache_file c)); simpl; rewrite ?Hd, ?Hp; [|done].
  simpl. rewrite Hs'. unfold Load. rewrite Hp. simpl.
  destruct (file (cache_file c)) as [s|]; [destruct (Version s =? snapshotVersion)|];
    simpl; by rewrite ?lookup_empty.
Qed.

(** An inventory refresh never touches the grants. *)
Lemma CachedGrants_RefreshSnapshot c rows interval now id :
  CachedGrants (RefreshSnapshot c rows interval now) id = CachedGrants c id.
Proof.
  apply CachedGrants_updateCache. intros s s'.
  destruct (NeedsRefresh _ _ _); [|done].
  destruct (Capture _ _ _) eqn:Hc; [|done]. intros [= <-]. by eapply Capture_Grants.
Qed.
