(* ===== verification/Authz.v ===== *)
(** App-layer authorization (internal/authz/authz.go) and the adapter that wires
    it to the local snapshot (internal/cli/internal/cmdkit/rbac.go).

    A decision talks to three outside parties: the Vault token lookup, the grant
    source in Postgres and the offline cache.  The model gives each an answer
    and records, in order, what the code asked of them, so that theorems can
    speak of the calls made as well as of the verdict. *)

From S2P Require Import Prelude GoStrings InvCache.

(** ** Catalog *)

Definition Class : Type := string.
Definition ClassRead : Class := "read".
Definition ClassMutate : Class := "mutate".
Definition ClassAdmin : Class := "admin".

Definition gated_entries : list (string * Class) :=
  [("ssh", ClassMutate); ("exec", ClassMutate); ("inject", ClassMutate);
   ("dns", ClassMutate); ("install", ClassMutate);
   ("add", ClassMutate); ("delete", ClassMutate); ("edit", ClassMutate); ("sync", ClassMutate);
   ("ip", ClassMutate); ("wg", ClassRead); ("wg-sync", ClassMutate); ("wg-connect", ClassMutate);
   ("wg-failover", ClassMutate); ("openstack-farm", ClassMutate);
   ("spec", ClassMutate);
   ("users", ClassRead); ("list", ClassRead); ("whoami", ClassRead); ("check", ClassRead);
   ("admin", ClassAdmin);
   ("retention", ClassRead);
   ("kv", ClassRead); ("kv-set", ClassMutate);
   ("k8s", ClassRead); ("k8s-access", ClassMutate); ("k8s-inventory", ClassMutate);
   ("node-access", ClassMutate); ("node-access-shell", ClassMutate)].

Definition gated : gmap string Class := list_to_map gated_entries.

Definition ClassOf (name : string) : option Class := gated !! name.

(** Ranging over a Go map visits its entries in no particular order: [visit] is
    whatever order the runtime chose. *)
Definition GatedCommands (visit : list (string * Class)) : list string :=
  sort_strings (visit.*1).

Definition GrantableCommands (visit : list (string * Class)) : list string :=
  sort_strings ((filter (λ e, e.2 = ClassMutate) visit).*1).

Definition Grantable (visit : list (string * Class)) : list string :=
  "*" :: GrantableCommands visit.

Definition HasAdminPolicy (pols admins : list string) : bool :=
  existsb (slices_Contains pols) admins.

(** ** Errors *)

Inductive error :=
| ErrUninitialized
| ErrSource (msg : string)
| ErrWrap (msg : string) (cause : error)
| ErrTokenLookup (cause : error)
| ErrAdminOnly (name label : string)
| ErrNoIdentity
| ErrNotInitialized
| ErrNotPermitted (name identity : string)
| ErrOfflineCommand (name : string) (cause : error)
| ErrNoCached (identity name : string) (cause : error)
| ErrCachedExpired (identity : string) (age window : duration) (cause : error)
| ErrNotPermittedCached (name identity : string).

(** [errors.Is(err, ErrUninitialized)]: the chain of [%w] wraps is walked. *)
Fixpoint IsUninitializedRBAC (e : error) : bool :=
  match e with
  | ErrUninitialized => true
  | ErrWrap _ c | ErrTokenLookup c | ErrOfflineCommand _ c
  | ErrNoCached _ _ c | ErrCachedExpired _ _ _ c => IsUninitializedRBAC c
  | _ => false
  end.

(** ** Authorization and cached grants *)

Record Command := { Name : string; CmdClass : Class }.

Record Authorization := {
  Identity : string;
  Policies : list string;
  Admin : bool;
  Commands : gmap string bool;
  rbacUninitialized : bool;
}.

Definition map_has (m : gmap string bool) (k : string) : bool := default false (m !! k).

Definition Allows (az : Authorization) (command : string) : bool :=
  Admin az || map_has (Commands az) "*" || map_has (Commands az) command.

Record CachedGrant := { cg_Commands : list string; ConfirmedAt : time_t }.

Definition Has (g : CachedGrant) (command : string) : bool :=
  slices_Contains (cg_Commands g) "*" || slices_Contains (cg_Commands g) command.

Definition GrantAge (g : CachedGrant) (now : time_t) : duration :=
  Z.max (Sub now (ConfirmedAt g)) 0.

Definition GrantExpired (g : CachedGrant) (now : time_t) (window : duration) : bool :=
  (window <=? 0) || (window <? GrantAge g now).

Definition offlineAllowed : gmap string bool := {[ "ssh" := true ]}.

(** ** The parties a decision consults *)

(** What the calls below observe, in call order. *)
Inductive event :=
| EvTokenLookup
| EvOpenGrants
| EvQueryGrants (identity : string) (answer : result error (gmap string bool))
| EvCleanup
| EvRecord (identity : string) (commands : list string)
| EvDegraded (command : string) (age : duration).

Definition GrantSource : Type := string → result error (gmap string bool).

(** [Lookup] is [None] when the callback is nil; [Record] and [OnDegraded] only
    matter by being present; [clock] is what [now()] answers. *)
Record Offline := {
  Lookup : option (string → option CachedGrant);
  has_Record : bool;
  Window : duration;
  has_OnDegraded : bool;
  clock : time_t;
}.

Record Authorizer := {
  TokenIdentity : result error (string * list string);
  openGrants : result error (GrantSource * bool);  (* the source, and whether it has a cleanup *)
  offline : option Offline;
  admins : list string;
}.

Definition enabled (o : option Offline) : bool :=
  match o with
  | None => false
  | Some o => bool_decide (is_Some (Lookup o)) && (0 <? Window o)
  end.

Definition adminsLabel (a : Authorizer) : string :=
  match admins a with
  | [] => "an admin policy, and none are configured"
  | l => Join l " or "
  end.

(** ** Effects: a result with the calls made on the way *)

Definition gate (A : Type) : Type := list event * result error A.

#[export] Instance gate_ret : MRet gate := λ A x, ([], Ok x).
#[export] Instance gate_bind : MBind gate := λ A B f m,
  match m with
  | (ev, Ok x) => let '(ev', r) := f x in (ev ++ ev', r)
  | (ev, Err e) => (ev, Err e)
  end.

Definition emit (e : event) : gate () := ([e], Ok tt).
Definition fail {A} (e : error) : gate A := ([], Err e).
Definition lift {A} (r : result error A) : gate A := ([], r).

(** Go's [if err := m; err != nil { return h(err) }] where [h] recovers. *)
Definition catch {A B} (m : gate A) (k : A → gate B) (h : error → gate B) : gate B :=
  match m with
  | (ev, Ok x) => let '(ev', r) := k x in (ev ++ ev', r)
  | (ev, Err e) => let '(ev', r) := h e in (ev ++ ev', r)
  end.

(** A deferred cleanup runs after the body, on every path out of it. *)
Definition deferred {A} (has : bool) (m : gate A) : gate A :=
  let '(ev, r) := m in (ev ++ (if has then [EvCleanup] else []), r).

(** ** Decisions *)

Definition lookup_token (a : Authorizer) : gate (string * list string) :=
  emit EvTokenLookup;;
  match TokenIdentity a with
  | Ok r => mret r
  | Err e => fail (ErrTokenLookup e)
  end.

Definition recordGrants (a : Authorizer) (identity : string) (commands : gmap string bool) : gate () :=
  match offline a with
  | None => mret tt
  | Some o =>
      if negb (has_Record o) || bool_decide (identity = "") then mret tt
      else emit (EvRecord identity ((filter (λ e, e.2 = true) (map_to_list commands)).*1))
  end.

Definition with_commands (az : Authorization) (cmds : gmap string bool) : Authorization :=
  {| Identity := Identity az; Policies := Policies az; Admin := Admin az;
     Commands := cmds; rbacUninitialized := rbacUninitialized az |}.

Definition with_uninitialized (az : Authorization) : Authorization :=
  {| Identity := Identity az; Policies := Policies az; Admin := Admin az;
     Commands := Commands az; rbacUninitialized := true |}.

Definition query (gs : GrantSource) (identity : string) : gate (gmap string bool) :=
  emit (EvQueryGrants identity (gs identity));; lift (gs identity).

Definition loadGrants (a : Authorizer) (az : Authorization) : gate Authorization :=
  emit EvOpenGrants;;
  '(gs, cleanup) ← lift (openGrants a);
  deferred cleanup
    (catch (query gs (Identity az))
       (λ cmds, recordGrants a (Identity az) cmds;; mret (with_commands az cmds))
       (λ err, if IsUninitializedRBAC err then mret (with_uninitialized az) else fail err)).

Definition no_authorization : Authorization :=
  {| Identity := ""; Policies := []; Admin := false; Commands := ∅; rbacUninitialized := false |}.

(** Both of the Go method's values: the authorization as far as it was read, and
    the error, if any. *)
Definition Snapshot (a : Authorizer) : list event * (Authorization * option error) :=
  match lookup_token a with
  | (ev, Err e) => (ev, (no_authorization, Some e))
  | (ev, Ok (identity, pols)) =>
      let az := {| Identity := identity; Policies := pols; Admin := HasAdminPolicy pols (admins a);
                   Commands := ∅; rbacUninitialized := false |} in
      if Admin az then (ev, (az, None))
      else match loadGrants a az with
           | (ev', Ok az') => (ev ++ ev', (az', None))
           | (ev', Err e) => (ev ++ ev', (az, Some e))
           end
  end.

Definition checkOffline (a : Authorizer) (cmd : Command) (identity : string) (cause : error) : gate () :=
  if negb (enabled (offline a)) then fail cause
  else if negb (map_has offlineAllowed (Name cmd)) then fail (ErrOfflineCommand (Name cmd) cause)
  else match o ← offline a; lookup ← Lookup o; Some (o, lookup identity) with
       | None => fail cause (* not reached: [enabled] *)
       | Some (o, None) => fail (ErrNoCached identity (Name cmd) cause)
       | Some (o, Some grant) =>
           let now := clock o in
           let age := GrantAge grant now in
           if GrantExpired grant now (Window o) then
             fail (ErrCachedExpired identity (Truncate age Minute) (Window o) cause)
           else if negb (Has grant (Name cmd)) then
             fail (ErrNotPermittedCached (Name cmd) identity)
           else if has_OnDegraded o then emit (EvDegraded (Name cmd) age)
           else mret tt
       end.

Definition Check (a : Authorizer) (cmd : Command) : gate () :=
  if decide (Name cmd = "") then mret tt
  else
    '(identity, pols) ← lookup_token a;
    if HasAdminPolicy pols (admins a) then mret tt
    else if decide (CmdClass cmd = ClassRead) then mret tt
    else if decide (CmdClass cmd = ClassAdmin) then fail (ErrAdminOnly (Name cmd) (adminsLabel a))
    else if decide (identity = "") then fail ErrNoIdentity
    else
      let az := {| Identity := identity; Policies := []; Admin := false;
                   Commands := ∅; rbacUninitialized := false |} in
      catch (loadGrants a az)
        (λ az,
          if rbacUninitialized az then fail ErrNotInitialized
          else if Allows az (Name cmd) then mret tt
          else fail (ErrNotPermitted (Name cmd) identity))
        (λ err, checkOffline a cmd identity err).

(** ** The CLI's wiring (cmdkit/rbac.go) *)

Definition CachedGrant_of (g : GrantRecord) : CachedGrant :=
  {| cg_Commands := gr_Commands g; ConfirmedAt := gr_CapturedAt g |}.

Definition offlineConfig (c : CacheConfig) (window : duration) (now : time_t) : option Offline :=
  if CacheDisabled c then None
  else Some {| Lookup := Some (λ identity, CachedGrant_of <$> CachedGrants c identity);
               has_Record := true; Window := window; has_OnDegraded := true; clock := now |}.

Definition NewAuthorizer (tok : result error (string * list string))
    (open : result error (GrantSource * bool)) (adm : list string)
    (c : CacheConfig) (window : duration) (now : time_t) : Authorizer :=
  {| TokenIdentity := tok; openGrants := open; offline := offlineConfig c window now; admins := adm |}.

(** What a decision's calls do to the cache: only [Record] writes. *)
Definition apply_event (now : time_t) (c : CacheConfig) (e : event) : CacheConfig :=
  match e with EvRecord identity cmds => RecordGrants c identity cmds now | _ => c end.

Definition apply_events (now : time_t) (c : CacheConfig) (evs : list event) : CacheConfig :=
  foldl (apply_event now) c evs.

(** ** What the pieces compute *)

Definition record_events (a : Authorizer) (identity : string) (commands : gmap string bool) : list event :=
  (recordGrants a identity commands).1.

Lemma recordGrants_run a id cmds : recordGrants a id cmds = (record_events a id cmds, Ok tt).
Proof. unfold record_events, recordGrants. destruct (offline a); [|done]. by case_if. Qed.

Lemma loadGrants_run a az :
  loadGrants a az =
    match openGrants a with
    | Err e => ([EvOpenGrants], Err e)
    | Ok (gs, cleanup) =>
        let close := if cleanup then [EvCleanup] else [] in
        let asked := [EvOpenGrants; EvQueryGrants (Identity az) (gs (Identity az))] in
        match gs (Identity az) with
        | Ok cmds => (asked ++ record_events a (Identity az) cmds ++ close, Ok (with_commands az cmds))
        | Err e => (asked ++ close,
                    if IsUninitializedRBAC e then Ok (with_uninitialized az) else Err e)
        end
    end.
Proof.
  unfold loadGrants, emit, lift. simpl. destruct (openGrants a) as [[gs cu]|e]; [|done]. simpl.
  unfold catch, query, emit, lift. simpl. destruct (gs (Identity az)) as [cmds|e]; simpl.
  - rewrite recordGrants_run. simpl. by rewrite !app_nil_r.
  - by destruct (IsUninitializedRBAC e).
Qed.

Lemma lookup_token_run a :
  lookup_token a = ([EvTokenLookup],
    match TokenIdentity a with Ok r => Ok r | Err e => Err (ErrTokenLookup e) end).
Proof. unfold lookup_token, emit, fail. simpl. by destruct (TokenIdentity a). Qed.

(** The offline verdict in one line. *)
Definition offline_allows (o : option Offline) (cmd identity : string) : option duration :=
  o ← o; lookup ← Lookup o; grant ← lookup identity;
  if (0 <? Window o) && map_has offlineAllowed cmd
     && negb (GrantExpired grant (clock o) (Window o)) && Has grant cmd
  then Some (GrantAge grant (clock o)) else None.

Lemma checkOffline_ok a cmd id cause :
  is_ok (checkOffline a cmd id cause).2 = bool_decide (is_Some (offline_allows (offline a) (Name cmd) id)).
Proof.
  unfold checkOffline, enabled, offline_allows. destruct (offline a) as [o|]; [|done].
  destruct (Lookup o) as [lookup|] eqn:Hl; simpl; rewrite ?Hl; [|done]. simpl.
  destruct (0 <? Window o); simpl; [|by destruct (lookup id)].
  destruct (map_has offlineAllowed (Name cmd)); simpl; [|by destruct (lookup id)].
  destruct (lookup id) as [g|]; simpl; [|done].
  destruct (GrantExpired g (clock o) (Window o)); simpl; [done|].
  destruct (Has g (Name cmd)); simpl; [|done]. by destruct (has_OnDegraded o).
Qed.

Lemma checkOffline_events a cmd id cause e :
  e ∈ (checkOffline a cmd id cause).1 → ∃ age, e = EvDegraded (Name cmd) age.
Proof.
  unfold checkOffline. intros He.
  repeat (case_match; simpl in He; try by apply elem_of_nil in He);
    apply list_elem_of_singleton in He; eauto.
Qed.

(** The verdict a caller is owed, in terms of the outside answers alone. *)
Definition online_allows (a : Authorizer) (cmd identity : string) : bool :=
  match openGrants a with
  | Ok (gs, _) => match gs identity with
                  | Ok cmds => map_has cmds "*" || map_has cmds cmd
                  | Err _ => false
                  end
  | Err _ => false
  end.

(** The failure that sends a decision to the cache: the source cannot be opened,
    or the query fails for a reason other than a missing schema. *)
Definition unreachable (a : Authorizer) (identity : string) : bool :=
  match openGrants a with
  | Ok (gs, _) => match gs identity with Ok _ => false | Err e => negb (IsUninitializedRBAC e) end
  | Err _ => true
  end.

Definition verdict (a : Authorizer) (cmd : Command) : bool :=
  bool_decide (Name cmd = "") ||
  match TokenIdentity a with
  | Err _ => false
  | Ok (identity, pols) =>
      HasAdminPolicy pols (admins a) || bool_decide (CmdClass cmd = ClassRead) ||
      (bool_decide (CmdClass cmd ≠ ClassAdmin) && bool_decide (identity ≠ "") &&
       (online_allows a (Name cmd) identity ||
        (unreachable a identity &&
         bool_decide (is_Some (offline_allows (offline a) (Name cmd) identity)))))
  end.

Lemma Check_run a cmd : Name cmd ≠ "" →
  Check a cmd =
    match TokenIdentity a with
    | Err e => ([EvTokenLookup], Err (ErrTokenLookup e))
    | Ok (identity, pols) =>
        if HasAdminPolicy pols (admins a) then ([EvTokenLookup], Ok tt)
        else if decide (CmdClass cmd = ClassRead) then ([EvTokenLookup], Ok tt)
        else if decide (CmdClass cmd = ClassAdmin)
          then ([EvTokenLookup], Err (ErrAdminOnly (Name cmd) (adminsLabel a)))
        else if decide (identity = "") then ([EvTokenLookup], Err ErrNoIdentity)
        else
          let az := {| Identity := identity; Policies := []; Admin := false;
                       Commands := ∅; rbacUninitialized := false |} in
          match loadGrants a az with
          | (ev, Ok az) =>
              (EvTokenLookup :: ev,
               if rbacUninitialized az then Err ErrNotInitialized
               else if Allows az (Name cmd) then Ok tt
               else Err (ErrNotPermitted (Name cmd) identity))
          | (ev, Err e) =>
              let '(ev', r) := checkOffline a cmd identity e in (EvTokenLookup :: ev ++ ev', r)
          end
    end.
Proof.
  intros Hn. unfold Check. rewrite decide_False by done. rewrite lookup_token_run.
  destruct (TokenIdentity a) as [[id pols]|e]; [|done]. simpl. unfold fail.
  destruct (HasAdminPolicy pols (admins a)); [done|].
  destruct (decide (CmdClass cmd = ClassRead)); [done|].
  destruct (decide (CmdClass cmd = ClassAdmin)); [done|].
  destruct (decide (id = "")); [done|]. unfold catch.
  destruct (loadGrants a _) as [ev [az|e]].
  - by destruct (rbacUninitialized az), (Allows az (Name cmd)); simpl; rewrite ?app_nil_r.
  - by destruct (checkOffline a cmd id e) as [ev' r].
Qed.

(** ** Theorems *)

(** The gate's verdict is exactly the policy: an ungated command passes;
    otherwise the token must be readable, and then an admin policy passes, a
    read command passes, an admin command does not, and anything else needs a
    non-empty identity with a grant — from Postgres when it answers, from the
    offline cache only when Postgres could not be asked. *)
Theorem Check_verdict a cmd : is_ok (Check a cmd).2 = verdict a cmd.
Proof.
  unfold verdict. case_bool_decide as Hn; simpl.
  { unfold Check. by rewrite decide_True. }
  rewrite Check_run by done. destruct (TokenIdentity a) as [[id pols]|e]; [|done].
  destruct (HasAdminPolicy pols (admins a)); [done|].
  destruct (decide (CmdClass cmd = ClassRead)) as [E|E].
  { by rewrite bool_decide_eq_true_2. }
  rewrite bool_decide_eq_false_2 by done. simpl.
  destruct (decide (CmdClass cmd = ClassAdmin)) as [E'|E'].
  { by rewrite bool_decide_eq_false_2 by tauto. }
  rewrite bool_decide_eq_true_2 by done. simpl.
  destruct (decide (id = "")) as [E''|E''].
  { by rewrite bool_decide_eq_false_2 by tauto. }
  rewrite bool_decide_eq_true_2 by done. simpl.
  rewrite loadGrants_run. unfold online_allows, unreachable. simpl.
  destruct (openGrants a) as [[gs cu]|e].
  - destruct (gs id) as [cmds|e]; simpl.
    + unfold Allows. simpl. rewrite orb_false_r. by destruct (_ || _).
    + destruct (IsUninitializedRBAC e); [done|]. simpl.
      rewrite <-(checkOffline_ok a cmd id e). by destruct (checkOffline a cmd id e).
  - simpl. rewrite <-(checkOffline_ok a cmd id e). by destruct (checkOffline a cmd id e).
Qed.

Lemma record_events_inv a id cmds e :
  e ∈ record_events a id cmds →
  ∃ l, e = EvRecord id l ∧ id ≠ "" ∧ ∀ c, c ∈ l ↔ cmds !! c = Some true.
Proof.
  unfold record_events, recordGrants. destruct (offline a) as [o|]; [|by intros ?%elem_of_nil].
  destruct (negb (has_Record o) || bool_decide (id = "")) eqn:Hr; [by intros ?%elem_of_nil|].
  bool_simpl. simpl. intros ->%list_elem_of_singleton. eexists. split_and!; [done..|].
  intros c. rewrite list_elem_of_fmap. split.
  - intros ([c' b] & -> & [Hb Hin]%list_elem_of_filter). simpl in *. subst.
    by apply elem_of_map_to_list in Hin.
  - intros Hc. exists (c, true). split; [done|]. apply list_elem_of_filter.
    split; [done|]. by apply elem_of_map_to_list.
Qed.

(** How often a call shows up. *)
Definition opens (evs : list event) : nat :=
  length (filter (λ e, Is_true (match e with EvOpenGrants => true | _ => false end)) evs).
Definition cleanups (evs : list event) : nat :=
  length (filter (λ e, Is_true (match e with EvCleanup => true | _ => false end)) evs).

Lemma opens_app l1 l2 : opens (l1 ++ l2) = (opens l1 + opens l2)%nat.
Proof. unfold opens. by rewrite list.filter_app, length_app. Qed.
Lemma cleanups_app l1 l2 : cleanups (l1 ++ l2) = (cleanups l1 + cleanups l2)%nat.
Proof. unfold cleanups. by rewrite list.filter_app, length_app. Qed.

Lemma no_opens evs : (∀ e, e ∈ evs → (∃ i l, e = EvRecord i l) ∨ (∃ c a, e = EvDegraded c a)) →
  opens evs = 0%nat ∧ cleanups evs = 0%nat.
Proof.
  unfold opens, cleanups. induction evs as [|e evs IH]; intros H; [done|].
  destruct IH as [IH1 IH2]; [intros; apply H; by right|].
  destruct (H e) as [(i & l & ->)|(c & a & ->)]; [by left|..]; rewrite !list.filter_cons; simpl; done.
Qed.

Definition owes_cleanup (a : Authorizer) : nat :=
  match openGrants a with Ok (_, true) => 1 | _ => 0 end.

Lemma loadGrants_balanced a az :
  opens (loadGrants a az).1 = 1%nat ∧ cleanups (loadGrants a az).1 = owes_cleanup a.
Proof.
  rewrite loadGrants_run. unfold owes_cleanup.
  destruct (openGrants a) as [[gs cu]|e]; [|done].
  destruct (gs (Identity az)) as [cmds|e] eqn:Hgs; simpl.
  - destruct (no_opens (record_events a (Identity az) cmds)) as [H1 H2].
    { intros e (l & -> & _)%record_events_inv. eauto. }
    unfold opens, cleanups in *. rewrite !list.filter_cons, !list.filter_app. simpl.
    rewrite !length_app, H1, H2. by destruct cu.
  - by destruct cu.
Qed.

(** The grant source is opened only for a decision that needs grants — a
    named, non-read, non-admin command of an identified caller without an admin
    policy — then exactly once, and a source that was opened is closed exactly
    once, whatever the verdict. *)
Theorem Check_opens_when_needed a cmd :
  let needs := match TokenIdentity a with
               | Ok (identity, pols) =>
                   bool_decide (Name cmd ≠ "") && negb (HasAdminPolicy pols (admins a)) &&
                   bool_decide (CmdClass cmd ≠ ClassRead) && bool_decide (CmdClass cmd ≠ ClassAdmin) &&
                   bool_decide (identity ≠ "")
               | Err _ => false
               end in
  opens (Check a cmd).1 = (if needs then 1 else 0)%nat ∧
  cleanups (Check a cmd).1 = (if needs then owes_cleanup a else 0)%nat.
Proof.
  intros needs. subst needs. destruct (decide (Name cmd = "")) as [Hn|Hn].
  { unfold Check. rewrite decide_True by done. destruct (TokenIdentity a) as [[id pols]|e]; [|done].
    by rewrite bool_decide_eq_false_2 by tauto. }
  rewrite Check_run by done. destruct (TokenIdentity a) as [[id pols]|e]; [|done].
  rewrite (bool_decide_eq_true_2 (Name cmd ≠ "")) by done.
  destruct (HasAdminPolicy pols (admins a)); [done|].
  destruct (decide (CmdClass cmd = ClassRead)) as [E|E].
  { by rewrite (bool_decide_eq_false_2 (CmdClass cmd ≠ ClassRead)) by tauto. }
  rewrite (bool_decide_eq_true_2 (CmdClass cmd ≠ ClassRead)) by done.
  destruct (decide (CmdClass cmd = ClassAdmin)) as [E'|E'].
  { by rewrite (bool_decide_eq_false_2 (CmdClass cmd ≠ ClassAdmin)) by tauto. }
  rewrite (bool_decide_eq_true_2 (CmdClass cmd ≠ ClassAdmin)) by done.
  destruct (decide (id = "")) as [E''|E''].
  { by rewrite (bool_decide_eq_false_2 (id ≠ "")) by tauto. }
  rewrite (bool_decide_eq_true_2 (id ≠ "")) by done. simpl.
  set (az := {| Identity := id; Policies := []; Admin := false;
                Commands := ∅; rbacUninitialized := false |}).
  destruct (loadGrants_balanced a az) as [H1 H2].
  destruct (loadGrants a az) as [ev [az'|e]]; simpl in *; [done|].
  destruct (no_opens (checkOffline a cmd id e).1) as [H3 H4].
  { intros e' (age & ->)%checkOffline_events. eauto. }
  destruct (checkOffline a cmd id e) as [ev' r]; simpl in *.
  unfold opens, cleanups in *. rewrite !list.filter_cons. simpl.
  rewrite !list.filter_app, !length_app. lia.
Qed.

(** `whoami` and the gate agree: whenever the snapshot reads cleanly, the
    gate lets a named mutate-class command through exactly when the snapshot
    says it is allowed. *)
Theorem Check_agrees_with_Snapshot a cmd az :
  (Snapshot a).2 = (az, None) →
  Name cmd ≠ "" → CmdClass cmd ≠ ClassRead → CmdClass cmd ≠ ClassAdmin →
  Admin az = true ∨ Identity az ≠ "" →
  is_ok (Check a cmd).2 = Allows az (Name cmd).
Proof.
  intros Hs Hn Hr Ha Hid. rewrite Check_verdict. unfold verdict, Snapshot in *.
  rewrite lookup_token_run in Hs. rewrite bool_decide_eq_false_2 by done.
  destruct (TokenIdentity a) as [[id pols]|e]; [|done]. simpl in *.
  rewrite (bool_decide_eq_false_2 (CmdClass cmd = ClassRead)),
    (bool_decide_eq_true_2 (CmdClass cmd ≠ ClassAdmin)) by done.
  destruct (HasAdminPolicy pols (admins a)) eqn:Hadm; simpl in *.
  { injection Hs as <-. unfold Allows. simpl. done. }
  rewrite loadGrants_run in Hs. unfold online_allows, unreachable, Allows. simpl in *.
  destruct (openGrants a) as [[gs cu]|e]; [|done].
  destruct (gs id) as [cmds|e]; simpl in *.
  - injection Hs as <-. simpl in *. destruct Hid as [?|Hid]; [congruence|].
    rewrite bool_decide_eq_true_2 by done. by rewrite orb_false_r.
  - destruct (IsUninitializedRBAC e); [|done]. injection Hs as <-. simpl in *.
    unfold map_has. rewrite !lookup_empty. simpl. by rewrite andb_false_r.
Qed.

Lemma gated_entries_NoDup : NoDup gated_entries.*1.
Proof. apply (bool_decide_unpack _). by vm_compute. Qed.

Lemma gated_entries_perm : map_to_list gated ≡ₚ gated_entries.
Proof. apply map_to_list_to_map, gated_entries_NoDup. Qed.

Lemma ClassOf_entries c cls : ClassOf c = Some cls ↔ (c, cls) ∈ gated_entries.
Proof. unfold ClassOf. by rewrite <-elem_of_map_to_list, gated_entries_perm. Qed.

Lemma ClassOf_classes c cls : ClassOf c = Some cls →
  cls = ClassRead ∨ cls = ClassMutate ∨ cls = ClassAdmin.
Proof.
  rewrite ClassOf_entries. intros Hin.
  assert (Forall (λ e, e.2 = ClassRead ∨ e.2 = ClassMutate ∨ e.2 = ClassAdmin) gated_entries) as H.
  { apply (bool_decide_unpack _). by vm_compute. }
  rewrite Forall_forall in H. exact (H _ Hin).
Qed.

Lemma GrantableCommands_elem visit c : visit ≡ₚ map_to_list gated →
  c ∈ GrantableCommands visit ↔ ClassOf c = Some ClassMutate.
Proof.
  intros Hv. unfold GrantableCommands, sort_strings. rewrite sort_elem_of, list_elem_of_fmap.
  unfold ClassOf. rewrite <-elem_of_map_to_list. split.
  - intros ([c' cls] & -> & [Hc Hin]%list_elem_of_filter). simpl in *. subst cls. by rewrite <-Hv.
  - intros Hin. exists (c, ClassMutate). split; [done|]. apply list_elem_of_filter.
    split; [done|]. by rewrite Hv.
Qed.

Definition with_open (a : Authorizer) (open : result error (GrantSource * bool)) : Authorizer :=
  {| TokenIdentity := TokenIdentity a; openGrants := open; offline := offline a; admins := admins a |}.

(** The grant menu is the mutate class of the catalog, sorted, whatever
    order the runtime ranges over the catalog in; and it offers only what a
    grant can change: for a catalogued command outside it the verdict is the
    same whatever the grant source answers. *)
Theorem Grantable_menu visit : visit ≡ₚ map_to_list gated →
  Grantable visit = "*" :: GrantableCommands gated_entries ∧
  (∀ c, c ∈ GrantableCommands visit ↔ ClassOf c = Some ClassMutate) ∧
  (∀ c cls a open, ClassOf c = Some cls → c ∉ GrantableCommands visit →
     is_ok (Check (with_open a open) {| Name := c; CmdClass := cls |}).2 =
     is_ok (Check a {| Name := c; CmdClass := cls |}).2).
Proof.
  intros Hv. split_and!.
  - assert (visit ≡ₚ gated_entries) as Hv' by (by rewrite Hv, gated_entries_perm).
    assert (GrantableCommands visit = GrantableCommands gated_entries) as Heq.
    { unfold GrantableCommands, sort_strings. apply (sort_proper string_ltb).
      apply fmap_Permutation. by apply filter_Permutation. }
    unfold Grantable. by rewrite Heq.
  - intros c. by apply GrantableCommands_elem.
  - intros c cls a open Hc Hng. rewrite GrantableCommands_elem in Hng by done.
    rewrite !Check_verdict. unfold verdict. simpl.
    destruct (TokenIdentity a) as [[id pols]|e]; [|done].
    destruct (ClassOf_classes c cls Hc) as [->|[->| ->]].
    + by rewrite (bool_decide_eq_true_2 (ClassRead = ClassRead)), !orb_true_r.
    + done.
    + by rewrite (bool_decide_eq_false_2 (ClassAdmin ≠ ClassAdmin)) by tauto.
Qed.

Lemma Grantable_menu_witness :
  map_to_list gated ≡ₚ map_to_list gated ∧ Grantable (map_to_list gated) = "*" :: GrantableCommands gated_entries.
Proof. split; [reflexivity|]. apply (Grantable_menu (map_to_list gated)). reflexivity. Defined.

(** ** The gate over time

    One workstation's commands, one after the other, against a Postgres and a
    Vault that may answer anything or nothing: [history] is what Postgres
    actually confirmed, with the time it was confirmed at. *)

Record world := { cc : CacheConfig; history : list (string * gmap string bool * time_t) }.

Definition answers (now : time_t) (evs : list event) : list (string * gmap string bool * time_t) :=
  evs ≫= λ e, match e with EvQueryGrants id (Ok cmds) => [(id, cmds, now)] | _ => [] end.

Definition after_events (now : time_t) (evs : list event) (w : world) : world :=
  {| cc := apply_events now (cc w) evs; history := history w ++ answers now evs |}.

Definition set_disk (ok : bool) (c : CacheConfig) : CacheConfig :=
  {| CacheDisabled := CacheDisabled c;
     cache_file := {| path_set := path_set (cache_file c); disk_ok := ok;
                      file := file (cache_file c) |} |}.

Definition clear_cache (c : CacheConfig) : CacheConfig :=
  {| CacheDisabled := CacheDisabled c; cache_file := Clear (cache_file c) |}.

Section gate_over_time.
Context (window : duration).

Inductive step : world → world → Prop :=
| step_check w now tok open adm cmd :
    step w (after_events now (Check (NewAuthorizer tok open adm (cc w) window now) cmd).1 w)
| step_whoami w now tok open adm :
    step w (after_events now (Snapshot (NewAuthorizer tok open adm (cc w) window now)).1 w)
| step_refresh w now rows interval :
    step w {| cc := RefreshSnapshot (cc w) rows interval now; history := history w |}
| step_clear w : step w {| cc := clear_cache (cc w); history := history w |}
| step_disk w ok : step w {| cc := set_disk ok (cc w); history := history w |}.

(** Every cached grant is an answer Postgres gave to that identity, stamped
    with the time it gave it. *)
Definition cache_sound (w : world) : Prop :=
  ∀ id g, CachedGrants (cc w) id = Some g →
    ∃ cmds, (id, cmds, gr_CapturedAt g) ∈ history w ∧
            ∀ c, c ∈ gr_Commands g ↔ cmds !! c = Some true.

(** A run of calls that records only what it was just told. *)
Definition honest (evs : list event) : Prop :=
  ∀ id l, EvRecord id l ∈ evs →
    ∃ cmds, EvQueryGrants id (Ok cmds) ∈ evs ∧ ∀ c, c ∈ l ↔ cmds !! c = Some true.

Lemma apply_events_lookup now evs c id g :
  CachedGrants (apply_events now c evs) id = Some g →
  CachedGrants c id = Some g ∨
  ∃ l, EvRecord id l ∈ evs ∧ g = {| gr_Commands := sort_strings l; gr_CapturedAt := now |}.
Proof.
  revert c. induction evs as [|e evs IH]; intros c; [by left|].
  unfold apply_events. simpl. intros [Hc|(l & Hl & ->)]%IH; [|by right; eexists; split; [by right|]].
  destruct e; try (by left). simpl in Hc. rewrite CachedGrants_RecordGrants in Hc.
  destruct (decide (identity = "")); [by left|].
  destruct (CacheDisabled c || _ || _); [by left|].
  destruct (decide (identity = id)) as [->|]; [|by left].
  injection Hc as <-. right. eexists. split; [by left|done].
Qed.

Lemma after_events_sound now evs w : honest evs → cache_sound w → cache_sound (after_events now evs w).
Proof.
  intros He Hw id g Hg. simpl in Hg. apply apply_events_lookup in Hg as [Hg|(l & Hl & ->)].
  - destruct (Hw _ _ Hg) as (cmds & Hin & Hc). exists cmds. split; [|done].
    simpl. apply elem_of_app. by left.
  - destruct (He _ _ Hl) as (cmds & Hin & Hc). exists cmds. simpl. split.
    + apply elem_of_app. right. unfold answers. apply list_elem_of_bind.
      exists (EvQueryGrants id (Ok cmds)). split; [by left|done].
    + intros c. unfold sort_strings. by rewrite sort_elem_of.
Qed.

Lemma honest_app l1 l2 : honest l1 → honest l2 → honest (l1 ++ l2).
Proof.
  intros H1 H2 id l [Hl|Hl]%elem_of_app; [apply H1 in Hl|apply H2 in Hl];
    destruct Hl as (cmds & ? & ?); exists cmds; rewrite elem_of_app; auto.
Qed.

Lemma honest_no_record evs : (∀ id l, EvRecord id l ∉ evs) → honest evs.
Proof. intros H id l Hl. by destruct (H id l). Qed.

Lemma loadGrants_honest a az : honest (loadGrants a az).1.
Proof.
  rewrite loadGrants_run. destruct (openGrants a) as [[gs cu]|e];
    [|apply honest_no_record; intros id l; set_solver].
  destruct (gs (Identity az)) as [cmds|e] eqn:Hgs; simpl.
  - intros id l Hl. exists cmds.
    assert (EvRecord id l ∈ record_events a (Identity az) cmds) as Hr.
    { destruct cu; set_solver. }
    apply record_events_inv in Hr as (l' & [= -> ->] & _ & Hc). split; [|done]. set_solver.
  - apply honest_no_record. intros id l. destruct cu; set_solver.
Qed.

Lemma Check_honest a cmd : honest (Check a cmd).1.
Proof.
  destruct (decide (Name cmd = "")) as [Hn|Hn].
  { unfold Check. rewrite decide_True by done. apply honest_no_record. set_solver. }
  assert (honest [EvTokenLookup]) as Ht by (apply honest_no_record; set_solver).
  rewrite Check_run by done. destruct (TokenIdentity a) as [[id pols]|e]; [|done].
  destruct (HasAdminPolicy pols (admins a)); [done|].
  destruct (decide (CmdClass cmd = ClassRead)); [done|].
  destruct (decide (CmdClass cmd = ClassAdmin)); [done|].
  destruct (decide (id = "")); [done|]. cbv zeta.
  pose proof (loadGrants_honest a {| Identity := id; Policies := []; Admin := false;
    Commands := ∅; rbacUninitialized := false |}) as Hl.
  destruct (loadGrants a _) as [ev [az|e]]; simpl in *; [by apply (honest_app [_] _)|].
  destruct (checkOffline a cmd id e) as [ev' r] eqn:Hoff. simpl.
  apply (honest_app [_] _); [done|]. apply honest_app; [done|].
  apply honest_no_record. intros id' l Hin.
  assert (EvRecord id' l ∈ (checkOffline a cmd id e).1) as Hin' by (by rewrite Hoff).
  by apply checkOffline_events in Hin' as (? & ?).
Qed.

Lemma Snapshot_honest a : honest (Snapshot a).1.
Proof.
  assert (honest [EvTokenLookup]) as Ht by (apply honest_no_record; set_solver).
  unfold Snapshot. rewrite lookup_token_run. destruct (TokenIdentity a) as [[id pols]|e]; [|done].
  simpl. destruct (HasAdminPolicy pols (admins a)); [done|].
  pose proof (loadGrants_honest a {| Identity := id; Policies := pols; Admin := false;
    Commands := ∅; rbacUninitialized := false |}) as Hl.
  destruct (loadGrants a _) as [ev [az|e]]; apply (honest_app [_] _); done.
Qed.

Lemma CachedGrants_Clear c id : CachedGrants (clear_cache c) id = None ∨ CachedGrants (clear_cache c) id = CachedGrants c id.
Proof.
  unfold CachedGrants, clear_cache, readCache, Clear, Load. simpl.
  destruct (CacheDisabled c); [by left|]. destruct (path_set (cache_file c)) eqn:Hp; simpl; [by left|].
  rewrite Hp. by left.
Qed.

Lemma step_sound w w' : step w w' → cache_sound w → cache_sound w'.
Proof.
  intros [w0 now tok open adm cmd|w0 now tok open adm|w0 now rows interval|w0|w0 ok] Hw.
  - apply after_events_sound; [apply Check_honest|done].
  - apply after_events_sound; [apply Snapshot_honest|done].
  - intros id g. simpl. rewrite CachedGrants_RefreshSnapshot. apply Hw.
  - intros id g. simpl. destruct (CachedGrants_Clear (cc w0) id) as [-> | ->]; [done|apply Hw].
  - intros id g Hg. apply Hw. exact Hg.
Qed.

Lemma reachable_sound w w' : rtc step w w' → cache_sound w → cache_sound w'.
Proof. induction 1 as [|x y z Hxy _ IH]; [done|]. intros Hx. apply IH. by eapply step_sound. Qed.
End gate_over_time.

Lemma Check_queries a cmd id pols gs cu cmds :
  TokenIdentity a = Ok (id, pols) → HasAdminPolicy pols (admins a) = false →
  Name cmd ≠ "" → CmdClass cmd ≠ ClassRead → CmdClass cmd ≠ ClassAdmin → id ≠ "" →
  openGrants a = Ok (gs, cu) → gs id = Ok cmds →
  EvQueryGrants id (Ok cmds) ∈ (Check a cmd).1.
Proof.
  intros Ht Hadm Hn Hr Ha Hid Ho Hg. rewrite Check_run, Ht, Hadm by done.
  rewrite !decide_False by done. cbv zeta. rewrite loadGrants_run, Ho. simpl. rewrite Hg. simpl.
  set_solver.
Qed.

Lemma map_has_true m k : map_has m k = true ↔ m !! k = Some true.
Proof. unfold map_has. destruct (m !! k) as [[]|]; naive_solver. Qed.

(** C33. Degraded mode is never a privilege escalation.  On a workstation that
    started with no cache, after any sequence of gated commands, snapshots,
    cache refreshes, cache clears and disk failures: when a non-admin caller is
    let through for a command that needs a grant, Postgres itself confirmed to
    that identity a grant covering the command — either just now, or, for `ssh`
    alone and only with a positive window, no longer ago than the window. *)
Theorem gate_never_outgrants_Postgres window c0 w now tok open adm cmd id pols :
  let a := NewAuthorizer tok open adm (cc w) window now in
  (∀ i, CachedGrants c0 i = None) →
  rtc (step window) {| cc := c0; history := [] |} w →
  tok = Ok (id, pols) → HasAdminPolicy pols adm = false →
  Name cmd ≠ "" → CmdClass cmd ≠ ClassRead →
  (Check a cmd).2 = Ok tt →
  ∃ cmds t, (id, cmds, t) ∈ history (after_events now (Check a cmd).1 w) ∧
    (map_has cmds "*" = true ∨ map_has cmds (Name cmd) = true) ∧
    (t = now ∨ Name cmd = "ssh" ∧ 0 < window ∧ Z.max (Sub now t) 0 ≤ window).
Proof.
  intros a Hc0 Hreach -> Hadm Hn Hr Hok.
  assert (cache_sound w) as Hsound.
  { eapply reachable_sound; [done|]. intros i g. simpl. by rewrite Hc0. }
  assert (verdict a cmd = true) as Hv by (by rewrite <-Check_verdict, Hok).
  unfold verdict in Hv. rewrite bool_decide_eq_false_2 in Hv by done. simpl in Hv.
  rewrite Hadm, (bool_decide_eq_false_2 (CmdClass cmd = ClassRead)) in Hv by done. simpl in Hv.
  bool_simpl. apply orb_true_iff in H0 as [Hon|Hoff].
  - unfold online_allows in Hon. simpl in Hon. destruct open as [[gs cu]|e]; [|done].
    destruct (gs id) as [cmds|e] eqn:Hgs; [|done]. exists cmds, now. split_and!.
    + simpl. apply elem_of_app. right. apply list_elem_of_bind.
      exists (EvQueryGrants id (Ok cmds)). split; [by left|].
      by eapply Check_queries.
    + by apply orb_true_iff.
    + by left.
  - apply andb_true_iff in Hoff as [_ Hoff]. apply bool_decide_eq_true in Hoff as [age Hage].
    unfold offline_allows in Hage. simpl in Hage. unfold offlineConfig in Hage.
    destruct (CacheDisabled (cc w)); [done|]. simpl in Hage.
    destruct (CachedGrants (cc w) id) as [g|] eqn:Hg; [|done]. simpl in Hage.
    case_match eqn:Hif; [|done].
    apply andb_true_iff in Hif as [[[Hw Hssh]%andb_true_iff Hexp]%andb_true_iff Hhas].
    destruct (Hsound _ _ Hg) as (cmds & Hin & Hcmds). exists cmds, (gr_CapturedAt g). split_and!.
    + simpl. apply elem_of_app. by left.
    + rewrite !map_has_true, <-!Hcmds. unfold Has, slices_Contains in Hhas.
      apply orb_true_iff in Hhas as [?|?]; bool_simpl; auto.
    + right. unfold GrantExpired, GrantAge in Hexp. simpl in Hexp. bool_simpl.
      split_and!; [|lia|lia].
      unfold map_has, offlineAllowed in Hssh. destruct (decide (Name cmd = "ssh")); [done|].
      by rewrite lookup_singleton_ne in Hssh.
Qed.

(** A workstation that confirmed a grant online, then lost Postgres. *)
Definition demo_cache : CacheConfig :=
  {| CacheDisabled := false; cache_file := {| path_set := true; disk_ok := true; file := None |} |}.
Definition demo_source : GrantSource := λ _, Ok {[ "ssh" := true ]}.
Definition demo_token : result error (string * list string) := Ok ("alice", []).
Definition demo_ssh : Command := {| Name := "ssh"; CmdClass := ClassMutate |}.
Definition demo_world : world :=
  after_events 100 (Check (NewAuthorizer demo_token (Ok (demo_source, true)) [] demo_cache Hour 100) demo_ssh).1
    {| cc := demo_cache; history := [] |}.

Lemma gate_never_outgrants_Postgres_witness :
  ∃ cmds t, ("alice", cmds, t) ∈ history (after_events 160
      (Check (NewAuthorizer demo_token (Err (ErrSource "down")) [] (cc demo_world) Hour 160) demo_ssh).1
      demo_world) ∧
    (map_has cmds "*" = true ∨ map_has cmds "ssh" = true) ∧
    (t = 160 ∨ Name demo_ssh = "ssh" ∧ 0 < Hour ∧ Z.max (Sub 160 t) 0 ≤ Hour).
Proof.
  apply (gate_never_outgrants_Postgres Hour demo_cache demo_world 160 demo_token
           (Err (ErrSource "down")) [] demo_ssh "alice" []).
  - intros i. reflexivity.
  - eapply rtc_l; [|apply rtc_refl].
    exact (step_check Hour {| cc := demo_cache; history := [] |} 100 demo_token
             (Ok (demo_source, true)) [] demo_ssh).
  - reflexivity.
  - reflexivity.
  - discriminate.
  - discriminate.
  - vm_compute. reflexivity.
Defined.

Lemma Check_agrees_with_Snapshot_witness :
  is_ok (Check (NewAuthorizer demo_token (Ok (demo_source, true)) [] demo_cache Hour 100) demo_ssh).2 = true.
Proof.
  etransitivity.
  - apply (Check_agrees_with_Snapshot
             (NewAuthorizer demo_token (Ok (demo_source, true)) [] demo_cache Hour 100) demo_ssh
             {| Identity := "alice"; Policies := []; Admin := false;
                Commands := {[ "ssh" := true ]}; rbacUninitialized := false |}).
    + vm_compute. reflexivity.
    + discriminate.
    + discriminate.
    + discriminate.
    + right. discriminate.
  - vm_compute. reflexivity.
Defined.
