(* ===== verification/AuditSpool.v ===== *)
(** The audit outbox (internal/auditspool): records of connections that could
    not reach Postgres, kept as JSON lines and replayed later.

    A line is modelled as the JSON object it holds, or as [None] for bytes that
    are not a JSON object; a file is its terminated lines and the unterminated
    bytes after them, if any.  The directory is a map from the names the spool
    uses: the live file and the claim files a drain renames it to. *)

From S2P Require Import Prelude GoStrings.

(** ** Records and their on-disk form *)

Record AccessEntry := {
  VaultUser : string; Hostname : string; CertSerial : string; SignedAt : time_t; OK : bool;
  SourceIP : string; SourceAddr : string; ClientHost : string; ClientUser : string;
  TargetAddr : string; JumpVia : string; Error : string;
}.

Record spoolLine := {
  V : Z;
  l_vault_user : string; l_hostname : string; l_cert_serial : string; l_signed_at : time_t; l_ok : bool;
  l_source_ip : string; l_source_addr : string; l_client_host : string; l_client_user : string;
  l_target_addr : string; l_jump_via : string; l_error : string;
}.

Definition spoolVersion : Z := 1.

Definition toLine (e : AccessEntry) : spoolLine :=
  {| V := spoolVersion;
     l_vault_user := VaultUser e; l_hostname := Hostname e; l_cert_serial := CertSerial e;
     l_signed_at := SignedAt e; l_ok := OK e; l_source_ip := SourceIP e; l_source_addr := SourceAddr e;
     l_client_host := ClientHost e; l_client_user := ClientUser e; l_target_addr := TargetAddr e;
     l_jump_via := JumpVia e; l_error := Error e |}.

Definition entry (l : spoolLine) : AccessEntry :=
  {| VaultUser := l_vault_user l; Hostname := l_hostname l; CertSerial := l_cert_serial l;
     SignedAt := l_signed_at l; OK := l_ok l; SourceIP := l_source_ip l; SourceAddr := l_source_addr l;
     ClientHost := l_client_host l; ClientUser := l_client_user l; TargetAddr := l_target_addr l;
     JumpVia := l_jump_via l; Error := l_error l |}.

(** *** JSON objects, as [encoding/json] reads and writes them *)

Inductive jval := JNull | JStr (s : string) | JInt (z : Z) | JBool (b : bool) | JTime (t : time_t).
Definition json : Type := list (string * jval).
Definition line : Type := option json.

(** A key of the input names the field it equals up to case; the last one
    counts.  [null] leaves the field alone; a value of another type is an
    error. *)
Fixpoint json_field (o : json) (tag : string) : option jval :=
  match o with
  | [] => None
  | (k, v) :: o' =>
      match json_field o' tag with
      | Some v' => Some v'
      | None => if EqualFold k tag then Some v else None
      end
  end.

Definition get_str (o : json) (tag : string) : option string :=
  match json_field o tag with
  | None | Some JNull => Some "" | Some (JStr s) => Some s | _ => None end.
Definition get_int (o : json) (tag : string) : option Z :=
  match json_field o tag with
  | None | Some JNull => Some 0 | Some (JInt z) => Some z | _ => None end.
Definition get_bool (o : json) (tag : string) : option bool :=
  match json_field o tag with
  | None | Some JNull => Some false | Some (JBool b) => Some b | _ => None end.
Definition get_time (o : json) (tag : string) : option time_t :=
  match json_field o tag with
  | None | Some JNull => Some 0 | Some (JTime t) => Some t | _ => None end.

(** [time.Time] refuses to marshal a year outside 0..9999. *)
Definition day : Z := 24 * Hour.
Definition marshalable_time (t : time_t) : bool := (- 366 * day <=? t) && (t <? 3652059 * day).

Definition marshal_line (l : spoolLine) : option json :=
  if marshalable_time (l_signed_at l) then
    Some [("v", JInt (V l)); ("vault_user", JStr (l_vault_user l)); ("hostname", JStr (l_hostname l));
          ("cert_serial", JStr (l_cert_serial l)); ("signed_at", JTime (l_signed_at l)); ("ok", JBool (l_ok l));
          ("source_ip", JStr (l_source_ip l)); ("source_addr", JStr (l_source_addr l));
          ("client_host", JStr (l_client_host l)); ("client_user", JStr (l_client_user l));
          ("target_addr", JStr (l_target_addr l)); ("jump_via", JStr (l_jump_via l));
          ("error", JStr (l_error l))]
  else None.

Definition unmarshal_line (o : json) : option spoolLine :=
  v ← get_int o "v"; a ← get_str o "vault_user"; b ← get_str o "hostname"; c ← get_str o "cert_serial";
  d ← get_time o "signed_at"; e ← get_bool o "ok"; f ← get_str o "source_ip"; g ← get_str o "source_addr";
  h ← get_str o "client_host"; i ← get_str o "client_user"; j ← get_str o "target_addr";
  k ← get_str o "jump_via"; l ← get_str o "error";
  Some {| V := v; l_vault_user := a; l_hostname := b; l_cert_serial := c; l_signed_at := d; l_ok := e;
          l_source_ip := f; l_source_addr := g; l_client_host := h; l_client_user := i;
          l_target_addr := j; l_jump_via := k; l_error := l |}.

(** [store.AccessEntry] carries no tags: its Go field names are the keys. *)
Definition unmarshal_entry (o : json) : option AccessEntry :=
  a ← get_str o "VaultUser"; b ← get_str o "Hostname"; c ← get_str o "CertSerial";
  d ← get_time o "SignedAt"; e ← get_bool o "OK"; f ← get_str o "SourceIP"; g ← get_str o "SourceAddr";
  h ← get_str o "ClientHost"; i ← get_str o "ClientUser"; j ← get_str o "TargetAddr";
  k ← get_str o "JumpVia"; l ← get_str o "Error";
  Some {| VaultUser := a; Hostname := b; CertSerial := c; SignedAt := d; OK := e;
          SourceIP := f; SourceAddr := g; ClientHost := h; ClientUser := i;
          TargetAddr := j; JumpVia := k; Error := l |}.

Definition decodeLine (ln : line) : option AccessEntry :=
  o ← ln;
  v ← get_int o "v";
  if v =? 0 then unmarshal_entry o
  else if v =? spoolVersion then entry <$> unmarshal_line o
  else None.

(** ** Files *)

Record file := { lines : list line; tail : option line }.
Definition empty_file : file := {| lines := []; tail := None |}.

(** What the scanner yields: every terminated line, then the unterminated rest. *)
Definition tokens (f : file) : list line := lines f ++ match tail f with Some t => [t] | None => [] end.

Definition load (f : option file) : list AccessEntry * nat :=
  match f with
  | None => ([], 0%nat)
  | Some f => (omap decodeLine (tokens f),
               length (filter (λ ln, decodeLine ln = None) (tokens f)))
  end.

Definition encode (entries : list AccessEntry) : file :=
  {| lines := omap (λ e, Some <$> marshal_line (toLine e)) entries; tail := None |}.

(** Appending a terminated line: bytes left unterminated by a torn write run
    into it, and the two together are one line that is no JSON object. *)
Definition append_line (f : file) (ln : json) : file :=
  match tail f with
  | None => {| lines := lines f ++ [Some ln]; tail := None |}
  | Some _ => {| lines := lines f ++ [None]; tail := None |}
  end.

Inductive fname := Live | Claim (rand : string).

#[export] Instance fname_eq_dec : EqDecision fname.
Proof. solve_decision. Defined.
#[export] Instance fname_countable : Countable fname.
Proof.
  refine (inj_countable' (λ n, match n with Live => None | Claim r => Some r end)
            (λ o, match o with None => Live | Some r => Claim r end) _).
  by intros [].
Defined.

Definition fs_t : Type := gmap fname file.

(** Claim files in name order. *)
Definition claim_names (fs : gmap fname file) : list string :=
  omap (λ e, match e.1 with Claim r => Some r | Live => None end) (map_to_list fs).
Definition batches (fs : gmap fname file) : list fname := Claim <$> sort_strings (claim_names fs).

(** ** Append *)

Inductive append_error := ErrNoPath | ErrDir | ErrMeasure | ErrFull | ErrMarshal | ErrOpen | ErrWrite | ErrSync.

(** How much of a line reaches the file: the line with its newline, the line
    without it, a proper part of the line (which is no JSON object), nothing.
    Anything short of the first is an error of the write, or the end of the
    process in it. *)
Inductive written := Whole | Unterminated | Torn | Nothing.

(** What the disk answers an [Append]: to making the directory, to listing and
    measuring its files, to opening, writing and syncing the live one. *)
Record AppendDisk := { a_dir : bool; a_measure : bool; a_open : bool; a_write : written; a_sync : bool }.
Definition append_ok : AppendDisk := {| a_dir := true; a_measure := true; a_open := true; a_write := Whole; a_sync := true |}.

(** What the live file is after the write: [append_line], or an unterminated
    rest, which runs into a rest that was there. *)
Definition write_line (f : file) (o : json) (w : written) : file :=
  match w with
  | Whole => append_line f o
  | Unterminated => {| lines := lines f; tail := Some (match tail f with None => Some o | Some _ => None end) |}
  | Torn => {| lines := lines f; tail := Some None |}
  | Nothing => f
  end.

Section append.
(** The size of a line in bytes, its newline included. *)
Context (line_size : line → Z).

Definition size (f : option file) : Z :=
  match f with None => 0 | Some f => foldr (λ ln acc, line_size ln + acc) 0 (tokens f) end.

Definition DefaultMaxBytes : Z := 8 * 2 ^ 20.

Definition atCap (MaxBytes : Z) (fs : gmap fname file) : bool :=
  let total := foldr (λ n acc, size (fs !! n) + acc) 0 (batches fs ++ [Live]) in
  let max := if MaxBytes <=? 0 then DefaultMaxBytes else MaxBytes in
  max <=? total.

Definition stamped (e : AccessEntry) (now : time_t) : AccessEntry :=
  if IsZero (SignedAt e) then
    {| VaultUser := VaultUser e; Hostname := Hostname e; CertSerial := CertSerial e; SignedAt := now;
       OK := OK e; SourceIP := SourceIP e; SourceAddr := SourceAddr e; ClientHost := ClientHost e;
       ClientUser := ClientUser e; TargetAddr := TargetAddr e; JumpVia := JumpVia e; Error := Error e |}
  else e.

(** [None] is success. *)
Definition Append (d : AppendDisk) (MaxBytes : Z) (fs : gmap fname file) (e : AccessEntry) (now : time_t)
    : gmap fname file * option append_error :=
  let e := stamped e now in
  if negb (a_dir d) then (fs, Some ErrDir)
  else if negb (a_measure d) then (fs, Some ErrMeasure)
  else if atCap MaxBytes fs then (fs, Some ErrFull)
  else match marshal_line (toLine e) with
       | None => (fs, Some ErrMarshal)
       | Some o =>
           if negb (a_open d) then (fs, Some ErrOpen)
           else
             (<[Live := write_line (default empty_file (fs !! Live)) o (a_write d)]> fs,
              match a_write d with Whole => if a_sync d then None else Some ErrSync | _ => Some ErrWrite end)
       end.

Definition HasBacklog (fs : gmap fname file) : bool :=
  existsb (λ n, 0 <? size (fs !! n)) (batches fs ++ [Live]).
End append.

Definition Pending (fs : gmap fname file) : nat :=
  foldr (λ n acc, (length (load (fs !! n)).1 + acc)%nat) 0%nat (batches fs ++ [Live]).

(** ** The sink *)

(** Whether the sink's [n]-th call succeeds on the records it is given, and
    whether one that fails did its work all the same (the answer was lost). *)
Record Sink := { is_batch : bool; accepts : nat → list AccessEntry → bool; lands : nat → list AccessEntry → bool }.

(** A call that fails did nothing. *)
Definition truthful (sink : Sink) : Prop := ∀ n es, accepts sink n es = false → lands sink n es = false.

Record world := { fs : gmap fname file; calls : nat; delivered : list AccessEntry }.

Definition with_fs (w : world) (m : gmap fname file) : world :=
  {| fs := m; calls := calls w; delivered := delivered w |}.

(** One call, a statement or a batch in one transaction: all of its records
    land or none, and what the caller is told may differ. *)
Definition sink_call (sink : Sink) (w : world) (es : list AccessEntry) : world * bool :=
  let ok := accepts sink (calls w) es in
  ({| fs := fs w; calls := S (calls w); delivered := if ok || lands sink (calls w) es then delivered w ++ es else delivered w |}, ok).

Definition LogAccess (sink : Sink) (w : world) (e : AccessEntry) : world * bool := sink_call sink w [e].
Definition LogAccessBatch (sink : Sink) (w : world) (es : list AccessEntry) : world * bool := sink_call sink w es.

Fixpoint send_each (sink : Sink) (w : world) (chunk : list AccessEntry) (i : nat) : world * nat * bool :=
  match chunk with
  | [] => (w, i, true)
  | e :: chunk' =>
      let '(w', ok) := LogAccess sink w e in
      if ok then send_each sink w' chunk' (S i) else (w', i, false)
  end.

(** The number of records that landed, and whether all of them did. *)
Definition sendChunk (sink : Sink) (w : world) (chunk : list AccessEntry) : world * nat * bool :=
  if is_batch sink && (1 <? length chunk)%nat then
    let '(w', ok) := LogAccessBatch sink w chunk in
    if ok then (w', length chunk, true) else (w', 0%nat, false)
  else send_each sink w chunk 0.

(** ** Drain *)

Definition replayChunk : nat := 500.
Definition maxDrainPerCall : nat := Z.to_nat 10000.

Record Result := { Sent : nat; Skipped : nat }.

(** The loop of [drainBatch] over [toSend]; [None] when the fuel runs out. *)
Fixpoint send_loop (fuel : nat) (sink : Sink) (w : world) (toSend : list AccessEntry) (sent : nat)
    : option (world * nat * bool) :=
  match fuel with
  | O => None
  | S fuel' =>
      if (sent <? length toSend)%nat then
        let chunk := take replayChunk (drop sent toSend) in
        let '(w', n, ok) := sendChunk sink w chunk in
        if ok then send_loop fuel' sink w' toSend (sent + n) else Some (w', (sent + n)%nat, false)
      else Some (w, sent, true)
  end.

(** Which file-system calls of one drain succeed; a drain makes each at most
    once. *)
Inductive disk_op := OpGlob | OpStat | OpCreateTemp | OpRename | OpRead (n : fname) | OpRewrite (n : fname) | OpRemove (n : fname).
Definition Disk : Type := disk_op → bool.

Inductive drain_error := EDisk (op : disk_op) | EStopped (requeued : bool) | EFuel.

Definition remove (d : Disk) (n : fname) (m : gmap fname file) : gmap fname file * option drain_error :=
  match m !! n with
  | None => (m, None)
  | Some _ => if d (OpRemove n) then (delete n m, None) else (m, Some (EDisk (OpRemove n)))
  end.

(** What [drainBatch] leaves on disk once sending is over. *)
Definition settle (d : Disk) (n : fname) (entries : list AccessEntry) (sent : nat) (ok : bool)
    (m : gmap fname file) : gmap fname file * option drain_error :=
  if ok then
    if (sent <? length entries)%nat then
      if d (OpRewrite n) then (<[n := encode (drop sent entries)]> m, None) else (m, Some (EDisk (OpRewrite n)))
    else remove d n m
  else if d (OpRewrite n) then (<[n := encode (drop sent entries)]> m, Some (EStopped true))
  else (m, Some (EStopped false)).

Definition drainBatch (d : Disk) (sink : Sink) (w : world) (n : fname) (budget : nat)
    : world * Result * option drain_error :=
  if d (OpRead n) then
    let '(entries, skipped) := load (fs w !! n) in
    match entries with
    | [] => let '(m, err) := remove d n (fs w) in (with_fs w m, {| Sent := 0; Skipped := skipped |}, err)
    | _ =>
        let toSend := take budget entries in
        match send_loop (S (length toSend)) sink w toSend 0 with
        | None => (w, {| Sent := 0; Skipped := skipped |}, Some EFuel)
        | Some (w', sent, ok) =>
            let '(m, err) := settle d n entries sent ok (fs w') in
            (with_fs w' m, {| Sent := sent; Skipped := skipped |}, err)
        end
    end
  else (w, {| Sent := 0; Skipped := 0 |}, Some (EDisk (OpRead n))).

Section drain.
(** The random part of the name [os.CreateTemp] reserves. *)
Context (fresh : gmap fname file → string).

Definition claim (d : Disk) (m : gmap fname file) : gmap fname file * result drain_error (option fname) :=
  if d OpStat then
    match m !! Live with
    | None => (m, Ok None)
    | Some live =>
        if d OpCreateTemp then
          let name := Claim (fresh m) in
          let m1 := <[name := empty_file]> m in
          if d OpRename then (<[name := live]> (delete Live m1), Ok (Some name))
          else ((remove d name m1).1, Err (EDisk OpRename))
        else (m, Err (EDisk OpCreateTemp))
    end
  else (m, Err (EDisk OpStat)).

Definition plus_result (r r' : Result) : Result :=
  {| Sent := (Sent r + Sent r')%nat; Skipped := (Skipped r + Skipped r')%nat |}.

Fixpoint drain_loop (d : Disk) (sink : Sink) (todo : list fname) (budget : nat) (w : world) (res : Result)
    : world * Result * option drain_error :=
  match todo with
  | [] => (w, res, None)
  | n :: todo' =>
      if (budget <=? Sent res)%nat then (w, res, None)
      else
        let '(w', r, err) := drainBatch d sink w n (budget - Sent res) in
        match err with
        | Some e => (w', plus_result res r, Some e)
        | None => drain_loop d sink todo' budget w' (plus_result res r)
        end
  end.

Definition Drain (d : Disk) (sink : Sink) (maxPerDrain : nat) (w : world)
    : world * Result * option drain_error :=
  let res := {| Sent := 0; Skipped := 0 |} in
  if d OpGlob then
    let listed := batches (fs w) in
    match claim d (fs w) with
    | (m, Err e) => (with_fs w m, res, Some e)
    | (m, Ok c) =>
        let todo := match c with Some n => listed ++ [n] | None => listed end in
        let budget := if (0 <? maxPerDrain)%nat then maxPerDrain else maxDrainPerCall in
        drain_loop d sink todo budget (with_fs w m) res
    end
  else (w, res, Some (EDisk OpGlob)).
End drain.

(** ** Lines round-trip *)

Lemma decodeLine_marshal e o : marshal_line (toLine e) = Some o → decodeLine (Some o) = Some e.
Proof.
  unfold marshal_line. case_if; [|done]. intros [= <-].
  destruct e. reflexivity.
Qed.

#[local] Arguments decodeLine : simpl never.
#[local] Arguments marshal_line : simpl never.

Definition storable (e : AccessEntry) : Prop := marshalable_time (SignedAt e) = true.

Lemma storable_marshal e : storable e → ∃ o, marshal_line (toLine e) = Some o.
Proof. unfold storable, marshal_line. simpl. intros ->. eauto. Qed.

Lemma load_encode es : Forall storable es → load (Some (encode es)) = (es, 0%nat).
Proof.
  intros H. unfold load, tokens, encode. cbn [lines tail]. rewrite app_nil_r.
  induction H as [|e es He Hes IH]; [done|].
  destruct (storable_marshal e He) as [o Ho]. csimpl. rewrite Ho. csimpl.
  rewrite (decodeLine_marshal e o Ho). injection IH as IH1 IH2. rewrite IH1.
  rewrite list.filter_cons, decide_False by (rewrite (decodeLine_marshal e o Ho); done).
  by rewrite IH2.
Qed.

(** ** What a directory holds *)

Definition records (f : file) : list AccessEntry := (load (Some f)).1.
Definition recs (m : gmap fname file) : list AccessEntry := map_to_list m ≫= λ nf, records nf.2.

Lemma records_encode es : Forall storable es → records (encode es) = es.
Proof. intros H. unfold records. by rewrite load_encode. Qed.

Lemma recs_insert m n f : m !! n = None → recs (<[n := f]> m) ≡ₚ records f ++ recs m.
Proof. intros H. unfold recs. rewrite map_to_list_insert by done. by csimpl. Qed.

Lemma recs_lookup m n f : m !! n = Some f → recs m ≡ₚ records f ++ recs (delete n m).
Proof. intros H. rewrite <-(insert_delete_id m n f H) at 1. apply recs_insert, lookup_delete_eq. Qed.

Lemma recs_overwrite m n f : recs (<[n := f]> m) ≡ₚ records f ++ recs (delete n m).
Proof. rewrite <-(insert_delete_eq m n f). apply recs_insert, lookup_delete_eq. Qed.

Lemma recs_elem m e : e ∈ recs m ↔ ∃ n f, m !! n = Some f ∧ e ∈ records f.
Proof.
  unfold recs. rewrite list_elem_of_bind. split.
  - intros ([n f] & He & Hn). apply elem_of_map_to_list in Hn. eauto.
  - intros (n & f & Hn & He). exists (n, f). split; [done|]. by apply elem_of_map_to_list.
Qed.

Definition readable (m : gmap fname file) : Prop := Forall storable (recs m).

Lemma readable_lookup m n f : readable m → m !! n = Some f → Forall storable (records f).
Proof.
  unfold readable. rewrite !Forall_forall. intros H Hn e He. apply H, recs_elem. eauto.
Qed.

Lemma load_lookup (m : gmap fname file) n f : m !! n = Some f → (load (m !! n)).1 = records f.
Proof. by intros ->. Qed.

(** ** Sending *)

(** What a call, or the sending of many, delivers: the records it counts and,
    where its last call failed and still landed, those of that call. *)
Definition delivers (sink : Sink) (w w' : world) (es : list AccessEntry) (ok : bool) : Prop :=
  ∃ twice, delivered w' = delivered w ++ es ++ twice ∧ (ok = true ∨ truthful sink → twice = []).

Lemma sink_call_delivers sink w es w' ok : sink_call sink w es = (w', ok) → fs w' = fs w ∧ delivers sink w w' (if ok then es else []) ok.
Proof.
  unfold sink_call. destruct (accepts _ _ _) eqn:Ha; intros [= <- <-]; (split; [done|]).
  - exists []. cbn. by rewrite app_nil_r.
  - unfold delivers. cbn. destruct (lands _ _ _) eqn:Hl; [exists es|exists []; by rewrite app_nil_r].
    split; [done|]. intros [|Ht]; [done|]. by rewrite Ht in Hl.
Qed.

Lemma send_each_spec sink chunk : ∀ w i w' i' ok, send_each sink w chunk i = (w', i', ok) →
  fs w' = fs w ∧ (i ≤ i' ≤ i + length chunk)%nat ∧ (ok = true → i' = (i + length chunk)%nat) ∧
  delivers sink w w' (take (i' - i) chunk) ok.
Proof.
  induction chunk as [|e chunk IH]; intros w i w' i' ok; cbn [send_each].
  - intros [= <- <- <-]. rewrite Nat.sub_diag. repeat split; cbn; try lia. exists []. by rewrite app_nil_r.
  - destruct (LogAccess sink w e) as [w1 ok1] eqn:Hc. apply sink_call_delivers in Hc as (Hf1 & tw1 & Hd1 & Ht1). destruct ok1.
    + intros H. apply IH in H as (Hf & Hi & Hok & tw & Hd & Ht). rewrite (Ht1 (or_introl eq_refl)) in Hd1.
      cbn [length]. repeat split; [congruence|lia|lia|intros H'; rewrite (Hok H'); lia|]. exists tw. split; [|done].
      rewrite Hd, Hd1. replace (i' - i)%nat with (S (i' - S i)) by lia. cbn [take]. by rewrite <-!(assoc_L (++)).
    + intros [= <- <- <-]. rewrite Nat.sub_diag. repeat split; try (simpl; lia || done). by exists tw1.
Qed.

Lemma sendChunk_spec sink w chunk w' n ok : sendChunk sink w chunk = (w', n, ok) →
  fs w' = fs w ∧ (n ≤ length chunk)%nat ∧ (ok = true → n = length chunk) ∧
  delivers sink w w' (take n chunk) ok.
Proof.
  unfold sendChunk. case_if.
  - destruct (LogAccessBatch sink w chunk) as [w1 ok1] eqn:Hc. apply sink_call_delivers in Hc as (Hf & Hd).
    destruct ok1; intros [= <- <- <-]; simpl; [rewrite firstn_all|]; repeat split; lia || done.
  - intros H. apply send_each_spec in H as (? & ? & ? & Hd). rewrite Nat.sub_0_r in Hd. repeat split; [done|lia|done|done].
Qed.

Lemma send_loop_spec sink toSend : ∀ fuel w sent w' sent' ok,
  send_loop fuel sink w toSend sent = Some (w', sent', ok) → (sent ≤ length toSend)%nat →
  fs w' = fs w ∧ (sent ≤ sent' ≤ length toSend)%nat ∧ (ok = true → sent' = length toSend) ∧
  delivers sink w w' (take (sent' - sent) (drop sent toSend)) ok.
Proof.
  induction fuel as [|fuel IH]; intros w sent w' sent' ok; [done|]. cbn [send_loop].
  case_if; intros H Hle.
  - apply Nat.ltb_lt in Heqb.
    destruct (sendChunk sink w (take replayChunk (drop sent toSend))) as [[w1 n] ok1] eqn:Hc.
    apply sendChunk_spec in Hc as (Hf1 & Hn & Hok1 & tw1 & Hd1 & Ht1).
    rewrite length_take, length_drop in Hn. rewrite take_take in Hd1.
    replace (n `min` replayChunk)%nat with n in Hd1 by lia.
    destruct ok1.
    + apply IH in H as (Hf & Hs & Hok & tw & Hd & Ht); [|lia]. split; [congruence|]. split; [lia|]. split; [done|].
      exists tw. split; [|done]. rewrite Hd, Hd1, (Ht1 (or_introl eq_refl)), app_nil_r, <-(assoc_L (++)). f_equal. rewrite (assoc_L (++)). f_equal.
      replace (sent' - sent)%nat with (n + (sent' - (sent + n)))%nat by lia.
      by rewrite <-(drop_drop toSend), take_take_drop.
    + injection H as <- <- <-. split; [done|]. split; [lia|]. split; [done|]. exists tw1. by replace (sent + n - sent)%nat with n by lia.
  - apply Nat.ltb_ge in Heqb. injection H as <- <- <-. rewrite Nat.sub_diag, take_0.
    repeat split; try (lia || done). exists []. by rewrite app_nil_r.
Qed.

Lemma send_loop_total sink toSend : ∀ fuel w sent, (length toSend - sent < fuel)%nat →
  is_Some (send_loop fuel sink w toSend sent).
Proof.
  induction fuel as [|fuel IH]; intros w sent Hf; [lia|]. cbn [send_loop]. case_if; [|eauto].
  apply Nat.ltb_lt in Heqb.
  destruct (sendChunk sink w (take replayChunk (drop sent toSend))) as [[w1 n] ok1] eqn:Hc.
  apply sendChunk_spec in Hc as (_ & _ & Hn & _). destruct ok1; [|eauto].
  apply IH. rewrite (Hn eq_refl), length_take, length_drop. unfold replayChunk. lia.
Qed.

(** ** Conservation

    [moves d sink w w' s]: records went from the directory of [w] to the sink,
    [s] of them and those of a call that failed and landed; none disappeared. *)

Record moves (d : Disk) (sink : Sink) (w w' : world) (s : nat) : Prop := {
  moves_readable : readable (fs w');
  moves_delivered : ∃ es, delivered w' = delivered w ++ es ∧ (s ≤ length es)%nat ∧ (truthful sink → length es = s);
  moves_kept : delivered w ++ recs (fs w) ⊆+ delivered w' ++ recs (fs w');
  moves_exact : truthful sink → (∀ op, d op = true) → delivered w ++ recs (fs w) ≡ₚ delivered w' ++ recs (fs w');
}.

Lemma moves_refl d sink w : readable (fs w) → moves d sink w w 0.
Proof. intros H. split; [done| |done|done]. exists []. rewrite app_nil_r. split_and!; [done|cbn; lia|done]. Qed.

Lemma moves_trans d sink w1 w2 w3 s t : moves d sink w1 w2 s → moves d sink w2 w3 t → moves d sink w1 w3 (s + t).
Proof.
  intros [R1 (e1 & D1 & L1 & T1) K1 X1] [R2 (e2 & D2 & L2 & T2) K2 X2]. split; [done| | |].
  - exists (e1 ++ e2). rewrite D2, D1, length_app. split_and!; [by rewrite (assoc_L (++))|lia|]. intros Ht. by rewrite (T1 Ht), (T2 Ht).
  - by etrans.
  - intros Ht H. etrans; [by apply X1 | by apply X2].
Qed.

(** A rearrangement of the directory that sends nothing. *)
Lemma moves_disk d sink w m : readable (fs w) → recs m ≡ₚ recs (fs w) → moves d sink w (with_fs w m) 0.
Proof.
  intros R P. split; cbn [fs delivered with_fs].
  - unfold readable. by rewrite P.
  - exists []. rewrite app_nil_r. split_and!; [done|cbn; lia|done].
  - by rewrite P.
  - intros _ _. by rewrite P.
Qed.

Lemma remove_spec d n m m' err : remove d n m = (m', err) →
  (m' = delete n m ∧ err = None) ∨ (m' = m ∧ d (OpRemove n) = false ∧ err = Some (EDisk (OpRemove n))).
Proof.
  unfold remove. destruct (m !! n) as [f|] eqn:E.
  - case_if; intros [= <- <-]; [by left|]. right. eauto.
  - intros [= <- <-]. left. by rewrite delete_id.
Qed.

Lemma recs_delete m n f : m !! n = Some f → records f = [] → recs (delete n m) ≡ₚ recs m.
Proof. intros Hn Hf. rewrite (recs_lookup m n f Hn), Hf. done. Qed.

(** After [sent] records of a file were delivered: it is rewritten with the
    others, removed when there are none, or left whole when the disk fails. *)
Lemma settle_spec d n f sent ok m m' err :
  m !! n = Some f → readable m → (sent ≤ length (records f))%nat → settle d n (records f) sent ok m = (m', err) →
  readable m' ∧ (∀ k, k ≠ n → m' !! k = m !! k) ∧
  (m' = m ∨ recs m ≡ₚ take sent (records f) ++ recs m') ∧
  ((∀ op, d op = true) → recs m ≡ₚ take sent (records f) ++ recs m') ∧
  (err = None → ok = true ∧ (sent = length (records f) → m' = delete n m)) ∧ err ≠ Some EFuel.
Proof.
  intros Hn R Hs.
  assert (Hst := readable_lookup _ _ _ R Hn).
  assert (recs m ≡ₚ take sent (records f) ++ recs (<[n := encode (drop sent (records f))]> m)) as Hrw.
  { rewrite recs_overwrite, (recs_lookup m n f Hn), records_encode by by apply Forall_drop.
    by rewrite (assoc_L (++)), take_drop. }
  assert (readable (<[n := encode (drop sent (records f))]> m)) as Rrw.
  { unfold readable in *. rewrite Hrw in R. by apply Forall_app in R as [_ ?]. }
  unfold settle. destruct ok; [case_if|].
  - apply Nat.ltb_lt in Heqb. case_if; intros [= <- <-].
    + split_and!; auto; [intros; by rewrite lookup_insert_ne | intros _; split; [done|lia]].
    + split_and!; auto; [intros Hd; specialize (Hd (OpRewrite n)); congruence|done..].
  - apply Nat.ltb_ge in Heqb. assert (sent = length (records f)) as -> by lia.
    assert (recs m ≡ₚ take (length (records f)) (records f) ++ recs (delete n m)) as Hdel.
    { rewrite firstn_all. by apply recs_lookup. }
    intros [[-> ->]|(-> & Hd & ->)]%remove_spec.
    + split_and!; auto; [|intros; by rewrite lookup_delete_ne].
      unfold readable in *. rewrite Hdel in R. by apply Forall_app in R as [_ ?].
    + split_and!; auto; [intros Hd'; specialize (Hd' (OpRemove n)); congruence|done..].
  - case_if; intros [= <- <-].
    + split_and!; auto; [intros; by rewrite lookup_insert_ne|done..].
    + split_and!; auto; [intros Hd; specialize (Hd (OpRewrite n)); congruence|done..].
Qed.

Lemma drainBatch_spec d sink w n budget w' r err :
  readable (fs w) → drainBatch d sink w n budget = (w', r, err) →
  moves d sink w w' (Sent r) ∧ (Sent r ≤ budget)%nat ∧ err ≠ Some EFuel ∧
  (∀ k, k ≠ n → fs w' !! k = fs w !! k) ∧
  (err = None → (Sent r < budget)%nat → fs w' !! n = None).
Proof.
  intros R. unfold drainBatch. case_if; [|intros [= <- <- <-]; cbn [Sent]; split; [by apply moves_refl|split_and!; lia || done]].
  destruct (load (fs w !! n)) as [entries skipped] eqn:Hl.
  destruct (fs w !! n) as [f|] eqn:Hn; cycle 1.
  { injection Hl as <- <-. destruct (remove d n (fs w)) as [m e] eqn:Hr. intros [= <- <- <-].
    unfold remove in Hr. rewrite Hn in Hr. injection Hr as <- <-.
    split; [by apply moves_disk|]. cbn [Sent fs with_fs]. split_and!; lia || done. }
  assert (entries = records f) as -> by (unfold records; by rewrite Hl).
  destruct (records f) as [|e0 es] eqn:Hrec.
  { destruct (remove d n (fs w)) as [m e] eqn:Hr. intros [= <- <- <-]. cbn [Sent fs with_fs].
    apply remove_spec in Hr as [[-> ->]|(-> & _ & ->)].
    - split; [apply moves_disk; [done|by eapply recs_delete]|]. split_and!; [lia|done| |by rewrite lookup_delete_eq].
      intros; by rewrite lookup_delete_ne.
    - split; [by apply moves_disk|]. split_and!; lia || done. }
  rewrite <-Hrec. set (toSend := take budget (records f)).
  destruct (send_loop_total sink toSend (S (length toSend)) w 0) as [[[w1 sent] ok] Hs]; [lia|]. rewrite Hs.
  apply send_loop_spec in Hs as (Hfs & Hb & Hok & tw & Hd & Ht); [|lia].
  rewrite drop_0, Nat.sub_0_r in Hd. unfold toSend in Hd, Hb. rewrite length_take in Hb. rewrite take_take in Hd.
  replace (sent `min` budget)%nat with sent in Hd by lia. rewrite Hfs.
  destruct (settle d n (records f) sent ok (fs w)) as [m e] eqn:Hset. intros [= <- <- <-]. cbn [Sent fs with_fs].
  apply settle_spec in Hset as (Rm & Hk & Hor & Hex & Herr & Hfu); [|done..|lia].
  split; [|split_and!; [lia|done|done|]]; cycle 1.
  { intros He Hlt. destruct (Herr He) as [-> Hdel]. rewrite Hdel; [by rewrite lookup_delete_eq|].
    specialize (Hok eq_refl). unfold toSend in Hok. rewrite length_take in Hok. lia. }
  assert (recs (fs w) ≡ₚ take sent (records f) ++ recs m →
    delivered w ++ recs (fs w) ++ tw ≡ₚ delivered w1 ++ recs m) as Hmv.
  { intros ->. rewrite Hd. solve_Permutation. }
  split; cbn [fs delivered with_fs]; [done| | |].
  - exists (take sent (records f) ++ tw). rewrite Hd, length_app, length_take. split_and!; [done|lia|].
    intros H. rewrite (Ht (or_intror H)). cbn [length]. lia.
  - destruct Hor as [->|Hor].
    + rewrite Hd, <-(assoc_L (++)). apply submseteq_app; [done|]. by apply submseteq_inserts_l.
    + rewrite <-(Hmv Hor). apply submseteq_app; [done|]. by apply submseteq_inserts_r.
  - intros H Hdisk. rewrite <-(Hmv (Hex Hdisk)), (Ht (or_intror H)). by rewrite app_nil_r.
Qed.

Lemma claim_names_elem m r : r ∈ claim_names m ↔ is_Some (m !! Claim r).
Proof.
  unfold claim_names. rewrite list_elem_of_omap. split.
  - intros ([[|r'] f] & Hin & Hr); [done|]. injection Hr as ->. apply elem_of_map_to_list in Hin. eauto.
  - intros [f Hf]. exists (Claim r, f). by rewrite elem_of_map_to_list.
Qed.

Lemma batches_elem m n : n ∈ batches m ↔ n ≠ Live ∧ is_Some (m !! n).
Proof.
  unfold batches, sort_strings. rewrite list_elem_of_fmap.
  setoid_rewrite sort_elem_of. setoid_rewrite claim_names_elem. split.
  - intros (r & -> & H). done.
  - destruct n as [|r]; intros [? H]; [done|]. eauto.
Qed.

Lemma drain_loop_spec d sink budget : ∀ todo w res w' r err,
  readable (fs w) → (Sent res ≤ budget)%nat → drain_loop d sink todo budget w res = (w', r, err) →
  ∃ s, moves d sink w w' s ∧ Sent r = (Sent res + s)%nat ∧ (Sent r ≤ budget)%nat ∧ err ≠ Some EFuel ∧
  (∀ k, k ∉ todo → fs w' !! k = fs w !! k) ∧
  (err = None → (Sent r < budget)%nat → ∀ k, k ∈ todo → fs w' !! k = None).
Proof.
  induction todo as [|n todo IH]; intros w res w' r err R Hle; cbn [drain_loop].
  - intros [= <- <- <-]. exists 0%nat. split; [by apply moves_refl|]. split_and!; try lia || done.
    intros _ _ k Hk. by apply not_elem_of_nil in Hk.
  - case_if.
    { apply Nat.leb_le in Heqb. intros [= <- <- <-]. exists 0%nat. split; [by apply moves_refl|].
      split_and!; lia || done. }
    destruct (drainBatch d sink w n (budget - Sent res)) as [[w1 r1] e1] eqn:Hb.
    apply drainBatch_spec in Hb as (M1 & S1 & E1 & K1 & G1); [|done].
    destruct e1 as [e1|].
    + intros [= <- <- <-]. exists (Sent r1). cbn [Sent plus_result]. split_and!; try lia || done.
      intros k Hk. apply K1. set_solver.
    + intros Hl. apply IH in Hl as (s & M2 & S2 & B2 & E2 & K2 & G2); [|by eapply moves_readable|cbn [Sent plus_result]; lia].
      cbn [Sent plus_result] in *. exists (Sent r1 + s)%nat. split; [by eapply moves_trans|].
      split_and!; [lia|lia|done| |].
      * intros k Hk. rewrite K2 by set_solver. apply K1. set_solver.
      * intros He Hlt k Hk. destruct (decide (k ∈ todo)); [by apply G2|].
        rewrite K2 by done. assert (k = n) as -> by set_solver. apply G1; [done|lia].
Qed.

Section drain_theorems.
Context (fresh : gmap fname file → string).

(** Every file ends with a whole line. *)
Definition untorn (m : gmap fname file) : Prop := map_Forall (λ _ f, tail f = None) m.

(** [os.CreateTemp] opens with O_EXCL: the name it picks did not exist. *)
Definition exclusive (m : gmap fname file) : Prop := m !! Claim (fresh m) = None.

Lemma claim_spec d m m' c : exclusive m → claim fresh d m = (m', c) →
  recs m' ≡ₚ recs m ∧
  match c with
  | Ok None => m' = m ∧ m !! Live = None
  | Ok (Some n) => n = Claim (fresh m) ∧ m' !! Live = None ∧ (∀ k, k ≠ n → k ≠ Live → m' !! k = m !! k)
  | Err e => e ≠ EFuel
  end.
Proof.
  unfold claim, exclusive. intros Hx. case_if; [|by intros [= <- <-]].
  destruct (m !! Live) as [live|] eqn:Hl; [|by intros [= <- <-]].
  case_if; [|by intros [= <- <-]]. case_if.
  - intros [= <- <-]. rewrite delete_insert_ne by done. rewrite insert_insert_eq. split.
    + rewrite recs_insert by (by rewrite lookup_delete_ne). by rewrite (recs_lookup m Live live Hl).
    + split_and!; [done|by rewrite lookup_insert_ne, lookup_delete_eq by done|].
      intros k Hk Hk'. by rewrite lookup_insert_ne, lookup_delete_ne.
  - intros [= <- <-]. split; [|done]. unfold remove. rewrite lookup_insert_eq. case_if; cbn [fst].
    + by rewrite delete_insert_id.
    + by rewrite recs_insert.
Qed.

(** A drain only moves records from the spool to the sink. *)
Lemma Drain_moves d sink maxPerDrain w w' r err :
  readable (fs w) → exclusive (fs w) → Drain fresh d sink maxPerDrain w = (w', r, err) → moves d sink w w' (Sent r).
Proof.
  intros R Hx. unfold Drain. destruct (d OpGlob); [|intros [= <- <- <-]; by apply moves_refl].
  destruct (claim fresh d (fs w)) as [m [c|e]] eqn:Hc; apply claim_spec in Hc as [Hp _]; try done; pose proof (moves_disk d sink w m R Hp) as M0; [|by intros [= <- <- <-]].
  intros Hl. apply drain_loop_spec in Hl as (s & M1 & S1 & _); [|exact (moves_readable _ _ _ _ _ M0)|cbn [Sent]; lia].
  rewrite S1. exact (moves_trans _ _ _ _ _ _ _ M0 M1).
Qed.

(** C34. A drain conserves the trail.  Whatever the sink refuses and whichever disk
    operation fails, every record that was delivered or queued is still one or
    the other, as a multiset; when the disk works, and no call to the sink fails
    after it landed, none is duplicated either.  What it reports it delivered,
    and no more unless such a call landed; that is at most the budget (so the
    sending loop terminates); and a drain that returns no error below its budget
    leaves no file of the spool behind. *)
Theorem Drain_conserves d sink maxPerDrain w w' r err :
  readable (fs w) → exclusive (fs w) → Drain fresh d sink maxPerDrain w = (w', r, err) →
  let budget := if (0 <? maxPerDrain)%nat then maxPerDrain else maxDrainPerCall in
  readable (fs w') ∧
  delivered w ++ recs (fs w) ⊆+ delivered w' ++ recs (fs w') ∧
  (truthful sink → (∀ op, d op = true) → delivered w ++ recs (fs w) ≡ₚ delivered w' ++ recs (fs w')) ∧
  (∃ es, delivered w' = delivered w ++ es ∧ (Sent r ≤ length es)%nat ∧ (truthful sink → length es = Sent r)) ∧
  (Sent r ≤ budget)%nat ∧ err ≠ Some EFuel ∧
  (err = None → (Sent r < budget)%nat → fs w' = ∅).
Proof.
  intros R Hx. unfold Drain. destruct (d OpGlob); cycle 1.
  { intros [= <- <- <-]. cbn [Sent]. split_and!; try done; [|case_if; lia]. exists []. rewrite app_nil_r. split_and!; [done|cbn; lia|done]. }
  destruct (claim fresh d (fs w)) as [m c] eqn:Hc. apply claim_spec in Hc as [Hp Hc]; [|done].
  pose proof (moves_disk d sink w m R Hp) as M0.
  destruct c as [c|e].
  - intros Hl. apply drain_loop_spec in Hl as (s & M1 & S1 & B1 & E1 & K1 & G1);
      [|exact (moves_readable _ _ _ _ _ M0)|cbn [Sent]; lia].
    destruct (moves_trans _ _ _ _ _ _ _ M0 M1) as [R2 D2 K2 X2]. cbn [Sent] in S1.
    split_and!; try done; [by rewrite S1|].
    intros He Hlt. apply map_eq. intros k. rewrite lookup_empty.
    destruct (decide (k ∈ match c with Some n => batches (fs w) ++ [n] | None => batches (fs w) end)) as [Hin|Hin];
      [by apply G1|].
    rewrite K1 by done. cbn [fs with_fs]. destruct c as [n|].
    + destruct Hc as (-> & HL & Hk). destruct (decide (k = Live)) as [->|]; [done|].
      rewrite elem_of_app, batches_elem, list_elem_of_singleton in Hin.
      rewrite Hk by naive_solver. apply eq_None_not_Some. naive_solver.
    + destruct Hc as [-> HL]. destruct (decide (k = Live)) as [->|]; [done|].
      rewrite batches_elem in Hin. apply eq_None_not_Some. naive_solver.
  - intros [= <- <- <-]. destruct M0 as [R2 D2 K2 X2]. split_and!; try done; [cbn [Sent]; lia|congruence].
Qed.
End drain_theorems.

(** ** Interleavings

    The steps of a drain between two file-system calls, for several processes
    on one directory whose calls succeed, and appends, whose calls may fail or
    be cut short; an append is one step, from its open to its write.  [logged]
    holds the records all of whose bytes reached the spool, [repeated] what was
    delivered and will be again (a crash fell between delivery and removal, or a
    call failed after it landed), and [swallowed] what a line shared with the
    rest of a torn one took with it. *)

Inductive pc :=
| PIdle
| PListed (todo : list fname)
| PStatted (todo : list fname)
| PReserved (todo : list fname) (name : fname)
| PLoop (todo : list fname) (sent : nat)
| PLoaded (n : fname) (entries : list AccessEntry) (todo : list fname) (sent : nat)
| PSent (n : fname) (entries : list AccessEntry) (k : nat) (ok : bool) (todo : list fname) (sent : nat).

Definition disk_ok : Disk := λ _, true.

(** One atomic step of a drain; [rnd] is the name [os.CreateTemp] would pick. *)
Definition drain_step (sink : Sink) (rnd : string) (budget : nat) (w : world) (p : pc) : option (world * pc) :=
  let m := fs w in
  match p with
  | PIdle => Some (w, PListed (batches m))
  | PListed todo => Some (w, match m !! Live with Some _ => PStatted todo | None => PLoop todo 0 end)
  | PStatted todo =>
      match m !! Claim rnd with
      | Some _ => None
      | None => Some (with_fs w (<[Claim rnd := empty_file]> m), PReserved todo (Claim rnd))
      end
  | PReserved todo name =>
      match m !! Live with
      | Some f => Some (with_fs w (<[name := f]> (delete Live m)), PLoop (todo ++ [name]) 0)
      | None => Some (with_fs w (remove disk_ok name m).1, PLoop todo 0)
      end
  | PLoop [] _ => Some (w, PIdle)
  | PLoop (n :: todo) sent =>
      Some (w, if (budget <=? sent)%nat then PIdle else PLoaded n (load (m !! n)).1 todo sent)
  | PLoaded n [] todo sent => Some (with_fs w (remove disk_ok n m).1, PLoop todo sent)
  | PLoaded n entries todo sent =>
      let toSend := take (budget - sent) entries in
      match send_loop (S (length toSend)) sink w toSend 0 with
      | None => None
      | Some (w', k, ok) => Some (w', PSent n entries k ok todo sent)
      end
  | PSent n entries k ok todo sent =>
      Some (with_fs w (settle disk_ok n entries k ok m).1, if ok then PLoop todo (sent + k)%nat else PIdle)
  end.

Record sys := {
  sys_w : world; procs : list pc; logged : list AccessEntry; repeated : list AccessEntry; swallowed : list AccessEntry;
}.

(** An append whose process dies in the write leaves what a failed one does. *)
Inductive action :=
| ADrain (i : nat) (sink : Sink) (rnd : string) (budget : nat)
| AAppend (d : AppendDisk) (e : AccessEntry) (now : time_t)
| ACrash (i : nat).

(** *** What an append does to the trail *)

Definition wrote (err : option append_error) : bool := match err with None | Some ErrWrite | Some ErrSync => true | _ => false end.
Definition reached (w : written) : bool := match w with Whole | Unterminated => true | _ => false end.
Definition tears (w : written) : bool := match w with Torn | Unterminated => true | _ => false end.

(** The record, where all its bytes reached the file. *)
Definition on_disk (w : written) (err : option append_error) (e : AccessEntry) : list AccessEntry :=
  if wrote err && reached w then [e] else [].

(** The records an unterminated rest holds. *)
Definition rest_of (f : file) : list AccessEntry := omap decodeLine (option_list (tail f)).

(** What is lost with an unterminated rest that is written to: the record in
    it, and the one written. *)
Definition swallows (w : written) (err : option append_error) (f : option file) (e : AccessEntry) : list AccessEntry :=
  match f, w with
  | Some {| tail := Some t |}, Whole | Some {| tail := Some t |}, Unterminated => if wrote err then omap decodeLine [t] ++ [e] else []
  | Some {| tail := Some t |}, Torn => if wrote err then omap decodeLine [t] else []
  | _, _ => []
  end.

(** What a drain's sending delivered without counting it. *)
Definition unreported (w w' : world) (p p' : pc) : list AccessEntry :=
  match p, p' with
  | PLoaded _ (_ :: _) _ _, PSent _ _ k _ _ _ => drop (length (delivered w) + k) (delivered w')
  | _, _ => []
  end.

(** What the process has delivered and not yet taken off the disk. *)
Definition inflight (p : pc) : list AccessEntry :=
  match p with PSent _ entries k _ _ _ => take k entries | _ => [] end.

Section interleaving.
Context (line_size : line → Z) (MaxBytes : Z).

Definition act (a : action) (s : sys) : option sys :=
  match a with
  | ADrain i sink rnd budget =>
      p ← procs s !! i; wp ← drain_step sink rnd budget (sys_w s) p;
      Some {| sys_w := wp.1; procs := <[i := wp.2]> (procs s); logged := logged s;
              repeated := repeated s ++ unreported (sys_w s) wp.1 p wp.2; swallowed := swallowed s |}
  | AAppend d e now =>
      let m := fs (sys_w s) in
      let '(m', err) := Append line_size d MaxBytes m e now in
      Some {| sys_w := with_fs (sys_w s) m'; procs := procs s; logged := logged s ++ on_disk (a_write d) err (stamped e now);
              repeated := repeated s; swallowed := swallowed s ++ swallows (a_write d) err (m !! Live) (stamped e now) |}
  | ACrash i =>
      p ← procs s !! i;
      Some {| sys_w := sys_w s; procs := <[i := PIdle]> (procs s); logged := logged s;
              repeated := repeated s ++ inflight p; swallowed := swallowed s |}
  end.

Fixpoint run (acts : list action) (s : sys) : option sys :=
  match acts with [] => Some s | a :: acts' => s' ← act a s; run acts' s' end.
End interleaving.

Definition start (n : nat) : sys :=
  {| sys_w := {| fs := ∅; calls := 0; delivered := [] |}; procs := replicate n PIdle; logged := []; repeated := []; swallowed := [] |}.

(** *** One drain at a time *)

(** What a process knows of the directory: its claim files are its own. *)
Definition pc_ok (m : gmap fname file) (p : pc) : Prop :=
  match p with
  | PIdle => True
  | PListed todo | PStatted todo | PLoop todo _ => Live ∉ todo
  | PReserved todo name => Live ∉ todo ∧ name ≠ Live ∧ m !! name = Some empty_file
  | PLoaded n entries todo _ => Live ∉ todo ∧ n ≠ Live ∧ (load (m !! n)).1 = entries
  | PSent n entries k _ todo _ =>
      Live ∉ todo ∧ n ≠ Live ∧ (k ≤ length entries)%nat ∧ ∃ f, m !! n = Some f ∧ records f = entries
  end.


(** The records a rest puts at risk, its own and the next one. *)
Definition at_risk (m : gmap fname file) : nat :=
  match m !! Live with Some {| tail := Some t |} => S (length (omap decodeLine [t])) | _ => 0 end.

Record good (s : sys) (p : pc) (torn : nat) : Prop := {
  good_procs : procs s = [p];
  good_pc : pc_ok (fs (sys_w s)) p;
  good_readable : readable (fs (sys_w s));
  good_conserved : delivered (sys_w s) ++ recs (fs (sys_w s)) ++ swallowed s ≡ₚ logged s ++ repeated s ++ inflight p;
  good_swallowed : (length (swallowed s) + at_risk (fs (sys_w s)) ≤ 2 * torn)%nat;
}.

(** A write to a file keeps its records and the one written, but for those the
    file's rest takes. *)
Lemma write_line_records f o w e err : marshal_line (toLine e) = Some o → wrote err = true →
  records (write_line f o w) ++ swallows w err (Some f) e ≡ₚ records f ++ on_disk w err e.
Proof.
  intros Ho Hw. pose proof (decodeLine_marshal e o Ho) as Hd. unfold records, load, tokens, on_disk, swallows, write_line, append_line. rewrite Hw.
  destruct f as [ls [t|]], w; cbn [lines tail fst andb reached]; rewrite ?app_nil_r, ?omap_app; cbn [omap list_omap]; rewrite ?Hd; cbn [app];
    change (decodeLine None) with (@None AccessEntry); cbn [app]; rewrite ?app_nil_r, ?(assoc_L (++)); done.
Qed.

Lemma Append_cases line_size d MaxBytes m e now m' err : Append line_size d MaxBytes m e now = (m', err) →
  (m' = m ∧ wrote err = false) ∨
  ∃ o, marshal_line (toLine (stamped e now)) = Some o ∧ wrote err = true ∧ atCap line_size MaxBytes m = false ∧
    m' = <[Live := write_line (default empty_file (m !! Live)) o (a_write d)]> m ∧ (err = None ↔ a_write d = Whole ∧ a_sync d = true).
Proof.
  unfold Append. destruct (negb (a_dir d)); [intros [= <- <-]; by left|]. destruct (negb (a_measure d)); [intros [= <- <-]; by left|].
  destruct (atCap _ _ _); [intros [= <- <-]; by left|]. destruct (marshal_line _) as [o|]; [|intros [= <- <-]; by left].
  destruct (negb (a_open d)); [intros [= <- <-]; by left|]. intros [= <- <-]. right. exists o.
  destruct (a_write d), (a_sync d); split_and!; try done; (split; [done|by intros [? ?]]).
Qed.

Lemma swallows_fresh w err e : swallows w err (Some empty_file) e = [].
Proof. by destruct w. Qed.

(** An append adds its record, takes what it swallows, and touches nothing but
    the live file. *)
Lemma Append_spec line_size d MaxBytes m e now m' err : Append line_size d MaxBytes m e now = (m', err) →
  let e := stamped e now in let w := a_write d in
  recs m' ++ swallows w err (m !! Live) e ≡ₚ recs m ++ on_disk w err e ∧
  (on_disk w err e = [e] → storable e) ∧ (m' = m ∨ ∃ f, m' = <[Live := f]> m).
Proof.
  intros [[-> Hw]|(o & Ho & Hw & _ & -> & _)]%Append_cases; cbv zeta.
  - assert (swallows (a_write d) err (m !! Live) (stamped e now) = []) as -> by (unfold swallows; rewrite Hw; by destruct (m !! Live) as [[? []]|], (a_write d)).
    unfold on_disk. rewrite Hw. cbn. rewrite app_nil_r. split_and!; [done|done|by left].
  - split_and!; [|intros _; unfold storable; unfold marshal_line in Ho; by destruct (marshalable_time _) eqn:E in Ho|right; by eexists].
    rewrite recs_overwrite. destruct (m !! Live) as [f|] eqn:E; cbn [default id].
    + rewrite (recs_lookup m Live f E). pose proof (write_line_records f o (a_write d) _ err Ho Hw) as P.
      rewrite <-(assoc_L (++)), (Permutation_app_comm (recs (delete Live m))), (assoc_L (++)), P. solve_Permutation.
    + rewrite delete_id by done. pose proof (write_line_records empty_file o (a_write d) _ err Ho Hw) as P.
      rewrite swallows_fresh, app_nil_r in P. cbn [swallows]. rewrite app_nil_r, P. change (records empty_file) with (@nil AccessEntry). cbn. apply Permutation_app_comm.
Qed.

(** Each write that is cut short puts two records at risk at most. *)
Lemma Append_risk line_size d MaxBytes m e now m' err : Append line_size d MaxBytes m e now = (m', err) →
  (length (swallows (a_write d) err (m !! Live) (stamped e now)) + at_risk m' ≤ at_risk m + if tears (a_write d) then 2 else 0)%nat.
Proof.
  intros [[-> Hw]|(o & Ho & Hw & _ & -> & _)]%Append_cases.
  - assert (swallows (a_write d) err (m !! Live) (stamped e now) = []) as -> by (unfold swallows; rewrite Hw; by destruct (m !! Live) as [[? []]|], (a_write d)).
    cbn. lia.
  - unfold at_risk. rewrite lookup_insert_eq. pose proof (decodeLine_marshal _ _ Ho) as Hd.
    destruct (m !! Live) as [[ls [t|]]|]; cbn [default id]; unfold swallows, write_line, append_line; rewrite ?Hw; destruct (a_write d); cbn [lines tail tears empty_file];
      rewrite ?length_app; cbn [omap list_omap]; rewrite ?Hd; change (decodeLine None) with (@None AccessEntry); cbn [length]; lia.
Qed.

Lemma pc_ok_live m f p : pc_ok m p → pc_ok (<[Live := f]> m) p.
Proof. destruct p; simpl; intros; rewrite ?lookup_insert_ne by naive_solver; naive_solver. Qed.

Lemma batches_Live m : Live ∉ batches m.
Proof. rewrite batches_elem. naive_solver. Qed.

Lemma settle_disk_ok n f k ok m :
  m !! n = Some f → readable m → (k ≤ length (records f))%nat →
  let m' := (settle disk_ok n (records f) k ok m).1 in
  readable m' ∧ recs m ≡ₚ take k (records f) ++ recs m' ∧ (n ≠ Live → m' !! Live = m !! Live).
Proof.
  intros Hn R Hk m'. destruct (settle disk_ok n (records f) k ok m) as [m1 err] eqn:Hs.
  pose proof (settle_spec _ _ _ _ _ _ _ _ Hn R Hk Hs) as (Rm & Hk' & _ & Hex & _). subst m'. cbn [fst].
  split_and!; [done|by apply Hex|]. intros Hn'. by apply Hk'.
Qed.

Lemma at_risk_live m m' : m' !! Live = m !! Live → (at_risk m' ≤ at_risk m)%nat.
Proof. intros E. unfold at_risk. by rewrite E. Qed.

Lemma claim_live fresh d m m' c : claim fresh d m = (m', c) → m' !! Live = m !! Live ∨ m' !! Live = None.
Proof.
  unfold claim. case_if; [|intros [= <- <-]; by left]. destruct (m !! Live) as [live|] eqn:E; [|intros [= <- <-]; by left].
  case_if; [|intros [= <- <-]; by left]. case_if; intros [= <- <-].
  - right. by rewrite lookup_insert_ne, lookup_delete_eq by done.
  - left. unfold remove. rewrite lookup_insert_eq. case_if; cbn [fst]; [rewrite lookup_delete_ne by done|]; by rewrite lookup_insert_ne.
Qed.

(** A drain puts nothing more at risk. *)
Lemma Drain_risk fresh d sink maxPerDrain w w' r err : readable (fs w) → exclusive fresh (fs w) →
  Drain fresh d sink maxPerDrain w = (w', r, err) → (at_risk (fs w') ≤ at_risk (fs w))%nat.
Proof.
  intros R Hx. unfold Drain. destruct (d OpGlob); [|by intros [= <- <- <-]].
  destruct (claim fresh d (fs w)) as [m c] eqn:Hc. pose proof (claim_live _ _ _ _ _ Hc) as HL. apply claim_spec in Hc as [Hp Hc]; [|done].
  assert (at_risk m ≤ at_risk (fs w))%nat as Hm by (destruct HL as [HL|HL]; [by apply at_risk_live|unfold at_risk at 1; rewrite HL; lia]).
  destruct c as [c|e]; [|by intros [= <- <- <-]]. intros Hl. etrans; [|exact Hm].
  apply drain_loop_spec in Hl as (k & _ & _ & _ & _ & K & _); [|unfold readable; cbn; by rewrite Hp|cbn [Sent]; lia].
  apply at_risk_live. rewrite K; [done|]. destruct c as [n|]; [|apply batches_Live].
  destruct Hc as (-> & _). intros [H|H%list_elem_of_singleton]%elem_of_app; [by apply batches_Live in H|done].
Qed.

(** The steps of the only drain keep [good]; [m] and [recs] below are those of
    the directory before and after. *)
Lemma drain_step_good sink rnd budget w p w' p' rest done_ :
  pc_ok (fs w) p → readable (fs w) → delivered w ++ recs (fs w) ++ rest ≡ₚ done_ ++ inflight p →
  drain_step sink rnd budget w p = Some (w', p') →
  pc_ok (fs w') p' ∧ readable (fs w') ∧ delivered w' ++ recs (fs w') ++ rest ≡ₚ done_ ++ unreported w w' p p' ++ inflight p' ∧
  (at_risk (fs w') ≤ at_risk (fs w))%nat.
Proof.
  intros Hp R C Hst.
  destruct p as [|todo|todo|todo name|[|n todo] sent|n [|e0 es] todo sent|n es k ok todo sent]; cbn [drain_step] in Hst.
  - injection Hst as <- <-. split_and!; try done. apply batches_Live.
  - injection Hst as <- <-. destruct (fs w !! Live); done.
  - destruct (fs w !! Claim rnd) eqn:Hr; [done|]. injection Hst as <- <-. cbn [fs with_fs delivered pc_ok inflight].
    unfold readable in *. split_and!; try done; [by rewrite lookup_insert_eq|by rewrite recs_insert|by rewrite recs_insert|].
    apply at_risk_live. by rewrite lookup_insert_ne.
  - destruct Hp as (Ht & Hn & He). destruct (fs w !! Live) as [f|] eqn:HL; injection Hst as <- <-;
      cbn [fs with_fs delivered inflight].
    + assert (recs (<[name:=f]> (delete Live (fs w))) ≡ₚ recs (fs w)) as P.
      { rewrite recs_overwrite, (recs_lookup (fs w) Live f HL). f_equiv.
        apply recs_delete with empty_file; [by rewrite lookup_delete_ne|done]. }
      unfold readable in *. split_and!; [simpl; set_solver|by rewrite P|by rewrite P|].
      unfold at_risk. rewrite lookup_insert_ne, lookup_delete_eq by done. lia.
    + unfold remove. rewrite He. cbn [disk_ok fst]. unfold readable in *.
      split_and!; [done|by rewrite (recs_delete _ name empty_file)|by rewrite (recs_delete _ name empty_file)|].
      apply at_risk_live. by rewrite lookup_delete_ne.
  - by injection Hst as <- <-.
  - injection Hst as <- <-. case_if; [done|]. split_and!; try done; set_solver.
  - injection Hst as <- <-. destruct Hp as (Ht & Hn & He). cbn [fs with_fs delivered inflight].
    unfold remove. destruct (fs w !! n) as [f|] eqn:Hf; [|done]. cbn [disk_ok fst]. unfold readable in *.
    split_and!; [done|by rewrite (recs_delete _ n f)|by rewrite (recs_delete _ n f)|]. apply at_risk_live. by rewrite lookup_delete_ne.
  - set (toSend := take (budget - sent) (e0 :: es)) in *.
    destruct (send_loop (S (length toSend)) sink w toSend 0) as [[[w1 k] ok]|] eqn:Hs; [|done].
    injection Hst as <- <-. apply send_loop_spec in Hs as (Hfs & Hb & Hok & tw & Hd & _); [|lia].
    rewrite drop_0, Nat.sub_0_r in Hd. subst toSend. rewrite length_take in Hb. rewrite take_take in Hd.
    replace (k `min` (budget - sent))%nat with k in Hd by lia. destruct Hp as (Ht & Hn & He). rewrite Hfs.
    assert (length (take k (e0 :: es)) = k) as Hk by (rewrite length_take; lia).
    split_and!; try done.
    + cbn [pc_ok]. split_and!; try done; [lia|]. destruct (fs w !! n) as [f|] eqn:Hf; [|done]. by exists f.
    + assert (drop (length (delivered w) + k) (delivered w1) = tw) as Hu.
      { rewrite Hd, (assoc_L (++)). apply drop_app_length'. rewrite length_app. lia. }
      cbn [unreported inflight] in *. rewrite Hu, Hd. rewrite app_nil_r in C.
      transitivity ((delivered w ++ recs (fs w) ++ rest) ++ tw ++ take k (e0 :: es)); [solve_Permutation|]. by rewrite C.
  - destruct Hp as (Ht & Hn & Hk & f & Hf & <-). injection Hst as <- <-. cbn [fs with_fs delivered].
    destruct (settle_disk_ok n f k ok _ Hf R Hk) as (R' & P & L'). rewrite P in C. cbn [inflight unreported] in *.
    split_and!; [by destruct ok|done| |apply at_risk_live, L', Hn].
    replace (inflight (if ok then PLoop todo (sent + k) else PIdle)) with (@nil AccessEntry) by by destruct ok.
    rewrite app_nil_r. apply (inj (.++ take k (records f))). etrans; [|exact C]. solve_Permutation.
Qed.

Section one_drain.
Context (line_size : line → Z) (MaxBytes : Z).

Definition tears_a_line (a : action) : bool := match a with AAppend d _ _ => tears (a_write d) | _ => false end.

Lemma act_good a s p s' torn : good s p torn → act line_size MaxBytes a s = Some s' →
  ∃ p', good s' p' (torn + if tears_a_line a then 1 else 0)%nat.
Proof.
  intros [Hps Hp R C B] Ha. destruct a as [i sink rnd budget|d e now|i]; cbn [act tears_a_line] in *; rewrite ?Hps, ?Nat.add_0_r in *.
  - destruct i as [|i]; [|done]. cbn in Ha.
    destruct (drain_step sink rnd budget (sys_w s) p) as [[w1 p1]|] eqn:Hst; [|done]. injection Ha as <-.
    exists p1. apply (drain_step_good _ _ _ _ _ _ _ (swallowed s) (logged s ++ repeated s)) in Hst as (? & ? & C' & ?); try done.
    + split; cbn [procs sys_w logged repeated swallowed fst snd]; try done; [|lia]. rewrite C'. by rewrite <-!(assoc_L (++)).
    + by rewrite <-(assoc_L (++)).
  - destruct (Append line_size d MaxBytes (fs (sys_w s)) e now) as [m err] eqn:Hap. injection Ha as <-. exists p.
    pose proof (Append_risk _ _ _ _ _ _ _ _ Hap) as Hr. apply Append_spec in Hap as (P & Hst & Hm). cbv zeta in P, Hst.
    split; cbn [procs sys_w logged repeated swallowed fs with_fs delivered]; [done| | | |].
    + destruct Hm as [->|[f ->]]; [done|by apply pc_ok_live].
    + unfold readable in *. assert (Forall storable (recs (fs (sys_w s)) ++ on_disk (a_write d) err (stamped e now))) as HF.
      { apply Forall_app. split; [done|]. unfold on_disk in *. destruct (_ && _); [|by constructor]. constructor; [by apply Hst|constructor]. }
      rewrite <-P in HF. by apply Forall_app in HF as [? _].
    + transitivity ((delivered (sys_w s) ++ swallowed s) ++ (recs m ++ swallows (a_write d) err (fs (sys_w s) !! Live) (stamped e now))); [solve_Permutation|].
      rewrite P. transitivity ((delivered (sys_w s) ++ recs (fs (sys_w s)) ++ swallowed s) ++ on_disk (a_write d) err (stamped e now)); [solve_Permutation|].
      rewrite C. solve_Permutation.
    + rewrite length_app. destruct (tears (a_write d)); lia.
  - destruct i as [|i]; [|done]. injection Ha as <-. exists PIdle.
    split; cbn [procs sys_w logged repeated swallowed inflight]; try done. rewrite C. by rewrite app_nil_r, (assoc_L (++)).
Qed.

(** C35. Any schedule of whole appends by other commands, each of whose disk
    calls may fail or be cut short by a crash, of the steps of drains that run
    one after another, whatever their sink answers, and of crashes between any
    two of those steps.  The records delivered, those on disk and those a torn
    line took with it are together exactly the records whose bytes all reached
    the spool, plus those delivered once more than that: a crash fell between
    their delivery and their removal, or a call failed after it landed, or the
    drain is now in that window.  A torn write costs at most two records, its
    own and the next; with none, no record is ever lost. *)
Theorem one_drain_at_a_time acts s : run line_size MaxBytes acts (start 1) = Some s →
  ∃ p, procs s = [p] ∧
  delivered (sys_w s) ++ recs (fs (sys_w s)) ++ swallowed s ≡ₚ logged s ++ repeated s ++ inflight p ∧
  (length (swallowed s) ≤ 2 * length (filter tears_a_line acts))%nat.
Proof.
  intros Hr. cut (∃ p, good s p (length (filter tears_a_line acts))).
  { intros [p [H1 _ _ H2 H3]]. exists p. split_and!; [done|done|lia]. }
  assert (∃ p, good (start 1) p 0) as Hg.
  { exists PIdle. split; [done|done| |done|exact (le_n 0)]. by apply Forall_nil_2. }
  change (length (filter tears_a_line acts)) with (0 + length (filter tears_a_line acts))%nat.
  revert Hr Hg. generalize (start 1) as s0. generalize 0%nat as torn. induction acts as [|a acts IH]; intros torn s0; cbn [run].
  - intros [= <-]. cbn. by rewrite Nat.add_0_r.
  - destruct (act line_size MaxBytes a s0) as [s1|] eqn:Ha; [|done]. intros Hr [p Hg].
    eapply act_good in Hg as [p' Hg]; [|done]. rewrite list.filter_cons. destruct (tears_a_line a) eqn:Et.
    + rewrite decide_True by done. cbn [length]. rewrite <-Nat.add_succ_comm, <-Nat.add_1_r. eapply IH; eauto.
    + rewrite decide_False by (intros H; done). rewrite Nat.add_0_r in Hg. eapply IH; eauto.
Qed.
End one_drain.

(** *** Two drains at a time *)

Definition sample (host : string) : AccessEntry :=
  {| VaultUser := "ann"; Hostname := host; CertSerial := "7"; SignedAt := 63900000000 * Second; OK := true;
     SourceIP := ""; SourceAddr := ""; ClientHost := ""; ClientUser := ""; TargetAddr := ""; JumpVia := "";
     Error := "" |}.

Definition any_size : line → Z := λ _, 200.
Definition up : Sink := {| is_batch := true; accepts := λ _ _, true; lands := λ _ _, false |}.
Definition step_of (i : nat) (rnd : string) : action := ADrain i up rnd maxDrainPerCall.

(** The first drain reserves its claim name; the second lists that still empty
    file as a batch, claims the live spool, and finds the batch empty; a record
    is appended; the first drain renames it onto its name; the second removes
    the name. *)
Definition losing_schedule : list action :=
  [AAppend append_ok (sample "h1") 0; step_of 0 "a"; step_of 0 "a"; step_of 0 "a";
   step_of 1 "b"; step_of 1 "b"; step_of 1 "b"; step_of 1 "b"; step_of 1 "b";
   AAppend append_ok (sample "h2") 0; step_of 0 "a"; step_of 1 "b";
   step_of 1 "b"; step_of 1 "b"; step_of 1 "b"; step_of 1 "b";
   step_of 0 "a"; step_of 0 "a"; step_of 0 "a"].

Definition hosts_of (es : list AccessEntry) : list string := Hostname <$> es.

(** Both list the same claim file before either sends it. *)
Definition repeating_schedule : list action :=
  [AAppend append_ok (sample "h1") 0; step_of 0 "a"; step_of 0 "a"; step_of 0 "a"; step_of 0 "a";
   step_of 1 "b"; step_of 1 "b"; step_of 0 "a"; step_of 1 "b"; step_of 0 "a"; step_of 1 "b";
   step_of 0 "a"; step_of 1 "b"; step_of 0 "a"; step_of 1 "b"].

(** Drains that overlap are not safe.  Two drains and two appends can
    end with a record neither delivered nor on disk, and two drains of one
    claim file deliver its records twice. *)
Theorem overlapping_drains_are_unsafe :
  (λ s, (procs s, hosts_of (logged s), hosts_of (delivered (sys_w s)), hosts_of (recs (fs (sys_w s)))))
    <$> run any_size 0 losing_schedule (start 2)
  = Some ([PIdle; PIdle], ["h1"; "h2"], ["h1"], []) ∧
  (λ s, (procs s, hosts_of (logged s), hosts_of (delivered (sys_w s)), hosts_of (recs (fs (sys_w s)))))
    <$> run any_size 0 repeating_schedule (start 2)
  = Some ([PIdle; PIdle], ["h1"], ["h1"; "h1"], []).
Proof. split; vm_compute; reflexivity. Qed.

(** A write torn by a crash takes the next record with it: the bytes run into
    the line appended after them, and the two are dropped as one. *)
Theorem torn_line_swallows_the_next m f t e now m' :
  m !! Live = Some f → tail f = Some t → Append any_size append_ok DefaultMaxBytes m e now = (m', None) →
  load (m' !! Live) = (omap decodeLine (lines f), S (length (filter (λ ln, decodeLine ln = None) (lines f)))).
Proof.
  intros Hf Ht. unfold Append. cbn [a_dir a_measure a_open a_write a_sync append_ok negb]. case_if; [done|]. destruct (marshal_line _) as [o|]; [|done].
  intros [= <-]. rewrite lookup_insert_eq, Hf. cbn [default id write_line]. unfold append_line. rewrite Ht.
  unfold load, tokens. cbn [lines tail]. rewrite app_nil_r, omap_app, list.filter_app, length_app.
  rewrite list.filter_cons, decide_True by done. cbn. by rewrite app_nil_r, Nat.add_1_r.
Qed.

(** ** The spool's other promises *)

Lemma batches_no_live m : m !! Live = None → batches m ≡ₚ (map_to_list m).*1.
Proof.
  intros HL. unfold batches, sort_strings, claim_names. rewrite sort_perm.
  assert (∀ e, e ∈ map_to_list m → e.1 ≠ Live) as Hne.
  { intros [n f] He Hn. cbn in Hn. subst n. apply elem_of_map_to_list in He. simplify_eq. }
  revert Hne. induction (map_to_list m) as [|[[|r] f] l IH]; intros Hne; csimpl; [done|exfalso; by apply (Hne (Live, f)); [left|]|].
  f_equiv. apply IH. intros. apply Hne. by right.
Qed.

Lemma batches_perm m : batches m ≡ₚ (map_to_list (delete Live m)).*1.
Proof.
  rewrite <-batches_no_live by apply lookup_delete_eq.
  destruct (m !! Live) as [f|] eqn:HL; [|by rewrite delete_id].
  unfold batches, sort_strings, claim_names. rewrite !sort_perm.
  by rewrite <-(insert_delete_id m Live f HL) at 1; rewrite map_to_list_insert by apply lookup_delete_eq.
Qed.

Lemma loads_recs (m : gmap fname file) (l : list (fname * file)) : (∀ e, e ∈ l → m !! e.1 = Some e.2) →
  l.*1 ≫= (λ n, (load (m !! n)).1) = l ≫= (λ e, records e.2).
Proof.
  induction l as [|e l IH]; intros H; csimpl; [done|].
  rewrite (H e) by left. f_equal. apply IH. intros. apply H. by right.
Qed.

(** The files the spool visits hold all there is. *)
Lemma loads_perm m : (batches m ++ [Live]) ≫= (λ n, (load (m !! n)).1) ≡ₚ recs m.
Proof.
  rewrite bind_app. csimpl. rewrite app_nil_r, batches_perm, loads_recs.
  - destruct (m !! Live) as [f|] eqn:HL.
    + rewrite (recs_lookup m Live f HL). apply Permutation_app_comm.
    + rewrite delete_id by done. by rewrite app_nil_r.
  - intros [n f] He%elem_of_map_to_list. by apply lookup_delete_Some in He as [_ ?].
Qed.

Lemma Pending_recs m : Pending m = length (recs m).
Proof.
  rewrite <-loads_perm. unfold Pending. induction (batches m ++ [Live]) as [|n l IH]; csimpl; [done|].
  by rewrite length_app, IH.
Qed.

Lemma size_append line_size f o : (∀ ln, 0 < line_size ln) → 0 < size line_size (Some (append_line f o)).
Proof.
  intros Hpos. unfold size.
  assert (∃ l x, tokens (append_line f o) = l ++ [x]) as (l & x & ->).
  { unfold append_line, tokens. case_match; cbn [lines tail]; rewrite app_nil_r; eauto. }
  induction l as [|ln l IH]; csimpl; [pose proof (Hpos x)|pose proof (Hpos ln)]; lia.
Qed.

(** The spool is a faithful outbox.  On a spool with no torn line an Append
    that succeeds adds its record, stamped with the time of the connection, to
    what Pending counts and a drain will send; a backlog is then visible to the
    guard that decides to drain; with a working disk Append refuses exactly when
    the live file and the claim files together have reached the cap, or the
    record cannot be encoded, leaving the directory alone. *)
Theorem Append_queues line_size d MaxBytes m e now m' err :
  untorn m → (∀ ln, 0 < line_size ln) → Append line_size d MaxBytes m e now = (m', err) →
  (err = None → atCap line_size MaxBytes m = false ∧ untorn m' ∧
     recs m' ≡ₚ recs m ++ [stamped e now] ∧ SignedAt (stamped e now) = (if IsZero (SignedAt e) then now else SignedAt e) ∧
     Pending m' = S (Pending m) ∧ HasBacklog line_size m' = true) ∧
  (d = append_ok → ∀ x, err = Some x → m' = m ∧
     ((x = ErrFull ∧ atCap line_size MaxBytes m = true) ∨ (x = ErrMarshal ∧ ¬ storable (stamped e now)))).
Proof.
  intros Hu Hpos Ha. split.
  - intros ->. pose proof (Append_spec _ _ _ _ _ _ _ _ Ha) as (P & _ & _). apply Append_cases in Ha as [[_ ?]|(o & _ & _ & Hcap & -> & Hw)]; [done|].
    destruct (proj1 Hw eq_refl) as [Ew _]. rewrite Ew in P |- *. cbn [on_disk wrote reached andb write_line] in P |- *.
    assert (tail (default empty_file (m !! Live)) = None) as Ht.
    { destruct (m !! Live) as [f|] eqn:E; [exact (Hu _ _ E)|done]. }
    assert (swallows Whole None (m !! Live) (stamped e now) = []) as Es by (destruct (m !! Live) as [[ls [t|]]|]; done).
    rewrite Es, app_nil_r in P. split_and!; [done| |done| | |].
    + apply map_Forall_insert_2; [|done]. unfold append_line. by rewrite Ht.
    + unfold stamped. by case_if.
    + rewrite !Pending_recs, P, length_app. simpl. lia.
    + unfold HasBacklog. apply existsb_exists. exists Live. split; [apply list_elem_of_In; set_solver|].
      rewrite lookup_insert_eq. apply Z.ltb_lt. by apply size_append.
  - intros -> x ->. revert Ha. unfold Append, storable. cbn [a_dir a_measure a_open a_write a_sync append_ok negb].
    case_if; [intros [= <- <-]; auto|]. unfold marshal_line, toLine. cbn [l_signed_at]. destruct (marshalable_time _) eqn:Hm; [done|].
    intros [= <- <-]. split; [done|]. by right.
Qed.

(** *** An append that straddles a drain's claim

    An append holds the live file open; a write after the drain renamed that
    file goes to the claim file, and after the drain has read it too late. *)
Definition late_write (m : gmap fname file) (name : fname) (e : AccessEntry) : gmap fname file :=
  match m !! name, marshal_line (toLine e) with Some f, Some o => <[name := append_line f o]> m | _, _ => m end.

Definition drain_steps (n : nat) (wp : option (world * pc)) : option (world * pc) :=
  Nat.iter n (λ wp, '(w, p) ← wp; drain_step up "a" maxDrainPerCall w p) wp.

Lemma a_late_write_is_lost :
  (λ wp, (wp.2, hosts_of (delivered wp.1), hosts_of (recs (fs wp.1)))) <$>
    drain_steps 3 ((λ wp, (with_fs wp.1 (late_write (fs wp.1) (Claim "a") (sample "h2")), wp.2)) <$>
      drain_steps 5 (Some ({| fs := {[ Live := encode [sample "h1"] ]}; calls := 0; delivered := [] |}, PIdle)))
  = Some (PIdle, ["h1"], []).
Proof. vm_compute. reflexivity. Qed.

(** Reading a spool file accounts for every line.  Each token of a file is
    either a record or counted as skipped; what [encode] writes for records
    reads back as those records with none skipped; and a version stamp this
    program does not know is skipped, never guessed at. *)
Theorem load_accounts f es o v :
  (length (load (Some f)).1 + (load (Some f)).2)%nat = length (tokens f) ∧
  (Forall storable es → load (Some (encode es)) = (es, 0%nat)) ∧
  (get_int o "v" = Some v → v ≠ 0 → v ≠ spoolVersion → decodeLine (Some o) = None).
Proof.
  split_and!.
  - unfold load. cbn [fst snd]. induction (tokens f) as [|ln l IH]; [done|].
    cbn [omap list_omap]. rewrite list.filter_cons.
    destruct (decodeLine ln) eqn:Hd; case_decide; try done; csimpl; lia.
  - apply load_encode.
  - intros Hv H0 H1. unfold decodeLine. csimpl. rewrite Hv. csimpl.
    by rewrite (proj2 (Z.eqb_neq v 0) H0), (proj2 (Z.eqb_neq _ _) H1).
Qed.

(** ** Witnesses *)

Definition demo_fs : gmap fname file :=
  <[Claim "a" := encode [sample "h1"; sample "h2"]]> {[ Live := encode [sample "h3"] ]}.
(** The sink goes away after two calls. *)
Definition flaky : Sink := {| is_batch := false; accepts := λ n _, (n <? 2)%nat; lands := λ _ _, false |}.
Definition demo_w : world := {| fs := demo_fs; calls := 0; delivered := [] |}.

Lemma Drain_conserves_witness :
  let out := Drain (λ _, "b") disk_ok flaky 0 demo_w in
  delivered out.1.1 = [sample "h1"; sample "h2"] ∧ recs (fs out.1.1) = [sample "h3"] ∧
  (delivered demo_w ++ recs (fs demo_w) ⊆+ delivered out.1.1 ++ recs (fs out.1.1)).
Proof.
  split_and!; [vm_compute; reflexivity..|].
  refine (proj1 (proj2 (Drain_conserves (λ _, "b") disk_ok flaky 0 demo_w _ _ _ _ _ _))).
  - unfold readable. replace (recs (fs demo_w)) with [sample "h1"; sample "h2"; sample "h3"] by (vm_compute; reflexivity).
    repeat constructor.
  - vm_compute. reflexivity.
  - vm_compute. reflexivity.
Defined.

Definition cut_short : AppendDisk := {| a_dir := true; a_measure := true; a_open := true; a_write := Torn; a_sync := true |}.
Definition demo_acts : list action :=
  [AAppend append_ok (sample "h1") 0; step_of 0 "a"; step_of 0 "a"; step_of 0 "a"; AAppend append_ok (sample "h2") 0;
   step_of 0 "a"; AAppend append_ok (sample "h3") 0; step_of 0 "a"; step_of 0 "a"; ACrash 0;
   AAppend cut_short (sample "h4") 0; AAppend append_ok (sample "h5") 0].

Definition demo_end : sys := default (start 0) (run any_size 0 demo_acts (start 1)).

Lemma one_drain_at_a_time_witness :
  hosts_of (logged demo_end) = ["h1"; "h2"; "h3"; "h5"] ∧ hosts_of (repeated demo_end) = ["h1"; "h2"] ∧ hosts_of (swallowed demo_end) = ["h5"] ∧
  ∃ p, procs demo_end = [p] ∧
    delivered (sys_w demo_end) ++ recs (fs (sys_w demo_end)) ++ swallowed demo_end ≡ₚ logged demo_end ++ repeated demo_end ++ inflight p ∧
    (length (swallowed demo_end) ≤ 2 * length (filter tears_a_line demo_acts))%nat.
Proof.
  split_and!; [vm_compute; reflexivity..|].
  apply (one_drain_at_a_time any_size 0 demo_acts). vm_compute. reflexivity.
Defined.

Example Append_queues_sample :
  (λ r, (Pending r.1, HasBacklog any_size r.1, r.2)) (Append any_size append_ok 0 demo_fs (sample "h4") 0) = (4%nat, true, None).
Proof. vm_compute. reflexivity. Qed.

Lemma load_accounts_witness :
  load (Some (encode [sample "h1"])) = ([sample "h1"], 0%nat) ∧ decodeLine (Some [("v", JInt 2)]) = None.
Proof.
  pose proof (load_accounts empty_file [sample "h1"] [("v", JInt 2)] 2) as (_ & H1 & H2).
  split; [apply H1; repeat constructor|by apply H2].
Defined.

Definition torn_fs : gmap fname file := {[ Live := {| lines := [Some []]; tail := Some None |} ]}.

Lemma torn_line_swallows_the_next_witness :
  ∃ m', Append any_size append_ok DefaultMaxBytes torn_fs (sample "h4") 0 = (m', None) ∧
    load (m' !! Live) = ([entry (default (toLine (sample "")) (unmarshal_line []))], 1%nat).
Proof.
  eexists. split; [vm_compute; reflexivity|].
  rewrite (torn_line_swallows_the_next torn_fs {| lines := [Some []]; tail := Some None |} None (sample "h4") 0);
    vm_compute; reflexivity.
Defined.
