(* ===== verification/Membership.v ===== *)
(** Which hosts a deployment owns (internal/openstack/membership): the matching
    of inventory names with the control plane's, and the decision a reconcile
    run applies. *)

From S2P Require Import Prelude GoStrings.

(** ** Data *)

Definition Declared : string := "declared".
Definition Confirmed : string := "confirmed".
Definition LocalOnly : string := "local-only".
Definition ControlOnly : string := "control-only".
Definition Conflict : string := "conflict".

Record Observation := {
  obs_DeploymentID : string; obs_DisplayName : string; obs_Region : string; obs_KeystoneURL : string;
  LocalHosts : list string; ControlHosts : list string; Complete : bool; At : time_t;
}.

(** The values of an evidence map. *)
Inductive any := ABool (b : bool) | AStr (s : string).

Record HostDecision := { Hostname : string; Confidence : string; Evidence : gmap string any }.

Definition Holds (h : HostDecision) : bool := String.eqb (Confidence h) "".

Record Outcome := {
  o_DeploymentID : string; o_Confirmed : list string; o_LocalOnly : list string; o_ControlOnly : list string;
  Ambiguous : list string; Held : list string; o_Complete : bool;
}.

Record Decision := {
  DeploymentID : string; DisplayName : string; Region : string; KeystoneURL : string;
  Hosts : list HostDecision; SweepStale : bool; d_At : time_t; d_Outcome : Outcome;
}.

(** ** Matching names *)

Definition shortName (h : string) : string :=
  match Cut h "." with Some (s, _) => s | None => h end.

Definition suffixMatch (inventory control : string) : bool :=
  let n := String.length inventory in
  let k := String.length control in
  if String.eqb control "" || (n <=? k)%nat then false
  else if negb (EqualFold (drop_bytes (n - k) inventory) control) then false
  else match String.get (n - k - 1) inventory with
       | Some c => in_cutset "-_." c
       | None => false
       end.

Definition byShort (local : list string) : gmap string (list string) :=
  foldl (λ m h, <[shortName h := default [] (m !! shortName h) ++ [h]]> m) ∅ local.

Record matching := { pairs : gmap string string; claimed : gset string }.

Definition take_host (st : matching) (h c : string) : matching :=
  {| pairs := <[h := c]> (pairs st); claimed := {[h]} ∪ claimed st |}.

(** The first loop: a name whose short form exactly one inventory host has. *)
Definition match_short (by_short : gmap string (list string)) (st : matching * list string) (c : string)
    : matching * list string :=
  match default [] (by_short !! shortName c) with
  | [h] => (take_host st.1 h c, st.2)
  | _ => (st.1, st.2 ++ [c])
  end.

Definition hits (local : list string) (st : matching) (c : string) : list string :=
  filter (λ h, negb (bool_decide (h ∈ claimed st)) && suffixMatch h (shortName c)) local.

(** The second loop, over the names that remain. *)
Definition match_suffix (local : list string) (st : matching * list string) (c : string) : matching * list string :=
  match hits local st.1 c with
  | [] => st
  | [h] => (take_host st.1 h c, st.2)
  | _ => (st.1, st.2 ++ [c])
  end.

Definition no_match : matching := {| pairs := ∅; claimed := ∅ |}.

Definition MatchHosts (local control : list string) : gmap string string * list string :=
  let '(st, remaining) := foldl (match_short (byShort local)) (no_match, []) control in
  let '(st, ambiguous) := foldl (match_suffix local) (st, []) remaining in
  (pairs st, sort_strings ambiguous).

(** ** Decide *)

(** What the loop of [Decide] over the inventory's hosts collects. *)
Record tally := {
  matched : gset string; t_Confirmed : list string; t_LocalOnly : list string;
  t_Held : list string; t_Hosts : list HostDecision;
}.

Definition decide_host (prs : gmap string string) (complete : bool) (t : tally) (host : string) : tally :=
  match prs !! host with
  | Some novaName =>
      {| matched := {[novaName]} ∪ matched t; t_Confirmed := t_Confirmed t ++ [host];
         t_LocalOnly := t_LocalOnly t; t_Held := t_Held t;
         t_Hosts := t_Hosts t ++
           [{| Hostname := host; Confidence := Confirmed;
               Evidence := <["local" := ABool true]> (<["control" := ABool true]>
                           {[ "nova_hostname" := AStr novaName ]}) |}] |}
  | None =>
      let h := if complete
               then {| Hostname := host; Confidence := LocalOnly;
                       Evidence := <["local" := ABool true]> {[ "control" := ABool false ]} |}
               else {| Hostname := host; Confidence := ""; Evidence := ∅ |} in
      {| matched := matched t; t_Confirmed := t_Confirmed t; t_LocalOnly := t_LocalOnly t ++ [host];
         t_Held := if complete then t_Held t else t_Held t ++ [host]; t_Hosts := t_Hosts t ++ [h] |}
  end.

Definition no_tally : tally :=
  {| matched := ∅; t_Confirmed := []; t_LocalOnly := []; t_Held := []; t_Hosts := [] |}.

Definition Decide (obs : Observation) (now : time_t) : Decision :=
  let at_ := if IsZero (At obs) then now else At obs in
  let '(prs, ambiguous) := MatchHosts (LocalHosts obs) (ControlHosts obs) in
  let t := foldl (decide_host prs (Complete obs)) no_tally (LocalHosts obs) in
  {| DeploymentID := obs_DeploymentID obs; DisplayName := obs_DisplayName obs; Region := obs_Region obs;
     KeystoneURL := obs_KeystoneURL obs; Hosts := t_Hosts t; SweepStale := Complete obs; d_At := at_;
     d_Outcome := {| o_DeploymentID := obs_DeploymentID obs; o_Confirmed := t_Confirmed t;
                     o_LocalOnly := t_LocalOnly t;
                     o_ControlOnly := filter (λ h, h ∉ matched t) (ControlHosts obs);
                     Ambiguous := ambiguous; Held := t_Held t; o_Complete := Complete obs |} |}.

(** ** Matching *)

(** How a control-plane name can stand for an inventory host. *)
Definition names_host (c h : string) : Prop := shortName h = shortName c ∨ suffixMatch h (shortName c) = true.

Lemma byShort_lookup local s : default [] (byShort local !! s) = filter (λ h, shortName h = s) local.
Proof.
  unfold byShort.
  assert (∀ m : gmap string (list string),
    default [] (foldl (λ m h, <[shortName h := default [] (m !! shortName h) ++ [h]]> m) m local !! s) =
    default [] (m !! s) ++ filter (λ h, shortName h = s) local) as H; [|apply H].
  induction local as [|h local IH]; intros m; cbn [foldl]; [by rewrite app_nil_r|].
  rewrite IH, list.filter_cons. destruct (decide (shortName h = s)) as [<-|Hne].
  - rewrite lookup_insert_eq. cbn [default id]. by rewrite <-(assoc_L (++)).
  - by rewrite lookup_insert_ne.
Qed.

(** The two outcomes of each loop's body. *)
Lemma match_short_cases local st c :
  (∃ h, filter (λ h, shortName h = shortName c) local = [h] ∧
     match_short (byShort local) st c = (take_host st.1 h c, st.2)) ∨
  (length (filter (λ h, shortName h = shortName c) local) ≠ 1%nat ∧
     match_short (byShort local) st c = (st.1, st.2 ++ [c])).
Proof.
  unfold match_short. rewrite byShort_lookup. destruct (filter _ local) as [|h [|]]; [right|left|right]; eauto.
Qed.

Lemma match_suffix_cases local st c :
  (∃ h, hits local st.1 c = [h] ∧ match_suffix local st c = (take_host st.1 h c, st.2)) ∨
  (hits local st.1 c = [] ∧ match_suffix local st c = st) ∨
  ((2 ≤ length (hits local st.1 c))%nat ∧ match_suffix local st c = (st.1, st.2 ++ [c])).
Proof.
  unfold match_suffix. destruct (hits local st.1 c) as [|h [|h' l]]; [right; left|left|right; right]; simpl; eauto with lia.
Qed.

Lemma hits_elem local st c h : h ∈ hits local st c ↔ h ∈ local ∧ h ∉ claimed st ∧ suffixMatch h (shortName c) = true.
Proof.
  unfold hits. rewrite list_elem_of_filter, Is_true_true, andb_true_iff, negb_true_iff, bool_decide_eq_false. tauto.
Qed.

(** [paired st h c] holds when [h] is paired with [c]. *)
Notation paired st h c := (pairs st !! h = Some c).

Lemma take_host_lookup st h c h' c' : paired (take_host st h c) h' c' ↔ (h' = h ∧ c' = c) ∨ (h' ≠ h ∧ paired st h' c').
Proof. unfold take_host. cbn [pairs]. rewrite lookup_insert_Some. naive_solver. Qed.

(** What holds of the state while the names [seen] have been offered. *)
Record matching_ok (local seen : list string) (st : matching) : Prop := {
  mo_claimed : claimed st = dom (pairs st);
  mo_sound : ∀ h c, paired st h c → h ∈ local ∧ c ∈ seen ∧ names_host c h;
}.

Lemma take_host_ok local seen st h c :
  matching_ok local seen st → h ∈ local → names_host c h → matching_ok local (seen ++ [c]) (take_host st h c).
Proof.
  intros [Hc Hs] Hh Hn. split.
  - unfold take_host. cbn [claimed pairs]. by rewrite dom_insert_L, Hc.
  - intros h' c' [[-> ->]|[_ Hp]]%take_host_lookup; [set_solver|]. apply Hs in Hp. set_solver.
Qed.

Lemma matching_ok_mono local seen seen' st : seen ⊆ seen' → matching_ok local seen st → matching_ok local seen' st.
Proof. intros Hsub [Hc Hs]. split; [done|]. intros h c Hp. apply Hs in Hp. set_solver. Qed.

Lemma no_match_ok local : matching_ok local [] no_match.
Proof. split; [cbn; by rewrite dom_empty_L|]. intros h c; cbn; by rewrite lookup_empty. Qed.

Lemma filter_singleton_inv {A} (P : A → Prop) `{!∀ x, base.Decision (P x)} l x : filter P l = [x] → x ∈ l ∧ P x.
Proof. intros Hf. assert (x ∈ filter P l) as Hx by (rewrite Hf; set_solver). apply list_elem_of_filter in Hx. tauto. Qed.

(** *** The first loop *)

Record phase1 (local seen : list string) (st : matching * list string) : Prop := {
  p1_ok : matching_ok local seen st.1;
  p1_short : ∀ h c, paired st.1 h c → filter (λ x, shortName x = shortName c) local = [h];
  p1_all : ∀ c, c ∈ seen → c ∈ st.2 ∧ length (filter (λ x, shortName x = shortName c) local) ≠ 1%nat ∨
             ∃ h c', filter (λ x, shortName x = shortName c) local = [h] ∧ paired st.1 h c' ∧ shortName c' = shortName c;
  p1_rest : st.2 `sublist_of` seen;
  p1_rest_short : ∀ c, c ∈ st.2 → length (filter (λ x, shortName x = shortName c) local) ≠ 1%nat;
}.

Lemma phase1_step local seen st c : phase1 local seen st → phase1 local (seen ++ [c]) (match_short (byShort local) st c).
Proof.
  intros [Ho Hs Ha Hr Hrs]. destruct (match_short_cases local st c) as [(h & Hf & ->)|(Hl & ->)].
  - destruct (filter_singleton_inv _ _ _ Hf) as [Hin Hn]. split; cbn [fst snd].
    + apply take_host_ok; [done..|by left].
    + intros h' c' [[-> ->]|[_ Hp]]%take_host_lookup; [done|by apply Hs].
    + intros c' [Hc'|Hc']%elem_of_app.
      * destruct (Ha c' Hc') as [?|(h' & c2 & Hf' & Hp & Hsh)]; [by left|right].
        destruct (decide (h' = h)) as [->|Hne].
        -- exists h, c. split; [done|]. split; [apply take_host_lookup; by left|].
           destruct (filter_singleton_inv _ _ _ Hf') as [_ ?]. congruence.
        -- exists h', c2. split; [done|]. split; [apply take_host_lookup; by right|done].
      * apply list_elem_of_singleton in Hc' as ->. right. exists h, c. split; [done|]. split; [|done]. apply take_host_lookup. by left.
    + by apply sublist_inserts_r.
    + done.
  - split; cbn [fst snd].
    + eapply matching_ok_mono; [|done]. set_solver.
    + done.
    + intros c' [Hc'|Hc']%elem_of_app.
      * destruct (Ha c' Hc') as [[? ?]|?]; [left; split; [set_solver|done]|by right].
      * apply list_elem_of_singleton in Hc' as ->. left. split; [set_solver|done].
    + by apply sublist_app.
    + intros c' [Hc'|Hc']%elem_of_app; [by apply Hrs|]. by apply list_elem_of_singleton in Hc' as ->.
Qed.

Lemma phase1_run local control : phase1 local control (foldl (match_short (byShort local)) (no_match, []) control).
Proof.
  apply (foldl_invariant (phase1 local)); [|intros; by apply phase1_step].
  split; cbn [fst snd]; [apply no_match_ok|intros h c; cbn; by rewrite lookup_empty|set_solver|done|set_solver].
Qed.

(** The values of the pairing, before and after. *)
Definition injective (m : gmap string string) : Prop := ∀ h h' c, m !! h = Some c → m !! h' = Some c → h = h'.

Lemma phase1_injective local seen st : phase1 local seen st → injective (pairs st.1).
Proof.
  intros [_ Hs _ _ _] h h' c Hp Hp'. apply Hs in Hp, Hp'. congruence.
Qed.

(** *** The second loop *)

Record phase2 (local : list string) (st1 : matching) (seen : list string) (st : matching * list string) : Prop := {
  p2_claimed : claimed st.1 = dom (pairs st.1);
  p2_kept : ∀ h c, paired st1 h c → paired st.1 h c;
  p2_new : ∀ h c, paired st.1 h c → paired st1 h c ∨
             c ∈ seen ∧ pairs st1 !! h = None ∧ h ∈ local ∧ suffixMatch h (shortName c) = true;
  p2_amb : st.2 `sublist_of` seen;
  p2_two : ∀ c, c ∈ st.2 → (2 ≤ length (filter (λ h, suffixMatch h (shortName c)) local))%nat;
  p2_inj : NoDup seen → (∀ h c, paired st1 h c → c ∉ seen) → injective (pairs st1) →
             injective (pairs st.1) ∧ (∀ h c, paired st.1 h c → c ∉ st.2);
}.

Lemma hits_length local st c : (length (hits local st c) ≤ length (filter (λ h, suffixMatch h (shortName c)) local))%nat.
Proof.
  unfold hits. induction local as [|h l IH]; [done|]. rewrite !list.filter_cons.
  destruct (bool_decide (h ∈ claimed st)), (suffixMatch h (shortName c)); repeat case_decide; simpl in *; try done; lia.
Qed.

Lemma phase2_step local st1 seen st c : phase2 local st1 seen st → phase2 local st1 (seen ++ [c]) (match_suffix local st c).
Proof.
  intros [Hcl Hk Hn Ha Ht Hi].
  destruct (match_suffix_cases local st c) as [(h & Hh & ->)|[(Hh & ->)|(Hh & ->)]].
  - assert (h ∈ hits local st.1 c) as (Hin & Hnc & Hsuf)%hits_elem by (rewrite Hh; set_solver).
    rewrite Hcl, not_elem_of_dom in Hnc. split; cbn [fst snd].
    + unfold take_host. cbn [claimed pairs]. by rewrite dom_insert_L, Hcl.
    + intros h' c' Hp. apply take_host_lookup. right. split; [|by apply Hk]. intros ->. apply Hk in Hp. congruence.
    + intros h' c' [[-> ->]|[_ Hp]]%take_host_lookup.
      * right. split_and!; [set_solver| |done..]. destruct (pairs st1 !! h) eqn:E; [apply Hk in E; congruence|done].
      * destruct (Hn _ _ Hp) as [?|(? & ?)]; [by left|right]. split; [set_solver|done].
    + by apply sublist_inserts_r.
    + done.
    + intros [Hnd [Hc _]]%NoDup_app Hfresh Hinj1.
      destruct Hi as [Hinj Hamb]; [done|intros h' c' Hp; apply Hfresh in Hp; set_solver|done|].
      assert (∀ h', ¬ paired st.1 h' c) as Hnew.
      { intros h' Hp. destruct (Hn _ _ Hp) as [Hp1|(Hp1 & _)]; [by apply (Hfresh _ _ Hp1), elem_of_app; right; left|].
        apply (Hc c Hp1). by left. }
      split.
      * intros h1 h2 c' [[E1 F1]|[_ Hp1]]%take_host_lookup [[E2 F2]|[_ Hp2]]%take_host_lookup.
        -- congruence.
        -- rewrite F1 in Hp2. by apply Hnew in Hp2.
        -- rewrite F2 in Hp1. by apply Hnew in Hp1.
        -- by eapply Hinj.
      * intros h' c' [[-> ->]|[? Hp]]%take_host_lookup; [|by eapply Hamb].
        intros Hc2. apply (sublist_subseteq _ _ Ha) in Hc2. apply (Hc c Hc2). by left.
  - split; try done.
    + intros h' c' Hp. destruct (Hn _ _ Hp) as [?|(? & ?)]; [by left|right]. split; [set_solver|done].
    + by apply sublist_inserts_r.
    + intros [Hnd _]%NoDup_app Hfresh Hinj1. apply Hi; [done|intros h' c' Hp; apply Hfresh in Hp; set_solver|done].
  - split; cbn [fst snd]; try done.
    + intros h' c' Hp. destruct (Hn _ _ Hp) as [?|(? & ?)]; [by left|right]. split; [set_solver|done].
    + by apply sublist_app.
    + intros c' [Hc'|Hc']%elem_of_app; [by apply Ht|]. apply list_elem_of_singleton in Hc' as ->.
      etrans; [exact Hh|apply hits_length].
    + intros [Hnd [Hc _]]%NoDup_app Hfresh Hinj1.
      destruct Hi as [Hinj Hamb]; [done|intros h' c' Hp; apply Hfresh in Hp; set_solver|done|]. split; [done|].
      intros h' c' Hp [?|Hc']%elem_of_app; [by eapply Hamb|]. apply list_elem_of_singleton in Hc' as ->.
      destruct (Hn _ _ Hp) as [Hp1|(Hp1 & _)]; [by apply (Hfresh _ _ Hp1), elem_of_app; right; left|].
        apply (Hc c Hp1). by left.
Qed.

Lemma phase2_run local st1 rest : claimed st1 = dom (pairs st1) →
  phase2 local st1 rest (foldl (match_suffix local) (st1, []) rest).
Proof.
  intros H. apply (foldl_invariant (phase2 local st1)); [|intros; by apply phase2_step].
  split; cbn [fst snd]; [done|done|by left|done|set_solver|]. intros _ _ Hi. split; [done|set_solver].
Qed.

Lemma MatchHosts_run local control : ∃ st1 rest st2 amb,
  phase1 local control (st1, rest) ∧ phase2 local st1 rest (st2, amb) ∧
  MatchHosts local control = (pairs st2, sort_strings amb).
Proof.
  unfold MatchHosts. pose proof (phase1_run local control) as H1.
  destruct (foldl (match_short (byShort local)) (no_match, []) control) as [st1 rest].
  pose proof (phase2_run local st1 rest (mo_claimed _ _ _ (p1_ok _ _ _ H1))) as H2.
  destruct (foldl (match_suffix local) (st1, []) rest) as [st2 amb]. by exists st1, rest, st2, amb.
Qed.

(** Matching never guesses.  Every pair joins an inventory host to a
    control-plane name with the same short name, or one that is the host's name
    behind a site prefix; a host that is the only one with a name's short form
    is never taken by the looser rule; a name reported as ambiguous is one of
    the control plane's and really has two or more candidates; and when the control plane's names
    are distinct no two hosts share a name, and an ambiguous name is paired with
    none. *)
Theorem MatchHosts_never_guesses local control prs amb :
  MatchHosts local control = (prs, amb) →
  (∀ h c, prs !! h = Some c → h ∈ local ∧ c ∈ control ∧ names_host c h) ∧
  (∀ h c, c ∈ control → filter (λ x, shortName x = shortName c) local = [h] →
     ∃ c', prs !! h = Some c' ∧ shortName c' = shortName h) ∧
  (∀ c, c ∈ amb → c ∈ control ∧ (2 ≤ length (filter (λ h, suffixMatch h (shortName c)) local))%nat) ∧
  StronglySorted (not_after string_ltb) amb ∧
  (NoDup control → NoDup amb ∧ (∀ h h' c, prs !! h = Some c → prs !! h' = Some c → h = h') ∧
     (∀ h c, prs !! h = Some c → c ∉ amb)).
Proof.
  intros Hm. destruct (MatchHosts_run local control) as (st1 & rest & st2 & amb0 & H1 & H2 & E).
  rewrite E in Hm. injection Hm as <- <-. pose proof (phase1_injective _ _ _ H1) as Hinj1.
  destruct H1 as [[_ Ho] Hs Ha Hr Hrs], H2 as [_ Hk Hn Hamb Ht Hi]. cbn [fst snd] in *.
  assert (amb0 `sublist_of` control) as Hac by by etrans.
  split_and!.
  - intros h c [Hp|(Hc & _ & Hh & Hsuf)]%Hn; [by apply Ho|].
    split_and!; [done|by apply (sublist_subseteq _ _ Hr)|by right].
  - intros h c Hc Hf. destruct (filter_singleton_inv _ _ _ Hf) as [_ Hsh].
    destruct (Ha c Hc) as [[_ Hl]|(h' & c' & Hf' & Hp & Hc')]; [by rewrite Hf in Hl|].
    assert (h' = h) as -> by congruence. exists c'. split; [by apply Hk|congruence].
  - intros c Hc. unfold sort_strings in Hc. rewrite sort_elem_of in Hc. split; [by apply (sublist_subseteq _ _ Hac)|by apply Ht].
  - apply sort_sorted. apply _.
  - intros Hnd. destruct Hi as [Hinj Hna]; [by apply (sublist_NoDup _ _ Hnd Hr)| |done|].
    + intros h c Hp Hc. pose proof (Hs _ _ Hp) as Hf. apply Hrs in Hc. rewrite Hf in Hc. by destruct Hc.
    + split_and!; [by apply sort_NoDup, (sublist_NoDup _ _ Hnd Hac)|done|].
      intros h c Hp. unfold sort_strings. rewrite sort_elem_of. by eapply Hna.
Qed.

(** ** Decide *)

Lemma decide_host_run prs complete hosts : ∀ t,
  let t' := foldl (decide_host prs complete) t hosts in
  t_Confirmed t' = t_Confirmed t ++ filter (λ h, is_Some (prs !! h)) hosts ∧
  t_LocalOnly t' = t_LocalOnly t ++ filter (λ h, ¬ is_Some (prs !! h)) hosts ∧
  t_Held t' = t_Held t ++ (if complete then [] else filter (λ h, ¬ is_Some (prs !! h)) hosts) ∧
  Hostname <$> t_Hosts t' = (Hostname <$> t_Hosts t) ++ hosts ∧
  (∀ c, c ∈ matched t' ↔ c ∈ matched t ∨ ∃ h, h ∈ hosts ∧ prs !! h = Some c) ∧
  (∀ hd, hd ∈ t_Hosts t' → hd ∈ t_Hosts t ∨ hd ∈ t_Hosts (decide_host prs complete no_tally (Hostname hd))).
Proof.
  induction hosts as [|h hosts IH]; intros t; cbn [foldl].
  { cbn. rewrite !app_nil_r. split_and!; try done; [by destruct complete; rewrite app_nil_r| |by left]. set_solver. }
  destruct (IH (decide_host prs complete t h)) as (E1 & E2 & E3 & E4 & E5 & E6). clear IH. cbv zeta.
  rewrite E1, E2, E3, E4. rewrite !list.filter_cons. unfold decide_host in *.
  destruct (prs !! h) as [c0|] eqn:Hp; cbn [t_Confirmed t_LocalOnly t_Held t_Hosts matched] in *.
  - rewrite decide_True by done. rewrite decide_False by (intros Hx; apply Hx; done).
    rewrite fmap_app, <-!(assoc_L (++)). split_and!; try done.
    + intros c. rewrite E5. set_solver.
    + intros hd Hhd. apply E6 in Hhd as [[?|Hx]%elem_of_app|?]; [by left| |by right].
      right. apply list_elem_of_singleton in Hx as ->. cbn [Hostname]. rewrite Hp. by left.
  - rewrite decide_False by (by intros []). rewrite decide_True by (by intros []).
    rewrite fmap_app, <-!(assoc_L (++)). split_and!; try done.
    + by destruct complete; rewrite <-?(assoc_L (++)).
    + by destruct complete.
    + intros c. rewrite E5. set_solver.
    + intros hd Hhd. apply E6 in Hhd as [[?|Hx]%elem_of_app|?]; [by left| |by right].
      right. apply list_elem_of_singleton in Hx as ->. by destruct complete; cbn [Hostname]; rewrite Hp; left.
Qed.

(** What a run decides.  Each inventory host gets one entry, in order, and
    is counted as confirmed or local-only, never both.  Confirmed needs both
    sides: a control-plane name that stands for the host, which the evidence
    cites.  A partial answer never demotes: no entry says local-only, the hosts
    that would have been demoted are held, and no stale row is swept.  And a
    control-plane name is reported as control-only exactly when no host was
    confirmed by it. *)
Theorem Decide_needs_both_sides obs now :
  let d := Decide obs now in let o := d_Outcome d in
  (Hostname <$> Hosts d = LocalHosts obs) ∧
  (o_Confirmed o ++ o_LocalOnly o ≡ₚ LocalHosts obs ∧ (∀ h, h ∈ o_Confirmed o → h ∉ o_LocalOnly o)) ∧
  (∀ hd, hd ∈ Hosts d →
     (Hostname hd ∈ o_Confirmed o ∧ Confidence hd = Confirmed ∧
        ∃ c, c ∈ ControlHosts obs ∧ names_host c (Hostname hd) ∧ c ∉ o_ControlOnly o ∧
             Evidence hd !! "nova_hostname" = Some (AStr c)) ∨
     (Hostname hd ∈ o_LocalOnly o ∧ Evidence hd !! "nova_hostname" = None ∧
        if Complete obs then Confidence hd = LocalOnly else Holds hd = true)) ∧
  (SweepStale d = Complete obs ∧ o_Complete o = Complete obs ∧
     Held o = if Complete obs then [] else o_LocalOnly o) ∧
  (∀ c, c ∈ o_ControlOnly o ↔ c ∈ ControlHosts obs ∧
     ¬ ∃ hd, hd ∈ Hosts d ∧ Evidence hd !! "nova_hostname" = Some (AStr c)).
Proof.
  unfold Decide. destruct (MatchHosts (LocalHosts obs) (ControlHosts obs)) as [prs amb] eqn:Hm.
  destruct (MatchHosts_run (LocalHosts obs) (ControlHosts obs)) as (st1 & rest & st2 & amb0 & H1 & H2 & E).
  rewrite Hm in E. injection E as -> ->. clear Hm.
  assert (∀ h c, pairs st2 !! h = Some c → h ∈ LocalHosts obs ∧ c ∈ ControlHosts obs ∧ names_host c h) as Hsound.
  { intros h c [Hp|(Hc & _ & Hh & Hsuf)]%(p2_new _ _ _ _ H2); [by apply (mo_sound _ _ _ (p1_ok _ _ _ H1))|].
    split_and!; [done|by apply (sublist_subseteq _ _ (p1_rest _ _ _ H1))|by right]. }
  pose proof (decide_host_run (pairs st2) (Complete obs) (LocalHosts obs) no_tally) as (E1 & E2 & E3 & E4 & E5 & E6).
  set (t := foldl (decide_host (pairs st2) (Complete obs)) no_tally (LocalHosts obs)) in *.
  cbn in E1, E2, E3, E4, E6.
  assert (∀ hd, hd ∈ t_Hosts t → hd ∈ t_Hosts (decide_host (pairs st2) (Complete obs) no_tally (Hostname hd))) as E6'.
  { intros hd Hhd. apply E6 in Hhd as [Hx|?]; [by apply not_elem_of_nil in Hx|done]. }
  assert (∀ hd, hd ∈ t_Hosts t → Hostname hd ∈ LocalHosts obs) as Hin.
  { intros hd Hhd. rewrite <-E4. by apply list_elem_of_fmap_2. }
  cbv zeta. cbn [d_Outcome Hosts o_Confirmed o_LocalOnly o_ControlOnly Held SweepStale o_Complete].
  rewrite E1, E2, E3. split_and!; [done|..]; try done.
  - apply filter_app_complement.
  - intros h Hh1 Hh2. apply list_elem_of_filter in Hh1 as [? _]. by apply list_elem_of_filter in Hh2 as [? _].
  - intros hd Hhd. pose proof (Hin _ Hhd) as Hl. apply E6' in Hhd. unfold decide_host in Hhd.
    destruct (pairs st2 !! Hostname hd) as [c|] eqn:Hp; cbn in Hhd; apply list_elem_of_singleton in Hhd.
    + left. split_and!; [by apply list_elem_of_filter; rewrite Hp|by rewrite Hhd|].
      exists c. pose proof (Hsound _ _ Hp) as (_ & Hc & Hn). split_and!; [done|done| |by rewrite Hhd; vm_compute].
      rewrite list_elem_of_filter. intros [Hx _]. apply Hx, E5. right. eauto.
    + right. split; [by apply list_elem_of_filter; rewrite Hp; split; [intros []|]|]. rewrite Hhd. by destruct (Complete obs).
  - intros c. rewrite list_elem_of_filter, E5. split.
    + intros [Hc ?]. split; [done|]. intros (hd & Hhd & Hev). pose proof (Hin _ Hhd) as Hl. apply E6' in Hhd. unfold decide_host in Hhd.
      destruct (pairs st2 !! Hostname hd) as [c'|] eqn:Hp; cbn in Hhd; apply list_elem_of_singleton in Hhd;
        rewrite Hhd in Hev; [|by destruct (Complete obs)].
      vm_compute in Hev. injection Hev as ->. apply Hc. right. eauto.
    + intros [Hc Hno]. split; [|done]. intros [Hx|(h & Hh & Hp)]; [set_solver|]. apply Hno.
      rewrite <-E4 in Hh. apply list_elem_of_fmap in Hh as (hd & -> & Hhd). exists hd. split; [done|].
      apply E6' in Hhd. unfold decide_host in Hhd. rewrite Hp in Hhd. cbn in Hhd. apply list_elem_of_singleton in Hhd as ->. vm_compute. done.
Qed.

(** An exact name can go unmatched.  When two inventory hosts share the
    short form of a control-plane name and no host carries it behind a site
    prefix, the name is paired with neither, even if it is one of the two
    letter for letter, and it is not reported as ambiguous. *)
Theorem shared_short_name_is_not_matched local control prs amb c :
  MatchHosts local control = (prs, amb) →
  (2 ≤ length (filter (λ h, shortName h = shortName c) local))%nat →
  (∀ h, h ∈ local → suffixMatch h (shortName c) = false) →
  c ∉ amb ∧ ∀ h, prs !! h ≠ Some c.
Proof.
  intros Hm Hl Hs. destruct (MatchHosts_run local control) as (st1 & rest & st2 & amb0 & H1 & H2 & E).
  rewrite E in Hm. injection Hm as <- <-. split.
  - unfold sort_strings. rewrite sort_elem_of. intros Hc. apply (p2_two _ _ _ _ H2) in Hc.
    destruct (filter (λ h, suffixMatch h (shortName c)) local) as [|h l] eqn:Hf; [cbn in Hc; lia|].
    assert (h ∈ filter (λ h, suffixMatch h (shortName c)) local) as [Hx Hin]%list_elem_of_filter by (rewrite Hf; by left).
    by rewrite Hs in Hx.
  - intros h [Hp|(_ & _ & Hh & Hsuf)]%(p2_new _ _ _ _ H2); [|by rewrite Hs in Hsuf].
    apply (p1_short _ _ _ H1) in Hp. rewrite Hp in Hl. cbn in Hl. lia.
Qed.

(** ** Witnesses *)

Definition demo_local : list string := ["incheon-aio01"; "gpu01.internal"; "sre-gpu02"; "dev-gpu02"; "lonely"].
Definition demo_control : list string := ["aio01"; "gpu01"; "gpu02"; "gone"].

Lemma MatchHosts_never_guesses_witness :
  let m := MatchHosts demo_local demo_control in
  map_to_list m.1 ≡ₚ [("incheon-aio01", "aio01"); ("gpu01.internal", "gpu01")] ∧ m.2 = ["gpu02"] ∧
  (∀ h h' c, m.1 !! h = Some c → m.1 !! h' = Some c → h = h').
Proof.
  split_and!; [by vm_compute; constructor|vm_compute; reflexivity|].
  refine (proj1 (proj2 (proj2 (proj2 (proj2 (proj2 (MatchHosts_never_guesses demo_local demo_control _ _ (surjective_pairing _))))) _))).
  by apply (bool_decide_unpack _); vm_compute.
Defined.

Lemma shared_short_name_is_not_matched_witness :
  (∀ h, (MatchHosts ["a.x"; "a.y"] ["a.x"]).1 !! h ≠ Some "a.x") ∧ "a.x" ∈ ["a.x"; "a.y"].
Proof.
  split; [|by left].
  refine (proj2 (shared_short_name_is_not_matched ["a.x"; "a.y"] ["a.x"] _ _ "a.x" (surjective_pairing _) _ _)).
  - apply Nat.leb_le. vm_compute. reflexivity.
  - intros h Hh. repeat (apply elem_of_cons in Hh as [->|Hh]; [vm_compute; reflexivity|]). by apply not_elem_of_nil in Hh.
Defined.
