(* ===== verification/NovaApi.v ===== *)
(** The control plane's client (internal/openstackapi): which endpoint is
    asked, what a listing is worth, and how far paging goes.

    The HTTP exchange is outside: a section variable stands for the decoded
    answer of each request, and another for [time.Parse]. *)

From S2P Require Import Prelude GoStrings.

Definition error : Type := string.

Record endpoint := { iface : string; url : string }.

(** *** Endpoint order *)

(** An interface the map does not name ranks like "internal". *)
Definition iface_order (i : string) : Z :=
  if String.eqb i "internal" then 0 else if String.eqb i "admin" then 1
  else if String.eqb i "public" then 2 else 0.

Definition rank (e : endpoint) : Z := iface_order (iface e).

(** The inner loop: swap the last element down while it ranks below its
    neighbour.  The list is the prefix read from its end. *)
Fixpoint sink_down (x : endpoint) (rev_prefix : list endpoint) : list endpoint :=
  match rev_prefix with
  | [] => [x]
  | y :: rest => if rank x <? rank y then y :: sink_down x rest else x :: rev_prefix
  end.

Definition preferInternal (eps : list endpoint) : list endpoint :=
  rev (foldl (λ acc e, sink_down e acc) [] eps).

(** *** The first endpoint that answers *)

(** The loop shared by every listing: the error kept is the last one, and a
    client with no endpoint answers nothing without an error. *)
Fixpoint first_answer {A} (ask : string → result error A) (eps : list endpoint) (last : option error)
    : option A * option error :=
  match eps with
  | [] => (None, last)
  | e :: eps' =>
      match ask (url e) with
      | Ok a => (Some a, None)
      | Err er => first_answer ask eps' (Some er)
      end
  end.

(** ** Hosts *)

Record Hypervisor := { hv_Hostname : string; hv_State : string; hv_Status : string }.
Record Service := { svc_Host : string; svc_Binary : string; svc_State : string; svc_Status : string }.

Record HostList := { Hosts_ : list string; hl_Complete : bool; HypervisorError : string; ServiceError : string }.

Definition add_name (st : gset string * list string) (name : string) : gset string * list string :=
  if String.eqb name "" || bool_decide (name ∈ st.1) then st else ({[name]} ∪ st.1, st.2 ++ [name]).

Section hosts.
Context (computes : list endpoint).
Context (get_hypervisors : string → result error (list Hypervisor)).
Context (get_services : string → result error (list Service)).

Definition Hypervisors : option (list Hypervisor) * option error :=
  first_answer get_hypervisors (preferInternal computes) None.
Definition Services : option (list Service) * option error :=
  first_answer get_services (preferInternal computes) None.

Definition Hosts : HostList * option error :=
  let '(hs, hErr) := Hypervisors in
  let '(ss, sErr) := Services in
  let st := foldl add_name (∅, []) (hv_Hostname <$> default [] hs) in
  let st := foldl add_name st (svc_Host <$> default [] ss) in
  let out := {| Hosts_ := st.2; hl_Complete := bool_decide (hErr = None) && bool_decide (sErr = None);
                HypervisorError := default "" hErr; ServiceError := default "" sErr |} in
  match hErr, sErr with
  | Some e, Some _ => (out, Some e)
  | _, _ => (out, None)
  end.
End hosts.

(** ** Instances *)

Record InstanceAddress := { NetworkName : string; Address : string; AddrType : string; IPVersion : Z }.

Record Instance := {
  ID : string; Name : string; ProjectID : string; Status : string; PowerState : string; TaskState : string;
  AvailabilityZone : string; HypervisorHostname : string; FlavorID : string; ImageID : string;
  Created : time_t; Updated : time_t; Addresses : list InstanceAddress;
}.

(** nova's "image": an object, whose "id" may be a string, or anything else. *)
Inductive image_any := IObject (id : option string) | IOther.

Definition imageID (v : image_any) : string :=
  match v with IObject id => default "" id | IOther => "" end.

Record novaAddress := { Addr : string; na_Type : string; Version : Z }.

Record novaServer := {
  ns_ID : string; ns_Name : string; ns_Status : string; TenantID : string; ns_Created : string; ns_Updated : string;
  PowerInt : option Z; ns_TaskState : string; AZ : string; Hyper : string; Flavor_ID : string; Image : image_any;
  ns_Addresses : gmap string (list novaAddress);
}.

Definition powerStates : gmap Z string :=
  list_to_map [(0, "nostate"); (1, "running"); (3, "paused"); (4, "shutdown"); (6, "crashed"); (7, "suspended")].

Section instances.
Context (time_Parse : string → string → option time_t).

Definition nova_layouts : list string :=
  ["2006-01-02T15:04:05Z07:00"; "2006-01-02T15:04:05Z"; "2006-01-02T15:04:05.000000"].

Definition parseNovaTime (s : string) : time_t :=
  let s := TrimSpace s in
  if String.eqb s "" then 0
  else default 0 (head (omap (λ layout, time_Parse layout s) nova_layouts)).

Definition nova_addresses (net : string) (addrs : list novaAddress) : list InstanceAddress :=
  omap (λ a, if String.eqb (Addr a) "" then None
             else Some {| NetworkName := net; Address := Addr a; AddrType := na_Type a;
                          IPVersion := if Version a =? 0 then 4 else Version a |}) addrs.

(** [visit] is the order in which the networks of the map are visited. *)
Definition instance (visit : gmap string (list novaAddress) → list (string * list novaAddress)) (s : novaServer) : Instance :=
  {| ID := ns_ID s; Name := ns_Name s; ProjectID := TenantID s; Status := ns_Status s;
     PowerState := match PowerInt s with
                   | None => ""
                   | Some p => match powerStates !! p with Some name => name | None => Itoa p end
                   end;
     TaskState := ns_TaskState s; AvailabilityZone := AZ s; HypervisorHostname := Hyper s;
     FlavorID := Flavor_ID s; ImageID := imageID (Image s);
     Created := parseNovaTime (ns_Created s); Updated := parseNovaTime (ns_Updated s);
     Addresses := visit (ns_Addresses s) ≫= λ na, nova_addresses na.1 na.2 |}.

Context (visit : gmap string (list novaAddress) → list (string * list novaAddress)).
Context (get_servers : string → string → result error (list novaServer)).

Definition instancePageSize : nat := 200.
Definition instanceLimit : nat := Z.to_nat 20000.
Definition too_many : error := "stopped at 20000 instances; the deployment has more".

(** The paging loop; [None] when the fuel runs out.  The second component is
    the error returned beside the listing. *)
Fixpoint pages (fuel : nat) (base marker : string) (out : list Instance) : option (list Instance * option error) :=
  match fuel with
  | O => None
  | S fuel' =>
      match get_servers base marker with
      | Err e => Some ([], Some e)
      | Ok servers =>
          let out := out ++ (instance visit <$> servers) in
          if (length servers <? instancePageSize)%nat then Some (out, None)
          else if (instanceLimit <=? length out)%nat then Some (out, Some too_many)
          else match last servers with
               | Some s => pages fuel' base (ns_ID s) out
               | None => Some (out, None)
               end
      end
  end.

(** A hundred full pages reach the limit. *)
Definition page_fuel : nat := 101.

Definition instancesFrom (base : string) : list Instance * option error :=
  default ([], Some "out of fuel") (pages page_fuel base "" []).

(** Go's [(list, err)] as the loop over endpoints uses it: the list is dropped
    whenever there is an error. *)
Definition ask_instances (base : string) : result error (list Instance) :=
  match instancesFrom base with
  | (out, None) => Ok out
  | (_, Some e) => Err e
  end.

Definition Instances (computes : list endpoint) : list Instance * option error :=
  let '(out, err) := first_answer ask_instances (preferInternal computes) None in
  (default [] out, err).
End instances.

(** ** Names *)

Record named := { n_ID : string; n_Name : string }.

Definition add_named (m : gmap string string) (p : named) : gmap string string :=
  if String.eqb (n_ID p) "" || String.eqb (n_Name p) "" then m else <[n_ID p := n_Name p]> m.

Definition projectLimit : nat := Z.to_nat 5000.
Definition imageLimit : nat := Z.to_nat 5000.
Definition imagePages : nat := 10.

Definition projectsURL (base : string) : string :=
  TrimSuffix (TrimRightFunc (in_cutset "/") base) "/v3" +:+ "/v3/projects".
Definition image_root (base : string) : string := TrimSuffix (TrimRightFunc (in_cutset "/") base) "/v2".
Definition imagesURL (base : string) : string := image_root base +:+ "/v2/images?limit=1000".

Section names.
Context (get_projects : string → result error (list named)).
Context (get_images : string → result error (list named * string)).

Definition projectsFrom (base : string) : result error (gmap string string) :=
  projects ← get_projects (projectsURL base);
  mret (foldl add_named ∅ (take projectLimit projects)).

Definition errNoIdentityEndpoint : error := "no identity endpoint in the service catalog".
Definition errNoImageEndpoint : error := "no image endpoint in the service catalog".

Definition ProjectNames (identities : list endpoint) : gmap string string * option error :=
  match first_answer projectsFrom (preferInternal identities) None with
  | (Some m, _) => (m, None)
  | (None, last) => (∅, Some (default errNoIdentityEndpoint last))
  end.

(** One page: [inr] once the limit is reached. *)
Fixpoint add_images (m : gmap string string) (images : list named) : gmap string string + gmap string string :=
  match images with
  | [] => inl m
  | im :: images' => if (imageLimit <=? size m)%nat then inr m else add_images (add_named m im) images'
  end.

Fixpoint image_pages (left : nat) (base u : string) (out : gmap string string) : result error (gmap string string) :=
  match left with
  | O => mret out
  | S left' =>
      if String.eqb u "" then mret out
      else
        body ← get_images u;
        match add_images out body.1 with
        | inr out => mret out
        | inl out => image_pages left' base (if String.eqb body.2 "" then "" else image_root base +:+ body.2) out
        end
  end.

Definition imagesFrom (base : string) : result error (gmap string string) :=
  image_pages imagePages base (imagesURL base) ∅.

Definition ImageNames (images : list endpoint) : gmap string string * option error :=
  match first_answer imagesFrom (preferInternal images) None with
  | (Some m, _) => (m, None)
  | (None, last) => (∅, Some (default errNoImageEndpoint last))
  end.
End names.

(** ** Endpoint order is a stable sort *)

#[export] Instance rank_weak : StrictWeak (less_on Z.ltb rank).
Proof. apply _. Qed.

Fixpoint insert_last (x : endpoint) (l : list endpoint) : list endpoint :=
  match l with
  | [] => [x]
  | y :: l' => if rank x <? rank y then x :: l else y :: insert_last x l'
  end.

Lemma insert_last_snoc x l y : StronglySorted (not_after (less_on Z.ltb rank)) (l ++ [y]) →
  insert_last x (l ++ [y]) = if rank x <? rank y then insert_last x l ++ [y] else l ++ [y; x].
Proof.
  induction l as [|z l IH]; cbn [app insert_last]; intros Hs.
  - by destruct (rank x <? rank y).
  - apply StronglySorted_inv in Hs as [Hs Hz]. rewrite (IH Hs).
    apply Forall_app in Hz as [_ Hzy]. apply Forall_inv in Hzy. unfold not_after, less_on in Hzy.
    apply Z.ltb_ge in Hzy. destruct (Z.ltb_spec (rank x) (rank z)), (Z.ltb_spec (rank x) (rank y)); try done; lia.
Qed.

Lemma sink_down_rev x l : StronglySorted (not_after (less_on Z.ltb rank)) (rev l) →
  rev (sink_down x l) = insert_last x (rev l).
Proof.
  induction l as [|y l IH]; cbn [sink_down rev]; intros Hs; [done|].
  rewrite insert_last_snoc by done. destruct (rank x <? rank y).
  - cbn [rev]. rewrite IH; [done|]. by apply StronglySorted_app_1_l in Hs.
  - cbn [rev]. by rewrite <-(assoc_L (++)).
Qed.

Lemma insert_last_sort_insert x y l : StronglySorted (not_after (less_on Z.ltb rank)) l →
  insert_last x (sort_insert (less_on Z.ltb rank) y l) = sort_insert (less_on Z.ltb rank) y (insert_last x l).
Proof.
  unfold less_on. induction l as [|z l IH]; intros Hs; cbn [insert_last sort_insert].
  - destruct (Z.ltb_spec (rank x) (rank y)); done.
  - apply StronglySorted_inv in Hs as [Hs Hz].
    repeat (case_if; cbn [insert_last sort_insert]; bool_simpl); rewrite ?IH by done; try lia; try done.
Qed.

Lemma preferInternal_sort eps : preferInternal eps = sort (less_on Z.ltb rank) eps.
Proof.
  unfold preferInternal. induction eps as [|x eps IH] using rev_ind; [done|].
  rewrite foldl_app. cbn [foldl]. rewrite sink_down_rev by (rewrite IH; apply sort_sorted; apply _).
  rewrite IH. clear IH. unfold sort. induction eps as [|y eps IH]; [done|]. cbn [app foldr].
  rewrite insert_last_sort_insert by (apply sort_sorted; apply _). by rewrite IH.
Qed.

Lemma preferInternal_perm eps : preferInternal eps ≡ₚ eps.
Proof. rewrite preferInternal_sort. apply sort_perm. Qed.

(** Internal endpoints are asked first.  The hand-written insertion sort is
    the stable sort of the endpoints by rank, so the catalog's own order decides
    between endpoints of one interface. *)
Theorem preferInternal_stable eps :
  preferInternal eps = sort (less_on Z.ltb rank) eps ∧ preferInternal eps ≡ₚ eps ∧
  ∀ r, filter (λ e, rank e = r) (preferInternal eps) = filter (λ e, rank e = r) eps.
Proof.
  split; [apply preferInternal_sort|]. split; [apply preferInternal_perm|]. intros r.
  rewrite preferInternal_sort. unfold sort. induction eps as [|x eps IH]; [done|]. cbn [foldr].
  rewrite list.filter_cons, <-IH. generalize (foldr (sort_insert (less_on Z.ltb rank)) [] eps). intros l. clear IH.
  unfold less_on. induction l as [|y l IH]; cbn [sort_insert]; [by rewrite list.filter_cons|].
  case_if; rewrite !list.filter_cons; [|done]. rewrite IH. bool_simpl.
  case_decide; case_decide; try done. lia.
Qed.

Lemma first_answer_spec {A} (ask : string → result error A) eps : ∀ last r err, first_answer ask eps last = (r, err) →
  (∃ a e, r = Some a ∧ err = None ∧ e ∈ eps ∧ ask (url e) = Ok a) ∨
  (r = None ∧ (∀ e, e ∈ eps → ∃ er, ask (url e) = Err er) ∧ (eps = [] → err = last) ∧ (eps ≠ [] ∨ is_Some last → is_Some err)).
Proof.
  induction eps as [|e eps IH]; intros last r err; cbn [first_answer].
  - intros [= <- <-]. right. split_and!; [done|set_solver|done|by intros [|]].
  - destruct (ask (url e)) as [a|er] eqn:Ha.
    + intros [= <- <-]. left. exists a, e. split_and!; [done|done|by left|done].
    + intros H. apply IH in H as [(a & e' & -> & -> & He & Hok)|(-> & Hall & _ & Hs)].
      * left. exists a, e'. split_and!; [done|done|by right|done].
      * right. split_and!; [done| |done|intros _; apply Hs; by right].
        intros e' [->|?]%elem_of_cons; [eauto|by apply Hall].
Qed.

Lemma first_answer_prefer {A} (ask : string → result error A) eps r err : eps ≠ [] →
  first_answer ask (preferInternal eps) None = (r, err) →
  (∃ a e, r = Some a ∧ err = None ∧ e ∈ eps ∧ ask (url e) = Ok a) ∨
  (r = None ∧ is_Some err ∧ (∀ e, e ∈ eps → ∃ er, ask (url e) = Err er)).
Proof.
  intros Hne Hf. apply first_answer_spec in Hf as [(a & e & -> & -> & He & Ha)|(-> & Hall & _ & Hs)].
  - left. exists a, e. by rewrite preferInternal_perm in He.
  - right. split_and!; [done| |intros e He; apply Hall; by rewrite preferInternal_perm].
    apply Hs. left. intros Hn. apply Hne. pose proof (preferInternal_perm eps) as P. rewrite Hn in P. by apply Permutation_nil_l in P.
Qed.

Lemma add_names_spec names : ∀ st, let st' := foldl add_name st names in
  (∀ n, n ∈ st.1 ↔ n ∈ st.2) → NoDup st.2 → "" ∉ st.2 →
  (∀ n, n ∈ st'.1 ↔ n ∈ st'.2) ∧ NoDup st'.2 ∧ "" ∉ st'.2 ∧ (∀ n, n ∈ st'.2 ↔ n ∈ st.2 ∨ n ≠ "" ∧ n ∈ names).
Proof.
  induction names as [|x names IH]; intros st st' Hsync Hnd Hem; subst st'; cbn [foldl].
  - split_and!; try done. set_solver.
  - unfold add_name at 2 4 6 8 10. destruct (String.eqb_spec x "") as [->|Hx]; cbn [orb].
    + edestruct IH as (? & ? & ? & H4); [done..|]. split_and!; [done..|]. intros n. rewrite H4. set_solver.
    + case_bool_decide as Hin.
      * edestruct IH as (? & ? & ? & H4); [done..|]. split_and!; [done..|]. intros n. rewrite H4. apply Hsync in Hin. set_solver.
      * edestruct (IH ({[x]} ∪ st.1, st.2 ++ [x])) as (? & ? & ? & H4); cbn [fst snd].
        -- intros n. rewrite elem_of_union, elem_of_singleton, elem_of_app, list_elem_of_singleton, Hsync. tauto.
        -- apply NoDup_app. split_and!; [done| |apply NoDup_singleton]. intros n Hn ->%list_elem_of_singleton. by apply Hin, Hsync.
        -- set_solver.
        -- split_and!; [done..|]. intros n. rewrite H4. cbn [snd]. set_solver.
Qed.

(** What a host listing is worth.  It names every machine either listing
    names, once, and no empty name; it is complete exactly when both questions
    were answered by some compute endpoint; and it is an error only when
    neither was, while a half answer keeps the failing half's error. *)
Theorem Hosts_completeness computes gh gs out err :
  computes ≠ [] → Hosts computes gh gs = (out, err) →
  NoDup (Hosts_ out) ∧
  (∀ n, n ∈ Hosts_ out ↔ n ≠ "" ∧
     (n ∈ hv_Hostname <$> default [] (Hypervisors computes gh).1 ∨ n ∈ svc_Host <$> default [] (Services computes gs).1)) ∧
  (hl_Complete out = true ↔ (∃ e, e ∈ computes ∧ is_ok (gh (url e)) = true) ∧ (∃ e, e ∈ computes ∧ is_ok (gs (url e)) = true)) ∧
  (is_Some err ↔ (∀ e, e ∈ computes → is_ok (gh (url e)) = false) ∧ (∀ e, e ∈ computes → is_ok (gs (url e)) = false)).
Proof.
  intros Hne. unfold Hosts. destruct (Hypervisors computes gh) as [hs hErr] eqn:Hh.
  destruct (Services computes gs) as [ss sErr] eqn:Hs. cbn [fst snd].
  intros Ho. assert (out = {| Hosts_ := (foldl add_name (foldl add_name (∅, []) (hv_Hostname <$> default [] hs)) (svc_Host <$> default [] ss)).2;
     hl_Complete := bool_decide (hErr = None) && bool_decide (sErr = None);
     HypervisorError := default "" hErr; ServiceError := default "" sErr |} ∧ (is_Some err ↔ is_Some hErr ∧ is_Some sErr)) as [-> Herr].
  { destruct hErr, sErr; injection Ho as <- <-; split; try done; split; try (by intros []); by intros [[? ?] [? ?]]. }
  clear Ho. cbn [Hosts_ hl_Complete].
  destruct (add_names_spec (hv_Hostname <$> default [] hs) (∅, [])) as (A1 & A2 & A3 & A4); [set_solver|constructor|set_solver|].
  destruct (add_names_spec (svc_Host <$> default [] ss) _ A1 A2 A3) as (B1 & B2 & B3 & B4).
  assert (∀ {A} (g : string → result error A) (r : option A) er, first_answer g (preferInternal computes) None = (r, er) →
    (er = None ↔ ∃ e, e ∈ computes ∧ is_ok (g (url e)) = true) ∧ (is_Some er ↔ ∀ e, e ∈ computes → is_ok (g (url e)) = false)) as Hok.
  { intros A g r er Hf. apply first_answer_prefer in Hf as [(a & e & -> & -> & He & Ha)|(-> & [x ->] & Hall)]; [| |done].
    - split.
      + split; [|done]. intros _. exists e. by rewrite Ha.
      + split; [by intros [? ?]|]. intros Hx. specialize (Hx e He). by rewrite Ha in Hx.
    - split.
      + split; [done|]. intros (e & He & Hx). apply Hall in He as [? Hy]. by rewrite Hy in Hx.
      + split; [|done]. intros _ e He. by apply Hall in He as [? ->]. }
  apply Hok in Hh as [Hh1 Hh2], Hs as [Hs1 Hs2].
  split_and!; [done| | |by rewrite Herr, Hh2, Hs2].
  - intros n. rewrite B4, A4. cbn [snd]. set_solver.
  - by rewrite andb_true_iff, !bool_decide_eq_true, Hh1, Hs1.
Qed.

(** ** Paging *)

Section paging.
Context (time_Parse : string → string → option time_t)
  (visit : gmap string (list novaAddress) → list (string * list novaAddress))
  (get_servers : string → string → result error (list novaServer)).

(** [chain base marker ps]: the pages [ps] are what the endpoint answers, each
    asked for after the last VM of the one before, and only the last is short. *)
Fixpoint chain (base marker : string) (ps : list (list novaServer)) : Prop :=
  match ps with
  | [] => False
  | p :: ps' =>
      get_servers base marker = Ok p ∧
      match ps' with
      | [] => (length p < instancePageSize)%nat
      | _ => (instancePageSize ≤ length p)%nat ∧ ∃ s, last p = Some s ∧ chain base (ns_ID s) ps'
      end
  end.

Local Abbreviation pages_ := (pages time_Parse visit get_servers).

Lemma pages_spec base : ∀ fuel marker acc out err, pages_ fuel base marker acc = Some (out, err) →
  match err with
  | None => ∃ ps, chain base marker ps ∧ out = acc ++ (instance time_Parse visit <$> concat ps)
  | Some e => (e = too_many ∧ (instanceLimit ≤ length out)%nat) ∨ out = []
  end.
Proof.
  induction fuel as [|fuel IH]; intros marker acc out err; cbn [pages]; [done|].
  destruct (get_servers base marker) as [p|e] eqn:Hg; [|by intros [= <- <-]; right].
  case_if.
  { intros [= <- <-]. apply Nat.ltb_lt in Heqb. exists [p]. cbn. by rewrite app_nil_r. }
  apply Nat.ltb_ge in Heqb. case_if; [intros [= <- <-]; left; split; [done|by apply Nat.leb_le]|].
  destruct (last p) as [s|] eqn:Hl; cycle 1.
  { apply last_None in Hl as ->. cbn in Heqb. unfold instancePageSize in Heqb. lia. }
  intros H. apply IH in H. destruct err as [e|]; [done|]. destruct H as (ps & Hc & ->).
  exists (p :: ps). split.
  - destruct ps as [|p' ps]; [done|]. cbn [chain] in *. split_and!; [done|done|]. by exists s.
  - cbn [concat]. by rewrite fmap_app, (assoc_L (++)).
Qed.


Lemma pages_total base : ∀ fuel marker acc, (0 < fuel)%nat → (instanceLimit ≤ length acc + fuel * instancePageSize)%nat →
  is_Some (pages_ fuel base marker acc).
Proof.
  induction fuel as [|fuel IH]; intros marker acc Hp Hf; [lia|]. cbn [pages].
  destruct (get_servers base marker) as [p|e]; [|eauto]. case_if; [eauto|]. case_if; [eauto|].
  apply Nat.ltb_ge in Heqb. apply Nat.leb_gt in Heqb0. rewrite length_app, length_fmap in Heqb0.
  destruct (last p); [|eauto]. apply IH; rewrite ?length_app, ?length_fmap; lia.
Qed.

Lemma instancesFrom_spec base :
  match instancesFrom time_Parse visit get_servers base with
  | (out, None) => ∃ ps, chain base "" ps ∧ out = instance time_Parse visit <$> concat ps
  | (out, Some e) => (e = too_many ∧ (instanceLimit ≤ length out)%nat) ∨ out = []
  end.
Proof.
  unfold instancesFrom. destruct (pages_total base page_fuel "" []) as [[out err] Hp].
  { unfold page_fuel. lia. }
  { unfold page_fuel, instanceLimit, instancePageSize. cbn [length]. lia. }
  rewrite Hp. cbn [default]. apply pages_spec in Hp. by destruct err.
Qed.
End paging.

(** A VM listing is whole or nothing.  Paging ends, whatever the endpoint
    keeps answering.  Without an error the result is every page of one compute
    endpoint, in order, converted; with one it is empty, even when an endpoint
    had answered with the limit's worth of VMs before it was stopped. *)
Theorem Instances_whole_or_nothing time_Parse visit get_servers computes out err :
  computes ≠ [] → Instances time_Parse visit get_servers computes = (out, err) →
  match err with
  | None => ∃ e ps, e ∈ computes ∧ chain get_servers (url e) "" ps ∧ out = instance time_Parse visit <$> concat ps
  | Some _ => out = [] ∧ ∀ e, e ∈ computes →
      let '(part, er) := instancesFrom time_Parse visit get_servers (url e) in
      is_Some er ∧ (part = [] ∨ (er = Some too_many ∧ (instanceLimit ≤ length part)%nat))
  end.
Proof.
  intros Hne. unfold Instances.
  destruct (first_answer (ask_instances time_Parse visit get_servers) (preferInternal computes) None) as [r er] eqn:Hf.
  intros [= <- <-]. apply first_answer_prefer in Hf as [(a & e & -> & -> & He & Ha)|(-> & [x ->] & Hall)]; [| |done].
  - pose proof (instancesFrom_spec time_Parse visit get_servers (url e)) as Hs. unfold ask_instances in Ha.
    destruct (instancesFrom time_Parse visit get_servers (url e)) as [o [er|]]; [done|]. injection Ha as ->.
    destruct Hs as (ps & Hc & ->). eauto.
  - split; [done|]. intros e He. apply Hall in He as [er Her]. unfold ask_instances in Her.
    pose proof (instancesFrom_spec time_Parse visit get_servers (url e)) as Hs.
    destruct (instancesFrom time_Parse visit get_servers (url e)) as [part [er'|]]; [|done]. split; [done|].
    destruct Hs as [[-> Hl]| ->]; [right; done|by left].
Qed.

(** ** Names *)

Definition sound_names (m : gmap string string) (from : list named) : Prop :=
  ∀ i n, m !! i = Some n → i ≠ "" ∧ n ≠ "" ∧ {| n_ID := i; n_Name := n |} ∈ from.

Lemma add_named_sound m p from : sound_names m from → p ∈ from → sound_names (add_named m p) from.
Proof.
  intros Hm Hp i n. unfold add_named.
  destruct (String.eqb_spec (n_ID p) "") as [|Hi]; [apply Hm|]. destruct (String.eqb_spec (n_Name p) "") as [|Hn]; [apply Hm|].
  cbn [orb]. intros [[<- <-]|[_ ?]]%lookup_insert_Some; [|by apply Hm]. split_and!; [done..|]. by destruct p.
Qed.

Lemma add_named_size m p : (size (add_named m p) ≤ S (size m))%nat.
Proof.
  unfold add_named. case_if; [lia|]. destruct (m !! n_ID p) eqn:E.
  - rewrite map_size_insert_Some by eauto. lia.
  - rewrite map_size_insert_None by done. lia.
Qed.

Lemma foldl_add_named_sound from l : ∀ m, sound_names m from → l ⊆ from → sound_names (foldl add_named m l) from.
Proof.
  induction l as [|p l IH]; intros m Hm Hl; cbn [foldl]; [done|]. apply IH; [|set_solver].
  apply add_named_sound; [done|]. set_solver.
Qed.

Lemma foldl_add_named_size l : ∀ m, (size (foldl add_named m l) ≤ size m + length l)%nat.
Proof.
  induction l as [|p l IH]; intros m; cbn [foldl length]; [lia|]. etrans; [apply IH|]. pose proof (add_named_size m p). lia.
Qed.

Lemma add_images_spec from l : ∀ m, sound_names m from → l ⊆ from → (size m ≤ imageLimit)%nat →
  let m' := match add_images m l with inl m' | inr m' => m' end in sound_names m' from ∧ (size m' ≤ imageLimit)%nat.
Proof.
  induction l as [|p l IH]; intros m Hm Hl Hs m'; subst m'; cbn [add_images]; [done|].
  destruct (Nat.leb_spec imageLimit (size m)) as [|Hlt]; [done|]. apply IH; [|set_solver|].
  - apply add_named_sound; [done|]. set_solver.
  - pose proof (add_named_size m p). lia.
Qed.

Definition published (get_images : string → result error (list named * string)) (p : named) : Prop :=
  ∃ u l nxt, get_images u = Ok (l, nxt) ∧ p ∈ l.

Lemma sound_names_mono m from from' : from ⊆ from' → sound_names m from → sound_names m from'.
Proof. intros Hf Hm i n Hi. destruct (Hm i n Hi) as (? & ? & ?). set_solver. Qed.

Lemma image_pages_spec get_images base : ∀ left_ u out m from,
  image_pages get_images left_ base u out = Ok m →
  sound_names out from → (∀ p, p ∈ from → published get_images p) → (size out ≤ imageLimit)%nat →
  (size m ≤ imageLimit)%nat ∧ ∃ from', sound_names m from' ∧ (∀ p, p ∈ from' → published get_images p).
Proof.
  induction left_ as [|left_ IH]; intros u out m from; cbn [image_pages].
  { intros [= <-] ? ? ?. split; [done|]. by exists from. }
  case_if; [intros [= <-] ? ? ?; split; [done|by exists from]|].
  intros H Hs Hp Hsz. apply bind_Ok in H as ([l nxt] & Hg & H). cbn [fst snd] in H.
  assert (∀ p, p ∈ from ++ l → published get_images p) as Hp'.
  { intros p [?|?]%elem_of_app; [by apply Hp|]. by exists u, l, nxt. }
  destruct (add_images_spec (from ++ l) l out) as [Hs' Hsz']; [|set_solver|done|].
  { eapply sound_names_mono; [|done]. set_solver. }
  destruct (add_images out l) as [m'|m']; [by eapply IH in H|]. injection H as <-. split; [done|]. by exists (from ++ l).
Qed.

(** The name maps are sound and bounded.  A name resolved for a project or
    an image was published under that id by the endpoint asked, with neither
    empty; the maps stay within their limits; and a failure is always told,
    with an empty map. *)
Theorem names_sound get_projects get_images identities images :
  let '(projects, perr) := ProjectNames get_projects identities in
  let '(imgs, ierr) := ImageNames get_images images in
  (is_Some perr → projects = ∅) ∧ (is_Some ierr → imgs = ∅) ∧
  (size projects ≤ projectLimit)%nat ∧ (size imgs ≤ imageLimit)%nat ∧
  (∀ i n, projects !! i = Some n → i ≠ "" ∧ n ≠ "" ∧
     ∃ u l, get_projects u = Ok l ∧ {| n_ID := i; n_Name := n |} ∈ l) ∧
  (∀ i n, imgs !! i = Some n → i ≠ "" ∧ n ≠ "" ∧ published get_images {| n_ID := i; n_Name := n |}).
Proof.
  unfold ProjectNames, ImageNames.
  destruct (first_answer (projectsFrom get_projects) _ _) as [pr per] eqn:Hpr.
  destruct (first_answer (imagesFrom get_images) _ _) as [ir ier] eqn:Hir.
  apply first_answer_spec in Hpr, Hir.
  assert (∀ m : gmap string string, m = ∅ → (size m ≤ projectLimit)%nat ∧ (size m ≤ imageLimit)%nat ∧ ∀ i, m !! i = None) as He.
  { intros m ->. rewrite map_size_empty. split_and!; try lia. intros i. apply lookup_empty. }
  destruct Hpr as [(pm & pe & -> & -> & _ & Hpm)|(-> & _)]; destruct Hir as [(im & ie & -> & -> & _ & Him)|(-> & _)].
  all: try (apply bind_Ok in Hpm as (l & Hl & Hpm); injection Hpm as <-).
  all: try (eapply (image_pages_spec _ _ _ _ _ _ []) in Him as [Hisz (from & Hif & Hpub)];
    [|intros i n; by rewrite lookup_empty|set_solver|rewrite map_size_empty; lia]).
  all: split_and!; try (by intros []); try done; try (by apply He).
  all: try (intros i n; by rewrite (proj2 (proj2 (He ∅ eq_refl)))).
  all: try (etrans; [apply foldl_add_named_size|rewrite map_size_empty, length_take; lia]).
  all: try (intros i n Hi; apply Hif in Hi as (? & ? & ?); split_and!; [done..|by apply Hpub]).
  all: intros i n Hi; apply (foldl_add_named_sound l) in Hi as (? & ? & ?);
    [split_and!; [done..|by exists (projectsURL (url pe)), l]|intros ? ?; by rewrite lookup_empty|].
  all: apply sublist_subseteq, sublist_take.
Qed.

(** ** Witnesses *)

Definition demo_eps : list endpoint :=
  [{| iface := "public"; url := "https://pub" |}; {| iface := "internal"; url := "http://int" |}].

Definition demo_hv (u : string) : result error (list Hypervisor) :=
  if String.eqb u "http://int" then Ok [{| hv_Hostname := "aio01"; hv_State := "up"; hv_Status := "enabled" |}] else Err "no route".
Definition demo_svc (u : string) : result error (list Service) := Err "403".

Lemma Hosts_completeness_witness :
  let r := Hosts demo_eps demo_hv demo_svc in
  Hosts_ r.1 = ["aio01"] ∧ hl_Complete r.1 = false ∧
  (is_Some r.2 ↔ (∀ e, e ∈ demo_eps → is_ok (demo_hv (url e)) = false) ∧ (∀ e, e ∈ demo_eps → is_ok (demo_svc (url e)) = false)).
Proof.
  split_and!; [vm_compute; reflexivity..|].
  by refine (proj2 (proj2 (proj2 (Hosts_completeness demo_eps demo_hv demo_svc _ _ _ (surjective_pairing _))))).
Defined.

Definition demo_server (id : string) : novaServer :=
  {| ns_ID := id; ns_Name := "vm"; ns_Status := "ACTIVE"; TenantID := "t"; ns_Created := ""; ns_Updated := "";
     PowerInt := Some 1; ns_TaskState := ""; AZ := "nova"; Hyper := "aio01"; Flavor_ID := "f"; Image := IOther;
     ns_Addresses := {[ "net" := [{| Addr := "10.0.0.4"; na_Type := "fixed"; Version := 0 |}] ]} |}.
(** Two pages behind the public endpoint; the internal one is down. *)
Definition demo_servers (base marker : string) : result error (list novaServer) :=
  if negb (String.eqb base "https://pub") then Err "refused"
  else if String.eqb marker "" then Ok (replicate 200 (demo_server "a")) else Ok [demo_server "b"].

Lemma Instances_whole_or_nothing_witness :
  let r := Instances (λ _ _, None) map_to_list demo_servers demo_eps in
  length r.1 = 201%nat ∧ r.2 = None ∧
  ∃ e ps, e ∈ demo_eps ∧ chain demo_servers (url e) "" ps ∧ r.1 = instance (λ _ _, None) map_to_list <$> concat ps.
Proof.
  split_and!; [vm_compute; reflexivity..|].
  refine (Instances_whole_or_nothing (λ _ _, None) map_to_list demo_servers demo_eps _ None _ _); [done|].
  vm_compute. reflexivity.
Defined.
