(* ===== verification/Reconcile.v ===== *)
(** The reconciler (internal/openstack/reconcile): one pass over the
    deployments, deciding each one's membership and recording it.

    Credentials, the control plane, the clock and the repository are outside;
    every write to the repository is kept, in order, as the trace of the run. *)

From S2P Require Import Prelude GoStrings Membership NovaApi.

(** ** Data *)

Record Farm := { farm_ID : string; farm_LocalHosts : list string }.
Record Request := { Farms : list Farm; Insecure : bool; DryRun : bool }.

Record Outcome := {
  out_ID : string; NoCredentials : option error; Unreachable : option error; Partial : string;
  Result : Membership.Outcome; Instances : Z; Warnings : list error;
}.

Definition Reconciled (o : Outcome) : bool :=
  bool_decide (NoCredentials o = None) && bool_decide (Unreachable o = None).

Record Report := { Outcomes : list Outcome; Reached : Z }.

Record Listing := {
  li_Instances : list Instance; ProjectNames : gmap string string; ImageNames : gmap string string;
  li_Warnings : list error; li_Complete : bool;
}.

(** The stored row; [nil] times are [None]. *)
Record StoreInstance := {
  si_DeploymentID : string; si_InstanceID : string; si_ProjectID : string; si_ProjectName : string; si_Name : string;
  si_Status : string; si_PowerState : string; si_TaskState : string; si_AvailabilityZone : string;
  si_HypervisorHostname : string; si_FlavorID : string; si_ImageID : string; si_ImageName : string;
  si_CreatedAt : option time_t; si_UpdatedAt : option time_t; si_ObservedAt : time_t; si_MissingSince : option time_t;
  si_Addresses : list InstanceAddress;
}.

Definition time_ptr (t : time_t) : option time_t := if IsZero t then None else Some t.

Definition ToStoreInstance (deployment : string) (i : Instance) : StoreInstance :=
  {| si_DeploymentID := deployment; si_InstanceID := ID i; si_ProjectID := ProjectID i; si_ProjectName := "";
     si_Name := Name i; si_Status := Status i; si_PowerState := PowerState i; si_TaskState := TaskState i;
     si_AvailabilityZone := AvailabilityZone i; si_HypervisorHostname := HypervisorHostname i;
     si_FlavorID := FlavorID i; si_ImageID := ImageID i; si_ImageName := "";
     si_CreatedAt := time_ptr (Created i); si_UpdatedAt := time_ptr (Updated i);
     si_ObservedAt := 0; si_MissingSince := None; si_Addresses := Addresses i |}.

Definition PartialReason (l : HostList) : string :=
  let h := HypervisorError l in let s := ServiceError l in
  if negb (String.eqb h "") && negb (String.eqb s "") then "neither endpoint answered"
  else if negb (String.eqb s "") then "os-services: " +:+ s +:+ " (controllers are not listed)"
  else if negb (String.eqb h "") then "os-hypervisors: " +:+ h +:+ " (stopped compute nodes are not listed)"
  else "incomplete".

Definition Preview (local control : list string) (now : time_t) : Membership.Outcome :=
  d_Outcome (Decide {| obs_DeploymentID := ""; obs_DisplayName := ""; obs_Region := ""; obs_KeystoneURL := "";
                       LocalHosts := local; ControlHosts := control; Complete := true; At := 0 |} now).

Definition no_outcome : Membership.Outcome :=
  {| o_DeploymentID := ""; o_Confirmed := []; o_LocalOnly := []; o_ControlOnly := []; Ambiguous := []; Held := [];
     o_Complete := false |}.

(** ** The outside *)

(** The two questions asked of a control plane. *)
Class Cloud (creds : Type) := {
  cloud_Hosts : creds → bool → HostList * option error;
  cloud_Instances : creds → bool → Listing * option error;
}.

Inductive write :=
| WApply (d : Decision)
| WRun (id : string) (r : Membership.Outcome) (at_ : time_t) (runErr : option error)
| WGhosts (id : string) (hosts : list string) (at_ : time_t)
| WInstances (id : string) (rows : list StoreInstance) (at_ : time_t) (complete : bool).

(** A repository answers a write knowing the writes before it: a count and an
    error. *)
Definition Repository : Type := list write → write → Z * option error.

(** What a run threads through: its writes and how often it read the clock. *)
Record rstate := { trace : list write; ticks : nat }.
Definition run_m (A : Type) : Type := rstate → A * rstate.
#[export] Instance run_ret : MRet run_m := λ A a s, (a, s).
#[export] Instance run_bind : MBind run_m := λ A B f m s, let '(a, s') := m s in f a s'.

Section service.
Context {creds : Type} (ForFarm : string → result error creds) `{!Cloud creds} (repo : Repository) (Now : nat → time_t).

Definition now : run_m time_t := λ s, (Now (ticks s), {| trace := trace s; ticks := S (ticks s) |}).
Definition perform (w : write) : run_m (Z * option error) := λ s,
  (repo (trace s) w, {| trace := trace s ++ [w]; ticks := ticks s |}).
Definition record_ (w : write) (prefix : string) (warnings : list error) : run_m (list error) :=
  r ← perform w;
  mret (match r.2 with Some e => warnings ++ [prefix +:+ e] | None => warnings end).

Definition instance_rows (id : string) (l : Listing) : list StoreInstance :=
  (λ i, let row := ToStoreInstance id i in
     {| si_DeploymentID := si_DeploymentID row; si_InstanceID := si_InstanceID row; si_ProjectID := si_ProjectID row;
        si_ProjectName := default "" (ProjectNames l !! si_ProjectID row); si_Name := si_Name row;
        si_Status := si_Status row; si_PowerState := si_PowerState row; si_TaskState := si_TaskState row;
        si_AvailabilityZone := si_AvailabilityZone row; si_HypervisorHostname := si_HypervisorHostname row;
        si_FlavorID := si_FlavorID row; si_ImageID := si_ImageID row;
        si_ImageName := default "" (ImageNames l !! si_ImageID row);
        si_CreatedAt := si_CreatedAt row; si_UpdatedAt := si_UpdatedAt row; si_ObservedAt := si_ObservedAt row; si_MissingSince := si_MissingSince row; si_Addresses := si_Addresses row |})
    <$> li_Instances l.

Definition collectInstances (id : string) (c : creds) (insecure : bool) (warnings : list error)
    : run_m (Z * list error) :=
  let '(list_, err) := cloud_Instances c insecure in
  let warnings := warnings ++ li_Warnings list_ in
  match err with
  | Some e => mret (0, warnings ++ ["instances: " +:+ e])
  | None =>
      t ← now;
      r ← perform (WInstances id (instance_rows id list_) t (li_Complete list_));
      mret (match r.2 with
            | Some e => (0, warnings ++ ["instances: " +:+ e])
            | None => (r.1, warnings)
            end)
  end.

Definition blank (id : string) : Outcome :=
  {| out_ID := id; NoCredentials := None; Unreachable := None; Partial := ""; Result := no_outcome;
     Instances := 0; Warnings := [] |}.

Definition observation (f : Farm) (l : HostList) (at_ : time_t) : Observation :=
  {| obs_DeploymentID := farm_ID f; obs_DisplayName := ""; obs_Region := ""; obs_KeystoneURL := farm_ID f;
     LocalHosts := farm_LocalHosts f; ControlHosts := Hosts_ l; Complete := hl_Complete l; At := at_ |}.

(** The body of the loop of [Run]: the farm's outcome, or the error of [Apply]
    that ends the run, and whether the control plane answered. *)
Definition run_farm (req : Request) (f : Farm) : run_m (result error Outcome * bool) :=
  let id := farm_ID f in
  match ForFarm id with
  | Err e =>
      mret (Ok {| out_ID := id; NoCredentials := Some e; Unreachable := None; Partial := ""; Result := no_outcome;
                  Instances := 0; Warnings := [] |}, false)
  | Ok c =>
      let '(list_, herr) := cloud_Hosts c (Insecure req) in
      match herr with
      | Some e =>
          ws ← (if DryRun req then mret []
                else t ← now; record_ (WRun id no_outcome t (Some e)) "recording the failure: " []);
          mret (Ok {| out_ID := id; NoCredentials := None; Unreachable := Some e; Partial := ""; Result := no_outcome;
                      Instances := 0; Warnings := ws |}, false)
      | None =>
          let partial := if hl_Complete list_ then "" else PartialReason list_ in
          t ← now;
          let decision := Decide (observation f list_ t) t in
          if DryRun req then
            mret (Ok {| out_ID := id; NoCredentials := None; Unreachable := None; Partial := partial;
                        Result := d_Outcome decision; Instances := 0; Warnings := [] |}, true)
          else
            nw ← collectInstances id c (Insecure req) [];
            ap ← perform (WApply decision);
            match ap.2 with
            | Some e => mret (Err (id +:+ ": " +:+ e), true)
            | None =>
                t ← now;
                ws ← record_ (WRun id (d_Outcome decision) t None) "recording the run: " nw.2;
                ws ← (if hl_Complete list_ then
                        t ← now;
                        record_ (WGhosts id (o_ControlOnly (d_Outcome decision)) t) "recording control-only hosts: " ws
                      else mret ws);
                mret (Ok {| out_ID := id; NoCredentials := None; Unreachable := None; Partial := partial;
                            Result := d_Outcome decision; Instances := nw.1; Warnings := ws |}, true)
            end
      end
  end.

Definition ErrNothingReached : error := "no deployment could be reached; nothing was confirmed".

Fixpoint run_farms (req : Request) (farms : list Farm) (rep : Report) : run_m (Report * option error) :=
  match farms with
  | [] => mret (rep, if Reached rep =? 0 then Some ErrNothingReached else None)
  | f :: farms' =>
      r ← run_farm req f;
      let reached := Reached rep + (if r.2 : bool then 1 else 0) in
      match r.1 with
      | Err e => mret ({| Outcomes := Outcomes rep; Reached := reached |}, Some e)
      | Ok out => run_farms req farms' {| Outcomes := Outcomes rep ++ [out]; Reached := reached |}
      end
  end.

Definition Run (req : Request) : run_m (Report * option error) :=
  run_farms req (Farms req) {| Outcomes := []; Reached := 0 |}.
End service.

(** *** Counting problems *)

Definition count (r : Report) (pred : Outcome → bool) : Z :=
  foldl (λ n o, if pred o then n + 1 else n) 0 (Outcomes r).

Inductive Problem := ProblemUnreachable | ProblemNoCredentials | ProblemPartial | ProblemWarning | ProblemOther (p : string).

Definition has_problem (p : Problem) (o : Outcome) : bool :=
  match p with
  | ProblemUnreachable => bool_decide (is_Some (Unreachable o))
  | ProblemNoCredentials => bool_decide (is_Some (NoCredentials o))
  | ProblemPartial => negb (String.eqb (Partial o) "")
  | ProblemWarning => (0 <? length (Warnings o))%nat
  | ProblemOther _ => false
  end.

Definition FailOn (r : Report) (problems : list Problem) : list Problem :=
  filter (λ p, 0 <? count r (has_problem p)) problems.

(** ** What a run establishes *)

Section run_theorems.
Context {creds : Type} (ForFarm : string → result error creds) `{!Cloud creds} (repo : Repository) (Now : nat → time_t).

(** Unfold the monad down to the next call. *)
Ltac run_step := unfold mbind, run_bind, mret, run_ret, now, perform; cbn.

(** What a farm's own answers say, without running anything: no credentials,
    unreachable, or a decision and how partial it is. *)
Definition expected (insecure : bool) (f : Farm) : option error * option error * string * Membership.Outcome :=
  match ForFarm (farm_ID f) with
  | Err e => (Some e, None, "", no_outcome)
  | Ok c =>
      match cloud_Hosts c insecure with
      | (_, Some e) => (None, Some e, "", no_outcome)
      | (l, None) => (None, None, if hl_Complete l then "" else PartialReason l, d_Outcome (Decide (observation f l 0) 0))
      end
  end.

Definition summary (o : Outcome) : option error * option error * string * Membership.Outcome :=
  (NoCredentials o, Unreachable o, Partial o, Result o).

Definition reachable (insecure : bool) (f : Farm) : bool :=
  match expected insecure f with (None, None, _, _) => true | _ => false end.

(** The decision does not depend on the time of the observation. *)
Lemma Decide_time f l t t' n n' : d_Outcome (Decide (observation f l t) n) = d_Outcome (Decide (observation f l t') n').
Proof. unfold Decide. cbn. by destruct (MatchHosts _ _). Qed.

(** Why a write is made, given the writes before it. *)
Definition justified (req : Request) (before : list write) (w : write) : Prop :=
  match w with
  | WApply d => ∃ f c l t, f ∈ Farms req ∧ ForFarm (farm_ID f) = Ok c ∧ cloud_Hosts c (Insecure req) = (l, None) ∧
      d = Decide (observation f l t) t
  | WRun id r _ None => ∃ pre d, before = pre ++ [WApply d] ∧ (repo pre (WApply d)).2 = None ∧
      r = d_Outcome d ∧ id = DeploymentID d
  | WRun id r _ (Some e) => r = no_outcome ∧ ∃ f c l, f ∈ Farms req ∧ id = farm_ID f ∧ ForFarm id = Ok c ∧
      cloud_Hosts c (Insecure req) = (l, Some e)
  | WGhosts id hosts _ => ∃ pre r t, before = pre ++ [WRun id r t None] ∧ hosts = o_ControlOnly r ∧ o_Complete r = true
  | WInstances id rows _ complete => ∃ f c l, f ∈ Farms req ∧ id = farm_ID f ∧ ForFarm id = Ok c ∧
      cloud_Instances c (Insecure req) = (l, None) ∧ rows = instance_rows id l ∧ complete = li_Complete l
  end.

Definition all_justified (req : Request) (start : nat) (tr : list write) : Prop :=
  ∀ pre w post, tr = pre ++ w :: post → (start ≤ length pre)%nat → justified req pre w.

Lemma all_justified_snoc req n tr w : all_justified req n tr → justified req tr w → all_justified req n (tr ++ [w]).
Proof.
  intros Ht Hw pre w' post E Hn. destruct post as [|w2 post] using rev_ind.
  - apply app_inj_tail in E as [-> ->]. done.
  - rewrite app_comm_cons, (assoc_L (++)) in E. apply app_inj_tail in E as [-> _]. by eapply Ht.
Qed.

Lemma record_spec w prefix ws s : let '(_, s') := record_ repo w prefix ws s in trace s' = trace s ++ [w].
Proof. unfold record_. cbn. by destruct (repo (trace s) w) as [n [e|]]. Qed.

#[local] Arguments record_ : simpl never.

Lemma now_trace s : trace (now Now s).2 = trace s.
Proof. done. Qed.

Lemma collectInstances_spec req n f c ws s : f ∈ Farms req → ForFarm (farm_ID f) = Ok c → all_justified req n (trace s) →
  all_justified req n (trace (collectInstances repo Now (farm_ID f) c (Insecure req) ws s).2).
Proof.
  intros Hf Hc Hj. unfold collectInstances. destruct (cloud_Instances c (Insecure req)) as [l [e|]] eqn:Hl; [done|].
  cbn. apply all_justified_snoc; [done|]. by exists f, c, l.
Qed.

#[local] Arguments collectInstances : simpl never.

(** The tail of [run_farm] once the decision is applied. *)
Lemma record_tail_spec req n id d complete ws s pre :
  all_justified req n (trace s) → trace s = pre ++ [WApply d] → (repo pre (WApply d)).2 = None →
  id = DeploymentID d → complete = o_Complete (d_Outcome d) →
  ∀ m : list error → run_m (result error Outcome * bool), (∀ ws' s', trace (m ws' s').2 = trace s') →
  all_justified req n (trace (
    (t ← now Now;
     ws ← record_ repo (WRun id (d_Outcome d) t None) "recording the run: " ws;
     ws ← (if complete then
             t ← now Now;
             record_ repo (WGhosts id (o_ControlOnly (d_Outcome d)) t) "recording control-only hosts: " ws
           else mret ws);
     m ws) s).2).
Proof.
  intros Hj Hs Hr -> -> m Hm. run_step.
  match goal with |- context [record_ repo ?w ?p ?ws ?s1] =>
    pose proof (record_spec w p ws s1) as H1; destruct (record_ repo w p ws s1) as [ws1 s1'] end.
  cbn [trace ticks] in H1. assert (all_justified req n (trace s1')) as Hj1.
  { rewrite H1. apply all_justified_snoc; [done|]. by exists pre, d. }
  destruct (o_Complete (d_Outcome d)) eqn:Hcp; cbn; [|by rewrite Hm].
  match goal with |- context [record_ repo ?w ?p ?ws ?s2] =>
    pose proof (record_spec w p ws s2) as H2; destruct (record_ repo w p ws s2) as [ws2 s2'] end.
  cbn [trace ticks] in H2. rewrite Hm, H2. apply all_justified_snoc; [done|].
  rewrite H1. eexists _, (d_Outcome d), _. done.
Qed.

Lemma run_farm_writes req n f s : DryRun req = false → f ∈ Farms req → all_justified req n (trace s) →
  all_justified req n (trace (run_farm ForFarm repo Now req f s).2).
Proof.
  intros Hd Hf Hj. unfold run_farm. destruct (ForFarm (farm_ID f)) as [c|e] eqn:Hc; [|done].
  destruct (cloud_Hosts c (Insecure req)) as [l [e|]] eqn:Hl; rewrite Hd.
  - run_step. match goal with |- context [record_ repo ?w ?p ?ws ?s1] =>
      pose proof (record_spec w p ws s1) as H1; destruct (record_ repo w p ws s1) as [ws1 s1'] end.
    cbn [trace ticks snd] in *. rewrite H1. apply all_justified_snoc; [done|]. split; [done|]. by exists f, c, l.
  - run_step. set (t := Now (ticks s)). set (s1 := {| trace := trace s; ticks := S (ticks s) |}).
    pose proof (collectInstances_spec req n f c [] s1 Hf Hc Hj) as H2.
    destruct (collectInstances repo Now (farm_ID f) c (Insecure req) [] s1) as [nw s2]. cbn [snd] in H2.
    destruct (repo (trace s2) (WApply (Decide (observation f l t) t))) as [k [e|]] eqn:Hr; cbn.
    + apply all_justified_snoc; [done|]. by exists f, c, l, t.
    + set (d := Decide (observation f l t) t) in *.
      assert (DeploymentID d = farm_ID f ∧ o_Complete (d_Outcome d) = hl_Complete l) as [Hid Hcp].
      { subst d. unfold Decide. by destruct (MatchHosts _ _). }
      rewrite <-Hid, <-Hcp. refine (record_tail_spec req n _ d _ nw.2
        {| trace := trace s2 ++ [WApply d]; ticks := ticks s2 |} (trace s2) _ eq_refl _ eq_refl eq_refl
        (λ ws, mret (Ok {| out_ID := _; NoCredentials := None; Unreachable := None; Partial := _; Result := d_Outcome d;
                           Instances := nw.1; Warnings := ws |}, true)) _); [|by rewrite Hr|done].
      apply all_justified_snoc; [done|]. by exists f, c, l, t.
Qed.

Lemma run_farm_dry req f s : DryRun req = true → trace (run_farm ForFarm repo Now req f s).2 = trace s.
Proof.
  intros Hd. unfold run_farm. destruct (ForFarm (farm_ID f)); [|done].
  destruct (cloud_Hosts _ _) as [l [e|]]; by rewrite Hd.
Qed.

(** The result of one farm, apart from its warnings and VM count. *)
Lemma run_farm_result req f s :
  match (run_farm ForFarm repo Now req f s).1 with
  | (Ok o, reached) => out_ID o = farm_ID f ∧ summary o = expected (Insecure req) f ∧ reached = reachable (Insecure req) f ∧
                       (DryRun req = true → Warnings o = [] ∧ Instances o = 0)
  | (Err _, reached) => reached = true ∧ reachable (Insecure req) f = true ∧ DryRun req = false
  end.
Proof.
  unfold run_farm, reachable, expected. destruct (ForFarm (farm_ID f)) as [c|e]; [|done].
  destruct (cloud_Hosts c (Insecure req)) as [l [e|]].
  - destruct (DryRun req); run_step; [done|].
    match goal with |- context [record_ repo ?w ?p ?ws ?s1] => destruct (record_ repo w p ws s1) as [ws1 s1'] end.
    by cbn.
  - destruct (DryRun req) eqn:Hd; run_step.
    + unfold summary. cbn. rewrite (Decide_time f l _ 0 _ 0). done.
    + destruct (collectInstances repo Now (farm_ID f) c (Insecure req) [] _) as [nw s2].
      match goal with |- context [repo ?a ?b] => destruct (repo a b) as [k [e|]] end; cbn; [done|].
      match goal with |- context [record_ repo ?w ?p ?ws ?s1] => destruct (record_ repo w p ws s1) as [ws1 s1'] end.
      assert (∀ ws0, (None, None, if hl_Complete l then "" else PartialReason l, d_Outcome (Decide (observation f l (Now (ticks s))) (Now (ticks s)))) =
        summary {| out_ID := farm_ID f; NoCredentials := None; Unreachable := None;
          Partial := if hl_Complete l then "" else PartialReason l;
          Result := d_Outcome (Decide (observation f l (Now (ticks s))) (Now (ticks s))); Instances := nw.1; Warnings := ws0 |}) as Hsum by done.
      destruct (hl_Complete l); cbn.
      * match goal with |- context [record_ repo ?w ?p ?ws ?s1] => destruct (record_ repo w p ws s1) as [ws2 s2'] end.
        cbn. rewrite <-Hsum, (Decide_time f l _ 0 _ 0). done.
      * rewrite <-Hsum, (Decide_time f l _ 0 _ 0). done.
Qed.

Definition reached_count (insecure : bool) (farms : list Farm) : Z :=
  Z.of_nat (length (filter (λ f, reachable insecure f) farms)).

Lemma reached_count_cons insecure f farms :
  reached_count insecure (f :: farms) = (if reachable insecure f then 1 else 0) + reached_count insecure farms.
Proof. unfold reached_count. rewrite list.filter_cons. destruct (reachable insecure f); cbn [decide]; case_decide; simpl in *; try done; lia. Qed.

Lemma run_farms_spec req n : ∀ farms rep s, farms ⊆ Farms req → all_justified req n (trace s) →
  let '((rep', err), s') := run_farms ForFarm repo Now req farms rep s in
  all_justified req n (trace s') ∧ (DryRun req = true → trace s' = trace s) ∧
  ∃ done_ left_, farms = done_ ++ left_ ∧
    (λ o, (out_ID o, summary o)) <$> Outcomes rep' = ((λ o, (out_ID o, summary o)) <$> Outcomes rep) ++ ((λ f, (farm_ID f, expected (Insecure req) f)) <$> done_) ∧
    match left_ with
    | [] => Reached rep' = Reached rep + reached_count (Insecure req) farms ∧
            err = if Reached rep' =? 0 then Some ErrNothingReached else None
    | f :: _ => reachable (Insecure req) f = true ∧ is_Some err ∧ DryRun req = false
    end.
Proof.
  induction farms as [|f farms IH]; intros rep s Hsub Hj; cbn [run_farms].
  { run_step. split_and!; [done|done|]. exists [], []. cbn. rewrite app_nil_r. split_and!; try done. unfold reached_count. cbn. lia. }
  run_step. pose proof (run_farm_result req f s) as Hres.
  assert (all_justified req n (trace (run_farm ForFarm repo Now req f s).2)) as Hj'.
  { destruct (DryRun req) eqn:Hd; [by rewrite run_farm_dry|]. apply run_farm_writes; [done|set_solver|done]. }
  pose proof (run_farm_dry req f s) as Hdry.
  destruct (run_farm ForFarm repo Now req f s) as [[[o|e] reached] s1]; cbn [fst snd] in *.
  - destruct Hres as (Hid & Hsum & -> & _).
    specialize (IH {| Outcomes := Outcomes rep ++ [o]; Reached := Reached rep + (if reachable (Insecure req) f then 1 else 0) |} s1
      ltac:(set_solver) Hj').
    destruct (run_farms ForFarm repo Now req farms _ s1) as [[rep' err] s']. cbn [Outcomes Reached] in IH.
    destruct IH as (J & D & dn & lf & -> & Ho & Hl). split_and!; [done|intros Hd; rewrite (D Hd); by apply Hdry|].
    exists (f :: dn), lf. split; [done|]. split.
    + rewrite Ho, fmap_app, <-(assoc_L (++)). cbn. by rewrite Hid, Hsum.
    + destruct lf as [|f' lf]; [|done]. destruct Hl as [-> ->]. rewrite reached_count_cons. split; [lia|done].
  - destruct Hres as (-> & Hr & Hd). cbn. split_and!; [done|by rewrite Hd|]. exists [], (f :: farms). split_and!; try done.
    by rewrite app_nil_r.
Qed.

Lemma all_justified_start req tr : all_justified req (length tr) tr.
Proof. intros pre w post -> Hn. rewrite length_app in Hn. cbn in Hn. lia. Qed.

(** C36. Every write of a run has its reason.  Whatever the repository answers:
    a decision applied is the one for some farm's complete-or-not listing; a
    run is recorded as settled only right after its decision was applied
    without error; ghost hosts only right after that and only for a complete
    listing; a failure only for a farm whose control plane refused; and VMs
    only from a listing that succeeded, marked whole only if it was.  A dry run
    writes nothing. *)
Theorem Run_writes_are_justified req s rep err s' :
  Run ForFarm repo Now req s = ((rep, err), s') →
  (∀ pre w post, trace s' = pre ++ w :: post → (length (trace s) ≤ length pre)%nat → justified req pre w) ∧
  (DryRun req = true → trace s' = trace s).
Proof.
  intros Hr. pose proof (run_farms_spec req (length (trace s)) (Farms req) {| Outcomes := []; Reached := 0 |} s ltac:(done)
    (all_justified_start req (trace s))) as H. unfold Run in Hr. rewrite Hr in H. destruct H as (Hj & Hd & _). done.
Qed.

(** One farm's failure is its own.  The report has one outcome per farm, in
    order, and what each says depends only on that farm's own answers, the same
    for a dry run as for a real one; only a failed Apply ends the run early,
    with an error, at a farm that was reachable; otherwise the run fails exactly
    when no control plane answered. *)
Theorem Run_isolates_farms req s rep err s' :
  Run ForFarm repo Now req s = ((rep, err), s') →
  ∃ done_ left_, Farms req = done_ ++ left_ ∧
    (out_ID <$> Outcomes rep = farm_ID <$> done_) ∧
    (summary <$> Outcomes rep = expected (Insecure req) <$> done_) ∧
    match left_ with
    | [] => Reached rep = reached_count (Insecure req) (Farms req) ∧
            err = if Reached rep =? 0 then Some ErrNothingReached else None
    | f :: _ => reachable (Insecure req) f = true ∧ is_Some err ∧ DryRun req = false
    end.
Proof.
  intros Hr. pose proof (run_farms_spec req (length (trace s)) (Farms req) {| Outcomes := []; Reached := 0 |} s ltac:(done)
    (all_justified_start req (trace s))) as H. unfold Run in Hr. rewrite Hr in H.
  destruct H as (_ & _ & dn & lf & Hf & Ho & Hl). exists dn, lf. cbn [Outcomes fmap list_fmap app] in Ho.
  assert (∀ (l : list Outcome) (l' : list Farm), (λ o, (out_ID o, summary o)) <$> l = (λ f, (farm_ID f, expected (Insecure req) f)) <$> l' →
    out_ID <$> l = farm_ID <$> l' ∧ summary <$> l = expected (Insecure req) <$> l') as Hsplit.
  { clear. intros l. induction l as [|o l IH]; intros [|f l']; try done. intros [= H1 H2 H]. apply IH in H as [E1 E2]. csimpl. by rewrite H1, H2, E1, E2. }
  apply Hsplit in Ho as [Ho1 Ho2]. done.
Qed.
End run_theorems.

(** ** The control plane behind the run (internal/cli/openstack) *)

(** What authenticating gives: the catalog's endpoints and the answers behind
    them. *)
Record session := {
  computes : list endpoint; identities : list endpoint; images : list endpoint;
  get_hypervisors : string → result error (list Hypervisor);
  get_services : string → result error (list Service);
  get_servers : string → string → result error (list novaServer);
  get_projects : string → result error (list named);
  get_images : string → result error (list named * string);
}.

Section nova_cloud.
Context {creds : Type} (New : creds → bool → result error session)
  (time_Parse : string → string → option time_t)
  (visit : gmap string (list novaAddress) → list (string * list novaAddress)).

Definition no_hosts : HostList := {| Hosts_ := []; hl_Complete := false; HypervisorError := ""; ServiceError := "" |}.
Definition no_listing : Listing :=
  {| li_Instances := []; ProjectNames := ∅; ImageNames := ∅; li_Warnings := []; li_Complete := false |}.

Definition nova_Hosts (c : creds) (insecure : bool) : HostList * option error :=
  match New c insecure with
  | Err e => (no_hosts, Some e)
  | Ok s => Hosts (computes s) (get_hypervisors s) (get_services s)
  end.

Definition nova_Instances (c : creds) (insecure : bool) : Listing * option error :=
  match New c insecure with
  | Err e => (no_listing, Some e)
  | Ok s =>
      let '(l, err) := NovaApi.Instances time_Parse visit (get_servers s) (computes s) in
      match err, l with
      | Some e, [] => (no_listing, Some e)
      | _, _ =>
          let '(names, nerr) := NovaApi.ProjectNames (get_projects s) (identities s) in
          let '(imgs, ierr) := NovaApi.ImageNames (get_images s) (images s) in
          ({| li_Instances := l; ProjectNames := names; ImageNames := imgs;
              li_Warnings := match err with Some e => ["instances: " +:+ e] | None => [] end
                             ++ match nerr with Some e => ["project names: " +:+ e] | None => [] end
                             ++ match ierr with Some e => ["image names: " +:+ e] | None => [] end;
              li_Complete := bool_decide (err = None) |}, None)
      end
  end.

#[export] Instance novaCloud : Cloud creds := { cloud_Hosts := nova_Hosts; cloud_Instances := nova_Instances }.

(** A run never stores a partial VM listing.  With the real control plane
    behind it every listing that is not an error is whole: the branch that
    keeps a capped listing as a warning cannot be taken, because the client
    returns nothing beside its error. *)
Theorem nova_listing_is_whole c insecure l :
  (∀ s, New c insecure = Ok s → computes s ≠ []) →
  cloud_Instances c insecure = (l, None) →
  li_Complete l = true ∧
  ∃ s e ps, New c insecure = Ok s ∧ e ∈ computes s ∧ chain (get_servers s) (url e) "" ps ∧
    li_Instances l = instance time_Parse visit <$> concat ps.
Proof.
  intros Hne. cbn [cloud_Instances novaCloud]. unfold nova_Instances. destruct (New c insecure) as [s|e] eqn:Hn; [|done].
  pose proof (first_answer_prefer (ask_instances time_Parse visit (get_servers s)) (computes s)) as Hfa.
  unfold NovaApi.Instances.
  destruct (first_answer (ask_instances time_Parse visit (get_servers s)) (preferInternal (computes s)) None) as [r er].
  destruct (Hfa r er (Hne s eq_refl) eq_refl) as [(a & e & -> & -> & He & Ha)|(-> & [x ->] & _)]; cbn [default]; [|done].
  destruct (NovaApi.ProjectNames _ _), (NovaApi.ImageNames _ _). intros [= <-]. split; [done|].
  pose proof (instancesFrom_spec time_Parse visit (get_servers s) (url e)) as Hs. unfold ask_instances in Ha.
  destruct (instancesFrom time_Parse visit (get_servers s) (url e)) as [part [er|]]; [done|]. injection Ha as ->.
  destruct Hs as (ps & Hc & ->). by exists s, e, ps.
Qed.
End nova_cloud.

(** *** What a run can be asked to fail over *)

Lemma count_pos r pred : 0 < count r pred ↔ ∃ o, o ∈ Outcomes r ∧ pred o = true.
Proof.
  unfold count. assert (∀ l n, 0 ≤ n → let c := foldl (λ n o, if pred o then n + 1 else n) n l in
    n ≤ c ∧ (n < c ↔ ∃ o, o ∈ l ∧ pred o = true)) as H; [|apply (H (Outcomes r) 0); lia].
  induction l as [|o l IH]; intros n Hn; cbn [foldl].
  - split; [lia|]. split; [lia|]. intros (? & ? & ?). set_solver.
  - destruct (IH (if pred o then n + 1 else n)) as [H1 H2]; [destruct (pred o); lia|].
    destruct (pred o) eqn:Ho.
    + split; [lia|]. split; [|lia]. intros _. exists o. split; [by left|done].
    + split; [lia|]. rewrite H2. split; intros (o' & Hin & Ho'); exists o'; split; [by right|done| |done].
      apply elem_of_cons in Hin as [->|]; [congruence|done].
Qed.

(** FailOn names exactly the asked-for problems some farm had, in the
    order asked. *)
Theorem FailOn_exact r problems :
  FailOn r problems `sublist_of` problems ∧
  ∀ p, p ∈ FailOn r problems ↔ p ∈ problems ∧ ∃ o, o ∈ Outcomes r ∧ has_problem p o = true.
Proof.
  unfold FailOn. split; [apply sublist_filter|]. intros p.
  rewrite list_elem_of_filter, Is_true_true, Z.ltb_lt, count_pos. tauto.
Qed.

(** ** Witnesses *)

Definition demo_session : session :=
  {| computes := demo_eps; identities := []; images := []; get_hypervisors := demo_hv;
     get_services := λ u, if String.eqb u "http://int" then Ok [] else Err "no route";
     get_servers := demo_servers; get_projects := λ _, Err "401"; get_images := λ _, Err "404" |}.

(** Three farms: one answers, one refuses, one has no credentials filed. *)
Definition demo_New (c : string) (_ : bool) : result error session :=
  if String.eqb c "ok" then Ok demo_session else Err "refused".
Definition demo_creds (id : string) : result error string :=
  if String.eqb id "farm1" then Ok "ok" else if String.eqb id "farm2" then Ok "down" else Err "not filed".
Definition demo_repo : Repository := λ _ w, match w with WRun _ _ _ _ => (0, Some "disk full") | _ => (201, None) end.
Definition demo_req : Request :=
  {| Farms := [{| farm_ID := "farm2"; farm_LocalHosts := [] |}; {| farm_ID := "farm3"; farm_LocalHosts := [] |};
               {| farm_ID := "farm1"; farm_LocalHosts := ["incheon-aio01"; "stray"] |}];
     Insecure := false; DryRun := false |}.
#[local] Instance demo_cloud : Cloud string := novaCloud demo_New (λ _ _, None) map_to_list.
Definition demo_run : (Report * option error) * rstate :=
  Run demo_creds demo_repo (λ n, 1 + Z.of_nat n) demo_req {| trace := []; ticks := 0 |}.

Lemma Run_writes_are_justified_witness :
  length (trace demo_run.2) = 5%nat ∧
  (∀ pre w post, trace demo_run.2 = pre ++ w :: post → (length (@nil write) ≤ length pre)%nat → justified demo_creds demo_repo demo_req pre w).
Proof.
  split; [vm_compute; reflexivity|].
  refine (proj1 (Run_writes_are_justified demo_creds demo_repo (λ n, 1 + Z.of_nat n) demo_req
    {| trace := []; ticks := 0 |} demo_run.1.1 demo_run.1.2 demo_run.2 _)).
  unfold demo_run. by destruct (Run _ _ _ _ _) as [[? ?] ?].
Defined.

Lemma Run_isolates_farms_witness :
  (out_ID <$> Outcomes demo_run.1.1 = ["farm2"; "farm3"; "farm1"]) ∧ Reached demo_run.1.1 = 1 ∧ demo_run.1.2 = None ∧
  ∃ done_ left_, Farms demo_req = done_ ++ left_ ∧ summary <$> Outcomes demo_run.1.1 = expected demo_creds false <$> done_.
Proof.
  split_and!; [vm_compute; reflexivity..|].
  destruct (Run_isolates_farms demo_creds demo_repo (λ n, 1 + Z.of_nat n) demo_req
    {| trace := []; ticks := 0 |} demo_run.1.1 demo_run.1.2 demo_run.2) as (dn & lf & H1 & _ & H2 & _).
  { unfold demo_run. by destruct (Run _ _ _ _ _) as [[? ?] ?]. }
  exists dn, lf. by split.
Defined.

Lemma nova_listing_is_whole_witness :
  let l := (cloud_Instances "ok" false).1 in length (li_Instances l) = 201%nat ∧ li_Complete l = true.
Proof.
  split; [vm_compute; reflexivity|].
  refine (proj1 (nova_listing_is_whole demo_New (λ _ _, None) map_to_list "ok" false _ _ _)).
  - intros s [= <-]. done.
  - vm_compute. reflexivity.
Defined.
