(* ===== verification/DbCreds.v ===== *)
(** One Vault database credential kept alive across connections
    (internal/dbcreds).

    The issuer and the clock are an interface: what they answer depends on a
    state of their own, which only they change.  The cache's lock makes its
    calls one after another. *)

From S2P Require Import Prelude GoStrings.

Definition error : Type := string.

Record DBLease := { User : string; Pass : string; ID : string; TTL : duration; Renewable : bool }.
Definition no_lease : DBLease := {| User := ""; Pass := ""; ID := ""; TTL := 0; Renewable := false |}.

(** What the cache asks of Vault and of the clock, over a world [W]. *)
Class Issuer (W : Type) := {
  Issue : W → result error DBLease * W;
  Renew : W → string → duration → result error (duration * bool) * W;
  Now : W → time_t * W;
}.

(** What was asked and answered, in order. *)
Inductive event :=
| EvNow (t : time_t)
| EvIssue (r : result error DBLease)
| EvRenew (id : string) (increment : duration) (r : result error (duration * bool)).

Section cache.
Context {W : Type} `{!Issuer W} (minRemaining renewFor : duration).

Record Cache := { lease : DBLease; expires : time_t; world : W; log : list event }.

Definition cache_m (A : Type) : Type := Cache → A * Cache.
#[export] Instance cache_ret : MRet cache_m := λ A a c, (a, c).
#[export] Instance cache_bind : MBind cache_m := λ A B f m c, let '(a, c') := m c in f a c'.

Definition New (w : W) : Cache := {| lease := no_lease; expires := 0; world := w; log := [] |}.

Definition now : cache_m time_t := λ c,
  let '(t, w) := Now (world c) in
  (t, {| lease := lease c; expires := expires c; world := w; log := log c ++ [EvNow t] |}).
Definition set_lease (l : DBLease) (e : time_t) : cache_m () := λ c,
  (tt, {| lease := l; expires := e; world := world c; log := log c |}).
Definition call_issue : cache_m (result error DBLease) := λ c,
  let '(r, w) := Issue (world c) in
  (r, {| lease := lease c; expires := expires c; world := w; log := log c ++ [EvIssue r] |}).
Definition call_renew (id : string) (inc : duration) : cache_m (result error (duration * bool)) := λ c,
  let '(r, w) := Renew (world c) id inc in
  (r, {| lease := lease c; expires := expires c; world := w; log := log c ++ [EvRenew id inc r] |}).
Definition get : cache_m Cache := λ c, (c, c).

(** [&&] reads the clock only when there is a user. *)
Definition usable : cache_m bool :=
  c ← get;
  if String.eqb (User (lease c)) "" then mret false
  else t ← now; mret (minRemaining <=? Sub (expires c) t).

Definition too_short (l : DBLease) : error :=
  "db credential TTL is shorter than a connection may live: raise the Vault role's default_ttl".

Definition issue : cache_m (option error) :=
  r ← call_issue;
  match r with
  | Err e => mret (Some ("issue db credential: " +:+ e))
  | Ok l =>
      t ← now;
      _ ← set_lease l (Add t (TTL l));
      u ← usable;
      mret (if u : bool then None else Some (too_short l))
  end.

Definition renew : cache_m (option error) :=
  c ← get;
  r ← call_renew (ID (lease c)) renewFor;
  match r with
  | Err e => _ ← set_lease no_lease 0; mret (Some e)
  | Ok (ttl, renewable) =>
      t ← now;
      let l := lease c in
      _ ← set_lease {| User := User l; Pass := Pass l; ID := ID l; TTL := TTL l; Renewable := renewable |} (Add t ttl);
      mret None
  end.

(** The credentials of the cached lease. *)
Definition hand_out : cache_m (result error (string * string)) :=
  c ← get; mret (Ok (User (lease c), Pass (lease c))).

Definition Get : cache_m (result error (string * string)) :=
  u ← usable;
  if u : bool then hand_out
  else
    c ← get;
    renewed ← (if negb (String.eqb (ID (lease c)) "") && Renewable (lease c) then
                 err ← renew;
                 match err with None => usable | Some _ => mret false end
               else mret false);
    if renewed : bool then hand_out
    else
      err ← issue;
      match err with Some e => mret (Err e) | None => hand_out end.
End cache.
Arguments Cache W : clear implicits.
Arguments New {W} w.

(** ** What Get promises *)

(** The latest reading of the clock. *)
Definition last_reading (l : list event) : option time_t :=
  foldl (λ acc e, match e with EvNow t => Some t | _ => acc end) None l.

Definition only_looks (l : list event) : Prop := Forall (λ e, match e with EvNow _ => True | _ => False end) l.

Lemma last_reading_snoc l t : last_reading (l ++ [EvNow t]) = Some t.
Proof. unfold last_reading. by rewrite foldl_app. Qed.

Section theorems.
Context {W : Type} `{!Issuer W} (minRemaining renewFor : duration).

(** Fresh enough at the last look at the clock. *)
Definition covered (c : Cache W) : Prop :=
  User (lease c) ≠ "" ∧ ∃ t, last_reading (log c) = Some t ∧ minRemaining ≤ Sub (expires c) t.

Lemma usable_spec (c : Cache W) : let '(b, c') := usable minRemaining c in
  lease c' = lease c ∧ expires c' = expires c ∧
  (b = true → covered c') ∧
  (User (lease c) = "" ∧ b = false ∧ log c' = log c ∨ User (lease c) ≠ "" ∧ ∃ t, log c' = log c ++ [EvNow t] ∧ b = (minRemaining <=? Sub (expires c) t)).
Proof.
  unfold usable, mbind, cache_bind, get, mret, cache_ret, now.
  destruct (String.eqb_spec (User (lease c)) "") as [Hu|Hu]; cbn; [split_and!; auto; done|].
  destruct (Now (world c)) as [t w]. cbn. split_and!; [done|done| |right; split; [done|by exists t]].
  intros Hb%Z.leb_le. split; [done|]. exists t. cbn. by rewrite last_reading_snoc.
Qed.

Lemma issue_spec (c : Cache W) : let '(err, c') := issue minRemaining c in
  (err = None → covered c') ∧
  ∃ r w evs, Issue (world c) = (r, w) ∧ log c' = log c ++ EvIssue r :: evs ∧ only_looks evs ∧
  match r with
  | Err e => lease c' = lease c ∧ expires c' = expires c ∧ err = Some ("issue db credential: " +:+ e)
  | Ok l => lease c' = l ∧ ∃ t, expires c' = t + TTL l
  end.
Proof.
  unfold issue, mbind at 1, cache_bind at 1, call_issue. destruct (Issue (world c)) as [[l|e] w] eqn:Hi; cbn.
  - unfold mbind, cache_bind, now. cbn. destruct (Now w) as [t w']. cbn.
    match goal with |- context [usable minRemaining ?c1] => pose proof (usable_spec c1) as Hu; destruct (usable minRemaining c1) as [b c'] end.
    cbn in *. destruct Hu as (Hl & He & Hc & Hlog). split; [destruct b; [by intros _; apply Hc|done]|].
    destruct Hlog as [(_ & _ & Hlog)|(_ & t' & Hlog & _)]; rewrite Hlog;
      eexists _, _, _; (split; [done|]); rewrite <-!(assoc_L (++)); (split; [done|]); cbn;
      (split; [repeat constructor|]); eauto.
  - split; [done|]. exists (Err e), w, []. split_and!; try done. constructor.
Qed.

Lemma renew_spec (c : Cache W) : let '(err, c') := renew renewFor c in
  ∃ r w evs, Renew (world c) (ID (lease c)) renewFor = (r, w) ∧
    log c' = log c ++ EvRenew (ID (lease c)) renewFor r :: evs ∧ only_looks evs ∧
  match r with
  | Err e => lease c' = no_lease ∧ err = Some e
  | Ok (ttl, renewable) => err = None ∧ User (lease c') = User (lease c) ∧ Pass (lease c') = Pass (lease c) ∧ ID (lease c') = ID (lease c) ∧
      Renewable (lease c') = renewable
  end.
Proof.
  unfold renew, mbind at 1, cache_bind at 1, get, mbind at 1, cache_bind at 1, call_renew.
  destruct (Renew (world c) (ID (lease c)) renewFor) as [[[ttl rn]|e] w] eqn:Hr; cbn.
  - unfold mbind, cache_bind, now. cbn. destruct (Now w) as [t w']. cbn.
    eexists _, _, _. split; [done|]. rewrite <-!(assoc_L (++)). cbn. split_and!; try done. repeat constructor.
  - eexists _, _, []. split_and!; try done. constructor.
Qed.

(** The renewal attempt of [Get], when there is a lease to renew. *)
Definition may_renew (c : Cache W) : bool := negb (String.eqb (ID (lease c)) "") && Renewable (lease c).

Lemma attempt_spec (c : Cache W) :
  let '(b, c') := (err ← renew renewFor;
                   match err with None => usable minRemaining | Some _ => mret false end) c in
  (b = true → covered c') ∧
  ∃ r w evs, Renew (world c) (ID (lease c)) renewFor = (r, w) ∧
    log c' = log c ++ EvRenew (ID (lease c)) renewFor r :: evs ∧ only_looks evs ∧
    (is_ok r = false → b = false ∧ lease c' = no_lease).
Proof.
  unfold mbind, cache_bind. pose proof (renew_spec c) as Hr. destruct (renew renewFor c) as [err c1].
  destruct Hr as (r & w & evs & Hr & Hlog & Hn & Hcase).
  destruct r as [[ttl rn]|e]; [destruct Hcase as (-> & _)|destruct Hcase as [Hl ->]].
  - pose proof (usable_spec c1) as Hu. destruct (usable minRemaining c1) as [b c2]. destruct Hu as (_ & _ & Hc & Hlog2).
    split; [done|]. destruct Hlog2 as [(_ & _ & Hlog2)|(_ & t & Hlog2 & _)].
    + eexists _, _, evs. rewrite Hlog2, Hlog. split_and!; done.
    + eexists _, _, (evs ++ [EvNow t]). rewrite Hlog2, Hlog, <-(assoc_L (++)). split_and!; try done.
      apply Forall_app. by repeat constructor.
  - cbn. split; [done|]. eexists _, _, evs. split_and!; done.
Qed.

(** [Get] without the monad: use, else renew, else issue. *)
Lemma Get_run (c : Cache W) :
  Get minRemaining renewFor c =
  let '(u, c1) := usable minRemaining c in
  if u : bool then (Ok (User (lease c1), Pass (lease c1)), c1)
  else
    let '(renewed, c2) := if may_renew c1 then
        (err ← renew renewFor; match err with None => usable minRemaining | Some _ => mret false end) c1
      else (false, c1) in
    if renewed : bool then (Ok (User (lease c2), Pass (lease c2)), c2)
    else
      let '(err, c3) := issue minRemaining c2 in
      match err with Some e => (Err e, c3) | None => (Ok (User (lease c3), Pass (lease c3)), c3) end.
Proof.
  unfold Get, may_renew, mbind, cache_bind, get, hand_out, mret, cache_ret.
  destruct (usable minRemaining c) as [[|] c1]; cbn; [done|].
  destruct (negb _ && _); cbn.
  - destruct (renew renewFor c1) as [[e|] c2]; cbn.
    + unfold mbind, cache_bind. by destruct (issue minRemaining c2) as [[e'|] c3].
    + destruct (usable minRemaining c2) as [[|] c3]; cbn; [done|]. by destruct (issue minRemaining c3) as [[e'|] c4].
  - by destruct (issue minRemaining c1) as [[e'|] c4].
Qed.

(** Credentials handed out outlive the floor.  Whatever the issuer answers
    and however the clock moves, the credentials [Get] returns are those of the
    lease it keeps, name a user, and at its last look at the clock had at least
    [minRemaining] before the expiry it computed. *)
Theorem Get_outlives (c c' : Cache W) u p :
  Get minRemaining renewFor c = (Ok (u, p), c') →
  u = User (lease c') ∧ p = Pass (lease c') ∧ u ≠ "" ∧
  ∃ t, last_reading (log c') = Some t ∧ minRemaining ≤ Sub (expires c') t.
Proof.
  cut (Get minRemaining renewFor c = (Ok (u, p), c') → u = User (lease c') ∧ p = Pass (lease c') ∧ covered c').
  { intros H Hg. destruct (H Hg) as (-> & -> & Hu & Ht). done. }
  rewrite Get_run. pose proof (usable_spec c) as Hu. destruct (usable minRemaining c) as [[|] c1].
  { destruct Hu as (_ & _ & Hc & _). intros [= <- <- <-]. by split_and!; [done|done|apply Hc]. }
  destruct (may_renew c1); [|].
  - pose proof (attempt_spec c1) as Ha.
    destruct ((err ← renew renewFor; match err with None => usable minRemaining | Some _ => mret false end) c1) as [[|] c2].
    { destruct Ha as [Hc _]. intros [= <- <- <-]. by split_and!; [done|done|apply Hc]. }
    pose proof (issue_spec c2) as Hi. destruct (issue minRemaining c2) as [[e|] c3]; [done|].
    destruct Hi as [Hc _]. intros [= <- <- <-]. by split_and!; [done|done|apply Hc].
  - pose proof (issue_spec c1) as Hi. destruct (issue minRemaining c1) as [[e|] c3]; [done|].
    destruct Hi as [Hc _]. intros [= <- <- <-]. by split_and!; [done|done|apply Hc].
Qed.

(** What a Get costs Vault.  It looks at the clock, then renews at most
    once, the cached lease and only if it is renewable, and then issues at most
    once, never before the renewal.  A credential usable at the first look
    costs nothing else.  Get fails only after a new credential was asked for;
    and a lease Vault refused to renew is forgotten, replaced by whatever was
    issued. *)
Theorem Get_calls (c : Cache W) :
  ∃ r c' looks renewal issuing, Get minRemaining renewFor c = (r, c') ∧
  log c' = log c ++ looks ++ renewal ++ issuing ∧ only_looks looks ∧
  (renewal = [] ∨ ∃ res l, renewal = EvRenew (ID (lease c)) renewFor res :: l ∧ only_looks l ∧
     ID (lease c) ≠ "" ∧ Renewable (lease c) = true ∧
     (is_ok res = false → issuing ≠ [] ∧ (lease c' = no_lease ∨ ∃ new l', issuing = EvIssue (Ok new) :: l' ∧ lease c' = new))) ∧
  (issuing = [] ∨ ∃ res l, issuing = EvIssue res :: l ∧ only_looks l) ∧
  (is_ok r = false → issuing ≠ []) ∧
  (User (lease c) ≠ "" → ∃ t, looks = [EvNow t] ∧
     (minRemaining ≤ Sub (expires c) t → renewal = [] ∧ issuing = [] ∧ lease c' = lease c)).
Proof.
  rewrite Get_run. pose proof (usable_spec c) as Hu. destruct (usable minRemaining c) as [b c1].
  destruct Hu as (Hl1 & _ & _ & Hlog1).
  assert (∃ looks, log c1 = log c ++ looks ∧ only_looks looks ∧
    (User (lease c) ≠ "" → ∃ t, looks = [EvNow t] ∧ b = (minRemaining <=? Sub (expires c) t))) as (looks & Hlog & Hlk & Hb).
  { destruct Hlog1 as [(Hu & _ & ->)|(_ & t & -> & ->)]; [exists []; rewrite app_nil_r|exists [EvNow t]].
    - split_and!; [done|constructor|done].
    - split_and!; [done|by repeat constructor|eauto]. }
  clear Hlog1. destruct b.
  { eexists _, _, looks, [], []. split; [done|]. rewrite !app_nil_r, Hl1. split_and!; try done; [by left|by left|].
    intros Hu. destruct (Hb Hu) as (t & -> & _). eauto. }
  assert (∀ P Q R : Prop, User (lease c) ≠ "" → ∃ t, looks = [EvNow t] ∧ (minRemaining ≤ Sub (expires c) t → P ∧ Q ∧ R)) as Hlook.
  { intros P Q R Hu. destruct (Hb Hu) as (t & -> & Hle). exists t. split; [done|]. symmetry in Hle. apply Z.leb_gt in Hle. lia. }
  clear Hb. unfold may_renew. rewrite Hl1. destruct (negb (String.eqb (ID (lease c)) "") && Renewable (lease c)) eqn:Hmay; cycle 1.
  { pose proof (issue_spec c1) as Hi. destruct (issue minRemaining c1) as [err c3].
    destruct Hi as (_ & r & w & l & _ & Hlog3 & Hn & _). rewrite Hlog, <-(assoc_L (++)) in Hlog3.
    destruct err; eexists _, _, looks, [], (EvIssue r :: l); (split; [done|]);
      (split_and!; try done; [by left|right; eauto|by apply Hlook]). }
  bool_simpl. match goal with H : String.eqb _ _ = false |- _ => apply String.eqb_neq in H; rename H into Hid end.
  pose proof (attempt_spec c1) as Ha.
  destruct ((err ← renew renewFor; match err with None => usable minRemaining | Some _ => mret false end) c1) as [b2 c2].
  destruct Ha as (_ & res & w & l & _ & Hlog2 & Hn & Hfail). rewrite Hl1, Hlog, <-(assoc_L (++)) in Hlog2.
  destruct b2.
  { eexists _, _, looks, (EvRenew (ID (lease c)) renewFor res :: l), []. split; [done|]. rewrite app_nil_r.
    split_and!; try done; [|by left|by apply Hlook]. right. exists res, l. split_and!; try done. intros Hf. by destruct (Hfail Hf). }
  pose proof (issue_spec c2) as Hi. destruct (issue minRemaining c2) as [err c3].
  destruct Hi as (_ & r & w' & l' & _ & Hlog3 & Hn' & Hcase). rewrite Hlog2, <-!(assoc_L (++)) in Hlog3.
  assert (is_ok res = false → EvIssue r :: l' ≠ [] ∧ (lease c3 = no_lease ∨ ∃ new l0, EvIssue r :: l' = EvIssue (Ok new) :: l0 ∧ lease c3 = new)) as Hforget.
  { intros Hf. split; [done|]. destruct (Hfail Hf) as [_ Hno]. destruct r as [new|e]; [right|left].
    - destruct Hcase as [-> _]. eauto.
    - by destruct Hcase as [-> _]. }
  destruct err; eexists _, _, looks, (EvRenew (ID (lease c)) renewFor res :: l), (EvIssue r :: l'); (split; [done|]);
    (split_and!; try done; [right; exists res, l; done|right; eauto|by apply Hlook]).
Qed.
End theorems.

(** ** Witness: a lease near its end whose renewal is clamped *)

(** The world counts the calls; the clock stands at two hours. *)
#[local] Instance demo_issuer : Issuer nat := {
  Issue n := (Ok {| User := "v-new"; Pass := "p"; ID := "lease/2"; TTL := Hour; Renewable := true |}, S n);
  Renew n _ _ := (Ok (Minute, false), S n);
  Now n := (2 * Hour, n);
}.

Definition demo_cache : Cache nat :=
  {| lease := {| User := "v-old"; Pass := "q"; ID := "lease/1"; TTL := Hour; Renewable := true |};
     expires := 2 * Hour + Minute; world := 0%nat; log := [] |}.

Lemma Get_outlives_witness :
  let out := Get (10 * Minute) Hour demo_cache in
  out.1 = Ok ("v-new", "p") ∧ ∃ t, last_reading (log out.2) = Some t ∧ 10 * Minute ≤ Sub (expires out.2) t.
Proof.
  split; [vm_compute; reflexivity|].
  refine (proj2 (proj2 (proj2 (Get_outlives (10 * Minute) Hour demo_cache _ "v-new" "p" _)))).
  vm_compute. reflexivity.
Defined.
