(* ===== verification/OpenStackFold.v ===== *)
(** From capability rows to host records (internal/store/openstack_fold.go):
    what a host runs now, what it no longer does, and which deployment it is
    shown under. *)

From S2P Require Import Prelude GoStrings Membership.

(** ** Data *)

Definition roleNone : string := "none".
Definition RoleUnknown : string := "unknown".
Definition StateActive : string := "active".
Definition StateMaintenance : string := "maintenance".
Definition StateRetired : string := "retired".
Definition StateOrActive (s : string) : string := if String.eqb s "" then StateActive else s.

Record CapabilityComponent := { cc_Version : string; Package : string; cc_Active : bool; cc_Service : bool }.

Record capabilityRow := {
  r_Hostname : string; Role : string; r_Detected : bool; Active : bool;
  r_Components : gmap string CapabilityComponent; r_Details : gmap string string; r_LastError : string;
  r_ObservedAt : time_t; PassID : Z; r_DC : string; r_HostState : string; r_IP : string;
}.

Record OpenStackMembership := {
  m_DeploymentID : string; m_DisplayName : string; m_Region : string; m_Confidence : string; m_ObservedAt : time_t;
}.

Record DroppedRole := { dr_Role : string; LastSeen : time_t }.

Record OpenStackHost := {
  h_Hostname : string; IP : string; DC : string; HostState : string; Detected : bool;
  Roles : list string; ActiveRoles : list string; Dropped : list DroppedRole;
  Components : gmap string CapabilityComponent; Details : gmap string string; LastError : string; ObservedAt : time_t;
  Farm : string; FarmName : string; FarmRegion : string; h_Confidence : string; Memberships : list OpenStackMembership;
}.

Record Deployment := {
  d_ID : string; d_DisplayName : string; d_Region : string; d_KeystoneURL : string; d_HorizonURL : string;
  d_KeystoneCAPEM : string; d_KeystoneVerifyURL : string; d_State : string; d_StateNote : string; d_StateChangedAt : option time_t;
}.

Definition isPlaceholderRole (role : string) : bool := String.eqb role roleNone || String.eqb role RoleUnknown.

(** ** What a listing leaves out *)

Definition Parked (h : OpenStackHost) : bool :=
  String.eqb (HostState h) StateMaintenance || String.eqb (HostState h) StateRetired.

Definition InService (hosts : list OpenStackHost) (deployments : list Deployment) : list OpenStackHost :=
  let retired := foldl (λ m d, if String.eqb (d_State d) StateRetired then {[d_ID d]} ∪ m else m) (∅ : gset string) deployments in
  filter (λ h, negb (Parked h || bool_decide (Farm h ∈ retired))) hosts.

(** ** Farm claims *)

Record farmClaim := { c_ID : string; c_Name : string; c_Region : string; c_Confidence : string; fromMembership : bool }.

Definition confidenceRank (c : string) : Z :=
  if String.eqb c Confirmed then 0 else if String.eqb c Declared then 1 else if String.eqb c LocalOnly then 2
  else if String.eqb c ControlOnly then 3 else 4.

Definition better (a b : farmClaim) : bool :=
  let ra := confidenceRank (c_Confidence a) in
  let rb := confidenceRank (c_Confidence b) in
  if negb (ra =? rb) then ra <? rb else fromMembership a && negb (fromMembership b).

Fixpoint conflicting_go (by_rank : gmap Z string) (claims : list farmClaim) : bool :=
  match claims with
  | [] => false
  | c :: claims' =>
      let r := confidenceRank (c_Confidence c) in
      match by_rank !! r with
      | Some seen => if negb (String.eqb seen (c_ID c)) then true else conflicting_go (<[r := c_ID c]> by_rank) claims'
      | None => conflicting_go (<[r := c_ID c]> by_rank) claims'
      end
  end.

Definition conflicting (ms : list OpenStackMembership) (claims : list farmClaim) : bool :=
  (1 <? length ms)%nat || conflicting_go ∅ claims.

Definition detail (details : gmap string string) (k : string) : string := default "" (details !! k).

Definition claims_of (details : gmap string string) (ms : list OpenStackMembership) : list farmClaim :=
  ((λ m, {| c_ID := m_DeploymentID m; c_Name := m_DisplayName m; c_Region := m_Region m;
            c_Confidence := m_Confidence m; fromMembership := true |}) <$> ms) ++
  (let id := detail details "deployment" in
   if negb (String.eqb id "") && negb (String.eqb id "unknown") && String.eqb (detail details "deployment_source") "declared"
   then [{| c_ID := id; c_Name := ""; c_Region := ""; c_Confidence := Declared; fromMembership := false |}] else []) ++
  (let u := detail details "keystone_url" in
   if negb (String.eqb u "") && (length ms =? 0)%nat
   then [{| c_ID := u; c_Name := ""; c_Region := ""; c_Confidence := LocalOnly; fromMembership := false |}] else []).

Definition best_claim (c : farmClaim) (claims : list farmClaim) : farmClaim :=
  foldl (λ best c, if better c best then c else best) c claims.

Definition attachFarm (h : OpenStackHost) (ms : list OpenStackMembership) : OpenStackHost :=
  let claims := claims_of (Details h) ms in
  let '(farm, name, region, confidence) :=
    match claims with
    | [] => (Farm h, FarmName h, FarmRegion h, h_Confidence h)
    | c :: cs =>
        let best := best_claim c cs in
        (c_ID best, c_Name best, c_Region best, if conflicting ms claims then Conflict else c_Confidence best)
    end in
  {| h_Hostname := h_Hostname h; IP := IP h; DC := DC h; HostState := HostState h; Detected := Detected h;
     Roles := Roles h; ActiveRoles := ActiveRoles h; Dropped := Dropped h; Components := Components h;
     Details := Details h; LastError := LastError h; ObservedAt := ObservedAt h;
     Farm := farm; FarmName := name; FarmRegion := region; h_Confidence := confidence; Memberships := ms |}.

(** ** The fold *)

(** [maps.Copy]: the source's values win. *)
Definition mergeInto (dst src : gmap string CapabilityComponent) : gmap string CapabilityComponent := src ∪ dst.
Definition mergeDetails (dst src : gmap string string) : gmap string string := src ∪ dst.

Definition new_host (r : capabilityRow) : OpenStackHost :=
  {| h_Hostname := r_Hostname r; IP := r_IP r; DC := r_DC r; HostState := StateOrActive (r_HostState r);
     Detected := false; Roles := []; ActiveRoles := []; Dropped := []; Components := ∅; Details := ∅; LastError := "";
     ObservedAt := 0; Farm := ""; FarmName := ""; FarmRegion := ""; h_Confidence := ""; Memberships := [] |}.

Record fold_state := { byHost : gmap string OpenStackHost; order : list string; newest : gmap string Z }.

(** The first loop: the hosts, and the newest pass of each. *)
Definition seen_row (st : fold_state) (r : capabilityRow) : fold_state :=
  match byHost st !! r_Hostname r with
  | None => {| byHost := <[r_Hostname r := new_host r]> (byHost st); order := order st ++ [r_Hostname r];
               newest := <[r_Hostname r := PassID r]> (newest st) |}
  | Some _ =>
      if default 0 (newest st !! r_Hostname r) <? PassID r
      then {| byHost := byHost st; order := order st; newest := <[r_Hostname r := PassID r]> (newest st) |}
      else st
  end.

(** One row folded into its host, given the host's newest pass. *)
Definition fold_row (newest_pass : Z) (h : OpenStackHost) (r : capabilityRow) : OpenStackHost :=
  if newest_pass <=? PassID r then
    {| h_Hostname := h_Hostname h; IP := IP h; DC := DC h; HostState := HostState h;
       Detected := Detected h || r_Detected r;
       Roles := if isPlaceholderRole (Role r) then Roles h else Roles h ++ [Role r];
       ActiveRoles := if negb (isPlaceholderRole (Role r)) && Active r then ActiveRoles h ++ [Role r] else ActiveRoles h;
       Dropped := Dropped h; Components := mergeInto (Components h) (r_Components r);
       Details := mergeDetails (Details h) (r_Details r);
       LastError := if String.eqb (r_LastError r) "" then LastError h else r_LastError r;
       ObservedAt := r_ObservedAt r;
       Farm := Farm h; FarmName := FarmName h; FarmRegion := FarmRegion h; h_Confidence := h_Confidence h;
       Memberships := Memberships h |}
  else
    {| h_Hostname := h_Hostname h; IP := IP h; DC := DC h; HostState := HostState h; Detected := Detected h;
       Roles := Roles h; ActiveRoles := ActiveRoles h;
       Dropped := if isPlaceholderRole (Role r) then Dropped h
                  else Dropped h ++ [{| dr_Role := Role r; LastSeen := r_ObservedAt r |}];
       Components := Components h; Details := Details h; LastError := LastError h; ObservedAt := ObservedAt h;
       Farm := Farm h; FarmName := FarmName h; FarmRegion := FarmRegion h; h_Confidence := h_Confidence h;
       Memberships := Memberships h |}.

Definition place_row (news : gmap string Z) (m : gmap string OpenStackHost) (r : capabilityRow) : gmap string OpenStackHost :=
  match m !! r_Hostname r with
  | Some h => <[r_Hostname r := fold_row (default 0 (news !! r_Hostname r)) h r]> m
  | None => m
  end.

Definition dropped_less : DroppedRole → DroppedRole → bool := less_on string_ltb dr_Role.

Definition finish (h : OpenStackHost) (ms : list OpenStackMembership) : OpenStackHost :=
  attachFarm
    {| h_Hostname := h_Hostname h; IP := IP h; DC := DC h; HostState := HostState h; Detected := Detected h;
       Roles := sort_strings (Roles h); ActiveRoles := sort_strings (ActiveRoles h); Dropped := sort dropped_less (Dropped h);
       Components := Components h; Details := Details h; LastError := LastError h; ObservedAt := ObservedAt h;
       Farm := Farm h; FarmName := FarmName h; FarmRegion := FarmRegion h; h_Confidence := h_Confidence h;
       Memberships := Memberships h |} ms.

Definition foldCapabilityRows (rows : list capabilityRow) (members : gmap string (list OpenStackMembership)) : list OpenStackHost :=
  let st := foldl seen_row {| byHost := ∅; order := []; newest := ∅ |} rows in
  let hosts := foldl (place_row (newest st)) (byHost st) rows in
  omap (λ name, (λ h, finish h (default [] (members !! name))) <$> hosts !! name) (sort_strings (order st)).

(** ** Which deployment a host is shown under *)

Lemma better_rank a b : better a b = true → confidenceRank (c_Confidence a) ≤ confidenceRank (c_Confidence b).
Proof. unfold better. case_if; bool_simpl; lia. Qed.

Lemma not_better_rank a b : better a b = false → confidenceRank (c_Confidence b) ≤ confidenceRank (c_Confidence a).
Proof. unfold better. case_if; bool_simpl; lia. Qed.

Lemma best_claim_spec claims : ∀ c, let b := best_claim c claims in
  b ∈ c :: claims ∧ ∀ x, x ∈ c :: claims → confidenceRank (c_Confidence b) ≤ confidenceRank (c_Confidence x).
Proof.
  induction claims as [|c' claims IH]; intros c b; subst b; cbn [best_claim foldl].
  - split; [by left|]. intros x ->%list_elem_of_singleton. lia.
  - destruct (IH (if better c' c then c' else c)) as [Hin Hmin]. fold (best_claim (if better c' c then c' else c) claims).
    split; [destruct (better c' c); set_solver|].
    intros x Hx. pose proof (Hmin _ ltac:(by left)) as Hb.
    apply elem_of_cons in Hx as [->|[->|Hx]%elem_of_cons]; [| |apply Hmin; by right];
      destruct (better c' c) eqn:E; first [apply better_rank in E|apply not_better_rank in E]; lia.
Qed.

Lemma conflicting_go_spec claims : ∀ m : gmap Z string,
  conflicting_go m claims = true ↔
  (∃ c, c ∈ claims ∧ ∃ seen, m !! confidenceRank (c_Confidence c) = Some seen ∧ seen ≠ c_ID c) ∨
  (∃ c c', c ∈ claims ∧ c' ∈ claims ∧ confidenceRank (c_Confidence c) = confidenceRank (c_Confidence c') ∧ c_ID c ≠ c_ID c').
Proof.
  induction claims as [|c claims IH]; intros m; cbn [conflicting_go].
  { split; [done|]. intros [(c & Hc & _)|(c & c' & Hc & _)]; by apply not_elem_of_nil in Hc. }
  set (r := confidenceRank (c_Confidence c)).
  assert (∀ x y : farmClaim, x ∈ c :: claims → y ∈ c :: claims → confidenceRank (c_Confidence x) = confidenceRank (c_Confidence y) → c_ID x ≠ c_ID y →
    (∃ z, z ∈ claims ∧ confidenceRank (c_Confidence z) = r ∧ c_ID c ≠ c_ID z) ∨ (∃ z z', z ∈ claims ∧ z' ∈ claims ∧ confidenceRank (c_Confidence z) = confidenceRank (c_Confidence z') ∧ c_ID z ≠ c_ID z')) as Hsplit.
  { intros x y Hx Hy Hr Hne. apply elem_of_cons in Hx as [->|Hx], Hy as [->|Hy]; [done|left|left|right]; eauto 10. }
  assert (∀ k seen, <[r := c_ID c]> m !! k = Some seen → (k = r ∧ seen = c_ID c) ∨ (k ≠ r ∧ m !! k = Some seen)) as Hlk.
  { intros k seen [[<- <-]|[? ?]]%lookup_insert_Some; [by left|by right]. }
  destruct (m !! r) as [seen|] eqn:Hm; [destruct (String.eqb_spec seen (c_ID c)) as [Heq|Hne]; cbn [negb]|].
  - rewrite IH. split.
    + intros [(x & Hx & s & [[Hk ->]|[Hk Hs]]%Hlk & Hs')|(x & y & ? & ? & ? & ?)]; [right|left|right].
      * exists c, x. split_and!; [by left|by right|done|done].
      * exists x. split; [by right|eauto].
      * exists x, y. split_and!; [by right|by right|done|done].
    + intros [(x & [->|Hx]%elem_of_cons & s & Hs & Hs')|(x & y & Hx & Hy & Hr & Hne)].
      * fold r in Hs. congruence.
      * left. exists x. split; [done|]. exists s. split; [|done]. apply lookup_insert_Some. destruct (decide (confidenceRank (c_Confidence x) = r)) as [E|]; [left|by right].
        rewrite E in Hs. split; [done|congruence].
      * destruct (Hsplit x y Hx Hy Hr Hne) as [(z & Hz & Hzr & Hzi)|(z & z' & ? & ? & ? & ?)]; [left|right; eauto 10].
        exists z. split; [done|]. exists (c_ID c). rewrite Hzr, lookup_insert_eq. done.
  - split; [intros _|done]. left. exists c. split; [by left|]. by exists seen.
  - rewrite IH. split.
    + intros [(x & Hx & s & [[Hk ->]|[Hk Hs]]%Hlk & Hs')|(x & y & ? & ? & ? & ?)]; [right|left|right].
      * exists c, x. split_and!; [by left|by right|done|done].
      * exists x. split; [by right|eauto].
      * exists x, y. split_and!; [by right|by right|done|done].
    + intros [(x & [->|Hx]%elem_of_cons & s & Hs & Hs')|(x & y & Hx & Hy & Hr & Hne)].
      * fold r in Hs. congruence.
      * left. exists x. split; [done|]. exists s. split; [|done]. apply lookup_insert_Some. right. split; [|done]. intros E. rewrite <-E in Hs. congruence.
      * destruct (Hsplit x y Hx Hy Hr Hne) as [(z & Hz & Hzr & Hzi)|(z & z' & ? & ? & ? & ?)]; [left|right; eauto 10].
        exists z. split; [done|]. exists (c_ID c). rewrite Hzr, lookup_insert_eq. done.
Qed.

Lemma conflicting_go_empty claims : conflicting_go ∅ claims = true ↔
  ∃ c c', c ∈ claims ∧ c' ∈ claims ∧ confidenceRank (c_Confidence c) = confidenceRank (c_Confidence c') ∧ c_ID c ≠ c_ID c'.
Proof. rewrite conflicting_go_spec. setoid_rewrite lookup_empty. naive_solver. Qed.

Definition disagree (ms : list OpenStackMembership) (claims : list farmClaim) : Prop :=
  (1 < length ms)%nat ∨
  ∃ c c', c ∈ claims ∧ c' ∈ claims ∧ confidenceRank (c_Confidence c) = confidenceRank (c_Confidence c') ∧ c_ID c ≠ c_ID c'.

Lemma conflicting_spec ms claims : conflicting ms claims = true ↔ disagree ms claims.
Proof. unfold conflicting, disagree. by rewrite orb_true_iff, Nat.ltb_lt, conflicting_go_empty. Qed.

(** The strongest claim wins.  A host with no claim is shown under no
    deployment; otherwise under one somebody claims, and none of the claims
    outranks it.  Its confidence is that claim's, unless the evidence
    disagrees: several memberships are filed, or two claims of one rank name
    different deployments.  In particular a declared identifier that disagrees
    with the one filed membership is a conflict only if that membership is
    itself declared. *)
Theorem attachFarm_strongest_claim h ms :
  let claims := claims_of (Details h) ms in let h' := attachFarm h ms in
  (claims = [] → Farm h' = Farm h ∧ h_Confidence h' = h_Confidence h) ∧
  (claims ≠ [] → ∃ b, b ∈ claims ∧ (∀ c, c ∈ claims → confidenceRank (c_Confidence b) ≤ confidenceRank (c_Confidence c)) ∧
     Farm h' = c_ID b ∧ FarmName h' = c_Name b ∧ FarmRegion h' = c_Region b ∧
     (disagree ms claims → h_Confidence h' = Conflict) ∧ (¬ disagree ms claims → h_Confidence h' = c_Confidence b)) ∧
  (∀ m, ms = [m] → let id := detail (Details h) "deployment" in
     id ≠ "" → id ≠ "unknown" → detail (Details h) "deployment_source" = "declared" → id ≠ m_DeploymentID m →
     m_Confidence m ≠ Conflict →
     (h_Confidence h' = Conflict ↔ m_Confidence m = Declared)).
Proof.
  cbv zeta. split_and!.
  - intros E. unfold attachFarm. by rewrite E.
  - intros Hne. unfold attachFarm. destruct (claims_of (Details h) ms) as [|c cs] eqn:E; [done|].
    destruct (best_claim_spec cs c) as [Hin Hmin]. exists (best_claim c cs). cbn [Farm FarmName FarmRegion h_Confidence].
    rewrite <-conflicting_spec. split_and!; try done; [by intros ->|by intros ->%not_true_is_false].
  - intros m -> H1 H2 H3 Hid Hnc. unfold attachFarm, claims_of.
    destruct (String.eqb_spec (detail (Details h) "deployment") ""); [done|].
    destruct (String.eqb_spec (detail (Details h) "deployment") "unknown"); [done|].
    rewrite H3, andb_false_r. cbn. unfold better. cbn.
    repeat (rewrite lookup_insert_eq || rewrite lookup_empty).
    destruct (decide (m_Confidence m = Declared)) as [->|Hd].
    + split; [done|]. intros _. cbn. rewrite lookup_insert_eq. by destruct (String.eqb_spec (m_DeploymentID m) (detail (Details h) "deployment")).
    + split; [|done]. assert (confidenceRank (m_Confidence m) ≠ 1) as Hr.
      { unfold confidenceRank. repeat case_if; bool_simpl; try lia. intros _. apply Hd. by apply String.eqb_eq. }
      change (confidenceRank Declared) with 1. rewrite lookup_insert_ne by done. rewrite lookup_empty.
      match goal with |- context [c_Confidence (if ?b then _ else _)] => destruct b end; cbn; intros Hx; first [by destruct (Hnc Hx)|discriminate Hx].
Qed.

(** ** The fold *)

Definition rows_of (rows : list capabilityRow) (n : string) : list capabilityRow :=
  filter (λ r, r_Hostname r = n) rows.

Definition max_pass (rs : list capabilityRow) : option Z :=
  match rs with [] => None | r :: rs => Some (foldl (λ p r, Z.max p (PassID r)) (PassID r) rs) end.

Lemma max_pass_snoc rs r : max_pass (rs ++ [r]) = Some (match max_pass rs with Some p => Z.max p (PassID r) | None => PassID r end).
Proof. destruct rs as [|r0 rs]; [done|]. cbn. by rewrite foldl_app. Qed.

Lemma max_pass_spec rs p : max_pass rs = Some p → (∃ r, r ∈ rs ∧ PassID r = p) ∧ ∀ r, r ∈ rs → PassID r ≤ p.
Proof.
  revert p. induction rs as [|r rs IH] using rev_ind; intros p; [done|]. rewrite max_pass_snoc. intros [= <-].
  destruct (max_pass rs) as [q|] eqn:E.
  - destruct (IH q eq_refl) as ((r0 & Hr0 & <-) & Hmax). split.
    + destruct (Z.max_spec (PassID r0) (PassID r)) as [[_ ->]|[_ ->]]; [exists r|exists r0]; set_solver.
    + intros r1 [Hr1|Hr1]%elem_of_app; [apply Hmax in Hr1; lia|].
      apply list_elem_of_singleton in Hr1 as ->. lia.
  - destruct rs; [|done]. split; [exists r; set_solver|]. intros r1 ->%list_elem_of_singleton. lia.
Qed.

(** After the first loop. *)
Record seen_ok (seen : list capabilityRow) (st : fold_state) : Prop := {
  so_hosts : ∀ n, byHost st !! n = new_host <$> head (rows_of seen n);
  so_newest : ∀ n, newest st !! n = max_pass (rows_of seen n);
  so_order : NoDup (order st);
  so_names : ∀ n, n ∈ order st ↔ is_Some (byHost st !! n);
}.

Lemma rows_of_snoc rows r n : rows_of (rows ++ [r]) n = rows_of rows n ++ (if decide (r_Hostname r = n) then [r] else []).
Proof. unfold rows_of. rewrite list.filter_app, list.filter_cons. by case_decide. Qed.

Lemma seen_row_ok seen st r : seen_ok seen st → seen_ok (seen ++ [r]) (seen_row st r).
Proof.
  intros [Hh Hn Ho Hnm]. unfold seen_row. destruct (byHost st !! r_Hostname r) as [h|] eqn:E.
  - assert (∃ r0 rs, rows_of seen (r_Hostname r) = r0 :: rs) as (r0 & rs & Hrs).
    { rewrite Hh in E. destruct (rows_of seen (r_Hostname r)); [done|eauto]. }
    assert (∀ n, new_host <$> head (rows_of (seen ++ [r]) n) = new_host <$> head (rows_of seen n)) as Hhead.
    { intros n. rewrite rows_of_snoc. case_decide as Heq; [|by rewrite app_nil_r]. by rewrite <-Heq, Hrs. }
    destruct (max_pass_spec (rows_of seen (r_Hostname r)) (default 0 (newest st !! r_Hostname r))) as [_ Hmax].
    { rewrite Hn, Hrs. done. }
    case_if; split; cbn [byHost newest order]; try done.
    + intros n. by rewrite Hhead.
    + intros n. rewrite rows_of_snoc. case_decide as Heq.
      * subst n. rewrite lookup_insert_eq, max_pass_snoc, <-Hn. bool_simpl. rewrite Hn, Hrs in *. cbn in *. f_equal. lia.
      * by rewrite lookup_insert_ne, app_nil_r.
    + intros n. by rewrite Hhead.
    + intros n. rewrite rows_of_snoc. case_decide as Heq; [|by rewrite app_nil_r]. subst n.
      rewrite max_pass_snoc. bool_simpl. rewrite Hn, Hrs in *. cbn in *. f_equal. lia.
  - assert (rows_of seen (r_Hostname r) = []) as Hrs.
    { rewrite Hh in E. destruct (rows_of seen (r_Hostname r)); done. }
    split; cbn [byHost newest order].
    + intros n. rewrite rows_of_snoc. case_decide as Heq; [subst n; by rewrite lookup_insert_eq, Hrs|by rewrite lookup_insert_ne, app_nil_r].
    + intros n. rewrite rows_of_snoc. case_decide as Heq; [subst n; by rewrite lookup_insert_eq, Hrs|by rewrite lookup_insert_ne, app_nil_r].
    + apply NoDup_app. split_and!; [done| |apply NoDup_singleton]. intros n Hin ->%list_elem_of_singleton.
      apply Hnm in Hin. rewrite E in Hin. by destruct Hin.
    + intros n. rewrite elem_of_app, Hnm, list_elem_of_singleton. destruct (decide (n = r_Hostname r)) as [->|Hne].
      * rewrite lookup_insert_eq. naive_solver.
      * rewrite lookup_insert_ne by done. naive_solver.
Qed.

(** The second loop works on each host alone. *)
Lemma place_rows news rows : ∀ m n,
  foldl (place_row news) m rows !! n = (λ h, foldl (fold_row (default 0 (news !! n))) h (rows_of rows n)) <$> m !! n.
Proof.
  induction rows as [|r rows IH]; intros m n; cbn [foldl]; [by destruct (m !! n)|].
  rewrite IH. unfold place_row, rows_of. rewrite list.filter_cons. case_decide as Heq.
  - subst n. destruct (m !! r_Hostname r) as [h|] eqn:E; [by rewrite lookup_insert_eq|by rewrite E].
  - destruct (m !! r_Hostname r) as [h|] eqn:E; [|done]. by rewrite lookup_insert_ne.
Qed.

Definition current (p : Z) (rs : list capabilityRow) : list capabilityRow := filter (λ r, p ≤ PassID r) rs.
Definition lagging (p : Z) (rs : list capabilityRow) : list capabilityRow := filter (λ r, ¬ p ≤ PassID r) rs.
Definition real_roles (rs : list capabilityRow) : list capabilityRow := filter (λ r, isPlaceholderRole (Role r) = false) rs.

Lemma fold_rows_spec p rs : ∀ h, let h' := foldl (fold_row p) h rs in
  Roles h' = Roles h ++ (Role <$> real_roles (current p rs)) ∧
  ActiveRoles h' = ActiveRoles h ++ (Role <$> filter (λ r, Active r = true) (real_roles (current p rs))) ∧
  Dropped h' = Dropped h ++ ((λ r, {| dr_Role := Role r; LastSeen := r_ObservedAt r |}) <$> real_roles (lagging p rs)) ∧
  Detected h' = Detected h || existsb r_Detected (current p rs) ∧
  ObservedAt h' = default (ObservedAt h) (r_ObservedAt <$> last (current p rs)) ∧
  (∀ k c, Components h' !! k = Some c → Components h !! k = Some c ∨ ∃ r, r ∈ current p rs ∧ r_Components r !! k = Some c) ∧
  (h_Hostname h', HostState h', IP h', DC h') = (h_Hostname h, HostState h, IP h, DC h).
Proof.
  induction rs as [|r rs IH]; intros h; cbn [foldl].
  - cbn. rewrite !app_nil_r, orb_false_r. split_and!; try done. by left.
  - destruct (IH (fold_row p h r)) as (E1 & E2 & E3 & E4 & E5 & E6 & E7). cbv zeta.
    rewrite E1, E2, E3, E4, E5, E7. clear E1 E2 E3 E4 E5 E7.
    unfold fold_row in *. unfold current, lagging, real_roles in *. rewrite !list.filter_cons.
    destruct (Z.leb_spec p (PassID r)) as [Hp|Hp]; cbn [Roles ActiveRoles Dropped Detected ObservedAt Components h_Hostname HostState IP DC] in *.
    + rewrite (decide_True (P:=p ≤ PassID r)) by lia. rewrite (decide_False (P:=¬ p ≤ PassID r)) by lia. rewrite !list.filter_cons.
      destruct (isPlaceholderRole (Role r)) eqn:Hph; cbn [negb andb].
      * rewrite decide_False by done. cbn [existsb]. rewrite orb_assoc. split_and!; try done.
        -- destruct (filter _ rs) as [|r1 l] eqn:Hf; [done|]. by rewrite last_cons_cons; destruct (last (r1 :: l)) eqn:Hl; [|by apply last_None in Hl].
        -- intros k c Hk. apply E6 in Hk as [Hk|(r1 & Hr1 & Hk)].
           ++ apply lookup_union_Some_raw in Hk as [Hk|[_ Hk]]; [right; exists r; split; [by left|done]|by left].
           ++ right. exists r1. split; [by right|done].
      * rewrite decide_True by done. rewrite list.filter_cons. cbn [existsb]. rewrite orb_assoc. split_and!; try done.
        -- by rewrite <-(assoc_L (++)).
        -- destruct (Active r) eqn:Ha; [rewrite decide_True by done; by rewrite <-(assoc_L (++))|by rewrite decide_False].
        -- destruct (filter (λ x, p ≤ PassID x) rs) as [|r1 l] eqn:Hf; [done|]. by rewrite last_cons_cons; destruct (last (r1 :: l)) eqn:Hl; [|by apply last_None in Hl].
        -- intros k c Hk. apply E6 in Hk as [Hk|(r1 & Hr1 & Hk)].
           ++ apply lookup_union_Some_raw in Hk as [Hk|[_ Hk]]; [right; exists r; split; [by left|done]|by left].
           ++ right. exists r1. split; [by right|done].
    + rewrite (decide_False (P:=p ≤ PassID r)) by lia. rewrite (decide_True (P:=¬ p ≤ PassID r)) by lia. rewrite list.filter_cons.
      split_and!; try done. destruct (isPlaceholderRole (Role r)) eqn:Hph; [by rewrite decide_False|].
      rewrite decide_True by done. by rewrite <-(assoc_L (++)).
Qed.

Lemma rows_of_idem rows n : rows_of (rows_of rows n) n = rows_of rows n.
Proof. unfold rows_of. rewrite list_filter_filter. apply list_filter_iff. tauto. Qed.

Lemma rows_of_other rows n k r : head (rows_of (rows_of rows n) k) = Some r → k = n.
Proof.
  intros Hr. assert (r ∈ rows_of (rows_of rows n) k) as Hx by (destruct (rows_of (rows_of rows n) k); [done|injection Hr as ->; by left]).
  apply list_elem_of_filter in Hx as [<- Hx]. by apply list_elem_of_filter in Hx as [? _].
Qed.

Lemma head_rows_of rows n : is_Some (head (rows_of rows n)) ↔ ∃ r, r ∈ rows ∧ r_Hostname r = n.
Proof.
  split.
  - intros [r Hr]. exists r. assert (r ∈ rows_of rows n) as [? ?]%list_elem_of_filter; [|done].
    destruct (rows_of rows n); [done|]. injection Hr as ->. by left.
  - intros (r & Hr & <-). assert (r ∈ rows_of rows (r_Hostname r)) as Hin by (by apply list_elem_of_filter).
    destruct (rows_of rows (r_Hostname r)) as [|r0 l]; [by apply not_elem_of_nil in Hin|by eexists].
Qed.

Definition gathered (rows : list capabilityRow) : fold_state := foldl seen_row {| byHost := ∅; order := []; newest := ∅ |} rows.

Lemma gathered_ok rows : seen_ok rows (gathered rows).
Proof.
  apply (foldl_invariant seen_ok); [|intros; by apply seen_row_ok].
  split; cbn; [intros n; by rewrite lookup_empty|intros n; by rewrite lookup_empty|constructor|].
  intros n. rewrite lookup_empty. split; [set_solver|by intros []].
Qed.

Lemma gathered_names rows n : n ∈ order (gathered rows) ↔ ∃ r, r ∈ rows ∧ r_Hostname r = n.
Proof.
  destruct (gathered_ok rows) as [Hh _ _ Hnm]. by rewrite Hnm, Hh, fmap_is_Some, head_rows_of.
Qed.

Lemma fold_run rows members h : h ∈ foldCapabilityRows rows members ↔
  ∃ n r0 p, head (rows_of rows n) = Some r0 ∧ max_pass (rows_of rows n) = Some p ∧
    h = finish (foldl (fold_row p) (new_host r0) (rows_of rows n)) (default [] (members !! n)).
Proof.
  unfold foldCapabilityRows. fold (gathered rows). destruct (gathered_ok rows) as [Hh Hn Ho Hnm].
  rewrite list_elem_of_omap. split.
  - intros (n & _ & Hf). rewrite place_rows, Hh, Hn in Hf.
    destruct (rows_of rows n) as [|r0 rs] eqn:E; [done|]. cbn in Hf. injection Hf as <-.
    exists n, r0, (foldl (λ p r, Z.max p (PassID r)) (PassID r0) rs). by rewrite E.
  - intros (n & r0 & p & Hr0 & Hp & ->). exists n. split.
    + unfold sort_strings. rewrite sort_elem_of, Hnm, Hh, Hr0. done.
    + rewrite place_rows, Hh, Hn, Hr0, Hp. done.
Qed.

(** Only the last fields are [attachFarm]'s to set. *)
Lemma finish_fields h ms :
  h_Hostname (finish h ms) = h_Hostname h ∧ Roles (finish h ms) = sort_strings (Roles h) ∧
  ActiveRoles (finish h ms) = sort_strings (ActiveRoles h) ∧ Dropped (finish h ms) = sort dropped_less (Dropped h) ∧
  Detected (finish h ms) = Detected h ∧ Components (finish h ms) = Components h ∧ Memberships (finish h ms) = ms.
Proof. unfold finish, attachFarm. cbn [Details]. by destruct (claims_of _ _). Qed.

Lemma fold_row_name p n rows r0 : head (rows_of rows n) = Some r0 →
  h_Hostname (foldl (fold_row p) (new_host r0) (rows_of rows n)) = n.
Proof.
  intros Hr. destruct (fold_rows_spec p (rows_of rows n) (new_host r0)) as (_ & _ & _ & _ & _ & _ & E).
  injection E as -> _ _ _. cbn [new_host h_Hostname].
  assert (r0 ∈ rows_of rows n) as Hx by (destruct (rows_of rows n); [done|injection Hr as ->; by left]).
  by apply list_elem_of_filter in Hx as [? _].
Qed.

Lemma fold_names rows members : h_Hostname <$> foldCapabilityRows rows members = sort_strings (order (gathered rows)).
Proof.
  unfold foldCapabilityRows. fold (gathered rows). destruct (gathered_ok rows) as [Hh Hn Ho Hnm].
  assert (∀ n, n ∈ sort_strings (order (gathered rows)) → is_Some (byHost (gathered rows) !! n)) as Hin.
  { intros n. unfold sort_strings. rewrite sort_elem_of. apply Hnm. }
  induction (sort_strings (order (gathered rows))) as [|n l IH]; [done|]. cbn [omap list_omap].
  rewrite place_rows. destruct (Hin n ltac:(by left)) as [h Hhn]. rewrite Hhn. cbn.
  rewrite IH by (intros; apply Hin; by right). f_equal.
  rewrite Hh in Hhn. destruct (head (rows_of rows n)) as [r0|] eqn:Hr; [|done]. injection Hhn as <-.
  rewrite (proj1 (finish_fields _ _)). by apply fold_row_name.
Qed.

(** A host's record is the fold of its own rows. *)
Lemma fold_alone rows members n r0 p : head (rows_of rows n) = Some r0 → max_pass (rows_of rows n) = Some p →
  foldCapabilityRows (rows_of rows n) members =
  [finish (foldl (fold_row p) (new_host r0) (rows_of rows n)) (default [] (members !! n))].
Proof.
  intros Hr0 Hp.
  assert (h_Hostname <$> foldCapabilityRows (rows_of rows n) members = [n]) as Hone.
  { rewrite fold_names. apply Permutation_singleton_r. unfold sort_strings. rewrite sort_perm.
    destruct (gathered_ok (rows_of rows n)) as [_ _ Ho _].
    apply NoDup_Permutation; [done|apply NoDup_singleton|]. intros k.
    rewrite gathered_names, <-head_rows_of, list_elem_of_singleton. split.
    - intros [r Hr]. by eapply rows_of_other.
    - intros ->. rewrite rows_of_idem, Hr0. done. }
  destruct (foldCapabilityRows (rows_of rows n) members) as [|h1 [|]] eqn:Hf; try done. f_equal.
  assert (h1 ∈ foldCapabilityRows (rows_of rows n) members) as Hin1 by (rewrite Hf; by left).
  apply fold_run in Hin1 as (n1 & r1 & p1 & Hr1 & Hp1 & E).
  assert (n1 = n) as -> by (by eapply rows_of_other).
  rewrite rows_of_idem, Hp in Hp1. rewrite rows_of_idem, Hr0 in Hr1. injection Hp1 as <-. injection Hr1 as <-.
  by rewrite E, rows_of_idem.
Qed.

(** The listing is the latest probe, host by host.  Hosts come once each in
    name order, exactly those with a row.  A host's roles are those of the rows
    of its newest pass, and its dropped roles those of its older passes,
    neither showing a bookkeeping marker; software comes only from the newest
    pass; and the record is the one its own rows alone would give. *)
Theorem fold_is_the_latest_pass rows members :
  let out := foldCapabilityRows rows members in
  StronglySorted (not_after string_ltb) (h_Hostname <$> out) ∧ NoDup (h_Hostname <$> out) ∧
  (∀ n, n ∈ h_Hostname <$> out ↔ ∃ r, r ∈ rows ∧ r_Hostname r = n) ∧
  ∀ h, h ∈ out → let rs := rows_of rows (h_Hostname h) in
    ∃ p, (∃ r, r ∈ rs ∧ PassID r = p) ∧ (∀ r, r ∈ rs → PassID r ≤ p) ∧
    Roles h ≡ₚ Role <$> real_roles (filter (λ r, PassID r = p) rs) ∧ StronglySorted (not_after string_ltb) (Roles h) ∧
    ActiveRoles h ≡ₚ Role <$> filter (λ r, Active r = true) (real_roles (filter (λ r, PassID r = p) rs)) ∧
    Dropped h ≡ₚ (λ r, {| dr_Role := Role r; LastSeen := r_ObservedAt r |}) <$> real_roles (filter (λ r, PassID r ≠ p) rs) ∧
    Detected h = existsb r_Detected (filter (λ r, PassID r = p) rs) ∧
    (∀ k c, Components h !! k = Some c → ∃ r, r ∈ rs ∧ PassID r = p ∧ r_Components r !! k = Some c) ∧
    Memberships h = default [] (members !! h_Hostname h) ∧
    foldCapabilityRows rs members = [h].
Proof.
  intros out. unfold out at 1 2 3. rewrite fold_names. unfold sort_strings.
  destruct (gathered_ok rows) as [_ _ Ho _]. split_and!.
  - apply sort_sorted, _.
  - by apply sort_NoDup.
  - intros n. by rewrite sort_elem_of, gathered_names.
  - intros h Hin. apply fold_run in Hin as (n & r0 & p & Hr0 & Hp & ->).
    destruct (fold_rows_spec p (rows_of rows n) (new_host r0)) as (E1 & E2 & E3 & E4 & _ & E6 & _).
    pose proof (fold_row_name p n rows r0 Hr0) as Hname. pose proof (fold_alone rows members n r0 p Hr0 Hp) as Halone.
    set (h0 := foldl (fold_row p) (new_host r0) (rows_of rows n)) in *.
    destruct (finish_fields h0 (default [] (members !! n))) as (F1 & F2 & F3 & F4 & F5 & F6 & F7).
    cbv zeta. rewrite F1, F2, F3, F4, F5, F6, F7, Hname. destruct (max_pass_spec _ _ Hp) as [Hex Hmax].
    assert (current p (rows_of rows n) = filter (λ r, PassID r = p) (rows_of rows n)) as Hcur.
    { apply filter_ext_in. intros r Hr. apply Hmax in Hr. lia. }
    assert (lagging p (rows_of rows n) = filter (λ r, PassID r ≠ p) (rows_of rows n)) as Hlag.
    { apply filter_ext_in. intros r Hr. apply Hmax in Hr. lia. }
    rewrite Hcur in E1, E2, E4, E6. rewrite Hlag in E3. cbn [new_host Roles ActiveRoles Dropped Detected Components app orb] in E1, E2, E3, E4, E6.
    unfold sort_strings. exists p. split_and!; try done.
    + by rewrite sort_perm, E1.
    + apply sort_sorted, _.
    + by rewrite sort_perm, E2.
    + by rewrite sort_perm, E3.
    + intros k c Hk. apply E6 in Hk as [Hk|(r & Hr & Hk)]; [by rewrite lookup_empty in Hk|].
      apply list_elem_of_filter in Hr as [? ?]. eauto.
Qed.

(** What the fleet listing hides.  A host is left out exactly when the
    inventory parked it or its deployment is retired: one parked host does not
    hide the rest of its farm, and the order is kept. *)
Theorem InService_hides_parked_and_retired hosts deployments :
  InService hosts deployments `sublist_of` hosts ∧
  ∀ h, h ∈ InService hosts deployments ↔ h ∈ hosts ∧ HostState h ≠ StateMaintenance ∧ HostState h ≠ StateRetired ∧
    ∀ d, d ∈ deployments → d_State d = StateRetired → Farm h ≠ d_ID d.
Proof.
  unfold InService. split; [apply sublist_filter|]. intros h.
  assert (∀ ds (m : gset string) x, x ∈ foldl (λ m d, if String.eqb (d_State d) StateRetired then {[d_ID d]} ∪ m else m) m ds ↔
    x ∈ m ∨ ∃ d, d ∈ ds ∧ d_State d = StateRetired ∧ x = d_ID d) as Hr.
  { induction ds as [|d ds IH]; intros m x; cbn [foldl]; [set_solver|]. rewrite IH.
    destruct (String.eqb_spec (d_State d) StateRetired); set_solver. }
  rewrite list_elem_of_filter, Is_true_true, negb_true_iff, orb_false_iff, bool_decide_eq_false, Hr. unfold Parked.
  rewrite orb_false_iff, !String.eqb_neq. set_solver.
Qed.
