(* ===== verification/NodeProtocol.v ===== *)
(** The request boundary of the node gateway (internal/nodeaccess/protocol.go):
    which requests an agent may be sent, and which name a certificate proves. *)

From Stdlib Require Import Ascii String.
From S2P Require Import Prelude GoStrings.

(** ** Patterns *)

Definition in_set (extra : string) (c : ascii) : bool := is_alnum c || in_cutset extra c.

(** [^[a-zA-Z0-9_-]{8,64}$] *)
Definition requestIDPattern (s : string) : bool :=
  string_all (in_set "_-") s && (8 <=? String.length s)%nat && (String.length s <=? 64)%nat.

(** [^[a-zA-Z0-9][extra and a-zA-Z0-9]{0,n}$] *)
Definition head_then (extra : string) (n : nat) (s : string) : bool :=
  match s with
  | String c s' => is_alnum c && string_all (in_set extra) s' && (String.length s' <=? n)%nat
  | EmptyString => false
  end.
Definition servicePattern : string → bool := head_then "_.@-" 127.
Definition hostnamePattern : string → bool := head_then ".-" 252.

Definition is_hex (c : ascii) : bool := is_digit c || in_range 97 102 c || in_range 65 70 c.

(** An [x] of the template stands for a hex digit of either case. *)
Fixpoint fits (template s : string) : bool :=
  match template, s with
  | EmptyString, EmptyString => true
  | String t template', String c s' =>
      (if Ascii.eqb t "x" then is_hex c else Ascii.eqb t c) && fits template' s'
  | _, _ => false
  end.
Definition uuid_template : string := "xxxxxxxx-xxxx-xxxx-xxxx-xxxxxxxxxxxx".
Definition novaUUIDPattern : string → bool := fits uuid_template.

Definition TargetKind (identity : string) : string := if novaUUIDPattern identity then "vm" else "host".

(** ** Requests *)

Definition ProtocolVersion : Z := 1.

Definition OperationHostStatus : string := "host.status".
Definition OperationContainerList : string := "containers.list".
Definition OperationServiceStatus : string := "service.status".
Definition OperationServiceJournal : string := "service.journal".
Definition OperationShellSession : string := "shell.session".

Record Request := { Version : Z; ID : string; Operation : string; Params : gmap string string; Deadline : time_t }.

Inductive request_error :=
| EVersion | ERequestID | EDeadline | EOperation | EParam | EService | ELinesMissing | ELines.

Definition param (r : Request) (k : string) : string := default "" (Params r !! k).

Definition journal_lines (lines : string) : option Z := digits_val lines 0.

(** The parameters an operation admits. *)
Definition allowedParams (op : string) : option (list string) :=
  if String.eqb op OperationHostStatus || String.eqb op OperationContainerList then Some []
  else if String.eqb op OperationServiceStatus then Some ["service"]
  else if String.eqb op OperationServiceJournal then Some ["service"; "lines"]
  else None.

Definition check_lines (lines : string) : result request_error () :=
  if String.eqb lines "" then Err ELinesMissing
  else if (4 <? String.length lines)%nat || negb (String.eqb (Trim lines "0123456789") "") then Err ELines
  else match journal_lines lines with
       | Some n => if (n <? 1) || (500 <? n) then Err ELines else Ok tt
       | None => Err ELines
       end.

Definition Validate (r : Request) (now : time_t) : result request_error () :=
  if negb (Version r =? ProtocolVersion) then Err EVersion
  else if negb (requestIDPattern (ID r)) then Err ERequestID
  else if IsZero (Deadline r) || negb (After (Deadline r) now) || After (Deadline r) (Add now (2 * Minute)) then Err EDeadline
  else
    let op := Operation r in
    match allowedParams op with
    | None => Err EOperation
    | Some allowed =>
        if negb (forallb (λ kv, slices_Contains allowed kv.1) (map_to_list (Params r))) then Err EParam
        else if (String.eqb op OperationServiceStatus || String.eqb op OperationServiceJournal) && negb (servicePattern (param r "service"))
        then Err EService
        else if String.eqb op OperationServiceJournal then check_lines (param r "lines")
        else Ok tt
    end.

(** ** Identities *)

Definition NodeURIScheme : string := "spiffe".
Definition NodeTrustDomain : string := "vctl.local".
Definition hostPrefix : string := NodeURIScheme +:+ "://" +:+ NodeTrustDomain +:+ "/node/".
Definition vmPrefix : string := NodeURIScheme +:+ "://" +:+ NodeTrustDomain +:+ "/vm/".

Inductive identity_error := EHostname | EUUID | ENoCert | EMultiple | EInvalidVM | ENoIdentity.

Definition NodeURI (hostname : string) : result identity_error string :=
  if hostnamePattern hostname then Ok (hostPrefix +:+ hostname) else Err EHostname.

Definition lower_uuid (s : string) : bool := novaUUIDPattern s && String.eqb s (ToLower s).

Definition VMURI (instanceUUID : string) : result identity_error string :=
  if lower_uuid instanceUUID then Ok (vmPrefix +:+ instanceUUID) else Err EUUID.

(** A certificate is the texts of its URI SANs; [None] is a nil certificate. *)
Definition Certificate : Type := list string.

Fixpoint node_identity (uris : list string) (identity : string) : result identity_error string :=
  match uris with
  | [] => Ok identity
  | value :: uris' =>
      if HasPrefix value hostPrefix || HasPrefix value vmPrefix then
        if negb (String.eqb identity "") then Err EMultiple
        else if HasPrefix value vmPrefix then
          let identity := TrimPrefix value vmPrefix in
          if negb (lower_uuid identity) then Err EInvalidVM else node_identity uris' identity
        else node_identity uris' (TrimPrefix value hostPrefix)
      else node_identity uris' identity
  end.

Definition NodeIdentity (cert : option Certificate) : result identity_error string :=
  match cert with
  | None => Err ENoCert
  | Some uris =>
      identity ← node_identity uris "";
      if hostnamePattern identity then Ok identity else Err ENoIdentity
  end.

Fixpoint vm_identity (uris : list string) (identity : string) : result identity_error string :=
  match uris with
  | [] => Ok identity
  | value :: uris' =>
      if HasPrefix value vmPrefix then
        if negb (String.eqb identity "") then Err EMultiple else vm_identity uris' (TrimPrefix value vmPrefix)
      else vm_identity uris' identity
  end.

Definition VMIdentity (cert : option Certificate) : result identity_error string :=
  match cert with
  | None => Err ENoCert
  | Some uris =>
      identity ← vm_identity uris "";
      if lower_uuid identity then Ok identity else Err ENoIdentity
  end.

(** ** Requests an agent accepts *)

Lemma in_cutset_digits c : in_cutset "0123456789" c = is_digit c.
Proof. destruct c as [[] [] [] [] [] [] [] []]; reflexivity. Qed.

Lemma digits_val_total s : ∀ acc, string_all is_digit s = true ↔ is_Some (digits_val s acc).
Proof.
  induction s as [|c s IH]; intros acc; cbn [string_all digits_val]; [by split; [eexists|]|].
  destruct (is_digit c); [apply IH|]. by split; [|intros []].
Qed.

Lemma check_lines_spec l : check_lines l = Ok tt ↔
  ∃ n, digits_val l 0 = Some n ∧ 1 ≤ n ≤ 500 ∧ (0 < String.length l ≤ 4)%nat.
Proof.
  unfold check_lines, journal_lines.
  assert (l = "" ↔ String.length l = 0%nat) as Hlen by (destruct l; cbn; split; done).
  destruct (String.eqb_spec l "") as [Hl|Hl].
  { split; [done|]. intros (n & _ & _ & ?). apply Hlen in Hl. lia. }
  destruct (Nat.ltb_spec 4 (String.length l)) as [H4|H4]; cbn [orb]; [split; [done|]; intros (n & _ & _ & ?); lia|].
  destruct (String.eqb_spec (Trim l "0123456789") "") as [Ht|Ht]; cbn [negb];
    rewrite Trim_nil, (string_all_ext _ _ _ in_cutset_digits), (digits_val_total l 0) in Ht.
  - assert (String.length l ≠ 0%nat) by tauto. destruct Ht as [n ->]. destruct (Z.ltb_spec n 1), (Z.ltb_spec 500 n); cbn [orb];
      (split; [first [done|intros _; exists n; split; [done|lia]]|intros (n' & [= <-] & ? & ?); done || lia]).
  - split; [done|]. intros (n & Hn & _). destruct Ht. by eexists.
Qed.

Lemma forallb_keys (m : gmap string string) (ks : list string) :
  forallb (λ kv, slices_Contains ks kv.1) (map_to_list m) = true ↔ ∀ k v, m !! k = Some v → k ∈ ks.
Proof.
  rewrite forallb_forall. unfold slices_Contains. split.
  - intros H k v Hk. apply elem_of_map_to_list, list_elem_of_In, H in Hk. by apply bool_decide_eq_true in Hk.
  - intros H [k v] Hk%list_elem_of_In%elem_of_map_to_list. apply bool_decide_eq_true. by eapply H.
Qed.

(** A parameter that fits a pattern which refuses the empty text is present. *)
Lemma param_present r k : param r k ≠ "" → Params r !! k = Some (param r k).
Proof. unfold param. by destruct (Params r !! k). Qed.

Lemma service_nonempty s : servicePattern s = true → s ≠ "".
Proof. by intros H ->. Qed.

(** The parameters each operation carries. *)
Inductive params_ok (r : Request) : Prop :=
| PNone : Operation r = OperationHostStatus ∨ Operation r = OperationContainerList → Params r = ∅ → params_ok r
| PService s : Operation r = OperationServiceStatus → servicePattern s = true → Params r = {[ "service" := s ]} → params_ok r
| PJournal s l n : Operation r = OperationServiceJournal → servicePattern s = true →
    digits_val l 0 = Some n → 1 ≤ n ≤ 500 → (0 < String.length l ≤ 4)%nat →
    Params r = <["service" := s]> {[ "lines" := l ]} → params_ok r.

Lemma Validate_complete r now : Version r = ProtocolVersion → requestIDPattern (ID r) = true →
  Deadline r ≠ 0 → now < Deadline r ≤ now + 2 * Minute → params_ok r → Validate r now = Ok tt.
Proof.
  intros Hv Hi H0 Hd Hp. unfold Validate, IsZero, After, Add. rewrite Hi.
  rewrite (proj2 (Z.eqb_eq _ _) Hv), (proj2 (Z.eqb_neq _ _) H0), (proj2 (Z.ltb_lt _ _) (proj1 Hd)), (proj2 (Z.ltb_ge _ _) (proj2 Hd)).
  cbn [negb orb]. cbv zeta. destruct Hp as [[E|E] Hm|s E Hs Hm|s l n E Hs Hn Hr Hl Hm]; rewrite E.
  1,2: unfold allowedParams; cbn [String.eqb orb andb]; by rewrite Hm.
  - change (allowedParams OperationServiceStatus) with (Some ["service"]); cbv beta iota.
    rewrite (proj2 (forallb_keys _ _)); [|by rewrite Hm; intros k v [<- _]%lookup_singleton_Some; left].
    unfold param. rewrite Hm, lookup_singleton_eq. cbn [default id]. by rewrite Hs.
  - change (allowedParams OperationServiceJournal) with (Some ["service"; "lines"]); cbv beta iota.
    rewrite (proj2 (forallb_keys _ _)).
    + unfold param. rewrite Hm, lookup_insert_eq, lookup_insert_ne, lookup_singleton_eq by done. cbn [default id]. rewrite Hs.
      cbn [negb]. rewrite andb_false_r. apply check_lines_spec. eauto.
    + rewrite Hm. intros k v [[<- _]|[_ [<- _]%lookup_singleton_Some]]%lookup_insert_Some; set_solver.
Qed.

Lemma Validate_sound r now : Validate r now = Ok tt →
  Version r = ProtocolVersion ∧ requestIDPattern (ID r) = true ∧ Deadline r ≠ 0 ∧ now < Deadline r ≤ now + 2 * Minute ∧ params_ok r.
Proof.
  unfold Validate. destruct (negb (Version r =? ProtocolVersion)) eqn:Hv; [done|].
  destruct (negb (requestIDPattern (ID r))) eqn:Hi; [done|].
  destruct (IsZero (Deadline r) || negb (After (Deadline r) now) || After (Deadline r) (Add now (2 * Minute))) eqn:Hd; [done|].
  cbv zeta. destruct (allowedParams (Operation r)) as [allowed|] eqn:Ha; [|done].
  destruct (forallb (λ kv, slices_Contains allowed kv.1) (map_to_list (Params r))) eqn:Hf; cbn [negb]; [|done].
  destruct ((_ || _) && negb (servicePattern (param r "service"))) eqn:Hs; [done|]. intros Hl.
  unfold IsZero, After, Add in Hd. bool_simpl. rewrite forallb_keys in Hf. split_and!; try done.
  unfold allowedParams in Ha.
  destruct (String.eqb_spec (Operation r) OperationHostStatus) as [E|_]; [|
  destruct (String.eqb_spec (Operation r) OperationContainerList) as [E|_]; [|
  destruct (String.eqb_spec (Operation r) OperationServiceStatus) as [E|_]; [|
  destruct (String.eqb_spec (Operation r) OperationServiceJournal) as [E|_]; [|done]]]]; injection Ha as <-.
  1,2: apply PNone; [tauto|]; apply map_empty; intros k; apply eq_None_not_Some; intros [v Hk]; apply Hf in Hk; by apply not_elem_of_nil in Hk.
  all: cbn [orb andb] in Hs; apply negb_false_iff in Hs; pose proof (param_present r _ (service_nonempty _ Hs)) as Hps.
  - apply (PService r (param r "service")); try done. apply map_eq. intros k.
    destruct (decide (k = "service")) as [->|Hk]; [by rewrite lookup_singleton_eq|].
    rewrite lookup_singleton_ne by done. apply eq_None_not_Some. intros [v Hv']. apply Hf in Hv'. set_solver.
  - apply check_lines_spec in Hl as (n & Hn & Hr & Hlen).
    assert (param r "lines" ≠ "") as Hne by (intros Hx; rewrite Hx in Hlen; cbn in Hlen; lia). apply param_present in Hne.
    apply (PJournal r (param r "service") (param r "lines") n); try done. apply map_eq. intros k.
    destruct (decide (k = "service")) as [->|Hk1]; [by rewrite lookup_insert_eq|].
    rewrite lookup_insert_ne by done. destruct (decide (k = "lines")) as [->|Hk2]; [by rewrite lookup_singleton_eq|].
    rewrite lookup_singleton_ne by done. apply eq_None_not_Some. intros [v Hv']. apply Hf in Hv'. set_solver.
Qed.

(** An agent is sent nothing else.  A request is accepted exactly when it
    speaks this version, has a well-formed id and a deadline in the next two
    minutes, and asks for one of four operations with exactly its parameters:
    none, a unit name, or a unit name and a line count from 1 to 500 in at most
    four digits.  A shell session is never accepted here. *)
Theorem Validate_exact r now :
  (Validate r now = Ok tt ↔
   Version r = ProtocolVersion ∧ requestIDPattern (ID r) = true ∧ Deadline r ≠ 0 ∧
   now < Deadline r ≤ now + 2 * Minute ∧ params_ok r) ∧
  (Operation r = OperationShellSession → is_ok (Validate r now) = false).
Proof.
  split.
  - split; [apply Validate_sound|]. intros (? & ? & ? & ? & ?). by apply Validate_complete.
  - intros E. destruct (Validate r now) as [[]|] eqn:Hv; [|done].
    apply Validate_sound in Hv as (_ & _ & _ & _ & [[H|H] _|s H _ _|s l n H _ _ _ _ _]); by rewrite E in H.
Qed.

(** ** Identities a certificate proves *)

Lemma fits_alnum template : string_all (λ t, Ascii.eqb t "x" || Ascii.eqb t "-") template = true → ∀ s, fits template s = true →
  String.length s = String.length template ∧ string_all (in_set ".-") s = true.
Proof.
  induction template as [|t template IH]; intros Ht [|c s] Hf; cbn in *; try done. bool_simpl.
  destruct (IH ltac:(done) s ltac:(done)) as [-> ->]. split; [done|]. rewrite andb_true_r.
  destruct (Ascii.eqb_spec t "x") as [->|Hx].
  - unfold in_set, is_alnum. unfold is_hex in *. destruct c as [[] [] [] [] [] [] [] []]; done.
  - cbn [orb] in *. repeat match goal with H : Ascii.eqb _ _ = true |- _ => apply Ascii.eqb_eq in H; subst end. done.
Qed.

Lemma uuid_hostname i : novaUUIDPattern i = true → hostnamePattern i = true.
Proof.
  intros H. destruct i as [|c s]; [done|]. pose proof (fits_alnum uuid_template eq_refl _ H) as [Hl Ha].
  cbn [hostnamePattern head_then string_all] in *. apply andb_true_iff in Ha as [_ Ha].
  unfold hostnamePattern, head_then. rewrite Ha. cbn [String.length] in Hl. injection Hl as ->. rewrite andb_true_r. cbn [andb].
  unfold novaUUIDPattern, uuid_template in H. cbn [fits Ascii.eqb] in H. apply andb_true_iff in H as [H _]. cbn in H.
  unfold is_hex, is_alnum in *. by destruct c as [[] [] [] [] [] [] [] []].
Qed.

Lemma prefix_split v p : HasPrefix v p = true → v = p +:+ TrimPrefix v p.
Proof. intros H. apply HasPrefix_inv in H as [t ->]. by rewrite TrimPrefix_app. Qed.

Lemma node_identity_sound uris : ∀ acc i, node_identity uris acc = Ok i →
  i = acc ∨ hostPrefix +:+ i ∈ uris ∨ (vmPrefix +:+ i ∈ uris ∧ lower_uuid i = true).
Proof.
  induction uris as [|v uris IH]; intros acc i; cbn [node_identity]; [intros [= <-]; by left|].
  destruct (HasPrefix v hostPrefix) eqn:Hh, (HasPrefix v vmPrefix) eqn:Hv; cbn [orb];
    repeat case_if; intros H; try done; bool_simpl; apply IH in H as [->|[?|[? ?]]];
    try (right; left; by right); try (right; right; split; [by right|done]); try (by left).
  - right; right. split; [|done]. rewrite <-(prefix_split v vmPrefix) by done. by left.
  - right; left. rewrite <-(prefix_split v hostPrefix) by done. by left.
  - right; right. split; [|done]. rewrite <-(prefix_split v vmPrefix) by done. by left.
Qed.

Lemma vm_identity_sound uris : ∀ acc i, vm_identity uris acc = Ok i → i = acc ∨ vmPrefix +:+ i ∈ uris.
Proof.
  induction uris as [|v uris IH]; intros acc i; cbn [vm_identity]; [intros [= <-]; by left|].
  destruct (HasPrefix v vmPrefix) eqn:Hv; [case_if; [done|]|]; intros H; apply IH in H as [->|?]; try (right; by right); [|by left].
  right. rewrite <-(prefix_split v vmPrefix) by done. by left.
Qed.

Lemma hostname_nonempty h : hostnamePattern h = true → h ≠ "".
Proof. by intros H ->. Qed.

(** C37. Certificates prove the name they were issued for.  The URI made for a
    host or for a VM reads back as that name; a VM identity is only ever taken
    from a VM URI of the certificate, and any identity from one of its URIs.
    But the two name spaces meet in the answer: a host named like a VM's UUID
    and that VM give the same identity, of kind "vm"; and an empty name before
    a real one is not counted as a second identity. *)
Theorem identities_roundtrip h i uris :
  (∀ u, NodeURI h = Ok u → NodeIdentity (Some [u]) = Ok h ∧ is_ok (VMIdentity (Some [u])) = false ∧
     NodeIdentity (Some [hostPrefix; u]) = Ok h) ∧
  (∀ u, VMURI i = Ok u → VMIdentity (Some [u]) = Ok i ∧ NodeIdentity (Some [u]) = Ok i) ∧
  (∀ x, VMIdentity (Some uris) = Ok x → lower_uuid x = true ∧ vmPrefix +:+ x ∈ uris) ∧
  (∀ x, NodeIdentity (Some uris) = Ok x → hostnamePattern x = true ∧
     (hostPrefix +:+ x ∈ uris ∨ vmPrefix +:+ x ∈ uris ∧ lower_uuid x = true)) ∧
  (lower_uuid i = true → ∃ u u', NodeURI i = Ok u ∧ VMURI i = Ok u' ∧ u ≠ u' ∧
     NodeIdentity (Some [u]) = NodeIdentity (Some [u']) ∧ TargetKind i = "vm").
Proof.
  assert (∀ x, lower_uuid x = true → novaUUIDPattern x = true ∧ hostnamePattern x = true) as Hlow.
  { intros x Hx. unfold lower_uuid in Hx. bool_simpl. split; [done|]. by apply uuid_hostname. }
  assert (∀ x, hostnamePattern x = true → NodeIdentity (Some [hostPrefix +:+ x]) = Ok x) as Hhost.
  { intros x Hx. unfold NodeIdentity, node_identity. rewrite HasPrefix_app. cbn [orb]. rewrite TrimPrefix_app.
    change (HasPrefix (hostPrefix +:+ x) vmPrefix) with false. cbn [String.eqb negb mbind result_bind]. by rewrite Hx. }
  assert (∀ x, lower_uuid x = true → NodeIdentity (Some [vmPrefix +:+ x]) = Ok x) as Hvm.
  { intros x Hx. destruct (Hlow x Hx) as [_ Hh]. unfold NodeIdentity, node_identity. rewrite HasPrefix_app, TrimPrefix_app, Hx.
    rewrite orb_true_r. cbn [String.eqb negb mbind result_bind]. by rewrite Hh. }
  split_and!.
  - intros u. unfold NodeURI. case_if; [|done]. intros [= <-]. split_and!; [by apply Hhost|done|].
    specialize (Hhost h Heqb). unfold NodeIdentity in *. exact Hhost.
  - intros u. unfold VMURI. case_if; [|done]. intros [= <-]. split; [|by apply Hvm].
    unfold VMIdentity, vm_identity. rewrite HasPrefix_app, TrimPrefix_app. cbn [String.eqb negb mbind result_bind]. by rewrite Heqb.
  - intros x. unfold VMIdentity. intros H. apply bind_Ok in H as (y & Hy & H). destruct (lower_uuid y) eqn:Hlu; [|done]. injection H as <-.
    split; [done|]. apply vm_identity_sound in Hy as [->|?]; [done|done].
  - intros x. unfold NodeIdentity. intros H. apply bind_Ok in H as (y & Hy & H). destruct (hostnamePattern y) eqn:Hhp; [|done]. injection H as <-.
    split; [done|]. apply node_identity_sound in Hy as [->|?]; [done|done].
  - intros Hi. destruct (Hlow i Hi) as [Hu Hh]. unfold NodeURI, VMURI, TargetKind. rewrite Hh, Hi, Hu.
    eexists _, _. split; [done|]. split; [done|]. split; [done|]. split; [|done]. by rewrite Hhost, Hvm.
Qed.
