(* ===== verification/WgParse.v ===== *)
(** Reading a WireGuard gateway (internal/wireguard parse.go, collect.go): the
    text of [wg show all dump] and [ip addr] to rows, the private and preshared
    keys dropped on the way, and the collection of many gateways. *)

From Stdlib Require Import Ascii String DecimalString.
From S2P Require Import Prelude GoStrings.

Definition newline : ascii := Ascii.ascii_of_nat 10.
Definition tab : ascii := Ascii.ascii_of_nat 9.
Definition cr : ascii := Ascii.ascii_of_nat 13.

(** ** Rows *)

Record ParsedIface := { Name : string; PublicKey : string; ListenPort : Z; Fwmark : Z }.
Record ParsedPeer := {
  p_Iface : string; PubKey : string; Endpoint : string; AllowedIPs : list string;
  Handshake : Z; Rx : Z; Tx : Z; Keepalive : Z;
}.

Record WGInterface := {
  i_Host : string; i_Iface : string; i_ListenPort : Z; i_PublicKey : string; i_Fwmark : Z; i_Address : list string;
}.
Record WGPeer := {
  w_Host : string; w_Iface : string; PeerPubKey : string; w_Endpoint : string; w_AllowedIPs : list string; w_Keepalive : Z;
}.
(** A nil handshake is [None]; a time is its Unix seconds. *)
Record WGPeerStatus := {
  s_Host : string; s_Iface : string; s_PeerPubKey : string; LatestHandshake : option Z; RxBytes : Z; TxBytes : Z;
}.

(** ** Fields *)

Definition noneToEmpty (s : string) : string := if String.eqb s "(none)" then "" else s.
Definition atoiSafe (s : string) : Z := (Atoi (TrimSpace s)).1.
Definition atoi64Safe (s : string) : Z := (ParseInt10 (TrimSpace s)).1.

Definition parseKeepalive (s : string) : Z :=
  if String.eqb s "off" || String.eqb s "" then 0 else atoiSafe s.

Definition parseFwmark (s : string) : Z :=
  if String.eqb s "off" || String.eqb s "" then 0
  else match ParseInt0 s with (n, None) => n | (_, Some _) => 0 end.

Definition parseAllowedIPs (s : string) : list string :=
  if String.eqb (noneToEmpty s) "" then []
  else filter (λ p, p ≠ "") (TrimSpace <$> Split s ",").

(** ** The dump *)

Inductive parsed := PIface (i : ParsedIface) | PPeer (p : ParsedPeer).

Definition field (f : list string) (i : nat) : string := default "" (f !! i).

Definition parse_fields (f : list string) : option parsed :=
  if (length f =? 5)%nat then
    Some (PIface {| Name := field f 0; PublicKey := field f 2; ListenPort := atoiSafe (field f 3);
                    Fwmark := parseFwmark (field f 4) |})
  else if (8 <=? length f)%nat then
    Some (PPeer {| p_Iface := field f 0; PubKey := field f 1; Endpoint := noneToEmpty (field f 3);
                   AllowedIPs := parseAllowedIPs (field f 4); Handshake := atoi64Safe (field f 5);
                   Rx := atoi64Safe (field f 6); Tx := atoi64Safe (field f 7);
                   Keepalive := if (9 <=? length f)%nat then parseKeepalive (field f 8) else 0 |})
  else None.

Definition parse_line (line : string) : option parsed :=
  let line := TrimRightFunc (Ascii.eqb cr) line in
  if String.eqb (TrimSpace line) "" then None else parse_fields (Split line tab).

Definition add_parsed (acc : list ParsedIface * list ParsedPeer) (line : string) : list ParsedIface * list ParsedPeer :=
  match parse_line line with
  | Some (PIface i) => (acc.1 ++ [i], acc.2)
  | Some (PPeer p) => (acc.1, acc.2 ++ [p])
  | None => acc
  end.

Definition ParseDump (dump : string) : list ParsedIface * list ParsedPeer :=
  foldl add_parsed ([], []) (Split dump newline).

(** ** Addresses *)

Fixpoint inet_values (f : list string) : list string :=
  match f with
  | x :: (y :: _) as rest =>
      (if String.eqb x "inet" || String.eqb x "inet6" then [y] else []) ++ inet_values rest
  | _ => []
  end.

Definition add_addrs (m : gmap string (list string)) (line : string) : gmap string (list string) :=
  let f := Fields line in
  if (length f <? 4)%nat then m
  else
    let iface := TrimSuffix (field f 1) ":" in
    foldl (λ m a, <[iface := default [] (m !! iface) ++ [a]]> m) m (inet_values f).

Definition parseIfaceAddrs (ipOut : string) : gmap string (list string) :=
  foldl add_addrs ∅ (Split ipOut newline).

(** ** A host's rows *)

Definition status_row (host : string) (p : ParsedPeer) : WGPeerStatus :=
  {| s_Host := host; s_Iface := p_Iface p; s_PeerPubKey := PubKey p;
     LatestHandshake := if 0 <? Handshake p then Some (Handshake p) else None; RxBytes := Rx p; TxBytes := Tx p |}.

Definition ParseCollect (host out : string) : list WGInterface * list WGPeer * list WGPeerStatus :=
  let '(dumpPart, addrPart) := match Cut out "@@ADDR@@" with Some (a, b) => (a, b) | None => (out, "") end in
  let '(pIfaces, pPeers) := ParseDump dumpPart in
  let addrs := parseIfaceAddrs addrPart in
  ((λ i, {| i_Host := host; i_Iface := Name i; i_ListenPort := ListenPort i; i_PublicKey := PublicKey i;
            i_Fwmark := Fwmark i; i_Address := default [] (addrs !! Name i) |}) <$> pIfaces,
   (λ p, {| w_Host := host; w_Iface := p_Iface p; PeerPubKey := PubKey p; w_Endpoint := Endpoint p;
            w_AllowedIPs := AllowedIPs p; w_Keepalive := Keepalive p |}) <$> pPeers,
   status_row host <$> pPeers).

(** ** Collecting many hosts *)

Definition error : Type := string.

Record HostResult := { r_Host : string; Interfaces : Z; Peers : Z; NoWireGuard : bool; Err_ : option error }.

Record Report := {
  Probed : Z; WithWG : Z; rep_Interfaces : Z; rep_Peers : Z; Skipped : Z; Failed : Z; Results : list HostResult;
}.

Definition rows : Type := list WGInterface * list WGPeer * list WGPeerStatus.

(** One host: its result, and the rows handed to [Save], if any. *)
Definition collectOne (run : string → result error string) (save : option (string → rows → option error)) (h : string)
    : HostResult * option rows :=
  match run h with
  | Err e => ({| r_Host := h; Interfaces := 0; Peers := 0; NoWireGuard := false; Err_ := Some e |}, None)
  | Ok out =>
      let r := ParseCollect h out in
      let '(ifaces, peers, _) := r in
      if (length ifaces =? 0)%nat then
        ({| r_Host := h; Interfaces := 0; Peers := 0; NoWireGuard := true; Err_ := None |}, None)
      else
        let ok := {| r_Host := h; Interfaces := Z.of_nat (length ifaces); Peers := Z.of_nat (length peers);
                     NoWireGuard := false; Err_ := None |} in
        match save with
        | None => (ok, None)
        | Some sv =>
            match sv h r with
            | Some e => ({| r_Host := h; Interfaces := 0; Peers := 0; NoWireGuard := false; Err_ := Some ("store: " +:+ e) |}, Some r)
            | None => (ok, Some r)
            end
        end
  end.

(** The critical section each goroutine enters once. *)
Definition tally_result (rep : Report) (res : HostResult) : Report :=
  match Err_ res with
  | Some _ =>
      {| Probed := Probed rep; WithWG := WithWG rep; rep_Interfaces := rep_Interfaces rep; rep_Peers := rep_Peers rep;
         Skipped := Skipped rep; Failed := Failed rep + 1; Results := Results rep ++ [res] |}
  | None =>
      if NoWireGuard res then
        {| Probed := Probed rep; WithWG := WithWG rep; rep_Interfaces := rep_Interfaces rep; rep_Peers := rep_Peers rep;
           Skipped := Skipped rep + 1; Failed := Failed rep; Results := Results rep ++ [res] |}
      else
        {| Probed := Probed rep; WithWG := WithWG rep + 1; rep_Interfaces := rep_Interfaces rep + Interfaces res;
           rep_Peers := rep_Peers rep + Peers res; Skipped := Skipped rep; Failed := Failed rep;
           Results := Results rep ++ [res] |}
  end.

(** [finish] is the order in which the goroutines get there. *)
Definition Collect (run : string → result error string) (save : option (string → rows → option error))
    (hosts finish : list string) : Report :=
  foldl (λ rep h, tally_result rep (collectOne run save h).1)
    {| Probed := Z.of_nat (length hosts); WithWG := 0; rep_Interfaces := 0; rep_Peers := 0; Skipped := 0; Failed := 0;
       Results := [] |} finish.

(** ** What wg prints

    A dump as [wg show all dump] writes it, secrets included. *)

Record iface_line := { d_name : string; d_private : string; d_public : string; d_port : Z; d_fwmark : string }.
Record peer_line := {
  e_iface : string; e_public : string; e_preshared : string; e_endpoint : option string; e_allowed : list string;
  e_handshake : Z; e_rx : Z; e_tx : Z; e_keepalive : option Z;
}.
Inductive dump_line := DIface (i : iface_line) | DPeer (p : peer_line).

Definition or_none (o : option string) : string := default "(none)" o.

Definition fields_of (l : dump_line) : list string :=
  match l with
  | DIface i => [d_name i; d_private i; d_public i; Itoa (d_port i); d_fwmark i]
  | DPeer p =>
      [e_iface p; e_public p; e_preshared p; or_none (e_endpoint p);
       match e_allowed p with [] => "(none)" | ips => Join ips "," end;
       Itoa (e_handshake p); Itoa (e_rx p); Itoa (e_tx p);
       match e_keepalive p with Some k => Itoa k | None => "off" end]
  end.

Definition render_line (l : dump_line) : string := Join (fields_of l) (String tab EmptyString).
Definition render (ls : list dump_line) : string := Join ((render_line <$> ls) ++ [""]) (String newline EmptyString).

(** The row a line stands for: no field of it is a secret. *)
Definition expected_row (l : dump_line) : parsed :=
  match l with
  | DIface i => PIface {| Name := d_name i; PublicKey := d_public i; ListenPort := d_port i; Fwmark := parseFwmark (d_fwmark i) |}
  | DPeer p => PPeer {| p_Iface := e_iface p; PubKey := e_public p; Endpoint := default "" (e_endpoint p); AllowedIPs := e_allowed p;
                        Handshake := e_handshake p; Rx := e_rx p; Tx := e_tx p; Keepalive := default 0 (e_keepalive p) |}
  end.

Definition line_ok (l : dump_line) : Prop :=
  match l with
  | DIface i => name (d_name i) ∧ word (d_private i) ∧ word (d_public i) ∧ in_int64 (d_port i) ∧ word (d_fwmark i)
  | DPeer p =>
      name (e_iface p) ∧ word (e_public p) ∧ word (e_preshared p) ∧
      (∀ e, e_endpoint p = Some e → name e ∧ e ≠ "(none)") ∧
      Forall (λ a, name a ∧ lacks "," a = true ∧ a ≠ "(none)") (e_allowed p) ∧
      in_int64 (e_handshake p) ∧ in_int64 (e_rx p) ∧ in_int64 (e_tx p) ∧ (∀ k, e_keepalive p = Some k → in_int64 k)
  end.

Lemma atoi64Safe_Itoa z : in_int64 z → atoi64Safe (Itoa z) = z.
Proof. intros H. unfold atoi64Safe. rewrite word_TrimSpace by apply word_Itoa. by rewrite ParseInt10_Itoa. Qed.

Lemma atoiSafe_Itoa z : in_int64 z → atoiSafe (Itoa z) = z.
Proof. apply atoi64Safe_Itoa. Qed.

Lemma parseKeepalive_Itoa z : in_int64 z → parseKeepalive (Itoa z) = z.
Proof.
  intros H. unfold parseKeepalive. rewrite (proj2 (String.eqb_neq (Itoa z) "off")) by by apply Itoa_not.
  rewrite (proj2 (String.eqb_neq (Itoa z) "")) by by apply Itoa_not. by apply atoiSafe_Itoa.
Qed.

Lemma Join_nonempty w ws sep : w ≠ "" → Join (w :: ws) sep ≠ "".
Proof. destruct ws, w; done. Qed.

Lemma name_Join_not_none ips : Forall (λ a, name a ∧ lacks "," a = true ∧ a ≠ "(none)") ips → ips ≠ [] → noneToEmpty (Join ips ",") = Join ips ",".
Proof.
  intros H Hne. unfold noneToEmpty. destruct (String.eqb_spec (Join ips ",") "(none)") as [E|]; [|done]. exfalso.
  assert (Split (Join ips ",") "," = ips) as Hs.
  { apply Split_Join; [done|]. eapply Forall_impl; [exact H|]. by intros a (_ & ? & _). }
  rewrite E in Hs. cbn in Hs. subst ips. apply Forall_inv in H as (_ & _ & H). done.
Qed.

Lemma parseAllowedIPs_render ips : Forall (λ a, name a ∧ lacks "," a = true ∧ a ≠ "(none)") ips →
  parseAllowedIPs (match ips with [] => "(none)" | _ => Join ips "," end) = ips.
Proof.
  intros H. destruct ips as [|a ips]; [done|]. unfold parseAllowedIPs. rewrite name_Join_not_none by done.
  pose proof (Forall_inv H) as ((_ & Ha) & _).
  rewrite (proj2 (String.eqb_neq _ _) (Join_nonempty a ips "," Ha)).
  change "," with (String "," EmptyString). rewrite Split_Join; [|done|].
  - clear Ha. induction H as [|b l ((Hb & Hb') & _) _ IH]; [done|]. csimpl. rewrite list.filter_cons, word_TrimSpace by done.
    rewrite decide_True by done. by rewrite IH.
  - eapply Forall_impl; [exact H|]. by intros b (_ & ? & _).
Qed.

Lemma fields_words l : line_ok l → Forall word (fields_of l).
Proof.
  assert (word "(none)") as Hn by done. assert (word "off") as Ho by done.
  destruct l as [i|p]; cbn [line_ok fields_of].
  - intros ((Hname & _) & Hpriv & Hpub & _ & Hfw). repeat (constructor; [done || apply word_Itoa|]). constructor.
  - intros ((Hif & _) & Hpub & Hpsk & Hend & Hal & _ & _ & _ & _).
    repeat (constructor; [try (done || apply word_Itoa)|]); [..|constructor].
    + destruct (e_endpoint p) as [e|]; [|done]. by destruct (Hend e eq_refl) as [[? _] _].
    + destruct (e_allowed p) as [|a ips]; [done|]. apply string_all_Join; [|done].
      eapply Forall_impl; [exact Hal|]. by intros b ((? & _) & _).
    + destruct (e_keepalive p); [apply word_Itoa|done].
Qed.

Lemma fields_head l : line_ok l → ∃ c s fs, fields_of l = String c s :: fs ∧ visible c = true.
Proof.
  assert (∀ s fs, name s → ∃ c s' fs', s :: fs = String c s' :: fs' ∧ visible c = true) as Hn.
  { intros [|c s] fs [Hw Hne]; [done|]. exists c, s, fs. split; [done|]. unfold word in Hw. cbn in Hw. by apply andb_true_iff in Hw as [? _]. }
  destruct l as [i|p]; cbn [line_ok fields_of]; intros (Hname & _); by apply Hn.
Qed.

(** A rendered line is visible bytes and tabs, and starts with a visible one. *)
Lemma render_line_shape l : line_ok l →
  Split (render_line l) tab = fields_of l ∧ lacks newline (render_line l) = true ∧
  TrimRightFunc (Ascii.eqb cr) (render_line l) = render_line l ∧ TrimSpace (render_line l) ≠ "".
Proof.
  intros Hl. pose proof (fields_words l Hl) as Hw. destruct (fields_head l Hl) as (c & s & fs & Hfs & Hc).
  assert (∀ p, (∀ d, visible d = true → p d = true) → p tab = true → string_all p (render_line l) = true) as Hall.
  { intros p Hp Ht. apply string_all_Join; [|cbn; by rewrite Ht]. eapply Forall_impl; [exact Hw|]. intros w. by apply string_all_impl. }
  unfold render_line in *. split_and!.
  - apply Split_Join; [by rewrite Hfs|]. eapply Forall_impl; [exact Hw|]. intros w. by apply word_lacks.
  - apply Hall; [|done]. intros d Hd. by rewrite (visible_not newline d).
  - apply TrimRightFunc_id, Hall; [|done]. intros d Hd. by rewrite Ascii.eqb_sym, (visible_not cr d).
  - unfold TrimSpace. rewrite TrimFunc_nil. rewrite Hfs. intros Hsp.
    assert (is_space c = true) as Hx.
    { destruct fs; cbn in Hsp; by apply andb_true_iff in Hsp as [? _]. }
    clear -Hc Hx. destruct c as [[] [] [] [] [] [] [] []]; try discriminate Hx; discriminate Hc.
Qed.

Lemma parse_line_render l : line_ok l → parse_line (render_line l) = Some (expected_row l).
Proof.
  intros Hl. destruct (render_line_shape l Hl) as (Hs & _ & Ht & Hne). unfold parse_line.
  rewrite Ht, (proj2 (String.eqb_neq _ _) Hne), Hs. destruct l as [i|p]; cbn [line_ok fields_of expected_row] in *.
  - destruct Hl as (_ & _ & _ & Hp & _). cbn. by rewrite atoiSafe_Itoa.
  - destruct Hl as (_ & _ & _ & Hend & Hal & Hh & Hr & Htx & Hk).
    cbn -[Join Itoa parseAllowedIPs atoi64Safe parseKeepalive noneToEmpty].
    pose proof (parseAllowedIPs_render (e_allowed p) Hal) as Hips. rewrite !atoi64Safe_Itoa by done.
    replace (parseAllowedIPs _) with (e_allowed p) by (by destruct (e_allowed p)). do 3 f_equal.
    + destruct (e_endpoint p) as [e|]; [|done]. destruct (Hend e eq_refl) as [_ Hx]. unfold noneToEmpty. cbn.
      by rewrite (proj2 (String.eqb_neq _ _) Hx).
    + destruct (e_keepalive p) as [k|]; [by apply parseKeepalive_Itoa, Hk|done].
Qed.

Lemma add_parsed_rows ls acc : foldl add_parsed acc ls =
  (acc.1 ++ omap (λ l, match parse_line l with Some (PIface i) => Some i | _ => None end) ls,
   acc.2 ++ omap (λ l, match parse_line l with Some (PPeer p) => Some p | _ => None end) ls).
Proof.
  revert acc. induction ls as [|l ls IH]; intros [is_ ps]; cbn [foldl]; [by cbn; rewrite !app_nil_r|].
  rewrite IH. unfold add_parsed. cbn [omap list_omap fst snd]. destruct (parse_line l) as [[i|p]|]; cbn [fst snd]; by rewrite <-?(assoc_L (++)).
Qed.

(** A dump is read back without its secrets.  What [wg show all dump] prints for any
    interfaces and peers is parsed to exactly their rows, in order, with every
    counter, key, address and mark, and two dumps that differ only in private
    and preshared keys give the same rows. *)
Theorem ParseDump_render ls :
  Forall line_ok ls →
  ParseDump (render ls) =
    (omap (λ l, match expected_row l with PIface i => Some i | PPeer _ => None end) ls,
     omap (λ l, match expected_row l with PPeer p => Some p | PIface _ => None end) ls) ∧
  (∀ ls', Forall line_ok ls' → expected_row <$> ls' = expected_row <$> ls → ParseDump (render ls') = ParseDump (render ls)).
Proof.
  assert (∀ ls, Forall line_ok ls → ParseDump (render ls) =
    (omap (λ l, match expected_row l with PIface i => Some i | PPeer _ => None end) ls,
     omap (λ l, match expected_row l with PPeer p => Some p | PIface _ => None end) ls)) as Hr.
  { clear ls. intros ls H. unfold ParseDump, render. rewrite Split_Join; [|by destruct ls|].
    - rewrite add_parsed_rows, !omap_app. cbn [fst snd app]. cbn [omap list_omap]. rewrite !app_nil_r.
      induction H as [|l ls Hl _ IH]; [done|]. injection IH as IH1 IH2. cbn [fmap list_fmap omap list_omap].
      rewrite (parse_line_render l Hl), IH1, IH2. by destruct (expected_row l).
    - apply Forall_app. split; [|by repeat constructor]. apply Forall_fmap. eapply Forall_impl; [exact H|].
      intros l Hl. by destruct (render_line_shape l Hl) as (_ & ? & _). }
  intros H. split; [by apply Hr|]. intros ls' H' E. rewrite !Hr by done. clear -E.
  revert ls E. induction ls' as [|l' ls' IH]; intros [|l ls] E; try done. injection E as E1 E2. apply IH in E2. injection E2 as E2 E3.
  cbn [omap list_omap]. by rewrite E1, E2, E3.
Qed.

(** ** Collecting *)

Definition sum_of (f : HostResult → Z) (l : list HostResult) : Z := foldr (λ r acc, f r + acc) 0 l.
Definition one (b : bool) : Z := if b then 1 else 0.
Definition failed (r : HostResult) : bool := bool_decide (is_Some (Err_ r)).
Definition gateway (r : HostResult) : bool := negb (failed r) && negb (NoWireGuard r).

Lemma sum_of_app f l1 l2 : sum_of f (l1 ++ l2) = sum_of f l1 + sum_of f l2.
Proof. induction l1 as [|r l1 IH]; csimpl; [done|]. unfold sum_of in *. cbn. rewrite IH. lia. Qed.

#[export] Instance sum_of_proper f : Proper ((≡ₚ) ==> (=)) (sum_of f).
Proof. intros l1 l2 H. induction H; unfold sum_of in *; cbn; lia. Qed.

Lemma tally_spec rs : ∀ rep, let rep' := foldl tally_result rep rs in
  Probed rep' = Probed rep ∧ Results rep' = Results rep ++ rs ∧
  Failed rep' = Failed rep + sum_of (λ r, one (failed r)) rs ∧
  Skipped rep' = Skipped rep + sum_of (λ r, one (negb (failed r) && NoWireGuard r)) rs ∧
  WithWG rep' = WithWG rep + sum_of (λ r, one (gateway r)) rs ∧
  rep_Interfaces rep' = rep_Interfaces rep + sum_of (λ r, if gateway r then Interfaces r else 0) rs ∧
  rep_Peers rep' = rep_Peers rep + sum_of (λ r, if gateway r then Peers r else 0) rs.
Proof.
  induction rs as [|r rs IH]; intros rep; cbn [foldl].
  { cbn. rewrite app_nil_r. split_and!; done || lia. }
  destruct (IH (tally_result rep r)) as (-> & -> & -> & -> & -> & -> & ->).
  unfold tally_result, sum_of, gateway, failed, one. cbn [foldr].
  destruct (Err_ r) as [e|]; [rewrite bool_decide_true by eauto|rewrite bool_decide_false by (by intros [])];
    [|destruct (NoWireGuard r)]; cbn; rewrite <-(assoc_L (++)); split_and!; done || lia.
Qed.

(** Collecting is a sum over hosts.  Whatever order the hosts finish in, the
    report's counts are the same and account for every host once, as a gateway,
    without WireGuard, or failed; its results are the hosts' own, one each; and
    a host that answers without interfaces never has its rows replaced. *)
Theorem Collect_any_order run save hosts finish finish' :
  finish ≡ₚ hosts → finish' ≡ₚ hosts →
  let r := Collect run save hosts finish in let r' := Collect run save hosts finish' in
  (Probed r, WithWG r, rep_Interfaces r, rep_Peers r, Skipped r, Failed r) =
    (Probed r', WithWG r', rep_Interfaces r', rep_Peers r', Skipped r', Failed r') ∧
  Results r ≡ₚ (λ h, (collectOne run save h).1) <$> hosts ∧
  Probed r = WithWG r + Skipped r + Failed r ∧ Probed r = Z.of_nat (length hosts) ∧
  (∀ h w, (collectOne run save h).2 = Some w → w.1.1 ≠ [] ∧ ∃ out, run h = Ok out ∧ w = ParseCollect h out).
Proof.
  intros Hf Hf'. assert (∀ fin, Collect run save hosts fin = foldl tally_result
    {| Probed := Z.of_nat (length hosts); WithWG := 0; rep_Interfaces := 0; rep_Peers := 0; Skipped := 0; Failed := 0; Results := [] |}
    ((λ h, (collectOne run save h).1) <$> fin)) as Hc.
  { intros fin. unfold Collect. generalize {| Probed := Z.of_nat (length hosts); WithWG := 0; rep_Interfaces := 0; rep_Peers := 0; Skipped := 0; Failed := 0; Results := [] |}.
    induction fin as [|h fin IH]; intros rep; cbn; [done|]. apply IH. }
  cbv zeta. rewrite !Hc. set (rep0 := {| Probed := _ |}). 
  destruct (tally_spec ((λ h, (collectOne run save h).1) <$> finish) rep0) as (E1 & E2 & E3 & E4 & E5 & E6 & E7).
  destruct (tally_spec ((λ h, (collectOne run save h).1) <$> finish') rep0) as (F1 & _ & F3 & F4 & F5 & F6 & F7).
  rewrite E1, E2, E3, E4, E5, E6, E7, F1, F3, F4, F5, F6, F7.
  assert (∀ f fin, fin ≡ₚ hosts → sum_of f ((λ h, (collectOne run save h).1) <$> fin) = sum_of f ((λ h, (collectOne run save h).1) <$> hosts)) as Hs.
  { intros f fin Hfin. apply sum_of_proper. by apply fmap_Permutation. }
  rewrite !(Hs _ _ Hf), !(Hs _ _ Hf'). subst rep0. cbn [Probed WithWG rep_Interfaces rep_Peers Skipped Failed Results app].
  split_and!; [done|by apply fmap_Permutation| |done|].
  - induction hosts as [|h l IH] in |- *; [done|]. cbn [length fmap list_fmap]. unfold sum_of in *. cbn [foldr].
    unfold gateway, one in *. destruct (failed _), (NoWireGuard _); cbn; lia.
  - intros h w. unfold collectOne. destruct (run h) as [out|e]; [|done].
    destruct (ParseCollect h out) as [[ifaces peers] st] eqn:Hp. destruct (length ifaces =? 0)%nat eqn:Hl; [done|].
    apply Nat.eqb_neq in Hl. destruct save as [sv|]; [|done]. destruct (sv h _); intros [= <-]; (split; [by destruct ifaces|]); by exists out.
Qed.

(** ** Witnesses *)

Definition demo_dump : list dump_line :=
  [DIface {| d_name := "wg0"; d_private := "PRIV="; d_public := "PUB="; d_port := 51820; d_fwmark := "0x10" |};
   DPeer {| e_iface := "wg0"; e_public := "PEER="; e_preshared := "(none)"; e_endpoint := Some "203.0.113.9:51820";
            e_allowed := ["10.0.90.0/29"; "10.1.0.0/16"]; e_handshake := 1700000000; e_rx := 12; e_tx := 34; e_keepalive := None |}].

Lemma demo_dump_ok : Forall line_ok demo_dump.
Proof.
  assert (∀ z, 0 <= z <= 2 ^ 40 → in_int64 z) as Hz by (unfold in_int64, int64_min, int64_max; lia).
  apply Forall_cons. split; [cbn; split_and!; try (apply Hz; lia); done|]. apply Forall_singleton. cbn.
  split_and!; try (apply Hz; lia); try done; [by intros e [= <-]|].
  apply Forall_cons. split; [done|]. by apply Forall_singleton.
Qed.

Lemma ParseDump_render_witness :
  (ParseDump (render demo_dump)).1 = [{| Name := "wg0"; PublicKey := "PUB="; ListenPort := 51820; Fwmark := 16 |}].
Proof. rewrite (proj1 (ParseDump_render demo_dump demo_dump_ok)). vm_compute. reflexivity. Defined.

Definition demo_run (h : string) : result error string := if String.eqb h "gw" then Ok (render demo_dump) else Err "no route".

Lemma Collect_any_order_witness :
  let r := Collect demo_run None ["gw"; "web"] ["web"; "gw"] in
  WithWG r = 1 ∧ Failed r = 1 ∧ Probed r = WithWG r + Skipped r + Failed r.
Proof.
  split_and!; [vm_compute; reflexivity..|].
  refine (proj1 (proj2 (proj2 (Collect_any_order demo_run None ["gw"; "web"] ["web"; "gw"] ["web"; "gw"] _ _)))); constructor.
Defined.
