(* ===== verification/WgIdentity.v ===== *)
(** Who a public key belongs to (internal/wireguard/identity.go): the index a
    peer's key is resolved through. *)

From S2P Require Import Prelude GoStrings.

Record WGInterfaceRow := {
  Host : string; Iface : string; ListenPort : Z; PublicKey : string; Fwmark : Z; Address : list string;
  CollectedAt : time_t;
}.

Record NodeRef := { n_Host : string; n_Iface : string }.

Record EndpointIndex := {
  canonical : gmap string NodeRef; aliases : gmap string (list NodeRef); conflicts : gmap string bool;
}.

Definition Lookup (e : EndpointIndex) (key : string) : option NodeRef := canonical e !! key.

(** The distinct hosts of a list, in order of first appearance. *)
Fixpoint distinct_hosts (seen : list string) (refs : list NodeRef) : list string :=
  match refs with
  | [] => []
  | r :: refs' =>
      if slices_Contains seen (n_Host r) then distinct_hosts seen refs'
      else n_Host r :: distinct_hosts (n_Host r :: seen) refs'
  end.

Definition ObservedThrough (e : EndpointIndex) (key : string) : list string :=
  let hosts := distinct_hosts [] (default [] (aliases e !! key)) in
  if (length hosts <? 2)%nat then [] else sort_strings hosts.

Definition same_addresses (a b : list string) : bool := bool_decide (sort_strings a = sort_strings b).

(** The first row against the others; an empty list does not occur. *)
Definition SameInterface (rows : list WGInterfaceRow) : bool :=
  match rows with
  | [] => true
  | first :: rest =>
      forallb (λ r, String.eqb (Iface r) (Iface first) && (ListenPort r =? ListenPort first) &&
                    same_addresses (Address r) (Address first)) rest
  end.

Definition row_less : WGInterfaceRow → WGInterfaceRow → bool := less_then string_ltb Host (less_on string_ltb Iface).

Definition byKey (ifaces : list WGInterfaceRow) : gmap string (list WGInterfaceRow) :=
  foldl (λ m i, <[PublicKey i := default [] (m !! PublicKey i) ++ [i]]> m) ∅ ifaces.

Definition ref_of (r : WGInterfaceRow) : NodeRef := {| n_Host := Host r; n_Iface := Iface r |}.

(** Each key's entries are written once, from its own rows. *)
Definition BuildEndpointIndex (ifaces : list WGInterfaceRow) : EndpointIndex :=
  let sorted := sort row_less <$> byKey ifaces in
  {| canonical := omap (λ rows, ref_of <$> head rows) sorted;
     aliases := (λ rows, ref_of <$> rows) <$> sorted;
     conflicts := omap (λ rows, if SameInterface rows then None else Some true) sorted |}.

(** ** Theorems *)

Definition observations (ifaces : list WGInterfaceRow) (key : string) : list WGInterfaceRow :=
  filter (λ r, PublicKey r = key) ifaces.

Lemma byKey_lookup ifaces key : byKey ifaces !! key = match observations ifaces key with [] => None | rows => Some rows end.
Proof.
  unfold byKey.
  assert (∀ m : gmap string (list WGInterfaceRow), (∀ k rs, m !! k = Some rs → rs ≠ []) →
    foldl (λ m i, <[PublicKey i := default [] (m !! PublicKey i) ++ [i]]> m) m ifaces !! key =
    match default [] (m !! key) ++ observations ifaces key with [] => None | rows => Some rows end) as H.
  { unfold observations. induction ifaces as [|i ifaces IH]; intros m Hne; cbn [foldl].
    - rewrite app_nil_r. destruct (m !! key) as [[|r rs]|] eqn:E; [by destruct (Hne _ _ E)|done|done].
    - rewrite IH, list.filter_cons.
      + destruct (decide (PublicKey i = key)) as [<-|Hk]; [rewrite lookup_insert_eq; cbn [default id]; by rewrite <-(assoc_L (++))|].
        by rewrite lookup_insert_ne.
      + intros k rs [[_ <-]|[_ ?]]%lookup_insert_Some; [|by eapply Hne]. by destruct (default [] _). }
  rewrite H; [by rewrite lookup_empty|]. intros k rs. by rewrite lookup_empty.
Qed.

#[export] Instance row_less_weak : StrictWeak row_less.
Proof. apply _. Qed.

(** Host and interface name a row. *)
Definition keyed (ifaces : list WGInterfaceRow) : Prop := NoDup ((λ r, (Host r, Iface r)) <$> ifaces).

Lemma row_less_separates ifaces x y : keyed ifaces → x ∈ ifaces → y ∈ ifaces → row_less x y = false → row_less y x = false → x = y.
Proof.
  intros Hk Hx Hy Hxy Hyx. assert ((Host x, Iface x) = (Host y, Iface y)) as E.
  { unfold row_less, less_then, less_on in *. destruct (decide (Host x = Host y)) as [Heq|Hne].
    - rewrite decide_True in Hyx by done. f_equal; [done|]. by apply (less_connex (less:=string_ltb)).
    - rewrite decide_False in Hyx by congruence. destruct Hne. by apply (less_connex (less:=string_ltb)). }
  unfold keyed in Hk. apply list_elem_of_lookup in Hx as [i Hi], Hy as [j Hj].
  assert (i = j) as ->; [|congruence]. eapply NoDup_lookup; [exact Hk| |]; rewrite list_lookup_fmap.
  - by rewrite Hi.
  - rewrite Hj. cbn. by rewrite E.
Qed.

Lemma same_addresses_spec a b : same_addresses a b = true ↔ a ≡ₚ b.
Proof.
  unfold same_addresses. rewrite bool_decide_eq_true. unfold sort_strings. split.
  - intros E. rewrite <-(sort_perm string_ltb a), E. apply sort_perm.
  - by intros ->.
Qed.

Definition same_settings (r r' : WGInterfaceRow) : Prop :=
  Iface r = Iface r' ∧ ListenPort r = ListenPort r' ∧ Address r ≡ₚ Address r'.

#[export] Instance same_settings_equiv : Equivalence same_settings.
Proof.
  split.
  - by intros r.
  - intros r r' (? & ? & ?). by split_and!.
  - intros r1 r2 r3 (? & ? & E1) (? & ? & E2). split_and!; [congruence..|by rewrite E1].
Qed.

#[export] Instance same_settings_dec : RelDecision same_settings.
Proof.
  intros r r'. refine (cast_if (decide (Iface r = Iface r' ∧ ListenPort r = ListenPort r' ∧ same_addresses (Address r) (Address r') = true)));
    unfold same_settings; by rewrite <-same_addresses_spec.
Defined.

Lemma SameInterface_spec rows : SameInterface rows = true ↔ ∀ r r', r ∈ rows → r' ∈ rows → same_settings r r'.
Proof.
  destruct rows as [|first rest]; cbn [SameInterface]; [split; [set_solver|done]|].
  rewrite forallb_forall. assert (∀ r, (String.eqb (Iface r) (Iface first) && (ListenPort r =? ListenPort first) &&
    same_addresses (Address r) (Address first)) = true ↔ same_settings r first) as Hs.
  { intros r. unfold same_settings. rewrite !andb_true_iff, String.eqb_eq, Z.eqb_eq, same_addresses_spec. tauto. }
  split.
  - intros H. assert (∀ r, r ∈ first :: rest → same_settings r first) as Hf.
    { intros r [->|Hr]%elem_of_cons; [done|]. by apply Hs, H, list_elem_of_In. }
    intros r r' Hr Hr'. etrans; [by apply Hf|]. symmetry. by apply Hf.
  - intros H r Hr%list_elem_of_In. apply Hs, H; [by right|by left].
Qed.

Lemma sorted_head_least rows r : head (sort row_less rows) = Some r → r ∈ rows ∧ ∀ r', r' ∈ rows → row_less r' r = false.
Proof.
  intros Hr. pose proof (sort_sorted row_less rows) as Hs. pose proof (sort_perm row_less rows) as Hp.
  destruct (sort row_less rows) as [|x l]; [done|]. injection Hr as ->. apply StronglySorted_inv in Hs as [_ Hx].
  split; [rewrite <-Hp; by left|]. intros r' Hr'. rewrite <-Hp in Hr'. apply elem_of_cons in Hr' as [->|Hr'].
  - unfold row_less, less_then, less_on. rewrite decide_True by done. destruct (string_ltb (Iface r) (Iface r)) eqn:E; [|done].
    pose proof (less_asym _ _ E). congruence.
  - rewrite Forall_forall in Hx. by apply Hx.
Qed.

Lemma distinct_hosts_spec refs : ∀ seen, NoDup (distinct_hosts seen refs) ∧
  ∀ h, h ∈ distinct_hosts seen refs ↔ h ∉ seen ∧ ∃ r, r ∈ refs ∧ n_Host r = h.
Proof.
  induction refs as [|r refs IH]; intros seen; cbn [distinct_hosts]; [split; [constructor|]; set_solver|].
  unfold slices_Contains. case_bool_decide as Hin; destruct (IH seen) as [N1 E1]; destruct (IH (n_Host r :: seen)) as [N2 E2].
  - split; [done|]. intros h. rewrite E1. set_solver.
  - split; [constructor; [rewrite E2; set_solver|done]|]. intros h. rewrite elem_of_cons, E2.
    destruct (decide (h = n_Host r)); set_solver.
Qed.

#[local] Arguments sort : simpl never.

Definition sorted_rows (ifaces : list WGInterfaceRow) : gmap string (list WGInterfaceRow) := sort row_less <$> byKey ifaces.

Lemma observations_elem ifaces key r : r ∈ observations ifaces key ↔ PublicKey r = key ∧ r ∈ ifaces.
Proof. unfold observations. by rewrite list_elem_of_filter. Qed.

Lemma sorted_rows_lookup ifaces key :
  sorted_rows ifaces !! key = match observations ifaces key with [] => None | rows => Some (sort row_less rows) end.
Proof. unfold sorted_rows. rewrite lookup_fmap, byKey_lookup. by destruct (observations ifaces key). Qed.

(** The rows of a key, sorted; none for a key that was not observed. *)
Lemma sorted_rows_cases ifaces key :
  (sorted_rows ifaces !! key = None ∧ ∀ r, r ∈ ifaces → PublicKey r ≠ key) ∨
  (∃ rs, sorted_rows ifaces !! key = Some (sort row_less rs) ∧ rs ≠ [] ∧ ∀ r, r ∈ rs ↔ PublicKey r = key ∧ r ∈ ifaces).
Proof.
  rewrite sorted_rows_lookup. pose proof (observations_elem ifaces key) as H. destruct (observations ifaces key) as [|x l].
  - left. split; [done|]. intros r Hr Hk. assert (r ∈ []) as Hin by by apply H. by apply not_elem_of_nil in Hin.
  - right. exists (x :: l). done.
Qed.

Lemma sorted_rows_order ifaces ifaces' : keyed ifaces → ifaces ≡ₚ ifaces' → sorted_rows ifaces = sorted_rows ifaces'.
Proof.
  intros Hk Hp. apply map_eq. intros k. rewrite !sorted_rows_lookup.
  assert (observations ifaces k ≡ₚ observations ifaces' k) as Hpk by (unfold observations; by rewrite Hp).
  assert (sort row_less (observations ifaces k) = sort row_less (observations ifaces' k)) as Es.
  { apply sort_Permutation_strong; [apply _| |done]. intros x y Hx Hy. apply observations_elem in Hx as [_ Hx], Hy as [_ Hy].
    by apply (row_less_separates ifaces). }
  destruct (observations ifaces k), (observations ifaces' k); try done;
    [by apply Permutation_nil_l in Hpk|by apply Permutation_nil_r in Hpk|by f_equal].
Qed.

Lemma Lookup_spec ifaces key :
  (Lookup (BuildEndpointIndex ifaces) key = None ↔ ∀ r, r ∈ ifaces → PublicKey r ≠ key) ∧
  ∀ n, Lookup (BuildEndpointIndex ifaces) key = Some n → ∃ r, r ∈ ifaces ∧ PublicKey r = key ∧ n = ref_of r ∧
    ∀ r', r' ∈ ifaces → PublicKey r' = key → row_less r' r = false.
Proof.
  unfold Lookup, BuildEndpointIndex. cbn [canonical]. fold (sorted_rows ifaces). rewrite lookup_omap.
  destruct (sorted_rows_cases ifaces key) as [[-> Hno]|(rs & -> & Hne & Hrs)]; cbn; [done|].
  destruct (head (sort row_less rs)) as [r|] eqn:Hh.
  - apply sorted_head_least in Hh as [Hr Hleast]. apply Hrs in Hr as [Hkey Hr]. split.
    + split; [done|]. intros Hno. by destruct (Hno r).
    + intros n [= <-]. exists r. split_and!; try done. intros r' Hr' Hk'. by apply Hleast, Hrs.
  - pose proof (sort_perm row_less rs) as Hps. destruct (sort row_less rs); [|done]. by apply Permutation_nil_l in Hps.
Qed.

Lemma ObservedThrough_spec ifaces key : let hosts := ObservedThrough (BuildEndpointIndex ifaces) key in
  StronglySorted (not_after string_ltb) hosts ∧ NoDup hosts ∧
  (∀ h, h ∈ hosts → ∃ r, r ∈ ifaces ∧ PublicKey r = key ∧ Host r = h) ∧
  (∀ r r', r ∈ ifaces → r' ∈ ifaces → PublicKey r = key → PublicKey r' = key → Host r ≠ Host r' → Host r ∈ hosts).
Proof.
  cbv zeta. unfold ObservedThrough, BuildEndpointIndex. cbn [aliases]. fold (sorted_rows ifaces). rewrite lookup_fmap.
  set (refs := default [] _). assert (∀ h, (∃ r, r ∈ refs ∧ n_Host r = h) ↔ ∃ r, r ∈ ifaces ∧ PublicKey r = key ∧ Host r = h) as Hrefs.
  { intros h. subst refs. destruct (sorted_rows_cases ifaces key) as [[-> Hno]|(rs & -> & _ & Hrs)]; cbn; [split; [set_solver|naive_solver]|].
    setoid_rewrite list_elem_of_fmap. setoid_rewrite sort_elem_of. split.
    - intros (n & (r & -> & [? ?]%Hrs) & <-). by exists r.
    - intros (r & Hr & Hkey & <-). exists (ref_of r). split; [|done]. exists r. by rewrite Hrs. }
  destruct (distinct_hosts_spec refs []) as [Hnd Hdh]. unfold sort_strings. split_and!.
  - case_if; [constructor|]. apply sort_sorted, _.
  - case_if; [constructor|]. by apply sort_NoDup.
  - intros h. case_if; [set_solver|]. rewrite sort_elem_of, Hdh, Hrefs. naive_solver.
  - intros r r' Hr Hr' Hkr Hkr' Hne. assert (Host r ∈ distinct_hosts [] refs) as H1 by (apply Hdh; rewrite Hrefs; split; [set_solver|eauto]).
    assert (Host r' ∈ distinct_hosts [] refs) as H2 by (apply Hdh; rewrite Hrefs; split; [set_solver|eauto]).
    case_if; [|by rewrite sort_elem_of]. apply Nat.ltb_lt in Heqb. destruct (distinct_hosts [] refs) as [|a [|b l]]; cbn in Heqb; [set_solver| |lia].
    apply list_elem_of_singleton in H1, H2. congruence.
Qed.

Lemma differing_rows rs : SameInterface rs = false ↔ ∃ r r', r ∈ rs ∧ r' ∈ rs ∧ ¬ same_settings r r'.
Proof.
  rewrite <-not_true_iff_false, SameInterface_spec. split.
  - intros Hno. destruct (decide (Forall (λ r, Forall (same_settings r) rs) rs)) as [Hall|Hsome].
    { destruct Hno. intros r r' Hr Hr'. rewrite Forall_forall in Hall. specialize (Hall r Hr). rewrite Forall_forall in Hall. by apply Hall. }
    apply (not_Forall_Exists _) in Hsome. apply Exists_exists in Hsome as (r & Hr & Hsome).
    apply (not_Forall_Exists _) in Hsome. apply Exists_exists in Hsome as (r' & Hr' & Hsome). by exists r, r'.
  - intros (r & r' & ? & ? & Hx) Hall. by apply Hx, Hall.
Qed.

Lemma conflicts_spec ifaces key : conflicts (BuildEndpointIndex ifaces) !! key = Some true ↔
  ∃ r r', r ∈ ifaces ∧ r' ∈ ifaces ∧ PublicKey r = key ∧ PublicKey r' = key ∧ ¬ same_settings r r'.
Proof.
  unfold BuildEndpointIndex. cbn [conflicts]. fold (sorted_rows ifaces). rewrite lookup_omap.
  destruct (sorted_rows_cases ifaces key) as [[-> Hno]|(rs & -> & _ & Hrs)]; cbn [mbind option_bind].
  - split; [done|]. intros (r & _ & Hr & _ & Hk & _). by destruct (Hno r Hr).
  - transitivity (SameInterface (sort row_less rs) = false); [by destruct (SameInterface _)|]. rewrite differing_rows.
    setoid_rewrite sort_elem_of. setoid_rewrite Hrs. split; [intros (r & r' & [? ?] & [? ?] & ?); by exists r, r'|intros (r & r' & ? & ? & ? & ? & ?); by exists r, r'].
Qed.

(** A key resolves the same way whatever order its rows were read in.  A
    key that was observed belongs to the least host, and interface, it was seen
    at, and no other key resolves; the hosts it was observed through are all of
    them, sorted, when there are several; and it is a conflict exactly when two
    of its observations differ in name, port or addresses. *)
Theorem index_order_free ifaces ifaces' key :
  keyed ifaces → ifaces ≡ₚ ifaces' →
  let e := BuildEndpointIndex ifaces in
  e = BuildEndpointIndex ifaces' ∧
  (Lookup e key = None ↔ ∀ r, r ∈ ifaces → PublicKey r ≠ key) ∧
  (∀ n, Lookup e key = Some n → ∃ r, r ∈ ifaces ∧ PublicKey r = key ∧ n = ref_of r ∧
     ∀ r', r' ∈ ifaces → PublicKey r' = key → row_less r' r = false) ∧
  (let hosts := ObservedThrough e key in StronglySorted (not_after string_ltb) hosts ∧ NoDup hosts ∧
     (∀ h, h ∈ hosts → ∃ r, r ∈ ifaces ∧ PublicKey r = key ∧ Host r = h) ∧
     (∀ r r', r ∈ ifaces → r' ∈ ifaces → PublicKey r = key → PublicKey r' = key → Host r ≠ Host r' → Host r ∈ hosts)) ∧
  (conflicts e !! key = Some true ↔ ∃ r r', r ∈ ifaces ∧ r' ∈ ifaces ∧ PublicKey r = key ∧ PublicKey r' = key ∧ ¬ same_settings r r').
Proof.
  intros Hk Hp e. destruct (Lookup_spec ifaces key) as [Hnone Hsome]. destruct (ObservedThrough_spec ifaces key) as (Ho1 & Ho2 & Ho3 & Ho4).
  split; [|split; [done|split; [done|split; [done|apply conflicts_spec]]]].
  unfold e, BuildEndpointIndex. fold (sorted_rows ifaces) (sorted_rows ifaces'). by rewrite (sorted_rows_order ifaces ifaces').
Qed.

(** ** Witness: a VIP and a copied key *)

Definition row (host iface key : string) (port : Z) : WGInterfaceRow :=
  {| Host := host; Iface := iface; ListenPort := port; PublicKey := key; Fwmark := 0; Address := ["10.0.0.1/24"]; CollectedAt := 0 |}.
Definition demo_ifaces : list WGInterfaceRow :=
  [row "sre-srv-0049" "wg0" "K1" 51820; row "sre-lb" "wg0" "K1" 51820; row "gw1" "wg0" "K2" 1; row "gw2" "wg9" "K2" 2].

Lemma index_order_free_witness :
  let e := BuildEndpointIndex demo_ifaces in
  Lookup e "K1" = Some {| n_Host := "sre-lb"; n_Iface := "wg0" |} ∧ ObservedThrough e "K1" = ["sre-lb"; "sre-srv-0049"] ∧
  conflicts e !! "K1" = None ∧ conflicts e !! "K2" = Some true ∧ e = BuildEndpointIndex (reverse demo_ifaces).
Proof.
  split_and!; [vm_compute; reflexivity..|].
  refine (proj1 (index_order_free demo_ifaces (reverse demo_ifaces) "K1" _ _)).
  - by apply (bool_decide_unpack _); vm_compute.
  - symmetry. apply reverse_Permutation.
Defined.
