(* ===== verification/WgState.v ===== *)
(** The live state of the overlay (internal/wireguard/state.go): what the
    pollers measured, per tunnel and per end.

    A float64 is its IEEE 754 value, with the standard library's binary64
    operations; Go rounds to nearest even, as they do.  The lock makes the
    operations one after another. *)

From Stdlib Require Import SpecFloat.
From S2P Require Import Prelude GoStrings.

(** ** Floats *)

Definition float64 : Type := spec_float.
Definition prec : Z := 53.
Definition emax : Z := 1024.
Definition of_int (z : Z) : float64 := binary_normalize prec emax z 0 false.
Definition fdiv : float64 → float64 → float64 := SFdiv prec emax.
Definition fadd : float64 → float64 → float64 := SFadd prec emax.
Definition fzero : float64 := S754_zero false.

(** [d.Seconds()]. *)
Definition Seconds (d : duration) : float64 :=
  fadd (of_int (Z.quot d Second)) (fdiv (of_int (Z.rem d Second)) (of_int Second)).

(** The builtin [max]: NaN wins, and +0 is above -0. *)
Definition fmax (x y : float64) : float64 :=
  match x, y with
  | S754_nan, _ | _, S754_nan => S754_nan
  | S754_zero true, S754_zero _ => y
  | _, _ => if SFltb x y then y else x
  end.

(** [int64(f)] for a finite [f]: towards zero. *)
Definition to_int (f : float64) : Z :=
  match f with
  | S754_finite s m e =>
      let v := if 0 <=? e then Z.pos m * 2 ^ e else Z.pos m / 2 ^ (- e) in if s then - v else v
  | _ => 0
  end.

(** ** Samples *)

Record TunnelKey := { k_Host : string; k_Iface : string; k_Peer : string }.
#[export] Instance tunnel_key_eq_dec : EqDecision TunnelKey.
Proof. solve_decision. Defined.
#[export] Instance tunnel_key_countable : Countable TunnelKey.
Proof.
  refine (inj_countable' (λ k, (k_Host k, k_Iface k, k_Peer k)) (λ t, {| k_Host := t.1.1; k_Iface := t.1.2; k_Peer := t.2 |}) _).
  by intros [].
Defined.

Record PeerSample := {
  ps_Iface : string; ps_PubKey : string; ps_Endpoint : string; ps_AllowedIPs : list string;
  ps_Rx : Z; ps_Tx : Z; ps_Handshake : Z;
}.

Record Sample := { sm_Rx : Z; sm_Tx : Z; sm_HS : option time_t; sm_At : time_t }.

(** int64 subtraction wraps around. *)
Definition ComputeRate (prev cur : Sample) : float64 * float64 :=
  let dt := Seconds (Sub (sm_At cur) (sm_At prev)) in
  if SFleb dt fzero then (fzero, fzero)
  else
    let drx := wrap64 (sm_Rx cur - sm_Rx prev) in
    let dtx := wrap64 (sm_Tx cur - sm_Tx prev) in
    let drx := if drx <? 0 then 0 else drx in
    let dtx := if dtx <? 0 then 0 else dtx in
    (fdiv (of_int drx) dt, fdiv (of_int dtx) dt).

(** ** State *)

Record EdgeSideStat := { RateReady : bool; sd_RxPS : float64; sd_TxPS : float64; sd_HS : Z; sd_At : Z }.
Record EdgeStat := { RxPS : float64; TxPS : float64; HS : Z; Sides : gmap string EdgeSideStat }.
Record DriftPeer := {
  dp_Host : string; dp_Iface : string; dp_PubKey : string; dp_Endpoint : string; dp_AllowedIPs : list string; FirstSeen : Z;
}.

Record State := {
  prev : gmap TunnelKey Sample; stats : gmap string EdgeStat; errs : gmap string string; drifted : gmap TunnelKey DriftPeer;
}.

Definition NewState : State := {| prev := ∅; stats := ∅; errs := ∅; drifted := ∅ |}.

(** The Unix epoch in nanoseconds since Go's zero time. *)
Definition unix_epoch : time_t := 62135596800 * Second.
Definition Unix (sec : Z) : time_t := unix_epoch + sec * Second.
Definition to_unix (t : time_t) : Z := (t - unix_epoch) / Second.

(** One step of the loop of [flattenSides], over the sides in any order. *)
Definition flatten_step (acc : float64 * float64 * Z) (s : EdgeSideStat) : float64 * float64 * Z :=
  let '(rx, tx, hs) := acc in
  (fmax rx (sd_RxPS s), fmax tx (sd_TxPS s),
   if (0 <=? sd_HS s) && ((hs <? 0) || (sd_HS s <? hs)) then sd_HS s else hs).

Definition flattenSides (sides : list EdgeSideStat) : float64 * float64 * Z :=
  foldl flatten_step (fzero, fzero, -1) sides.

Section record.
(** The order in which a map's sides are visited. *)
Context (visit : gmap string EdgeSideStat → list EdgeSideStat).
Context (edgeFor : gmap TunnelKey string) (host : string) (at_ now : time_t).

Definition key_of (p : PeerSample) : TunnelKey := {| k_Host := host; k_Iface := ps_Iface p; k_Peer := ps_PubKey p |}.

Definition record_peer (s : State) (p : PeerSample) : State :=
  let k := key_of p in
  match edgeFor !! k with
  | None =>
      {| prev := prev s; stats := stats s; errs := errs s;
         drifted := match drifted s !! k with
                    | Some _ => drifted s
                    | None => <[k := {| dp_Host := host; dp_Iface := ps_Iface p; dp_PubKey := ps_PubKey p;
                                        dp_Endpoint := ps_Endpoint p; dp_AllowedIPs := ps_AllowedIPs p;
                                        FirstSeen := to_unix at_ |}]> (drifted s)
                    end |}
  | Some id =>
      let hs := if 0 <? ps_Handshake p then Some (Unix (ps_Handshake p)) else None in
      let cur := {| sm_Rx := ps_Rx p; sm_Tx := ps_Tx p; sm_HS := hs; sm_At := at_ |} in
      let side_hs := match hs with Some t => to_int (Seconds (Sub now t)) | None => -1 end in
      let side :=
        match prev s !! k with
        | Some old =>
            let '(rx, tx) := ComputeRate old cur in
            {| RateReady := true; sd_RxPS := rx; sd_TxPS := tx; sd_HS := side_hs; sd_At := to_unix at_ |}
        | None => {| RateReady := false; sd_RxPS := fzero; sd_TxPS := fzero; sd_HS := side_hs; sd_At := to_unix at_ |}
        end in
      let st_sides := match stats s !! id with Some st => Sides st | None => ∅ end in
      let sides := <[host := side]> st_sides in
      let '(rx, tx, hs) := flattenSides (visit sides) in
      {| prev := <[k := cur]> (prev s); stats := <[id := {| RxPS := rx; TxPS := tx; HS := hs; Sides := sides |}]> (stats s);
         errs := errs s; drifted := delete k (drifted s) |}
  end.

Definition Record_ (s : State) (peers : list PeerSample) : State :=
  foldl record_peer {| prev := prev s; stats := stats s; errs := delete host (errs s); drifted := drifted s |} peers.
End record.

Definition Fail (s : State) (host err : string) : State :=
  {| prev := prev s; stats := stats s; errs := <[host := err]> (errs s); drifted := drifted s |}.

Definition drift_less : DriftPeer → DriftPeer → bool :=
  less_then string_ltb dp_Host (less_then string_ltb dp_Iface (less_on string_ltb dp_PubKey)).
Definition DriftList (s : State) : list DriftPeer := sort drift_less (map_to_list (drifted s)).*2.

(** A snapshot's maps and slices are copies. *)
Record LiveSnapshot := { Edges : gmap string EdgeStat; Errors : gmap string string; Drift : list DriftPeer }.
Definition Snapshot (s : State) : LiveSnapshot := {| Edges := stats s; Errors := errs s; Drift := DriftList s |}.

(** ** Rates *)

Definition sign_bit (f : float64) : bool :=
  match f with S754_zero s | S754_infinity s | S754_finite s _ _ => s | S754_nan => false end.

Lemma binary_round_aux_sign s m e l : sign_bit (binary_round_aux prec emax s m e l) = s ∨ binary_round_aux prec emax s m e l = S754_nan.
Proof.
  unfold binary_round_aux. destruct (shr_fexp prec emax m e l) as [mrs e'].
  destruct (shr_fexp prec emax _ e' loc_Exact) as [mrs' e'']. destruct (shr_m mrs'); [by left| |by right]. case_if; by left.
Qed.

Lemma of_int_sign z : 0 ≤ z → sign_bit (of_int z) = false.
Proof.
  intros Hz. unfold of_int, binary_normalize. destruct z as [|p|p]; [done| |lia].
  unfold binary_round. destruct (shl_align p 0 _) as [mz ez].
  destruct (binary_round_aux_sign false (Z.pos mz) ez loc_Exact) as [H|H]; rewrite H; done.
Qed.

Lemma fdiv_sign x y : sign_bit x = false → sign_bit y = false → sign_bit (fdiv x y) = false.
Proof.
  unfold fdiv, SFdiv. destruct x as [s|s| |s m e], y as [s'|s'| |s' m' e']; intros Hx Hy; cbn [sign_bit] in Hx, Hy; subst; try done.
  destruct (SFdiv_core_binary prec emax (Z.pos m) e (Z.pos m') e') as [[mz ez] lz].
  destruct (binary_round_aux_sign false mz ez lz) as [H|H]; cbn [xorb]; rewrite H; done.
Qed.

Lemma positive_sign x : SFleb x fzero = false → sign_bit x = false.
Proof. by destruct x as [[]|[]| |[] m e]. Qed.

Lemma ComputeRate_sign p c : sign_bit (ComputeRate p c).1 = false ∧ sign_bit (ComputeRate p c).2 = false.
Proof.
  unfold ComputeRate. destruct (SFleb _ _) eqn:Hdt; [done|]. apply positive_sign in Hdt. cbn [fst snd].
  split; apply fdiv_sign; try done; apply of_int_sign; case_if; bool_simpl; lia.
Qed.

(** ** The two ends of a tunnel *)

Lemma SFltb_asym x y : SFltb x y = true → SFltb y x = false.
Proof.
  unfold SFltb. destruct x as [[]|[]| |[] m e], y as [[]|[]| |[] m' e']; cbn; try done.
  all: rewrite (Z.compare_antisym e e'); destruct (Z.compare_spec e e') as [<-|H|H]; cbn; try done.
  all: fold (Pos.compare m m') (Pos.compare m' m); rewrite (Pos.compare_antisym m m'); by destruct (Pos.compare m m').
Qed.

Definition nonneg (f : float64) : Prop := sign_bit f = false ∧ f ≠ S754_nan.

Lemma fmax_zero x : nonneg x → fmax fzero x = x.
Proof. intros [Hs Hn]. by destruct x as [[]|[]| |[] m e]. Qed.

Lemma fmax_less x y : nonneg x → nonneg y → SFltb x y = true → fmax x y = y ∧ fmax y x = y.
Proof.
  intros [Hx Hxn] [Hy Hyn] Hlt. pose proof (SFltb_asym _ _ Hlt) as Hge.
  destruct x as [[]|[]| |[] m e], y as [[]|[]| |[] m' e']; try done; unfold fmax; by rewrite Hlt, Hge.
Qed.

(** The drawn rates forget the direction.  When both ends of a tunnel are
    polled and mirror each other, as they do, one end's receive rate being the
    other's transmit rate, the flat rates are both the larger of the two,
    whichever end is visited first: traffic one way is drawn as traffic both
    ways. *)
Theorem mirrored_sides_hide_direction a b :
  nonneg (sd_RxPS a) → nonneg (sd_TxPS a) →
  sd_RxPS b = sd_TxPS a → sd_TxPS b = sd_RxPS a → SFltb (sd_RxPS a) (sd_TxPS a) = true →
  ∀ l, l ≡ₚ [a; b] → (flattenSides l).1 = (sd_TxPS a, sd_TxPS a).
Proof.
  intros Hr Ht Eb1 Eb2 Hlt l Hl. destruct (fmax_less _ _ Hr Ht Hlt) as [H1 H2].
  apply Permutation_sym, Permutation_length_2_inv in Hl as [->| ->]; unfold flattenSides; cbn [foldl flatten_step fst];
    rewrite ?Eb1, ?Eb2, !fmax_zero, ?H1, ?H2; done.
Qed.

(** One end read sending at 2 bytes a second, receiving at 1. *)
Definition end_a : EdgeSideStat := {| RateReady := true; sd_RxPS := of_int 1; sd_TxPS := of_int 2; sd_HS := 5; sd_At := 0 |}.
Definition end_b : EdgeSideStat := {| RateReady := true; sd_RxPS := of_int 2; sd_TxPS := of_int 1; sd_HS := 7; sd_At := 0 |}.

Lemma mirrored_sides_hide_direction_witness :
  SFltb (sd_RxPS end_a) (sd_TxPS end_a) = true ∧ (flattenSides [end_b; end_a]).1 = (of_int 2, of_int 2).
Proof.
  split; [by vm_compute|].
  apply (mirrored_sides_hide_direction end_a end_b); [by vm_compute|by vm_compute|done|done|by vm_compute|].
  apply Permutation_swap.
Defined.

Lemma flatten_step_spec s rx tx hs : flatten_step (rx, tx, hs) s =
  (fmax rx (sd_RxPS s), fmax tx (sd_TxPS s), if (0 <=? sd_HS s) && ((hs <? 0) || (sd_HS s <? hs)) then sd_HS s else hs).
Proof. done. Qed.

(** The handshake of the flat view: never, or the freshest. *)
Definition freshest (l : list EdgeSideStat) (hs : Z) : Prop :=
  (hs = -1 ∧ ∀ s, s ∈ l → sd_HS s < 0) ∨
  (0 ≤ hs ∧ (∃ s, s ∈ l ∧ sd_HS s = hs) ∧ ∀ s, s ∈ l → sd_HS s < 0 ∨ hs ≤ sd_HS s).

Lemma flatten_freshest l : freshest l (flattenSides l).2.
Proof.
  unfold flattenSides. apply (foldl_invariant (λ seen acc, freshest seen acc.2)); [left; split; [done|set_solver]|].
  intros seen [[rx tx] hs] s H. rewrite flatten_step_spec. cbn [snd] in *.
  destruct ((0 <=? sd_HS s) && ((hs <? 0) || (sd_HS s <? hs))) eqn:E.
  - apply andb_true_iff in E as [E1 E2]. bool_simpl. right. split; [done|]. split; [exists s; set_solver|].
    intros s' [Hs'|Hs']%elem_of_app; [|apply list_elem_of_singleton in Hs' as ->; lia].
    destruct H as [[-> H]|(H0 & _ & H)]; [left; by apply H|]. destruct (H s' Hs') as [?|?]; [by left|right].
    apply orb_true_iff in E2 as [E2|E2]; bool_simpl; lia.
  - destruct H as [[-> H]|(H0 & (s0 & Hs0 & Heq) & H)].
    + left. split; [done|]. intros s' [Hs'|Hs']%elem_of_app; [by apply H|]. apply list_elem_of_singleton in Hs' as ->.
      destruct (Z.leb_spec 0 (sd_HS s)); [done|lia].
    + right. split; [done|]. split; [exists s0; set_solver|]. intros s' [Hs'|Hs']%elem_of_app; [by apply H|].
      apply list_elem_of_singleton in Hs' as ->. destruct (Z.leb_spec 0 (sd_HS s)); [right|left; lia].
      cbn in E. apply orb_false_iff in E as [_ E]. by apply Z.ltb_ge in E.
Qed.

(** ** The state over time *)

Section history.
Context (visit : gmap string EdgeSideStat → list EdgeSideStat).
Context (visit_perm : ∀ m, visit m ≡ₚ (map_to_list m).*2).
Context (edgeFor : gmap TunnelKey string).

(** What the pollers do, one at a time. *)
Inductive event :=
| EvRecord (host : string) (peers : list PeerSample) (at_ now : time_t)
| EvFail (host err : string).

Definition apply_event (s : State) (e : event) : State :=
  match e with
  | EvRecord host peers at_ now => Record_ visit edgeFor host at_ now s peers
  | EvFail host err => Fail s host err
  end.

Definition after (evs : list event) : State := foldl apply_event NewState evs.

Record state_ok (s : State) : Prop := {
  ok_prev : ∀ k smp, prev s !! k = Some smp → is_Some (edgeFor !! k);
  ok_drift : ∀ k d, drifted s !! k = Some d → edgeFor !! k = None ∧ k = {| k_Host := dp_Host d; k_Iface := dp_Iface d; k_Peer := dp_PubKey d |};
  ok_flat : ∀ id st, stats s !! id = Some st → (RxPS st, TxPS st, HS st) = flattenSides (visit (Sides st)) ∧ Sides st ≠ ∅;
  ok_side : ∀ id st h sd, stats s !! id = Some st → Sides st !! h = Some sd →
    sign_bit (sd_RxPS sd) = false ∧ sign_bit (sd_TxPS sd) = false ∧
    (RateReady sd = false → sd_RxPS sd = fzero ∧ sd_TxPS sd = fzero) ∧
    ∃ k, k_Host k = h ∧ edgeFor !! k = Some id ∧ is_Some (prev s !! k);
}.

Lemma record_peer_ok host at_ now s p : state_ok s → state_ok (record_peer visit edgeFor host at_ now s p).
Proof.
  intros [Hp Hd Hf Hs]. unfold record_peer. set (k := key_of host p). destruct (edgeFor !! k) as [id|] eqn:He; cycle 1.
  - split; cbn [prev stats errs drifted]; try done. intros k' d. destruct (drifted s !! k) eqn:E; [apply Hd|].
    intros [[<- <-]|[_ ?]]%lookup_insert_Some; [by split|by apply Hd].
  - cbv zeta. set (cur := {| sm_Rx := ps_Rx p; sm_Tx := ps_Tx p; sm_HS := _; sm_At := at_ |}).
    match goal with |- context [match prev s !! k with Some old => _ | None => _ end] => set (side := match prev s !! k with Some old => _ | None => _ end) end.
    set (sides := <[host:=side]> _).
    assert (sign_bit (sd_RxPS side) = false ∧ sign_bit (sd_TxPS side) = false ∧ (RateReady side = false → sd_RxPS side = fzero ∧ sd_TxPS side = fzero)) as Hside.
    { unfold side. destruct (prev s !! k) as [old|]; [|done]. pose proof (ComputeRate_sign old cur) as [? ?].
      by destruct (ComputeRate old cur). }
    destruct (flattenSides (visit sides)) as [[rx tx] hs] eqn:Hfl.
    split; cbn [prev stats errs drifted].
    + intros k' smp [[<- _]|[_ ?]]%lookup_insert_Some; [by rewrite He|by eapply Hp].
    + intros k' d [_ ?]%lookup_delete_Some. by apply Hd.
    + intros id' st [[_ <-]|[_ H]]%lookup_insert_Some; [|by apply (Hf _ _ H)]. split; [done|]. apply insert_non_empty.
    + intros id' st h sd [[<- <-]|[_ Hst]]%lookup_insert_Some; cbn [Sides].
      * intros [[<- <-]|[Hh Hsd]]%lookup_insert_Some.
        -- destruct Hside as (? & ? & ?). split_and!; try done. exists k. split_and!; [done|done|]. by rewrite lookup_insert_eq.
        -- destruct (stats s !! id) as [st|] eqn:Hst; [|by rewrite lookup_empty in Hsd].
           destruct (Hs id st h sd Hst Hsd) as (? & ? & ? & k' & ? & ? & ?). split_and!; try done. exists k'. split_and!; [done|done|].
           destruct (decide (k' = k)) as [->|]; [by rewrite lookup_insert_eq|by rewrite lookup_insert_ne].
      * intros Hsd. destruct (Hs id' st h sd Hst Hsd) as (? & ? & ? & k' & ? & ? & ?). split_and!; try done. exists k'. split_and!; [done|done|].
        destruct (decide (k' = k)) as [->|]; [by rewrite lookup_insert_eq|by rewrite lookup_insert_ne].
Qed.

Lemma after_ok evs : state_ok (after evs).
Proof.
  unfold after. apply (foldl_invariant (λ _, state_ok)).
  - split; cbn; intros *; by rewrite lookup_empty.
  - intros _ s e Hs. destruct e as [host peers at_ now|host err]; cbn [apply_event].
    + unfold Record_. apply (foldl_invariant (λ _, state_ok)); [|intros; by apply record_peer_ok]. by destruct Hs.
    + by destruct Hs.
Qed.

Lemma drift_less_weak : StrictWeak drift_less.
Proof. apply _. Qed.

(** What the live view can say.  After any sequence of polls and failures:
    a tunnel's flat numbers are those of its ends as last measured, its
    handshake the freshest of them or never; no rate is negative, whatever the
    counters and clocks did, and an end read once shows none; every end shown
    belongs to a tunnel of the graph that was polled from that host; and the
    drift list, in order and without repeats, holds exactly the peers seen that
    the graph does not have. *)
Theorem live_view_sound evs :
  let s := after evs in
  (∀ id st, Edges (Snapshot s) !! id = Some st →
     (RxPS st, TxPS st, HS st) = flattenSides (visit (Sides st)) ∧ freshest (map_to_list (Sides st)).*2 (HS st) ∧
     ∀ h sd, Sides st !! h = Some sd →
       sign_bit (sd_RxPS sd) = false ∧ sign_bit (sd_TxPS sd) = false ∧
       (RateReady sd = false → sd_RxPS sd = fzero ∧ sd_TxPS sd = fzero) ∧ ∃ k, k_Host k = h ∧ edgeFor !! k = Some id) ∧
  (StronglySorted (not_after drift_less) (Drift (Snapshot s)) ∧ NoDup (Drift (Snapshot s)) ∧
   ∀ d, d ∈ Drift (Snapshot s) ↔ drifted s !! {| k_Host := dp_Host d; k_Iface := dp_Iface d; k_Peer := dp_PubKey d |} = Some d) ∧
  (∀ d, d ∈ Drift (Snapshot s) → edgeFor !! {| k_Host := dp_Host d; k_Iface := dp_Iface d; k_Peer := dp_PubKey d |} = None).
Proof.
  intros s. destruct (after_ok evs) as [Hp Hd Hf Hs]. fold s in Hp, Hd, Hf, Hs.
  assert (∀ d, d ∈ Drift (Snapshot s) ↔ drifted s !! {| k_Host := dp_Host d; k_Iface := dp_Iface d; k_Peer := dp_PubKey d |} = Some d) as Hel.
  { intros d. unfold Snapshot, DriftList. cbn [Drift]. rewrite sort_elem_of, list_elem_of_fmap. split.
    - intros ([k d'] & -> & Hk%elem_of_map_to_list). cbn. by destruct (Hd _ _ Hk) as [_ <-].
    - intros Hk. exists ({| k_Host := dp_Host d; k_Iface := dp_Iface d; k_Peer := dp_PubKey d |}, d). split; [done|]. by apply elem_of_map_to_list. }
  split_and!.
  - intros id st Hst. destruct (Hf id st Hst) as [Hfl _]. split; [done|]. split.
    + pose proof (flatten_freshest (visit (Sides st))) as H. rewrite <-Hfl in H. cbn [snd] in H. unfold freshest in *.
      by setoid_rewrite visit_perm in H.
    + intros h sd Hsd. destruct (Hs id st h sd Hst Hsd) as (? & ? & ? & k & ? & ? & _). eauto 10.
  - apply sort_sorted, drift_less_weak.
  - unfold Snapshot, DriftList. cbn [Drift]. apply sort_NoDup. apply NoDup_fmap_2_strong; [|apply NoDup_map_to_list].
    intros [k d] [k' d'] Hk%elem_of_map_to_list Hk'%elem_of_map_to_list E. cbn in E. subst d'.
    destruct (Hd _ _ Hk) as [_ ->], (Hd _ _ Hk') as [_ ->]. done.
  - done.
  - intros d Hin. apply Hel in Hin. by destruct (Hd _ _ Hin).
Qed.
End history.

Definition visit_all (m : gmap string EdgeSideStat) : list EdgeSideStat := (map_to_list m).*2.
Definition one_tunnel : gmap TunnelKey string :=
  {[ {| k_Host := "gw-a"; k_Iface := "wg0"; k_Peer := "B" |} := "edge" ]}.
Definition peer_at (pub : string) (rx tx : Z) : PeerSample :=
  {| ps_Iface := "wg0"; ps_PubKey := pub; ps_Endpoint := ""; ps_AllowedIPs := []; ps_Rx := rx; ps_Tx := tx; ps_Handshake := 0 |}.
(** Two polls of one host ten seconds apart; an unknown peer the second time. *)
Definition two_polls : list event :=
  [EvRecord "gw-a" [peer_at "B" 100 200] (Unix 1000) (Unix 1000);
   EvRecord "gw-a" [peer_at "B" 150 100; peer_at "X" 0 0] (Unix 1010) (Unix 1010); EvFail "gw-b" "timeout"].

Lemma live_view_sound_witness :
  let s := after visit_all one_tunnel two_polls in
  (RxPS <$> Edges (Snapshot s) !! "edge", TxPS <$> Edges (Snapshot s) !! "edge") = (Some (of_int 5), Some fzero) ∧
  (dp_PubKey <$> Drift (Snapshot s)) = ["X"] ∧
  StronglySorted (not_after drift_less) (Drift (Snapshot s)).
Proof.
  intros s. split_and!; [by vm_compute|by vm_compute|].
  apply (live_view_sound visit_all (λ m, reflexivity _) one_tunnel two_polls).
Defined.
