(* ===== verification/NetIP.v ===== *)
(** Package net: [SplitHostPort], and [ParseIP], the addresses the program
    compares as parsed values rather than as text.  An address is its sixteen
    bytes, an IPv4 one in the mapped form, so that equality is [IP.Equal]; a
    text with a zone is none. *)

From Stdlib Require Import Ascii String.
From S2P Require Import Prelude GoStrings.

(** [strings.IndexAny], for a set of bytes. *)
Fixpoint IndexFunc (p : ascii → bool) (s : string) : option nat :=
  match s with
  | EmptyString => None
  | String c s' => if p c then Some O else S <$> IndexFunc p s'
  end.

Definition Index (s : string) (c : ascii) : option nat := IndexFunc (Ascii.eqb c) s.
Definition LastIndex (s : string) (c : ascii) : option nat :=
  (λ i, (String.length s - 1 - i)%nat) <$> Index (reverse_string s) c.

(** [net.SplitHostPort]; every error is the same to its caller. *)
Definition SplitHostPort (hp : string) : option (string * string) :=
  match LastIndex hp ":" with
  | None => None
  | Some i =>
      let port := drop_bytes (S i) hp in
      if HasPrefix hp "[" then
        match Index hp "]" with
        | None => None
        | Some e =>
            if (S e =? i)%nat then
              if is_Some_dec (Index (drop_bytes 1 hp) "[") then None
              else if is_Some_dec (Index (drop_bytes (S e) hp) "]") then None
              else Some (drop_bytes 1 (take_bytes e hp), port)
            else None
        end
      else
        let host := take_bytes i hp in
        if is_Some_dec (Index host ":") then None
        else if is_Some_dec (Index hp "[") then None
        else if is_Some_dec (Index hp "]") then None
        else Some (host, port)
  end.

(** ** Addresses *)

Definition IP : Type := list Z.

(** The octets of a dotted quad.  [start] is true at the beginning and after a
    dot; [done_] holds the octets read. *)
Fixpoint ipv4_fields (s : string) (start : bool) (val : Z) (digits : nat) (done_ : list Z) : option (list Z) :=
  match s with
  | EmptyString => if (length done_ <? 3)%nat then None else Some (done_ ++ [val])
  | String c s' =>
      if is_digit c then
        if (digits =? 1)%nat && (val =? 0) then None
        else
          let val := val * 10 + digit_val c in
          if 255 <? val then None else ipv4_fields s' false val (S digits) done_
      else if Ascii.eqb c "." then
        if start || String.eqb s' "" then None
        else if (length done_ =? 3)%nat then None
        else ipv4_fields s' true 0 0 (done_ ++ [val])
      else None
  end.

Definition parseIPv4Fields (s : string) : option (list Z) := ipv4_fields s true 0 0 [].

Definition mapped_prefix : list Z := [0; 0; 0; 0; 0; 0; 0; 0; 0; 0; 255; 255].

(** The leading hex digits of a group: how many, their value, and the rest;
    [None] for more than four. *)
Fixpoint hex_group (s : string) (off : nat) (acc : Z) : option (nat * Z * string) :=
  match s with
  | String c s' =>
      match letter_digit c with
      | Some d =>
          if d <? 16 then
            if (3 <? off)%nat then None else hex_group s' (S off) (acc * 16 + d)
          else Some (off, acc, s)
      | None => Some (off, acc, s)
      end
  | EmptyString => Some (off, acc, s)
  end.

(** The loop over the groups; [ip] holds the bytes read, [ellipsis] where "::"
    stood.  One unit of fuel per two bytes. *)
Fixpoint ipv6_groups (fuel : nat) (s : string) (ip : list Z) (ellipsis : option nat) : option (string * list Z * option nat) :=
  match fuel with
  | O => Some (s, ip, ellipsis)
  | S fuel' =>
      match hex_group s 0 0 with
      | None => None
      | Some (off, acc, rest) =>
          if (off =? 0)%nat then None
          else if HasPrefix rest "." then
            if bool_decide (ellipsis = None) && negb (length ip =? 12)%nat then None
            else if (16 <? length ip + 4)%nat then None
            else match parseIPv4Fields s with
                 | Some f => Some (EmptyString, ip ++ f, ellipsis)
                 | None => None
                 end
          else
            let ip := ip ++ [acc / 256; acc mod 256] in
            match rest with
            | EmptyString => Some (rest, ip, ellipsis)
            | String c rest' =>
                if negb (Ascii.eqb c ":") then None
                else match rest' with
                     | EmptyString => None
                     | String d rest'' =>
                         if Ascii.eqb d ":" then
                           if bool_decide (is_Some ellipsis) then None
                           else if String.eqb rest'' "" then Some (EmptyString, ip, Some (length ip))
                           else ipv6_groups fuel' rest'' ip (Some (length ip))
                         else ipv6_groups fuel' rest' ip ellipsis
                     end
            end
      end
  end.

Definition expand (ip : list Z) (e : nat) : list Z := take e ip ++ replicate (16 - length ip) 0 ++ drop e ip.

Definition parseIPv6 (s : string) : option IP :=
  let '(s, ellipsis) := if HasPrefix s "::" then (drop_bytes 2 s, Some O) else (s, None) in
  if String.eqb s "" && bool_decide (is_Some ellipsis) then Some (replicate 16 0)
  else
    match ipv6_groups 8 s [] ellipsis with
    | None => None
    | Some (rest, ip, ellipsis) =>
        if negb (String.eqb rest "") then None
        else if (length ip <? 16)%nat then
          match ellipsis with None => None | Some e => Some (expand ip e) end
        else if bool_decide (is_Some ellipsis) then None
        else Some ip
    end.

(** Which notation a text uses: its first dot or colon decides. *)
Fixpoint parse_as (s whole : string) : option IP :=
  match s with
  | EmptyString => None
  | String c s' =>
      if Ascii.eqb c "." then (λ f, mapped_prefix ++ f) <$> parseIPv4Fields whole
      else if Ascii.eqb c ":" then parseIPv6 whole
      else if Ascii.eqb c "%" then None
      else parse_as s' whole
  end.

Definition ParseIP (s : string) : option IP :=
  if string_exists (Ascii.eqb "%") s then None else parse_as s s.

Example ParseIP_v4 : ParseIP "10.40.0.1" = Some (mapped_prefix ++ [10; 40; 0; 1]).
Proof. reflexivity. Qed.
Example ParseIP_mapped : ParseIP "::ffff:10.40.0.1" = ParseIP "10.40.0.1".
Proof. reflexivity. Qed.
Example ParseIP_v6_spellings : ParseIP "2001:DB8:0:0::1" = ParseIP "2001:db8::1" ∧ is_Some (ParseIP "2001:db8::1").
Proof. split; [reflexivity|]. vm_compute. eauto. Qed.
Example ParseIP_refuses :
  Forall (λ s, ParseIP s = None)
    ["10.40.0.01"; "10.40.0"; "10.40.0.256"; "10.40.0.1/24"; "1:2:3:4:5:6:7"; "1::2::3"; "1:2:3:4:5:6:7:8::"; "fe80::1%eth0"; "host"; ":1"; "1:"; "12345::"].
Proof. repeat constructor. Qed.
