(* ===== verification/Syncx.v ===== *)
(** Inventory rows from an ssh configuration (internal/syncx): the parser of
    [~/.ssh/config], the selection of hosts with the jump hosts they need, and
    the rows built from them. *)

From Stdlib Require Import Ascii String.
From stdpp Require Import fin_sets fin_map_dom.
From S2P Require Import Prelude GoStrings NetIP InvCache.

Definition newline : ascii := Ascii.ascii_of_nat 10.
Definition error : Type := string.

(** ** Data *)

Record DCRule := { rule_Name : string; Prefixes : list string }.

Record BuildOptions := {
  o_Prefix : string; DefaultUser : string; o_CARole : string; ProbeTimeout : duration; ProbeConcurrency : Z;
  DCRules : list DCRule;
}.

Record hostBlock := { alias : string; hostName : string; user : string; port : Z; proxyJump : string }.

(** ** The configuration file *)

Definition separators : string := String " " (String (Ascii.ascii_of_nat 9) "=").

Definition splitFields (line : string) : option (string * list string) :=
  match IndexFunc (in_cutset separators) line with
  | Some (S i) =>
      let vals := Fields (TrimSpace (TrimLeft (drop_bytes (S i) line) separators)) in
      match vals with [] => None | _ => Some (take_bytes (S i) line, vals) end
  | _ => None
  end.

(** The loop's variables. *)
Record parser := { blocks : list hostBlock; cur : option hostBlock; aliases : list string }.

Definition with_alias (b : hostBlock) (a : string) : hostBlock :=
  {| alias := a; hostName := hostName b; user := user b; port := port b; proxyJump := proxyJump b |}.

(** The closure [flush]. *)
Definition flush (p : parser) : list hostBlock :=
  match cur p with
  | Some b =>
      if String.eqb (hostName b) "" then blocks p
      else blocks p ++ (with_alias b <$> filter (λ a, ContainsAny a "*?" = false) (aliases p))
  | None => blocks p
  end.

Definition set_cur (p : parser) (f : hostBlock → hostBlock) : parser :=
  {| blocks := blocks p; cur := f <$> cur p; aliases := aliases p |}.

Definition parse_setting (p : parser) (key : string) (vals : list string) : parser :=
  let v := default "" (head vals) in
  if String.eqb key "host" then
    {| blocks := flush p; cur := Some {| alias := ""; hostName := ""; user := ""; port := 22; proxyJump := "" |}; aliases := vals |}
  else if String.eqb key "hostname" then
    set_cur p (λ b, {| alias := alias b; hostName := v; user := user b; port := port b; proxyJump := proxyJump b |})
  else if String.eqb key "user" then
    set_cur p (λ b, {| alias := alias b; hostName := hostName b; user := v; port := port b; proxyJump := proxyJump b |})
  else if String.eqb key "port" then
    match Atoi v with
    | (n, None) => set_cur p (λ b, {| alias := alias b; hostName := hostName b; user := user b; port := n; proxyJump := proxyJump b |})
    | (_, Some _) => p
    end
  else if String.eqb key "proxyjump" then
    set_cur p (λ b, {| alias := alias b; hostName := hostName b; user := user b; port := port b; proxyJump := v |})
  else p.

Definition parse_line (p : parser) (text : string) : parser :=
  let line := TrimSpace text in
  if String.eqb line "" || HasPrefix line "#" then p
  else match splitFields line with
       | Some (key, vals) => parse_setting p (ToLower key) vals
       | None => p
       end.

Definition parse_start : parser := {| blocks := []; cur := None; aliases := [] |}.

(** [read] is what opening and reading the file gives. *)
Definition Parse (read : result error string) : result error (list hostBlock) :=
  text ← read; mret (flush (foldl parse_line parse_start (Split text newline))).

(** ** Jump hosts *)

(** The host of [host[:port]]. *)
Definition jump_host (jump : string) : string :=
  match SplitHostPort jump with
  | Some (host, _) => Trim host "[]"
  | None =>
      match LastIndex jump ":" with
      | Some (S i) => if Contains (drop_bytes (S (S i)) jump) ":" then Trim jump "[]" else Trim (take_bytes (S i) jump) "[]"
      | _ => Trim jump "[]"
      end
  end.

Definition normalizeJumpAlias (jump : string) : string :=
  if String.eqb jump "" then ""
  else
    let jump := match Index jump "," with Some i => take_bytes i jump | None => jump end in
    let jump := match LastIndex jump "@" with Some i => drop_bytes (S i) jump | None => jump end in
    jump_host jump.

Definition indexByAlias (bs : list hostBlock) : gmap string hostBlock :=
  map_by alias (λ b, b) bs.

(** The breadth-first walk; [None] when the fuel runs out. *)
Fixpoint jump_walk (fuel : nat) (byAlias : gmap string hostBlock) (seen : gset string) (queue selected : list hostBlock)
    : option (list hostBlock) :=
  match queue, fuel with
  | [], _ => Some selected
  | _, O => None
  | b :: queue', S fuel' =>
      if String.eqb (proxyJump b) "" then jump_walk fuel' byAlias seen queue' selected
      else
        let ja := normalizeJumpAlias (proxyJump b) in
        if String.eqb ja "" || bool_decide (ja ∈ seen) then jump_walk fuel' byAlias seen queue' selected
        else match byAlias !! ja with
             | None => jump_walk fuel' byAlias seen queue' selected
             | Some jb => jump_walk fuel' byAlias ({[ja]} ∪ seen) (queue' ++ [jb]) (selected ++ [jb])
             end
  end.

(** Every block is queued once, and only a new alias is added. *)
Definition walk_fuel (selected : list hostBlock) (byAlias : gmap string hostBlock) : nat := length selected + size byAlias.

Definition includeJumpHosts (selected : list hostBlock) (byAlias : gmap string hostBlock) : list hostBlock :=
  default selected (jump_walk (walk_fuel selected byAlias) byAlias (list_to_set (alias <$> selected)) selected selected).

(** ** Rows *)

Definition filterByPrefix (bs : list hostBlock) (prefix : string) : list hostBlock :=
  if String.eqb prefix "" then bs
  else filter (λ b, HasPrefix (ToLower (alias b)) (ToLower prefix) = true) bs.

Definition resolveJumpAlias (proxyJump : string) (byAlias : gmap string hostBlock) : string :=
  if String.eqb proxyJump "" then ""
  else
    let jumpAlias := normalizeJumpAlias proxyJump in
    match byAlias !! jumpAlias with Some jb => alias jb | None => jumpAlias end.

Definition DefaultDCRules : list DCRule :=
  [{| rule_Name := "incheon"; Prefixes := ["10.40.0."; "192.168.10."] |};
   {| rule_Name := "seoul-onprem"; Prefixes := ["192.168.201."; "192.168.190."; "192.168.110."] |}].

Definition defaultProbeTimeout : duration := 3 * Second.
Definition defaultProbeConcurrency : Z := 32.
Definition maxProbeConcurrency : Z := 128.

Definition withDefaults (o : BuildOptions) : BuildOptions :=
  let c := if ProbeConcurrency o <=? 0 then defaultProbeConcurrency else ProbeConcurrency o in
  {| o_Prefix := o_Prefix o; DefaultUser := DefaultUser o; o_CARole := o_CARole o;
     ProbeTimeout := if ProbeTimeout o <=? 0 then defaultProbeTimeout else ProbeTimeout o;
     ProbeConcurrency := if maxProbeConcurrency <? c then maxProbeConcurrency else c;
     DCRules := match DCRules o with [] => DefaultDCRules | rs => rs end |}.

Definition rule_matches (ip : string) (r : DCRule) : bool :=
  existsb (λ p, negb (String.eqb p "") && HasPrefix ip p) (Prefixes r).

Fixpoint classifyDCWithRules (ip : string) (rules : list DCRule) : string :=
  match rules with
  | [] => "unknown"
  | r :: rules' => if rule_matches ip r then rule_Name r else classifyDCWithRules ip rules'
  end.

Definition buildServer (b : hostBlock) (byAlias : gmap string hostBlock) (up : option time_t) (opts : BuildOptions) : Server :=
  {| Hostname := alias b; IP := hostName b; Port := port b; User := FirstNonEmpty [user b; DefaultUser opts];
     JumpVia := resolveJumpAlias (proxyJump b) byAlias; DC := classifyDCWithRules (hostName b) (DCRules opts);
     CARole := o_CARole opts; CAKeyVersion := 0; LastSeenUp := up; ExtraIPs := []; ServerState := "" |}.

Section probing.
(** When a host answered, if it did; the order in which the workers finish. *)
Context (probeOne : duration → hostBlock → option time_t) (finish : list hostBlock → list hostBlock).

Definition probeAll (bs : list hostBlock) (timeout : duration) : gmap string (option time_t) :=
  map_by alias (probeOne timeout) (finish bs).

Definition BuildWithOptions (bs : list hostBlock) (opts : BuildOptions) : list Server :=
  let opts := withDefaults opts in
  let byAlias := indexByAlias bs in
  let filtered := includeJumpHosts (filterByPrefix bs (o_Prefix opts)) byAlias in
  let up := probeAll filtered (ProbeTimeout opts) in
  (λ b, buildServer b byAlias (mjoin (up !! alias b)) opts) <$> filtered.
End probing.

(** ** The jump-host walk *)

(** The block a block's jump alias names in the file. *)
Definition jump_of (byAlias : gmap string hostBlock) (b : hostBlock) : option hostBlock :=
  if String.eqb (proxyJump b) "" then None
  else let ja := normalizeJumpAlias (proxyJump b) in if String.eqb ja "" then None else byAlias !! ja.

Definition keyed (byAlias : gmap string hostBlock) : Prop := ∀ a b, byAlias !! a = Some b → alias b = a.

Lemma indexByAlias_spec bs : keyed (indexByAlias bs) ∧ (∀ a b, indexByAlias bs !! a = Some b → b ∈ bs) ∧
  ∀ b, b ∈ bs → is_Some (indexByAlias bs !! alias b).
Proof.
  unfold indexByAlias. destruct (map_by_spec alias (λ b, b) bs) as [Hs Hd]. split_and!; [..|done]; intros a b H;
    destruct (Hs a b H) as (x & ? & ? & ->); done.
Qed.

Lemma jump_of_keyed byAlias b jb : keyed byAlias → jump_of byAlias b = Some jb → alias jb = normalizeJumpAlias (proxyJump b) ∧ byAlias !! alias jb = Some jb.
Proof.
  intros Hk. unfold jump_of. destruct (String.eqb (proxyJump b) ""); [done|]. cbv zeta. destruct (String.eqb _ ""); [done|].
  intros H. rewrite (Hk _ _ H). done.
Qed.

Section walk.
Context (byAlias : gmap string hostBlock) (Hkeyed : keyed byAlias).

Lemma jump_walk_cons fuel seen b queue selected : jump_walk (S fuel) byAlias seen (b :: queue) selected =
  match jump_of byAlias b with
  | Some jb => if decide (alias jb ∈ seen) then jump_walk fuel byAlias seen queue selected
               else jump_walk fuel byAlias ({[alias jb]} ∪ seen) (queue ++ [jb]) (selected ++ [jb])
  | None => jump_walk fuel byAlias seen queue selected
  end.
Proof.
  cbn [jump_walk]. unfold jump_of. destruct (String.eqb (proxyJump b) ""); [done|]. cbv zeta.
  destruct (String.eqb _ ""); [done|]. cbn [orb]. destruct (byAlias !! normalizeJumpAlias _) as [jb|] eqn:E; [|by case_bool_decide].
  rewrite (Hkeyed _ _ E). case_bool_decide; [by rewrite decide_True|by rewrite decide_False].
Qed.

(** The jump host of [b], if the file has it, has been selected. *)
Definition settled (seen : gset string) (b : hostBlock) : Prop := ∀ jb, jump_of byAlias b = Some jb → alias jb ∈ seen.

(** Queued blocks, and known aliases not selected yet. *)
Definition todo (seen : gset string) (queue : list hostBlock) : nat := length queue + size (dom byAlias ∖ seen).

Lemma todo_push seen queue jb : byAlias !! alias jb = Some jb → alias jb ∉ seen →
  todo ({[alias jb]} ∪ seen) (queue ++ [jb]) = todo seen queue.
Proof.
  intros Hl Hn. unfold todo. rewrite length_app. cbn [length].
  assert (dom byAlias ∖ seen = {[alias jb]} ∪ dom byAlias ∖ ({[alias jb]} ∪ seen)) as E.
  { apply set_eq. intros a. apply elem_of_dom_2 in Hl. destruct (decide (a = alias jb)); set_solver. }
  assert ({[alias jb]} ## dom byAlias ∖ ({[alias jb]} ∪ seen)) as Hd by set_solver. rewrite E, (size_union _ _ Hd), size_singleton. lia.
Qed.

(** What is added to a selection: what its jumps reach, once each. *)
Record walked (R : hostBlock → Prop) (seen : gset string) (selected added : list hostBlock) : Prop := {
  wk_new : NoDup (alias <$> added) ∧ ∀ a, a ∈ alias <$> added → a ∉ seen;
  wk_reach : ∀ b, b ∈ added → R b;
  wk_settled : ∀ b, b ∈ selected ++ added → settled (list_to_set (alias <$> selected ++ added)) b;
}.

Lemma jump_walk_spec (R : hostBlock → Prop) (HR : ∀ b jb, R b → jump_of byAlias b = Some jb → R jb) :
  ∀ fuel seen queue selected, (todo seen queue ≤ fuel)%nat →
  (∀ a, a ∈ seen ↔ a ∈ alias <$> selected) → (∀ b, b ∈ queue → R b) →
  (∀ b, b ∈ selected → b ∈ queue ∨ settled seen b) →
  ∃ added, jump_walk fuel byAlias seen queue selected = Some (selected ++ added) ∧ walked R seen selected added.
Proof.
  induction fuel as [|fuel IH]; intros seen queue selected Hf Hseen Hq Hs.
  - destruct queue as [|b queue]; [|unfold todo in Hf; cbn in Hf; lia]. exists []. rewrite !app_nil_r. split; [done|].
    split; rewrite ?app_nil_r; [split; [constructor|set_solver]|set_solver|].
    intros b Hb jb Hj. destruct (Hs b Hb) as [?|H]; [set_solver|]. apply elem_of_list_to_set, Hseen, H, Hj.
  - destruct queue as [|b queue].
    { exists []. rewrite !app_nil_r. split; [done|]. split; rewrite ?app_nil_r; [split; [constructor|set_solver]|set_solver|].
      intros b Hb jb Hj. destruct (Hs b Hb) as [?|H]; [set_solver|]. apply elem_of_list_to_set, Hseen, H, Hj. }
    rewrite jump_walk_cons.
    assert (∀ jb, jump_of byAlias b = Some jb → alias jb ∉ seen → ∃ added,
      jump_walk fuel byAlias ({[alias jb]} ∪ seen) (queue ++ [jb]) (selected ++ [jb]) = Some (selected ++ added) ∧ walked R seen selected added) as Hpush.
    { intros jb Hj Hn. destruct (jump_of_keyed _ _ _ Hkeyed Hj) as [_ Hl].
      destruct (IH ({[alias jb]} ∪ seen) (queue ++ [jb]) (selected ++ [jb])) as (added & Hw & [Hnew Hreach Hset]).
      - rewrite todo_push by done. unfold todo in *. cbn [length] in Hf. lia.
      - intros a. rewrite fmap_app, elem_of_app, elem_of_union, Hseen. cbn. set_solver.
      - intros b' [Hb'|Hb']%elem_of_app; [apply Hq; by right|]. apply list_elem_of_singleton in Hb' as ->. apply (HR b); [apply Hq; by left|done].
      - intros b' [Hb'|Hb']%elem_of_app; [|left; set_solver]. destruct (Hs b' Hb') as [Hb''|H].
        + apply elem_of_cons in Hb'' as [->|?]; [|left; set_solver]. right. intros jb' Hj'. assert (jb' = jb) as -> by congruence. set_solver.
        + right. intros jb' Hj'. specialize (H jb' Hj'). set_solver.
      - exists (jb :: added). rewrite Hw, <-(assoc_L (++)). split; [done|]. rewrite <-!(assoc_L (++)) in Hset. destruct Hnew as [Hnd Hnew].
        split; [|intros b' [->|Hb']%elem_of_cons; [apply (HR b); [apply Hq; by left|done]|by apply Hreach]|done].
        csimpl. split; [constructor; [|done]; intros H; apply Hnew in H; set_solver|].
        intros a [->|Ha]%elem_of_cons; [done|]. apply Hnew in Ha. set_solver. }
    assert (settled seen b → ∃ added, jump_walk fuel byAlias seen queue selected = Some (selected ++ added) ∧ walked R seen selected added) as Hskip.
    { intros Hb. apply IH; [unfold todo in *; cbn [length] in Hf; lia|done|intros b' ?; apply Hq; by right|].
      intros b' Hb'. destruct (Hs b' Hb') as [[->|?]%elem_of_cons|?]; auto. }
    destruct (jump_of byAlias b) as [jb|] eqn:Hj; [|apply Hskip; intros jb; congruence].
    destruct (decide (alias jb ∈ seen)) as [Hin|Hn]; [|by apply Hpush].
    apply Hskip. intros jb' Hj'. congruence.
Qed.

(** What a host needs to be reached: itself, its jump host, that one's. *)
Inductive needed (selected : list hostBlock) : hostBlock → Prop :=
| needed_selected b : b ∈ selected → needed selected b
| needed_jump b jb : needed selected b → jump_of byAlias b = Some jb → needed selected jb.

Lemma includeJumpHosts_spec selected : ∃ added, includeJumpHosts selected byAlias = selected ++ added ∧
  jump_walk (walk_fuel selected byAlias) byAlias (list_to_set (alias <$> selected)) selected selected = Some (selected ++ added) ∧
  walked (needed selected) (list_to_set (alias <$> selected)) selected added.
Proof.
  destruct (jump_walk_spec (needed selected) (needed_jump selected) (walk_fuel selected byAlias) (list_to_set (alias <$> selected)) selected selected)
    as (added & Hw & Hk).
  - unfold todo, walk_fuel. rewrite <-size_dom. apply Nat.add_le_mono_l, subseteq_size. set_solver.
  - intros a. apply elem_of_list_to_set.
  - apply needed_selected.
  - by left.
  - exists added. unfold includeJumpHosts. by rewrite Hw.
Qed.
End walk.

Lemma filterByPrefix_sub bs prefix b : b ∈ filterByPrefix bs prefix → b ∈ bs.
Proof. unfold filterByPrefix. destruct (String.eqb prefix ""); [done|]. rewrite list_elem_of_filter. tauto. Qed.

Lemma needed_sub bs selected b : (∀ b, b ∈ selected → b ∈ bs) → needed (indexByAlias bs) selected b → b ∈ bs.
Proof.
  intros Hs. destruct (indexByAlias_spec bs) as (Hk & Hin & _). induction 1 as [b Hb|b jb _ _ Hj]; [by apply Hs|].
  eapply Hin. by apply (jump_of_keyed _ _ _ Hk Hj).
Qed.

Lemma resolve_jump_of byAlias b : keyed byAlias → resolveJumpAlias (proxyJump b) byAlias ≠ "" →
  is_Some (byAlias !! resolveJumpAlias (proxyJump b) byAlias) →
  ∃ jb, jump_of byAlias b = Some jb ∧ resolveJumpAlias (proxyJump b) byAlias = alias jb.
Proof.
  intros Hk. unfold resolveJumpAlias, jump_of. destruct (String.eqb (proxyJump b) ""); [done|]. cbv zeta.
  destruct (byAlias !! normalizeJumpAlias (proxyJump b)) as [jb|] eqn:E.
  - rewrite (Hk _ _ E). intros Hne _. rewrite (proj2 (String.eqb_neq _ _) Hne). exists jb. split; [done|]. by rewrite (Hk _ _ E).
  - intros _ [jb Hjb]. congruence.
Qed.

Lemma probeAll_spec probeOne finish bs timeout b : (∀ l, finish l ≡ₚ l) → b ∈ bs →
  ∃ b', b' ∈ bs ∧ alias b' = alias b ∧ probeAll probeOne finish bs timeout !! alias b = Some (probeOne timeout b').
Proof.
  intros Hf Hb. unfold probeAll. destruct (map_by_spec alias (probeOne timeout) (finish bs)) as [Hs Hd].
  destruct (Hd b) as [r Hr]; [by rewrite Hf|]. destruct (Hs _ _ Hr) as (b' & Hb' & Ha & ->). rewrite Hf in Hb'. by exists b'.
Qed.

(** An inventory built from a configuration can be reached.  The walk over
    jump hosts ends; the hosts with the prefix come first, in the file's order,
    and only the jump hosts they need, directly or through others, follow, once
    each; a row whose jump host the file names has that host's row beside it;
    and a row's fields are its block's, its liveness that of a block probed
    under its name, whatever order the probes finished in. *)
Theorem Build_is_reachable probeOne finish bs opts :
  (∀ l, finish l ≡ₚ l) →
  let out := BuildWithOptions probeOne finish bs opts in
  let byAlias := indexByAlias bs in
  let sel := filterByPrefix bs (o_Prefix opts) in
  is_Some (jump_walk (walk_fuel sel byAlias) byAlias (list_to_set (alias <$> sel)) sel sel) ∧
  (∃ added, Hostname <$> out = (alias <$> sel) ++ added ∧ NoDup added ∧ ∀ a, a ∈ added → a ∉ alias <$> sel) ∧
  (∀ sv, sv ∈ out → ∃ b b', b ∈ bs ∧ needed byAlias sel b ∧ b' ∈ bs ∧ alias b' = alias b ∧
     sv = buildServer b byAlias (probeOne (ProbeTimeout (withDefaults opts)) b') (withDefaults opts)) ∧
  (∀ sv, sv ∈ out → JumpVia sv ≠ "" → JumpVia sv ∈ alias <$> bs → JumpVia sv ∈ Hostname <$> out).
Proof.
  intros Hf out byAlias sel. destruct (indexByAlias_spec bs) as (Hk & _ & Hdom). fold byAlias in Hk, Hdom.
  destruct (includeJumpHosts_spec byAlias Hk sel) as (added & Hinc & Hwalk & [[Hnd Hnew] Hreach Hset]).
  assert (out = (λ b, buildServer b byAlias (mjoin (probeAll probeOne finish (sel ++ added) (ProbeTimeout (withDefaults opts)) !! alias b)) (withDefaults opts)) <$> sel ++ added) as Hout.
  { unfold out, BuildWithOptions. cbv zeta. fold byAlias. change (o_Prefix (withDefaults opts)) with (o_Prefix opts). fold sel. by rewrite Hinc. }
  assert (Hostname <$> out = alias <$> sel ++ added) as Hhost.
  { rewrite Hout, <-list_fmap_compose. by apply list_fmap_ext. }
  assert (∀ b, b ∈ sel ++ added → needed byAlias sel b) as Hneed.
  { intros b [Hb|Hb]%elem_of_app; [by apply needed_selected|by apply Hreach]. }
  assert (∀ b, b ∈ sel ++ added → b ∈ bs) as Hsub.
  { intros b Hb. apply (needed_sub bs sel); [intros b'; apply filterByPrefix_sub|by apply Hneed]. }
  split_and!.
  - by rewrite Hwalk.
  - exists (alias <$> added). rewrite Hhost, fmap_app. split_and!; [done|done|]. intros a Ha Hin. apply (Hnew a Ha). by apply elem_of_list_to_set.
  - intros sv Hsv. rewrite Hout in Hsv. apply list_elem_of_fmap in Hsv as (b & -> & Hb).
    destruct (probeAll_spec probeOne finish (sel ++ added) (ProbeTimeout (withDefaults opts)) b Hf Hb) as (b' & Hb' & Ha & ->).
    exists b, b'. split_and!; [by apply Hsub|by apply Hneed|by apply Hsub|done|done].
  - intros sv Hsv Hne (bj & Hbj & Hin)%list_elem_of_fmap. rewrite Hout in Hsv. apply list_elem_of_fmap in Hsv as (b & -> & Hb).
    cbn [JumpVia buildServer] in *. destruct (resolve_jump_of byAlias b Hk Hne) as (jb & Hj & Ejb); [rewrite Hbj; by apply Hdom|].
    rewrite Hhost, Ejb. by apply (elem_of_list_to_set (C:=gset string)), (Hset b Hb).
Qed.

Lemma Build_is_reachable_witness :
  let file := [{| alias := "bastion"; hostName := "10.40.0.10"; user := ""; port := 22; proxyJump := "edge:2222" |};
               {| alias := "edge"; hostName := "10.40.0.9"; user := ""; port := 22; proxyJump := "bastion" |};
               {| alias := "sre-app"; hostName := "10.40.0.20"; user := "ubuntu"; port := 22; proxyJump := "ops@bastion" |}] in
  let opts := {| o_Prefix := "SRE"; DefaultUser := "rocky"; o_CARole := "core"; ProbeTimeout := 0; ProbeConcurrency := 0; DCRules := [] |} in
  let out := BuildWithOptions (λ _ _, Some 7) reverse file opts in
  (Hostname <$> out) = ["sre-app"; "bastion"; "edge"] ∧
  (∀ sv, sv ∈ out → JumpVia sv ≠ "" → JumpVia sv ∈ alias <$> file → JumpVia sv ∈ Hostname <$> out).
Proof.
  intros file opts out. split; [vm_compute; reflexivity|].
  apply (Build_is_reachable (λ _ _, Some 7) reverse file opts). intros l. apply reverse_Permutation.
Defined.

(** ** Jump aliases *)

Lemma IndexFunc_none p s : string_all (λ c, negb (p c)) s = true → IndexFunc p s = None.
Proof.
  induction s as [|c s IH]; cbn [string_all IndexFunc]; [done|]. intros [Hc H]%andb_true_iff. apply negb_true_iff in Hc. by rewrite Hc, IH.
Qed.

Lemma IndexFunc_app p a c b : string_all (λ c, negb (p c)) a = true → p c = true → IndexFunc p (a +:+ String c b) = Some (String.length a).
Proof.
  intros Ha Hc. induction a as [|d a IH]; [change (EmptyString +:+ String c b) with (String c b); cbn [IndexFunc]; by rewrite Hc|]. cbn [string_all] in Ha. apply andb_true_iff in Ha as [Hd Ha].
  apply negb_true_iff in Hd. rewrite string_app_cons. cbn [IndexFunc]. by rewrite Hd, IH.
Qed.

Lemma length_reverse s : String.length (reverse_string s) = String.length s.
Proof.
  induction s as [|c s IH]; [done|]. rewrite reverse_string_cons, length_string_app, IH. cbn. lia.
Qed.

Lemma lacks_index c s : lacks c s = true → string_all (λ d, negb (Ascii.eqb c d)) s = true.
Proof. apply string_all_impl. intros d. by rewrite Ascii.eqb_sym. Qed.

Lemma LastIndex_none c s : lacks c s = true → LastIndex s c = None.
Proof. intros H. unfold LastIndex, Index. rewrite IndexFunc_none; [done|]. rewrite string_all_reverse. by apply lacks_index. Qed.

Lemma LastIndex_app c a b : lacks c b = true → LastIndex (a +:+ String c b) c = Some (String.length a).
Proof.
  intros H. unfold LastIndex, Index. rewrite reverse_string_app, reverse_string_cons, string_app_assoc.
  change (String c EmptyString +:+ reverse_string a) with (String c (reverse_string a)).
  rewrite IndexFunc_app; [|rewrite string_all_reverse; by apply lacks_index|by rewrite Ascii.eqb_refl].
  cbn. rewrite length_string_app, length_reverse. cbn [String.length]. f_equal. lia.
Qed.

Lemma drop_cons n c s : drop_bytes (S n) (String c s) = drop_bytes n s.
Proof. done. Qed.

Lemma take_cons n c s : take_bytes (S n) (String c s) = String c (take_bytes n s).
Proof. done. Qed.

Lemma drop_after a c b : drop_bytes (S (String.length a)) (a +:+ String c b) = b.
Proof. induction a as [|d a IH]; [done|]. apply IH. Qed.

(** A host name, user or port without the characters the syntax uses. *)
Definition plain (s : string) : Prop := string_all (λ c, negb (in_cutset ",@:[]" c)) s = true.

Lemma plain_lacks c s : in_cutset ",@:[]" c = true → plain s → lacks c s = true.
Proof.
  intros Hc. apply string_all_impl. intros d Hd. destruct (Ascii.eqb_spec d c) as [->|]; [|done]. by rewrite Hc in Hd.
Qed.

Lemma plain_index c s : in_cutset ",@:[]" c = true → plain s → Index s c = None.
Proof. intros Hc Hs. apply IndexFunc_none, lacks_index. by apply plain_lacks. Qed.

Lemma plain_prefix h p : plain h → HasPrefix (h +:+ String ":" p) "[" = false.
Proof.
  destruct h as [|c h]; [done|]. intros H. rewrite string_app_cons. by destruct c as [[] [] [] [] [] [] [] []].
Qed.

Lemma plain_Trim s : plain s → Trim s "[]" = s.
Proof.
  intros H. apply TrimFunc_id. revert H. apply string_all_impl. intros c. rewrite !negb_true_iff. cbn.
  rewrite !orb_false_iff. tauto.
Qed.

Lemma IndexFunc_app_none p a b : IndexFunc p a = None → IndexFunc p b = None → IndexFunc p (a +:+ b) = None.
Proof.
  induction a as [|c a IH]; [done|]. rewrite string_app_cons. cbn [IndexFunc]. destruct (p c); [done|].
  destruct (IndexFunc p a); [done|]. intros _ Hb. by rewrite IH.
Qed.

Lemma SplitHostPort_plain h p : plain h → plain p → SplitHostPort (h +:+ ":" +:+ p) = Some (h, p).
Proof.
  intros Hh Hp. unfold SplitHostPort. change (":" +:+ p) with (String ":" p).
  rewrite LastIndex_app by by apply plain_lacks. rewrite drop_after, take_bytes_app.
  rewrite plain_prefix by done.
  assert (∀ c, in_cutset ",@:[]" c = true → c ≠ ":"%char → Index (h +:+ String ":" p) c = None) as Hi.
  { intros c Hc Hne. apply IndexFunc_app_none; [by apply plain_index|]. cbn [IndexFunc]. destruct (Ascii.eqb_spec c ":"); [done|].
    pose proof (plain_index c p Hc Hp) as H. unfold Index in H. by rewrite H. }
  by rewrite (plain_index ":" h), !Hi.
Qed.

Lemma SplitHostPort_bare h : plain h → SplitHostPort h = None.
Proof. intros Hh. unfold SplitHostPort. rewrite LastIndex_none; [done|]. by apply plain_lacks. Qed.

(** A bracketed address holds colons. *)
Definition address (s : string) : Prop := string_all (λ c, negb (in_cutset ",@[]" c)) s = true.

Lemma address_lacks c s : in_cutset ",@[]" c = true → address s → lacks c s = true.
Proof.
  intros Hc. apply string_all_impl. intros d Hd. destruct (Ascii.eqb_spec d c) as [->|]; [|done]. by rewrite Hc in Hd.
Qed.

Lemma plain_address s : plain s → address s.
Proof. apply string_all_impl. intros c. rewrite !negb_true_iff. cbn. rewrite !orb_false_iff. tauto. Qed.

Lemma address_Trim s : address s → Trim s "[]" = s.
Proof.
  intros H. apply TrimFunc_id. revert H. apply string_all_impl. intros c. rewrite !negb_true_iff. cbn.
  rewrite !orb_false_iff. tauto.
Qed.

Lemma SplitHostPort_bracketed a p : address a → plain p → SplitHostPort ("[" +:+ a +:+ "]:" +:+ p) = Some (a, p).
Proof.
  intros Ha Hp. unfold SplitHostPort.
  change ("[" +:+ a +:+ "]:" +:+ p) with (String "[" (a +:+ String "]" (String ":" p))).
  replace (String "[" (a +:+ String "]" (String ":" p))) with ((String "[" a +:+ "]") +:+ String ":" p)
    by (by rewrite !string_app_cons, string_app_assoc).
  rewrite LastIndex_app, drop_after by by apply plain_lacks.
  assert (Index ((String "[" a +:+ "]") +:+ String ":" p) "]" = Some (S (String.length a))) as ->.
  { rewrite !string_app_cons, string_app_assoc. change (S (String.length a)) with (String.length (String "[" a)).
    rewrite <-string_app_cons. apply (IndexFunc_app _ (String "[" a)); [|done]. cbn [string_all].
    by apply (lacks_index "]"), address_lacks. }
  assert (∀ x, HasPrefix (String "[" x) "[" = true) as Hpre by (intros x; apply (HasPrefix_app "[")).
  rewrite !string_app_cons, Hpre.
  cbn [String.length]. rewrite length_string_app. cbn [String.length]. rewrite (proj2 (Nat.eqb_eq _ _)) by lia.
  rewrite !drop_cons, take_cons, !drop_cons, string_app_assoc, take_bytes_app. change (drop_bytes 0 ?x) with x.
  assert (Index (a +:+ "]" +:+ String ":" p) "[" = None) as ->.
  { apply IndexFunc_app_none; [by apply IndexFunc_none, lacks_index, address_lacks|].
    change ("]" +:+ String ":" p) with ("]:" +:+ p). apply IndexFunc_app_none; [done|]. by apply (plain_index "["). }
  change ("]" +:+ String ":" p) with (String "]" (String ":" p)). rewrite drop_after.
  assert (Index (String ":" p) "]" = None) as ->; [|done].
  apply (IndexFunc_app_none _ ":"); [done|]. by apply (plain_index "]").
Qed.

Lemma jump_host_of_port h p : plain h → plain p → jump_host (h +:+ ":" +:+ p) = h.
Proof. intros Hh Hp. unfold jump_host. rewrite SplitHostPort_plain by done. by apply plain_Trim. Qed.

Lemma jump_host_bare h : plain h → jump_host h = h.
Proof. intros Hh. unfold jump_host. rewrite SplitHostPort_bare, LastIndex_none by (done || by apply plain_lacks). by apply plain_Trim. Qed.

Lemma jump_host_bracketed a p : address a → plain p → jump_host ("[" +:+ a +:+ "]:" +:+ p) = a.
Proof. intros Ha Hp. unfold jump_host. rewrite SplitHostPort_bracketed by done. by apply address_Trim. Qed.

Lemma Contains_lacks c s : lacks c s = true → Contains s (String c EmptyString) = false.
Proof.
  intros H. unfold Contains. assert (Cut s (String c EmptyString) = None) as ->; [|done].
  induction s as [|d s IH]; [done|]. unfold lacks in H. cbn [string_all] in H. apply andb_true_iff in H as [Hd H].
  apply negb_true_iff, Ascii.eqb_neq in Hd. cbn [Cut].
  assert (HasPrefix (String d s) (String c EmptyString) = false) as -> by (unfold HasPrefix; cbn; by destruct (ascii_dec c d)).
  by rewrite IH.
Qed.

Lemma jump_host_unported a g : address a → plain g → jump_host ("[" +:+ a +:+ ":" +:+ g +:+ "]") = a.
Proof.
  intros Ha Hg. assert (lacks ":" (g +:+ "]") = true) as Hg'.
  { unfold lacks. rewrite string_all_app. apply andb_true_iff. split; [by apply plain_lacks|done]. }
  assert ("[" +:+ a +:+ ":" +:+ g +:+ "]" = String "[" a +:+ String ":" (g +:+ "]")) as -> by done.
  unfold jump_host, SplitHostPort. rewrite LastIndex_app by done. cbn [String.length].
  assert (∀ x, HasPrefix (String "[" x) "[" = true) as Hpre by (intros x; apply (HasPrefix_app "[")).
  assert (Index (String "[" a +:+ String ":" (g +:+ "]")) "]" = Some (String.length (String "[" a +:+ String ":" g))) as ->.
  { assert (String "[" a +:+ String ":" (g +:+ "]") = (String "[" a +:+ String ":" g) +:+ "]") as -> by (by rewrite string_app_assoc).
    apply IndexFunc_app; [|done]. apply lacks_index. unfold lacks. rewrite string_all_app. apply andb_true_iff.
    split; [by apply (address_lacks "]")|by apply (plain_lacks "]")]. }
  rewrite !string_app_cons, Hpre. rewrite (proj2 (Nat.eqb_neq _ _)).
  - rewrite !drop_cons, take_cons, drop_after, take_bytes_app, Contains_lacks by done.
    change (Trim (String "[" a) "[]") with (Trim a "[]"). by apply address_Trim.
  - cbn [String.length]. rewrite length_string_app. cbn [String.length]. lia.
Qed.

Definition with_user (u : option string) (hp : string) : string := match u with Some u => u +:+ "@" +:+ hp | None => hp end.
Definition with_rest (hp : string) (rest : option string) : string := match rest with Some r => hp +:+ "," +:+ r | None => hp end.

Lemma normalize_strip u hp rest : (∀ v, u = Some v → lacks "," v = true) → lacks "," hp = true → lacks "@" hp = true → hp ≠ "" →
  normalizeJumpAlias (with_rest (with_user u hp) rest) = jump_host hp.
Proof.
  intros Hu Hc Ha Hne. unfold normalizeJumpAlias.
  assert (lacks "," (with_user u hp) = true) as Hcu.
  { destruct u as [v|]; [|done]. unfold with_user, lacks. change ("@" +:+ hp) with (String "@" hp). rewrite string_all_app. unfold lacks in *. rewrite (Hu v eq_refl). cbn. done. }
  assert (with_rest (with_user u hp) rest ≠ "") as Hne'.
  { unfold with_rest, with_user. destruct rest, u as [[|]|], hp; done. }
  rewrite (proj2 (String.eqb_neq _ _) Hne'). cbv zeta.
  assert (match Index (with_rest (with_user u hp) rest) "," with Some i => take_bytes i (with_rest (with_user u hp) rest) | None => with_rest (with_user u hp) rest end
    = with_user u hp) as ->.
  { unfold with_rest. destruct rest as [r|].
    - change ("," +:+ r) with (String "," r). unfold Index. rewrite IndexFunc_app by (done || by apply lacks_index). apply take_bytes_app.
    - unfold Index. by rewrite IndexFunc_none by by apply lacks_index. }
  f_equal. destruct u as [v|]; unfold with_user.
  - change ("@" +:+ hp) with (String "@" hp). by rewrite LastIndex_app, drop_after.
  - by rewrite LastIndex_none.
Qed.

(** What a ProxyJump value names.  [user@host:port,more] is the host, with
    or without each part, and [user@[address]:port] the address.  An address in
    brackets without a port loses its last group: the test meant to spare it
    looks for a colon after the last colon. *)
Theorem normalizeJumpAlias_host u rest :
  (∀ v, u = Some v → lacks "," v = true) →
  (∀ h, plain h → h ≠ "" → normalizeJumpAlias (with_rest (with_user u h) rest) = h) ∧
  (∀ h p, plain h → plain p → normalizeJumpAlias (with_rest (with_user u (h +:+ ":" +:+ p)) rest) = h) ∧
  (∀ a p, address a → plain p → normalizeJumpAlias (with_rest (with_user u ("[" +:+ a +:+ "]:" +:+ p)) rest) = a) ∧
  (∀ a g, address a → plain g → normalizeJumpAlias (with_rest (with_user u ("[" +:+ a +:+ ":" +:+ g +:+ "]")) rest) = a).
Proof.
  intros Hu. assert (∀ c s, in_cutset ",@" c = true → address s → lacks c s = true) as Hl.
  { intros c s Hc. apply address_lacks. revert Hc. cbn. rewrite !orb_true_iff. tauto. }
  assert (∀ c a b, lacks c (a +:+ b) = lacks c a && lacks c b) as Happ by (intros; apply string_all_app).
  split_and!; intros; rewrite normalize_strip; rewrite ?Happ, ?andb_true_iff; try done.
  all: first [by apply jump_host_bare|by apply jump_host_of_port|by apply jump_host_bracketed|by apply jump_host_unported|by destruct h|
    split_and?; try done; apply Hl; try done; by apply plain_address].
Qed.

Lemma normalizeJumpAlias_host_witness :
  normalizeJumpAlias "ops@bastion:2222,backup" = "bastion" ∧ normalizeJumpAlias "ops@[2001:db8::1]" = "2001:db8:".
Proof.
  assert (∀ v, Some "ops" = Some v → lacks "," v = true) as Hu by (by intros v [= <-]).
  split.
  - refine (eq_trans (f_equal normalizeJumpAlias _)
      (proj1 (proj2 (normalizeJumpAlias_host (Some "ops") (Some "backup") Hu)) "bastion" "2222" _ _)); reflexivity.
  - refine (eq_trans (f_equal normalizeJumpAlias _)
      (proj2 (proj2 (proj2 (normalizeJumpAlias_host (Some "ops") None Hu))) "2001:db8:" "1" _ _)); reflexivity.
Defined.

(** ** The configuration as written *)

(** How a line is spelled: its indent, its keyword in any case, and what
    separates keyword and value. *)
Record spelling := { sp_indent : string; sp_key : string; sp_sep : string }.

Definition spelled (keyword : string) (sp : spelling) : Prop :=
  string_all is_space (sp_indent sp) = true ∧ lacks newline (sp_indent sp) = true ∧
  ToLower (sp_key sp) = keyword ∧ sp_sep sp ≠ "" ∧ string_all (in_cutset separators) (sp_sep sp) = true.

Inductive setting := HostName (v : string) | UserName (v : string) | PortNumber (n : Z) | ProxyJump (v : string).

Definition keyword_of (st : setting) : string :=
  match st with HostName _ => "hostname" | UserName _ => "user" | PortNumber _ => "port" | ProxyJump _ => "proxyjump" end.
Definition value_of (st : setting) : string :=
  match st with HostName v | UserName v | ProxyJump v => v | PortNumber n => Itoa n end.

(** A value is one word, and does not start with a separator. *)
Definition value (v : string) : Prop := name v ∧ HasPrefix v "=" = false.

Definition setting_ok (s : spelling * setting) : Prop :=
  spelled (keyword_of s.2) s.1 ∧
  match s.2 with HostName v | UserName v | ProxyJump v => value v | PortNumber n => in_int64 n end.

Record host_entry := { e_comment : string; e_head : spelling; e_aliases : list string; e_settings : list (spelling * setting) }.

Definition entry_ok (e : host_entry) : Prop :=
  lacks newline (e_comment e) = true ∧ spelled "host" (e_head e) ∧ e_aliases e ≠ [] ∧ Forall value (e_aliases e) ∧
  Forall setting_ok (e_settings e).

Definition spell (sp : spelling) (v : string) : string := sp_indent sp +:+ sp_key sp +:+ sp_sep sp +:+ v.

Definition entry_lines (e : host_entry) : list string :=
  (String "#" (e_comment e)) :: spell (e_head e) (Join (e_aliases e) " ") :: ((λ s, spell s.1 (value_of s.2)) <$> e_settings e) ++ [""].

Definition render_config (es : list host_entry) : string :=
  Join ((es ≫= entry_lines) ++ [""]) (String newline EmptyString).

(** What an entry means: one block per alias that is not a pattern, with the
    last value of each setting; nothing without a [HostName]. *)
Definition apply_setting (b : hostBlock) (st : setting) : hostBlock :=
  match st with
  | HostName v => {| alias := alias b; hostName := v; user := user b; port := port b; proxyJump := proxyJump b |}
  | UserName v => {| alias := alias b; hostName := hostName b; user := v; port := port b; proxyJump := proxyJump b |}
  | PortNumber n => {| alias := alias b; hostName := hostName b; user := user b; port := n; proxyJump := proxyJump b |}
  | ProxyJump v => {| alias := alias b; hostName := hostName b; user := user b; port := port b; proxyJump := v |}
  end.

Definition blank : hostBlock := {| alias := ""; hostName := ""; user := ""; port := 22; proxyJump := "" |}.

Definition entry_block (e : host_entry) : hostBlock := foldl apply_setting blank (e_settings e).*2.
Definition entry_blocks (e : host_entry) : list hostBlock :=
  if String.eqb (hostName (entry_block e)) "" then []
  else with_alias (entry_block e) <$> filter (λ a, ContainsAny a "*?" = false) (e_aliases e).

Lemma in_separators_space c : in_cutset separators c = true → negb (in_cutset separators c) = false.
Proof. by intros ->. Qed.

Lemma lower_separator c : in_cutset separators (lower_char c) = in_cutset separators c.
Proof. by destruct c as [[] [] [] [] [] [] [] []]. Qed.

Lemma lower_space c : is_space (lower_char c) = is_space c.
Proof. by destruct c as [[] [] [] [] [] [] [] []]. Qed.

Lemma string_all_map p f s : string_all p (string_map f s) = string_all (λ c, p (f c)) s.
Proof. induction s as [|c s IH]; [done|]. cbn. by rewrite IH. Qed.

(** What holds of a lower-case keyword's bytes holds of any spelling of it. *)
Lemma key_all p k : (∀ c, p (lower_char c) = p c) → string_all p (ToLower k) = string_all p k.
Proof. intros Hp. unfold ToLower. rewrite string_all_map. by apply string_all_ext. Qed.

(** A keyword: visible bytes, no separator, and no comment mark. *)
Definition keyword (k : string) : Prop :=
  k ≠ "" ∧ string_all (λ c, negb (in_cutset separators c) && negb (is_space c) && negb (Ascii.eqb c "#")) k = true.

Lemma keyword_spelled k w : ToLower k = w → keyword w → keyword k.
Proof.
  intros <- [Hne Hall]. split; [by intros ->|]. rewrite key_all in Hall; [done|].
  intros c. rewrite lower_separator, lower_space. by destruct c as [[] [] [] [] [] [] [] []].
Qed.

(** Values joined by spaces start with a byte that is neither a space nor a
    separator, and end with one that is not a space. *)
Lemma values_shape vs : vs ≠ [] → Forall value vs →
  (∃ c s, Join vs " " = String c s ∧ is_space c = false ∧ in_cutset separators c = false) ∧
  (∃ pre w, Join vs " " = pre +:+ w ∧ name w).
Proof.
  intros Hne H. split.
  - destruct vs as [|v vs]; [done|]. apply Forall_inv in H as [[Hw Hv] He]. destruct v as [|c v]; [done|].
    apply word_cons in Hw as [Hc _]. assert (∃ s, Join (String c v :: vs) " " = String c s) as [s ->].
    { destruct vs; [by exists v|]. eexists. cbn [Join]. by rewrite string_app_cons. }
    exists c, s. split_and!; [done|by apply visible_not_space|]. clear -Hc He.
    destruct c as [[] [] [] [] [] [] [] []]; try done; try discriminate Hc.
    pose proof (HasPrefix_app "=" v) as H'. change ("=" +:+ v) with (String "=" v) in H'. congruence.
  - destruct (exists_last Hne) as (pre & w & ->). apply Forall_app in H as [_ H]. apply Forall_inv in H as [Hw _].
    clear Hne. induction pre as [|v pre IH]; [by exists "", w|]. destruct IH as (p & w' & E & ?).
    exists (v +:+ " " +:+ p), w'. split; [|done]. rewrite <-app_comm_cons.
    destruct (pre ++ [w]) as [|u us] eqn:Eu; [by destruct pre|]. cbn [Join] in *. rewrite E, !string_app_assoc. done.
Qed.

Lemma TrimSpace_values ind c s vs : string_all is_space ind = true → is_space c = false → vs ≠ [] → Forall value vs →
  TrimSpace (ind +:+ String c s +:+ Join vs " ") = String c s +:+ Join vs " ".
Proof.
  intros Hi Hc Hne Hvs. unfold TrimSpace, TrimFunc. rewrite TrimLeftFunc_app, string_app_cons, TrimLeftFunc_head by done.
  destruct (values_shape vs Hne Hvs) as [_ (pre & w & -> & [Hw Hw'])].
  rewrite <-string_app_cons, <-string_app_assoc. apply TrimRightFunc_app; [done|]. by apply word_not_space.
Qed.

Lemma TrimSpace_only_values vs : vs ≠ [] → Forall value vs → TrimSpace (Join vs " ") = Join vs " ".
Proof.
  intros Hne Hvs. destruct (values_shape vs Hne Hvs) as [(c & s & E & Hc & _) (pre & w & E' & [Hw Hw'])].
  unfold TrimSpace, TrimFunc. rewrite E, TrimLeftFunc_head, <-E, E' by done. apply TrimRightFunc_app; [done|]. by apply word_not_space.
Qed.

Lemma splitFields_spelled key sep vs : keyword key → sep ≠ "" → string_all (in_cutset separators) sep = true →
  vs ≠ [] → Forall value vs → splitFields (key +:+ sep +:+ Join vs " ") = Some (key, vs).
Proof.
  intros [Hk Hkey] Hs Hsep Hne Hvs. unfold splitFields.
  assert (IndexFunc (in_cutset separators) (key +:+ sep +:+ Join vs " ") = Some (String.length key)) as ->.
  { destruct sep as [|c sep]; [done|]. cbn [string_all] in Hsep. apply andb_true_iff in Hsep as [Hc _]. rewrite string_app_cons.
    apply IndexFunc_app; [|done]. eapply string_all_impl; [|exact Hkey]. intros d. cbv beta. rewrite !andb_true_iff. tauto. }
  destruct (String.length key) as [|n] eqn:El; [by destruct key|]. rewrite <-El, drop_bytes_app, take_bytes_app.
  unfold TrimLeft. rewrite TrimLeftFunc_app by done. destruct (values_shape vs Hne Hvs) as [(c & s & E & _ & Hc) _].
  rewrite E, TrimLeftFunc_head, <-E, TrimSpace_only_values by done. rewrite Fields_Join; [by destruct vs|].
  eapply Forall_impl; [exact Hvs|]. by intros v [? _].
Qed.

Lemma parse_line_spelled p w sp vs : spelled w sp → keyword w → vs ≠ [] → Forall value vs →
  parse_line p (spell sp (Join vs " ")) = parse_setting p w vs.
Proof.
  intros (Hi & _ & Hw & Hs & Hsep) Hk Hne Hvs. assert (keyword (sp_key sp)) as Hkey by by eapply keyword_spelled.
  unfold parse_line, spell. pose proof Hkey as [Hkne Hkall]. destruct (sp_key sp) as [|c key] eqn:Ek; [done|].
  cbn [string_all] in Hkall. rewrite !andb_true_iff in Hkall. destruct Hkall as [[[_ Hsp] Hhash] _].
  apply negb_true_iff in Hsp, Hhash.
  assert (String c key +:+ sp_sep sp +:+ Join vs " " = String c (key +:+ sp_sep sp) +:+ Join vs " ") as Eas
    by (by rewrite !string_app_cons, string_app_assoc).
  rewrite Eas, TrimSpace_values, <-Eas by done.
  assert (String.eqb (String c key +:+ sp_sep sp +:+ Join vs " ") "" = false) as -> by done.
  assert (HasPrefix (String c key +:+ sp_sep sp +:+ Join vs " ") "#" = false) as ->.
  { by rewrite string_app_cons, HasPrefix_char, Ascii.eqb_sym. }
  cbn [orb]. rewrite splitFields_spelled by done. by rewrite Hw.
Qed.

(** ** The whole file *)

Lemma setting_keyword st : keyword (keyword_of st).
Proof. by destruct st. Qed.

Lemma setting_value s : setting_ok s → value (value_of s.2).
Proof.
  destruct s as [sp [v|v|n|v]]; cbn; intros [_ H]; try done. split; [split; [apply word_Itoa|by apply Itoa_not]|].
  destruct (Itoa n) as [|c s] eqn:E; [done|]. rewrite HasPrefix_char. apply Ascii.eqb_neq. intros <-. by apply (Itoa_not (String "=" s) n) in E.
Qed.

Lemma parse_setting_apply p s : setting_ok s →
  parse_line p (spell s.1 (value_of s.2)) = set_cur p (λ b, apply_setting b s.2).
Proof.
  intros Hs. pose proof (setting_value s Hs) as Hv. destruct Hs as [Hsp Hval].
  pose proof (parse_line_spelled p (keyword_of s.2) s.1 [value_of s.2] Hsp (setting_keyword _)) as H. cbn [Join] in H.
  rewrite H; [|done|by apply Forall_singleton]. destruct s as [sp [v|v|n|v]]; try done. cbn in *.
  unfold parse_setting. cbn. unfold Atoi. by rewrite ParseInt10_Itoa.
Qed.

Lemma parse_line_comment p c : parse_line p (String "#" c) = p.
Proof. unfold parse_line, TrimSpace. rewrite TrimFunc_head by done. by rewrite HasPrefix_char. Qed.

Lemma parse_settings p ss : Forall setting_ok ss → foldl parse_line p ((λ s, spell s.1 (value_of s.2)) <$> ss) =
  {| blocks := blocks p; cur := (λ b, foldl apply_setting b ss.*2) <$> cur p; aliases := aliases p |}.
Proof.
  intros H. revert p. induction H as [|s ss Hs _ IH]; intros p; cbn [fmap list_fmap foldl].
  - destruct p as [bs [b|] al]; done.
  - rewrite parse_setting_apply, IH by done. unfold set_cur. cbn [blocks cur aliases]. by destruct (cur p).
Qed.

Lemma parse_entry p e : entry_ok e → foldl parse_line p (entry_lines e) =
  {| blocks := flush p; cur := Some (entry_block e); aliases := e_aliases e |}.
Proof.
  intros (_ & Hh & Hne & Hal & Hss). unfold entry_lines. cbn [foldl]. rewrite parse_line_comment, (parse_line_spelled p "host"), foldl_app by done.
  rewrite parse_settings by done. done.
Qed.

Lemma flush_entry bs e : flush {| blocks := bs; cur := Some (entry_block e); aliases := e_aliases e |} = bs ++ entry_blocks e.
Proof. unfold flush, entry_blocks. cbn [cur blocks aliases]. destruct (String.eqb _ ""); [by rewrite app_nil_r|done]. Qed.

Lemma parse_entries es p : Forall entry_ok es → flush (foldl parse_line p (es ≫= entry_lines)) = flush p ++ (es ≫= entry_blocks).
Proof.
  intros H. revert p. induction H as [|e es He _ IH]; intros p; [by rewrite app_nil_r|rewrite !bind_cons].
  rewrite foldl_app, parse_entry, IH, flush_entry by done. by rewrite <-(assoc_L (++)).
Qed.

Lemma spell_lacks w sp vs : spelled w sp → keyword w → Forall value vs → lacks newline (spell sp (Join vs " ")) = true.
Proof.
  intros (_ & Hi & Hw & _ & Hs) Hk Hvs. assert (keyword (sp_key sp)) as [_ Hkey] by by eapply keyword_spelled.
  unfold spell. rewrite !lacks_app, Hi, !andb_true_iff. split_and!; [done|..].
  - revert Hkey. apply string_all_impl. intros c. rewrite !andb_true_iff, !negb_true_iff. intros [[_ H] _].
    apply Ascii.eqb_neq. by intros ->.
  - revert Hs. apply string_all_impl. intros c Hc. apply negb_true_iff, Ascii.eqb_neq. by intros ->.
  - apply string_all_Join; [|done]. eapply Forall_impl; [exact Hvs|]. intros v [[Hv _] _]. by apply word_lacks.
Qed.

Lemma entry_lines_lack e : entry_ok e → Forall (λ l, lacks newline l = true) (entry_lines e).
Proof.
  intros (Hc & Hh & _ & Hal & Hss). unfold entry_lines. constructor; [done|]. constructor; [by apply (spell_lacks "host")|].
  apply Forall_app. split; [|by repeat constructor]. apply Forall_fmap. eapply Forall_impl; [exact Hss|]. intros s Hs.
  apply (spell_lacks (keyword_of s.2) s.1 [value_of s.2]); [apply Hs|apply setting_keyword|apply Forall_singleton; by apply setting_value].
Qed.

(** A configuration is read as written.  Whatever its comments, blank lines,
    indents, spelling of keywords and separators, each [Host] entry gives one
    block per alias that is not a pattern, with the last value of each setting
    and port 22 without one, in the file's order, and an entry without a
    [HostName] gives none; a file that cannot be read is an error. *)
Theorem Parse_render es :
  Forall entry_ok es →
  Parse (Ok (render_config es)) = Ok (es ≫= entry_blocks) ∧ ∀ e, Parse (Err e) = Err e.
Proof.
  intros H. split; [|done]. unfold Parse. cbn [mbind result_bind mret result_ret]. f_equal. unfold render_config.
  rewrite Split_Join; [|by destruct (es ≫= entry_lines)|].
  - rewrite foldl_app. cbn [foldl]. change (parse_line ?p "") with p. by rewrite parse_entries.
  - apply Forall_app. split; [|by repeat constructor]. apply Forall_bind. eapply Forall_impl; [exact H|]. apply entry_lines_lack.
Qed.

Definition plain_spelling (k : string) : spelling := {| sp_indent := "  "; sp_key := k; sp_sep := " = " |}.
Definition demo_config : list host_entry :=
  [{| e_comment := " jump"; e_head := plain_spelling "HOST"; e_aliases := ["sre-a"; "sre-*"; "sre-b"];
      e_settings := [(plain_spelling "HostName", HostName "10.40.0.1"); (plain_spelling "Port", PortNumber 2222); (plain_spelling "Port", PortNumber 23)] |};
   {| e_comment := ""; e_head := plain_spelling "Host"; e_aliases := ["*"]; e_settings := [(plain_spelling "User", UserName "ubuntu")] |}].

Lemma Parse_render_witness :
  Parse (Ok (render_config demo_config)) =
    Ok [{| alias := "sre-a"; hostName := "10.40.0.1"; user := ""; port := 23; proxyJump := "" |};
        {| alias := "sre-b"; hostName := "10.40.0.1"; user := ""; port := 23; proxyJump := "" |}].
Proof.
  refine (proj1 (Parse_render demo_config _)). unfold demo_config, entry_ok, setting_ok, spelled, value, name, in_int64, int64_min, int64_max.
  repeat first [apply Forall_nil_2 | apply Forall_cons_2 | split]; cbn; done || lia.
Defined.
