(* ===== verification/WgGraph.v ===== *)
(** The graph of the overlay (internal/wireguard/topology.go and derive.go): its
    nodes, edges, aggregates and links, the derived view, and the small
    functions both the builder and the derivation use. *)

From Stdlib Require Import SpecFloat.
From S2P Require Import Prelude GoStrings NetIP WgIdentity.

(** ** Attributes

    A value of [map[string]any]: what decoding JSON yields, or what the command
    line stored.  A nil map reads like an empty one. *)
Inductive any :=
| AnyNil
| AnyBool (b : bool)
| AnyFloat (f : spec_float)
| AnyInt (z : Z)
| AnyString (s : string)
| AnyStrings (l : list string)
| AnyList (l : list any)
| AnyMap (m : list (string * any)).

Definition attrs_t : Type := gmap string any.

(** [m[k].(string)], the empty string when it is not one. *)
Definition as_string (m : attrs_t) (k : string) : string :=
  match m !! k with Some (AnyString s) => s | _ => "" end.

Definition attrString (m : attrs_t) (k : string) : string := TrimSpace (as_string m k).

Definition any_string (x : any) : option string :=
  match x with AnyString s => if String.eqb s "" then None else Some s | _ => None end.

Definition attrStrings (m : attrs_t) (k : string) : list string :=
  match m !! k with
  | Some (AnyList v) => omap any_string v
  | Some (AnyStrings v) => v
  | Some (AnyString v) => if String.eqb v "" then [] else [v]
  | _ => []
  end.

(** binary64, as in the source. *)
Definition float_of (z : Z) : spec_float := binary_normalize 53 1024 z 0 false.

Definition attrNumber (m : attrs_t) (k : string) : spec_float :=
  match m !! k with
  | Some (AnyFloat v) => v
  | Some (AnyInt v) => float_of v
  | _ => float_of (2 ^ 30)
  end.

(** ** The graph *)

Record IfaceT := { if_Name : string; if_Port : Z; if_PubKey : string }.

Record Node := {
  nd_ID : string; nd_Label : string; nd_Kind : string; nd_DC : string; nd_IP : string; nd_TunnelIP : string;
  Observed : string; Parent : string; Warnings : list string; Ifaces : list IfaceT; Layer : string;
  nd_Attrs : attrs_t; nd_PubKey : string; SeenAs : list string;
}.

Record EdgeSide := { es_Host : string; es_Iface : string; es_PubKey : string; es_Allowed : string }.

Record Edge := {
  ed_ID : string; ed_Source : string; ed_Target : string; ed_Iface : string; ed_Allowed : string;
  side_A : option EdgeSide; side_B : option EdgeSide; TargetSeenAs : list string; Conflict : bool;
}.

Record Agg := { ag_ID : string; ag_DC : string; CIDR : string; Count : Z }.

Record Link := { ln_Source : string; ln_Target : string; ln_Kind : string; ln_Attrs : attrs_t }.

Record Vip := { v_IP : string; v_Label : string; v_Iface : string; v_Note : string; Owner : string }.

(** ** The derived view *)

Record FailureDomain := {
  fd_Host : string; fd_Label : string; Farm : string; fd_Site : string; Dependents : list string; Tunnels : list string;
  Carries : Z;
}.

Record Path := {
  p_Network : string; p_CIDR : string; p_Tunnel : string; Method : string; SNATAt : string; Hops : list string;
  Uncollected : bool;
}.

Record SNATRule := {
  At : string; sn_Tunnel : string; sn_Iface : string; sn_Network : string; sn_CIDR : string; OIF : list string; Table : string;
}.

Record Gap := { gp_Kind : string; Subject : string; Detail : string }.

Record Derived := { FailureDomains : list FailureDomain; Paths : list Path; SNAT : list SNATRule; Gaps : list Gap }.

Record Topology := {
  Nodes : list Node; Edges : list Edge; Aggs : list Agg; Links : list Link; Vips : list Vip; derived : option Derived;
  tp_CollectedAt : time_t;
}.

Definition empty_topology : Topology :=
  {| Nodes := []; Edges := []; Aggs := []; Links := []; Vips := []; derived := None; tp_CollectedAt := 0 |}.

(** ** Rows of the store *)

Record WGEndpointAnnotation := {
  an_PublicKey : string; an_Label : string; an_Kind : string; UnderlayIP : string; an_TunnelIP : string; an_Site : string;
  InventoryHost : string; ParentHostname : string; an_Note : string;
}.

Record NetEntity := {
  en_ID : string; en_Kind : string; en_Label : string; en_Site : string; en_Attrs : attrs_t; en_Note : string;
}.

Record NetRelation := { SrcID : string; DstID : string; re_Kind : string; re_Attrs : attrs_t; re_Note : string }.

(** ** Names and addresses *)

Definition ShortKey (k : string) : string :=
  if (String.length k <=? 8)%nat then k else take_bytes 7 k +:+ "…".

Definition TunnelEdgeID (localKey peerKey : string) : string :=
  let '(a, c) := if string_ltb peerKey localKey then (peerKey, localKey) else (localKey, peerKey) in
  "gw|" +:+ ShortKey a +:+ "|" +:+ ShortKey c.

Definition PhysicalHostNodeID (hostname : string) : string := "host|" +:+ hostname.

(** [ip.To4()], of a parsed address. *)
Definition To4 (ip : list Z) : option (list Z) :=
  if bool_decide (take 12 ip = mapped_prefix) then Some (drop 12 ip) else None.

Definition cidr24 (ip : string) : option string :=
  match ParseIP (TrimSpace ip) ≫= To4 with
  | Some (a :: b :: c :: _) => Some (Itoa a +:+ "." +:+ Itoa b +:+ "." +:+ Itoa c +:+ ".0/24")
  | _ => None
  end.

Definition is_addr (s : string) : bool := bool_decide (is_Some (ParseIP s)).

Definition EndpointIP (endpoint : string) : string :=
  match SplitHostPort (TrimSpace endpoint) with
  | Some (host, _) => if is_addr host then host else if is_addr endpoint then endpoint else ""
  | None => if is_addr endpoint then endpoint else ""
  end.

Definition score_if (s : string) (n : Z) : Z := if String.eqb s "" then 0 else n.

Definition AnnotationSpecificity (a : WGEndpointAnnotation) : Z :=
  score_if (ParentHostname a) 16 + score_if (InventoryHost a) 8 + score_if (UnderlayIP a) 4 +
  score_if (an_Site a) 2 + score_if (an_Label a) 1.

Definition different (x y : string) : bool := negb (String.eqb x "") && negb (String.eqb y "") && negb (String.eqb x y).

Definition AnnotationPlacementConflict (a b : WGEndpointAnnotation) : bool :=
  different (an_Label a) (an_Label b) || different (an_Kind a) (an_Kind b) || different (UnderlayIP a) (UnderlayIP b) ||
  different (an_Site a) (an_Site b) || different (InventoryHost a) (InventoryHost b) ||
  different (ParentHostname a) (ParentHostname b).

(** The loop of [CollectedAt]. *)
Definition NewestCollection (ifaces : list WGInterfaceRow) : time_t :=
  foldl (λ newest i, if After (CollectedAt i) newest then CollectedAt i else newest) 0 ifaces.

Example cidr24_examples :
  (cidr24 " 10.20.0.33 ", cidr24 "2001:db8::1", cidr24 "gw1") = (Some "10.20.0.0/24", None, None).
Proof. reflexivity. Qed.
Example EndpointIP_examples :
  (EndpointIP "203.0.113.5:51820", EndpointIP "203.0.113.5", EndpointIP "gw.example:51820", EndpointIP "[2001:db8::1]:5") =
  ("203.0.113.5", "203.0.113.5", "", "2001:db8::1").
Proof. reflexivity. Qed.
Example TunnelEdgeID_example :
  TunnelEdgeID "zzzzzzzzzz" "aaa" = "gw|aaa|zzzzzzz…" ∧ TunnelEdgeID "aaa" "zzzzzzzzzz" = "gw|aaa|zzzzzzz…".
Proof. split; reflexivity. Qed.
