(* ===== verification/WgDerive.v ===== *)
(** What the declared topology implies (internal/wireguard/derive.go): failure
    domains, hop chains, masquerades and gaps, recomputed from the graph. *)

From Stdlib Require Import SpecFloat.
From stdpp Require Import fin_maps.
From S2P Require Import Prelude GoStrings WgGraph.

#[local] Arguments sort : simpl never.

(** ** The graph by id, and by endpoint and kind *)

Record graphIndex := {
  nodes : gmap string Node; out : gmap string (gmap string (list Link)); in_ : gmap string (gmap string (list Link));
}.

(** [m[a][b] = append(m[a][b], l)], the inner map made when missing. *)
Definition add_link (m : gmap string (gmap string (list Link))) (a b : string) (l : Link) : gmap string (gmap string (list Link)) :=
  let inner := default ∅ (m !! a) in <[a := <[b := default [] (inner !! b) ++ [l]]> inner]> m.

Definition newGraphIndex (topo : Topology) : graphIndex :=
  {| nodes := map_by nd_ID (λ n, n) (Nodes topo);
     out := foldl (λ m l, add_link m (ln_Source l) (ln_Kind l) l) ∅ (Links topo);
     in_ := foldl (λ m l, add_link m (ln_Target l) (ln_Kind l) l) ∅ (Links topo) |}.

Definition links_at (m : gmap string (gmap string (list Link))) (a b : string) : list Link :=
  default [] (m !! a ≫= lookup b).

Definition parentOf (g : graphIndex) (id : string) : string :=
  let declared := match links_at (out g) id "placed-on" with [] => "" | l :: _ => ln_Target l end in
  match nodes g !! id with
  | Some n => if String.eqb (Parent n) "" then declared else Parent n
  | None => declared
  end.

Definition has_kind (g : graphIndex) (id kind : string) : bool :=
  match nodes g !! id with Some n => String.eqb (nd_Kind n) kind | None => false end.

Definition memberOf (g : graphIndex) (id kind : string) : string :=
  default "" (head (filter (λ t, has_kind g t kind = true) (ln_Target <$> links_at (out g) id "member-of"))).

Definition machineOf (g : graphIndex) (id : string) : string :=
  match nodes g !! id with
  | None => ""
  | Some n =>
      if negb (String.eqb (nd_Kind n) "tunnel") then id
      else
        let host := attrString (nd_Attrs n) "host" in
        if String.eqb host "" then ""
        else if bool_decide (is_Some (nodes g !! ("vm/" +:+ host))) then "vm/" +:+ host
        else if bool_decide (is_Some (nodes g !! host)) then host
        else ""
  end.

Definition terminatesTunnel (g : graphIndex) (id : string) : bool :=
  match nodes g !! id with
  | None => false
  | Some n => String.eqb (nd_Kind n) "gateway" || String.eqb (nd_Kind n) "tunnel" || (0 <? length (Ifaces n))%nat
  end.

(** First appearances of each string, in order. *)
Fixpoint distinct (seen : list string) (l : list string) : list string :=
  match l with
  | [] => []
  | s :: l' => if slices_Contains seen s then distinct seen l' else s :: distinct (s :: seen) l'
  end.

Definition uniqueSorted (l : list string) : list string := sort_strings (distinct [] l).

Definition add_dep (deps : gmap string (list string)) (p id : string) : gmap string (list string) :=
  <[p := default [] (deps !! p) ++ [id]]> deps.

(** ** The derivations

    [visit i m] is the order in which the [i]th loop over the map [m] meets it. *)
Section derive.
Context (visit : nat → gmap string Node → list (string * Node)).

Definition place (g : graphIndex) (deps : gmap string (list string)) (e : string * Node) : gmap string (list string) :=
  let p := parentOf g e.1 in if String.eqb p "" then deps else add_dep deps p e.1.

Definition place_tunnel (g : graphIndex) (deps : gmap string (list string)) (e : string * Node) : gmap string (list string) :=
  if negb (String.eqb (nd_Kind e.2) "tunnel") then deps
  else
    let m := machineOf g e.1 in
    if String.eqb m "" then deps
    else let p := parentOf g m in if String.eqb p "" then deps else add_dep deps p e.1.

Definition dependents (g : graphIndex) : gmap string (list string) :=
  foldl (place_tunnel g) (foldl (place g) ∅ (visit 0 (nodes g))) (visit 1 (nodes g)).

Definition carried (g : graphIndex) (ids : list string) : Z :=
  foldl (λ n d, n + Z.of_nat (length (links_at (out g) d "carries"))) 0 ids.

Definition failure_domain (g : graphIndex) (deps : gmap string (list string)) (id : string) (n : Node) : FailureDomain :=
  let farm := memberOf g id "farm" in
  let ds := uniqueSorted (default [] (deps !! id)) in
  let ts := filter (λ d, terminatesTunnel g d = true) ds in
  {| fd_Host := id; fd_Label := nd_Label n; Farm := farm;
     fd_Site := if negb (String.eqb farm "") && String.eqb (nd_DC n) "" then memberOf g farm "site" else nd_DC n;
     Dependents := ds; Tunnels := ts; Carries := carried g ts |}.

Definition domain_less : FailureDomain → FailureDomain → bool :=
  less_then (λ x y, y <? x) Carries (less_then (λ x y, y <? x) (λ d, Z.of_nat (length (Tunnels d))) (less_on string_ltb fd_Host)).

Definition failureDomains (g : graphIndex) : list FailureDomain :=
  let deps := dependents g in
  sort domain_less
    (omap (λ e : string * Node, if String.eqb (nd_Kind e.2) "physical-host" then Some (failure_domain g deps e.1 e.2) else None)
       (visit 2 (nodes g))).

(** The closure [push]. *)
Definition push (hops : list string) (id : string) : list string :=
  if negb (String.eqb id "") && negb (String.eqb (list_last "" hops) id) then hops ++ [id] else hops.

Definition transit_less : Link → Link → bool := less_on SFltb (λ t, attrNumber (ln_Attrs t) "order").

Definition path_hops (g : graphIndex) (l : Link) : list string :=
  let hops := [ln_Source l] in
  let cur := ln_Source l in
  let m := machineOf g cur in
  let '(hops, cur) := if String.eqb m "" then (hops, cur) else (push hops m, m) in
  let host := parentOf g cur in
  let '(hops, cur) := if String.eqb host "" then (hops, cur) else (push hops host, host) in
  let farm := memberOf g cur "farm" in
  let hops := push hops farm in
  let hops := push hops (if String.eqb farm "" then memberOf g cur "site" else memberOf g farm "site") in
  let hops := foldl (λ h t, push h (ln_Target t)) hops (sort transit_less (links_at (out g) (ln_Source l) "transits")) in
  push hops (ln_Target l).

Definition path (g : graphIndex) (l : Link) : Path :=
  {| p_Network := ln_Target l; p_CIDR := match nodes g !! ln_Target l with Some n => attrString (nd_Attrs n) "cidr" | None => "" end;
     p_Tunnel := ln_Source l; Method := attrString (ln_Attrs l) "method"; SNATAt := attrString (ln_Attrs l) "snat_at";
     Hops := path_hops g l; Uncollected := has_kind g (ln_Source l) "tunnel" |}.

Definition snat_rule (l : Link) (p : Path) : SNATRule :=
  {| At := SNATAt p; sn_Tunnel := p_Tunnel p; sn_Iface := attrString (ln_Attrs l) "iface"; sn_Network := p_Network p;
     sn_CIDR := p_CIDR p; OIF := attrStrings (ln_Attrs l) "oif"; Table := attrString (ln_Attrs l) "nft_table" |}.

Definition placement_gaps (g : graphIndex) (id : string) (n : Node) : list Gap :=
  if String.eqb (Parent n) "" then []
  else (λ l, {| gp_Kind := "placement-conflict"; Subject := id;
                Detail := "synced on " +:+ Parent n +:+ ", declared on " +:+ ln_Target l |}) <$>
         filter (λ l, ln_Target l ≠ Parent n) (links_at (out g) id "placed-on").

Definition kind_gap (g : graphIndex) (id : string) (n : Node) : list Gap :=
  if String.eqb (nd_Kind n) "tunnel" then
    [{| gp_Kind := "uncollected-tunnel"; Subject := id;
        Detail := "declared on " +:+ attrString (nd_Attrs n) "host" +:+ " but never synced" |}]
  else if String.eqb (nd_Kind n) "network" then
    if (length (links_at (in_ g) id "carries") =? 0)%nat
    then [{| gp_Kind := "uncarried-network"; Subject := id; Detail := "no tunnel carries it" |}] else []
  else if String.eqb (nd_Kind n) "vm" then
    if String.eqb (parentOf g id) "" then [{| gp_Kind := "unplaced-vm"; Subject := id; Detail := "no placed-on host" |}] else []
  else [].

Definition gap_less : Gap → Gap → bool := less_then string_ltb gp_Kind (less_on string_ltb Subject).

Definition gaps (g : graphIndex) : list Gap :=
  sort gap_less (visit 3 (nodes g) ≫= λ e, placement_gaps g e.1 e.2 ++ kind_gap g e.1 e.2).

Definition path_less : Path → Path → bool := less_then string_ltb p_Network (less_then string_ltb p_Tunnel (less_on string_ltb Method)).
Definition snat_less : SNATRule → SNATRule → bool := less_then string_ltb At (less_then string_ltb sn_Tunnel (less_on string_ltb sn_Network)).

(** The loop over the links. *)
Definition derive_link (g : graphIndex) (acc : list Path * list SNATRule) (l : Link) : list Path * list SNATRule :=
  if negb (String.eqb (ln_Kind l) "carries") then acc
  else
    let p := path g l in
    (acc.1 ++ [p],
     if String.eqb (Method p) "direct" && negb (String.eqb (SNATAt p) "") then acc.2 ++ [snat_rule l p] else acc.2).

Definition Derive (topo : Topology) : Derived :=
  let g := newGraphIndex topo in
  let '(ps, sn) := foldl (derive_link g) ([], []) (Links topo) in
  {| FailureDomains := failureDomains g; Paths := sort path_less ps; SNAT := sort snat_less sn; Gaps := gaps g |}.
End derive.

(** ** The index *)

Lemma links_at_foldl (ka kb : Link → string) ls a b :
  links_at (foldl (λ m l, add_link m (ka l) (kb l) l) ∅ ls) a b = filter (λ l, ka l = a ∧ kb l = b) ls.
Proof.
  apply (foldl_invariant (λ seen m, links_at m a b = filter (λ l, ka l = a ∧ kb l = b) seen)); [done|].
  intros seen m l IH. rewrite list.filter_app, list.filter_cons, list.filter_nil, <-IH. unfold links_at, add_link.
  destruct (decide (ka l = a)) as [<-|Ha].
  - rewrite lookup_insert_eq. cbn [mbind option_bind]. destruct (decide (kb l = b)) as [<-|Hb].
    + rewrite lookup_insert_eq. destruct (decide _) as [_|H]; [|by destruct H]. by destruct (m !! ka l).
    + rewrite lookup_insert_ne by done. destruct (decide _) as [[_ ?]|_]; [done|]. rewrite app_nil_r. by destruct (m !! ka l).
  - rewrite lookup_insert_ne by done. destruct (decide _) as [[? _]|_]; [done|]. by rewrite app_nil_r.
Qed.

Section graph.
Context (topo : Topology).
Notation g := (newGraphIndex topo).

Definition links_of (id kind : string) : list Link := filter (λ l, ln_Source l = id ∧ ln_Kind l = kind) (Links topo).

Lemma out_links id kind : links_at (out g) id kind = links_of id kind.
Proof. apply links_at_foldl. Qed.

Lemma in_links id kind : links_at (in_ g) id kind = filter (λ l, ln_Target l = id ∧ ln_Kind l = kind) (Links topo).
Proof. apply (links_at_foldl ln_Target ln_Kind). Qed.

Lemma nodes_none id : nodes g !! id = None ↔ ∀ n, n ∈ Nodes topo → nd_ID n ≠ id.
Proof.
  unfold newGraphIndex. cbn [nodes]. destruct (map_by_spec nd_ID (λ n, n) (Nodes topo)) as [Hs Hd]. split.
  - intros Hn n Hin <-. destruct (Hd n Hin) as [? E]. congruence.
  - intros Hno. destruct (map_by _ _ _ !! id) as [v|] eqn:E; [|done]. destruct (Hs _ _ E) as (n & Hn & Hid & _). by destruct (Hno n Hn).
Qed.

Context (Huniq : NoDup (nd_ID <$> Nodes topo)).

Lemma same_node n n' : n ∈ Nodes topo → n' ∈ Nodes topo → nd_ID n = nd_ID n' → n = n'.
Proof.
  intros Hn Hn' E. apply list_elem_of_lookup in Hn as [i Hi], Hn' as [j Hj].
  assert (i = j) as ->; [|congruence]. apply (NoDup_lookup _ _ _ (nd_ID n) Huniq); rewrite list_lookup_fmap.
  - by rewrite Hi.
  - by rewrite Hj, E.
Qed.

Lemma nodes_some id n : nodes g !! id = Some n ↔ n ∈ Nodes topo ∧ nd_ID n = id.
Proof.
  pose proof (map_by_spec nd_ID (λ n, n) (Nodes topo)) as [Hs Hd]. split.
  - intros E. destruct (Hs _ _ E) as (m & ? & ? & ->). done.
  - intros [Hn <-]. destruct (Hd n Hn) as [m E]. destruct (Hs _ _ E) as (m' & Hm' & Eid & ->).
    rewrite (same_node n m' Hn Hm' (eq_sym Eid)) at 2. exact E.
Qed.

Lemma nodes_listed : map_to_list (nodes g) ≡ₚ (λ n, (nd_ID n, n)) <$> Nodes topo.
Proof.
  apply NoDup_Permutation; [apply NoDup_map_to_list| |].
  - apply (NoDup_fmap_1 fst). rewrite <-list_fmap_compose. exact Huniq.
  - intros [id n]. rewrite elem_of_map_to_list, nodes_some, list_elem_of_fmap. split.
    + intros [? <-]. eauto.
    + by intros (m & [= -> ->] & ?).
Qed.
End graph.

(** ** What a physical failure takes with it *)

Inductive runs_on (topo : Topology) : string → string → Prop :=
| synced n : n ∈ Nodes topo → Parent n ≠ "" → runs_on topo (nd_ID n) (Parent n)
| declared n l : n ∈ Nodes topo → Parent n = "" → head (links_of topo (nd_ID n) "placed-on") = Some l → ln_Target l ≠ "" →
    runs_on topo (nd_ID n) (ln_Target l).

Definition drawn (topo : Topology) (id : string) : Prop := ∃ n, n ∈ Nodes topo ∧ nd_ID n = id.

(** A declared tunnel nobody synced: the machine its attributes name. *)
Inductive terminates_on (topo : Topology) (n : Node) : string → Prop :=
| on_vm h : attrString (nd_Attrs n) "host" = h → h ≠ "" → drawn topo ("vm/" +:+ h) → terminates_on topo n ("vm/" +:+ h)
| on_host h : attrString (nd_Attrs n) "host" = h → h ≠ "" → ¬ drawn topo ("vm/" +:+ h) → drawn topo h → terminates_on topo n h.

Inductive fails_with (topo : Topology) : string → string → Prop :=
| placed id h : runs_on topo id h → fails_with topo id h
| tunnel_of n m h : n ∈ Nodes topo → nd_Kind n = "tunnel" → terminates_on topo n m → runs_on topo m h →
    fails_with topo (nd_ID n) h.

Lemma deps_fold (f : string * Node → string) l deps p id :
  id ∈ default [] (foldl (λ deps e, if String.eqb (f e) "" then deps else add_dep deps (f e) e.1) deps l !! p) ↔
  id ∈ default [] (deps !! p) ∨ p ≠ "" ∧ ∃ e, e ∈ l ∧ f e = p ∧ e.1 = id.
Proof.
  revert deps. induction l as [|e l IH]; intros deps; cbn [foldl]; [set_solver|]. rewrite IH. clear IH.
  assert (id ∈ default [] ((if String.eqb (f e) "" then deps else add_dep deps (f e) e.1) !! p) ↔
          id ∈ default [] (deps !! p) ∨ p ≠ "" ∧ f e = p ∧ e.1 = id) as ->.
  { destruct (String.eqb_spec (f e) "") as [He|He]; [naive_solver congruence|]. unfold add_dep.
    destruct (decide (f e = p)) as [<-|Hp]; [rewrite lookup_insert_eq; cbn [default]; unfold Datatypes.id; set_solver|].
    rewrite lookup_insert_ne by done. naive_solver. }
  setoid_rewrite elem_of_cons. naive_solver.
Qed.

Lemma distinct_spec l : ∀ seen, NoDup (distinct seen l) ∧ ∀ s, s ∈ distinct seen l ↔ s ∉ seen ∧ s ∈ l.
Proof.
  induction l as [|x l IH]; intros seen; cbn [distinct]; [split; [constructor|]; set_solver|].
  unfold slices_Contains. case_bool_decide as Hin; destruct (IH seen) as [N1 E1]; destruct (IH (x :: seen)) as [N2 E2].
  - split; [done|]. intros s. rewrite E1. set_solver.
  - split; [constructor; [rewrite E2; set_solver|done]|]. intros s. rewrite elem_of_cons, E2. destruct (decide (s = x)); set_solver.
Qed.

Lemma uniqueSorted_spec l :
  StronglySorted (not_after string_ltb) (uniqueSorted l) ∧ NoDup (uniqueSorted l) ∧ ∀ s, s ∈ uniqueSorted l ↔ s ∈ l.
Proof.
  unfold uniqueSorted, sort_strings. destruct (distinct_spec l []) as [Hn He]. split_and!.
  - apply sort_sorted, _.
  - by apply sort_NoDup.
  - intros s. rewrite sort_elem_of, He. set_solver.
Qed.

(** Two sorted lists without repetition and with the same elements are equal. *)
Lemma uniqueSorted_ext l l' : (∀ s, s ∈ l ↔ s ∈ l') → uniqueSorted l = uniqueSorted l'.
Proof.
  intros H. apply sort_Permutation_strong; [apply _|by intros x y _ _; apply less_connex|].
  apply NoDup_Permutation; [apply distinct_spec..|]. intros s. rewrite !(proj2 (distinct_spec _ [])). set_solver.
Qed.

Lemma carried_foldl g ids : ∀ k, foldl (λ n d, n + Z.of_nat (length (links_at (out g) d "carries"))) k ids = k + carried g ids.
Proof.
  unfold carried. induction ids as [|d ids IH]; intros k; cbn [foldl]; [lia|]. rewrite IH, (IH (0 + _)). lia.
Qed.

Lemma carried_spec topo ids : NoDup ids →
  carried (newGraphIndex topo) ids = Z.of_nat (length (filter (λ l, ln_Kind l = "carries" ∧ ln_Source l ∈ ids) (Links topo))).
Proof.
  induction 1 as [|d ids Hd Hn IH].
  - unfold carried. cbn [foldl]. induction (Links topo) as [|l ls IHl]; [done|]. rewrite list.filter_cons.
    destruct (decide _) as [[_ H]|_]; [by apply not_elem_of_nil in H|exact IHl].
  - unfold carried. cbn [foldl]. rewrite carried_foldl, IH, out_links. unfold links_of. rewrite Z.add_0_l, <-Nat2Z.inj_add. f_equal.
    clear IH. induction (Links topo) as [|l ls IHl]; [done|]. rewrite !list.filter_cons.
    destruct (decide (ln_Kind l = "carries")) as [Hk|Hk], (decide (ln_Source l = d)) as [Hs|Hs], (decide (ln_Source l ∈ ids)) as [Hi|Hi];
      repeat case_decide; cbn [length]; try lia; exfalso; set_solver.
Qed.

Section failure.
Context (visit : nat → gmap string Node → list (string * Node)) (Hvisit : ∀ i m, visit i m ≡ₚ map_to_list m).
Context (topo : Topology) (Huniq : NoDup (nd_ID <$> Nodes topo)).
Notation g := (newGraphIndex topo).

Lemma visited i id n : (id, n) ∈ visit i (nodes g) ↔ n ∈ Nodes topo ∧ nd_ID n = id.
Proof. by rewrite Hvisit, elem_of_map_to_list, nodes_some. Qed.

Lemma drawn_node id : is_Some (nodes g !! id) ↔ drawn topo id.
Proof.
  split; [intros [n Hn]; apply nodes_some in Hn as []; [by exists n|done]|].
  intros (n & ? & ?). exists n. by apply nodes_some.
Qed.

Lemma parentOf_spec n h : n ∈ Nodes topo → h ≠ "" → parentOf g (nd_ID n) = h ↔ runs_on topo (nd_ID n) h.
Proof.
  intros Hn Hh. unfold parentOf. rewrite (proj2 (nodes_some topo Huniq (nd_ID n) n) (conj Hn eq_refl)), out_links. split.
  - destruct (String.eqb_spec (Parent n) "") as [E|E]; [|intros <-; by constructor].
    destruct (links_of topo (nd_ID n) "placed-on") as [|l ls] eqn:El; [done|]. intros <-. apply declared; try done. by rewrite El.
  - inversion 1 as [n' Hn' Hp Eid Eh|n' l Hn' Hp Hl Ht Eid Eh]; apply (same_node topo Huniq) in Eid as ->; try done.
    + by apply String.eqb_neq in Hp as ->.
    + rewrite Hp. cbn. by destruct (links_of _ _ _); simplify_eq/=.
Qed.

Lemma machineOf_spec n m : n ∈ Nodes topo → nd_Kind n = "tunnel" → m ≠ "" → machineOf g (nd_ID n) = m ↔ terminates_on topo n m.
Proof.
  intros Hn Hk Hm. unfold machineOf. rewrite (proj2 (nodes_some topo Huniq (nd_ID n) n) (conj Hn eq_refl)), Hk. cbn [negb String.eqb].
  change (String.eqb "tunnel" "tunnel") with true. cbn [negb]. split.
  - intros <-. destruct (String.eqb_spec (attrString (nd_Attrs n) "host") ""); [done|].
    case_bool_decide as Hv; [|case_bool_decide as Hh; [|done]]; rewrite drawn_node in *.
    + by apply on_vm.
    + by apply on_host.
  - intros Ht. clear Hm. destruct Ht as [h Eh Hne Hv|h Eh Hne Hv Hh]; rewrite Eh; apply String.eqb_neq in Hne as ->.
    + rewrite bool_decide_true; [done|by apply drawn_node].
    + rewrite bool_decide_false, bool_decide_true; [done|by apply drawn_node|by rewrite drawn_node].
Qed.

(** The host a tunnel's machine runs on, empty for every other node. *)
Definition tunnel_parent (e : string * Node) : string :=
  if negb (String.eqb (nd_Kind e.2) "tunnel") then "" else
  let m := machineOf g e.1 in if String.eqb m "" then "" else parentOf g m.

Lemma dependents_fold p id : id ∈ default [] (dependents visit g !! p) ↔
  p ≠ "" ∧ ((∃ e, e ∈ visit 0 (nodes g) ∧ parentOf g e.1 = p ∧ e.1 = id) ∨
            ∃ e, e ∈ visit 1 (nodes g) ∧ tunnel_parent e = p ∧ e.1 = id).
Proof.
  unfold dependents.
  assert (∀ l deps, foldl (place_tunnel g) deps l =
    foldl (λ deps e, if String.eqb (tunnel_parent e) "" then deps else add_dep deps (tunnel_parent e) e.1) deps l) as ->.
  { induction l as [|e l IH]; intros deps; cbn [foldl]; [done|]. rewrite IH. f_equal. unfold place_tunnel, tunnel_parent. cbv zeta.
    destruct (negb _); [done|]. by destruct (String.eqb (machineOf g e.1) ""). }
  rewrite deps_fold, (deps_fold (λ e, parentOf g e.1)), lookup_empty. cbn. set_solver.
Qed.

Lemma dependents_spec id h : id ∈ default [] (dependents visit g !! h) ↔ fails_with topo id h.
Proof.
  rewrite dependents_fold. split.
  - intros [Hh [([i n] & Hin & Hp & Hid)|([i n] & Hin & Hp & Hid)]]; apply visited in Hin as [Hn <-]; cbn in Hp, Hid; subst id.
    + apply placed. by apply parentOf_spec.
    + unfold tunnel_parent in Hp. cbn in Hp. destruct (String.eqb_spec (nd_Kind n) "tunnel") as [Hk|]; cbn in Hp; [|done].
      destruct (String.eqb_spec (machineOf g (nd_ID n)) "") as [|Hm]; [done|].
      pose proof (proj1 (machineOf_spec n _ Hn Hk Hm) eq_refl) as Ht. clear Hm.
      apply (tunnel_of topo n _ h Hn Hk Ht). assert (drawn topo (machineOf g (nd_ID n))) as (nm & Hnm & Em) by by destruct Ht.
      rewrite <-Em in Hp |- *. by apply parentOf_spec.
  - assert (∀ id, runs_on topo id h → h ≠ "" ∧ ∃ n, n ∈ Nodes topo ∧ nd_ID n = id) as Hr by (destruct 1; eauto).
    destruct 1 as [id h Hon|n m h Hn Hk Ht Hon]; destruct (Hr _ Hon) as (Hh & nm & Hnm & Em); subst; (split; [done|]).
    + left. exists (nd_ID nm, nm). rewrite visited. split_and!; try done. by apply parentOf_spec.
    + right. exists (nd_ID n, n). rewrite visited. split_and!; try done. unfold tunnel_parent. cbn [fst snd]. rewrite Hk.
      change (String.eqb "tunnel" "tunnel") with true. cbn [negb].
      assert (nd_ID nm ≠ "") as Hm by (destruct Ht; [done|by subst]).
      rewrite (proj2 (machineOf_spec n (nd_ID nm) Hn Hk Hm) Ht). apply String.eqb_neq in Hm as ->. by apply parentOf_spec.
Qed.
End failure.

Lemma Derive_fields visit topo : let g := newGraphIndex topo in
  FailureDomains (Derive visit topo) = failureDomains visit g ∧ Gaps (Derive visit topo) = gaps visit g.
Proof. cbv zeta. unfold Derive. by destruct (foldl _ _ _). Qed.

#[export] Instance domain_less_weak : StrictWeak domain_less.
Proof. apply _. Qed.

Lemma domain_less_host x y : domain_less x y = false → domain_less y x = false → fd_Host x = fd_Host y.
Proof.
  unfold domain_less, less_then, less_on. intros Hxy Hyx.
  destruct (decide (Carries x = Carries y)) as [E|E].
  - rewrite decide_True in Hyx by done. destruct (decide (Z.of_nat (length (Tunnels x)) = Z.of_nat (length (Tunnels y)))) as [E'|E'].
    + rewrite decide_True in Hyx by done. by apply (less_connex (less:=string_ltb)).
    + rewrite decide_False in Hyx by congruence. bool_simpl. lia.
  - rewrite decide_False in Hyx by congruence. bool_simpl. lia.
Qed.

Definition tunnel_end (topo : Topology) (id : string) : Prop :=
  ∃ n, n ∈ Nodes topo ∧ nd_ID n = id ∧ (nd_Kind n = "gateway" ∨ nd_Kind n = "tunnel" ∨ Ifaces n ≠ []).

Section failure_domains.
Context (topo : Topology) (Huniq : NoDup (nd_ID <$> Nodes topo)).
Notation g := (newGraphIndex topo).
Notation lawful visit := (∀ (i : nat) (m : gmap string Node), visit i m ≡ₚ map_to_list m).

Lemma terminatesTunnel_spec id : terminatesTunnel g id = true ↔ tunnel_end topo id.
Proof.
  unfold terminatesTunnel, tunnel_end. destruct (nodes g !! id) as [n|] eqn:E.
  - apply nodes_some in E as [Hn Hid]; [|done]. rewrite !orb_true_iff, !String.eqb_eq, Nat.ltb_lt. split.
    + intros H. exists n. split_and!; [done..|]. destruct H as [[|]|H]; [by left|by right; left|]. right; right. intros E. rewrite E in H. cbn in H. lia.
    + intros (n' & Hn' & Hid' & H). assert (n' = n) as -> by (apply (same_node topo Huniq); congruence).
      destruct H as [|[|H]]; [by left; left|by left; right|right]. by destruct (Ifaces n); [|cbn; lia].
  - rewrite nodes_none in E. split; [done|]. intros (n & Hn & Hid & _). by destruct (E n Hn).
Qed.

Lemma failure_domain_visit visit visit' id n : lawful visit → lawful visit' →
  failure_domain g (dependents visit g) id n = failure_domain g (dependents visit' g) id n.
Proof.
  intros Hv Hv'. unfold failure_domain. rewrite (uniqueSorted_ext _ (default [] (dependents visit' g !! id))); [done|].
  intros s. by rewrite !dependents_spec.
Qed.

Definition host_domain (deps : gmap string (list string)) (n : Node) : option FailureDomain :=
  if String.eqb (nd_Kind n) "physical-host" then Some (failure_domain g deps (nd_ID n) n) else None.

Lemma failureDomains_perm visit : lawful visit →
  failureDomains visit g = sort domain_less (omap (host_domain (dependents visit g)) (Nodes topo)).
Proof.
  intros Hv. unfold failureDomains. cbv zeta. apply sort_Permutation_strong; [apply _| |].
  - intros x y Hx Hy Hxy Hyx. pose proof (domain_less_host _ _ Hxy Hyx) as E.
    apply list_elem_of_omap in Hx as ([i n] & Hn & Hx), Hy as ([j m] & Hm & Hy). cbn in Hx, Hy.
    destruct (String.eqb _ _); [|done]. destruct (String.eqb _ _); [|done]. injection Hx as <-. injection Hy as <-. cbn in E. subst j.
    apply (visited visit Hv topo Huniq) in Hn as [Hn <-], Hm as [Hm Eid]. by rewrite (same_node topo Huniq m n).
  - rewrite Hv, nodes_listed by done. clear Huniq. induction (Nodes topo) as [|n ns IH]; [done|]. cbn. unfold host_domain.
    destruct (String.eqb _ _); by rewrite IH.
Qed.

(** The failure domains are exactly the physical hosts, widest first.  The
    dependents of a host are exactly the nodes that stop with it: those the sync
    or, failing that, a declaration placed on it, and the declared tunnels whose
    machine runs on it.  Its tunnels are the dependents that end one, and its
    blast radius counts the links that carry a network from them.  None of it
    depends on the order in which the maps are walked. *)
Theorem failure_domains_exact visit : lawful visit →
  let ds := FailureDomains (Derive visit topo) in
  StronglySorted (not_after domain_less) ds ∧
  fd_Host <$> ds ≡ₚ nd_ID <$> filter (λ n, nd_Kind n = "physical-host") (Nodes topo) ∧
  (∀ d, d ∈ ds →
    StronglySorted (not_after string_ltb) (Dependents d) ∧ NoDup (Dependents d) ∧
    (∀ id, id ∈ Dependents d ↔ fails_with topo id (fd_Host d)) ∧
    (∀ id, id ∈ Tunnels d ↔ id ∈ Dependents d ∧ tunnel_end topo id) ∧
    Carries d = Z.of_nat (length (filter (λ l, ln_Kind l = "carries" ∧ ln_Source l ∈ Tunnels d) (Links topo)))) ∧
  ∀ visit', lawful visit' → FailureDomains (Derive visit' topo) = ds.
Proof.
  intros Hv ds. subst ds. rewrite (proj1 (Derive_fields visit topo)), (failureDomains_perm visit Hv). split_and!.
  - apply sort_sorted, _.
  - rewrite sort_perm. clear. induction (Nodes topo) as [|n ns IH]; [done|]. rewrite list.filter_cons. cbn. unfold host_domain.
    destruct (String.eqb_spec (nd_Kind n) "physical-host"), (decide (nd_Kind n = "physical-host")); try done. cbn. by rewrite IH.
  - intros d Hd. rewrite sort_elem_of in Hd. apply list_elem_of_omap in Hd as (n & Hn & Hd). unfold host_domain in Hd.
    destruct (String.eqb _ _); [|done]. injection Hd as <-. cbn [Dependents Tunnels Carries fd_Host failure_domain].
    destruct (uniqueSorted_spec (default [] (dependents visit g !! nd_ID n))) as (Hs & Hnd & Hin). split_and!; try done.
    + intros id. rewrite Hin. by apply dependents_spec.
    + intros id. rewrite list_elem_of_filter, terminatesTunnel_spec. tauto.
    + apply carried_spec. by apply NoDup_filter.
  - intros visit' Hv'. rewrite (proj1 (Derive_fields visit' topo)), (failureDomains_perm visit' Hv'). f_equal.
    assert (∀ n, host_domain (dependents visit' g) n = host_domain (dependents visit g) n) as E
      by (intros n; unfold host_domain; by rewrite (failure_domain_visit visit' visit)).
    clear Huniq Hv'. induction (Nodes topo) as [|n ns IH]; [done|]. cbn. by rewrite E, IH.
Qed.
End failure_domains.

(** ** Paths *)

(** Drop the empty names and the immediate repeats. *)
Fixpoint squeeze (prev : string) (l : list string) : list string :=
  match l with
  | [] => []
  | x :: l' => if String.eqb x "" || String.eqb prev x then squeeze prev l' else x :: squeeze x l'
  end.

Lemma list_last_snoc {A} (d : A) l x : list_last d (l ++ [x]) = x.
Proof. revert d. by induction l as [|y l IH]; intros d; cbn. Qed.

Lemma push_squeeze hops x : push hops x = hops ++ squeeze (list_last "" hops) [x].
Proof.
  unfold push. cbn [squeeze]. destruct (String.eqb x ""), (String.eqb (list_last "" hops) x); cbn; by rewrite ?app_nil_r.
Qed.

Lemma list_last_squeeze hops x : list_last "" (hops ++ squeeze (list_last "" hops) [x]) = if String.eqb x "" then list_last "" hops else x.
Proof.
  cbn [squeeze]. destruct (String.eqb x "") eqn:E; cbn; [by rewrite app_nil_r|].
  destruct (String.eqb_spec (list_last "" hops) x); [by rewrite app_nil_r|apply list_last_snoc].
Qed.

Lemma squeeze_cons prev x l : squeeze prev (x :: l) = squeeze prev [x] ++ squeeze (if String.eqb x "" then prev else x) l.
Proof.
  cbn [squeeze]. destruct (String.eqb x "") eqn:E; cbn; [done|]. by destruct (String.eqb_spec prev x) as [->|].
Qed.

Lemma foldl_push l : ∀ hops, foldl push hops l = hops ++ squeeze (list_last "" hops) l.
Proof.
  induction l as [|x l IH]; intros hops; cbn [foldl]; [by rewrite app_nil_r|].
  by rewrite IH, push_squeeze, list_last_squeeze, (squeeze_cons _ x l), (assoc_L (++)).
Qed.

Lemma squeeze_elem l : ∀ prev x, x ∈ prev :: squeeze prev l ↔ x = prev ∨ x ≠ "" ∧ x ∈ l.
Proof.
  induction l as [|y l IH]; intros prev x; cbn [squeeze]; [set_solver|].
  destruct (String.eqb_spec y "") as [->|Hy]; cbn [orb]; [rewrite IH; set_solver|].
  destruct (String.eqb_spec prev y) as [->|Hp]; [rewrite IH; set_solver|]. rewrite elem_of_cons, IH. set_solver.
Qed.

Lemma squeeze_distinct l : ∀ prev i x y, (prev :: squeeze prev l) !! i = Some x → (prev :: squeeze prev l) !! S i = Some y → x ≠ y.
Proof.
  induction l as [|z l IH]; intros prev i x y; cbn [squeeze]; [by destruct i|].
  destruct (String.eqb z "" || String.eqb prev z) eqn:E; [apply IH|]. apply orb_false_iff in E as [_ Ep%String.eqb_neq].
  destruct i as [|i]; [|apply IH]. cbn. by intros [= <-] [= <-].
Qed.

Lemma squeeze_last l x : ∀ prev, x ≠ "" → last (prev :: squeeze prev (l ++ [x])) = Some x.
Proof.
  induction l as [|z l IH]; intros prev Hx; cbn [app squeeze].
  - apply String.eqb_neq in Hx as ->. cbn. by destruct (String.eqb_spec prev x) as [->|].
  - destruct (String.eqb z "" || String.eqb prev z); [by apply IH|]. change (last (z :: squeeze z (l ++ [x])) = Some x). by apply IH.
Qed.

(** The chain a carried network rides, before repeats are dropped. *)
Definition ride (g : graphIndex) (l : Link) (m host : string) : list string :=
  let base := FirstNonEmpty [host; m; ln_Source l] in
  let farm := memberOf g base "farm" in
  [m; host; farm; memberOf g (FirstNonEmpty [farm; base]) "site"] ++
  (ln_Target <$> sort transit_less (links_at (out g) (ln_Source l) "transits")) ++ [ln_Target l].

Lemma FirstNonEmpty_cons x l : FirstNonEmpty (x :: l) = if String.eqb x "" then FirstNonEmpty l else x.
Proof. unfold FirstNonEmpty. rewrite list.filter_cons. destruct (String.eqb_spec x ""), (decide (x ≠ "")); done. Qed.

Lemma push_empty hops : push hops "" = hops.
Proof. done. Qed.

Lemma FirstNonEmpty_one x : FirstNonEmpty [x] = x.
Proof. rewrite FirstNonEmpty_cons. by destruct (String.eqb_spec x "") as [->|]. Qed.

Lemma FirstNonEmpty_two x y : FirstNonEmpty [x; y] = if String.eqb x "" then y else x.
Proof. rewrite FirstNonEmpty_cons. by rewrite FirstNonEmpty_one. Qed.

Lemma path_hops_spec g l : let src := ln_Source l in let m := machineOf g src in
  path_hops g l = src :: squeeze src (ride g l m (parentOf g (FirstNonEmpty [m; src]))).
Proof.
  cbv zeta. set (src := ln_Source l). set (m := machineOf g src). set (host := parentOf g _).
  change (src :: squeeze src (ride g l m host)) with ([src] ++ squeeze (list_last "" [src]) (ride g l m host)).
  rewrite <-foldl_push. unfold ride. rewrite foldl_app, foldl_snoc, foldl_fmap. cbn [foldl].
  unfold path_hops. fold src m. cbv zeta. rewrite FirstNonEmpty_cons, !FirstNonEmpty_two. fold src.
  subst host. rewrite FirstNonEmpty_two.
  destruct (String.eqb_spec m "") as [Em|Em].
  - rewrite Em, push_empty. destruct (String.eqb_spec (parentOf g src) "") as [Eh|Eh]; [rewrite Eh, push_empty|];
      by destruct (String.eqb (memberOf g _ "farm") "").
  - destruct (String.eqb_spec (parentOf g m) "") as [Eh|Eh]; [rewrite Eh, push_empty|];
      by destruct (String.eqb (memberOf g _ "farm") "").
Qed.

(** The machine a carrying node is, if it is known. *)
Definition carrier (topo : Topology) (n : Node) (m : string) : Prop :=
  nd_Kind n ≠ "tunnel" ∧ m = nd_ID n ∨
  nd_Kind n = "tunnel" ∧ (terminates_on topo n m ∨ m = "" ∧ ∀ m', ¬ terminates_on topo n m').

Definition placed_on (topo : Topology) (id h : string) : Prop := runs_on topo id h ∨ h = "" ∧ ∀ h', ¬ runs_on topo id h'.

Section paths.
Context (topo : Topology) (Huniq : NoDup (nd_ID <$> Nodes topo)).
Notation g := (newGraphIndex topo).

Lemma runs_on_nonempty id h : runs_on topo id h → h ≠ "".
Proof. by destruct 1. Qed.

Lemma parentOf_placed n : n ∈ Nodes topo → placed_on topo (nd_ID n) (parentOf g (nd_ID n)).
Proof.
  intros Hn. destruct (decide (parentOf g (nd_ID n) = "")) as [E|E].
  - right. split; [done|]. intros h Hh. pose proof (runs_on_nonempty _ _ Hh). apply parentOf_spec in Hh; [congruence|done..].
  - left. by apply parentOf_spec.
Qed.

Lemma machineOf_carrier n : n ∈ Nodes topo → carrier topo n (machineOf g (nd_ID n)).
Proof.
  intros Hn. destruct (decide (nd_Kind n = "tunnel")) as [Hk|Hk].
  - right. split; [done|]. destruct (decide (machineOf g (nd_ID n) = "")) as [E|E]; [right|left; by apply machineOf_spec].
    split; [done|]. intros m' Hm. assert (m' ≠ "") as Hne by (destruct Hm; [done|by subst]).
    apply (machineOf_spec topo Huniq) in Hm; [congruence|done..].
  - left. split; [done|]. unfold machineOf. rewrite (proj2 (nodes_some topo Huniq (nd_ID n) n) (conj Hn eq_refl)).
    by apply String.eqb_neq in Hk as ->.
Qed.

Lemma carrier_drawn n m : n ∈ Nodes topo → carrier topo n m → drawn topo (FirstNonEmpty [m; nd_ID n]).
Proof.
  intros Hn Hm. rewrite FirstNonEmpty_two. destruct (String.eqb_spec m "") as [->|]; [by exists n|].
  destruct Hm as [[_ ->]|[_ [Ht|[? _]]]]; [by exists n|by destruct Ht|done].
Qed.

Lemma derive_links visit : let cs := filter (λ l, ln_Kind l = "carries") (Links topo) in
  Paths (Derive visit topo) = sort path_less (path g <$> cs) ∧
  SNAT (Derive visit topo) = sort snat_less ((λ l, snat_rule l (path g l)) <$>
    filter (λ l, attrString (ln_Attrs l) "method" = "direct" ∧ attrString (ln_Attrs l) "snat_at" ≠ "") cs).
Proof.
  cbv zeta. unfold Derive. cbv zeta. set (cs := filter _ _). set (ds := filter _ _).
  assert (foldl (derive_link g) ([], []) (Links topo) = (path g <$> cs, (λ l, snat_rule l (path g l)) <$> ds)) as ->; [|done].
  subst cs ds. set (P := λ l, _ = "direct" ∧ _). apply (foldl_invariant (λ seen acc, acc =
    (path g <$> filter (λ l, ln_Kind l = "carries") seen,
     (λ l, snat_rule l (path g l)) <$> filter P (filter (λ l, ln_Kind l = "carries") seen)))); [done|].
  intros seen acc l ->. rewrite !list.filter_app, !list.filter_cons, !list.filter_nil. unfold derive_link.
  destruct (String.eqb_spec (ln_Kind l) "carries") as [E|E]; cbn [negb].
  - rewrite decide_True by done. rewrite list.filter_cons, list.filter_nil, !fmap_app. cbn [fst snd fmap list_fmap]. f_equal.
    cbn [Method SNATAt path]. subst P. destruct (String.eqb_spec (attrString (ln_Attrs l) "method") "direct"),
      (String.eqb_spec (attrString (ln_Attrs l) "snat_at") ""), (decide _) as [H|H]; cbn; rewrite ?app_nil_r; try done; naive_solver.
  - rewrite decide_False by done. by rewrite list.filter_nil, !app_nil_r.
Qed.

(** Every link that carries a network is one path, and there is no other.
    Its hops start at the carrying tunnel and end at the network, no two in a
    row are the same, and they are exactly: the machine the tunnel is, when that
    is known; the host that machine runs on; the farm and site it belongs to; the
    underlay the tunnel transits; and the network.  A masquerade is required for
    exactly the direct links that name where it happens, and its rule says what
    the link says. *)
Theorem paths_exact visit :
  (∀ l, l ∈ Links topo → ln_Kind l = "carries" → drawn topo (ln_Source l)) →
  let d := Derive visit topo in
  Paths d ≡ₚ path g <$> filter (λ l, ln_Kind l = "carries") (Links topo) ∧
  (∀ l n, l ∈ Links topo → ln_Kind l = "carries" → n ∈ Nodes topo → nd_ID n = ln_Source l →
    let p := path g l in
    p_Tunnel p = ln_Source l ∧ p_Network p = ln_Target l ∧ (Uncollected p = true ↔ nd_Kind n = "tunnel") ∧
    head (Hops p) = Some (ln_Source l) ∧ (ln_Target l ≠ "" → last (Hops p) = Some (ln_Target l)) ∧
    (∀ i x y, Hops p !! i = Some x → Hops p !! S i = Some y → x ≠ y) ∧
    ∃ m host, carrier topo n m ∧ placed_on topo (FirstNonEmpty [m; ln_Source l]) host ∧
      Hops p = ln_Source l :: squeeze (ln_Source l) (ride g l m host) ∧
      ∀ x, x ∈ Hops p ↔ x = ln_Source l ∨ x ≠ "" ∧
        (x = m ∨ x = host ∨ x = memberOf g (FirstNonEmpty [host; m; ln_Source l]) "farm" ∨
         x = memberOf g (FirstNonEmpty [memberOf g (FirstNonEmpty [host; m; ln_Source l]) "farm"; host; m; ln_Source l]) "site" ∨
         (∃ t, t ∈ Links topo ∧ ln_Source t = ln_Source l ∧ ln_Kind t = "transits" ∧ x = ln_Target t) ∨ x = ln_Target l)) ∧
  StronglySorted (not_after snat_less) (SNAT d) ∧
  ∀ r, r ∈ SNAT d ↔ ∃ l, l ∈ Links topo ∧ ln_Kind l = "carries" ∧ attrString (ln_Attrs l) "method" = "direct" ∧
    attrString (ln_Attrs l) "snat_at" ≠ "" ∧ r = snat_rule l (path g l).
Proof.
  intros Hdrawn d. subst d. destruct (derive_links visit) as [-> ->]. split; [|split; [|split]].
  - by rewrite sort_perm.
  - intros l n Hl Hk Hn Eid. cbv zeta. pose proof (path_hops_spec g l) as Eh. cbv zeta in Eh. cbn [Hops path p_Tunnel p_Network Uncollected].
    pose proof (machineOf_carrier n Hn) as Hc. pose proof (carrier_drawn n _ Hn Hc) as (nb & Hnb & Eb).
    rewrite Eid in Hc, Eb. rewrite <-Eb in Eh. split; [done|]. split; [done|]. split; [|rewrite Eh; split; [done|split]].
    + unfold has_kind. rewrite <-Eid, (proj2 (nodes_some topo Huniq (nd_ID n) n) (conj Hn eq_refl)). by rewrite String.eqb_eq.
    + intros Ht. unfold ride. rewrite (assoc_L (++)). by apply squeeze_last.
    + split; [intros i x y; apply squeeze_distinct|]. exists (machineOf g (ln_Source l)), (parentOf g (nd_ID nb)). split; [done|].
      split; [rewrite <-Eb; by apply parentOf_placed|]. split; [done|]. intros x. rewrite squeeze_elem. unfold ride.
      rewrite FirstNonEmpty_two. rewrite (FirstNonEmpty_cons (memberOf _ _ _)). rewrite !elem_of_app, list_elem_of_fmap.
      setoid_rewrite sort_elem_of. rewrite out_links. unfold links_of. setoid_rewrite list_elem_of_filter. rewrite !elem_of_cons, elem_of_nil.
      apply or_iff_compat_l, and_iff_compat_l. generalize (machineOf g (ln_Source l)) (parentOf g (nd_ID nb)). intros m p.
      generalize (memberOf g (FirstNonEmpty [p; m; ln_Source l]) "farm"). intros f. generalize (memberOf g (if String.eqb f "" then FirstNonEmpty [p; m; ln_Source l] else f) "site").
      clear. intros s. split.
      * intros [[?|[?|[?|[?|[]]]]]|[(t & ? & [? ?] & ?)|[?|[]]]]; auto 7. do 4 right. left. by exists t.
      * intros [?|[?|[?|[?|[(t & ? & ? & ? & ?)|?]]]]]; auto 7. right. left. by exists t.
  - apply sort_sorted, _.
  - intros r. rewrite sort_elem_of, list_elem_of_fmap. setoid_rewrite list_elem_of_filter. setoid_rewrite list_elem_of_filter. naive_solver.
Qed.
End paths.

(** ** Gaps *)

Inductive gap_of (topo : Topology) : Gap → Prop :=
| placement_conflict n l : n ∈ Nodes topo → Parent n ≠ "" → l ∈ Links topo → ln_Source l = nd_ID n → ln_Kind l = "placed-on" →
    ln_Target l ≠ Parent n →
    gap_of topo {| gp_Kind := "placement-conflict"; Subject := nd_ID n;
                   Detail := "synced on " +:+ Parent n +:+ ", declared on " +:+ ln_Target l |}
| uncollected n : n ∈ Nodes topo → nd_Kind n = "tunnel" →
    gap_of topo {| gp_Kind := "uncollected-tunnel"; Subject := nd_ID n;
                   Detail := "declared on " +:+ attrString (nd_Attrs n) "host" +:+ " but never synced" |}
| uncarried n : n ∈ Nodes topo → nd_Kind n = "network" →
    (∀ l, l ∈ Links topo → ln_Kind l = "carries" → ln_Target l ≠ nd_ID n) →
    gap_of topo {| gp_Kind := "uncarried-network"; Subject := nd_ID n; Detail := "no tunnel carries it" |}
| unplaced n : n ∈ Nodes topo → nd_Kind n = "vm" → (∀ h, ¬ runs_on topo (nd_ID n) h) →
    gap_of topo {| gp_Kind := "unplaced-vm"; Subject := nd_ID n; Detail := "no placed-on host" |}.

Section gaps.
Context (topo : Topology) (Huniq : NoDup (nd_ID <$> Nodes topo)).
Notation g := (newGraphIndex topo).

Lemma placement_gaps_spec n gp : n ∈ Nodes topo →
  gp ∈ placement_gaps g (nd_ID n) n ↔ Parent n ≠ "" ∧ ∃ l, l ∈ Links topo ∧ ln_Source l = nd_ID n ∧ ln_Kind l = "placed-on" ∧
    ln_Target l ≠ Parent n ∧ gp = {| gp_Kind := "placement-conflict"; Subject := nd_ID n;
                   Detail := "synced on " +:+ Parent n +:+ ", declared on " +:+ ln_Target l |}.
Proof.
  intros Hn. unfold placement_gaps. destruct (String.eqb_spec (Parent n) "") as [E|E]; [set_solver|].
  rewrite list_elem_of_fmap, out_links. unfold links_of. setoid_rewrite list_elem_of_filter. setoid_rewrite list_elem_of_filter. naive_solver.
Qed.

Lemma kind_gap_spec n gp : n ∈ Nodes topo → gp ∈ kind_gap g (nd_ID n) n → gap_of topo gp.
Proof.
  intros Hn. unfold kind_gap. destruct (String.eqb_spec (nd_Kind n) "tunnel") as [Ht|_].
  { intros ->%list_elem_of_singleton. by constructor. }
  destruct (String.eqb_spec (nd_Kind n) "network") as [Hk|_].
  { rewrite in_links. destruct (Nat.eqb_spec (length (filter (λ l, ln_Target l = nd_ID n ∧ ln_Kind l = "carries") (Links topo))) 0) as [E|E]; [|set_solver].
    intros ->%list_elem_of_singleton. constructor; [done..|]. intros l Hl Hc Ht. apply nil_length_inv in E.
    assert (l ∈ filter (λ l, ln_Target l = nd_ID n ∧ ln_Kind l = "carries") (Links topo)) as Hin by by apply list_elem_of_filter.
    rewrite E in Hin. by apply not_elem_of_nil in Hin. }
  destruct (String.eqb_spec (nd_Kind n) "vm") as [Hk|_]; [|set_solver].
  destruct (String.eqb_spec (parentOf g (nd_ID n)) "") as [E|E]; [|set_solver]. intros ->%list_elem_of_singleton.
  constructor; [done..|]. intros h Hh. pose proof (runs_on_nonempty _ _ _ Hh). apply parentOf_spec in Hh; [congruence|done..].
Qed.

(** The gaps are exactly what nothing confirms: a machine synced on one host
    and declared on another, once for each such declaration; a tunnel that was
    only declared; a network no link carries; and a vm with no host.  They come
    sorted by kind and subject. *)
Theorem gaps_exact visit : (∀ (i : nat) (m : gmap string Node), visit i m ≡ₚ map_to_list m) →
  let gs := Gaps (Derive visit topo) in
  StronglySorted (not_after gap_less) gs ∧ ∀ gp, gp ∈ gs ↔ gap_of topo gp.
Proof.
  intros Hv gs. subst gs. rewrite (proj2 (Derive_fields visit topo)). unfold gaps. split; [apply sort_sorted, _|].
  intros gp. rewrite sort_elem_of, list_elem_of_bind. split.
  - intros ([id n] & Hgp & Hin). apply (visited visit Hv topo Huniq) in Hin as [Hn <-]. cbn [fst snd] in Hgp.
    apply elem_of_app in Hgp as [Hgp|Hgp]; [|by eapply kind_gap_spec].
    apply placement_gaps_spec in Hgp as (Hp & l & ? & ? & ? & ? & ->); [by constructor|done].
  - intros Hgp. assert (∃ n, n ∈ Nodes topo ∧ gp ∈ placement_gaps g (nd_ID n) n ++ kind_gap g (nd_ID n) n) as (n & Hn & Hin).
    2:{ exists (nd_ID n, n). split; [done|]. by apply (visited visit Hv topo Huniq). }
    destruct Hgp as [n l Hn Hp Hl Hs Hk Ht|n Hn Hk|n Hn Hk Hc|n Hn Hk Hr]; exists n; (split; [done|]); apply elem_of_app;
      [left; apply placement_gaps_spec; [done|]; split; [done|]; by exists l|right; unfold kind_gap; rewrite Hk..].
    + by left.
    + change (String.eqb "network" "tunnel") with false. change (String.eqb "network" "network") with true. cbn [negb]. rewrite in_links.
      destruct (filter _ _) as [|l ls] eqn:E; [by left|]. assert (l ∈ l :: ls) as Hl by by left. rewrite <-E in Hl.
      apply list_elem_of_filter in Hl as [[Ht Hkl] Hl]. by destruct (Hc l Hl Hkl).
    + change (String.eqb "vm" "tunnel") with false. change (String.eqb "vm" "network") with false. change (String.eqb "vm" "vm") with true.
      destruct (String.eqb_spec (parentOf g (nd_ID n)) "") as [E|E]; [by left|]. destruct (Hr (parentOf g (nd_ID n))). by apply parentOf_spec.
Qed.
End gaps.

(** ** Witnesses: a synced gateway and a declared tunnel on one host *)

Definition demo_node (id kind parent : string) (attrs : attrs_t) : Node :=
  {| nd_ID := id; nd_Label := id; nd_Kind := kind; nd_DC := ""; nd_IP := ""; nd_TunnelIP := ""; Observed := ""; Parent := parent;
     Warnings := []; Ifaces := []; Layer := ""; nd_Attrs := attrs; nd_PubKey := ""; SeenAs := [] |}.
Definition demo_link (src dst kind : string) (attrs : attrs_t) : Link :=
  {| ln_Source := src; ln_Target := dst; ln_Kind := kind; ln_Attrs := attrs |}.
Definition demo_topology : Topology :=
  {| Nodes := [demo_node "host|h1" "physical-host" "" ∅; demo_node "gw" "gateway" "host|h1" ∅; demo_node "vm/v1" "vm" "" ∅;
               demo_node "tunnel/t1" "tunnel" "" {["host" := AnyString "v1"]}; demo_node "farm/f" "farm" "" ∅;
               demo_node "site/s" "site" "" ∅; demo_node "net/f/a" "network" "" ∅; demo_node "net/f/b" "network" "" ∅;
               demo_node "edge/e" "edge" "" ∅];
     Edges := []; Aggs := [];
     Links := [demo_link "vm/v1" "host|h1" "placed-on" ∅; demo_link "gw" "host|h9" "placed-on" ∅; demo_link "host|h1" "farm/f" "member-of" ∅;
               demo_link "farm/f" "site/s" "member-of" ∅; demo_link "tunnel/t1" "edge/e" "transits" ∅;
               demo_link "gw" "net/f/a" "carries" {["method" := AnyString "direct"; "snat_at" := AnyString "h1"]};
               demo_link "tunnel/t1" "net/f/a" "carries" {["method" := AnyString "proxy"; "snat_at" := AnyString "h1"]}];
     Vips := []; derived := None; tp_CollectedAt := 0 |}.
Definition in_map_order (i : nat) (m : gmap string Node) : list (string * Node) := map_to_list m.
Definition in_reverse (i : nat) (m : gmap string Node) : list (string * Node) := reverse (map_to_list m).

Lemma failure_domains_exact_witness :
  FailureDomains (Derive in_map_order demo_topology) =
    [{| fd_Host := "host|h1"; fd_Label := "host|h1"; Farm := "farm/f"; fd_Site := "site/s";
        Dependents := ["gw"; "tunnel/t1"; "vm/v1"]; Tunnels := ["gw"; "tunnel/t1"]; Carries := 2 |}] ∧
  FailureDomains (Derive in_reverse demo_topology) = FailureDomains (Derive in_map_order demo_topology).
Proof.
  split; [by vm_compute|]. assert (NoDup (nd_ID <$> Nodes demo_topology)) as Hu by by apply (bool_decide_unpack _); vm_compute.
  apply (failure_domains_exact demo_topology Hu in_map_order); [done|]. intros i m. apply reverse_Permutation.
Defined.

Lemma paths_exact_witness :
  (Hops <$> Paths (Derive in_map_order demo_topology)) =
    [["gw"; "host|h1"; "farm/f"; "site/s"; "net/f/a"]; ["tunnel/t1"; "vm/v1"; "host|h1"; "farm/f"; "site/s"; "edge/e"; "net/f/a"]] ∧
  length (SNAT (Derive in_map_order demo_topology)) = 1%nat ∧
  StronglySorted (not_after snat_less) (SNAT (Derive in_map_order demo_topology)).
Proof.
  split; [by vm_compute|split; [by vm_compute|]].
  assert (NoDup (nd_ID <$> Nodes demo_topology)) as Hu by by apply (bool_decide_unpack _); vm_compute.
  assert (Forall (λ l, Exists (λ n, nd_ID n = ln_Source l) (Nodes demo_topology)) (Links demo_topology)) as Hd
    by by apply (bool_decide_unpack _); vm_compute.
  apply (paths_exact demo_topology Hu in_map_order). intros l Hl _. rewrite Forall_forall in Hd. by apply Exists_exists, Hd.
Defined.

Lemma gaps_exact_witness :
  (λ gp, (gp_Kind gp, Subject gp)) <$> Gaps (Derive in_map_order demo_topology) =
    [("placement-conflict", "gw"); ("uncarried-network", "net/f/b"); ("uncollected-tunnel", "tunnel/t1")] ∧
  gap_of demo_topology {| gp_Kind := "placement-conflict"; Subject := "gw"; Detail := "synced on host|h1, declared on host|h9" |}.
Proof.
  split; [by vm_compute|]. assert (NoDup (nd_ID <$> Nodes demo_topology)) as Hu by by apply (bool_decide_unpack _); vm_compute.
  apply (gaps_exact demo_topology Hu in_map_order); [done|]. vm_compute. by left.
Defined.
