(* ===== verification/WgTopology.v ===== *)
(** The builder of the topology graph (internal/wireguard/topology.go): the
    lookups, and the phases that lay the gateways, the tunnels, the aggregates,
    the links and the declared underlay one over the other. *)

From Stdlib Require Import Ascii String.
From stdpp Require Import fin_sets fin_maps gmap.
From S2P Require Import Prelude GoStrings NetIP InvCache WgParse WgState WgIdentity WgGraph WgDerive.

#[local] Arguments sort : simpl never.

Record WGPeerRow := {
  row_peer : WGPeer; pr_Label : string; pr_LatestHandshake : option Z; pr_RxBytes : Z; pr_TxBytes : Z;
}.
Definition pr_Host (p : WGPeerRow) : string := w_Host (row_peer p).
Definition pr_Iface (p : WGPeerRow) : string := w_Iface (row_peer p).
Definition pr_Key (p : WGPeerRow) : string := PeerPubKey (row_peer p).

(** ** Lookups *)

(** The builder's indices, which no phase changes. *)
Record lookups := {
  lk_ifaces : list WGInterfaceRow; lk_peers : list WGPeerRow; lk_servers : list Server;
  endpoints : EndpointIndex; byHost : gmap string Server; byIP : gmap string Server;
  annByKey : gmap string WGEndpointAnnotation; annByHost : gmap string WGEndpointAnnotation;
  warnings : gmap string (list string); endpointIP : gmap string Z; ifByHost : gmap string (list IfaceT); gwHosts : gset string;
}.

(** [m[k] = append(m[k], x)] for every [x] of a list. *)
Definition group_by {X V} (key : X → string) (val : X → V) (l : list X) : gmap string (list V) :=
  foldl (λ m x, <[key x := default [] (m !! key x) ++ [val x]]> m) ∅ l.

Definition index_by_ip (servers : list Server) : gmap string Server :=
  foldl (λ m s, foldl (λ m ip, <[ip := s]> m) (<[InvCache.IP s := s]> m) (ExtraIPs s)) ∅ servers.

Definition count_endpoints (peers : list WGPeerRow) : gmap string Z :=
  foldl (λ m p, let ip := EndpointIP (w_Endpoint (row_peer p)) in
                if String.eqb ip "" then m else <[ip := default 0 (m !! ip) + 1]> m) ∅ peers.

Definition iface_of (i : WGInterfaceRow) : IfaceT := {| if_Name := Iface i; if_Port := WgIdentity.ListenPort i; if_PubKey := WgIdentity.PublicKey i |}.

Definition interfaces_by_host (ifaces : list WGInterfaceRow) : gmap string (list IfaceT) :=
  sort (less_on string_ltb if_Name) <$> group_by Host iface_of ifaces.

(** The annotations of a gateway's interfaces, in the order of the sorted rows. *)
Definition candidatesByHost (ann : gmap string WGEndpointAnnotation) (ifaces : list WGInterfaceRow) : gmap string (list WGEndpointAnnotation) :=
  foldl (λ m i, match ann !! WgIdentity.PublicKey i with
                | Some a => <[Host i := default [] (m !! Host i) ++ [a]]> m
                | None => m
                end) ∅ (sort row_less ifaces).

Definition more_specific (selected candidate : WGEndpointAnnotation) : WGEndpointAnnotation :=
  if AnnotationSpecificity selected <? AnnotationSpecificity candidate then candidate else selected.

Definition select_annotation (candidates : list WGEndpointAnnotation) : option WGEndpointAnnotation :=
  match candidates with [] => None | c :: rest => Some (foldl more_specific c rest) end.

Definition without_tunnel_ip (a : WGEndpointAnnotation) : WGEndpointAnnotation :=
  {| an_PublicKey := an_PublicKey a; an_Label := an_Label a; an_Kind := an_Kind a; UnderlayIP := UnderlayIP a; an_TunnelIP := "";
     an_Site := an_Site a; InventoryHost := InventoryHost a; ParentHostname := ParentHostname a; an_Note := an_Note a |}.

Definition conflict_warning : string :=
  "conflicting endpoint annotations across WG interfaces; using the most specific placement".

(** Each gateway is resolved from its own candidates: the winning annotations,
    and the warnings. *)
Definition resolveAnnotations (ann : gmap string WGEndpointAnnotation) (ifaces : list WGInterfaceRow)
    : gmap string WGEndpointAnnotation * gmap string (list string) :=
  let cands := candidatesByHost ann ifaces in
  (omap (λ cs, without_tunnel_ip <$> select_annotation cs) cands,
   omap (λ cs, selected ← select_annotation cs;
               if existsb (AnnotationPlacementConflict selected) cs then Some [conflict_warning] else None) cands).

Definition newBuilder (ifaces : list WGInterfaceRow) (peers : list WGPeerRow) (servers : list Server)
    (annotations : list WGEndpointAnnotation) : lookups :=
  let annKey := map_by an_PublicKey (λ a, a) annotations in
  let '(annHost, warn) := resolveAnnotations annKey ifaces in
  {| lk_ifaces := ifaces; lk_peers := peers; lk_servers := servers; endpoints := BuildEndpointIndex ifaces;
     byHost := map_by Hostname (λ s, s) servers; byIP := index_by_ip servers; annByKey := annKey; annByHost := annHost;
     warnings := warn; endpointIP := count_endpoints peers; ifByHost := interfaces_by_host ifaces;
     gwHosts := list_to_set (Host <$> ifaces) |}.

(** The server's zero value stands for a hostname inventory does not know. *)
Definition dcOf (lk : lookups) (host : string) : string := match byHost lk !! host with Some s => DC s | None => "" end.
Definition ipOf (lk : lookups) (host : string) : string := match byHost lk !! host with Some s => InvCache.IP s | None => "" end.

Definition conflicted (lk : lookups) (key : string) : bool := default false (conflicts (endpoints lk) !! key).

(** The loop of [canonicalHost]; [None] is its early return. *)
Fixpoint canonical_walk (lk : lookups) (canon : string) (ifs : list IfaceT) : option string :=
  match ifs with
  | [] => Some canon
  | i :: ifs' =>
      match Lookup (endpoints lk) (if_PubKey i) with
      | None => None
      | Some ref =>
          if conflicted lk (if_PubKey i) then None
          else if String.eqb canon "" then canonical_walk lk (n_Host ref) ifs'
          else if String.eqb canon (n_Host ref) then canonical_walk lk canon ifs'
          else None
      end
  end.

Definition canonicalHost (lk : lookups) (host : string) : string :=
  match default [] (ifByHost lk !! host) with
  | [] => host
  | ifs => match canonical_walk lk "" ifs with None => host | Some canon => if String.eqb canon "" then host else canon end
  end.

Fixpoint local_key (ifaces : list WGInterfaceRow) (host iface : string) : string :=
  match ifaces with
  | [] => ""
  | i :: rest => if String.eqb (Host i) host && String.eqb (Iface i) iface then WgIdentity.PublicKey i else local_key rest host iface
  end.
Definition localPubKey (lk : lookups) (host iface : string) : string := local_key (lk_ifaces lk) host iface.

(** ** The graph under construction *)

Record builder := {
  b_Nodes : list Node; b_Edges : list Edge; b_Aggs : list Agg; b_Links : list Link;
  nodeSeen : gset string; edgeFor : gmap TunnelKey string; aggOfHost : gmap string string;
}.

Definition start : builder :=
  {| b_Nodes := []; b_Edges := []; b_Aggs := []; b_Links := []; nodeSeen := ∅; edgeFor := ∅; aggOfHost := ∅ |}.

Definition addNode (b : builder) (n : Node) : builder :=
  if bool_decide (nd_ID n ∈ nodeSeen b) then b
  else {| b_Nodes := b_Nodes b ++ [n]; b_Edges := b_Edges b; b_Aggs := b_Aggs b; b_Links := b_Links b;
          nodeSeen := {[nd_ID n]} ∪ nodeSeen b; edgeFor := edgeFor b; aggOfHost := aggOfHost b |}.

Definition set_nodes (b : builder) (ns : list Node) : builder :=
  {| b_Nodes := ns; b_Edges := b_Edges b; b_Aggs := b_Aggs b; b_Links := b_Links b;
     nodeSeen := nodeSeen b; edgeFor := edgeFor b; aggOfHost := aggOfHost b |}.
Definition set_edges (b : builder) (es : list Edge) : builder :=
  {| b_Nodes := b_Nodes b; b_Edges := es; b_Aggs := b_Aggs b; b_Links := b_Links b;
     nodeSeen := nodeSeen b; edgeFor := edgeFor b; aggOfHost := aggOfHost b |}.
Definition set_links (b : builder) (ls : list Link) : builder :=
  {| b_Nodes := b_Nodes b; b_Edges := b_Edges b; b_Aggs := b_Aggs b; b_Links := ls;
     nodeSeen := nodeSeen b; edgeFor := edgeFor b; aggOfHost := aggOfHost b |}.
Definition set_edgeFor (b : builder) (k : TunnelKey) (id : string) : builder :=
  {| b_Nodes := b_Nodes b; b_Edges := b_Edges b; b_Aggs := b_Aggs b; b_Links := b_Links b;
     nodeSeen := nodeSeen b; edgeFor := <[k := id]> (edgeFor b); aggOfHost := aggOfHost b |}.
Definition set_aggs (b : builder) (ags : list Agg) (m : gmap string string) : builder :=
  {| b_Nodes := b_Nodes b; b_Edges := b_Edges b; b_Aggs := ags; b_Links := b_Links b;
     nodeSeen := nodeSeen b; edgeFor := edgeFor b; aggOfHost := m |}.

(** ** Gateways *)

Definition physical_node (parent : Server) : Node :=
  {| nd_ID := PhysicalHostNodeID (Hostname parent); nd_Label := Hostname parent; nd_Kind := "physical-host"; nd_DC := DC parent;
     nd_IP := InvCache.IP parent; nd_TunnelIP := ""; Observed := ""; Parent := ""; Warnings := []; Ifaces := []; Layer := "";
     nd_Attrs := ∅; nd_PubKey := ""; SeenAs := [] |}.

Definition addPhysicalHost (b : builder) (parent : Server) : builder * string :=
  (addNode b (physical_node parent), PhysicalHostNodeID (Hostname parent)).

(** The annotation over the node, before its parent is placed. *)
Definition annotate (lk : lookups) (n : Node) (a : WGEndpointAnnotation) : Node :=
  let inv := byHost lk !! InventoryHost a in
  let over (own : string) (get : Server → string) (old : string) :=
    match inv with Some s => FirstNonEmpty [own; get s; old] | None => FirstNonEmpty [own; old] end in
  {| nd_ID := nd_ID n; nd_Label := over (an_Label a) Hostname (nd_Label n); nd_Kind := FirstNonEmpty [an_Kind a; nd_Kind n];
     nd_DC := over (an_Site a) DC (nd_DC n); nd_IP := over (UnderlayIP a) InvCache.IP (nd_IP n); nd_TunnelIP := an_TunnelIP a;
     Observed := Observed n; Parent := Parent n; Warnings := Warnings n; Ifaces := Ifaces n; Layer := Layer n;
     nd_Attrs := nd_Attrs n; nd_PubKey := nd_PubKey n; SeenAs := SeenAs n |}.

Definition under (n : Node) (parent dc : string) : Node :=
  {| nd_ID := nd_ID n; nd_Label := nd_Label n; nd_Kind := nd_Kind n; nd_DC := dc; nd_IP := nd_IP n; nd_TunnelIP := nd_TunnelIP n;
     Observed := Observed n; Parent := parent; Warnings := Warnings n; Ifaces := Ifaces n; Layer := Layer n;
     nd_Attrs := nd_Attrs n; nd_PubKey := nd_PubKey n; SeenAs := SeenAs n |}.

Definition enrichEndpoint (lk : lookups) (b : builder) (n : Node) (a : WGEndpointAnnotation) : builder * Node :=
  let n := annotate lk n a in
  match byHost lk !! ParentHostname a with
  | Some parent => let '(b, id) := addPhysicalHost b parent in (b, under n id (DC parent))
  | None => (b, n)
  end.

Definition several (hosts : list string) : list string := if (1 <? length hosts)%nat then hosts else [].

Definition gateway_node (lk : lookups) (host : string) : Node :=
  let ifs := default [] (ifByHost lk !! host) in
  let key := match ifs with [] => "" | i :: _ => localPubKey lk host (if_Name i) end in
  {| nd_ID := host; nd_Label := host; nd_Kind := "gateway"; nd_DC := dcOf lk host; nd_IP := ipOf lk host; nd_TunnelIP := "";
     Observed := ""; Parent := ""; Warnings := default [] (warnings lk !! host); Ifaces := ifs; Layer := ""; nd_Attrs := ∅;
     nd_PubKey := key; SeenAs := match ifs with [] => [] | _ => several (ObservedThrough (endpoints lk) key) end |}.

Definition addGateway (lk : lookups) (b : builder) (host : string) : builder :=
  let n := gateway_node lk host in
  let '(b, n) := match annByHost lk !! host with Some a => enrichEndpoint lk b n a | None => (b, n) end in
  addNode b n.

(** The hosts of a Go map come in any order; they are sorted before use. *)
Definition gateway_hosts (lk : lookups) : list string :=
  sort_strings (filter (λ h, canonicalHost lk h = h) (elements (gwHosts lk))).

Definition addGateways (lk : lookups) (b : builder) : builder := foldl (addGateway lk) b (gateway_hosts lk).

(** ** Tunnels *)

Definition allowed_of (p : WGPeerRow) : string := Join (w_AllowedIPs (row_peer p)) ", ".

Definition side_of (p : WGPeerRow) (localKey : string) : EdgeSide :=
  {| es_Host := pr_Host p; es_Iface := pr_Iface p; es_PubKey := localKey; es_Allowed := allowed_of p |}.

Definition with_B (e : Edge) (side : EdgeSide) : Edge :=
  {| ed_ID := ed_ID e; ed_Source := ed_Source e; ed_Target := ed_Target e; ed_Iface := ed_Iface e; ed_Allowed := ed_Allowed e;
     side_A := side_A e; side_B := Some side; TargetSeenAs := TargetSeenAs e; Conflict := Conflict e |}.

Definition same_end (e : Edge) (localKey : string) : bool :=
  match side_A e with Some a => String.eqb (es_PubKey a) localKey | None => false end.

(** The first edge with that id takes the second end, unless it is the end it
    already has or it has both. *)
Fixpoint fill_side (id : string) (side : EdgeSide) (es : list Edge) : list Edge :=
  match es with
  | [] => []
  | e :: es' =>
      if negb (String.eqb (ed_ID e) id) then e :: fill_side id side es'
      else if same_end e (es_PubKey side) then es
      else match side_B e with None => with_B e side :: es' | Some _ => es end
  end.

Definition fillEdgeSide (b : builder) (id : string) (p : WGPeerRow) (localKey : string) : builder :=
  set_edges b (fill_side id (side_of p localKey) (b_Edges b)).

Definition peer_less : WGPeerRow → WGPeerRow → bool :=
  less_then string_ltb pr_Host (less_then string_ltb pr_Iface (less_on string_ltb pr_Key)).

Definition tunnel_key (p : WGPeerRow) : TunnelKey := {| k_Host := pr_Host p; k_Iface := pr_Iface p; k_Peer := pr_Key p |}.

Definition tunnel_edge (lk : lookups) (id localKey : string) (p : WGPeerRow) (far : NodeRef) : Edge :=
  {| ed_ID := id; ed_Source := canonicalHost lk (pr_Host p); ed_Target := canonicalHost lk (n_Host far);
     ed_Iface := pr_Iface p; ed_Allowed := allowed_of p; side_A := Some (side_of p localKey); side_B := None;
     TargetSeenAs := several (ObservedThrough (endpoints lk) (pr_Key p));
     Conflict := conflicted lk (pr_Key p) || conflicted lk localKey |}.

Definition external_label (p : WGPeerRow) : string :=
  let e := w_Endpoint (row_peer p) in if String.eqb e "" then ShortKey (pr_Key p) else e.

Definition plain_node (id label kind observed : string) : Node :=
  {| nd_ID := id; nd_Label := label; nd_Kind := kind; nd_DC := ""; nd_IP := ""; nd_TunnelIP := ""; Observed := observed;
     Parent := ""; Warnings := []; Ifaces := []; Layer := ""; nd_Attrs := ∅; nd_PubKey := ""; SeenAs := [] |}.

Definition set_id (n : Node) (id : string) : Node :=
  {| nd_ID := id; nd_Label := nd_Label n; nd_Kind := nd_Kind n; nd_DC := nd_DC n; nd_IP := nd_IP n; nd_TunnelIP := nd_TunnelIP n;
     Observed := Observed n; Parent := Parent n; Warnings := Warnings n; Ifaces := Ifaces n; Layer := Layer n;
     nd_Attrs := nd_Attrs n; nd_PubKey := nd_PubKey n; SeenAs := SeenAs n |}.

(** What discovery alone says of an unresolved peer. *)
Definition guess_node (lk : lookups) (p : WGPeerRow) : Node :=
  let opaque := plain_node ("ext|" +:+ ShortKey (pr_Key p)) (external_label p) "external" "" in
  let ip := EndpointIP (w_Endpoint (row_peer p)) in
  if String.eqb ip "" then opaque
  else match byIP lk !! ip with
       | Some sv =>
           if default 0 (endpointIP lk !! ip) =? 1
           then plain_node ("inventory|" +:+ Hostname sv) (Hostname sv +:+ " ?") "inventory-candidate" (w_Endpoint (row_peer p))
           else opaque
       | None => opaque
       end.

Definition externalNode (lk : lookups) (b : builder) (p : WGPeerRow) : builder * Node :=
  let n := guess_node lk p in
  match annByKey lk !! pr_Key p with
  | Some a => enrichEndpoint lk b (set_id n ("endpoint|" +:+ pr_Key p)) a
  | None => (b, n)
  end.

Definition external_edge (p : WGPeerRow) (target : string) : Edge :=
  {| ed_ID := pr_Host p +:+ "|" +:+ pr_Iface p +:+ "|" +:+ ShortKey (pr_Key p); ed_Source := pr_Host p; ed_Target := target;
     ed_Iface := pr_Iface p; ed_Allowed := allowed_of p; side_A := None; side_B := None; TargetSeenAs := []; Conflict := false |}.

Definition peer_edge_id (lk : lookups) (p : WGPeerRow) : string :=
  TunnelEdgeID (localPubKey lk (pr_Host p) (pr_Iface p)) (pr_Key p).

(** One peer; the second component is [edgeSeen]. *)
Definition addPeerEdge (lk : lookups) (acc : builder * gset string) (p : WGPeerRow) : builder * gset string :=
  let '(b, edgeSeen) := acc in
  match Lookup (endpoints lk) (pr_Key p) with
  | Some far =>
      let localKey := localPubKey lk (pr_Host p) (pr_Iface p) in
      let id := TunnelEdgeID localKey (pr_Key p) in
      let b := set_edgeFor b (tunnel_key p) id in
      if bool_decide (id ∈ edgeSeen) then (fillEdgeSide b id p localKey, edgeSeen)
      else (set_edges b (b_Edges b ++ [tunnel_edge lk id localKey p far]), {[id]} ∪ edgeSeen)
  | None =>
      let '(b, n) := externalNode lk b p in
      let b := addNode b n in
      let e := external_edge p (nd_ID n) in
      let b := set_edgeFor b (tunnel_key p) (ed_ID e) in
      (set_edges b (b_Edges b ++ [e]), edgeSeen)
  end.

Definition addPeerEdges (lk : lookups) (b : builder) : builder :=
  (foldl (addPeerEdge lk) (b, ∅) (sort peer_less (lk_peers lk))).1.

(** ** Aggregates *)

(** The closure's maps [byKey] and [members]. *)
Record aggregation := { agg_of : gmap string Agg; members : gmap string (gset string) }.

Definition agg_id (dc cidr : string) : string := "agg|" +:+ dc +:+ "|" +:+ cidr.

Definition add_member (g : aggregation) (dc cidr member : string) : aggregation * string :=
  let id := agg_id dc cidr in
  let a := default {| ag_ID := id; ag_DC := dc; CIDR := cidr; Count := 0 |} (agg_of g !! id) in
  let ms := default ∅ (members g !! id) in
  if negb (String.eqb member "") && negb (bool_decide (member ∈ ms)) then
    ({| agg_of := <[id := {| ag_ID := ag_ID a; ag_DC := ag_DC a; CIDR := CIDR a; Count := Count a + 1 |}]> (agg_of g);
        members := <[id := {[member]} ∪ ms]> (members g) |}, id)
  else ({| agg_of := <[id := a]> (agg_of g); members := <[id := ms]> (members g) |}, id).

Definition dcWithGW (lk : lookups) : gset string := set_map (dcOf lk) (gwHosts lk).

Definition aggregate_server (lk : lookups) (acc : aggregation * gmap string string) (s : Server) : aggregation * gmap string string :=
  let '(g, m) := acc in
  if bool_decide (DC s ∈ dcWithGW lk) then
    match cidr24 (InvCache.IP s) with
    | Some cidr => let '(g, id) := add_member g (DC s) cidr (Hostname s) in (g, <[Hostname s := id]> m)
    | None => (g, m)
    end
  else (g, m).

Definition aggregate_node (g : aggregation) (n : Node) : aggregation :=
  if String.eqb (nd_Kind n) "external" || String.eqb (nd_DC n) "" then g
  else match cidr24 (nd_IP n) with
       | Some cidr => (add_member g (nd_DC n) cidr (TrimPrefix (nd_ID n) "inventory|")).1
       | None => g
       end.

Definition addAggregates (lk : lookups) (b : builder) : builder :=
  let '(g, m) := foldl (aggregate_server lk) ({| agg_of := ∅; members := ∅ |}, aggOfHost b) (lk_servers lk) in
  let g := foldl aggregate_node g (b_Nodes b) in
  set_aggs b (sort (less_on string_ltb ag_ID) (b_Aggs b ++ (map_to_list (agg_of g)).*2)) m.

(** ** Links *)

(** The closure [resolve]. *)
Definition resolve_end (lk : lookups) (b : builder) (host : string) : option string :=
  if bool_decide (host ∈ gwHosts lk) then Some host else aggOfHost b !! host.

Definition plain_link (src dst kind : string) : Link := {| ln_Source := src; ln_Target := dst; ln_Kind := kind; ln_Attrs := ∅ |}.

Definition nul : string := String (Ascii.ascii_of_nat 0) EmptyString.

Definition management_link (lk : lookups) (b : builder) (acc : list Link * gset string) (s : Server) : list Link * gset string :=
  let '(ls, seen) := acc in
  if String.eqb (JumpVia s) "" then acc
  else match resolve_end lk b (Hostname s), resolve_end lk b (JumpVia s) with
       | Some src, Some dst =>
           if String.eqb src dst then acc
           else
             let key := src +:+ nul +:+ dst in
             if bool_decide (key ∈ seen) then acc
             else (ls ++ [plain_link src dst "management"], {[key]} ∪ seen)
       | _, _ => acc
       end.

Definition node_links (n : Node) : list Link :=
  if String.eqb (nd_Kind n) "external" then []
  else
    (if String.eqb (Parent n) "" then [] else [plain_link (nd_ID n) (Parent n) "placement"]) ++
    match cidr24 (nd_IP n) with Some cidr => [plain_link (nd_ID n) (agg_id (nd_DC n) cidr) "network"] | None => [] end.

Definition link_less : Link → Link → bool := less_then string_ltb ln_Source (less_on string_ltb ln_Target).

Definition addLinks (lk : lookups) (b : builder) : builder :=
  let ls := (foldl (management_link lk b) (b_Links b, ∅) (lk_servers lk)).1 in
  set_links b (sort link_less (ls ++ (b_Nodes b ≫= node_links))).

(** ** The declared underlay *)

Definition set_layer (n : Node) (layer : string) : Node :=
  {| nd_ID := nd_ID n; nd_Label := nd_Label n; nd_Kind := nd_Kind n; nd_DC := nd_DC n; nd_IP := nd_IP n; nd_TunnelIP := nd_TunnelIP n;
     Observed := Observed n; Parent := Parent n; Warnings := Warnings n; Ifaces := Ifaces n; Layer := layer;
     nd_Attrs := nd_Attrs n; nd_PubKey := nd_PubKey n; SeenAs := SeenAs n |}.

Definition layer_node (n : Node) : Node :=
  set_layer n (if String.eqb (nd_Kind n) "physical-host" then "underlay" else "overlay").

(** Positions by some key, a later node's over an earlier one's. *)
Definition positions (key : Node → option string) (ns : list Node) : gmap string nat :=
  foldl (λ m e, match key e.2 with Some k => <[k := e.1]> m | None => m end) ∅ (imap pair ns).

Definition layerCollectedNodes (b : builder) : builder * gmap string nat :=
  let ns := layer_node <$> b_Nodes b in (set_nodes b ns, positions (λ n, Some (nd_ID n)) ns).

Definition annotated_host (lk : lookups) (n : Node) : option string :=
  if negb (String.eqb (nd_Kind n) "physical-host") || negb (HasPrefix (nd_ID n) "endpoint|") then None
  else match annByKey lk !! TrimPrefix (nd_ID n) "endpoint|" with
       | Some a => if String.eqb (InventoryHost a) "" then None else Some (InventoryHost a)
       | None => None
       end.

Definition annotatedHostNodes (lk : lookups) (b : builder) : gmap string nat := positions (annotated_host lk) (b_Nodes b).

(** What a declaration adds to a node the graph has. *)
Definition declare_on (e : NetEntity) (n : Node) : Node :=
  {| nd_ID := nd_ID n; nd_Label := nd_Label n; nd_Kind := nd_Kind n; nd_DC := FirstNonEmpty [nd_DC n; en_Site e]; nd_IP := nd_IP n;
     nd_TunnelIP := nd_TunnelIP n; Observed := Observed n; Parent := Parent n; Warnings := Warnings n; Ifaces := Ifaces n;
     Layer := Layer n; nd_Attrs := if bool_decide (en_Attrs e = ∅) then nd_Attrs n else en_Attrs e; nd_PubKey := nd_PubKey n; SeenAs := SeenAs n |}.

Definition edit_node (b : builder) (i : nat) (f : Node → Node) : builder := set_nodes b (alter f i (b_Nodes b)).

Definition reconcileDeclaredHost (lk : lookups) (b : builder) (e : NetEntity) (byID endpointHost : gmap string nat) : builder * option string :=
  let name := TrimPrefix (en_ID e) "host/" in
  let gw := canonicalHost lk name in
  let idx := match byID !! PhysicalHostNodeID name with
             | Some i => Some i
             | None => match endpointHost !! name with
                       | Some i => Some i
                       | None => if bool_decide (gw ∈ nodeSeen b) then byID !! gw else None
                       end
             end in
  match idx with
  | None => (b, None)
  | Some i => (edit_node b i (λ n, declare_on e (set_layer n "underlay")), nd_ID <$> b_Nodes b !! i)
  end.

Definition reconcileDeclaredVM (lk : lookups) (b : builder) (e : NetEntity) (byID : gmap string nat) : builder * option string :=
  let inv := as_string (en_Attrs e) "inventory" in
  if String.eqb inv "" then (b, None)
  else
    let gw := canonicalHost lk inv in
    if bool_decide (gw ∈ nodeSeen b) then (edit_node b (default O (byID !! gw)) (declare_on e), Some gw) else (b, None).

Definition reconcileDeclared (lk : lookups) (b : builder) (e : NetEntity) (byID endpointHost : gmap string nat) : builder * option string :=
  if String.eqb (en_Kind e) "physical-host" then reconcileDeclaredHost lk b e byID endpointHost
  else if String.eqb (en_Kind e) "tunnel" then
    let host := as_string (en_Attrs e) "host" in
    if String.eqb host "" then (b, None)
    else let gw := canonicalHost lk host in (b, if bool_decide (gw ∈ nodeSeen b) then Some gw else None)
  else if String.eqb (en_Kind e) "vm" then reconcileDeclaredVM lk b e byID
  else (b, None).

Definition declaredNode (e : NetEntity) : Node :=
  let host := TrimPrefix (en_ID e) "host/" in
  let physical := String.eqb (en_Kind e) "physical-host" in
  {| nd_ID := if physical then PhysicalHostNodeID host else en_ID e;
     nd_Label := FirstNonEmpty [en_Label e; if physical then host else en_ID e]; nd_Kind := en_Kind e; nd_DC := en_Site e;
     nd_IP := ""; nd_TunnelIP := ""; Observed := ""; Parent := ""; Warnings := []; Ifaces := [];
     Layer := if String.eqb (en_Kind e) "tunnel" then "overlay" else "underlay"; nd_Attrs := en_Attrs e; nd_PubKey := ""; SeenAs := [] |}.

(** The loop's variables: the graph, the positions by id, the alias of each entity. *)
Record aliasing := { al_b : builder; al_byID : gmap string nat; alias_of : gmap string string }.

Definition aliasDeclared (lk : lookups) (endpointHost : gmap string nat) (al : aliasing) (e : NetEntity) : aliasing :=
  match reconcileDeclared lk (al_b al) e (al_byID al) endpointHost with
  | (b, Some id) => {| al_b := b; al_byID := al_byID al; alias_of := <[en_ID e := id]> (alias_of al) |}
  | (b, None) =>
      let n := declaredNode e in
      let b := addNode b n in
      {| al_b := b; al_byID := <[nd_ID n := (length (b_Nodes b) - 1)%nat]> (al_byID al);
         alias_of := <[en_ID e := nd_ID n]> (alias_of al) |}
  end.

Definition aliasDeclaredEntities (lk : lookups) (b : builder) (entities : list NetEntity) (byID endpointHost : gmap string nat) : aliasing :=
  foldl (aliasDeclared lk endpointHost) {| al_b := b; al_byID := byID; alias_of := ∅ |} entities.

Definition withTunnelIface (attrs : attrs_t) (e : NetEntity) : attrs_t :=
  let iface := as_string (en_Attrs e) "iface" in
  if negb (String.eqb (en_Kind e) "tunnel") || String.eqb iface "" || bool_decide (is_Some (attrs !! "iface")) then attrs
  else <["iface" := AnyString iface]> attrs.

Definition declared_link (alias : gmap string string) (entityByID : gmap string NetEntity) (r : NetRelation) : option Link :=
  match alias !! SrcID r, alias !! DstID r with
  | Some src, Some dst =>
      Some {| ln_Source := src; ln_Target := dst; ln_Kind := re_Kind r;
              ln_Attrs := match entityByID !! SrcID r with Some e => withTunnelIface (re_Attrs r) e | None => re_Attrs r end |}
  | _, _ => None
  end.

Definition declared_less : Link → Link → bool :=
  less_then string_ltb ln_Source (less_then string_ltb ln_Target (less_on string_ltb ln_Kind)).

Definition sortDeclaredLinks : list Link → list Link := sort declared_less.

Definition addDeclaredRelations (b : builder) (entities : list NetEntity) (relations : list NetRelation) (alias : gmap string string) : builder :=
  set_links b (sortDeclaredLinks (b_Links b ++ omap (declared_link alias (map_by en_ID (λ e, e) entities)) relations)).

Definition declares (entities : list NetEntity) (relations : list NetRelation) : bool :=
  (0 <? length entities)%nat || (0 <? length relations)%nat.

Definition addDeclared (lk : lookups) (b : builder) (entities : list NetEntity) (relations : list NetRelation) : builder :=
  if negb (declares entities relations) then b
  else
    let '(b, byID) := layerCollectedNodes b in
    let al := aliasDeclaredEntities lk b entities byID (annotatedHostNodes lk b) in
    addDeclaredRelations (al_b al) entities relations (alias_of al).

(** ** The build *)

Definition topology_of (b : builder) (d : option Derived) (at_ : time_t) : Topology :=
  {| Nodes := b_Nodes b; Edges := b_Edges b; Aggs := b_Aggs b; Links := b_Links b; Vips := []; derived := d; tp_CollectedAt := at_ |}.

(** The collected graph: the phases before the declared one. *)
Definition collected (lk : lookups) : builder := addLinks lk (addAggregates lk (addPeerEdges lk (addGateways lk start))).

Section build.
Context (visit : nat → gmap string Node → list (string * Node)).

Definition BuildWithDeclared (ifaces : list WGInterfaceRow) (peers : list WGPeerRow) (servers : list Server)
    (annotations : list WGEndpointAnnotation) (entities : list NetEntity) (relations : list NetRelation) : Topology * gmap TunnelKey string :=
  let lk := newBuilder ifaces peers servers annotations in
  let b := addDeclared lk (collected lk) entities relations in
  let d := if declares entities relations then Some (Derive visit (topology_of b None 0)) else None in
  (topology_of b d (NewestCollection ifaces), edgeFor b).

Definition Build (ifaces : list WGInterfaceRow) (peers : list WGPeerRow) (servers : list Server)
    (annotations : list WGEndpointAnnotation) : Topology * gmap TunnelKey string :=
  BuildWithDeclared ifaces peers servers annotations [] [].
End build.

(** ** A small fleet: one machine under two names, a far gateway, an external
    peer, and a declaration *)

Definition demo_iface (host iface key : string) (addr : string) : WGInterfaceRow :=
  {| Host := host; Iface := iface; WgIdentity.ListenPort := 51820; WgIdentity.PublicKey := key; WgIdentity.Fwmark := 0;
     Address := [addr]; CollectedAt := 7 |}.
Definition demo_peer (host iface key endpoint : string) (allowed : list string) : WGPeerRow :=
  {| row_peer := {| w_Host := host; w_Iface := iface; PeerPubKey := key; w_Endpoint := endpoint; w_AllowedIPs := allowed; w_Keepalive := 0 |};
     pr_Label := ""; pr_LatestHandshake := None; pr_RxBytes := 0; pr_TxBytes := 0 |}.
Definition demo_server (host ip jump dc : string) : Server :=
  {| Hostname := host; InvCache.IP := ip; Port := 22; User := ""; JumpVia := jump; DC := dc; CARole := ""; CAKeyVersion := 0;
     LastSeenUp := None; ExtraIPs := []; ServerState := "" |}.

Definition fleet_ifaces : list WGInterfaceRow :=
  [demo_iface "lb-vip" "wg1" "KWG1" "10.0.91.1"; demo_iface "lb-host" "wg1" "KWG1" "10.0.91.1"; demo_iface "far-gw" "wg-remote" "KFAR" "10.0.94.2"].
Definition fleet_peers : list WGPeerRow :=
  [demo_peer "lb-vip" "wg1" "KFAR" "" ["10.0.94.2/32"]; demo_peer "lb-host" "wg1" "KFAR" "" ["10.0.94.2/32"];
   demo_peer "lb-vip" "wg1" "KEXT" "203.0.113.9:4000" ["10.0.99.0/24"]; demo_peer "far-gw" "wg-remote" "KWG1" "" ["10.0.91.0/24"]].
Definition fleet_servers : list Server :=
  [demo_server "lb-host" "10.20.0.2" "" "a"; demo_server "lb-vip" "10.20.0.3" "" "a"; demo_server "web" "10.20.1.9" "lb-vip" "a";
   demo_server "far-gw" "10.30.0.1" "" ""].
Definition fleet_entities : list NetEntity :=
  [{| en_ID := "host/h1"; en_Kind := "physical-host"; en_Label := ""; en_Site := "a"; en_Attrs := ∅; en_Note := "" |};
   {| en_ID := "vm/far"; en_Kind := "vm"; en_Label := ""; en_Site := "b"; en_Attrs := {["inventory" := AnyString "far-gw"]}; en_Note := "" |}].
Definition fleet_relations : list NetRelation :=
  [{| SrcID := "vm/far"; DstID := "host/h1"; re_Kind := "placed-on"; re_Attrs := ∅; re_Note := "" |}].
Definition fleet : Topology * gmap TunnelKey string :=
  BuildWithDeclared in_map_order fleet_ifaces fleet_peers fleet_servers [] fleet_entities fleet_relations.

Example fleet_nodes : (λ n, (nd_ID n, nd_Kind n, nd_DC n)) <$> Nodes fleet.1 =
  [("far-gw", "gateway", "b"); ("lb-host", "gateway", "a"); ("ext|KEXT", "external", ""); ("host|h1", "physical-host", "a")].
Proof. vm_compute. reflexivity. Qed.

(** The external peer of the alias hangs off a name that has no node, and the
    management path ends at it. *)
Example fleet_ends :
  (λ e, (ed_Source e, ed_Target e)) <$> Edges fleet.1 = [("far-gw", "lb-host"); ("lb-vip", "ext|KEXT")] ∧
  (λ l, (ln_Source l, ln_Target l, ln_Kind l)) <$> Links fleet.1 =
    [("agg|a|10.20.1.0/24", "lb-vip", "management"); ("far-gw", "agg||10.30.0.0/24", "network"); ("far-gw", "host|h1", "placed-on");
     ("lb-host", "agg|a|10.20.0.0/24", "network")] ∧
  (λ a, (ag_ID a, Count a)) <$> Aggs fleet.1 = [("agg|a|10.20.0.0/24", 2); ("agg|a|10.20.1.0/24", 1); ("agg||10.30.0.0/24", 1)].
Proof. vm_compute. done. Qed.
