(* ===== verification/WgGraphLaws.v ===== *)
(** What the topology graph promises, whatever was collected and declared: its
    ends name things that are drawn, a tunnel is one edge with its two ends, the
    aggregates count each host once, and a declaration leaves the collected
    graph as it was. *)

From Stdlib Require Import Ascii String.
From stdpp Require Import fin_sets fin_maps gmap.
From S2P Require Import Prelude GoStrings NetIP InvCache WgParse WgState WgIdentity WgGraph WgDerive WgTopology.

#[local] Arguments sort : simpl never.

(** ** The lookups *)

Lemma group_by_spec {X V} (key : X → string) (val : X → V) l k : default [] (group_by key val l !! k) = val <$> filter (λ x, key x = k) l.
Proof.
  unfold group_by. apply (foldl_invariant (λ seen m, default [] (m !! k) = val <$> filter (λ x, key x = k) seen)); [done|].
  intros seen m x IH. rewrite list.filter_app, list.filter_cons, list.filter_nil, fmap_app, <-IH.
  destruct (decide (key x = k)) as [<-|Hk]; [by rewrite lookup_insert_eq|rewrite lookup_insert_ne by done; by rewrite app_nil_r].
Qed.

Section lookups.
Context (ifaces : list WGInterfaceRow) (peers : list WGPeerRow) (servers : list Server) (annotations : list WGEndpointAnnotation).
Notation lk := (newBuilder ifaces peers servers annotations).

Lemma lk_fields : lk_ifaces lk = ifaces ∧ lk_peers lk = peers ∧ lk_servers lk = servers ∧
  endpoints lk = BuildEndpointIndex ifaces ∧ byHost lk = map_by Hostname (λ s, s) servers ∧
  ifByHost lk = interfaces_by_host ifaces ∧ gwHosts lk = list_to_set (Host <$> ifaces) ∧ annByKey lk = map_by an_PublicKey (λ a, a) annotations.
Proof. unfold newBuilder. by destruct (resolveAnnotations _ _). Qed.

Lemma gwHosts_spec h : h ∈ gwHosts lk ↔ ∃ r, r ∈ ifaces ∧ Host r = h.
Proof. destruct lk_fields as (_ & _ & _ & _ & _ & _ & -> & _). rewrite elem_of_list_to_set, list_elem_of_fmap. naive_solver. Qed.

Lemma ifByHost_spec h i : i ∈ default [] (ifByHost lk !! h) ↔ ∃ r, r ∈ ifaces ∧ Host r = h ∧ i = iface_of r.
Proof.
  destruct lk_fields as (_ & _ & _ & _ & _ & -> & _ & _). unfold interfaces_by_host. rewrite lookup_fmap.
  pose proof (group_by_spec Host iface_of ifaces h) as Hg.
  assert (i ∈ default [] (sort (less_on string_ltb if_Name) <$> group_by Host iface_of ifaces !! h) ↔
          i ∈ default [] (group_by Host iface_of ifaces !! h)) as ->.
  { destruct (group_by _ _ _ !! h); cbn; [by rewrite sort_elem_of|done]. }
  rewrite Hg, list_elem_of_fmap. setoid_rewrite list_elem_of_filter. naive_solver.
Qed.

Lemma Lookup_row key ref : Lookup (endpoints lk) key = Some ref → ∃ r, r ∈ ifaces ∧ WgIdentity.PublicKey r = key ∧ n_Host ref = Host r.
Proof.
  destruct lk_fields as (_ & _ & _ & -> & _). intros H. apply Lookup_spec in H as (r & ? & ? & -> & _). by exists r.
Qed.

(** ** Canonical hosts *)

Lemma canonical_walk_spec ifs : ∀ canon c, canonical_walk lk canon ifs = Some c →
  (canon ≠ "" → c = canon) ∧
  (c = canon ∨ ∃ i ref, i ∈ ifs ∧ Lookup (endpoints lk) (if_PubKey i) = Some ref ∧ n_Host ref = c) ∧
  ∀ i, i ∈ ifs → ∃ ref, Lookup (endpoints lk) (if_PubKey i) = Some ref ∧ (n_Host ref = c ∨ n_Host ref = "").
Proof.
  induction ifs as [|i ifs IH]; intros canon c; cbn [canonical_walk]; [intros [= ->]; split_and!; [done|by left|set_solver]|].
  destruct (Lookup (endpoints lk) (if_PubKey i)) as [ref|] eqn:El; [|done]. destruct (conflicted lk (if_PubKey i)); [done|].
  destruct (String.eqb_spec canon "") as [->|Hc].
  - intros H. apply IH in H as (Hkeep & Hfrom & Hall). split; [done|]. split.
    + destruct Hfrom as [->|(j & ref' & ? & ? & ?)]; right; [exists i, ref; split_and!; [by left|done..]|exists j, ref'; split_and!; [by right|done..]].
    + intros j [->|Hj]%elem_of_cons; [|by apply Hall]. exists ref. split; [done|]. destruct (decide (n_Host ref = "")); [by right|left; symmetry; by apply Hkeep].
  - destruct (String.eqb_spec canon (n_Host ref)) as [E|]; [|done]. intros H. apply IH in H as (Hkeep & Hfrom & Hall). split; [done|]. split.
    + destruct Hfrom as [->|(j & ref' & ? & ? & ?)]; [by left|right; exists j, ref'; split_and!; [by right|done..]].
    + intros j [->|Hj]%elem_of_cons; [|by apply Hall]. exists ref. split; [done|]. left. rewrite <-E. symmetry. by apply Hkeep.
Qed.

(** An alias is drawn under another gateway, whose row carries one of its keys. *)
Lemma canonicalHost_alias h : canonicalHost lk h ≠ h → canonicalHost lk h ≠ "" ∧ ∃ i ref, i ∈ default [] (ifByHost lk !! h) ∧
  Lookup (endpoints lk) (if_PubKey i) = Some ref ∧ n_Host ref = canonicalHost lk h.
Proof.
  unfold canonicalHost. destruct (default [] (ifByHost lk !! h)) as [|i ifs]; [done|].
  destruct (canonical_walk lk "" (i :: ifs)) as [c|] eqn:E; [|done]. destruct (String.eqb_spec c ""); [done|]. intros _.
  apply canonical_walk_spec in E as (_ & [->|(j & ref & ? & ? & ?)] & _); [done|]. eauto 6.
Qed.

Lemma canonicalHost_gateway h : h ∈ gwHosts lk → canonicalHost lk h ∈ gwHosts lk.
Proof.
  intros Hh. destruct (decide (canonicalHost lk h = h)) as [->|Hne]; [done|].
  apply canonicalHost_alias in Hne as (_ & i & ref & _ & Hl & <-). apply Lookup_row in Hl as (r & ? & _ & ->). apply gwHosts_spec. by exists r.
Qed.

Lemma canonicalHost_idempotent h : canonicalHost lk (canonicalHost lk h) = canonicalHost lk h.
Proof.
  destruct (decide (canonicalHost lk h = h)) as [E|Hne]; [by rewrite E|].
  apply canonicalHost_alias in Hne as (Hc & i & ref & _ & Hl & Ec). set (c := canonicalHost lk h) in *.
  destruct (decide (canonicalHost lk c = c)) as [E|Hne]; [done|]. exfalso. apply Hne. revert Hne.
  pose proof (Lookup_row _ _ Hl) as (r & Hr & Hk & Hhost).
  assert (iface_of r ∈ default [] (ifByHost lk !! c)) as Hin by (apply ifByHost_spec; exists r; split_and!; congruence).
  unfold canonicalHost. destruct (default [] (ifByHost lk !! c)) as [|j ifs]; [done|].
  destruct (canonical_walk lk "" (j :: ifs)) as [c'|] eqn:E; [|done]. destruct (String.eqb_spec c' ""); [done|]. intros _.
  apply canonical_walk_spec in E as (_ & _ & Hall). destruct (Hall _ Hin) as (ref' & Hl' & Hor). change (if_PubKey (iface_of r)) with (WgIdentity.PublicKey r) in Hl'.
  rewrite Hk in Hl'. assert (ref' = ref) as -> by congruence. destruct Hor; congruence.
Qed.

Lemma gateway_hosts_spec h : h ∈ gateway_hosts lk ↔ h ∈ gwHosts lk ∧ canonicalHost lk h = h.
Proof. unfold gateway_hosts, sort_strings. rewrite sort_elem_of, list_elem_of_filter, elem_of_elements. tauto. Qed.
End lookups.

(** ** The graph under construction *)

Record sound (b : builder) : Prop := {
  ids_unique : NoDup (nd_ID <$> b_Nodes b);
  ids_seen : ∀ x, x ∈ nodeSeen b ↔ ∃ n, n ∈ b_Nodes b ∧ nd_ID n = x;
  parents_drawn : ∀ n, n ∈ b_Nodes b → Parent n ≠ "" → Parent n ∈ nodeSeen b;
}.

(** What a phase that only places nodes does. *)
Record extends (b b' : builder) : Prop := {
  ext_nodes : b_Nodes b `prefix_of` b_Nodes b';
  ext_seen : nodeSeen b ⊆ nodeSeen b';
  ext_rest : b_Edges b' = b_Edges b ∧ b_Aggs b' = b_Aggs b ∧ b_Links b' = b_Links b ∧ edgeFor b' = edgeFor b ∧ aggOfHost b' = aggOfHost b;
}.

#[export] Instance extends_preorder : PreOrder extends.
Proof.
  split; [by split|]. intros b1 b2 b3 [N1 S1 (? & ? & ? & ? & ?)] [N2 S2 (? & ? & ? & ? & ?)].
  split; [by etrans|set_solver|split_and!; congruence].
Qed.

Lemma start_sound : sound start.
Proof. split; cbn; [constructor|set_solver|set_solver]. Qed.

Lemma addNode_sound b n : sound b → Parent n = "" ∨ Parent n ∈ nodeSeen b →
  sound (addNode b n) ∧ extends b (addNode b n) ∧ nd_ID n ∈ nodeSeen (addNode b n).
Proof.
  intros [Hu Hs Hp] Hpar. unfold addNode. case_bool_decide as Hin; [by split_and!|]. split_and!; [split; cbn| |set_solver].
  - rewrite fmap_app. apply NoDup_app. split_and!; [done| |apply NoDup_singleton].
    intros x Hx%list_elem_of_fmap Hx'. apply list_elem_of_singleton in Hx' as ->. destruct Hx as (m & Em & Hm). apply Hin, Hs. eauto.
  - intros x. rewrite elem_of_union, elem_of_singleton, Hs. setoid_rewrite elem_of_app. setoid_rewrite list_elem_of_singleton. naive_solver.
  - intros m [Hm| ->%list_elem_of_singleton]%elem_of_app Hne; [set_solver|]. destruct Hpar; [done|set_solver].
  - split; cbn; [by eexists|set_solver|done].
Qed.

Lemma enrichEndpoint_sound lk b n a b' n' : enrichEndpoint lk b n a = (b', n') → sound b → Parent n = "" ∨ Parent n ∈ nodeSeen b →
  sound b' ∧ extends b b' ∧ (Parent n' = "" ∨ Parent n' ∈ nodeSeen b') ∧ nd_ID n' = nd_ID n.
Proof.
  unfold enrichEndpoint. destruct (byHost lk !! ParentHostname a) as [s|].
  - cbn [addPhysicalHost]. intros [= <- <-] Hb _. destruct (addNode_sound b (physical_node s) Hb) as (? & ? & ?); [by left|].
    split_and!; [done..|by right|done].
  - by intros [= <- <-] Hb Hp.
Qed.

Lemma addGateway_sound lk b h : sound b → sound (addGateway lk b h) ∧ extends b (addGateway lk b h) ∧ h ∈ nodeSeen (addGateway lk b h).
Proof.
  intros Hb. unfold addGateway. destruct (annByHost lk !! h) as [a|].
  - destruct (enrichEndpoint lk b (gateway_node lk h) a) as [b1 n1] eqn:E. apply enrichEndpoint_sound in E as (Hb1 & He1 & Hp & Hid); [|done|by left].
    destruct (addNode_sound b1 n1 Hb1 Hp) as (? & ? & Hin). rewrite Hid in Hin. split_and!; [done|by etrans|done].
  - apply (addNode_sound b (gateway_node lk h) Hb). by left.
Qed.

Lemma addGateways_sound lk b : sound b →
  sound (addGateways lk b) ∧ extends b (addGateways lk b) ∧ ∀ h, h ∈ gateway_hosts lk → h ∈ nodeSeen (addGateways lk b).
Proof.
  intros Hb. unfold addGateways.
  apply (foldl_invariant (λ seen b', sound b' ∧ extends b b' ∧ ∀ h, h ∈ seen → h ∈ nodeSeen b')); [split_and!; [done..|set_solver]|].
  intros seen b' h (Hb' & He & Hin). destruct (addGateway_sound lk b' h Hb') as (Hb2 & He2 & Hh). split_and!; [done|by etrans|].
  intros h' [Hh'| ->%list_elem_of_singleton]%elem_of_app; [|done]. by apply (ext_seen _ _ He2), Hin.
Qed.

Lemma externalNode_sound lk b p b' n : externalNode lk b p = (b', n) → sound b →
  sound b' ∧ extends b b' ∧ (Parent n = "" ∨ Parent n ∈ nodeSeen b').
Proof.
  unfold externalNode. assert (Parent (guess_node lk p) = "") as Hg.
  { unfold guess_node. cbv zeta. repeat case_match; done. }
  destruct (annByKey lk !! pr_Key p) as [a|]; [|intros [= <- <-] Hb; split_and!; [done..|by left]].
  intros H Hb. apply enrichEndpoint_sound in H as (? & ? & ? & _); [by split_and!|done|by left].
Qed.

(** ** Edges *)

(** A host whose machine is drawn under another of its names. *)
Definition alias_host (lk : lookups) (h : string) : Prop := h ∈ gwHosts lk ∧ canonicalHost lk h ≠ h.

(** Everything of an edge the far end does not fill in. *)
Definition edge_face (e : Edge) : string * string * string * option EdgeSide := (ed_ID e, ed_Source e, ed_Target e, side_A e).

Lemma fill_side_face id side es : edge_face <$> fill_side id side es = edge_face <$> es.
Proof.
  induction es as [|e es IH]; [done|]. cbn [fill_side]. destruct (negb _); [cbn; by rewrite IH|]. destruct (same_end _ _); [done|].
  by destruct (side_B e).
Qed.

Lemma faced (es es' : list Edge) e : edge_face <$> es' = edge_face <$> es → e ∈ es' → ∃ e0, e0 ∈ es ∧ edge_face e0 = edge_face e.
Proof.
  intros E He. assert (edge_face e ∈ edge_face <$> es) as Hin by (rewrite <-E; by apply list_elem_of_fmap_2).
  apply list_elem_of_fmap in Hin as (e0 & ? & ?). by exists e0.
Qed.

(** Both ends name something drawn; only an external edge may start at an alias. *)
Definition edge_ends (lk : lookups) (b : builder) (e : Edge) : Prop :=
  ed_Target e ∈ nodeSeen b ∧ (ed_Source e ∈ nodeSeen b ∨ side_A e = None ∧ alias_host lk (ed_Source e)).

Lemma edge_ends_face lk b e e' : edge_face e = edge_face e' → edge_ends lk b e → edge_ends lk b e'.
Proof. destruct e, e'; unfold edge_face, edge_ends; cbn. by intros [= -> -> -> ->]. Qed.

Record edges_ok (lk : lookups) (b : builder) (edgeSeen : gset string) : Prop := {
  ends_drawn : ∀ e, e ∈ b_Edges b → edge_ends lk b e;
  seen_edges : ∀ id, id ∈ edgeSeen → ∃ e, e ∈ b_Edges b ∧ ed_ID e = id;
  mapped_edges : ∀ k id, edgeFor b !! k = Some id → ∃ e, e ∈ b_Edges b ∧ ed_ID e = id;
}.

Lemma edges_ok_extends lk b b' es : extends b b' → edges_ok lk b es → edges_ok lk b' es.
Proof.
  intros [_ Hs (Ee & _ & _ & Ef & _)] [He Hse Hm]. split; rewrite Ee; [|done|by rewrite Ef].
  intros e Hin. destruct (He e Hin) as [? Hsrc]. split; [set_solver|]. destruct Hsrc; [left; set_solver|by right].
Qed.

Lemma edges_ok_add lk b es k e es' : edges_ok lk b es → edge_ends lk b e → (∀ id, id ∈ es' → id = ed_ID e ∨ id ∈ es) →
  edges_ok lk (set_edges (set_edgeFor b k (ed_ID e)) (b_Edges b ++ [e])) es'.
Proof.
  intros [He Hse Hm] Hends Hes. split; cbn.
  - intros e' [Hin| ->%list_elem_of_singleton]%elem_of_app; [by apply He|done].
  - intros id [->|Hid]%Hes; [exists e; set_solver|]. destruct (Hse id Hid) as (e' & ? & ?). exists e'. set_solver.
  - intros k' id [[_ <-]|[_ H]]%lookup_insert_Some; [exists e; set_solver|]. destruct (Hm _ _ H) as (e' & ? & ?). exists e'. set_solver.
Qed.

Lemma edges_ok_fill lk b es k id p key : edges_ok lk b es → id ∈ es → edges_ok lk (fillEdgeSide (set_edgeFor b k id) id p key) es.
Proof.
  intros [He Hse Hm] Hid. assert (∀ i, (∃ e, e ∈ b_Edges b ∧ ed_ID e = i) →
    ∃ e, e ∈ b_Edges (fillEdgeSide (set_edgeFor b k id) id p key) ∧ ed_ID e = i) as Hkeep.
  { intros i (e & Hin & <-). destruct (faced (b_Edges (fillEdgeSide (set_edgeFor b k id) id p key)) (b_Edges b) e) as (e0 & ? & E); [|done|].
    - symmetry. apply fill_side_face.
    - exists e0. split; [done|]. unfold edge_face in E. congruence. }
  split.
  - intros e Hin. destruct (faced (b_Edges b) _ e (fill_side_face _ _ _) Hin) as (e0 & Hin0 & E). eapply edge_ends_face; [exact E|by apply He].
  - intros i Hi. by apply Hkeep, Hse.
  - cbn. intros k' i [[_ <-]|[_ H]]%lookup_insert_Some; apply Hkeep; [by apply Hse|by eapply Hm].
Qed.

Section peers.
Context (ifaces : list WGInterfaceRow) (peers : list WGPeerRow) (servers : list Server) (annotations : list WGEndpointAnnotation).
Notation lk := (newBuilder ifaces peers servers annotations).

(** The gateways that are drawn under their own name are there. *)
Definition gateways_drawn (b : builder) : Prop := ∀ h, h ∈ gateway_hosts lk → h ∈ nodeSeen b.

Lemma canonical_drawn b h : gateways_drawn b → h ∈ gwHosts lk → canonicalHost lk h ∈ nodeSeen b.
Proof.
  intros Hg Hh. apply Hg, gateway_hosts_spec. split; [by apply canonicalHost_gateway|apply canonicalHost_idempotent].
Qed.

Record peers_placed (b : builder) (edgeSeen : gset string) (seen : list WGPeerRow) : Prop := {
  pp_sound : sound b; pp_gateways : gateways_drawn b; pp_edges : edges_ok lk b edgeSeen;
  pp_mapped : ∀ p, p ∈ seen → is_Some (edgeFor b !! tunnel_key p);
  pp_rest : b_Links b = [] ∧ b_Aggs b = [] ∧ aggOfHost b = ∅;
}.

Lemma mapped_insert b k id (seen : list WGPeerRow) p : (∀ q, q ∈ seen → is_Some (edgeFor b !! tunnel_key q)) → k = tunnel_key p →
  ∀ q, q ∈ seen ++ [p] → is_Some (<[k := id]> (edgeFor b) !! tunnel_key q).
Proof.
  intros Hm -> q [Hq| ->%list_elem_of_singleton]%elem_of_app; [|by rewrite lookup_insert_eq].
  destruct (decide (tunnel_key p = tunnel_key q)) as [->|]; [by rewrite lookup_insert_eq|rewrite lookup_insert_ne by done; by apply Hm].
Qed.

Lemma addPeerEdge_placed b es seen p : peers_placed b es seen → pr_Host p ∈ gwHosts lk →
  peers_placed (addPeerEdge lk (b, es) p).1 (addPeerEdge lk (b, es) p).2 (seen ++ [p]).
Proof.
  intros [Hb Hg He Hm Hrest] Hp. unfold addPeerEdge. destruct (Lookup (endpoints lk) (pr_Key p)) as [far|] eqn:El.
  - assert (n_Host far ∈ gwHosts lk) as Hfar.
    { apply Lookup_row in El as (r & ? & _ & ->). apply gwHosts_spec. by exists r. }
    case_bool_decide as Hes; cbn [fst snd].
    + split; [by destruct Hb|done|by apply edges_ok_fill|by apply mapped_insert|done].
    + split; [by destruct Hb|done| |by apply mapped_insert|done]. apply (edges_ok_add lk b es); [done| |set_solver].
      split; [|left]; by apply canonical_drawn.
  - destruct (externalNode lk b p) as [b1 n] eqn:Ex. apply externalNode_sound in Ex as (Hb1 & E1 & Hpar); [|done].
    destruct (addNode_sound b1 n Hb1 Hpar) as (Hb2 & E2 & Hin). cbn [fst snd]. set (b2 := addNode b1 n) in *.
    assert (extends b b2) as E by by etrans. split; [by destruct Hb2| | | |destruct (ext_rest _ _ E) as (_ & Ea & El' & _ & Eo); cbn; by rewrite Ea, El', Eo].
    + intros h Hh. apply (ext_seen _ _ E). by apply Hg.
    + apply (edges_ok_add lk b2 es); [by eapply edges_ok_extends| |set_solver]. split; [done|]. cbn [external_edge ed_Source].
      destruct (decide (canonicalHost lk (pr_Host p) = pr_Host p)) as [Ec|Ec]; [|by right].
      left. apply (ext_seen _ _ E), Hg, gateway_hosts_spec. done.
    + apply mapped_insert; [|done]. destruct (ext_rest _ _ E) as (_ & _ & _ & -> & _). done.
Qed.

(** The interface rows hold every host a peer was collected on. *)
Context (Hfk : ∀ p, p ∈ peers → ∃ r, r ∈ ifaces ∧ Host r = pr_Host p).

Lemma addPeerEdges_placed b : sound b → gateways_drawn b → b_Edges b = [] → edgeFor b = ∅ → b_Links b = [] ∧ b_Aggs b = [] ∧ aggOfHost b = ∅ →
  ∃ es, peers_placed (addPeerEdges lk b) es peers.
Proof.
  intros Hb Hg He Hef Hrest. unfold addPeerEdges. destruct (lk_fields ifaces peers servers annotations) as (_ & -> & _).
  assert (∀ p, p ∈ sort peer_less peers → pr_Host p ∈ gwHosts lk) as Hhosts.
  { intros p Hp. rewrite sort_elem_of in Hp. by apply gwHosts_spec, Hfk. }
  assert (let acc := foldl (addPeerEdge lk) (b, ∅) (sort peer_less peers) in peers_placed acc.1 acc.2 (sort peer_less peers)) as H.
  { revert Hhosts. cbv zeta.
    apply (foldl_invariant (λ seen acc, (∀ p, p ∈ seen → pr_Host p ∈ gwHosts lk) → peers_placed acc.1 acc.2 seen)).
    - intros _. split; [done|done| |set_solver|done]. split; cbn; rewrite ?He, ?Hef; [set_solver|set_solver|]. intros k id. by rewrite lookup_empty.
    - intros seen [b' es] p IH Hh. apply addPeerEdge_placed; [|apply Hh; set_solver]. apply IH. set_solver. }
  eexists. split; [apply H..| |apply H]. intros p Hp. apply (pp_mapped _ _ _ H). by rewrite sort_elem_of.
Qed.
End peers.

(** ** Aggregates *)

(** What a server, or a node, counts towards: a datacenter, a /24, and the name
    it is counted under. *)
Record contribution := { co_dc : string; co_cidr : string; co_name : string }.
Definition co_id (c : contribution) : string := agg_id (co_dc c) (co_cidr c).

Definition server_contribution (lk : lookups) (s : Server) : option contribution :=
  if bool_decide (DC s ∈ dcWithGW lk) then
    (λ cidr, {| co_dc := DC s; co_cidr := cidr; co_name := Hostname s |}) <$> cidr24 (InvCache.IP s)
  else None.

Definition node_contribution (n : Node) : option contribution :=
  if String.eqb (nd_Kind n) "external" || String.eqb (nd_DC n) "" then None
  else (λ cidr, {| co_dc := nd_DC n; co_cidr := cidr; co_name := TrimPrefix (nd_ID n) "inventory|" |}) <$> cidr24 (nd_IP n).

Definition contributions (lk : lookups) (ns : list Node) : list contribution :=
  omap (server_contribution lk) (lk_servers lk) ++ omap node_contribution ns.

Definition contribute (g : aggregation) (c : contribution) : aggregation := (add_member g (co_dc c) (co_cidr c) (co_name c)).1.

Lemma aggregate_server_step lk g m s : aggregate_server lk (g, m) s =
  match server_contribution lk s with Some c => (contribute g c, <[co_name c := co_id c]> m) | None => (g, m) end.
Proof.
  unfold aggregate_server, server_contribution. case_bool_decide; [|done]. destruct (cidr24 (InvCache.IP s)) as [cidr|]; [|done].
  cbn. unfold contribute, add_member, co_id. cbn. by destruct (_ && _).
Qed.

Lemma aggregate_servers lk ss : ∀ g m, let acc := foldl (aggregate_server lk) (g, m) ss in
  acc.1 = foldl contribute g (omap (server_contribution lk) ss) ∧
  ∀ h id, acc.2 !! h = Some id → m !! h = Some id ∨ ∃ c, c ∈ omap (server_contribution lk) ss ∧ co_id c = id.
Proof.
  induction ss as [|s ss IH]; intros g m; cbv zeta; [split; [done|by left]|]. cbn [foldl]. rewrite aggregate_server_step. cbn [omap list_omap].
  destruct (server_contribution lk s) as [c|]; [|apply IH].
  destruct (IH (contribute g c) (<[co_name c := co_id c]> m)) as [E H]. split; [exact E|].
  intros h id Hid. destruct (H h id Hid) as [[[_ <-]|[_ ?]]%lookup_insert_Some|(c' & ? & ?)].
  - right. exists c. split; [by left|done].
  - by left.
  - right. exists c'. split; [by right|done].
Qed.

Lemma aggregate_node_step g n : aggregate_node g n = match node_contribution n with Some c => contribute g c | None => g end.
Proof. unfold aggregate_node, node_contribution. destruct (_ || _); [done|]. by destruct (cidr24 (nd_IP n)). Qed.

Lemma aggregate_nodes ns : ∀ g, foldl aggregate_node g ns = foldl contribute g (omap node_contribution ns).
Proof.
  induction ns as [|n ns IH]; intros g; [done|]. cbn [foldl omap list_omap]. rewrite IH, aggregate_node_step. by destruct (node_contribution n).
Qed.

Definition names (cs : list contribution) (id : string) : gset string :=
  list_to_set (filter (λ s, s ≠ "") (co_name <$> filter (λ c, co_id c = id) cs)).

Record tallied (cs : list contribution) (g : aggregation) : Prop := {
  ta_agg : ∀ id a, agg_of g !! id = Some a → ag_ID a = id ∧ Count a = Z.of_nat (size (names cs id)) ∧
    ∃ c, c ∈ cs ∧ co_id c = id ∧ ag_DC a = co_dc c ∧ CIDR a = co_cidr c;
  ta_members : ∀ id, default ∅ (members g !! id) = names cs id;
  ta_all : ∀ c, c ∈ cs → is_Some (agg_of g !! co_id c);
}.

Lemma names_snoc cs c id : names (cs ++ [c]) id =
  if decide (co_id c = id ∧ co_name c ≠ "") then names cs id ∪ {[co_name c]} else names cs id.
Proof.
  unfold names. rewrite list.filter_app, fmap_app, list.filter_app, list.filter_cons, list.filter_nil.
  destruct (decide (co_id c = id)) as [Hi|Hi]; cbn [fmap list_fmap]; [rewrite list.filter_cons, list.filter_nil; destruct (decide (co_name c ≠ "")) as [Hn|Hn]|];
    (destruct (decide (_ ∧ _)) as [H|H]); try (exfalso; tauto); rewrite ?list.filter_nil, ?app_nil_r; [|done..].
  rewrite list_to_set_app_L. set_solver.
Qed.

Lemma contribute_tallied cs g c : tallied cs g → tallied (cs ++ [c]) (contribute g c).
Proof.
  intros [Ha Hm Hall]. set (a0 := {| ag_ID := co_id c; ag_DC := co_dc c; CIDR := co_cidr c; Count := 0 |}).
  set (a := default a0 (agg_of g !! co_id c)).
  assert (ag_ID a = co_id c ∧ Count a = Z.of_nat (size (names cs (co_id c))) ∧ ∃ c', c' ∈ cs ++ [c] ∧ co_id c' = co_id c ∧ ag_DC a = co_dc c' ∧ CIDR a = co_cidr c') as (Hid & Hcnt & Hfrom).
  { subst a. destruct (agg_of g !! co_id c) as [a|] eqn:E; cbn.
    - destruct (Ha _ _ E) as (? & ? & c' & ? & ? & ? & ?). split_and!; [done..|]. exists c'. rewrite elem_of_app. tauto.
    - split_and!; [done| |exists c; set_solver]. enough (names cs (co_id c) = ∅) as -> by done.
      unfold names. enough (filter (λ c0, co_id c0 = co_id c) cs = []) as -> by done.
      destruct (filter _ _) as [|c' l] eqn:El; [done|]. assert (c' ∈ c' :: l) as Hin by by left. rewrite <-El in Hin.
      apply list_elem_of_filter in Hin as [Hi Hc']. destruct (Hall c' Hc') as [x Hx]. rewrite Hi in Hx. congruence. }
  unfold contribute, add_member. fold (co_id c). fold a0 a. rewrite Hm.
  destruct (negb (String.eqb (co_name c) "") && negb (bool_decide (co_name c ∈ names cs (co_id c)))) eqn:Hnew; cbn [fst].
  - apply andb_true_iff in Hnew as [Hne%negb_true_iff%String.eqb_neq Hnin%negb_true_iff%bool_decide_eq_false]. split; cbn [agg_of members].
    + intros id a' [[<- <-]|[Hne' Hl]]%lookup_insert_Some.
      * split_and!; [done| |done]. cbn [Count]. rewrite names_snoc, decide_True by done.
        rewrite size_union, size_singleton by set_solver. rewrite Hcnt. lia.
      * rewrite names_snoc, decide_False by tauto. destruct (Ha _ _ Hl) as (? & ? & c' & ? & ?). split_and!; [done..|]. exists c'. rewrite elem_of_app. tauto.
    + intros id. rewrite names_snoc. destruct (decide (co_id c = id)) as [<-|Hi].
      * rewrite lookup_insert_eq, decide_True by done. cbn. set_solver.
      * rewrite lookup_insert_ne, decide_False by tauto. apply Hm.
    + intros c' Hc'. destruct (decide (co_id c = co_id c')) as [<-|]; [by rewrite lookup_insert_eq|].
      rewrite lookup_insert_ne by done. apply Hall. set_solver.
  - assert (∀ id, names (cs ++ [c]) id = names cs id) as Hsame.
    { intros id. rewrite names_snoc. destruct (decide _) as [[<- Hne]|]; [|done]. apply andb_false_iff in Hnew as [Hn|Hn]; bool_simpl.
      - by apply String.eqb_eq in Hn.
      - set_solver. }
    split; cbn [agg_of members].
    + intros id a' [[<- <-]|[Hne' Hl]]%lookup_insert_Some; rewrite Hsame; [done|].
      destruct (Ha _ _ Hl) as (? & ? & c' & ? & ?). split_and!; [done..|]. exists c'. rewrite elem_of_app. tauto.
    + intros id. rewrite Hsame. destruct (decide (co_id c = id)) as [<-|Hi]; [by rewrite lookup_insert_eq|rewrite lookup_insert_ne by done; apply Hm].
    + intros c' Hc'. destruct (decide (co_id c = co_id c')) as [<-|]; [by rewrite lookup_insert_eq|].
      rewrite lookup_insert_ne by done. apply Hall. set_solver.
Qed.

Lemma tally cs : tallied cs (foldl contribute {| agg_of := ∅; members := ∅ |} cs).
Proof.
  apply (foldl_invariant tallied); [|intros seen g c; apply contribute_tallied].
  split; cbn; [intros id a; by rewrite lookup_empty|intros id; by rewrite lookup_empty|set_solver].
Qed.

Lemma addAggregates_spec lk b : b_Aggs b = [] → aggOfHost b = ∅ → let b' := addAggregates lk b in let cs := contributions lk (b_Nodes b) in
  (b_Nodes b' = b_Nodes b ∧ nodeSeen b' = nodeSeen b ∧ b_Edges b' = b_Edges b ∧ b_Links b' = b_Links b ∧ edgeFor b' = edgeFor b) ∧
  StronglySorted (not_after (less_on string_ltb ag_ID)) (b_Aggs b') ∧ NoDup (ag_ID <$> b_Aggs b') ∧
  (∀ a, a ∈ b_Aggs b' → Count a = Z.of_nat (size (names cs (ag_ID a))) ∧ ∃ c, c ∈ cs ∧ co_id c = ag_ID a ∧ ag_DC a = co_dc c ∧ CIDR a = co_cidr c) ∧
  (∀ c, c ∈ cs → ∃ a, a ∈ b_Aggs b' ∧ ag_ID a = co_id c) ∧
  ∀ h id, aggOfHost b' !! h = Some id → ∃ a, a ∈ b_Aggs b' ∧ ag_ID a = id.
Proof.
  intros Ha Hm b' cs. subst b'. unfold addAggregates. rewrite Ha, Hm. set (g0 := {| agg_of := ∅; members := ∅ |}).
  pose proof (aggregate_servers lk (lk_servers lk) g0 ∅) as Hs. cbv zeta in Hs.
  destruct (foldl (aggregate_server lk) (g0, ∅) (lk_servers lk)) as [g m]. cbn [fst snd] in Hs. destruct Hs as [-> Hof].
  rewrite aggregate_nodes, <-foldl_app. fold (contributions lk (b_Nodes b)). fold cs. pose proof (tally cs) as Ht.
  set (g := foldl contribute g0 cs) in *. cbn [set_aggs b_Nodes nodeSeen b_Edges b_Links edgeFor b_Aggs aggOfHost app].
  assert (∀ a, a ∈ sort (less_on string_ltb ag_ID) (map_to_list (agg_of g)).*2 ↔ agg_of g !! ag_ID a = Some a) as Hin.
  { intros a. rewrite sort_elem_of, list_elem_of_fmap. split.
    - intros ([id a'] & -> & Hl%elem_of_map_to_list). cbn. by destruct (ta_agg _ _ Ht _ _ Hl) as (-> & _).
    - intros Hl. exists (ag_ID a, a). split; [done|]. by apply elem_of_map_to_list. }
  assert (∀ c, c ∈ cs → ∃ a, a ∈ sort (less_on string_ltb ag_ID) (map_to_list (agg_of g)).*2 ∧ ag_ID a = co_id c) as Hall.
  { intros c Hc. destruct (ta_all _ _ Ht c Hc) as [a Hl]. exists a. destruct (ta_agg _ _ Ht _ _ Hl) as (Eid & _). rewrite Hin, Eid. done. }
  split; [done|]. split; [apply sort_sorted, _|]. split; [|split; [|split; [exact Hall|]]].
  - rewrite sort_perm. rewrite <-list_fmap_compose. assert (ag_ID ∘ snd <$> map_to_list (agg_of g) = (map_to_list (agg_of g)).*1) as ->; [|apply NoDup_fst_map_to_list].
    apply list_fmap_ext. intros i [id a] Hl. apply list_elem_of_lookup_2, elem_of_map_to_list in Hl. cbn. by destruct (ta_agg _ _ Ht _ _ Hl).
  - intros a Hl. apply Hin in Hl. by destruct (ta_agg _ _ Ht _ _ Hl) as (_ & ? & ?).
  - intros h id [Hno|(c & Hc & <-)]%Hof; [by rewrite lookup_empty in Hno|]. apply Hall. unfold cs, contributions. apply elem_of_app. by left.
Qed.

(** ** Links *)

Definition NetRelationKinds : list string := ["placed-on"; "member-of"; "attached-to"; "transits"; "carries"].

Definition aggregate (b : builder) (id : string) : Prop := ∃ a, a ∈ b_Aggs b ∧ ag_ID a = id.

(** The end of a management path: something drawn, or a machine's other name. *)
Definition far_end (lk : lookups) (b : builder) (x : string) : Prop := x ∈ nodeSeen b ∨ aggregate b x ∨ alias_host lk x.

Inductive link_ends (lk : lookups) (b : builder) (l : Link) : Prop :=
| managed : ln_Kind l = "management" → far_end lk b (ln_Source l) → far_end lk b (ln_Target l) → ln_Source l ≠ ln_Target l → link_ends lk b l
| placement : ln_Kind l = "placement" → ln_Source l ∈ nodeSeen b → ln_Target l ∈ nodeSeen b → link_ends lk b l
| networked : ln_Kind l = "network" → ln_Source l ∈ nodeSeen b → aggregate b (ln_Target l) → link_ends lk b l
| siteless cidr : ln_Kind l = "network" → ln_Source l ∈ nodeSeen b → ln_Target l = agg_id "" cidr → link_ends lk b l
| declared_ends : ln_Kind l ∈ NetRelationKinds → ln_Source l ∈ nodeSeen b → ln_Target l ∈ nodeSeen b → link_ends lk b l.

Lemma node_links_ends lk b n l : sound b → n ∈ b_Nodes b →
  (∀ c, c ∈ contributions lk (b_Nodes b) → aggregate b (co_id c)) → l ∈ node_links n → link_ends lk b l.
Proof.
  intros [_ Hs Hp] Hn Hall. unfold node_links. destruct (String.eqb_spec (nd_Kind n) "external") as [|He]; [set_solver|].
  assert (nd_ID n ∈ nodeSeen b) as Hid by (apply Hs; by exists n). intros [Hl|Hl]%elem_of_app.
  - destruct (String.eqb_spec (Parent n) ""); [set_solver|]. apply list_elem_of_singleton in Hl as ->. apply placement; [done|done|by apply Hp].
  - destruct (cidr24 (nd_IP n)) as [cidr|] eqn:Ec; [|set_solver]. apply list_elem_of_singleton in Hl as ->.
    destruct (decide (nd_DC n = "")) as [Edc|Edc]; [apply (siteless _ _ _ cidr); cbn; by rewrite ?Edc|].
    apply networked; [done|done|]. apply (Hall {| co_dc := nd_DC n; co_cidr := cidr; co_name := TrimPrefix (nd_ID n) "inventory|" |}).
    unfold contributions. apply elem_of_app. right. apply list_elem_of_omap. exists n. split; [done|]. unfold node_contribution.
    apply String.eqb_neq in He, Edc. by rewrite He, Edc, Ec.
Qed.

Lemma management_ends lk b ss : ∀ ls seen, (∀ l, l ∈ ls → link_ends lk b l) →
  (∀ h, h ∈ gwHosts lk → far_end lk b h) → (∀ h id, aggOfHost b !! h = Some id → aggregate b id) →
  ∀ l, l ∈ (foldl (management_link lk b) (ls, seen) ss).1 → link_ends lk b l.
Proof.
  intros ls seen Hls Hgw Hagg. revert ls seen Hls. induction ss as [|s ss IH]; intros ls seen Hls; [done|]. cbn [foldl].
  assert (∀ h x, resolve_end lk b h = Some x → far_end lk b x) as Hr.
  { intros h x. unfold resolve_end. case_bool_decide; [intros [= <-]; by apply Hgw|]. intros Hx. right; left. by eapply Hagg. }
  unfold management_link at 2. destruct (String.eqb _ _); [by apply IH|].
  destruct (resolve_end lk b (Hostname s)) as [src|] eqn:Es; [|by apply IH]. destruct (resolve_end lk b (JumpVia s)) as [dst|] eqn:Ed; [|by apply IH].
  destruct (String.eqb_spec src dst); [by apply IH|]. case_bool_decide; [by apply IH|]. apply IH.
  intros l [Hl| ->%list_elem_of_singleton]%elem_of_app; [by apply Hls|]. apply managed; [done|by eapply Hr|by eapply Hr|done].
Qed.

(** ** The collected graph *)

Record well_formed (lk : lookups) (peers : list WGPeerRow) (b : builder) : Prop := {
  wf_sound : sound b;
  wf_edges : ∀ e, e ∈ b_Edges b → edge_ends lk b e;
  wf_links : ∀ l, l ∈ b_Links b → link_ends lk b l;
  wf_edgeFor : ∀ k id, edgeFor b !! k = Some id → ∃ e, e ∈ b_Edges b ∧ ed_ID e = id;
  wf_peers : ∀ p, p ∈ peers → is_Some (edgeFor b !! tunnel_key p);
}.

Section collected.
Context (ifaces : list WGInterfaceRow) (peers : list WGPeerRow) (servers : list Server) (annotations : list WGEndpointAnnotation).
Notation lk := (newBuilder ifaces peers servers annotations).

Lemma gateway_end b h : (∀ h, h ∈ gateway_hosts lk → h ∈ nodeSeen b) → h ∈ gwHosts lk → far_end lk b h.
Proof.
  intros Hg Hh. destruct (decide (canonicalHost lk h = h)) as [E|E]; [left|by right; right]. apply Hg, gateway_hosts_spec. by rewrite E.
Qed.

Lemma collected_well_formed : (∀ p, p ∈ peers → ∃ r, r ∈ ifaces ∧ Host r = pr_Host p) → well_formed lk peers (collected lk).
Proof.
  intros Hfk. unfold collected. destruct (addGateways_sound lk start start_sound) as (Hb1 & E1 & Hg1).
  set (b1 := addGateways lk start) in *. destruct (ext_rest _ _ E1) as (Ee & Ea & El & Ef & Eo).
  destruct (addPeerEdges_placed ifaces peers servers annotations Hfk b1) as (es & Hp); [done..| |]; [by rewrite Ea, El, Eo|].
  set (b2 := addPeerEdges lk b1) in *. destruct Hp as [Hb2 Hg2 [He2 _ Hef2] Hm2 (El2 & Ea2 & Eo2)].
  pose proof (addAggregates_spec lk b2 Ea2 Eo2) as Ha. cbv zeta in Ha. set (b3 := addAggregates lk b2) in *.
  destruct Ha as ((En3 & Es3 & Ee3 & El3 & Ef3) & _ & _ & _ & Hall3 & Hof3).
  assert (sound b3) as Hb3 by (split; rewrite ?En3, ?Es3; apply Hb2).
  assert (∀ l, l ∈ b_Links (addLinks lk b3) → link_ends lk b3 l) as Hl.
  { intros l Hl. unfold addLinks in Hl. cbn [b_Links set_links] in Hl. rewrite sort_elem_of in Hl. apply elem_of_app in Hl as [Hl|Hl].
    - eapply management_ends; [| |exact Hof3|exact Hl]; [rewrite El3, El2; set_solver|]. intros h Hh.
      apply gateway_end; [|done]. intros h' Hh'. rewrite Es3. by apply Hg2.
    - apply list_elem_of_bind in Hl as (n & Hl & Hn). apply (node_links_ends lk b3 n l Hb3 Hn); [|done]. intros c Hc. rewrite En3 in Hc.
      by apply Hall3. }
  split; cbn [addLinks set_links b_Nodes nodeSeen b_Edges b_Links edgeFor]; [by destruct Hb3| | | |].
  - intros e He. rewrite Ee3 in He. destruct (He2 e He) as [? ?]. unfold edge_ends. cbn. by rewrite Es3.
  - intros l Hin. by destruct (Hl l Hin); [apply managed|apply placement|apply networked|eapply siteless|apply declared_ends].
  - intros k id. rewrite Ef3, Ee3. apply Hef2.
  - intros p Hp. rewrite Ef3. by apply Hm2.
Qed.
End collected.

(** ** The declared phase *)

(** The node with another lane, other attributes, or the site it lacked. *)
Definition dressed (n n' : Node) : Prop :=
  ∃ dc layer attrs, (nd_DC n ≠ "" → dc = nd_DC n) ∧
  n' = {| nd_ID := nd_ID n; nd_Label := nd_Label n; nd_Kind := nd_Kind n; nd_DC := dc; nd_IP := nd_IP n; nd_TunnelIP := nd_TunnelIP n;
          Observed := Observed n; Parent := Parent n; Warnings := Warnings n; Ifaces := Ifaces n; Layer := layer;
          nd_Attrs := attrs; nd_PubKey := nd_PubKey n; SeenAs := SeenAs n |}.

#[export] Instance dressed_preorder : PreOrder dressed.
Proof.
  split.
  - intros []. by do 3 eexists.
  - intros n1 n2 n3 (dc & la & at1 & H1 & ->) (dc' & la' & at2 & H2 & ->). cbn in *. exists dc', la', at2. split; [|done].
    intros Hne. specialize (H1 Hne). subst dc. by apply H2.
Qed.

Lemma dressed_layer n layer : dressed n (set_layer n layer).
Proof. by exists (nd_DC n), layer, (nd_Attrs n). Qed.

Lemma dressed_declare e n : dressed n (declare_on e n).
Proof.
  exists (FirstNonEmpty [nd_DC n; en_Site e]), (Layer n), (if bool_decide (en_Attrs e = ∅) then nd_Attrs n else en_Attrs e). split; [|done].
  intros Hne. rewrite FirstNonEmpty_cons. by apply String.eqb_neq in Hne as ->.
Qed.

Record overlays (b b' : builder) : Prop := {
  ov_nodes : ∃ ns added, b_Nodes b' = ns ++ added ∧ Forall2 dressed (b_Nodes b) ns;
  ov_seen : nodeSeen b ⊆ nodeSeen b';
  ov_rest : b_Edges b' = b_Edges b ∧ b_Aggs b' = b_Aggs b ∧ b_Links b' = b_Links b ∧ edgeFor b' = edgeFor b;
}.

#[export] Instance overlays_preorder : PreOrder overlays.
Proof.
  split.
  - intros b. split; [|done|done]. exists (b_Nodes b), []. by rewrite app_nil_r.
  - intros b1 b2 b3 [(ns & add & E1 & F1) S1 (? & ? & ? & ?)] [(ns' & add' & E2 & F2) S2 (? & ? & ? & ?)].
    split; [|set_solver|split_and!; congruence]. rewrite E1 in F2. apply Forall2_app_inv_l in F2 as (n1 & n2 & F3 & _ & ->).
    exists n1, (n2 ++ add'). rewrite E2, (assoc_L (++)). split; [done|by etrans].
Qed.

Lemma dressed_ids ns ns' : Forall2 dressed ns ns' → nd_ID <$> ns' = nd_ID <$> ns.
Proof. induction 1 as [|n n' ns ns' (dc & la & at_ & _ & ->) _ IH]; [done|]. cbn. by rewrite IH. Qed.

Lemma dressed_sound b ns : sound b → Forall2 dressed (b_Nodes b) ns → sound (set_nodes b ns) ∧ overlays b (set_nodes b ns).
Proof.
  intros [Hu Hs Hp] HF. pose proof (dressed_ids _ _ HF) as Eids. split; split; cbn; [by rewrite Eids| | |exists ns, []; by rewrite app_nil_r|done|done].
  - intros x. rewrite Hs. assert (∀ l, (∃ n, n ∈ l ∧ nd_ID n = x) ↔ x ∈ nd_ID <$> l) as E by (intros l; rewrite list_elem_of_fmap; naive_solver).
    by rewrite !E, Eids.
  - intros n' Hn' Hne. apply list_elem_of_lookup in Hn' as [i Hi]. destruct (Forall2_lookup_r _ _ _ _ _ HF Hi) as (n & Hn & (dc & la & at_ & _ & ->)).
    cbn in *. apply (Hp n); [by eapply list_elem_of_lookup_2|done].
Qed.

Lemma dressed_alter f i ns : (∀ n, dressed n (f n)) → Forall2 dressed ns (alter f i ns).
Proof.
  intros Hf. revert i. induction ns as [|n ns IH]; intros i; [constructor|]. destruct i as [|i]; cbn; constructor; [apply Hf|done|done|apply IH].
Qed.

Lemma addNode_overlays b n : sound b → Parent n = "" → sound (addNode b n) ∧ overlays b (addNode b n) ∧ nd_ID n ∈ nodeSeen (addNode b n).
Proof.
  intros Hb Hp. destruct (addNode_sound b n Hb) as (? & [[add E] Hs (? & ? & ? & ? & _)] & ?); [by left|]. split_and!; [done| |done].
  split; [exists (b_Nodes b), add; by rewrite E|done|done].
Qed.

(** The positions the phase keeps are positions of nodes, one for every node. *)
Record placed_at_ids (b : builder) (byID : gmap string nat) : Prop := {
  in_range : ∀ x i, byID !! x = Some i → (i < length (b_Nodes b))%nat;
  all_ids : ∀ x, x ∈ nodeSeen b → is_Some (byID !! x);
}.

Lemma positions_spec key ns : (∀ x i, positions key ns !! x = Some i → ∃ n, ns !! i = Some n ∧ key n = Some x) ∧
  ∀ n x, n ∈ ns → key n = Some x → is_Some (positions key ns !! x).
Proof.
  unfold positions. assert (∀ i n, (i, n) ∈ imap pair ns ↔ ns !! i = Some n) as Hi.
  { intros i n. rewrite list_elem_of_lookup. setoid_rewrite list_lookup_imap. split.
    - intros [j Hj]. destruct (ns !! j) eqn:E; [|done]. cbn in Hj. congruence.
    - intros E. exists i. by rewrite E. }
  assert (let m := foldl (λ m e, match key e.2 with Some k => <[k := e.1]> m | None => m end) (∅ : gmap string nat) (imap pair ns) in
    (∀ x i, m !! x = Some i → ∃ n, (i, n) ∈ imap pair ns ∧ key n = Some x) ∧ ∀ e x, e ∈ imap pair ns → key e.2 = Some x → is_Some (m !! x)) as [H1 H2].
  { apply (foldl_invariant (λ seen (m : gmap string nat), (∀ x i, m !! x = Some i → ∃ n, (i, n) ∈ seen ∧ key n = Some x) ∧
      ∀ e x, e ∈ seen → key e.2 = Some x → is_Some (m !! x))); [split; [intros x i; by rewrite lookup_empty|set_solver]|].
    intros seen m [j n] [IH1 IH2]. cbn. split.
    - intros x i H. assert (∀ n', (i, n') ∈ seen → (i, n') ∈ seen ++ [(j, n)]) by set_solver.
      destruct (key n) as [k|] eqn:Ek; [apply lookup_insert_Some in H as [[<- <-]|[_ H]]; [exists n; set_solver|]|]; apply IH1 in H as (n' & ? & ?); eauto.
    - intros e x [He| ->%list_elem_of_singleton]%elem_of_app Hx; cbn in *; [|rewrite Hx, lookup_insert_eq; eauto].
      destruct (key n) as [k|]; [|by eapply IH2]. destruct (decide (k = x)) as [->|]; [by rewrite lookup_insert_eq|rewrite lookup_insert_ne by done; by eapply IH2]. }
  split; [intros x i H; destruct (H1 x i H) as (n & Hn & ?); exists n; by rewrite Hi in Hn|].
  intros n x Hn Hx. apply list_elem_of_lookup in Hn as [i Hn]. apply (H2 (i, n)); [by rewrite Hi|done].
Qed.

Lemma edit_node_ok b i f : sound b → (∀ n, dressed n (f n)) → sound (edit_node b i f) ∧ overlays b (edit_node b i f) ∧
  length (b_Nodes (edit_node b i f)) = length (b_Nodes b) ∧ nodeSeen (edit_node b i f) = nodeSeen b.
Proof.
  intros Hb Hf. destruct (dressed_sound b (alter f i (b_Nodes b)) Hb (dressed_alter f i _ Hf)) as [? ?].
  split_and!; [done|done| |done]. cbn. apply length_alter.
Qed.

Lemma reconcile_ok lk b e byID eh : sound b → let '(b', r) := reconcileDeclared lk b e byID eh in
  sound b' ∧ overlays b b' ∧ length (b_Nodes b') = length (b_Nodes b) ∧ nodeSeen b' = nodeSeen b ∧ ∀ id, r = Some id → id ∈ nodeSeen b.
Proof.
  intros Hb. unfold reconcileDeclared. destruct (String.eqb (en_Kind e) "physical-host"); [|destruct (String.eqb (en_Kind e) "tunnel")].
  - unfold reconcileDeclaredHost. cbv zeta. destruct (match byID !! _ with Some i => Some i | None => _ end) as [i|]; [|by split_and!].
    destruct (edit_node_ok b i (λ n, declare_on e (set_layer n "underlay")) Hb) as (? & ? & ? & ?).
    { intros n. etrans; [apply dressed_layer|apply dressed_declare]. }
    split_and!; try done. intros id Hid. apply fmap_Some in Hid as (n & Hn & ->). apply (ids_seen _ Hb). exists n.
    split; [by eapply list_elem_of_lookup_2|done].
  - cbv zeta. destruct (String.eqb _ ""); [by split_and!|]. case_bool_decide; split_and!; try done. by intros id [= <-].
  - destruct (String.eqb (en_Kind e) "vm"); [|by split_and!]. unfold reconcileDeclaredVM. cbv zeta.
    destruct (String.eqb _ ""); [by split_and!|]. case_bool_decide as Hin; [|by split_and!].
    destruct (edit_node_ok b (default O (byID !! canonicalHost lk (as_string (en_Attrs e) "inventory"))) (declare_on e) Hb) as (? & ? & ? & ?);
      [apply dressed_declare|]. split_and!; try done. by intros id [= <-].
Qed.

(** After some of the entities: each has an alias, and every alias is drawn. *)
Record aliased (b0 : builder) (seen : list NetEntity) (al : aliasing) : Prop := {
  as_sound : sound (al_b al);
  as_over : overlays b0 (al_b al);
  as_positions : placed_at_ids (al_b al) (al_byID al);
  as_drawn : ∀ id x, alias_of al !! id = Some x → x ∈ nodeSeen (al_b al) ∧ ∃ e, e ∈ seen ∧ en_ID e = id;
  as_all : ∀ e, e ∈ seen → is_Some (alias_of al !! en_ID e);
}.

Lemma alias_insert (m : gmap string string) id x (S S' : gset string) seen e : en_ID e = id → x ∈ S' → S ⊆ S' →
  (∀ id x, m !! id = Some x → x ∈ S ∧ ∃ e, e ∈ seen ∧ en_ID e = id) → (∀ e, e ∈ seen → is_Some (m !! en_ID e)) →
  (∀ id' x', <[id := x]> m !! id' = Some x' → x' ∈ S' ∧ ∃ e', e' ∈ seen ++ [e] ∧ en_ID e' = id') ∧
  ∀ e', e' ∈ seen ++ [e] → is_Some (<[id := x]> m !! en_ID e').
Proof.
  intros <- Hx HS Hd Ha. split.
  - intros id' x' [[<- <-]|[_ H]]%lookup_insert_Some; [split; [done|exists e; set_solver]|].
    destruct (Hd _ _ H) as (? & e' & ? & ?). split; [set_solver|]. exists e'. set_solver.
  - intros e' [He'| ->%list_elem_of_singleton]%elem_of_app; [|by rewrite lookup_insert_eq].
    destruct (decide (en_ID e = en_ID e')) as [<-|]; [by rewrite lookup_insert_eq|rewrite lookup_insert_ne by done; by apply Ha].
Qed.

Lemma aliasDeclared_ok lk b0 eh seen al e : aliased b0 seen al → aliased b0 (seen ++ [e]) (aliasDeclared lk eh al e).
Proof.
  intros [Hb Hov [Hr Hall] Hd Ha]. unfold aliasDeclared. pose proof (reconcile_ok lk (al_b al) e (al_byID al) eh Hb) as H.
  destruct (reconcileDeclared lk (al_b al) e (al_byID al) eh) as [b [id|]]; destruct H as (Hb' & Hov' & Hlen & Hseen & Hid).
  - destruct (alias_insert (alias_of al) (en_ID e) id (nodeSeen (al_b al)) (nodeSeen (al_b al)) seen e) as [H1 H2]; [done|by apply Hid|done..|].
    split; cbn; [done|by etrans|split; [by rewrite Hlen|by rewrite Hseen]|by rewrite Hseen|done].
  - destruct (addNode_overlays b (declaredNode e) Hb') as (Hb2 & Hov2 & Hin2); [done|]. set (b2 := addNode b (declaredNode e)) in *.
    destruct (alias_insert (alias_of al) (en_ID e) (nd_ID (declaredNode e)) (nodeSeen (al_b al)) (nodeSeen b2) seen e) as [H1 H2]; try done.
    { rewrite <-Hseen. apply Hov2. }
    assert (length (b_Nodes b) ≤ length (b_Nodes b2) ∧ 0 < length (b_Nodes b2))%nat as [Hle Hpos].
    { apply (ids_seen _ Hb2) in Hin2 as (n & Hn & _). split; [|destruct (b_Nodes b2); [by apply not_elem_of_nil in Hn|cbn; lia]].
      destruct (ov_nodes _ _ Hov2) as (ns & add & -> & HF). rewrite length_app, (Forall2_length _ _ _ HF). lia. }
    split; cbn [al_b al_byID alias_of]; [done|by do 2 (etrans; [done|])|split|done|done].
    + intros x i [[_ <-]|[_ Hx]]%lookup_insert_Some; [lia|]. specialize (Hr _ _ Hx). lia.
    + intros x Hx. destruct (decide (nd_ID (declaredNode e) = x)) as [<-|Hne]; [by rewrite lookup_insert_eq|].
      rewrite lookup_insert_ne by done. apply Hall. rewrite <-Hseen. subst b2. unfold addNode in Hx. case_bool_decide; [done|set_solver].
Qed.

Lemma layer_ok b : sound b → let '(b', byID) := layerCollectedNodes b in sound b' ∧ overlays b b' ∧ placed_at_ids b' byID.
Proof.
  intros Hb. cbn. destruct (dressed_sound b (layer_node <$> b_Nodes b) Hb) as [Hb' Hov].
  { induction (b_Nodes b); constructor; [apply dressed_layer|done]. }
  split_and!; [done..|]. destruct (positions_spec (λ n, Some (nd_ID n)) (layer_node <$> b_Nodes b)) as [H1 H2]. split; cbn.
  - intros x i Hx. destruct (H1 _ _ Hx) as (n & Hn & _). by eapply lookup_lt_Some.
  - intros x Hx. apply (ids_seen _ Hb') in Hx as (n & Hn & <-). by eapply H2.
Qed.

(** The links a declaration adds: one for each relation between declared
    entities, of its kind, between drawn nodes. *)
Definition declared_links (b : builder) (entities : list NetEntity) (relations : list NetRelation) (ls : list Link) : Prop :=
  (∀ l, l ∈ ls → ln_Source l ∈ nodeSeen b ∧ ln_Target l ∈ nodeSeen b ∧ ∃ r, r ∈ relations ∧ ln_Kind l = re_Kind r) ∧
  ln_Kind <$> ls = re_Kind <$> filter (λ r, SrcID r ∈ en_ID <$> entities ∧ DstID r ∈ en_ID <$> entities) relations.

Lemma omap_declared alias m (relations : list NetRelation) (entities : list NetEntity) :
  (∀ id, is_Some (alias !! id) ↔ id ∈ en_ID <$> entities) →
  ln_Kind <$> omap (declared_link alias m) relations =
  re_Kind <$> filter (λ r, SrcID r ∈ en_ID <$> entities ∧ DstID r ∈ en_ID <$> entities) relations.
Proof.
  intros Ha. induction relations as [|r rs IH]; [done|]. rewrite list.filter_cons. cbn [omap list_omap]. unfold declared_link at 1.
  destruct (alias !! SrcID r) as [src|] eqn:Es; [|rewrite decide_False; [done|intros [H%Ha _]; rewrite Es in H; by destruct H]].
  destruct (alias !! DstID r) as [dst|] eqn:Ed; [|rewrite decide_False; [done|intros [_ H%Ha]; rewrite Ed in H; by destruct H]].
  rewrite decide_True by (split; apply Ha; eauto). cbn. by rewrite IH.
Qed.

Lemma addDeclared_ok lk b entities relations : sound b → let b' := addDeclared lk b entities relations in
  sound b' ∧ nodeSeen b ⊆ nodeSeen b' ∧ (∃ ns added, b_Nodes b' = ns ++ added ∧ Forall2 dressed (b_Nodes b) ns) ∧
  (b_Edges b' = b_Edges b ∧ b_Aggs b' = b_Aggs b ∧ edgeFor b' = edgeFor b) ∧
  ∃ ls, b_Links b' ≡ₚ b_Links b ++ ls ∧ declared_links b' entities relations ls.
Proof.
  intros Hb b'. subst b'. unfold addDeclared. destruct (declares entities relations) eqn:Hd; cbn [negb].
  2:{ unfold declares in Hd. apply orb_false_iff in Hd as [He Hr]. destruct entities; [|done]. destruct relations; [|done].
      split_and!; [done|done|exists (b_Nodes b), []; by rewrite app_nil_r|done..|]. exists []. rewrite app_nil_r. split; [done|split; [set_solver|done]]. }
  pose proof (layer_ok b Hb) as Hl. destruct (layerCollectedNodes b) as [b1 byID]. destruct Hl as (Hb1 & Hov1 & Hp1).
  assert (aliased b1 entities (aliasDeclaredEntities lk b1 entities byID (annotatedHostNodes lk b1))) as [Hb2 Hov2 _ Hdr Hall].
  { unfold aliasDeclaredEntities. apply (foldl_invariant (aliased b1)); [|intros; by apply aliasDeclared_ok].
    split; cbn; [done|done|done|intros id x; by rewrite lookup_empty|set_solver]. }
  set (al := aliasDeclaredEntities _ _ _ _ _) in *. assert (overlays b (al_b al)) as [Hn Hs (Ee & Ea & El & Ef)] by by etrans.
  split; [by destruct Hb2|]. split; [done|]. split; [done|]. split; [done|].
  exists (omap (declared_link (alias_of al) (map_by en_ID (λ e, e) entities)) relations). split; [|split].
  - cbn. unfold sortDeclaredLinks. by rewrite sort_perm, El.
  - intros l Hl. apply list_elem_of_omap in Hl as (r & Hr & Hl). unfold declared_link in Hl.
    destruct (alias_of al !! SrcID r) as [src|] eqn:E1; [|done]. destruct (alias_of al !! DstID r) as [dst|] eqn:E2; [|done].
    injection Hl as <-. cbn. split_and!; [by eapply Hdr|by eapply Hdr|by exists r].
  - apply omap_declared. intros id. rewrite list_elem_of_fmap. split; [intros [x Hx]; destruct (Hdr _ _ Hx) as (_ & e & ? & <-); eauto|].
    intros (e & -> & He). by apply Hall.
Qed.

(** ** The theorems *)

Section theorems.
Context (visit : nat → gmap string Node → list (string * Node)).
Context (ifaces : list WGInterfaceRow) (peers : list WGPeerRow) (servers : list Server) (annotations : list WGEndpointAnnotation)
  (entities : list NetEntity) (relations : list NetRelation).
Notation lk := (newBuilder ifaces peers servers annotations).

(** Where the ends of an edge or a link may point. *)
Definition points_at (topo : Topology) (x : string) : Prop := drawn topo x ∨ (∃ a, a ∈ Aggs topo ∧ ag_ID a = x).

(** C38. Whatever was collected, inventoried, annotated and declared, the graph is
    well formed: no two nodes share an id; every peer is attributed to an edge
    that exists; every edge ends at a drawn node, and starts at one unless it is
    an external peer's, collected under a machine's other name; a placement, and
    every declared relation, joins two drawn nodes; and a management or network
    link joins drawn nodes or aggregates, save for that other name and for the
    network of a node whose site is not known. *)
Theorem graph_well_formed :
  (∀ p, p ∈ peers → ∃ r, r ∈ ifaces ∧ Host r = pr_Host p) →
  (∀ r, r ∈ relations → re_Kind r ∈ NetRelationKinds) →
  let '(topo, ef) := BuildWithDeclared visit ifaces peers servers annotations entities relations in
  NoDup (nd_ID <$> Nodes topo) ∧
  (∀ p, p ∈ peers → ∃ e, e ∈ Edges topo ∧ ef !! tunnel_key p = Some (ed_ID e)) ∧
  (∀ e, e ∈ Edges topo → drawn topo (ed_Target e) ∧ (drawn topo (ed_Source e) ∨ side_A e = None ∧ alias_host lk (ed_Source e))) ∧
  ∀ l, l ∈ Links topo →
    (ln_Kind l ∈ "placement" :: NetRelationKinds ∧ drawn topo (ln_Source l) ∧ drawn topo (ln_Target l)) ∨
    (ln_Kind l = "management" ∧ ln_Source l ≠ ln_Target l ∧
       ∀ x, x = ln_Source l ∨ x = ln_Target l → points_at topo x ∨ alias_host lk x) ∨
    (ln_Kind l = "network" ∧ drawn topo (ln_Source l) ∧ (points_at topo (ln_Target l) ∨ ∃ cidr, ln_Target l = agg_id "" cidr)).
Proof.
  intros Hfk Hkinds. unfold BuildWithDeclared. cbv zeta.
  destruct (collected_well_formed ifaces peers servers annotations Hfk) as [Hs0 He0 Hl0 Hef0 Hp0].
  set (b0 := collected lk) in *. pose proof (addDeclared_ok lk b0 entities relations Hs0) as Hd. cbv zeta in Hd.
  set (b := addDeclared lk b0 entities relations) in *. destruct Hd as (Hb & Hseen & _ & (Ee & Ea & Ef) & ls & Hls & Hdecl & _).
  set (topo := topology_of b _ _). assert (∀ x, x ∈ nodeSeen b ↔ drawn topo x) as Hdrawn by apply (ids_seen _ Hb).
  assert (∀ x, far_end lk b0 x → points_at topo x ∨ alias_host lk x) as Hfar.
  { intros x [Hx|[Hx|Hx]]; [left; left; by apply Hdrawn, Hseen|left; right|by right]. unfold topo. cbn. by rewrite Ea. }
  split; [apply Hb|]. split; [|split].
  - intros p Hp. destruct (Hp0 p Hp) as [id Hid]. destruct (Hef0 _ _ Hid) as (e & He & <-). exists e. unfold topo. cbn. by rewrite Ee, Ef.
  - unfold topo at 1. cbn. rewrite Ee. intros e He. destruct (He0 e He) as [Ht Hsrc]. rewrite <-!Hdrawn. split; [by apply Hseen|].
    destruct Hsrc; [left; by apply Hseen|by right].
  - intros l Hl. unfold topo in Hl. cbn in Hl. rewrite Hls in Hl. apply elem_of_app in Hl as [Hl|Hl].
    + destruct (Hl0 l Hl) as [Hk H1 H2 Hne|Hk H1 H2|Hk H1 H2|cidr Hk H1 H2|Hk H1 H2].
      * right; left. split_and!; [done..|]. intros x [->| ->]; by apply Hfar.
      * left. rewrite Hk, <-!Hdrawn. split_and!; [by left|by apply Hseen..].
      * right; right. rewrite <-Hdrawn. split_and!; [done|by apply Hseen|]. left; right. unfold topo. cbn. by rewrite Ea.
      * right; right. rewrite <-Hdrawn. split_and!; [done|by apply Hseen|]. right. by exists cidr.
      * left. rewrite <-!Hdrawn. split_and!; [by right|by apply Hseen..].
    + destruct (Hdecl l Hl) as (H1 & H2 & r & Hr & Hk). left. rewrite <-!Hdrawn, Hk. split_and!; [right; by apply Hkinds|done..].
Qed.

Lemma addPeerEdges_rest L b : b_Aggs (addPeerEdges L b) = b_Aggs b ∧ aggOfHost (addPeerEdges L b) = aggOfHost b.
Proof.
  unfold addPeerEdges. apply (foldl_invariant (λ _ acc, b_Aggs acc.1 = b_Aggs b ∧ aggOfHost acc.1 = aggOfHost b)); [done|].
  intros _ [b' es] p [<- <-]. unfold addPeerEdge, externalNode, enrichEndpoint, addPhysicalHost, addNode. by repeat case_match; simplify_eq/=.
Qed.

(** The aggregates of a graph are one for each datacenter and /24 that a host
    of a datacenter with a gateway, or a drawn node with a site, falls in; each
    counts the distinct names of those hosts and nodes, a gateway's included,
    however often a host appears; and they come in the order of their ids. *)
Theorem aggregates_exact :
  let '(t, _) := Build visit ifaces peers servers annotations in
  let cs := contributions lk (Nodes t) in
  StronglySorted (not_after (less_on string_ltb ag_ID)) (Aggs t) ∧ NoDup (ag_ID <$> Aggs t) ∧
  (∀ a, a ∈ Aggs t → Count a = Z.of_nat (size (names cs (ag_ID a))) ∧
     ∃ c, c ∈ cs ∧ ag_ID a = agg_id (co_dc c) (co_cidr c) ∧ ag_DC a = co_dc c ∧ CIDR a = co_cidr c) ∧
  ∀ c, c ∈ cs → ∃ a, a ∈ Aggs t ∧ ag_ID a = agg_id (co_dc c) (co_cidr c).
Proof.
  unfold Build, BuildWithDeclared. cbv zeta. change (addDeclared lk (collected lk) [] []) with (collected lk).
  set (b := addPeerEdges lk (addGateways lk start)). destruct (addPeerEdges_rest lk (addGateways lk start)) as [Ea Eo].
  destruct (addGateways_sound lk start start_sound) as (_ & [_ _ (_ & Ea' & _ & _ & Eo')] & _).
  pose proof (addAggregates_spec lk b ltac:(unfold b; by rewrite Ea, Ea') ltac:(unfold b; by rewrite Eo, Eo')) as H. cbv zeta in H.
  destruct H as ((En & _) & Hs & Hn & Ha & Hall & _). cbn [Nodes Aggs topology_of]. unfold collected. fold b.
  cbn [addLinks set_links b_Nodes b_Aggs]. rewrite En. split_and!; [done|done| |exact Hall].
  intros a Hin. destruct (Ha a Hin) as (? & c & ? & ? & ? & ?). split; [done|]. by exists c.
Qed.

(** A declaration is laid over the collected graph and changes nothing else:
    the tunnels, their attribution, the aggregates and the age are those of the
    plain build; its nodes stand where they stood, with at most another lane,
    other attributes or the site they lacked, and the new nodes follow them; its
    links are all there, together with one for each relation between declared
    entities.  With nothing declared the two builds are the same. *)
Theorem declarations_only_add :
  let '(t0, ef0) := Build visit ifaces peers servers annotations in
  let '(t, ef) := BuildWithDeclared visit ifaces peers servers annotations entities relations in
  (∀ p, p ∈ peers → ∃ r, r ∈ ifaces ∧ Host r = pr_Host p) →
  ef = ef0 ∧ Edges t = Edges t0 ∧ Aggs t = Aggs t0 ∧ tp_CollectedAt t = tp_CollectedAt t0 ∧
  (∃ ns added, Nodes t = ns ++ added ∧ Forall2 dressed (Nodes t0) ns) ∧
  (∃ ls, Links t ≡ₚ Links t0 ++ ls ∧
     ln_Kind <$> ls = re_Kind <$> filter (λ r, SrcID r ∈ en_ID <$> entities ∧ DstID r ∈ en_ID <$> entities) relations) ∧
  (is_Some (derived t) ↔ entities ≠ [] ∨ relations ≠ []) ∧ (entities = [] → relations = [] → t = t0).
Proof.
  unfold Build, BuildWithDeclared. cbv zeta. intros Hfk.
  destruct (collected_well_formed ifaces peers servers annotations Hfk) as [Hs0 _ _ _ _].
  change (addDeclared lk (collected lk) [] []) with (collected lk).
  pose proof (addDeclared_ok lk (collected lk) entities relations Hs0) as Hd. cbv zeta in Hd.
  destruct Hd as (_ & _ & Hn & (Ee & Ea & Ef) & ls & Hls & _ & Hk). split; [done|]. split; [done|]. split; [done|]. split; [done|].
  split; [done|]. split; [by exists ls|]. split; [|by intros -> ->]. cbn. unfold declares.
  destruct entities, relations; cbn; split; intros H; try done; try (by destruct H); try (by left); by right.
Qed.
End theorems.

(** ** Witnesses *)

Lemma fleet_fk p : p ∈ fleet_peers → ∃ r, r ∈ fleet_ifaces ∧ Host r = pr_Host p.
Proof.
  assert (Forall (λ p, Exists (λ r, Host r = pr_Host p) fleet_ifaces) fleet_peers) as H by (apply (bool_decide_unpack _); by vm_compute).
  rewrite Forall_forall in H. intros Hp. by apply Exists_exists, H.
Qed.

Lemma graph_well_formed_witness :
  NoDup (nd_ID <$> Nodes fleet.1) ∧ (∀ p, p ∈ fleet_peers → ∃ e, e ∈ Edges fleet.1 ∧ fleet.2 !! tunnel_key p = Some (ed_ID e)) ∧
  Exists (λ e, ed_Source e = "lb-vip" ∧ side_A e = None) (Edges fleet.1) ∧ ¬ drawn fleet.1 "lb-vip".
Proof.
  assert (Forall (λ r, re_Kind r ∈ NetRelationKinds) fleet_relations) as Hk by (apply (bool_decide_unpack _); by vm_compute).
  rewrite Forall_forall in Hk.
  pose proof (graph_well_formed in_map_order fleet_ifaces fleet_peers fleet_servers [] fleet_entities fleet_relations fleet_fk Hk) as H.
  split; [unfold fleet; destruct (BuildWithDeclared _ _ _ _ _ _ _); apply H|].
  split; [unfold fleet; destruct (BuildWithDeclared _ _ _ _ _ _ _); apply H|]. split.
  - vm_compute. apply Exists_exists. eexists. split; [right; left|]. done.
  - intros (n & Hn & E). assert (Forall (λ n, nd_ID n ≠ "lb-vip") (Nodes fleet.1)) as Hf.
    { unfold fleet. vm_compute. repeat constructor; discriminate. }
    rewrite Forall_forall in Hf. by apply (Hf n Hn).
Defined.

Lemma declarations_only_add_witness :
  let '(t0, ef0) := Build in_map_order fleet_ifaces fleet_peers fleet_servers [] in
  fleet.2 = ef0 ∧ Edges fleet.1 = Edges t0 ∧ (∃ ns added, Nodes fleet.1 = ns ++ added ∧ Forall2 dressed (Nodes t0) ns).
Proof.
  pose proof (declarations_only_add in_map_order fleet_ifaces fleet_peers fleet_servers [] fleet_entities fleet_relations) as H.
  unfold fleet. destruct (Build _ _ _ _ _) as [t0 ef0]. destruct (BuildWithDeclared _ _ _ _ _ _ _) as [t ef]. cbn [fst snd].
  destruct (H fleet_fk) as (? & ? & _ & _ & ? & _). split_and!; done.
Defined.
