(* ===== verification/WgTunnels.v ===== *)
(** A tunnel is one edge: how the rows of both its ends are put together
    ([addPeerEdges] and [fillEdgeSide] of internal/wireguard/topology.go). *)

From Stdlib Require Import Ascii String.
From stdpp Require Import fin_sets fin_maps gmap.
From S2P Require Import Prelude GoStrings NetIP InvCache WgParse WgState WgIdentity WgGraph WgDerive WgTopology WgGraphLaws.

#[local] Arguments sort : simpl never.

(** ** One edge per tunnel *)

Lemma TunnelEdgeID_sym a b : TunnelEdgeID a b = TunnelEdgeID b a.
Proof.
  unfold TunnelEdgeID. destruct (string_ltb b a) eqn:E1, (string_ltb a b) eqn:E2; try done.
  - by rewrite (less_asym _ _ E1) in E2.
  - assert (a = b) as -> by by apply (less_connex (less:=string_ltb)). done.
Qed.

Lemma fill_side_other id id' side es : id' ≠ id → filter (λ e, ed_ID e = id) (fill_side id' side es) = filter (λ e, ed_ID e = id) es.
Proof.
  intros Hne. induction es as [|e es IH]; [done|]. cbn [fill_side]. destruct (String.eqb_spec (ed_ID e) id') as [Ee|]; cbn [negb].
  - destruct (same_end _ _); [done|]. destruct (side_B e); [done|]. rewrite !list.filter_cons. cbn [ed_ID with_B]. by rewrite !decide_False by congruence.
  - rewrite !list.filter_cons. by rewrite IH.
Qed.

Lemma fill_side_own id side es : filter (λ e, ed_ID e = id) (fill_side id side es) = fill_side id side (filter (λ e, ed_ID e = id) es).
Proof.
  induction es as [|e es IH]; [done|]. cbn [fill_side]. rewrite list.filter_cons. destruct (String.eqb_spec (ed_ID e) id) as [Ee|Ee]; cbn [negb].
  - rewrite decide_True by done. cbn [fill_side]. rewrite Ee, String.eqb_refl. cbn [negb].
    destruct (same_end _ _) eqn:Es; [by rewrite list.filter_cons, decide_True by done|].
    destruct (side_B e) eqn:Eb; rewrite list.filter_cons; cbn [ed_ID with_B]; by rewrite decide_True by done.
  - rewrite list.filter_cons. rewrite !decide_False by done. exact IH.
Qed.

Section tunnels.
Context (ifaces : list WGInterfaceRow) (peers : list WGPeerRow) (servers : list Server) (annotations : list WGEndpointAnnotation).
Notation lk := (newBuilder ifaces peers servers annotations).

Definition local_of (p : WGPeerRow) : string := localPubKey lk (pr_Host p) (pr_Iface p).
Definition resolved (p : WGPeerRow) : Prop := is_Some (Lookup (endpoints lk) (pr_Key p)).
Definition on_edge (id : string) (p : WGPeerRow) : Prop := resolved p ∧ peer_edge_id lk p = id.
#[export] Instance on_edge_dec id p : Decision (on_edge id p).
Proof. unfold on_edge, resolved. apply _. Defined.

Definition with_far (e : Edge) (side : option EdgeSide) : Edge :=
  match side with Some s => with_B e s | None => e end.

(** The edge the rows of one id make: the first row's, with the first row of
    another key as its far end. *)
Definition group_edge (id : string) (ps : list WGPeerRow) : list Edge :=
  match ps with
  | [] => []
  | p :: rest =>
      let far := default {| n_Host := ""; n_Iface := "" |} (Lookup (endpoints lk) (pr_Key p)) in
      [with_far (tunnel_edge lk id (local_of p) p far)
         ((λ q, side_of q (local_of q)) <$> head (filter (λ q, local_of q ≠ local_of p) rest))]
  end.

Lemma fill_group id p rest q :
  fill_side id (side_of q (local_of q)) (group_edge id (p :: rest)) = group_edge id (p :: rest ++ [q]).
Proof.
  cbn [group_edge]. set (e := tunnel_edge _ _ _ _ _). rewrite list.filter_app, list.filter_cons, list.filter_nil.
  assert (∀ s, ed_ID (with_far e s) = id ∧ same_end (with_far e s) (local_of q) = bool_decide (local_of p = local_of q)) as Hf.
  { intros [s|]; (split; [done|]); unfold same_end; cbn; apply Bool.eq_true_iff_eq; by rewrite String.eqb_eq, bool_decide_eq_true. }
  cbn [fill_side]. destruct (Hf ((λ q, side_of q (local_of q)) <$> head (filter (λ q, local_of q ≠ local_of p) rest))) as [-> Hs].
  rewrite String.eqb_refl. cbn [negb es_PubKey side_of]. rewrite Hs. case_bool_decide as Hk.
  - rewrite decide_False by (intros H; by apply H). by rewrite app_nil_r.
  - rewrite decide_True by congruence. destruct (filter (λ q, local_of q ≠ local_of p) rest) as [|x l]; done.
Qed.

Definition tunnel_state (id : string) (seen : list WGPeerRow) (acc : builder * gset string) : Prop :=
  (id ∈ acc.2 ↔ filter (on_edge id) seen ≠ []) ∧
  filter (λ e, ed_ID e = id) (b_Edges acc.1) = group_edge id (filter (on_edge id) seen) ∧
  ∀ p, p ∈ seen → resolved p → edgeFor acc.1 !! tunnel_key p = Some (peer_edge_id lk p).

Lemma tunnel_key_edge p q : tunnel_key p = tunnel_key q → peer_edge_id lk p = peer_edge_id lk q ∧ (resolved p ↔ resolved q).
Proof. unfold tunnel_key, peer_edge_id, resolved. by intros [= -> -> ->]. Qed.

Lemma attributed (m : gmap TunnelKey string) seen q id :
  (∀ p, p ∈ seen → resolved p → m !! tunnel_key p = Some (peer_edge_id lk p)) → (resolved q → id = peer_edge_id lk q) →
  ∀ p, p ∈ seen ++ [q] → resolved p → <[tunnel_key q := id]> m !! tunnel_key p = Some (peer_edge_id lk p).
Proof.
  intros Hm Hid p Hp Hr. destruct (decide (tunnel_key q = tunnel_key p)) as [E|E].
  - rewrite E, lookup_insert_eq. destruct (tunnel_key_edge _ _ E) as [<- Hqp]. f_equal. by apply Hid, Hqp.
  - rewrite lookup_insert_ne by done. apply elem_of_app in Hp as [Hp| ->%list_elem_of_singleton]; [by apply Hm|done].
Qed.

Lemma addPeerEdge_tunnel id seen b es q : (¬ resolved q → ed_ID (external_edge q "") ≠ id) →
  tunnel_state id seen (b, es) → tunnel_state id (seen ++ [q]) (addPeerEdge lk (b, es) q).
Proof.
  intros Hext (Hes & Hedges & Hm). cbn [fst snd] in *. unfold tunnel_state. rewrite list.filter_app, list.filter_cons, list.filter_nil.
  unfold addPeerEdge. destruct (Lookup (endpoints lk) (pr_Key q)) as [far|] eqn:El.
  - assert (resolved q) as Hr by by exists far. fold (local_of q). change (TunnelEdgeID (local_of q) (pr_Key q)) with (peer_edge_id lk q).
    destruct (decide (peer_edge_id lk q = id)) as [Eid|Eid].
    + rewrite (decide_True (P:=on_edge id q)) by done. rewrite Eid. destruct (filter (on_edge id) seen) as [|p rest] eqn:Ef.
      * rewrite bool_decide_false by (rewrite Hes; tauto). cbn [fst snd set_edges b_Edges set_edgeFor edgeFor app]. split_and!; [set_solver| |by apply attributed].
        rewrite list.filter_app, Hedges, list.filter_cons, decide_True, list.filter_nil by done. cbn [group_edge app]. rewrite El. done.
      * rewrite bool_decide_true by (by apply Hes). cbn [fst snd fillEdgeSide set_edges b_Edges set_edgeFor edgeFor app]. split_and!; [set_solver| |by apply attributed].
        by rewrite fill_side_own, Hedges, fill_group.
    + rewrite (decide_False (P:=on_edge id q)) by (intros [_ H]; done). rewrite app_nil_r.
      case_bool_decide; cbn [fst snd fillEdgeSide set_edges b_Edges set_edgeFor edgeFor]; (split_and!; [set_solver| |by apply attributed]).
      * by rewrite fill_side_other.
      * rewrite list.filter_app, list.filter_cons, decide_False, list.filter_nil, app_nil_r by done. done.
  - assert (¬ resolved q) as Hr by (intros [x Hx]; congruence). rewrite (decide_False (P:=on_edge id q)) by (intros [H _]; done). rewrite app_nil_r.
    assert (∀ b1 n, externalNode lk b q = (b1, n) → b_Edges b1 = b_Edges b ∧ edgeFor b1 = edgeFor b) as Hsame.
    { intros b1 n. unfold externalNode, enrichEndpoint, addPhysicalHost, addNode. intros E. repeat case_match; simplify_eq; done. }
    destruct (externalNode lk b q) as [b1 n]. destruct (Hsame b1 n eq_refl) as [Ee Em].
    assert (b_Edges (addNode b1 n) = b_Edges b ∧ edgeFor (addNode b1 n) = edgeFor b) as [Ee2 Em2] by (unfold addNode; by case_bool_decide).
    cbn [fst snd set_edges b_Edges set_edgeFor edgeFor]. rewrite Ee2, Em2. split_and!; [done| |by apply attributed].
    rewrite list.filter_app, list.filter_cons, decide_False, list.filter_nil, app_nil_r; [done|]. by apply Hext.
Qed.
End tunnels.

Lemma addDeclared_edges lk b entities relations : b_Edges (addDeclared lk b entities relations) = b_Edges b ∧ edgeFor (addDeclared lk b entities relations) = edgeFor b.
Proof.
  unfold addDeclared. destruct (negb _); [done|]. destruct (layerCollectedNodes b) as [b1 byID] eqn:El. injection El as <- _.
  unfold addDeclaredRelations, aliasDeclaredEntities. cbn [set_links b_Edges edgeFor]. match goal with |- context [foldl (aliasDeclared lk ?x) _ _] => generalize x; intros eh end.
  apply (foldl_invariant (λ _ al, b_Edges (al_b al) = b_Edges b ∧ edgeFor (al_b al) = edgeFor b)); [done|]. intros _ al e [<- <-].
  assert (∀ b, b_Edges (addNode b (declaredNode e)) = b_Edges b ∧ edgeFor (addNode b (declaredNode e)) = edgeFor b) as Ha
    by (intros b'; unfold addNode; by case_bool_decide).
  unfold aliasDeclared. destruct (reconcileDeclared lk (al_b al) e (al_byID al) eh) as [b' r] eqn:Er.
  assert (b_Edges b' = b_Edges (al_b al) ∧ edgeFor b' = edgeFor (al_b al)) as [<- <-]; [|by destruct r; cbn].
  revert Er. unfold reconcileDeclared, reconcileDeclaredHost, reconcileDeclaredVM. intros Er. repeat case_match; simplify_eq/=; done.
Qed.

Section tunnel.
Context (visit : nat → gmap string Node → list (string * Node)).
Context (ifaces : list WGInterfaceRow) (peers : list WGPeerRow) (servers : list Server) (annotations : list WGEndpointAnnotation)
  (entities : list NetEntity) (relations : list NetRelation).
Notation lk := (newBuilder ifaces peers servers annotations).
Notation local_of := (local_of ifaces peers servers annotations).
Notation resolved := (resolved ifaces peers servers annotations).
Notation on_edge := (on_edge ifaces peers servers annotations).

Lemma built_edges id : (∀ r, r ∈ peers → ¬ resolved r → ed_ID (external_edge r "") ≠ id) →
  let '(t, ef) := BuildWithDeclared visit ifaces peers servers annotations entities relations in
  filter (λ e, ed_ID e = id) (Edges t) =
    group_edge ifaces peers servers annotations id (filter (on_edge id) (sort peer_less peers)) ∧
  ∀ p, p ∈ peers → resolved p → ef !! tunnel_key p = Some (peer_edge_id lk p).
Proof.
  intros Hext. unfold BuildWithDeclared. cbv zeta. cbn [Edges topology_of]. destruct (addDeclared_edges lk (collected lk) entities relations) as [-> ->].
  unfold collected. cbn [addLinks set_links b_Edges edgeFor].
  assert (∀ b, b_Edges (addAggregates lk b) = b_Edges b ∧ edgeFor (addAggregates lk b) = edgeFor b) as Ha
    by (intros b; unfold addAggregates; by destruct (foldl _ _ _)).
  destruct (Ha (addPeerEdges lk (addGateways lk start))) as [-> ->]. unfold addPeerEdges.
  destruct (lk_fields ifaces peers servers annotations) as (_ & -> & _).
  destruct (addGateways_sound lk start start_sound) as (_ & [_ _ (Ee & _ & _ & Ef & _)] & _). set (b1 := addGateways lk start) in *.
  assert (tunnel_state ifaces peers servers annotations id (sort peer_less peers) (foldl (addPeerEdge lk) (b1, ∅) (sort peer_less peers))) as (_ & H1 & H2).
  { assert (∀ r, r ∈ sort peer_less peers → ¬ resolved r → ed_ID (external_edge r "") ≠ id) as Hs.
    { intros r Hr. rewrite sort_elem_of in Hr. by apply Hext. }
    revert Hs. apply (foldl_invariant (λ seen acc, (∀ r, r ∈ seen → ¬ resolved r → ed_ID (external_edge r "") ≠ id) →
      tunnel_state ifaces peers servers annotations id seen acc)).
    - intros _. split_and!; cbn; [split; [set_solver|done]|by rewrite Ee|set_solver].
    - intros seen [b es] q IH Hs. apply addPeerEdge_tunnel; [apply Hs; set_solver|apply IH; set_solver]. }
  split; [exact H1|]. intros p Hp. apply H2. by rewrite sort_elem_of.
Qed.

(** A tunnel whose two ends were collected is one edge.  Both ends' rows are
    attributed to it, whatever the interfaces are called, and its two sides are
    the two keys, each with the host, interface and routes that one row of that
    key reported - provided no third key shares the id, which only holds the
    keys' first seven bytes. *)
Theorem tunnel_is_one_edge p q :
  p ∈ peers → q ∈ peers → resolved p → resolved q → pr_Key p = local_of q → pr_Key q = local_of p → local_of p ≠ local_of q →
  let id := peer_edge_id lk p in
  (∀ r, r ∈ peers → ¬ resolved r → ed_ID (external_edge r "") ≠ id) →
  (∀ r, r ∈ peers → on_edge id r → local_of r = local_of p ∨ local_of r = local_of q) →
  let '(t, ef) := BuildWithDeclared visit ifaces peers servers annotations entities relations in
  ef !! tunnel_key p = Some id ∧ ef !! tunnel_key q = Some id ∧
  ∃ e r s, filter (λ e, ed_ID e = id) (Edges t) = [e] ∧ r ∈ peers ∧ s ∈ peers ∧ on_edge id r ∧ on_edge id s ∧
    side_A e = Some (side_of r (local_of r)) ∧ side_B e = Some (side_of s (local_of s)) ∧
    ed_Source e = canonicalHost lk (pr_Host r) ∧
    (local_of r = local_of p ∧ local_of s = local_of q ∨ local_of r = local_of q ∧ local_of s = local_of p).
Proof.
  intros Hp Hq Hrp Hrq Hkp Hkq Hne id Hext Hkeys. pose proof (built_edges id Hext) as Hb.
  destruct (BuildWithDeclared _ _ _ _ _ _ _) as [t ef]. destruct Hb as [Hedges Hef].
  assert (peer_edge_id lk q = id) as Eq.
  { subst id. unfold peer_edge_id. fold (local_of p) (local_of q). by rewrite Hkp, Hkq, TunnelEdgeID_sym. }
  split; [by apply Hef|]. split; [rewrite Hef by done; by rewrite Eq|].
  assert (∀ r, r ∈ filter (on_edge id) (sort peer_less peers) ↔ on_edge id r ∧ r ∈ peers) as Hin
    by (intros r; by rewrite list_elem_of_filter, sort_elem_of).
  destruct (filter (on_edge id) (sort peer_less peers)) as [|r rest].
  { assert (p ∈ []) as H by (apply Hin; split; [by split|done]). by apply not_elem_of_nil in H. }
  destruct (proj1 (Hin r)) as [Hr Hr']; [by left|].
  assert (∃ x, x ∈ filter (λ q, local_of q ≠ local_of r) rest) as [x Hx].
  { setoid_rewrite list_elem_of_filter. assert (p ∈ r :: rest ∧ q ∈ r :: rest) as [H1 H2] by (split; apply Hin; split; try done; by split).
    apply elem_of_cons in H1 as [->|H1], H2 as [->|H2]; [done|by exists q|by exists p|].
    destruct (decide (local_of p = local_of r)); [exists q; split; [congruence|done]|by exists p]. }
  cbn [group_edge] in Hedges. destruct (filter (λ q, local_of q ≠ local_of r) rest) as [|s l] eqn:El; [by apply not_elem_of_nil in Hx|].
  assert (s ∈ s :: l) as Hs by by left. rewrite <-El in Hs. apply list_elem_of_filter in Hs as [Hsr Hs].
  destruct (proj1 (Hin s)) as [Hs1 Hs2]; [by right|]. eexists _, r, s. rewrite Hedges. cbn [head fmap option_fmap option_map with_far].
  split; [done|]. split_and!; [done..|]. destruct (Hkeys r Hr' Hr), (Hkeys s Hs2 Hs1); [congruence|by left|by right|congruence].
Qed.
End tunnel.

(** ** Witness: different interface names, one end under two hosts *)

Lemma tunnel_is_one_edge_witness :
  let p := demo_peer "lb-vip" "wg1" "KFAR" "" ["10.0.94.2/32"] in let q := demo_peer "far-gw" "wg-remote" "KWG1" "" ["10.0.91.0/24"] in
  fleet.2 !! tunnel_key p = Some "gw|KFAR|KWG1" ∧ fleet.2 !! tunnel_key q = Some "gw|KFAR|KWG1" ∧
  (λ e, (es_Host <$> side_A e, es_Host <$> side_B e)) <$> Edges fleet.1 = [(Some "far-gw", Some "lb-host"); (None, None)].
Proof.
  intros p q.
  assert (fleet.2 !! tunnel_key p = Some "gw|KFAR|KWG1" ∧ fleet.2 !! tunnel_key q = Some "gw|KFAR|KWG1") as [H1 H2]; [|split; [exact H1|split; [exact H2|by vm_compute]]].
  pose proof (tunnel_is_one_edge in_map_order fleet_ifaces fleet_peers fleet_servers [] fleet_entities fleet_relations p q) as H.
  unfold fleet. destruct (BuildWithDeclared _ _ _ _ _ _ _) as [t ef]. cbv zeta in H.
  change (peer_edge_id _ p) with "gw|KFAR|KWG1" in H. destruct H as (Hp & Hq & _); [| | | | | | | | |exact (conj Hp Hq)].
  1-2: set_solver.
  1-2: eexists; vm_compute; reflexivity.
  1-2: reflexivity.
  - vm_compute. discriminate.
  - intros r Hr Hx E. assert (Forall (λ r, ed_ID (external_edge r "") ≠ "gw|KFAR|KWG1") fleet_peers) as Hf by (apply (bool_decide_unpack _); by vm_compute).
    rewrite Forall_forall in Hf. by apply (Hf r Hr).
  - intros r Hr _. unfold fleet_peers in Hr. repeat (apply elem_of_cons in Hr as [->|Hr]; [(by left) || by right|]). by apply not_elem_of_nil in Hr.
Defined.
