(* ===== verification/InvMemory.v ===== *)
(** Inventory reads answered from the snapshot (internal/invcache/memory.go):
    host resolution and the listings an offline command uses in place of the
    Postgres queries.

    The Go methods hand out copies; a model value is one already. *)

From Stdlib Require Import Ascii String ZArith Lia.
From S2P Require Import Prelude GoStrings InvCache NetIP.
Local Open Scope Z_scope.

Definition newline : rune := 10.
Definition percent : rune := 37.
Definition underscore : rune := 95.
Definition backslash : rune := 92.

(** A nil [Memory], or one over a nil snapshot, is [None]. *)
Definition Memory : Type := option Snapshot.

Definition rows (m : Memory) : list ServerWithStatus := match m with Some s => Servers s | None => [] end.

Definition find_host (m : Memory) (hostname : string) : option ServerWithStatus :=
  head (filter (λ r, Hostname (server r) = hostname) (rows m)).

(** [None] is [ErrNotFound]. *)
Definition Get (m : Memory) (hostname : string) : option Server := server <$> find_host m hostname.

Definition containsIP (l : list string) (ip : IP) : bool := existsb (λ s, bool_decide (ParseIP s = Some ip)) l.

Definition rowHasIP (r : ServerWithStatus) (ip : IP) : bool :=
  bool_decide (ParseIP (InvCache.IP (server r)) = Some ip) || containsIP (ExtraIPs (server r)) ip ||
  match status r with Some st => containsIP (ObservedIPs st) ip | None => false end.

(** The pieces of the compiled pattern: a quoted character, [.], and [.*]. *)
Inductive piece := Quoted (c : rune) | AnyOne | AnyRun.

Definition piece_of (c : rune) : piece := if c =? percent then AnyRun else if c =? underscore then AnyOne else Quoted c.

Definition likeContains (q : string) : list piece := piece_of <$> runes q.

(** [fold r] stands for the runes [(?i)] takes for [r]: those that
    [unicode.SimpleFold] goes through from it. *)
Section folding.
Context (fold : rune → rune).

(** What the compiled pattern matches; a dot does not match a newline. *)
Fixpoint match_here (re : list piece) (s : list rune) : bool :=
  match re with
  | [] => true
  | Quoted c :: re' => match s with d :: s' => (fold c =? fold d) && match_here re' s' | [] => false end
  | AnyOne :: re' => match s with d :: s' => negb (d =? newline) && match_here re' s' | [] => false end
  | AnyRun :: re' =>
      (fix run (s : list rune) : bool := match_here re' s || match s with d :: s' => negb (d =? newline) && run s' | [] => false end) s
  end.

Fixpoint match_from (re : list piece) (s : list rune) : bool :=
  match_here re s || match s with _ :: s' => match_from re s' | [] => false end.

Definition MatchString (re : list piece) (s : string) : bool := match_from re (runes s).

Definition matches (query : string) (r : ServerWithStatus) : bool :=
  match ParseIP query with
  | Some ip => rowHasIP r ip
  | None => MatchString (likeContains query) (Hostname (server r))
  end.

Definition host_less : Server → Server → bool := less_on string_ltb Hostname.

(** The server, or the candidates. *)
Definition Resolve (m : Memory) (query : string) : option Server * list Server :=
  match Get m query with
  | Some sv => (Some sv, [])
  | None =>
      match sort host_less (server <$> filter (λ r, matches query r = true) (rows m)) with
      | [c] => (Some c, [])
      | cands => (None, cands)
      end
  end.

Definition filtered (m : Memory) (dc : string) : list ServerWithStatus :=
  if String.eqb dc "" then rows m else filter (λ r, DC (server r) = dc) (rows m).

Definition List_ (m : Memory) (dc : string) : list Server := server <$> filtered m dc.
Definition ListWithStatus (m : Memory) (dc : string) : list ServerWithStatus := filtered m dc.
Definition WithStatus (m : Memory) (hostname : string) : option ServerWithStatus := find_host m hostname.

(** *** The listing row (internal/store) *)

Record InventoryRow := { inv_server : Server; Addresses : list string; AgentSeen : option time_t; inv_AgentVersion : string }.

Definition add_address (out : list string) (ip : string) : list string :=
  if String.eqb ip "" || bool_decide (ip ∈ out) then out else out ++ [ip].

Definition mergeAddresses (primary : string) (sets : list (list string)) : list string :=
  foldl add_address (add_address [] primary) (concat sets).

Definition InventoryRow_of (w : ServerWithStatus) : InventoryRow :=
  {| inv_server := server w;
     Addresses := mergeAddresses (InvCache.IP (server w)) [ExtraIPs (server w); match status w with Some st => ObservedIPs st | None => [] end];
     AgentSeen := st ← status w; (if IsZero (LastSeenAt st) then None else Some (LastSeenAt st));
     inv_AgentVersion := match status w with Some st => AgentVersion st | None => "" end |}.

Definition ListInventory (m : Memory) (dc : string) : list InventoryRow := InventoryRow_of <$> filtered m dc.

(** ** What the queries ask

    Postgres's [ILIKE], by characters: [%], [_], a backslash that quotes what
    follows, and letters in either case.  The database's locale is taken to fold
    letters as Go does, and the texts to be UTF-8, as Postgres has them. *)

Inductive ilike : list rune → list rune → Prop :=
| like_end : ilike [] []
| like_run_end p s : ilike p s → ilike (percent :: p) s
| like_run c p s : ilike (percent :: p) s → ilike (percent :: p) (c :: s)
| like_one c p s : ilike p s → ilike (underscore :: p) (c :: s)
| like_quoted c d p s : fold c = fold d → ilike p s → ilike (backslash :: c :: p) (d :: s)
| like_char c d p s : c ≠ percent → c ≠ underscore → c ≠ backslash → fold c = fold d → ilike p s → ilike (c :: p) (d :: s).

(** [hostname ILIKE '%'||q||'%']. *)
Definition ilike_contains (q h : string) : Prop := ilike (percent :: runes q ++ [percent]) (runes h).

(** ** Patterns *)




Lemma like_all s : ilike [percent] s.
Proof. induction s as [|c s IH]; [apply like_run_end, like_end|by apply like_run]. Qed.



(** ** Resolution *)

(** Every address a host answers on. *)
Definition addresses (r : ServerWithStatus) : list string :=
  InvCache.IP (server r) :: ExtraIPs (server r) ++ match status r with Some st => ObservedIPs st | None => [] end.

(** What the online query selects. *)
Definition selected (query : string) (r : ServerWithStatus) : Prop :=
  match ParseIP query with
  | Some ip => ∃ a, a ∈ addresses r ∧ ParseIP a = Some ip
  | None => ilike_contains query (Hostname (server r))
  end.





Lemma find_host_unique m hostname r : NoDup ((λ r, Hostname (server r)) <$> rows m) → r ∈ rows m → Hostname (server r) = hostname →
  find_host m hostname = Some r.
Proof.
  unfold find_host. intros Hnd Hr <-. induction (rows m) as [|x l IH]; [by apply not_elem_of_nil in Hr|].
  rewrite fmap_cons in Hnd. apply NoDup_cons in Hnd as [Hx Hnd]. rewrite list.filter_cons. apply elem_of_cons in Hr as [<-|Hr].
  - by rewrite decide_True.
  - rewrite decide_False; [by apply IH|]. intros E. apply Hx. rewrite E. by apply (list_elem_of_fmap_2 (λ r, Hostname (server r))).
Qed.

Lemma find_host_Some m hostname r : find_host m hostname = Some r → r ∈ rows m ∧ Hostname (server r) = hostname.
Proof.
  unfold find_host. intros H. assert (r ∈ filter (λ r, Hostname (server r) = hostname) (rows m)) as Hr.
  { destruct (filter _ _); [done|]. injection H as ->. by left. }
  apply list_elem_of_filter in Hr. tauto.
Qed.


#[local] Arguments sort : simpl never.


Lemma hosts_NoDup rs (P : ServerWithStatus → Prop) `{!∀ x, Decision (P x)} : NoDup ((λ r, Hostname (server r)) <$> rs) → NoDup (Hostname <$> (server <$> filter P rs)).
Proof.
  intros Hn. rewrite <-list_fmap_compose. induction rs as [|r rs IH]; [constructor|]. rewrite fmap_cons in Hn.
  apply NoDup_cons in Hn as [Hr Hrs]. rewrite list.filter_cons. case_decide as Hd; [|by apply IH]. rewrite fmap_cons. constructor; [|by apply IH].
  intros (x & Ex & Hx)%list_elem_of_fmap. apply list_elem_of_filter in Hx as [_ Hx]. apply Hr. unfold compose in Ex. rewrite Ex.
  by apply (list_elem_of_fmap_2 (λ r, Hostname (server r))).
Qed.




(** ** Listings *)

Lemma add_address_elem out ip a : a ∈ add_address out ip ↔ a ∈ out ∨ (a = ip ∧ a ≠ "").
Proof.
  unfold add_address. destruct (String.eqb_spec ip "") as [->|Hne]; cbn [orb]; [naive_solver|].
  case_bool_decide; [naive_solver|]. rewrite elem_of_app, list_elem_of_singleton. naive_solver.
Qed.

Lemma add_address_NoDup out ip : NoDup out → NoDup (add_address out ip).
Proof.
  intros H. unfold add_address. destruct (String.eqb ip ""); cbn [orb]; [done|]. case_bool_decide; [done|].
  apply NoDup_app. split_and!; [done|set_solver|apply NoDup_singleton].
Qed.

Lemma add_addresses_prefix ips out : out `prefix_of` foldl add_address out ips.
Proof.
  apply (foldl_invariant (λ _ l, out `prefix_of` l)); [done|]. intros _ l ip H. unfold add_address.
  case_if; [done|]. by apply prefix_app_r.
Qed.

Lemma mergeAddresses_spec primary sets : let l := mergeAddresses primary sets in
  NoDup l ∧ (∀ a, a ∈ l ↔ a ≠ "" ∧ a ∈ primary :: concat sets) ∧ (primary ≠ "" → head l = Some primary).
Proof.
  cbv zeta. split_and!.
  - unfold mergeAddresses. apply (foldl_invariant (λ _, NoDup)); [apply add_address_NoDup, NoDup_nil_2|intros; by apply add_address_NoDup].
  - unfold mergeAddresses. apply (foldl_invariant (λ seen l, ∀ a, a ∈ l ↔ a ≠ "" ∧ a ∈ primary :: seen)).
    + intros a. rewrite add_address_elem. set_solver.
    + intros seen l ip IH a. rewrite add_address_elem, IH. set_solver.
  - intros Hne. destruct (add_addresses_prefix (concat sets) (add_address [] primary)) as [l E].
    unfold mergeAddresses. rewrite E. unfold add_address. rewrite (proj2 (String.eqb_neq _ _) Hne). cbn [orb].
    by rewrite bool_decide_false by apply not_elem_of_nil.
Qed.

Lemma filtered_spec m dc r : r ∈ filtered m dc ↔ (dc = "" ∨ DC (server r) = dc) ∧ r ∈ rows m.
Proof.
  unfold filtered. destruct (String.eqb_spec dc "") as [->|Hne]; [tauto|]. rewrite list_elem_of_filter. tauto.
Qed.

Lemma filtered_sorted m dc : StronglySorted (not_after server_less) (rows m) → StronglySorted (not_after server_less) (filtered m dc).
Proof.
  unfold filtered. destruct (String.eqb dc ""); [done|]. induction 1 as [|r l _ IH Hr]; [constructor|]. rewrite list.filter_cons.
  case_decide; [|done]. constructor; [done|]. rewrite Forall_forall in *. intros x [_ Hx]%list_elem_of_filter. by apply Hr.
Qed.

(** The offline listings are the online ones.  From a captured inventory
    with one row per host, a listing holds exactly the hosts of the data centre,
    or all of them, once each and in (data centre, name) order; the plain, the
    status and the address listings are of the same rows; a listed host's
    addresses are its primary, declared and observed ones, without repeats or
    blanks and the primary first; and a single host's row is the listing's. *)
Theorem listings_are_the_inventory rs snap now dc :
  NoDup ((λ r, Hostname (server r)) <$> rs) →
  let m := Some (SetInventory snap rs now) in
  (StronglySorted (not_after server_less) (ListWithStatus m dc) ∧ NoDup (Hostname <$> List_ m dc) ∧
   ∀ r, r ∈ ListWithStatus m dc ↔ (dc = "" ∨ DC (server r) = dc) ∧ r ∈ rs) ∧
  List_ m dc = server <$> ListWithStatus m dc ∧ List_ m dc = inv_server <$> ListInventory m dc ∧
  (∀ row, row ∈ ListInventory m dc → ∃ r, r ∈ ListWithStatus m dc ∧ inv_server row = server r ∧ NoDup (Addresses row) ∧
     (∀ a, a ∈ Addresses row ↔ a ≠ "" ∧ a ∈ addresses r) ∧
     (InvCache.IP (server r) ≠ "" → head (Addresses row) = Some (InvCache.IP (server r)))) ∧
  (∀ h r, WithStatus m h = Some r ↔ r ∈ ListWithStatus m "" ∧ Hostname (server r) = h).
Proof.
  intros Hnd m. assert (rows m ≡ₚ rs) as Hp by apply sort_perm.
  assert (NoDup ((λ r, Hostname (server r)) <$> rows m)) as Hnd' by by rewrite Hp.
  assert (∀ r, r ∈ ListWithStatus m dc ↔ (dc = "" ∨ DC (server r) = dc) ∧ r ∈ rs) as Hel.
  { intros r. unfold ListWithStatus. by rewrite filtered_spec, Hp. }
  split_and!.
  - apply filtered_sorted, sort_sorted, _.
  - unfold List_, filtered. destruct (String.eqb dc ""); [|by apply hosts_NoDup]. by rewrite <-list_fmap_compose.
  - done.
  - done.
  - unfold List_, ListInventory. by rewrite <-list_fmap_compose.
  - intros row (r & -> & Hr)%list_elem_of_fmap. exists r. split; [done|]. split; [done|].
    destruct (mergeAddresses_spec (InvCache.IP (server r)) [ExtraIPs (server r); match status r with Some st => ObservedIPs st | None => [] end]) as (H1 & H2 & H3).
    split_and!; [done| |done]. intros a. unfold InventoryRow_of, addresses. cbn [Addresses]. rewrite H2. cbn [concat]. by rewrite app_nil_r.
  - intros h r. unfold WithStatus, ListWithStatus. rewrite filtered_spec. split.
    + intros [H1 H2]%find_host_Some. auto.
    + intros [[_ Hr] Hh]. by apply find_host_unique.
Qed.

End folding.

(** ** Examples *)

(** Folding of ASCII letters. *)
Definition lower_rune (r : rune) : rune := if (65 <=? r) && (r <=? 90) then r + 32 else r.
Definition resolve : Memory → string → option Server * list Server := Resolve lower_rune.

Definition host (name ip dc : string) (observed : list string) : ServerWithStatus :=
  {| server := {| Hostname := name; InvCache.IP := ip; Port := 22; User := "ubuntu"; JumpVia := ""; DC := dc; CARole := ""; CAKeyVersion := 0;
                  LastSeenUp := None; ExtraIPs := []; ServerState := "" |};
     status := Some {| StatusHostname := name; LastSeenAt := 1; AgentVersion := "v1"; OS := ""; Kernel := ""; UptimeSeconds := 0; Load1 := None;
                       MemoryUsedPct := None; DiskRootUsedPct := None; ObservedIPs := observed; MountCount := None; CollectMs := None |} |}.

Definition fleet : list ServerWithStatus :=
  [host "sre_srv-0047" "192.0.2.1" "seoul" ["192.0.2.1"; "2001:db8::1"]; host "SRE-srv-0048" "10.0.0.8" "seoul" []; host "gw" "10.0.0.9" "incheon" []].
Definition fleet_memory : Memory := Some (SetInventory empty_snapshot fleet 5).


(** A wildcard stands for a character, whatever its length. *)
Example a_character_is_one : let h := "a" +:+ String "195" (String "169" "b") in
  (MatchString lower_rune (likeContains "A_B") h, MatchString lower_rune (likeContains "a__b") h) = (true, false).
Proof. reflexivity. Qed.

Lemma listings_are_the_inventory_witness :
  (Hostname <$> List_ fleet_memory "seoul") = ["SRE-srv-0048"; "sre_srv-0047"] ∧ NoDup (Hostname <$> List_ fleet_memory "seoul").
Proof.
  split; [vm_compute; reflexivity|].
  refine (proj1 (proj2 (proj1 (listings_are_the_inventory fleet empty_snapshot 5 "seoul" _)))).
  by apply (bool_decide_unpack _); vm_compute.
Defined.

(** Two claims made of this comparison do not hold.  A query padded with
    zeros is not an address, so it does not find the host its plain form does;
    and a backslash, which quotes in the query's pattern, is an ordinary
    character offline, so a host found online is not found. *)
Theorem comparisons_that_differ :
  (∃ sv, resolve fleet_memory "192.0.2.1" = (Some sv, []) ∧ resolve fleet_memory "192.000.002.001" = (None, [])) ∧
  (∃ r, r ∈ rows fleet_memory ∧ selected lower_rune "sre\_srv" r ∧ resolve fleet_memory "sre\_srv" = (None, [])).
Proof.
  split.
  - eexists. split; vm_compute; reflexivity.
  - exists (host "sre_srv-0047" "192.0.2.1" "seoul" ["192.0.2.1"; "2001:db8::1"]). split_and!; [|change (ilike_contains lower_rune "sre\_srv" "sre_srv-0047")|vm_compute; reflexivity].
    + cbn [rows fleet_memory SetInventory Servers]. unfold sortServers. rewrite sort_elem_of. by left.
    + unfold ilike_contains. assert (runes "sre\_srv" = [115; 114; 101; 92; 95; 115; 114; 118]) as -> by reflexivity.
      assert (runes "sre_srv-0047" = [115; 114; 101; 95; 115; 114; 118; 45; 48; 48; 52; 55]) as -> by reflexivity. apply like_run_end. do 3 (apply like_char; [done..|]). apply like_quoted; [done|].
      do 3 (apply like_char; [done..|]). apply like_all.
Qed.
