(* ===== verification/Assessment.v ===== *)
(** The judgement of a deployment (internal/openstack/assessment.go): what its
    hosts, VMs and last reconcile add up to, and what about it is odd.

    The Go code fills one [Assessment] in phases; here each phase returns what
    it files, and [Assess] puts the parts together in the same order. *)

From stdpp Require Import fin_maps fin_map_dom.
From S2P Require Import Prelude GoStrings Membership NovaApi Reconcile OpenStackFold.

(** ** Data *)

Definition AnomalyGhost : string := "ghost-host".
Definition AnomalyUnsettled : string := "unsettled".
Definition AnomalyConflict : string := "conflict".
Definition AnomalyRoleDown : string := "role-down".
Definition AnomalyDrift : string := "release-drift".
Definition AnomalyStale : string := "stale".
Definition AnomalyNeverRun : string := "never-reconciled".
Definition AnomalyReconcileNG : string := "reconcile-failing".
Definition AnomalyVMMissing : string := "vm-missing".
Definition AnomalyCATrust : string := "ca-trust-half".

Definition SeverityWarn : string := "warn".
Definition SeverityError : string := "error".

Definition StateBroken : string := "broken".

Definition VendordataOn : string := "on".
Definition VendordataOff : string := "off".
Definition VendordataNoFile : string := "config-without-file".
Definition VendordataNoConfig : string := "file-without-config".

Record Anomaly := { Kind : string; Subject : string; Detail : string; Severity : string; Expected : bool }.
#[export] Instance anomaly_eq_dec : EqDecision Anomaly.
Proof. solve_decision. Defined.

Record RoleMember := { rm_Hostname : string; rm_Release : string; rm_Roles : Z; rm_Down : bool; AlsoIn : string; VMs : Z }.
Record RoleSection := { sec_Role : string; sec_Hosts : list RoleMember; sec_Down : Z }.
Record CATrust := { ca_State : string; ca_Hosts : gmap string string }.
Record Freshness := { LastSuccess : option time_t; LastAttempt : option time_t; fr_Complete : bool; fr_Error : string; Stale : bool }.

Record ReconcileRun := { StartedAt : time_t; SucceededAt : option time_t; run_Complete : bool; run_LastError : string }.
Record GhostHost := { NovaHostname : string; FirstSeenAt : time_t }.

Record Input := {
  in_ID : string; in_Name : string; in_Region : string; in_Dashboard : list string;
  in_State : string; in_StateNote : string; in_StateSince : option time_t;
  in_Hosts : list OpenStackHost; in_Instances : list StoreInstance; Run : option ReconcileRun; Ghosts : list GhostHost;
  StaleAfter : duration; in_Now : time_t;
}.

(** The nested structs of the Go record are flattened. *)
Record Assessment := {
  a_ID : string; a_Name : string; a_Region : string; a_State : string; a_StateNote : string; a_StateSince : option time_t;
  Sections : list RoleSection; arch_Hosts : Z; arch_VMs : Z;
  m_Confirmed : Z; m_Total : Z; Unsettled : list string;
  RolesDown : Z; HostsDown : Z; VMsMissing : Z;
  a_Freshness : Freshness; ByRelease : gmap string Z; Drifting : bool; a_CATrust : CATrust;
  Dashboard : list string; Anomalies : list Anomaly;
}.

Definition roleOrder : list string :=
  ["controller"; "compute"; "network"; "block-storage"; "image"; "identity"; "dashboard"; "orchestration"; "load-balancer"].

Definition warn (kind subject detail : string) : Anomaly :=
  {| Kind := kind; Subject := subject; Detail := detail; Severity := SeverityWarn; Expected := false |}.
Definition error_ (kind subject detail : string) : Anomaly :=
  {| Kind := kind; Subject := subject; Detail := detail; Severity := SeverityError; Expected := false |}.

(** ** One host *)

Definition ContainsFold (l : list string) (want : string) : bool := existsb (λ s, EqualFold s want) l.

(** The loop of [ReleaseOf] over the sorted names. *)
Fixpoint release_go (comps : gmap string CapabilityComponent) (names : list string) (fallback : string) : string :=
  match names with
  | [] => if String.eqb fallback "" then "-" else fallback
  | n :: names' =>
      match comps !! n with
      | Some c =>
          if String.eqb (cc_Version c) "" then release_go comps names' fallback
          else if cc_Active c || negb (cc_Service c) then cc_Version c
          else release_go comps names' (if String.eqb fallback "" then cc_Version c else fallback)
      | None => release_go comps names' fallback
      end
  end.

Definition ReleaseOf (h : OpenStackHost) : string :=
  match Components h !! "nova-compute" with
  | Some c => if String.eqb (cc_Version c) "" then release_go (Components h) (sort_strings (map_to_list (Components h)).*1) "" else cc_Version c
  | None => release_go (Components h) (sort_strings (map_to_list (Components h)).*1) ""
  end.

Definition caTrustRank (state : string) : Z :=
  if String.eqb state VendordataOn then 1 else if String.eqb state VendordataOff then 2
  else if String.eqb state VendordataNoConfig then 3 else if String.eqb state VendordataNoFile then 4 else 0.

Definition caTrustAnomaly (c : CATrust) : string :=
  if String.eqb (ca_State c) VendordataNoFile then
    "the metadata service is configured for vendordata but the file is not there — the mount is not optional, so it will fail to start when anything restarts it"
  else if String.eqb (ca_State c) VendordataNoConfig then
    "the vendordata file is in place and the service that answers instance metadata does not read it — new VMs get an empty vendor_data.json and will not trust the SSH CA"
  else "".

(** ** VMs *)

Definition live (v : StoreInstance) : bool := bool_decide (si_MissingSince v = None).

Definition assessVMs (instances : list StoreInstance) : gmap string Z * Z * Z :=
  let '(tally, missing) :=
    foldl (λ acc v,
      if live v then (<[si_HypervisorHostname v := default 0 (acc.1 !! si_HypervisorHostname v) + 1]> acc.1, acc.2)
      else (acc.1, acc.2 + 1)) (∅, 0) instances in
  (tally, missing, Z.of_nat (length instances) - missing).

(** ** Hosts *)

Record HostFacts := {
  hf_Total : Z; hf_Confirmed : Z; hf_Unsettled : list string; hf_HostsDown : Z; hf_ByRelease : gmap string Z;
  hf_Dashboard : list string; hf_CATrust : CATrust; hf_Anomalies : list Anomaly; byRole : gmap string (list OpenStackHost);
}.

Definition conflict_anomaly (h : OpenStackHost) : Anomaly :=
  error_ AnomalyConflict (h_Hostname h) "the evidence disagrees about which deployment this host belongs to".

Definition host_dashboard (d : list string) (h : OpenStackHost) : list string :=
  let v := default "" (Details h !! "horizon_url") in
  if negb (String.eqb v "") && (length d =? 0)%nat then d ++ [v] ++ Fields (default "" (Details h !! "horizon_alt")) else d.

Definition host_catrust (c : CATrust) (h : OpenStackHost) : CATrust :=
  let v := default "" (Details h !! "vendordata") in
  if String.eqb v "" then c
  else {| ca_State := if caTrustRank (ca_State c) <? caTrustRank v then v else ca_State c; ca_Hosts := <[h_Hostname h := v]> (ca_Hosts c) |}.

Definition add_roles (m : gmap string (list OpenStackHost)) (h : OpenStackHost) : gmap string (list OpenStackHost) :=
  foldl (λ m r, <[r := default [] (m !! r) ++ [h]]> m) m (Roles h).

Definition host_step (a : HostFacts) (h : OpenStackHost) : HostFacts :=
  let c := h_Confidence h in
  {| hf_Total := hf_Total a + 1;
     hf_Confirmed := if String.eqb c Confirmed then hf_Confirmed a + 1 else hf_Confirmed a;
     hf_Unsettled := if String.eqb c Confirmed then hf_Unsettled a else hf_Unsettled a ++ [h_Hostname h +:+ " (" +:+ c +:+ ")"];
     hf_HostsDown := if (0 <? length (Roles h))%nat && (length (ActiveRoles h) =? 0)%nat then hf_HostsDown a + 1 else hf_HostsDown a;
     hf_ByRelease := <[ReleaseOf h := default 0 (hf_ByRelease a !! ReleaseOf h) + 1]> (hf_ByRelease a);
     hf_Dashboard := host_dashboard (hf_Dashboard a) h;
     hf_CATrust := host_catrust (hf_CATrust a) h;
     hf_Anomalies := if negb (String.eqb c Confirmed) && String.eqb c Conflict then hf_Anomalies a ++ [conflict_anomaly h] else hf_Anomalies a;
     byRole := add_roles (byRole a) h |}.

Definition host_start (dashboard : list string) : HostFacts :=
  {| hf_Total := 0; hf_Confirmed := 0; hf_Unsettled := []; hf_HostsDown := 0; hf_ByRelease := ∅; hf_Dashboard := dashboard;
     hf_CATrust := {| ca_State := ""; ca_Hosts := ∅ |}; hf_Anomalies := []; byRole := ∅ |}.

Definition assessHosts (inp : Input) : HostFacts :=
  let a := foldl host_step (host_start (in_Dashboard inp)) (in_Hosts inp) in
  let d := caTrustAnomaly (hf_CATrust a) in
  if String.eqb d "" then a
  else {| hf_Total := hf_Total a; hf_Confirmed := hf_Confirmed a; hf_Unsettled := hf_Unsettled a; hf_HostsDown := hf_HostsDown a;
          hf_ByRelease := hf_ByRelease a; hf_Dashboard := hf_Dashboard a; hf_CATrust := hf_CATrust a;
          hf_Anomalies := hf_Anomalies a ++ [error_ AnomalyCATrust (in_ID inp) d]; byRole := byRole a |}.

(** ** Roles *)

Definition role_rank (r : string) : option Z :=
  (λ p, Z.of_nat p.1) <$> list_find (eq r) roleOrder.

Definition role_less (a b : string) : bool :=
  match role_rank a, role_rank b with
  | Some i, Some j => i <? j
  | Some _, None => true
  | None, Some _ => false
  | None, None => string_ltb a b
  end.

Definition orderedRoles (m : gmap string (list OpenStackHost)) : list string := sort role_less (map_to_list m).*1.

Record RoleFacts := {
  rf_Sections : list RoleSection; rf_RolesDown : Z; rf_Anomalies : list Anomaly; firstSeen : gmap string string;
}.

Definition role_down_anomaly (h : OpenStackHost) (role : string) : Anomaly :=
  warn AnomalyRoleDown (h_Hostname h) ("holds " +:+ role +:+ " with nothing running behind it").

(** One host of a section; the section so far is the second component. *)
Definition member_step (vms : gmap string Z) (role : string) (acc : RoleFacts * RoleSection) (h : OpenStackHost) : RoleFacts * RoleSection :=
  let '(f, sec) := acc in
  let down := negb (ContainsFold (ActiveRoles h) role) in
  let m := {| rm_Hostname := h_Hostname h; rm_Release := ReleaseOf h; rm_Roles := Z.of_nat (length (Roles h)); rm_Down := down;
              AlsoIn := default "" (firstSeen f !! h_Hostname h); VMs := default 0 (vms !! h_Hostname h) |} in
  ({| rf_Sections := rf_Sections f; rf_RolesDown := if down then rf_RolesDown f + 1 else rf_RolesDown f;
      rf_Anomalies := if down then rf_Anomalies f ++ [role_down_anomaly h role] else rf_Anomalies f;
      firstSeen := match firstSeen f !! h_Hostname h with Some _ => firstSeen f | None => <[h_Hostname h := role]> (firstSeen f) end |},
   {| sec_Role := sec_Role sec; sec_Hosts := sec_Hosts sec ++ [m]; sec_Down := if down then sec_Down sec + 1 else sec_Down sec |}).

Definition section_step (by_role : gmap string (list OpenStackHost)) (vms : gmap string Z) (f : RoleFacts) (role : string) : RoleFacts :=
  let hs := sort (less_on string_ltb h_Hostname) (default [] (by_role !! role)) in
  let '(f, sec) := foldl (member_step vms role) (f, {| sec_Role := role; sec_Hosts := []; sec_Down := 0 |}) hs in
  {| rf_Sections := rf_Sections f ++ [sec]; rf_RolesDown := rf_RolesDown f; rf_Anomalies := rf_Anomalies f; firstSeen := firstSeen f |}.

Definition role_start : RoleFacts := {| rf_Sections := []; rf_RolesDown := 0; rf_Anomalies := []; firstSeen := ∅ |}.

Definition assessRoles (by_role : gmap string (list OpenStackHost)) (vms : gmap string Z) : RoleFacts :=
  foldl (section_step by_role vms) role_start (orderedRoles by_role).

(** ** The deployment as a whole *)

Definition assessFreshness (r : option ReconcileRun) (staleAfter : duration) (now : time_t) : Freshness :=
  match r with
  | None => {| LastSuccess := None; LastAttempt := None; fr_Complete := false; fr_Error := ""; Stale := false |}
  | Some r =>
      {| LastSuccess := SucceededAt r; LastAttempt := Some (StartedAt r); fr_Complete := run_Complete r;
         fr_Error := if negb (String.eqb (run_LastError r) "") &&
                        match SucceededAt r with None => true | Some t => After (StartedAt r) t end
                     then run_LastError r else "";
         Stale := (0 <? staleAfter) && match SucceededAt r with None => false | Some t => staleAfter <? Sub now t end |}
  end.

Definition release_less (m : gmap string Z) (a b : string) : bool :=
  less_then (λ x y, y <? x) (λ r, default 0 (m !! r)) string_ltb a b.

Definition releaseSummary (m : gmap string Z) : string := Join (sort (release_less m) (map_to_list m).*1) ", ".

Section assess.
(** A time's date as [2006-01-02] in its own zone, and [time.Now]. *)
Context (day : time_t → string) (clock : time_t).

Definition ghost_anomaly (g : GhostHost) : Anomaly :=
  warn AnomalyGhost (NovaHostname g)
    ("the control plane has known this host since " +:+ day (FirstSeenAt g) +:+ " and the inventory does not have it").

Definition run_anomalies (inp : Input) (f : Freshness) : list Anomaly :=
  match Run inp with
  | None => [warn AnomalyNeverRun (in_ID inp) "no reconcile has been recorded, so membership rests on local evidence alone"]
  | Some _ =>
      if negb (String.eqb (fr_Error f) "") then [error_ AnomalyReconcileNG (in_ID inp) ("the last reconcile failed: " +:+ fr_Error f)]
      else if Stale f then [warn AnomalyStale (in_ID inp) "nothing has reconciled this deployment recently"]
      else []
  end.

(** What is appended, given the releases, the freshness and the missing VMs. *)
Definition aggregateAnomalies (inp : Input) (by_release : gmap string Z) (f : Freshness) (missing : Z) : list Anomaly :=
  (if (1 <? size by_release)%nat
   then [warn AnomalyDrift (in_ID inp) ("more than one release in one deployment: " +:+ releaseSummary by_release)] else []) ++
  run_anomalies inp f ++ (ghost_anomaly <$> Ghosts inp) ++
  (if 0 <? missing then [warn AnomalyVMMissing (in_ID inp) "the control plane no longer lists VMs it listed before"] else []).

Definition expectedUnder (state kind : string) : bool :=
  if bool_decide (kind ∈ [AnomalyReconcileNG; AnomalyStale; AnomalyRoleDown; AnomalyVMMissing; AnomalyCATrust]) then
    String.eqb state StateBroken || String.eqb state StateMaintenance || String.eqb state StateRetired
  else if bool_decide (kind ∈ [AnomalyNeverRun; AnomalyUnsettled]) then String.eqb state StateRetired
  else false.

Definition mark_expected (state : string) (x : Anomaly) : Anomaly :=
  if expectedUnder state (Kind x)
  then {| Kind := Kind x; Subject := Subject x; Detail := Detail x; Severity := Severity x; Expected := true |} else x.

(** Errors first, then by kind and subject. *)
Definition anomaly_less : Anomaly → Anomaly → bool :=
  less_then (λ x y, x && negb y) (λ x, String.eqb (Severity x) SeverityError)
    (less_then string_ltb Kind (less_on string_ltb Subject)).

Definition finalizeAnomalies (state : string) (l : list Anomaly) : list Anomaly :=
  sort anomaly_less (if String.eqb state StateActive then l else mark_expected state <$> l).

Definition Assess (inp : Input) : Assessment :=
  let now := if IsZero (in_Now inp) then clock else in_Now inp in
  let state := if String.eqb (in_State inp) "" then StateActive else in_State inp in
  let '(tally, missing, vms) := assessVMs (in_Instances inp) in
  let hf := assessHosts inp in
  let rf := assessRoles (byRole hf) tally in
  let f := assessFreshness (Run inp) (StaleAfter inp) now in
  {| a_ID := in_ID inp; a_Name := in_Name inp; a_Region := in_Region inp; a_State := state;
     a_StateNote := in_StateNote inp; a_StateSince := in_StateSince inp;
     Sections := rf_Sections rf; arch_Hosts := hf_Total hf; arch_VMs := vms;
     m_Confirmed := hf_Confirmed hf; m_Total := hf_Total hf; Unsettled := sort_strings (hf_Unsettled hf);
     RolesDown := rf_RolesDown rf; HostsDown := hf_HostsDown hf; VMsMissing := missing;
     a_Freshness := f; ByRelease := hf_ByRelease hf; Drifting := (1 <? size (hf_ByRelease hf))%nat; a_CATrust := hf_CATrust hf;
     Dashboard := hf_Dashboard hf;
     Anomalies := finalizeAnomalies state (hf_Anomalies hf ++ rf_Anomalies rf ++ aggregateAnomalies inp (hf_ByRelease hf) f missing) |}.
End assess.

(** ** What the host walk files *)

#[local] Arguments sort : simpl never.

Definition vendordata (h : OpenStackHost) : string := default "" (Details h !! "vendordata").

Lemma host_fold inp : let a := foldl host_step (host_start (in_Dashboard inp)) (in_Hosts inp) in let hs := in_Hosts inp in
  hf_Total a = Z.of_nat (length hs) ∧
  hf_Confirmed a = Z.of_nat (length (filter (λ h, h_Confidence h = Confirmed) hs)) ∧
  hf_Unsettled a = (λ h, h_Hostname h +:+ " (" +:+ h_Confidence h +:+ ")") <$> filter (λ h, h_Confidence h ≠ Confirmed) hs ∧
  hf_HostsDown a = Z.of_nat (length (filter (λ h, Roles h ≠ [] ∧ ActiveRoles h = []) hs)) ∧
  hf_Anomalies a = conflict_anomaly <$> filter (λ h, h_Confidence h = Conflict) hs.
Proof.
  cbv zeta. apply (foldl_invariant (λ seen a, hf_Total a = Z.of_nat (length seen) ∧
    hf_Confirmed a = Z.of_nat (length (filter (λ h, h_Confidence h = Confirmed) seen)) ∧
    hf_Unsettled a = (λ h, h_Hostname h +:+ " (" +:+ h_Confidence h +:+ ")") <$> filter (λ h, h_Confidence h ≠ Confirmed) seen ∧
    hf_HostsDown a = Z.of_nat (length (filter (λ h, Roles h ≠ [] ∧ ActiveRoles h = []) seen)) ∧
    hf_Anomalies a = conflict_anomaly <$> filter (λ h, h_Confidence h = Conflict) seen)); [done|].
  intros seen a h (H1 & H2 & H3 & H4 & H5). unfold host_step. cbv zeta. cbn [hf_Total hf_Confirmed hf_Unsettled hf_HostsDown hf_Anomalies].
  rewrite !list.filter_app, !list.filter_cons, !list.filter_nil, !length_app, !fmap_app, H1, H2, H3, H4, H5. cbn [length].
  split_and!; [lia|..].
  - destruct (String.eqb_spec (h_Confidence h) Confirmed) as [->|Hn]; [rewrite decide_True by done|rewrite decide_False by done]; cbn; lia.
  - destruct (String.eqb_spec (h_Confidence h) Confirmed) as [E|Hn]; [rewrite decide_False by auto|rewrite decide_True by done]; cbn; [by rewrite app_nil_r|done].
  - destruct (Roles h) as [|r rs], (ActiveRoles h) as [|r' rs']; cbn; case_decide; naive_solver lia.
  - destruct (String.eqb_spec (h_Confidence h) Conflict) as [E|Hn].
    + rewrite decide_True, E by done. done.
    + rewrite decide_False, andb_false_r, app_nil_r by done. done.
Qed.

Lemma count_map_spec {A} (key : A → string) (l : list A) :
  let m := foldl (λ m x, <[key x := default 0 (m !! key x) + 1]> m) (∅ : gmap string Z) l in
  ∀ k, default 0 (m !! k) = Z.of_nat (length (filter (λ x, key x = k) l)) ∧ (is_Some (m !! k) ↔ k ∈ key <$> l).
Proof.
  cbv zeta. apply (foldl_invariant (λ seen (m : gmap string Z), ∀ k, default 0 (m !! k) = Z.of_nat (length (filter (λ x, key x = k) seen)) ∧
    (is_Some (m !! k) ↔ k ∈ key <$> seen))).
  - intros k. rewrite lookup_empty. split; [done|]. split; [by intros []|set_solver].
  - intros seen m x IH k. rewrite list.filter_app, list.filter_cons, list.filter_nil, length_app, fmap_app, elem_of_app.
    destruct (IH k) as [H1 H2]. destruct (decide (key x = k)) as [<-|Hk].
    + rewrite lookup_insert_eq. cbn. rewrite H1. split; [lia|]. split; [set_solver|eauto].
    + rewrite lookup_insert_ne, H1, H2 by done. cbn. split; [lia|set_solver].
Qed.

Lemma ByRelease_spec inp : let m := hf_ByRelease (foldl host_step (host_start (in_Dashboard inp)) (in_Hosts inp)) in
  ∀ r, default 0 (m !! r) = Z.of_nat (length (filter (λ h, ReleaseOf h = r) (in_Hosts inp))) ∧ (is_Some (m !! r) ↔ r ∈ ReleaseOf <$> in_Hosts inp).
Proof.
  cbv zeta. assert (∀ a hs, hf_ByRelease (foldl host_step a hs) = foldl (λ m x, <[ReleaseOf x := default 0 (m !! ReleaseOf x) + 1]> m) (hf_ByRelease a) hs) as ->.
  { intros a hs. revert a. induction hs as [|h hs IH]; intros a; [done|]. apply IH. }
  apply count_map_spec.
Qed.

(** A map over strings has two keys iff two keys differ. *)
Lemma size_gt_one {V} (m : gmap string V) : (1 < size m)%nat ↔ ∃ k k', is_Some (m !! k) ∧ is_Some (m !! k') ∧ k ≠ k'.
Proof.
  rewrite <-length_map_to_list. pose proof (NoDup_fst_map_to_list m) as Hnd.
  assert (∀ k, is_Some (m !! k) ↔ k ∈ (map_to_list m).*1) as Hk.
  { intros k. rewrite list_elem_of_fmap. split.
    - intros [v Hv]. exists (k, v). split; [done|]. by apply elem_of_map_to_list.
    - intros ([k' v] & -> & Hv). apply elem_of_map_to_list in Hv. eauto. }
  setoid_rewrite Hk. destruct (map_to_list m) as [|[k1 v1] [|[k2 v2] l]]; cbn in *.
  - split; [lia|]. intros (? & ? & H & _). by apply not_elem_of_nil in H.
  - split; [lia|]. intros (? & ? & ->%list_elem_of_singleton & ->%list_elem_of_singleton & []). done.
  - split; [|lia]. intros _. exists k1, k2. apply NoDup_cons in Hnd as [Hn _]. split_and!; set_solver.
Qed.

Lemma drift_spec inp : (1 < size (hf_ByRelease (foldl host_step (host_start (in_Dashboard inp)) (in_Hosts inp))))%nat ↔
  ∃ h h', h ∈ in_Hosts inp ∧ h' ∈ in_Hosts inp ∧ ReleaseOf h ≠ ReleaseOf h'.
Proof.
  rewrite size_gt_one. pose proof (ByRelease_spec inp) as H. cbv zeta in H.
  assert (∀ r, is_Some (hf_ByRelease (foldl host_step (host_start (in_Dashboard inp)) (in_Hosts inp)) !! r) ↔ r ∈ ReleaseOf <$> in_Hosts inp) as Hr by apply H.
  clear H. split.
  - intros (k & k' & (h & -> & Hh)%Hr%list_elem_of_fmap & (h' & -> & Hh')%Hr%list_elem_of_fmap & Hne). by exists h, h'.
  - intros (h & h' & Hh & Hh' & Hne). exists (ReleaseOf h), (ReleaseOf h'). rewrite !Hr.
    split_and!; [by apply list_elem_of_fmap_2..|done].
Qed.

(** *** Roles of hosts *)

Lemma add_roles_lookup m h r : NoDup (Roles h) →
  add_roles m h !! r = if decide (r ∈ Roles h) then Some (default [] (m !! r) ++ [h]) else m !! r.
Proof.
  unfold add_roles. revert m. induction (Roles h) as [|r' rs IH]; intros m Hnd; cbn [foldl].
  { by rewrite decide_False by apply not_elem_of_nil. }
  apply NoDup_cons in Hnd as [Hr' Hnd]. rewrite IH by done. destruct (decide (r = r')) as [->|Hne].
  - rewrite decide_False by done. rewrite lookup_insert_eq, decide_True by by left. done.
  - rewrite lookup_insert_ne by done. destruct (decide (r ∈ rs)) as [Hin|Hn]; [by rewrite decide_True by by right|].
    rewrite decide_False; [done|]. set_solver.
Qed.

(** No host lists a role twice. *)
Definition roles_ok (hs : list OpenStackHost) : Prop := Forall (λ h, NoDup (Roles h)) hs.

Lemma byRole_spec inp r : roles_ok (in_Hosts inp) →
  byRole (foldl host_step (host_start (in_Dashboard inp)) (in_Hosts inp)) !! r =
  match filter (λ h, r ∈ Roles h) (in_Hosts inp) with [] => None | hs => Some hs end.
Proof.
  intros Hok. assert (∀ a hs, roles_ok hs → (∀ l, byRole a !! r = Some l → l ≠ []) →
    byRole (foldl host_step a hs) !! r = match default [] (byRole a !! r) ++ filter (λ h, r ∈ Roles h) hs with [] => None | l => Some l end) as H.
  { intros a hs Hhs. revert a. induction Hhs as [|h hs Hh _ IH]; intros a Hne; cbn [foldl].
    - rewrite list.filter_nil, app_nil_r. destruct (byRole a !! r) as [[|x l]|] eqn:E; [by destruct (Hne [] eq_refl)|done|done].
    - rewrite IH; cbn [host_step byRole]; rewrite add_roles_lookup by done.
      + rewrite list.filter_cons. destruct (decide (r ∈ Roles h)); [|done]. cbn [default id]. by rewrite <-(assoc_L (++)).
      + intros l. destruct (decide (r ∈ Roles h)); [|apply Hne]. intros [= <-]. by destruct (default [] _). }
  rewrite H; [by cbn; rewrite lookup_empty|done|]. intros l. cbn. by rewrite lookup_empty.
Qed.

(** *** The worst answer about the CA *)

Definition catrust_of (hs : list OpenStackHost) : CATrust := foldl host_catrust {| ca_State := ""; ca_Hosts := ∅ |} hs.

Lemma catrust_fold inp : hf_CATrust (foldl host_step (host_start (in_Dashboard inp)) (in_Hosts inp)) = catrust_of (in_Hosts inp).
Proof.
  unfold catrust_of. assert (∀ a hs, hf_CATrust (foldl host_step a hs) = foldl host_catrust (hf_CATrust a) hs) as ->; [|done].
  intros a hs. revert a. induction hs as [|h hs IH]; intros a; [done|]. apply IH.
Qed.

Lemma catrust_worst hs : (ca_State (catrust_of hs) = "" ∨ ∃ h, h ∈ hs ∧ vendordata h = ca_State (catrust_of hs)) ∧
  ∀ h, h ∈ hs → caTrustRank (vendordata h) ≤ caTrustRank (ca_State (catrust_of hs)).
Proof.
  unfold catrust_of. apply (foldl_invariant (λ seen c, (ca_State c = "" ∨ ∃ h, h ∈ seen ∧ vendordata h = ca_State c) ∧
    ∀ h, h ∈ seen → caTrustRank (vendordata h) ≤ caTrustRank (ca_State c))); [split; [by left|set_solver]|].
  intros seen c h [H1 H2]. unfold host_catrust. fold (vendordata h). cbv zeta.
  assert (∀ s, 0 ≤ caTrustRank s) as Hpos by (intros s; unfold caTrustRank; repeat case_if; lia).
  destruct (String.eqb_spec (vendordata h) "") as [E|Hne]; cbn [ca_State].
  - split; [set_solver|]. intros h' [Hh|Hh]%elem_of_app; [by apply H2|]. apply list_elem_of_singleton in Hh as ->. rewrite E. apply Hpos.
  - destruct (Z.ltb_spec (caTrustRank (ca_State c)) (caTrustRank (vendordata h))) as [Hlt|Hge].
    + split; [right; exists h; set_solver|]. intros h' [Hh|Hh]%elem_of_app; [pose proof (H2 _ Hh); lia|]. by apply list_elem_of_singleton in Hh as ->.
    + split; [set_solver|]. intros h' [Hh|Hh]%elem_of_app; [by apply H2|]. by apply list_elem_of_singleton in Hh as ->.
Qed.

Lemma assessHosts_fold inp : let a := foldl host_step (host_start (in_Dashboard inp)) (in_Hosts inp) in let f := assessHosts inp in
  hf_Total f = hf_Total a ∧ hf_Confirmed f = hf_Confirmed a ∧ hf_Unsettled f = hf_Unsettled a ∧ hf_HostsDown f = hf_HostsDown a ∧
  hf_ByRelease f = hf_ByRelease a ∧ hf_CATrust f = hf_CATrust a ∧ byRole f = byRole a ∧
  hf_Anomalies f = hf_Anomalies a ++ (if String.eqb (caTrustAnomaly (hf_CATrust a)) "" then [] else [error_ AnomalyCATrust (in_ID inp) (caTrustAnomaly (hf_CATrust a))]).
Proof. cbv zeta. unfold assessHosts. cbv zeta. destruct (String.eqb _ ""); cbn; by rewrite ?app_nil_r. Qed.

(** ** The role walk *)

Definition down (role : string) (h : OpenStackHost) : bool := negb (ContainsFold (ActiveRoles h) role).

Definition member (vms : gmap string Z) (also : string) (role : string) (h : OpenStackHost) : RoleMember :=
  {| rm_Hostname := h_Hostname h; rm_Release := ReleaseOf h; rm_Roles := Z.of_nat (length (Roles h)); rm_Down := down role h;
     AlsoIn := also; VMs := default 0 (vms !! h_Hostname h) |}.

Definition count_down (role : string) (hs : list OpenStackHost) : Z := Z.of_nat (length (filter (λ h, down role h = true) hs)).

Lemma member_fold vms role hs : ∀ f sec, NoDup (h_Hostname <$> hs) →
  let r := foldl (member_step vms role) (f, sec) hs in
  rf_Sections r.1 = rf_Sections f ∧ rf_RolesDown r.1 = rf_RolesDown f + count_down role hs ∧
  rf_Anomalies r.1 = rf_Anomalies f ++ ((λ h, role_down_anomaly h role) <$> filter (λ h, down role h = true) hs) ∧
  (∀ n, firstSeen r.1 !! n = match firstSeen f !! n with Some x => Some x | None => if decide (n ∈ h_Hostname <$> hs) then Some role else None end) ∧
  r.2 = {| sec_Role := sec_Role sec; sec_Hosts := sec_Hosts sec ++ ((λ h, member vms (default "" (firstSeen f !! h_Hostname h)) role h) <$> hs);
           sec_Down := sec_Down sec + count_down role hs |}.
Proof.
  unfold count_down. induction hs as [|h hs IH]; intros f sec Hnd; cbn [foldl].
  { cbn. rewrite !app_nil_r, !Z.add_0_r. split_and!; [done..|intros n; by destruct (firstSeen f !! n)|by destruct sec]. }
  rewrite fmap_cons in Hnd. apply NoDup_cons in Hnd as [Hh Hnd]. unfold member_step at 2 4 6 8 10. cbv zeta. fold (down role h).
  match goal with |- context [foldl _ (?f', ?sec') hs] => specialize (IH f' sec' Hnd) end.
  cbv zeta in IH. destruct IH as (H1 & H2 & H3 & H4 & H5). cbn [rf_Sections rf_RolesDown rf_Anomalies firstSeen sec_Role sec_Hosts sec_Down] in *.
  rewrite list.filter_cons. split_and!.
  - done.
  - rewrite H2. destruct (down role h); [rewrite decide_True by done|rewrite decide_False by done]; cbn [length]; lia.
  - rewrite H3. destruct (down role h); [rewrite decide_True by done|by rewrite decide_False by done]. cbn [fmap list_fmap]. by rewrite <-(assoc_L (++)).
  - intros n. rewrite H4. destruct (firstSeen f !! h_Hostname h) as [x|] eqn:E.
    + destruct (firstSeen f !! n) eqn:En; [done|]. rewrite fmap_cons. destruct (decide (n ∈ h_Hostname <$> hs)) as [|Hn]; [by rewrite decide_True by by right|].
      rewrite decide_False; [done|]. rewrite elem_of_cons. intros [->|?]; [congruence|done].
    + rewrite fmap_cons. destruct (decide (n = h_Hostname h)) as [->|Hne].
      * rewrite lookup_insert_eq, E, decide_True; [done|by left].
      * rewrite lookup_insert_ne by done. destruct (firstSeen f !! n); [done|].
        destruct (decide (n ∈ h_Hostname <$> hs)) as [|Hn]; [by rewrite decide_True by by right|]. rewrite decide_False; [done|set_solver].
  - rewrite H5. f_equal.
    + rewrite <-(assoc_L (++)). cbn [fmap list_fmap app]. f_equal. f_equal. apply list_fmap_ext. intros i h' Hh'. f_equal.
      assert (h_Hostname h' ≠ h_Hostname h) as Hne.
      { intros E. apply Hh. rewrite <-E. apply list_elem_of_fmap_2. by eapply list_elem_of_lookup_2. }
      destruct (firstSeen f !! h_Hostname h); [done|]. by rewrite lookup_insert_ne.
    + destruct (down role h); [rewrite decide_True by done|rewrite decide_False by done]; cbn [length]; lia.
Qed.

Section roles.
Context (hs : list OpenStackHost) (vms : gmap string Z) (by_role : gmap string (list OpenStackHost)).
Context (Hnames : NoDup (h_Hostname <$> hs)).
Context (Hby : ∀ r, by_role !! r = match filter (λ h, r ∈ Roles h) hs with [] => None | l => Some l end).

(** The hosts holding a role, by name. *)
Definition hosts_with (role : string) : list OpenStackHost := sort (less_on string_ltb h_Hostname) (filter (λ h, role ∈ Roles h) hs).

(** A section, given the roles before it: each host once, and the first of
    those roles it holds. *)
Definition section_of (before : list string) (role : string) : RoleSection :=
  {| sec_Role := role;
     sec_Hosts := (λ h, member vms (default "" (head (filter (λ r, r ∈ Roles h) before))) role h) <$> hosts_with role;
     sec_Down := count_down role (hosts_with role) |}.

Lemma hosts_with_elem role h : h ∈ hosts_with role ↔ h ∈ hs ∧ role ∈ Roles h.
Proof. unfold hosts_with. rewrite sort_elem_of, list_elem_of_filter. tauto. Qed.

Lemma names_inj h h' : h ∈ hs → h' ∈ hs → h_Hostname h = h_Hostname h' → h = h'.
Proof.
  intros Hh Hh' E. apply list_elem_of_lookup in Hh as [i Hi], Hh' as [j Hj]. assert (i = j) as ->; [|congruence].
  eapply NoDup_lookup; [exact Hnames| |]; rewrite list_lookup_fmap; [by rewrite Hi|]. rewrite Hj. cbn. by rewrite E.
Qed.

Lemma hosts_with_names role : NoDup (h_Hostname <$> hosts_with role).
Proof.
  apply NoDup_fmap_2_strong.
  - intros x y [Hx _]%hosts_with_elem [Hy _]%hosts_with_elem. by apply names_inj.
  - apply sort_NoDup, NoDup_filter. by eapply NoDup_fmap_1.
Qed.

Lemma by_role_hosts role : default [] (by_role !! role) = filter (λ h, role ∈ Roles h) hs.
Proof. rewrite Hby. by destruct (filter _ hs). Qed.

Record walk_ok (seen : list string) (f : RoleFacts) : Prop := {
  wo_length : length (rf_Sections f) = length seen;
  wo_sections : ∀ i role, seen !! i = Some role → rf_Sections f !! i = Some (section_of (take i seen) role);
  wo_down : rf_RolesDown f = foldr (λ sec acc, sec_Down sec + acc) 0 (rf_Sections f);
  wo_anomalies : rf_Anomalies f = seen ≫= λ role, (λ h, role_down_anomaly h role) <$> filter (λ h, down role h = true) (hosts_with role);
  wo_first : ∀ h, h ∈ hs → firstSeen f !! h_Hostname h = head (filter (λ r, r ∈ Roles h) seen);
}.

Lemma sum_down_app l sec : foldr (λ sec acc, sec_Down sec + acc) 0 (l ++ [sec]) = foldr (λ sec acc, sec_Down sec + acc) 0 l + sec_Down sec.
Proof. induction l as [|s l IH]; cbn in *; lia. Qed.

Lemma section_step_ok seen f role : walk_ok seen f → walk_ok (seen ++ [role]) (section_step by_role vms f role).
Proof.
  intros [H1 H2 H3 H4 H5]. unfold section_step. rewrite by_role_hosts. fold (hosts_with role).
  pose proof (member_fold vms role (hosts_with role) f {| sec_Role := role; sec_Hosts := []; sec_Down := 0 |} (hosts_with_names role)) as Hm.
  cbv zeta in Hm |- *. destruct (foldl (member_step vms role) _ _) as [f' sec]. cbn [fst snd sec_Role sec_Hosts sec_Down app] in Hm.
  destruct Hm as (E1 & E2 & E3 & E4 & E5).
  assert (sec = section_of seen role) as ->.
  { rewrite E5. unfold section_of. f_equal. apply list_fmap_ext. intros i h Hh. apply list_elem_of_lookup_2, hosts_with_elem in Hh as [Hh _]. by rewrite H5. }
  split; cbn [rf_Sections rf_RolesDown rf_Anomalies firstSeen]; rewrite ?E1, ?E2, ?E3.
  - rewrite !length_app, H1. done.
  - intros i r Hi. apply lookup_app_Some in Hi as [Hi|[Hge Hi]].
    + pose proof (lookup_lt_Some _ _ _ Hi). rewrite lookup_app_l, take_app_le by lia. by apply H2.
    + assert (i = length seen) as -> by (apply lookup_lt_Some in Hi; cbn in Hi; lia).
      rewrite Nat.sub_diag in Hi. injection Hi as <-. rewrite take_app_length, lookup_app_r by lia. by rewrite H1, Nat.sub_diag.
  - rewrite sum_down_app, H3. done.
  - rewrite bind_app, H4. cbn. by rewrite app_nil_r.
  - intros h Hh. rewrite E4, H5, list.filter_app, list.filter_cons, list.filter_nil by done.
    destruct (filter (λ r, r ∈ Roles h) seen) as [|x l]; [|done]. cbn.
    destruct (decide (role ∈ Roles h)) as [Hr|Hr]; [rewrite decide_True; [done|]|rewrite decide_False; [done|]].
    + apply list_elem_of_fmap_2, hosts_with_elem. done.
    + intros (h' & E & [Hh' Hr']%hosts_with_elem)%list_elem_of_fmap. by rewrite (names_inj h h') in Hr.
Qed.

Lemma assessRoles_ok : walk_ok (orderedRoles by_role) (assessRoles by_role vms).
Proof.
  unfold assessRoles. apply (foldl_invariant walk_ok); [|intros; by apply section_step_ok].
  split; try done.
Qed.

Lemma orderedRoles_elem role : role ∈ orderedRoles by_role ↔ ∃ h, h ∈ hs ∧ role ∈ Roles h.
Proof.
  unfold orderedRoles. rewrite sort_elem_of, list_elem_of_fmap. split.
  - intros ([r l] & -> & Hl%elem_of_map_to_list). cbn. rewrite Hby in Hl. destruct (filter _ hs) as [|h l'] eqn:E; [done|].
    assert (h ∈ filter (λ h, r ∈ Roles h) hs) as [? ?]%list_elem_of_filter by (rewrite E; by left). by exists h.
  - intros (h & Hh & Hr). assert (h ∈ filter (λ h, role ∈ Roles h) hs) as Hin by by apply list_elem_of_filter.
    exists (role, filter (λ h, role ∈ Roles h) hs). split; [done|]. apply elem_of_map_to_list. rewrite Hby.
    destruct (filter _ hs); [by apply not_elem_of_nil in Hin|done].
Qed.

Lemma role_anomalies_elem x : x ∈ rf_Anomalies (assessRoles by_role vms) ↔
  ∃ h role, h ∈ hs ∧ role ∈ Roles h ∧ ContainsFold (ActiveRoles h) role = false ∧ x = role_down_anomaly h role.
Proof.
  rewrite (wo_anomalies _ _ assessRoles_ok), list_elem_of_bind. setoid_rewrite list_elem_of_fmap. setoid_rewrite list_elem_of_filter.
  setoid_rewrite hosts_with_elem. setoid_rewrite orderedRoles_elem. unfold down. setoid_rewrite negb_true_iff. naive_solver.
Qed.
End roles.

#[export] Instance role_less_weak : StrictWeak role_less.
Proof.
  split; unfold role_less.
  - intros x y. destruct (role_rank x), (role_rank y); try done; [rewrite Z.ltb_lt, Z.ltb_ge; lia|apply less_asym].
  - intros x y z. destruct (role_rank x), (role_rank y), (role_rank z); try done; [rewrite !Z.ltb_ge; lia|apply less_cotrans].
Qed.

Lemma orderedRoles_ok m : StronglySorted (not_after role_less) (orderedRoles m) ∧ NoDup (orderedRoles m).
Proof. unfold orderedRoles. split; [apply sort_sorted, _|apply sort_NoDup, NoDup_fst_map_to_list]. Qed.

(** ** What is odd about a deployment *)

Definition nofile_detail : string := caTrustAnomaly {| ca_State := VendordataNoFile; ca_Hosts := ∅ |}.
Definition noconfig_detail : string := caTrustAnomaly {| ca_State := VendordataNoConfig; ca_Hosts := ∅ |}.

Definition failing (r : ReconcileRun) : Prop :=
  run_LastError r ≠ "" ∧ match SucceededAt r with None => True | Some t => t < StartedAt r end.

(** Everything that is reported, and why. *)
Inductive reason (day : time_t → string) (clock : time_t) (inp : Input) : Anomaly → Prop :=
| because_conflict h : h ∈ in_Hosts inp → h_Confidence h = Conflict → reason day clock inp (conflict_anomaly h)
| because_nofile h : h ∈ in_Hosts inp → vendordata h = VendordataNoFile →
    reason day clock inp (error_ AnomalyCATrust (in_ID inp) nofile_detail)
| because_noconfig h : h ∈ in_Hosts inp → vendordata h = VendordataNoConfig →
    (∀ h', h' ∈ in_Hosts inp → vendordata h' ≠ VendordataNoFile) →
    reason day clock inp (error_ AnomalyCATrust (in_ID inp) noconfig_detail)
| because_down h role : h ∈ in_Hosts inp → role ∈ Roles h → ContainsFold (ActiveRoles h) role = false →
    reason day clock inp (role_down_anomaly h role)
| because_drift h h' : h ∈ in_Hosts inp → h' ∈ in_Hosts inp → ReleaseOf h ≠ ReleaseOf h' →
    reason day clock inp (warn AnomalyDrift (in_ID inp)
      ("more than one release in one deployment: " +:+ releaseSummary (ByRelease (Assess day clock inp))))
| because_never : Run inp = None →
    reason day clock inp (warn AnomalyNeverRun (in_ID inp) "no reconcile has been recorded, so membership rests on local evidence alone")
| because_failing r : Run inp = Some r → failing r →
    reason day clock inp (error_ AnomalyReconcileNG (in_ID inp) ("the last reconcile failed: " +:+ run_LastError r))
| because_stale r t : Run inp = Some r → ¬ failing r → SucceededAt r = Some t → 0 < StaleAfter inp →
    StaleAfter inp < Sub (if IsZero (in_Now inp) then clock else in_Now inp) t →
    reason day clock inp (warn AnomalyStale (in_ID inp) "nothing has reconciled this deployment recently")
| because_ghost g : g ∈ Ghosts inp → reason day clock inp (ghost_anomaly day g)
| because_missing v : v ∈ in_Instances inp → live v = false →
    reason day clock inp (warn AnomalyVMMissing (in_ID inp) "the control plane no longer lists VMs it listed before").

Lemma assessVMs_spec vs : let '(tally, missing, vms) := assessVMs vs in
  (∀ n, default 0 (tally !! n) = Z.of_nat (length (filter (λ v, live v = true ∧ si_HypervisorHostname v = n) vs))) ∧
  missing = Z.of_nat (length (filter (λ v, live v = false) vs)) ∧ vms = Z.of_nat (length (filter (λ v, live v = true) vs)).
Proof.
  unfold assessVMs.
  match goal with |- context [foldl ?f ?a vs] => assert (let acc := foldl f a vs in
    (∀ n, default 0 (acc.1 !! n) = Z.of_nat (length (filter (λ v, live v = true ∧ si_HypervisorHostname v = n) vs))) ∧
    acc.2 = Z.of_nat (length (filter (λ v, live v = false) vs)) ∧
    Z.of_nat (length vs) - acc.2 = Z.of_nat (length (filter (λ v, live v = true) vs))) as H end.
  { cbv zeta. apply (foldl_invariant (λ seen (acc : gmap string Z * Z),
      (∀ n, default 0 (acc.1 !! n) = Z.of_nat (length (filter (λ v, live v = true ∧ si_HypervisorHostname v = n) seen))) ∧
      acc.2 = Z.of_nat (length (filter (λ v, live v = false) seen)) ∧
      Z.of_nat (length seen) - acc.2 = Z.of_nat (length (filter (λ v, live v = true) seen)))); [split_and!; [|done..]; intros n; cbn [fst]; by rewrite lookup_empty|].
    intros seen [tally missing] v (H1 & H2 & H3). cbn [fst snd] in *.
    rewrite !list.filter_app, !list.filter_cons, !list.filter_nil, !length_app. destruct (live v) eqn:Hl; cbn [fst snd].
    - split_and!; [|rewrite decide_False by done; cbn; lia|rewrite decide_True by done; cbn; lia].
      intros n. rewrite list.filter_app, list.filter_cons, list.filter_nil, length_app. destruct (decide (si_HypervisorHostname v = n)) as [<-|Hn].
      + rewrite lookup_insert_eq, decide_True by done. cbn. rewrite H1. lia.
      + rewrite lookup_insert_ne, decide_False, H1 by naive_solver. cbn. lia.
    - split_and!; [|rewrite decide_True by done; cbn; lia|rewrite decide_False by done; cbn; lia].
      intros n. rewrite list.filter_app, list.filter_cons, list.filter_nil, length_app, decide_False, H1 by (intros [? ?]; congruence). cbn. lia. }
  destruct (foldl _ _ vs) as [tally missing]. cbn [fst snd] in H. tauto.
Qed.

Lemma rank_nofile s : 4 ≤ caTrustRank s → s = VendordataNoFile.
Proof.
  unfold caTrustRank. repeat match goal with |- context [String.eqb s ?k] => destruct (String.eqb_spec s k) as [->|_] end; intros; done || lia.
Qed.

Lemma rank_noconfig s : caTrustRank s = 3 → s = VendordataNoConfig.
Proof.
  unfold caTrustRank. repeat match goal with |- context [String.eqb s ?k] => destruct (String.eqb_spec s k) as [->|_] end; intros; done || lia.
Qed.

Lemma catrust_anomaly_elem hs id x :
  x ∈ (if String.eqb (caTrustAnomaly (catrust_of hs)) "" then [] else [error_ AnomalyCATrust id (caTrustAnomaly (catrust_of hs))]) ↔
  (∃ h, h ∈ hs ∧ vendordata h = VendordataNoFile ∧ x = error_ AnomalyCATrust id nofile_detail) ∨
  (∃ h, h ∈ hs ∧ vendordata h = VendordataNoConfig ∧ (∀ h', h' ∈ hs → vendordata h' ≠ VendordataNoFile) ∧ x = error_ AnomalyCATrust id noconfig_detail).
Proof.
  destruct (catrust_worst hs) as [Hin Hmax]. unfold caTrustAnomaly. set (st := ca_State (catrust_of hs)) in *.
  destruct (String.eqb_spec st VendordataNoFile) as [E|H1]; [|destruct (String.eqb_spec st VendordataNoConfig) as [E|H2]]; cbn [String.eqb].
  - assert (∃ h, h ∈ hs ∧ vendordata h = VendordataNoFile) as (h & Hh & Hv) by (destruct Hin as [Hx|(h & ? & ?)]; [by rewrite E in Hx|exists h; by rewrite <-E]).
    rewrite list_elem_of_singleton. split; [intros ->; left; by exists h|]. intros [(_ & _ & _ & ->)|(_ & _ & _ & Hno & _)]; [done|]. by destruct (Hno h Hh).
  - assert (∃ h, h ∈ hs ∧ vendordata h = VendordataNoConfig) as (h & Hh & Hv) by (destruct Hin as [Hx|(h & ? & ?)]; [by rewrite E in Hx|exists h; by rewrite <-E]).
    assert (∀ h', h' ∈ hs → vendordata h' ≠ VendordataNoFile) as Hno.
    { intros h' Hh' Hx. pose proof (Hmax h' Hh') as Hle. rewrite Hx, E in Hle. by compute in Hle. }
    rewrite list_elem_of_singleton. split; [intros ->; right; by exists h|]. intros [(h' & Hh' & Hx & _)|(_ & _ & _ & _ & ->)]; [by destruct (Hno h' Hh')|done].
  - split; [by intros ?%not_elem_of_nil|]. intros [(h & Hh & Hx & _)|(h & Hh & Hx & Hno & _)]; exfalso; pose proof (Hmax h Hh) as Hle; rewrite Hx in Hle.
    + apply H1, rank_nofile, Hle.
    + change (caTrustRank VendordataNoConfig) with 3 in Hle. destruct (decide (caTrustRank st = 3)) as [E|Hne]; [by apply H2, rank_noconfig|].
      apply H1, rank_nofile. lia.
Qed.

Section theorems.
Context (day : time_t → string) (clock : time_t).

(** The hosts of a deployment are listed once, each role once. *)
Definition input_ok (inp : Input) : Prop := NoDup (h_Hostname <$> in_Hosts inp) ∧ roles_ok (in_Hosts inp).

Lemma by_role_ok inp r : roles_ok (in_Hosts inp) →
  byRole (assessHosts inp) !! r = match filter (λ h, r ∈ Roles h) (in_Hosts inp) with [] => None | l => Some l end.
Proof. destruct (assessHosts_fold inp) as (_ & _ & _ & _ & _ & _ & -> & _). apply byRole_spec. Qed.

Lemma run_anomalies_elem inp x : let now := if IsZero (in_Now inp) then clock else in_Now inp in
  x ∈ run_anomalies inp (assessFreshness (Run inp) (StaleAfter inp) now) → reason day clock inp x.
Proof.
  cbv zeta. unfold run_anomalies. destruct (Run inp) as [r|] eqn:Hr; [|intros ->%list_elem_of_singleton; by apply because_never].
  cbn [assessFreshness fr_Error Stale].
  assert (negb (String.eqb (run_LastError r) "") && match SucceededAt r with None => true | Some t => After (StartedAt r) t end = true ↔ failing r) as Hf.
  { unfold failing, After. rewrite andb_true_iff, negb_true_iff, String.eqb_neq. destruct (SucceededAt r); [by rewrite Z.ltb_lt|tauto]. }
  destruct (negb _ && _) eqn:E.
  - assert (failing r) as Hfail by by apply Hf. rewrite (proj2 (String.eqb_neq _ _) (proj1 Hfail)). cbn [negb].
    intros ->%list_elem_of_singleton. by eapply because_failing.
  - cbn [String.eqb negb]. assert (¬ failing r) as Hn by (intros ?%Hf; congruence).
    destruct ((0 <? StaleAfter inp) && _) eqn:Es; [|by intros ?%not_elem_of_nil]. intros ->%list_elem_of_singleton.
    apply andb_true_iff in Es as [H0 Hs]. apply Z.ltb_lt in H0. destruct (SucceededAt r) as [t|] eqn:Ht; [|done]. apply Z.ltb_lt in Hs.
    by eapply because_stale.
Qed.

Lemma run_anomalies_complete inp : let now := if IsZero (in_Now inp) then clock else in_Now inp in
  let l := run_anomalies inp (assessFreshness (Run inp) (StaleAfter inp) now) in
  (Run inp = None → warn AnomalyNeverRun (in_ID inp) "no reconcile has been recorded, so membership rests on local evidence alone" ∈ l) ∧
  (∀ r, Run inp = Some r → failing r → error_ AnomalyReconcileNG (in_ID inp) ("the last reconcile failed: " +:+ run_LastError r) ∈ l) ∧
  (∀ r t, Run inp = Some r → ¬ failing r → SucceededAt r = Some t → 0 < StaleAfter inp → StaleAfter inp < Sub now t →
     warn AnomalyStale (in_ID inp) "nothing has reconciled this deployment recently" ∈ l).
Proof.
  cbv zeta. unfold run_anomalies. split_and!.
  - intros ->. by left.
  - intros r -> [He Hs]. cbn [assessFreshness fr_Error].
    assert (negb (String.eqb (run_LastError r) "") && match SucceededAt r with None => true | Some t => After (StartedAt r) t end = true) as ->.
    { rewrite (proj2 (String.eqb_neq _ _) He). destruct (SucceededAt r); [by apply Z.ltb_lt|done]. }
    rewrite (proj2 (String.eqb_neq _ _) He). by left.
  - intros r t -> Hn Ht H0 Hs. cbn [assessFreshness fr_Error Stale]. rewrite Ht.
    assert (negb (String.eqb (run_LastError r) "") && After (StartedAt r) t = false) as ->.
    { apply not_true_iff_false. rewrite andb_true_iff, negb_true_iff, String.eqb_neq. intros [He Ha]. apply Hn. unfold failing.
      rewrite Ht. split; [done|]. by apply Z.ltb_lt in Ha. }
    cbn [String.eqb negb]. rewrite (proj2 (Z.ltb_lt _ _) H0), (proj2 (Z.ltb_lt _ _) Hs). by left.
Qed.

(** The list before it is marked and sorted. *)
Definition raised (inp : Input) : list Anomaly :=
  let now := if IsZero (in_Now inp) then clock else in_Now inp in
  let '(tally, missing, _) := assessVMs (in_Instances inp) in
  hf_Anomalies (assessHosts inp) ++ rf_Anomalies (assessRoles (byRole (assessHosts inp)) tally) ++
  aggregateAnomalies day inp (hf_ByRelease (assessHosts inp)) (assessFreshness (Run inp) (StaleAfter inp) now) missing.

Lemma missing_positive vs : 0 < Z.of_nat (length (filter (λ v, live v = false) vs)) ↔ ∃ v, v ∈ vs ∧ live v = false.
Proof.
  split.
  - destruct (filter _ vs) as [|v l] eqn:E; [cbn; lia|]. intros _. assert (v ∈ filter (λ v, live v = false) vs) as [? ?]%list_elem_of_filter by (rewrite E; by left). by exists v.
  - intros (v & Hv & Hl). assert (v ∈ filter (λ v, live v = false) vs) as Hin by by apply list_elem_of_filter.
    destruct (filter _ vs); [by apply not_elem_of_nil in Hin|cbn; lia].
Qed.

Lemma raised_elem inp x : input_ok inp → x ∈ raised inp ↔ reason day clock inp x.
Proof.
  intros [Hnames Hroles]. unfold raised. pose proof (assessVMs_spec (in_Instances inp)) as Hv.
  assert (ByRelease (Assess day clock inp) = hf_ByRelease (assessHosts inp)) as Erel by (unfold Assess; by destruct (assessVMs (in_Instances inp)) as [[? ?] ?]).
  destruct (assessVMs (in_Instances inp)) as [[tally missing] vms]. destruct Hv as (_ & Hmiss & _).
  destruct (host_fold inp) as (_ & _ & _ & _ & Hconf). destruct (assessHosts_fold inp) as (_ & _ & _ & _ & Hrel & _ & _ & Han).
  rewrite catrust_fold, Hconf in Han. pose proof (drift_spec inp) as Hdrift. rewrite <-Hrel in Hdrift.
  unfold aggregateAnomalies. rewrite Han, !elem_of_app, catrust_anomaly_elem.
  rewrite (role_anomalies_elem (in_Hosts inp) tally _ Hnames (λ r, by_role_ok inp r Hroles)). split.
  - intros [[(h & -> & [? ?]%list_elem_of_filter)%list_elem_of_fmap|[(h & ? & ? & ->)|(h & ? & ? & ? & ->)]]|[(h & r & ? & ? & ? & ->)|[Hd|[Hr|[Hg|Hm]]]]].
    + by apply because_conflict.
    + by eapply because_nofile.
    + by eapply because_noconfig.
    + by apply because_down.
    + destruct (1 <? _)%nat eqn:E; [|by apply not_elem_of_nil in Hd]. apply list_elem_of_singleton in Hd as ->. rewrite <-Erel.
      apply Nat.ltb_lt, Hdrift in E as (h & h' & ? & ? & ?). by apply (because_drift _ _ _ h h').
    + by apply run_anomalies_elem.
    + apply list_elem_of_fmap in Hg as (g & -> & Hg). by apply because_ghost.
    + destruct (0 <? missing) eqn:E; [|by apply not_elem_of_nil in Hm]. apply list_elem_of_singleton in Hm as ->.
      apply Z.ltb_lt in E. rewrite Hmiss in E. apply missing_positive in E as (v & ? & ?). by eapply because_missing.
  - pose proof (run_anomalies_complete inp) as (Hc1 & Hc2 & Hc3). destruct 1.
    + left. left. apply list_elem_of_fmap_2, list_elem_of_filter. done.
    + left. right. left. by exists h.
    + left. right. right. by exists h.
    + right. left. by exists h, role.
    + right. right. left. rewrite (proj2 (Nat.ltb_lt _ _)) by (apply Hdrift; by exists h, h'). rewrite Erel. by left.
    + right. right. right. left. auto.
    + right. right. right. left. auto.
    + right. right. right. left. eauto.
    + right. right. right. right. left. by apply list_elem_of_fmap_2.
    + right. right. right. right. right. rewrite (proj2 (Z.ltb_lt _ _)); [by left|]. rewrite Hmiss. apply missing_positive. by exists v.
Qed.

Definition declared (inp : Input) : string := if String.eqb (in_State inp) "" then StateActive else in_State inp.

Lemma Assess_Anomalies inp : Anomalies (Assess day clock inp) = finalizeAnomalies (declared inp) (raised inp).
Proof. unfold Assess, raised, declared. by destruct (assessVMs (in_Instances inp)) as [[? ?] ?]. Qed.

Lemma mark_expected_active x : mark_expected StateActive x = x.
Proof. unfold mark_expected, expectedUnder. repeat case_bool_decide; done. Qed.

Lemma bool_less_total : StrictTotal (λ x y, x && negb y).
Proof. split; [split; [by intros [] []|by intros [] [] []]|by intros [] []]. Qed.

Lemma anomaly_less_weak : StrictWeak anomaly_less.
Proof. pose proof bool_less_total. apply _. Qed.

(** A deployment's anomalies are exactly what is odd about it.  Each one
    reported has its reason among the hosts, the last reconcile, the ghosts and
    the VMs, every reason is reported, whatever the declared state, which only
    marks those it accounts for; errors come first, then kind and subject. *)
Theorem Assess_anomalies inp :
  input_ok inp →
  (∀ x, x ∈ Anomalies (Assess day clock inp) ↔ ∃ y, reason day clock inp y ∧ x = mark_expected (declared inp) y) ∧
  StronglySorted (not_after anomaly_less) (Anomalies (Assess day clock inp)) ∧
  (∀ x, x ∈ Anomalies (Assess day clock inp) → Kind x ≠ AnomalyUnsettled ∧ Expected x = expectedUnder (declared inp) (Kind x)).
Proof.
  intros Hok. assert (∀ x, x ∈ Anomalies (Assess day clock inp) ↔ ∃ y, reason day clock inp y ∧ x = mark_expected (declared inp) y) as Hel.
  { intros x. rewrite Assess_Anomalies. unfold finalizeAnomalies. rewrite sort_elem_of. setoid_rewrite <-(raised_elem inp _ Hok).
    destruct (String.eqb_spec (declared inp) StateActive) as [->|Hne].
    - setoid_rewrite mark_expected_active. naive_solver.
    - rewrite list_elem_of_fmap. naive_solver. }
  split_and!; [done|rewrite Assess_Anomalies; apply sort_sorted, anomaly_less_weak|].
  intros x (y & Hy & ->)%Hel. unfold mark_expected. destruct (expectedUnder (declared inp) (Kind y)) eqn:E; cbn [Kind Expected]; rewrite ?E; by destruct Hy.
Qed.

(** A deployment's shape is its hosts'.  Every role some host holds has one
    section, the control plane's first; a section lists exactly the hosts with
    the role, by name, each with its release, the live VMs on it, whether the
    role is down, and the first earlier section it appeared in; the counts add
    up; and releases drift exactly when two hosts' releases differ, a host
    without one counting as the release [-]. *)
Theorem Assess_architecture inp :
  input_ok inp →
  let a := Assess day clock inp in let hs := in_Hosts inp in
  let tally := (assessVMs (in_Instances inp)).1.1 in
  (∃ roles, StronglySorted (not_after role_less) roles ∧ NoDup roles ∧ (∀ r, r ∈ roles ↔ ∃ h, h ∈ hs ∧ r ∈ Roles h) ∧
     length (Sections a) = length roles ∧ ∀ i r, roles !! i = Some r → Sections a !! i = Some (section_of hs tally (take i roles) r)) ∧
  (∀ n, default 0 (tally !! n) = Z.of_nat (length (filter (λ v, live v = true ∧ si_HypervisorHostname v = n) (in_Instances inp)))) ∧
  RolesDown a = foldr (λ sec acc, sec_Down sec + acc) 0 (Sections a) ∧
  arch_Hosts a = Z.of_nat (length hs) ∧ m_Total a = arch_Hosts a ∧ m_Confirmed a + Z.of_nat (length (Unsettled a)) = m_Total a ∧
  arch_VMs a + VMsMissing a = Z.of_nat (length (in_Instances inp)) ∧
  (Drifting a = true ↔ ∃ h h', h ∈ hs ∧ h' ∈ hs ∧ ReleaseOf h ≠ ReleaseOf h').
Proof.
  intros [Hnames Hroles]. cbv zeta. unfold Assess. pose proof (assessVMs_spec (in_Instances inp)) as Hv.
  destruct (assessVMs (in_Instances inp)) as [[tally missing] vms]. cbn [fst]. destruct Hv as (Ht & Hm & Hl).
  destruct (host_fold inp) as (F1 & F2 & F3 & _). destruct (assessHosts_fold inp) as (G1 & G2 & G3 & _ & G5 & _).
  pose proof (assessRoles_ok (in_Hosts inp) tally (byRole (assessHosts inp)) Hnames (λ r, by_role_ok inp r Hroles)) as [W1 W2 W3 _ _].
  destruct (orderedRoles_ok (byRole (assessHosts inp))) as [O1 O2].
  cbn [Sections RolesDown arch_Hosts m_Total m_Confirmed Unsettled arch_VMs VMsMissing Drifting]. split_and!.
  - exists (orderedRoles (byRole (assessHosts inp))). split_and!; [done|done|intros r|done|done].
    apply (orderedRoles_elem (in_Hosts inp)). intros r'. by apply by_role_ok.
  - done.
  - done.
  - by rewrite G1, F1.
  - done.
  - unfold sort_strings. rewrite sort_length, G1, G2, G3, F1, F2, F3, length_fmap.
    clear. induction (in_Hosts inp) as [|h hs IH]; [done|]. rewrite !list.filter_cons. repeat case_decide; cbn [length] in *; try done; lia.
  - rewrite Hl, Hm. clear. induction (in_Instances inp) as [|v vs IH]; [done|]. rewrite !list.filter_cons. destruct (live v); repeat case_decide; cbn [length] in *; try done; lia.
  - rewrite Nat.ltb_lt, G5. apply drift_spec.
Qed.
End theorems.

(** ** Witness: two controllers, one without software on record *)

Definition a_host (name : string) (roles active : list string) (version confidence : string) : OpenStackHost :=
  {| h_Hostname := name; IP := ""; DC := ""; HostState := ""; Detected := true; Roles := roles; ActiveRoles := active; Dropped := [];
     Components := if String.eqb version "" then ∅ else {["nova-compute" := {| cc_Version := version; Package := ""; cc_Active := true; cc_Service := true |}]};
     Details := ∅; LastError := ""; ObservedAt := 0; Farm := "f"; FarmName := ""; FarmRegion := ""; h_Confidence := confidence; Memberships := [] |}.

Definition demo_input : Input :=
  {| in_ID := "farm"; in_Name := ""; in_Region := ""; in_Dashboard := []; in_State := "broken"; in_StateNote := ""; in_StateSince := None;
     in_Hosts := [a_host "c2" ["compute"; "controller"] ["compute"] "29.0" Confirmed; a_host "c1" ["controller"] ["Controller"] "" Conflict];
     in_Instances := []; Run := None; Ghosts := []; StaleAfter := 0; in_Now := 0 |}.

Lemma demo_input_ok : input_ok demo_input.
Proof. split; [by apply (bool_decide_unpack _); vm_compute|]. repeat constructor; by apply (bool_decide_unpack _); vm_compute. Qed.

Lemma Assess_anomalies_witness :
  (λ x, (Kind x, Subject x, Expected x)) <$> Anomalies (Assess (λ _, "") 1 demo_input) =
    [("conflict", "c1", false); ("never-reconciled", "farm", false); ("release-drift", "farm", false); ("role-down", "c2", true)] ∧
  StronglySorted (not_after anomaly_less) (Anomalies (Assess (λ _, "") 1 demo_input)).
Proof. split; [vm_compute; reflexivity|]. apply (Assess_anomalies (λ _, "") 1 demo_input demo_input_ok). Defined.

Lemma Assess_architecture_witness :
  sec_Role <$> Sections (Assess (λ _, "") 1 demo_input) = ["controller"; "compute"] ∧
  (λ s, AlsoIn <$> sec_Hosts s) <$> Sections (Assess (λ _, "") 1 demo_input) = [[""; ""]; ["controller"]] ∧
  RolesDown (Assess (λ _, "") 1 demo_input) = 1 ∧ Drifting (Assess (λ _, "") 1 demo_input) = true.
Proof.
  split_and!; [vm_compute; reflexivity..|]. apply (Assess_architecture (λ _, "") 1 demo_input demo_input_ok).
  exists (a_host "c2" ["compute"; "controller"] ["compute"] "29.0" Confirmed), (a_host "c1" ["controller"] ["Controller"] "" Conflict).
  split_and!; [by left|by right; left|]. by apply (bool_decide_unpack _); vm_compute.
Defined.
