(* ===== verification/FleetCatalog.v ===== *)
(** The fleet at one instant (internal/openstack/fleet/catalog.go): which
    deployments there are, what is in each, and which one a typed word means. *)

From stdpp Require Import fin_maps.
From S2P Require Import Prelude GoStrings Membership NovaApi Reconcile OpenStackFold Assessment.

#[local] Arguments sort : simpl never.

(** ** Data *)

(** One reading of the database (internal/store/openstack_fleet.go). *)
Record Fleet := {
  Deployments : list Deployment; fl_Hosts : list OpenStackHost; fl_Instances : list StoreInstance;
  fl_VMs : gmap string Z; fl_Gone : gmap string Z; Runs : gmap string ReconcileRun; InventoryHosts : Z; ReadAt : time_t;
}.

Record Farm := {
  f_ID : string; f_Name : string; f_Region : string; f_State : string; f_HorizonURL : string; f_Hosts : list OpenStackHost;
  f_Unsettled : Z;
}.

Definition Named (f : Farm) : bool := negb (String.eqb (f_Name f) "").
Definition Label (f : Farm) : string := if String.eqb (f_Name f) "" then f_ID f else f_Name f.
Definition Retired (f : Farm) : bool := String.eqb (f_State f) StateRetired.

Definition RoleCounts (f : Farm) : gmap string Z :=
  foldl (λ m h, foldl (λ m r, <[r := default 0 (m !! r) + 1]> m) m (Roles h)) ∅ (f_Hosts f).

Record Catalog := { farms : list Farm; byID : gmap string nat; vms : gmap string (list StoreInstance); snap : Fleet }.

(** ** Assembly *)

(** The farms and their positions while the catalog is built. *)
Definition building : Type := list Farm * gmap string nat.

Definition new_farm (declared : gmap string Deployment) (id : string) : Farm :=
  match declared !! id with
  | Some d => {| f_ID := id; f_Name := d_DisplayName d; f_Region := d_Region d; f_State := d_State d; f_HorizonURL := d_HorizonURL d;
                 f_Hosts := []; f_Unsettled := 0 |}
  | None => {| f_ID := id; f_Name := ""; f_Region := ""; f_State := ""; f_HorizonURL := ""; f_Hosts := []; f_Unsettled := 0 |}
  end.

(** The closure [index]: the position is that of the returned pointer. *)
Definition index (declared : gmap string Deployment) (b : building) (id : string) : building * nat :=
  match b.2 !! id with
  | Some i => (b, i)
  | None => ((b.1 ++ [new_farm declared id], <[id := length b.1]> b.2), length b.1)
  end.

Definition host_in (h : OpenStackHost) (f : Farm) : Farm :=
  {| f_ID := f_ID f; f_Name := f_Name f; f_Region := f_Region f; f_State := f_State f; f_HorizonURL := f_HorizonURL f;
     f_Hosts := f_Hosts f ++ [h];
     f_Unsettled := if String.eqb (h_Confidence h) LocalOnly then f_Unsettled f + 1 else f_Unsettled f |}.

Definition place_host (declared : gmap string Deployment) (b : building) (h : OpenStackHost) : building :=
  if String.eqb (OpenStackFold.Farm h) "" || negb (Detected h) then b
  else let '(b, i) := index declared b (OpenStackFold.Farm h) in (alter (host_in h) i b.1, b.2).

Definition keep_vm (m : gmap string (list StoreInstance)) (v : StoreInstance) : gmap string (list StoreInstance) :=
  if live v then <[si_DeploymentID v := default [] (m !! si_DeploymentID v) ++ [v]]> m else m.

Section catalog.
(** The order in which a count map's keys are met: [true] for the first loop. *)
Context (visit : bool → gmap string Z → list string).

(** The ids each loop indexes, in order. *)
Definition From (s : Fleet) : Catalog :=
  let declared := map_by d_ID (λ d, d) (Deployments s) in
  let see (b : building) (id : string) := (index declared b id).1 in
  let b := foldl (λ b d, see b (d_ID d)) ([], ∅) (Deployments s) in
  let b := foldl (place_host declared) b (fl_Hosts s) in
  let b := foldl see b (visit true (fl_VMs s)) in
  let b := foldl see b (visit false (fl_Gone s)) in
  let b := foldl (λ b v, see b (si_DeploymentID v)) b (fl_Instances s) in
  let fs := sort (less_on string_ltb Label) b.1 in
  {| farms := fs; byID := foldl (λ m e, <[f_ID e.2 := e.1]> m) b.2 (imap pair fs);
     vms := foldl keep_vm ∅ (fl_Instances s); snap := s |}.
End catalog.

(** ** Questions *)

Definition Farms (c : Catalog) : list Farm := farms c.
Definition VMs (c : Catalog) (id : string) : list StoreInstance := default [] (vms c !! id).
Definition AllVMs (c : Catalog) : list StoreInstance := fl_Instances (snap c).
Definition VMCount (c : Catalog) (id : string) : Z := default 0 (fl_VMs (snap c) !! id).
Definition Gone (c : Catalog) (id : string) : Z := default 0 (fl_Gone (snap c) !! id).
Definition Reconciled (c : Catalog) (id : string) : option time_t := Runs (snap c) !! id ≫= SucceededAt.
Definition RunOf (c : Catalog) (id : string) : option ReconcileRun := Runs (snap c) !! id.
Definition Find (c : Catalog) (id : string) : option Farm := byID c !! id ≫= λ i, farms c !! i.
Definition Hosts (c : Catalog) : list OpenStackHost := fl_Hosts (snap c).
Definition Names (c : Catalog) : gmap string string :=
  foldl (λ m f, if String.eqb (f_Name f) "" then m else <[f_ID f := f_Name f]> m) ∅ (farms c).

Inductive resolve_error := SelectorRequired | NoDeployment (selector : string) | SharedName (selector : string) (ids : list string).

Definition named (selector : string) (f : Farm) : bool := negb (String.eqb (f_Name f) "") && EqualFold (f_Name f) selector.

Definition Resolve (fs : list Farm) (selector : string) : result resolve_error Farm :=
  if String.eqb (TrimSpace selector) "" then Err SelectorRequired
  else
    match filter (λ f, EqualFold (f_ID f) selector = true) fs with
    | f :: _ => Ok f
    | [] =>
        match filter (λ f, named selector f = true) fs with
        | [f] => Ok f
        | [] => Err (NoDeployment selector)
        | fs' => Err (SharedName selector (f_ID <$> fs'))
        end
    end.

Fixpoint position_of (id : string) (fs : list Farm) : Z :=
  match fs with
  | [] => -1
  | f :: fs' => if String.eqb (f_ID f) id then 0 else let p := position_of id fs' in if p <? 0 then p else p + 1
  end.

Definition IndexOf (fs : list Farm) (selector : string) : Z :=
  match Resolve fs selector with Ok f => position_of (f_ID f) fs | Err _ => -1 end.

(** ** What a catalog holds *)

(** A host counts towards a deployment something placed it in. *)
Definition claimed (h : OpenStackHost) : Prop := OpenStackFold.Farm h ≠ "" ∧ Detected h = true.

Definition hosts_of (hs : list OpenStackHost) (id : string) : list OpenStackHost := filter (λ h, OpenStackFold.Farm h = id ∧ claimed h) hs.

Definition farm_of (declared : gmap string Deployment) (hs : list OpenStackHost) (id : string) : Farm :=
  let f := new_farm declared id in
  {| f_ID := id; f_Name := f_Name f; f_Region := f_Region f; f_State := f_State f; f_HorizonURL := f_HorizonURL f;
     f_Hosts := hosts_of hs id;
     f_Unsettled := Z.of_nat (length (filter (λ h, h_Confidence h = LocalOnly) (hosts_of hs id))) |}.

Lemma new_farm_ID declared id : f_ID (new_farm declared id) = id.
Proof. unfold new_farm. by destruct (declared !! id). Qed.

Record built (declared : gmap string Deployment) (known : string → Prop) (hs : list OpenStackHost) (b : building) : Prop := {
  bu_known : ∀ id, is_Some (b.2 !! id) ↔ known id;
  bu_at : ∀ id i, b.2 !! id = Some i → b.1 !! i = Some (farm_of declared hs id);
  bu_pos : ∀ i f, b.1 !! i = Some f → b.2 !! f_ID f = Some i;
  bu_hosts : ∀ h, h ∈ hs → claimed h → known (OpenStackFold.Farm h);
}.

Lemma built_ext declared known known' hs b : (∀ id, known id ↔ known' id) → built declared known hs b → built declared known' hs b.
Proof.
  intros Hk [H1 H2 H3 H4]. split; [intros id; by rewrite H1, Hk|done|done|]. intros h Hh Hc. by apply Hk, H4.
Qed.

Lemma farm_of_fresh declared hs id : (∀ h, h ∈ hs → claimed h → OpenStackFold.Farm h ≠ id) → farm_of declared hs id = new_farm declared id.
Proof.
  intros H. unfold farm_of. assert (hosts_of hs id = []) as ->.
  { unfold hosts_of. induction hs as [|h hs IH]; [done|]. rewrite list.filter_cons, decide_False.
    - apply IH. intros h' Hh'. apply H. by right.
    - intros [Hf Hc]. by apply (H h); [left|..]. }
  unfold new_farm. by destruct (declared !! id).
Qed.

Lemma index_built declared known hs b id : built declared known hs b →
  built declared (λ x, known x ∨ x = id) hs (index declared b id).1 ∧ (index declared b id).1.2 !! id = Some (index declared b id).2.
Proof.
  intros Hb. pose proof Hb as [H1 H2 H3 H4]. unfold index. destruct (b.2 !! id) as [i|] eqn:E; cbn [fst snd].
  - split; [|done]. eapply built_ext; [|exact Hb]. intros x. split; [by left|]. intros [?| ->]; [done|]. apply H1. by rewrite E.
  - split; [|by rewrite lookup_insert_eq]. assert (¬ known id) as Hn by (rewrite <-H1, E; apply is_Some_None).
    assert (∀ x i, b.2 !! x = Some i → (i < length b.1)%nat) as Hlt by (intros x i Hx; apply H2 in Hx; by eapply lookup_lt_Some).
    split; cbn [fst snd].
    + intros x. destruct (decide (id = x)) as [<-|Hne]; [rewrite lookup_insert_eq; split; [by right|eauto]|].
      rewrite lookup_insert_ne, H1 by done. naive_solver.
    + intros x i [[<- <-]|[Hne Hx]]%lookup_insert_Some.
      * rewrite lookup_app_r, Nat.sub_diag by lia. cbn. f_equal. symmetry. apply farm_of_fresh. intros h Hh Hc <-. by apply Hn, H4.
      * rewrite lookup_app_l by (by eapply Hlt). by apply H2.
    + intros i f Hi. apply lookup_app_Some in Hi as [Hi|[Hlen Hi]].
      * apply H3 in Hi as Hi'. rewrite lookup_insert_ne; [done|]. intros ->. congruence.
      * destruct (i - length b.1)%nat eqn:Ei; [|done]. injection Hi as <-. rewrite new_farm_ID, lookup_insert_eq. f_equal. lia.
    + intros h Hh Hc. left. by apply H4.
Qed.

Lemma hosts_of_snoc hs h id : hosts_of (hs ++ [h]) id = hosts_of hs id ++ (if decide (OpenStackFold.Farm h = id ∧ claimed h) then [h] else []).
Proof. unfold hosts_of. by rewrite list.filter_app, list.filter_cons. Qed.

Lemma farm_of_snoc_other declared hs h id : ¬ (OpenStackFold.Farm h = id ∧ claimed h) → farm_of declared (hs ++ [h]) id = farm_of declared hs id.
Proof. intros H. unfold farm_of. by rewrite hosts_of_snoc, decide_False, app_nil_r by done. Qed.

Lemma farm_of_snoc declared hs h : claimed h → farm_of declared (hs ++ [h]) (OpenStackFold.Farm h) = host_in h (farm_of declared hs (OpenStackFold.Farm h)).
Proof.
  intros H. unfold farm_of, host_in. cbn. rewrite hosts_of_snoc, decide_True by done. f_equal.
  rewrite list.filter_app, length_app, list.filter_cons, list.filter_nil.
  destruct (String.eqb_spec (h_Confidence h) LocalOnly), (decide (h_Confidence h = LocalOnly)); try done; cbn [length]; lia.
Qed.

Lemma place_host_built declared known hs b h : built declared known hs b →
  built declared (λ x, known x ∨ claimed h ∧ x = OpenStackFold.Farm h) (hs ++ [h]) (place_host declared b h).
Proof.
  intros Hb. unfold place_host. destruct (String.eqb (OpenStackFold.Farm h) "" || negb (Detected h)) eqn:Hc.
  - assert (¬ claimed h) as Hn.
    { intros [Hf Hd]. apply orb_true_iff in Hc as [Hx%String.eqb_eq|Hc]; [done|]. by rewrite Hd in Hc. }
    destruct Hb as [H1 H2 H3 H4]. split; [intros id; rewrite H1; naive_solver| |done|].
    + intros id i Hi. rewrite farm_of_snoc_other by naive_solver. by apply H2.
    + intros h' Hh' Hc'. left. apply elem_of_app in Hh' as [?| ->%list_elem_of_singleton]; [by apply H4|done].
  - apply orb_false_iff in Hc as [Hf%String.eqb_neq Hd%negb_false_iff]. assert (claimed h) as Hcl by done.
    destruct (index_built declared known hs b (OpenStackFold.Farm h) Hb) as [[H1 H2 H3 H4] Hi].
    destruct (index declared b (OpenStackFold.Farm h)) as [b' i]. cbn [fst snd] in *. split; cbn [fst snd].
    + intros id. rewrite H1. naive_solver.
    + intros id j Hj. destruct (decide (id = OpenStackFold.Farm h)) as [->|Hne].
      * assert (j = i) as -> by congruence. by rewrite farm_of_snoc, list_lookup_alter_eq, (H2 _ _ Hi).
      * rewrite farm_of_snoc_other by naive_solver. rewrite list_lookup_alter_ne; [by apply H2|]. intros ->.
        apply H2 in Hj. apply H2 in Hi. rewrite Hj in Hi. injection Hi as E. by apply Hne.
    + intros j f Hj. destruct (decide (i = j)) as [<-|Hne]; [|rewrite list_lookup_alter_ne in Hj by done; by apply H3].
      rewrite list_lookup_alter_eq in Hj. rewrite (H2 _ _ Hi) in Hj. cbn in Hj. injection Hj as <-. exact Hi.
    + intros h' [Hh'| ->%list_elem_of_singleton]%elem_of_app Hc'; [|by right]. destruct (H4 h' Hh' Hc') as [?| ->]; [by left|by right].
Qed.

Lemma see_all declared known hs b ids : built declared known hs b →
  built declared (λ x, known x ∨ x ∈ ids) hs (foldl (λ b id, (index declared b id).1) b ids).
Proof.
  revert known b. induction ids as [|id ids IH]; intros known b Hb; cbn [foldl].
  - eapply built_ext; [|exact Hb]. set_solver.
  - eapply built_ext; [|apply IH, index_built, Hb]. set_solver.
Qed.

Lemma place_all declared known b hs : built declared known [] b →
  built declared (λ x, known x ∨ ∃ h, h ∈ hs ∧ claimed h ∧ x = OpenStackFold.Farm h) hs (foldl (place_host declared) b hs).
Proof.
  intros Hb. apply (foldl_invariant (λ seen b, built declared (λ x, known x ∨ ∃ h, h ∈ seen ∧ claimed h ∧ x = OpenStackFold.Farm h) seen b)).
  - eapply built_ext; [|exact Hb]. set_solver.
  - intros seen b' h IH. eapply built_ext; [|by apply place_host_built]. set_solver.
Qed.

Lemma foldl_map {A B C} (f : A → B → A) (g : C → B) (l : list C) (a : A) : foldl (λ a c, f a (g c)) a l = foldl f a (g <$> l).
Proof. by rewrite foldl_fmap. Qed.

(** The deployments a reading mentions. *)
Definition mentioned (s : Fleet) (id : string) : Prop :=
  (∃ d, d ∈ Deployments s ∧ d_ID d = id) ∨ (∃ h, h ∈ fl_Hosts s ∧ claimed h ∧ OpenStackFold.Farm h = id) ∨
  is_Some (fl_VMs s !! id) ∨ is_Some (fl_Gone s !! id) ∨ ∃ v, v ∈ fl_Instances s ∧ si_DeploymentID v = id.

Definition declared_of (s : Fleet) : gmap string Deployment := map_by d_ID (λ d, d) (Deployments s).

(** The building state before the farms are put in order. *)
Definition unsorted (visit : bool → gmap string Z → list string) (s : Fleet) : building :=
  let declared := declared_of s in
  let see := λ b id, (index declared b id).1 in
  foldl see (foldl see (foldl see (foldl (place_host declared) (foldl see ([], ∅) (d_ID <$> Deployments s)) (fl_Hosts s))
    (visit true (fl_VMs s))) (visit false (fl_Gone s))) (si_DeploymentID <$> fl_Instances s).

Lemma From_unsorted visit s : From visit s =
  let fs := sort (less_on string_ltb Label) (unsorted visit s).1 in
  {| farms := fs; byID := foldl (λ m e, <[f_ID e.2 := e.1]> m) (unsorted visit s).2 (imap pair fs);
     vms := foldl keep_vm ∅ (fl_Instances s); snap := s |}.
Proof. unfold From, unsorted. cbv zeta. by rewrite !foldl_fmap. Qed.

Notation lawful visit := (∀ (i : bool) (m : gmap string Z) id, id ∈ visit i m ↔ is_Some (m !! id)).

Lemma unsorted_built visit s : lawful visit → built (declared_of s) (mentioned s) (fl_Hosts s) (unsorted visit s).
Proof.
  intros Hv. unfold unsorted. cbv zeta. eapply built_ext; [|apply see_all, see_all, see_all, place_all, (see_all _ (λ _, False))].
  - intros id. cbn. rewrite !Hv, !list_elem_of_fmap. unfold mentioned. naive_solver.
  - split; cbn; [intros id; rewrite lookup_empty; split; [by intros []|done]|intros id i; by rewrite lookup_empty|done|set_solver].
Qed.

Lemma unsorted_farms visit s f : lawful visit → f ∈ (unsorted visit s).1 ↔ mentioned s (f_ID f) ∧ f = farm_of (declared_of s) (fl_Hosts s) (f_ID f).
Proof.
  intros Hv. destruct (unsorted_built visit s Hv) as [H1 H2 H3 _]. split.
  - intros Hf. apply list_elem_of_lookup in Hf as [i Hi]. apply H3 in Hi as Hp. split; [apply H1; by eexists|].
    apply H2 in Hp. congruence.
  - intros [[i Hi]%H1 Ef]. apply H2 in Hi. rewrite <-Ef in Hi. by eapply list_elem_of_lookup_2.
Qed.

Lemma unsorted_ids visit s : lawful visit → NoDup (f_ID <$> (unsorted visit s).1).
Proof.
  intros Hv. destruct (unsorted_built visit s Hv) as [_ _ H3 _]. apply NoDup_alt. intros i j x Hi Hj.
  rewrite list_lookup_fmap in Hi, Hj. apply fmap_Some in Hi as (f & Hi & ->), Hj as (f' & Hj & E). apply H3 in Hi, Hj. rewrite E in Hi. congruence.
Qed.

Lemma positions_by_id (fs : list Farm) (m : gmap string nat) : NoDup (f_ID <$> fs) →
  let m' := foldl (λ m e, <[f_ID e.2 := e.1]> m) m (imap pair fs) in
  (∀ i f, fs !! i = Some f → m' !! f_ID f = Some i) ∧ ∀ id, id ∉ f_ID <$> fs → m' !! id = m !! id.
Proof.
  cbv zeta. induction fs as [|f fs IH] using rev_ind; intros Hn; [done|]. rewrite imap_app, foldl_app. cbn.
  rewrite fmap_app in Hn. apply NoDup_app in Hn as (Hn & Hd & _). destruct (IH Hn) as [IH1 IH2]. split.
  - intros i g Hi. apply lookup_app_Some in Hi as [Hi|[Hlen Hi]].
    + rewrite lookup_insert_ne; [by apply IH1|]. intros E. apply (Hd (f_ID g)); [|rewrite <-E; cbn; by left].
      apply list_elem_of_fmap_2. by eapply list_elem_of_lookup_2.
    + destruct (i - length fs)%nat eqn:Ei; [|done]. injection Hi as <-. rewrite lookup_insert_eq. f_equal. lia.
  - intros id Hid. rewrite fmap_app in Hid. rewrite lookup_insert_ne by (intros <-; apply Hid, elem_of_app; right; cbn; by left).
    apply IH2. intros H. apply Hid, elem_of_app. by left.
Qed.

Lemma keep_vms vs id : default [] (foldl keep_vm ∅ vs !! id) = filter (λ v, si_DeploymentID v = id ∧ live v = true) vs.
Proof.
  apply (foldl_invariant (λ seen m, default [] (m !! id) = filter (λ v, si_DeploymentID v = id ∧ live v = true) seen)); [done|].
  intros seen m v IH. rewrite list.filter_app, list.filter_cons, list.filter_nil, <-IH. unfold keep_vm.
  destruct (live v); [|rewrite decide_False by naive_solver; by rewrite app_nil_r].
  destruct (decide (si_DeploymentID v = id)) as [<-|Hne]; [rewrite decide_True by done; by rewrite lookup_insert_eq|].
  rewrite lookup_insert_ne, decide_False by naive_solver. by rewrite app_nil_r.
Qed.

(** The ids of the two count maps and of the VM rows only ever append farms. *)
Lemma see_prefix declared ids b : b.1 `prefix_of` (foldl (λ b id, (index declared b id).1) b ids).1.
Proof.
  revert b. induction ids as [|id ids IH]; intros b; [done|]. cbn [foldl]. etrans; [|apply IH]. unfold index.
  destruct (b.2 !! id); cbn; [done|by eexists].
Qed.

Definition declared_part (s : Fleet) : building :=
  let declared := declared_of s in
  foldl (place_host declared) (foldl (λ b id, (index declared b id).1) ([], ∅) (d_ID <$> Deployments s)) (fl_Hosts s).

Lemma unsorted_tail visit s : lawful visit → ∃ t, (unsorted visit s).1 = (declared_part s).1 ++ t ∧
  ∀ f g, f ∈ t → g ∈ t → Label f = Label g → f = g.
Proof.
  intros Hv. unfold unsorted. cbv zeta. fold (declared_part s).
  assert ((declared_part s).1 `prefix_of` (unsorted visit s).1) as [t Et].
  { unfold unsorted. cbv zeta. fold (declared_part s). etrans; [apply see_prefix|]. etrans; [apply see_prefix|]. apply see_prefix. }
  exists t. split; [exact Et|]. pose proof (unsorted_ids visit s Hv) as Hn. rewrite Et, fmap_app in Hn. apply NoDup_app in Hn as (_ & Hd & Hnt).
  assert (built (declared_of s) (λ x, (∃ d, d ∈ Deployments s ∧ d_ID d = x) ∨ ∃ h, h ∈ fl_Hosts s ∧ claimed h ∧ x = OpenStackFold.Farm h) (fl_Hosts s) (declared_part s)) as [K1 K2 _ _].
  { eapply built_ext; [|apply place_all, (see_all _ (λ _, False))].
    - intros id. cbn. rewrite list_elem_of_fmap. naive_solver.
    - split; cbn; [intros id; rewrite lookup_empty; split; [by intros []|done]|intros id i; by rewrite lookup_empty|done|set_solver]. }
  assert (∀ f, f ∈ t → Label f = f_ID f) as Hlab.
  { intros f Hf. assert (f ∈ (unsorted visit s).1) as Hin by (rewrite Et; apply elem_of_app; by right).
    apply (unsorted_farms visit s f Hv) in Hin as [_ Ef]. unfold Label. enough (f_Name f = "") as -> by done. rewrite Ef. cbn. unfold new_farm.
    destruct (declared_of s !! f_ID f) as [d|] eqn:Ed; [|done]. exfalso.
    apply (proj1 (map_by_spec d_ID (λ d, d) (Deployments s))) in Ed as (d' & Hd' & Eid & _).
    assert (is_Some ((declared_part s).2 !! f_ID f)) as [i Hi] by (apply K1; left; by exists d'). apply K2 in Hi.
    apply (Hd (f_ID f)); [|by apply list_elem_of_fmap_2]. apply list_elem_of_fmap. exists (farm_of (declared_of s) (fl_Hosts s) (f_ID f)).
    split; [done|by eapply list_elem_of_lookup_2]. }
  intros f g Hf Hg E. rewrite !Hlab in E by done. apply list_elem_of_lookup in Hf as [i Hi], Hg as [j Hj].
  assert (i = j) as <-; [|congruence]. eapply (NoDup_lookup _ _ _ (f_ID f) Hnt); rewrite list_lookup_fmap, ?Hi, ?Hj; cbn; [done|by rewrite E].
Qed.

Lemma sort_tail (pre t1 t2 : list Farm) : (∀ f g, f ∈ t1 → g ∈ t1 → Label f = Label g → f = g) → t1 ≡ₚ t2 →
  sort (less_on string_ltb Label) (pre ++ t1) = sort (less_on string_ltb Label) (pre ++ t2).
Proof.
  intros Hsep Hp. unfold sort. rewrite !foldr_app. f_equal. apply (sort_Permutation_strong (less_on string_ltb Label)); [|done].
  intros f g Hf Hg Hfg Hgf. apply Hsep; [done..|]. by apply (less_connex (less:=string_ltb)).
Qed.

(** The catalog holds each deployment the reading mentions - declared,
    claimed by a probed host, counted, or with a VM row - exactly once, in the
    order of what is printed, with exactly the detected hosts placed in it and
    the number of those only local evidence places.  A question about an id is
    answered from that deployment's row; its VMs are those still listed; and the
    order in which the counts were read leaves no trace. *)
Theorem catalog_exact visit s : lawful visit → let c := From visit s in
  StronglySorted (not_after (less_on string_ltb Label)) (Farms c) ∧ NoDup (f_ID <$> Farms c) ∧
  (∀ f, f ∈ Farms c ↔ mentioned s (f_ID f) ∧ f = farm_of (declared_of s) (fl_Hosts s) (f_ID f)) ∧
  (∀ id f, Find c id = Some f ↔ f ∈ Farms c ∧ f_ID f = id) ∧
  (∀ id, VMs c id = filter (λ v, si_DeploymentID v = id ∧ live v = true) (fl_Instances s)) ∧
  ∀ visit', lawful visit' → Farms (From visit' s) = Farms c.
Proof.
  intros Hv c. subst c. rewrite From_unsorted. cbv zeta. unfold Farms, Find, VMs. cbn [farms byID vms].
  pose proof (unsorted_ids visit s Hv) as Hn. pose proof (λ f, unsorted_farms visit s f Hv) as Hf.
  assert (NoDup (f_ID <$> sort (less_on string_ltb Label) (unsorted visit s).1)) as Hns by by rewrite sort_perm.
  split; [apply sort_sorted, _|]. split; [done|]. split; [intros f; by rewrite sort_elem_of|]. split; [|split; [apply keep_vms|]].
  - intros id f. destruct (positions_by_id _ (unsorted visit s).2 Hns) as [Hp Hq]. set (fs := sort _ _) in *. split.
    + intros H. apply bind_Some in H as (i & Hi & Hfi). split; [by eapply list_elem_of_lookup_2|]. pose proof (Hp _ _ Hfi) as Hpf.
      destruct (decide (id ∈ f_ID <$> fs)) as [Hin|Hnin].
      * apply list_elem_of_fmap in Hin as (g & -> & Hg). apply list_elem_of_lookup in Hg as [j Hj]. rewrite (Hp _ _ Hj) in Hi. congruence.
      * exfalso. apply Hnin. rewrite Hq in Hi by done. destruct (unsorted_built visit s Hv) as [_ Hat _ _]. apply Hat in Hi.
        apply list_elem_of_fmap. exists (farm_of (declared_of s) (fl_Hosts s) id). split; [done|]. unfold fs. rewrite sort_elem_of.
        by eapply list_elem_of_lookup_2.
    + intros [Hin <-]. apply list_elem_of_lookup in Hin as [i Hi]. by rewrite (Hp _ _ Hi).
  - intros visit' Hv'. rewrite From_unsorted. cbn [farms]. assert ((unsorted visit s).1 ≡ₚ (unsorted visit' s).1) as Hp.
    { apply NoDup_Permutation; [by apply (NoDup_fmap_1 f_ID), unsorted_ids..|]. intros f. by rewrite Hf, unsorted_farms. }
    destruct (unsorted_tail visit s Hv) as (t & Et & Ht), (unsorted_tail visit' s Hv') as (t' & Et' & _). rewrite Et, Et' in *.
    apply Permutation_app_inv_l in Hp. symmetry. by apply sort_tail.
Qed.

(** ** Which deployment a word means *)

Lemma filter_singleton_spec {A} (P : A → Prop) `{!∀ x, base.Decision (P x)} (l : list A) x : NoDup l →
  filter P l = [x] ↔ x ∈ l ∧ P x ∧ ∀ y, y ∈ l → P y → y = x.
Proof.
  intros Hn. assert (∀ y, y ∈ filter P l ↔ P y ∧ y ∈ l) as Hin by (intros y; by rewrite list_elem_of_filter). split.
  - intros E. rewrite E in Hin. setoid_rewrite list_elem_of_singleton in Hin. destruct (proj1 (Hin x) eq_refl). split_and!; [done..|].
    intros y ? ?. by apply Hin.
  - intros (Hx & HP & Hu). pose proof (NoDup_filter P l Hn) as Hnf. destruct (filter P l) as [|y [|z l']].
    + exfalso. by apply (not_elem_of_nil x), Hin.
    + f_equal. symmetry. apply list_elem_of_singleton, Hin. done.
    + exfalso. assert (y = x) as -> by (apply Hu; apply (proj1 (Hin y)); by left). assert (z = x) as -> by (apply Hu; apply (proj1 (Hin z)); right; by left).
      apply NoDup_cons in Hnf as [Hnf _]. apply Hnf. by left.
Qed.

Lemma EqualFold_refl s : EqualFold s s = true.
Proof. unfold EqualFold. by apply String.eqb_eq. Qed.

Lemma position_of_spec fs i f : NoDup (f_ID <$> fs) → fs !! i = Some f → position_of (f_ID f) fs = Z.of_nat i.
Proof.
  revert i. induction fs as [|g fs IH]; intros i Hn Hi; [done|]. cbn in Hn. apply NoDup_cons in Hn as [Hg Hn]. cbn [position_of].
  destruct i as [|i]; [injection Hi as ->; by rewrite String.eqb_refl|]. cbn in Hi.
  destruct (String.eqb_spec (f_ID g) (f_ID f)) as [E|_].
  - exfalso. apply Hg. rewrite E. apply list_elem_of_fmap_2. by eapply list_elem_of_lookup_2.
  - rewrite (IH i Hn Hi). destruct (Z.of_nat i <? 0) eqn:H; bool_simpl; lia.
Qed.

(** How a word finds a deployment: by id, the first in the order shown that has
    it up to case; else by a name, if only one has it. *)
Definition by_id (fs : list Farm) (selector : string) (f : Farm) : Prop :=
  ∃ pre post, fs = pre ++ f :: post ∧ EqualFold (f_ID f) selector = true ∧ ∀ g, g ∈ pre → EqualFold (f_ID g) selector = false.
Definition by_name (fs : list Farm) (selector : string) (f : Farm) : Prop :=
  (∀ g, g ∈ fs → EqualFold (f_ID g) selector = false) ∧ f ∈ fs ∧ named selector f = true ∧ ∀ g, g ∈ fs → named selector g = true → g = f.

Lemma by_id_spec fs selector :
  match filter (λ f, EqualFold (f_ID f) selector = true) fs with
  | [] => ∀ g, g ∈ fs → EqualFold (f_ID g) selector = false
  | f :: _ => by_id fs selector f
  end.
Proof.
  induction fs as [|g fs IH]; [set_solver|]. rewrite list.filter_cons. destruct (decide (EqualFold (f_ID g) selector = true)) as [E|E].
  - exists [], fs. split_and!; [done|done|set_solver].
  - apply not_true_is_false in E. destruct (filter _ fs) as [|f l].
    + intros h [->|Hh]%elem_of_cons; [done|by apply IH].
    + destruct IH as (pre & post & -> & H1 & H2). exists (g :: pre), post. split_and!; [done..|]. intros h [->|Hh]%elem_of_cons; [done|by apply H2].
Qed.

Lemma by_id_unique fs selector f f' : by_id fs selector f → by_id fs selector f' → f = f'.
Proof.
  intros (pre & post & -> & H1 & H2) (pre' & post' & E & H1' & H2').
  revert pre' E H2'. induction pre as [|g pre IH]; intros [|g' pre'] E H2'; cbn in E; injection E as ->.
  - done.
  - specialize (H2' g' ltac:(by left)). congruence.
  - specialize (H2 f' ltac:(by left)). congruence.
  - apply (IH ltac:(intros; apply H2; by right) pre' H ltac:(intros; apply H2'; by right)).
Qed.

(** A word means exactly one deployment or none.  An id outweighs every
    name; a name counts only when one deployment has it, and when several do all
    their ids are given back instead of a choice; the error otherwise says there
    is none.  The id a listing prints resolves to its own deployment as long as
    no two ids differ in case alone, and a cursor stands where the deployment
    is. *)
Theorem Resolve_exact fs selector : NoDup (f_ID <$> fs) → TrimSpace selector ≠ "" →
  (∀ f, Resolve fs selector = Ok f ↔ by_id fs selector f ∨ by_name fs selector f) ∧
  (∀ e, Resolve fs selector = Err e → (∀ g, g ∈ fs → EqualFold (f_ID g) selector = false) ∧
    let sharing := filter (λ g, named selector g = true) fs in
    e = NoDeployment selector ∧ sharing = [] ∨ e = SharedName selector (f_ID <$> sharing) ∧ (1 < length sharing)%nat) ∧
  (∀ f, f ∈ fs → selector = f_ID f → (∀ g, g ∈ fs → EqualFold (f_ID g) (f_ID f) = true → g = f) → Resolve fs selector = Ok f) ∧
  (∀ f, Resolve fs selector = Ok f → ∃ i, IndexOf fs selector = Z.of_nat i ∧ fs !! i = Some f) ∧
  (∀ e, Resolve fs selector = Err e → IndexOf fs selector = -1).
Proof.
  intros Hn Hsel. assert (∀ f, Resolve fs selector = Ok f → f ∈ fs) as Hin.
  { intros f. unfold Resolve. case_if; [done|]. pose proof (by_id_spec fs selector) as Hi. destruct (filter _ fs) as [|g l].
    - destruct (filter (λ f, named selector f = true) fs) as [|g [|g' l]] eqn:E; intros H; try discriminate H. injection H as <-.
      assert (g ∈ [g]) as Hg by by left. rewrite <-E in Hg. by apply list_elem_of_filter in Hg as [_ ?].
    - intros [= <-]. destruct Hi as (pre & post & -> & _). apply elem_of_app; right; by left. }
  split; [|split; [|split; [|split]]].
  - intros f. unfold Resolve. apply String.eqb_neq in Hsel as ->. pose proof (by_id_spec fs selector) as Hi. destruct (filter _ fs) as [|g l].
    + assert (¬ by_id fs selector f) as Hno by (intros (pre & post & E & H & _); rewrite (Hi f) in H; [discriminate H|rewrite E; apply elem_of_app; right; by left]).
      transitivity (filter (λ f, named selector f = true) fs = [f]).
      { destruct (filter (λ f, named selector f = true) fs) as [|x [|y l]]; split; intros H; try discriminate H; congruence. }
      rewrite filter_singleton_spec by by apply (NoDup_fmap_1 f_ID). unfold by_name. naive_solver.
    + assert (g ∈ fs ∧ EqualFold (f_ID g) selector = true) as [Hg1 Hg2] by (destruct Hi as (pre & post & -> & ? & _); split; [apply elem_of_app; right; by left|done]).
      split; [intros [= <-]; by left|]. intros [H|(H & _)]; [by rewrite (by_id_unique _ _ _ _ Hi H)|]. by rewrite (H g Hg1) in Hg2.
  - intros e. unfold Resolve. apply String.eqb_neq in Hsel as ->. pose proof (by_id_spec fs selector) as Hi. destruct (filter _ fs) as [|g l]; [|done].
    destruct (filter (λ f, named selector f = true) fs) as [|x [|y l]] eqn:E; intros [= <-]; (split; [done|]); cbv zeta; [by left|right]. split; [done|cbn; lia].
  - intros f Hf -> Hu. unfold Resolve. apply String.eqb_neq in Hsel as ->. pose proof (by_id_spec fs (f_ID f)) as Hi. destruct (filter _ fs) as [|g l].
    + pose proof (EqualFold_refl (f_ID f)) as H. by rewrite (Hi f Hf) in H.
    + f_equal. destruct Hi as (pre & post & E & H & _). apply Hu; [rewrite E; apply elem_of_app; right; by left|done].
  - intros f Hf. unfold IndexOf. rewrite Hf. pose proof (Hin f Hf) as Hx. apply list_elem_of_lookup in Hx as [i Hi]. exists i.
    split; [by apply position_of_spec|done].
  - intros e He. unfold IndexOf. by rewrite He.
Qed.

(** Two ids that differ in case alone: the exact one does not win. *)
Example exact_id_may_lose : let f id := farm_of ∅ [] id in
  Resolve [f "https://A"; f "https://a"] "https://a" = Ok (f "https://A").
Proof. reflexivity. Qed.

(** ** Witnesses *)

Definition demo_deployment (id name : string) : Deployment :=
  {| d_ID := id; d_DisplayName := name; d_Region := ""; d_KeystoneURL := id; d_HorizonURL := ""; d_KeystoneCAPEM := "";
     d_KeystoneVerifyURL := ""; d_State := ""; d_StateNote := ""; d_StateChangedAt := None |}.
Definition demo_fleet : Fleet :=
  {| Deployments := [demo_deployment "k1" "seoul"; demo_deployment "k2" "busan"; demo_deployment "k3" "seoul"]; fl_Hosts := [];
     fl_Instances := []; fl_VMs := {["k9" := 4]}; fl_Gone := ∅; Runs := ∅; InventoryHosts := 0; ReadAt := 5 |}.
Definition keys_in_order (i : bool) (m : gmap string Z) : list string := (map_to_list m).*1.

Lemma keys_lawful (i : bool) (m : gmap string Z) id : id ∈ keys_in_order i m ↔ is_Some (m !! id).
Proof.
  unfold keys_in_order. rewrite list_elem_of_fmap. split.
  - intros ([k v] & -> & H%elem_of_map_to_list). by exists v.
  - intros [v H]. exists (id, v). split; [done|by apply elem_of_map_to_list].
Qed.

Lemma catalog_exact_witness :
  f_ID <$> Farms (From keys_in_order demo_fleet) = ["k2"; "k9"; "k1"; "k3"] ∧ NoDup (f_ID <$> Farms (From keys_in_order demo_fleet)).
Proof. split; [by vm_compute|]. apply (catalog_exact keys_in_order demo_fleet keys_lawful). Defined.

Lemma Resolve_exact_witness :
  let fs := Farms (From keys_in_order demo_fleet) in
  Resolve fs "seoul" = Err (SharedName "seoul" ["k1"; "k3"]) ∧ IndexOf fs "seoul" = -1.
Proof.
  assert (NoDup (f_ID <$> Farms (From keys_in_order demo_fleet))) as Hn by (apply (bool_decide_unpack _); by vm_compute).
  assert (Resolve (Farms (From keys_in_order demo_fleet)) "seoul" = Err (SharedName "seoul" ["k1"; "k3"])) as E by by vm_compute.
  split; [exact E|]. assert (TrimSpace "seoul" ≠ "") as Hs by (vm_compute; discriminate).
  by eapply (Resolve_exact (Farms (From keys_in_order demo_fleet)) "seoul" Hn Hs).
Defined.
