(* ===== verification/FleetCache.v ===== *)
(** Readings of the fleet kept on disk (internal/openstack/fleet/cache.go,
    policy.go and reader.go): which of them may answer what, and how a change
    keeps what was read before it from coming back.

    A stored file is the value it decodes to; the JSON codec, the timestamp
    format and the atomic replacement of a file are the standard library's and
    internal/securefile's. *)

From S2P Require Import Prelude GoStrings OpenStackFold FleetCatalog.

(** ** Purposes *)

Inductive Purpose := ForListing | ForCompletion | ForBrowsing | ForFallback | ForConnecting | ForChanging | ForDiagnosing.

Definition FreshFor : duration := 5 * Minute.
Definition UsableFor : duration := 24 * Hour.
Definition clockSkewAllowance : duration := 30 * Second.
Definition cacheVersion : Z := 1.

Definition MayReadStored (p : Purpose) : bool :=
  match p with ForListing | ForCompletion | ForBrowsing | ForFallback => true | _ => false end.

Definition MaxAge (p : Purpose) : duration :=
  match p with
  | ForListing => FreshFor
  | ForCompletion | ForBrowsing | ForFallback => UsableFor
  | _ => 0
  end.

Definition purpose_name (p : Purpose) : string :=
  match p with
  | ForListing => "listing" | ForCompletion => "completion" | ForBrowsing => "browsing" | ForFallback => "offline fallback"
  | ForConnecting => "connecting" | ForChanging => "changing" | ForDiagnosing => "diagnosing"
  end.

(** ** Files *)

Inductive Shape := ShapeFarms | ShapeVMs.
#[export] Instance shape_eq_dec : EqDecision Shape.
Proof. solve_decision. Defined.

Definition carries (s : Shape) : Z := match s with ShapeVMs => 2 | ShapeFarms => 1 end.

(** A file is written with no shape; [Load] puts in the one it was read as. *)
Record Cached := { Version : Z; c_Shape : option Shape; CapturedAt : time_t; c_Fleet : Fleet }.

Definition Age (c : Cached) (now : time_t) : duration := Sub now (CapturedAt c).
Definition Fresh (c : Cached) (now : time_t) : bool := Age c now <? FreshFor.

(** A file that is there: it cannot be read, it does not parse, or its value. *)
Inductive content := Unreadable | Malformed | Parsed (c : Cached).

(** The directory; the marker is the time it decodes to, if it does. *)
Record Cache := { dir_set : bool; farms_file : option content; vms_file : option content; marker : option time_t }.

Definition file (c : Cache) (s : Shape) : option content := match s with ShapeFarms => farms_file c | ShapeVMs => vms_file c end.
Definition set_file (c : Cache) (s : Shape) (f : option content) : Cache :=
  match s with
  | ShapeFarms => {| dir_set := dir_set c; farms_file := f; vms_file := vms_file c; marker := marker c |}
  | ShapeVMs => {| dir_set := dir_set c; farms_file := farms_file c; vms_file := f; marker := marker c |}
  end.
Definition set_marker (c : Cache) (t : time_t) : Cache :=
  {| dir_set := dir_set c; farms_file := farms_file c; vms_file := vms_file c; marker := Some t |}.

(** Every one of them is [ErrNoCache]. *)
Inductive no_cache := NoFile | ReadFailed | ParseFailed | OtherVersion (v : Z) | NoCaptureTime | FromTheFuture (by_ : duration) | TooOld (age : duration).

Definition Load (c : Cache) (s : Shape) (now : time_t) : result no_cache Cached :=
  if negb (dir_set c) then Err NoFile
  else match file c s with
  | None => Err NoFile
  | Some Unreadable => Err ReadFailed
  | Some Malformed => Err ParseFailed
  | Some (Parsed out) =>
      if negb (Version out =? cacheVersion) then Err (OtherVersion (Version out))
      else if IsZero (CapturedAt out) then Err NoCaptureTime
      else if Age out now <? - clockSkewAllowance then Err (FromTheFuture (wrap64 (- Age out now)))
      else if UsableFor <? Age out now then Err (TooOld (Age out now))
      else Ok {| Version := Version out; c_Shape := Some s; CapturedAt := CapturedAt out; c_Fleet := c_Fleet out |}
  end.

(** The loop's variables: the best reading found, and the first error. *)
Definition load_step (c : Cache) (want : Shape) (now : time_t) (acc : option Cached * option no_cache) (from : Shape)
    : option Cached * option no_cache :=
  if carries from <? carries want then acc
  else match Load c from now with
       | Err e => (acc.1, match acc.2 with None => Some e | Some _ => acc.2 end)
       | Ok got =>
           match acc.1 with
           | None => (Some got, acc.2)
           | Some best => (Some (if After (CapturedAt got) (CapturedAt best) then got else best), acc.2)
           end
       end.

Definition LoadAtLeast (c : Cache) (s : Shape) (now : time_t) : result no_cache Cached :=
  match foldl (load_step c s now) (None, None) [ShapeFarms; ShapeVMs] with
  | (Some best, _) => Ok best
  | (None, Some e) => Err e
  | (None, None) => Err NoFile
  end.

(** ** Writing *)

Inductive cache_error := ErrNoDirectory | ErrNoReadTime | ErrDisk.

Definition clearedAt (c : Cache) : time_t := default 0 (marker c).

(** Whether creating the directory and replacing a file succeed. *)
Record disk := { mkdir_ok : bool; write_ok : bool }.

(** What [Save] decides before it writes: an error, nothing to do, or the value
    to write. *)
Definition save_check (d : disk) (c : Cache) (s : Shape) (snap : Fleet) (now : time_t) : result cache_error (option Cached) :=
  if negb (dir_set c) then Err ErrNoDirectory
  else if IsZero (ReadAt snap) then Err ErrNoReadTime
  else if negb (mkdir_ok d) then Err ErrDisk
  else if negb (IsZero (clearedAt c)) && negb (After (ReadAt snap) (clearedAt c)) then Ok None
  else if match Load c s now with Ok prev => negb (After (ReadAt snap) (CapturedAt prev)) | Err _ => false end then Ok None
  else Ok (Some {| Version := cacheVersion; c_Shape := None; CapturedAt := ReadAt snap; c_Fleet := snap |}).

Definition save_write (d : disk) (c : Cache) (s : Shape) (v : Cached) : result cache_error Cache :=
  if write_ok d then Ok (set_file c s (Some (Parsed v))) else Err ErrDisk.

Definition Save (d : disk) (c : Cache) (s : Shape) (snap : Fleet) (now : time_t) : result cache_error Cache :=
  w ← save_check d c s snap now;
  match w with None => Ok c | Some v => save_write d c s v end.

(** Whether removing a file that is there succeeds. *)
Definition clear_file (remove_ok : bool) (c : Cache) (s : Shape) : result cache_error Cache :=
  match file c s with
  | None => Ok c
  | Some _ => if remove_ok then Ok (set_file c s None) else Err ErrDisk
  end.

(** The cache as it is left, and the error if there was one. *)
Definition Clear (d : disk) (remove_ok : Shape → bool) (c : Cache) (at_ now : time_t) : Cache * option cache_error :=
  if negb (dir_set c) then (c, None)
  else match clear_file (remove_ok ShapeFarms) c ShapeFarms with
  | Err e => (c, Some e)
  | Ok c =>
      match clear_file (remove_ok ShapeVMs) c ShapeVMs with
      | Err e => (c, Some e)
      | Ok c =>
          if mkdir_ok d && write_ok d then (set_marker c (if IsZero at_ then now else at_), None)
          else (c, Some ErrDisk)
      end
  end.

(** ** The reader *)

Definition error : Type := string.

Inductive Source := FromDatabase | FromStored | FromFallback.

Record ReadRequest := { rq_Shape : Shape; rq_Purpose : Purpose; Live : bool }.

Record Reading := { rd_Catalog : Catalog; rd_Source : Source; rd_Age : duration; rd_Err : option error }.

Section reader.
Context (visit : bool → gmap string Z → list string).

(** A nil [Cache] is [None]. *)
Definition Stored (cache : option Cache) (shape : Shape) (why : Purpose) (now : time_t) : option Reading :=
  match cache with
  | None => None
  | Some c =>
      if negb (MayReadStored why) then None
      else match LoadAtLeast c shape now with
           | Err _ => None
           | Ok got =>
               if Age got now <=? MaxAge why
               then Some {| rd_Catalog := From visit (c_Fleet got); rd_Source := FromStored; rd_Age := Age got now; rd_Err := None |}
               else None
           end
  end.

(** The clock is read at each look at the disk: [now1] before the database is
    asked, [now2] by [Save], [now3] by the fallback. *)
Definition Read (d : disk) (cache : option Cache) (load : result error Fleet) (req : ReadRequest) (now1 now2 now3 : time_t)
    : result error Reading * option Cache :=
  match (if Live req then None else Stored cache (rq_Shape req) (rq_Purpose req) now1) with
  | Some rd => (Ok rd, cache)
  | None =>
      match load with
      | Ok snap =>
          (Ok {| rd_Catalog := From visit snap; rd_Source := FromDatabase; rd_Age := 0; rd_Err := None |},
           (λ c, match Save d c (rq_Shape req) snap now2 with Ok c' => c' | Err _ => c end) <$> cache)
      | Err err =>
          match (if negb (Live req) && MayReadStored (rq_Purpose req) then Stored cache (rq_Shape req) ForFallback now3 else None) with
          | Some rd => (Ok {| rd_Catalog := rd_Catalog rd; rd_Source := FromFallback; rd_Age := rd_Age rd; rd_Err := Some err |}, cache)
          | None => (Err err, cache)
          end
      end
  end.
End reader.

(** ** What a stored reading is good for *)

(** The file of [from] holds a reading taken between [now - max] and half a
    minute from now. *)
Definition holds (c : Cache) (from : Shape) (now : time_t) (max : duration) (got : Cached) : Prop :=
  ∃ v, file c from = Some (Parsed v) ∧ Version v = cacheVersion ∧ CapturedAt v ≠ 0 ∧
    CapturedAt v ≤ now + clockSkewAllowance ∧ now ≤ CapturedAt v + max ∧
    got = {| Version := cacheVersion; c_Shape := Some from; CapturedAt := CapturedAt v; c_Fleet := c_Fleet v |}.

Lemma Age_window v now max : 0 ≤ max → max < int64_max →
  - clockSkewAllowance ≤ Age v now ∧ Age v now ≤ max ↔ CapturedAt v ≤ now + clockSkewAllowance ∧ now ≤ CapturedAt v + max.
Proof. unfold Age, Sub, clamp64, clockSkewAllowance, int64_min, int64_max, Second, Millisecond, Microsecond, Nanosecond. lia. Qed.

Lemma Load_spec c s now got : Load c s now = Ok got ↔ dir_set c = true ∧ holds c s now UsableFor got.
Proof.
  unfold Load, holds. destruct (dir_set c); cbn [negb]; [|split; [done|by intros [? _]]].
  destruct (file c s) as [[| |v]|]; try (split; [done|intros (_ & v' & ? & _); done]).
  assert (0 ≤ UsableFor ∧ UsableFor < int64_max) as [Hu1 Hu2] by done. pose proof (Age_window v now UsableFor Hu1 Hu2) as Hw.
  unfold IsZero. destruct (Version v =? cacheVersion) eqn:Hv; cbn [negb]; [bool_simpl|split; [done|]; bool_simpl; intros (_ & v' & [= <-] & ? & _); done].
  destruct (CapturedAt v =? 0) eqn:Hc; [split; [done|]; bool_simpl; intros (_ & v' & [= <-] & _ & ? & _); done|]. bool_simpl.
  destruct (Age v now <? - clockSkewAllowance) eqn:H1.
  { split; [done|]. bool_simpl. intros (_ & v' & [= <-] & _ & _ & H2 & H3 & _). pose proof (proj2 Hw (conj H2 H3)). lia. }
  destruct (UsableFor <? Age v now) eqn:H2.
  { split; [done|]. bool_simpl. intros (_ & v' & [= <-] & _ & _ & H3 & H4 & _). pose proof (proj2 Hw (conj H3 H4)). lia. }
  bool_simpl. pose proof (proj1 Hw (conj H1 H2)) as [? ?]. split.
  - intros [= <-]. split; [done|]. exists v. rewrite Hv. by split_and!.
  - intros (_ & v' & [= <-] & _ & _ & _ & _ & ->). by rewrite Hv.
Qed.

(** The newest of the readings that carry enough. *)
Definition newest (c : Cache) (s : Shape) (now : time_t) (got : Cached) : Prop :=
  (∃ from, carries s ≤ carries from ∧ Load c from now = Ok got) ∧
  ∀ from other, carries s ≤ carries from → Load c from now = Ok other → CapturedAt other ≤ CapturedAt got.

Lemma LoadAtLeast_spec c s now :
  match LoadAtLeast c s now with
  | Ok got => newest c s now got
  | Err _ => ∀ from got, carries s ≤ carries from → Load c from now ≠ Ok got
  end.
Proof.
  unfold LoadAtLeast. cbn [foldl]. unfold load_step, After, newest.
  assert (∀ P : Shape → Prop, (∀ f, P f) ↔ P ShapeFarms ∧ P ShapeVMs) as Hall by (intros P; split; [done|intros [? ?] []; done]).
  assert (∀ P : Shape → Prop, (∃ f, P f) ↔ P ShapeFarms ∨ P ShapeVMs) as Hex by (intros P; split; [intros [[] ?]; tauto|intros []; eauto]).
  destruct s; cbn [carries]; change (1 <? 1) with false; change (1 <? 2) with true; change (2 <? 1) with false; change (2 <? 2) with false; cbn match;
    destruct (Load c ShapeFarms now) as [a|e1] eqn:E1, (Load c ShapeVMs now) as [b|e2] eqn:E2; cbn [fst snd];
    try case_if; rewrite ?Hex, ?Hall; bool_simpl; cbn [carries]; rewrite ?E1, ?E2;
    (split_and! || idtac); try (by intros; congruence); try (intros; simplify_eq; lia); try tauto;
    try (by left); try (by right); try (intros [] got Hc; cbn in Hc; rewrite ?E1, ?E2; (lia || done)).
Qed.

Lemma newest_holds c s now got : newest c s now got → ∃ from, carries s ≤ carries from ∧ holds c from now UsableFor got.
Proof. intros [(from & Hc & [_ H]%Load_spec) _]. by exists from. Qed.

Lemma holds_max c from now max got : 0 ≤ max → max < int64_max → holds c from now UsableFor got → Age got now ≤ max → holds c from now max got.
Proof.
  intros Hm Hm' (v & Hf & Hv & H0 & H1 & H2 & ->) Ha. exists v. split_and!; try done. unfold Age, Sub, clamp64, int64_max, int64_min in *. cbn in Ha. lia.
Qed.

(** A reading from disk: which it is, and how old. *)
Definition from_disk (visit : bool → gmap string Z → list string) (cache : option Cache) (shape : Shape) (now : time_t) (max : duration)
    (rd : Reading) : Prop :=
  ∃ c got from, cache = Some c ∧ newest c shape now got ∧ carries shape ≤ carries from ∧ holds c from now max got ∧
    rd_Catalog rd = From visit (c_Fleet got) ∧ rd_Age rd = Age got now.

Lemma Stored_spec visit cache shape why now : match Stored visit cache shape why now with
  | Some rd => MayReadStored why = true ∧ rd_Source rd = FromStored ∧ rd_Err rd = None ∧ from_disk visit cache shape now (MaxAge why) rd
  | None => MayReadStored why = false ∨ cache = None ∨ ∃ c, cache = Some c ∧
      ∀ from got, carries shape ≤ carries from → Load c from now = Ok got → newest c shape now got → MaxAge why < Age got now
  end.
Proof.
  unfold Stored. destruct cache as [c|]; [|by right; left]. destruct (MayReadStored why) eqn:Hm; cbn [negb]; [|by left].
  pose proof (LoadAtLeast_spec c shape now) as H. destruct (LoadAtLeast c shape now) as [got|e].
  - case_if; bool_simpl.
    + split_and!; [done..|]. destruct (newest_holds _ _ _ _ H) as (from & Hc & Hh). exists c, got, from. split_and!; try done.
      by apply holds_max; [destruct why|destruct why|..].
    + right; right. exists c. split; [done|]. intros from got' Hc Hl [_ Hn]. destruct H as [(from0 & Hc0 & Hl0) Hn0].
      pose proof (Hn _ _ Hc0 Hl0). pose proof (Hn0 _ _ Hc Hl). unfold Age in *. assert (CapturedAt got = CapturedAt got') as <- by lia. done.
  - right; right. exists c. split; [done|]. intros from got Hc Hl. by destruct (H from got Hc).
Qed.

(** A request is answered from disk only when its purpose may be, the
    operator did not ask for the database, and the newest reading that carries
    enough is no older than the purpose allows; from an older reading, of at most
    a day, only when the database refused, and the refusal is passed on; from the
    database otherwise.  It fails only with the database's error.  So connecting
    to a machine, changing one or diagnosing one is never answered from disk. *)
Theorem Read_exact visit d cache load req now1 now2 now3 :
  let '(r, cache') := Read visit d cache load req now1 now2 now3 in
  (∀ rd, r = Ok rd →
    match rd_Source rd with
    | FromStored => Live req = false ∧ MayReadStored (rq_Purpose req) = true ∧ rd_Err rd = None ∧ cache' = cache ∧
        from_disk visit cache (rq_Shape req) now1 (MaxAge (rq_Purpose req)) rd
    | FromDatabase => ∃ snap, load = Ok snap ∧ rd_Catalog rd = From visit snap ∧ rd_Age rd = 0 ∧ rd_Err rd = None
    | FromFallback => Live req = false ∧ MayReadStored (rq_Purpose req) = true ∧ cache' = cache ∧
        (∃ e, load = Err e ∧ rd_Err rd = Some e) ∧ from_disk visit cache (rq_Shape req) now3 UsableFor rd
    end) ∧
  (∀ e, r = Err e → load = Err e ∧ cache' = cache) ∧
  (rq_Purpose req ∈ [ForConnecting; ForChanging; ForDiagnosing] → ∀ rd, r = Ok rd → rd_Source rd = FromDatabase).
Proof.
  unfold Read. pose proof (Stored_spec visit cache (rq_Shape req) (rq_Purpose req) now1) as H1.
  pose proof (Stored_spec visit cache (rq_Shape req) ForFallback now3) as H3.
  assert (∀ p, p ∈ [ForConnecting; ForChanging; ForDiagnosing] → MayReadStored p = false) as Hno by (intros p Hp; destruct p; set_solver).
  destruct (Live req) eqn:El; [|destruct (Stored visit cache (rq_Shape req) (rq_Purpose req) now1) as [rd|]].
  - cbn [negb andb]. destruct load as [snap|e]; split_and!; intros; simplify_eq/=; try done. by exists snap.
  - destruct H1 as (Hm & Hs & He & Hd). split_and!; [|done|].
    + intros rd' [= <-]. rewrite Hs. by split_and!.
    + intros Hp. apply Hno in Hp. congruence.
  - destruct load as [snap|e]; [split_and!; intros; simplify_eq/=; try done; by exists snap|]. cbn [negb andb].
    destruct (MayReadStored (rq_Purpose req)) eqn:Hm; [|split_and!; intros; simplify_eq/=; done].
    destruct (Stored visit cache (rq_Shape req) ForFallback now3) as [rd|]; [|split_and!; intros; simplify_eq/=; done].
    destruct H3 as (_ & _ & _ & c & got & from & Hd). split_and!; [|done|intros Hp; apply Hno in Hp; congruence].
    intros rd' [= <-]. cbn. split_and!; [done..|by exists e|]. by exists c, got, from.
Qed.

(** ** Clearing

    What a command may do to the files, one at a time. *)
Inductive event :=
| ESave (d : disk) (s : Shape) (reading : Fleet) (now : time_t)
| EClear (d : disk) (remove_ok : Shape → bool) (at_ now : time_t).

Definition happen (c : Cache) (e : event) : Cache :=
  match e with
  | ESave d s reading now => match Save d c s reading now with Ok c' => c' | Err _ => c end
  | EClear d rm at_ now => (Clear d rm c at_ now).1
  end.

(** When the last clear that succeeded says the fleet changed. *)
Definition change_time (c : Cache) (e : event) (last : time_t) : time_t :=
  match e with
  | EClear d rm at_ now =>
      if dir_set c then match (Clear d rm c at_ now).2 with None => if IsZero at_ then now else at_ | Some _ => last end else last
  | ESave _ _ _ _ => last
  end.

Fixpoint last_change (c : Cache) (es : list event) (last : time_t) : time_t :=
  match es with [] => last | e :: es' => last_change (happen c e) es' (change_time c e last) end.

(** Everything stored is newer than the marker. *)
Definition after_marker (c : Cache) : Prop :=
  clearedAt c = 0 ∨ ∀ s v, file c s = Some (Parsed v) → clearedAt c < CapturedAt v.

Lemma file_set c s f s' : file (set_file c s f) s' = if decide (s = s') then f else file c s'.
Proof. by destruct s, s'. Qed.

Lemma clearedAt_set c s f : clearedAt (set_file c s f) = clearedAt c.
Proof. by destruct s. Qed.

Lemma Save_spec d c s snap now c' : Save d c s snap now = Ok c' →
  c' = c ∨ c' = set_file c s (Some (Parsed {| Version := cacheVersion; c_Shape := None; CapturedAt := ReadAt snap; c_Fleet := snap |})) ∧
    (clearedAt c = 0 ∨ clearedAt c < ReadAt snap) ∧ ∀ prev, Load c s now = Ok prev → CapturedAt prev < ReadAt snap.
Proof.
  unfold Save, save_check. intros H. destruct (dir_set c); cbn [negb] in H; [|done]. destruct (IsZero (ReadAt snap)); [done|].
  destruct (mkdir_ok d); cbn [negb] in H; [|done]. unfold IsZero, After in H.
  destruct (negb (clearedAt c =? 0) && negb (clearedAt c <? ReadAt snap)) eqn:Hm; [cbn in H; left; congruence|].
  assert (clearedAt c = 0 ∨ clearedAt c < ReadAt snap) as Hmk by (apply andb_false_iff in Hm as [?|?]; bool_simpl; [by left|by right]).
  destruct (Load c s now) as [prev|e].
  - destruct (negb (CapturedAt prev <? ReadAt snap)) eqn:Hp; [cbn in H; left; congruence|]. cbn in H. unfold save_write in H.
    destruct (write_ok d); [|done]. right. split_and!; [congruence|done|]. intros ? [= <-]. by bool_simpl.
  - cbn in H. unfold save_write in H. destruct (write_ok d); [|done]. right. split_and!; [congruence|done|done].
Qed.

Lemma clear_file_spec ok c s c' : clear_file ok c s = Ok c' → c' = set_file c s None.
Proof.
  unfold clear_file. destruct (file c s) as [f|] eqn:E; [by destruct ok; intros [= <-]|]. intros [= <-].
  destruct c, s; unfold file in E; cbn in *; by rewrite E.
Qed.

Lemma dir_set_file c s f : dir_set (set_file c s f) = dir_set c.
Proof. by destruct s. Qed.

(** What a clear leaves: some files removed, and the marker moved only when all
    of them are. *)
Lemma Clear_spec d rm c at_ now : let '(c', e) := Clear d rm c at_ now in dir_set c = true →
  match e with
  | None => c' = {| dir_set := true; farms_file := None; vms_file := None; marker := Some (if IsZero at_ then now else at_) |}
  | Some _ => dir_set c' = true ∧ marker c' = marker c ∧ ∀ s v, file c' s = Some v → file c s = Some v
  end.
Proof.
  unfold Clear. destruct (dir_set c) eqn:Hd; cbn [negb]; [|done].
  destruct (clear_file (rm ShapeFarms) c ShapeFarms) as [c1|e1] eqn:E1; [|done]. apply clear_file_spec in E1 as ->.
  destruct (clear_file (rm ShapeVMs) (set_file c ShapeFarms None) ShapeVMs) as [c2|e2] eqn:E2.
  - apply clear_file_spec in E2 as ->. destruct (mkdir_ok d && write_ok d); intros _; [by rewrite <-Hd|]. cbn.
    split_and!; [done..|]. by intros [] v.
  - intros _. cbn. split_and!; [done..|]. by intros [] v.
Qed.

Lemma happen_ok c e : dir_set c = true → after_marker c →
  dir_set (happen c e) = true ∧ after_marker (happen c e) ∧ clearedAt (happen c e) = change_time c e (clearedAt c).
Proof.
  intros Hd Hc. destruct e as [d s snap now|d rm at_ now]; cbn [happen change_time].
  - destruct (Save d c s snap now) as [c'|e] eqn:E; [|done]. apply Save_spec in E as [->|(-> & Hm & _)]; [done|].
    rewrite dir_set_file, clearedAt_set. split_and!; [done| |done]. destruct Hc as [Hc|Hc]; [by left; rewrite clearedAt_set|].
    destruct Hm as [Hm|Hm]; [by left; rewrite clearedAt_set|]. right. intros s' v. rewrite file_set, clearedAt_set.
    destruct (decide (s = s')); [by intros [= <-]|by apply Hc].
  - rewrite Hd. pose proof (Clear_spec d rm c at_ now) as H. destruct (Clear d rm c at_ now) as [c' [e|]]; cbn [fst snd]; specialize (H Hd).
    + destruct H as (Hd' & Hm & Hf). split_and!; [done| |unfold clearedAt; by rewrite Hm]. unfold after_marker, clearedAt in *. rewrite Hm.
      destruct Hc as [Hc|Hc]; [by left|right]. intros s v Hv. by apply (Hc s), Hf.
    + subst c'. split_and!; [done| |done]. right. by intros [] v.
Qed.

(** A reading taken before a change that was cleared does not come back:
    whatever is saved, cleared or refused by the disk afterwards, one operation
    at a time, every reading that loads was captured after the last clear that
    succeeded.  And a save never puts an older reading over one that loads. *)
Theorem cleared_stays_cleared c es : dir_set c = true → after_marker c →
  let c' := foldl happen c es in
  let t := last_change c es (clearedAt c) in
  (t ≠ 0 → ∀ s now got, Load c' s now = Ok got → t < CapturedAt got) ∧
  (t ≠ 0 → ∀ s now got, LoadAtLeast c' s now = Ok got → t < CapturedAt got) ∧
  ∀ d s snap now c2 prev, Save d c' s snap now = Ok c2 → Load c' s now = Ok prev →
    ∃ v, file c2 s = Some (Parsed v) ∧ CapturedAt prev ≤ CapturedAt v.
Proof.
  intros Hd Hc. cbv zeta. assert (after_marker (foldl happen c es) ∧ clearedAt (foldl happen c es) = last_change c es (clearedAt c)) as [Ha Ht].
  { revert c Hd Hc. induction es as [|e es IH]; intros c Hd Hc; [done|]. cbn [foldl last_change].
    destruct (happen_ok c e Hd Hc) as (Hd' & Hc' & <-). by apply IH. }
  set (c' := foldl happen c es) in *. rewrite <-Ht.
  assert (clearedAt c' ≠ 0 → ∀ s now got, Load c' s now = Ok got → clearedAt c' < CapturedAt got) as HL.
  { intros Hne s now got (_ & v & Hf & _ & _ & _ & _ & ->)%Load_spec. cbn. destruct Ha as [?|Ha]; [done|]. by eapply Ha. }
  split_and!; [done| |].
  - intros Hne s now got H. pose proof (LoadAtLeast_spec c' s now) as Hs. rewrite H in Hs. destruct Hs as [(from & _ & Hl) _]. by eapply HL.
  - intros d s snap now c2 prev Hs Hl. pose proof (Save_spec _ _ _ _ _ _ Hs) as [->|(-> & _ & Hp)].
    + apply Load_spec in Hl as (_ & v & Hf & _ & _ & _ & _ & ->). by exists v.
    + rewrite file_set, decide_True by done. eexists. split; [done|]. cbn. specialize (Hp prev Hl). lia.
Qed.

(** ** Two processes

    A save and a clear of the same files, neither of which takes a lock: each
    look at the disk and each replacement of a file is a step of its own. *)

Inductive saver := SReading (s : Shape) (snap : Fleet) | SChecked (s : Shape) (v : Cached) | SDone.
Inductive clearer := CStart (at_ : time_t) | CRemovedFarms (at_ : time_t) | CRemoved (at_ : time_t) | CDone.
Record world := { w_cache : Cache; w_saver : saver; w_clearer : clearer }.

Definition no_faults : disk := {| mkdir_ok := true; write_ok := true |}.

Inductive step (now : time_t) : world → world → Prop :=
| s_check c s snap v k : save_check no_faults c s snap now = Ok (Some v) →
    step now {| w_cache := c; w_saver := SReading s snap; w_clearer := k |} {| w_cache := c; w_saver := SChecked s v; w_clearer := k |}
| s_refuse c s snap k : save_check no_faults c s snap now = Ok None →
    step now {| w_cache := c; w_saver := SReading s snap; w_clearer := k |} {| w_cache := c; w_saver := SDone; w_clearer := k |}
| s_write c c' s v k : save_write no_faults c s v = Ok c' →
    step now {| w_cache := c; w_saver := SChecked s v; w_clearer := k |} {| w_cache := c'; w_saver := SDone; w_clearer := k |}
| s_remove_farms c c' p at_ : clear_file true c ShapeFarms = Ok c' →
    step now {| w_cache := c; w_saver := p; w_clearer := CStart at_ |} {| w_cache := c'; w_saver := p; w_clearer := CRemovedFarms at_ |}
| s_remove_vms c c' p at_ : clear_file true c ShapeVMs = Ok c' →
    step now {| w_cache := c; w_saver := p; w_clearer := CRemovedFarms at_ |} {| w_cache := c'; w_saver := p; w_clearer := CRemoved at_ |}
| s_mark c p at_ :
    step now {| w_cache := c; w_saver := p; w_clearer := CRemoved at_ |} {| w_cache := set_marker c at_; w_saver := p; w_clearer := CDone |}.

Definition empty_cache : Cache := {| dir_set := true; farms_file := None; vms_file := None; marker := None |}.

Definition reading_at (t : time_t) : Fleet :=
  {| Deployments := []; fl_Hosts := []; fl_Instances := []; fl_VMs := ∅; fl_Gone := ∅; Runs := ∅; InventoryHosts := 0; ReadAt := t |}.

(** With two processes that is not so: a save that has looked at the marker
    before the change was recorded, and writes after it, leaves a reading taken
    before the change, which loads and answers a listing. *)
Theorem overlapping_save_brings_back : ∃ now at_ w got,
  rtc (step now) {| w_cache := empty_cache; w_saver := SReading ShapeFarms (reading_at (at_ - Second)); w_clearer := CStart at_ |} w ∧
  w_saver w = SDone ∧ w_clearer w = CDone ∧ clearedAt (w_cache w) = at_ ∧
  LoadAtLeast (w_cache w) ShapeFarms now = Ok got ∧ CapturedAt got < at_ ∧
  is_Some (Stored keys_in_order (Some (w_cache w)) ShapeFarms ForListing now).
Proof.
  exists (100 * Second), (90 * Second). set (v := {| Version := cacheVersion; c_Shape := None; CapturedAt := 89 * Second; c_Fleet := reading_at (89 * Second) |}).
  exists {| w_cache := {| dir_set := true; farms_file := Some (Parsed v); vms_file := None; marker := Some (90 * Second) |}; w_saver := SDone; w_clearer := CDone |}.
  eexists. split.
  - eapply rtc_l; [by apply s_check with (v := v)|]. eapply rtc_l; [by apply s_remove_farms|]. eapply rtc_l; [by apply s_remove_vms|].
    eapply rtc_l; [apply s_mark|]. eapply rtc_l; [by apply s_write|]. apply rtc_refl.
  - split_and!; [done|done|done|reflexivity|done|by eexists].
Qed.

(** ** Witness *)

Lemma cleared_stays_cleared_witness :
  let es := [ESave no_faults ShapeFarms (reading_at 50) 60; EClear no_faults (λ _, true) 70 75; ESave no_faults ShapeFarms (reading_at 65) 80;
             ESave no_faults ShapeVMs (reading_at 90) 95] in
  let c := foldl happen empty_cache es in
  last_change empty_cache es 0 = 70 ∧ file c ShapeFarms = None ∧
  ∀ s now got, Load c s now = Ok got → 70 < CapturedAt got.
Proof.
  intros es c. split; [by vm_compute|]. split; [by vm_compute|]. assert (after_marker empty_cache) as Ha by by left.
  refine (proj1 (cleared_stays_cleared empty_cache es eq_refl Ha) _). vm_compute. discriminate.
Defined.
