(* ===== verification/VmAddress.v ===== *)
(** How a VM is reached (internal/openstack/address.go and loginuser.go): which
    of its addresses a connection may be opened to, the hop when it has none, and
    the users that are tried. *)

From stdpp Require Import fin_sets.
From S2P Require Import Prelude GoStrings NovaApi Reconcile.

(** ** Addresses *)

Definition OnOperatorNetwork (addr : string) (nets : list string) : bool :=
  existsb (λ n, negb (String.eqb n "") && HasPrefix addr n) nets.

(** The loop both choices share: the first address of the highest rank. *)
Definition best_step (rank : InstanceAddress → Z) (acc : string * Z) (a : InstanceAddress) : string * Z :=
  if acc.2 <? rank a then (Address a, rank a) else acc.

Definition best_address (rank : InstanceAddress → Z) (addrs : list InstanceAddress) : string := (foldl (best_step rank) ("", 0) addrs).1.

Definition preferred_rank (nets : list string) (a : InstanceAddress) : Z :=
  if String.eqb (AddrType a) "floating" then 3 else if OnOperatorNetwork (Address a) nets then 2 else 1.

Definition connectable_rank (nets : list string) (a : InstanceAddress) : Z :=
  if String.eqb (AddrType a) "floating" then 2 else if OnOperatorNetwork (Address a) nets then 1 else 0.

Definition PreferredAddress (addrs : list InstanceAddress) (operatorNets : list string) : string :=
  best_address (preferred_rank operatorNets) addrs.

Definition ConnectableAddress (addrs : list InstanceAddress) (operatorNets : list string) : string :=
  best_address (connectable_rank operatorNets) addrs.

(** ** The hop into a tenant network *)

Definition tenant_side (a : InstanceAddress) : bool := negb (String.eqb (AddrType a) "floating") && negb (String.eqb (NetworkName a) "").

Definition door_of (nets : gmap string string) (network : string) : string := default "" (nets !! network).

(** The target's doors: one address per network, the first recorded. *)
Definition tenant_doors (addrs : list InstanceAddress) : gmap string string :=
  foldl (λ nets a, if tenant_side a && String.eqb (door_of nets (NetworkName a)) "" then <[NetworkName a := Address a]> nets else nets) ∅ addrs.

Fixpoint first_door (nets : gmap string string) (addrs : list InstanceAddress) : string :=
  match addrs with
  | [] => ""
  | a :: addrs' =>
      if tenant_side a && negb (String.eqb (door_of nets (NetworkName a)) "") then door_of nets (NetworkName a)
      else first_door nets addrs'
  end.

Definition hop_rank (addrs : list InstanceAddress) (hop : string) : Z :=
  if existsb (λ a, String.eqb (AddrType a) "floating" && String.eqb (Address a) hop) addrs then 2 else 1.

(** The loop's variables: [via] with its address and door, and [bestRank]. *)
Record jump := { via : StoreInstance; viaAddr : string; tenantAddr : string; rank : Z }.

Definition eligible (target s : StoreInstance) : bool :=
  negb (String.eqb (si_InstanceID s) (si_InstanceID target)) && String.eqb (si_ProjectID s) (si_ProjectID target) &&
  bool_decide (si_MissingSince s = None) && EqualFold (si_Status s) "ACTIVE".

(** What a sibling offers, if anything. *)
Definition offer (target : StoreInstance) (nets : gmap string string) (operatorNets : list string) (s : StoreInstance) : option jump :=
  if negb (eligible target s) then None
  else
    let hop := ConnectableAddress (si_Addresses s) operatorNets in
    if String.eqb hop "" then None
    else
      let door := first_door nets (si_Addresses s) in
      if String.eqb door "" then None
      else Some {| via := s; viaAddr := hop; tenantAddr := door; rank := hop_rank (si_Addresses s) hop |}.

Definition better_jump (best : option jump) (j : jump) : bool :=
  match best with
  | None => 0 <? rank j
  | Some b => (rank b <? rank j) || (rank j =? rank b) && string_ltb (si_Name (via j)) (si_Name (via b))
  end.

Definition jump_step (target : StoreInstance) (nets : gmap string string) (operatorNets : list string) (best : option jump) (s : StoreInstance)
    : option jump :=
  match offer target nets operatorNets s with
  | None => best
  | Some j => if better_jump best j then Some j else best
  end.

Definition TenantJump (target : StoreInstance) (siblings : list StoreInstance) (operatorNets : list string) : option jump :=
  if String.eqb (si_ProjectID target) "" then None
  else
    let nets := tenant_doors (si_Addresses target) in
    if bool_decide (nets = ∅) then None
    else foldl (jump_step target nets operatorNets) None siblings.

(** ** Names and users *)

Definition NameOrID (v : StoreInstance) : string := if String.eqb (si_Name v) "" then si_InstanceID v else si_Name v.

Definition DefaultVMUser : string := "root".

Definition imageUsers : list (string * string) :=
  [("ubuntu", "ubuntu"); ("rocky", "rocky"); ("centos", "centos"); ("debian", "debian"); ("fedora", "fedora"); ("alma", "almalinux");
   ("rhel", "cloud-user"); ("opensuse", "opensuse"); ("cirros", "cirros"); ("vyos", "vyos")].

Fixpoint image_user (name : string) (l : list (string * string)) : string :=
  match l with
  | [] => ""
  | (marker, user) :: l' => if Contains name marker then user else image_user name l'
  end.

Definition ImageLoginUser (imageName : string) : string := image_user (ToLower imageName) imageUsers.

Definition add_candidate (out : list string) (u : string) : list string :=
  if negb (String.eqb u "") && negb (slices_Contains out u) then out ++ [u] else out.

Definition LoginCandidates (imageName configured : string) : list string :=
  foldl add_candidate [DefaultVMUser] [ImageLoginUser imageName; configured].

(** ** Which address *)

Lemma best_address_spec rank addrs : let r := foldl (best_step rank) ("", 0) addrs in
  (r = ("", 0) ∧ ∀ a, a ∈ addrs → rank a ≤ 0) ∨
  ∃ pre a post, addrs = pre ++ a :: post ∧ r = (Address a, rank a) ∧ 0 < rank a ∧
    (∀ b, b ∈ pre → rank b < rank a) ∧ ∀ b, b ∈ addrs → rank b ≤ rank a.
Proof.
  cbv zeta. apply (foldl_invariant (λ seen r, (r = ("", 0) ∧ ∀ a, a ∈ seen → rank a ≤ 0) ∨
    ∃ pre a post, seen = pre ++ a :: post ∧ r = (Address a, rank a) ∧ 0 < rank a ∧ (∀ b, b ∈ pre → rank b < rank a) ∧ ∀ b, b ∈ seen → rank b ≤ rank a)).
  - left. split; [done|set_solver].
  - intros seen r x IH. unfold best_step. destruct IH as [[-> H]|(pre & a & post & -> & -> & H0 & H1 & H2)]; cbn [snd].
    + case_if; bool_simpl.
      * right. exists seen, x, []. split_and!; [done|done|done|intros b Hb; specialize (H b Hb); lia|].
        intros b [Hb| ->%list_elem_of_singleton]%elem_of_app; [specialize (H b Hb)|]; lia.
      * left. split; [done|]. intros b [Hb| ->%list_elem_of_singleton]%elem_of_app; [by apply H|lia].
    + case_if; bool_simpl.
      * right. exists (pre ++ a :: post), x, []. split_and!; [done|done|lia|intros b Hb; specialize (H2 b Hb); lia|].
        intros b [Hb| ->%list_elem_of_singleton]%elem_of_app; [specialize (H2 b Hb)|]; lia.
      * right. exists pre, a, (post ++ [x]). split_and!; [by rewrite <-(assoc_L (++))|done|done|done|].
        intros b [Hb| ->%list_elem_of_singleton]%elem_of_app; [by apply H2|lia].
Qed.

(** An address somebody vouches for: attached to be reached, or on a network the
    fleet routes. *)
Definition vouched (nets : list string) (a : InstanceAddress) : Prop := AddrType a = "floating" ∨ OnOperatorNetwork (Address a) nets = true.

Lemma connectable_rank_spec nets a : (0 < connectable_rank nets a ↔ vouched nets a) ∧ (connectable_rank nets a = 2 ↔ AddrType a = "floating") ∧
  0 ≤ connectable_rank nets a ≤ 2.
Proof.
  unfold connectable_rank, vouched. destruct (String.eqb_spec (AddrType a) "floating"); [naive_solver lia|].
  destruct (OnOperatorNetwork (Address a) nets); naive_solver lia.
Qed.

(** The first of the best: at most one. *)
Lemma first_best_unique (rank : InstanceAddress → Z) addrs pre a post pre' a' post' :
  addrs = pre ++ a :: post → addrs = pre' ++ a' :: post' → (∀ b, b ∈ pre → rank b < rank a) → (∀ b, b ∈ pre' → rank b < rank a') →
  (∀ b, b ∈ addrs → rank b ≤ rank a) → (∀ b, b ∈ addrs → rank b ≤ rank a') → a = a'.
Proof.
  intros E E' H1 H1' H2 H2'. assert (a ∈ addrs ∧ a' ∈ addrs) as [Ha Ha'] by (split; [rewrite E|rewrite E']; apply elem_of_app; right; by left).
  pose proof (H2 a' Ha') as L1. pose proof (H2' a Ha) as L2. clear Ha Ha' H2 H2'. subst addrs.
  revert pre' E' H1'. induction pre as [|x pre IH]; intros [|x' pre'] E' H1'; cbn in E'; injection E' as ->.
  - done.
  - specialize (H1' x' ltac:(by left)). lia.
  - specialize (H1 a' ltac:(by left)). lia.
  - apply (IH ltac:(intros; apply H1; by right) pre' H ltac:(intros; apply H1'; by right)).
Qed.

(** A connection is opened only to an address somebody vouches for: one of
    the VM's own, floating if any is, else on an operator network, the first
    recorded of its kind; with none vouched for there is no address, though a
    listing still shows the first.  Where there is one, the listing shows the
    same. *)
Theorem ConnectableAddress_vouched addrs nets :
  ((∀ a, a ∈ addrs → ¬ vouched nets a) → ConnectableAddress addrs nets = "" ∧ PreferredAddress addrs nets = default "" (Address <$> head addrs)) ∧
  ((∃ a, a ∈ addrs ∧ vouched nets a) → PreferredAddress addrs nets = ConnectableAddress addrs nets ∧
    ∃ pre a post, addrs = pre ++ a :: post ∧ ConnectableAddress addrs nets = Address a ∧ vouched nets a ∧
      ((∃ b, b ∈ addrs ∧ AddrType b = "floating") → AddrType a = "floating") ∧
      ∀ b, b ∈ pre → vouched nets b → AddrType a = "floating" ∧ AddrType b ≠ "floating").
Proof.
  pose proof (best_address_spec (connectable_rank nets) addrs) as Hc. pose proof (best_address_spec (preferred_rank nets) addrs) as Hp.
  assert (∀ a, preferred_rank nets a = connectable_rank nets a + 1) as Hr by (intros a; unfold preferred_rank, connectable_rank; by repeat case_if).
  cbv zeta in *. unfold ConnectableAddress, PreferredAddress, best_address. split.
  - intros Hno. assert (∀ a, a ∈ addrs → connectable_rank nets a = 0) as Hz.
    { intros a Ha. pose proof (connectable_rank_spec nets a) as (H1 & _ & H3). specialize (Hno a Ha). rewrite <-H1 in Hno. lia. }
    destruct Hc as [[-> _]|(pre & a & post & -> & _ & H0 & _)]; [|rewrite Hz in H0 by (apply elem_of_app; right; by left); lia]. split; [done|].
    destruct Hp as [[-> H]|(pre & a & post & E & -> & _ & H1 & _)].
    + destruct addrs as [|a addrs]; [done|]. specialize (H a ltac:(by left)). rewrite Hr in H. pose proof (connectable_rank_spec nets a). lia.
    + destruct pre as [|b pre]; [by rewrite E|]. specialize (H1 b ltac:(by left)).
      rewrite !Hr, !Hz in H1 by (rewrite E; apply elem_of_app; (left; by left) || (right; by left)). lia.
  - intros (a0 & Ha0 & Hv0). pose proof (proj2 (proj1 (connectable_rank_spec nets a0)) Hv0) as H0.
    destruct Hc as [[_ H]|(pre & a & post & E & -> & Ha & H1 & H2)]; [specialize (H a0 Ha0); lia|].
    destruct Hp as [[_ H]|(pre' & a' & post' & E' & -> & Ha' & H1' & H2')]; [specialize (H a0 Ha0); rewrite Hr in H; lia|]. cbn [fst]. split.
    + f_equal. symmetry. apply (first_best_unique (connectable_rank nets) addrs pre a post pre' a' post'); try done.
      * intros b Hb. specialize (H1' b Hb). rewrite !Hr in H1'. lia.
      * intros b Hb. specialize (H2' b Hb). rewrite !Hr in H2'. lia.
    + exists pre, a, post. pose proof (connectable_rank_spec nets a) as (V1 & V2 & V3). split_and!; [done|done|by apply V1| |].
      * intros (b & Hb & Hbf). apply V2. specialize (H2 b Hb). pose proof (connectable_rank_spec nets b) as (_ & W2 & _). apply W2 in Hbf. lia.
      * intros b Hb Hbv. specialize (H1 b Hb). pose proof (connectable_rank_spec nets b) as (W1 & W2 & _). apply W1 in Hbv.
        split; [apply V2; lia|]. intros Hf%W2. lia.
Qed.

(** ** Which hop *)

Lemma tenant_doors_spec addrs network door : tenant_doors addrs !! network = Some door →
  ∃ a, a ∈ addrs ∧ AddrType a ≠ "floating" ∧ NetworkName a = network ∧ network ≠ "" ∧ Address a = door.
Proof.
  unfold tenant_doors. apply (foldl_invariant (λ seen (m : gmap string string), m !! network = Some door →
    ∃ a, a ∈ seen ∧ AddrType a ≠ "floating" ∧ NetworkName a = network ∧ network ≠ "" ∧ Address a = door)); [by rewrite lookup_empty|].
  intros seen m a IH. assert (m !! network = Some door → ∃ a0, a0 ∈ seen ++ [a] ∧ AddrType a0 ≠ "floating" ∧ NetworkName a0 = network ∧ network ≠ "" ∧ Address a0 = door) as IH'.
  { intros (b & Hb & H)%IH. exists b. split; [apply elem_of_app; by left|done]. }
  destruct (tenant_side a && _) eqn:E; [|done]. apply andb_true_iff in E as [Ht _]. unfold tenant_side in Ht.
  apply andb_true_iff in Ht as [Hf%negb_true_iff%String.eqb_neq Hn%negb_true_iff%String.eqb_neq].
  intros [[<- <-]|[_ H]]%lookup_insert_Some; [|by apply IH']. exists a. split; [apply elem_of_app; right; by left|done].
Qed.

Lemma first_door_spec nets addrs : first_door nets addrs ≠ "" →
  ∃ a, a ∈ addrs ∧ AddrType a ≠ "floating" ∧ NetworkName a ≠ "" ∧ nets !! NetworkName a = Some (first_door nets addrs).
Proof.
  induction addrs as [|a addrs IH]; cbn [first_door]; [done|]. destruct (tenant_side a && _) eqn:E; intros Hne.
  - apply andb_true_iff in E as [Ht Hd%negb_true_iff%String.eqb_neq]. unfold tenant_side in Ht.
    apply andb_true_iff in Ht as [Hf%negb_true_iff%String.eqb_neq Hn%negb_true_iff%String.eqb_neq].
    exists a. split_and!; [by left|done|done|]. unfold door_of in *. by destruct (nets !! NetworkName a).
  - destruct (IH Hne) as (b & Hb & H). exists b. split; [by right|done].
Qed.

(** A sibling that may serve as the hop, and what it offers. *)
Definition hop_of (target s : StoreInstance) (operatorNets : list string) (j : jump) : Prop :=
  via j = s ∧ si_InstanceID s ≠ si_InstanceID target ∧ si_ProjectID s = si_ProjectID target ∧ si_MissingSince s = None ∧
  EqualFold (si_Status s) "ACTIVE" = true ∧
  (∃ a, a ∈ si_Addresses s ∧ Address a = viaAddr j ∧ vouched operatorNets a) ∧
  ∃ port door, port ∈ si_Addresses s ∧ door ∈ si_Addresses target ∧ AddrType port ≠ "floating" ∧ AddrType door ≠ "floating" ∧
    NetworkName port = NetworkName door ∧ NetworkName door ≠ "" ∧ Address door = tenantAddr j.

Lemma offer_hop target operatorNets s j : offer target (tenant_doors (si_Addresses target)) operatorNets s = Some j →
  hop_of target s operatorNets j ∧ 1 ≤ rank j.
Proof.
  unfold offer. destruct (eligible target s) eqn:He; cbn [negb]; [|done]. cbv zeta.
  destruct (String.eqb_spec (ConnectableAddress (si_Addresses s) operatorNets) "") as [|Hh]; [done|].
  destruct (String.eqb_spec (first_door (tenant_doors (si_Addresses target)) (si_Addresses s)) "") as [|Hd]; [done|].
  intros [= <-]. unfold eligible in He. rewrite !andb_true_iff, negb_true_iff, String.eqb_neq, String.eqb_eq, bool_decide_eq_true in He.
  destruct He as [[[? ?] ?] ?]. split; [|cbn; unfold hop_rank; by case_if]. split_and!; try done.
  - destruct (ConnectableAddress_vouched (si_Addresses s) operatorNets) as [Hno Hyes].
    destruct (decide (Exists (vouched operatorNets) (si_Addresses s))) as [Hex|Hnex].
    + apply Exists_exists in Hex. destruct (Hyes Hex) as (_ & pre & a & post & E & Ea & Hv & _). exists a. cbn.
      split_and!; [rewrite E; apply elem_of_app; right; by left|done|done].
    + destruct Hh. apply Hno. intros a Ha Hv. apply Hnex, Exists_exists. by exists a.
  - destruct (first_door_spec _ _ Hd) as (port & Hp & Hpf & Hpn & Hl). apply tenant_doors_spec in Hl as (door & Hin & Hdf & En & _ & Ea).
    exists port, door. split_and!; (done || congruence).
Qed.

(** The best of some offers: the highest rank, then the least name. *)
Definition best_of (offers : list jump) (best : option jump) : Prop :=
  match best with
  | None => offers = []
  | Some b => b ∈ offers ∧ ∀ j, j ∈ offers → rank j ≤ rank b ∧ (rank j = rank b → string_ltb (si_Name (via j)) (si_Name (via b)) = false)
  end.

Lemma jump_step_best target nets operatorNets offers best s : (∀ j, offer target nets operatorNets s = Some j → 1 ≤ rank j) → best_of offers best →
  best_of (offers ++ option_list (offer target nets operatorNets s)) (jump_step target nets operatorNets best s).
Proof.
  intros H1 Hb. unfold jump_step. destruct (offer target nets operatorNets s) as [j|]; cbn [option_list]; [|by rewrite app_nil_r].
  specialize (H1 j eq_refl). destruct best as [b|]; cbn [better_jump best_of] in *.
  - destruct Hb as [Hin Hb]. destruct ((rank b <? rank j) || (rank j =? rank b) && string_ltb (si_Name (via j)) (si_Name (via b))) eqn:E; cbn.
    + split; [apply elem_of_app; right; by left|]. intros k [Hk| ->%list_elem_of_singleton]%elem_of_app.
      * destruct (Hb k Hk) as [Hr Hn]. apply orb_true_iff in E as [E|E]; [bool_simpl; split; [lia|lia]|].
        apply andb_true_iff in E as [Er En]. bool_simpl. split; [lia|]. intros Ek. specialize (Hn ltac:(lia)).
        eapply (less_cotrans (less:=string_ltb)); [exact Hn|]. by apply less_asym.
      * split; [lia|]. intros _. destruct (string_ltb (si_Name (via j)) (si_Name (via j))) eqn:Ej; [|done].
        pose proof (less_asym _ _ Ej). congruence.
    + split; [apply elem_of_app; by left|]. intros k [Hk| ->%list_elem_of_singleton]%elem_of_app; [by apply Hb|].
      apply orb_false_iff in E as [Er En]. bool_simpl. split; [lia|]. intros Ek. apply andb_false_iff in En as [En|En]; [bool_simpl; lia|done].
  - subst offers. assert ((0 <? rank j) = true) as -> by (apply Z.ltb_lt; lia). cbn. split; [by left|].
    intros k ->%list_elem_of_singleton. split; [lia|]. intros _. destruct (string_ltb _ _) eqn:Ej; [|done]. pose proof (less_asym _ _ Ej). congruence.
Qed.

(** The hop into a tenant network is a listed, active sibling of the same
    project with an address somebody vouches for and a port on a network the
    target is on; the tenant address is the target's own on such a network.  It
    is the best there is - a floating hop first, then the least name - and does
    not depend on the order the siblings came in when no two share a name; and
    there is none exactly when no sibling offers one. *)
Theorem TenantJump_sound target siblings operatorNets :
  let offers := omap (offer target (tenant_doors (si_Addresses target)) operatorNets) siblings in
  let r := TenantJump target siblings operatorNets in
  (∀ j, r = Some j → ∃ s, s ∈ siblings ∧ si_ProjectID target ≠ "" ∧ hop_of target s operatorNets j) ∧
  (si_ProjectID target ≠ "" → tenant_doors (si_Addresses target) ≠ ∅ → best_of offers r) ∧
  (∀ siblings', NoDup (si_Name <$> siblings) → siblings ≡ₚ siblings' → TenantJump target siblings' operatorNets = r).
Proof.
  cbv zeta. set (nets := tenant_doors (si_Addresses target)).
  assert (∀ ss, best_of (omap (offer target nets operatorNets) ss) (foldl (jump_step target nets operatorNets) None ss)) as Hbest.
  { intros ss. apply (foldl_invariant (λ seen best, best_of (omap (offer target nets operatorNets) seen) best)); [done|]. intros seen best s IH.
    rewrite omap_app. assert (omap (offer target nets operatorNets) [s] = option_list (offer target nets operatorNets s)) as ->
      by (cbn; by destruct (offer target nets operatorNets s)).
    apply jump_step_best; [|done]. intros j Hj. by apply (offer_hop target operatorNets s). }
  unfold TenantJump. fold nets. destruct (String.eqb_spec (si_ProjectID target) "") as [|Hp]; [split_and!; done|].
  case_bool_decide as Hn; [split_and!; done|]. split_and!; [|intros; apply Hbest|].
  - intros j Hj. pose proof (Hbest siblings) as Hb. rewrite Hj in Hb. destruct Hb as [Hin _].
    apply list_elem_of_omap in Hin as (s & Hs & Ho). exists s. split_and!; [done|done|]. by apply offer_hop.
  - intros ss' Hnd Hperm. pose proof (Hbest siblings) as H1. pose proof (Hbest ss') as H2.
    assert (omap (offer target nets operatorNets) siblings ≡ₚ omap (offer target nets operatorNets) ss') as Hop by by rewrite Hperm.
    destruct (foldl _ None siblings) as [b|], (foldl _ None ss') as [b'|]; cbn in H1, H2; rewrite <-?Hop in H2.
    + destruct H1 as [Hi1 H1], H2 as [Hi2 H2]. setoid_rewrite <-Hop in H2. destruct (H1 b' Hi2) as [L1 N1], (H2 b Hi1) as [L2 N2].
      assert (si_Name (via b') = si_Name (via b)) as E by (apply (less_connex (less:=string_ltb)); [apply N1|apply N2]; lia).
      apply list_elem_of_omap in Hi1 as (s & Hs & Ho), Hi2 as (s' & Hs' & Ho').
      assert (via b = s ∧ via b' = s') as [<- <-] by (split; [by eapply offer_hop|by eapply offer_hop]).
      apply list_elem_of_lookup in Hs as [i Hi], Hs' as [i' Hi']. assert (i = i') as <-.
      { eapply (NoDup_lookup (si_Name <$> siblings)); [done| |]; rewrite list_lookup_fmap, ?Hi, ?Hi'; cbn; [done|by rewrite E]. }
      congruence.
    + destruct H1 as [Hi _]. rewrite Hop, H2 in Hi. by apply not_elem_of_nil in Hi.
    + destruct H2 as [Hi _]. rewrite H1 in Hi. by apply not_elem_of_nil in Hi.
    + done.
Qed.

(** ** Which user *)

(** The users tried are root, the one the image's name implies and the
    configured one, in that order, each at most once and never an empty name: at
    most three attempts. *)
Theorem LoginCandidates_bounded imageName configured :
  let us := LoginCandidates imageName configured in
  head us = Some DefaultVMUser ∧ NoDup us ∧ "" ∉ us ∧ (length us ≤ 3)%nat ∧
  us `sublist_of` [DefaultVMUser; ImageLoginUser imageName; configured] ∧
  ∀ u, u ∈ us ↔ u = DefaultVMUser ∨ u ≠ "" ∧ (u = ImageLoginUser imageName ∨ u = configured).
Proof.
  cbv zeta. unfold LoginCandidates. generalize (ImageLoginUser imageName). intros i. cbn [foldl].
  assert (∀ out u, NoDup out → "" ∉ out → NoDup (add_candidate out u) ∧ "" ∉ add_candidate out u ∧
    (length (add_candidate out u) ≤ S (length out))%nat ∧ add_candidate out u `sublist_of` out ++ [u] ∧ out `prefix_of` add_candidate out u ∧
    ∀ x, x ∈ add_candidate out u ↔ x ∈ out ∨ x ≠ "" ∧ x = u) as Hadd.
  { intros out u Hn He. unfold add_candidate, slices_Contains. destruct (String.eqb_spec u "") as [->|Hu]; cbn [negb andb];
      [|case_bool_decide as Hin; cbn [negb]]; split_and!; try done; try lia; try (by apply sublist_inserts_r); try set_solver.
    - apply NoDup_app. split_and!; [done|set_solver|apply NoDup_singleton].
    - rewrite length_app. cbn. lia.
    - by apply prefix_app_r. }
  assert (NoDup [DefaultVMUser] ∧ "" ∉ [DefaultVMUser]) as [Hn He] by (split; [apply NoDup_singleton|by intros ?%list_elem_of_singleton]).
  destruct (Hadd _ i Hn He) as (Hn1 & He1 & Hl1 & Hs1 & Hp1 & Hx1). set (o1 := add_candidate [DefaultVMUser] i) in *.
  destruct (Hadd o1 configured Hn1 He1) as (Hn2 & He2 & Hl2 & Hs2 & Hp2 & Hx2). set (o2 := add_candidate o1 configured) in *.
  split_and!; [|done|done|cbn in Hl1; lia| |].
  - destruct Hp1 as [l1 E1], Hp2 as [l2 E2]. by rewrite E2, E1.
  - etrans; [exact Hs2|]. apply (sublist_app o1 [DefaultVMUser; i]); [exact Hs1|done].
  - intros u. rewrite Hx2, Hx1, list_elem_of_singleton. naive_solver.
Qed.

(** ** Witnesses *)

Definition demo_address (network addr type : string) : InstanceAddress := {| NetworkName := network; Address := addr; AddrType := type; IPVersion := 4 |}.
Definition demo_vm (id name : string) (addrs : list InstanceAddress) : StoreInstance :=
  {| si_DeploymentID := "k1"; si_InstanceID := id; si_ProjectID := "p1"; si_ProjectName := ""; si_Name := name; si_Status := "ACTIVE";
     si_PowerState := ""; si_TaskState := ""; si_AvailabilityZone := ""; si_HypervisorHostname := ""; si_FlavorID := ""; si_ImageID := "";
     si_ImageName := ""; si_CreatedAt := None; si_UpdatedAt := None; si_ObservedAt := 0; si_MissingSince := None; si_Addresses := addrs |}.
Definition demo_target : StoreInstance := demo_vm "t" "db" [demo_address "priv" "10.3.1.7" "fixed"].
Definition demo_siblings : list StoreInstance :=
  [demo_vm "a" "app" [demo_address "priv" "10.3.1.8" "fixed"; demo_address "ops" "192.168.4.2" "fixed"];
   demo_vm "b" "bastion" [demo_address "priv" "10.3.1.9" "fixed"; demo_address "" "203.0.113.4" "floating"]; demo_target].

Lemma ConnectableAddress_vouched_witness :
  ConnectableAddress (si_Addresses demo_target) ["192.168."] = "" ∧ PreferredAddress (si_Addresses demo_target) ["192.168."] = "10.3.1.7".
Proof.
  apply ConnectableAddress_vouched. intros a Ha. apply list_elem_of_singleton in Ha as ->. by intros [H|H].
Defined.

Lemma TenantJump_sound_witness :
  (λ j, (si_Name (via j), viaAddr j, tenantAddr j)) <$> TenantJump demo_target demo_siblings ["192.168."] = Some ("bastion", "203.0.113.4", "10.3.1.7") ∧
  TenantJump demo_target (reverse demo_siblings) ["192.168."] = TenantJump demo_target demo_siblings ["192.168."].
Proof.
  split; [by vm_compute|]. assert (NoDup (si_Name <$> demo_siblings)) as Hn by (apply (bool_decide_unpack _); by vm_compute).
  apply (TenantJump_sound demo_target demo_siblings ["192.168."]); [done|]. symmetry. apply reverse_Permutation.
Defined.
