(* ===== verification/GoFormat.v ===== *)
(** What the source asks of [fmt], [strconv.Quote], [net.JoinHostPort],
    [unicode/utf8] and [time.Format]: padding, quoting, addresses and the UTC
    calendar. *)

From Stdlib Require Import Ascii String ZArith Lia Floats.SpecFloat.
From S2P Require Import Prelude GoStrings.
Open Scope Z_scope.

(** ** Padding *)

Definition continuation_byte : ascii → bool := in_range 128 191.

(** [utf8.RuneCountInString], of valid UTF-8. *)
Fixpoint RuneCount (s : string) : nat :=
  match s with
  | EmptyString => 0
  | String c s' => if continuation_byte c then RuneCount s' else S (RuneCount s')
  end.

Definition spaces (n : nat) : string := Nat.iter n (String " ") "".
Definition zeros (n : nat) : string := Nat.iter n (String "0") "".

(** [%-*s]. *)
Definition PadRight (w : nat) (s : string) : string := s +:+ spaces (w - RuneCount s).

(** [%0*d], of a number that is not negative. *)
Definition PadZero (w : nat) (z : Z) : string := let d := Itoa z in zeros (w - String.length d) +:+ d.

(** ** Quoting *)

Definition hex_char (n : Z) : ascii :=
  ascii_of_N (Z.to_N (if n <? 10 then 48 + n else 87 + n)).

Definition quote_char (c : ascii) : string :=
  let n := byte_val c in
  if n =? 34 then "\" +:+ String c "" else if n =? 92 then "\\"
  else if n =? 7 then "\a" else if n =? 8 then "\b" else if n =? 12 then "\f"
  else if n =? 10 then "\n" else if n =? 13 then "\r" else if n =? 9 then "\t" else if n =? 11 then "\v"
  else if (n <? 32) || (n =? 127) then "\x" +:+ String (hex_char (n / 16)) (String (hex_char (n mod 16)) "")
  else String c "".

Definition quote_mark : string := String "034" "".

(** [strconv.Quote] ([%q]); bytes past ASCII stand for printable characters. *)
Definition Quote (s : string) : string :=
  quote_mark +:+ String.concat "" (quote_char <$> String.list_ascii_of_string s) +:+ quote_mark.

(** ** Addresses *)

Definition JoinHostPort (host port : string) : string :=
  if Contains host ":" then "[" +:+ host +:+ "]:" +:+ port else host +:+ ":" +:+ port.

(** ** The calendar

    Days are counted from Monday, 1 January of year 1, as [time_t] does. *)

Record date := Date { year : Z; month : Z; day : Z }.

#[export] Instance date_eq_dec : EqDecision date.
Proof. solve_decision. Defined.

(** Years start in March here, so that the leap day is a year's last. *)
Definition civil (days : Z) : date :=
  let z := days + 306 in
  let era := z / 146097 in
  let doe := z mod 146097 in
  let yoe := (doe - doe / 1460 + doe / 36524 - doe / 146096) / 365 in
  let doy := doe - (365 * yoe + yoe / 4 - yoe / 100) in
  let mp := (5 * doy + 2) / 153 in
  let m := if mp <? 10 then mp + 3 else mp - 9 in
  {| year := yoe + era * 400 + (if m <=? 2 then 1 else 0); month := m; day := doy - (153 * mp + 2) / 5 + 1 |}.

Example civil_edges :
  civil <$> [0; 58; 59; 730119; 730120; 730178; 730179; 730180; 730484; 730485] =
  [Date 1 1 1; Date 1 2 28; Date 1 3 1; Date 2000 1 1; Date 2000 1 2; Date 2000 2 29; Date 2000 3 1; Date 2000 3 2; Date 2000 12 31; Date 2001 1 1].
Proof. reflexivity. Qed.

Definition Day : duration := 24 * Hour.
Definition YMD (t : time_t) : date := civil (t / Day).

(** [t.UTC().Format] of the layout [2006-01-02], for four-digit years. *)
Definition FormatDate (t : time_t) : string :=
  let d := YMD t in PadZero 4 (year d) +:+ "-" +:+ PadZero 2 (month d) +:+ "-" +:+ PadZero 2 (day d).

(** The layout [15:04:05]. *)
Definition FormatClock (t : time_t) : string :=
  let s := t mod Day / Second in
  PadZero 2 (s / 3600) +:+ ":" +:+ PadZero 2 (s / 60 mod 60) +:+ ":" +:+ PadZero 2 (s mod 60).

(** The days of a date, the other way: for building instants. *)
Definition days_of (d : date) : Z :=
  let y := if month d <=? 2 then year d - 1 else year d in
  let era := y / 400 in
  let yoe := y mod 400 in
  let mp := if 2 <? month d then month d - 3 else month d + 9 in
  let doy := (153 * mp + 2) / 5 + day d - 1 in
  era * 146097 + yoe * 365 + yoe / 4 - yoe / 100 + doy - 306.

Definition instant (d : date) (h m s : Z) : time_t := days_of d * Day + ((h * 60 + m) * 60 + s) * Second.

Example format_incident : FormatDate (instant (Date 2026 8 25) 5 57 47) +:+ " " +:+ FormatClock (instant (Date 2026 8 25) 5 57 47) = "2026-08-25 05:57:47".
Proof. reflexivity. Qed.

(** ** [bufio.Scanner] over lines *)

Definition nl : ascii := "010".
Definition cr : string := String "013" "".

(** Every terminated line, then the rest if there is any. *)
Definition raw_lines (s : string) : list string :=
  let ls := Split s nl in
  match last ls with Some EmptyString => take (length ls - 1) ls | _ => ls end.

(** The lines before the first that does not fit a buffer of [max] bytes, and
    whether the scan reached the end. *)
Fixpoint scan_until (max : Z) (ls : list string) : list string * bool :=
  match ls with
  | [] => ([], true)
  | l :: ls' =>
      if Z.of_nat (String.length l) <? max then
        let '(out, ok) := scan_until max ls' in (TrimSuffix l cr :: out, ok)
      else ([], false)
  end.

Definition ScanLines (max : Z) (s : string) : list string * bool := scan_until max (raw_lines s).

Definition MaxScanTokenSize : Z := 65536.

Example ScanLines_crlf : ScanLines MaxScanTokenSize ("a" +:+ cr +:+ String nl ("b" +:+ String nl (String nl "c"))) = (["a"; "b"; ""; "c"], true).
Proof. reflexivity. Qed.

(** ** [strconv.ParseFloat], decimal

    IEEE binary64, correctly rounded.  Hexadecimal mantissas and the names of
    infinities are not modelled: they are refused. *)

Fixpoint read_digits (s : string) (acc : Z) (n : nat) : Z * nat * string :=
  match s with
  | String c s' => if is_digit c then read_digits s' (10 * acc + digit_val c) (S n) else (acc, n, s)
  | EmptyString => (acc, n, s)
  end.

Definition read_exponent (s : string) : option Z :=
  match s with
  | EmptyString => Some 0
  | String c s' =>
      if Ascii.eqb c "e" || Ascii.eqb c "E" then
        let '(neg, s1) := strip_sign s' in
        match read_digits s1 0 0 with
        | (e, S _, EmptyString) => Some (if neg then - e else e)
        | _ => None
        end
      else None
  end.

(** [m * 10^k], rounded once. *)
Definition scale10 (m k : Z) : spec_float :=
  if k <? 0 then
    match m, 10 ^ (- k) with
    | Z.pos p, Z.pos q => SFdiv 53 1024 (S754_finite false p 0) (S754_finite false q 0)
    | _, _ => S754_zero false
    end
  else binary_normalize 53 1024 (m * 10 ^ k) 0 false.

Definition ParseFloat (s : string) : option spec_float :=
  let '(neg, s1) := strip_sign s in
  let '(m1, n1, r1) := read_digits s1 0 0 in
  let '(m, n, frac, r) :=
    match r1 with
    | String c r => if Ascii.eqb c "." then let '(m, n, r') := read_digits r m1 n1 in (m, n, (n - n1)%nat, r') else (m1, n1, 0%nat, r1)
    | EmptyString => (m1, n1, 0%nat, r1)
    end in
  match n, read_exponent r with
  | S _, Some e =>
      match scale10 m (e - Z.of_nat frac) with
      | S754_infinity _ => None
      | f => Some (if neg then SFopp f else f)
      end
  | _, _ => None
  end.

(** [int(f)]: towards zero. *)
Definition float_to_int (f : spec_float) : Z :=
  match f with
  | S754_finite s m e => let v := if e <? 0 then Z.pos m / 2 ^ (- e) else Z.pos m * 2 ^ e in if s then - v else v
  | _ => 0
  end.

Example ParseFloat_mhz : float_to_int <$> ParseFloat "2199.998" = Some 2199 ∧ ParseFloat "" = None ∧ ParseFloat "1.2.3" = None ∧
  float_to_int <$> ParseFloat "-1.5e3" = Some (-1500) ∧
  float_to_int <$> ParseFloat "1999.99999999999999999999" = Some 2000.
Proof. vm_compute. done. Qed.

(** ** [time.Duration.String], of a second or more, and of zero *)

(** The nine digits of a fraction without their trailing zeros. *)
Definition fraction (ns : Z) : string :=
  let ds := TrimRightFunc (Ascii.eqb "0") (PadZero 9 ns) in if String.eqb ds "" then "" else "." +:+ ds.

Definition seconds_string (u : Z) : string :=
  let s := u / Second in
  (if 3600 <=? s then Itoa (s / 3600) +:+ "h" else "")
  +:+ (if 60 <=? s then Itoa (s / 60 mod 60) +:+ "m" else "")
  +:+ Itoa (s mod 60) +:+ fraction (u mod Second) +:+ "s".

Definition DurationString (d : duration) : string :=
  if d =? 0 then "0s" else if d <? 0 then "-" +:+ seconds_string (- d) else seconds_string d.

Example durations : DurationString <$> [0; 3 * Second; 90 * Second; 3600 * Second; -(61 * Second + 500 * Millisecond)] = ["0s"; "3s"; "1m30s"; "1h0m0s"; "-1m1.5s"].
Proof. reflexivity. Qed.
