(* ===== verification/GoURL.v ===== *)
(** [net/url] as far as the source uses it: [url.Parse] of a URL that has a
    scheme, its parts, and [u.String] of one without user and fragment. *)

From Stdlib Require Import Ascii String ZArith Lia.
From S2P Require Import Prelude GoStrings GoFormat.
Open Scope Z_scope.

Definition is_hex (c : ascii) : bool := is_digit c || in_range 65 70 c || in_range 97 102 c.

Definition unhex (c : ascii) : Z :=
  if is_digit c then byte_val c - 48 else if in_range 97 102 c then byte_val c - 87 else byte_val c - 55.

(** What a percent escape may stand for, by the part of the URL it is in. *)
Inductive mode := encodePath | encodeHost | encodeZone | encodeUserPassword | encodeFragment.

Definition is_host (m : mode) : bool := match m with encodeHost | encodeZone => true | _ => false end.

(** Bytes a host may carry as they are. *)
Definition host_byte (c : ascii) : bool :=
  is_alnum c || in_cutset "-_.~!$&'()*+,;=:[]<>" c || Ascii.eqb c "034".

Definition byte_of (z : Z) : ascii := ascii_of_N (Z.to_N z).

Definition escape_allowed (m : mode) (a b : ascii) : bool :=
  let v := 16 * unhex a + unhex b in
  match m with
  | encodeHost => (8 <=? unhex a) || (Ascii.eqb a "2" && Ascii.eqb b "5")
  | encodeZone => (Ascii.eqb a "2" && Ascii.eqb b "5") || (v =? 32) || (128 <=? v) || host_byte (byte_of v)
  | _ => true
  end.

(** [unescape]; [None] is its error. *)
Fixpoint unescape (m : mode) (s : string) : option string :=
  match s with
  | EmptyString => Some EmptyString
  | String c s' =>
      if Ascii.eqb c "%" then
        match s' with
        | String a (String b rest) =>
            if is_hex a && is_hex b && escape_allowed m a b then String (byte_of (16 * unhex a + unhex b)) <$> unescape m rest
            else None
        | _ => None
        end
      else if is_host m && (byte_val c <? 128) && negb (host_byte c) then None
      else String c <$> unescape m s'
  end.

Definition validOptionalPort (p : string) : bool :=
  match p with
  | EmptyString => true
  | String c ds => Ascii.eqb c ":" && string_all is_digit ds
  end.

(** Before and after the last byte [c]. *)
Definition cut_last (c : ascii) (s : string) : option (string * string) :=
  match Split (reverse_string s) c with
  | w :: ((_ :: _) as ws) => Some (reverse_string (Join ws (String c "")), reverse_string w)
  | _ => None
  end.

Definition parseHost (host : string) : option string :=
  if HasPrefix host "[" then
    match cut_last "]" host with
    | None => None
    | Some (inside, colonPort) =>
        if negb (validOptionalPort colonPort) then None
        else match Cut inside "%25" with
        | Some (addr, zone) =>
            a ← unescape encodeHost addr; z ← unescape encodeZone ("%25" +:+ zone); r ← unescape encodeHost ("]" +:+ colonPort);
            Some (a +:+ z +:+ r)
        | None => unescape encodeHost host
        end
    end
  else match cut_last ":" host with
  | Some (_, p) => if string_all is_digit p then unescape encodeHost host else None
  | None => unescape encodeHost host
  end.

Definition userinfo_byte (c : ascii) : bool := is_alnum c || in_cutset "-._:~!$&'()*+,;=%@" c.

Definition parseAuthority (authority : string) : option string :=
  match cut_last "@" authority with
  | None => parseHost authority
  | Some (user, host) =>
      h ← parseHost host;
      if string_all userinfo_byte user && bool_decide (is_Some (unescape encodeUserPassword user)) then Some h else None
  end.

Definition scheme_byte (first : bool) (c : ascii) : bool :=
  is_upper c || is_lower c || (negb first && (is_digit c || in_cutset "+-." c)).

(** [getScheme], of a URL that has one. *)
Definition getScheme (raw : string) : option (string * string) :=
  match Cut raw ":" with
  | Some ((String c s) as scheme, rest) =>
      if scheme_byte true c && string_all (scheme_byte false) s then Some (ToLower scheme, rest) else None
  | _ => None
  end.

Definition control_byte (c : ascii) : bool := (byte_val c <? 32) || (byte_val c =? 127).

(** *** The parsed URL *)

Record URL := {
  Scheme : string; Opaque : string; has_user : bool; u_Host : string; Path : string; RawPath : string;
  ForceQuery : bool; RawQuery : string; Fragment : string;
}.

(** Bytes [escape] leaves alone. *)
Definition unreserved (c : ascii) : bool := is_alnum c || in_cutset "-_.~" c.
Definition path_byte (c : ascii) : bool := unreserved c || in_cutset "$&+,/:;=@" c.

Definition upper_hex (z : Z) : ascii := byte_of (if z <? 10 then 48 + z else 55 + z).

Fixpoint escape (keep : ascii → bool) (s : string) : string :=
  match s with
  | EmptyString => EmptyString
  | String c s' =>
      if keep c then String c (escape keep s')
      else String "%" (String (upper_hex (byte_val c / 16)) (String (upper_hex (byte_val c mod 16)) (escape keep s')))
  end.

Fixpoint QueryEscape (s : string) : string :=
  match s with
  | EmptyString => EmptyString
  | String c s' =>
      if Ascii.eqb c " " then String "+" (QueryEscape s')
      else if unreserved c then String c (QueryEscape s')
      else String "%" (String (upper_hex (byte_val c / 16)) (String (upper_hex (byte_val c mod 16)) (QueryEscape s')))
  end.

Definition validEncodedPath (s : string) : bool :=
  string_all (λ c, in_cutset "!$&'()*+,;=:@[]%" c || path_byte c) s.

Definition set_path (raw : string) : option (string * string) :=
  p ← unescape encodePath raw; Some (p, if String.eqb raw (escape path_byte p) then "" else raw).

Definition EscapedPath (u : URL) : string :=
  if negb (String.eqb (RawPath u) "") && validEncodedPath (RawPath u) && bool_decide (unescape encodePath (RawPath u) = Some (Path u))
  then RawPath u else if String.eqb (Path u) "*" then "*" else escape path_byte (Path u).

(** [u.String] of a URL without a user and without a fragment. *)
Definition url_String (u : URL) : string :=
  Scheme u +:+ ":" +:+
  (if negb (String.eqb (Opaque u) "") then Opaque u
   else
     (if negb (String.eqb (u_Host u) "") || negb (String.eqb (Path u) "") then "//" else "") +:+ escape host_byte (u_Host u) +:+
     (if negb (String.eqb (EscapedPath u) "") && negb (HasPrefix (EscapedPath u) "/") && negb (String.eqb (u_Host u) "") then "/" else "") +:+
     EscapedPath u) +:+
  (if ForceQuery u || negb (String.eqb (RawQuery u) "") then "?" +:+ RawQuery u else "").

Definition split_query (rest : string) : bool * string * string :=
  match Cut rest "?" with
  | Some (a, q) => if String.eqb q "" then (true, a, "") else (false, a, q)
  | None => (false, rest, "")
  end.

(** [url.Parse] of a URL that has a scheme. *)
Definition url_Parse (raw : string) : option URL :=
  let '(u, frag) := match Cut raw "#" with Some (a, b) => (a, b) | None => (raw, "") end in
  if string_exists control_byte u then None
  else
    '(scheme, rest) ← getScheme u;
    let '(force, rest, query) := split_query rest in
    if negb (HasPrefix rest "/") then
      f ← unescape encodeFragment frag;
      Some {| Scheme := scheme; Opaque := rest; has_user := false; u_Host := ""; Path := ""; RawPath := "";
              ForceQuery := force; RawQuery := query; Fragment := f |}
    else
      let '(authority, path) :=
        if HasPrefix rest "//" then
          match Cut (drop_bytes 2 rest) "/" with Some (a, p) => (a, "/" +:+ p) | None => (drop_bytes 2 rest, "") end
        else ("", rest) in
      host ← parseAuthority authority; '(path, raw_path) ← set_path path; f ← unescape encodeFragment frag;
      Some {| Scheme := scheme; Opaque := ""; has_user := bool_decide (is_Some (cut_last "@" authority)); u_Host := host; Path := path;
              RawPath := raw_path; ForceQuery := force; RawQuery := query; Fragment := f |}.

(** The query of [url.Parse] of any reference, with a scheme or without. *)
Definition url_RawQuery (raw : string) : option string :=
  let '(u, frag) := match Cut raw "#" with Some (a, b) => (a, b) | None => (raw, "") end in
  if bool_decide (is_Some (getScheme u)) then RawQuery <$> url_Parse raw
  else if string_exists control_byte u || HasPrefix u ":" then None
  else
    let '(_, rest, query) := split_query u in
    let segment := match Cut rest "/" with Some (a, _) => a | None => rest end in
    if negb (HasPrefix rest "/") && Contains segment ":" then None
    else
      let '(authority, path) :=
        if HasPrefix rest "//" && negb (HasPrefix rest "///") then
          match Cut (drop_bytes 2 rest) "/" with Some (a, p) => (a, "/" +:+ p) | None => (drop_bytes 2 rest, "") end
        else ("", rest) in
      _ ← parseAuthority authority; _ ← set_path path; _ ← unescape encodeFragment frag; Some query.

(** *** Queries *)

(** [url.QueryUnescape]. *)
Fixpoint QueryUnescape (s : string) : option string :=
  match s with
  | EmptyString => Some EmptyString
  | String c s' =>
      if Ascii.eqb c "%" then
        match s' with
        | String a (String b rest) => if is_hex a && is_hex b then String (byte_of (16 * unhex a + unhex b)) <$> QueryUnescape rest else None
        | _ => None
        end
      else String (if Ascii.eqb c "+" then " "%char else c) <$> QueryUnescape s'
  end.

(** One field between ampersands; [u.Query] leaves out what it cannot read. *)
Definition query_pair (field : string) : option (string * string) :=
  if String.eqb field "" || Contains field ";" then None
  else
    let '(k, v) := match Cut field "=" with Some (k, v) => (k, v) | None => (field, "") end in
    k ← QueryUnescape k; v ← QueryUnescape v; Some (k, v).

(** [u.Query().Get]: the first value of the key. *)
Definition query_Get (raw key : string) : string :=
  default "" ((λ p, p.2.2) <$> list_find (λ kv, kv.1 = key) (omap query_pair (Split raw "&"))).

Example query_samples :
  (λ s, url_RawQuery s ≫= λ q, Some (query_Get q "state")) <$>
    ["https://sso/auth?client_id=v&state=a%2Bb+c"; "/cb?state=&state=x"; "sso:8080?state=x"; "//h/p?x;state=1&state=2"; "a:b/c?state=1#f"; "p/a:b?state=%zz"] =
  [Some "a+b c"; Some ""; Some "x"; Some "2"; Some "1"; Some ""].
Proof. vm_compute. reflexivity. Qed.

(** [u.Hostname]: the host without its port and without brackets. *)
Definition Hostname (u : URL) : string :=
  let h := u_Host u in
  let h := match cut_last ":" h with Some (a, p) => if string_all is_digit p then a else h | None => h end in
  if HasPrefix h "[" && HasSuffix h "]" then TrimSuffix (TrimPrefix h "[") "]" else h.

Example url_samples :
  (λ s, url_String <$> url_Parse s) <$> ["https://172.16.0.245:5000/v3/"; "HTTPS://h/a%2Fb"; "https://h/a%2Fb c"; "https://h?"; "mailto:x"; "https://h/a^b"] =
  [Some "https://172.16.0.245:5000/v3/"; Some "https://h/a%2Fb"; Some "https://h/a/b%20c"; Some "https://h?"; Some "mailto:x"; Some "https://h/a%5Eb"].
Proof. vm_compute. reflexivity. Qed.

(** [u.Scheme] and [u.Host] of a URL that has a scheme; [None] is an error, or
    no scheme. *)
Definition ParseURL (raw : string) : option (string * string) := (λ u, (Scheme u, u_Host u)) <$> url_Parse raw.

Example ParseURL_samples :
  ParseURL <$> ["https://172.16.0.245:5000/v3"; "HTTP://u:p@host"; "https://[fe80::1%25en0]:80/"; "http://a b"; "mailto:x"; "/v3"; "http://h:port"; "https://h/%zz"] =
  [Some ("https", "172.16.0.245:5000"); Some ("http", "host"); Some ("https", "[fe80::1%en0]:80"); None; Some ("mailto", ""); None; None; None].
Proof. vm_compute. reflexivity. Qed.

(** ** What a request's URL keeps of the one it was made from *)

(** How a byte that is not kept is written. *)
Definition escaped_byte (c : ascii) : ascii * ascii := (upper_hex (byte_val c / 16), upper_hex (byte_val c mod 16)).

Lemma escaped_byte_read c : let '(a, b) := escaped_byte c in
  is_hex a && is_hex b = true ∧ byte_of (16 * unhex a + unhex b) = c.
Proof. destruct c as [[] [] [] [] [] [] [] []]; vm_compute; auto. Qed.

Lemma escaped_byte_lacks d c : in_cutset "#?/@" d = true → let '(a, b) := escaped_byte c in (Ascii.eqb a d || Ascii.eqb b d) = false.
Proof.
  intros Hd. assert (∀ a, is_hex a = true → Ascii.eqb a d = false) as H.
  { intros a Ha. destruct (Ascii.eqb_spec a d) as [->|]; [|done]. exfalso. revert Hd Ha. by destruct d as [[] [] [] [] [] [] [] []]. }
  pose proof (escaped_byte_read c) as Hr. destruct (escaped_byte c) as [a b]. destruct Hr as ([Ha Hb]%andb_true_iff & _). by rewrite !H.
Qed.

Lemma escape_host_lacks d h : in_cutset "#?/@" d = true → lacks d (escape host_byte h) = true.
Proof.
  intros Hd. induction h as [|c h IH]; [done|]. cbn [escape]. destruct (host_byte c) eqn:Hc; unfold lacks in *; cbn [string_all].
  - rewrite IH, andb_true_r. destruct (Ascii.eqb_spec c d) as [->|]; [|done]. exfalso. revert Hd Hc. by destruct d as [[] [] [] [] [] [] [] []].
  - pose proof (escaped_byte_lacks d c Hd) as Hl. unfold escaped_byte in Hl. apply orb_false_iff in Hl as [-> ->]. rewrite IH.
    destruct (Ascii.eqb_spec "%" d) as [<-|]; [by vm_compute in Hd|done].
Qed.

Lemma escape_host_nonempty h : h ≠ "" → escape host_byte h ≠ "".
Proof. destruct h as [|c h]; [done|]. intros _. cbn [escape]. by destruct (host_byte c). Qed.

Lemma escape_plain keep s : string_all keep s = true → escape keep s = s.
Proof. induction s as [|c s IH]; [done|]. cbn [string_all escape]. intros [-> H]%andb_true_iff. by rewrite IH. Qed.

Lemma unescape_plain m s r : lacks "%" s = true → unescape m s = Some r → r = s.
Proof.
  revert r. induction s as [|c s IH]; intros r H E; [by injection E as <-|].
  unfold lacks in H. cbn [string_all] in H. apply andb_true_iff in H as [Hc H]. cbn [unescape] in E.
  destruct (Ascii.eqb c "%"); [done|]. destruct (_ && _); [done|].
  destruct (unescape m s) as [r'|] eqn:E'; [|done]. injection E as <-. f_equal. by apply IH.
Qed.

Lemma cut_last_lacks c s : lacks c s = true → cut_last c s = None.
Proof. intros H. unfold cut_last. rewrite Split_lacks; [done|]. unfold lacks. by rewrite string_all_reverse. Qed.

Lemma Split_string_all p c s : string_all p s = true → Forall (λ w, string_all p w = true) (Split s c).
Proof.
  induction s as [|d s IH]; [by repeat constructor|]. cbn [string_all Split]. intros [Hd Hs]%andb_true_iff. specialize (IH Hs).
  destruct (Ascii.eqb d c); [by constructor|]. destruct (Split s c) as [|w ws]; [by repeat constructor; cbn; rewrite Hd|].
  apply Forall_cons in IH as [Hw Hws]. constructor; [cbn; by rewrite Hd|done].
Qed.

Lemma cut_last_string_all p c s a b : string_all p s = true → p c = true → cut_last c s = Some (a, b) → string_all p a = true.
Proof.
  intros Hs Hc. unfold cut_last. pose proof (Split_string_all p c (reverse_string s)) as H. rewrite string_all_reverse in H. specialize (H Hs).
  destruct (Split (reverse_string s) c) as [|w [|w' ws]]; [done..|]. intros [= <- _]. rewrite string_all_reverse.
  apply (string_all_Join p (w' :: ws)); [by inversion H|cbn; by rewrite Hc].
Qed.

Lemma Cut_lacks c sep s : lacks c s = true → Cut s (String c sep) = None.
Proof.
  induction s as [|d s IH]; intros H; [done|]. unfold lacks in H. cbn [string_all] in H. apply andb_true_iff in H as [Hd H]. cbn [Cut].
  assert (HasPrefix (String d s) (String c sep) = false) as ->; [|by rewrite IH].
  unfold HasPrefix. cbn [String.prefix]. destruct (ascii_dec c d) as [->|]; [by rewrite Ascii.eqb_refl in Hd|done].
Qed.

(** A host of bytes that stand for themselves parses to itself. *)
Lemma parseHost_plain h r : string_all host_byte h = true → parseHost h = Some r → r = h.
Proof.
  intros Hh. unfold parseHost. assert (lacks "%" h = true) as Hp.
  { revert Hh. apply string_all_impl. intros c Hc. by destruct (Ascii.eqb_spec c "%") as [->|]; [vm_compute in Hc|]. }
  destruct (HasPrefix h "[").
  - destruct (cut_last "]" h) as [[inside port]|] eqn:Ec; [|done]. destruct (negb _); [done|].
    rewrite Cut_lacks; [by apply unescape_plain|]. by eapply cut_last_string_all in Ec.
  - destruct (cut_last ":" h) as [[a p]|]; [case_if; [|done]|]; by apply unescape_plain.
Qed.

(** What comes before the first slash of a URL is all that decides about its
    host, and without an at sign it names no user. *)
Lemma url_Parse_host h tail u : (∀ d, in_cutset "#?/@" d = true → lacks d h = true) →
  url_Parse ("https://" +:+ h +:+ "/" +:+ tail) = Some u → parseHost h = Some (u_Host u) ∧ Scheme u = "https" ∧ has_user u = false.
Proof.
  intros Hh. unfold url_Parse.
  assert (∃ t frag, match Cut ("https://" +:+ h +:+ "/" +:+ tail) "#" with Some (a, b) => (a, b) | None => ("https://" +:+ h +:+ "/" +:+ tail, "") end
    = ("https://" +:+ h +:+ "/" +:+ t, frag)) as (t & frag & ->).
  { rewrite !Cut_one_app by (done || by apply Hh). destruct (Cut tail "#") as [[a b]|]; eexists _, _; reflexivity. }
  cbv beta iota. case_if; [done|].
  change ("https://" +:+ h +:+ "/" +:+ t) with ("https" +:+ String ":" ("//" +:+ h +:+ "/" +:+ t)).
  unfold getScheme. rewrite Cut_one_app, Cut_one_here by done. cbn [fmap option_fmap option_map fst snd].
  match goal with |- (?g ≫= ?f) = _ → _ => change g with (Some ("https", "//" +:+ h +:+ "/" +:+ t)) end.
  match goal with |- (Some ?x ≫= ?f) = _ → _ => change (Some x ≫= f) with (f x) end. cbv beta iota.
  assert (∃ force t' q, split_query ("//" +:+ h +:+ "/" +:+ t) = (force, "//" +:+ h +:+ "/" +:+ t', q)) as (force & t' & q & ->).
  { unfold split_query. rewrite !Cut_one_app by (done || by apply Hh).
    destruct (Cut t "?") as [[a b]|]; cbn [fmap option_fmap option_map fst snd]; [case_if|]; eexists _, _, _; reflexivity. }
  change (HasPrefix ("//" +:+ h +:+ "/" +:+ t') "/") with true. rewrite (HasPrefix_app "//"). cbn [negb].
  change (drop_bytes 2 ("//" +:+ h +:+ "/" +:+ t')) with (h +:+ String "/" t').
  rewrite Cut_one_app, Cut_one_here by (by apply Hh). cbn [fmap option_fmap option_map fst snd].
  rewrite string_app_nil_r.
  intros E. apply bind_Some in E as (r & Hr & E). apply bind_Some in E as ([p rp] & _ & E). apply bind_Some in E as (f & _ & E). injection E as <-.
  cbn [u_Host Scheme has_user]. unfold parseAuthority in Hr. rewrite cut_last_lacks in Hr by (by apply Hh). split_and!; [done..|].
  rewrite cut_last_lacks by (by apply Hh). done.
Qed.
