(* ===== verification/NetAddr.v ===== *)
(** Addresses as text: [net.IP.String], and [netip.ParseAddr] with
    [netip.Addr.String], which prints an address in its one canonical form.
    The canonical form parses back to the address. *)

From Stdlib Require Import Ascii String ZArith Lia.
From S2P Require Import Prelude GoStrings GoFormat NetIP.
Open Scope Z_scope.

(** ** Printing *)

Definition dotted4 (b : list Z) : string := Join (Itoa <$> b) ".".

Fixpoint groups16 (b : list Z) : list Z :=
  match b with
  | hi :: lo :: b' => (256 * hi + lo) :: groups16 b'
  | _ => []
  end.

Fixpoint zeros_at (g : list Z) : nat := match g with z :: g' => if z =? 0 then S (zeros_at g') else 0%nat | [] => 0%nat end.

Definition longer_run (g : list Z) (best : option (nat * nat)) (i : nat) : option (nat * nat) :=
  let l := zeros_at (drop i g) in
  let have := match best with Some (s, e) => (e - s)%nat | None => 0%nat end in
  if (2 <=? l)%nat && (have <? l)%nat then Some (i, (i + l)%nat) else best.

(** The first longest run of at least two zero groups: where it starts and ends. *)
Definition zero_run (g : list Z) : option (nat * nat) := foldl (longer_run g) None (seq 0 (length g)).

Fixpoint hex_digits (fuel : nat) (z : Z) : string :=
  match fuel with
  | O => ""
  | S fuel => if z <? 16 then String (hex_char z) "" else hex_digits fuel (z / 16) +:+ String (hex_char (z mod 16)) ""
  end.

Definition hex16 (z : Z) : string := hex_digits 4 z.

Definition colon_hex (b : list Z) : string :=
  let g := groups16 b in
  match zero_run g with
  | Some (s, e) => Join (hex16 <$> take s g) ":" +:+ "::" +:+ Join (hex16 <$> drop e g) ":"
  | None => Join (hex16 <$> g) ":"
  end.

(** [net.IP.String], of four or sixteen bytes. *)
Definition ip_string (b : list Z) : string :=
  if bool_decide (length b = 4%nat) then dotted4 b
  else if bool_decide (take 12 b = mapped_prefix) then dotted4 (drop 12 b) else colon_hex b.

Example ip_strings :
  ip_string <$> [[10; 0; 0; 255]; [32; 1; 13; 184; 0; 0; 0; 0; 0; 0; 0; 0; 0; 0; 0; 1]; replicate 16 0;
                 [0; 1; 0; 0; 0; 2; 0; 0; 0; 0; 0; 3; 0; 0; 0; 0]; mapped_prefix ++ [10; 0; 0; 1]] =
  ["10.0.0.255"; "2001:db8::1"; "::"; "1:0:2::3:0:0"; "10.0.0.1"].
Proof. vm_compute. reflexivity. Qed.

(** ** [netip.Addr] *)

Inductive Addr := V4 (b : list Z) | V6 (b : list Z) (zone : string).

#[export] Instance Addr_eq_dec : EqDecision Addr.
Proof. solve_decision. Defined.

Definition addr_String (a : Addr) : string :=
  match a with
  | V4 b => dotted4 b
  | V6 b zone =>
      (if bool_decide (take 12 b = mapped_prefix) then "::ffff:" +:+ dotted4 (drop 12 b) else colon_hex b)
      +:+ (if String.eqb zone "" then "" else "%" +:+ zone)
  end.

(** [netip.ParseAddr]: the first dot, colon or percent decides. *)
Fixpoint parse_addr (s whole : string) : option Addr :=
  match s with
  | EmptyString => None
  | String c s' =>
      if Ascii.eqb c "." then V4 <$> parseIPv4Fields whole
      else if Ascii.eqb c ":" then
        match Cut whole "%" with
        | Some (a, zone) => if String.eqb zone "" then None else (λ b, V6 b zone) <$> parseIPv6 a
        | None => (λ b, V6 b "") <$> parseIPv6 whole
        end
      else if Ascii.eqb c "%" then None
      else parse_addr s' whole
  end.

Definition ParseAddr (s : string) : option Addr := parse_addr s s.

Example ParseAddr_samples :
  (λ s, addr_String <$> ParseAddr s) <$> ["2001:DB8:0:0::1"; "010.0.0.1"; "10.0.0.1"; "::ffff:1.2.3.4"; "fe80::1%eth0"; "fe80::1%"; "host"] =
  [Some "2001:db8::1"; None; Some "10.0.0.1"; Some "::ffff:1.2.3.4"; Some "fe80::1%eth0"; None; None].
Proof. vm_compute. reflexivity. Qed.

(** ** The canonical form reads back *)

Definition octets (n : nat) (b : list Z) : Prop := length b = n ∧ Forall (λ z, 0 ≤ z < 256) b.

(** *** Dotted quads *)

Lemma octet_ind (P : Z → Prop) : Forall P (Z.of_nat <$> seq 0 256) → ∀ z, 0 ≤ z < 256 → P z.
Proof. intros H z Hz. rewrite Forall_forall in H. apply H, list_elem_of_fmap. exists (Z.to_nat z). split; [lia|apply elem_of_seq; lia]. Qed.

(** A fact of every octet, checked one by one. *)
Ltac each_octet :=
  refine (octet_ind _ _);
  let l := eval vm_compute in (Z.of_nat <$> seq 0 256) in change (Z.of_nat <$> seq 0 256) with l;
  repeat first [apply Forall_nil_2 | apply Forall_cons_2]; try reflexivity.

Lemma ipv4_octet z : 0 ≤ z < 256 → ∀ rest done_, (rest = "" ∨ ∃ r, rest = String "." r) →
  ipv4_fields (Itoa z +:+ rest) true 0 0 done_ =
  match rest with
  | EmptyString => if (length done_ <? 3)%nat then None else Some (done_ ++ [z])
  | String _ r => if String.eqb r "" then None else if (length done_ =? 3)%nat then None else ipv4_fields r true 0 0 (done_ ++ [z])
  end.
Proof. revert z. each_octet; intros rest done_ [->|[r ->]]; reflexivity. Qed.

(** Read as hex digits, an octet is a group that ends at its dot. *)
Lemma octet_group z : 0 ≤ z < 256 → ∀ r, ∃ n acc, hex_group (Itoa z +:+ String "." r) 0 0 = Some (S n, acc, String "." r).
Proof. revert z. each_octet; intros r; eexists _, _; reflexivity. Qed.

Lemma octet_digits z : 0 ≤ z < 256 → string_all is_digit (Itoa z) = true.
Proof. revert z. each_octet. Qed.

Lemma dot_app x : "." +:+ x = String "." x.
Proof. done. Qed.

Lemma Itoa_nonempty z r : String.eqb (Itoa z +:+ r) "" = false.
Proof. apply String.eqb_neq. pose proof (Itoa_not "" z eq_refl) as H. destruct (Itoa z); [done|]. by rewrite string_app_cons. Qed.

Lemma parseIPv4_dotted4 b : octets 4 b → parseIPv4Fields (dotted4 b) = Some b.
Proof.
  intros [Hl Hb]. destruct b as [|a [|b1 [|c [|d [|]]]]]; try done.
  apply Forall_cons in Hb as [Ha Hb]. apply Forall_cons in Hb as [Hb1 Hb]. apply Forall_cons in Hb as [Hc Hb]. apply Forall_cons in Hb as [Hd _].
  unfold parseIPv4Fields, dotted4. cbn [fmap list_fmap Join]. rewrite !dot_app.
  rewrite (ipv4_octet a) by (done || (right; by eexists)). rewrite Itoa_nonempty. cbn [length Nat.eqb app].
  rewrite (ipv4_octet b1) by (done || (right; by eexists)). rewrite Itoa_nonempty. cbn [length Nat.eqb app].
  rewrite (ipv4_octet c) by (done || (right; by eexists)). rewrite <-(string_app_nil_r (Itoa d)), Itoa_nonempty. cbn [length Nat.eqb app].
  by rewrite (ipv4_octet d) by (done || by left).
Qed.

(** *** Groups *)

Definition group_ok (z : Z) : Prop := 0 ≤ z < 65536.

Lemma hex_char_value d : 0 ≤ d < 16 → letter_digit (hex_char d) = Some d.
Proof.
  intros H. assert (d ∈ (Z.of_nat <$> seq 0 16)) as Hd by (apply list_elem_of_fmap; exists (Z.to_nat d); split; [lia|apply elem_of_seq; lia]).
  cbn in Hd. repeat (apply elem_of_cons in Hd as [->|Hd]; [reflexivity|]). by apply elem_of_nil in Hd.
Qed.

Lemma hex_digits_length fuel z : 0 ≤ z < 16 ^ Z.of_nat fuel → (0 < fuel)%nat → (1 ≤ String.length (hex_digits fuel z) ≤ fuel)%nat.
Proof.
  revert z. induction fuel as [|fuel IH]; intros z Hz Hf; [lia|]. cbn [hex_digits]. destruct (Z.ltb_spec z 16); [cbn; lia|].
  rewrite length_string_app. cbn. destruct fuel as [|fuel]; [simpl in Hz; lia|].
  specialize (IH (z / 16)). rewrite Nat2Z.inj_succ, Z.pow_succ_r in Hz by lia.
  assert (0 ≤ z / 16 < 16 ^ Z.of_nat (S fuel)) by (split; [apply Z.div_pos; lia|apply Z.div_lt_upper_bound; lia]). specialize (IH ltac:(done) ltac:(lia)). lia.
Qed.

Lemma hex_group_digits fuel z off acc rest : 0 ≤ z < 16 ^ Z.of_nat fuel → (0 < fuel)%nat → (off + String.length (hex_digits fuel z) ≤ 4)%nat →
  hex_group (hex_digits fuel z +:+ rest) off acc =
  hex_group rest (off + String.length (hex_digits fuel z)) (acc * 16 ^ Z.of_nat (String.length (hex_digits fuel z)) + z).
Proof.
  revert z off acc rest. induction fuel as [|fuel IH]; intros z off acc rest Hz Hf Hoff; [lia|]. cbn [hex_digits] in *.
  destruct (Z.ltb_spec z 16) as [Hlt|Hge].
  - rewrite string_app_cons. change ("" +:+ rest) with rest. cbn [hex_group String.length] in *. rewrite hex_char_value by lia.
    rewrite (proj2 (Z.ltb_lt _ _)) by lia. rewrite (proj2 (Nat.ltb_ge _ _)) by lia. by rewrite Nat.add_1_r.
  - rewrite length_string_app in *. cbn [String.length] in *. rewrite string_app_assoc, string_app_cons. change ("" +:+ rest) with rest.
    destruct fuel as [|fuel]; [simpl in Hz; lia|]. rewrite Nat2Z.inj_succ, Z.pow_succ_r in Hz by lia.
    assert (0 ≤ z / 16 < 16 ^ Z.of_nat (S fuel)) as Hz' by (split; [apply Z.div_pos; lia|apply Z.div_lt_upper_bound; lia]).
    rewrite IH by (done || lia). set (n := String.length (hex_digits (S fuel) (z / 16))) in *. cbn [hex_group].
    pose proof (Z.mod_pos_bound z 16 ltac:(lia)). rewrite hex_char_value by lia. rewrite (proj2 (Z.ltb_lt _ _)) by lia. rewrite (proj2 (Nat.ltb_ge _ _)) by lia.
    f_equal; [lia|]. rewrite Nat2Z.inj_add, Z.pow_add_r by lia. change (16 ^ Z.of_nat 1) with 16. pose proof (Z.div_mod z 16 ltac:(lia)). nia.
Qed.

Definition colon_or_end (rest : string) : Prop := rest = "" ∨ ∃ r, rest = String ":" r.

Lemma hex_group_hex16 z rest : group_ok z → colon_or_end rest → ∃ n, (0 < n)%nat ∧ hex_group (hex16 z +:+ rest) 0 0 = Some (n, z, rest).
Proof.
  intros Hz Hr. unfold hex16. pose proof (hex_digits_length 4 z Hz ltac:(lia)) as Hl.
  rewrite hex_group_digits by (done || lia). eexists. split; [|destruct Hr as [->|[r ->]]; reflexivity]. lia.
Qed.

Definition bytes_of (gs : list Z) : list Z := gs ≫= λ g, [g / 256; g mod 256].

Lemma bytes_of_length gs : length (bytes_of gs) = (2 * length gs)%nat.
Proof. unfold bytes_of. induction gs as [|g gs IH]; [done|]. cbn in *. rewrite IH. lia. Qed.

Lemma hex16_head z : group_ok z → ∃ c s, hex16 z = String c s ∧ c ≠ ":"%char.
Proof.
  intros Hz. pose proof (hex_digits_length 4 z Hz ltac:(lia)) as Hl. unfold hex16 in *. destruct (hex_digits 4 z) as [|c s] eqn:E; [cbn in Hl; lia|].
  exists c, s. split; [done|]. intros ->.
  pose proof (hex_group_digits 4 z 0 0 "" Hz ltac:(lia)) as H. rewrite E in H. specialize (H ltac:(cbn in *; lia)). cbn in H. done.
Qed.

(** *** The groups of an address *)

Lemma join_cons w ws : Join (w :: ws) ":" = w +:+ match ws with [] => "" | _ => ":" +:+ Join ws ":" end.
Proof. destruct ws; cbn; [by rewrite string_app_nil_r|done]. Qed.

(** What may follow a group inside [gs]: the end, a group or the ellipsis. *)
Lemma ipv6_group_step fuel g rest ip e : group_ok g → colon_or_end rest →
  ipv6_groups (S fuel) (hex16 g +:+ rest) ip e =
  let ip := ip ++ [g / 256; g mod 256] in
  match rest with
  | EmptyString => Some (rest, ip, e)
  | String _ EmptyString => None
  | String _ (String d rest'' as rest') =>
      if Ascii.eqb d ":" then
        if bool_decide (is_Some e) then None
        else if String.eqb rest'' "" then Some (EmptyString, ip, Some (length ip))
        else ipv6_groups fuel rest'' ip (Some (length ip))
      else ipv6_groups fuel rest' ip e
  end.
Proof.
  intros Hg Hr. cbn [ipv6_groups]. destruct (hex_group_hex16 g rest Hg Hr) as (n & Hn & ->).
  rewrite (proj2 (Nat.eqb_neq n 0)) by lia.
  assert (HasPrefix rest "." = false) as -> by (by destruct Hr as [->|[r ->]]).
  destruct Hr as [->|[r ->]]; [done|]. by destruct r.
Qed.

Lemma hex16_not_colon g r : group_ok g → ∃ c s, hex16 g +:+ r = String c s ∧ Ascii.eqb c ":" = false.
Proof.
  intros Hg. destruct (hex16_head g Hg) as (c & s & -> & Hc). exists c, (s +:+ r). split; [done|]. by apply Ascii.eqb_neq.
Qed.

Lemma ipv6_groups_end gs : ∀ fuel ip e, gs ≠ [] → Forall group_ok gs → (length gs ≤ fuel)%nat →
  ipv6_groups fuel (Join (hex16 <$> gs) ":") ip e = Some ("", ip ++ bytes_of gs, e).
Proof.
  induction gs as [|g gs IH]; intros fuel ip e Hne Hg Hf; [done|]. apply Forall_cons in Hg as [Hg Hgs].
  destruct fuel as [|fuel]; [cbn in Hf; lia|]. rewrite fmap_cons, join_cons. destruct gs as [|g2 gs].
  - cbn [fmap list_fmap]. by rewrite ipv6_group_step by (done || by left).
  - set (gs' := g2 :: gs) in *. assert (Forall group_ok gs') as Hgs' by done. apply Forall_cons in Hgs as [Hg2 _].
    rewrite (ipv6_group_step fuel g) by (done || (right; by eexists)). cbn zeta.
    assert (∃ c s, Join (hex16 <$> gs') ":" = String c s ∧ Ascii.eqb c ":" = false) as (c & s & E & Hc).
    { unfold gs'. rewrite fmap_cons, join_cons. by apply hex16_not_colon. }
    change (match hex16 <$> gs' with [] => "" | _ => ":" +:+ Join (hex16 <$> gs') ":" end) with (String ":" (Join (hex16 <$> gs') ":")).
    rewrite E, Hc, <- E.
    rewrite IH by (done || cbn in *; lia). by rewrite <- (assoc_L (++)).
Qed.

Lemma ipv6_groups_ellipsis pre post : ∀ fuel ip, pre ≠ [] → Forall group_ok pre → Forall group_ok post → (length pre + length post ≤ fuel)%nat →
  ipv6_groups fuel (Join (hex16 <$> pre) ":" +:+ "::" +:+ Join (hex16 <$> post) ":") ip None =
  Some ("", ip ++ bytes_of pre ++ bytes_of post, Some (length (ip ++ bytes_of pre))).
Proof.
  induction pre as [|g pre IH]; intros fuel ip Hne Hg Hp Hf; [done|]. apply Forall_cons in Hg as [Hg Hgs].
  destruct fuel as [|fuel]; [cbn in Hf; lia|]. rewrite fmap_cons, join_cons, string_app_assoc. destruct pre as [|g2 pre].
  - cbn [fmap list_fmap]. change ("" +:+ "::" +:+ Join (hex16 <$> post) ":") with (String ":" (String ":" (Join (hex16 <$> post) ":"))).
    rewrite ipv6_group_step by (done || (right; by eexists)). cbn zeta. rewrite Ascii.eqb_refl.
    change (bytes_of [g]) with [g / 256; g mod 256]. case_bool_decide as Hs; [by destruct Hs|].
    destruct post as [|p post]; [cbn; by rewrite ?app_nil_r|].
    assert (String.eqb (Join (hex16 <$> p :: post) ":") "" = false) as ->.
    { rewrite fmap_cons, join_cons. apply Forall_cons in Hp as [Hp _].
      destruct (hex16_not_colon p (match hex16 <$> post with [] => "" | _ => ":" +:+ Join (hex16 <$> post) ":" end) Hp) as (c & s & -> & _). done. }
    rewrite ipv6_groups_end by (done || cbn in *; lia). by rewrite <- (assoc_L (++)).
  - set (pre' := g2 :: pre) in *. assert (Forall group_ok pre') as Hgs' by done. apply Forall_cons in Hgs as [Hg2 _].
    change (match hex16 <$> pre' with [] => "" | _ => ":" +:+ Join (hex16 <$> pre') ":" end) with (String ":" (Join (hex16 <$> pre') ":")).
    rewrite string_app_cons. rewrite (ipv6_group_step fuel g) by (done || (right; by eexists)). cbn zeta.
    set (w := Join (hex16 <$> pre') ":" +:+ "::" +:+ Join (hex16 <$> post) ":").
    assert (∃ c s, w = String c s ∧ Ascii.eqb c ":" = false) as (c & s & E & Hc).
    { unfold w, pre'. rewrite fmap_cons, join_cons, string_app_assoc. by apply hex16_not_colon. }
    rewrite E, Hc, <- E. unfold w. rewrite IH by (done || cbn in *; lia).
    rewrite <- !(assoc_L (++)). done.
Qed.

(** *** The run of zeros that is left out *)

Lemma zeros_at_replicate g : take (zeros_at g) g = replicate (zeros_at g) 0 ∧ (zeros_at g ≤ length g)%nat.
Proof.
  induction g as [|z g [IH1 IH2]]; [done|]. cbn. destruct (Z.eqb_spec z 0) as [->|]; cbn; [|split; [done|lia]]. split; [by rewrite IH1|lia].
Qed.

Definition run_at (g : list Z) (r : nat * nat) : Prop :=
  (r.1 < r.2 ≤ length g)%nat ∧ take (r.2 - r.1) (drop r.1 g) = replicate (r.2 - r.1) 0.

Lemma zero_run_zeros g r : zero_run g = Some r → run_at g r.
Proof.
  unfold zero_run. assert (∀ l best, (∀ r, best = Some r → run_at g r) → Forall (λ i, (i < length g)%nat) l → ∀ r, foldl (longer_run g) best l = Some r → run_at g r) as Hl.
  { clear r. induction l as [|i l IH]; intros best Hb Hi r; cbn; [apply Hb|]. apply Forall_cons in Hi as [Hi Hl]. apply IH; [|done].
    intros r'. unfold longer_run. case_match eqn:Hc; [|apply Hb]. apply andb_true_iff in Hc as [Hc%Nat.leb_le _]. intros [= <-]. destruct (zeros_at_replicate (drop i g)) as [H1 H2].
    rewrite length_drop in H2. split; cbn; [lia|]. by replace (i + zeros_at (drop i g) - i)%nat with (zeros_at (drop i g)) by lia. }
  apply Hl; [done|]. apply Forall_forall. intros i Hi%elem_of_seq. lia.
Qed.

Lemma groups_of_bytes b : Forall (λ z, 0 ≤ z < 256) b → Nat.Even (length b) → bytes_of (groups16 b) = b ∧ Forall group_ok (groups16 b).
Proof.
  intros Hb [n Hn]. revert b Hb Hn. induction n as [|n IH]; intros b Hb Hn.
  - destruct b; [done|cbn in Hn; lia].
  - destruct b as [|hi [|lo b]]; cbn in Hn; [lia|lia|]. apply Forall_cons in Hb as [Hh Hb]. apply Forall_cons in Hb as [Hlo Hb].
    destruct (IH b Hb ltac:(lia)) as [H1 H2]. cbn [groups16]. split.
    + change (bytes_of (?g :: ?gs)) with ([g / 256; g mod 256] ++ bytes_of gs). rewrite H1. cbn. rewrite (Z.mul_comm 256 hi), Z.div_add_l, Z.div_small, Z.add_0_r by lia.
      rewrite Z.add_comm, Z.mod_add, Z.mod_small by lia. done.
    + constructor; [unfold group_ok; lia|done].
Qed.

Lemma bytes_of_app a b : bytes_of (a ++ b) = bytes_of a ++ bytes_of b.
Proof. apply bind_app. Qed.

Lemma bytes_of_zeros n : bytes_of (replicate n 0) = replicate (2 * n) 0.
Proof. induction n as [|n IH]; [done|]. replace (2 * S n)%nat with (S (S (2 * n))) by lia. cbn -[Nat.mul]. by rewrite <- IH. Qed.

Lemma first_group gs r : gs ≠ [] → Forall group_ok gs → ∃ c s, Join (hex16 <$> gs) ":" +:+ r = String c s ∧ Ascii.eqb c ":" = false.
Proof.
  destruct gs as [|g gs]; [done|]. intros _ [Hg _]%Forall_cons. rewrite fmap_cons, join_cons, string_app_assoc. by apply hex16_not_colon.
Qed.

Lemma expand_run a n c : (length a + n + length c = 16)%nat → expand (a ++ c) (length a) = a ++ replicate n 0 ++ c.
Proof. intros H. unfold expand. rewrite take_app_length, drop_app_length, length_app. do 3 f_equal. lia. Qed.

Lemma no_colons c w : Ascii.eqb c ":" = false → HasPrefix (String c w) "::" = false.
Proof. intros H. unfold HasPrefix. cbn -[ascii_dec]. destruct (ascii_dec ":" c) as [<-|]; [|done]. by rewrite Ascii.eqb_refl in H. Qed.

Lemma drop_colons w : drop_bytes 2 ("::" +:+ w) = w.
Proof. done. Qed.

Lemma parseIPv6_colon_hex b : octets 16 b → parseIPv6 (colon_hex b) = Some b.
Proof.
  intros [Hl Hb]. destruct (groups_of_bytes b Hb) as [Hg Hok]; [rewrite Hl; by exists 8%nat|]. unfold colon_hex. set (g := groups16 b) in *.
  assert (length g = 8%nat) as Hg8 by (pose proof (bytes_of_length g) as H; rewrite Hg, Hl in H; lia).
  destruct (zero_run g) as [[s e]|] eqn:Er.
  - apply zero_run_zeros in Er as [Hse Hz]. cbn [fst snd] in Hse, Hz.
    assert (g = take s g ++ replicate (e - s) 0 ++ drop e g) as Hd.
    { rewrite <- Hz, <- (take_drop s g) at 1. f_equal. rewrite <- (take_drop (e - s) (drop s g)) at 1. f_equal. rewrite drop_drop. f_equal. lia. }
    assert (b = bytes_of (take s g) ++ replicate (2 * (e - s)) 0 ++ bytes_of (drop e g)) as Hbd by (rewrite <- Hg, Hd at 1; by rewrite !bytes_of_app, bytes_of_zeros).
    assert (Forall group_ok (take s g)) as Hp by by apply Forall_take. assert (Forall group_ok (drop e g)) as Hq by by apply Forall_drop.
    pose proof (bytes_of_length (take s g)) as L1. rewrite length_take in L1. pose proof (bytes_of_length (drop e g)) as L2. rewrite length_drop in L2.
    set (pre := take s g) in *. set (post := drop e g) in *. unfold parseIPv6. destruct (decide (pre = [])) as [Hpre|Hpre].
    + assert (s = 0%nat) as -> by (apply (f_equal length) in Hpre; unfold pre in Hpre; rewrite length_take in Hpre; cbn in Hpre; lia).
      rewrite Hpre in *. change (Join (hex16 <$> []) ":" +:+ "::" +:+ Join (hex16 <$> post) ":") with ("::" +:+ Join (hex16 <$> post) ":").
      rewrite HasPrefix_app, drop_colons.
      destruct (decide (post = [])) as [Hpost|Hpost].
      * rewrite Hpost in *. cbn in L2. cbn. rewrite Hbd. cbn. rewrite app_nil_r. replace (e - 0 + (e - 0 + 0))%nat with 16%nat by lia. done.
      * destruct (first_group post "" Hpost Hq) as (c & w & Ec & _). rewrite string_app_nil_r in Ec. rewrite Ec. cbn [String.eqb andb]. rewrite <- Ec.
        assert (length post = 8 - e)%nat as Lp by (unfold post; rewrite length_drop; lia).
        rewrite ipv6_groups_end by (done || lia). cbn [String.eqb negb app length]. rewrite (proj2 (Nat.ltb_lt _ _)) by lia.
        rewrite Hbd. f_equal. apply (expand_run []). cbn. lia.
    + destruct (first_group pre ("::" +:+ Join (hex16 <$> post) ":") Hpre Hp) as (c & w & Ec & Hc). rewrite Ec.
      rewrite no_colons by done. rewrite bool_decide_eq_false_2 by (by intros []). rewrite andb_false_r, <- Ec.
      assert (length pre = s) as Lp by (unfold pre; rewrite length_take; lia). assert (length post = 8 - e)%nat as Lq by (unfold post; rewrite length_drop; lia).
      rewrite ipv6_groups_ellipsis by (done || lia). cbn [String.eqb negb app]. rewrite length_app, (proj2 (Nat.ltb_lt _ _)) by lia.
      rewrite Hbd. f_equal. apply expand_run. lia.
  - assert (g ≠ []) as Hne by (by intros E; rewrite E in Hg8). unfold parseIPv6. destruct (first_group g "" Hne Hok) as (c & w & Ec & Hc).
    rewrite string_app_nil_r in Ec. rewrite Ec.
    rewrite no_colons by done. rewrite bool_decide_eq_false_2 by (by intros []). rewrite andb_false_r, <- Ec.
    rewrite ipv6_groups_end by (done || lia). cbn [String.eqb negb app]. by rewrite Hg, Hl.
Qed.

Lemma parseIPv6_mapped d : octets 4 d → parseIPv6 ("::ffff:" +:+ dotted4 d) = Some (mapped_prefix ++ d).
Proof.
  intros Hd. pose proof (parseIPv4_dotted4 d Hd) as H4. destruct Hd as [Hl Hd]. destruct d as [|a [|b d]]; [done..|]. apply Forall_cons in Hd as [Ha Hd].
  set (w := dotted4 (a :: b :: d)) in *. assert (∃ r, w = Itoa a +:+ String "." r) as [r Er] by by eexists.
  destruct (octet_group a Ha r) as (n & acc & Eg). rewrite <- Er in Eg.
  unfold parseIPv6. change ("::ffff:" +:+ w) with ("::" +:+ ("ffff:" +:+ w)). rewrite HasPrefix_app, drop_colons.
  change ("ffff:" +:+ w) with (hex16 65535 +:+ String ":" w). rewrite ipv6_group_step by (done || (right; by eexists)). cbn zeta.
  assert (ipv6_groups 7 w ([] ++ [65535 / 256; 65535 mod 256]) (Some 0%nat) = Some ("", [255; 255] ++ a :: b :: d, Some 0%nat)) as E.
  { cbn [ipv6_groups]. rewrite Eg. cbn -[parseIPv4Fields w]. rewrite H4. by destruct r. }
  assert (∃ c w', w = String c w' ∧ Ascii.eqb c ":" = false) as (c & w' & Ew & Hc).
  { pose proof (octet_digits a Ha) as Hdig. destruct (Itoa a) as [|c a'] eqn:Ea; [pose proof (Itoa_nonempty a ""); by rewrite Ea in *|].
    apply andb_true_iff in Hdig as [Hdig _]. exists c, (a' +:+ String "." r). split; [by rewrite Er|]. apply Ascii.eqb_neq. by intros ->. }
  rewrite Ew. rewrite Hc. rewrite <- Ew, E. cbn [String.eqb hex16 andb negb app length]. cbn in Hl. rewrite (proj2 (Nat.ltb_lt _ _)) by (cbn; lia).
  f_equal. apply (expand_run [] 10). cbn. lia.
Qed.

(** *** Which notation it is *)

Definition mark (c : ascii) : bool := Ascii.eqb c "." || Ascii.eqb c ":" || Ascii.eqb c "%".
Definition unmarked : string → bool := string_all (λ c, negb (mark c)).

Lemma parse_addr_unmarked p s whole : unmarked p = true → parse_addr (p +:+ s) whole = parse_addr s whole.
Proof.
  induction p as [|c p IH]; [done|]. cbn [unmarked string_all]. intros [Hc Hp]%andb_true_iff. rewrite string_app_cons. cbn [parse_addr].
  apply negb_true_iff in Hc. unfold mark in Hc. apply orb_false_iff in Hc as [[-> ->]%orb_false_iff ->]. by apply IH.
Qed.

Definition hexy (c : ascii) : bool := is_digit c || in_range 97 102 c.

Lemma hex16_hexy z : group_ok z → string_all hexy (hex16 z) = true.
Proof.
  unfold group_ok, hex16. change 65536 with (16 ^ Z.of_nat 4). generalize 4%nat as fuel. intros fuel. revert z.
  induction fuel as [|fuel IH]; intros z Hz; [done|]. cbn [hex_digits].
  assert (∀ d, 0 ≤ d < 16 → string_all hexy (String (hex_char d) "") = true) as Hd.
  { intros d Hd. assert (0 ≤ d < 256) as Ho by lia. revert d Ho Hd. each_octet; intros ?; first [reflexivity|lia]. }
  rewrite Nat2Z.inj_succ, Z.pow_succ_r in Hz by lia. destruct (Z.ltb_spec z 16); [apply Hd; lia|].
  rewrite string_all_app. apply andb_true_iff. split; [|apply Hd, Z.mod_pos_bound; lia].
  apply IH. split; [apply Z.div_pos; lia|apply Z.div_lt_upper_bound; lia].
Qed.

Lemma hexy_unmarked s : string_all hexy s = true → unmarked s = true.
Proof. apply string_all_impl. by intros [[] [] [] [] [] [] [] []]. Qed.

Lemma hex16_unmarked z : group_ok z → unmarked (hex16 z) = true.
Proof. intros H. by apply hexy_unmarked, hex16_hexy. Qed.

Lemma unmarked_lacks p : unmarked p = true → lacks "%" p = true.
Proof. apply string_all_impl. intros c H%negb_true_iff. unfold mark in H. apply orb_false_iff in H as [_ H]. by rewrite H. Qed.

(** *** Addresses *)

Definition addr_ok (a : Addr) : Prop := match a with V4 b => octets 4 b | V6 b _ => octets 16 b end.

(** An address with a colon in it starts with one or with a group. *)
Definition v6_shape (s : string) : Prop := ∃ p r, s = p +:+ String ":" r ∧ unmarked p = true ∧ lacks "%" r = true.

Lemma groups_lack gs : Forall group_ok gs → lacks "%" (Join (hex16 <$> gs) ":") = true.
Proof.
  intros H. apply string_all_Join; [|done]. apply Forall_fmap. eapply Forall_impl; [exact H|]. intros g Hg. by apply unmarked_lacks, hex16_unmarked.
Qed.

Lemma groups_shape gs r : (2 ≤ length gs)%nat → Forall group_ok gs → lacks "%" r = true → v6_shape (Join (hex16 <$> gs) ":" +:+ r).
Proof.
  intros Hl Hg Hr. destruct gs as [|g [|g2 gs]]; [cbn in Hl; lia..|]. apply Forall_cons in Hg as [Hg Hgs].
  exists (hex16 g), (Join (hex16 <$> g2 :: gs) ":" +:+ r). split_and!; [by rewrite fmap_cons, join_cons, string_app_assoc|by apply hex16_unmarked|].
  by rewrite lacks_app, groups_lack.
Qed.

Lemma colon_hex_shape b : octets 16 b → v6_shape (colon_hex b).
Proof.
  intros [Hl Hb]. destruct (groups_of_bytes b Hb) as [Hg Hok]; [rewrite Hl; by exists 8%nat|]. unfold colon_hex. set (g := groups16 b) in *.
  assert (length g = 8%nat) as Hg8 by (pose proof (bytes_of_length g) as H; rewrite Hg, Hl in H; lia).
  destruct (zero_run g) as [[s e]|]; [|rewrite <- (string_app_nil_r (Join _ _)); apply groups_shape; (done || lia)].
  assert (lacks "%" (Join (hex16 <$> drop e g) ":") = true) as Hd by by apply groups_lack, Forall_drop.
  assert (Forall group_ok (take s g)) as Ht by by apply Forall_take. destruct (take s g) as [|g1 [|g2 gs]].
  - by exists "", (String ":" (Join (hex16 <$> drop e g) ":")).
  - apply Forall_cons in Ht as [Ht _]. exists (hex16 g1), (String ":" (Join (hex16 <$> drop e g) ":")). split_and!; [done|by apply hex16_unmarked|done].
  - apply groups_shape; [cbn; lia|done|done].
Qed.

Lemma parse_addr_v6 p r zone whole : unmarked p = true → lacks "%" r = true → whole = (p +:+ String ":" r) +:+ (if String.eqb zone "" then "" else "%" +:+ zone) →
  ParseAddr whole = (λ b, V6 b zone) <$> parseIPv6 (p +:+ String ":" r).
Proof.
  intros Hp Hr ->. unfold ParseAddr. set (a := p +:+ String ":" r). set (z := if String.eqb zone "" then "" else "%" +:+ zone).
  assert (a +:+ z = p +:+ String ":" (r +:+ z)) as -> by (unfold a; by rewrite string_app_assoc).
  rewrite parse_addr_unmarked by done. cbn [parse_addr].
  assert (p +:+ String ":" (r +:+ z) = a +:+ z) as -> by (unfold a; by rewrite string_app_assoc).
  assert (lacks "%" a = true) as Ha by (unfold a; rewrite lacks_app, unmarked_lacks by done; done).
  replace (Ascii.eqb ":" ".") with false by reflexivity. replace (Ascii.eqb ":" ":") with true by reflexivity.
  rewrite Cut_one_app by done. unfold z. destruct (String.eqb_spec zone "") as [->|Hz]; [by rewrite string_app_nil_r|].
  change ("%" +:+ zone) with (String "%" zone). rewrite Cut_one_here. cbn [fmap option_fmap option_map fst snd]. rewrite string_app_nil_r.
  by rewrite (proj2 (String.eqb_neq zone "")).
Qed.

Lemma dotted4_shape d : octets 4 d → ∃ p r, dotted4 d = p +:+ String "." r ∧ unmarked p = true.
Proof.
  intros [Hl Hd]. destruct d as [|a [|b d]]; [done..|]. apply Forall_cons in Hd as [Ha _]. eexists (Itoa a), _. split; [done|].
  eapply string_all_impl; [|by apply octet_digits]. intros c Hc. apply negb_true_iff. unfold mark. apply orb_false_iff; split; [apply orb_false_iff; split|]; apply Ascii.eqb_neq; by intros ->.
Qed.

Lemma dotted4_lacks d : octets 4 d → lacks "%" (dotted4 d) = true.
Proof.
  intros [_ Hd]. apply string_all_Join; [|done]. apply Forall_fmap. eapply Forall_impl; [exact Hd|]. intros z Hz.
  eapply string_all_impl; [|by apply octet_digits]. intros c Hc. apply negb_true_iff, Ascii.eqb_neq. by intros ->.
Qed.

(** The canonical form of an address is read as that address. *)
Lemma ParseAddr_String a : addr_ok a → ParseAddr (addr_String a) = Some a.
Proof.
  destruct a as [b|b zone]; cbn [addr_ok addr_String]; intros Hb.
  - destruct (dotted4_shape b Hb) as (p & r & E & Hp). unfold ParseAddr. rewrite E at 1. rewrite parse_addr_unmarked by done. cbn [parse_addr].
    by rewrite Ascii.eqb_refl, parseIPv4_dotted4.
  - case_bool_decide as Hm.
    + assert (octets 4 (drop 12 b)) as Hd by (destruct Hb; split; [rewrite length_drop; lia|by apply Forall_drop]).
      rewrite (parse_addr_v6 "" (":ffff:" +:+ dotted4 (drop 12 b)) zone) by (done || by rewrite lacks_app, dotted4_lacks).
      change ("" +:+ String ":" (":ffff:" +:+ dotted4 (drop 12 b))) with ("::ffff:" +:+ dotted4 (drop 12 b)).
      rewrite parseIPv6_mapped by done. rewrite <- Hm. by rewrite take_drop.
    + destruct (colon_hex_shape b Hb) as (p & r & E & Hp & Hr). rewrite (parse_addr_v6 p r zone) by (done || by rewrite E). by rewrite <- E, parseIPv6_colon_hex.
Qed.

(** *** What is read is an address *)

Notation octet z := (0 ≤ z < 256).

Lemma ipv4_fields_ok s : ∀ start val digits done_ r, ipv4_fields s start val digits done_ = Some r →
  Forall (λ z, octet z) done_ → octet val → (length done_ ≤ 3)%nat → octets 4 r.
Proof.
  induction s as [|c s IH]; intros start val digits done_ r; cbn [ipv4_fields].
  - destruct (Nat.ltb_spec (length done_) 3); [done|]. intros [= <-] Hd Hv Hl. split; [rewrite length_app; cbn; lia|].
    apply Forall_app. split; [done|]. by apply Forall_singleton.
  - destruct (is_digit c) eqn:Ec.
    + case_match; [done|]. destruct (Z.ltb_spec 255 (val * 10 + digit_val c)); [done|]. intros H' Hd Hv Hl. eapply IH; [exact H'|done| |done].
      unfold is_digit, in_range in Ec. apply andb_true_iff in Ec as [?%Z.leb_le ?%Z.leb_le]. unfold digit_val in *. lia.
    + destruct (Ascii.eqb c "."); [|done]. case_match; [done|]. destruct (Nat.eqb_spec (length done_) 3); [done|]. intros H' Hd Hv Hl.
      eapply IH; [exact H'| |lia|rewrite length_app; cbn; lia]. apply Forall_app. split; [done|]. by apply Forall_singleton.
Qed.

Lemma parseIPv4Fields_ok s r : parseIPv4Fields s = Some r → octets 4 r.
Proof. intros H. by eapply ipv4_fields_ok; [exact H|constructor|lia|cbn; lia]. Qed.

Lemma hex_group_ok s : ∀ off acc n v rest, hex_group s off acc = Some (n, v, rest) → (off ≤ 4)%nat → 0 ≤ acc < 16 ^ Z.of_nat off → group_ok v.
Proof.
  assert (∀ off acc, (off ≤ 4)%nat → 0 ≤ acc < 16 ^ Z.of_nat off → group_ok acc) as Hend.
  { intros off acc Ho Ha. unfold group_ok. pose proof (Z.pow_le_mono_r 16 (Z.of_nat off) 4 ltac:(lia) ltac:(lia)). change (16 ^ 4) with 65536 in *. lia. }
  induction s as [|c s IH]; intros off acc n v rest; cbn [hex_group]; [intros [= <- <- <-]; apply Hend|].
  destruct (letter_digit c) as [d|] eqn:Ec; [|intros [= <- <- <-]; apply Hend].
  destruct (Z.ltb_spec d 16); [|intros [= <- <- <-]; apply Hend]. destruct (Nat.ltb_spec 3 off); [done|]. intros H1 Ho Ha.
  eapply IH; [exact H1|lia|]. rewrite Nat2Z.inj_succ, Z.pow_succ_r by lia.
  assert (0 ≤ d) by (unfold letter_digit, is_digit, is_lower, in_range in Ec; pose proof (byte_val_range c); repeat case_match; simplify_eq; bool_simpl; unfold digit_val in *; lia). lia.
Qed.

Definition v6_state (ip : list Z) (e : option nat) : Prop := (length ip ≤ 16)%nat ∧ Forall (λ z, octet z) ip ∧ ∀ n, e = Some n → (n ≤ length ip)%nat.

Lemma ipv6_groups_ok fuel : ∀ s ip e rest ip' e', ipv6_groups fuel s ip e = Some (rest, ip', e') →
  (length ip + 2 * fuel ≤ 16)%nat → v6_state ip e → v6_state ip' e'.
Proof.
  induction fuel as [|fuel IH]; intros s ip e rest ip' e'; cbn [ipv6_groups]; [by intros [= <- <- <-]|].
  destruct (hex_group s 0 0) as [[[off acc] r]|] eqn:Eg; [|done]. apply hex_group_ok in Eg; [|lia|cbn; lia]. case_match; [done|].
  destruct (HasPrefix r ".").
  { case_match; [done|]. destruct (Nat.ltb_spec 16 (length ip + 4)); [done|]. destruct (parseIPv4Fields s) as [f|] eqn:Ef; [|done].
    intros [= <- <- <-] _ (Hl & Ho & He). apply parseIPv4Fields_ok in Ef as [Hf Hfo]. split_and!; [rewrite length_app; lia|by apply Forall_app|].
    intros n ->. rewrite length_app. specialize (He n eq_refl). lia. }
  set (ip2 := ip ++ [acc / 256; acc mod 256]). intros H1 Hf (Hl & Ho & He).
  assert (length ip2 = length ip + 2)%nat as L2 by (unfold ip2; by rewrite length_app).
  assert (v6_state ip2 e) as Hs.
  { split_and!; [lia| |intros n ->; specialize (He n eq_refl); lia]. apply Forall_app. split; [done|]. unfold group_ok in Eg.
    pose proof (Z.mod_pos_bound acc 256 ltac:(lia)). apply Forall_cons_2; [|apply Forall_singleton; lia]. split; [apply Z.div_pos; lia|apply Z.div_lt_upper_bound; lia]. }
  assert (v6_state ip2 (Some (length ip2))) as Hs' by (destruct Hs as (? & ? & _); split_and!; [done|done|by intros n [= <-]]).
  destruct r as [|c [|d r]]; [by simplify_eq|by destruct (negb _)|]. destruct (negb (Ascii.eqb c ":")); [done|].
  destruct (Ascii.eqb d ":"); [|eapply IH; [exact H1|lia|done]]. case_match; [done|].
  destruct (String.eqb r ""); [by simplify_eq|eapply IH; [exact H1|lia|done]].
Qed.

Lemma parseIPv6_ok s b : parseIPv6 s = Some b → octets 16 b.
Proof.
  unfold parseIPv6. destruct (if HasPrefix s "::" then _ else _) as [s' e] eqn:Es.
  assert (∀ n, e = Some n → n = 0%nat) as He by (intros n ->; destruct (HasPrefix s "::"); by simplify_eq).
  destruct (String.eqb s' "" && _); [intros [= <-]; split; [done|by apply (Forall_replicate _ 16)]|].
  destruct (ipv6_groups 8 s' [] e) as [[[rest ip] e']|] eqn:Eg; [|done].
  apply ipv6_groups_ok in Eg as (Hl & Ho & He'); [|cbn; lia|split_and!; [cbn; lia|constructor|by intros n ->%He]].
  destruct (negb (String.eqb rest "")); [done|]. destruct (Nat.ltb_spec (length ip) 16).
  - destruct e' as [n|]; [|done]. intros [= <-]. specialize (He' n eq_refl). unfold expand. split.
    + rewrite !length_app, length_take, length_replicate, length_drop. lia.
    + rewrite !Forall_app. split_and!; [by apply Forall_take|by apply Forall_replicate|by apply Forall_drop].
  - destruct (bool_decide _); [done|]. intros [= <-]. split; [lia|done].
Qed.

Lemma ParseAddr_ok s a : ParseAddr s = Some a → addr_ok a.
Proof.
  unfold ParseAddr. generalize s at 2. induction s as [|c s IH]; intros whole; cbn [parse_addr]; [done|].
  destruct (Ascii.eqb c "."); [destruct (parseIPv4Fields whole) eqn:E; [|done]; intros [= <-]; by apply parseIPv4Fields_ok in E|].
  destruct (Ascii.eqb c ":"); [|destruct (Ascii.eqb c "%"); [done|apply IH]].
  destruct (Cut whole "%") as [[p zone]|]; [case_match; [done|]|]; (destruct (parseIPv6 _) eqn:E; [|done]); intros [= <-]; by apply parseIPv6_ok in E.
Qed.

Lemma ParseAddr_canonical s a : ParseAddr s = Some a → ParseAddr (addr_String a) = Some a.
Proof. intros H%ParseAddr_ok. by apply ParseAddr_String. Qed.

(** *** No white space is printed that was not read *)

Lemma spaceless_dotted4 b : octets 4 b → spaceless (dotted4 b) = true.
Proof.
  intros [_ Hb]. apply string_all_Join; [|done]. apply Forall_fmap. eapply Forall_impl; [exact Hb|]. intros z Hz.
  eapply string_all_impl; [|by apply octet_digits]. by intros [[] [] [] [] [] [] [] []].
Qed.

Lemma spaceless_groups gs : Forall group_ok gs → spaceless (Join (hex16 <$> gs) ":") = true.
Proof.
  intros H. apply string_all_Join; [|done]. apply Forall_fmap. eapply Forall_impl; [exact H|]. intros g Hg.
  eapply string_all_impl; [|by apply hex16_hexy]. by intros [[] [] [] [] [] [] [] []].
Qed.

Lemma spaceless_colon_hex b : octets 16 b → spaceless (colon_hex b) = true.
Proof.
  intros [Hl Hb]. destruct (groups_of_bytes b Hb) as [_ Hok]; [rewrite Hl; by exists 8%nat|]. unfold colon_hex.
  destruct (zero_run _) as [[s e]|]; [|by apply spaceless_groups].
  rewrite !spaceless_app, !spaceless_groups by (by apply Forall_take || by apply Forall_drop). done.
Qed.

Lemma Cut_one_inv c s a b : Cut s (String c "") = Some (a, b) → s = a +:+ String c b.
Proof.
  revert a b. induction s as [|d s IH]; intros a b; cbn [Cut]; [done|]. destruct (HasPrefix (String d s) (String c "")) eqn:E.
  - apply HasPrefix_inv in E as [t E]. injection E as -> ->. intros [= <- <-]. cbn. by destruct t.
  - destruct (Cut s (String c "")) as [[x y]|]; [|done]. intros [= <- <-]. by rewrite (IH x y).
Qed.

Lemma spaceless_addr s a : ParseAddr s = Some a → spaceless s = true → spaceless (addr_String a) = true.
Proof.
  intros H Hs. pose proof (ParseAddr_ok _ _ H) as Hok. destruct a as [b|b zone]; cbn [addr_ok addr_String] in *; [by apply spaceless_dotted4|].
  rewrite spaceless_app. apply andb_true_iff. split.
  - case_bool_decide; [|by apply spaceless_colon_hex]. rewrite spaceless_app, spaceless_dotted4; [done|].
    destruct Hok; split; [rewrite length_drop; lia|by apply Forall_drop].
  - destruct (String.eqb_spec zone "") as [->|Hz]; [done|]. rewrite spaceless_app.
    assert (spaceless zone = true) as ->; [|done].
    revert H. unfold ParseAddr. revert Hs. generalize s at 1 3 as whole. induction s as [|c s IH]; intros whole Hw; cbn [parse_addr]; [done|].
    destruct (Ascii.eqb c "."); [by destruct (parseIPv4Fields whole)|].
    destruct (Ascii.eqb c ":"); [|destruct (Ascii.eqb c "%"); [done|by apply IH]].
    destruct (Cut whole "%") as [[p z]|] eqn:Ec.
    + case_match; [done|]. destruct (parseIPv6 p); [|done]. intros [= _ <-]. apply Cut_one_inv in Ec as ->.
      rewrite spaceless_app in Hw. apply andb_true_iff in Hw as [_ Hw]. cbn in Hw. done.
    + destruct (parseIPv6 whole); [|done]. by intros [= _ <-].
Qed.
