(* ===== verification/GoIP.v ===== *)
(** [net.IP.String] of an address given as bytes of a text. *)

From Stdlib Require Import Ascii String ZArith.
From S2P Require Import Prelude GoStrings NetAddr.
Open Scope Z_scope.

Definition bytes : Type := list ascii.
Definition byte (z : Z) : ascii := ascii_of_N (Z.to_N z).

Definition ip_string (b : bytes) : string := NetAddr.ip_string (byte_val <$> b).

Example ip_string_samples :
  ip_string <$> [byte <$> [10; 0; 0; 255]; byte <$> [32; 1; 13; 184; 0; 0; 0; 0; 0; 0; 0; 0; 0; 0; 0; 1]] = ["10.0.0.255"; "2001:db8::1"].
Proof. vm_compute. reflexivity. Qed.
