(* ===== verification/GoBase64.v ===== *)
(** [encoding/base64] with [RawURLEncoding]: no padding, line breaks skipped,
    the unused bits of the last character ignored. *)

From Stdlib Require Import Ascii String ZArith Lia.
From S2P Require Import Prelude GoStrings.
Open Scope Z_scope.

Definition char_of (z : Z) : ascii := ascii_of_N (Z.to_N z).

Definition alphabet (v : Z) : ascii :=
  char_of (if v <? 26 then 65 + v else if v <? 52 then 71 + v else if v <? 62 then v - 4 else if v <? 63 then 45 else 95).

Definition sextet (c : ascii) : option Z :=
  if is_upper c then Some (byte_val c - 65) else if is_lower c then Some (byte_val c - 71) else if is_digit c then Some (byte_val c + 4)
  else if Ascii.eqb c "-" then Some 62 else if Ascii.eqb c "_" then Some 63 else None.

(** The six-bit groups of some bytes. *)
Fixpoint sextets (s : string) : list Z :=
  match s with
  | String a (String b (String c s')) =>
      [byte_val a / 4; byte_val a mod 4 * 16 + byte_val b / 16; byte_val b mod 16 * 4 + byte_val c / 64; byte_val c mod 64] ++ sextets s'
  | String a (String b EmptyString) => [byte_val a / 4; byte_val a mod 4 * 16 + byte_val b / 16; byte_val b mod 16 * 4]
  | String a EmptyString => [byte_val a / 4; byte_val a mod 4 * 16]
  | EmptyString => []
  end.

Definition EncodeToString (s : string) : string := String.string_of_list_ascii (alphabet <$> sextets s).

Definition line_break (c : ascii) : bool := Ascii.eqb c "010" || Ascii.eqb c "013".

Fixpoint sextets_of (s : string) : option (list Z) :=
  match s with
  | EmptyString => Some []
  | String c s' => if line_break c then sextets_of s' else v ← sextet c; (λ vs, v :: vs) <$> sextets_of s'
  end.

Fixpoint bytes_of (vs : list Z) : option string :=
  match vs with
  | a :: b :: c :: d :: vs' =>
      (λ s, String (char_of (a * 4 + b / 16)) (String (char_of (b mod 16 * 16 + c / 4)) (String (char_of (c mod 4 * 64 + d)) s))) <$> bytes_of vs'
  | [a; b; c] => Some (String (char_of (a * 4 + b / 16)) (String (char_of (b mod 16 * 16 + c / 4)) EmptyString))
  | [a; b] => Some (String (char_of (a * 4 + b / 16)) EmptyString)
  | [_] => None
  | [] => Some EmptyString
  end.

Definition DecodeString (s : string) : option string := vs ← sextets_of s; bytes_of vs.

(** [StdEncoding.DecodeString]: the other two characters, and padding to whole
    groups of four. *)
Definition std_char (c : ascii) : option ascii :=
  if Ascii.eqb c "+" then Some "-"%char else if Ascii.eqb c "/" then Some "_"%char
  else if Ascii.eqb c "-" || Ascii.eqb c "_" then None else Some c.

Fixpoint std_chars (s : string) : option string :=
  match s with
  | EmptyString => Some EmptyString
  | String c s' => if line_break c then std_chars s' else d ← std_char c; String d <$> std_chars s'
  end.

Definition StdDecodeString (s : string) : option string :=
  s ← std_chars s;
  if negb (String.length s mod 4 =? 0)%nat then None
  else DecodeString (if HasSuffix s "==" then take_bytes (String.length s - 2) s else TrimSuffix s "=").

Example std_base64_samples :
  StdDecodeString <$> ["e30="; "YQ=="; "YWJj"; "Pz8+"; ""; "YQ"; "Pz8-"; "Y==="; "YWI=YWI="] =
  [Some "{}"; Some "a"; Some "abc"; Some "??>"; Some ""; None; None; None; None].
Proof. vm_compute. reflexivity. Qed.

Example base64_samples :
  (EncodeToString <$> ["{}"; "a"; "abc"; "??>"; ""], DecodeString <$> ["e30"; "YQ"; "YR"; "Y"; "a.b"]) =
  (["e30"; "YQ"; "YWJj"; "Pz8-"; ""], [Some "{}"; Some "a"; Some "a"; None; None]).
Proof. vm_compute. reflexivity. Qed.

Lemma char_of_byte_val c : char_of (byte_val c) = c.
Proof. unfold char_of, byte_val. by rewrite N2Z.id, ascii_N_embedding. Qed.

Lemma alphabet_sextet v : 0 ≤ v < 64 → sextet (alphabet v) = Some v ∧ line_break (alphabet v) = false ∧ Ascii.eqb (alphabet v) "." = false.
Proof.
  intros Hv. assert (Forall (λ v, sextet (alphabet v) = Some v ∧ line_break (alphabet v) = false ∧ Ascii.eqb (alphabet v) "." = false) (Z.of_nat <$> seq 0 64)) as H.
  { repeat (constructor; [by vm_compute|]). constructor. }
  rewrite Forall_forall in H. apply H. apply list_elem_of_fmap. exists (Z.to_nat v). split; [lia|]. apply elem_of_seq. lia.
Qed.

Definition six (v : Z) : Prop := 0 ≤ v < 64.

(** By threes, as the encoder goes. *)
Lemma string_ind3 (P : string → Prop) : P "" → (∀ a, P (String a "")) → (∀ a b, P (String a (String b ""))) →
  (∀ a b c s, P s → P (String a (String b (String c s)))) → ∀ s, P s.
Proof. intros H0 H1 H2 H3. fix IH 1. intros [|a [|b [|c s]]]; [apply H0|apply H1|apply H2|apply H3, IH]. Qed.

Lemma sextets_six s : Forall six (sextets s).
Proof.
  induction s as [|a|a b|a b c s IH] using string_ind3; cbn [sextets app]; unfold six in *;
    repeat match goal with |- context [byte_val ?x] => lazymatch goal with H : 0 ≤ byte_val x < 256 |- _ => fail | _ => pose proof (byte_val_range x) end end;
    repeat (apply Forall_cons; split); try done; Z.div_mod_to_equations; lia.
Qed.

Lemma sextets_of_encoded vs : Forall six vs → sextets_of (String.string_of_list_ascii (alphabet <$> vs)) = Some vs.
Proof.
  induction 1 as [|v vs Hv Hvs IH]; [done|]. change (alphabet <$> v :: vs) with (alphabet v :: (alphabet <$> vs)).
  cbn [String.string_of_list_ascii sextets_of].
  destruct (alphabet_sextet v Hv) as (-> & -> & _). cbn [mbind option_bind]. by rewrite IH.
Qed.

Lemma bytes_of_sextets s : bytes_of (sextets s) = Some s.
Proof.
  induction s as [|a|a b|a b c s IH] using string_ind3; cbn [sextets app bytes_of]; [done|..];
    repeat match goal with |- context [byte_val ?x] => lazymatch goal with H : 0 ≤ byte_val x < 256 |- _ => fail | _ => pose proof (byte_val_range x) end end.
  - rewrite <-(char_of_byte_val a) at 3. do 3 f_equal. Z.div_mod_to_equations; lia.
  - rewrite <-(char_of_byte_val a) at 4. rewrite <-(char_of_byte_val b) at 4. do 2 f_equal; [f_equal; Z.div_mod_to_equations; lia|]. do 2 f_equal. Z.div_mod_to_equations; lia.
  - rewrite IH. cbn [fmap option_fmap option_map]. rewrite <-(char_of_byte_val a) at 4. rewrite <-(char_of_byte_val b) at 5. rewrite <-(char_of_byte_val c) at 4.
    do 2 f_equal; [f_equal; Z.div_mod_to_equations; lia|]. f_equal; [f_equal; Z.div_mod_to_equations; lia|]. do 2 f_equal. Z.div_mod_to_equations; lia.
Qed.

Lemma Decode_Encode s : DecodeString (EncodeToString s) = Some s.
Proof. unfold DecodeString, EncodeToString. rewrite sextets_of_encoded by apply sextets_six. apply bytes_of_sextets. Qed.

Lemma Encode_lacks_dot s : lacks "." (EncodeToString s) = true.
Proof.
  unfold EncodeToString, lacks. induction (sextets_six s) as [|v vs Hv Hvs IH]; [done|].
  change (alphabet <$> v :: vs) with (alphabet v :: (alphabet <$> vs)). cbn [String.string_of_list_ascii string_all].
  destruct (alphabet_sextet v Hv) as (_ & _ & ->). exact IH.
Qed.

Lemma Encode_length s : (String.length (EncodeToString s) * 3 ≤ String.length s * 4 + 4)%nat.
Proof.
  unfold EncodeToString. assert (∀ l, String.length (String.string_of_list_ascii l) = length l) as Hl by (induction l as [|c l IH]; cbn; auto).
  rewrite Hl, length_fmap. induction s as [|a|a b|a b c s IH] using string_ind3; cbn [sextets app length String.length] in *; lia.
Qed.

Lemma Encode_word s : word (EncodeToString s).
Proof.
  unfold EncodeToString, word. induction (sextets_six s) as [|v vs Hv Hvs IH]; [done|].
  change (alphabet <$> v :: vs) with (alphabet v :: (alphabet <$> vs)). cbn [String.string_of_list_ascii string_all].
  rewrite IH, andb_true_r. clear IH. assert (Forall (λ v, visible (alphabet v) = true) (Z.of_nat <$> seq 0 64)) as H.
  { repeat (constructor; [by vm_compute|]). constructor. }
  rewrite Forall_forall in H. apply H. apply list_elem_of_fmap. exists (Z.to_nat v). unfold six in Hv. split; [lia|]. apply elem_of_seq. lia.
Qed.
