(* ===== verification/Motd.v ===== *)
(** The login banner: src/internal/motd/motd.go ([Render], [topologyRows],
    [nearlySame], [Sync]) and src/internal/motd/accel.go ([Accelerators]).

    What a farm looks like is src/internal/store/farm_topology.go's record, a
    name of the control plane that matched no inventory host is paired by
    [Membership.MatchHosts] and then by [nearlySame]. *)

From Stdlib Require Import Ascii String ZArith Lia.
From S2P Require Import Prelude GoStrings GoFormat Membership.
Open Scope Z_scope.

(** ** Data *)

Record Banner := {
  Header : string; ManagedBy : string; Self : string; Color : bool; Hardware : list string;
}.

Record FarmMember := {
  fm_Hostname : string; fm_IP : string; NovaHostname : string; fm_Confidence : string; Controller : bool;
}.

Record FarmTopology := {
  ft_DeploymentID : string; ft_DisplayName : string; ft_State : string; ft_StateNote : string; ft_Team : string;
  GhostNames : list string; SyncedAt : time_t; Members : list FarmMember;
}.

(** ** Colour *)

Definition esc : string := String "027" "".
Definition ansiReset : string := esc +:+ "[0m".
Definition ansiYellow : string := esc +:+ "[33m".
Definition ansiGreen : string := esc +:+ "[1;32m".
Definition newline : string := String nl "".

Definition paint (on : bool) (code s : string) : string :=
  if negb on || String.eqb s "" then s else code +:+ s +:+ ansiReset.

Definition fade (from to t span : Z) : Z := from + Z.quot ((to - from) * t) (Z.max span 1).

Definition paint_line (span : Z) (i : nat) (ln : string) : string :=
  if String.eqb ln "" then ln
  else
    let t := if 0 <? span then Z.of_nat i else 0 in
    esc +:+ "[38;2;" +:+ Itoa (fade 45 79 t span) +:+ ";" +:+ Itoa (fade 212 122 t span) +:+ ";"
      +:+ Itoa (fade 191 246 t span) +:+ "m" +:+ ln +:+ ansiReset.

Definition paintBlock (on : bool) (block : string) : string :=
  if negb on then block
  else
    let lines := Split block nl in
    Join (imap (paint_line (Z.of_nat (length lines) - 1)) lines) newline.

(** ** Names that differ by one typo *)

(** The first index at which the two differ. *)
Fixpoint common (a b : list ascii) : nat :=
  match a, b with
  | x :: a', y :: b' => if Ascii.eqb x y then S (common a' b') else 0
  | _, _ => 0
  end.

Definition near_bytes (a b : list ascii) : bool :=
  if bool_decide (a = b) then true
  else if bool_decide (length a = length b) then
    let i := common a b in
    if bool_decide (drop (i + 1) a = drop (i + 1) b) then true
    else bool_decide (i + 1 < length a)%nat && bool_decide (a !! i = b !! (i + 1)%nat)
         && bool_decide (a !! (i + 1)%nat = b !! i) && bool_decide (drop (i + 2) a = drop (i + 2) b)
  else
    let '(long, short) := if bool_decide (length a < length b)%nat then (b, a) else (a, b) in
    if negb (bool_decide (length long - length short = 1)%nat) then false
    else let i := common short long in bool_decide (drop (i + 1) long = drop i short).

Definition canonical_name (h : string) : list ascii := String.list_ascii_of_string (ToLower (shortName h)).

Definition nearlySame (a b : string) : bool := near_bytes (canonical_name a) (canonical_name b).

(** ** The rows of one farm *)

Record row := { label : string; addr : string; hostname : string; novaName : string; here : bool }.

Definition near_hits (members : list FarmMember) (nova : gmap string string) (c : string) : list string :=
  fm_Hostname <$> filter (λ m, bool_decide (nova !! fm_Hostname m = None) && nearlySame (fm_Hostname m) c) members.

Definition pin (members : list FarmMember) (paired : gset string) (st : gmap string string * list string) (c : string)
    : gmap string string * list string :=
  if decide (c ∈ paired) then st
  else match near_hits members st.1 c with
       | [h] => (<[h := c]> st.1, st.2)
       | _ => (st.1, st.2 ++ [c])
       end.

(** The names the control plane's unmatched names are shown under, and those
    shown under none. *)
Definition pinned (f : FarmTopology) : gmap string string * list string :=
  let prs := (MatchHosts (fm_Hostname <$> Members f) (GhostNames f)).1 in
  foldl (pin (Members f) (list_to_set (map_to_list prs).*2)) (prs, []) (GhostNames f).

Definition member_row (self lbl : string) (nova : gmap string string) (m : FarmMember) : row :=
  {| label := lbl; addr := fm_IP m; hostname := fm_Hostname m; novaName := default "" (nova !! fm_Hostname m);
     here := String.eqb (fm_Hostname m) self |}.

Definition topologyRows (self : string) (f : FarmTopology) : list row * bool * list string :=
  let '(nova, unclaimed) := pinned f in
  let ctrl := filter (λ m, Controller m = true) (Members f) in
  let comp := filter (λ m, Controller m = false) (Members f) in
  ((member_row self "Controller" nova <$> ctrl)
     ++ imap (λ n m, member_row self ("Compute #" +:+ Itoa (Z.of_nat n + 1)) nova m) comp,
   existsb (λ m, String.eqb (fm_Hostname m) self) ctrl,
   unclaimed).

(** ** Rendering *)

Definition width_of (key : row → string) (rows : list row) : nat :=
  foldl (λ w r, Nat.max w (String.length (key r))) 0%nat rows.

Definition row_line (color : bool) (labelW addrW : nat) (r : row) : string :=
  let name := if String.eqb (novaName r) "" then hostname r else hostname r +:+ ", nova calls it " +:+ Quote (novaName r) in
  let lbl := PadRight labelW (label r) in
  let lbl := if String.eqb (label r) "Controller" then paint color ansiYellow lbl else lbl in
  "  " +:+ lbl +:+ " : " +:+ PadRight addrW (addr r) +:+ "  (" +:+ name +:+ ")"
    +:+ (if here r then "  " +:+ paint color ansiGreen "<- HERE" else "") +:+ newline.

Definition section_ (f : FarmTopology) (rows : list row) (unclaimed : list string) (color : bool) : string :=
  (if String.eqb (ft_DisplayName f) "" then "[ Cluster Topology ]"
   else "[ Cluster Topology — " +:+ ft_DisplayName f +:+ " ]") +:+ newline
  +:+ (if negb (String.eqb (ft_State f) "") && negb (String.eqb (ft_State f) "active")
       then "  !! farm state is " +:+ ft_State f
              +:+ (if String.eqb (ft_StateNote f) "" then "" else ": " +:+ ft_StateNote f) +:+ newline
       else "")
  +:+ String.concat "" (row_line color (width_of label rows) (width_of addr rows) <$> rows)
  +:+ (if bool_decide (unclaimed = []) then ""
       else "  !! nova reports hosts the inventory does not know: " +:+ Join unclaimed ", " +:+ newline).

Definition writeHardware (lines : list string) : string :=
  if bool_decide (lines = []) then "" else newline +:+ String.concat "" ((λ ln, ln +:+ newline) <$> lines).

Definition newest_sync (farms : list FarmTopology) : time_t :=
  foldl (λ t f, if After (SyncedAt f) t then SyncedAt f else t) 0 farms.

Definition Render (b : Banner) (farms : list FarmTopology) : string :=
  let h := TrimRightFunc (in_cutset newline) (Header b) in
  let head := if String.eqb h "" then "" else paintBlock (Color b) h +:+ newline +:+ newline in
  let managed := if String.eqb (ManagedBy b) "" then "" else ManagedBy b +:+ newline in
  match farms with
  | [] => head +:+ managed +:+ writeHardware (Hardware b)
  | _ =>
      let role := if existsb (λ f, (topologyRows (Self b) f).1.2) farms then "Controller" else "Compute" in
      let synced := newest_sync farms in
      head +:+ "This server is an OpenStack " +:+ role +:+ " Node." +:+ newline +:+ managed
        +:+ match filter (λ f, ft_Team f ≠ "") farms with
            | f :: _ => "Used by " +:+ ft_Team f +:+ " team." +:+ newline
            | [] => ""
            end
        +:+ writeHardware (Hardware b)
        +:+ String.concat "" ((λ f, let '(rows, _, unclaimed) := topologyRows (Self b) f in
                                    newline +:+ section_ f rows unclaimed (Color b)) <$> farms)
        +:+ (if IsZero synced then ""
             else newline +:+ "Last synced: " +:+ FormatDate synced +:+ " " +:+ FormatClock synced +:+ " UTC" +:+ newline)
  end.

(** The farm the package's tests describe. *)
Definition seoul_member (h ip : string) (ctrl : bool) : FarmMember :=
  {| fm_Hostname := h; fm_IP := ip; NovaHostname := ""; fm_Confidence := Confirmed; Controller := ctrl |}.

Definition seoulB : FarmTopology := {|
  ft_DeploymentID := "172.16.0.150:5000"; ft_DisplayName := "seoul-b"; ft_State := "active"; ft_StateNote := "";
  ft_Team := "AI Native Platform"; GhostNames := ["sre-svr-0032"]; SyncedAt := instant (Date 2026 8 25) 5 57 47;
  Members := [seoul_member "sre-srv-0025" "192.168.201.52" false; seoul_member "sre-srv-0030" "192.168.201.58" false;
              seoul_member "sre-srv-0032" "192.168.201.63" false; seoul_member "sre-srv-0058" "192.168.201.53" true] |}.

Example Render_seoul :
  Split (Render {| Header := "== ART =="; ManagedBy := "Managed by SRE."; Self := "sre-srv-0025"; Color := false; Hardware := [] |} [seoulB]) nl =
  ["== ART =="; ""; "This server is an OpenStack Compute Node."; "Managed by SRE."; "Used by AI Native Platform team."; "";
   "[ Cluster Topology — seoul-b ]"; "  Controller : 192.168.201.53  (sre-srv-0058)";
   "  Compute #1 : 192.168.201.52  (sre-srv-0025)  <- HERE"; "  Compute #2 : 192.168.201.58  (sre-srv-0030)";
   "  Compute #3 : 192.168.201.63  (sre-srv-0032, nova calls it " +:+ Quote "sre-svr-0032" +:+ ")"; "";
   "Last synced: 2026-08-25 05:57:47 UTC"; ""].
Proof. vm_compute. reflexivity. Qed.

(** ** Keeping the file *)

(** What the disk answers: [None] is success.  [torn] is what a failed write in
    place leaves behind. *)
Record disk := {
  create_temp : option string; write_string : option string; chmod : option string; close_ : option string;
  rename : option string; write_file : option string; torn : option string;
}.

(** [existing] is the file's content, [None] when it cannot be read.  Returns
    [changed], the error, and the content afterwards. *)
Definition Sync (existing : option string) (d : disk) (content : string) : bool * option string * option string :=
  if bool_decide (existing = Some content) then (false, None, existing)
  else match create_temp d with
  | Some _ =>
      match write_file d with
      | None => (true, None, Some content)
      | Some e => (true, Some e, torn d)
      end
  | None =>
      match write_string d, chmod d, close_ d, rename d with
      | Some e, _, _, _ => (false, Some e, existing)
      | _, Some e, _, _ => (false, Some e, existing)
      | _, _, Some e, _ => (false, Some e, existing)
      | _, _, _, Some e => (false, Some e, existing)
      | None, None, None, None => (true, None, Some content)
      end
  end.

(** ** Accelerators *)

(** One entry of the PCI directory: the files read and the driver link. *)
Record pci_entry := {
  class_file : option string; vendor_file : option string; device_file : option string; driver_link : option string;
}.

Record accel := { a_kind : string; vendor : string; device : string; passthrough : bool }.

Record group := { g_kind : string; g_name : string; g_n : Z; vfio : Z }.

Definition sysHex (file : option string) : string :=
  match file with None => "" | Some b => TrimPrefix (ToLower (TrimSpace b)) "0x" end.

Definition gpuVendors (v : string) : bool := slices_Contains ["10de"; "1002"] v.

Definition after_last (c : ascii) (s : string) : string := list_last s (Split s c).

(** [filepath.Base]. *)
Definition Base (p : string) : string :=
  if String.eqb p "" then "."
  else let q := TrimRightFunc (Ascii.eqb "/") p in if String.eqb q "" then "/" else after_last "/" q.

Definition classify (e : pci_entry) : option accel :=
  let class := sysHex (class_file e) in
  let v := sysHex (vendor_file e) in
  let found k := Some {| a_kind := k; vendor := v; device := sysHex (device_file e);
                         passthrough := String.eqb (Base (default "" (driver_link e))) "vfio-pci" |} in
  if HasPrefix class "03" && gpuVendors v then found "GPU"
  else if HasPrefix class "12" then found "Accelerator" else None.

Definition last_index (s : string) (c : ascii) : option nat :=
  snd (foldl (λ '(i, r) x, (S i, if Ascii.eqb x c then Some i else r)) (0%nat, None) (String.list_ascii_of_string s)).

Definition bracketed (s : string) : string :=
  match last_index s "[", last_index s "]" with
  | Some i, Some j => if (j <? i)%nat then "" else take_bytes (j - (i + 1)) (drop_bytes (i + 1) s)
  | _, _ => ""
  end.

Definition shortVendor (name : string) : string :=
  let b := bracketed name in
  if negb (String.eqb b "") then b
  else foldl TrimSuffix name [" Corporation"; ", Inc."; " Inc."; " Co., Ltd."; " Ltd."].

Definition modelName (vendor device : string) : string :=
  let b := bracketed device in
  let device := if String.eqb b "" then device else b in
  if String.eqb vendor "" || HasPrefix device vendor then device else vendor +:+ " " +:+ device.

Definition cut2 (s sep : string) : string * string := match Cut s sep with Some (a, b) => (a, b) | None => (s, "") end.

(** The scan of one database, with the vendor it is in. *)
Fixpoint scan_ids (vendors : gset string) (lines : list string) (cur curName : string) (out : gmap string string)
    : gmap string string :=
  match lines with
  | [] => out
  | ln :: rest =>
      match ln with
      | EmptyString => scan_ids vendors rest cur curName out
      | String c tl =>
          if Ascii.eqb c "#" || HasPrefix ln (String "009" (String "009" "")) then scan_ids vendors rest cur curName out
          else if negb (Ascii.eqb c "009") then
            if HasPrefix ln "C " then out
            else let '(id, name) := cut2 ln "  " in scan_ids vendors rest id (shortVendor name) out
          else if decide (cur ∈ vendors) then
            let '(id, name) := cut2 tl "  " in
            scan_ids vendors rest cur curName (<[cur +:+ ":" +:+ id := modelName curName name]> out)
          else scan_ids vendors rest cur curName out
      end
  end.

(** [dbs] are the contents of the databases, [None] for one that does not open. *)
Fixpoint lookupNames (dbs : list (option string)) (want : list accel) : gmap string string :=
  match dbs with
  | [] => ∅
  | None :: dbs' => lookupNames dbs' want
  | Some db :: _ => scan_ids (list_to_set (vendor <$> want)) (ScanLines MaxScanTokenSize db).1 "" "" ∅
  end.

Definition shown_name (names : gmap string string) (a : accel) : string :=
  let id := vendor a +:+ ":" +:+ device a in
  let n := default "" (names !! id) in if String.eqb n "" then id else n.

Definition group_key (kind name : string) : string := kind +:+ String "000" name.

Fixpoint count_in (kind name : string) (vf : bool) (gs : list group) : list group :=
  match gs with
  | [] => [{| g_kind := kind; g_name := name; g_n := 1; vfio := Z.b2z vf |}]
  | g :: gs' =>
      if String.eqb (group_key (g_kind g) (g_name g)) (group_key kind name)
      then {| g_kind := g_kind g; g_name := g_name g; g_n := g_n g + 1; vfio := vfio g + Z.b2z vf |} :: gs'
      else g :: count_in kind name vf gs'
  end.

Definition groups_of (names : gmap string string) (found : list accel) : list group :=
  foldl (λ gs a, count_in (a_kind a) (shown_name names a) (passthrough a) gs) [] found.

Definition group_line (labelW : nat) (g : group) : string :=
  PadRight labelW (g_kind g) +:+ " : " +:+ Itoa (g_n g) +:+ "x " +:+ g_name g
    +:+ (if 0 <? vfio g then " (" +:+ Itoa (vfio g) +:+ " passed through to VMs)" else "").

(** [entries] is the PCI directory, [None] when it cannot be read. *)
Definition Accelerators (entries : option (list pci_entry)) (dbs : list (option string)) : list string :=
  let found := omap classify (default [] entries) in
  if bool_decide (found = []) then []
  else
    let groups := sort (λ a b, string_ltb (g_kind b) (g_kind a)) (groups_of (lookupNames dbs found) found) in
    group_line (foldl (λ w g, Nat.max w (String.length (g_kind g))) 0%nat groups) <$> groups.

Definition sample_ids : string :=
  "10de  NVIDIA Corporation" +:+ newline +:+ String "009" "1db6  GV100GL [Tesla V100 PCIe 32GB]" +:+ newline +:+ "C 03  Display controller".

Definition pci (class v d drv : string) : pci_entry :=
  {| class_file := Some class; vendor_file := Some v; device_file := Some d; driver_link := Some drv |}.

Example Accelerators_lines :
  Accelerators (Some [pci "0x120000" "0x1ed2" "0x0001" "../../bus/pci/drivers/vfio-pci"; pci "0x030200" "0x10de" "0x1db6" "../nvidia";
                      pci "0x030000" "0x1a03" "0x2000" "../ast"; pci "0x120000" "0x1ed2" "0x0001" "../vfio-pci"]) [None; Some sample_ids] =
  ["GPU         : 1x NVIDIA Tesla V100 PCIe 32GB"; "Accelerator : 2x 1ed2:0001 (2 passed through to VMs)"].
Proof. vm_compute. reflexivity. Qed.

(** ** One typo

    The edits [near_bytes] is meant to see through: none, one character
    substituted, inserted or deleted, or two neighbours swapped. *)

Inductive one_typo : list ascii → list ascii → Prop :=
| typo_none a : one_typo a a
| typo_substituted p x y s : one_typo (p ++ x :: s) (p ++ y :: s)
| typo_inserted p x s : one_typo (p ++ s) (p ++ x :: s)
| typo_deleted p x s : one_typo (p ++ x :: s) (p ++ s)
| typo_swapped p x y s : one_typo (p ++ x :: y :: s) (p ++ y :: x :: s).

(** [common] splits the two at their first difference. *)
Lemma common_split a b : ∃ p a' b', a = p ++ a' ∧ b = p ++ b' ∧ common a b = length p ∧
  match a', b' with x :: _, y :: _ => x ≠ y | _, _ => True end.
Proof.
  revert b. induction a as [|x a IH]; intros [|y b]; cbn [common].
  - by exists [], [], [].
  - by exists [], [], (y :: b).
  - by exists [], (x :: a), [].
  - destruct (Ascii.eqb_spec x y) as [->|Hne].
    + destruct (IH b) as (p & a' & b' & -> & -> & -> & Hd). by exists (y :: p), a', b'.
    + by exists [], (x :: a), (y :: b).
Qed.

Lemma drop_past {A} (p l : list A) n : drop (length p + n) (p ++ l) = drop n l.
Proof. by rewrite drop_app_add'. Qed.

Lemma common_prefix p a b : common (p ++ a) (p ++ b) = (length p + common a b)%nat.
Proof. induction p as [|x p IH]; cbn; [done|]. by rewrite Ascii.eqb_refl, IH. Qed.

(** An insertion found at the first difference. *)
Lemma inserted_common short x p s : short = p ++ s →
  let long := p ++ x :: s in drop (common short long + 1) long = drop (common short long) short.
Proof.
  intros ->. cbn zeta. rewrite common_prefix, <-Nat.add_assoc, !drop_past.
  revert x. induction s as [|y s IH]; intros x; [done|]. cbn [common].
  destruct (Ascii.eqb_spec y x) as [->|]; [|done]. cbn [drop Nat.add]. exact (IH x).
Qed.

Lemma near_bytes_sound a b : near_bytes a b = true → one_typo a b.
Proof.
  unfold near_bytes. destruct (bool_decide (a = b)) eqn:Hab; bool_simpl; [intros _; subst; constructor|].
  destruct (bool_decide (length a = length b)) eqn:Hl; bool_simpl.
  - destruct (common_split a b) as (p & a' & b' & -> & -> & -> & Hd). rewrite !length_app in Hl.
    destruct a' as [|x a'], b' as [|y b']; simpl in Hl; [done|lia|lia|]. rewrite !drop_past. cbn [drop]. rewrite ?drop_0.
    case_bool_decide as Hs; [intros _; subst; constructor|].
    rewrite !lookup_app_r, Nat.add_sub_swap, Nat.sub_diag by lia. cbn [lookup list_lookup Nat.add].
    intros H. bool_simpl. destruct a' as [|x2 a'], b' as [|y2 b']; try done. cbn in *. simplify_eq. constructor.
  - destruct (bool_decide (length a < length b)%nat) eqn:Hlt; bool_simpl; case_bool_decide as Hl1; cbn [negb]; try done; intros H; bool_simpl.
    + destruct (common_split a b) as (p & a' & b' & -> & -> & Hc & Hd). rewrite Hc in H. rewrite !length_app in *.
      destruct b' as [|y b']; simpl in *; [lia|]. rewrite !drop_past in H.
      rewrite <-(Nat.add_0_r (length p)), drop_past in H. cbn [drop] in H. rewrite ?drop_0 in H. subst. constructor.
    + destruct (common_split b a) as (p & b' & a' & -> & -> & Hc & Hd). rewrite Hc in H. rewrite !length_app in *.
      destruct a' as [|y a']; simpl in *; [lia|]. rewrite !drop_past in H.
      rewrite <-(Nat.add_0_r (length p)), drop_past in H. cbn [drop] in H. rewrite ?drop_0 in H. subst. constructor.
Qed.

Lemma near_bytes_complete a b : one_typo a b → near_bytes a b = true.
Proof.
  unfold near_bytes. intros H. case_bool_decide as Hab; [done|]. inversion H as [|p x y s|p x s|p x s|p x y s]; subst; [done| | | |].
  - rewrite bool_decide_eq_true_2 by (by rewrite !length_app).
    rewrite common_prefix. cbn [common]. destruct (Ascii.eqb_spec x y) as [->|]; [done|].
    by rewrite Nat.add_0_r, !drop_past, bool_decide_eq_true_2.
  - rewrite bool_decide_eq_false_2, (bool_decide_eq_true_2 (_ < _)%nat) by (rewrite !length_app; simpl; lia).
    rewrite bool_decide_eq_true_2 by (rewrite !length_app; simpl; lia). cbn [negb]. apply bool_decide_eq_true, inserted_common. done.
  - rewrite bool_decide_eq_false_2, (bool_decide_eq_false_2 (_ < _)%nat) by (rewrite !length_app; simpl; lia).
    rewrite bool_decide_eq_true_2 by (rewrite !length_app; simpl; lia). cbn [negb]. apply bool_decide_eq_true, inserted_common. done.
  - rewrite bool_decide_eq_true_2 by (by rewrite !length_app).
    rewrite common_prefix. cbn [common]. destruct (Ascii.eqb_spec x y) as [->|]; [done|].
    rewrite Nat.add_0_r, !drop_past. cbn [drop]. case_bool_decide; [done|].
    rewrite bool_decide_eq_true_2 by (rewrite length_app; simpl; lia).
    rewrite !lookup_app_r, Nat.add_sub_swap, Nat.sub_diag by lia. cbn. by rewrite !bool_decide_eq_true_2.
Qed.

(** The banner takes two names for spellings of one machine exactly when,
    without domain and case, they are at most one typo apart: the single scan
    decides the edit distance of Damerau and Levenshtein at most one. *)
Theorem nearlySame_exact (a b : string) :
  nearlySame a b = true ↔ one_typo (canonical_name a) (canonical_name b).
Proof. split; [apply near_bytes_sound|apply near_bytes_complete]. Qed.

(** ** Who is shown under which name *)

Lemma MatchHosts_pairs local control :
  let prs := (MatchHosts local control).1 in
  (∀ h c, prs !! h = Some c → h ∈ local ∧ c ∈ control ∧ names_host c h) ∧ (NoDup control → injective prs).
Proof.
  destruct (MatchHosts_run local control) as (st1 & rest & st2 & amb & H1 & H2 & ->). cbn [fst]. split.
  - intros h c Hp. destruct (p2_new _ _ _ _ H2 h c Hp) as [Hp1|(Hc & _ & Hh & Hs)].
    + exact (mo_sound _ _ _ (p1_ok _ _ _ H1) h c Hp1).
    + split_and!; [done|by apply (sublist_subseteq _ _ (p1_rest _ _ _ H1))|by right].
  - intros Hnd. refine (proj1 (p2_inj _ _ _ _ H2 _ _ (phase1_injective _ _ _ H1))).
    + exact (sublist_NoDup _ _ Hnd (p1_rest _ _ _ H1)).
    + intros h c Hp Hc. apply (p1_rest_short _ _ _ H1 c Hc). by rewrite (p1_short _ _ _ H1 h c Hp).
Qed.

Lemma near_hits_elem members nova c h :
  h ∈ near_hits members nova c ↔ nova !! h = None ∧ nearlySame h c = true ∧ ∃ m, m ∈ members ∧ fm_Hostname m = h.
Proof.
  unfold near_hits. rewrite list_elem_of_fmap. setoid_rewrite list_elem_of_filter.
  setoid_rewrite Is_true_true. setoid_rewrite andb_true_iff. setoid_rewrite bool_decide_eq_true. naive_solver.
Qed.

Record pin_ok (members : list FarmMember) (prs : gmap string string) (paired : gset string)
    (seen : list string) (st : gmap string string * list string) : Prop := {
  pin_kept : ∀ h c, prs !! h = Some c → st.1 !! h = Some c;
  pin_sound : ∀ h c, st.1 !! h = Some c → prs !! h = Some c ∨
    (c ∈ seen ∧ c ∉ paired ∧ nearlySame h c = true ∧ ∃ m, m ∈ members ∧ fm_Hostname m = h);
  pin_all : ∀ c, c ∈ seen → c ∈ paired ∨ (∃ h, st.1 !! h = Some c) ∨ c ∈ st.2;
  pin_rest : ∀ c, c ∈ st.2 → c ∈ seen ∧ c ∉ paired;
  pin_once : NoDup seen → (∀ h c, st.1 !! h = Some c → c ∉ st.2) ∧
    ∀ h h' c, c ∉ paired → st.1 !! h = Some c → st.1 !! h' = Some c → h = h';
}.

Lemma pin_step members prs paired seen st c :
  (∀ h c, prs !! h = Some c → c ∈ paired) →
  pin_ok members prs paired seen st → pin_ok members prs paired (seen ++ [c]) (pin members paired st c).
Proof.
  intros Hval [Hk Hs Ha Hr Ho]. unfold pin.
  assert (∀ x, x ∈ seen ++ [c] → x ∈ seen ∨ x = c) as Hsnoc by set_solver.
  assert (∀ h x, st.1 !! h = Some x → x ∉ paired → x ∈ seen) as Hin.
  { intros h x Hx Hn. destruct (Hs h x Hx) as [Hp|(? & _)]; [by destruct (Hn (Hval _ _ Hp))|done]. }
  destruct (decide (c ∈ paired)) as [Hc|Hc].
  { split; try done.
    - intros h x Hx. destruct (Hs h x Hx) as [?|?]; [by left|right]. set_solver.
    - intros x [Hx| ->]%Hsnoc; [by apply Ha|by left].
    - intros x Hx. apply Hr in Hx. set_solver.
    - intros [Hnd _]%NoDup_app. by apply Ho. }
  assert (pin_ok members prs paired (seen ++ [c]) (st.1, st.2 ++ [c])) as Hpin.
  { split; cbn [fst snd]; [done| | | |].
    - intros h x Hx. destruct (Hs h x Hx) as [?|?]; [by left|right]. set_solver.
    - intros x [Hx| ->]%Hsnoc; [|right; right; set_solver]. destruct (Ha x Hx) as [?|[?|?]]; [by left|by right; left|right; right; set_solver].
    - intros x [Hx|Hx]%elem_of_app; [apply Hr in Hx; set_solver|]. apply list_elem_of_singleton in Hx as ->. set_solver.
    - intros [Hnd [Hfresh _]]%NoDup_app. destruct (Ho Hnd) as [Ho1 Ho2]. split; [|done].
      intros h x Hx [?|Hx']%elem_of_app; [by eapply Ho1|]. apply list_elem_of_singleton in Hx' as ->.
      apply (Hfresh c); [by apply (Hin h)|by left]. }
  assert (near_hits members st.1 c = [] ∨ (∃ h, near_hits members st.1 c = [h]) ∨ (2 ≤ length (near_hits members st.1 c))%nat) as Hcase
    by (destruct (near_hits members st.1 c) as [|? [|]]; simpl; eauto with lia).
  destruct Hcase as [->|[[h Hh]|Hl]].
  - exact Hpin.
  - rewrite Hh. assert (h ∈ near_hits members st.1 c) as (Hnone & Hnear & Hm)%near_hits_elem by (rewrite Hh; by left).
    split; cbn [fst snd].
    + intros h' x Hp. rewrite lookup_insert_ne; [by apply Hk|]. intros <-. apply Hk in Hp. congruence.
    + intros h' x [[<- <-]|[_ Hx]]%lookup_insert_Some; [right; set_solver|].
      destruct (Hs h' x Hx) as [?|?]; [by left|right]. set_solver.
    + intros x [Hx| ->]%Hsnoc; [|right; left; exists h; apply lookup_insert_eq].
      destruct (Ha x Hx) as [?|[[h' Hh']|?]]; [by left| |by right; right]. right; left. exists h'.
      rewrite lookup_insert_ne; [done|]. intros <-. congruence.
    + intros x Hx. apply Hr in Hx. set_solver.
    + intros [Hnd [Hfresh _]]%NoDup_app. destruct (Ho Hnd) as [Ho1 Ho2].
      assert (c ∉ seen) as Hcs by (intros Hc'; apply (Hfresh c Hc'); by left). split.
      * intros h' x [[<- <-]|[_ Hx]]%lookup_insert_Some; [|by eapply Ho1]. intros Hx%Hr. by destruct Hx.
      * intros h1 h2 x Hnx [[<- <-]|[_ H1]]%lookup_insert_Some [[<- E]|[_ H2]]%lookup_insert_Some; try done.
        -- by destruct Hcs; apply (Hin h2).
        -- subst x. by destruct Hcs; apply (Hin h1).
        -- by eapply Ho2.
  - destruct (near_hits members st.1 c) as [|? [|]]; [simpl in Hl; lia..|exact Hpin].
Qed.

Lemma pin_run members prs paired names :
  (∀ h c, prs !! h = Some c → c ∈ paired) →
  pin_ok members prs paired names (foldl (pin members paired) (prs, []) names).
Proof.
  intros Hval. apply (foldl_invariant (pin_ok members prs paired)); [|intros; by apply pin_step].
  split; cbn [fst snd]; [done|by left|set_solver|set_solver|]. intros _. split; [set_solver|].
  intros h h' c Hn Hp. by destruct (Hn (Hval _ _ Hp)).
Qed.

(** How a control-plane name may stand beside a member on the banner. *)
Definition may_show (h c : string) : Prop := names_host c h ∨ nearlySame h c = true.

Lemma pinned_spec f : let '(nova, unclaimed) := pinned f in
  (∀ h c, nova !! h = Some c → c ∈ GhostNames f ∧ may_show h c ∧ ∃ m, m ∈ Members f ∧ fm_Hostname m = h) ∧
  (∀ c, c ∈ GhostNames f → (∃ h, nova !! h = Some c) ∨ c ∈ unclaimed) ∧
  (∀ c, c ∈ unclaimed → c ∈ GhostNames f) ∧
  (NoDup (GhostNames f) → injective nova ∧ ∀ h c, nova !! h = Some c → c ∉ unclaimed).
Proof.
  unfold pinned. set (prs := (MatchHosts _ _).1). destruct (MatchHosts_pairs (fm_Hostname <$> Members f) (GhostNames f)) as [Hp Hinj].
  fold prs in Hp, Hinj. set (paired := list_to_set _ : gset string).
  assert (∀ c, c ∈ paired ↔ ∃ h, prs !! h = Some c) as Hval.
  { intros c. unfold paired. rewrite elem_of_list_to_set, list_elem_of_fmap. split.
    - intros ([h x] & -> & Hx%elem_of_map_to_list). by exists h.
    - intros [h Hh]. exists (h, c). split; [done|]. by apply elem_of_map_to_list. }
  assert (∀ h c, prs !! h = Some c → c ∈ paired) as Hval' by (intros h c ?; apply Hval; eauto).
  pose proof (pin_run (Members f) prs paired (GhostNames f) Hval') as [Hk Hs Ha Hr Ho].
  destruct (foldl (pin (Members f) paired) (prs, []) (GhostNames f)) as [nova unclaimed]. cbn [fst snd] in *. split_and!.
  - intros h c [Hq|(? & _ & ? & ?)]%Hs; [|split_and!; [done|by right|done]].
    apply Hp in Hq as (Hh & Hc & Hn). split_and!; [done|by left|]. apply list_elem_of_fmap in Hh as (m & -> & Hm). by exists m.
  - intros c Hc. destruct (Ha c Hc) as [[h Hh]%Hval|[?|?]]; [left; exists h; by apply Hk|by left|by right].
  - intros c Hc. by apply Hr.
  - intros Hnd. destruct (Ho Hnd) as [Ho1 Ho2]. split; [|done].
    intros h h' c Hc Hc'. destruct (decide (c ∈ paired)) as [Hpc|Hpc]; [|by eapply Ho2].
    destruct (Hs h c Hc) as [?|(_ & ? & _)]; [|done]. destruct (Hs h' c Hc') as [?|(_ & ? & _)]; [|done]. by eapply Hinj.
Qed.

Lemma filter_split {A} (f : A → bool) (l : list A) :
  filter (λ x, f x = true) l ++ filter (λ x, f x = false) l ≡ₚ l.
Proof.
  induction l as [|x l IH]; [done|]. rewrite !list.filter_cons. destruct (f x) eqn:E.
  - rewrite decide_True, decide_False by done. cbn [app]. by rewrite IH.
  - rewrite decide_False, decide_True by done. by rewrite <-Permutation_middle, IH.
Qed.

Lemma Compute_label n : "Compute #" +:+ Itoa n ≠ "Controller".
Proof. rewrite !string_app_cons. intros H. by injection H. Qed.

(** A farm's rows are its members, one row each with its own address, and
    the controllers are the ones the probe found; the host is shown as a
    controller exactly when it is one.  Every name the control plane reported
    and no inventory host matched is accounted for: beside one member it could
    stand for, and no other, or in the warning line; a row invents no name. *)
Theorem topologyRows_exact (self : string) (f : FarmTopology) :
  NoDup (GhostNames f) → NoDup (fm_Hostname <$> Members f) → "" ∉ GhostNames f →
  let '(rows, isController, unclaimed) := topologyRows self f in
  hostname <$> rows ≡ₚ fm_Hostname <$> Members f ∧
  (∀ r, r ∈ rows → ∃ m, m ∈ Members f ∧ fm_Hostname m = hostname r ∧ fm_IP m = addr r ∧
     (label r = "Controller" ↔ Controller m = true) ∧ here r = String.eqb (hostname r) self) ∧
  (isController = true ↔ ∃ m, m ∈ Members f ∧ fm_Hostname m = self ∧ Controller m = true) ∧
  (∀ r, r ∈ rows → novaName r ≠ "" → novaName r ∈ GhostNames f ∧ may_show (hostname r) (novaName r)) ∧
  (∀ c, c ∈ GhostNames f → (c ∈ unclaimed ∧ ∀ r, r ∈ rows → novaName r ≠ c) ∨
     (c ∉ unclaimed ∧ ∃ r, r ∈ rows ∧ novaName r = c ∧ ∀ r', r' ∈ rows → novaName r' = c → hostname r' = hostname r)) ∧
  (∀ c, c ∈ unclaimed → c ∈ GhostNames f).
Proof.
  intros Hnd Hmem Hempty. unfold topologyRows. pose proof (pinned_spec f) as Hspec. destruct (pinned f) as [nova unclaimed].
  destruct Hspec as (Hs & Ha & Hu & Ho). destruct (Ho Hnd) as [Hinj Hex].
  set (rows := _ ++ imap _ _).
  assert (∀ r, r ∈ rows → ∃ m, m ∈ Members f ∧ ∃ l, r = member_row self l nova m ∧ (l = "Controller" ↔ Controller m = true)) as Hrow.
  { intros r [Hr|Hr]%elem_of_app.
    - apply list_elem_of_fmap in Hr as (m & -> & [Hc Hm]%list_elem_of_filter). by exists m; split; [|exists "Controller"].
    - apply elem_of_lookup_imap in Hr as (i & m & -> & Hm%list_elem_of_lookup_2). apply list_elem_of_filter in Hm as [Hc Hm].
      exists m. split; [done|]. eexists. split; [done|]. rewrite Hc. split; [|done]. intros E. by apply Compute_label in E. }
  assert (hostname <$> rows ≡ₚ fm_Hostname <$> Members f) as Hperm.
  { etrans; [|exact (fmap_Permutation fm_Hostname _ _ (filter_split Controller (Members f)))].
    unfold rows. rewrite !fmap_app, fmap_imap, <-list_fmap_compose. apply Permutation_app; [done|].
    generalize (filter (λ m, Controller m = false) (Members f)). intros l. by rewrite <-(imap_const fm_Hostname l). }
  assert (∀ m, m ∈ Members f → ∃ r, r ∈ rows ∧ hostname r = fm_Hostname m ∧ novaName r = default "" (nova !! fm_Hostname m)) as Hback.
  { intros m Hm. assert (fm_Hostname m ∈ hostname <$> rows) as Hin by (rewrite Hperm; by apply list_elem_of_fmap_2).
    apply list_elem_of_fmap in Hin as (r & Hr & Hrr). exists r. split_and!; [done..|].
    destruct (Hrow r Hrr) as (m' & _ & l & -> & _). cbn in *. by rewrite Hr. }
  assert (∀ r, r ∈ rows → novaName r ≠ "" → nova !! hostname r = Some (novaName r)) as Hnova.
  { intros r Hr Hne. destruct (Hrow r Hr) as (m & _ & l & -> & _). cbn in *. by destruct (nova !! fm_Hostname m). }
  split_and!; [done| | | | |done].
  - intros r Hr. destruct (Hrow r Hr) as (m & Hm & l & -> & Hl). by exists m.
  - rewrite existsb_exists. setoid_rewrite String.eqb_eq. split.
    + intros (m & Hm%list_elem_of_In & E). apply list_elem_of_filter in Hm. naive_solver.
    + intros (m & Hm & E & Hc). exists m. split; [|done]. by apply list_elem_of_In, list_elem_of_filter.
  - intros r Hr Hne. specialize (Hnova r Hr Hne). apply Hs in Hnova. naive_solver.
  - intros c Hc. assert (c ≠ "") as Hc0 by (intros ->; done). destruct (Ha c Hc) as [[h Hh]|Hun].
    + right. split; [by eapply Hex|]. destruct (Hs h c Hh) as (_ & _ & m & Hm & <-). destruct (Hback m Hm) as (r & Hr & Hrh & Hrn).
      exists r. rewrite Hh in Hrn. split_and!; [done..|]. intros r' Hr' E. rewrite Hrh. apply (Hinj _ _ c); [|done].
      rewrite <-E. apply Hnova; [done|by rewrite E].
    + left. split; [done|]. intros r Hr E. apply (Hex (hostname r) c); [|done]. rewrite <-E. apply Hnova; [done|by rewrite E].
Qed.

Lemma topologyRows_exact_witness :
  hostname <$> (topologyRows "sre-srv-0025" seoulB).1.1 ≡ₚ fm_Hostname <$> Members seoulB ∧
  (topologyRows "sre-srv-0025" seoulB).2 = [].
Proof.
  split; [|vm_compute; reflexivity].
  assert (NoDup (GhostNames seoulB)) as Hn by (apply (bool_decide_eq_true _); reflexivity).
  assert (NoDup (fm_Hostname <$> Members seoulB)) as Hm by (apply (bool_decide_eq_true _); reflexivity).
  assert ("" ∉ GhostNames seoulB) as He by (apply (bool_decide_eq_true _); reflexivity).
  pose proof (topologyRows_exact "sre-srv-0025" seoulB Hn Hm He) as H.
  destruct (topologyRows "sre-srv-0025" seoulB) as [[rows c] u]. exact (proj1 H).
Defined.

(** A machine nova knows and the inventory does not, one digit away from a
    member nova confirmed under the member's own name, is shown as that
    member's name: [NovaHostname] is read from the database and not by the
    banner. *)
Definition neighbour_farm : FarmTopology := {|
  ft_DeploymentID := "d"; ft_DisplayName := "d"; ft_State := "active"; ft_StateNote := ""; ft_Team := "";
  GhostNames := ["sre-srv-0031"]; SyncedAt := 1;
  Members := [{| fm_Hostname := "sre-srv-0030"; fm_IP := "192.168.201.58"; NovaHostname := "sre-srv-0030";
                 fm_Confidence := Confirmed; Controller := false |}; seoul_member "gpu-07" "192.168.201.70" false] |}.

Lemma confirmed_member_takes_a_neighbours_name :
  let '(rows, _, unclaimed) := topologyRows "gpu-07" neighbour_farm in
  unclaimed = [] ∧ (λ r, (hostname r, novaName r)) <$> rows = [("sre-srv-0030", "sre-srv-0031"); ("gpu-07", "")].
Proof. vm_compute. done. Qed.

(** [Sync] reports no error only when the file holds exactly the content,
    reports no change only when it left the file alone, and where a sibling
    file can be made the file is always the old content or the new, never a
    part of it, whatever step fails. *)
Theorem Sync_atomic (existing : option string) (d : disk) (content : string) :
  let '(changed, err, after) := Sync existing d content in
  (err = None → after = Some content) ∧ (changed = false → after = existing) ∧
  (create_temp d = None → (after = existing ∧ changed = false) ∨ (after = Some content ∧ changed = true ∧ err = None)).
Proof. unfold Sync. case_bool_decide; [naive_solver|]. repeat case_match; naive_solver. Qed.
