(* ===== verification/HwSpec.v ===== *)
(** A machine's hardware, as the firmware's structure table states it:
    src/internal/hwspec/smbios.go ([ParseSMBIOS], [Apply]) and the records and
    names of src/internal/hwspec/hwspec.go.

    A table is a list of bytes.  The parser's loop carries fuel; every
    structure consumes at least four bytes, so the table's length is enough. *)

From Stdlib Require Import Ascii String ZArith Lia.
From S2P Require Import Prelude GoStrings.
Open Scope Z_scope.

(** ** Data *)

Record System := { Vendor : string; Model : string; Serial : string; BoardSerial : string }.

Record CPU := {
  cpu_Model : string; Sockets : Z; SocketsTotal : Z; CoresPerSocket : Z; cpu_Cores : Z; cpu_Threads : Z; cpu_MHz : Z;
}.

Record Mod := { mod_Locator : string; mod_SizeMB : Z; mod_Type : string; mod_SpeedMHz : Z }.

Record Memory := { TotalMB : Z; Modules : list Mod; SlotsTotal : Z }.

Record Disk := { dk_Name : string; SizeBytes : Z; Media : string; Interface : string; dk_Vendor : string; dk_Model : string }.

Record NIC := { nic_Name : string; MAC : string; SpeedMb : Z; MaxSpeedMb : Z; Port : string; Driver : string }.

Record Spec := {
  sp_System : System; OS : string; sp_CPU : CPU; sp_Memory : Memory; Disks : list Disk; NICs : list NIC;
}.

Record Processor := { Socket : string; Version : string; Populated : bool; Cores : Z; Threads : Z; MHz : Z }.

Record MemoryDevice := { Locator : string; SizeMB : Z; md_Type : string; SpeedMHz : Z }.

Record SMBIOS := { sm_System : System; Processors : list Processor; sm_Memory : list MemoryDevice }.

Definition no_System : System := {| Vendor := ""; Model := ""; Serial := ""; BoardSerial := "" |}.
Definition no_SMBIOS : SMBIOS := {| sm_System := no_System; Processors := []; sm_Memory := [] |}.
Definition no_CPU : CPU :=
  {| cpu_Model := ""; Sockets := 0; SocketsTotal := 0; CoresPerSocket := 0; cpu_Cores := 0; cpu_Threads := 0; cpu_MHz := 0 |}.
Definition no_Memory : Memory := {| TotalMB := 0; Modules := []; SlotsTotal := 0 |}.

Definition IdentSerial (s : System) : string * bool :=
  if negb (String.eqb (Serial s) "") then (Serial s, false) else (BoardSerial s, negb (String.eqb (BoardSerial s) "")).

Definition MemorySlotsUsed (m : Memory) : Z := Z.of_nat (length (Modules m)).

Definition PortName (fibre copper : bool) (maxMb : Z) : string :=
  if fibre && (100000 <=? maxMb) then "QSFP28"
  else if fibre && (40000 <=? maxMb) then "QSFP+"
  else if fibre && (25000 <=? maxMb) then "SFP28"
  else if fibre && (10000 <=? maxMb) then "SFP+"
  else if fibre then "SFP"
  else if copper then "UTP" else "".

(** ** Strings *)

Definition placeholders : list string :=
  [""; "not specified"; "to be filled by o.e.m."; "default string"; "none"; "n/a"; "unknown";
   "0123456789"; "system serial number"; "chassis serial number"; "base board serial number"].

Definition clean (s : string) : string :=
  let s := TrimSpace s in
  if slices_Contains placeholders (ToLower s) then ""
  else if String.eqb (Trim s ". 0") "" then "" else s.

Definition bytes : Type := list ascii.

Definition NUL : ascii := "000".

Definition splitStrings (b : bytes) : list string :=
  match b with [] => [] | _ => Split (String.string_of_list_ascii b) NUL end.

Definition memoryType (v : Z) : string :=
  match v with
  | 15 => "SDRAM" | 18 => "DDR" | 19 => "DDR2" | 24 => "DDR3" | 26 => "DDR4" | 27 => "LPDDR"
  | 30 => "LPDDR3" | 31 => "LPDDR4" | 34 => "DDR5" | 35 => "LPDDR5"
  | _ => ""
  end.

(** ** Fields of one structure

    [formatted] is its fixed part, [strs] its string set. *)

Definition byte_at (formatted : bytes) (off : nat) : Z := match formatted !! off with Some c => byte_val c | None => 0 end.

Definition u8 (formatted : bytes) (off : nat) : Z := byte_at formatted off.

Definition u16 (formatted : bytes) (off : nat) : Z :=
  if (length formatted <? off + 2)%nat then 0 else byte_at formatted off + 256 * byte_at formatted (off + 1).

Definition u32 (formatted : bytes) (off : nat) : Z :=
  if (length formatted <? off + 4)%nat then 0
  else byte_at formatted off + 256 * byte_at formatted (off + 1) + 65536 * byte_at formatted (off + 2)
       + 16777216 * byte_at formatted (off + 3).

Definition str (formatted : bytes) (strs : list string) (off : nat) : string :=
  let i := byte_at formatted off in
  if (i =? 0) || (Z.of_nat (length strs) <? i) then ""
  else clean (default "" (strs !! Z.to_nat (i - 1))).

Definition processor (f : bytes) (strs : list string) : Processor :=
  let cores := u8 f 0x23 in
  let threads := u8 f 0x25 in
  {| Socket := str f strs 0x04; Version := str f strs 0x10; Populated := negb (Z.land (u8 f 0x18) 0x40 =? 0);
     MHz := u16 f 0x16;
     Cores := if cores =? 255 then u16 f 0x2A else cores;
     Threads := if threads =? 255 then u16 f 0x2E else threads |}.

Definition memory_device (f : bytes) (strs : list string) : MemoryDevice :=
  let size := u16 f 0x0C in
  {| Locator := str f strs 0x10; md_Type := memoryType (u8 f 0x12); SpeedMHz := u16 f 0x15;
     SizeMB :=
       if (size =? 0) || (size =? 0xFFFF) then 0
       else if size =? 0x7FFF then Z.land (u32 f 0x1C) 0x7FFFFFFF
       else if negb (Z.land size 0x8000 =? 0) then Z.land size 0x7FFF / 1024
       else size |}.

(** What one structure adds; [None] is the end of the table. *)
Definition add_structure (out : SMBIOS) (typ : Z) (f : bytes) (strs : list string) : option SMBIOS :=
  match typ with
  | 1 => Some {| sm_System := {| Vendor := str f strs 0x04; Model := str f strs 0x05; Serial := str f strs 0x07;
                                 BoardSerial := BoardSerial (sm_System out) |};
                 Processors := Processors out; sm_Memory := sm_Memory out |}
  | 2 => Some {| sm_System := {| Vendor := Vendor (sm_System out); Model := Model (sm_System out);
                                 Serial := Serial (sm_System out); BoardSerial := str f strs 0x07 |};
                 Processors := Processors out; sm_Memory := sm_Memory out |}
  | 4 => Some {| sm_System := sm_System out; Processors := Processors out ++ [processor f strs]; sm_Memory := sm_Memory out |}
  | 17 => Some {| sm_System := sm_System out; Processors := Processors out; sm_Memory := sm_Memory out ++ [memory_device f strs] |}
  | 127 => None
  | _ => Some out
  end.

(** ** The table *)

(** The index of the two NULs that end a string set, or the last index. *)
Fixpoint strings_end (rest : bytes) : nat :=
  match rest with
  | a :: ((b :: _) as tl) => if Ascii.eqb a NUL && Ascii.eqb b NUL then 0 else S (strings_end tl)
  | _ => 0
  end.

Fixpoint parse_structures (fuel : nat) (b : bytes) (out : SMBIOS) : option SMBIOS :=
  match fuel with
  | O => None
  | S fuel =>
      match b with
      | t :: l :: _ :: _ :: _ =>
          let length_ := Z.to_nat (byte_val l) in
          if (length_ <? 4)%nat || (length b <? length_)%nat then Some out
          else
            let formatted := take length_ b in
            let rest := drop length_ b in
            let e := strings_end rest in
            let strs := splitStrings (take e rest) in
            match add_structure out (byte_val t) formatted strs with
            | None => Some out
            | Some out' => parse_structures fuel (drop (Nat.min (e + 2) (length rest)) rest) out'
            end
      | _ => Some out
      end
  end.

Definition ParseSMBIOS (b : bytes) : SMBIOS := default no_SMBIOS (parse_structures (S (length b)) b no_SMBIOS).

(** ** Folding the table into a spec *)

Definition or_kept (new old : string) : string := if String.eqb new "" then old else new.

Definition add_processor (c : CPU) (p : Processor) : CPU :=
  if Populated p then
    {| cpu_Model := if String.eqb (cpu_Model c) "" then Version p else cpu_Model c;
       Sockets := Sockets c + 1; SocketsTotal := SocketsTotal c;
       CoresPerSocket := if CoresPerSocket c =? 0 then Cores p else CoresPerSocket c;
       cpu_Cores := cpu_Cores c + Cores p; cpu_Threads := cpu_Threads c + Threads p;
       cpu_MHz := if cpu_MHz c =? 0 then MHz p else cpu_MHz c |}
  else c.

Definition apply_cpu (ps : list Processor) (c : CPU) : CPU :=
  match ps with
  | [] => c
  | _ => foldl add_processor
           {| cpu_Model := cpu_Model c; Sockets := 0; SocketsTotal := Z.of_nat (length ps);
              CoresPerSocket := CoresPerSocket c; cpu_Cores := 0; cpu_Threads := 0; cpu_MHz := cpu_MHz c |} ps
  end.

Definition module_of (d : MemoryDevice) : Mod :=
  {| mod_Locator := Locator d; mod_SizeMB := SizeMB d; mod_Type := md_Type d; mod_SpeedMHz := SpeedMHz d |}.

Definition add_device (st : list Mod * Z) (d : MemoryDevice) : list Mod * Z :=
  if SizeMB d =? 0 then st else (st.1 ++ [module_of d], wrap64 (st.2 + SizeMB d)).

Definition apply_memory (ds : list MemoryDevice) (m : Memory) : Memory :=
  match ds with
  | [] => m
  | _ =>
      let '(modules, total) := foldl add_device ([], 0) ds in
      {| TotalMB := if 0 <? total then total else TotalMB m; Modules := modules; SlotsTotal := Z.of_nat (length ds) |}
  end.

Definition Apply (s : SMBIOS) (sp : Spec) : Spec :=
  let y := sm_System s in
  let x := sp_System sp in
  {| sp_System := {| Vendor := or_kept (Vendor y) (Vendor x); Model := or_kept (Model y) (Model x);
                     Serial := or_kept (Serial y) (Serial x); BoardSerial := or_kept (BoardSerial y) (BoardSerial x) |};
     OS := OS sp; sp_CPU := apply_cpu (Processors s) (sp_CPU sp); sp_Memory := apply_memory (sm_Memory s) (sp_Memory sp);
     Disks := Disks sp; NICs := NICs sp |}.

(** ** The loop ends *)

Lemma parse_structures_total fuel b out : (length b < fuel)%nat → is_Some (parse_structures fuel b out).
Proof.
  revert b out. induction fuel as [|fuel IH]; intros b out Hf; [lia|]. cbn [parse_structures].
  destruct b as [|t [|l [|h1 [|h2 b]]]]; try by eexists. set (whole := t :: l :: h1 :: h2 :: b) in *.
  destruct (_ || _) eqn:Hb; [by eexists|]. apply orb_false_iff in Hb as [Hl4%Nat.ltb_ge Hle%Nat.ltb_ge].
  destruct (add_structure _ _ _ _); [|by eexists]. apply IH. rewrite !length_drop. lia.
Qed.

Lemma parse_structures_fuel n m b out : (length b < n)%nat → (length b < m)%nat →
  parse_structures n b out = parse_structures m b out.
Proof.
  revert m b out. induction n as [|n IH]; intros [|m] b out Hn Hm; try lia. cbn [parse_structures].
  destruct b as [|t [|l [|h1 [|h2 b]]]]; try done. set (whole := t :: l :: h1 :: h2 :: b) in *.
  destruct (_ || _) eqn:Hb; [done|]. apply orb_false_iff in Hb as [Hl4%Nat.ltb_ge Hle%Nat.ltb_ge].
  destruct (add_structure _ _ _ _); [|done]. apply IH; rewrite !length_drop; lia.
Qed.

(** ** The format the firmware writes *)

(** A structure: its type, its handle's two bytes, the rest of its fixed part,
    and its strings. *)
Record structure := { s_type : ascii; handle_lo : ascii; handle_hi : ascii; s_body : bytes; s_strings : list string }.

Definition nul_string : string := String NUL "".

Definition s_length (s : structure) : nat := 4 + length (s_body s).

Definition s_formatted (s : structure) : bytes :=
  s_type s :: ascii_of_N (N.of_nat (s_length s)) :: handle_lo s :: handle_hi s :: s_body s.

Definition encode_strings (ss : list string) : bytes :=
  String.list_ascii_of_string (Join ss nul_string) ++ [NUL; NUL].

Definition encode (s : structure) : bytes := s_formatted s ++ encode_strings (s_strings s).

Definition wf_string (s : string) : Prop := s ≠ "" ∧ lacks NUL s = true.

Definition wf_structure (s : structure) : Prop :=
  (s_length s ≤ 255)%nat ∧ Forall wf_string (s_strings s).

Notation chars := String.list_ascii_of_string.

Lemma chars_app a b : chars (a +:+ b) = chars a ++ chars b.
Proof. induction a as [|c a IH]; [done|]. rewrite string_app_cons. cbn [String.list_ascii_of_string app]. by rewrite IH. Qed.

Lemma chars_lacks s : lacks NUL s = true → Forall (λ c, Ascii.eqb c NUL = false) (chars s).
Proof.
  unfold lacks. induction s as [|c s IH]; [constructor|]. cbn [string_all String.list_ascii_of_string].
  intros [Hc Hs]%andb_true_iff. apply negb_true_iff in Hc. constructor; [done|by apply IH].
Qed.

Lemma strings_end_run l c rest : Forall (λ c, Ascii.eqb c NUL = false) l → l ≠ [] ∨ Ascii.eqb c NUL = true →
  strings_end (l ++ NUL :: c :: rest) = (length l + (if Ascii.eqb c NUL then 0 else S (strings_end (c :: rest))))%nat.
Proof.
  induction 1 as [|d l Hd Hl IH]; intros Hne.
  - destruct Hne as [?|Hc]; [done|]. cbn [app strings_end length Nat.add]. by rewrite Hc.
  - destruct l as [|d' l].
    + cbn [app strings_end length Nat.add]. rewrite Hd. cbn [andb]. by destruct (Ascii.eqb c NUL).
    + cbn [app strings_end length Nat.add]. rewrite Hd. cbn [andb]. f_equal. apply IH. by left.
Qed.

Lemma strings_end_encoded ss rest : Forall wf_string ss →
  strings_end (encode_strings ss ++ rest) = length (chars (Join ss nul_string)).
Proof.
  unfold encode_strings. intros Hw. induction Hw as [|s ss [Hne Hl] Hw IH]; [done|].
  apply chars_lacks in Hl. assert (chars s ≠ []) as Hnil by (destruct s; [done|discriminate]).
  destruct ss as [|s2 ss].
  - cbn [Join]. rewrite <-(assoc_L (++)). cbn [app]. rewrite strings_end_run by (done || by left). cbn. lia.
  - change (Join (s :: s2 :: ss) nul_string) with (s +:+ nul_string +:+ Join (s2 :: ss) nul_string) in *.
    rewrite !chars_app. cbn [nul_string String.list_ascii_of_string app] in *.
    inversion_clear Hw as [|? ? [Hne2 Hl2] Hw']. apply chars_lacks in Hl2.
    assert (∃ d t, chars (Join (s2 :: ss) nul_string) = d :: t ∧ Ascii.eqb d NUL = false) as (d & t & Ht & Hd).
    { destruct s2 as [|d s2]; [done|]. inversion_clear Hl2. destruct ss; cbn [Join]; [|rewrite string_app_cons]; by eexists _, _. }
    rewrite Ht in *. rewrite <-!(assoc_L (++)). cbn [app]. rewrite strings_end_run by (done || by left).
    rewrite Hd, length_app. cbn [length] in *. f_equal. f_equal. etrans; [|exact IH]. f_equal. cbn [app]. by rewrite <-(assoc_L (++)).
Qed.

Lemma splitStrings_Join ss : Forall wf_string ss → splitStrings (chars (Join ss nul_string)) = ss.
Proof.
  intros Hw. destruct ss as [|s ss]; [done|]. unfold splitStrings.
  assert (chars (Join (s :: ss) nul_string) ≠ []) as Hne.
  { inversion_clear Hw as [|? ? [Hs _] _]. destruct s; [done|]. destruct ss; cbn [Join]; [|rewrite string_app_cons]; discriminate. }
  destruct (chars (Join (s :: ss) nul_string)) eqn:E; [done|]. rewrite <-E, String.string_of_list_ascii_of_string.
  apply Split_Join; [done|]. eapply Forall_impl; [exact Hw|]. by intros ? [].
Qed.

Lemma drop_past_2 (l : bytes) rest : drop (length l + 2) (l ++ [NUL; NUL] ++ rest) = rest.
Proof. by rewrite drop_app_add'. Qed.

Lemma length_formatted s : length (s_formatted s) = s_length s.
Proof. done. Qed.

Lemma byte_val_of_nat n : (n ≤ 255)%nat → Z.to_nat (byte_val (ascii_of_N (N.of_nat n))) = n.
Proof. intros. unfold byte_val. rewrite N_ascii_embedding by lia. lia. Qed.

(** One structure of the format, read. *)
Lemma parse_encoded fuel s rest out : wf_structure s → (length (encode s ++ rest) < fuel)%nat →
  parse_structures fuel (encode s ++ rest) out =
  match add_structure out (byte_val (s_type s)) (s_formatted s) (s_strings s) with
  | None => Some out
  | Some out' => parse_structures fuel rest out'
  end.
Proof.
  intros (Hlen & Hss) Hf. destruct fuel as [|fuel]; [lia|].
  assert (encode s ++ rest = s_type s :: ascii_of_N (N.of_nat (s_length s)) :: handle_lo s :: handle_hi s :: (s_body s ++ encode_strings (s_strings s) ++ rest)) as Hshape
    by (unfold encode, s_formatted; cbn [app]; by rewrite <-(assoc_L (++))).
  assert (length rest < fuel)%nat as Hrest by (rewrite Hshape in Hf; simpl in Hf; rewrite !length_app in Hf; lia).
  transitivity (match add_structure out (byte_val (s_type s)) (s_formatted s) (s_strings s) with
                | None => Some out | Some out' => parse_structures fuel rest out' end).
  2: { destruct (add_structure _ _ _ _); [|done]. apply parse_structures_fuel; lia. }
  rewrite Hshape. cbn [parse_structures]. rewrite <-Hshape, byte_val_of_nat by done.
  assert (encode s ++ rest = s_formatted s ++ (encode_strings (s_strings s) ++ rest)) as Hsplit by (unfold encode; by rewrite <-(assoc_L (++))).
  assert (length (encode s ++ rest) = (s_length s + length (encode_strings (s_strings s) ++ rest))%nat) as Hl by (rewrite Hsplit, length_app, length_formatted; done).
  rewrite (proj2 (Nat.ltb_ge (s_length s) 4)) by (unfold s_length; lia). rewrite (proj2 (Nat.ltb_ge _ (s_length s))) by lia. cbn [orb].
  rewrite Hsplit, <-(length_formatted s), take_app_length, drop_app_length, strings_end_encoded by done.
  unfold encode_strings at 1 2 3. rewrite <-!(assoc_L (++)), take_app_length, splitStrings_Join by done.
  destruct (add_structure _ _ _ _) as [out'|]; [|done].
  f_equal. rewrite Nat.min_l by (rewrite !length_app; simpl; lia). by rewrite drop_past_2.
Qed.

(** A table, and what it says: its structures' contributions in order. *)
Definition table (ss : list structure) : bytes := concat (encode <$> ss).

Definition add_known (out : SMBIOS) (s : structure) : SMBIOS :=
  default out (add_structure out (byte_val (s_type s)) (s_formatted s) (s_strings s)).

Definition end_marker (s : structure) : Prop := byte_val (s_type s) = 127.

(** What may follow the last structure: fewer bytes than a header, or an end
    marker and then anything. *)
Inductive table_end : bytes → Prop :=
| end_short b : (length b < 4)%nat → table_end b
| end_marked s b : wf_structure s → end_marker s → table_end (encode s ++ b).

Lemma add_structure_end out t f strs : add_structure out t f strs = None ↔ t = 127.
Proof. unfold add_structure. split; [|by intros ->]. repeat case_match; done || by intros. Qed.

Lemma parse_end fuel b out : table_end b → (length b < fuel)%nat → parse_structures fuel b out = Some out.
Proof.
  intros [b' Hb|s b' Hw Hm] Hf.
  - destruct fuel; [lia|]. cbn [parse_structures]. destruct b' as [|? [|? [|? [|? ?]]]]; try done. simpl in Hb. lia.
  - rewrite parse_encoded by done. by rewrite (proj2 (add_structure_end _ _ _ _)).
Qed.

(** Reading a table gives back what was written in it.  For every list of
    structures, each with its fixed part and its strings, the parser yields
    their contributions in order, none lost and none invented, and stops at the
    end marker or at a short tail, whatever follows. *)
Theorem ParseSMBIOS_table (ss : list structure) (tail_ : bytes) :
  Forall wf_structure ss → Forall (λ s, ¬ end_marker s) ss → table_end tail_ →
  ParseSMBIOS (table ss ++ tail_) = foldl add_known no_SMBIOS ss.
Proof.
  intros Hw Hn Ht. unfold ParseSMBIOS.
  cut (∀ fuel out, (length (table ss ++ tail_) < fuel)%nat →
         parse_structures fuel (table ss ++ tail_) out = Some (foldl add_known out ss)).
  { intros H. by rewrite H by lia. }
  induction Hw as [|s ss Hs Hw IH]; intros fuel out Hf; [by apply parse_end|].
  inversion_clear Hn as [|? ? Hns Hn']. unfold table in *. cbn [fmap list_fmap concat foldl] in *. rewrite <-(assoc_L (++)) in *.
  rewrite parse_encoded by done. unfold add_known at 2.
  destruct (add_structure out _ _ _) as [out'|] eqn:E; [|by apply add_structure_end in E].
  cbn [default]. apply IH; [done|]. rewrite length_app in Hf. lia.
Qed.

(** ** What a spec says after the table is folded in *)

Definition populated (ps : list Processor) : list Processor := filter (λ p, Populated p = true) ps.
Definition sum_of {A} (f : A → Z) (l : list A) : Z := foldr (λ x acc, f x + acc) 0 l.

Lemma add_processor_sums ps c :
  let c' := foldl add_processor c ps in
  Sockets c' = Sockets c + Z.of_nat (length (populated ps)) ∧ SocketsTotal c' = SocketsTotal c ∧
  cpu_Cores c' = cpu_Cores c + sum_of Cores (populated ps) ∧ cpu_Threads c' = cpu_Threads c + sum_of Threads (populated ps).
Proof.
  revert c. induction ps as [|p ps IH]; intros c; cbn zeta; cbn [foldl]; [cbn; lia|].
  destruct (IH (add_processor c p)) as (H1 & H2 & H3 & H4). unfold populated in *. rewrite H1, H2, H3, H4, list.filter_cons.
  unfold add_processor. destruct (Populated p) eqn:E; [rewrite decide_True by done|rewrite decide_False by done];
    cbn [Sockets SocketsTotal cpu_Cores cpu_Threads length]; unfold sum_of; cbn [foldr]; lia.
Qed.

Lemma add_device_modules ds st : (foldl add_device st ds).1 = st.1 ++ (module_of <$> filter (λ d, SizeMB d ≠ 0) ds).
Proof.
  revert st. induction ds as [|d ds IH]; intros st; cbn [foldl]; [by rewrite app_nil_r|].
  rewrite IH, list.filter_cons. unfold add_device. destruct (SizeMB d =? 0) eqn:E; bool_simpl.
  - by rewrite decide_False by (intros H; by apply H).
  - rewrite decide_True by done. cbn [fst]. by rewrite <-(assoc_L (++)).
Qed.

Lemma add_device_total ds st : Forall (λ d, 0 ≤ SizeMB d) ds → 0 ≤ st.2 → in_int64 (st.2 + sum_of SizeMB ds) →
  (foldl add_device st ds).2 = st.2 + sum_of SizeMB ds.
Proof.
  intros Hd. revert st. induction Hd as [|d ds Hd0 Hd IH]; intros st H0 Hr; cbn [foldl sum_of foldr]; [cbn; lia|].
  cbn [sum_of foldr] in Hr. fold (sum_of SizeMB ds) in *.
  assert (0 ≤ sum_of SizeMB ds) as Hs by (clear -Hd; induction Hd; cbn [sum_of foldr]; [done|]; unfold sum_of in *; lia).
  assert ((add_device st d).2 = st.2 + SizeMB d) as Hst.
  { unfold add_device. destruct (SizeMB d =? 0) eqn:E; bool_simpl; [lia|]. apply wrap64_id. unfold in_int64, int64_min, int64_max in *. lia. }
  rewrite IH, Hst; [lia|lia|]. by rewrite Hst, <-Z.add_assoc.
Qed.

Lemma u8_range f off : 0 ≤ u8 f off < 256.
Proof. unfold u8, byte_at. destruct (f !! off); [apply byte_val_range|lia]. Qed.

Lemma u16_range f off : 0 ≤ u16 f off < 65536.
Proof. unfold u16. case_if; [lia|]. pose proof (u8_range f off). pose proof (u8_range f (off + 1)). unfold u8 in *. lia. Qed.

(** A machine's totals are those of its table.  With processors in it, the
    sockets, cores and threads are the populated ones' and nothing of what the
    kernel said before; the modules are the slots that are not empty, and they
    fit the slots; and a name the table lacks leaves the one already known. *)
Theorem Apply_totals (s : SMBIOS) (sp : Spec) :
  Processors s ≠ [] → sm_Memory s ≠ [] →
  let c := sp_CPU (Apply s sp) in
  let m := sp_Memory (Apply s sp) in
  SocketsTotal c = Z.of_nat (length (Processors s)) ∧ Sockets c = Z.of_nat (length (populated (Processors s))) ∧
  cpu_Cores c = sum_of Cores (populated (Processors s)) ∧ cpu_Threads c = sum_of Threads (populated (Processors s)) ∧
  Modules m = module_of <$> filter (λ d, SizeMB d ≠ 0) (sm_Memory s) ∧
  SlotsTotal m = Z.of_nat (length (sm_Memory s)) ∧ MemorySlotsUsed m ≤ SlotsTotal m ∧
  (Forall (λ d, 0 ≤ SizeMB d) (sm_Memory s) → in_int64 (sum_of SizeMB (sm_Memory s)) →
     0 < sum_of SizeMB (sm_Memory s) → TotalMB m = sum_of SizeMB (sm_Memory s)) ∧
  (∀ field, field ∈ [Vendor; Model; Serial; BoardSerial] →
     field (sp_System (Apply s sp)) = "" → field (sp_System sp) = "" ∧ field (sm_System s) = "").
Proof.
  intros Hp Hm. cbn zeta. unfold Apply. cbn [sp_CPU sp_Memory sp_System].
  unfold apply_cpu. destruct (Processors s) as [|p ps] eqn:EP; [done|]. rewrite <-EP.
  match goal with |- context [foldl add_processor ?c _] => destruct (add_processor_sums (Processors s) c) as (H1 & H2 & H3 & H4) end.
  cbn [Sockets SocketsTotal cpu_Cores cpu_Threads] in *.
  pose proof (add_device_modules (sm_Memory s) ([], 0)) as Hmod. pose proof (add_device_total (sm_Memory s) ([], 0)) as Htot.
  unfold apply_memory. destruct (sm_Memory s) as [|d ds] eqn:EM; [done|]. rewrite <-EM in *.
  destruct (foldl add_device ([], 0) (sm_Memory s)) as [modules total]. cbn [fst snd app] in *. unfold MemorySlotsUsed. cbn [TotalMB Modules SlotsTotal].
  split_and!; [lia..| |lia| | |].
  - done.
  - rewrite Hmod, length_fmap. pose proof (length_filter (λ d, SizeMB d ≠ 0) (sm_Memory s)). lia.
  - intros Hnn Hr Hpos. rewrite Htot, Z.add_0_l by (done || lia). by rewrite (proj2 (Z.ltb_lt _ _) Hpos).
  - intros field Hf. assert (∀ new old, or_kept new old = "" → old = "" ∧ new = "") as Hor.
    { intros new old. unfold or_kept. destruct (String.eqb_spec new ""); [done|]. by intros. }
    rewrite !elem_of_cons, elem_of_nil in Hf. destruct Hf as [->|[->|[->|[->|[]]]]]; cbn; apply Hor.
Qed.

(** ** Examples *)

Definition body_with (n : nat) (fields : list (nat * Z)) : bytes :=
  foldl (λ b '(off, v), <[(off - 4)%nat := ascii_of_N (Z.to_N v)]> b) (replicate (n - 4) NUL) fields.

Definition sample (typ : Z) (n : nat) (fields : list (nat * Z)) (strs : list string) : structure :=
  {| s_type := ascii_of_N (Z.to_N typ); handle_lo := NUL; handle_hi := NUL; s_body := body_with n fields; s_strings := strs |}.

Definition sys_sample : structure := sample 1 0x1B [(4%nat, 1); (5%nat, 2); (7%nat, 3)] ["Dell Inc."; "PowerEdge R740"; "............"].
Definition cpu_sample : structure :=
  sample 4 0x30 [(4%nat, 1); (0x10%nat, 2); (0x16%nat, 200); (0x18%nat, 0x41); (0x23%nat, 10); (0x25%nat, 20)] ["CPU1"; "Intel(R) Xeon(R)"].
Definition dimm_sample : structure := sample 17 0x20 [(0xC%nat, 0xFF); (0xD%nat, 0x7F); (0x10%nat, 1); (0x12%nat, 26); (0x1D%nat, 128)] ["A1"].
Definition slot_sample : structure := sample 17 0x20 [(0x10%nat, 1)] ["A2"].
Definition end_sample : structure := sample 127 4 [] [].

Definition sample_structures : list structure := [sys_sample; cpu_sample; dimm_sample; slot_sample].

Definition wf_stringb (s : string) : bool := negb (String.eqb s "") && lacks NUL s.

Lemma wf_structure_dec s : (s_length s <=? 255)%nat && forallb wf_stringb (s_strings s) = true → wf_structure s.
Proof.
  intros [Hl%Nat.leb_le Hs]%andb_true_iff. split; [done|]. rewrite forallb_forall in Hs. apply Forall_forall. intros x Hx%list_elem_of_In.
  specialize (Hs x Hx). unfold wf_stringb in Hs. bool_simpl. split; [|done]. by apply String.eqb_neq.
Qed.

Lemma ParseSMBIOS_table_witness :
  let s := ParseSMBIOS (table sample_structures ++ encode end_sample ++ ["255"%char]) in
  s = foldl add_known no_SMBIOS sample_structures ∧
  sm_System s = {| Vendor := "Dell Inc."; Model := "PowerEdge R740"; Serial := ""; BoardSerial := "" |} ∧
  Cores <$> Processors s = [10] ∧ SizeMB <$> sm_Memory s = [32768; 0].
Proof.
  cbn zeta. rewrite (ParseSMBIOS_table sample_structures (encode end_sample ++ ["255"%char])).
  - split; [reflexivity|]. vm_compute. done.
  - repeat (apply Forall_cons; split; [apply wf_structure_dec; reflexivity|]). constructor.
  - repeat (apply Forall_cons; split; [discriminate|]). constructor.
  - apply end_marked; [apply wf_structure_dec; reflexivity|reflexivity].
Defined.

Definition sysfs_spec : Spec := {|
  sp_System := {| Vendor := "Dell"; Model := ""; Serial := "S1"; BoardSerial := "B1" |}; OS := "Rocky Linux";
  sp_CPU := {| cpu_Model := "Xeon"; Sockets := 2; SocketsTotal := 0; CoresPerSocket := 8; cpu_Cores := 16; cpu_Threads := 32; cpu_MHz := 2000 |};
  sp_Memory := {| TotalMB := 64000; Modules := []; SlotsTotal := 0 |}; Disks := []; NICs := [] |}.

Lemma Apply_totals_witness :
  let sp := Apply (foldl add_known no_SMBIOS sample_structures) sysfs_spec in
  cpu_Cores (sp_CPU sp) = 10 ∧ Serial (sp_System sp) = "S1" ∧ SlotsTotal (sp_Memory sp) = 2.
Proof.
  cbn zeta. destruct (Apply_totals (foldl add_known no_SMBIOS sample_structures) sysfs_spec) as (_ & _ & H & _ & _ & H2 & _);
    [vm_compute; discriminate|vm_compute; discriminate|].
  split_and!; [etrans; [exact H|reflexivity]|reflexivity|etrans; [exact H2|reflexivity]].
Defined.

(** A processor structure of SMBIOS 2.0 to 2.4 has no core count: the fields at
    [0x23] and [0x25] came later.  Folding such a table in sets the machine's
    cores and threads to zero, although /proc/cpuinfo had said them. *)
Definition old_cpu_sample : structure := sample 4 0x1A [(4%nat, 1); (0x10%nat, 2); (0x16%nat, 200); (0x18%nat, 0x41)] ["CPU1"; "Xeon 5160"].

Lemma old_table_blanks_cores :
  let sp := Apply (ParseSMBIOS (table [old_cpu_sample; old_cpu_sample] ++ encode end_sample)) sysfs_spec in
  cpu_Cores (sp_CPU sysfs_spec) = 16 ∧ cpu_Cores (sp_CPU sp) = 0 ∧ cpu_Threads (sp_CPU sp) = 0 ∧ Sockets (sp_CPU sp) = 2.
Proof. vm_compute. done. Qed.
