(* ===== verification/HwCollect.v ===== *)
(** Reading a Linux host's hardware: src/internal/hwspec/collect.go.

    The host is the files the collector asks for, by their path under the
    root: what [os.ReadFile], [os.Stat], [os.ReadDir] and
    [filepath.EvalSymlinks] answer, and [PortOf], the answer of ethtool. *)

From Stdlib Require Import Ascii String ZArith Lia Floats.SpecFloat.
From S2P Require Import Prelude GoStrings GoFormat HwSpec.
Open Scope Z_scope.

Record port := { fibre : bool; copper : bool; maxMb : Z }.

Record host := {
  read_file : string → option string; stat : string → bool; read_dir : string → option (list string);
  eval_link : string → option string; port_of : option (string → option port);
}.

Section collector.
Context (c : host).

Definition read (p : string) : string := match read_file c p with Some b => TrimSpace b | None => "" end.

(** ** /proc/cpuinfo *)

Record cpu_scan := { cs_cpu : CPU; virtual : bool; cs_sockets : gset string; cs_cores : gset string; phys : string }.

Definition no_scan : cpu_scan := {| cs_cpu := no_CPU; virtual := false; cs_sockets := ∅; cs_cores := ∅; phys := "" |}.

Definition set_cpu (st : cpu_scan) (x : CPU) : cpu_scan :=
  {| cs_cpu := x; virtual := virtual st; cs_sockets := cs_sockets st; cs_cores := cs_cores st; phys := phys st |}.

Definition cpu_line (st : cpu_scan) (ln : string) : cpu_scan :=
  match Cut ln ":" with
  | None => st
  | Some (k, v) =>
      let k := TrimSpace k in
      let v := TrimSpace v in
      let x := cs_cpu st in
      if String.eqb k "processor" then
        set_cpu st {| cpu_Model := cpu_Model x; Sockets := Sockets x; SocketsTotal := SocketsTotal x; CoresPerSocket := CoresPerSocket x;
                      cpu_Cores := cpu_Cores x; cpu_Threads := cpu_Threads x + 1; cpu_MHz := cpu_MHz x |}
      else if String.eqb k "model name" then
        set_cpu st {| cpu_Model := if String.eqb (cpu_Model x) "" then Join (Fields v) " " else cpu_Model x; Sockets := Sockets x;
                      SocketsTotal := SocketsTotal x; CoresPerSocket := CoresPerSocket x;
                      cpu_Cores := cpu_Cores x; cpu_Threads := cpu_Threads x; cpu_MHz := cpu_MHz x |}
      else if String.eqb k "physical id" then
        {| cs_cpu := x; virtual := virtual st; cs_sockets := {[v]} ∪ cs_sockets st; cs_cores := cs_cores st; phys := v |}
      else if String.eqb k "core id" then
        {| cs_cpu := x; virtual := virtual st; cs_sockets := cs_sockets st; cs_cores := {[phys st +:+ "/" +:+ v]} ∪ cs_cores st; phys := phys st |}
      else if String.eqb k "cpu MHz" then
        set_cpu st {| cpu_Model := cpu_Model x; Sockets := Sockets x; SocketsTotal := SocketsTotal x; CoresPerSocket := CoresPerSocket x;
                      cpu_Cores := cpu_Cores x; cpu_Threads := cpu_Threads x;
                      cpu_MHz := if cpu_MHz x =? 0 then match ParseFloat v with Some f => float_to_int f | None => 0 end else cpu_MHz x |}
      else if String.eqb k "flags" then
        {| cs_cpu := x; virtual := virtual st || slices_Contains (Fields v) "hypervisor"; cs_sockets := cs_sockets st;
           cs_cores := cs_cores st; phys := phys st |}
      else st
  end.

Definition cpuinfo : CPU * bool :=
  match read_file c "proc/cpuinfo" with
  | None => (no_CPU, false)
  | Some text =>
      let st := foldl cpu_line no_scan (ScanLines 1048576 text).1 in
      let x := cs_cpu st in
      let sockets := Z.of_nat (size (cs_sockets st)) in
      let cores := Z.of_nat (size (cs_cores st)) in
      ({| cpu_Model := cpu_Model x; Sockets := sockets; SocketsTotal := SocketsTotal x;
          CoresPerSocket := if 0 <? sockets then cores / sockets else CoresPerSocket x;
          cpu_Cores := cores; cpu_Threads := cpu_Threads x; cpu_MHz := cpu_MHz x |}, virtual st)
  end.

(** ** Memory and release *)

(** The first line with a prefix, without it. *)
Definition first_prefixed (p : string) (text : string) : option string :=
  (λ l, TrimPrefix l p) <$> head (filter (λ l, HasPrefix l p = true) (ScanLines MaxScanTokenSize text).1).

(** [None] is the panic of indexing the fields of an empty value. *)
Definition memTotalMB : option Z :=
  match read_file c "proc/meminfo" with
  | None => Some 0
  | Some text =>
      match first_prefixed "MemTotal:" text with
      | None => Some 0
      | Some v => (λ f, Z.quot (ParseInt10 f).1 1024) <$> head (Fields v)
      end
  end.

Definition quotes : string := String "034" (String "039" "").

Definition osName : string :=
  match read_file c "etc/os-release" with
  | None => ""
  | Some text => match first_prefixed "PRETTY_NAME=" text with None => "" | Some v => Trim v quotes end
  end.

(** ** Disks *)

Definition skipDisk (name : string) : bool :=
  existsb (HasPrefix name) ["loop"; "ram"; "zram"; "dm-"; "md"; "sr"; "nbd"; "fd"; "rbd"; "drbd"].

Definition span_digits (s : string) : string * string :=
  let r := TrimLeftFunc is_digit s in (take_bytes (String.length s - String.length r) s, r).

(** The digits of the leftmost [/host(\d+)/]. *)
Fixpoint scsiHost (s : string) : option string :=
  let here := if HasPrefix s "/host" then
                let '(ds, r) := span_digits (drop_bytes 5 s) in
                if negb (String.eqb ds "") && HasPrefix r "/" then Some ds else None
              else None in
  match here, s with
  | Some ds, _ => Some ds
  | None, String _ s' => scsiHost s'
  | None, EmptyString => None
  end.

Definition driver_bus (drv : string) : string :=
  if String.eqb drv "ahci" || HasPrefix drv "ata_" || HasSuffix drv "_sata" then "SATA"
  else if HasPrefix drv "mpt" || slices_Contains ["pm80xx"; "isci"; "hisi_sas"] drv then "SAS"
  else if slices_Contains ["hpsa"; "smartpqi"; "megaraid_sas"; "aacraid"; "cciss"; "mpi3mr"] drv then "RAID " +:+ drv
  else if String.eqb drv "virtio_scsi" then "virtio"
  else if slices_Contains ["iscsi_tcp"; "iser"; "bnx2i"; "qedi"; "cxgb4i"] drv then "iSCSI"
  else drv.

Definition diskInterface (name base : string) : string :=
  if HasPrefix name "nvme" then "NVMe" else if HasPrefix name "vd" then "virtio" else if HasPrefix name "mmcblk" then "MMC"
  else match eval_link c (base +:+ "/device") with
  | None => ""
  | Some link =>
      if Contains link "/usb" then "USB"
      else match scsiHost link with
      | None => ""
      | Some n => driver_bus (read ("sys/class/scsi_host/host" +:+ n +:+ "/proc_name"))
      end
  end.

Definition disk_of (name : string) : option Disk :=
  let base := "sys/block/" +:+ name in
  if skipDisk name then None
  else if negb (stat c (base +:+ "/device")) then None
  else
    let sectors := (ParseInt10 (read (base +:+ "/size"))).1 in
    if sectors =? 0 then None
    else
      let bus := diskInterface name base in
      if String.eqb bus "iSCSI" then None
      else Some {| dk_Name := name; SizeBytes := wrap64 (sectors * 512);
                   dk_Vendor := clean (read (base +:+ "/device/vendor")); dk_Model := clean (read (base +:+ "/device/model"));
                   Media := if String.eqb (read (base +:+ "/queue/rotational")) "1" then "HDD" else "SSD"; Interface := bus |}.

Definition disks : list Disk :=
  match read_dir c "sys/block" with
  | None => []
  | Some ents => sort (less_on string_ltb dk_Name) (omap disk_of ents)
  end.

(** ** Network ports *)

Definition last_element (p : string) : string := list_last p (Split p "/").

Definition nic_of (name : string) : option NIC :=
  let base := "sys/class/net/" +:+ name in
  if negb (stat c (base +:+ "/device")) then None
  else if stat c (base +:+ "/device/physfn") then None
  else
    let speed := match Atoi (read (base +:+ "/speed")) with (sp, None) => if 0 <? sp then sp else 0 | _ => 0 end in
    let drv := match eval_link c (base +:+ "/device/driver") with Some d => last_element d | None => "" end in
    let '(max_, port) :=
      match port_of c with
      | Some ask => match ask name with
                    | Some p => (maxMb p, PortName (fibre p) (copper p) (Z.max (maxMb p) speed))
                    | None => (0, "")
                    end
      | None => (0, "")
      end in
    Some {| nic_Name := name; MAC := read (base +:+ "/address"); SpeedMb := speed;
            MaxSpeedMb := if max_ <? speed then speed else max_; Port := port; Driver := drv |}.

Definition nics : list NIC :=
  match read_dir c "sys/class/net" with
  | None => []
  | Some ents => sort (less_on string_ltb nic_Name) (omap nic_of ents)
  end.

(** ** The whole *)

Definition ErrVirtual : string := "virtual machine: hardware specs are collected for bare-metal hosts only".

(** [None] is a panic. *)
Definition Collect : option (result string Spec) :=
  let '(cpu, guest) := cpuinfo in
  if guest then Some (Err ErrVirtual)
  else
    total ← memTotalMB;
    let sp := {|
      sp_System := {| Vendor := clean (read "sys/class/dmi/id/sys_vendor"); Model := clean (read "sys/class/dmi/id/product_name");
                      Serial := clean (read "sys/class/dmi/id/product_serial"); BoardSerial := clean (read "sys/class/dmi/id/board_serial") |};
      OS := osName; sp_CPU := cpu; sp_Memory := {| TotalMB := total; Modules := []; SlotsTotal := 0 |}; Disks := []; NICs := [] |} in
    let sp := match read_file c "sys/firmware/dmi/tables/DMI" with
              | Some raw => Apply (ParseSMBIOS (String.list_ascii_of_string raw)) sp
              | None => sp
              end in
    Some (Ok {| sp_System := sp_System sp; OS := OS sp; sp_CPU := sp_CPU sp; sp_Memory := sp_Memory sp; Disks := disks; NICs := nics |}).
End collector.

(** ** What a collection says *)

Section outcomes.
Context (c : host).

(** The kernel calls the machine a guest: some flags line carries [hypervisor]. *)
Definition flagged_guest : Prop :=
  ∃ text ln k v, read_file c "proc/cpuinfo" = Some text ∧ ln ∈ (ScanLines 1048576 text).1 ∧ Cut ln ":" = Some (k, v) ∧
    TrimSpace k = "flags" ∧ "hypervisor" ∈ Fields (TrimSpace v).

Lemma cpu_line_virtual st ln : virtual (cpu_line st ln) = true ↔
  virtual st = true ∨ ∃ k v, Cut ln ":" = Some (k, v) ∧ TrimSpace k = "flags" ∧ "hypervisor" ∈ Fields (TrimSpace v).
Proof.
  unfold cpu_line. destruct (Cut ln ":") as [[k v]|]; [|naive_solver].
  repeat match goal with |- context [String.eqb (TrimSpace k) ?s] => destruct (String.eqb_spec (TrimSpace k) s) as [E|] end;
    cbn [virtual set_cpu].
  6: { rewrite orb_true_iff. unfold slices_Contains. rewrite bool_decide_eq_true. split.
       - intros [?|?]; [by left|right; by exists k, v].
       - intros [?|(? & ? & [= <- <-] & _ & ?)]; [by left|by right]. }
  all: split; [by left|]; intros [?|(? & ? & [= <- <-] & E' & _)]; [done|congruence].
Qed.

Lemma cpu_scan_virtual lines st : virtual (foldl cpu_line st lines) = true ↔
  virtual st = true ∨ ∃ ln k v, ln ∈ lines ∧ Cut ln ":" = Some (k, v) ∧ TrimSpace k = "flags" ∧ "hypervisor" ∈ Fields (TrimSpace v).
Proof.
  revert st. induction lines as [|ln lines IH]; intros st; cbn [foldl]; [set_solver|].
  rewrite IH, cpu_line_virtual. clear. split.
  - intros [[?|(k & v & ?)]|(x & k & v & ? & ?)]; [by left| |]; right; [exists ln, k, v|exists x, k, v]; (split; [set_solver|done]).
  - intros [?|(x & k & v & [->|?]%elem_of_cons & ?)]; [by left; left|left; right; by exists k, v|right; by exists x, k, v].
Qed.

Lemma cpuinfo_guest : (cpuinfo c).2 = true ↔ flagged_guest.
Proof.
  unfold cpuinfo, flagged_guest. destruct (read_file c "proc/cpuinfo") as [text|]; [|naive_solver].
  cbn [snd]. rewrite cpu_scan_virtual. cbn [virtual no_scan]. naive_solver.
Qed.

(** The first line that says the memory says nothing. *)
Definition blank_memtotal : Prop :=
  ∃ text v, read_file c "proc/meminfo" = Some text ∧ first_prefixed "MemTotal:" text = Some v ∧ Fields v = [].

Lemma memTotalMB_panics : memTotalMB c = None ↔ blank_memtotal.
Proof.
  unfold memTotalMB, blank_memtotal. destruct (read_file c "proc/meminfo") as [text|]; [|naive_solver].
  destruct (first_prefixed "MemTotal:" text) as [v|] eqn:Ep; [|split; [done|]; intros (? & ? & [= <-] & ? & ?); congruence].
  destruct (Fields v) as [|f fs] eqn:E; split; cbn; [by eauto|done|done|].
  intros (? & v' & [= <-] & Ev & ?). rewrite Ep in Ev. injection Ev as <-. congruence.
Qed.

Lemma disk_of_local name d : disk_of c name = Some d →
  dk_Name d = name ∧ skipDisk name = false ∧ Interface d ≠ "iSCSI" ∧ stat c ("sys/block/" +:+ name +:+ "/device") = true.
Proof.
  unfold disk_of. intros H. repeat (case_match; try done). all: simplify_eq; cbn; bool_simpl.
  all: rewrite <-string_app_assoc; split_and!; try done; by apply String.eqb_neq.
Qed.

(** A collection refuses a machine exactly when the kernel calls it a guest,
    and panics exactly when a bare-metal machine's first MemTotal line is blank;
    otherwise it answers, and the disks it lists are, in the order of their
    names, devices of the machine's own: none the kernel made up and none
    reached over the network. *)
Theorem Collect_outcomes :
  (Collect c = Some (Err ErrVirtual) ↔ flagged_guest) ∧
  (Collect c = None ↔ ¬ flagged_guest ∧ blank_memtotal) ∧
  (∀ sp, Collect c = Some (Ok sp) →
     StronglySorted (not_after (less_on string_ltb dk_Name)) (Disks sp) ∧
     ∀ d, d ∈ Disks sp → ∃ ents, read_dir c "sys/block" = Some ents ∧ dk_Name d ∈ ents ∧
       skipDisk (dk_Name d) = false ∧ Interface d ≠ "iSCSI" ∧ stat c ("sys/block/" +:+ dk_Name d +:+ "/device") = true).
Proof.
  unfold Collect. pose proof cpuinfo_guest as Hg. pose proof memTotalMB_panics as Hm. destruct (cpuinfo c) as [cpu guest]. cbn [snd] in Hg.
  destruct guest; [split_and!; [naive_solver|naive_solver|by intros]|].
  destruct (memTotalMB c) as [total|]; cbn [mbind option_bind]; [|split_and!; [naive_solver|naive_solver|by intros]].
  split_and!; [naive_solver|naive_solver|]. intros sp [= <-]. cbn [Disks]. unfold disks.
  destruct (read_dir c "sys/block") as [ents|]; [|split; [constructor|set_solver]].
  split; [apply sort_sorted; apply _|]. intros d Hd%sort_elem_of. apply list_elem_of_omap in Hd as (name & Hn & Hd).
  apply disk_of_local in Hd as (<- & ? & ? & ?). by exists ents.
Qed.
End outcomes.

(** A small bare-metal host, and a guest. *)
Definition files (l : list (string * string)) (p : string) : option string := (list_to_map l : gmap string string) !! p.

Definition bare_host (flags : string) : host := {|
  read_file := files [("proc/cpuinfo", "processor : 0" +:+ String nl ("flags : fpu " +:+ flags)); ("proc/meminfo", "MemTotal:       65536000 kB");
                      ("sys/block/sda/size", "1000"); ("sys/block/sdb/size", "1000"); ("sys/class/scsi_host/host0/proc_name", "ahci");
                      ("sys/class/scsi_host/host7/proc_name", "iscsi_tcp"); ("etc/os-release", "PRETTY_NAME=" +:+ quotes +:+ "Rocky" +:+ quotes)];
  stat := λ p, slices_Contains ["sys/block/sda/device"; "sys/block/sdb/device"] p;
  read_dir := λ p, if String.eqb p "sys/block" then Some ["loop0"; "sdb"; "sda"] else None;
  eval_link := λ p, if String.eqb p "sys/block/sda/device" then Some "/sys/devices/pci0/ata1/host0/target0"
                    else if String.eqb p "sys/block/sdb/device" then Some "/sys/devices/platform/host7/session1" else None;
  port_of := None |}.

Example Collect_bare :
  (λ r, match r with Ok sp => (OS sp, (TotalMB (sp_Memory sp), dk_Name <$> Disks sp)) | Err e => (e, (0, [])) end) <$> Collect (bare_host "vmx") =
  Some ("Rocky", (64000, ["sda"])).
Proof. vm_compute. reflexivity. Qed.

Example Collect_guest : Collect (bare_host "hypervisor") = Some (Err ErrVirtual).
Proof. vm_compute. reflexivity. Qed.
