(* ===== verification/Watchdog.v ===== *)
(** The node agent's liveness signal: src/internal/nodeagent/watchdog.go, the
    ping systemd waits for and the failure streak that withholds it, and the
    startup offset of src/internal/nodeagent/nodeagent.go ([startPhase]).

    A heartbeat is one observation, the report's outcome and the clock's answer
    after it; a run of the agent is a sequence of them, finite where a state is
    computed and a function of [nat] where the claim is about the whole run. *)

From Stdlib Require Import Ascii String ZArith Lia.
From S2P Require Import Prelude GoStrings.
Open Scope Z_scope.

(** ** What a report wrote, and where *)

Inductive line :=
| LTooSlow (interval wd : duration)
| LPingFailed (err : string)
| LReportFailed (err : string)
| LWithheld (since : time_t).

Inductive signal :=
| Datagram (payload : string)
| Warn (l : line).

(** ** The systemd watchdog *)

Record watchdog := Watchdog { w_interval : duration; w_failed : bool }.

(** [getenv] is [os.Getenv], [pid] [os.Getpid], [dial] whether the datagram
    socket of that name could be dialled. *)
Definition newWatchdog (getenv : string → string) (pid : Z) (dial : string → bool) : option watchdog :=
  let '(usec, err) := ParseInt10 (getenv "WATCHDOG_USEC") in
  if bool_decide (is_Some err) || (usec <=? 0) then None
  else
    let p := getenv "WATCHDOG_PID" in
    if negb (String.eqb p "") && negb (String.eqb p (Itoa pid)) then None
    else match getenv "NOTIFY_SOCKET" with
    | EmptyString => None
    | String c rest =>
        let addr := if Ascii.eqb c "@" then String "000" rest else String c rest in
        if dial addr then Some (Watchdog (wrap64 (usec * Microsecond)) false) else None
    end.

Definition Interval (w : option watchdog) : duration :=
  match w with None => 0 | Some w => w_interval w end.

(** [wrote] is the answer of the socket's [Write]. *)
Definition ping (w : option watchdog) (wrote : result string unit) : option watchdog * list signal :=
  match w with
  | None => (None, [])
  | Some w =>
      match wrote with
      | Err e =>
          if w_failed w then (Some w, [Datagram "WATCHDOG=1"])
          else (Some (Watchdog (w_interval w) true), [Datagram "WATCHDOG=1"; Warn (LPingFailed e)])
      | Ok _ => (Some (Watchdog (w_interval w) false), [Datagram "WATCHDOG=1"])
      end
  end.

Definition warnTooSlow (w : option watchdog) (interval : duration) : list signal :=
  match w with
  | None => []
  | Some _ => if Interval w <=? interval then [Warn (LTooSlow interval (Interval w))] else []
  end.

(** ** The failure streak *)

Definition withholdWatchdogAfter : duration := Hour.

Record failureStreak := Streak { since : time_t; withheld : bool }.

Definition healthy_streak : failureStreak := Streak 0 false.

(** [observe]: whether to ping, and whether this report stopped the pings. *)
Definition observe (s : failureStreak) (err : option string) (now : time_t) : failureStreak * (bool * bool) :=
  match err with
  | None => (healthy_streak, (true, false))
  | Some _ =>
      let s := if IsZero (since s) then Streak now (withheld s) else s in
      if Sub now (since s) <? withholdWatchdogAfter then (s, (true, false))
      else if withheld s then (s, (false, false))
      else (Streak (since s) true, (false, true))
  end.

(** What one heartbeat does with its report's outcome: the [beat] closure of
    [heartbeatLoop] after the report. *)
Definition after_report (s : failureStreak) (w : option watchdog) (err : option string)
    (now : time_t) (wrote : result string unit) : failureStreak * option watchdog * list signal :=
  let warned := match err with Some e => [Warn (LReportFailed e)] | None => [] end in
  let '(s', (send, justWithheld)) := observe s err now in
  let said := if justWithheld && bool_decide (is_Some w) then [Warn (LWithheld (since s'))] else [] in
  let '(w', sent) := if send then ping w wrote else (w, []) in
  (s', w', warned ++ said ++ sent).

(** ** The startup offset

    64-bit FNV-1a over the host's name, a zero byte and the loop's name. *)

Definition fnv_offset64 : Z := 14695981039346656037.
Definition fnv_prime64 : Z := 1099511628211.

Definition fnv_step (h : Z) (c : ascii) : Z := Z.lxor h (byte_val c) * fnv_prime64 mod 2 ^ 64.
Definition fnv_write (h : Z) (s : string) : Z := foldl fnv_step h (String.list_ascii_of_string s).

Definition startPhase (window : duration) (hostname loop : string) : duration :=
  if (window <=? 0) || String.eqb hostname "" then 0
  else fnv_write (fnv_step (fnv_write fnv_offset64 hostname) "000") loop mod window.

Definition heartbeatPhase : duration := 30 * Second.
Definition capabilityPhase : duration := 5 * Minute.
Definition specPhase : duration := 30 * Minute.

(** Two hosts and two loops, on concrete names. *)
Example startPhase_separates :
  startPhase capabilityPhase "sre-srv-0023" "capability" ≠ startPhase capabilityPhase "sre-srv-0023" "motd" ∧
  4294967295 < startPhase capabilityPhase "sre-srv-0023" "capability".
Proof. split; [vm_compute; discriminate|vm_compute; reflexivity]. Qed.

Lemma startPhase_range window hostname loop :
  0 ≤ startPhase window hostname loop ∧ (0 < window → startPhase window hostname loop < window).
Proof.
  unfold startPhase. destruct (window <=? 0) eqn:Hw; bool_simpl; cbn [orb]; [lia|].
  destruct (String.eqb hostname ""); [lia|].
  match goal with |- context [?a mod window] => pose proof (Z.mod_pos_bound a window) end. lia.
Qed.

(** ** The streak is the history's

    [failing h] lists the times of the reports since the last success: the
    longest run of failures a history [h], oldest first, ends in. *)

Definition report : Type := option string * time_t.

Definition failing (h : list report) : list time_t :=
  foldl (λ acc o, match o.1 with None => [] | Some _ => acc ++ [o.2] end) [] h.

Definition streak_after (h : list report) : failureStreak :=
  foldl (λ s o, (observe s o.1 o.2).1) healthy_streak h.

(** An hour of failures, counted from [first]. *)
Definition overdue (first now : time_t) : bool := withholdWatchdogAfter <=? Sub now first.

Definition ticking (h : list report) : Prop := Forall (λ o : report, o.2 ≠ 0) h.

Lemma failing_snoc h o :
  failing (h ++ [o]) = match o.1 with None => [] | Some _ => failing h ++ [o.2] end.
Proof. unfold failing. by rewrite foldl_app. Qed.

Lemma streak_after_snoc h o : streak_after (h ++ [o]) = (observe (streak_after h) o.1 o.2).1.
Proof. unfold streak_after. by rewrite foldl_app. Qed.

(** What the state records of a history whose clock never reads the zero time. *)
Definition streak_of (ts : list time_t) : failureStreak :=
  match ts with [] => healthy_streak | t :: _ => Streak t (existsb (overdue t) ts) end.

Lemma overdue_self t : overdue t t = false.
Proof. unfold overdue, Sub. rewrite Z.sub_diag. reflexivity. Qed.

Lemma observe_failing ts e now : Forall (λ t, t ≠ 0) ts → now ≠ 0 →
  let first := hd now ts in
  observe (streak_of ts) (Some e) now =
  (streak_of (ts ++ [now]), (negb (overdue first now), overdue first now && negb (existsb (overdue first) ts))).
Proof.
  intros Hts Hnow. unfold observe. destruct ts as [|t ts]; cbn [streak_of hd since withheld healthy_streak existsb app].
  - unfold IsZero. cbn [Z.eqb]. cbn [since withheld]. pose proof (overdue_self now) as Hself.
    rewrite Hself. unfold overdue in Hself. rewrite Z.ltb_antisym, Hself. reflexivity.
  - inversion_clear Hts. unfold IsZero. rewrite (proj2 (Z.eqb_neq t 0)) by done. cbn [since withheld].
    rewrite Z.ltb_antisym. change (withholdWatchdogAfter <=? Sub now t) with (overdue t now).
    rewrite existsb_app, (overdue_self t). cbn [existsb orb]. rewrite orb_false_r.
    destruct (overdue t now); cbn [negb andb]; [rewrite orb_true_r|by rewrite orb_false_r].
    by destruct (existsb (overdue t) ts) eqn:E; cbn in E |- *; rewrite ?E.
Qed.

Lemma failing_nonzero h : ticking h → Forall (λ t, t ≠ 0) (failing h).
Proof.
  induction h as [|o h IH] using rev_ind; [constructor|]. intros [Hh Ho]%Forall_app.
  rewrite Forall_singleton in Ho. rewrite failing_snoc. destruct (o.1); [|constructor].
  apply Forall_app. split; [by apply IH|by repeat constructor].
Qed.

Lemma streak_after_of h : ticking h → streak_after h = streak_of (failing h).
Proof.
  induction h as [|[err now] h IH] using rev_ind; [done|]. intros [Hh Ho]%Forall_app.
  rewrite Forall_singleton in Ho. rewrite streak_after_snoc, failing_snoc, IH by done. cbn [fst snd].
  destruct err as [e|]; [|done]. by rewrite observe_failing by (done || by apply failing_nonzero).
Qed.

(** The times [failing] lists are the whole of the last failing run: nothing in
    it succeeded, and a success (or the start) is what came before it. *)
Lemma failing_split h :
  ∃ pre post, h = pre ++ post ∧ failing h = post.*2 ∧ Forall (λ o : report, is_Some o.1) post ∧
    (pre = [] ∨ ∃ pre' t, pre = pre' ++ [(None, t)]).
Proof.
  induction h as [|[err now] h (pre & post & -> & Hf & Hpost & Hpre)] using rev_ind.
  { exists [], []. split_and!; [done..|by left]. }
  rewrite failing_snoc, Hf. destruct err as [e|]; cbn [fst snd].
  - exists pre, (post ++ [(Some e, now)]). rewrite (assoc_L (++)), fmap_app. split_and!; [done..| |done].
    apply Forall_app. split; [done|]. by repeat constructor.
  - exists ((pre ++ post) ++ [(None, now)]), []. rewrite app_nil_r. split_and!; [done..|]. right. by exists (pre ++ post), now.
Qed.

(** A report's outcome earns a ping unless it failed and the first failure
    of the current run of failures is an hour old; the agent says it withheld
    the ping at the first such report of the run and at no other.  What counts
    is time, so the answer does not depend on how many reports failed. *)
Theorem observe_exact (h : list report) (err : option string) (now : time_t) :
  ticking h → now ≠ 0 →
  let first := hd now (failing h) in
  (observe (streak_after h) err now).2 =
  match err with
  | None => (true, false)
  | Some _ => (negb (overdue first now), overdue first now && negb (existsb (overdue first) (failing h)))
  end.
Proof.
  intros Hh Hnow first. rewrite streak_after_of by done. destruct err as [e|]; [|done].
  by rewrite observe_failing by (done || by apply failing_nonzero).
Qed.

Definition incident : list report :=
  [(None, 1 * Hour); (Some "deadline", 2 * Hour); (Some "deadline", 2 * Hour + 30 * Minute)].

Example observe_exact_witness :
  (observe (streak_after incident) (Some "deadline") (3 * Hour)).2 = (false, true).
Proof.
  assert (ticking incident) as Ht by (repeat constructor; discriminate).
  etrans; [exact (observe_exact incident (Some "deadline") (3 * Hour) Ht ltac:(discriminate))|reflexivity].
Defined.

(** ** A whole run

    [obs n] is the [n]th report of an agent that is never stopped. *)

Section run.
Context (obs : nat → report).

Definition history (n : nat) : list report := obs <$> seq 0 n.
Definition pings (n : nat) : bool := (observe (streak_after (history n)) (obs n).1 (obs n).2).2.1.
Definition failed_at (n : nat) : Prop := is_Some (obs n).1.

Lemma history_S n : history (S n) = history n ++ [obs n].
Proof. unfold history. by rewrite seq_S, fmap_app. Qed.

(** What the agent sends after report [n]. *)
Definition said (w : option watchdog) (wrote : result string unit) (n : nat) : list signal :=
  (after_report (streak_after (history n)) w (obs n).1 (obs n).2 wrote).2.

Lemma said_ping w wrote n : Datagram "WATCHDOG=1" ∈ said (Some w) wrote n ↔ pings n = true.
Proof.
  unfold said, after_report, pings. destruct (observe _ _ _) as [s' [send just]]. cbn [fst snd].
  assert (∀ l : list signal, (∀ x, x ∈ l → ∃ y, x = Warn y) → Datagram "WATCHDOG=1" ∉ l) as Hw by (intros l H Hx; by destruct (H _ Hx)).
  assert (Datagram "WATCHDOG=1" ∉ match (obs n).1 with Some e => [Warn (LReportFailed e)] | None => [] end) as H1 by (apply Hw; destruct (obs n).1; set_solver).
  assert (Datagram "WATCHDOG=1" ∉ if just && bool_decide (is_Some (Some w)) then [Warn (LWithheld (since s'))] else []) as H2 by (apply Hw; case_if; set_solver).
  destruct send; [|split; [intros [?|[?|?%elem_of_nil]%elem_of_app]%elem_of_app; done|done]].
  split; [done|intros _]. unfold ping. destruct wrote; [|destruct (w_failed w)]; cbn [snd]; rewrite !elem_of_app; do 2 right; by left.
Qed.

Context (clock_ticks : ∀ n, (obs n).2 ≠ 0).
Context (clock_forward : ∀ n, (obs n).2 ≤ (obs (S n)).2).

Lemma history_ticking n : ticking (history n).
Proof. apply Forall_fmap, Forall_true. intros k. apply clock_ticks. Qed.

Lemma clock_mono n m : (n ≤ m)%nat → (obs n).2 ≤ (obs m).2.
Proof. induction 1 as [|m _ IH]; [lia|]. specialize (clock_forward m). lia. Qed.

Lemma pings_spec n :
  pings n = match (obs n).1 with None => true | Some _ => negb (overdue (hd (obs n).2 (failing (history n))) (obs n).2) end.
Proof.
  unfold pings. rewrite streak_after_of by apply history_ticking. destruct (obs n).1 as [e|]; [|done].
  by rewrite observe_failing by (apply clock_ticks || apply failing_nonzero, history_ticking).
Qed.

(** Failing from [n0] on, the run of failures has a start no later than [n0]'s
    report. *)
Lemma failing_from n0 n : (n0 ≤ n)%nat → (∀ k, (n0 ≤ k < n)%nat → failed_at k) →
  hd (obs n).2 (failing (history n)) ≤ (obs n0).2.
Proof.
  induction 1 as [|n Hn IH]; intros Hf.
  - destruct (failing (history n0)) as [|t ts] eqn:E; cbn [hd]; [lia|].
    destruct (failing_split (history n0)) as (pre & post & Hh & Hp & _).
    assert (t ∈ failing (history n0)) as Ht by (rewrite E; by left).
    rewrite Hp in Ht. apply list_elem_of_fmap in Ht as (o & -> & Ho).
    assert (o ∈ history n0) as Ho' by (rewrite Hh; apply elem_of_app; by right).
    apply list_elem_of_fmap in Ho' as (k & -> & Hk%elem_of_seq). apply clock_mono. lia.
  - rewrite history_S, failing_snoc. destruct (Hf n ltac:(lia)) as [e He]. rewrite He.
    destruct (failing (history n)) as [|t ts] eqn:E; cbn [app hd] in *; apply IH; intros k Hk; apply Hf; lia.
Qed.

(** The report [n] that is refused its ping failed, and so did every report of
    an hour before it. *)
Lemma refused n : pings n = false → failed_at n ∧ ∃ m, (m ≤ n)%nat ∧ Hour ≤ Sub (obs n).2 (obs m).2 ∧ ∀ k, (m ≤ k ≤ n)%nat → failed_at k.
Proof.
  rewrite pings_spec. destruct (obs n).1 as [e|] eqn:He; [|done]. intros Hover%negb_false_iff.
  assert (failed_at n) as Hn by (unfold failed_at; rewrite He; eauto).
  split; [done|]. destruct (failing_split (history n)) as (pre & post & Hh & Hp & Hpost & _).
  rewrite Hp in Hover. destruct post as [|o post]; cbn [fmap list_fmap hd] in Hover; [by rewrite overdue_self in Hover|].
  assert (history n !! length pre = Some o) as Hlk by (rewrite Hh; by apply list_lookup_middle).
  apply list_lookup_fmap_Some in Hlk as (m & -> & [Hm Hlt]%lookup_seq). cbn in Hm. subst m.
  exists (length pre). split; [lia|]. split; [unfold overdue in Hover; bool_simpl; exact Hover|].
  intros k Hk. destruct (decide (k = n)) as [->|]; [done|].
  assert (history n !! k = Some (obs k)) as Hk' by (unfold history; rewrite list_lookup_fmap, lookup_seq_lt by lia; done).
  rewrite Hh, lookup_app_r in Hk' by lia. exact (Forall_lookup_1 _ _ _ _ Hpost Hk').
Qed.

Lemma hour_apart a b : withholdWatchdogAfter ≤ Sub a b ↔ b + 3600 * 1000000000 ≤ a.
Proof.
  unfold Sub, clamp64, withholdWatchdogAfter, int64_max, int64_min. change Hour with 3600000000000. change (3600 * 1000000000) with 3600000000000. lia.
Qed.

(** C40. The agent's pings are withheld for lasting failure, and only for it.  A
    report is followed by no ping exactly when it failed, and so did every one
    since one that is an hour older at least.  So an agent whose every report
    fails from some point on is silent from an hour later, for ever (and systemd
    restarts it); it is silent for ever only if its reports fail for ever; and
    no number of failures within an hour silences it. *)
Theorem withheld_eventually w wrote : let silent n := Datagram "WATCHDOG=1" ∉ said (Some w) (wrote n) n in
  (∀ n, silent n ↔ ∃ m, (m ≤ n)%nat ∧ (∀ k, (m ≤ k ≤ n)%nat → failed_at k) ∧ (obs m).2 + 3600 * 1000000000 ≤ (obs n).2) ∧
  ((∀ T, ∃ n, T ≤ (obs n).2) →
   (∃ n0, ∀ n, (n0 ≤ n)%nat → failed_at n) ↔ (∃ N, ∀ n, (N ≤ n)%nat → silent n)).
Proof.
  intros silent.
  assert (∀ n, silent n ↔ ∃ m, (m ≤ n)%nat ∧ (∀ k, (m ≤ k ≤ n)%nat → failed_at k) ∧ (obs m).2 + 3600 * 1000000000 ≤ (obs n).2) as Hs.
  { intros n. unfold silent. rewrite said_ping, not_true_iff_false. split.
    - intros (_ & m & Hm & Hh%hour_apart & Hf)%refused. by exists m.
    - intros (m & Hm & Hf & Hh). rewrite pings_spec. destruct (Hf n ltac:(lia)) as [e ->]. apply negb_false_iff, Z.leb_le, hour_apart.
      pose proof (failing_from m n Hm (λ k Hk, Hf k ltac:(lia))). lia. }
  split; [exact Hs|]. intros Hunbounded. split.
  - intros [n0 Hf]. destruct (Hunbounded ((obs n0).2 + 3600 * 1000000000)) as [N HN].
    exists (Nat.max n0 N). intros n Hn. apply Hs. exists n0. split_and!; [lia|intros; apply Hf; lia|]. pose proof (clock_mono N n ltac:(lia)). lia.
  - intros [N HN]. exists N. intros n Hn. apply HN, Hs in Hn as (m & Hm & Hf & _). apply Hf. lia.
Qed.
End run.

(** A clock that advances an hour and a half per report, and reports that all fail. *)
Definition wedged (n : nat) : report := (Some "timeout", (Z.of_nat n + 1) * (90 * Minute)).

Lemma wedged_silent : let said := said wedged (Some (Watchdog Hour false)) (Ok tt) in
  Datagram "WATCHDOG=1" ∈ said 0%nat ∧ Datagram "WATCHDOG=1" ∉ said 1%nat ∧ ∃ N, ∀ n, (N ≤ n)%nat → Datagram "WATCHDOG=1" ∉ said n.
Proof.
  assert (∀ n, (wedged n).2 = Z.of_nat n * 5400000000000 + 5400000000000) as Hw.
  { intros n. unfold wedged. cbn [snd]. change (90 * Minute) with 5400000000000. lia. }
  destruct (withheld_eventually wedged) with (w := Watchdog Hour false) (wrote := λ _ : nat, @Ok string unit tt) as [H1 H2].
  - intros n. rewrite Hw. lia.
  - intros n. rewrite !Hw. lia.
  - split; [apply (said_ping wedged (Watchdog Hour false) (Ok tt) 0%nat); vm_compute; reflexivity|]. split.
    + apply H1. exists 0%nat. split_and!; [lia|intros; by eexists|rewrite !Hw; lia].
    + apply H2.
      * intros T. exists (Z.to_nat T). rewrite Hw. lia.
      * exists 0%nat. intros n _. unfold failed_at, wedged. cbn [fst]. by eexists.
Defined.
