(* ===== verification/NodeAgent.v ===== *)
(** The host-side daemon: src/internal/nodeagent/nodeagent.go, spec.go and
    motd.go, and the probe runner of src/internal/hoststatus/probe.go.

    The agent's loops share one database handle behind one lock ([conn]); a
    [trip] is what one of them does while it holds it.  The lock serialises
    trips, so a run of the agent is any sequence of them.  Every answer of the
    outside (the database, the disk, the clock, systemd's socket, a probe) is
    an argument; what the agent did is the list of [event]s it returns. *)

From Stdlib Require Import String ZArith Lia.
From S2P Require Import Prelude GoStrings GoFormat Motd HwSpec Watchdog.
Open Scope Z_scope.

(** ** Data *)

Definition handle : Type := Z.

Record ServerStatus := {
  st_Hostname : string; st_AgentVersion : string; MountCount : option Z; CollectMs : option Z;
}.

Record component := { cp_Version : string; cp_Package : string; cp_Active : bool; cp_Service : bool }.

Record ProbeResult := {
  pr_Kind : string; pr_Detected : bool; pr_Roles : list string; pr_ActiveRoles : list string;
  pr_Components : gmap string component; pr_Details : gmap string string; pr_Err : option string; pr_ObservedAt : time_t;
}.

Record Capability := {
  ca_Hostname : string; ca_Kind : string; ca_Role : string; ca_Detected : bool; ca_Active : bool;
  ca_Components : gmap string component; ca_Details : gmap string string;
}.

Record ServerSpec := { ss_Hostname : string; ss_Source : string; ss_Spec : Spec; ss_Collector : string }.

Definition SpecSourceAgent : string := "agent".

(** A use of the database, with its answer. *)
Inductive call :=
| Open (ans : result string handle)
| Upsert (h : handle) (s : ServerStatus) (ans : result string bool)
| Replace (h : handle) (hostname kind : string) (caps : list Capability) (ans : result string bool)
| RecordError (h : handle) (hostname kind message : string) (ans : result string unit)
| Farms (h : handle) (hostname : string) (ans : result string (list FarmTopology))
| UpsertSpec (h : handle) (s : ServerSpec) (ans : result string bool).

Inductive message :=
| SlowCollect (took : duration) (mounts : string)
| Ignored (hostname : string)
| Reporting (hostname : string)
| ProbeFailed (kind err : string)
| SpecFailed (err : string) | SpecWriteFailed (err : string)
| MotdReadFailed (err : string) | MotdWriteFailed (path err : string) | MotdUpdated (path : string).

(** [Db b c]: the call [c] under a deadline of [b]. *)
Inductive event :=
| Db (budget : duration) (c : call)
| Close (h : handle)
| Say (m : message).

(** ** The shared connection *)

Record conn := { attempt : duration; handle_of : option handle; healthy : bool }.

Definition statusAttempt : duration := 15 * Second.
Definition budget (c : conn) : duration := if attempt c <=? 0 then statusAttempt else attempt c.

Definition closeLocked (c : conn) : conn * list event :=
  ({| attempt := attempt c; handle_of := None; healthy := false |},
   match handle_of c with Some h => [Close h] | None => [] end).

Definition dropOnFailure : bool := true.
Definition keepOnFailure : bool := false.

(** What a trip does with a live handle: its error, the health flag it leaves,
    and its events. *)
Definition operation : Type := duration → handle → bool → option string * bool * list event.

(** [open] is the answer of opening a handle, if one is needed. *)
Definition withSink (c : conn) (drop : bool) (open : result string handle) (fn : operation) : option string * conn * list event :=
  let b := budget c in
  let '(got, opened) :=
    match handle_of c with Some h => (Ok h, []) | None => (open, [Db b (Open open)]) end in
  match got with
  | Err e => (Some e, c, opened)
  | Ok h =>
      let '(err, ok, evs) := fn b h (healthy c) in
      let c1 := {| attempt := attempt c; handle_of := Some h; healthy := ok |} in
      match err with
      | None => (None, c1, opened ++ evs)
      | Some e =>
          if drop then let '(c2, closing) := closeLocked c1 in (Some e, c2, opened ++ evs ++ closing)
          else (Some e, c1, opened ++ evs)
      end
  end.

(** ** The heartbeat's trip *)

Definition slowCollect : duration := 2 * Second.

Definition mountsFor (s : ServerStatus) : string :=
  match MountCount s with None => "an unknown number of" | Some n => Itoa n end.

(** [d.Round(time.Millisecond)]. *)
Definition RoundMs (d : duration) : duration :=
  let r := Z.abs (Z.rem d Millisecond) in
  if d <? 0 then if r + r <? Millisecond then d + r else Z.max int64_min (d - Millisecond + r)
  else if r + r <? Millisecond then d - r else Z.min int64_max (d + Millisecond - r).

(** [status] is what was collected, in [took]. *)
Definition reportStatus (hostname version : string) (mounts : option Z) (took : duration) (ans : result string bool) : operation :=
  λ b h ok,
    let status := {| st_Hostname := hostname; st_AgentVersion := version; MountCount := mounts;
                     CollectMs := Some (Z.quot took Millisecond) |} in
    let slow := if slowCollect <=? took then [Say (SlowCollect (RoundMs took) (mountsFor status))] else [] in
    let called := [Db b (Upsert h status ans)] in
    match ans with
    | Err e => (Some e, false, slow ++ called)
    | Ok false => (None, ok, slow ++ called ++ [Say (Ignored hostname)])
    | Ok true => (None, true, slow ++ called ++ (if ok then [] else [Say (Reporting hostname)]))
    end.

(** ** The capability trip *)

Definition capability (hostname : string) (res : ProbeResult) (role : string) : Capability :=
  {| ca_Hostname := hostname; ca_Kind := pr_Kind res; ca_Role := role; ca_Detected := pr_Detected res;
     ca_Active := slices_Contains (pr_ActiveRoles res) role; ca_Components := pr_Components res; ca_Details := pr_Details res |}.

Definition roles_to_file (res : ProbeResult) : list string :=
  match pr_Roles res with [] => ["none"] | rs => rs end.

Definition err_of {A} (r : result string A) : option string := match r with Ok _ => None | Err e => Some e end.

(** [recorded] and [replaced] are the answers of the two writes. *)
Definition reportCapability (hostname : string) (res : ProbeResult) (recorded : result string unit) (replaced : result string bool) : operation :=
  λ b h ok,
    match pr_Err res with
    | Some e => (err_of recorded, ok, [Db b (RecordError h hostname (pr_Kind res) e recorded)])
    | None => (err_of replaced, ok, [Db b (Replace h hostname (pr_Kind res) (capability hostname res <$> roles_to_file res) replaced)])
    end.

(** *** Running the probes: hoststatus.RunProbes *)

Inductive collected := Panicked (v : string) | Returned (r : ProbeResult).

Record probe := { p_Kind : string; p_Collect : duration → collected }.

Definition runOne (p : probe) (timeout : duration) (now : time_t) : ProbeResult :=
  match p_Collect p timeout with
  | Panicked v =>
      {| pr_Kind := p_Kind p; pr_Detected := false; pr_Roles := []; pr_ActiveRoles := []; pr_Components := ∅; pr_Details := ∅;
         pr_Err := Some ("probe panicked: " +:+ v); pr_ObservedAt := now |}
  | Returned r =>
      {| pr_Kind := if String.eqb (pr_Kind r) "" then p_Kind p else pr_Kind r; pr_Detected := pr_Detected r; pr_Roles := pr_Roles r;
         pr_ActiveRoles := pr_ActiveRoles r; pr_Components := pr_Components r; pr_Details := pr_Details r; pr_Err := pr_Err r;
         pr_ObservedAt := if IsZero (pr_ObservedAt r) then now else pr_ObservedAt r |}
  end.

Definition probeTimeout : duration := 90 * Second.

(** [nows] are the clock's answers, one per probe. *)
Definition RunProbes (probes : list probe) (timeout : duration) (nows : nat → time_t) : list ProbeResult :=
  imap (λ i p, runOne p timeout (nows i)) probes.

(** ** Trips *)

Record heartbeat_in := { hb_open : result string handle; hb_mounts : option Z; hb_took : duration; hb_upserted : result string bool }.
Record capability_in := { cb_open : result string handle; cb_recorded : result string unit; cb_replaced : result string bool }.

Inductive trip :=
| THeartbeat (i : heartbeat_in)
| TCapability (res : ProbeResult) (i : capability_in)
| TMotd (open : result string handle) (farms : result string (list FarmTopology))
| TSpec (open : result string handle) (sp : Spec) (upserted : result string bool).

Record Agent := {
  a_Hostname : string; a_Version : string; a_Interval : duration; ProbeInterval : duration;
  MOTDPath : string; MOTDHeader : string; MOTDManagedBy : string; MOTDColor : bool; SpecDisabled : bool; a_attempt : duration;
}.

Section agent.
Context (a : Agent).

Definition fresh : conn := {| attempt := a_attempt a; handle_of := None; healthy := false |}.

Definition read_farms (farms : result string (list FarmTopology)) : operation :=
  λ b h ok, (err_of farms, ok, [Db b (Farms h (a_Hostname a) farms)]).

Definition write_spec (sp : Spec) (upserted : result string bool) : operation :=
  λ b h ok, (err_of upserted, ok, [Db b (UpsertSpec h {| ss_Hostname := a_Hostname a; ss_Source := SpecSourceAgent; ss_Spec := sp;
                                                          ss_Collector := a_Version a |} upserted)]).

Definition take_trip (c : conn) (t : trip) : option string * conn * list event :=
  match t with
  | THeartbeat i => withSink c dropOnFailure (hb_open i) (reportStatus (a_Hostname a) (a_Version a) (hb_mounts i) (hb_took i) (hb_upserted i))
  | TCapability res i => withSink c keepOnFailure (cb_open i) (reportCapability (a_Hostname a) res (cb_recorded i) (cb_replaced i))
  | TMotd open farms => withSink c keepOnFailure open (read_farms farms)
  | TSpec open sp upserted => withSink c keepOnFailure open (write_spec sp upserted)
  end.

(** Any sequence of trips: the order in which the loops got the lock. *)
Definition run_trips (c : conn) (ts : list trip) : conn * list event :=
  foldl (λ '(c, evs) t, let '(_, c', evs') := take_trip c t in (c', evs ++ evs')) (c, []) ts.

(** The daemon, from its start to the [close] of [Run]. *)
Definition daemon (ts : list trip) : list event :=
  let '(c, evs) := run_trips fresh ts in evs ++ (closeLocked c).2.

(** ** The passes of the loops *)

Definition report (c : conn) (i : heartbeat_in) : option string * conn * list event := take_trip c (THeartbeat i).

(** One beat of [heartbeatLoop]: the report, then the ping. *)
Definition beat (c : conn) (s : failureStreak) (w : option watchdog) (i : heartbeat_in) (now : time_t) (wrote : result string unit)
    : conn * failureStreak * option watchdog * list event * list signal :=
  let '(err, c', evs) := report c i in
  let '(s', w', sigs) := after_report s w err now wrote in
  (c', s', w', evs, sigs).

Definition capabilityPass (c : conn) (probes : list probe) (nows : nat → time_t) (ins : nat → capability_in) : conn * list event :=
  foldl (λ '(c, evs) '(i, res),
           let '(err, c', evs') := take_trip c (TCapability res (ins i)) in
           (c', evs ++ evs' ++ match err with Some e => [Say (ProbeFailed (pr_Kind res) e)] | None => [] end))
        (c, []) (imap pair (RunProbes probes probeTimeout nows)).

(** [existing] is the banner file's content, [d] the disk's answers. *)
Definition motdPass (c : conn) (hw : list string) (open : result string handle) (farms : result string (list FarmTopology))
    (existing : option string) (d : disk) : conn * list event * option string :=
  if String.eqb (MOTDPath a) "" then (c, [], existing)
  else
    let '(err, c', evs) := take_trip c (TMotd open farms) in
    match err, farms with
    | Some e, _ => (c', evs ++ [Say (MotdReadFailed e)], existing)
    | None, Err _ => (c', evs, existing)
    | None, Ok fs =>
        let content := Render {| Header := MOTDHeader a; ManagedBy := MOTDManagedBy a; Self := a_Hostname a; Color := MOTDColor a; Hardware := hw |} fs in
        if String.eqb content "" then (c', evs, existing)
        else match Sync existing d content with
        | (_, Some e, after) => (c', evs ++ [Say (MotdWriteFailed (MOTDPath a) e)], after)
        | (true, None, after) => (c', evs ++ [Say (MotdUpdated (MOTDPath a))], after)
        | (false, None, after) => (c', evs, after)
        end
    end.

(** What the hardware collector answers. *)
Inductive spec_answer := Guest | Unreadable (e : string) | Machine (sp : Spec).

Definition specPass (c : conn) (ans : spec_answer) (open : result string handle) (upserted : result string bool) : conn * list event :=
  match ans with
  | Guest => (c, [])
  | Unreadable e => (c, [Say (SpecFailed e)])
  | Machine sp =>
      let '(err, c', evs) := take_trip c (TSpec open sp upserted) in
      (c', evs ++ match err with Some e => [Say (SpecWriteFailed e)] | None => [] end)
  end.

(** ** One of each: [Run] under [--once] *)

Record once_in := {
  on_beat : heartbeat_in; on_probes : list probe; on_nows : nat → time_t; on_capability : nat → capability_in;
  on_hw : list string; on_motd_open : result string handle; on_farms : result string (list FarmTopology);
  on_existing : option string; on_disk : disk; on_spec : spec_answer; on_spec_open : result string handle; on_spec_upserted : result string bool;
}.

(** [has_sink] is whether the agent was given a way to open a sink. *)
Definition run_once (has_sink : bool) (i : once_in) : option string * list event :=
  if String.eqb (a_Hostname a) "" then (Some "hostname is required", [])
  else if negb has_sink then (Some "no way to reach the database", [])
  else
    let '(err, c1, evs1) := report fresh (on_beat i) in
    let '(c2, evs2) := if 0 <? ProbeInterval a then capabilityPass c1 (on_probes i) (on_nows i) (on_capability i) else (c1, []) in
    let '(c3, evs3, _) :=
      if negb (String.eqb (MOTDPath a) "") then motdPass c2 (on_hw i) (on_motd_open i) (on_farms i) (on_existing i) (on_disk i)
      else (c2, [], on_existing i) in
    let '(c4, evs4) := if negb (SpecDisabled a) then specPass c3 (on_spec i) (on_spec_open i) (on_spec_upserted i) else (c3, []) in
    (err, evs1 ++ evs2 ++ evs3 ++ evs4 ++ (closeLocked c4).2).
End agent.

(** ** The handle's protocol

    [expect st evs] reads the events against the one handle that may be open:
    it is opened only when none is, used and closed only while it is the open
    one. *)

Definition call_handle (c : call) : option handle :=
  match c with
  | Open _ => None
  | Upsert h _ _ | Replace h _ _ _ _ | RecordError h _ _ _ _ | Farms h _ _ | UpsertSpec h _ _ => Some h
  end.

Definition expect1 (st : option handle) (e : event) : option (option handle) :=
  match e with
  | Say _ => Some st
  | Close h => if decide (st = Some h) then Some None else None
  | Db _ (Open ans) => match st, ans with None, Ok h => Some (Some h) | None, Err _ => Some None | Some _, _ => None end
  | Db _ c => if decide (st = call_handle c) then Some st else None
  end.

Fixpoint expect (st : option handle) (evs : list event) : option (option handle) :=
  match evs with
  | [] => Some st
  | e :: evs => match expect1 st e with Some st' => expect st' evs | None => None end
  end.

Lemma expect_app st evs1 evs2 : expect st (evs1 ++ evs2) = expect st evs1 ≫= λ st', expect st' evs2.
Proof. revert st. induction evs1 as [|e evs1 IH]; intros st; [done|]. cbn. by destruct (expect1 st e). Qed.

(** What [withSink] asks of an operation: it uses the handle it was given. *)
Definition well_behaved (fn : operation) : Prop := ∀ b h ok, expect (Some h) (fn b h ok).2 = Some (Some h).

Lemma withSink_expect c drop open fn : well_behaved fn →
  let '(_, c', evs) := withSink c drop open fn in expect (handle_of c) evs = Some (handle_of c').
Proof.
  intros Hfn. unfold withSink.
  assert (∀ h st opened, expect st opened = Some (Some h) →
    let '(_, c', evs) := (let '(err, ok, evs) := fn (budget c) h (healthy c) in
      let c1 := {| attempt := attempt c; handle_of := Some h; healthy := ok |} in
      match err with
      | None => (None, c1, opened ++ evs)
      | Some e => if drop then let '(c2, closing) := closeLocked c1 in (Some e, c2, opened ++ evs ++ closing) else (Some e, c1, opened ++ evs)
      end) in expect st evs = Some (handle_of c')) as H.
  { intros h st opened Ho. specialize (Hfn (budget c) h (healthy c)). destruct (fn _ _ _) as [[err ok] evs]. cbn [snd] in Hfn.
    destruct err as [e|]; [destruct drop|]; cbn [closeLocked handle_of attempt healthy].
    all: rewrite !expect_app, Ho; cbn [mbind option_bind]; try rewrite expect_app; rewrite Hfn; cbn; by rewrite ?decide_True by done. }
  destruct (handle_of c) as [h|] eqn:E; [by apply H|].
  destruct open as [h|e]; [by apply H|]. cbn. by rewrite E.
Qed.

Ltac well_behaved := intros b h ok; cbv beta delta [reportStatus reportCapability read_farms write_spec]; repeat case_match; simplify_eq; cbn;
  repeat (rewrite decide_True by done; cbn); done.

Lemma reportStatus_behaved hn v m took ans : well_behaved (reportStatus hn v m took ans).
Proof. well_behaved. Qed.
Lemma reportCapability_behaved hn res r1 r2 : well_behaved (reportCapability hn res r1 r2).
Proof. well_behaved. Qed.
Lemma read_farms_behaved a farms : well_behaved (read_farms a farms).
Proof. well_behaved. Qed.
Lemma write_spec_behaved a sp u : well_behaved (write_spec a sp u).
Proof. well_behaved. Qed.
#[export] Hint Resolve reportStatus_behaved reportCapability_behaved read_farms_behaved write_spec_behaved : vctl.

Lemma take_trip_expect a c t : let '(_, c', evs) := take_trip a c t in expect (handle_of c) evs = Some (handle_of c').
Proof. destruct t; cbn [take_trip]; apply withSink_expect; auto with vctl. Qed.

Lemma run_trips_expect a c ts : expect (handle_of c) (run_trips a c ts).2 = Some (handle_of (run_trips a c ts).1).
Proof.
  unfold run_trips. apply (foldl_invariant (λ _ st, expect (handle_of c) st.2 = Some (handle_of st.1)) _ ts (c, [])); [done|].
  intros seen [c' evs] t H. cbn [fst snd] in *. pose proof (take_trip_expect a c' t) as Ht. destruct (take_trip a c' t) as [[err c''] evs'].
  cbn [fst snd]. by rewrite expect_app, H.
Qed.

(** Whatever order the loops get the lock in, and whatever the database and
    the disk answer, the agent never holds two handles, never uses one it does
    not hold, and has closed every handle it opened when it stops: no pool and
    no credential lease is left without an owner. *)
Theorem handles_accounted (a : Agent) (ts : list trip) : expect None (daemon a ts) = Some None.
Proof.
  unfold daemon. pose proof (run_trips_expect a (fresh a) ts) as H. destruct (run_trips a (fresh a) ts) as [c evs].
  cbn [fst snd] in H. rewrite expect_app. cbn [handle_of fresh] in H. rewrite H. cbn [mbind option_bind closeLocked snd].
  destruct (handle_of c); cbn; [by rewrite decide_True by done|done].
Qed.

(** ** Deadlines and health *)

Definition within (b : duration) (e : event) : Prop := match e with Db b' _ => b' = b | _ => True end.

Record trip_ok (c : conn) (err : option string) (c' : conn) (evs : list event) : Prop := {
  to_attempt : attempt c' = attempt c;
  to_deadline : Forall (within (budget c)) evs;
  to_idle : (handle_of c = None → healthy c = false) → handle_of c' = None → healthy c' = false;
}.

Lemma withSink_ok c drop open fn :
  (∀ b h ok, Forall (within b) (fn b h ok).2) →
  let '(err, c', evs) := withSink c drop open fn in trip_ok c err c' evs.
Proof.
  intros Hfn. unfold withSink.
  assert (∀ h opened, Forall (within (budget c)) opened →
    let '(err, c', evs) := (let '(err, ok, evs) := fn (budget c) h (healthy c) in
      let c1 := {| attempt := attempt c; handle_of := Some h; healthy := ok |} in
      match err with
      | None => (None, c1, opened ++ evs)
      | Some e => if drop then let '(c2, closing) := closeLocked c1 in (Some e, c2, opened ++ evs ++ closing) else (Some e, c1, opened ++ evs)
      end) in trip_ok c err c' evs) as H.
  { intros h opened Ho. specialize (Hfn (budget c) h (healthy c)). destruct (fn _ _ _) as [[err ok] evs]. cbn [snd] in Hfn.
    destruct err as [e|]; [destruct drop|]; cbn [closeLocked handle_of attempt healthy]; split; cbn [attempt handle_of healthy]; try done.
    all: rewrite ?Forall_app; split_and!; try done; by repeat constructor. }
  destruct (handle_of c) as [h|] eqn:E; [apply H; constructor|].
  destruct open as [h|e]; [apply H; by repeat constructor|]. split; [done|by repeat constructor|intros Hi _; by apply Hi].
Qed.

Ltac calls_within := intros b h ok; cbv beta delta [reportStatus reportCapability read_farms write_spec];
  repeat case_match; simplify_eq; cbn; repeat constructor.

Lemma take_trip_ok a c t : let '(err, c', evs) := take_trip a c t in trip_ok c err c' evs.
Proof. destruct t; cbn [take_trip]; apply withSink_ok; calls_within. Qed.

Lemma budget_of c c' : attempt c' = attempt c → budget c' = budget c.
Proof. unfold budget. by intros ->. Qed.

Lemma run_trips_ok a c ts : trip_ok c None (run_trips a c ts).1 (run_trips a c ts).2.
Proof.
  unfold run_trips. apply (foldl_invariant (λ _ st, trip_ok c None st.1 st.2) _ ts (c, [])); [split; cbn; auto|].
  intros seen [c' evs] t [Ha Hd Hi]. cbn [fst snd] in *. pose proof (take_trip_ok a c' t) as Ht. destruct (take_trip a c' t) as [[err c''] evs'].
  destruct Ht as [Ha' Hd' Hi']. split; cbn [fst snd]; [congruence| |auto].
  apply Forall_app. split; [done|]. by rewrite <-(budget_of c c').
Qed.

(** Every use of the database is bounded: each call the agent makes, the
    opening of the connection included, runs under a positive deadline, the
    configured attempt or fifteen seconds, whichever loop makes it and whatever
    the other loops did before. *)
Theorem calls_are_bounded (a : Agent) (ts : list trip) :
  Forall (within (if a_attempt a <=? 0 then 15 * Second else a_attempt a)) (daemon a ts) ∧
  0 < (if a_attempt a <=? 0 then 15 * Second else a_attempt a).
Proof.
  split; [|case_if; bool_simpl; [done|lia]].
  unfold daemon. pose proof (run_trips_ok a (fresh a) ts) as H. destruct (run_trips a (fresh a) ts) as [c evs].
  destruct H as [_ Hd _]. apply Forall_app. split; [exact Hd|]. cbn [closeLocked snd]. destruct (handle_of c); by repeat constructor.
Qed.

(** ** What is said, and what is written *)

(** What a trip says about the host being reported: [None] when it says nothing
    (another loop's trip, or a host the inventory does not know). *)
Definition outcome (t : trip) (err : option string) : option bool :=
  match t with
  | THeartbeat i =>
      match err, hb_upserted i with
      | Some _, _ => Some false
      | None, Ok true => Some true
      | None, _ => None
      end
  | _ => None
  end.

Definition outcomes (a : Agent) (c : conn) (ts : list trip) : conn * bool :=
  foldl (λ '(c, up) t, let '(err, c', _) := take_trip a c t in (c', default up (outcome t err))) (c, false) ts.

Lemma take_trip_health a c t : (handle_of c = None → healthy c = false) →
  let '(err, c', evs) := take_trip a c t in healthy c' = default (healthy c) (outcome t err).
Proof.
  intros Hidle. destruct t as [i|res i|open farms|open sp upserted]; cbn [take_trip outcome]; unfold withSink.
  - destruct (handle_of c) as [h|] eqn:E; [|destruct (hb_open i); [|by rewrite Hidle by done]].
    all: unfold reportStatus; destruct (hb_upserted i) as [[]|e]; done.
  - destruct (handle_of c) as [h|]; [|destruct (cb_open i); [|done]].
    all: unfold reportCapability; destruct (pr_Err res); [destruct (cb_recorded i)|destruct (cb_replaced i)]; done.
  - destruct (handle_of c) as [h|]; [|destruct open; [|done]]. all: unfold read_farms; by destruct farms.
  - destruct (handle_of c) as [h|]; [|destruct open; [|done]]. all: unfold write_spec; by destruct upserted.
Qed.

Lemma outcomes_run a ts : let c := (run_trips a (fresh a) ts).1 in
  outcomes a (fresh a) ts = (c, healthy c) ∧ (handle_of c = None → healthy c = false).
Proof.
  cbn zeta. unfold outcomes, run_trips. induction ts as [|t ts IH] using rev_ind; [done|]. rewrite !foldl_app. cbn [foldl].
  destruct IH as [IH Hi]. rewrite IH. destruct (foldl _ (fresh a, []) ts) as [c evs]. cbn [fst] in *.
  pose proof (take_trip_health a c t Hi) as Hh. pose proof (take_trip_ok a c t) as Hok. destruct (take_trip a c t) as [[err c'] evs'].
  cbn [fst]. split; [by rewrite Hh|]. exact (to_idle _ _ _ _ Hok Hi).
Qed.

(** The log carries transitions.  At any point of any run the agent says it
    reports for the host exactly when this heartbeat was stored and the last
    heartbeat that said anything had failed, or there was none: never on a
    heartbeat that repeats a success, and no other loop's failure counts. *)
Theorem reporting_on_transitions (a : Agent) (ts : list trip) (i : heartbeat_in) :
  let '(c, up) := outcomes a (fresh a) ts in
  let '(err, _, evs) := take_trip a c (THeartbeat i) in
  Say (Reporting (a_Hostname a)) ∈ evs ↔ outcome (THeartbeat i) err = Some true ∧ up = false.
Proof.
  destruct (outcomes_run a ts) as [-> _]. set (c := (run_trips a (fresh a) ts).1). cbn [take_trip outcome]. unfold withSink, reportStatus, dropOnFailure.
  assert (∀ h, Say (Reporting (a_Hostname a)) ∉ [Db (budget c) (Open h)]) as Hopen by set_solver.
  destruct (handle_of c) as [h|]; [|destruct (hb_open i) as [h|e]; [|split; [by intros ?%Hopen|by intros []]]].
  all: destruct (hb_upserted i) as [[]|e]; destruct (healthy c); cbn [closeLocked handle_of]; case_if;
    rewrite ?elem_of_app, ?elem_of_cons, ?elem_of_nil;
    (split; [intros H; decompose [or] H; simplify_eq; done|intros [H1 H2]; simplify_eq; tauto]).
Qed.

(** The rows of one probe's findings. *)
Definition filed (a : Agent) (res : ProbeResult) (e : event) : Prop :=
  ∀ b h hostname kind caps ans, e = Db b (Replace h hostname kind caps ans) →
    pr_Err res = None ∧ hostname = a_Hostname a ∧ kind = pr_Kind res ∧ caps = capability (a_Hostname a) res <$> roles_to_file res.

Lemma capability_trip_filed a c res i : Forall (filed a res) (take_trip a c (TCapability res i)).2.
Proof.
  cbn [take_trip]. unfold withSink, keepOnFailure, reportCapability.
  assert (∀ b h, Forall (filed a res) (match pr_Err res with
    | Some e => (err_of (cb_recorded i), healthy c, [Db b (RecordError h (a_Hostname a) (pr_Kind res) e (cb_recorded i))])
    | None => (err_of (cb_replaced i), healthy c, [Db b (Replace h (a_Hostname a) (pr_Kind res) (capability (a_Hostname a) res <$> roles_to_file res) (cb_replaced i))])
    end).2) as Hop.
  { intros b h. destruct (pr_Err res) as [e|] eqn:E; (constructor; [|constructor]); intros ? ? ? ? ? ? [=]; by subst. }
  assert (∀ b h, filed a res (Db b (Open h))) as Hopen by (by intros ? ? ? ? ? ? ? ?).
  destruct (handle_of c) as [h|]; [|destruct (cb_open i) as [h|e]; [|by repeat constructor]].
  all: specialize (Hop (budget c) h); destruct (pr_Err res); cbn [fst snd] in *; destruct (err_of _); cbn [app];
    repeat first [exact Hop|apply Forall_cons; split; [apply Hopen|]].
Qed.

(** A probe that failed leaves the stored facts alone.  In a pass over any
    probes, whatever they return or panic with, the only rows written are of
    probes that returned without an error, one row per role found (or the one
    that says there is none), never an empty list. *)
Theorem failed_probe_writes_nothing (a : Agent) (c : conn) (probes : list probe) (nows : nat → time_t) (ins : nat → capability_in) :
  let '(_, evs) := capabilityPass a c probes nows ins in
  ∀ b h hostname kind caps ans, Db b (Replace h hostname kind caps ans) ∈ evs →
    hostname = a_Hostname a ∧
    ∃ p r, p ∈ probes ∧ p_Collect p probeTimeout = Returned r ∧ pr_Err r = None ∧ kind ∈ [p_Kind p; pr_Kind r] ∧
      ca_Role <$> caps = match pr_Roles r with [] => ["none"] | rs => rs end ∧
      Forall (λ x, ca_Detected x = pr_Detected r ∧ (ca_Active x = true ↔ ca_Role x ∈ pr_ActiveRoles r)) caps.
Proof.
  unfold capabilityPass. set (results := imap pair _).
  assert (∀ j res, (j, res) ∈ results → ∃ p, p ∈ probes ∧ res = runOne p probeTimeout (nows j)) as Hres.
  { intros j res Hj. unfold results, RunProbes in Hj. apply elem_of_lookup_imap in Hj as (k & res' & [= -> ->] & Hk).
    apply list_lookup_imap_Some in Hk as (p & Hp & ->). exists p. split; [by eapply list_elem_of_lookup_2|done]. }
  clearbody results. set (pass := foldl _ _ _).
  assert (∀ e, e ∈ pass.2 → ∃ res, (∃ j, (j, res) ∈ results) ∧ filed a res e) as H.
  { apply (foldl_invariant (λ seen st, ∀ e, e ∈ st.2 → ∃ res, (∃ j, (j, res) ∈ seen) ∧ filed a res e)); [set_solver|].
    intros seen [c' evs] [j res] IH. pose proof (capability_trip_filed a c' res (ins j)) as Hf.
    destruct (take_trip a c' (TCapability res (ins j))) as [[err c''] evs']. cbn [snd] in *.
    intros e [He|[He|He]%elem_of_app]%elem_of_app.
    - destruct (IH e He) as (r & (k & Hk) & Hr). exists r. split; [exists k; apply elem_of_app; by left|done].
    - exists res. split; [exists j; apply elem_of_app; right; by left|]. rewrite Forall_forall in Hf. by apply Hf.
    - exists res. split; [exists j; apply elem_of_app; right; by left|]. destruct err; [|set_solver].
      apply list_elem_of_singleton in He as ->. by intros ? ? ? ? ? ? ?. }
  clearbody pass. destruct pass as [c' evs]. cbn [snd] in H. intros b h hostname kind caps ans He.
  destruct (H _ He) as (res & (j & Hj) & Hfiled). destruct (Hfiled _ _ _ _ _ _ eq_refl) as (Herr & -> & -> & ->). split; [done|].
  destruct (Hres j res Hj) as (p & Hp & ->). unfold runOne in *. destruct (p_Collect p probeTimeout) as [v|r] eqn:Hc; [done|]. cbn in Herr.
  exists p, r. split_and!; [done..| | |].
  - cbn. destruct (String.eqb (pr_Kind r) ""); set_solver.
  - rewrite <-list_fmap_compose. unfold roles_to_file. cbn [pr_Roles]. by rewrite list_fmap_id.
  - apply Forall_fmap, Forall_true. intros role. cbn. split; [done|]. unfold slices_Contains. apply bool_decide_eq_true.
Qed.
