(* ===== verification/OsProbe.v ===== *)
(** What OpenStack a host runs: src/internal/hoststatus/probes (openstack.go,
    containers.go, keystone.go, horizon.go, vendordata.go) and the words of
    src/internal/hoststatus/vendordata.go.

    A [machine] answers everything the probe asks: files, commands, container
    engine sockets.  A socket's answer is the decoded JSON or an error. *)

From Stdlib Require Import Ascii String ZArith Lia.
From S2P Require Import Prelude GoStrings GoFormat GoURL Motd NodeAgent.
Open Scope Z_scope.

(** ** Data *)

Record containerInfo := { State : string; Image : string }.

Record apiContainer := { Names : list string; api_State : string; api_Image : string }.

Record apiVersion := { av_Version : string; av_Components : list (string * string) }.

(** A command's output and error, if any. *)
Inductive exec_error := NotInstalled (e : string) | ExecFailed (e : string).
Definition exec_text (e : exec_error) : string := match e with NotInstalled t => t | ExecFailed t => t end.

Record machine := {
  m_exists : string → bool; m_isdir : string → bool; m_size : string → option Z; m_read : string → option string;
  m_exec : string → list string → string * option exec_error;
  m_list : string → result string (list apiContainer); m_version : string → option apiVersion;
  m_look : string → bool; confined : bool; operatorNets : list string; m_now : time_t;
}.

(** ** The service table *)

Definition osServices : list (string * string) := [
  ("nova-compute", "compute"); ("nova-conductor", "controller"); ("nova-scheduler", "controller"); ("nova-api", "controller");
  ("placement-api", "controller"); ("neutron-l3-agent", "network"); ("neutron-dhcp-agent", "network");
  ("neutron-openvswitch-agent", "network"); ("neutron-server", "network"); ("ovn-northd", "network"); ("ovn-nb-db", "network");
  ("ovn-sb-db", "network"); ("cinder-volume", "block-storage"); ("cinder-api", "block-storage"); ("cinder-scheduler", "block-storage");
  ("cinder-backup", "block-storage"); ("glance-api", "image"); ("keystone", "identity"); ("heat-engine", "orchestration");
  ("heat-api", "orchestration"); ("octavia-worker", "load-balancer"); ("octavia-api", "load-balancer"); ("horizon", "dashboard");
  ("ovn-controller", ""); ("neutron-ovn-metadata-agent", ""); ("nova-libvirt", "")].

(** ** Versions *)

Definition word_byte (c : ascii) : bool := is_alnum c || Ascii.eqb c "_".

Fixpoint span (p : ascii → bool) (s : string) : string * string :=
  match s with
  | String c s' => if p c then let '(a, b) := span p s' in (String c a, b) else (EmptyString, s)
  | EmptyString => (EmptyString, EmptyString)
  end.

Definition ends_word (s : string) : bool := match s with String c _ => negb (word_byte c) | EmptyString => true end.

Definition dotted (s : string) : option (string * string) :=
  match s with
  | String c s' => if Ascii.eqb c "." then let '(d, r) := span is_digit s' in if String.eqb d "" then None else Some (d, r) else None
  | EmptyString => None
  end.

(** [\b(\d+\.\d+(?:\.\d+)?)\b] at the start of [s], whose last byte was [prev]. *)
Definition version_here (prev : option ascii) (s : string) : option string :=
  if match prev with Some p => word_byte p | None => false end then None
  else
    let '(d1, r1) := span is_digit s in
    if String.eqb d1 "" then None
    else match dotted r1 with
    | None => None
    | Some (d2, r2) =>
        match dotted r2 with
        | Some (d3, r3) => if ends_word r3 then Some (d1 +:+ "." +:+ d2 +:+ "." +:+ d3)
                           else if ends_word r2 then Some (d1 +:+ "." +:+ d2) else None
        | None => if ends_word r2 then Some (d1 +:+ "." +:+ d2) else None
        end
    end.

Fixpoint find_version (prev : option ascii) (s : string) : option string :=
  match version_here prev s, s with
  | Some v, _ => Some v
  | None, String c s' => find_version (Some c) s'
  | None, EmptyString => None
  end.

(** [versionRe.FindStringSubmatch]. *)
Definition versionRe (s : string) : option string := find_version None s.

Definition imageTag (ref : string) : string :=
  match cut_last ":" ref with
  | None => ""
  | Some (_, tag) => if Contains tag "/" then "" else tag
  end.

Definition versionFromImage (image : string) : string :=
  let tag := imageTag image in
  if String.eqb tag "" then "" else match versionRe tag with Some v => v | None => tag end.

Example versions :
  versionFromImage <$> ["172.16.0.11:7777/kolla/nova-compute:2025.1-rocky-9"; "172.16.0.11:7777/kolla/nova-compute"; "nova-compute:260618"; "x:v1.2.3a"] =
  ["2025.1"; ""; "260618"; "v1.2.3a"] ∧
  versionRe "QEMU emulator version 8.2.0 (qemu-8.2.0-11.el9)" = Some "8.2.0".
Proof. vm_compute. done. Qed.

(** ** Containers *)

Definition containerSockets : list (string * string) := [("podman", "/run/podman/podman.sock"); ("docker", "/var/run/docker.sock")].

(** The listing of one socket: [listViaSocket] after decoding. *)
Definition index_of (l : list apiContainer) : gmap string containerInfo :=
  foldl (λ m c, foldl (λ m n, <[TrimPrefix n "/" := {| State := ToLower (api_State c); Image := api_Image c |}]> m) m (Names c)) ∅ l.

(** [engineVersions] after decoding; the empty map is also what the source's
    [nil] reads as. *)
Definition version_map (v : option apiVersion) : gmap string string :=
  match v with
  | None => ∅
  | Some v =>
      let out := if String.eqb (av_Version v) "" then ∅ else {[ "engine" := av_Version v ]} in
      foldl (λ m '(name, version),
               let n := ToLower name in
               if (Contains n "oci runtime" || String.eqb n "runc" || String.eqb n "crun") && negb (String.eqb version "")
               then <["oci-runtime-name" := TrimSpace name]> (<["oci-runtime" := version]> m) else m)
            (out : gmap string string) (av_Components v)
  end.

(** The CLI's answer, a line a container. *)
Definition addContainers (index : gmap string containerInfo) (out : string) : gmap string containerInfo :=
  foldl (λ m line, match Fields line with
                   | name :: state :: _ => match m !! name with
                                           | Some _ => m
                                           | None => <[name := {| State := state; Image := "" |}]> m
                                           end
                   | _ => m
                   end) index (Split (TrimSpace out) nl).

Section probe.
Context (m : machine).

Definition containerEngines : list (string * option string) := [("podman", None); ("docker", Some "/var/run/docker.sock")].
Definition ps_args : list string := ["ps"; "-a"; "--format"; "{{.Names}} {{.State}}"].

(** The loop over the sockets: the index, the failures, whether any exists.
    The first engine's answer for a name is kept. *)
Definition ask_socket (st : gmap string containerInfo * list string * bool) (s : string * string) :=
  let '(index, failures, asked) := st in
  if m_exists m s.2 then
    match m_list m s.2 with
    | Err e => (index, failures ++ [s.1 +:+ " socket: " +:+ e], true)
    | Ok found => (index ∪ index_of found, failures, true)
    end
  else st.

Definition ask_engine (st : gmap string containerInfo * list string) (e : string * option string) :=
  let '(index, failures) := st in
  if match e.2 with Some sock => negb (m_exists m sock) | None => false end then st
  else if confined m then
    if negb (m_look m e.1) then st
    else (index, failures ++ [e.1 +:+ ": installed but its socket is not exposed, and its CLI cannot run inside this agent's unit (enable "
                                +:+ e.1 +:+ ".socket)"])
  else match m_exec m e.1 ps_args with
  | (out, None) => (addContainers index out, failures)
  | (_, Some (NotInstalled _)) => st
  | (_, Some (ExecFailed t)) => (index, failures ++ [e.1 +:+ ": " +:+ t])
  end.

Definition containerIndex : result string (gmap string containerInfo) :=
  let '(index, failures, asked) := foldl ask_socket (∅, [], false) containerSockets in
  let '(index, failures) := if asked : bool then (index, failures) else foldl ask_engine (index, failures) containerEngines in
  match failures with
  | [] => Ok index
  | _ => Err ("could not list containers (" +:+ Join failures "; " +:+ ")")
  end.

(** ** Systemd *)

Fixpoint pair_up (units values : list string) (index : gmap string (string * string)) : gmap string (string * string) :=
  match units, values with
  | u :: units', v1 :: v2 :: values' => pair_up units' values' (<[u := (v1, v2)]> index)
  | _, _ => index
  end.

Definition systemdIndex (units : list string) : gmap string (string * string) :=
  match m_exec m "systemctl" (["show"; "-p"; "LoadState"; "-p"; "ActiveState"; "--value"] ++ units) with
  | (_, Some _) => ∅
  | (out, None) =>
      let values := filter (λ l, l ≠ "") (TrimSpace <$> Split (TrimSpace out) nl) in
      if bool_decide (length values = 2 * length units)%nat then pair_up units values ∅ else ∅
  end.

(** [strings.ReplaceAll(service, "-", "_")]. *)
Definition underscored (s : string) : string := string_map (λ c, if Ascii.eqb c "-" then "_"%char else c) s.

Definition containerNames (service : string) : list string :=
  let under := underscored service in if String.eqb under service then [service] else [under; service].

(** Whether the service runs, was found, and from which image. *)
Definition serviceState (units : gmap string (string * string)) (containers : gmap string containerInfo) (name : string)
    : option (bool * string) :=
  let from_container := (λ c, (String.eqb (State c) "running", Image c)) <$> head (omap (λ n, containers !! n) (containerNames name)) in
  match units !! (name +:+ ".service") with
  | Some (load, active) =>
      if negb (String.eqb load "") && negb (String.eqb load "not-found") then Some (String.eqb active "active", "") else from_container
  | None => from_container
  end.

(** ** The phases of [Collect] *)

Record found := { f_Components : gmap string component; f_Details : gmap string string }.

Definition service_component (active : bool) (image : string) : component :=
  {| cp_Version := versionFromImage image; cp_Package := ""; cp_Active := active; cp_Service := true |}.

Definition add_service (units : gmap string (string * string)) (containers : gmap string containerInfo)
    (st : gmap string component * gset string * gset string) (s : string * string) :=
  let '(comps, roles, active) := st in
  match serviceState units containers s.1 with
  | None => st
  | Some (isActive, image) =>
      let comps := <[s.1 := service_component isActive image]> comps in
      if String.eqb s.2 "" then (comps, roles, active)
      else (comps, {[s.2]} ∪ roles, if isActive then {[s.2]} ∪ active else active)
  end.

Definition collectServices : gmap string component * gset string * gset string * option string :=
  let listed := containerIndex in
  let containers := match listed with Ok ix => ix | Err _ => ∅ end in
  let units := systemdIndex ((λ s : string * string, s.1 +:+ ".service") <$> osServices) in
  (foldl (add_service units containers) (∅, ∅, ∅) osServices, match listed with Ok _ => None | Err e => Some e end).

Definition commandVersion (name : string) (args : list string) : string :=
  match m_exec m name args with
  | (out, err) => if bool_decide (is_Some err) && String.eqb out "" then "" else default "" (versionRe out)
  end.

Definition program (v : string) (daemon : bool) : component :=
  {| cp_Version := v; cp_Package := ""; cp_Active := daemon; cp_Service := daemon |}.

Definition collectHypervisor (r : found) : found :=
  let libvirt := commandVersion "libvirtd" ["--version"] in
  let comps := if String.eqb libvirt "" then f_Components r else <["libvirt" := program libvirt true]> (f_Components r) in
  let qemu := commandVersion "qemu-system-x86_64" ["--version"] in
  let comps := if String.eqb qemu "" then comps else <["qemu" := program qemu false]> comps in
  {| f_Components := comps; f_Details := if m_exists m "/dev/kvm" then <["hypervisor" := "kvm"]> (f_Details r) else f_Details r |}.

Definition engine_found (engine : string) (v : gmap string string) (r : found) : found :=
  let get k := default "" (v !! k) in
  let comps := if String.eqb (get "engine") "" then f_Components r else <[engine := program (get "engine") false]> (f_Components r) in
  if String.eqb (get "oci-runtime") "" then {| f_Components := comps; f_Details := f_Details r |}
  else {| f_Components := <["oci-runtime" := program (get "oci-runtime") false]> comps;
          f_Details := if String.eqb (get "oci-runtime-name") "" then f_Details r
                       else <["oci_runtime" := get "oci-runtime-name"]> (f_Details r) |}.

Fixpoint runtime_of (socks : list (string * string)) (r : found) : found :=
  match socks with
  | [] => r
  | (engine, path) :: socks' =>
      if m_exists m path then
        let v := version_map (m_version m path) in
        if bool_decide (v = ∅) then runtime_of socks' r else engine_found engine v r
      else runtime_of socks' r
  end.

Definition collectRuntime (r : found) : found := runtime_of containerSockets r.
(** ** The deployment's facts *)

Definition maxConfScan : Z := 4194304.

Definition keystoneConfPaths : list string :=
  ["/etc/kolla/nova-compute/nova.conf"; "/etc/kolla/nova-conductor/nova.conf"; "/etc/kolla/nova-api/nova.conf"; "/etc/nova/nova.conf"].

Definition quote_chars : string := String "034" (String "039" "").

Definition normalizeKeystoneURL (raw : string) : string :=
  let raw := Trim raw quote_chars in
  if String.eqb raw "" then ""
  else match ParseURL raw with
  | Some (scheme, host) => if slices_Contains ["http"; "https"] scheme then host else ""
  | None => ""
  end.

(** The first usable [auth_url]; [read] counts the bytes seen. *)
Fixpoint auth_url (lines : list string) (read : Z) : string :=
  match lines with
  | [] => ""
  | line :: lines' =>
      let read := read + Z.of_nat (String.length line) in
      if maxConfScan <? read then ""
      else match Cut line "=" with
      | Some (key, value) =>
          if String.eqb (TrimSpace key) "auth_url" then
            let v := normalizeKeystoneURL (TrimSpace value) in
            if String.eqb v "" then auth_url lines' read else v
          else auth_url lines' read
      | None => auth_url lines' read
      end
  end.

Definition scanForAuthURL (path : string) : string :=
  match m_read m path with None => "" | Some text => auth_url (ScanLines 1048576 text).1 0 end.

Definition keystoneURL : string := FirstNonEmpty (scanForAuthURL <$> keystoneConfPaths).

(** *** Horizon *)

Definition horizonConf : string := "/etc/kolla/haproxy/services.d/horizon.cfg".

Definition onOperatorNetwork (addr : string) (nets : list string) : bool :=
  existsb (λ n, negb (String.eqb n "") && HasPrefix addr n) nets.

Definition horizonRank (reachable tls : bool) : Z := if reachable then if tls then 4 else 3 else if tls then 2 else 1.
Definition horizonScheme (tls : bool) : string := if tls then "https://" else "http://".
Definition trimDefaultPort (addr : string) (tls : bool) : string := TrimSuffix addr (if tls then ":443" else ":80").

Record bind_line := { b_url : string; b_rank : Z }.

Definition parse_bind (line : string) : option bind_line :=
  if HasPrefix line "bind " then
    let rest := TrimPrefix line "bind " in
    match Fields rest with
    | [] => None
    | addr :: _ =>
        let tls := Contains rest " ssl " || HasSuffix rest " ssl" in
        let h := match Cut addr ":" with Some (h, _) => h | None => addr end in
        Some {| b_url := horizonScheme tls +:+ trimDefaultPort addr tls; b_rank := horizonRank (onOperatorNetwork h (operatorNets m)) tls |}
    end
  else None.

Fixpoint scan_binds (lines : list string) (read : Z) (seen : gset string) : list bind_line :=
  match lines with
  | [] => []
  | line :: lines' =>
      let line := TrimSpace line in
      let read := read + Z.of_nat (String.length line) in
      if maxConfScan <? read then []
      else match parse_bind line with
      | Some b => if decide (b_url b ∈ seen) then scan_binds lines' read seen
                  else b :: scan_binds lines' read ({[b_url b]} ∪ seen)
      | None => scan_binds lines' read seen
      end
  end.

Definition by_rank : bind_line → bind_line → bool := less_on (λ x y, y <? x) b_rank.

Definition horizonURLs : list string :=
  match m_read m horizonConf with
  | None => []
  | Some text => b_url <$> sort by_rank (scan_binds (ScanLines MaxScanTokenSize text).1 0 ∅)
  end.

(** *** Vendordata *)

Definition VendordataOn : string := "on".
Definition VendordataOff : string := "off".
Definition VendordataNoFile : string := "config-without-file".
Definition VendordataNoConfig : string := "file-without-config".

Definition metadataServiceDirs : list string := ["/etc/kolla/nova-metadata"; "/etc/kolla/nova-api"].

Fixpoint names_vendordata (lines : list string) (read : Z) : bool :=
  match lines with
  | [] => false
  | line :: lines' =>
      let read := read + Z.of_nat (String.length line) in
      if maxConfScan <? read then false
      else match Cut (TrimSpace line) "=" with
      | Some (key, _) => if String.eqb (TrimSpace key) "vendordata_jsonfile_path" then true else names_vendordata lines' read
      | None => names_vendordata lines' read
      end
  end.

Definition confNamesVendordata (path : string) : bool :=
  match m_read m path with None => false | Some text => names_vendordata (ScanLines MaxScanTokenSize text).1 0 end.

Definition nonEmptyFile (path : string) : bool := match m_size m path with Some n => 0 <? n | None => false end.

(** The state and the service, or nothing for a host that serves no metadata. *)
Definition vendordataState : option (string * string) :=
  match head (filter (λ d, m_isdir m d = true) metadataServiceDirs) with
  | None => None
  | Some dir =>
      let service := TrimPrefix dir "/etc/kolla/" in
      let configured := confNamesVendordata (dir +:+ "/nova.conf") in
      let present := nonEmptyFile (dir +:+ "/vendordata.json") in
      Some (if configured then if present then VendordataOn else VendordataNoFile
            else if present then VendordataNoConfig else VendordataOff, service)
  end.

Definition deploymentIDPath : string := "/etc/openstack/deployment-id".
Definition deploymentID : string := match m_read m deploymentIDPath with None => "" | Some b => TrimSpace b end.

Definition deployment_facts (d : gmap string string) : gmap string string :=
  let keystone := keystoneURL in
  let d := if String.eqb keystone "" then d else <["keystone_url" := keystone]> d in
  let d := match horizonURLs with
           | [] => d
           | u :: us => let d := <["horizon_url" := u]> d in
                        match us with [] => d | _ => <["horizon_alt" := Join us " "]> d end
           end in
  let d := match vendordataState with
           | Some (st, svc) => <["vendordata_service" := svc]> (<["vendordata" := st]> d)
           | None => d
           end in
  let d := <["deployment" := "unknown"]> d in
  let id := deploymentID in
  if String.eqb id "" then d else <["deployment_source" := "declared"]> (<["deployment" := id]> d).

(** ** The whole probe *)

Definition set_version (comps : gmap string component) (v : string) : gmap string component :=
  alter (λ c, {| cp_Version := v; cp_Package := cp_Package c; cp_Active := cp_Active c; cp_Service := cp_Service c |}) "nova-compute" comps.

Definition needs_version (comps : gmap string component) : bool :=
  match comps !! "nova-compute" with Some c => String.eqb (cp_Version c) "" | None => false end.

Definition sorted_set (s : gset string) : list string := sort_strings (elements s).

Definition Collect : ProbeResult :=
  let '(comps, roles, active, containerErr) := collectServices in
  let r := {| f_Components := comps; f_Details := ∅ |} in
  let r := if decide ("compute" ∈ roles) then collectHypervisor r else r in
  let r := collectRuntime r in
  let comps :=
    if needs_version (f_Components r) then
      let v := commandVersion "nova-compute" ["--version"] in
      if String.eqb v "" then f_Components r else set_version (f_Components r) v
    else f_Components r in
  let detected := negb (bool_decide (comps = ∅)) in
  let answer details err :=
    {| pr_Kind := "openstack"; pr_Detected := detected; pr_Roles := sorted_set roles; pr_ActiveRoles := sorted_set active;
       pr_Components := comps; pr_Details := details; pr_Err := err; pr_ObservedAt := m_now m |} in
  match containerErr with
  | Some e =>
      if negb detected then answer (f_Details r) (Some e)
      else answer (deployment_facts (<["container_probe_error" := e]> (f_Details r))) None
  | None => answer (deployment_facts (f_Details r)) None
  end.
End probe.

(** ** What a pass concludes *)

Section conclusions.
Context (m : machine).

Definition containers : gmap string containerInfo := match containerIndex m with Ok ix => ix | Err _ => ∅ end.
Definition units : gmap string (string * string) := systemdIndex m ((λ s : string * string, s.1 +:+ ".service") <$> osServices).

(** A service is on the host, running or not. *)
Definition deployed (name : string) (running : bool) : Prop :=
  ∃ image, serviceState units containers name = Some (running, image).

(** A container engine said what it is. *)
Definition runtime_answered : Prop :=
  ∃ engine path, (engine, path) ∈ containerSockets ∧ m_exists m path = true ∧ version_map (m_version m path) ≠ ∅.

Definition services_ok (seen : list (string * string)) (st : gmap string component * gset string * gset string) : Prop :=
  let '(comps, roles, active) := st in
  (∀ name, is_Some (comps !! name) ↔ ∃ role run, (name, role) ∈ seen ∧ deployed name run) ∧
  (∀ r, r ∈ roles ↔ r ≠ "" ∧ ∃ name run, (name, r) ∈ seen ∧ deployed name run) ∧
  (∀ r, r ∈ active ↔ r ≠ "" ∧ ∃ name, (name, r) ∈ seen ∧ deployed name true).

Lemma add_service_ok seen st s : services_ok seen st → services_ok (seen ++ [s]) (add_service units containers st s).
Proof.
  destruct st as [[comps roles] active], s as [name role]. intros (Hc & Hr & Ha). unfold add_service. cbn [fst snd].
  assert (∀ n r, (n, r) ∈ seen ++ [(name, role)] ↔ (n, r) ∈ seen ∨ (n = name ∧ r = role)) as Hsnoc by set_solver.
  destruct (serviceState units containers name) as [[run image]|] eqn:E.
  - assert (∀ b, deployed name b ↔ b = run) as Hd by (intros b; unfold deployed; rewrite E; naive_solver).
    assert (∀ n, is_Some (<[name := service_component run image]> comps !! n) ↔ ∃ r b, (n, r) ∈ seen ++ [(name, role)] ∧ deployed n b) as Hcomp.
    { intros n. rewrite lookup_insert_is_Some', Hc. setoid_rewrite Hsnoc. split.
      - intros [<-|(r & b & ? & ?)]; [exists role, run; naive_solver|naive_solver].
      - intros (r & b & [?|[-> ->]] & ?); naive_solver. }
    destruct (String.eqb_spec role "") as [->|Hne]; (split; [exact Hcomp|]); setoid_rewrite Hsnoc.
    + split; intros r; [rewrite Hr|rewrite Ha]; naive_solver.
    + destruct run; setoid_rewrite elem_of_union; setoid_rewrite elem_of_singleton; split; intros r; rewrite ?Hr, ?Ha; split; intros H.
      all: repeat match goal with
        | H : _ ∨ _ |- _ => destruct H as [H|H]
        | H : _ ∧ _ |- _ => destruct H
        | H : ∃ _, _ |- _ => destruct H
        end; subst; try naive_solver.
      all: repeat match goal with H : deployed name _ |- _ => apply Hd in H; subst end; naive_solver.
  - assert (∀ b, ¬ deployed name b) as Hd by (intros b; unfold deployed; rewrite E; naive_solver).
    unfold services_ok. setoid_rewrite Hsnoc. split_and!; intros x; [rewrite Hc|rewrite Hr|rewrite Ha]; split; try naive_solver.
    all: intros H; repeat match goal with
        | H : _ ∨ _ |- _ => destruct H as [H|H]
        | H : _ ∧ _ |- _ => destruct H
        | H : ∃ _, _ |- _ => destruct H
        end; subst; try naive_solver; exfalso; naive_solver.
Qed.

Lemma services_run : services_ok osServices (foldl (add_service units containers) (∅, ∅, ∅) osServices).
Proof.
  apply (foldl_invariant services_ok); [|intros; by apply add_service_ok].
  split_and!; intros x; [rewrite lookup_empty|..]; (split; [|set_solver]); [by intros []|set_solver..].
Qed.

Lemma version_map_says v : version_map v ≠ ∅ →
  default "" (version_map v !! "engine") ≠ "" ∨ default "" (version_map v !! "oci-runtime") ≠ "".
Proof.
  unfold version_map. destruct v as [v|]; [|done]. set (out := if String.eqb (av_Version v) "" then ∅ else {[ "engine" := av_Version v ]} : gmap string string).
  assert (∀ l (g : gmap string string), (g ≠ ∅ → default "" (g !! "engine") ≠ "" ∨ default "" (g !! "oci-runtime") ≠ "") →
    let g' := foldl (λ (m : gmap string string) '(name, version), let n := ToLower name in
      if (Contains n "oci runtime" || String.eqb n "runc" || String.eqb n "crun") && negb (String.eqb version "")
      then <["oci-runtime-name" := TrimSpace name]> (<["oci-runtime" := version]> m) else m) g l in
    g' ≠ ∅ → default "" (g' !! "engine") ≠ "" ∨ default "" (g' !! "oci-runtime") ≠ "") as H.
  { induction l as [|[name version] l IH]; intros g Hg; [exact Hg|]. cbn [foldl]. apply IH. cbn zeta.
    case_if; [|exact Hg]. intros _. right. bool_simpl. rewrite lookup_insert_ne, lookup_insert_eq by done. by apply String.eqb_neq. }
  apply H. unfold out. destruct (String.eqb_spec (av_Version v) ""); [done|]. intros _. left. by rewrite lookup_singleton_eq.
Qed.

Lemma engine_found_components engine v r : v ≠ ∅ → (default "" (v !! "engine") ≠ "" ∨ default "" (v !! "oci-runtime") ≠ "") →
  f_Components (engine_found engine v r) ≠ ∅.
Proof.
  intros _ H. unfold engine_found. destruct (String.eqb_spec (default "" (v !! "oci-runtime")) "") as [E|E]; cbn [f_Components]; [|apply insert_non_empty].
  destruct (String.eqb_spec (default "" (v !! "engine")) ""); [naive_solver|apply insert_non_empty].
Qed.

Lemma engine_found_keeps engine v r : f_Components r ≠ ∅ → f_Components (engine_found engine v r) ≠ ∅.
Proof.
  intros H. unfold engine_found. destruct (String.eqb _ ""), (String.eqb _ ""); cbn [f_Components]; try apply insert_non_empty; done.
Qed.

Lemma runtime_of_found socks r : f_Components (runtime_of m socks r) ≠ ∅ ↔
  f_Components r ≠ ∅ ∨ ∃ engine path, (engine, path) ∈ socks ∧ m_exists m path = true ∧ version_map (m_version m path) ≠ ∅.
Proof.
  induction socks as [|[engine path] socks IH]; cbn [runtime_of]; [set_solver|].
  assert (∀ Q : Prop, (m_exists m path = true → version_map (m_version m path) = ∅) →
    (Q ∨ (∃ e p, (e, p) ∈ socks ∧ m_exists m p = true ∧ version_map (m_version m p) ≠ ∅)) ↔
    (Q ∨ (∃ e p, (e, p) ∈ (engine, path) :: socks ∧ m_exists m p = true ∧ version_map (m_version m p) ≠ ∅))) as Hskip.
  { intros Q Hempty. split; (intros [?|(e & p & Hin & He & Hv)]; [by left|right]); exists e, p.
    - split_and!; [by right|done..].
    - apply elem_of_cons in Hin as [[= -> ->]|?]; [by destruct Hv; apply Hempty|done]. }
  destruct (m_exists m path) eqn:E; [|rewrite IH; by apply Hskip].
  case_bool_decide as Hv; [rewrite IH; by apply Hskip|]. split; intros _.
  - right. exists engine, path. split_and!; [by left|done..].
  - apply engine_found_components; [done|by apply version_map_says].
Qed.

Lemma collectHypervisor_keeps r : f_Components r ≠ ∅ → f_Components (collectHypervisor m r) ≠ ∅.
Proof.
  intros H. unfold collectHypervisor. cbn [f_Components]. destruct (String.eqb _ ""), (String.eqb _ ""); try apply insert_non_empty; done.
Qed.

Lemma set_version_empty comps v : set_version comps v = ∅ ↔ comps = ∅.
Proof.
  unfold set_version. split; [|by intros ->]. intros H. apply map_eq. intros k. rewrite lookup_empty.
  destruct (comps !! k) as [c|] eqn:E; [|done]. exfalso.
  assert (is_Some (alter (λ c, {| cp_Version := v; cp_Package := cp_Package c; cp_Active := cp_Active c; cp_Service := cp_Service c |}) "nova-compute" comps !! k)) as Hk.
  { rewrite lookup_alter_is_Some. by exists c. }
  rewrite H, lookup_empty in Hk. by destruct Hk.
Qed.

Lemma sorted_set_elem (s : gset string) x : x ∈ sorted_set s ↔ x ∈ s.
Proof. unfold sorted_set, sort_strings. by rewrite sort_elem_of, elem_of_elements. Qed.

Lemma map_nonempty_some (comps : gmap string component) : comps ≠ ∅ ↔ ∃ k, is_Some (comps !! k).
Proof.
  split; [|intros (k & c & Hk) ->; by rewrite lookup_empty in Hk]. intros (k & c & Hk)%map_choose. by exists k; exists c.
Qed.

(** What one pass concludes.  A role is reported exactly when a service of
    it is on the host, and reported active exactly when one of them runs: an
    outage moves a role out of the second list and never out of the first.
    "Could not tell" is exactly an engine that would not list its containers on
    a host where nothing else was found.  A host counts as detected when a
    service was found, or when a container engine merely said its version. *)
Theorem Collect_exact :
  let r := Collect m in
  (∀ role, role ∈ pr_Roles r ↔ role ≠ "" ∧ ∃ name run, (name, role) ∈ osServices ∧ deployed name run) ∧
  (∀ role, role ∈ pr_ActiveRoles r ↔ role ≠ "" ∧ ∃ name, (name, role) ∈ osServices ∧ deployed name true) ∧
  (pr_Detected r = true ↔ (∃ name role run, (name, role) ∈ osServices ∧ deployed name run) ∨ runtime_answered) ∧
  (∀ e, pr_Err r = Some e ↔ containerIndex m = Err e ∧ pr_Detected r = false).
Proof.
  cbn zeta. unfold Collect, collectServices. fold containers. fold units.
  pose proof services_run as Hs. destruct (foldl (add_service units containers) (∅, ∅, ∅) osServices) as [[comps roles] active].
  destruct Hs as (Hc & Hr & Ha). cbv beta iota zeta.
  set (r1 := if decide ("compute" ∈ roles) then _ else _). set (r2 := collectRuntime m r1). set (final := if needs_version _ then _ else _).
  assert (final ≠ ∅ ↔ (∃ name role run, (name, role) ∈ osServices ∧ deployed name run) ∨ runtime_answered) as Hdet.
  { assert (final ≠ ∅ ↔ f_Components r2 ≠ ∅) as -> by (unfold final; case_if; [case_if; [done|by rewrite set_version_empty]|done]).
    unfold r2, collectRuntime. rewrite runtime_of_found. fold runtime_answered.
    assert (f_Components r1 ≠ ∅ ↔ comps ≠ ∅) as ->.
    { unfold r1. destruct (decide ("compute" ∈ roles)) as [Hin|]; [|done]. apply Hr in Hin as (_ & name & run & Hin & Hd).
      assert (comps ≠ ∅) as Hne by (apply map_nonempty_some; exists name; apply Hc; by eexists _, _). split; [done|]. intros _. by apply collectHypervisor_keeps. }
    rewrite map_nonempty_some. setoid_rewrite Hc. naive_solver. }
  assert (∀ b, negb (bool_decide (final = ∅)) = b → (b = true ↔ final ≠ ∅)) as Hb.
  { intros b <-. rewrite negb_true_iff, bool_decide_eq_false. done. }
  specialize (Hb _ eq_refl). set (detected := negb (bool_decide (final = ∅))) in *. clearbody detected final r2.
  destruct (containerIndex m) as [ix|e]; [|destruct detected; cbn [negb]]; cbn [pr_Roles pr_ActiveRoles pr_Detected pr_Err]; split_and!;
    try (intros role; rewrite sorted_set_elem; (apply Hr || apply Ha)); try (by rewrite Hb); try (intros e'; naive_solver).
Qed.
End conclusions.

(** ** A host with a container engine and no OpenStack

    Its engine's version is a component, so the pass says detected, with no
    role; and when its engine will not list containers but says its version,
    the refusal is not reported. *)
Definition podman_host (listing : result string (list apiContainer)) : machine := {|
  m_exists := λ p, String.eqb p "/run/podman/podman.sock"; m_isdir := λ _, false; m_size := λ _, None; m_read := λ _, None;
  m_exec := λ _ _, ("", Some (NotInstalled "not found")); m_list := λ _, listing;
  m_version := λ _, Some {| av_Version := "5.6.0"; av_Components := [("OCI Runtime (crun)", "1.27")] |};
  m_look := λ _, true; confined := true; operatorNets := []; m_now := 1 |}.

Lemma engine_alone_is_detected :
  let r := Collect (podman_host (Ok [])) in
  pr_Detected r = true ∧ pr_Roles r = [] ∧ pr_Err r = None ∧
  map_Forall (λ _ c, cp_Service c = false) (pr_Components r) ∧
  pr_Err (Collect (podman_host (Err "permission denied"))) = None ∧ pr_Detected (Collect (podman_host (Err "permission denied"))) = true.
Proof.
  split_and!; [reflexivity..| |reflexivity|reflexivity]. apply (bool_decide_eq_true _). vm_compute. reflexivity.
Qed.

(** ** Asking the engines *)

Section asking.
Context (m : machine).

Definition refusals : list string :=
  omap (λ s : string * string, if m_exists m s.2 then match m_list m s.2 with Err e => Some (s.1 +:+ " socket: " +:+ e) | Ok _ => None end else None)
    containerSockets.

Definition any_socket : bool := existsb (λ s : string * string, m_exists m s.2) containerSockets.

(** Why one engine without a socket stops the pass. *)
Definition engine_failure (e : string * option string) : option string :=
  if match e.2 with Some sock => negb (m_exists m sock) | None => false end then None
  else if confined m then
    if m_look m e.1 then
      Some (e.1 +:+ ": installed but its socket is not exposed, and its CLI cannot run inside this agent's unit (enable " +:+ e.1 +:+ ".socket)")
    else None
  else match m_exec m e.1 ps_args with (_, Some (ExecFailed t)) => Some (e.1 +:+ ": " +:+ t) | _ => None end.

Definition failures : list string := if any_socket then refusals else omap engine_failure containerEngines.

Lemma ask_sockets socks st :
  let '(ix', fs, asked) := foldl (ask_socket m) st socks in
  fs = st.1.2 ++ omap (λ s : string * string, if m_exists m s.2 then match m_list m s.2 with Err e => Some (s.1 +:+ " socket: " +:+ e) | Ok _ => None end else None) socks ∧
  asked = st.2 || existsb (λ s : string * string, m_exists m s.2) socks.
Proof.
  revert st. induction socks as [|s socks IH]; intros [[ix fs] asked]; [cbn; by rewrite app_nil_r, orb_false_r|].
  cbn [foldl existsb omap list_omap]. specialize (IH (ask_socket m (ix, fs, asked) s)). destruct (foldl _ _ socks) as [[ix' fs'] asked'].
  destruct IH as [-> ->]. unfold ask_socket. destruct (m_exists m s.2); [destruct (m_list m s.2)|]; cbn; rewrite ?orb_true_r, <-?(assoc_L (++)); done.
Qed.

Lemma ask_engines engines st :
  (foldl (ask_engine m) st engines).2 = st.2 ++ omap engine_failure engines.
Proof.
  revert st. induction engines as [|e engines IH]; intros [ix fs]; [cbn; by rewrite app_nil_r|].
  cbn [foldl omap list_omap]. rewrite IH. unfold ask_engine, engine_failure.
  repeat case_match; simplify_eq; cbn; rewrite <-?(assoc_L (++)); done.
Qed.

(** Listing the containers is all or nothing.  It fails exactly when some
    engine that is there would not answer, and then says each refusal; an
    engine that is not there is an answer, not a failure.  A socket that exists
    is the only thing asked, and inside the agent's unit no engine's CLI is run
    at all: the answer does not depend on what it would print. *)
Theorem containerIndex_whole :
  (failures = [] ↔ is_ok (containerIndex m) = true) ∧
  (failures ≠ [] → containerIndex m = Err ("could not list containers (" +:+ Join failures "; " +:+ ")")) ∧
  (confined m = true ∨ any_socket = true → ∀ exec', containerIndex m =
     containerIndex {| m_exists := m_exists m; m_isdir := m_isdir m; m_size := m_size m; m_read := m_read m; m_exec := exec';
                       m_list := m_list m; m_version := m_version m; m_look := m_look m; confined := confined m;
                       operatorNets := operatorNets m; m_now := m_now m |}).
Proof.
  assert (∃ ix, containerIndex m = match failures with [] => Ok ix | _ => Err ("could not list containers (" +:+ Join failures "; " +:+ ")") end) as [ix Hix].
  { unfold containerIndex, failures. pose proof (ask_sockets containerSockets (∅, [], false)) as Hs.
    destruct (foldl (ask_socket m) (∅, [], false) containerSockets) as [[ix fs] asked]. destruct Hs as [-> ->].
    fold refusals any_socket. cbn [fst snd app orb]. destruct any_socket eqn:Ea; [exists ix; by destruct refusals|].
    assert (refusals = []) as Hnone.
    { unfold any_socket, containerSockets in Ea. cbn in Ea. bool_simpl. unfold refusals, containerSockets. cbn.
      destruct (m_exists m "/run/podman/podman.sock"), (m_exists m "/var/run/docker.sock"); done. }
    pose proof (ask_engines containerEngines (ix, refusals)) as He. destruct (foldl (ask_engine m) (ix, refusals) containerEngines) as [ix' fs'].
    cbn [snd] in He. rewrite He, Hnone. cbn [app]. exists ix'. by destruct (omap engine_failure containerEngines). }
  rewrite Hix. split_and!.
  - by destruct failures.
  - by destruct failures.
  - rewrite <-Hix. intros H exec'. unfold containerIndex.
    match goal with |- context [ask_socket ?m'] => lazymatch m' with m => fail | _ => change (ask_socket m') with (ask_socket m) end end.
    pose proof (ask_sockets containerSockets (∅, [], false)) as Hs.
    destruct (foldl (ask_socket m) (∅, [], false) containerSockets) as [[ix' fs] asked]. destruct Hs as [_ ->].
    fold any_socket. cbn [orb snd]. destruct any_socket; [done|]. destruct H as [Hc|]; [|done]. unfold ask_engine. cbn [confined m_exists m_look]. by rewrite Hc.
Qed.
End asking.

(** ** What is read of a file that holds secrets *)

(** The value of a line that sets [auth_url]; every other line has none. *)
Definition auth_value (line : string) : option string :=
  match Cut line "=" with
  | Some (key, value) => if String.eqb (TrimSpace key) "auth_url" then Some (TrimSpace value) else None
  | None => None
  end.

Definition bytes_of (lines : list string) : Z := foldr (λ l n, Z.of_nat (String.length l) + n) 0 lines.

Lemma bytes_of_nonneg lines : 0 ≤ bytes_of lines.
Proof. unfold bytes_of. induction lines; cbn; lia. Qed.

Lemma auth_url_cons line lines read : read + Z.of_nat (String.length line) ≤ maxConfScan →
  auth_url (line :: lines) read =
  match auth_value line with
  | Some v => if String.eqb (normalizeKeystoneURL v) "" then auth_url lines (read + Z.of_nat (String.length line)) else normalizeKeystoneURL v
  | None => auth_url lines (read + Z.of_nat (String.length line))
  end.
Proof.
  intros H. cbn [auth_url]. rewrite (proj2 (Z.ltb_ge _ _) H). unfold auth_value.
  destruct (Cut line "=") as [[key value]|]; [|done]. by destruct (String.eqb (TrimSpace key) "auth_url").
Qed.

Lemma auth_url_within lines read : read + bytes_of lines ≤ maxConfScan →
  auth_url lines read = FirstNonEmpty (normalizeKeystoneURL <$> omap auth_value lines).
Proof.
  revert read. induction lines as [|line lines IH]; intros read Hb; [done|].
  cbn [bytes_of foldr] in Hb. fold (bytes_of lines) in Hb. pose proof (bytes_of_nonneg lines).
  rewrite auth_url_cons by lia. cbn [omap list_omap]. destruct (auth_value line) as [v|]; [|apply IH; lia].
  cbn [fmap list_fmap]. unfold FirstNonEmpty. rewrite list.filter_cons.
  destruct (String.eqb_spec (normalizeKeystoneURL v) "") as [E|E]; [rewrite decide_False by (intros F; by apply F)|by rewrite decide_True by done].
  apply IH. lia.
Qed.

Lemma auth_url_over lines read : maxConfScan < read + bytes_of lines →
  auth_url lines read = "" ∨ ∃ v, v ∈ omap auth_value lines ∧ auth_url lines read = normalizeKeystoneURL v.
Proof.
  revert read. induction lines as [|line lines IH]; intros read Hb; [by left|].
  destruct (decide (read + Z.of_nat (String.length line) ≤ maxConfScan)) as [Hle|Hgt]; [|left; cbn [auth_url]; by rewrite (proj2 (Z.ltb_lt _ _)) by lia].
  cbn [bytes_of foldr] in Hb. fold (bytes_of lines) in Hb. specialize (IH (read + Z.of_nat (String.length line)) ltac:(lia)).
  rewrite auth_url_cons by done. cbn [omap list_omap]. destruct (auth_value line) as [v|].
  - destruct (String.eqb (normalizeKeystoneURL v) ""); [|right; exists v; split; [by left|done]].
    destruct IH as [?|(x & ? & ?)]; [by left|right]. exists x. split; [by right|done].
  - exact IH.
Qed.

(** Of a configuration that holds passwords only the [auth_url] lines are
    read.  The answer is a function of their values alone, so no other line can
    change it or reach it, whatever the size of the file; and what is answered
    is empty, or the host of an http(s) URL that such a line names. *)
Theorem keystone_reads_only_auth_url (m : machine) (path text : string) :
  m_read m path = Some text →
  let lines := (ScanLines 1048576 text).1 in
  let values := omap auth_value lines in
  (bytes_of lines ≤ maxConfScan → scanForAuthURL m path = FirstNonEmpty (normalizeKeystoneURL <$> values)) ∧
  (scanForAuthURL m path ≠ "" → ∃ v scheme, v ∈ values ∧ (scheme = "http" ∨ scheme = "https") ∧
     ParseURL (Trim v quote_chars) = Some (scheme, scanForAuthURL m path)).
Proof.
  intros Ht. cbn zeta. unfold scanForAuthURL. rewrite Ht. set (lines := (ScanLines 1048576 text).1).
  split; [intros Hb; by apply auth_url_within|]. intros Hne.
  assert (∃ v, v ∈ omap auth_value lines ∧ auth_url lines 0 = normalizeKeystoneURL v) as (v & Hv & E).
  { destruct (decide (bytes_of lines ≤ maxConfScan)) as [Hle|Hgt].
    - rewrite auth_url_within in * by done. unfold FirstNonEmpty in *.
      destruct (filter _ _) as [|x xs] eqn:Ef in *; [done|]. cbn [head default] in *.
      assert (x ∈ x :: xs) as Hx by (by left). rewrite <-Ef in Hx. apply list_elem_of_filter in Hx as [_ Hx].
      apply list_elem_of_fmap in Hx as (v & -> & Hv). by exists v.
    - destruct (auth_url_over lines 0) as [?|?]; [lia|done|done]. }
  rewrite E in *. unfold normalizeKeystoneURL in *. destruct (String.eqb (Trim v quote_chars) ""); [done|].
  destruct (ParseURL (Trim v quote_chars)) as [[scheme host]|] eqn:Ep; [|done].
  destruct (slices_Contains ["http"; "https"] scheme) eqn:Es; [|done]. apply bool_decide_eq_true in Es.
  exists v, scheme. split_and!; [done| |done]. rewrite !elem_of_cons, elem_of_nil in Es. naive_solver.
Qed.

Definition nova_conf : string :=
  Join ["[keystone_authtoken]"; "password = https://s3cret:5000"; "auth_url = 'https://172.16.0.245:5000/v3'"; "auth_url=http://other"] newline.

Definition compute_host : machine := {|
  m_exists := λ _, false; m_isdir := λ _, false; m_size := λ _, None;
  m_read := λ p, if String.eqb p "/etc/nova/nova.conf" then Some nova_conf else None;
  m_exec := λ c _, if String.eqb c "systemctl" then ("", None) else ("", Some (NotInstalled "no")); m_list := λ _, Ok [];
  m_version := λ _, None; m_look := λ _, false; confined := true; operatorNets := ["192.168."]; m_now := 1 |}.

Lemma keystone_reads_only_auth_url_witness :
  scanForAuthURL compute_host "/etc/nova/nova.conf" = "172.16.0.245:5000" ∧ keystoneURL compute_host = "172.16.0.245:5000".
Proof.
  destruct (keystone_reads_only_auth_url compute_host "/etc/nova/nova.conf" nova_conf eq_refl) as [H _].
  split; [|vm_compute; reflexivity]. etrans; [apply H; vm_compute; discriminate|vm_compute; reflexivity].
Defined.

(** ** Horizon's addresses *)

Definition two_binds : string :=
  Join ["frontend horizon_front"; "    bind 172.16.0.11:443 ssl crt /etc/x.pem"; "    bind 192.168.10.5:80"; "    bind 192.168.10.5:443 ssl crt x"; "    server ctl 10.0.0.1:80"] newline.

Example horizon_order :
  horizonURLs {| m_exists := λ _, false; m_isdir := λ _, false; m_size := λ _, None; m_read := λ _, Some two_binds; m_exec := λ _ _, ("", None);
                 m_list := λ _, Ok []; m_version := λ _, None; m_look := λ _, false; confined := true; operatorNets := ["192.168."]; m_now := 1 |} =
  ["https://192.168.10.5"; "http://192.168.10.5"; "https://172.16.0.11"].
Proof. vm_compute. reflexivity. Qed.
