(* ===== verification/WgFailover.v ===== *)
(** The standby-hub view: src/internal/cli/wg_failover.go.  What a remote says
    is parsed, judged and counted; the remotes are asked at once, a bounded
    number at a time ([fanOutHosts]).

    A remote's answer (its output, and an error if the command failed) is the
    outside's; what is printed is the rows and the summary. *)

From Stdlib Require Import Ascii String ZArith Lia.
From stdpp Require Import relations.
From S2P Require Import Prelude GoStrings GoFormat.
Open Scope Z_scope.

Definition failoverScript : string := "/usr/local/sbin/wg-standby-failover.sh".
Definition failoverAbsentMark : string := "__vctl_no_failover__".
Definition failoverNeverAge : Z := 999999.

(** ** One remote's answer *)

Record failoverStatus := {
  Host : string; Installed : bool; Iface : string; Active : string; PrimaryAge : Z; StandbyAge : Z;
  DownAfter : Z; UpFor : Z; Hold : bool; Since : string; Decision : string; Err_ : string;
}.

Definition blank_status (host : string) (installed : bool) : failoverStatus :=
  {| Host := host; Installed := installed; Iface := ""; Active := ""; PrimaryAge := 0; StandbyAge := 0; DownAfter := 0;
     UpFor := 0; Hold := false; Since := ""; Decision := ""; Err_ := "" |}.

Definition parseSeconds (v : string) : Z :=
  match Atoi (TrimSuffix v "s") with (n, None) => n | (_, Some _) => 0 end.

Definition fieldAfter (line key : string) : string :=
  match Cut line key with
  | None => ""
  | Some (_, rest) => match Cut rest " primary_fresh_since=" with Some (a, _) => a | None => rest end
  end.

(** One [key=value] word. *)
Definition apply_field (s : failoverStatus) (kv : string) : failoverStatus :=
  match Cut kv "=" with
  | None => s
  | Some (k, v) =>
      let set iface active pa sa da uf :=
        {| Host := Host s; Installed := Installed s; Iface := iface; Active := active; PrimaryAge := pa; StandbyAge := sa;
           DownAfter := da; UpFor := uf; Hold := Hold s; Since := Since s; Decision := Decision s; Err_ := Err_ s |} in
      if String.eqb k "iface" then set v (Active s) (PrimaryAge s) (StandbyAge s) (DownAfter s) (UpFor s)
      else if String.eqb k "active" then set (Iface s) v (PrimaryAge s) (StandbyAge s) (DownAfter s) (UpFor s)
      else if String.eqb k "primary_hs_age" then set (Iface s) (Active s) (parseSeconds v) (StandbyAge s) (DownAfter s) (UpFor s)
      else if String.eqb k "standby_hs_age" then set (Iface s) (Active s) (PrimaryAge s) (parseSeconds v) (DownAfter s) (UpFor s)
      else if String.eqb k "down_after" then set (Iface s) (Active s) (PrimaryAge s) (StandbyAge s) (parseSeconds v) (UpFor s)
      else if String.eqb k "up_for" then set (Iface s) (Active s) (PrimaryAge s) (StandbyAge s) (DownAfter s) (parseSeconds v)
      else s
  end.

Definition applyFailoverFields (s : failoverStatus) (line : string) : failoverStatus := foldl apply_field s (Fields line).

Definition with_hold (s : failoverStatus) : failoverStatus :=
  {| Host := Host s; Installed := Installed s; Iface := Iface s; Active := Active s; PrimaryAge := PrimaryAge s; StandbyAge := StandbyAge s;
     DownAfter := DownAfter s; UpFor := UpFor s; Hold := true; Since := Since s; Decision := Decision s; Err_ := Err_ s |}.
Definition with_since (s : failoverStatus) (v : string) : failoverStatus :=
  {| Host := Host s; Installed := Installed s; Iface := Iface s; Active := Active s; PrimaryAge := PrimaryAge s; StandbyAge := StandbyAge s;
     DownAfter := DownAfter s; UpFor := UpFor s; Hold := Hold s; Since := v; Decision := Decision s; Err_ := Err_ s |}.
Definition with_decision (s : failoverStatus) (v : string) : failoverStatus :=
  {| Host := Host s; Installed := Installed s; Iface := Iface s; Active := Active s; PrimaryAge := PrimaryAge s; StandbyAge := StandbyAge s;
     DownAfter := DownAfter s; UpFor := UpFor s; Hold := Hold s; Since := Since s; Decision := v; Err_ := Err_ s |}.
Definition with_err (s : failoverStatus) (v : string) : failoverStatus :=
  {| Host := Host s; Installed := Installed s; Iface := Iface s; Active := Active s; PrimaryAge := PrimaryAge s; StandbyAge := StandbyAge s;
     DownAfter := DownAfter s; UpFor := UpFor s; Hold := Hold s; Since := Since s; Decision := Decision s; Err_ := v |}.

(** The lines in turn; the mark of a remote without the agent ends it, [None]. *)
Definition status_line (s : failoverStatus) (line : string) : option failoverStatus :=
  let line := TrimSpace line in
  if String.eqb line "" then Some s
  else if Contains line failoverAbsentMark then None
  else if HasPrefix line "HOLD:" then Some (with_hold s)
  else if HasPrefix line "state:" then Some (with_since s (TrimSpace (fieldAfter line "since=")))
  else if HasPrefix line "decision:" then Some (with_decision s (TrimSpace (TrimPrefix line "decision:")))
  else Some (applyFailoverFields s line).

Fixpoint status_lines (s : failoverStatus) (lines : list string) : option failoverStatus :=
  match lines with
  | [] => Some s
  | l :: lines' => match status_line s l with Some s' => status_lines s' lines' | None => None end
  end.

Definition parseFailoverStatus (host out : string) : failoverStatus :=
  match status_lines (blank_status host true) (Split out nl) with
  | None => blank_status host false
  | Some s => if String.eqb (Iface s) "" && String.eqb (Active s) "" then with_err s "unrecognised status output" else s
  end.

Definition age (seconds : Z) : string :=
  if failoverNeverAge <=? seconds then "never" else DurationString (wrap64 (seconds * Second)).

Definition healthy (s : failoverStatus) : bool :=
  Installed s && String.eqb (Err_ s) "" && String.eqb (Active s) "primary" && negb (Hold s)
  && (PrimaryAge s <? failoverNeverAge) && (StandbyAge s <? failoverNeverAge).

Record failoverReply := { rp_Host : string; Stdout : string; rp_Err : option string }.

Definition statusFromReply (r : failoverReply) : failoverStatus :=
  match rp_Err r with
  | Some e =>
      if String.eqb (TrimSpace (Stdout r)) "" then with_err (blank_status (rp_Host r) false) e
      else let s := parseFailoverStatus (rp_Host r) (Stdout r) in if String.eqb (Err_ s) "" then with_err s e else s
  | None => parseFailoverStatus (rp_Host r) (Stdout r)
  end.

(** ** Commands *)

Definition sudoFor (user : string) : string := if String.eqb user "root" then "" else "sudo -n ".

Definition failoverShell (sudo scriptArgs : string) : string :=
  "if [ -x " +:+ failoverScript +:+ " ]; then " +:+ sudo +:+ failoverScript +:+ " " +:+ scriptArgs +:+ "; else echo " +:+ failoverAbsentMark +:+ "; fi".

(** ** The table and the summary *)

Record failoverTally := { total : Z; ready : Z; onStandby : Z; absent : Z; failed : Z; held : Z; uncovered : Z }.

Definition no_tally : failoverTally := {| total := 0; ready := 0; onStandby := 0; absent := 0; failed := 0; held := 0; uncovered := 0 |}.

Definition has_err (s : failoverStatus) : bool := negb (String.eqb (Err_ s) "").
Definition on_standby (s : failoverStatus) : bool := String.eqb (Active s) "standby".
Definition never_standby (s : failoverStatus) : bool := Installed s && negb (has_err s) && (failoverNeverAge <=? StandbyAge s).

Definition tally_add (t : failoverTally) (s : failoverStatus) : failoverTally :=
  {| total := total t + 1;
     failed := failed t + (if has_err s then 1 else 0);
     absent := absent t + (if negb (has_err s) && negb (Installed s) then 1 else 0);
     onStandby := onStandby t + (if negb (has_err s) && Installed s && on_standby s then 1 else 0);
     ready := ready t + (if healthy s then 1 else 0);
     held := held t + (if Hold s then 1 else 0);
     uncovered := uncovered t + (if never_standby s then 1 else 0) |}.

Definition tally_of (all : list failoverStatus) : failoverTally := foldl tally_add no_tally all.

Definition tally_report (t : failoverTally) : option string :=
  if 0 <? failed t then Some (Itoa (failed t) +:+ " remote(s) did not answer") else None.

Definition failoverRow (s : failoverStatus) : list string :=
  if has_err s then [Host s; "-"; "unreachable"; "-"; "-"; "-"]
  else if negb (Installed s) then [Host s; "-"; "no agent"; "-"; "-"; "-"]
  else [Host s; Iface s; Active s; age (PrimaryAge s); age (StandbyAge s); if Hold s then "HELD" else "-"].

Definition explained (all : list failoverStatus) : list (string * string) :=
  omap (λ s, if String.eqb (Decision s) "" || healthy s then None else Some (Host s, Decision s)) all.

Definition by_host : failoverStatus → failoverStatus → bool := less_on string_ltb Host.

(** The rows, the remotes' own reasons, and the command's error. *)
Definition run_status (replies : list failoverReply) : list (list string) * list (string * string) * option string :=
  let out := sort by_host (statusFromReply <$> replies) in
  (failoverRow <$> out, explained out, tally_report (tally_of out)).

(** [reportFailoverActions]: each remote's line, whether it is bad, and the error. *)
Definition firstLine (s : string) : string := match Cut s (String nl "") with Some (a, _) => a | None => s end.

Definition action_line (r : failoverReply) : bool * string :=
  let out := TrimSpace (Stdout r) in
  match rp_Err r with
  | Some e => (true, rp_Host r +:+ ": " +:+ e)
  | None =>
      if Contains out failoverAbsentMark then (true, rp_Host r +:+ ": no failover agent installed (" +:+ failoverScript +:+ ")")
      else (false, rp_Host r +:+ ": " +:+ firstLine out)
  end.

Definition reportFailoverActions (replies : list failoverReply) (what : string) : list (bool * string) * option string :=
  let lines := action_line <$> replies in
  let bad := Z.of_nat (length (filter (λ l : bool * string, l.1 = true) lines)) in
  (lines, if 0 <? bad then Some (what +:+ " failed on " +:+ Itoa bad +:+ " remote(s)") else None).

Definition sample_primary : string :=
  Join ["iface=wg0 active=primary primary_hs_age=12s standby_hs_age=8s down_after=180s up_for=300s";
        "state: ACTIVE_STATE=primary since=2026-09-12 21:00:00 primary_fresh_since=-"] (String nl "").

Example parse_primary :
  let s := parseFailoverStatus "sre-lb" sample_primary in
  (Iface s, Active s, PrimaryAge s, StandbyAge s, DownAfter s, UpFor s, Hold s, Since s, healthy s) =
  ("wg0", "primary", 12, 8, 180, 300, false, "2026-09-12 21:00:00", true).
Proof. vm_compute. reflexivity. Qed.

(** ** Asking every remote at once: [fanOutHosts]

    One goroutine a host: it waits for one of [limit] slots, runs, files its
    reply at its own index and frees the slot.  Any goroutine may move next. *)

Inductive phase (R : Type) := Waiting | Running | Done (r : R).
Arguments Waiting {R}.
Arguments Running {R}.
Arguments Done {R} r.

Section fan_out.
Context {R : Type} (run : nat → R) (limit : nat).

Definition is_running (p : phase R) : bool := match p with Running => true | _ => false end.
Definition busy (st : list (phase R)) : nat := length (filter (λ p, is_running p = true) st).

Inductive fan_step : list (phase R) → list (phase R) → Prop :=
| fan_start st i : st !! i = Some Waiting → (busy st < limit)%nat → fan_step st (<[i := Running]> st)
| fan_finish st i : st !! i = Some Running → fan_step st (<[i := Done (run i)]> st).

Definition fan_init (n : nat) : list (phase R) := replicate n Waiting.

(** What is left to do: two moves a host. *)
Definition work (p : phase R) : nat := match p with Waiting => 2 | Running => 1 | Done _ => 0 end.
Definition left_to_do (st : list (phase R)) : nat := sum_list_with work st.

Lemma sum_insert (f : phase R → nat) st i p q : st !! i = Some p → (sum_list_with f (<[i := q]> st) + f p = sum_list_with f st + f q)%nat.
Proof.
  revert i. induction st as [|x st IH]; intros [|i] H; try done.
  - injection H as ->. cbn. lia.
  - specialize (IH i H). change (<[S i:=q]> (x :: st)) with (x :: <[i:=q]> st). cbn [sum_list_with]. lia.
Qed.

Lemma busy_sum st : busy st = sum_list_with (λ p, if is_running p then 1 else 0)%nat st.
Proof.
  unfold busy. induction st as [|p st IH]; [done|]. rewrite list.filter_cons. destruct (is_running p) eqn:E; cbn; rewrite E.
  - rewrite decide_True by done. cbn. by rewrite IH.
  - by rewrite decide_False by done.
Qed.

Record fan_ok (n k : nat) (st : list (phase R)) : Prop := {
  fo_length : length st = n;
  fo_busy : (busy st ≤ limit)%nat;
  fo_done : ∀ i r, st !! i = Some (Done r) → r = run i;
  fo_work : (k + left_to_do st = 2 * n)%nat;
}.

Lemma fan_init_ok n : fan_ok n 0 (fan_init n).
Proof.
  unfold fan_init. split.
  - apply length_replicate.
  - rewrite busy_sum. induction n; cbn; lia.
  - intros i r [H _]%lookup_replicate. done.
  - unfold left_to_do. induction n; cbn in *; lia.
Qed.

Lemma fan_step_ok n k st st' : fan_step st st' → fan_ok n k st → fan_ok n (S k) st'.
Proof.
  intros [st0 i Hi Hb|st0 i Hi] [Hl Hbu Hd Hw]; split.
  - by rewrite length_insert.
  - pose proof (sum_insert (λ p, if is_running p then 1 else 0)%nat st0 i _ Running Hi) as H. rewrite busy_sum in *. cbn in H. lia.
  - intros j r [[_ [? _]]|[_ Hj]]%list_lookup_insert_Some; [done|by apply Hd].
  - pose proof (sum_insert work st0 i _ Running Hi) as H. unfold left_to_do in *. cbn [work] in H. lia.
  - by rewrite length_insert.
  - pose proof (sum_insert (λ p, if is_running p then 1 else 0)%nat st0 i _ (Done (run i)) Hi) as H. rewrite busy_sum in *. cbn in H. lia.
  - intros j r [[<- [[= <-] _]]|[_ Hj]]%list_lookup_insert_Some; [done|by apply Hd].
  - pose proof (sum_insert work st0 i _ (Done (run i)) Hi) as H. unfold left_to_do in *. cbn [work] in H. lia.
Qed.

Lemma fan_reach n k st : nsteps fan_step k (fan_init n) st → fan_ok n k st.
Proof.
  revert st. induction k as [|k IH]; intros st H; [inversion H; subst; apply fan_init_ok|].
  apply nsteps_inv_r in H as (st' & H & Hs). eapply fan_step_ok; [exact Hs|by apply IH].
Qed.

Lemma fan_progress st : (0 < limit)%nat → left_to_do st ≠ 0%nat → ∃ st', fan_step st st'.
Proof.
  intros Hlim Hw. destruct (decide (Exists (λ p, is_running p = true) st)) as [He|Hn].
  - apply Exists_exists in He as (p & Hp & E). apply list_elem_of_lookup in Hp as (i & Hi). destruct p; try done. eexists. by apply (fan_finish st i).
  - assert (busy st = 0%nat) as Hb.
    { unfold busy. destruct (filter _ st) as [|p l] eqn:El; [done|]. exfalso.
      assert (p ∈ p :: l) as Hp by (by left). rewrite <-El in Hp. apply list_elem_of_filter in Hp as [E Hp]. apply Hn, Exists_exists. by exists p. }
    assert (∃ i : nat, st !! i = Some Waiting) as [i Hi]; [|eexists; apply (fan_start st i Hi); lia].
    clear -Hw Hn. unfold left_to_do in Hw. induction st as [|p st IH]; [done|]. destruct p as [| |r]; [by exists 0%nat|destruct Hn; by left|].
    destruct IH as [i Hi]; [exact Hw|intros H; apply Hn; by right|]. by exists (S i).
Qed.

(** Asking the remotes at once gives what asking them in turn would.  In
    every interleaving at most [limit] run together; with a slot at all there is
    always a next move until the last is done, which takes exactly two moves a
    remote; and then every remote's reply stands at its own place in the
    caller's order. *)
Theorem fanOut_in_order (n k : nat) (st : list (phase R)) :
  nsteps fan_step k (fan_init n) st →
  (busy st ≤ limit)%nat ∧ (k ≤ 2 * n)%nat ∧
  (k = 2 * n → st = (λ i, Done (run i)) <$> seq 0 n)%nat ∧
  (0 < limit → k < 2 * n → ∃ st', fan_step st st')%nat.
Proof.
  intros H. destruct (fan_reach n k st H) as [Hl Hb Hd Hw]. split_and!; [done|lia| |].
  - intros ->. assert (left_to_do st = 0%nat) as H0 by lia. apply list_eq. intros i.
    destruct (st !! i) as [p|] eqn:E.
    + assert (i < n)%nat as Hi by (rewrite <-Hl; by eapply lookup_lt_Some). rewrite list_lookup_fmap, lookup_seq_lt by done. cbn.
      assert (work p = 0%nat) as Hp.
      { pose proof (sum_insert work st i p p E) as Hs. rewrite list_insert_id in Hs by done. unfold left_to_do in H0.
        clear -E H0. revert i E. induction st as [|x st IH]; intros [|i] E; [done..| |]; cbn in *; simplify_eq; [lia|]. apply (IH ltac:(lia) i E). }
      destruct p; try done. f_equal. f_equal. by apply (Hd i).
    + apply lookup_ge_None in E. symmetry. apply lookup_ge_None. rewrite length_fmap, length_seq. lia.
  - intros Hlim Hk. apply fan_progress; [done|lia].
Qed.
End fan_out.

Lemma fanOut_in_order_witness : ∃ st, nsteps (fan_step (λ i, i) 1) 4 (fan_init 2) st ∧ st = [Done 0%nat; Done 1%nat].
Proof.
  assert (nsteps (fan_step (λ i, i) 1) 4 (fan_init 2) [Done 0%nat; Done 1%nat]) as H.
  { eapply nsteps_l; [apply (fan_start _ _ _ 1); [reflexivity|vm_compute; lia]|].
    eapply nsteps_l; [apply (fan_finish _ _ _ 1); reflexivity|]. cbn [list_insert insert fan_init replicate].
    eapply nsteps_l; [apply (fan_start _ _ _ 0); [reflexivity|vm_compute; lia]|].
    eapply nsteps_l; [apply (fan_finish _ _ _ 0); reflexivity|]. apply nsteps_O. }
  eexists. split; [exact H|]. exact (proj1 (proj2 (proj2 (fanOut_in_order _ _ _ _ _ H))) eq_refl).
Defined.

(** ** The table *)

Lemma status_line_host s l s' : status_line s l = Some s' → Host s' = Host s.
Proof.
  unfold status_line. repeat case_match; intros [= <-]; try done. unfold applyFailoverFields.
  apply (foldl_invariant (λ _ x, Host x = Host s)); [done|]. intros _ x kv Hx. unfold apply_field.
  repeat case_match; done.
Qed.

Lemma status_lines_host s lines s' : status_lines s lines = Some s' → Host s' = Host s.
Proof.
  revert s. induction lines as [|l lines IH]; intros s; cbn [status_lines]; [by intros [= ->]|].
  destruct (status_line s l) as [s1|] eqn:E; [|done]. intros H%IH. apply status_line_host in E. congruence.
Qed.

Lemma parse_host host out : Host (parseFailoverStatus host out) = host.
Proof.
  unfold parseFailoverStatus. destruct (status_lines _ _) as [s|] eqn:E; [|done]. apply status_lines_host in E. by case_if.
Qed.

Lemma statusFromReply_host r : Host (statusFromReply r) = rp_Host r.
Proof. unfold statusFromReply. repeat case_match; cbn; by rewrite ?parse_host. Qed.

Lemma tally_failed all t : failed (foldl tally_add t all) = failed t + Z.of_nat (length (filter (λ s, has_err s = true) all)) ∧
  total (foldl tally_add t all) = total t + Z.of_nat (length all) ∧
  failed (foldl tally_add t all) + absent (foldl tally_add t all) + onStandby (foldl tally_add t all) + ready (foldl tally_add t all)
    ≤ failed t + absent t + onStandby t + ready t + Z.of_nat (length all).
Proof.
  revert t. induction all as [|s all IH]; intros t; cbn [foldl]; [cbn; lia|].
  destruct (IH (tally_add t s)) as (H1 & H2 & H3). rewrite H1, H2, list.filter_cons. rewrite H1 in H3. unfold tally_add in *. cbn [failed total absent onStandby ready] in *.
  unfold healthy, has_err, on_standby in *. destruct (String.eqb_spec (Err_ s) "") as [He|He]; cbn [negb andb] in *.
  - rewrite decide_False by done. destruct (Installed s); cbn [negb andb] in *; [|cbn [length]; lia].
    destruct (String.eqb_spec (Active s) "standby") as [Ea|]; [rewrite Ea in *; cbn [String.eqb andb] in *|].
    + cbn in *. lia.
    + destruct (String.eqb (Active s) "primary" && _ && _ && _); cbn [length]; lia.
  - rewrite decide_True by done. rewrite andb_false_r in *. cbn [andb length] in *. lia.
Qed.

(** The status command shows every remote it asked, once, in the order of
    their names, whatever the others answered: one that did not answer is a row
    and not an end.  It fails exactly when some remote did not answer, and the
    counts of the summary never count a remote twice. *)
Theorem run_status_exact (replies : list failoverReply) :
  let '(rows, _, err) := run_status replies in
  rows ≡ₚ (λ r, failoverRow (statusFromReply r)) <$> replies ∧
  StronglySorted (λ a b, string_ltb (default "" (head b)) (default "" (head a)) = false) rows ∧
  (∀ r, r ∈ replies → head (failoverRow (statusFromReply r)) = Some (rp_Host r)) ∧
  (err = None ↔ ∀ r, r ∈ replies → Err_ (statusFromReply r) = "") ∧
  let t := tally_of (statusFromReply <$> replies) in
  total t = Z.of_nat (length replies) ∧ failed t + absent t + onStandby t + ready t ≤ total t.
Proof.
  unfold run_status. set (out := sort by_host _).
  assert (out ≡ₚ statusFromReply <$> replies) as Hp by apply sort_perm.
  assert (∀ s, head (failoverRow s) = Some (Host s)) as Hhead by (intros s; unfold failoverRow; by repeat case_if).
  split_and!.
  - rewrite (fmap_Permutation failoverRow _ _ Hp), <-list_fmap_compose. done.
  - assert (StronglySorted (not_after by_host) out) as Hs by (apply sort_sorted; apply _).
    clear -Hs Hhead. induction Hs as [|s l Hl IH Hf]; cbn; constructor; [done|]. apply Forall_fmap. eapply Forall_impl; [exact Hf|].
    intros s' Hlt. cbn. rewrite !Hhead. exact Hlt.
  - intros r _. by rewrite Hhead, statusFromReply_host.
  - unfold tally_report, tally_of. destruct (tally_failed out no_tally) as (-> & _ & _). cbn [failed no_tally].
    assert ((∀ r, r ∈ replies → Err_ (statusFromReply r) = "") ↔ filter (λ s, has_err s = true) out = []) as ->.
    { split.
      - intros H. destruct (filter _ out) as [|s l] eqn:E; [done|]. exfalso. assert (s ∈ s :: l) as Hs by (by left). rewrite <-E in Hs.
        apply list_elem_of_filter in Hs as [He Hs]. rewrite Hp in Hs. apply list_elem_of_fmap in Hs as (r & -> & Hr). unfold has_err in He. by rewrite H in He.
      - intros H r Hr. assert (statusFromReply r ∈ out) as Ho by (rewrite Hp; by apply list_elem_of_fmap_2).
        destruct (String.eqb_spec (Err_ (statusFromReply r)) "") as [|He]; [done|]. exfalso.
        assert (statusFromReply r ∈ filter (λ s, has_err s = true) out) as Hf by (apply list_elem_of_filter; split; [unfold has_err; by rewrite (proj2 (String.eqb_neq _ _))|done]).
        rewrite H in Hf. set_solver. }
    by destruct (filter _ out).
  - unfold tally_of. destruct (tally_failed (statusFromReply <$> replies) no_tally) as (_ & -> & _). cbn. rewrite length_fmap. lia.
  - unfold tally_of. destruct (tally_failed (statusFromReply <$> replies) no_tally) as (_ & H2 & H3). rewrite H2. cbn in *. lia.
Qed.
