(* ===== verification/Socks5.v ===== *)
(** The SOCKS5 front of the userspace tunnel: src/internal/socks5/socks5.go
    ([handle], [readAddr], [reply]) and src/internal/socks5/tracker.go.

    A client is the bytes it sends before it stops; what the server does with
    it is the list of its writes, dials and the start of the copying. *)

From Stdlib Require Import Ascii String ZArith Lia.
From S2P Require Import Prelude GoStrings GoFormat GoIP.
Open Scope Z_scope.

(** ** The protocol *)

Definition version : Z := 5.
Definition methodNoAuth : Z := 0.
Definition methodNone : Z := 255.
Definition cmdConnect : Z := 1.
Definition atypIPv4 : Z := 1.
Definition atypDomain : Z := 3.
Definition atypIPv6 : Z := 4.
Definition replyOK : Z := 0.
Definition replyHostUnreach : Z := 4.
Definition replyCmdUnsupported : Z := 7.
Definition replyAtypUnsupp : Z := 8.

(** [io.ReadFull]: the bytes and what is left, or nothing. *)
Definition ReadFull (n : nat) (inp : bytes) : option (bytes * bytes) :=
  if (length inp <? n)%nat then None else Some (take n inp, drop n inp).

Definition at_ (b : bytes) (i : nat) : Z := match b !! i with Some c => byte_val c | None => 0 end.

Definition port_string (p : bytes) : string := Itoa (256 * at_ p 0 + at_ p 1).

Definition with_port (host : string) (r : bytes) : option string :=
  '(p, _) ← ReadFull 2 r; Some (JoinHostPort host (port_string p)).

(** The address after the request's header; [None] is the error. *)
Definition readAddr (r : bytes) (atyp : Z) : option string :=
  if atyp =? atypIPv4 then '(b, r) ← ReadFull 4 r; with_port (ip_string b) r
  else if atyp =? atypIPv6 then '(b, r) ← ReadFull 16 r; with_port (ip_string b) r
  else if atyp =? atypDomain then
    '(n, r) ← ReadFull 1 r; '(b, r) ← ReadFull (Z.to_nat (at_ n 0)) r; with_port (String.string_of_list_ascii b) r
  else None.

Inductive event :=
| Wrote (b : bytes)
| Dialed (target : string)
| Piped.

Definition reply (code : Z) : event := Wrote (byte <$> [version; code; 0; atypIPv4; 0; 0; 0; 0; 0; 0]).

(** [write_ok]: whether the method's reply could be written; [dial]: whether the
    dialer reaches a target. *)
Definition handle (inp : bytes) (write_ok : bool) (dial : string → bool) : list event :=
  match ReadFull 2 inp with
  | None => []
  | Some (hdr, r) =>
      if negb (at_ hdr 0 =? version) then []
      else match ReadFull (Z.to_nat (at_ hdr 1)) r with
      | None => []
      | Some (methods, r) =>
          if negb (existsb (λ m, byte_val m =? methodNoAuth) methods) then [Wrote (byte <$> [version; methodNone])]
          else
            Wrote (byte <$> [version; methodNoAuth]) ::
            if negb write_ok then []
            else match ReadFull 4 r with
            | None => []
            | Some (req, r) =>
                if negb (at_ req 0 =? version) then []
                else match readAddr r (at_ req 3) with
                | None => [reply replyAtypUnsupp]
                | Some target =>
                    if negb (at_ req 1 =? cmdConnect) then [reply replyCmdUnsupported]
                    else if dial target then [Dialed target; reply replyOK; Piped] else [Dialed target; reply replyHostUnreach]
                end
            end
      end
  end.

(** ** What the client has to say

    The grammar of RFC 1928 as far as the server speaks it: a greeting that
    offers no authentication, and a CONNECT for an address. *)

Inductive address : bytes → Z → string → Prop :=
| address_ipv4 b p more : length b = 4%nat → length p = 2%nat →
    address (b ++ p ++ more) atypIPv4 (JoinHostPort (ip_string b) (port_string p))
| address_ipv6 b p more : length b = 16%nat → length p = 2%nat →
    address (b ++ p ++ more) atypIPv6 (JoinHostPort (ip_string b) (port_string p))
| address_name n b p more : length b = Z.to_nat (byte_val n) → length p = 2%nat →
    address (n :: b ++ p ++ more) atypDomain (JoinHostPort (String.string_of_list_ascii b) (port_string p)).

(** [greets inp rest]: the client offers no authentication, and sends [rest]. *)
Inductive greets : bytes → bytes → Prop :=
| greets_noauth v n methods rest : byte_val v = version → length methods = Z.to_nat (byte_val n) →
    Exists (λ m, byte_val m = methodNoAuth) methods → greets (v :: n :: methods ++ rest) rest.

Inductive requests : bytes → Z → string → Prop :=
| requests_address v cmd rsv atyp addr target : byte_val v = version → address addr (byte_val atyp) target →
    requests (v :: cmd :: rsv :: atyp :: addr) (byte_val cmd) target.

Lemma ReadFull_Some n inp a r : ReadFull n inp = Some (a, r) ↔ inp = a ++ r ∧ length a = n.
Proof.
  unfold ReadFull. destruct (Nat.ltb_spec (length inp) n) as [Hlt|Hge].
  - split; [done|]. intros [-> <-]. rewrite length_app in Hlt. lia.
  - split; [intros [= <- <-]; split; [by rewrite take_drop|rewrite length_take; lia]|].
    intros [-> <-]. by rewrite take_app_length, drop_app_length.
Qed.

Lemma with_port_Some host r t : with_port host r = Some t ↔
  ∃ p more, r = p ++ more ∧ length p = 2%nat ∧ t = JoinHostPort host (port_string p).
Proof.
  unfold with_port. split.
  - intros H. apply bind_Some in H as ([p more] & [-> Hp]%ReadFull_Some & [= <-]). by exists p, more.
  - intros (p & more & -> & Hp & ->). by rewrite (proj2 (ReadFull_Some 2 (p ++ more) p more)).
Qed.

Lemma readAddr_Some r atyp t : readAddr r atyp = Some t ↔ address r atyp t.
Proof.
  unfold readAddr. split.
  - intros H. destruct (Z.eqb_spec atyp atypIPv4) as [->|]; [|destruct (Z.eqb_spec atyp atypIPv6) as [->|]; [|destruct (Z.eqb_spec atyp atypDomain) as [->|]; [|done]]].
    + apply bind_Some in H as ([b r'] & [-> Hb]%ReadFull_Some & (p & more & -> & Hp & ->)%with_port_Some). by constructor.
    + apply bind_Some in H as ([b r'] & [-> Hb]%ReadFull_Some & (p & more & -> & Hp & ->)%with_port_Some). by constructor.
    + apply bind_Some in H as ([ns r'] & [-> Hn]%ReadFull_Some & H).
      destruct ns as [|len [|]]; try done. apply bind_Some in H as ([b r''] & [-> Hb]%ReadFull_Some & (p & more & -> & Hp & ->)%with_port_Some).
      by apply (address_name len b p more).
  - intros [b p more Hb Hp|b p more Hb Hp|n b p more Hb Hp].
    + cbn [Z.eqb]. rewrite (proj2 (ReadFull_Some 4 _ b (p ++ more))) by done. apply with_port_Some. by exists p, more.
    + cbn. rewrite (proj2 (ReadFull_Some 16 _ b (p ++ more))) by done. apply with_port_Some. by exists p, more.
    + cbn. rewrite (proj2 (ReadFull_Some _ _ b (p ++ more))) by done. apply with_port_Some. by exists p, more.
Qed.

Definition served (target : string) (dial : string → bool) : list event :=
  if dial target then [Dialed target; reply replyOK; Piped] else [Dialed target; reply replyHostUnreach].

Lemma greets_handle inp rest dial : greets inp rest → handle inp true dial =
  Wrote (byte <$> [version; methodNoAuth]) ::
  match ReadFull 4 rest with
  | None => []
  | Some (req, r) =>
      if negb (at_ req 0 =? version) then []
      else match readAddr r (at_ req 3) with
      | None => [reply replyAtypUnsupp]
      | Some target => if negb (at_ req 1 =? cmdConnect) then [reply replyCmdUnsupported] else served target dial
      end
  end.
Proof.
  intros [v n methods rest' Hv Hn He]. unfold handle.
  rewrite (proj2 (ReadFull_Some 2 (v :: n :: methods ++ rest') [v; n] (methods ++ rest'))) by done.
  cbn [at_ lookup list_lookup]. unfold at_ at 1 2. cbn. rewrite Hv. cbn. rewrite (proj2 (ReadFull_Some _ _ methods rest')) by done.
  assert (existsb (λ m, byte_val m =? methodNoAuth) methods = true) as ->; [|done].
  apply existsb_exists. apply Exists_exists in He as (m & Hm & Hz). exists m. split; [by apply list_elem_of_In|by apply Z.eqb_eq].
Qed.

(** The server dials for a client exactly when the client greeted without
    authentication and asked to CONNECT to an address it spelled in full, and
    then to that address; a name is passed on as written.  It dials at most
    once, and copies only after it told the client it was connected. *)
Theorem handle_dials_exactly (inp : bytes) (dial : string → bool) (target : string) :
  (Dialed target ∈ handle inp true dial ↔ ∃ rest, greets inp rest ∧ requests rest cmdConnect target) ∧
  (Dialed target ∈ handle inp true dial → handle inp true dial = Wrote (byte <$> [version; methodNoAuth]) :: served target dial) ∧
  handle inp false dial = take 1 (handle inp true dial).
Proof.
  assert (Dialed target ∈ handle inp true dial → (∃ rest, greets inp rest ∧ requests rest cmdConnect target)) as Hto.
  { intros H. unfold handle in H. destruct (ReadFull 2 inp) as [[hdr r]|] eqn:E; [|set_solver]. apply ReadFull_Some in E as [-> Hl].
    destruct hdr as [|v [|n [|]]]; try done. unfold at_ at 1 2 in H. cbn in H.
    destruct (Z.eqb_spec (byte_val v) version) as [Hv|]; [|set_solver].
    destruct (ReadFull (Z.to_nat (byte_val n)) r) as [[methods r']|] eqn:E; [|set_solver]. apply ReadFull_Some in E as [-> Hm].
    destruct (existsb _ methods) eqn:Ee; [|set_solver]. apply existsb_exists in Ee as (x & Hx%list_elem_of_In & Hz%Z.eqb_eq). cbn [negb] in H.
    apply elem_of_cons in H as [H|H]; [done|]. destruct (ReadFull 4 r') as [[req r]|] eqn:E; [|set_solver]. apply ReadFull_Some in E as [-> Hr].
    destruct req as [|v' [|cmd [|rsv [|atyp [|]]]]]; try done. unfold at_ in H. cbn in H.
    destruct (Z.eqb_spec (byte_val v') version) as [Hv'|]; [|set_solver]. destruct (readAddr r (byte_val atyp)) as [t|] eqn:Et; [|set_solver].
    destruct (Z.eqb_spec (byte_val cmd) cmdConnect) as [Hc|]; [|set_solver]. cbn [negb] in H.
    assert (t = target) as -> by (destruct (dial t); set_solver).
    exists (v' :: cmd :: rsv :: atyp :: r). split; [apply (greets_noauth v n methods); [exact Hv|exact Hm|]|].
    - apply Exists_exists. by exists x.
    - rewrite <-Hc. constructor; [done|]. by apply readAddr_Some. }
  assert (∀ rest, greets inp rest → requests rest cmdConnect target →
    handle inp true dial = Wrote (byte <$> [version; methodNoAuth]) :: served target dial) as Hfrom.
  { intros rest Hg Hq. rewrite (greets_handle _ _ _ Hg). inversion Hq as [v cmd rsv atyp addr t Hv Ha Er Ec Et]. subst.
    rewrite (proj2 (ReadFull_Some 4 _ [v; cmd; rsv; atyp] addr)) by done. unfold at_. cbn [lookup list_lookup]. rewrite Hv.
    cbn [negb]. rewrite Z.eqb_refl. cbn [negb]. apply readAddr_Some in Ha. rewrite Ha, Ec. done. }
  split_and!.
  - split; [exact Hto|]. intros (rest & Hg & Hq). rewrite (Hfrom rest) by done. right. unfold served. destruct (dial target); by left.
  - intros H. destruct (Hto H) as (rest & Hg & Hq). by apply (Hfrom rest).
  - unfold handle. destruct (ReadFull 2 inp) as [[hdr r]|]; [|done]. destruct (negb (_ =? version)); [done|].
    destruct (ReadFull (Z.to_nat (at_ hdr 1)) r) as [[methods r']|]; [|done]. by destruct (negb (existsb _ methods)).
Qed.

(** A request for a name, as a client writes it. *)
Definition connect_name (name : string) (port : Z) : bytes :=
  (byte <$> [5; 1; 0; 5; 1; 0; 3; Z.of_nat (String.length name)]) ++ String.list_ascii_of_string name ++ [byte (port / 256); byte (port mod 256)].

Example handle_name : handle (connect_name "k8s.fleet.internal" 6443) true (λ _, true) =
  [Wrote (byte <$> [5; 0]); Dialed "k8s.fleet.internal:6443"; reply replyOK; Piped].
Proof. vm_compute. reflexivity. Qed.

(** ** The tracker

    [None] is the nil tracker, which counts nothing. *)

Record Tracker := { open : Z; seen : bool; last_ : time_t }.

Definition zero_Tracker : Tracker := {| open := 0; seen := false; last_ := 0 |}.

Definition begin_ (t : option Tracker) : option Tracker :=
  (λ t, {| open := open t + 1; seen := true; last_ := last_ t |}) <$> t.

(** [now] is read under the lock, when the count falls to zero. *)
Definition end_ (now : time_t) (t : option Tracker) : option Tracker :=
  (λ t, {| open := open t - 1; seen := seen t; last_ := if open t - 1 =? 0 then now else last_ t |}) <$> t.

Definition Open (t : option Tracker) : Z := match t with None => 0 | Some t => open t end.

(** The idle time, or [None] while a client is connected. *)
Definition IdleSince (t : option Tracker) (since now : time_t) : option duration :=
  match t with
  | None => Some (Sub now since)
  | Some t =>
      if 0 <? open t then None
      else Some (Sub now (if seen t && After (last_ t) since then last_ t else since))
  end.

(** *** Clients come and go

    [wrap] begins and ends each client; the lock makes the two atomic, so a
    history of the server is a sequence of them in which no prefix has more
    ends than begins. *)
Inductive visit := Came | Left (now : time_t).

Definition track (t : option Tracker) (v : visit) : option Tracker :=
  match v with Came => begin_ t | Left now => end_ now t end.

Definition connected (h : list visit) : Z := foldr (λ v n, match v with Came => n + 1 | Left _ => n - 1 end) 0 h.

Inductive history : list visit → Prop :=
| history_nil : history []
| history_came h : history h → history (h ++ [Came])
| history_left h now : history h → 0 < connected h → history (h ++ [Left now]).

Lemma connected_app h1 h2 : connected (h1 ++ h2) = connected h1 + connected h2.
Proof. induction h1 as [|[|] h1 IH]; cbn [app connected foldr]; [done|..]; unfold connected in *; lia. Qed.

Definition tracked (h : list visit) : option Tracker := foldl track (Some zero_Tracker) h.

(** When the server was last left by everyone. *)
Definition emptied (h : list visit) : option time_t := match last h with Some (Left now) => Some now | _ => None end.

Record tracker_ok (h : list visit) (t : Tracker) : Prop := {
  tk_open : open t = connected h;
  tk_range : 0 ≤ connected h;
  tk_idle : connected h = 0 → (h = [] ∧ t = zero_Tracker) ∨ (seen t = true ∧ emptied h = Some (last_ t));
}.

Lemma tracked_ok h : history h → ∃ t, tracked h = Some t ∧ tracker_ok h t.
Proof.
  induction 1 as [|h Hh (t & Ht & [Ho Hr Hi])|h now Hh (t & Ht & [Ho Hr Hi]) Hpos].
  - exists zero_Tracker. split; [done|]. split; [done..|]. intros _. by left.
  - unfold tracked in *. rewrite foldl_app, Ht. cbn [foldl track begin_ fmap option_fmap option_map]. eexists. split; [done|].
    split; cbn [open seen last_]; rewrite connected_app; cbn [connected foldr]; lia.
  - unfold tracked in *. rewrite foldl_app, Ht. cbn [foldl track end_ fmap option_fmap option_map]. eexists. split; [done|].
    split; cbn [open seen last_]; rewrite connected_app; cbn [connected foldr]; [lia..|].
    intros Hz. right. unfold emptied. rewrite last_snoc, Ho, (proj2 (Z.eqb_eq _ _)) by lia. split; [|done].
    destruct (seen t) eqn:Es; [done|]. exfalso.
    assert (∀ h t, history h → foldl track (Some zero_Tracker) h = Some t → seen t = false → connected h = 0) as Hseen.
    { clear. intros h t Hh. revert t. induction Hh as [|h Hh IH|h now Hh IH Hpos]; intros t; [done|..]; rewrite foldl_app; cbn [foldl].
      - destruct (foldl track (Some zero_Tracker) h) as [t0|]; [|done]. by intros [= <-].
      - destruct (foldl track (Some zero_Tracker) h) as [t0|]; [|done]. intros [= <-] Hs. cbn [seen] in Hs. specialize (IH t0 eq_refl Hs). lia. }
    specialize (Hseen h t Hh Ht Es). lia.
Qed.

(** The tracker answers for the server's history.  Whatever clients came and
    went, in whatever order, [Open] is how many are connected and never
    negative; [IdleSince] refuses to answer exactly while someone is; and
    otherwise it measures from the moment the last of them left, or from
    [since] when that is later or when nobody ever came. *)
Theorem IdleSince_exact (h : list visit) (since now : time_t) :
  history h →
  Open (tracked h) = connected h ∧ 0 ≤ connected h ∧
  (IdleSince (tracked h) since now = None ↔ connected h ≠ 0) ∧
  (connected h = 0 → IdleSince (tracked h) since now = Some (Sub now (Z.max since (default since (emptied h))))).
Proof.
  intros Hh. destruct (tracked_ok h Hh) as (t & -> & [Ho Hr Hi]). cbn [Open IdleSince]. rewrite Ho.
  split_and!; [done..| |].
  - destruct (Z.ltb_spec 0 (connected h)); split; intros; try done; lia.
  - intros Hz. rewrite Hz. cbn [Z.ltb Z.compare]. f_equal. f_equal.
    destruct (Hi Hz) as [[-> ->]|[-> ->]]; cbn [seen zero_Tracker emptied last default andb]; [lia|].
    unfold After. cbn [default id]. destruct (Z.ltb_spec since (last_ t)); lia.
Qed.

Definition two_clients : list visit := [Came; Came; Left 5; Left 9].

Lemma IdleSince_exact_witness : history two_clients ∧ IdleSince (tracked two_clients) 2 10 = Some 1.
Proof.
  assert (history two_clients) as Hh.
  { apply (history_left [Came; Came; Left 5] 9); [|done]. apply (history_left [Came; Came] 5); [|done].
    apply (history_came [Came]), (history_came []), history_nil. }
  split; [done|]. destruct (IdleSince_exact two_clients 2 10 Hh) as (_ & _ & _ & H). etrans; [exact (H eq_refl)|reflexivity].
Defined.
