(* ===== verification/Gateway.v ===== *)
(** The session broker of the node access gateway
    (internal/nodeaccess/gateway.go): operators' requests, the agents' polls and
    results, and the audit record around each request.  Handlers run at once,
    so a run is a list of actions, one for each stretch a handler runs without
    waiting; what the outside answers (authorizers, the audit store, clocks, who
    hangs up) is part of the action. *)

From Stdlib Require Import Ascii String ZArith Lia.
From S2P Require Import Prelude GoStrings NodeProtocol.
Open Scope Z_scope.

(** ** Data *)

Record Result := { rs_Version : Z; rs_ID : string; Output : string; Error : string }.

Record AuditEvent := {
  RequestID : string; Operator : string; Node : string; ae_TargetKind : string; ae_Operation : string;
  StartedAt : time_t; EndedAt : time_t; Outcome : string;
}.

Definition maxInFlight : nat := 256.
Definition maxResultBytes : Z := 262144.

(** Why a request is turned down, with the status the client sees. *)
Inductive refusal :=
| BadRequest | Unauthorized | Forbidden | NotFound | Conflict | AtCapacity | AuditFailed | ShuttingDown | TimedOut.

Definition status (r : refusal) : Z :=
  match r with
  | BadRequest => 400 | Unauthorized => 401 | Forbidden => 403 | NotFound => 404 | Conflict => 409
  | AtCapacity | AuditFailed | ShuttingDown => 503 | TimedOut => 504
  end.

Definition bearer (header : string) : string :=
  if negb (HasPrefix header "Bearer ") then "" else TrimSpace (TrimPrefix header "Bearer ").

(** ** Whose certificate it is

    A connection's verified certificates, and the certificate an ingress
    forwarded in a header; [x509] unescapes, decodes and parses that header. *)

Record transport := { PeerCertificates : list Certificate; verified : bool; forwarded : string }.

Section gateway.
Context (NodeRoots : option (Certificate → bool)) (x509 : string → option Certificate).

Definition requestPeerCertificate (t : transport) : result string Certificate :=
  match PeerCertificates t, verified t with
  | cert :: _, true => Ok cert
  | _, _ =>
      match NodeRoots with
      | Some trusts =>
          if String.eqb (forwarded t) "" then Err "verified node client certificate required"
          else match x509 (forwarded t) with
          | None => Err "invalid forwarded node certificate"
          | Some cert => if trusts cert then Ok cert else Err "forwarded node certificate is not trusted"
          end
      | None => Err "verified node client certificate required"
      end
  end.

Definition requestNodeIdentity (t : transport) : option string :=
  match requestPeerCertificate t with
  | Ok cert => match NodeIdentity (Some cert) with Ok node => Some node | Err _ => None end
  | Err _ => None
  end.

(** What [poll] and [acceptResult] ask before anything else. *)
Definition agent_node (t : transport) (authorized : bool) : result refusal string :=
  match requestNodeIdentity t with
  | None => Err Unauthorized
  | Some node => if authorized then Ok node else Err Forbidden
  end.

(** ** Sessions *)

Inductive phase := Registered | Recorded | Queued | Finished.

#[export] Instance phase_eq_dec : EqDecision phase.
Proof. solve_decision. Defined.

(** At a [select] that the client's leaving or a shutdown ends. *)
Definition waiting (p : phase) : bool := match p with Recorded | Queued => true | _ => false end.

Record session := {
  s_node : string; s_req : Request; s_operator : string; s_started : time_t; s_phase : phase;
  s_result : option Result;                       (* the channel of capacity one *)
}.

Definition set_phase (p : phase) (se : session) : session :=
  {| s_node := s_node se; s_req := s_req se; s_operator := s_operator se; s_started := s_started se; s_phase := p; s_result := s_result se |}.
Definition set_result (r : Result) (se : session) : session :=
  {| s_node := s_node se; s_req := s_req se; s_operator := s_operator se; s_started := s_started se; s_phase := s_phase se; s_result := Some r |}.

Definition audit_event (se : session) (ended : time_t) (outcome : string) : AuditEvent :=
  {| RequestID := ID (s_req se); Operator := s_operator se; Node := s_node se; ae_TargetKind := TargetKind (s_node se);
     ae_Operation := Operation (s_req se); StartedAt := s_started se; EndedAt := ended; Outcome := outcome |}.
Definition started_event (se : session) : AuditEvent := audit_event se 0 "started".

Inductive event :=
| Audited (s : nat) (e : AuditEvent) (stored : bool)
| Handed (node : string) (r : Request)
| Posted (node : string) (r : Result)
| Answered (s : nat) (r : Result)
| Refused (s : nat) (why : refusal)
| Turned_away (why : refusal).                    (* an agent's request *)

Record gw := {
  queues : gmap string (list Request);
  pending : gmap string (string * nat);           (* node and session of a request id *)
  sessions : gmap nat session;
  closed : bool;
  log : list event;
}.

Definition NewGateway : gw := {| queues := ∅; pending := ∅; sessions := ∅; closed := false; log := [] |}.

Definition say (e : event) (w : gw) : gw :=
  {| queues := queues w; pending := pending w; sessions := sessions w; closed := closed w; log := log w ++ [e] |}.
Definition with_session (s : nat) (se : session) (w : gw) : gw :=
  {| queues := queues w; pending := pending w; sessions := <[s := se]> (sessions w); closed := closed w; log := log w |}.
Definition with_queue (node : string) (q : list Request) (w : gw) : gw :=
  {| queues := <[node := q]> (queues w); pending := pending w; sessions := sessions w; closed := closed w; log := log w |}.
Definition removePending (id : string) (w : gw) : gw :=
  {| queues := queues w; pending := delete id (pending w); sessions := sessions w; closed := closed w; log := log w |}.

Definition queue_of (w : gw) (node : string) : list Request := default [] (queues w !! node).

(** *** [startSession]

    Its checks, in the source's order; [operator] and [available] are what the
    two authorizers answer when they are reached, [now] the clock when the
    request is validated and [started] the clock after they answered. *)
Definition admission (body : option (string * Request)) (auth : string) (operator : option string) (available : bool) (now started : time_t)
    : result refusal session :=
  match body with
  | None => Err BadRequest
  | Some (node, req) =>
      if negb (is_ok (NodeURI node)) then Err BadRequest
      else if negb (is_ok (Validate req now)) then Err BadRequest
      else if String.eqb (bearer auth) "" then Err Unauthorized
      else match operator with
      | None => Err Forbidden
      | Some op =>
          if String.eqb op "" then Err Forbidden
          else if negb available then Err NotFound
          else Ok {| s_node := node; s_req := req; s_operator := op; s_started := started; s_phase := Registered; s_result := None |}
      end
  end.

(** The part under the lock. *)
Definition register (s : nat) (se : session) (w : gw) : gw :=
  let id := ID (s_req se) in
  if (maxInFlight <=? size (pending w))%nat then say (Refused s AtCapacity) w
  else if bool_decide (is_Some (pending w !! id)) then say (Refused s Conflict) w
  else
    let w := with_queue (s_node se) (queue_of w (s_node se)) w in
    with_session s se {| queues := queues w; pending := <[id := (s_node se, s)]> (pending w); sessions := sessions w;
                         closed := closed w; log := log w |}.

Definition finish (s : nat) (se : session) (w : gw) : gw := with_session s (set_phase Finished se) w.
Definition abandon (s : nat) (se : session) (w : gw) : gw := finish s se (removePending (ID (s_req se)) w).

Definition outcome_of (r : Result) : string := if String.eqb (Error r) "" then "completed" else "failed".

(** *** What the agents send *)

Definition acceptable (r : Result) : bool :=
  (rs_Version r =? ProtocolVersion) && requestIDPattern (rs_ID r)
  && (Z.of_nat (String.length (Output r)) <=? maxResultBytes) && (Z.of_nat (String.length (Error r)) <=? 8192).

Definition acceptResult (t : transport) (authorized : bool) (body : option Result) (w : gw) : gw :=
  match agent_node t authorized with
  | Err why => say (Turned_away why) w
  | Ok node =>
      match body with
      | None => say (Turned_away BadRequest) w
      | Some r =>
          if negb (acceptable r) then say (Turned_away BadRequest) w
          else match pending w !! rs_ID r with
          | None => say (Turned_away NotFound) w
          | Some (n, s) =>
              if negb (String.eqb n node) then say (Turned_away NotFound) w
              else
                let w := removePending (rs_ID r) w in
                match sessions w !! s with
                | Some se =>
                    match s_result se with
                    | None => say (Posted node r) (with_session s (set_result r se) w)
                    | Some _ => say (Turned_away Conflict) w
                    end
                | None => w
                end
          end
      end
  end.

(** [take]: whether the poll's select took a request, when there is one. *)
Definition poll (t : transport) (authorized take : bool) (w : gw) : gw :=
  match agent_node t authorized with
  | Err why => say (Turned_away why) w
  | Ok node =>
      match queue_of w node, take with
      | r :: q, true => say (Handed node r) (with_queue node q w)
      | q, _ => let w := with_queue node q w in if closed w then say (Turned_away ShuttingDown) w else w
      end
  end.

(** *** A run *)

Inductive action :=
| Start (s : nat) (body : option (string * Request)) (auth : string) (operator : option string) (available : bool) (now started : time_t)
| Record_start (s : nat) (stored : bool)
| Enqueue (s : nat)
| Take (s : nat) (stored : bool) (now : time_t)
| Expire (s : nat) (stored : bool) (now : time_t)
| Hang_up (s : nat) (stored : bool) (now : time_t)
| Shut (s : nat)
| Poll (t : transport) (authorized take : bool)
| Post (t : transport) (authorized : bool) (body : option Result)
| Close.

(** One action, when it can happen. *)
Definition act (w : gw) (a : action) : option gw :=
  match a with
  | Start s body auth operator available now started =>
      guard (sessions w !! s = None);;
      Some match admission body auth operator available now started with
           | Err why => say (Refused s why) w
           | Ok se => register s se w
           end
  | Record_start s stored =>
      se ← sessions w !! s; guard (s_phase se = Registered);;
      let w := say (Audited s (started_event se) stored) w in
      Some (if stored then with_session s (set_phase Recorded se) w else say (Refused s AuditFailed) (abandon s se w))
  | Enqueue s =>
      se ← sessions w !! s; guard (s_phase se = Recorded);;
      let q := queue_of w (s_node se) in
      guard (length q < maxInFlight)%nat;;
      Some (with_session s (set_phase Queued se) (with_queue (s_node se) (q ++ [s_req se]) w))
  | Take s stored now =>
      se ← sessions w !! s; guard (s_phase se = Queued);; r ← s_result se;
      let w := say (Audited s (audit_event se now (outcome_of r)) stored) (finish s se w) in
      Some (say (if stored then Answered s r else Refused s AuditFailed) w)
  | Expire s stored now =>
      se ← sessions w !! s; guard (s_phase se = Queued);; guard (Deadline (s_req se) ≤ now);;
      Some (say (Refused s TimedOut) (say (Audited s (audit_event se now "timeout") stored) (abandon s se w)))
  | Hang_up s stored now =>
      se ← sessions w !! s;
      match s_phase se with
      | Recorded => Some (abandon s se w)
      | Queued => Some (say (Audited s (audit_event se now "cancelled") stored) (abandon s se w))
      | _ => None
      end
  | Shut s =>
      guard (closed w = true);; se ← sessions w !! s;
      guard (waiting (s_phase se) = true);;
      Some (say (Refused s ShuttingDown) (abandon s se w))
  | Poll t authorized take => Some (poll t authorized take w)
  | Post t authorized body => Some (acceptResult t authorized body w)
  | Close => Some {| queues := queues w; pending := pending w; sessions := sessions w; closed := true; log := log w |}
  end.

Fixpoint run (w : gw) (acts : list action) : option gw :=
  match acts with [] => Some w | a :: acts' => w' ← act w a; run w' acts' end.
End gateway.

(** ** What holds of every run *)

Section accountability.
Context (NodeRoots : option (Certificate → bool)) (x509 : string → option Certificate).

Notation identity := (requestNodeIdentity NodeRoots x509).
Notation step := (act NodeRoots x509).

(** The session was admitted: its operator presented a credential, the
    authorizers accepted the operator and the node, and the request was valid
    when it came. *)
Definition admitted (hist : list action) (s : nat) (se : session) : Prop :=
  ∃ auth now, Start s (Some (s_node se, s_req se)) auth (Some (s_operator se)) true now (s_started se) ∈ hist ∧
    bearer auth ≠ "" ∧ s_operator se ≠ "" ∧ Validate (s_req se) now = Ok tt.

(** What must have happened before an event. *)
Definition justified (hist : list action) (before : list event) (e : event) : Prop :=
  match e with
  | Handed node r =>
      (∃ t, Poll t true true ∈ hist ∧ identity t = Some node) ∧
      ∃ s se, admitted hist s se ∧ s_node se = node ∧ s_req se = r ∧ Audited s (started_event se) true ∈ before
  | Posted node r => acceptable r = true ∧ ∃ t, Post t true (Some r) ∈ hist ∧ identity t = Some node
  | Answered s r =>
      ∃ se now, admitted hist s se ∧ Posted (s_node se) r ∈ before ∧ rs_ID r = ID (s_req se) ∧
        Audited s (audit_event se now (outcome_of r)) true ∈ before ∧ ∀ r', Answered s r' ∉ before
  | _ => True
  end.

Record session_ok (hist : list action) (l : list event) (s : nat) (se : session) : Prop := {
  so_admitted : admitted hist s se;
  so_audited : s_phase se = Recorded ∨ s_phase se = Queued → Audited s (started_event se) true ∈ l;
  so_result : ∀ r, s_result se = Some r → Posted (s_node se) r ∈ l ∧ rs_ID r = ID (s_req se);
  so_open : s_phase se ≠ Finished → ∀ r, Answered s r ∉ l;
}.

Record gw_ok (hist : list action) (w : gw) : Prop := {
  go_log : ∀ l1 e l2, log w = l1 ++ e :: l2 → justified hist l1 e;
  go_pending : ∀ id n s, pending w !! id = Some (n, s) →
    ∃ se, sessions w !! s = Some se ∧ s_node se = n ∧ ID (s_req se) = id ∧ s_phase se ≠ Finished ∧ s_result se = None;
  go_size : (size (pending w) ≤ maxInFlight)%nat;
  go_session : ∀ s se, sessions w !! s = Some se → session_ok hist (log w) s se;
  go_queue : ∀ node r, r ∈ queue_of w node →
    ∃ s se, admitted hist s se ∧ s_node se = node ∧ s_req se = r ∧ Audited s (started_event se) true ∈ log w;
  go_answered : ∀ s r, Answered s r ∈ log w → is_Some (sessions w !! s);
}.

Lemma admitted_mono hist hist' s se : hist ⊆ hist' → admitted hist s se → admitted hist' s se.
Proof. intros Hs (auth & now & Ha & H). exists auth, now. split; [by apply Hs|done]. Qed.

Lemma justified_mono hist hist' l e : hist ⊆ hist' → justified hist l e → justified hist' l e.
Proof.
  intros Hs. destruct e; cbn; try done.
  - intros [(t & Ht & Hi) (s & se & Ha & H)]. split; [exists t; split; [by apply Hs|done]|]. exists s, se. split; [by eapply admitted_mono|done].
  - intros [Ha (t & Ht & Hi)]. split; [done|]. exists t. split; [by apply Hs|done].
  - intros (se & now & Ha & H). exists se, now. split; [by eapply admitted_mono|done].
Qed.

Lemma session_ok_mono hist hist' l e s se : hist ⊆ hist' →
  (∀ r, e = Answered s r → s_phase se = Finished) → session_ok hist l s se → session_ok hist' (l ++ [e]) s se.
Proof.
  intros Hs He [H1 H2 H3 H4]. split; [by eapply admitted_mono| | |].
  - intros H. apply elem_of_app. left. auto.
  - intros r Hr. destruct (H3 r Hr). split; [|done]. apply elem_of_app. by left.
  - intros Hf r [Hr|Hr%list_elem_of_singleton]%elem_of_app; [by eapply H4|]. by destruct Hf; eapply He.
Qed.

Lemma gw_ok_mono hist hist' w : hist ⊆ hist' → gw_ok hist w → gw_ok hist' w.
Proof.
  intros Hs [H1 H2 H3 H4 H5 H6]. split; [|done..| | |done].
  - intros l1 e l2 E. eapply justified_mono; [done|by eapply H1].
  - intros s se E. destruct (H4 s se E). split; [by eapply admitted_mono|done..].
  - intros node r Hr. destruct (H5 node r Hr) as (s & se & Ha & ?). exists s, se. split; [by eapply admitted_mono|done].
Qed.

Lemma snoc_split {A} (l l1 l2 : list A) (x e : A) : l ++ [x] = l1 ++ e :: l2 →
  (l = l1 ∧ x = e) ∨ ∃ l2', l = l1 ++ e :: l2'.
Proof.
  destruct l2 as [|y l2 _] using rev_ind; intros E.
  - apply app_inj_tail in E as [-> ->]. by left.
  - rewrite app_comm_cons, app_assoc in E. apply app_inj_tail in E as [-> _]. right. by eexists.
Qed.

Lemma say_ok hist w e : gw_ok hist w → justified hist (log w) e →
  (∀ s r, e = Answered s r → ∃ se, sessions w !! s = Some se ∧ s_phase se = Finished) → gw_ok hist (say e w).
Proof.
  intros [H1 H2 H3 H4 H5 H6] Hj He. split; cbn [log pending sessions say]; [|done..| | |].
  - intros l1 e' l2 [[<- <-]|[l2' E]]%snoc_split; [done|by eapply H1].
  - intros s se E. apply (session_ok_mono hist); [done| |by apply H4]. intros r ->. destruct (He s r eq_refl) as (se' & E' & ?). by simplify_eq.
  - intros node r Hr. destruct (H5 node r Hr) as (s & se & ? & ? & ? & ?). exists s, se. split_and!; try done. apply elem_of_app. by left.
  - intros s r [Hr|Hr%list_elem_of_singleton]%elem_of_app; [by eapply H6|]. destruct (He s r (eq_sym Hr)) as (se & -> & _). by eexists.
Qed.

(** A session moves on: it keeps what it is, and what is pending of it. *)
Lemma with_session_ok hist w s se : gw_ok hist w → session_ok hist (log w) s se →
  (∀ id n, pending w !! id = Some (n, s) → s_node se = n ∧ ID (s_req se) = id ∧ s_phase se ≠ Finished ∧ s_result se = None) →
  gw_ok hist (with_session s se w).
Proof.
  intros [H1 H2 H3 H4 H5 H6] Hs Hp. split; cbn [log pending sessions with_session]; [done| |done| |done|].
  - intros id n s' E. destruct (decide (s' = s)) as [->|Hne]; [rewrite lookup_insert_eq; eauto|]. rewrite lookup_insert_ne by done. by apply H2.
  - intros s' se' [[<- <-]|[_ E]]%lookup_insert_Some; [done|by apply H4].
  - intros s' r Hr. apply lookup_insert_is_Some'. right. by eapply H6.
Qed.

Lemma removePending_ok hist w id : gw_ok hist w → gw_ok hist (removePending id w).
Proof.
  intros [H1 H2 H3 H4 H5 H6]. split; cbn [log pending sessions removePending]; [done| | |done..].
  - intros id' n s [_ E]%lookup_delete_Some. by apply H2.
  - rewrite map_size_delete. destruct (pending w !! id); cbn; lia.
Qed.

Lemma with_queue_ok hist w node q : gw_ok hist w →
  (∀ r, r ∈ q → ∃ s se, admitted hist s se ∧ s_node se = node ∧ s_req se = r ∧ Audited s (started_event se) true ∈ log w) →
  gw_ok hist (with_queue node q w).
Proof.
  intros [H1 H2 H3 H4 H5 H6] Hq. split; cbn [log pending sessions with_queue]; try done.
  intros node' r Hr. unfold queue_of, with_queue in Hr. cbn in Hr. destruct (decide (node' = node)) as [->|Hne].
  - rewrite lookup_insert_eq in Hr. by apply Hq.
  - rewrite lookup_insert_ne in Hr by done. by apply H5.
Qed.

Lemma abandon_ok hist w s se : gw_ok hist w → sessions w !! s = Some se → gw_ok hist (abandon s se w).
Proof.
  intros H E. unfold abandon, finish. apply with_session_ok; [by apply removePending_ok| |].
  - destruct (go_session _ _ H s se E) as [Ha Hb Hc Hd]. split; cbn; try done. by intros [].
  - cbn [pending removePending]. intros id n [Hne Ep]%lookup_delete_Some. destruct (go_pending _ _ H _ _ _ Ep) as (se' & E' & _ & Hid & _). by simplify_eq.
Qed.

Lemma admit_Ok body auth operator available now started se : admission body auth operator available now started = Ok se →
  body = Some (s_node se, s_req se) ∧ operator = Some (s_operator se) ∧ available = true ∧ s_started se = started ∧
  bearer auth ≠ "" ∧ s_operator se ≠ "" ∧ Validate (s_req se) now = Ok tt ∧ s_phase se = Registered ∧ s_result se = None.
Proof.
  unfold admission. destruct body as [[node req]|]; [|done]. destruct (NodeURI node); [|done]. cbn [is_ok negb].
  destruct (Validate req now) as [[]|] eqn:Hv; [|done]. cbn [is_ok negb]. destruct (String.eqb_spec (bearer auth) ""); [done|].
  destruct operator as [op|]; [|done]. destruct (String.eqb_spec op ""); [done|]. destruct available; [|done].
  intros [= <-]. cbn. done.
Qed.

Lemma register_ok hist w s se : gw_ok hist w → sessions w !! s = None → admitted hist s se →
  s_phase se = Registered → s_result se = None → gw_ok hist (register s se w).
Proof.
  intros H Hs Ha Hp Hr. unfold register. destruct (Nat.leb_spec maxInFlight (size (pending w))) as [|Hsz]; [by apply say_ok|].
  case_bool_decide as Hid; [by apply say_ok|]. apply eq_None_not_Some in Hid.
  set (w1 := with_queue _ _ w). assert (gw_ok hist w1) as H1 by (apply with_queue_ok; [done|by apply (go_queue _ _ H)]).
  assert (session_ok hist (log w) s se) as Hso.
  { split; [done| | |].
    - rewrite Hp. by intros [].
    - by rewrite Hr.
    - intros _ r Hin. apply (go_answered _ _ H) in Hin as [? E]. by rewrite Hs in E. }
  destruct H1 as [G1 G2 G3 G4 G5 G6]. split; cbn [log pending sessions with_session w1 with_queue] in *; [done| | | |done|].
  - intros id n s' [[<- [= <- <-]]|[_ E]]%lookup_insert_Some.
    + exists se. rewrite lookup_insert_eq, Hp. done.
    + destruct (G2 _ _ _ E) as (se' & E' & ?). exists se'. rewrite lookup_insert_ne by congruence. done.
  - rewrite map_size_insert_None by done. lia.
  - intros s' se' [[<- <-]|[_ E]]%lookup_insert_Some; [done|by apply G4].
  - intros s' r Hin. apply lookup_insert_is_Some'. right. by eapply G6.
Qed.

Lemma acceptResult_ok hist w t authorized body : gw_ok hist w → Post t authorized body ∈ hist →
  gw_ok hist (acceptResult NodeRoots x509 t authorized body w).
Proof.
  intros H Hin. unfold acceptResult, agent_node. destruct (identity t) as [node|] eqn:Ei; [|by apply say_ok].
  destruct authorized; [|by apply say_ok]. destruct body as [r|]; [|by apply say_ok].
  destruct (acceptable r) eqn:Ea; [|by apply say_ok]. cbn [negb].
  destruct (pending w !! rs_ID r) as [[n s]|] eqn:Ep; [|by apply say_ok].
  destruct (String.eqb_spec n node) as [->|]; [|by apply say_ok]. cbn [negb].
  destruct (go_pending _ _ H _ _ _ Ep) as (se & Es & Hn & Hid & Hf & Hr). cbn [sessions removePending]. rewrite Es, Hr.
  set (w1 := with_session _ _ _).
  assert (justified hist (log w) (Posted node r)) as Hj by (split; [done|]; by exists t).
  assert (gw_ok hist (say (Posted node r) (removePending (rs_ID r) w))) as Hsaid by (apply say_ok; [by apply removePending_ok|done|done]).
  assert (gw_ok hist (with_session s (set_result r se) (say (Posted node r) (removePending (rs_ID r) w)))) as Hw.
  { apply with_session_ok; [done| |].
    - destruct (go_session _ _ Hsaid s se Es) as [Ha Hb Hc Hd]. split; cbn [s_node s_req s_phase s_result set_result]; try done.
      intros r' [= <-]. split; [|done]. rewrite Hn. apply elem_of_app. right. by left.
    - cbn [pending say removePending]. intros id n' [Hne E]%lookup_delete_Some. destruct (go_pending _ _ H _ _ _ E) as (se' & E' & _ & Hid' & _). simplify_eq. }
  exact Hw.
Qed.

Lemma poll_ok hist w t authorized take : gw_ok hist w → Poll t authorized take ∈ hist →
  gw_ok hist (poll NodeRoots x509 t authorized take w).
Proof.
  intros H Hin. unfold poll, agent_node. destruct (identity t) as [node|] eqn:Ei; [|by apply say_ok].
  destruct authorized; [|by apply say_ok]. pose proof (go_queue _ _ H node) as Hq.
  assert (∀ q, (∀ r, r ∈ q → r ∈ queue_of w node) → gw_ok hist (with_queue node q w)) as Hw by (intros q Hsub; apply with_queue_ok; eauto).
  assert (gw_ok hist (if closed (with_queue node (queue_of w node) w) then say (Turned_away ShuttingDown) (with_queue node (queue_of w node) w)
                      else with_queue node (queue_of w node) w)) as Hidle by (case_if; [apply say_ok; [by apply Hw|done|done]|by apply Hw]).
  destruct (queue_of w node) as [|r q] eqn:Eq; [exact Hidle|]. destruct take; [|exact Hidle].
  apply say_ok; [apply Hw; intros ?; by right| |done]. split; [by exists t|]. apply Hq. by left.
Qed.

(** The session a step is about, as [x]. *)
Ltac name_session w s :=
  match goal with Hs : sessions w !! s = Some ?se |- _ =>
    try match goal with Hp : s_phase se = _ |- _ => rename Hp into Ep end;
    rename se into x; rename Hs into Es end.

Lemma act_ok hist w a w' : gw_ok hist w → step w a = Some w' → gw_ok (hist ++ [a]) w'.
Proof.
  intros H0 E. assert (gw_ok (hist ++ [a]) w) as H by (eapply gw_ok_mono; [|done]; set_solver).
  assert (a ∈ hist ++ [a]) as Ha by set_solver. set (hist' := hist ++ [a]) in *. clearbody hist'. clear H0 hist.
  destruct a as [s body auth operator available now started|s stored|s|s stored now|s stored now|s stored now|s|t authorized take|t authorized body|];
    cbn [act] in E; simplify_option_eq.
  - destruct (admission _ _ _ _ _ _) as [se|why] eqn:Ead; [|by apply say_ok].
    apply admit_Ok in Ead as (-> & -> & -> & <- & Hb & Hop & Hv & Hp & Hr). apply register_ok; try done. exists auth, now. done.
  - name_session w s.
    assert (gw_ok hist' (say (Audited s (started_event x) stored) w)) as Hs by by apply say_ok.
    destruct stored; [|apply say_ok; [by apply abandon_ok|done|done]].
    apply with_session_ok; [done| |].
    + destruct (go_session _ _ Hs s x Es) as [Ga Gb Gc Gd]. split; cbn [s_phase s_result s_node s_req set_phase]; try done.
      * intros _. cbn [log say]. apply elem_of_app. right. by left.
      * intros _. apply Gd. by rewrite Ep.
    + intros id n E. destruct (go_pending _ _ H _ _ _ E) as (se' & E' & ?). simplify_eq. naive_solver.
  - name_session w s.
    destruct (go_session _ _ H s x Es) as [Ga Gb Gc Gd].
    apply with_session_ok.
    + apply with_queue_ok; [done|]. intros r [Hr|Hr%list_elem_of_singleton]%elem_of_app; [by apply (go_queue _ _ H)|]. subst r.
      exists s, x. split_and!; try done. apply Gb. by left.
    + cbn [log with_queue]. split; cbn [s_phase s_result s_node s_req set_phase]; try done; [intros _; apply Gb; by left|intros _; apply Gd; by rewrite Ep].
    + cbn [pending with_queue]. intros id n E. destruct (go_pending _ _ H _ _ _ E) as (se' & E' & ?). simplify_eq. naive_solver.
  - name_session w s. match goal with Hx : s_result x = Some ?r0 |- _ => rename r0 into r; rename Hx into Er end.
    destruct (go_session _ _ H s x Es) as [Ga Gb Gc Gd]. destruct (Gc r Er) as [Hpost Hid].
    assert (gw_ok hist' (finish s x w)) as Hfin.
    { apply with_session_ok; [done| |].
      - split; cbn [s_phase s_result s_node s_req set_phase]; try done. by intros [].
      - intros id n E. destruct (go_pending _ _ H _ _ _ E) as (se' & E' & ?). simplify_eq. naive_solver. }
    assert (sessions (finish s x w) !! s = Some (set_phase Finished x)) as Hself by apply lookup_insert_eq.
    apply say_ok; [by apply say_ok| |].
    + destruct stored; [|done]. exists x, now. cbn [log say finish with_session]. split_and!; try done.
      * apply elem_of_app. by left.
      * apply elem_of_app. right. by left.
      * intros r' [Hr|Hr%list_elem_of_singleton]%elem_of_app; [|done]. apply (Gd ltac:(by rewrite Ep) r' Hr).
    + intros s' r' Hr. destruct stored; [|done]. injection Hr as <- <-. exists (set_phase Finished x). done.
  - name_session w s. apply say_ok; [apply say_ok; [by apply abandon_ok|done|done]|done|done].
  - name_session w s. destruct (s_phase x); simplify_eq; [by apply abandon_ok|]. apply say_ok; [by apply abandon_ok|done|done].
  - name_session w s. apply say_ok; [by apply abandon_ok|done|done].
  - by apply poll_ok.
  - by apply acceptResult_ok.
  - destruct H as [H1 H2 H3 H4 H5 H6]. by split.
Qed.

Lemma NewGateway_ok : gw_ok [] NewGateway.
Proof.
  split; cbn; try done; try set_solver.
  - by intros [|] ? ?.
  - rewrite map_size_empty. unfold maxInFlight. lia.
Qed.

Lemma run_ok acts : ∀ hist w w', gw_ok hist w → run NodeRoots x509 w acts = Some w' → gw_ok (hist ++ acts) w'.
Proof.
  induction acts as [|a acts IH]; intros hist w w' H E; cbn [run] in E; simplify_option_eq; [by rewrite app_nil_r|].
  rewrite (cons_middle a), (assoc_L (++)). eapply IH; [by eapply act_ok|done].
Qed.

(** C11. Whatever operators, agents and the outside do, and in whatever order, a
    request reaches an agent only if the agent's certificate proves the node the
    request is for, a credentialed operator was authorized for it, the request
    is valid, and its start is already in the audit store; a result reaches a
    client only if that node posted it under the request's id and the end is in
    the audit store; a session is answered at most once; at most 256 requests
    are in flight, and each of them belongs to a session that has not ended. *)
Theorem sessions_are_accountable (acts : list action) (w : gw) :
  run NodeRoots x509 NewGateway acts = Some w →
  (∀ l1 e l2, log w = l1 ++ e :: l2 → justified acts l1 e) ∧
  (size (pending w) ≤ maxInFlight)%nat ∧
  (∀ id n s, pending w !! id = Some (n, s) →
     ∃ se, sessions w !! s = Some se ∧ s_node se = n ∧ ID (s_req se) = id ∧ s_phase se ≠ Finished).
Proof.
  intros H%(run_ok acts [] NewGateway); [|apply NewGateway_ok]. split_and!; [apply (go_log _ _ H)|apply (go_size _ _ H)|].
  intros id n s E. destruct (go_pending _ _ H _ _ _ E) as (se & ? & ? & ? & ? & _). by exists se.
Qed.
End accountability.

(** ** Concrete runs *)

Definition demo_node : string := "sre-srv-01".
Definition other_node : string := "sre-srv-02".
Definition agent_of (node : string) : transport :=
  {| PeerCertificates := [[hostPrefix +:+ node]]; verified := true; forwarded := "" |}.
Definition demo_request (id op : string) (deadline : time_t) : Request :=
  {| Version := 1; ID := id; Operation := op; Params := ∅; Deadline := deadline |}.
Definition demo_result (id out : string) : Result := {| rs_Version := 1; rs_ID := id; Output := out; Error := "" |}.
Definition start (s : nat) (node id op operator : string) (now : time_t) : action :=
  Start s (Some (node, demo_request id op (now + Minute))) "Bearer hvs.token" (Some operator) true now now.
Definition demo_run : list action → option gw := run None (λ _, None) NewGateway.
Definition opened (s : nat) (node id op operator : string) (now : time_t) : list action :=
  [start s node id op operator now; Record_start s true; Enqueue s].
Definition take_one (node : string) : action := Poll (agent_of node) true true.
Definition post_one (node id out : string) : action := Post (agent_of node) true (Some (demo_result id out)).

Definition one_session : list action :=
  opened 0 demo_node "request1" OperationHostStatus "alice" 5 ++ [take_one demo_node; post_one demo_node "request1" "up"; Take 0 true 9].

Definition final_log (acts : list action) : list event := match demo_run acts with Some w => log w | None => [] end.

Lemma sessions_are_accountable_witness :
  ∃ w, demo_run one_session = Some w ∧ last (log w) = Some (Answered 0 (demo_result "request1" "up")) ∧ (size (pending w) ≤ maxInFlight)%nat.
Proof.
  assert (∃ w, demo_run one_session = Some w ∧ last (log w) = Some (Answered 0 (demo_result "request1" "up"))) as (w & E & L).
  { eexists. split; [vm_compute; reflexivity|reflexivity]. }
  exists w. split_and!; [exact E|exact L|]. exact (proj1 (proj2 (sessions_are_accountable None (λ _, None) one_session w E))).
Defined.

(** *** What an id does not tell apart

    Request ids are the operators' choice.  After a request timed out its id is
    free, and the result its agent posts afterwards is taken for the next
    request with that id on that node, whatever that one asked. *)
Definition reused_id : list action :=
  opened 0 demo_node "request1" OperationHostStatus "alice" 5 ++
  [take_one demo_node; Expire 0 true (5 + Minute)] ++
  opened 1 demo_node "request1" OperationContainerList "bob" (6 + Minute) ++
  [post_one demo_node "request1" "up"; Take 1 true (7 + Minute)].

Lemma late_result_answers_another_request :
  last (final_log reused_id) = Some (Answered 1 (demo_result "request1" "up")) ∧
  (∀ r, Handed demo_node r ∈ final_log reused_id → Operation r = OperationHostStatus).
Proof.
  split; [vm_compute; reflexivity|]. intros r Hr.
  assert (Forall (λ e, match e with Handed _ r => Operation r = OperationHostStatus | _ => True end) (final_log reused_id)) as H.
  { vm_compute. repeat constructor. }
  rewrite Forall_forall in H. exact (H _ Hr).
Qed.

(** A result that arrives as its session's timer fires leaves the id free for a
    moment; the timeout then forgets whoever took it. *)
Definition crossed_timeout : list action :=
  opened 0 demo_node "request1" OperationHostStatus "alice" 5 ++
  [take_one demo_node; post_one demo_node "request1" "up"] ++
  opened 1 demo_node "request1" OperationHostStatus "bob" Minute ++
  [Expire 0 true (5 + Minute); take_one demo_node; post_one demo_node "request1" "up again"].

Lemma timeout_forgets_another_request :
  last (final_log crossed_timeout) = Some (Turned_away NotFound) ∧
  (s_phase <$> (demo_run crossed_timeout ≫= λ w, sessions w !! 1%nat)) = Some Queued.
Proof. split; vm_compute; reflexivity. Qed.

(** *** What a queue keeps

    A request whose client hung up stays in the queue, so it is still handed to
    the agent, after the audit store was told it was cancelled. *)
Lemma cancelled_request_still_runs :
  let l := final_log (opened 0 demo_node "request1" OperationHostStatus "alice" 5 ++ [Hang_up 0 true 6; take_one demo_node]) in
  Outcome <$> omap (λ e, match e with Audited _ e _ => Some e | _ => None end) l = ["started"; "cancelled"] ∧
  last l = Some (Handed demo_node (demo_request "request1" OperationHostStatus (5 + Minute))).
Proof. split; vm_compute; reflexivity. Qed.

(** Nothing else empties a queue, and a session that waits for room in one waits
    without its deadline.  256 requests that were given up fill the queue of a
    node that is offline; 256 more then hold every slot of the gateway, and a
    request for any other node is turned away however long ago their deadlines
    passed. *)
Definition nth_id (i : nat) : string := "request-" +:+ Itoa (Z.of_nat i).
Definition given_up : list action :=
  (seq 0 256) ≫= λ i, opened i demo_node (nth_id i) OperationHostStatus "alice" 5 ++ [Hang_up i true 6].
Definition stuck : list action :=
  (seq 256 256) ≫= λ i, [start i demo_node (nth_id i) OperationHostStatus "alice" 7; Record_start i true].
Definition jammed : list action := given_up ++ stuck.

Definition waits_for_room (w : gw) (i : nat) : bool :=
  match sessions w !! i with
  | Some se => bool_decide (s_phase se = Recorded) && (Deadline (s_req se) <? 7 + 2 * Minute)
               && (maxInFlight <=? length (queue_of w (s_node se)))%nat
  | None => false
  end.

Lemma stale_queue_jams_the_gateway :
  match demo_run jammed with
  | Some w => forallb (waits_for_room w) (seq 256 256) = true ∧
      (log <$> act None (λ _, None) w (start 999 other_node "request-x" OperationHostStatus "bob" (7 + 2 * Minute)))
        = Some (log w ++ [Refused 999 AtCapacity])
  | None => False
  end.
Proof.
  destruct (demo_run jammed) as [w|] eqn:E.
  - assert ((λ w, (forallb (waits_for_room w) (seq 256 256), size (pending w))) <$> demo_run jammed = Some (true, 256%nat)) as H by (vm_compute; reflexivity).
    rewrite E in H. cbn [fmap option_fmap option_map] in H. injection H as H1 H2. split; [exact H1|].
    assert (sessions w !! 999%nat = None) as Hn.
    { assert ((λ w, bool_decide (sessions w !! 999%nat = None)) <$> demo_run jammed = Some true) as H by (vm_compute; reflexivity).
      rewrite E in H. injection H as H. by apply bool_decide_eq_true in H. }
    unfold start. cbn [act]. rewrite Hn. destruct (admission _ _ _ _ _ _) as [se|] eqn:Ea; [|by vm_compute in Ea].
    unfold register. rewrite H2. cbn. done.
  - exfalso. assert (bool_decide (is_Some (demo_run jammed)) = true) as H by (vm_compute; reflexivity). by rewrite E in H.
Qed.

Lemma waits_without_deadline w i stored now : waits_for_room w i = true →
  act None (λ _, None) w (Enqueue i) = None ∧ act None (λ _, None) w (Expire i stored now) = None ∧ act None (λ _, None) w (Take i stored now) = None.
Proof.
  unfold waits_for_room. destruct (sessions w !! i) as [se|] eqn:Es; [|done]. intros [[Hp _]%andb_true_iff Hq]%andb_true_iff.
  apply bool_decide_eq_true in Hp. apply Nat.leb_le in Hq. cbn [act]. rewrite Es. cbn [mbind option_bind]. rewrite Hp.
  split_and!; [|done|done]. case_guard; [|done]. case_guard; [lia|done].
Qed.
