(* ===== verification/GatewayShell.v ===== *)
(** Interactive shells through the node access gateway
    (internal/nodeaccess/gateway.go: agentShellStream, startShell, finishShell;
    shell.go: the messages).  As in [Gateway], a run is a list of actions, one
    for each stretch a goroutine runs without waiting. *)

From Stdlib Require Import Ascii String ZArith Lia.
From S2P Require Import Prelude GoStrings NodeProtocol Gateway.
Open Scope Z_scope.

(** ** Data *)

Record ShellMessage := {
  Type_ : string; SessionID : string; Data : string; Columns : Z; Rows : Z; ExitCode : Z; sm_Error : string;
}.

Definition message (type id : string) : ShellMessage :=
  {| Type_ := type; SessionID := id; Data := ""; Columns := 0; Rows := 0; ExitCode := 0; sm_Error := "" |}.
Definition error_message (id text : string) : ShellMessage :=
  {| Type_ := "error"; SessionID := id; Data := ""; Columns := 0; Rows := 0; ExitCode := 0; sm_Error := text |}.
Definition start_message (id : string) : ShellMessage :=
  {| Type_ := "start"; SessionID := id; Data := ""; Columns := 80; Rows := 24; ExitCode := 0; sm_Error := "" |}.
Definition with_id (id : string) (m : ShellMessage) : ShellMessage :=
  {| Type_ := Type_ m; SessionID := id; Data := Data m; Columns := Columns m; Rows := Rows m; ExitCode := ExitCode m; sm_Error := sm_Error m |}.

Definition is_type (m : ShellMessage) (ts : list string) : bool := slices_Contains ts (Type_ m).

Definition maxShellSessions : nat := 32.
Definition output_room : nat := 32.

(** An agent's stream: its reader may hold a message for a session whose buffer
    is full. *)
Record peer := { p_node : string; p_open : bool; p_holding : option (ShellMessage * nat) }.

Inductive phase := Registered | Recorded | Serving | Leaving | Over.
#[export] Instance phase_eq_dec : EqDecision phase.
Proof. solve_decision. Defined.

(** A shell session with its bridge: [sh_output] is the bridge's channel, and
    [sh_input_done] says the input goroutine reported an end. *)
Record shell := {
  sh_node : string; sh_id : string; sh_agent : nat; sh_operator : string; sh_at : time_t; sh_phase : phase;
  sh_output : list ShellMessage; sh_started : bool; sh_outcome : string; sh_finished : bool; sh_input_done : bool;
}.

Inductive refusal :=
| InvalidNode | NotVM | NoCredential | NotAuthorized | NotActive | NoAgent | Busy | Full | NoID | NoAudit.

Inductive event :=
| Audited (s : nat) (e : AuditEvent) (stored : bool)
| ToAgent (s p : nat) (m : ShellMessage) (sent : bool)
| ToClient (s : nat) (m : ShellMessage) (sent : bool)
| Received (p : nat) (m : ShellMessage)
| Refused (s : nat) (why : refusal).

Record gw := {
  agents : gmap string nat; shells : gmap string nat; peers : gmap nat peer; sessions : gmap nat shell; log : list event;
}.
Definition fresh : gw := {| agents := ∅; shells := ∅; peers := ∅; sessions := ∅; log := [] |}.

Definition say (e : event) (w : gw) : gw :=
  {| agents := agents w; shells := shells w; peers := peers w; sessions := sessions w; log := log w ++ [e] |}.
Definition put (s : nat) (x : shell) (w : gw) : gw :=
  {| agents := agents w; shells := shells w; peers := peers w; sessions := <[s := x]> (sessions w); log := log w |}.
Definition put_peer (p : nat) (x : peer) (w : gw) : gw :=
  {| agents := agents w; shells := shells w; peers := <[p := x]> (peers w); sessions := sessions w; log := log w |}.
Definition with_agents (a : gmap string nat) (w : gw) : gw :=
  {| agents := a; shells := shells w; peers := peers w; sessions := sessions w; log := log w |}.
Definition with_shells (a : gmap string nat) (w : gw) : gw :=
  {| agents := agents w; shells := a; peers := peers w; sessions := sessions w; log := log w |}.

Definition moved (p : phase) (x : shell) : shell :=
  {| sh_node := sh_node x; sh_id := sh_id x; sh_agent := sh_agent x; sh_operator := sh_operator x; sh_at := sh_at x; sh_phase := p;
     sh_output := sh_output x; sh_started := sh_started x; sh_outcome := sh_outcome x; sh_finished := sh_finished x; sh_input_done := sh_input_done x |}.
Definition with_output (q : list ShellMessage) (x : shell) : shell :=
  {| sh_node := sh_node x; sh_id := sh_id x; sh_agent := sh_agent x; sh_operator := sh_operator x; sh_at := sh_at x; sh_phase := sh_phase x;
     sh_output := q; sh_started := sh_started x; sh_outcome := sh_outcome x; sh_finished := sh_finished x; sh_input_done := sh_input_done x |}.
Definition with_outcome (o : string) (x : shell) : shell :=
  {| sh_node := sh_node x; sh_id := sh_id x; sh_agent := sh_agent x; sh_operator := sh_operator x; sh_at := sh_at x; sh_phase := sh_phase x;
     sh_output := sh_output x; sh_started := sh_started x; sh_outcome := o; sh_finished := sh_finished x; sh_input_done := sh_input_done x |}.
Definition input_ended (x : shell) : shell :=
  {| sh_node := sh_node x; sh_id := sh_id x; sh_agent := sh_agent x; sh_operator := sh_operator x; sh_at := sh_at x; sh_phase := sh_phase x;
     sh_output := sh_output x; sh_started := sh_started x; sh_outcome := sh_outcome x; sh_finished := sh_finished x; sh_input_done := true |}.
(** What the loop notes of a message on its way to the client. *)
Definition noted (m : ShellMessage) (x : shell) : shell :=
  {| sh_node := sh_node x; sh_id := sh_id x; sh_agent := sh_agent x; sh_operator := sh_operator x; sh_at := sh_at x; sh_phase := sh_phase x;
     sh_output := sh_output x; sh_started := sh_started x || is_type m ["started"];
     sh_outcome := if is_type m ["error"] then "failed" else sh_outcome x;
     sh_finished := sh_finished x || is_type m ["exit"; "error"]; sh_input_done := sh_input_done x |}.

Definition shell_event (x : shell) (ended : time_t) (outcome : string) : AuditEvent :=
  {| RequestID := sh_id x; Operator := sh_operator x; Node := sh_node x; ae_TargetKind := TargetKind (sh_node x);
     ae_Operation := OperationShellSession; StartedAt := sh_at x; EndedAt := ended; Outcome := outcome |}.

(** ** The agent's stream *)

Section shells.
Context (NodeRoots : option (Certificate → bool)) (x509 : string → option Certificate).

Definition close_previous (node : string) (p : nat) (w : gw) : gw :=
  match agents w !! node with
  | Some q =>
      if decide (q = p) then w
      else match peers w !! q with
      | Some x => put_peer q {| p_node := p_node x; p_open := false; p_holding := p_holding x |} w
      | None => w
      end
  | None => w
  end.

Definition connect (p : nat) (t : transport) (authorized : bool) (w : gw) : gw :=
  match agent_node NodeRoots x509 t authorized with
  | Err _ => w
  | Ok node =>
      let w := close_previous node p w in
      put_peer p {| p_node := node; p_open := true; p_holding := None |} (with_agents (<[node := p]> (agents w)) w)
  end.

(** One frame: kept for the node's session when it names it. *)
Definition read_frame (p : nat) (x : peer) (m : ShellMessage) (w : gw) : gw :=
  let w := say (Received p m) w in
  if is_type m ["ready"; "heartbeat"] then w
  else match shells w !! p_node x with
  | None => w
  | Some s =>
      match sessions w !! s with
      | Some y => if String.eqb (SessionID m) (sh_id y) then put_peer p {| p_node := p_node x; p_open := p_open x; p_holding := Some (m, s) |} w else w
      | None => w
      end
  end.

Definition push (s : nat) (y : shell) (m : ShellMessage) (w : gw) : gw := put s (with_output (sh_output y ++ [m]) y) w.

(** The deferred end of a stream. *)
Definition drop_peer (p : nat) (x : peer) (w : gw) : gw :=
  let w := put_peer p {| p_node := p_node x; p_open := false; p_holding := None |} w in
  if bool_decide (agents w !! p_node x = Some p) then
    let w := with_agents (delete (p_node x) (agents w)) w in
    match shells w !! p_node x with
    | None => w
    | Some s =>
        match sessions w !! s with
        | Some y =>
            if (length (sh_output y) <? output_room)%nat then push s y (error_message (sh_id y) "VM agent disconnected") w else w
        | None => w
        end
    end
  else w.

(** ** The operator's session *)

Definition admission (node auth : string) (operator : option string) (available : bool) : result refusal string :=
  if negb (is_ok (NodeURI node)) then Err InvalidNode
  else if negb (String.eqb (TargetKind node) "vm") then Err NotVM
  else if String.eqb (bearer auth) "" then Err NoCredential
  else match operator with
  | None => Err NotAuthorized
  | Some op => if String.eqb op "" then Err NotAuthorized else if negb available then Err NotActive else Ok op
  end.

Definition register (s : nat) (node op : string) (id : option string) (now : time_t) (w : gw) : gw :=
  match agents w !! node with
  | None => say (Refused s NoAgent) w
  | Some p =>
      if bool_decide (is_Some (shells w !! node)) then say (Refused s Busy) w
      else if (maxShellSessions <=? size (shells w))%nat then say (Refused s Full) w
      else match id with
      | None => say (Refused s NoID) w
      | Some id =>
          put s {| sh_node := node; sh_id := id; sh_agent := p; sh_operator := op; sh_at := now; sh_phase := Registered; sh_output := [];
                   sh_started := false; sh_outcome := "completed"; sh_finished := false; sh_input_done := false |}
              (with_shells (<[node := s]> (shells w)) w)
      end
  end.

Definition finishShell (s : nat) (x : shell) (sent : bool) (w : gw) : gw :=
  let w := if bool_decide (shells w !! sh_node x = Some s) then with_shells (delete (sh_node x) (shells w)) w else w in
  say (ToAgent s (sh_agent x) (message "close" (sh_id x)) sent) w.

Definition leave (s : nat) (x : shell) (w : gw) : gw := put s (moved Leaving x) w.

Inductive action :=
| Connect (p : nat) (t : transport) (authorized : bool)
| Read (p : nat) (m : ShellMessage)
| Deliver (p : nat)
| Drop (p : nat)
| Open_shell (s : nat) (node auth : string) (operator : option string) (available : bool) (id : option string) (now : time_t)
| Record_shell (s : nat) (stored sent : bool)
| Begin (s : nat) (sent told : bool)
| Input (s : nat) (m : ShellMessage) (sent : bool)
| Input_gone (s : nat)
| Forward (s : nat) (sent : bool)
| No_start (s : nat) (told : bool)
| Lifetime (s : nat) (sent : bool)
| Leave (s : nat) (gone : bool)
| Finish (s : nat) (gone sent stored : bool) (now : time_t).

Definition act (w : gw) (a : action) : option gw :=
  match a with
  | Connect p t authorized => guard (peers w !! p = None);; Some (connect p t authorized w)
  | Read p m => x ← peers w !! p; guard (p_open x = true ∧ p_holding x = None);; Some (read_frame p x m w)
  | Deliver p =>
      x ← peers w !! p; h ← p_holding x; let '(m, s) := h : ShellMessage * nat in y ← sessions w !! s;
      guard (length (sh_output y) < output_room)%nat;;
      Some (push s y m (put_peer p {| p_node := p_node x; p_open := p_open x; p_holding := None |} w))
  | Drop p => x ← peers w !! p; Some (drop_peer p x w)
  | Open_shell s node auth operator available id now =>
      guard (sessions w !! s = None);;
      Some match admission node auth operator available with Err why => say (Refused s why) w | Ok op => register s node op id now w end
  | Record_shell s stored sent =>
      x ← sessions w !! s; guard (sh_phase x = Registered);;
      let w := say (Audited s (shell_event x 0 "started") stored) w in
      Some (if stored then put s (moved Recorded x) w
            else say (Refused s NoAudit) (finishShell s x sent (put s (moved Over x) w)))
  | Begin s sent told =>
      x ← sessions w !! s; guard (sh_phase x = Recorded);;
      let w := say (ToAgent s (sh_agent x) (start_message (sh_id x)) sent) w in
      Some (if sent then put s (moved Serving x) w
            else leave s x (say (ToClient s (error_message (sh_id x) "could not start VM shell") told) w))
  | Input s m sent =>
      x ← sessions w !! s; guard ((sh_phase x = Serving ∨ sh_phase x = Leaving) ∧ sh_input_done x = false);;
      Some (if is_type m ["input"; "resize"; "close"] then
              let w := say (ToAgent s (sh_agent x) (with_id (sh_id x) m) sent) w in
              if negb sent || is_type m ["close"] then put s (input_ended x) w else w
            else put s (input_ended x) w)
  | Input_gone s => x ← sessions w !! s; guard (sh_phase x = Serving);; Some (put s (input_ended x) w)
  | Forward s sent =>
      x ← sessions w !! s; guard (sh_phase x = Serving);;
      match sh_output x with
      | [] => None
      | m :: q =>
          let x := noted m (with_output q x) in
          let w := say (ToClient s m sent) w in
          Some (if negb sent || is_type m ["exit"; "error"] then leave s x w else put s x w)
      end
  | No_start s told =>
      x ← sessions w !! s; guard (sh_phase x = Serving ∧ sh_started x = false);;
      Some (leave s x (say (ToClient s (error_message (sh_id x) "VM agent did not open a PTY within 20 seconds") told) w))
  | Lifetime s sent =>
      x ← sessions w !! s; guard (sh_phase x = Serving);;
      Some (leave s (with_outcome "timeout" x) (say (ToAgent s (sh_agent x) (message "close" (sh_id x)) sent) w))
  | Leave s gone =>
      x ← sessions w !! s; guard (sh_phase x = Serving ∧ (gone = true ∨ sh_input_done x = true));; Some (leave s x w)
  | Finish s gone sent stored now =>
      x ← sessions w !! s; guard (sh_phase x = Leaving);;
      let outcome := if gone && String.eqb (sh_outcome x) "completed" && negb (sh_finished x) then "disconnected" else sh_outcome x in
      Some (say (Audited s (shell_event x now outcome) stored) (finishShell s x sent (put s (moved Over x) w)))
  end.

Fixpoint run (w : gw) (acts : list action) : option gw :=
  match acts with [] => Some w | a :: acts' => w' ← act w a; run w' acts' end.
End shells.

(** ** What holds of every run *)

Section routing.
Context (NodeRoots : option (Certificate → bool)) (x509 : string → option Certificate).
Notation step := (act NodeRoots x509).

(** The peer's certificate proves the node. *)
Definition proves (hist : list action) (p : nat) (node : string) : Prop :=
  ∃ t, Connect p t true ∈ hist ∧ requestNodeIdentity NodeRoots x509 t = Some node.

Definition opened_as (hist : list action) (s : nat) (x : shell) : Prop :=
  ∃ auth, Open_shell s (sh_node x) auth (Some (sh_operator x)) true (Some (sh_id x)) (sh_at x) ∈ hist ∧
    bearer auth ≠ "" ∧ sh_operator x ≠ "" ∧ TargetKind (sh_node x) = "vm".

(** The errors the gateway writes itself. *)
Definition own (id : string) : list ShellMessage :=
  error_message id <$> ["VM agent disconnected"; "could not start VM shell"; "VM agent did not open a PTY within 20 seconds"].

Definition from_node (hist : list action) (before : list event) (x : shell) (m : ShellMessage) : Prop :=
  m ∈ own (sh_id x) ∨ ∃ p, Received p m ∈ before ∧ proves hist p (sh_node x) ∧ SessionID m = sh_id x.

Definition justified (hist : list action) (before : list event) (e : event) : Prop :=
  match e with
  | ToClient s m _ => ∃ x, opened_as hist s x ∧ from_node hist before x m
  | ToAgent s p m _ =>
      ∃ x, opened_as hist s x ∧ proves hist p (sh_node x) ∧ SessionID m = sh_id x ∧
        (Type_ m = "close" ∨ Audited s (shell_event x 0 "started") true ∈ before)
  | _ => True
  end.

Definition audited_phase (p : phase) : bool := match p with Recorded | Serving | Leaving => true | _ => false end.

Record shell_ok (hist : list action) (l : list event) (s : nat) (x : shell) : Prop := {
  sk_opened : opened_as hist s x;
  sk_agent : proves hist (sh_agent x) (sh_node x);
  sk_audited : audited_phase (sh_phase x) = true → Audited s (shell_event x 0 "started") true ∈ l;
  sk_output : ∀ m, m ∈ sh_output x → from_node hist l x m;
}.

Record gw_ok (hist : list action) (w : gw) : Prop := {
  gk_log : ∀ l1 e l2, log w = l1 ++ e :: l2 → justified hist l1 e;
  gk_peers : ∀ p x, peers w !! p = Some x → proves hist p (p_node x) ∧
    ∀ m s, p_holding x = Some (m, s) → Received p m ∈ log w ∧
      ∃ y, sessions w !! s = Some y ∧ SessionID m = sh_id y ∧ sh_node y = p_node x;
  gk_agents : ∀ node p, agents w !! node = Some p → ∃ x, peers w !! p = Some x ∧ p_node x = node;
  gk_sessions : ∀ s x, sessions w !! s = Some x → shell_ok hist (log w) s x;
  gk_shells : ∀ node s, shells w !! node = Some s ↔ ∃ x, sessions w !! s = Some x ∧ sh_node x = node ∧ sh_phase x ≠ Over;
  gk_size : (size (shells w) ≤ maxShellSessions)%nat;
}.

Lemma proves_mono hist hist' p node : hist ⊆ hist' → proves hist p node → proves hist' p node.
Proof. intros Hs (t & Ht & H). exists t. split; [by apply Hs|done]. Qed.

Lemma opened_mono hist hist' s x : hist ⊆ hist' → opened_as hist s x → opened_as hist' s x.
Proof. intros Hs (auth & Ha & H). exists auth. split; [by apply Hs|done]. Qed.

Lemma from_node_mono hist hist' l l' x m : hist ⊆ hist' → l ⊆ l' → from_node hist l x m → from_node hist' l' x m.
Proof.
  intros Hs Hl [H|(p & Hr & Hp & Hi)]; [by left|right]. exists p. split_and!; [by apply Hl|by eapply proves_mono|done].
Qed.

Lemma shell_justified_mono hist hist' l e : hist ⊆ hist' → justified hist l e → justified hist' l e.
Proof.
  intros Hs. destruct e; cbn; try done.
  - intros (x & Ho & Hp & H). exists x. split_and!; [by eapply opened_mono|by eapply proves_mono|apply H..].
  - intros (x & Ho & H). exists x. split; [by eapply opened_mono|by eapply from_node_mono].
Qed.

Lemma shell_ok_mono hist hist' l l' s x : hist ⊆ hist' → l ⊆ l' → shell_ok hist l s x → shell_ok hist' l' s x.
Proof.
  intros Hs Hl [H1 H2 H3 H4]. split; [by eapply opened_mono|by eapply proves_mono|intros ?; by apply Hl, H3|].
  intros m Hm. eapply from_node_mono; [done..|by apply H4].
Qed.

Lemma shell_gw_ok_mono hist hist' w : hist ⊆ hist' → gw_ok hist w → gw_ok hist' w.
Proof.
  intros Hs [H1 H2 H3 H4 H5 H6]. split; [| |done| |done|done].
  - intros l1 e l2 E. eapply shell_justified_mono; [done|by eapply H1].
  - intros p x E. destruct (H2 p x E) as [Hp Hh]. split; [by eapply proves_mono|done].
  - intros s x E. eapply shell_ok_mono; [done|done|by apply H4].
Qed.

Lemma snoc_sub {A} (l : list A) x : l ⊆ l ++ [x].
Proof. set_solver. Qed.

Lemma shell_say_ok hist w e : gw_ok hist w → justified hist (log w) e → gw_ok hist (say e w).
Proof.
  intros [H1 H2 H3 H4 H5 H6] Hj. split; cbn [log peers sessions agents shells say]; [| |done| |done|done].
  - intros l1 e' l2 [[<- <-]|[l2' E]]%snoc_split; [done|by eapply H1].
  - intros p x E. destruct (H2 p x E) as [Hp Hh]. split; [done|]. intros m s Em. destruct (Hh m s Em). split; [|done]. apply elem_of_app. by left.
  - intros s x E. eapply shell_ok_mono; [done|apply snoc_sub|by apply H4].
Qed.

(** The same session further on. *)
Definition same (x x' : shell) : Prop :=
  sh_node x' = sh_node x ∧ sh_id x' = sh_id x ∧ sh_agent x' = sh_agent x ∧ sh_operator x' = sh_operator x ∧ sh_at x' = sh_at x.

Lemma same_shell_ok hist l s x x' : same x x' → shell_ok hist l s x →
  (audited_phase (sh_phase x') = true → audited_phase (sh_phase x) = true ∨ Audited s (shell_event x 0 "started") true ∈ l) →
  (∀ m, m ∈ sh_output x' → from_node hist l x m) → shell_ok hist l s x'.
Proof.
  intros (E1 & E2 & E3 & E4 & E5) [H1 H2 H3 H4] Hp Ho.
  split; unfold opened_as, from_node, shell_event in *; rewrite ?E1, ?E2, ?E3, ?E4, ?E5 in *; try done.
  intros H. destruct (Hp H); [by apply H3|done].
Qed.

Lemma put_ok hist w s x x' : gw_ok hist w → sessions w !! s = Some x → same x x' →
  (sh_phase x' = Over ↔ sh_phase x = Over) →
  (audited_phase (sh_phase x') = true → audited_phase (sh_phase x) = true ∨ Audited s (shell_event x 0 "started") true ∈ log w) →
  (∀ m, m ∈ sh_output x' → from_node hist (log w) x m) → gw_ok hist (put s x' w).
Proof.
  intros [H1 H2 H3 H4 H5 H6] Es Hsame Ho Ha Hout. pose proof Hsame as (E1 & E2 & _).
  split; cbn [log peers sessions agents shells put]; [done| |done| | |done].
  - intros p y E. destruct (H2 p y E) as [Hp Hh]. split; [done|]. intros m s' Em. destruct (Hh m s' Em) as (Hr & z & Ez & Hid & Hn). split; [done|].
    destruct (decide (s' = s)) as [->|Hne]; [|exists z; by rewrite lookup_insert_ne].
    exists x'. rewrite lookup_insert_eq. simplify_eq. split_and!; [done|congruence..].
  - intros s' y [[<- <-]|[_ E]]%lookup_insert_Some; [|by apply H4]. eapply same_shell_ok; [done|by apply H4|done|done].
  - intros node s'. rewrite H5. destruct (decide (s' = s)) as [->|Hne]; [|by rewrite lookup_insert_ne].
    rewrite lookup_insert_eq. split; intros (y & E & Hn & Hph); simplify_eq; [exists x'|exists x]; split_and!; congruence || tauto.
Qed.

Lemma put_peer_ok hist w p x x' : gw_ok hist w → peers w !! p = Some x → p_node x' = p_node x →
  (∀ m s, p_holding x' = Some (m, s) → Received p m ∈ log w ∧ ∃ y, sessions w !! s = Some y ∧ SessionID m = sh_id y ∧ sh_node y = p_node x) →
  gw_ok hist (put_peer p x' w).
Proof.
  intros [H1 H2 H3 H4 H5 H6] Es Hn Hh. split; cbn [log peers sessions agents shells put_peer]; [done| | |done..].
  - intros q y [[<- <-]|[_ E]]%lookup_insert_Some; [|by apply H2]. rewrite Hn. split; [apply (H2 p x Es)|done].
  - intros node q E. destruct (H3 node q E) as (y & Ey & <-). destruct (decide (q = p)) as [->|Hne].
    + exists x'. rewrite lookup_insert_eq. by simplify_eq.
    + exists y. by rewrite lookup_insert_ne.
Qed.

Lemma connect_ok hist w p t authorized : gw_ok hist w → peers w !! p = None → Connect p t authorized ∈ hist →
  gw_ok hist (connect NodeRoots x509 p t authorized w).
Proof.
  intros H Hp Hin. unfold connect, agent_node. destruct (requestNodeIdentity NodeRoots x509 t) as [node|] eqn:Ei; [|done].
  destruct authorized; [|done]. assert (proves hist p node) as Hprov by by exists t.
  assert (gw_ok hist (close_previous node p w) ∧ peers (close_previous node p w) !! p = None) as [Hc Hp'].
  { unfold close_previous. destruct (agents w !! node) as [q|] eqn:Eq; [|done]. case_decide as Hqp; [done|].
    destruct (peers w !! q) as [y|] eqn:Ey; [|done]. split; [|cbn; by rewrite lookup_insert_ne].
    eapply put_peer_ok; [done..|]. intros m s Em. by apply (gk_peers _ _ H q y Ey). }
  revert Hc Hp'. generalize (close_previous node p w). clear H Hp w. intros w [H1 H2 H3 H4 H5 H6] Hp.
  split; cbn [log peers sessions agents shells put_peer with_agents]; [done| | |done..].
  - intros q y [[<- <-]|[_ E]]%lookup_insert_Some; [done|by apply H2].
  - intros node' q [[<- <-]|[Hne E]]%lookup_insert_Some; [eexists; by rewrite lookup_insert_eq|].
    destruct (H3 node' q E) as (y & Ey & <-). exists y. rewrite lookup_insert_ne by congruence. done.
Qed.

Lemma read_frame_ok hist w p x m : gw_ok hist w → peers w !! p = Some x → gw_ok hist (read_frame p x m w).
Proof.
  intros H Ex. unfold read_frame. assert (gw_ok hist (say (Received p m) w)) as Hs by by apply shell_say_ok.
  destruct (is_type m _); [done|]. cbn [shells say sessions]. destruct (shells w !! p_node x) as [s|] eqn:Eh; [|done].
  destruct (sessions w !! s) as [y|] eqn:Ey; [|done]. destruct (String.eqb_spec (SessionID m) (sh_id y)) as [Hid|]; [|done].
  eapply put_peer_ok; [done..|]. cbn [p_holding]. intros m' s' [= <- <-]. cbn [log say sessions].
  split; [apply elem_of_app; right; by left|]. exists y. split_and!; [done..|].
  apply (gk_shells _ _ H) in Eh as (z & Ez & Hz & _). by simplify_eq.
Qed.

Lemma push_ok hist w s y m : gw_ok hist w → sessions w !! s = Some y → from_node hist (log w) y m → gw_ok hist (push s y m w).
Proof.
  intros H Ey Hm. eapply put_ok; [done|done| | | |]; try done; [by left|].
  cbn [sh_output with_output]. intros m' [Hm'|Hm'%list_elem_of_singleton]%elem_of_app; [by apply (gk_sessions _ _ H s y Ey)|by subst].
Qed.

Lemma drop_peer_ok hist w p x : gw_ok hist w → peers w !! p = Some x → gw_ok hist (drop_peer p x w).
Proof.
  intros H Ex. unfold drop_peer. set (w1 := put_peer p _ w). assert (gw_ok hist w1) as H1 by (by eapply put_peer_ok).
  case_bool_decide; [|done]. set (w2 := with_agents _ w1). assert (gw_ok hist w2) as H2.
  { destruct H1 as [G1 G2 G3 G4 G5 G6]. split; try done. cbn [agents w2 with_agents]. intros node q [_ E]%lookup_delete_Some. by apply G3. }
  destruct (shells w2 !! p_node x) as [s|]; [|done]. destruct (sessions w2 !! s) as [y|] eqn:Ey; [|done]. case_if; [|done].
  apply push_ok; [done..|]. left. unfold own. set_solver.
Qed.

Lemma shell_register_ok hist w s node auth op id now : gw_ok hist w → sessions w !! s = None →
  Open_shell s node auth (Some op) true id now ∈ hist → bearer auth ≠ "" → op ≠ "" → TargetKind node = "vm" →
  gw_ok hist (register s node op id now w).
Proof.
  intros H Hs Hin Hb Hop Hk. unfold register. destruct (agents w !! node) as [p|] eqn:Ea; [|by apply shell_say_ok].
  case_bool_decide as Hbusy; [by apply shell_say_ok|]. apply eq_None_not_Some in Hbusy.
  destruct (Nat.leb_spec maxShellSessions (size (shells w))) as [|Hsz]; [by apply shell_say_ok|].
  destruct id as [id|]; [|by apply shell_say_ok]. set (x := {| sh_node := node |}).
  destruct (gk_agents _ _ H node p Ea) as (px & Epx & Hpx). destruct (gk_peers _ _ H p px Epx) as [Hprov _]. rewrite Hpx in Hprov.
  assert (shell_ok hist (log w) s x) as Hx.
  { split; [|done|done|set_solver]. exists auth. done. }
  destruct H as [H1 H2 H3 H4 H5 H6]. split; cbn [log peers sessions agents shells put with_shells]; [done| |done| | |].
  - intros q y E. destruct (H2 q y E) as [Hq Hh]. split; [done|]. intros m s' Em. destruct (Hh m s' Em) as (? & z & Ez & ?).
    split; [done|]. exists z. rewrite lookup_insert_ne by congruence. done.
  - intros s' y [[<- <-]|[_ E]]%lookup_insert_Some; [done|by apply H4].
  - intros node' s'. rewrite lookup_insert_Some, H5. destruct (decide (s' = s)) as [->|Hne].
    + rewrite lookup_insert_eq. split.
      * intros [[<- _]|[_ (y & E & _)]]; [by exists x|congruence].
      * intros (y & [= <-] & <- & _). by left.
    + rewrite lookup_insert_ne by done. split.
      * intros [[_ ?]|[_ ?]]; [congruence|done].
      * intros (y & E & Hn & Hp). right. split; [|by exists y]. intros <-.
        assert (shells w !! node = Some s') as Hsh by (apply H5; by exists y). congruence.
  - rewrite map_size_insert_None by done. lia.
Qed.

Lemma finishShell_ok hist w s x sent : gw_ok hist w → sessions w !! s = Some x → sh_phase x ≠ Over →
  gw_ok hist (finishShell s x sent (put s (moved Over x) w)).
Proof.
  intros H Ex Hp. unfold finishShell. cbn [shells put].
  assert (shells w !! sh_node x = Some s) as Hsh by (apply (gk_shells _ _ H); by exists x).
  rewrite bool_decide_true by done. destruct (gk_sessions _ _ H s x Ex) as [So Sa Sp Sq].
  apply shell_say_ok.
  - destruct H as [H1 H2 H3 H4 H5 H6]. split; cbn [log peers sessions agents shells put with_shells]; [done| |done| | |].
    + intros q y E. destruct (H2 q y E) as [Hq Hh]. split; [done|]. intros m s' Em. destruct (Hh m s' Em) as (? & z & Ez & ? & ?).
      split; [done|]. destruct (decide (s' = s)) as [->|]; [|exists z; by rewrite lookup_insert_ne].
      exists (moved Over x). rewrite lookup_insert_eq. by simplify_eq.
    + intros s' y [[<- <-]|[_ E]]%lookup_insert_Some; [by split|by apply H4].
    + intros node s'. rewrite lookup_delete_Some, H5. destruct (decide (s' = s)) as [->|Hne].
      * rewrite lookup_insert_eq. split; [intros [Hn (y & E & <- & _)]; by simplify_eq|intros (y & [= <-] & _ & Ho); by destruct Ho].
      * rewrite lookup_insert_ne by done. split; [by intros [_ ?]|]. intros (y & E & Hn & Hph). split; [|by exists y]. intros Heq.
        assert (shells w !! node = Some s') as Hs' by (apply H5; by exists y). rewrite <-Heq in Hs'. congruence.
    + rewrite map_size_delete. destruct (shells w !! sh_node x); cbn; lia.
  - cbn [log put with_shells]. exists x. split_and!; [done..|by left].
Qed.

Ltac name_shell s :=
  match goal with Hs : sessions _ !! s = Some ?x0 |- _ =>
    try match goal with Hp : sh_phase x0 = _ |- _ => rename Hp into Ep end;
    rename x0 into x; rename Hs into Es end.

Lemma leave_ok hist w s x : gw_ok hist w → sessions w !! s = Some x → audited_phase (sh_phase x) = true → gw_ok hist (leave s x w).
Proof.
  intros H Es Ha. eapply put_ok; [done|done|done| | |]; cbn.
  - split; [done|]. intros E. by rewrite E in Ha.
  - by left.
  - intros m Hm. by apply (gk_sessions _ _ H s x Es).
Qed.

Lemma to_agent_ok hist w s x m sent : gw_ok hist w → sessions w !! s = Some x → audited_phase (sh_phase x) = true →
  SessionID m = sh_id x → gw_ok hist (say (ToAgent s (sh_agent x) m sent) w).
Proof.
  intros H Es Ha Hm. apply shell_say_ok; [done|]. destruct (gk_sessions _ _ H s x Es) as [So Sa Sp _].
  exists x. split_and!; [done..|]. right. by apply Sp.
Qed.

Lemma to_client_ok hist w s x m sent : gw_ok hist w → sessions w !! s = Some x → from_node hist (log w) x m →
  gw_ok hist (say (ToClient s m sent) w).
Proof. intros H Es Hm. apply shell_say_ok; [done|]. exists x. split; [apply (gk_sessions _ _ H s x Es)|done]. Qed.

Lemma shell_act_ok hist w a w' : gw_ok hist w → step w a = Some w' → gw_ok (hist ++ [a]) w'.
Proof.
  intros H0 E. assert (gw_ok (hist ++ [a]) w) as H by (eapply shell_gw_ok_mono; [|done]; set_solver).
  assert (a ∈ hist ++ [a]) as Ha by set_solver. set (hist' := hist ++ [a]) in *. clearbody hist'. clear H0 hist.
  destruct a; cbn [act] in E.
  - case_guard; [|done]. injection E as <-. by apply connect_ok.
  - destruct (peers w !! p) as [x|] eqn:Ex; [|done]. cbn in E. case_guard; [|done]. injection E as <-. by apply read_frame_ok.
  - destruct (peers w !! p) as [x|] eqn:Ex; [|done]. cbn in E. destruct (p_holding x) as [[m s]|] eqn:Eh; [|done]. cbn in E.
    destruct (sessions w !! s) as [y|] eqn:Ey; [|done]. cbn in E. case_guard; [|done]. injection E as <-.
    destruct (gk_peers _ _ H p x Ex) as [Hp Hh]. destruct (Hh m s Eh) as (Hr & z & Ez & Hid & Hn). simplify_eq.
    apply push_ok; [by eapply put_peer_ok|done|]. right. exists p. split_and!; [done| |done]. by rewrite Hn.
  - destruct (peers w !! p) as [x|] eqn:Ex; [|done]. injection E as <-. by apply drop_peer_ok.
  - case_guard; [|done]. injection E as <-. unfold admission. destruct (NodeURI node); [|by apply shell_say_ok].
    cbn [is_ok negb]. destruct (String.eqb_spec (TargetKind node) "vm"); [|by apply shell_say_ok]. cbn [negb].
    destruct (String.eqb_spec (bearer auth) ""); [by apply shell_say_ok|]. destruct operator as [op|]; [|by apply shell_say_ok].
    destruct (String.eqb_spec op ""); [by apply shell_say_ok|]. destruct available; [|by apply shell_say_ok]. by eapply shell_register_ok.
  - destruct (sessions w !! s) as [x|] eqn:Es; [|done]. cbn in E. case_guard as Hp; [|done]. injection E as <-.
    set (w1 := say _ w). assert (gw_ok hist' w1) as H1 by by apply shell_say_ok.
    destruct stored; [|apply shell_say_ok; [apply finishShell_ok; [done|done|by rewrite Hp]|done]].
    eapply put_ok; [done|done|done| | |]; cbn [sh_phase moved sh_output].
    + by rewrite Hp.
    + intros _. right. cbn [log w1 say]. apply elem_of_app. right. by left.
    + intros m Hm. by apply (gk_sessions _ _ H1 s x Es).
  - destruct (sessions w !! s) as [x|] eqn:Es; [|done]. cbn in E. case_guard as Hp; [|done]. injection E as <-.
    assert (audited_phase (sh_phase x) = true) as Hau by by rewrite Hp.
    set (w1 := say _ w). assert (gw_ok hist' w1) as H1 by by apply to_agent_ok.
    destruct sent.
    + eapply put_ok; [done|done|done| | |]; cbn; [by rewrite Hp|by left|]. intros m Hm. by apply (gk_sessions _ _ H1 s x Es).
    + apply leave_ok; [|done|done]. eapply to_client_ok; [done..|]. left. unfold own. set_solver.
  - destruct (sessions w !! s) as [x|] eqn:Es; [|done]. cbn in E. case_guard as Hp; [|done]. injection E as <-.
    assert (audited_phase (sh_phase x) = true) as Hau by (destruct Hp as [[-> | ->] _]; done).
    assert (∀ w1, gw_ok hist' w1 → sessions w1 !! s = Some x → gw_ok hist' (put s (input_ended x) w1)) as Hput.
    { intros w1 H1 E1. eapply put_ok; [done|done|done|done|by left|]. intros m' Hm'. by apply (gk_sessions _ _ H1 s x E1). }
    case_if; [|by apply Hput]. set (w1 := say _ w). assert (gw_ok hist' w1) as H1 by by apply to_agent_ok. case_if; [by apply Hput|done].
  - destruct (sessions w !! s) as [x|] eqn:Es; [|done]. cbn in E. case_guard as Hp; [|done]. injection E as <-.
    eapply put_ok; [done|done|done|done|by left|]. intros m' Hm'. by apply (gk_sessions _ _ H s x Es).
  - destruct (sessions w !! s) as [x|] eqn:Es; [|done]. cbn in E. case_guard as Hp; [|done]. destruct (sh_output x) as [|m q] eqn:Eo; [done|].
    injection E as <-. pose proof (gk_sessions _ _ H s x Es) as [So Sa Sp Sq]. rewrite Eo in Sq.
    set (w1 := say _ w). assert (gw_ok hist' w1) as H1 by (eapply to_client_ok; [done..|apply Sq; by left]).
    assert (∀ p, audited_phase p = true → gw_ok hist' (put s (moved p (noted m (with_output q x))) w1)) as Hput.
    { intros p Hpa. eapply put_ok; [done|done|done| | |]; cbn.
      - rewrite Hp. by destruct p.
      - left. by rewrite Hp.
      - intros m' Hm'. eapply from_node_mono; [done|apply snoc_sub|]. apply Sq. by right. }
    case_if; [by apply Hput|]. specialize (Hput Serving eq_refl).
    replace (noted m (with_output q x)) with (moved Serving (noted m (with_output q x))) by (unfold moved, noted, with_output; cbn; by rewrite Hp). done.
  - destruct (sessions w !! s) as [x|] eqn:Es; [|done]. cbn in E. case_guard as Hp; [|done]. injection E as <-.
    apply leave_ok; [|done|by destruct Hp as [-> _]]. eapply to_client_ok; [done..|]. left. unfold own. set_solver.
  - destruct (sessions w !! s) as [x|] eqn:Es; [|done]. cbn in E. case_guard as Hp; [|done]. injection E as <-.
    assert (audited_phase (sh_phase x) = true) as Hau by by rewrite Hp.
    set (w1 := say _ w). assert (gw_ok hist' w1) as H1 by by apply to_agent_ok.
    eapply put_ok; [done|done|done| | |]; cbn; [by rewrite Hp|by left|]. intros m Hm. by apply (gk_sessions _ _ H1 s x Es).
  - destruct (sessions w !! s) as [x|] eqn:Es; [|done]. cbn in E. case_guard as Hp; [|done]. injection E as <-.
    apply leave_ok; [done..|]. by destruct Hp as [-> _].
  - destruct (sessions w !! s) as [x|] eqn:Es; [|done]. cbn in E. case_guard as Hp; [|done]. injection E as <-.
    apply shell_say_ok; [|done]. apply finishShell_ok; [done..|]. by rewrite Hp.
Qed.

Lemma fresh_ok : gw_ok [] fresh.
Proof.
  split; cbn; try done.
  - by intros [|] ? ?.
  - intros node s. split; [done|]. by intros (x & E & _).
  - rewrite map_size_empty. unfold maxShellSessions. lia.
Qed.

Lemma shell_run_ok acts : ∀ hist w w', gw_ok hist w → run NodeRoots x509 w acts = Some w' → gw_ok (hist ++ acts) w'.
Proof.
  induction acts as [|a acts IH]; intros hist w w' H E; cbn [run] in E; simplify_option_eq; [by rewrite app_nil_r|].
  rewrite (cons_middle a), (assoc_L (++)). eapply IH; [by eapply shell_act_ok|done].
Qed.

(** C12. A shell is between one operator and one VM.  Whatever agents connect,
    reconnect and vanish, and whatever anyone sends: what an operator's client
    is shown came, under the session's id, over a stream whose certificate
    proves the session's VM, or is one of the gateway's own three errors; what
    an agent is sent carries its session's id and goes to a stream that proves
    the VM; but for a final close, nothing is sent before the operator's
    authorized start is in the audit store; and a VM has at most one live
    session, the gateway at most 32. *)
Theorem shells_reach_their_vm (acts : list action) (w : gw) :
  run NodeRoots x509 fresh acts = Some w →
  (∀ l1 e l2, log w = l1 ++ e :: l2 → justified acts l1 e) ∧
  (∀ s s' x x', sessions w !! s = Some x → sessions w !! s' = Some x' → sh_node x = sh_node x' →
     sh_phase x ≠ Over → sh_phase x' ≠ Over → s = s') ∧
  (size (shells w) ≤ maxShellSessions)%nat.
Proof.
  intros H%(shell_run_ok acts [] fresh); [|apply fresh_ok]. split_and!; [apply (gk_log _ _ H)| |apply (gk_size _ _ H)].
  intros s s' x x' E E' Hn Hp Hp'.
  assert (shells w !! sh_node x = Some s) as H1 by (apply (gk_shells _ _ H); by exists x).
  assert (shells w !! sh_node x = Some s') as H2 by (apply (gk_shells _ _ H); by exists x'). congruence.
Qed.
End routing.

(** ** Concrete runs *)

Definition demo_vm : string := "aaaaaaaa-bbbb-cccc-dddd-eeeeeeeeeeee".
Definition vm_agent : transport := {| PeerCertificates := [[vmPrefix +:+ demo_vm]]; verified := true; forwarded := "" |}.
Definition demo_shell : list action → option gw := run None (λ _, None) fresh.
Definition opens (s : nat) (operator id : string) (now : time_t) : action :=
  Open_shell s demo_vm "Bearer hvs.token" (Some operator) true (Some id) now.

Definition one_shell : list action :=
  [Connect 7 vm_agent true; opens 0 "alice" "s0" 5; Record_shell 0 true true; Begin 0 true true; Read 7 (message "started" "s0"); Deliver 7;
   Forward 0 true; Input 0 (message "input" "forged") true; Read 7 (message "exit" "s0"); Deliver 7; Forward 0 true; Finish 0 false true true 9].

Definition shell_log (acts : list action) : list event := match demo_shell acts with Some w => log w | None => [] end.
Definition outcomes (l : list event) : list string := omap (λ e, match e with Audited _ e _ => Some (Outcome e) | _ => None end) l.

Lemma shells_reach_their_vm_witness :
  ∃ w, demo_shell one_shell = Some w ∧ outcomes (log w) = ["started"; "completed"] ∧
    ToAgent 0 7 (message "input" "s0") true ∈ log w ∧ (size (shells w) ≤ maxShellSessions)%nat.
Proof.
  assert (∃ w, demo_shell one_shell = Some w ∧ outcomes (log w) = ["started"; "completed"] ∧ ToAgent 0 7 (message "input" "s0") true ∈ log w) as (w & E & H).
  { eexists. split; [vm_compute; reflexivity|]. split; [reflexivity|]. cbn [log]. repeat (apply list_elem_of_here || apply list_elem_of_further). }
  exists w. split_and!; [exact E|exact (proj1 H)|exact (proj2 H)|]. exact (proj2 (proj2 (shells_reach_their_vm None (λ _, None) one_shell w E))).
Defined.

(** *** Two ways a session's end goes wrong

    An agent that reconnects replaces its stream before the old one ends, so
    the old one's end finds another stream registered and tells nobody: the
    session that used it is not told its agent is gone, and while it lasts the
    VM answers every other operator that it is busy. *)
Definition reconnected : list action :=
  [Connect 7 vm_agent true; opens 0 "alice" "s0" 5; Record_shell 0 true true; Begin 0 true true; Read 7 (message "started" "s0"); Deliver 7;
   Forward 0 true; Connect 8 vm_agent true; Drop 7].

Lemma reconnect_strands_the_session :
  (λ w, (sh_phase <$> sessions w !! 0%nat, sh_output <$> sessions w !! 0%nat, agents w !! demo_vm)) <$> demo_shell reconnected
    = Some (Some Serving, Some [], Some 8%nat) ∧
  last (shell_log (reconnected ++ [opens 1 "bob" "s1" 60])) = Some (Refused 1 Busy).
Proof. split; vm_compute; reflexivity. Qed.

(** A VM whose agent never opens a terminal is audited as completed. *)
Lemma unstarted_shell_is_completed :
  outcomes (shell_log [Connect 7 vm_agent true; opens 0 "alice" "s0" 5; Record_shell 0 true true; Begin 0 true true;
                       No_start 0 true; Finish 0 false true true 30]) = ["started"; "completed"].
Proof. vm_compute. reflexivity. Qed.
