(* ===== verification/NodeExec.v ===== *)
(** The agent's half of node access (internal/nodeaccess/execute.go, agent.go,
    shell.go, shell_agent.go): running one operation, the poll loop, and the
    stream shells arrive on. *)

From Stdlib Require Import Ascii String ZArith Lia.
From S2P Require Import Prelude GoStrings GoFormat NodeProtocol Gateway GatewayShell.
Open Scope Z_scope.

(** ** execute.go *)

Definition commandTimeout : duration := 30 * Second.
Definition maxStderr : Z := 8192.

(** *** [cappedBuffer] *)

Record cappedBuffer := { text : string; limit : Z; overflow : bool }.

Definition Write (b : cappedBuffer) (p : string) : cappedBuffer :=
  let remaining := limit b - Z.of_nat (String.length (text b)) in
  if remaining <=? 0 then {| text := text b; limit := limit b; overflow := true |}
  else if remaining <? Z.of_nat (String.length p) then
    {| text := text b +:+ take_bytes (Z.to_nat remaining) p; limit := limit b; overflow := true |}
  else {| text := text b +:+ p; limit := limit b; overflow := overflow b |}.

Definition concat_all (ws : list string) : string := foldr (λ w s, w +:+ s) "" ws.

(** The embedded [bytes.Buffer]'s [ReadFrom] is the buffer's own too: it takes
    everything there is to read, and knows of no limit. *)
Definition ReadFrom (b : cappedBuffer) (pieces : list string) : cappedBuffer :=
  {| text := text b +:+ concat_all pieces; limit := limit b; overflow := overflow b |}.

(** *** [runBounded]

    What a command did: the pieces it wrote, and how waiting for it ended.
    os/exec copies each of its two streams with [io.Copy], which hands the whole
    copy to a writer that has a [ReadFrom], and so never calls [Write]. *)
Definition copied (limit_ : Z) (pieces : list string) : cappedBuffer := ReadFrom {| text := ""; limit := limit_; overflow := false |} pieces.

Record command := { executable : string; arguments : list string; until : time_t }.
Record ran := { to_stdout : list string; to_stderr : list string; failure : option string; context : option string }.

Definition runBounded (r : ran) : result string string :=
  let stdout := copied maxResultBytes (to_stdout r) in
  let stderr := copied maxStderr (to_stderr r) in
  match failure r with
  | Some e =>
      match context r with
      | Some c => Err ("command timed out or was cancelled: " +:+ c)
      | None =>
          let m := TrimSpace (text stderr) in
          if String.eqb m "" then Err e else Err (e +:+ ": " +:+ m)
      end
  | None => if overflow stdout then Err ("command output exceeded " +:+ Itoa maxResultBytes +:+ " bytes") else Ok (text stdout)
  end.

(** *** [Execute] *)

Record node_host := {
  hostname : result string string; loadavg : result string string; has_podman : bool; exec : command → ran;
}.

Definition validation_error (e : request_error) : string :=
  match e with
  | EVersion => "unsupported node access protocol version" | ERequestID => "invalid request id"
  | EDeadline => "request deadline must be within the next 2 minutes" | EOperation => "unsupported operation"
  | EParam => "parameter is not allowed" | EService => "service must be a valid systemd unit name"
  | ELinesMissing => "journal lines is required" | ELines => "journal lines must be an integer from 1 to 500"
  end.

Definition prefixed {A} (what : string) (r : result string A) : result string A :=
  match r with Ok a => Ok a | Err e => Err (what +:+ ": " +:+ e) end.

(** The command of an operation; [None] for the one that reads files. *)
Definition command_of (h : node_host) (req : Request) (deadline : time_t) : option (string * command) :=
  let op := Operation req in
  if String.eqb op OperationContainerList then
    Some ("list containers",
          if has_podman h then {| executable := "/usr/bin/podman"; arguments := ["ps"; "--format"; "json"]; until := deadline |}
          else {| executable := "/usr/bin/docker"; arguments := ["ps"; "--format"; "{{json .}}"]; until := deadline |})
  else if String.eqb op OperationServiceStatus then
    Some ("read service status",
          {| executable := "/usr/bin/systemctl";
             arguments := ["show"; "--no-pager"; "--property=Id,LoadState,ActiveState,SubState,UnitFileState"; param req "service"]; until := deadline |})
  else if String.eqb op OperationServiceJournal then
    Some ("read service journal",
          {| executable := "/usr/bin/journalctl";
             arguments := ["--no-pager"; "--output=short-iso"; "--unit"; param req "service"; "--lines"; param req "lines"]; until := deadline |})
  else None.

(** The output or the error, with the commands that were run. *)
Definition Execute (h : node_host) (req : Request) (now now2 : time_t) : result string string * list command :=
  match Validate req now with
  | Err e => (Err (validation_error e), [])
  | Ok _ =>
      let max := Add now2 commandTimeout in
      let deadline := if After (Deadline req) max then max else Deadline req in
      if String.eqb (Operation req) OperationHostStatus then
        (name ← prefixed "read hostname" (hostname h);
         load ← prefixed "read load average" (loadavg h);
         mret ("hostname: " +:+ name +:+ String nl ("loadavg: " +:+ TrimSpace load)), [])
      else match command_of h req deadline with
      | Some (what, c) => (prefixed what (runBounded (exec h c)), [c])
      | None => (Err "unsupported operation", [])
      end
  end.

(** [pollOnce]: the result it posts for a request it was handed. *)
Definition posted (h : node_host) (req : Request) (now now2 : time_t) : Result :=
  match (Execute h req now now2).1 with
  | Ok out => {| rs_Version := ProtocolVersion; rs_ID := ID req; Output := out; Error := "" |}
  | Err e => {| rs_Version := ProtocolVersion; rs_ID := ID req; Output := ""; Error := take_bytes (Z.to_nat 8192) e |}
  end.

(** *** What runs *)

Lemma take_bytes_within n a b : (n ≤ String.length a)%nat → take_bytes n (a +:+ b) = take_bytes n a.
Proof.
  revert n. induction a as [|c a IH]; intros [|n] H; cbn in *; try lia; try by destruct b. rewrite string_app_cons. cbn. by rewrite IH by lia.
Qed.

Lemma Write_run limit_ all : 0 < limit_ → ∀ p, p ≠ "" → ∀ ov, ov = (limit_ <? Z.of_nat (String.length all)) →
  Write {| text := take_bytes (Z.to_nat limit_) all; limit := limit_; overflow := ov |} p =
  {| text := take_bytes (Z.to_nat limit_) (all +:+ p); limit := limit_; overflow := limit_ <? Z.of_nat (String.length (all +:+ p)) |}.
Proof.
  intros Hl p Hp ov ->. unfold Write. cbn [text limit overflow]. rewrite take_bytes_length, length_string_app.
  assert (String.length p ≠ 0%nat) as Hn by by destruct p. set (n := String.length all) in *. set (k := String.length p) in *.
  destruct (Z.leb_spec (limit_ - Z.of_nat (Z.to_nat limit_ `min` n)) 0) as [Hfull|Hroom].
  - rewrite take_bytes_within by (fold n; lia). f_equal. symmetry. apply Z.ltb_lt. lia.
  - assert (n < Z.to_nat limit_)%nat as Hnl by lia. rewrite (take_bytes_all (Z.to_nat limit_) all) by (fold n; lia).
    rewrite (take_bytes_cut (Z.to_nat limit_) all p) by (fold n; lia). fold n.
    replace (Z.to_nat limit_ `min` n)%nat with n by lia.
    destruct (Z.ltb_spec (limit_ - Z.of_nat n) (Z.of_nat k)).
    + f_equal; [do 2 f_equal; lia|symmetry; apply Z.ltb_lt; lia].
    + rewrite (take_bytes_all _ p) by (fold k; lia). f_equal. transitivity false; [apply Z.ltb_ge; lia|symmetry; apply Z.ltb_ge; lia].
Qed.

(** The cap as it was meant: had the pieces been written one by one, the buffer
    would hold their first bytes, and say it overflowed exactly when there were
    more. *)
Lemma written_exact limit_ writes : 0 < limit_ → Forall (λ p, p ≠ "") writes →
  foldl Write {| text := ""; limit := limit_; overflow := false |} writes =
  {| text := take_bytes (Z.to_nat limit_) (concat_all writes); limit := limit_; overflow := limit_ <? Z.of_nat (String.length (concat_all writes)) |}.
Proof.
  intros Hl Hw.
  assert (∀ all, foldl Write {| text := take_bytes (Z.to_nat limit_) all; limit := limit_; overflow := limit_ <? Z.of_nat (String.length all) |} writes =
    {| text := take_bytes (Z.to_nat limit_) (all +:+ concat_all writes); limit := limit_;
       overflow := limit_ <? Z.of_nat (String.length (all +:+ concat_all writes)) |}) as H.
  { induction Hw as [|p writes Hp Hw IH]; intros all; cbn [foldl concat_all foldr]; [by rewrite string_app_nil_r|].
    rewrite (Write_run limit_ all Hl p Hp _ eq_refl), IH. by rewrite string_app_assoc. }
  specialize (H ""). replace (take_bytes (Z.to_nat limit_) "") with "" in H by by destruct (Z.to_nat limit_).
  replace (limit_ <? Z.of_nat (String.length "")) with false in H by (symmetry; apply Z.ltb_ge; cbn; lia). exact H.
Qed.

(** How a command's end is answered.  Nothing is cut: not its output, and not
    what it complained of. *)
Definition answer_of (r : ran) : result string string :=
  match failure r, context r with
  | None, _ => Ok (concat_all (to_stdout r))
  | Some _, Some c => Err ("command timed out or was cancelled: " +:+ c)
  | Some e, None => Err (let m := TrimSpace (concat_all (to_stderr r)) in if String.eqb m "" then e else e +:+ ": " +:+ m)
  end.

Lemma runBounded_exact r : runBounded r = answer_of r.
Proof. unfold runBounded, answer_of. destruct (failure r), (context r); try done. cbn. by destruct (String.eqb _ _). Qed.



Lemma prefixed_Ok {A} what (r : result string A) a : prefixed what r = Ok a → r = Ok a.
Proof. by destruct r. Qed.


(** The agent's answer is one the gateway accepts, for every request with a
    valid id, unless its output is over the gateway's limit: nothing keeps a
    command's below it. *)
Lemma posted_acceptable h req now now2 : requestIDPattern (ID req) = true →
  (∀ out, (Execute h req now now2).1 = Ok out → Z.of_nat (String.length out) ≤ maxResultBytes) →
  acceptable (posted h req now now2) = true.
Proof.
  intros Hid Hout. unfold posted. destruct (Execute h req now now2) as [r cmds]. cbn [fst] in *.
  destruct r as [out|e]; unfold acceptable; cbn [rs_Version rs_ID Output Error]; rewrite Hid, Z.eqb_refl; cbn [andb].
  - rewrite andb_true_r. apply Z.leb_le. by apply Hout.
  - rewrite take_bytes_length. apply andb_true_iff. split; apply Z.leb_le; [unfold maxResultBytes; cbn; lia|lia].
Qed.

(** The error that was meant for an output over the limit is never given: all
    of it is posted, and the gateway turns it away, so that the operator is told
    nothing. *)
Lemma a_long_output_is_turned_away h req now now2 out : (Execute h req now now2).1 = Ok out → maxResultBytes < Z.of_nat (String.length out) →
  Output (posted h req now now2) = out ∧ acceptable (posted h req now now2) = false.
Proof.
  intros E Hl. unfold posted. rewrite E. split; [done|]. unfold acceptable. cbn [Output].
  replace (Z.of_nat (String.length out) <=? maxResultBytes) with false by (symmetry; apply Z.leb_gt; lia). by rewrite andb_false_r.
Qed.

Lemma an_output_is_never_refused_for_its_length r : failure r = None → runBounded r = Ok (concat_all (to_stdout r)).
Proof. intros H. by rewrite runBounded_exact; unfold answer_of; rewrite H. Qed.

(** ** agent.go, shell_agent.go: reconnecting

    The poll loop starts over at one second when a poll succeeds; the shell
    stream's loop never does. *)

Definition next_delay (d : duration) : duration := if d <? 30 * Second then d * 2 else d.
Definition poll_delay (oks : list bool) : duration := foldl (λ d (ok : bool), if ok then Second else next_delay d) Second oks.
Definition stream_delay (ends : list (option string)) : duration := foldl (λ d _, next_delay d) Second ends.

Definition doubled (n : nat) : duration := 2 ^ Z.of_nat (Nat.min n 5) * Second.
Definition failures_since (oks : list bool) : nat := foldl (λ n (ok : bool), if ok then 0 else S n)%nat 0%nat oks.

Lemma next_doubled n : next_delay (doubled n) = doubled (S n).
Proof.
  unfold next_delay, doubled. do 5 (destruct n as [|n]; [reflexivity|]).
  replace (S (S (S (S (S n)))) `min` 5)%nat with 5%nat by lia. by replace (S (S (S (S (S (S n))))) `min` 5)%nat with 5%nat by lia.
Qed.

Lemma poll_delay_exact oks : poll_delay oks = doubled (failures_since oks).
Proof.
  unfold poll_delay, failures_since. change Second with (doubled 0) at 2.
  enough (∀ n, foldl (λ d (ok : bool), if ok then Second else next_delay d) (doubled n) oks =
               doubled (foldl (λ n (ok : bool), if ok then 0 else S n)%nat n oks)) by done.
  induction oks as [|[] oks IH]; intros n; cbn [foldl]; [done|apply (IH 0%nat)|]. rewrite next_doubled. apply IH.
Qed.

(** However the streams ended, the next one waits twice as long, up to 32 s: a
    shell that ended well is no different from a refused connection. *)
Lemma stream_delay_exact ends : stream_delay ends = doubled (length ends).
Proof.
  unfold stream_delay. change Second with (doubled 0).
  enough (∀ n, foldl (λ d (_ : option string), next_delay d) (doubled n) ends = doubled (n + length ends)) by apply (H 0%nat).
  induction ends as [|e ends IH]; intros n; cbn [foldl length]; [by rewrite Nat.add_0_r|]. rewrite next_doubled, IH. f_equal. lia.
Qed.

(** ** shell.go: what is written to the operator *)

Definition chunkSize : nat := Z.to_nat 24576.

(** [shellWriter.Write] with a sender that does not fail: the frames sent. *)
Fixpoint frames (fuel : nat) (data : string) : option (list string) :=
  match data with
  | EmptyString => Some []
  | _ =>
      match fuel with
      | O => None
      | S fuel => (λ rest, take_bytes chunkSize data :: rest) <$> frames fuel (drop_bytes chunkSize data)
      end
  end.
Definition shellWriter (data : string) : option (list string) := frames (String.length data) data.

Lemma drop_bytes_length n s : String.length (drop_bytes n s) = (String.length s - n)%nat.
Proof. revert n. induction s as [|c s IH]; intros [|n]; cbn; try done. Qed.

Lemma frames_all fuel : ∀ data, (String.length data ≤ fuel)%nat → ∃ fs, frames fuel data = Some fs ∧
  concat_all fs = data ∧ Forall (λ f, 0 < String.length f ≤ chunkSize)%nat fs.
Proof.
  induction fuel as [|fuel IH]; intros data Hd; [destruct data; [by exists []|cbn in Hd; lia]|].
  destruct data as [|c data]; [by exists []|]. assert (0 < chunkSize)%nat as Hk by (unfold chunkSize; lia).
  destruct (IH (drop_bytes chunkSize (String c data))) as (fs & Hf & Hc & Hl).
  { rewrite drop_bytes_length. cbn [String.length] in *. lia. }
  exists (take_bytes chunkSize (String c data) :: fs). cbn [frames]. rewrite Hf. split_and!; [done| |].
  - cbn [concat_all foldr]. fold (concat_all fs). by rewrite Hc, take_drop_bytes.
  - constructor; [|done]. rewrite take_bytes_length. cbn [String.length]. lia.
Qed.

(** The frames are the data, in order, none empty and none over the limit the
    gateway sets on a frame's payload. *)
Lemma shellWriter_exact data : ∃ fs, shellWriter data = Some fs ∧ concat_all fs = data ∧
  Forall (λ f, 0 < String.length f ≤ chunkSize)%nat fs.
Proof. by apply frames_all. Qed.

(** ** shell_agent.go: [serveAgentShellStream]

    The main goroutine reads until something ends it, and then waits for the
    heartbeat's, before the connection is closed.  Only a heartbeat that could
    not be sent, or the agent's own end, stops the heartbeat. *)

Inductive main_at := Greeting | Reading | In_session (start : ShellMessage) | Awaiting (why : option string) | Returned (why : option string).
Record stream := { main : main_at; beating : bool; conn_open : bool }.

Definition fresh_stream : stream := {| main := Greeting; beating := false; conn_open := true |}.

Inductive stream_action :=
| Greet (sent : bool)
| Receive (m : option ShellMessage)
| Session_end (err : option string)
| Beat (sent : bool)
| Cancelled
| Joined.

Definition at_ (s : stream) (m : main_at) : stream := {| main := m; beating := beating s; conn_open := conn_open s |}.

Definition stream_act (s : stream) (a : stream_action) : option stream :=
  match a, main s with
  | Greet true, Greeting => Some {| main := Reading; beating := true; conn_open := conn_open s |}
  | Greet false, Greeting => Some {| main := Returned (Some "send"); beating := false; conn_open := false |}
  | Receive None, Reading => Some (at_ s (Awaiting (Some "receive")))
  | Receive (Some m), Reading =>
      Some (if is_type m ["heartbeat"] then s
            else if is_type m ["start"] then
              if String.eqb (SessionID m) "" then at_ s (Awaiting (Some "invalid shell start message")) else at_ s (In_session m)
            else at_ s (Awaiting (Some ("unexpected shell control message " +:+ Type_ m))))
  | Session_end err, In_session _ => Some {| main := Awaiting err; beating := beating s; conn_open := false |}
  | Beat sent, _ => guard (beating s = true);; guard (sent = true → conn_open s = true);; Some {| main := main s; beating := sent; conn_open := conn_open s |}
  | Cancelled, _ => guard (beating s = true);; Some {| main := main s; beating := false; conn_open := conn_open s |}
  | Joined, Awaiting why => guard (beating s = false);; Some {| main := Returned why; beating := false; conn_open := false |}
  | _, _ => None
  end.

Fixpoint stream_run (s : stream) (acts : list stream_action) : option stream :=
  match acts with [] => Some s | a :: acts' => s' ← stream_act s a; stream_run s' acts' end.

(** A control message the reader does not know ends the reading, not the
    stream: while heartbeats get through and the agent is not stopped, nothing
    is ever read again, and the connection stays open. *)
Lemma unexpected_message_wedges m acts : is_type m ["heartbeat"; "start"] = false →
  ∀ s, main s = Reading → beating s = true → conn_open s = true →
  Forall (λ a, a ≠ Cancelled ∧ a ≠ Beat false) acts → ∀ s', stream_run s (Receive (Some m) :: acts) = Some s' →
  main s' = Awaiting (Some ("unexpected shell control message " +:+ Type_ m)) ∧ conn_open s' = true ∧ Forall (λ a, a = Beat true) acts.
Proof.
  intros Hm s Hr Hb Hc Ha s' E. cbn [stream_run stream_act] in E. rewrite Hr in E.
  assert (is_type m ["heartbeat"] = false ∧ is_type m ["start"] = false) as [Hm1 Hm2].
  { unfold is_type, slices_Contains in *. apply bool_decide_eq_false in Hm. split; apply bool_decide_eq_false; set_solver. }
  rewrite Hm1, Hm2 in E. cbn [mbind option_bind] in E. set (why := Some _) in *.
  assert (main (at_ s (Awaiting why)) = Awaiting why ∧ beating (at_ s (Awaiting why)) = true ∧ conn_open (at_ s (Awaiting why)) = true) as H by done.
  revert E H. generalize (at_ s (Awaiting why)). induction Ha as [|a acts [Hn1 Hn2] Ha IH]; intros t E (H1 & H2 & H3).
  - injection E as <-. done.
  - cbn [stream_run] in E. destruct a as [[]|[]|err|[]| |]; cbn [stream_act] in E; rewrite H1, ?H2 in E; try done.
    case_guard as Hg; [|done]. case_guard; [|done]. cbn in E.
    destruct (IH _ E) as (? & ? & ?); [by split_and!; cbn|]. split_and!; [done..|]. by constructor.
Qed.

(** The gateway sends such a message: when the start of a shell could not be
    audited it closes a session the agent was never told of.  The two machines
    together: one refused start, and the agent's stream is gone for good. *)
Lemma unaudited_start_wedges_the_agent :
  let unaudited := [Connect 7 vm_agent true; opens 0 "alice" "s0" 5; Record_shell 0 false true] in
  omap (λ e, match e with ToAgent _ p m true => Some (p, m) | _ => None end) (shell_log unaudited) = [(7%nat, message "close" "s0")] ∧
  (main <$> stream_run fresh_stream [Greet true; Receive (Some (message "close" "s0"))])
    = Some (Awaiting (Some "unexpected shell control message close")).
Proof. split; vm_compute; reflexivity. Qed.
