(* ===== verification/VmEnroll.v ===== *)
(** Enrolling VM agents with the node access gateway
    (internal/nodeaccess/vendordata.go, and renewVMAgent of gateway.go): the
    grant a new VM is given at boot, the certificate it exchanges it for, and
    the renewal of that certificate.

    JSON and HMAC are parameters: [marshal] and [unmarshal] of the claims,
    [mac key text].  So is what the certificate library reads in a PEM text. *)

From Stdlib Require Import Ascii String ZArith Lia.
From S2P Require Import Prelude GoStrings GoFormat GoURL GoIP NetIP GoBase64 NodeProtocol Gateway.
Open Scope Z_scope.

(** ** Data *)

Definition bootstrapTokenLifetime : duration := Hour.

Definition projectIDPattern (s : string) : bool :=
  string_all (in_set "._:-") s && (1 <=? String.length s)%nat && (String.length s <=? 255)%nat.

Record novaVendordataRequest := { ProjectID : string; InstanceID : string }.

Record bootstrapClaims := {
  c_Version : Z; DeploymentID : string; c_ProjectID : string; c_InstanceID : string; IssuedAt : Z; ExpiresAt : Z;
}.

Record cloudFile := { cf_Path : string; Owner : string; Permissions : string; Content : string }.
Record vmVendordataCloudConfig := { WriteFiles : list cloudFile; Runcmd : list (list string) }.

(** [t.Unix]: whole seconds since 1970. *)
Definition Unix (t : time_t) : Z := t / Second - 62135596800.

(** A certificate as far as it is looked at. *)
Record leaf := {
  URIs : Certificate; CommonName : string; NotBefore : time_t; NotAfter : time_t; ClientAuth : bool; PublicKey : string;
}.

Definition identifies (l : leaf) (instanceUUID : string) : bool :=
  match VMIdentity (Some (URIs l)) with Ok i => String.eqb i instanceUUID | Err _ => false end.

(** ** The agent's origin *)

Definition origin_url (raw : string) : option URL :=
  u ← url_Parse raw;
  if negb (String.eqb (Scheme u) "https") || String.eqb (u_Host u) "" || has_user u || negb (String.eqb (RawQuery u) "") || negb (String.eqb (Fragment u) "")
  then None else Some u.

Definition TrimRight (s : string) (cut : string) : string := TrimRightFunc (in_cutset cut) s.

Definition agentGatewayURL (raw : string) : option string := (λ u, TrimRight (url_String u) "/") <$> origin_url raw.

(** ** The configuration a new guest gets *)

Definition pin_script (ip host : string) : string :=
  Join ["#!/bin/sh"; "# Pin the vctl access gateway when the guest cannot resolve it.";
        "getent hosts '" +:+ host +:+ "' >/dev/null 2>&1 && exit 0";
        "printf '%s\n' '" +:+ ip +:+ " " +:+ host +:+ "' >> /etc/hosts"; ""] (String nl "").

Definition service_unit (gatewayURL execPre : string) : string :=
  "[Unit]
Description=vctl outbound OpenStack VM access agent
After=network-online.target
Wants=network-online.target
StartLimitIntervalSec=0

[Service]
Type=simple
Environment=GOMAXPROCS=2
Environment=VCTL_ACCESS_GATEWAY=" +:+ gatewayURL +:+ String nl "" +:+ execPre +:+ "ExecStart=/usr/local/bin/vctl-agent session-agent --gateway " +:+ gatewayURL +:+ " --ca /etc/vctl/session-agent/gateway-ca.crt --cert /var/lib/vctl-session-agent/node.crt --key /var/lib/vctl-session-agent/node.key --renew-gateway " +:+ gatewayURL +:+ "
Restart=always
RestartSec=15
User=root
StateDirectory=vctl-session-agent
StateDirectoryMode=0700
NoNewPrivileges=true
PrivateTmp=true
ProtectSystem=strict
ProtectHome=true
ProtectControlGroups=true
ProtectKernelModules=true
ProtectKernelTunables=true
RestrictSUIDSGID=true
LockPersonality=true
ReadOnlyPaths=/etc/vctl/session-agent
ReadWritePaths=/var/lib/vctl-session-agent
RestrictAddressFamilies=AF_UNIX AF_INET AF_INET6
CPUQuota=200%
MemoryHigh=512M
MemoryMax=1G
TasksMax=128
LimitCORE=0

[Install]
WantedBy=multi-user.target
".

Definition bootstrap_script (gatewayURL instanceID pinStep : string) : string :=
  "set -eu
" +:+ pinStep +:+ "install -d -m 0700 /var/lib/vctl-session-agent /etc/vctl/session-agent
if command -v curl >/dev/null 2>&1; then
  curl --fail --silent --show-error --location --cacert /etc/vctl/session-agent/gateway-ca.crt " +:+ gatewayURL +:+ "/v1/agent/binary -o /usr/local/bin/vctl-agent
elif command -v wget >/dev/null 2>&1; then
  wget --ca-certificate=/etc/vctl/session-agent/gateway-ca.crt -O /usr/local/bin/vctl-agent " +:+ gatewayURL +:+ "/v1/agent/binary
else
  echo 'curl or wget is required to install vctl-agent' >&2
  exit 1
fi
chmod 0755 /usr/local/bin/vctl-agent
/usr/local/bin/vctl-agent node-access enroll-vm --gateway " +:+ gatewayURL +:+ " --ca /etc/vctl/session-agent/gateway-ca.crt --token-file /etc/vctl/session-agent/enrollment-token --instance-id " +:+ instanceID +:+ " --cert /var/lib/vctl-session-agent/node.crt --key /var/lib/vctl-session-agent/node.key
rm -f /etc/vctl/session-agent/enrollment-token
systemctl daemon-reload
systemctl enable --now vctl-vm-session-agent.service
".

(** [renderVMAgentCloudConfig] up to the YAML it is written as; [ca] is the
    embedded root certificate. *)
Definition renderVMAgentCloudConfig (ca gatewayURL gatewayAddress instanceID enrollmentToken : string) : option vmVendordataCloudConfig :=
  parsed ← origin_url gatewayURL;
  let gatewayURL := TrimRight gatewayURL "/" in
  pin ← (if String.eqb gatewayAddress "" then Some ""
         else match ParseIP gatewayAddress with
         | None => None
         | Some ip =>
             let host := Hostname parsed in
             Some (match ParseIP host with None => pin_script (ip_string (byte <$> ip)) host | Some _ => "" end)
         end);
  let pinned := negb (String.eqb pin "") in
  let execPre := if pinned then "ExecStartPre=+/usr/local/sbin/vctl-vm-agent-hosts" +:+ String nl "" else "" in
  let pinStep := if pinned then "/usr/local/sbin/vctl-vm-agent-hosts" +:+ String nl "" else "" in
  let file p perm content := {| cf_Path := p; Owner := "root:root"; Permissions := perm; Content := content |} in
  Some {| WriteFiles :=
            [file "/etc/vctl/session-agent/enrollment-token" "0600" enrollmentToken;
             file "/etc/vctl/session-agent/gateway-ca.crt" "0644" ca;
             file "/etc/systemd/system/vctl-vm-session-agent.service" "0644" (service_unit gatewayURL execPre);
             file "/usr/local/sbin/vctl-vm-agent-bootstrap" "0700" (bootstrap_script gatewayURL instanceID pinStep)] ++
            (if pinned then [file "/usr/local/sbin/vctl-vm-agent-hosts" "0700" pin] else []);
          Runcmd := [["/usr/local/sbin/vctl-vm-agent-bootstrap"]] |}.

Section enrolment.
Context (mac : string → string → string) (marshal : bootstrapClaims → string) (unmarshal : string → option bootstrapClaims)
        (parse_pem : string → option leaf).

(** ** Grants *)

Definition signBootstrapToken (key : string) (claims : bootstrapClaims) : option string :=
  if (String.length key <? 32)%nat || negb (c_Version claims =? 1) || String.eqb (c_InstanceID claims) ""
     || String.eqb (c_ProjectID claims) "" || String.eqb (DeploymentID claims) ""
  then None
  else
    let encoded := EncodeToString (marshal claims) in
    Some (encoded +:+ "." +:+ EncodeToString (mac key encoded)).

Definition claims_good (claims : bootstrapClaims) (now : time_t) : bool :=
  (c_Version claims =? 1) && String.eqb (c_InstanceID claims) (ToLower (c_InstanceID claims)) && novaUUIDPattern (c_InstanceID claims) &&
  projectIDPattern (c_ProjectID claims) && negb (String.eqb (DeploymentID claims) "") &&
  (IssuedAt claims <=? Unix (Add now Minute)) && (Unix now <? ExpiresAt claims) &&
  (wrap64 (ExpiresAt claims - IssuedAt claims) <=? 3600).

Definition verifyBootstrapToken (key token : string) (now : time_t) : option bootstrapClaims :=
  match Split token "." with
  | [payload; signature] =>
      if (String.length key <? 32)%nat || (4096 <? Z.of_nat (String.length payload)) || (128 <? Z.of_nat (String.length signature)) then None
      else
        sig ← DecodeString signature;
        if negb (String.eqb sig (mac key payload)) then None
        else
          text ← DecodeString payload; claims ← unmarshal text;
          if claims_good claims now then Some claims else None
  | _ => None
  end.

(** ** What the gateway answers *)

Record enroller := {
  EnrollmentKey : string; GatewayURL : string; GatewayAddress : string; ca_bundle : string; has_issuer : bool; has_nova : bool;
}.

Inductive answer := Failed (code : Z) | Config (c : vmVendordataCloudConfig) | Issued (pem : string).

Definition grant_claims (farm project instance : string) (now : time_t) : bootstrapClaims :=
  {| c_Version := 1; DeploymentID := farm; c_ProjectID := project; c_InstanceID := instance; IssuedAt := Unix now;
     ExpiresAt := Unix (Add now bootstrapTokenLifetime) |}.

(** [nova farm token]: whether the farm's Keystone vouches for the token. *)
Definition serveVMAgentVendordata (g : enroller) (farm_query token_header : string) (body : option novaVendordataRequest)
    (nova : string → string → bool) (now : time_t) : answer :=
  if negb (has_nova g) || (String.length (EnrollmentKey g) <? 32)%nat then Failed 503
  else if negb (bool_decide (is_Some (agentGatewayURL (GatewayURL g)))) then Failed 503
  else
    let farm := TrimSpace farm_query in
    let token := TrimSpace token_header in
    if String.eqb farm "" || String.eqb token "" then Failed 401
    else match body with
    | None => Failed 400
    | Some input =>
        if negb (novaUUIDPattern (InstanceID input)) || negb (String.eqb (InstanceID input) (ToLower (InstanceID input)))
           || negb (projectIDPattern (ProjectID input))
        then Failed 400
        else if negb (nova farm token) then Failed 401
        else match signBootstrapToken (EnrollmentKey g) (grant_claims farm (ProjectID input) (InstanceID input) now) with
        | None => Failed 500
        | Some bootstrap =>
            match renderVMAgentCloudConfig (ca_bundle g) (GatewayURL g) (GatewayAddress g) (InstanceID input) bootstrap with
            | None => Failed 500
            | Some config => Config config
            end
        end
    end.

(** [now1] and [now2] are its two readings of the clock; [key]: the public key
    the certificate must carry, if one is asked for. *)
Definition validateVMCertificate (pem instanceUUID : string) (key : option string) (now1 now2 : time_t) : bool :=
  match parse_pem pem with
  | None => false
  | Some l =>
      identifies l instanceUUID &&
      String.eqb (CommonName l) (instanceUUID +:+ ".vm.sre.local") && negb (now1 <? NotBefore l) && (now2 <? NotAfter l) &&
      ClientAuth l && match key with Some k => String.eqb k (PublicKey l) | None => true end
  end.

(** The answer, with what the signer was asked. *)
Definition enrollVMAgent (g : enroller) (auth : string) (body : option string) (signer : string → string → option string)
    (now now1 now2 : time_t) : answer * list (string * string) :=
  if negb (has_issuer g) || (String.length (EnrollmentKey g) <? 32)%nat then (Failed 503, [])
  else match verifyBootstrapToken (EnrollmentKey g) (bearer auth) now with
  | None => (Failed 401, [])
  | Some claims =>
      match body with
      | None => (Failed 400, [])
      | Some csr =>
          if String.eqb csr "" then (Failed 400, [])
          else
            let asked := [(c_InstanceID claims, csr)] in
            match signer (c_InstanceID claims) csr with
            | None => (Failed 503, asked)
            | Some pem => (if validateVMCertificate pem (c_InstanceID claims) None now1 now2 then Issued pem else Failed 503, asked)
            end
      end
  end.

Definition renewVMAgent (g : enroller) (NodeRoots : option (Certificate → bool)) (x509 : string → option Certificate) (t : transport)
    (authorized : string → bool) (body : option string) (signer : string → string → option string) : answer * list (string * string) :=
  if negb (has_issuer g) then (Failed 503, [])
  else match requestPeerCertificate NodeRoots x509 t with
  | Err _ => (Failed 401, [])
  | Ok cert =>
      match VMIdentity (Some cert) with
      | Err _ => (Failed 403, [])
      | Ok instanceUUID =>
          if negb (authorized instanceUUID) then (Failed 403, [])
          else match body with
          | None => (Failed 400, [])
          | Some csr =>
              if String.eqb csr "" then (Failed 400, [])
              else
                let asked := [(instanceUUID, csr)] in
                match signer instanceUUID csr with
                | None => (Failed 503, asked)
                | Some pem =>
                    match parse_pem pem with
                    | None => (Failed 503, asked)
                    | Some l => (if identifies l instanceUUID then Issued pem else Failed 503, asked)
                    end
                end
          end
      end
  end.

(** ** What a grant is worth *)

Lemma Split_token a b : lacks "." a = true → lacks "." b = true → Split (a +:+ "." +:+ b) "." = [a; b].
Proof. intros Ha Hb. change ("." +:+ b) with (String "." b). rewrite Split_app by done. by rewrite Split_lacks. Qed.

Lemma Unix_add t : Unix (Add t bootstrapTokenLifetime) = Unix t + 3600.
Proof.
  unfold Unix, Add, bootstrapTokenLifetime. change Hour with (3600 * Second). rewrite Z.div_add by done. lia.
Qed.

(** The encoded claims fit the token's limit. *)
Definition small (claims : bootstrapClaims) : Prop := (String.length (marshal claims) ≤ Z.to_nat 3071)%nat.
Definition digest : Prop := ∀ k m, String.length (mac k m) = 32%nat.

Lemma verify_signed key claims token now : digest → small claims → unmarshal (marshal claims) = Some claims →
  signBootstrapToken key claims = Some token →
  verifyBootstrapToken key token now = if claims_good claims now then Some claims else None.
Proof.
  intros Hd Hs Hu Ht. unfold signBootstrapToken in Ht. destruct (_ || _) eqn:Hk; [done|]. injection Ht as <-.
  unfold verifyBootstrapToken. rewrite Split_token by apply Encode_lacks_dot.
  assert ((String.length key <? 32)%nat = false) as -> by (repeat (apply orb_false_iff in Hk as [Hk _]); done). cbn [orb].
  pose proof (Encode_length (marshal claims)) as H1. pose proof (Encode_length (mac key (EncodeToString (marshal claims)))) as H2. rewrite Hd in H2. unfold small in Hs.
  rewrite (proj2 (Z.ltb_ge _ _)) by lia. rewrite (proj2 (Z.ltb_ge _ _)) by lia. cbn [orb]. rewrite !Decode_Encode. cbn [mbind option_bind].
  rewrite String.eqb_refl. cbn [negb]. by rewrite Hu.
Qed.

Lemma verify_sound key token now claims : verifyBootstrapToken key token now = Some claims →
  claims_good claims now = true ∧ (32 ≤ String.length key)%nat ∧
  ∃ payload signature, Split token "." = [payload; signature] ∧ DecodeString signature = Some (mac key payload) ∧ DecodeString payload ≫= unmarshal = Some claims.
Proof.
  unfold verifyBootstrapToken. destruct (Split token ".") as [|payload [|signature [|]]]; try done.
  destruct (Nat.ltb_spec (String.length key) 32) as [|Hk]; [done|]. cbn [orb]. destruct (_ || _); [done|].
  destruct (DecodeString signature) as [sig|] eqn:Es; [|done]. cbn [mbind option_bind]. destruct (String.eqb_spec sig (mac key payload)) as [->|]; [|done]. cbn [negb].
  destruct (DecodeString payload) as [text|] eqn:Ep; [|done]. cbn [mbind option_bind]. destruct (unmarshal text) as [c|] eqn:Eu; [|done]. cbn.
  destruct (claims_good c now) eqn:Eg; [|done]. intros [= <-]. split_and!; [done..|]. exists payload, signature. by rewrite Es, Ep.
Qed.

Lemma sign_word key claims token : signBootstrapToken key claims = Some token → word token.
Proof.
  unfold signBootstrapToken. destruct (_ || _); [done|]. intros [= <-].
  rewrite !word_app. split; [apply Encode_word|]. split; [done|apply Encode_word].
Qed.

Lemma bearer_word token : word token → bearer ("Bearer " +:+ token) = token.
Proof. intros H. unfold bearer. rewrite HasPrefix_app, TrimPrefix_app. cbn [negb]. by apply word_TrimSpace. Qed.

Lemma rendered_token ca url ip i token c : renderVMAgentCloudConfig ca url ip i token = Some c →
  (λ f, (cf_Path f, Permissions f, Content f)) <$> WriteFiles c !! 0%nat = Some ("/etc/vctl/session-agent/enrollment-token", "0600", token).
Proof.
  unfold renderVMAgentCloudConfig. intros H. apply bind_Some in H as (u & _ & H). apply bind_Some in H as (pin & _ & H). by injection H as <-.
Qed.

Definition inside_the_hour (t now : time_t) : bool := (Unix t <=? Unix (Add now Minute)) && (Unix now <? Unix t + 3600).

(** A new VM's configuration holds, in a file of mode 0600, a grant for the
    instance Nova asked for, and only after the farm's Keystone vouched for the
    Nova token; from a minute before it was made until an hour after, and at no
    other time, the gateway takes that grant for a signing request, and asks
    the signer for no other instance. *)
Theorem grant_lives_an_hour g farm token input nova t c :
  let claims := grant_claims (TrimSpace farm) (ProjectID input) (InstanceID input) t in
  digest → small claims → unmarshal (marshal claims) = Some claims →
  serveVMAgentVendordata g farm token (Some input) nova t = Config c →
  nova (TrimSpace farm) (TrimSpace token) = true ∧
  ∃ grant, (λ f, (cf_Path f, Permissions f, Content f)) <$> WriteFiles c !! 0%nat = Some ("/etc/vctl/session-agent/enrollment-token", "0600", grant) ∧
  ∀ now now1 now2 csr signer, has_issuer g = true → csr ≠ "" →
    let '(ans, asked) := enrollVMAgent g ("Bearer " +:+ grant) (Some csr) signer now now1 now2 in
    if inside_the_hour t now then asked = [(InstanceID input, csr)] else ans = Failed 401 ∧ asked = [].
Proof.
  intros claims Hd Hsm Hm H. unfold serveVMAgentVendordata in H.
  destruct (_ || _) eqn:Hkey in H; [done|]. destruct (negb (bool_decide _)); [done|].
  destruct (_ || _) eqn:Hfarm in H; [done|]. destruct (_ || _) eqn:Hin in H; [done|].
  destruct (nova _ _) eqn:Hn; [|done]. cbn [negb] in H. split; [done|].
  fold claims in H. destruct (signBootstrapToken _ claims) as [grant|] eqn:Hsign; [|done].
  destruct (renderVMAgentCloudConfig _ _ _ _ _) as [config|] eqn:Hr; [|done]. injection H as <-.
  exists grant. split; [by eapply rendered_token|]. intros now now1 now2 csr signer Hi Hc.
  bool_simpl. unfold enrollVMAgent. rewrite Hi, (ltac:(eassumption) : (String.length (EnrollmentKey g) <? 32)%nat = false), bearer_word by by eapply sign_word. cbn [negb orb].
  rewrite (verify_signed _ claims) by done.
  assert (claims_good claims now = inside_the_hour t now) as ->.
  { unfold claims_good, inside_the_hour, claims, grant_claims. cbn [c_Version c_InstanceID c_ProjectID DeploymentID IssuedAt ExpiresAt].
    rewrite Unix_add. replace (Unix t + 3600 - Unix t) with 3600 by lia. change (wrap64 3600 <=? 3600) with true.
    repeat match goal with E : _ = _ :> bool |- _ => rewrite E; clear E end. by rewrite !andb_true_r. }
  case_if; [|done]. destruct (String.eqb_spec csr ""); [done|]. cbn [c_InstanceID]. by destruct (signer _ _).
Qed.

(** C17. No certificate without an identity.  The signer is asked for one
    instance at most: the one of a grant whose seal the gateway's key made and
    that has not expired, or, on renewal, the one of the verified certificate
    the VM shows while the inventory still holds it.  What is handed out
    identifies that very instance, and when enrolling also bears its name, is
    in force and is for client authentication. *)
Theorem certificates_follow_grants g auth body signer now now1 now2 NodeRoots x509 t authorized :
  (∀ ans asked, enrollVMAgent g auth body signer now now1 now2 = (ans, asked) →
     (∀ i csr, (i, csr) ∈ asked → body = Some csr ∧ csr ≠ "" ∧ lower_uuid i = true ∧
        ∃ claims payload seal, c_InstanceID claims = i ∧ Unix now < ExpiresAt claims ∧ (32 ≤ String.length (EnrollmentKey g))%nat ∧
          Split (bearer auth) "." = [payload; seal] ∧ DecodeString seal = Some (mac (EnrollmentKey g) payload) ∧
          DecodeString payload ≫= unmarshal = Some claims) ∧
     (∀ pem, ans = Issued pem → ∃ i csr l, asked = [(i, csr)] ∧ signer i csr = Some pem ∧ parse_pem pem = Some l ∧ identifies l i = true ∧
        CommonName l = i +:+ ".vm.sre.local" ∧ NotBefore l ≤ now1 ∧ now2 < NotAfter l ∧ ClientAuth l = true)) ∧
  (∀ ans asked, renewVMAgent g NodeRoots x509 t authorized body signer = (ans, asked) →
     (∀ i csr, (i, csr) ∈ asked → body = Some csr ∧ csr ≠ "" ∧ authorized i = true ∧
        ∃ cert, requestPeerCertificate NodeRoots x509 t = Ok cert ∧ VMIdentity (Some cert) = Ok i) ∧
     (∀ pem, ans = Issued pem → ∃ i csr l, asked = [(i, csr)] ∧ signer i csr = Some pem ∧ parse_pem pem = Some l ∧ identifies l i = true)).
Proof.
  split; intros ans asked.
  - unfold enrollVMAgent. destruct (_ || _); [intros [= <- <-]; split; [set_solver|done]|].
    destruct (verifyBootstrapToken _ _ _) as [claims|] eqn:Hv; [|intros [= <- <-]; split; [set_solver|done]].
    destruct body as [csr|]; [|intros [= <- <-]; split; [set_solver|done]].
    destruct (String.eqb_spec csr "") as [->|Hc]; [intros [= <- <-]; split; [set_solver|done]|].
    intros H. assert (asked = [(c_InstanceID claims, csr)]) as -> by (destruct (signer _ _); by injection H). split.
    + intros i csr' [= -> ->]%list_elem_of_singleton. apply verify_sound in Hv as (Hg & Hk & payload & seal & ?).
      unfold claims_good in Hg. bool_simpl. split_and!; [done..| |].
      { by apply andb_true_iff. }
      by exists claims, payload, seal.
    + intros pem ->. destruct (signer _ _) as [pem'|] eqn:Hs; [|done]. injection H as H. destruct (validateVMCertificate _ _ _ _ _) eqn:E; [|done].
      injection H as ->. unfold validateVMCertificate in E. destruct (parse_pem pem) as [l|] eqn:Hl; [|done]. bool_simpl.
      exists (c_InstanceID claims), csr, l. split_and!; [done..| |done|done|done].
      by apply String.eqb_eq.
  - unfold renewVMAgent. destruct (negb _); [intros [= <- <-]; split; [set_solver|done]|].
    destruct (requestPeerCertificate _ _ _) as [cert|]; [|intros [= <- <-]; split; [set_solver|done]].
    destruct (VMIdentity _) as [i|] eqn:Hi; [|intros [= <- <-]; split; [set_solver|done]].
    destruct (authorized i) eqn:Ha; [|intros [= <- <-]; split; [set_solver|done]]. cbn [negb].
    destruct body as [csr|]; [|intros [= <- <-]; split; [set_solver|done]].
    destruct (String.eqb_spec csr "") as [->|Hc]; [intros [= <- <-]; split; [set_solver|done]|].
    intros H. assert (asked = [(i, csr)]) as -> by (destruct (signer _ _); [destruct (parse_pem _)|]; by injection H). split.
    + intros ? ? [= -> ->]%list_elem_of_singleton. eauto 8.
    + intros pem ->. destruct (signer _ _) as [pem'|] eqn:Hs; [|done]. destruct (parse_pem pem') as [l|] eqn:Hl; [|done].
      injection H as H. destruct (identifies l i) eqn:E; [|done]. injection H as ->. eauto 10.
Qed.
End enrolment.

(** ** On a concrete instance *)

Module Sample.

Definition mac (key text : string) : string := "0123456789abcdef0123456789abcdef".
Definition vm : string := "0b1c2d3e-0000-4000-8000-0123456789ab".
Definition marshal (c : bootstrapClaims) : string := "claims of " +:+ c_InstanceID c.
Definition boot : time_t := 63900000000 * Second.
Definition claims : bootstrapClaims := grant_claims "farm:5000" "p1" vm boot.
Definition unmarshal (s : string) : option bootstrapClaims := if String.eqb s (marshal claims) then Some claims else None.
Definition cert : leaf :=
  {| URIs := [vmPrefix +:+ vm]; CommonName := vm +:+ ".vm.sre.local"; NotBefore := 0; NotAfter := Add boot (24 * Hour); ClientAuth := true; PublicKey := "k" |}.
Definition parse_pem (s : string) : option leaf := if String.eqb s "PEM" then Some cert else None.
Definition gateway : enroller :=
  {| EnrollmentKey := mac "" ""; GatewayURL := "https://gw.example:8443/"; GatewayAddress := "10.0.0.9"; ca_bundle := "CA"; has_issuer := true; has_nova := true |}.
Definition input : novaVendordataRequest := {| ProjectID := "p1"; InstanceID := vm |}.
Definition signer (i csr : string) : option string := Some "PEM".
Definition served : answer := serveVMAgentVendordata mac marshal gateway " farm:5000" "tok" (Some input) (λ _ _, true) boot.
Definition enrolled (grant : string) (now : time_t) : answer * list (string * string) :=
  enrollVMAgent mac unmarshal parse_pem gateway ("Bearer " +:+ grant) (Some "csr") signer now now now.

Example pinned : match served with Config c => (cf_Path <$> WriteFiles c, length (Runcmd c)) | _ => ([], 0%nat) end =
  (["/etc/vctl/session-agent/enrollment-token"; "/etc/vctl/session-agent/gateway-ca.crt"; "/etc/systemd/system/vctl-vm-session-agent.service";
    "/usr/local/sbin/vctl-vm-agent-bootstrap"; "/usr/local/sbin/vctl-vm-agent-hosts"], 1%nat).
Proof. vm_compute. reflexivity. Qed.

Example renewed : renewVMAgent parse_pem gateway None (λ _, None) {| PeerCertificates := [[vmPrefix +:+ vm]]; verified := true; forwarded := "" |}
  (String.eqb vm) (Some "csr") signer = (Issued "PEM", [(vm, "csr")]).
Proof. vm_compute. reflexivity. Qed.

Lemma grant_lives_an_hour_witness : ∃ grant,
  enrolled grant (Add boot (59 * Minute)) = (Issued "PEM", [(vm, "csr")]) ∧ enrolled grant (Add boot Hour) = (Failed 401, []).
Proof.
  destruct served as [|c|] eqn:E; [vm_compute in E; discriminate E| |vm_compute in E; discriminate E].
  destruct (grant_lives_an_hour mac marshal unmarshal parse_pem gateway " farm:5000" "tok" input (λ _ _, true) boot c) as (_ & grant & Hf & H).
  - intros k m. reflexivity.
  - unfold small. apply Nat.leb_le. vm_compute. reflexivity.
  - vm_compute. reflexivity.
  - exact E.
  - exists grant. unfold enrolled. pose proof (H (Add boot (59 * Minute)) (Add boot (59 * Minute)) (Add boot (59 * Minute)) "csr" signer eq_refl ltac:(done)) as H1.
    pose proof (H (Add boot Hour) (Add boot Hour) (Add boot Hour) "csr" signer eq_refl ltac:(done)) as H2.
    change (inside_the_hour boot (Add boot (59 * Minute))) with true in H1. change (inside_the_hour boot (Add boot Hour)) with false in H2.
    assert (grant = default "" (signBootstrapToken mac marshal (EnrollmentKey gateway) claims)) as ->.
    { clear H H1 H2. vm_compute in E. injection E as <-. cbn in Hf. injection Hf as <-. vm_compute. reflexivity. }
    split; [vm_compute; reflexivity|]. destruct (enrollVMAgent _ _ _ _ _ _ _ (Add boot Hour) _ _) as [ans asked]. by destruct H2 as [-> ->].
Defined.

Definition grant : string := default "" (signBootstrapToken mac marshal (EnrollmentKey gateway) claims).
Definition direct : transport := {| PeerCertificates := [[vmPrefix +:+ vm]]; verified := true; forwarded := "" |}.

Lemma certificates_follow_grants_witness :
  (∃ claims, c_InstanceID claims = vm ∧ Unix (Add boot Minute) < ExpiresAt claims) ∧ (∃ l, parse_pem "PEM" = Some l ∧ CommonName l = vm +:+ ".vm.sre.local") ∧
  ∃ cert, requestPeerCertificate None (λ _, None) direct = Ok cert ∧ VMIdentity (Some cert) = Ok vm.
Proof.
  destruct (certificates_follow_grants mac unmarshal parse_pem gateway ("Bearer " +:+ grant) (Some "csr") signer (Add boot Minute) boot boot None (λ _, None)
    direct (String.eqb vm)) as [He Hr].
  destruct (He (Issued "PEM") [(vm, "csr")]) as [Ha Hi]; [vm_compute; reflexivity|].
  destruct (Hr (Issued "PEM") [(vm, "csr")]) as [Hb _]; [vm_compute; reflexivity|].
  destruct (Ha vm "csr") as (_ & _ & _ & claims & _ & _ & H1 & H2 & _); [by left|].
  destruct (Hi "PEM" eq_refl) as (i & c & l & Eq & _ & H3 & _ & H4 & _). injection Eq as <- <-.
  destruct (Hb vm "csr") as (_ & _ & _ & H5); [by left|].
  split; [by exists claims|]. split; [by exists l|exact H5].
Defined.
End Sample.
