(* ===== verification/NodeAuthz.v ===== *)
(** Who the node access gateway lets in and what it writes down
    (internal/nodeaccess/vctl_adapters.go, keystone_ca.go, and
    [InsertNodeAccessAudit] of internal/store/node_access_audit.go): the Nova
    service token, the operator, the node, and the audit row.

    Postgres, Vault and Keystone answer through arguments.  A PEM text is the
    blocks found in it, and a certificate what is looked at of it. *)

From Stdlib Require Import Ascii String ZArith Lia.
From S2P Require Import Prelude GoStrings InvCache Authz OpenStackFold NovaApi Reconcile GoURL NodeProtocol Gateway.
Open Scope Z_scope.

(** ** A farm's certificate authority *)

Record ca_cert := { Subject : string; BasicConstraintsValid : bool; IsCA : bool }.

Record pem_block := { pb_Type : string; pb_Cert : option ca_cert }.

Definition ca_step (certs : list ca_cert) (b : pem_block) : result string (list ca_cert) :=
  if negb (String.eqb (pb_Type b) "CERTIFICATE") then Err "only CERTIFICATE blocks are accepted"
  else match pb_Cert b with
  | None => Err "parse certificate"
  | Some cert => if negb (BasicConstraintsValid cert) || negb (IsCA cert) then Err "not a CA certificate" else Ok (certs ++ [cert])
  end.

Fixpoint ca_blocks (certs : list ca_cert) (blocks : list pem_block) : result string (list ca_cert) :=
  match blocks with
  | [] => Ok certs
  | b :: blocks' => certs' ← ca_step certs b; ca_blocks certs' blocks'
  end.

Definition ParseKeystoneCA (blocks : list pem_block) : result string (list ca_cert) :=
  certs ← ca_blocks [] blocks;
  if bool_decide (certs = []) then Err "no PEM certificate found" else Ok certs.

(** [system]: the system pool, if there is one; [sre]: the embedded root, with
    the certificates found in it.  Pools are lists here. *)
Definition keystoneRoots (system : option (list ca_cert)) (sre : string * list ca_cert) (farm : string * list pem_block) : result string (list ca_cert) :=
  let roots := default [] system in
  if bool_decide (sre.2 = []) && negb (String.eqb sre.1 "") then Err "embedded SRE certificate authority is invalid"
  else if String.eqb farm.1 "" then Ok (roots ++ sre.2)
  else match ParseKeystoneCA farm.2 with
  | Err _ => Err "registered Keystone CA"
  | Ok certs => Ok (roots ++ sre.2 ++ certs)
  end.

(** ** Where a farm's tokens are checked *)

Definition keystone_origin (u : URL) : bool :=
  String.eqb (Scheme u) "https" && negb (String.eqb (u_Host u) "") && negb (has_user u) && String.eqb (RawQuery u) "" &&
  String.eqb (Fragment u) "" && String.eqb (Opaque u) "".

Definition with_path (p : string) (u : URL) : URL :=
  {| Scheme := Scheme u; Opaque := Opaque u; has_user := has_user u; u_Host := u_Host u; Path := p; RawPath := RawPath u;
     ForceQuery := ForceQuery u; RawQuery := RawQuery u; Fragment := Fragment u |}.

Definition tokens_path (p : string) : string := TrimSuffix (TrimSuffix p "/") "/v3" +:+ "/v3/auth/tokens".

Definition KeystoneTokensURL (deploymentID verifyURL : string) : result string string :=
  let base := if String.eqb verifyURL "" then "https://" +:+ deploymentID else verifyURL in
  match url_Parse base with
  | None => Err "keystone endpoint must be an https origin"
  | Some u =>
      if negb (keystone_origin u) then Err "keystone endpoint must be an https origin"
      else if String.eqb verifyURL "" && negb (String.eqb (u_Host u) deploymentID) then Err "registered farm has an invalid Keystone endpoint"
      else Ok (url_String (with_path (tokens_path (Path u)) u))
  end.

(** ** The Nova service token *)

(** What Keystone answers; [ExpiresAt] is [None] when it does not parse. *)
Record keystone_token := { kt_ExpiresAt : option time_t; UserName : string; kt_ProjectID : string; kt_Roles : list string }.

Definition active_nova (username : string) (now : time_t) (t : keystone_token) : bool :=
  match kt_ExpiresAt t with
  | None => false
  | Some expires => After expires now && String.eqb (UserName t) username && negb (String.eqb (kt_ProjectID t) "") && existsb (String.eqb "admin") (kt_Roles t)
  end.

(** A request that carries the token: where to, and the roots the server is
    verified against. *)
Record token_request := { tr_URL : string; tr_Roots : list ca_cert; tr_Token : string }.

(** What is asked of which Keystone; [pems] reads a registered CA. *)
Definition nova_request (deployments : result string (list Deployment)) (system : option (list ca_cert)) (sre : string * list ca_cert)
    (pems : string → list pem_block) (deploymentID serviceToken : string) : result string token_request :=
  if String.eqb (TrimSpace serviceToken) "" || ContainsAny serviceToken (String "013" (String "010" "")) then Err "Nova service token is missing or malformed"
  else
    ds ← deployments;
    match head (filter (λ d, d_ID d = deploymentID ∧ d_State d = "active") ds) with
    | None => Err "farm is not registered and active"
    | Some d =>
        tokensURL ← KeystoneTokensURL deploymentID (d_KeystoneVerifyURL d);
        match url_Parse tokensURL with
        | None => Err "registered farm has an invalid Keystone endpoint"
        | Some endpoint =>
            roots ← keystoneRoots system sre (d_KeystoneCAPEM d, pems (d_KeystoneCAPEM d));
            Ok {| tr_URL := url_String endpoint; tr_Roots := roots; tr_Token := serviceToken |}
        end
    end.

Definition expected_user (nova_username : string) : string := let u := TrimSpace nova_username in if String.eqb u "" then "nova" else u.

(** What the status and the decoded body say, or no answer at all. *)
Definition nova_verdict (nova_username : string) (now : time_t) (answer : option (Z * option keystone_token)) : result string unit :=
  match answer with
  | None => Err "validate Nova service token with farm Keystone"
  | Some (code, body) =>
      if negb (code =? 200) then Err "farm Keystone rejected Nova service token"
      else match body with
      | None => Err "decode Keystone token validation response"
      | Some t => if active_nova (expected_user nova_username) now t then Ok tt else Err "Keystone token is not an active Nova service identity"
      end
  end.

(** The requests that left, and the verdict. *)
Definition AuthenticateNova (deployments : result string (list Deployment)) (system : option (list ca_cert)) (sre : string * list ca_cert)
    (pems : string → list pem_block) (keystone : token_request → option (Z * option keystone_token)) (nova_username : string) (now : time_t)
    (deploymentID serviceToken : string) : list token_request * result string unit :=
  match nova_request deployments system sre pems deploymentID serviceToken with
  | Err e => ([], Err e)
  | Ok req => ([req], nova_verdict nova_username now (keystone req))
  end.

(** ** The operator *)

Definition grant_for (operation : string) : string := if String.eqb operation OperationShellSession then "node-access-shell" else "node-access".

(** [lookup] is the operator's own token looked up in Vault: identity and
    policies; [commands] the store's answer, asked only when it is needed. *)
Definition AuthorizeNodeAccess (adminPolicies : list string) (lookup : result string (string * list string))
    (commands : string → result string (gset string)) (operation : string) : result string string :=
  '(identity, policies) ← lookup;
  if String.eqb identity "" then Err "operator token has no stable identity"
  else if HasAdminPolicy policies adminPolicies then Ok identity
  else
    cmds ← commands identity;
    if bool_decide ("*" ∈ cmds) || bool_decide (grant_for operation ∈ cmds) then Ok identity else Err ("operator lacks " +:+ grant_for operation +:+ " grant").

(** ** The node *)

(** [get] is [None] on any error of the store, as the code takes it. *)
Definition AuthorizeNode (get : string → option Server) (instances : string → result string (list StoreInstance)) (now : time_t)
    (hostname : string) : result string unit :=
  match get hostname with
  | Some host => if negb (String.eqb (StateOrActive (ServerState host)) StateActive) then Err "node is not active" else Ok tt
  | None =>
      vms ← instances hostname;
      match vms with
      | [] => Err "node does not exist in host or OpenStack VM inventory"
      | [vm] =>
          if negb (bool_decide (si_MissingSince vm = None)) || negb (String.eqb (si_Status vm) "ACTIVE") then Err "VM is not active in OpenStack inventory"
          else if IsZero (si_ObservedAt vm) || (3 * Hour <? Sub now (si_ObservedAt vm)) then Err "VM inventory record is stale"
          else Ok tt
      | _ => Err "VM identity is ambiguous"
      end
  end.

(** ** The audit row *)

Record NodeAccessAuditEvent := {
  na_RequestID : string; na_Phase : string; na_Operator : string; na_Hostname : string; na_TargetKind : string; na_Operation : string;
  na_StartedAt : time_t; na_EndedAt : option time_t; na_Outcome : string;
}.

(** The row inserted, or why there is none. *)
Definition InsertNodeAccessAudit (e : NodeAccessAuditEvent) : result string NodeAccessAuditEvent :=
  if String.eqb (na_RequestID e) "" || String.eqb (na_Operator e) "" || String.eqb (na_Hostname e) "" || String.eqb (na_Operation e) ""
  then Err "node access audit requires request, operator, host, and operation"
  else if negb (String.eqb (na_Phase e) "started") && negb (String.eqb (na_Phase e) "finished") then Err "invalid node access audit phase"
  else
    let kind := if String.eqb (na_TargetKind e) "" then "host" else na_TargetKind e in
    if negb (String.eqb kind "host") && negb (String.eqb kind "vm") then Err "invalid node access target kind"
    else Ok {| na_RequestID := na_RequestID e; na_Phase := na_Phase e; na_Operator := na_Operator e; na_Hostname := na_Hostname e; na_TargetKind := kind;
               na_Operation := na_Operation e; na_StartedAt := na_StartedAt e; na_EndedAt := na_EndedAt e; na_Outcome := na_Outcome e |}.

Definition RecordNodeAccess (event : AuditEvent) : result string NodeAccessAuditEvent :=
  InsertNodeAccessAudit
    {| na_RequestID := RequestID event; na_Phase := if String.eqb (Outcome event) "started" then "started" else "finished"; na_Operator := Operator event;
       na_Hostname := Node event; na_TargetKind := ae_TargetKind event; na_Operation := ae_Operation event; na_StartedAt := StartedAt event;
       na_EndedAt := if IsZero (EndedAt event) then None else Some (EndedAt event); na_Outcome := Outcome event |}.

(** ** Lemmas *)

Lemma escape_nil keep s : escape keep s = "" → s = "".
Proof. destruct s as [|c s]; [done|]. cbn [escape]. by destruct (keep c). Qed.

Lemma EscapedPath_nil u : EscapedPath u = "" → Path u = "".
Proof.
  unfold EscapedPath. destruct (String.eqb_spec (RawPath u) "") as [|Hr]; cbn [negb andb]; [|case_if; [done|]];
    (destruct (String.eqb (Path u) "*"); [done|apply escape_nil]).
Qed.

Lemma tokens_path_nonempty p : tokens_path p ≠ "".
Proof. unfold tokens_path. by destruct (TrimSuffix _ _). Qed.

Lemma tokens_url u : keystone_origin u = true →
  ∃ tail, url_String (with_path (tokens_path (Path u)) u) = "https://" +:+ escape host_byte (u_Host u) +:+ "/" +:+ tail.
Proof.
  intros Ho. unfold keystone_origin in Ho. apply andb_true_iff in Ho as [[[[[Hs Hne]%andb_true_iff _]%andb_true_iff Hq]%andb_true_iff _]%andb_true_iff Hop].
  apply String.eqb_eq in Hs, Hop. unfold url_String.
  set (v := with_path _ u). change (Scheme v) with (Scheme u). change (Opaque v) with (Opaque u). change (u_Host v) with (u_Host u).
  rewrite Hs, Hop, Hne.
  cbn [negb String.eqb orb andb]. assert (EscapedPath v ≠ "") as He by (intros E%EscapedPath_nil; exact (tokens_path_nonempty _ E)).
  rewrite (proj2 (String.eqb_neq _ _) He). cbn [negb andb]. rewrite andb_true_r.
  destruct (HasPrefix (EscapedPath v) "/") eqn:Hp; cbn [negb].
  - apply HasPrefix_inv in Hp as [t ->]. exists (t +:+ (if ForceQuery v || negb (String.eqb (RawQuery v) "") then "?" +:+ RawQuery v else "")).
    generalize (if ForceQuery v || negb (String.eqb (RawQuery v) "") then "?" +:+ RawQuery v else "") as q. intros q.
    by rewrite !string_app_assoc.
  - exists (EscapedPath v +:+ (if ForceQuery v || negb (String.eqb (RawQuery v) "") then "?" +:+ RawQuery v else "")).
    generalize (if ForceQuery v || negb (String.eqb (RawQuery v) "") then "?" +:+ RawQuery v else "") as q. intros q.
    by rewrite !string_app_assoc.
Qed.

Lemma ca_blocks_all certs blocks r : Forall (λ c, IsCA c = true) certs → ca_blocks certs blocks = Ok r →
  Forall (λ c, IsCA c = true) r ∧ Forall (λ b, pb_Type b = "CERTIFICATE") blocks.
Proof.
  revert certs. induction blocks as [|b blocks IH]; intros certs Hc H; [by injection H as <-|].
  cbn [ca_blocks] in H. apply bind_Ok in H as (certs' & Hs & H). unfold ca_step in Hs.
  destruct (String.eqb_spec (pb_Type b) "CERTIFICATE"); [|done]. cbn [negb] in Hs. destruct (pb_Cert b) as [cert|]; [|done].
  destruct (_ || _) eqn:E; [done|]. injection Hs as <-. bool_simpl. destruct (IH (certs ++ [cert])) as [? ?]; [|done|].
  - apply Forall_app. split; [done|]. by constructor.
  - split; [done|]. by constructor.
Qed.

Lemma keystoneRoots_sound system sre farm roots : keystoneRoots system sre farm = Ok roots →
  ∃ own, roots = default [] system ++ sre.2 ++ own ∧ Forall (λ c, IsCA c = true) own ∧ (farm.1 = "" → own = []).
Proof.
  unfold keystoneRoots. case_if; [done|]. destruct (String.eqb_spec farm.1 "") as [E|E].
  - intros [= <-]. exists []. by rewrite app_nil_r.
  - destruct (ParseKeystoneCA farm.2) as [certs|] eqn:Hp; [|done]. intros [= <-]. exists certs. split_and!; [done| |done].
    unfold ParseKeystoneCA in Hp. apply bind_Ok in Hp as (cs & Hc & Hp). destruct (bool_decide _) in Hp; [done|]. injection Hp as <-. by apply (ca_blocks_all [] _ _ (Forall_nil_2 _)) in Hc as [? _].
Qed.

Lemma nova_request_sound deployments system sre pems deploymentID serviceToken req :
  nova_request deployments system sre pems deploymentID serviceToken = Ok req →
  tr_Token req = serviceToken ∧ ∃ ds d u endpoint own,
     deployments = Ok ds ∧ d ∈ ds ∧ d_ID d = deploymentID ∧ d_State d = "active" ∧
     url_Parse (if String.eqb (d_KeystoneVerifyURL d) "" then "https://" +:+ deploymentID else d_KeystoneVerifyURL d) = Some u ∧
     (d_KeystoneVerifyURL d = "" → u_Host u = deploymentID) ∧ tr_URL req = url_String endpoint ∧
     Scheme u = "https" ∧ u_Host u ≠ "" ∧ has_user u = false ∧ RawQuery u = "" ∧ Fragment u = "" ∧ Scheme endpoint = "https" ∧ has_user endpoint = false ∧
     (string_all host_byte (u_Host u) = true → u_Host endpoint = u_Host u) ∧
     tr_Roots req = default [] system ++ sre.2 ++ own ∧ Forall (λ c, IsCA c = true) own ∧ (d_KeystoneCAPEM d = "" → own = []).
Proof.
  unfold nova_request. case_if; [done|]. intros H. apply bind_Ok in H as (ds & Hds & H).
  destruct (head _) as [d|] eqn:Hd; [|done]. apply bind_Ok in H as (url & Hurl & H).
  destruct (url_Parse url) as [endpoint|] eqn:He; [|done]. apply bind_Ok in H as (roots & Hr & H). injection H as <-.
  apply head_Some_elem_of, list_elem_of_filter in Hd as [[Hi Hs] Hin]. apply keystoneRoots_sound in Hr as (own & -> & Hca & Hown).
  unfold KeystoneTokensURL in Hurl. destruct (url_Parse (if (String.eqb _ _) then _ else _)) as [u|] eqn:Hu; [|done].
  destruct (keystone_origin u) eqn:Ho; [|done]. cbn [negb] in Hurl. destruct (_ && _) eqn:Hh; [done|]. injection Hurl as <-.
  assert (parseHost (escape host_byte (u_Host u)) = Some (u_Host endpoint) ∧ Scheme endpoint = "https" ∧ has_user endpoint = false) as Hp.
  { destruct (tokens_url u Ho) as [tail Ht]. rewrite Ht in He. apply url_Parse_host in He; [done|]. intros c Hc. by apply escape_host_lacks. }
  assert (Scheme u = "https" ∧ u_Host u ≠ "" ∧ has_user u = false ∧ RawQuery u = "" ∧ Fragment u = "") as Hu'.
  { unfold keystone_origin in Ho. bool_simpl. rewrite ?String.eqb_eq, ?String.eqb_neq in *. by split_and!. }
  split; [done|]. exists ds, d, u, endpoint, own. split_and!; try apply Hu'; try done.
  - intros E. rewrite E in Hh. cbn [String.eqb andb] in Hh. apply negb_false_iff, String.eqb_eq in Hh. done.
  - by apply Hp.
  - by apply Hp.
  - intros Hpl. destruct Hp as [Hp _]. rewrite escape_plain in Hp by done. by apply parseHost_plain in Hp.
Qed.

Lemma nova_verdict_sound nova_username now answer : nova_verdict nova_username now answer = Ok tt →
  ∃ t expires, answer = Some (200, Some t) ∧ kt_ExpiresAt t = Some expires ∧ now < expires ∧ "admin" ∈ kt_Roles t ∧ UserName t = expected_user nova_username ∧ kt_ProjectID t ≠ "".
Proof.
  unfold nova_verdict. destruct answer as [[code [t|]]|]; [..|done]; (destruct (Z.eqb_spec code 200) as [->|]; [|done]); [|done].
  unfold active_nova. destruct (kt_ExpiresAt t) as [x|] eqn:Hx; [|done]. cbn [negb]. destruct (_ && _) eqn:H; [|done]. intros _.
  apply andb_true_iff in H as [[[H1 H2%String.eqb_eq]%andb_true_iff H3%negb_true_iff%String.eqb_neq]%andb_true_iff (a & Ha%list_elem_of_In & <-%String.eqb_eq)%existsb_exists].
  exists t, x. split_and!; [done..| |done|done|done]. unfold After in H1. lia.
Qed.

(** ** Theorems *)

(** C18. Nova's service token, which carries the admin role, is sent at most
    once, over https, without user information, for an active farm of that id
    whose registered endpoint (the farm's own address, or the verify URL that
    stands for it) is an https URL with a host and without user, query and
    fragment; where that host is made of bytes that stand for themselves in a
    URL, it is the host the token goes to.  The server is verified against the
    system's roots, the embedded one and certificates of the farm's that are
    certificate authorities.  The VM is enrolled only if that Keystone answered
    200 with an unexpired token of the expected user, in a project, with the
    admin role. *)
Theorem tokens_go_to_their_farm deployments system sre pems keystone nova_username now deploymentID serviceToken reqs r :
  AuthenticateNova deployments system sre pems keystone nova_username now deploymentID serviceToken = (reqs, r) →
  (length reqs ≤ 1)%nat ∧
  (∀ req, req ∈ reqs → tr_Token req = serviceToken ∧ ∃ ds d u endpoint own,
     deployments = Ok ds ∧ d ∈ ds ∧ d_ID d = deploymentID ∧ d_State d = "active" ∧
     url_Parse (if String.eqb (d_KeystoneVerifyURL d) "" then "https://" +:+ deploymentID else d_KeystoneVerifyURL d) = Some u ∧
     (d_KeystoneVerifyURL d = "" → u_Host u = deploymentID) ∧ tr_URL req = url_String endpoint ∧
     Scheme u = "https" ∧ u_Host u ≠ "" ∧ has_user u = false ∧ RawQuery u = "" ∧ Fragment u = "" ∧ Scheme endpoint = "https" ∧ has_user endpoint = false ∧
     (string_all host_byte (u_Host u) = true → u_Host endpoint = u_Host u) ∧
     tr_Roots req = default [] system ++ sre.2 ++ own ∧ Forall (λ c, IsCA c = true) own ∧ (d_KeystoneCAPEM d = "" → own = [])) ∧
  (r = Ok tt → ∃ req t expires, reqs = [req] ∧ keystone req = Some (200, Some t) ∧ kt_ExpiresAt t = Some expires ∧ now < expires ∧
     "admin" ∈ kt_Roles t ∧ UserName t = expected_user nova_username ∧ kt_ProjectID t ≠ "").
Proof.
  unfold AuthenticateNova. destruct (nova_request _ _ _ _ _ _) as [req|e] eqn:Hq; intros [= <- <-]; [|split_and!; [cbn; lia|set_solver|done]].
  split_and!; [cbn; lia| |].
  - intros req' ->%list_elem_of_singleton. by apply (nova_request_sound _ _ _ pems).
  - intros Hv. exists req. apply nova_verdict_sound in Hv as (t & x & -> & ?). by exists t, x.
Qed.

(** A node may be used exactly when the inventory holds it as it is now: a
    host whose row is active, or, where no host row was read, the one VM of
    that id in all farms, still there, ACTIVE in Nova, and observed in the last
    three hours. *)
Theorem AuthorizeNode_exact get instances now hostname :
  AuthorizeNode get instances now hostname = Ok tt ↔
  (∃ host, get hostname = Some host ∧ (ServerState host = "" ∨ ServerState host = "active")) ∨
  (get hostname = None ∧ ∃ vm, instances hostname = Ok [vm] ∧ si_MissingSince vm = None ∧ si_Status vm = "ACTIVE" ∧
     si_ObservedAt vm ≠ 0 ∧ now - si_ObservedAt vm ≤ 3 * Hour).
Proof.
  unfold AuthorizeNode. destruct (get hostname) as [host|].
  - unfold StateOrActive. destruct (String.eqb_spec (ServerState host) "") as [E|E]; [split; [left; eauto|done]|].
    destruct (String.eqb_spec (ServerState host) StateActive) as [E'|E']; cbn [negb]; [split; [left; eauto|done]|].
    split; [done|]. intros [(? & [= <-] & [?|?])|[? _]]; done.
  - destruct (instances hostname) as [vms|]; [|split; [done|]; intros [(? & ? & _)|(_ & ? & ? & _)]; done]. cbn [mbind result_bind].
    destruct vms as [|vm [|]]; [split; [done|]; intros [(? & ? & _)|(_ & ? & ? & _)]; done| |split; [done|]; intros [(? & ? & _)|(_ & ? & ? & _)]; done].
    assert ((3 * Hour <? Sub now (si_ObservedAt vm)) = (3 * Hour <? now - si_ObservedAt vm)) as ->.
    { unfold Sub, clamp64. change (3 * Hour) with 10800000000000. change int64_max with 9223372036854775807. change int64_min with (-9223372036854775808).
      apply eq_true_iff_eq. rewrite !Z.ltb_lt. lia. }
    split.
    + case_if; [done|]. case_if; [done|]. intros _. right. split; [done|]. exists vm. bool_simpl. unfold IsZero in *. bool_simpl.
      split_and!; try done. by apply String.eqb_eq.
    + intros [(? & ? & _)|(_ & v & [= <-] & H1 & H2 & H3 & H4)]; [done|]. rewrite H1, H2. unfold IsZero.
      rewrite (proj2 (Z.eqb_neq _ _) H3), (proj2 (Z.ltb_ge _ _) H4). done.
Qed.

(** Nothing an operator started goes unwritten for its shape: whenever the
    gateway let an operator in and took a well-formed request for a named node,
    the event of any phase makes a row, which is the start's exactly when the
    outcome is [started], with an end exactly when there was one. *)
Theorem sessions_make_rows adminPolicies lookup commands operator se now0 ended outcome :
  AuthorizeNodeAccess adminPolicies lookup commands (Operation (s_req se)) = Ok operator → s_operator se = operator →
  Validate (s_req se) now0 = Ok tt → s_node se ≠ "" →
  ∃ row, RecordNodeAccess (audit_event se ended outcome) = Ok row ∧ na_Operator row = operator ∧ na_RequestID row = ID (s_req se) ∧
    na_Hostname row = s_node se ∧ na_TargetKind row = TargetKind (s_node se) ∧ na_Outcome row = outcome ∧
    (na_Phase row = "started" ↔ outcome = "started") ∧ (na_EndedAt row = None ↔ ended = 0) ∧
    (∃ policies cmds, lookup = Ok (operator, policies) ∧ (HasAdminPolicy policies adminPolicies = false →
       commands operator = Ok cmds ∧ ("*" ∈ cmds ∨ "node-access" ∈ cmds))).
Proof.
  intros Ha Ho (_ & Hid & _ & _ & Hp)%Validate_sound Hn.
  unfold AuthorizeNodeAccess in Ha. apply bind_Ok in Ha as ([identity policies] & Hl & Ha).
  destruct (String.eqb_spec identity "") as [|Hi]; [done|].
  assert (operator = identity ∧ ∃ cmds, HasAdminPolicy policies adminPolicies = false →
     commands identity = Ok cmds ∧ ("*" ∈ cmds ∨ "node-access" ∈ cmds)) as [-> [cmds Hc]].
  { assert (grant_for (Operation (s_req se)) = "node-access") as Hg by (unfold grant_for; destruct Hp as [[E|E] _|? E|? ? ? E]; by rewrite E).
    destruct (HasAdminPolicy policies adminPolicies); [injection Ha as <-; split; [done|by exists ∅]|].
    apply bind_Ok in Ha as (cmds & Hcs & Ha). rewrite Hg in Ha. destruct (_ || _) eqn:E; [|done]. injection Ha as <-. split; [done|].
    exists cmds. intros _. split; [done|]. apply orb_true_iff in E as [E|E]; apply bool_decide_eq_true in E; tauto. }
  unfold RecordNodeAccess, InsertNodeAccessAudit, audit_event.
  cbn [na_RequestID na_Operator na_Hostname na_Operation na_Phase na_TargetKind na_Outcome na_EndedAt RequestID Operator Node ae_TargetKind ae_Operation Outcome EndedAt StartedAt na_StartedAt].
  assert (ID (s_req se) ≠ "") as H1 by (intros E; by rewrite E in Hid).
  assert (Operation (s_req se) ≠ "") as H2 by (destruct Hp as [[E|E] _|? E|? ? ? E]; by rewrite E).
  rewrite Ho, (proj2 (String.eqb_neq _ _) H1), (proj2 (String.eqb_neq _ _) Hi), (proj2 (String.eqb_neq _ _) Hn), (proj2 (String.eqb_neq _ _) H2). cbn [orb].
  assert (TargetKind (s_node se) = "vm" ∨ TargetKind (s_node se) = "host") as Hk by (unfold TargetKind; case_if; tauto).
  assert (∀ e : option time_t, (if IsZero ended then None else Some ended) = e → e = None ↔ ended = 0) as He.
  { intros e <-. unfold IsZero. destruct (Z.eqb_spec ended 0); naive_solver. }
  destruct (String.eqb_spec outcome "started") as [Eo|Eo], Hk as [-> | ->];
    (eexists; split; [reflexivity|]; cbn [na_Operator na_RequestID na_Hostname na_TargetKind na_Outcome na_Phase na_EndedAt];
     split_and!; [done..|by split|by apply He|by exists policies, cmds]).
Qed.

(** ** On concrete instances *)

Module Sample.
Definition farm : Deployment :=
  {| d_ID := "10.0.0.5:5000"; d_DisplayName := "f"; d_Region := "r"; d_KeystoneURL := ""; d_HorizonURL := ""; d_KeystoneCAPEM := "PEM";
     d_KeystoneVerifyURL := "https://keystone.example:13000/v3/"; d_State := "active"; d_StateNote := ""; d_StateChangedAt := None |}.
Definition ca : ca_cert := {| Subject := "CN=farm"; BasicConstraintsValid := true; IsCA := true |}.
Definition pems (_ : string) : list pem_block := [{| pb_Type := "CERTIFICATE"; pb_Cert := Some ca |}].
Definition t0 : time_t := 63900000000 * Second.
Definition nova : keystone_token := {| kt_ExpiresAt := Some (Add t0 Hour); UserName := "nova"; kt_ProjectID := "service"; kt_Roles := ["service"; "admin"] |}.
Definition authenticated : list token_request * result string unit :=
  AuthenticateNova (Ok [farm]) None ("", []) pems (λ _, Some (200, Some nova)) " " t0 "10.0.0.5:5000" "tok".

Example KeystoneTokensURL_samples :
  [KeystoneTokensURL "10.0.0.5:5000" ""; KeystoneTokensURL "x" "https://k:1/v3/"; KeystoneTokensURL "x" "https://k:1/id/v3"; KeystoneTokensURL "a/b" "";
   KeystoneTokensURL "x" "http://k"; KeystoneTokensURL "u@h" ""] =
  [Ok "https://10.0.0.5:5000/v3/auth/tokens"; Ok "https://k:1/v3/auth/tokens"; Ok "https://k:1/id/v3/auth/tokens";
   Err "registered farm has an invalid Keystone endpoint"; Err "keystone endpoint must be an https origin"; Err "keystone endpoint must be an https origin"].
Proof. vm_compute. reflexivity. Qed.

Lemma tokens_go_to_their_farm_witness : authenticated.2 = Ok tt ∧ (∃ req, req ∈ authenticated.1 ∧ tr_URL req = "https://keystone.example:13000/v3/auth/tokens") ∧
  (length authenticated.1 ≤ 1)%nat ∧ ∃ req, authenticated.1 = [req] ∧ ∃ own, tr_Roots req = own ∧ Forall (λ c, IsCA c = true) own.
Proof.
  destruct (tokens_go_to_their_farm (Ok [farm]) None ("", []) pems (λ _, Some (200, Some nova)) " " t0 "10.0.0.5:5000" "tok" authenticated.1 authenticated.2)
    as (Hl & Hs & Hv); [apply surjective_pairing|].
  assert (authenticated.2 = Ok tt) as Hok by (vm_compute; reflexivity). split; [exact Hok|].
  destruct (Hv Hok) as (req & t & x & Hr & _). split; [|split; [exact Hl|]].
  - eexists. split; [vm_compute; left|vm_compute; reflexivity].
  - exists req. split; [exact Hr|]. destruct (Hs req) as (_ & ds & d & u & e & own & _ & _ & _ & _ & _ & _ & _ & _ & _ & _ & _ & _ & _ & _ & _ & Ho & Hca & _); [rewrite Hr; left|].
    exists own. split; [exact Ho|exact Hca].
Defined.

Definition host : Server :=
  {| InvCache.Hostname := "h1"; InvCache.IP := ""; InvCache.Port := 22; InvCache.User := ""; InvCache.JumpVia := ""; InvCache.DC := ""; InvCache.CARole := "";
     InvCache.CAKeyVersion := 0; InvCache.LastSeenUp := None; InvCache.ExtraIPs := []; InvCache.ServerState := "maintenance" |}.

Example parked_host : AuthorizeNode (λ _, Some host) (λ _, Ok []) t0 "h1" = Err "node is not active".
Proof. reflexivity. Qed.

Definition req : Request := {| Version := 1; ID := "0123456789abcdef0123456789abcdef"; Operation := OperationHostStatus; Deadline := Add t0 Minute; Params := ∅ |}.
Definition se : session := {| s_node := "h1"; s_req := req; s_operator := "alice"; s_started := t0; s_phase := Registered; s_result := None |}.

Lemma sessions_make_rows_witness : ∃ row, RecordNodeAccess (audit_event se (Add t0 Second) "completed") = Ok row ∧ na_Phase row ≠ "started" ∧ na_EndedAt row ≠ None.
Proof.
  destruct (sessions_make_rows ["admin"] (Ok ("alice", ["p"])) (λ _, Ok {["node-access"]}) "alice" se t0 (Add t0 Second) "completed")
    as (row & Hr & _ & _ & _ & _ & _ & Hp & He & _).
  - vm_compute. reflexivity.
  - reflexivity.
  - vm_compute. reflexivity.
  - discriminate.
  - exists row. split; [exact Hr|]. split; [by intros E%Hp|]. intros E%He. by vm_compute in E.
Defined.
End Sample.
