(* ===== verification/CertRenewal.v ===== *)
(** How a node keeps its certificate (internal/nodeaccess/cert_renewal.go and
    enroll.go): the first certificate of a VM, the check that replaces one that
    is about to expire, and the two files an identity lives in.

    X.509 and TLS are parameters with what is documented of them: [key_pair] is
    [tls.X509KeyPair], [parse_pem] the first block of a PEM text, if it is a
    certificate and parses, [verify roots intermediates leaf] is [leaf.Verify] for client
    authentication. *)

From Stdlib Require Import Ascii String ZArith Lia.
From S2P Require Import Prelude GoStrings GoFormat GoURL NodeProtocol Gateway VmEnroll.
Open Scope Z_scope.

(** ** The two files *)

Local Notation files := (gmap string string).

Inductive disk_op := MkdirAll | CreateTemp | Chmod | WriteData | Sync | Close | Rename.

#[export] Instance disk_op_eq_dec : EqDecision disk_op.
Proof. solve_decision. Defined.

(** The states the disk goes through after the first, and whether it worked;
    [ok] says which operations do, [partial] what a failed write left in the
    temporary file. *)
Definition writeAtomic (ok : disk_op → bool) (tmp partial path data : string) (fs : files) : list files * bool :=
  if negb (ok MkdirAll) || negb (ok CreateTemp) then ([], false)
  else
    let created := <[tmp := ""]> fs in
    if negb (ok Chmod) then ([created; delete tmp created], false)
    else if negb (ok WriteData) then ([created; <[tmp := partial]> fs; delete tmp (<[tmp := partial]> fs)], false)
    else
      let written := <[tmp := data]> fs in
      if negb (ok Sync) || negb (ok Close) || negb (ok Rename) then ([created; written; delete tmp written], false)
      else ([created; written; <[path := data]> (delete tmp written)], true).

Record identity := { Chain : list leaf; PrivateKey : string }.

Section files.
Context (encode_chain : list leaf → string) (encode_key : string → string).

(** [ok1], [ok2]: the disk while the certificate and the key are written. *)
Definition writeIdentity (ok1 ok2 : disk_op → bool) (tmp1 tmp2 partial certPath keyPath : string) (cert : identity) (fs : files) : list files * bool :=
  if bool_decide (Chain cert = []) || String.eqb (PrivateKey cert) "" then ([], false)
  else
    let '(states1, ok) := writeAtomic ok1 tmp1 partial certPath (encode_chain (Chain cert)) fs in
    if negb ok then (states1, false)
    else
      let '(states2, ok) := writeAtomic ok2 tmp2 partial keyPath (encode_key (PrivateKey cert)) (List.last states1 fs) in
      (states1 ++ states2, ok).
End files.

(** ** Asking for a certificate *)

Definition certificateRenewBefore : duration := 10 * 24 * Hour.

Record CertificateRenewer := {
  r_GatewayURL : string; VaultAddr : string; RoleIDFile : string; SecretFile : string; PKIMount : string; PKIRole : string;
  r_CommonName : string; URISAN : string; CertFile : string; KeyFile : string;
}.

Definition readCredential (content : option string) : option string :=
  value ← content; let value := TrimSpace value in if String.eqb value "" then None else Some value.

(** A response of the gateway's: its status and the certificate of its body. *)
Definition certificate_of (response : option (Z * option string)) : option string :=
  '(code, body) ← response; pem ← body; if negb (code =? 200) || String.eqb pem "" then None else Some pem.

Section issuing.
Context (public : string → string) (csr_of : string → string → string → string) (key_pair : string → string → option (list leaf))
        (parse_pem : string → option leaf).
Context (roots : Type) (verify : roots → list leaf → leaf → bool).

(** [verifyIssuedVMChain]. *)
Definition verifyIssuedVMChain (pair : list leaf) (r : roots) : bool :=
  match pair with [] => false | l :: intermediates => verify r intermediates l end.

(** [EnrollVM] up to the files; [mode] and [token] are the token file's, [key]
    the new private key, [post] the gateway's answer to a grant and a request. *)
Definition EnrollVM (gatewayURL instanceUUID : string) (mode : option Z) (token : option string) (ca : option roots) (key : option string)
    (post : string → string → string → option (Z * option string)) (now1 now2 : time_t) : option identity :=
  match VMURI instanceUUID with
  | Err _ => None
  | Ok uri =>
      base ← agentGatewayURL gatewayURL; perm ← mode;
      if negb (Z.land perm 63 =? 0) then None
      else
        text ← token;
        let grant := TrimSpace text in
        if String.eqb grant "" || ContainsAny grant (String "013" (String "010" "")) then None
        else
          r ← ca; k ← key;
          let csr := csr_of (instanceUUID +:+ ".vm.sre.local") uri (public k) in
          pem ← certificate_of (post (base +:+ "/v1/agent/enroll") grant csr); pair ← key_pair pem k;
          if negb (validateVMCertificate parse_pem pem instanceUUID None now1 now2) then None
          else if verifyIssuedVMChain pair r then Some {| Chain := pair; PrivateKey := k |} else None
  end.

(** [current]: the certificate in use, its first one parsed. *)
Definition issueThroughGateway (gatewayURL : string) (tls : option roots) (current : option leaf) (key : option string)
    (post : string → string → option (Z * option string)) (now1 now2 : time_t) : option identity :=
  r ← tls; l ← current;
  match VMIdentity (Some (URIs l)) with
  | Err _ => None
  | Ok instanceUUID =>
      k ← key; base ← agentGatewayURL gatewayURL;
      let csr := csr_of (instanceUUID +:+ ".vm.sre.local") (vmPrefix +:+ instanceUUID) (public k) in
      pem ← certificate_of (post (base +:+ "/v1/agent/renew") csr); pair ← key_pair pem k;
      match pair with
      | [] => None
      | newLeaf :: _ =>
          if negb (validateVMCertificate parse_pem pem instanceUUID None now1 now2) then None
          else if negb (String.eqb (public k) (PublicKey newLeaf)) then None
          else if verify r [] newLeaf then Some {| Chain := pair; PrivateKey := k |} else None
      end
  end.

(** What Vault answers, when it does with a 2xx: the token of a login, and an
    issued certificate with its key and chain. *)
Record vault_issued := { vi_certificate : string; vi_private_key : string; vi_ca_chain : list string }.

Definition issueFromVault (r : CertificateRenewer) (roleID secretID : option string) (login : string → string → string → option string)
    (issued : string → string → string → string → option vault_issued) : option identity :=
  if existsb (λ s, String.eqb s "") [VaultAddr r; RoleIDFile r; SecretFile r; PKIMount r; PKIRole r; r_CommonName r; URISAN r] then None
  else
    role ← readCredential roleID; secret ← readCredential secretID;
    let base := TrimRight (VaultAddr r) "/" in
    token ← login (base +:+ "/v1/auth/approle/login") role secret;
    if String.eqb token "" then None
    else
      data ← issued (base +:+ "/v1/" +:+ Trim (PKIMount r) "/" +:+ "/issue/" +:+ PKIRole r) (r_CommonName r) (URISAN r) token;
      if String.eqb (vi_certificate data) "" || String.eqb (vi_private_key data) "" then None
      else
        let certPEM := foldl (λ pem ca, pem +:+ TrimSpace ca +:+ String "010" "") (vi_certificate data +:+ String "010" "") (vi_ca_chain data) in
        pair ← key_pair certPEM (vi_private_key data);
        Some {| Chain := pair; PrivateKey := vi_private_key data |}.

(** ** The check *)

Context (encode_chain : list leaf → string) (encode_key : string → string).

(** [issue] is one of the two above.  The identity in use after the check, the
    states of the disk on the way, and whether an error was reported. *)
Definition check (r : CertificateRenewer) (current : option identity) (issue : identity → option identity) (ok1 ok2 : disk_op → bool)
    (tmp1 tmp2 partial : string) (now : time_t) (fs : files) : option identity * list files * bool :=
  match current with
  | None => (current, [], true)
  | Some cert =>
      match Chain cert with
      | [] => (current, [], true)
      | l :: _ =>
          if certificateRenewBefore <? Sub (NotAfter l) now then (current, [], false)
          else match issue cert with
          | None => (current, [], true)
          | Some updated =>
              let '(states, ok) := writeIdentity encode_chain encode_key ok1 ok2 tmp1 tmp2 partial (CertFile r) (KeyFile r) updated fs in
              if ok then (Some updated, states, false) else (current, states, true)
          end
      end
  end.

Definition issue (r : CertificateRenewer) (through_gateway from_vault : identity → option identity) (current : identity) : option identity :=
  if negb (String.eqb (r_GatewayURL r) "") then through_gateway current else from_vault current.

(** ** The files are never torn *)

Lemma last_snoc2 {A} (l : list A) (x d : A) : List.last (l ++ [x]) d = x.
Proof. induction l as [|y l IH]; [done|]. cbn. rewrite IH. by destruct l. Qed.

Ltac look := repeat first [rewrite lookup_insert_eq | rewrite lookup_delete_eq | rewrite lookup_insert_ne by congruence | rewrite lookup_delete_ne by congruence].

(** The states a write goes through: the file whole, before or after, and
    nothing else touched but the temporary file, which is gone at the end. *)
Lemma writeAtomic_whole ok tmp partial path data fs states b : tmp ≠ path → writeAtomic ok tmp partial path data fs = (states, b) →
  Forall (λ st, (st !! path = fs !! path ∨ st !! path = Some data) ∧ ∀ p, p ≠ path → p ≠ tmp → st !! p = fs !! p) states ∧
  List.last states fs !! path = (if b then Some data else fs !! path) ∧ (states = [] ∨ List.last states fs !! tmp = None) ∧
  (∀ p, p ≠ path → p ≠ tmp → List.last states fs !! p = fs !! p).
Proof.
  intros Ht H. unfold writeAtomic in H.
  repeat match type of H with (if ?c then _ else _) = _ => destruct c end; injection H as <- <-; cbn [List.last];
    (split; [repeat (apply Forall_cons; split); try apply Forall_nil_2; (split; [|intros p ??; look; done]); look; tauto|]);
    look; (split; [done|]); (split; [by tauto|]); intros p ??; look; done.
Qed.

Definition either_of (fs : files) (path data : string) (st : files) : Prop := st !! path = fs !! path ∨ st !! path = Some data.

Lemma writeIdentity_whole ok1 ok2 tmp1 tmp2 partial cp kp cert fs states b :
  cp ≠ kp → tmp1 ≠ cp → tmp1 ≠ kp → tmp2 ≠ cp → tmp2 ≠ kp →
  writeIdentity encode_chain encode_key ok1 ok2 tmp1 tmp2 partial cp kp cert fs = (states, b) →
  Forall (λ st, either_of fs cp (encode_chain (Chain cert)) st ∧ (st !! kp = fs !! kp ∨ st !! kp = Some (encode_key (PrivateKey cert)) ∧ st !! cp = Some (encode_chain (Chain cert))) ∧
    ∀ p, p ≠ cp → p ≠ kp → p ≠ tmp1 → p ≠ tmp2 → st !! p = fs !! p) states ∧
  (b = true → List.last states fs !! cp = Some (encode_chain (Chain cert)) ∧ List.last states fs !! kp = Some (encode_key (PrivateKey cert))).
Proof.
  intros Hck H1c H1k H2c H2k. unfold writeIdentity. case_if; [by intros [= <- <-]|].
  destruct (writeAtomic ok1 _ _ _ _ _) as [s1 b1] eqn:E1. apply writeAtomic_whole in E1 as (F1 & L1 & T1 & O1); [|done].
  assert (Forall (λ st, either_of fs cp (encode_chain (Chain cert)) st ∧ (st !! kp = fs !! kp ∨ st !! kp = Some (encode_key (PrivateKey cert)) ∧ st !! cp = Some (encode_chain (Chain cert))) ∧
    ∀ p, p ≠ cp → p ≠ kp → p ≠ tmp1 → p ≠ tmp2 → st !! p = fs !! p) s1) as F1'.
  { eapply Forall_impl; [exact F1|]. intros st [Hp Ho]. split_and!; [exact Hp|left; by apply Ho|]. intros; by apply Ho. }
  destruct b1; cbn [negb]; [|intros [= <- <-]; done].
  destruct (writeAtomic ok2 _ _ _ _ _) as [s2 b2] eqn:E2. apply writeAtomic_whole in E2 as (F2 & L2 & T2 & O2); [|done].
  intros [= <- <-]. assert (List.last (s1 ++ s2) fs = List.last s2 (List.last s1 fs)) as El.
  { destruct s2 as [|x s2 _] using rev_ind; [by rewrite app_nil_r|]. by rewrite app_assoc, !last_snoc2. }
  rewrite El. split.
  - apply Forall_app. split; [done|]. eapply Forall_impl; [exact F2|]. intros st [Hp Ho].
    assert (st !! cp = Some (encode_chain (Chain cert))) as Hc by (by rewrite Ho).
    split_and!; [by right| |].
    + destruct Hp as [Hp|Hp]; [left|by right]. rewrite Hp. by apply O1.
    + intros p ? ? ? ?. rewrite Ho by done. by apply O1.
  - intros ->. split; [|done]. by rewrite O2.
Qed.

(** ** The identity does not change *)

(** [tls.X509KeyPair] takes the certificates of a text, whatever stands before
    them, and checks that the first is the key's.  When the text begins with a
    certificate, that is the first. *)
Definition key_pairs_match : Prop := ∀ pem k pair, key_pair pem k = Some pair →
  ∃ l rest, pair = l :: rest ∧ PublicKey l = public k ∧ ∀ l', parse_pem pem = Some l' → l' = l.

Lemma validate_sound pem i k now1 now2 : validateVMCertificate parse_pem pem i k now1 now2 = true → ∃ l, parse_pem pem = Some l ∧ identifies l i = true ∧ now2 < NotAfter l.
Proof. unfold validateVMCertificate. destruct (parse_pem pem) as [l|]; [|done]. intros H. bool_simpl. exists l. auto. Qed.

Lemma identifies_VMIdentity l i : identifies l i = true → VMIdentity (Some (URIs l)) = Ok i.
Proof. unfold identifies. destruct (VMIdentity _) as [j|]; [|done]. by intros ->%String.eqb_eq. Qed.

Lemma through_gateway_sound url tls l key post now1 now2 updated : key_pairs_match →
  issueThroughGateway url tls (Some l) key post now1 now2 = Some updated →
  ∃ i k r l' rest, tls = Some r ∧ key = Some k ∧ VMIdentity (Some (URIs l)) = Ok i ∧ updated = {| Chain := l' :: rest; PrivateKey := k |} ∧
    VMIdentity (Some (URIs l')) = Ok i ∧ PublicKey l' = public k ∧ now2 < NotAfter l' ∧ verify r [] l' = true.
Proof.
  intros Hk H. unfold issueThroughGateway in H. apply bind_Some in H as (r & Hr & H). cbn [mbind option_bind] in H.
  destruct (VMIdentity (Some (URIs l))) as [i|] eqn:Hi; [|done].
  apply bind_Some in H as (k & Hkey & H). apply bind_Some in H as (base & _ & H). apply bind_Some in H as (pem & _ & H). apply bind_Some in H as (pair & Hp & H).
  apply Hk in Hp as (l' & rest & -> & Hpub & Hpem). destruct (validateVMCertificate _ _ _ _ _ _) eqn:Hv; [|done].
  destruct (String.eqb _ _); [|done]. cbn [negb] in H. destruct (verify r [] l') eqn:Hver; [|done]. injection H as <-.
  apply validate_sound in Hv as (l2 & Hl2 & Hid & Hna). apply Hpem in Hl2 as ->. apply identifies_VMIdentity in Hid.
  by exists i, k, r, l', rest.
Qed.

Lemma from_vault_sound r role secret login issued updated : key_pairs_match → issueFromVault r role secret login issued = Some updated →
  ∃ url token data l rest, issued url (r_CommonName r) (URISAN r) token = Some data ∧ updated = {| Chain := l :: rest; PrivateKey := vi_private_key data |} ∧
    PublicKey l = public (vi_private_key data).
Proof.
  intros Hk. unfold issueFromVault. case_if; [done|]. intros (ro & _ & (se & _ & (token & _ & H)%bind_Some)%bind_Some)%bind_Some. revert H. case_if; [done|].
  intros (data & Hd & H)%bind_Some. revert H. case_if; [done|]. intros (pair & Hp & [= <-])%bind_Some.
  apply Hk in Hp as (l & rest & -> & Hpub & _). by eexists _, token, data, l, rest.
Qed.

(** C28. Renewing never tears an identity or changes whose it is.  Through every
    step of a check, crashes included, the certificate file holds the old
    chain or the new one and the key file the old key or the new one, the new
    key only beside the new chain; no other file but the temporary ones is
    touched, and nothing is written while more than ten days are left.  The
    identity in use changes only to one both files hold in full, whose
    certificate fits its key.  One that came through the gateway names the same
    VM, has the key made for it, is still valid, and was verified against the
    roots; one that came from Vault is what Vault issued for the configured name
    and URI with the key it sent, and nothing else of it is looked at. *)
Theorem renewal_is_whole r current tls key post now1 now2 role secret login issued ok1 ok2 tmp1 tmp2 partial now fs :
  key_pairs_match → CertFile r ≠ KeyFile r → tmp1 ≠ CertFile r → tmp1 ≠ KeyFile r → tmp2 ≠ CertFile r → tmp2 ≠ KeyFile r →
  let gateway c := issueThroughGateway (r_GatewayURL r) tls (head (Chain c)) key post now1 now2 in
  let vault (_ : identity) := issueFromVault r role secret login issued in
  let '(used, states, reported) := check r current (issue r gateway vault) ok1 ok2 tmp1 tmp2 partial now fs in
  (states ≠ [] → ∃ c l updated, current = Some c ∧ head (Chain c) = Some l ∧ NotAfter l - now ≤ 10 * 24 * Hour ∧ issue r gateway vault c = Some updated ∧
     Forall (λ st, either_of fs (CertFile r) (encode_chain (Chain updated)) st ∧
       (st !! KeyFile r = fs !! KeyFile r ∨ st !! KeyFile r = Some (encode_key (PrivateKey updated)) ∧ st !! CertFile r = Some (encode_chain (Chain updated))) ∧
       ∀ p, p ≠ CertFile r → p ≠ KeyFile r → p ≠ tmp1 → p ≠ tmp2 → st !! p = fs !! p) states) ∧
  (used = current ∨ ∃ c l updated l', current = Some c ∧ head (Chain c) = Some l ∧ used = Some updated ∧ reported = false ∧
     List.last states fs !! CertFile r = Some (encode_chain (Chain updated)) ∧ List.last states fs !! KeyFile r = Some (encode_key (PrivateKey updated)) ∧
     head (Chain updated) = Some l' ∧ PublicKey l' = public (PrivateKey updated) ∧
     if String.eqb (r_GatewayURL r) ""
     then ∃ url token data, issued url (r_CommonName r) (URISAN r) token = Some data ∧ PrivateKey updated = vi_private_key data
     else ∃ i root, VMIdentity (Some (URIs l)) = Ok i ∧ VMIdentity (Some (URIs l')) = Ok i ∧ key = Some (PrivateKey updated) ∧
       now2 < NotAfter l' ∧ tls = Some root ∧ verify root [] l' = true).
Proof.
  intros Hk Hck H1c H1k H2c H2k gateway vault. unfold check. destruct current as [c|]; [|split; [done|by left]].
  destruct (Chain c) as [|l rest] eqn:Hc; [split; [done|by left]|]. destruct (Z.ltb_spec certificateRenewBefore (Sub (NotAfter l) now)) as [|Hdue]; [split; [done|by left]|].
  destruct (issue r gateway vault c) as [updated|] eqn:Hi; [|split; [done|by left]].
  destruct (writeIdentity _ _ _ _ _ _ _ _ _ _ _) as [states b] eqn:Hw. apply writeIdentity_whole in Hw as [Hf Hl]; [|done..].
  assert (NotAfter l - now ≤ 10 * 24 * Hour) as Hdays.
  { unfold certificateRenewBefore, Sub, clamp64 in Hdue. change (10 * 24 * Hour) with 864000000000000 in *. change int64_max with 9223372036854775807 in Hdue. change int64_min with (-9223372036854775808) in Hdue. lia. }
  destruct b; (split; [intros _; exists c, l, updated; by rewrite Hc|]); [|by left].
  right. destruct (Hl eq_refl) as [Hl1 Hl2]. unfold issue, gateway, vault in Hi. rewrite Hc in Hi. cbn [head] in Hi.
  destruct (String.eqb (r_GatewayURL r) ""); cbn [negb] in Hi.
  - apply from_vault_sound in Hi as (url & token & data & l' & rest' & ? & -> & ?); [|done]. eexists c, l, _, l'. rewrite Hc. split_and!; try done. by exists url, token, data.
  - apply through_gateway_sound in Hi as (i & k & root & l' & rest' & ? & ? & ? & -> & ? & ? & ? & ?); [|done].
    eexists c, l, _, l'. rewrite Hc. split_and!; try done. by exists i, root.
Qed.
End issuing.

(** ** On concrete instances *)

Module Sample.
Definition vm : string := "0b1c2d3e-0000-4000-8000-0123456789ab".
Definition t0 : time_t := 63900000000 * Second.
Definition public (k : string) : string := "pub " +:+ k.
Definition csr_of (cn uri k : string) : string := cn +:+ " " +:+ uri +:+ " " +:+ k.
Definition cert_for (k : string) (until : time_t) : leaf :=
  {| URIs := [vmPrefix +:+ vm]; CommonName := vm +:+ ".vm.sre.local"; NotBefore := 0; NotAfter := until; ClientAuth := true; PublicKey := public k |}.
Definition intermediate : leaf :=
  {| URIs := []; CommonName := "pki_sre_int"; NotBefore := 0; NotAfter := Add t0 (9000 * Hour); ClientAuth := false; PublicKey := "int" |}.
Definition issued : leaf := cert_for "k1" (Add t0 (720 * Hour)).

(** Two issuers: one the roots hold themselves, and one whose certificate
    comes after the leaf in the text. *)
Definition parse_pem (pem : string) : option leaf := if String.eqb pem "direct" || String.eqb pem "chained" then Some issued else None.
Definition key_pair (pem k : string) : option (list leaf) :=
  if String.eqb k "k1" then if String.eqb pem "direct" then Some [issued] else if String.eqb pem "chained" then Some [issued; intermediate] else None else None.
Definition direct_verify (_ : unit) (_ : list leaf) (_ : leaf) : bool := true.
Definition chained_verify (_ : unit) (inters : list leaf) (_ : leaf) : bool := bool_decide (inters ≠ []).
Definition old : identity := {| Chain := [cert_for "k0" (Add t0 (100 * Hour))]; PrivateKey := "k0" |}.
Definition renewer : CertificateRenewer :=
  {| r_GatewayURL := "https://gw:8443"; VaultAddr := ""; RoleIDFile := ""; SecretFile := ""; PKIMount := ""; PKIRole := ""; r_CommonName := ""; URISAN := "";
     CertFile := "node.crt"; KeyFile := "node.key" |}.
Definition encode_chain (l : list leaf) : string := Join (PublicKey <$> l) ",".
Definition encode_key (k : string) : string := "KEY " +:+ k.
Definition disk : gmap string string := <["node.crt" := "pub k0"]> {["node.key" := "KEY k0"]}.
Definition gateway verify (pem : string) (c : identity) : option identity :=
  issueThroughGateway public csr_of key_pair parse_pem unit verify "https://gw:8443" (Some tt) (head (Chain c)) (Some "k1")
    (λ _ _, Some (200, Some pem)) t0 t0.
Definition no_vault (_ : identity) : option identity := issueFromVault key_pair renewer None None (λ _ _ _, None) (λ _ _ _ _, None).
Definition checked (ok2 : disk_op → bool) : option identity * list (gmap string string) * bool :=
  check encode_chain encode_key renewer (Some old) (issue renewer (gateway direct_verify "direct") no_vault) (λ _, true) ok2 "t1" "t2" "" t0 disk.

Lemma matches : key_pairs_match public key_pair parse_pem.
Proof.
  intros pem k pair. unfold key_pair, parse_pem. destruct (String.eqb_spec k "k1") as [->|]; [|done].
  destruct (String.eqb pem "direct"); [intros [= <-]; eexists _, _; split_and!; [done..|by intros ? [= <-]]|]. destruct (String.eqb pem "chained"); [intros [= <-]; eexists _, _; split_and!; [done..|by intros ? [= <-]]|done].
Qed.

Lemma renewal_is_whole_witness : (checked (λ _, true)).1.1 = Some {| Chain := [issued]; PrivateKey := "k1" |} ∧
  Forall (λ st : gmap string string, st !! "node.crt" = Some "pub k0" ∨ st !! "node.crt" = Some "pub k1") (checked (λ _, true)).1.2.
Proof.
  assert ((checked (λ _, true)).1.1 = Some {| Chain := [issued]; PrivateKey := "k1" |}) as E by (vm_compute; reflexivity).
  split; [exact E|].
  pose proof (renewal_is_whole public csr_of key_pair parse_pem unit direct_verify encode_chain encode_key renewer (Some old) (Some tt) (Some "k1")
    (λ _ _, Some (200, Some "direct")) t0 t0 None None (λ _ _ _, None) (λ _ _ _ _, None) (λ _, true) (λ _, true) "t1" "t2" "" t0 disk matches ltac:(discriminate) ltac:(discriminate) ltac:(discriminate) ltac:(discriminate) ltac:(discriminate)) as H.
  change (check encode_chain encode_key renewer (Some old) _ _ _ _ _ _ _ _) with (checked (λ _, true)) in H.
  assert (length (checked (λ _, true)).1.2 = 6%nat) as Hn by (vm_compute; reflexivity).
  destruct (checked (λ _, true)) as [[used states] reported]. destruct H as [H _]. cbn [fst snd] in *.
  destruct (H ltac:(by intros ->)) as (c & l & updated & Hc & _ & _ & Hi & Hf). injection Hc as <-.
  assert (updated = {| Chain := [issued]; PrivateKey := "k1" |}) as -> by (vm_compute in Hi; by injection Hi as <-).
  eapply Forall_impl; [exact Hf|]. intros st (Hst & _). exact Hst.
Defined.

(** Between the two files, or when the second cannot be written, the disk
    holds a chain and a key that do not belong together: an agent that starts
    then has no identity. *)
Lemma a_crash_splits_the_identity :
  (∃ st, st ∈ (checked (λ _, true)).1.2 ∧ (st !! "node.crt", st !! "node.key") = (Some "pub k1", Some "KEY k0")) ∧
  (let '(used, states, reported) := checked (λ op, negb (bool_decide (op = CreateTemp))) in
   used = Some old ∧ reported = true ∧ (List.last states disk !! "node.crt", List.last states disk !! "node.key") = (Some "pub k1", Some "KEY k0")).
Proof.
  split; [|vm_compute; done].
  exists (List.nth 2 (checked (λ _, true)).1.2 ∅). split; [|vm_compute; reflexivity]. apply list_elem_of_In, nth_In. vm_compute. lia.
Qed.

(** A leaf and the intermediate that signed it, as the issuer answers: taken on
    the first enrolment, refused at every renewal. *)
Lemma a_renewal_drops_the_intermediate :
  is_Some (EnrollVM public csr_of key_pair parse_pem unit chained_verify "https://gw:8443" vm (Some 384) (Some "grant") (Some tt) (Some "k1")
    (λ _ _ _, Some (200, Some "chained")) t0 t0) ∧
  gateway chained_verify "chained" old = None.
Proof. split; [vm_compute; eauto|vm_compute; reflexivity]. Qed.
End Sample.
