(* ===== verification/VaultClient.v ===== *)
(** The Vault client (internal/vaultc: vault.go, kv.go, secrets.go,
    kubernetes.go, kubernetes_creds.go, approle.go): what each operation asks
    of Vault and what it makes of the answer.

    An operation is a [prog]: the requests it makes and how it goes on from
    each answer.  [run] plays one against a server that keeps a state.  X.509,
    the RFC 3339 reader and the rendering of odd JSON values are parameters. *)

From Stdlib Require Import Ascii String ZArith Lia.
From S2P Require Import Prelude GoStrings NodeProtocol Gateway VmEnroll DbCreds.
Open Scope Z_scope.

(** ** Values, requests, answers *)

(** A decoded JSON value; numbers as the text they were written with. *)
Inductive json := JNull | JBool (b : bool) | JNum (text : string) | JStr (s : string) | JArr (l : list json) | JObj (fields : list (string * json)).

Definition object : Type := list (string * json).

(** [m[k]] of a decoded object, whose keys are distinct. *)
Fixpoint field (k : string) (o : object) : option json :=
  match o with [] => None | (k', v) :: o' => if String.eqb k k' then Some v else field k o' end.

Definition str_field (k : string) (o : object) : string := match field k o with Some (JStr s) => s | _ => "" end.

Record secret_auth := { ClientToken : string; sa_LeaseDuration : Z; sa_Renewable : bool }.
Record secret := { LeaseID : string; LeaseDuration : Z; sec_Renewable : bool; Data : option object; Auth : option secret_auth }.

Inductive api_error := ResponseError (StatusCode : Z) (text : string) | Transport (text : string).

Inductive request :=
| ReadData (path : string) (params : list (string * string))
| ListPath (path : string)
| WriteData (path : string) (payload : option object)
| LookupSelf
| RenewSelf
| PutPolicy (name rules : string).

Definition answer : Type := result api_error (option secret).

(** ** Programs *)

Inductive prog (A : Type) :=
| Ret (a : A)
| Ask (q : request) (k : answer → prog A).
Arguments Ret {A} a.
Arguments Ask {A} q k.

#[export] Instance prog_ret : MRet prog := λ A a, Ret a.
#[export] Instance prog_bind : MBind prog := λ A B f,
  fix go p := match p with Ret a => f a | Ask q k => Ask q (λ a, go (k a)) end.

Definition ask (q : request) : prog answer := Ask q Ret.

(** The state the server is left in, what was asked, and the outcome. *)
Fixpoint run {S A} (server : S → request → S * answer) (p : prog A) (s : S) : S * list request * A :=
  match p with
  | Ret a => (s, [], a)
  | Ask q k =>
      let '(s', a) := server s q in
      let '(s'', qs, r) := run server (k a) s' in (s'', q :: qs, r)
  end.

Inductive vault_error :=
| VMsg (text : string)
| VApi (path : string) (e : api_error)
| ErrKVNotFound (path : string)
| ErrKVConflict (path : string)
| ErrTokenDenied
| EmptyResponse (path : string)
| MissingField (path key : string).

Definition IsPermissionDenied (e : vault_error) : bool := match e with VApi _ (ResponseError code _) => code =? 403 | _ => false end.

(** ** The token *)

Record TokenInfo := { ti_Identity : string; ti_Policies : list string; ti_AuthMethod : string; ti_EntityID : string }.

Definition named_by (meta : object) : option string :=
  find (λ s, negb (String.eqb s "")) ((λ k, str_field k meta) <$> ["username"; "preferred_username"; "email"]).

(** [dn[:i]] for the first hyphen, unless it comes first. *)
Definition auth_method (dn : string) : string := match Cut dn "-" with Some (a, _) => if String.eqb a "" then dn else a | None => dn end.

Definition policy_names (v : option json) : list string :=
  match v with Some (JArr l) => omap (λ p, match p with JStr s => if String.eqb s "" then None else Some s | _ => None end) l | _ => [] end.

(** [visit]: the order the runtime gives the set of policies in. *)
Definition token_info (visit : gset string → list string) (data : object) : TokenInfo :=
  let dn := str_field "display_name" data in
  {| ti_Identity := default dn (match field "meta" data with Some (JObj meta) => named_by meta | _ => None end);
     ti_Policies := visit (list_to_set (policy_names (field "policies" data) ++ policy_names (field "identity_policies" data)));
     ti_AuthMethod := auth_method dn; ti_EntityID := str_field "entity_id" data |}.

Definition LookupToken (visit : gset string → list string) (token : string) : prog (result vault_error TokenInfo) :=
  if String.eqb token "" then Ret (Err (VMsg "vault: not logged in"))
  else
    a ← ask LookupSelf;
    Ret (match a with
          | Err e => Err (VApi "vault: token lookup" e)
          | Ok (Some {| Data := Some data |}) => Ok (token_info visit data)
          | Ok _ => Err (VMsg "vault: token lookup returned no data")
          end).

Definition TokenIdentity visit token : prog (result vault_error (string * list string)) :=
  r ← LookupToken visit token; Ret (i ← r; Ok (ti_Identity i, ti_Policies i)).

Definition TokenAuthMethod visit token : prog string :=
  r ← LookupToken visit token; Ret (match r with Ok i => ti_AuthMethod i | Err _ => "" end).

Definition ValidateToken (token : string) : prog (result vault_error unit) :=
  if String.eqb token "" then Ret (Err ErrTokenDenied)
  else
    a ← ask LookupSelf;
    Ret (match a with
          | Ok _ => Ok tt
          | Err (ResponseError code text) => Err (if code =? 403 then ErrTokenDenied else VApi "vault: token lookup" (ResponseError code text))
          | Err e => Err (VApi "vault: token lookup" e)
          end).

(** ** KV *)

Definition slash : string := "/".

Definition kvDataPath (path : string) : string :=
  let p := TrimPrefix path slash in
  match Cut p slash with
  | None => p
  | Some (mount, rest) => if HasPrefix rest "data/" then p else mount +:+ "/data/" +:+ rest
  end.

Definition kvMetadataPath (path : string) : string :=
  let p := Trim path slash in
  match Cut p slash with
  | None => p +:+ "/metadata"
  | Some (mount, rest) =>
      if String.eqb rest "metadata" || HasPrefix rest "metadata/" then p
      else if String.eqb rest "data" then mount +:+ "/metadata"
      else if HasPrefix rest "data/" then mount +:+ "/metadata/" +:+ TrimPrefix rest "data/"
      else mount +:+ "/metadata/" +:+ rest
  end.

Record KVSecret := {
  kv_Path : string; kv_Data : gmap string string; NonString : list string; kv_Version : Z; CreatedAt : time_t; DeletedAt : time_t;
  Destroyed : bool; CustomMetadata : list (string * string);
}.

(** Numbers as the client decodes them; a number that is no int64 is as far as
    [Int64] gets with it. *)
Definition jsonInt (v : option json) : Z := match v with Some (JNum t) => (ParseInt10 t).1 | _ => 0 end.

Definition string_fields (o : object) : gmap string string :=
  list_to_map (omap (λ kv, match kv.2 with JStr s => Some (kv.1, s) | _ => None end) o).
Definition other_fields (o : object) : list string :=
  sort_strings (omap (λ kv, match kv.2 with JStr _ => None | _ => Some kv.1 end) o).

Section kv.
Context (parse_time : string → option time_t) (sprint : json → string).

Definition rfc3339 (v : option json) : time_t := match v with Some (JStr s) => if String.eqb s "" then 0 else default 0 (parse_time s) | _ => 0 end.

Definition parseKVSecret (path : string) (data : object) : KVSecret :=
  match field "data" data, field "metadata" data with
  | Some d, Some (JObj meta) =>
      let fields := match d with JObj o => o | _ => [] end in
      {| kv_Path := path; kv_Data := string_fields fields; NonString := other_fields fields; kv_Version := jsonInt (field "version" meta);
         CreatedAt := rfc3339 (field "created_time" meta); DeletedAt := rfc3339 (field "deletion_time" meta);
         Destroyed := match field "destroyed" meta with Some (JBool b) => b | _ => false end;
         CustomMetadata := match field "custom_metadata" meta with Some (JObj cm) => prod_map id sprint <$> cm | _ => [] end |}
  | _, _ =>
      {| kv_Path := path; kv_Data := string_fields data; NonString := other_fields data; kv_Version := 0; CreatedAt := 0; DeletedAt := 0;
         Destroyed := false; CustomMetadata := [] |}
  end.

Definition ReadKVSecret (path : string) (version : Z) : prog (result vault_error KVSecret) :=
  a ← ask (ReadData (kvDataPath path) (if 0 <? version then [("version", Itoa version)] else []));
  Ret (match a with
        | Err e => Err (VApi path e)
        | Ok (Some {| Data := Some data |}) => Ok (parseKVSecret path data)
        | Ok _ => Err (ErrKVNotFound path)
        end).

Definition ReadKV (path : string) : prog (result vault_error (gmap string string)) :=
  r ← ReadKVSecret path 0;
  Ret (sec ← r; if bool_decide (kv_Data sec = ∅) then Err (VMsg (path +:+ ": no string fields")) else Ok (kv_Data sec)).
End kv.

Definition ListKV (path : string) : prog (result vault_error (list string)) :=
  a ← ask (ListPath (kvMetadataPath path));
  Ret (match a with
        | Err e => Err (VApi path e)
        | Ok (Some {| Data := Some data |}) => Ok (sort_strings (policy_names (field "keys" data)))
        | Ok _ => Err (ErrKVNotFound path)
        end).

Definition error_text (e : api_error) : string := match e with ResponseError _ t => t | Transport t => t end.

(** [visit]: the order the fields are sent in. *)
Definition WriteKV (visit : gmap string string → list (string * string)) (path : string) (data : gmap string string) (cas : Z) : prog (result vault_error Z) :=
  let body := [("data", JObj (prod_map id JStr <$> visit data))] ++ (if 0 <=? cas then [("options", JObj [("cas", JNum (Itoa cas))])] else []) in
  a ← ask (WriteData (kvDataPath path) (Some body));
  Ret (match a with
        | Err e => Err (if Contains (error_text e) "check-and-set parameter did not match" then ErrKVConflict path else VApi ("write " +:+ path) e)
        | Ok (Some {| Data := Some data |}) => Ok (jsonInt (field "version" data))
        | Ok _ => Ok 0
        end).

(** ** Reading and writing with a body *)

Definition with_body (path : string) (a : answer) : result vault_error (secret * object) :=
  match a with
  | Err e => Err (VApi path e)
  | Ok (Some sec) => match Data sec with Some data => Ok (sec, data) | None => Err (EmptyResponse path) end
  | Ok None => Err (EmptyResponse path)
  end.

Definition readPath (path : string) : prog (result vault_error (secret * object)) := a ← ask (ReadData path []); Ret (with_body path a).
Definition writePath (path : string) (payload : option object) : prog (result vault_error (secret * object)) :=
  a ← ask (WriteData path payload); Ret (with_body path a).

Definition reqString (data : object) (path key : string) : result vault_error string :=
  let v := str_field key data in if String.eqb v "" then Err (MissingField path key) else Ok v.

(** Going on only when the last step worked. *)
Definition and_then {A B} (p : prog (result vault_error A)) (f : A → prog (result vault_error B)) : prog (result vault_error B) :=
  r ← p; match r with Ok a => f a | Err e => Ret (Err e) end.

Definition strings (l : list string) : json := JArr (JStr <$> l).

Definition SignSSH (role publicKey : string) (principals : list string) (ttl : string) (extensions : list string) : prog (result vault_error string) :=
  let payload := [("public_key", JStr publicKey); ("valid_principals", JStr (Join principals ",")); ("ttl", JStr ttl)] ++
    (if bool_decide (extensions = []) then [] else [("extensions", JObj ((λ name, (name, JStr "")) <$> extensions))]) in
  let path := "ssh/sign/" +:+ role in
  and_then (writePath path (Some payload)) (λ r, Ret (reqString r.2 path "signed_key")).

Definition SSHCAPublicKey : prog (result vault_error string) :=
  and_then (readPath "ssh/config/ca") (λ r, Ret (pub ← reqString r.2 "ssh/config/ca" "public_key"; Ok (TrimSpace pub))).

Definition lease_ttl (s : Z) : duration := wrap64 (s * Second).

Definition DBCreds (role : string) : prog (result vault_error DBLease) :=
  let path := "database/creds/" +:+ role in
  and_then (readPath path) (λ '(sec, data), Ret (
    user ← reqString data path "username"; pass ← reqString data path "password";
    Ok {| User := user; Pass := pass; ID := LeaseID sec; TTL := lease_ttl (LeaseDuration sec); Renewable := sec_Renewable sec |})).

(** [increment.Seconds()] cut to an int: towards zero. *)
Definition RenewLease (leaseID : string) (increment : duration) : prog (result vault_error (duration * bool)) :=
  let path := "sys/leases/renew" in
  a ← ask (WriteData path (Some [("lease_id", JStr leaseID); ("increment", JNum (Itoa (Z.quot increment Second)))]));
  Ret (match a with
       | Err e => Err (VApi path e)
       | Ok None => Err (EmptyResponse path)
       | Ok (Some sec) => Ok (lease_ttl (LeaseDuration sec), sec_Renewable sec)
       end).

Definition AppRoleRoleID (mount role : string) : prog (result vault_error string) :=
  let p := "auth/" +:+ mount +:+ "/role/" +:+ role +:+ "/role-id" in and_then (readPath p) (λ r, Ret (reqString r.2 p "role_id")).

Definition GenerateSecretIDWithAccessor (mount role : string) : prog (result vault_error (string * string)) :=
  let p := "auth/" +:+ mount +:+ "/role/" +:+ role +:+ "/secret-id" in
  and_then (writePath p None) (λ r, Ret (
    secretID ← reqString r.2 p "secret_id"; accessor ← reqString r.2 p "secret_id_accessor"; Ok (secretID, accessor))).

Definition GenerateSecretID (mount role : string) : prog (result vault_error string) :=
  and_then (GenerateSecretIDWithAccessor mount role) (λ r, Ret (Ok r.1)).

Definition first_then (p q : ascii → bool) (s : string) : bool := match s with String c s' => p c && string_all q s' | EmptyString => false end.

Definition appRoleNameRE : string → bool := first_then is_alnum (in_set "_.-").

Definition is_lower_hex (c : ascii) : bool := is_digit c || in_range 97 102 c.
Definition lower_uuid_re (s : string) : bool := novaUUIDPattern s && string_all (λ c, is_lower_hex c || Ascii.eqb c "-") s.

Definition DestroySecretIDAccessor (mount role accessor : string) : prog (result vault_error unit) :=
  if negb (appRoleNameRE role) then Ret (Err (VMsg "invalid AppRole name"))
  else if negb (lower_uuid_re accessor) then Ret (Err (VMsg "invalid secret_id accessor"))
  else
    let p := "auth/" +:+ mount +:+ "/role/" +:+ role +:+ "/secret-id-accessor/destroy" in
    a ← ask (WriteData p (Some [("secret_id_accessor", JStr accessor)]));
    Ret (match a with Err e => Err (VApi p e) | Ok _ => Ok tt end).

(** ** Kubernetes credentials *)

Record K8sCreds := { k_Token : string; ServiceAccount : string; k_Namespace : string; k_TTL : duration; k_LeaseID : string }.

Definition parseK8sCreds (sec : option secret) : result vault_error K8sCreds :=
  match sec with
  | Some ({| Data := Some data |} as s) =>
      let tok := str_field "service_account_token" data in
      if String.eqb tok "" then Err (VMsg "the engine returned no service_account_token")
      else Ok {| k_Token := tok; ServiceAccount := str_field "service_account_name" data; k_Namespace := str_field "service_account_namespace" data;
                 k_TTL := lease_ttl (LeaseDuration s); k_LeaseID := LeaseID s |}
  | _ => Err (VMsg "the engine returned no credential")
  end.

Definition KubernetesCreds (mount role namespace : string) (ttl : duration) : prog (result vault_error K8sCreds) :=
  let params := [("kubernetes_namespace", JStr namespace); ("cluster_role_binding", JBool true)] ++
    (if 0 <? ttl then [("ttl", JNum (Itoa (Z.quot ttl Second)))] else []) in
  let path := TrimSuffix mount slash +:+ "/creds/" +:+ role in
  a ← ask (WriteData path (Some params));
  Ret (match a with Err e => Err (VApi path e) | Ok sec => parseK8sCreds sec end).

(** ** Node identities *)

Record signing_request := { csr_Signed : bool; csr_Key : string }.
Record issued_leaf := { il_CommonName : string; il_URIs : list string; il_Key : string }.

Definition chain_pem (certificate : string) (data : object) : string :=
  certificate +:+ String "010" "" +:+
  String.concat "" ((λ ca, ca +:+ String "010" "") <$>
    match field "ca_chain" data with Some (JArr l) => omap (λ v, match v with JStr s => Some s | _ => None end) l | _ => [] end).

Section identities.
Context (parse_csr : string → option signing_request) (parse_leaf : string → option issued_leaf) (pair_ok : string → string → bool).

Definition SignVMAgentCSR (instanceUUID csrPEM : string) : prog (result vault_error string) :=
  if negb (lower_uuid_re instanceUUID) then Ret (Err (VMsg "invalid Nova instance UUID"))
  else match parse_csr csrPEM with
  | None => Ret (Err (VMsg "invalid VM certificate signing request"))
  | Some csr =>
      if negb (csr_Signed csr) then Ret (Err (VMsg "verify VM certificate signing request"))
      else
        let commonName := instanceUUID +:+ ".vm.sre.local" in
        let uriSAN := "spiffe://vctl.local/vm/" +:+ instanceUUID in
        and_then (writePath "pki_sre_int/sign/vctl-vm-agent"
          (Some [("csr", JStr csrPEM); ("common_name", JStr commonName); ("uri_sans", JStr uriSAN); ("ttl", JStr "720h"); ("format", JStr "pem")]))
          (λ r, Ret (
            let certificate := str_field "certificate" r.2 in
            if String.eqb certificate "" then Err (VMsg "PKI returned an incomplete VM node-access certificate")
            else
              let certPEM := chain_pem certificate r.2 in
              match parse_leaf certPEM with
              | None => Err (VMsg "PKI returned an invalid VM certificate")
              | Some leaf =>
                  if negb (String.eqb (il_CommonName leaf) commonName) || negb (bool_decide (il_URIs leaf = [uriSAN]))
                  then Err (VMsg "PKI returned a certificate with the wrong VM identity")
                  else if negb (String.eqb (csr_Key csr) (il_Key leaf)) then Err (VMsg "PKI returned a certificate for a different public key")
                  else Ok certPEM
              end))
  end.

(** One DNS label in lower case. *)
Definition nodeAccessHostRE (s : string) : bool :=
  let ok c := is_digit c || is_lower c in
  first_then ok (λ c, ok c || Ascii.eqb c "-") s && first_then ok (λ _, true) (reverse_string s) && (String.length s <=? 63)%nat.

Record NodeAccessIdentity := { na_RoleID : string; na_SecretID : string; CertificatePEM : string; PrivateKeyPEM : string }.

Definition EnsureNodeAccessIdentity (hostname approleMount : string) : prog (result vault_error NodeAccessIdentity) :=
  if negb (nodeAccessHostRE hostname) then Ret (Err (VMsg "invalid node-access inventory hostname"))
  else if String.eqb approleMount "" then Ret (Err (VMsg "AppRole mount is required"))
  else
    let role := "vctl-node-access-" +:+ hostname in
    let q := String "034" "" in
    let policy := "path " +:+ q +:+ "pki_sre_int/issue/" +:+ role +:+ q +:+ " { capabilities = [" +:+ q +:+ "update" +:+ q +:+ "] }" in
    let step (req : request) : prog (result vault_error unit) :=
      a ← ask req; Ret (match a with Err e => Err (VApi "node-access" e) | Ok _ => Ok tt end) in
    and_then (step (PutPolicy role policy)) (λ _,
    and_then (step (WriteData ("pki_sre_int/roles/" +:+ role) (Some
      [("allowed_domains", strings [hostname +:+ ".sre.local"]); ("allowed_uri_sans", strings ["spiffe://vctl.local/node/" +:+ hostname]);
       ("allow_bare_domains", JBool true); ("allow_subdomains", JBool false); ("allow_glob_domains", JBool false);
       ("allow_any_name", JBool false); ("allow_ip_sans", JBool false); ("allow_localhost", JBool false);
       ("allow_wildcard_certificates", JBool false); ("client_flag", JBool true); ("server_flag", JBool false);
       ("key_type", JStr "ec"); ("key_bits", JNum "256"); ("ext_key_usage", strings ["ClientAuth"]); ("ttl", JStr "720h"); ("max_ttl", JStr "720h")]))) (λ _,
    and_then (step (WriteData ("auth/" +:+ approleMount +:+ "/role/" +:+ role) (Some
      [("token_policies", strings [role]); ("token_ttl", JNum "3600"); ("token_max_ttl", JNum "3600"); ("token_type", JStr "service");
       ("secret_id_ttl", JNum "0"); ("secret_id_num_uses", JNum "0")]))) (λ _,
    and_then (AppRoleRoleID approleMount role) (λ roleID,
    and_then (GenerateSecretIDWithAccessor approleMount role) (λ '(secretID, _),
    and_then (writePath ("pki_sre_int/issue/" +:+ role) (Some
      [("common_name", JStr (hostname +:+ ".sre.local")); ("uri_sans", JStr ("spiffe://vctl.local/node/" +:+ hostname)); ("ttl", JStr "720h"); ("format", JStr "pem")])) (λ r, Ret (
      let certificate := str_field "certificate" r.2 in
      let privateKey := str_field "private_key" r.2 in
      if String.eqb certificate "" || String.eqb privateKey "" then Err (VMsg "PKI returned an incomplete node-access certificate")
      else
        let certPEM := chain_pem certificate r.2 in
        if pair_ok certPEM privateKey then Ok {| na_RoleID := roleID; na_SecretID := secretID; CertificatePEM := certPEM; PrivateKeyPEM := privateKey |}
        else Err (VMsg "validate node-access certificate")))))))).
End identities.

(** ** Laws of programs *)

Lemma run_bind {S A B} (server : S → request → S * answer) (p : prog A) (f : A → prog B) s :
  run server (p ≫= f) s = let '(s1, q1, a) := run server p s in let '(s2, q2, b) := run server (f a) s1 in (s2, q1 ++ q2, b).
Proof.
  revert s. induction p as [a|q k IH]; intros s.
  - cbn. by destruct (run server (f a) s) as [[]].
  - change (Ask q k ≫= f) with (Ask q (λ a, k a ≫= f)). cbn [run]. destruct (server s q) as [s1 a]. rewrite IH.
    destruct (run server (k a) s1) as [[s2 q2] b]. by destruct (run server (f b) s2) as [[s3 q3] c].
Qed.

Lemma run_and_then {S A B} (server : S → request → S * answer) (p : prog (result vault_error A)) (f : A → prog (result vault_error B)) s :
  run server (and_then p f) s =
  let '(s1, q1, r) := run server p s in
  match r with
  | Ok a => let '(s2, q2, b) := run server (f a) s1 in (s2, q1 ++ q2, b)
  | Err e => (s1, q1, Err e)
  end.
Proof.
  unfold and_then. rewrite run_bind. destruct (run server p s) as [[s1 q1] [a|e]]; [done|]. cbn. by rewrite app_nil_r.
Qed.

Lemma run_writePath {S} (server : S → request → S * answer) path payload s :
  run server (writePath path payload) s = let '(s', a) := server s (WriteData path payload) in (s', [WriteData path payload], with_body path a).
Proof. unfold writePath. rewrite run_bind. cbn. by destruct (server _ _) as [s' a]. Qed.

(** ** Signing binds the certificate to the request *)

Section signing.
Context (parse_csr : string → option signing_request) (parse_leaf : string → option issued_leaf).

Definition vm_leaf (i : string) (key : string) (l : issued_leaf) : Prop :=
  il_CommonName l = i +:+ ".vm.sre.local" ∧ il_URIs l = [vmPrefix +:+ i] ∧ il_Key l = key.

Definition sign_request (i csr : string) : request :=
  WriteData "pki_sre_int/sign/vctl-vm-agent"
    (Some [("csr", JStr csr); ("common_name", JStr (i +:+ ".vm.sre.local")); ("uri_sans", JStr (vmPrefix +:+ i)); ("ttl", JStr "720h"); ("format", JStr "pem")]).

Lemma SignVMAgentCSR_sound {S} (server : S → request → S * answer) i csr s s' qs r :
  run server (SignVMAgentCSR parse_csr parse_leaf i csr) s = (s', qs, r) →
  (qs = [] ∨ qs = [sign_request i csr]) ∧
  (∀ pem, r = Ok pem → ∃ req l, qs = [sign_request i csr] ∧ lower_uuid_re i = true ∧ parse_csr csr = Some req ∧ csr_Signed req = true ∧ parse_leaf pem = Some l ∧ vm_leaf i (csr_Key req) l).
Proof.
  unfold SignVMAgentCSR. destruct (lower_uuid_re i) eqn:Hi; [|by intros [= <- <- <-]; split; [left|]]. cbn [negb].
  destruct (parse_csr csr) as [req|] eqn:Hreq; [|by intros [= <- <- <-]; split; [left|]].
  destruct (csr_Signed req) eqn:Hs; [|by intros [= <- <- <-]; split; [left|]]. cbn [negb].
  change ("spiffe://vctl.local/vm/" +:+ i) with (vmPrefix +:+ i). fold (sign_request i csr).
  rewrite run_and_then, run_writePath. fold (sign_request i csr). destruct (server s (sign_request i csr)) as [s1 a].
  destruct (with_body _ a) as [[sec data]|e]; [|by intros [= <- <- <-]; split; [right|]]. cbn [run snd]. intros [= <- <- <-]. split; [by right|].
  intros pem H. destruct (String.eqb _ ""); [done|]. destruct (parse_leaf _) as [l|] eqn:Hl; [|done].
  destruct (_ || _) eqn:E; [done|]. destruct (String.eqb_spec (csr_Key req) (il_Key l)) as [Hk|]; [|done]. cbn [negb] in H. injection H as <-.
  apply orb_false_iff in E as [E1%negb_false_iff%String.eqb_eq E2%negb_false_iff%bool_decide_eq_true]. by exists req, l.
Qed.

(** The gateway's signer, for a Vault that stands as it does now. *)
Definition vault_signer {S} (server : S → request → S * answer) (s : S) (i csr : string) : option string :=
  match (run server (SignVMAgentCSR parse_csr parse_leaf i csr) s).2 with Ok pem => Some pem | Err _ => None end.

(** C16. From the grant to the certificate: whatever Vault answers, a
    certificate the gateway hands out, on enrolling or on renewing, is one
    Vault was asked to sign for the instance the grant or the old certificate
    names and for nothing else; the request was signed with its own key, and
    the certificate carries that key, that instance's name and that instance's
    identity alone. *)
Theorem certificates_bind_the_request {S} (server : S → request → S * answer) s mac unmarshal parse_pem g auth body now now1 now2 NodeRoots x509 t authorized
    ans asked pem :
  enrollVMAgent mac unmarshal parse_pem g auth body (vault_signer server s) now now1 now2 = (ans, asked) ∨
  renewVMAgent parse_pem g NodeRoots x509 t authorized body (vault_signer server s) = (ans, asked) →
  ans = Issued pem → ∃ i csr req l, asked = [(i, csr)] ∧ body = Some csr ∧ lower_uuid_re i = true ∧ parse_csr csr = Some req ∧ csr_Signed req = true ∧
    parse_leaf pem = Some l ∧ vm_leaf i (csr_Key req) l ∧ (run server (SignVMAgentCSR parse_csr parse_leaf i csr) s).1.2 = [sign_request i csr].
Proof.
  intros H ->.
  assert (∃ i csr, asked = [(i, csr)] ∧ body = Some csr ∧ vault_signer server s i csr = Some pem) as (i & csr & -> & -> & Hv).
  { destruct H as [H|H].
    - unfold enrollVMAgent in H. destruct (_ || _); [done|]. destruct (verifyBootstrapToken _ _ _ _ _) as [claims|]; [|done].
      destruct body as [csr|]; [|done]. destruct (String.eqb csr ""); [done|]. destruct (vault_signer _ _ _ _) as [pem'|] eqn:E; [|done].
      destruct (validateVMCertificate _ _ _ _ _ _); [|done]. injection H as -> <-. eauto.
    - unfold renewVMAgent in H. destruct (negb _); [done|]. destruct (requestPeerCertificate _ _ _) as [cert|]; [|done].
      destruct (VMIdentity _) as [i|]; [|done]. destruct (authorized i); [|done]. cbn [negb] in H.
      destruct body as [csr|]; [|done]. destruct (String.eqb csr ""); [done|]. destruct (vault_signer _ _ _ _) as [pem'|] eqn:E; [|done].
      destruct (parse_pem pem') as [l|]; [|done]. destruct (identifies l i); [|done]. injection H as -> <-. eauto. }
  unfold vault_signer in Hv. destruct (run _ _ _) as [[s' qs] r] eqn:Er. cbn [snd] in Hv. destruct r as [pem'|]; [|done]. injection Hv as ->.
  destruct (SignVMAgentCSR_sound _ _ _ _ _ _ _ Er) as [_ Hs]. destruct (Hs _ eq_refl) as (req & l & -> & ? & ? & ? & ? & ?).
  exists i, csr, req, l. by rewrite Er.
Qed.
End signing.

(** ** Paths *)

Example path_samples :
  (kvDataPath <$> ["kv/teams/x"; "/kv/teams/x"; "kv/data/x"; "kv"; "kv/data"], kvMetadataPath <$> ["kv/teams/"; "kv"; "kv/data/x"; "kv/metadata/x"; "kv/data"; "/kv/metadata"]) =
  (["kv/data/teams/x"; "kv/data/teams/x"; "kv/data/x"; "kv"; "kv/data/data"],
   ["kv/metadata/teams"; "kv/metadata"; "kv/metadata/x"; "kv/metadata/x"; "kv/metadata"; "kv/metadata"]).
Proof. vm_compute. reflexivity. Qed.

Module Sample.
Definition i : string := "0b1c2d3e-0000-4000-8000-0123456789ab".
Definition parse_csr (t : string) : option signing_request := if String.eqb t "csr" then Some {| csr_Signed := true; csr_Key := "k" |} else None.
Definition parse_leaf (t : string) : option issued_leaf :=
  Some {| il_CommonName := i +:+ ".vm.sre.local"; il_URIs := [vmPrefix +:+ i]; il_Key := "k" |}.
Definition cert : leaf :=
  {| URIs := [vmPrefix +:+ i]; CommonName := i +:+ ".vm.sre.local"; NotBefore := 0; NotAfter := 10; ClientAuth := true; PublicKey := "k" |}.
Definition server (s : unit) (q : request) : unit * answer :=
  (s, Ok (Some {| LeaseID := ""; LeaseDuration := 0; sec_Renewable := false; Data := Some [("certificate", JStr "PEM"); ("ca_chain", strings ["CA"])]; Auth := None |})).
Definition gateway : enroller :=
  {| EnrollmentKey := ""; GatewayURL := ""; GatewayAddress := ""; ca_bundle := ""; has_issuer := true; has_nova := true |}.
Definition direct : transport := {| PeerCertificates := [[vmPrefix +:+ i]]; verified := true; forwarded := "" |}.
Definition pem : string := chain_pem "PEM" [("certificate", JStr "PEM"); ("ca_chain", strings ["CA"])].

Lemma certificates_bind_the_request_witness : ∃ req, parse_csr "csr" = Some req ∧ csr_Signed req = true ∧ ∃ l, parse_leaf pem = Some l ∧ vm_leaf i (csr_Key req) l.
Proof.
  destruct (certificates_bind_the_request parse_csr parse_leaf server tt (λ _ _, "") (λ _, None) (λ _, Some cert) gateway "" (Some "csr") 0 0 0 None (λ _, None) direct (String.eqb i)
    (Issued pem) [(i, "csr")] pem) as (j & csr & req & l & Ha & _ & _ & Hr & Hs & Hl & Hv & _).
  - right. vm_compute. reflexivity.
  - reflexivity.
  - injection Ha as <- <-. exists req. split; [exact Hr|]. split; [exact Hs|]. exists l. split; [exact Hl|exact Hv].
Defined.
End Sample.
