(* ===== verification/VaultToken.v ===== *)
(** The token a workstation keeps (internal/vaultc/vault.go, approle.go,
    kubernetes.go, userpass.go): what a login or a renewal stores, what the
    next process finds, and when it counts as valid.

    The cached token is the record its file holds. *)

From Stdlib Require Import Ascii String ZArith Lia.
From S2P Require Import Prelude GoStrings VaultClient.
Open Scope Z_scope.

Record cachedToken := { ct_Token : string; Expires : time_t; ct_Renewable : bool }.

Record Client := { api_token : string; tokenExp : time_t; renewable : bool }.

Definition loadToken (now : time_t) (file : option cachedToken) (c : Client) : Client :=
  match file with
  | None => c
  | Some t =>
      {| api_token := if negb (String.eqb (ct_Token t) "") && After (Expires t) now then ct_Token t else api_token c;
         tokenExp := Expires t; renewable := ct_Renewable t |}
  end.

Definition no_token : Client := {| api_token := ""; tokenExp := 0; renewable := false |}.

(** The Vault library's client starts with the token of VAULT_TOKEN, if that is
    set; [env] is its value, or nothing. *)
Definition newAPI (env : string) : Client := {| api_token := env; tokenExp := 0; renewable := false |}.

(** A process that starts: what its environment and the file give it. *)
Definition New (env : string) (now : time_t) (file : option cachedToken) : Client := loadToken now file (newAPI env).

(** The client of a server that checks a bearer's token; it has no file. *)
Definition NewWithToken (env token : string) : option Client :=
  if String.eqb (TrimSpace token) "" then None
  else Some {| api_token := token; tokenExp := tokenExp (newAPI env); renewable := renewable (newAPI env) |}.

(** [stored]: whether the file could be written. *)
Definition saveToken (now : time_t) (stored : bool) (file : option cachedToken) (token : string) (ttl : duration) (renewable : bool) : Client * option cachedToken * bool :=
  let exp := Add now ttl in
  ({| api_token := token; tokenExp := exp; renewable := renewable |},
   if stored then Some {| ct_Token := token; Expires := exp; ct_Renewable := renewable |} else file, stored).

Definition fallbackAuthTokenTTL : duration := Hour.

Definition auth_ttl (a : secret_auth) : duration := let ttl := wrap64 (sa_LeaseDuration a * Second) in if ttl <=? 0 then fallbackAuthTokenTTL else ttl.

(** The client, the file, and whether it worked. *)
Definition applyAuth (now : time_t) (stored : bool) (c : Client) (file : option cachedToken) (sec : option secret) : Client * option cachedToken * bool :=
  match sec with
  | Some {| Auth := Some a |} =>
      if String.eqb (ClientToken a) "" then (c, file, false) else saveToken now stored file (ClientToken a) (auth_ttl a) (sa_Renewable a)
  | _ => (c, file, false)
  end.

Definition HasValidToken (now : time_t) (c : Client) : bool := negb (String.eqb (api_token c) "") && After (tokenExp c) (Add now (60 * Second)).

Definition token_TTL (now : time_t) (c : Client) : duration :=
  if IsZero (tokenExp c) then 0 else let d := Sub (tokenExp c) now in if d <? 0 then 0 else d.

(** [removed]: the file could be removed, or was not there. *)
Definition Logout (removed : bool) (file : option cachedToken) : Client * option cachedToken * bool := (no_token, if removed then None else file, removed).

(** The logins and the renewal, up to [applyAuth]. *)
Definition LoginAppRole (mount roleID secretID : string) : prog (result vault_error (option secret)) :=
  let mount := if String.eqb mount "" then "approle" else mount in
  if String.eqb roleID "" || String.eqb secretID "" then Ret (Err (VMsg "approle: role_id/secret_id is empty"))
  else a ← ask (WriteData ("auth/" +:+ mount +:+ "/login") (Some [("role_id", JStr roleID); ("secret_id", JStr secretID)]));
       Ret (match a with Err e => Err (VApi "approle login failed" e) | Ok sec => Ok sec end).

Definition LoginUserpass (username password : string) : prog (result vault_error (option secret)) :=
  a ← ask (WriteData ("auth/userpass/login/" +:+ username) (Some [("password", JStr password)]));
  Ret (match a with Err e => Err (VApi "userpass login failed" e) | Ok sec => Ok sec end).

Definition LoginKubernetes (mount role jwt : string) : prog (result vault_error (option secret)) :=
  let mount := if String.eqb mount "" then "kubernetes" else mount in
  if String.eqb role "" then Ret (Err (VMsg "kubernetes: role is empty"))
  else if String.eqb (TrimSpace jwt) "" then Ret (Err (VMsg "kubernetes: service account token is empty"))
  else a ← ask (WriteData ("auth/" +:+ mount +:+ "/login") (Some [("role", JStr role); ("jwt", JStr (TrimSpace jwt))]));
       Ret (match a with Err e => Err (VApi "kubernetes login failed" e) | Ok sec => Ok sec end).

Definition Renew (c : Client) : prog (result vault_error (option secret)) :=
  if String.eqb (api_token c) "" then Ret (Err (VMsg "missing token"))
  else a ← ask RenewSelf; Ret (match a with Err e => Err (VApi "renew-self" e) | Ok sec => Ok sec end).

(** [None]: no such file; [Some None]: it cannot be read. *)
Definition ReadServiceAccountToken (file : option (option string)) : result string (option string) :=
  match file with
  | None => Ok None
  | Some None => Err "read service account token"
  | Some (Some b) => let tok := TrimSpace b in if String.eqb tok "" then Err "service account token is empty" else Ok (Some tok)
  end.

(** C32. What one process logs in with is what the next one has.  A login or
    renewal that worked leaves the token in use with the lifetime Vault gave,
    or an hour where it gave none, and a process that starts later, while it
    has not expired, has the same token, expiry and renewability, whatever its
    environment says; either calls it valid exactly while more than a minute is
    left.  Once it expired, and after a logout, the next process has the token
    VAULT_TOKEN names, none if that is not set, and does not call it valid;
    the process that logged out has none. *)
Theorem token_cache_roundtrip t stored c file sec c' file' :
  applyAuth t stored c file sec = (c', file', true) →
  (∃ s a, sec = Some s ∧ Auth s = Some a ∧ api_token c' = ClientToken a ∧ ClientToken a ≠ "" ∧ 0 < auth_ttl a ∧ tokenExp c' = t + auth_ttl a) ∧
  (∀ env now, now < tokenExp c' → New env now file' = c') ∧
  (∀ env now, tokenExp c' ≤ now → api_token (New env now file') = env ∧ HasValidToken now (New env now file') = false) ∧
  (∀ now, HasValidToken now c' = (now + 60 * Second <? tokenExp c')) ∧
  (∀ removed now, let '(c2, file2, ok) := Logout removed file' in api_token c2 = "" ∧ HasValidToken now c2 = false ∧
     (ok = true → ∀ env later, 0 ≤ later → api_token (New env later file2) = env ∧ HasValidToken later (New env later file2) = false)).
Proof.
  intros H. unfold applyAuth in H. destruct sec as [[x1 x2 x3 x4 [a|]]|]; [|done..]. destruct (String.eqb_spec (ClientToken a) "") as [|Ht]; [done|].
  unfold saveToken in H. injection H as <- <- ->. cbn [api_token tokenExp]. split_and!.
  - eexists _, a. split; [reflexivity|]. split_and!; [done..| |done]. unfold auth_ttl, fallbackAuthTokenTTL. destruct (Z.leb_spec (wrap64 (sa_LeaseDuration a * Second)) 0); [done|lia].
  - intros env now Hn. unfold New, loadToken. cbn [ct_Token Expires ct_Renewable]. unfold After. rewrite (proj2 (String.eqb_neq _ _) Ht), (proj2 (Z.ltb_lt _ _) Hn). done.
  - intros env now Hn. unfold New, loadToken, HasValidToken, newAPI. cbn [ct_Token Expires ct_Renewable api_token tokenExp]. unfold After.
    rewrite (proj2 (Z.ltb_ge _ _) Hn), andb_false_r. split; [done|]. unfold Add in *. apply andb_false_iff. right. apply Z.ltb_ge. change (60 * Second) with 60000000000. lia.
  - intros now. unfold HasValidToken, After. cbn [api_token tokenExp]. by rewrite (proj2 (String.eqb_neq _ _) Ht).
  - intros removed now. cbn. split_and!; [done..|]. intros -> env later Hl. split; [done|]. unfold HasValidToken, After, Add. cbn. apply andb_false_iff. right. apply Z.ltb_ge. change (60 * Second) with 60000000000. lia.
Qed.

Lemma token_cache_roundtrip_witness :
  let sec := Some {| LeaseID := ""; LeaseDuration := 0; sec_Renewable := false; Data := None; Auth := Some {| ClientToken := "tok"; sa_LeaseDuration := 7200; sa_Renewable := true |} |} in
  let '(c, file, ok) := applyAuth 1000 true no_token None sec in
  ok = true ∧ api_token (New "env" (1000 + Hour) file) = "tok" ∧ api_token (New "" (1000 + 2 * Hour) file) = "" ∧ api_token (New "env" (1000 + 2 * Hour) file) = "env".
Proof.
  cbn zeta. destruct (applyAuth 1000 true no_token None _) as [[c file] ok] eqn:E. assert (ok = true) as -> by (vm_compute in E; by injection E).
  destruct (token_cache_roundtrip _ _ _ _ _ _ _ E) as ((s & a & Hs & Ha & Hc & _ & _ & Hx) & Hl & He & _).
  injection Hs as <-. injection Ha as <-. split; [reflexivity|]. split.
  - rewrite Hl; [rewrite Hc; reflexivity|]. rewrite Hx. vm_compute. reflexivity.
  - split; apply He; rewrite Hx; vm_compute; discriminate.
Defined.
