(* ===== verification/KvSet.v ===== *)
(** [vctl kv set] (internal/cli/kv_set.go, with what kv.go shares): reading the
    assignments, and the edit of one secret under check-and-set.

    The writer works against [Kv2], what Vault documents of a versioned KV
    engine; other writers may act between any two requests. *)

From Stdlib Require Import Ascii String ZArith Lia.
From S2P Require Import Prelude GoStrings NodeProtocol VaultClient.
Open Scope Z_scope.

(** ** The command line *)

Definition normalizeKVPath (p : string) : string :=
  Join (filter (λ s, s ≠ "") (Split (TrimSpace p) "/")) "/".

Definition kvFieldName (s : string) : bool := negb (String.eqb s "") && string_all (in_set "_.-") s.

Record assignments := { a_sets : gmap string string; literal : bool; usedStdin : bool }.

Definition parse_assignment (stdin : option string) (file : string → option string) (acc : assignments) (arg : string) : result string assignments :=
  match Cut arg "=" with
  | None => Err (arg +:+ " is not key=value")
  | Some (k, v) =>
      if String.eqb k "" then Err (arg +:+ " is not key=value")
      else if negb (kvFieldName k) then Err (k +:+ " is not a field name (letters, digits, _ - .)")
      else if bool_decide (is_Some (a_sets acc !! k)) then Err ("field " +:+ k +:+ " is given twice")
      else
        let set value lit used := Ok {| a_sets := <[k := value]> (a_sets acc); literal := lit; usedStdin := used |} in
        if String.eqb v "-" then
          if usedStdin acc then Err ("stdin can feed one field, and " +:+ k +:+ " is the second")
          else match stdin with
          | None => Err ("read stdin for " +:+ k)
          | Some b => set (TrimSuffix b (String "010" "")) (literal acc) true
          end
        else if HasPrefix v "@" then
          match file (drop_bytes 1 v) with
          | None => Err ("read " +:+ drop_bytes 1 v +:+ " for " +:+ k)
          | Some b => set b (literal acc) (usedStdin acc)
          end
        else if HasPrefix v "\@" then set (drop_bytes 1 v) true (usedStdin acc)
        else set v true (usedStdin acc)
  end.

Fixpoint parse_assignments (stdin : option string) (file : string → option string) (acc : assignments) (args : list string) : result string assignments :=
  match args with [] => Ok acc | arg :: args' => acc' ← parse_assignment stdin file acc arg; parse_assignments stdin file acc' args' end.

Definition parseKVAssignments (args : list string) (stdin : option string) (file : string → option string) : result string (gmap string string * bool) :=
  acc ← parse_assignments stdin file {| a_sets := ∅; literal := false; usedStdin := false |} args; Ok (a_sets acc, literal acc).

(** ** The edit *)

Record kvSetResult := { rs_Version : Z; Created : bool; Set_ : list string; Removed : list string; Kept : Z }.

Definition kvSetResult_summary (r : kvSetResult) (path : string) : string :=
  let parts := (if bool_decide (Set_ r = []) then [] else ["set " +:+ Join (Set_ r) ", "]) ++
    (if bool_decide (Removed r = []) then [] else ["removed " +:+ Join (Removed r) ", "]) ++
    (if 0 <? Kept r then ["kept " +:+ Itoa (Kept r)] else []) in
  path +:+ " (" +:+ (if Created r then "new secret, " else "") +:+ "version " +:+ Itoa (rs_Version r) +:+ "): " +:+ Join parts " · ".

(** Removing fields one by one, and the names that were there. *)
Definition removing (data : gmap string string) (remove : list string) : gmap string string * list string :=
  foldl (λ '(d, gone) k, if bool_decide (is_Some (d !! k)) then (delete k d, gone ++ [k]) else (d, gone)) (data, []) remove.

Definition keys_sorted (m : gmap string string) : list string := sort_strings (map_to_list m).*1.

Section set.
Context (parse_time : string → option time_t) (sprint : json → string) (visit : gmap string string → list (string * string)).

Definition merged (data sets : gmap string string) : gmap string string := sets ∪ data.

(** The write of an attempt; [on_conflict]: what follows a secret that moved. *)
Definition kvSet_write (path : string) (data : gmap string string) (cas : Z) (res : kvSetResult) (on_conflict : prog (result vault_error kvSetResult))
    : prog (result vault_error kvSetResult) :=
  if bool_decide (data = ∅) then Ret (Err (VMsg (path +:+ " would be left with no fields")))
  else
    w ← WriteKV visit path data cas;
    match w with
    | Ok version => Ret (Ok {| rs_Version := version; Created := Created res; Set_ := Set_ res; Removed := Removed res; Kept := Kept res |})
    | Err (ErrKVConflict _) => on_conflict
    | Err e => Ret (Err e)
    end.

Definition kvSet_merge (path : string) (sets : gmap string string) (remove : list string) (on_conflict : prog (result vault_error kvSetResult))
    (current : gmap string string) (cas : Z) (created : bool) : prog (result vault_error kvSetResult) :=
  let '(data, removed) := removing current remove in
  kvSet_write path (merged data sets) cas
    {| rs_Version := 0; Created := created; Set_ := keys_sorted sets; Removed := removed; Kept := Z.of_nat (size (data ∖ sets)) |} on_conflict.

Definition kvSet_once (path : string) (sets : gmap string string) (remove : list string) (replace : bool) (on_conflict : prog (result vault_error kvSetResult))
    : prog (result vault_error kvSetResult) :=
  if replace then kvSet_write path sets (-1) {| rs_Version := 0; Created := false; Set_ := keys_sorted sets; Removed := []; Kept := 0 |} on_conflict
  else
    r ← ReadKVSecret parse_time sprint path 0;
    match r with
    | Ok cur => kvSet_merge path sets remove on_conflict (kv_Data cur) (kv_Version cur) false
    | Err (ErrKVNotFound _) => kvSet_merge path sets remove on_conflict ∅ 0 true
    | Err e => Ret (Err e)
    end.

(** The loop, with [n] more attempts to go after this one. *)
Fixpoint kvSet_go (n : nat) (path : string) (sets : gmap string string) (remove : list string) (replace : bool) : prog (result vault_error kvSetResult) :=
  kvSet_once path sets remove replace
    (match n with
     | S n' => if replace then Ret (Err (ErrKVConflict path)) else kvSet_go n' path sets remove replace
     | O => Ret (Err (ErrKVConflict path))
     end).

Definition attempts : nat := 3.

Definition kvSet := kvSet_go (attempts - 1).

(** [runKVSet] up to the login. *)
Definition runKVSet (arg : string) (args : list string) (remove : list string) (replace : bool) (stdin : option string) (file : string → option string)
    : result string (prog (result vault_error kvSetResult) * bool) :=
  let path := normalizeKVPath arg in
  if negb (Contains path "/") then Err "not a path; a write needs the full path"
  else
    '(sets, lit) ← parseKVAssignments args stdin file;
    if bool_decide (sets = ∅) && bool_decide (remove = []) then Err "nothing to write: give key=value pairs, or --rm keys"
    else if replace && negb (bool_decide (remove = [])) then Err "--rm has no meaning with --replace"
    else Ok (kvSet path sets remove replace, lit).
End set.

(** ** What Vault promises of a versioned secret *)

(** A version is its fields, or nothing once it is deleted. *)
Definition version_data (v : option object) : json := match v with Some o => JObj o | None => JNull end.
Definition version_fields (v : option object) : gmap string string := match v with Some o => string_fields o | None => ∅ end.

Definition as_object (visit : gmap string string → list (string * string)) (data : gmap string string) : object := prod_map id JStr <$> visit data.

Definition write_request (visit : gmap string string → list (string * string)) (path : string) (data : gmap string string) (cas : Z) : request :=
  WriteData (kvDataPath path) (Some ([("data", JObj (as_object visit data))] ++ (if 0 <=? cas then [("options", JObj [("cas", JNum (Itoa cas))])] else []))).

Definition read_request (path : string) : request := ReadData (kvDataPath path) [].

Definition refused (e : api_error) : bool := Contains (error_text e) "check-and-set parameter did not match".

(** [head s]: the number of the secret's newest version and what it holds, if
    there is a secret.  Older ones may be pruned, and anything may be written,
    deleted or brought back by others between two requests.  [accepted s]: the
    versions this client's own writes made so far.  The client is taken to send
    a request once: one it sends again after a lost answer could be refused
    because of its first copy. *)
Class Kv2 {S} (server : S → request → S * answer) (visit : gmap string string → list (string * string)) (path : string)
    (head : S → option (Z * option object)) (accepted : S → list (Z * object)) := {
  kv_reads : ∀ s s' a, server s (read_request path) = (s', a) → accepted s' = accepted s ∧ ((∃ e, a = Err e) ∨
    match head s' with
    | None => a = Ok None
    | Some (n, v) => ∃ sec meta, a = Ok (Some sec) ∧ Data sec = Some [("data", version_data v); ("metadata", JObj meta)] ∧
        0 < n ∧ jsonInt (field "version" meta) = n
    end);
  (** A write that says it worked made one version, the newest now; with a
      condition, the next after that number. *)
  kv_writes : ∀ s s' data cas sec, in_int64 cas → server s (write_request visit path data cas) = (s', Ok sec) →
    ∃ n o, accepted s' = accepted s ++ [(n, o)] ∧ head s' = Some (n, Some o) ∧ string_fields o = data ∧ other_fields o = [] ∧
      (0 ≤ cas → n = cas + 1) ∧ ∃ sc d, sec = Some sc ∧ Data sc = Some d ∧ jsonInt (field "version" d) = n;
  (** One that was refused made none; of one that failed otherwise it is not
      known. *)
  kv_fails : ∀ s s' data cas e, server s (write_request visit path data cas) = (s', Err e) →
    accepted s' = accepted s ∨ refused e = false ∧ ∃ n o, accepted s' = accepted s ++ [(n, o)] ∧ string_fields o = data;
}.

(** ** Lemmas *)

Definition number (h : option (Z * option object)) : Z := match h with Some (n, _) => n | None => 0 end.
Definition fields_of (h : option (Z * option object)) : gmap string string := match h with Some (_, v) => version_fields v | None => ∅ end.

Lemma removing_lookup remove data k : (removing data remove).1 !! k = if decide (k ∈ remove) then None else data !! k.
Proof.
  unfold removing.
  assert (∀ gone, (foldl (λ '(d, gone) k, if bool_decide (is_Some (d !! k)) then (delete k d, gone ++ [k]) else (d, gone)) (data, gone) remove).1 !! k =
    if decide (k ∈ remove) then None else data !! k) as H; [|apply H].
  induction remove as [|x remove IH] in data |- *; intros gone; cbn [foldl]; [by rewrite decide_False by set_solver|].
  assert ((if decide (k ∈ x :: remove) then None else data !! k) = if decide (k ∈ remove) then None else delete x data !! k) as ->.
  { destruct (decide (k = x)) as [->|Hne]; [rewrite decide_True, lookup_delete_eq by set_solver; by case_decide|].
    rewrite lookup_delete_ne by done. destruct (decide (k ∈ remove)); [by rewrite decide_True by set_solver|by rewrite decide_False by set_solver]. }
  destruct (data !! x) eqn:E.
  - rewrite bool_decide_true by eauto. by rewrite IH.
  - rewrite bool_decide_false by (by intros []). rewrite IH. by rewrite delete_id.
Qed.

Section editing.
Context (parse_time : string → option time_t) (sprint : json → string) (visit : gmap string string → list (string * string)).
Context {S : Type} (server : S → request → S * answer) (path : string) (head : S → option (Z * option object)) (accepted : S → list (Z * object))
  `{!Kv2 server visit path head accepted}.

(** The state some requests leave. *)
Definition after (s : S) (qs : list request) : S := foldl (λ s q, (server s q).1) s qs.

Lemma run_WriteKV data cas s : run server (WriteKV visit path data cas) s =
  let '(s', a) := server s (write_request visit path data cas) in
  (s', [write_request visit path data cas], match a with
        | Err e => Err (if Contains (error_text e) "check-and-set parameter did not match" then ErrKVConflict path else VApi ("write " +:+ path) e)
        | Ok (Some {| Data := Some data |}) => Ok (jsonInt (field "version" data))
        | Ok _ => Ok 0
        end).
Proof. unfold WriteKV. rewrite run_bind. cbn [ask run]. fold (as_object visit data). fold (write_request visit path data cas). by destruct (server _ _) as [s' a]. Qed.

Lemma jsonInt_range v : in_int64 (jsonInt v).
Proof.
  assert (in_int64 0) as H0 by (unfold in_int64, int64_min, int64_max; lia).
  destruct v as [[]|]; try exact H0. cbn [jsonInt]. unfold ParseInt10. destruct (strip_sign _) as [neg ds]. destruct (parse_digits ds); [|exact H0].
  unfold clamp_num. case_bool_decide; [done|apply clamp64_range].
Qed.

(** What a read finds. *)
Lemma run_ReadKVSecret s : ∃ s' r, run server (ReadKVSecret parse_time sprint path 0) s = (s', [read_request path], r) ∧ s' = (server s (read_request path)).1 ∧
  accepted s' = accepted s ∧
  match r with
  | Ok sec => head s' ≠ None ∧ kv_Data sec = fields_of (head s') ∧ kv_Version sec = number (head s') ∧ in_int64 (kv_Version sec) ∧ 0 < kv_Version sec
  | Err (ErrKVNotFound _) => head s' = None
  | Err (ErrKVConflict _) => False
  | Err _ => True
  end.
Proof.
  unfold ReadKVSecret. rewrite run_bind. cbn [ask run]. change (0 <? 0) with false. cbv iota. fold (read_request path).
  destruct (server s (read_request path)) as [s' a] eqn:E. eexists _, _. split; [reflexivity|]. split; [done|].
  destruct (kv_reads _ _ _ E) as [Ha [[e ->]|H]]; [done|]. split; [done|]. destruct (head s') as [[n v]|] eqn:Hl; [|by subst].
  destruct H as (sec & meta & -> & Hd & Hn & Hv). destruct sec as [x1 x2 x3 x4 x5]. cbn in Hd. subst x4.
  unfold parseKVSecret. cbn. split_and!; [done|by destruct v|done|apply jsonInt_range|]. by rewrite Hv.
Qed.

(** An attempt that worked: the last two requests are a read and the one write
    that was accepted, of the version after the one read. *)
Definition edited (s s' : S) (sets : gmap string string) (remove : list string) (qs : list request) (res : kvSetResult) : Prop :=
  ∃ qs0 o, let h := head (after s (qs0 ++ [read_request path])) in
    qs = qs0 ++ [read_request path; write_request visit path (string_fields o) (number h)] ∧
    accepted s' = accepted s ++ [(number h + 1, o)] ∧ head s' = Some (number h + 1, Some o) ∧ other_fields o = [] ∧
    string_fields o = merged (removing (fields_of h) remove).1 sets ∧ rs_Version res = number h + 1 ∧
    (Created res = true ↔ h = None) ∧ Set_ res = keys_sorted sets ∧ Removed res = (removing (fields_of h) remove).2.

(** One that did not: nothing was written, unless the answer to a write was
    lost. *)
Definition gave_up (s s' : S) (e : vault_error) : Prop :=
  accepted s' = accepted s ∨ ∃ err n o, e = VApi ("write " +:+ path) err ∧ accepted s' = accepted s ++ [(n, o)].

Definition ended (sets : gmap string string) (remove : list string) (s s' : S) (qs : list request) (r : result vault_error kvSetResult) : Prop :=
  match r with Ok res => edited s s' sets remove qs res | Err e => gave_up s s' e end.

Definition edits (m : nat) (sets : gmap string string) (remove : list string) (p : prog (result vault_error kvSetResult)) : Prop :=
  ∀ s s' qs r, run server p s = (s', qs, r) → (length qs ≤ m)%nat ∧ ended sets remove s s' qs r.

Lemma ended_later sets remove q1 s s1 s' qs r : after s q1 = s1 → accepted s1 = accepted s → ended sets remove s1 s' qs r → ended sets remove s s' (q1 ++ qs) r.
Proof.
  intros <- Ha. destruct r as [res|e]; cbn; [|unfold gave_up; by rewrite Ha].
  intros (qs0 & o & H). exists (q1 ++ qs0), o. cbv zeta in *.
  assert (after s ((q1 ++ qs0) ++ [read_request path]) = after (after s q1) (qs0 ++ [read_request path])) as -> by (unfold after; by rewrite !foldl_app).
  rewrite Ha in H. destruct_and! H. subst qs. split_and!; try done; [by rewrite <-app_assoc|naive_solver..].
Qed.

(** What follows a read that found [h]. *)
Lemma kvSet_merge_edits m sets remove on_conflict s0 : edits m sets remove on_conflict →
  let s := (server s0 (read_request path)).1 in
  accepted s = accepted s0 → in_int64 (number (head s)) → 0 ≤ number (head s) → ∀ s' qs r,
  run server (kvSet_merge visit path sets remove on_conflict (fields_of (head s)) (number (head s)) (bool_decide (head s = None))) s = (s', qs, r) →
  (length qs ≤ m + 1)%nat ∧ ended sets remove s0 s' (read_request path :: qs) r.
Proof.
  intros Hc s Ha Hi H0 s' qs r H. unfold kvSet_merge in H. destruct (removing (fields_of (head s)) remove) as [data removed] eqn:Erm.
  unfold kvSet_write in H. case_bool_decide; [injection H as <- <- <-; split; [cbn; lia|by left]|].
  rewrite run_bind, run_WriteKV in H. set (w := write_request visit path (merged data sets) (number (head s))) in *.
  destruct (server s w) as [s1 a] eqn:E. destruct a as [sec|e].
  - apply kv_writes in E as (n & o & Ha1 & Hh & Hf & Ho & Hn & sc & d & -> & Hd & Hv); [|done]. specialize (Hn H0). subst n.
    destruct sc as [x1 x2 x3 x4 x5]. cbn in Hd. subst x4. cbn in H. injection H as <- <- <-. split; [cbn; lia|].
    exists [], o. change (after s0 ([] ++ [read_request path])) with s. cbv zeta. rewrite Erm. rewrite Hf. split_and!; try done; [by rewrite Ha1, Ha|].
    cbn [Created]. apply bool_decide_eq_true.
  - pose proof (kv_fails _ _ _ _ _ E) as Hfail. unfold refused in Hfail. destruct (Contains _ _).
    + destruct Hfail as [Ha1|[Hbad _]]; [|done]. destruct (run server on_conflict s1) as [[s2 q2] r2] eqn:E2. cbn in H. injection H as <- <- <-.
      destruct (Hc _ _ _ _ E2) as [Hq Hr]. split; [cbn; lia|]. apply (ended_later _ _ [read_request path; w] s0 s1); [cbn; fold s; by rewrite E|by rewrite Ha1|done].
    + cbn in H. injection H as <- <- <-. split; [cbn; lia|]. destruct Hfail as [Ha1|[_ (n & o & Ha1 & _)]]; [left; by rewrite Ha1|right].
      eexists e, n, o. split; [done|]. by rewrite Ha1, Ha.
Qed.

Lemma kvSet_once_edits m sets remove on_conflict : edits m sets remove on_conflict →
  edits (m + 2) sets remove (kvSet_once parse_time sprint visit path sets remove false on_conflict).
Proof.
  intros Hc s s' qs r H. unfold kvSet_once in H. rewrite run_bind in H.
  destruct (run_ReadKVSecret s) as (s1 & rd & Hr & -> & Ha & Hrd). rewrite Hr in H. set (s1 := (server s (read_request path)).1) in *.
  assert (∀ s2 q2 r2, in_int64 (number (head s1)) → 0 ≤ number (head s1) →
    run server (kvSet_merge visit path sets remove on_conflict (fields_of (head s1)) (number (head s1)) (bool_decide (head s1 = None))) s1 = (s2, q2, r2) →
    (length (read_request path :: q2) ≤ m + 2)%nat ∧ ended sets remove s s2 (read_request path :: q2) r2) as Hm.
  { intros s2 q2 r2 Hi H0 E. apply (kvSet_merge_edits m) in E as [Hl He]; [|done..]. split; [cbn; lia|done]. }
  destruct rd as [cur|e].
  - destruct Hrd as (Hne & Hd & Hv & Hi & H0). rewrite Hv in Hi, H0. rewrite Hd, Hv, <-(bool_decide_eq_false_2 (head s1 = None)) in H by done.
    destruct (run server (kvSet_merge _ _ _ _ _ _ _ _) s1) as [[s2 q2] r2] eqn:E. injection H as <- <- <-. apply Hm; [done|lia|done].
  - destruct e; try (cbn in H; injection H as <- <- <-; split; [cbn; lia|by left]).
    assert (fields_of (head s1) = ∅ ∧ number (head s1) = 0 ∧ bool_decide (head s1 = None) = true) as (E1 & E2 & E3) by (by rewrite Hrd).
    rewrite <-E1, <-E2, <-E3 in H. destruct (run server (kvSet_merge _ _ _ _ _ _ _ _) s1) as [[s2 q2] r2] eqn:E. injection H as <- <- <-.
    apply Hm; [rewrite E2; unfold in_int64, int64_min, int64_max; lia|lia|done].
Qed.

Lemma kvSet_go_edits n sets remove : edits (2 * (n + 1)) sets remove (kvSet_go parse_time sprint visit n path sets remove false).
Proof.
  induction n as [|n IH]; cbn [kvSet_go]; intros s s' qs r H.
  - eapply (kvSet_once_edits 0) in H; [exact H|]. intros ? ? ? ? [= <- <- <-]. split; [cbn; lia|by left].
  - eapply (kvSet_once_edits (2 * (n + 1))) in H as (? & ?); [|exact IH]. split; [lia|done].
Qed.

(** C29. Two people editing one secret do not undo each other.  Whoever else
    writes in the meantime, an edit without --replace that says it worked made
    exactly one version: its last two requests are a read and the one write
    that Vault accepted, whose version is the next after the one read and the
    secret's newest.  In it the fields named are as given, those to be removed
    are gone, and every other string field is as that read found it; it reports
    that version's number, and that the secret is new exactly when the read
    found none.  An edit that fails made no version, or one when the answer to
    its write was lost.  It asks Vault six times at most. *)
Theorem kvSet_edits_one_version sets remove s s' qs r :
  run server (kvSet parse_time sprint visit path sets remove false) s = (s', qs, r) →
  (length qs ≤ 6)%nat ∧
  match r with
  | Ok res => ∃ qs0 o, let h := head (after s (qs0 ++ [read_request path])) in
      qs = qs0 ++ [read_request path; write_request visit path (string_fields o) (number h)] ∧
      accepted s' = accepted s ++ [(number h + 1, o)] ∧ head s' = Some (number h + 1, Some o) ∧ other_fields o = [] ∧
      (∀ k, string_fields o !! k = match sets !! k with Some v => Some v | None => if decide (k ∈ remove) then None else fields_of h !! k end) ∧
      rs_Version res = number h + 1 ∧ (Created res = true ↔ h = None)
  | Err e => accepted s' = accepted s ∨ ∃ err n o, e = VApi ("write " +:+ path) err ∧ accepted s' = accepted s ++ [(n, o)]
  end.
Proof.
  intros H. apply kvSet_go_edits in H as (Hl & H). split; [exact Hl|]. destruct r as [res|e]; [|exact H].
  destruct H as (qs0 & o & H). exists qs0, o. cbv zeta in *. destruct H as (? & ? & ? & ? & Hf & ? & ? & _). split_and!; try done.
  intros k. rewrite Hf. unfold merged. rewrite lookup_union, removing_lookup. set (x := if decide (k ∈ remove) then None else _). by destruct (sets !! k), x.
Qed.
End editing.

(** ** On a concrete server *)

Module Sample.
Definition path : string := "kv/teams/x".
Definition visit : gmap string string → list (string * string) := map_to_list.

(** The versions so far, what others write before each request to come, and
    what this client wrote. *)
Record state := { versions : list (option object); coming : list (list (option object)); mine : list (Z * object) }.
Definition others (s : state) : state :=
  match coming s with [] => s | vs :: rest => {| versions := versions s ++ vs; coming := rest; mine := mine s |} end.
Definition newest (s : state) : option (Z * option object) := (λ v, (Z.of_nat (length (versions s)), v)) <$> last (versions s).

Definition reply (data : object) : answer := Ok (Some {| LeaseID := ""; LeaseDuration := 0; sec_Renewable := false; Data := Some data; Auth := None |}).
Definition mismatch : answer := Err (ResponseError 400 "check-and-set parameter did not match the current version").
Definition number (n : nat) : json := JNum (Itoa (Z.of_nat n)).

Definition written (s : state) (o : object) : state :=
  {| versions := versions s ++ [Some o]; coming := coming s; mine := mine s ++ [(Z.of_nat (S (length (versions s))), o)] |}.

Definition server (s : state) (q : request) : state * answer :=
  let s := others s in
  let vs := versions s in
  if (1000 <=? length vs)%nat then (s, Err (Transport "full"))
  else match q with
  | ReadData _ _ =>
      (s, match last vs with None => Ok None | Some v => reply [("data", version_data v); ("metadata", JObj [("version", number (length vs))])] end)
  | WriteData _ (Some (("data", JObj o) :: opts)) =>
      let here := match opts with [("options", JObj [("cas", n)])] => Z.of_nat (length vs) =? jsonInt (Some n) | _ => true end in
      if here then (written s o, reply [("version", number (S (length vs)))]) else (s, mismatch)
  | _ => (s, Err (Transport "unsupported"))
  end.

Lemma strings_back (l : list (string * string)) :
  omap (λ kv : string * json, match kv.2 with JStr s => Some (kv.1, s) | _ => None end) (prod_map id JStr <$> l) = l ∧ 
  omap (λ kv : string * json, match kv.2 with JStr _ => None | _ => Some kv.1 end) (prod_map id JStr <$> l) = [].
Proof. induction l as [|[k v] l [IH1 IH2]]; [done|]. cbn. by rewrite IH1, IH2. Qed.

Lemma number_back n : (n ≤ Z.to_nat 2000)%nat → jsonInt (Some (number n)) = Z.of_nat n.
Proof. intros H. cbn [number jsonInt]. rewrite ParseInt10_Itoa; [done|]. unfold in_int64, int64_min, int64_max. lia. Qed.

Lemma others_mine s : mine (others s) = mine s.
Proof. unfold others. by destruct (coming s). Qed.

#[export] Instance server_kv2 : Kv2 server visit path newest mine.
Proof.
  constructor.
  - intros s s' a H. unfold server, read_request in H. cbv zeta in H. pose proof (others_mine s) as Hm. destruct (Nat.leb_spec 1000 (length (versions (others s)))) as [|Hn];
      [injection H as <- <-; split; [done|left; eauto]|].
    injection H as <- <-. split; [done|right]. unfold newest. destruct (last (versions (others s))) as [v|] eqn:Hl; [|done]. eexists _, _. split_and!; [reflexivity..| |].
    + destruct (versions (others s)); [done|cbn; lia].
    + change (field "version" _) with (Some (number (length (versions (others s))))). apply number_back. lia.
  - intros s s' data cas sec Hi H. unfold server, write_request in H. cbv zeta in H. pose proof (others_mine s) as Hm. set (s1 := others s) in *.
    destruct (Nat.leb_spec 1000 (length (versions s1))) as [|Hn]; [done|]. pose proof (strings_back (visit data)) as [Hs1 Hs2].
    assert (string_fields (as_object visit data) = data ∧ other_fields (as_object visit data) = []) as [Hf Ho].
    { unfold string_fields, other_fields, as_object. rewrite Hs1, Hs2. split; [apply list_to_map_to_list|done]. }
    assert (∀ x, x = Z.of_nat (length (versions s1)) → x = cas ∨ cas < 0 → (written s1 (as_object visit data), reply [("version", number (S (length (versions s1))))]) = (s', Ok sec) →
      ∃ n o, mine s' = mine s ++ [(n, o)] ∧ newest s' = Some (n, Some o) ∧ string_fields o = data ∧ other_fields o = [] ∧ (0 ≤ cas → n = cas + 1) ∧
        ∃ sc d, sec = Some sc ∧ Data sc = Some d ∧ jsonInt (field "version" d) = n) as Hw.
    { intros x Ex Hx [= <- <-]. exists (Z.of_nat (S (length (versions s1)))), (as_object visit data). cbn [mine written]. rewrite Hm. split_and!; try done; [|lia|].
      - unfold newest. cbn [versions written]. rewrite last_snoc, length_app. cbn. do 2 f_equal. lia.
      - eexists _, _. split_and!; [done..|]. change (field "version" _) with (Some (number (S (length (versions s1))))). apply number_back. lia. }
    destruct (Z.leb_spec 0 cas) as [Hc|Hc]; cbn [app] in H; [|by eapply Hw; [|right|]].
    change (jsonInt (Some (JNum (Itoa cas)))) with (ParseInt10 (Itoa cas)).1 in H.
    destruct (Z.eqb_spec (Z.of_nat (length (versions s1))) (ParseInt10 (Itoa cas)).1) as [E|]; [|done]. rewrite ParseInt10_Itoa in E by done. by eapply Hw; [|left|].
  - intros s s' data cas e H. left. unfold server, write_request in H. cbv zeta in H. pose proof (others_mine s) as Hm. set (s1 := others s) in *.
    destruct (Nat.leb _ _); [by injection H as <- _|]. set (opts := if 0 <=? cas then _ else _) in H.
    repeat (match type of H with context [match ?x with _ => _ end] => destruct x end; try (by injection H as <- <-)); done.
Qed.

(** Someone else writes between the first read and the first write. *)
Definition at_ (vs : list (option object)) (soon : list (list (option object))) : state := {| versions := vs; coming := soon; mine := [] |}.
Definition contended : state := at_ [Some [("user", JStr "a"); ("note", JStr "n")]] [[]; [Some [("user", JStr "b")]]].
Definition edit (s : state) := run server (kvSet (λ _, None) (λ _, "") visit path {["host" := "h"]} ["note"] false) s.

Example contended_edit : let '(s', qs, r) := edit contended in
  (length qs, rs_Version <$> (match r with Ok x => Some x | _ => None end), map_to_list (fields_of (newest s')), (mine s').*1) =
  (4%nat, Some 3, map_to_list ({["host" := "h"; "user" := "b"]} : gmap string string), [3]).
Proof. vm_compute. reflexivity. Qed.

Lemma kvSet_edits_one_version_witness : ∃ o, mine (edit contended).1.1 = [(3, o)] ∧ newest (edit contended).1.1 = Some (3, Some o).
Proof.
  destruct (kvSet_edits_one_version (λ _, None) (λ _, "") visit server path newest mine {["host" := "h"]} ["note"] contended (edit contended).1.1 (edit contended).1.2 (edit contended).2)
    as (_ & H).
  - unfold edit. by destruct (run _ _ _) as [[]].
  - destruct (edit contended).2 as [res|] eqn:E; [|vm_compute in E; discriminate E].
    destruct H as (qs0 & o & _ & Ha & Hh & _ & _ & Hn & _). exists o.
    assert (rs_Version res = 3) as E3 by (vm_compute in E; by injection E as <-). rewrite Hn in E3. rewrite E3 in Ha, Hh. by split.
Defined.

(** A version deleted between the read and the write is still the one the
    condition asks for, so what it held comes back. *)
Definition deleted_meanwhile (s : state) (q : request) : state * answer :=
  match q with WriteData _ _ => server {| versions := [None]; coming := []; mine := mine s |} q | _ => server s q end.

Example a_deletion_is_undone :
  let '(s', _, r) := run deleted_meanwhile (kvSet (λ _, None) (λ _, "") visit path {["host" := "h"]} [] false) (at_ [Some [("user", JStr "a")]] []) in
  (is_ok r, map_to_list (fields_of (newest s'))) = (true, map_to_list ({["host" := "h"; "user" := "a"]} : gmap string string)).
Proof. vm_compute. reflexivity. Qed.

(** A field that is not a string is not kept. *)
Lemma an_edit_drops_numbers : let '(s', _, r) := edit (at_ [Some [("user", JStr "a"); ("port", JNum "5432")]] []) in
  is_ok r = true ∧ match last (versions s') with Some (Some o) => field "port" o = None ∧ field "user" o = Some (JStr "a") | _ => False end.
Proof. vm_compute. done. Qed.

Example assignments_read :
  ((λ r, (map_to_list r.1, r.2)) <$> match parseKVAssignments ["a=1"; "b=-"; "c=@f"; "d=\@x"] (Some ("in" +:+ String "010" "")) (λ _, Some "file") with Ok r => Some r | _ => None end,
   is_ok (parseKVAssignments ["a=-"; "b=-"] (Some "") (λ _, None)), is_ok (parseKVAssignments ["a=1"; "a=2"] None (λ _, None)), normalizeKVPath " /kv//x/ ") =
  (Some (map_to_list ({["a" := "1"; "b" := "in"; "c" := "file"; "d" := "@x"]} : gmap string string), true), false, false, "kv/x").
Proof. vm_compute. reflexivity. Qed.
End Sample.
