(* ===== verification/KvRedact.v ===== *)
(** The output filter of [vctl kv exec] (internal/cli/kv_redact.go): the needles
    made of the values a command was given, and the writer that replaces them in
    a stream that arrives in pieces. *)

From Stdlib Require Import Ascii String ZArith Lia.
From S2P Require Import Prelude GoStrings GoURL GoBase64.
Open Scope Z_scope.

Local Notation bytes := (list ascii).

Definition to_bytes (s : string) : bytes := list_ascii_of_string s.

(** ** Spellings of a value *)

Definition std_alphabet (v : Z) : ascii := if v =? 62 then "+"%char else if v =? 63 then "/"%char else alphabet v.
Definition padding (s : string) : string :=
  match (String.length s mod 3)%nat with 1%nat => "==" | 2%nat => "=" | _ => "" end.
Definition RawStdEncoding (s : string) : string := string_of_list_ascii (std_alphabet <$> sextets s).
Definition StdEncoding (s : string) : string := RawStdEncoding s +:+ padding s.
Definition URLEncoding (s : string) : string := EncodeToString s +:+ padding s.

Definition redactedForms (v : string) : list string :=
  [v; QueryEscape v] ++ mjoin ((λ raw, [StdEncoding raw; RawStdEncoding raw; URLEncoding raw; EncodeToString raw]) <$> [v; v +:+ String "010" ""]).

(** ** Needles *)

Record kvNeedle := { n_bytes : bytes; n_key : string }.

Definition kvMaskMin : nat := 4.

(** The forms of one value, each once. *)
Definition distinct (forms : list string) : list string :=
  foldl (λ seen f, if bool_decide (f ∈ seen) then seen else seen ++ [f]) [] forms.

Definition needles_of (kv : string * string) : list kvNeedle :=
  if (String.length kv.2 <? kvMaskMin)%nat then [] else (λ f, {| n_bytes := to_bytes f; n_key := kv.1 |}) <$> distinct (redactedForms kv.2).

Definition longer (a b : kvNeedle) : bool := (length (n_bytes b) <? length (n_bytes a))%nat.

(** [values]: the values in the order the runtime visits them. *)
Definition newKVRedactor (values : list (string * string)) : list kvNeedle := sort longer (values ≫= needles_of).

(** ** Replacing *)

Definition marker (key : string) : bytes := "["%char :: to_bytes ("REDACTED:" +:+ key) ++ ["]"%char].

Definition starts (n s : bytes) : bool := bool_decide (n `prefix_of` s).

(** [bytes.ReplaceAll] and [bytes.Count] of a needle that is not empty, with
    [skip] bytes of the last match still to pass over. *)
Fixpoint replace_go (n r : bytes) (skip : nat) (s : bytes) : bytes :=
  match s with
  | [] => []
  | c :: s' =>
      match skip with
      | S k => replace_go n r k s'
      | O => if starts n s then r ++ replace_go n r (length n - 1) s' else c :: replace_go n r 0 s'
      end
  end.
Definition ReplaceAll (s n r : bytes) : bytes := replace_go n r 0 s.

Fixpoint count_go (n : bytes) (skip : nat) (s : bytes) : Z :=
  match s with
  | [] => 0
  | _ :: s' =>
      match skip with
      | S k => count_go n k s'
      | O => if starts n s then 1 + count_go n (length n - 1) s' else count_go n 0 s'
      end
  end.
Definition Count (s n : bytes) : Z := count_go n 0 s.

Definition hits_t : Type := string → Z.
Definition add_hits (h : hits_t) (key : string) (c : Z) : hits_t := λ k, if String.eqb k key then h k + c else h k.

Definition redact_one (acc : bytes * hits_t) (n : kvNeedle) : bytes * hits_t :=
  let c := Count acc.1 (n_bytes n) in
  if 0 <? c then (ReplaceAll acc.1 (n_bytes n) (marker (n_key n)), add_hits acc.2 (n_key n) c) else acc.

Definition redact (needles : list kvNeedle) (buf : bytes) (h : hits_t) : bytes * hits_t := foldl redact_one (buf, h) needles.

(** ** Holding back *)

Definition ends_with (buf p : bytes) : bool := bool_decide (p `suffix_of` buf).

(** The inner loop, from [l] down to [hold] and no further. *)
Fixpoint held_of (n buf : bytes) (hold l : nat) : nat :=
  if (l <=? hold)%nat then hold
  else match l with
  | O => hold
  | S l' => if ends_with buf (take l n) then l else held_of n buf hold l'
  end.

Definition holdback (needles : list kvNeedle) (buf : bytes) : nat :=
  foldl (λ hold n, held_of (n_bytes n) buf hold (Nat.min (length (n_bytes n) - 1) (length buf))) 0%nat needles.

(** ** The writer *)

Record maskWriter := { tail_ : bytes; written : bytes; w_hits : hits_t }.

Definition fresh : maskWriter := {| tail_ := []; written := []; w_hits := λ _, 0 |}.

(** [ok]: whether the writer below takes it. *)
Definition Write (needles : list kvNeedle) (ok : bool) (mw : maskWriter) (p : bytes) : maskWriter * bool :=
  let buf := tail_ mw ++ p in
  let cut := (length buf - holdback needles buf)%nat in
  let '(out, h) := redact needles (take cut buf) (w_hits mw) in
  if ok then ({| tail_ := drop cut buf; written := written mw ++ out; w_hits := h |}, true)
  else ({| tail_ := tail_ mw; written := written mw; w_hits := h |}, false).

Definition Flush (needles : list kvNeedle) (ok : bool) (mw : maskWriter) : maskWriter * bool :=
  if bool_decide (tail_ mw = []) then (mw, true)
  else
    let '(out, h) := redact needles (tail_ mw) (w_hits mw) in
    ({| tail_ := []; written := if ok then written mw ++ out else written mw; w_hits := h |}, ok).

(** A whole stream, in whatever pieces. *)
Definition masked (needles : list kvNeedle) (pieces : list bytes) : maskWriter :=
  (Flush needles true (foldl (λ mw p, (Write needles true mw p).1) fresh pieces)).1.

Definition total (keys : list string) (h : hits_t) : Z := foldl (λ n k, n + h k) 0 keys.

(** [keys]: the fields something was masked of. *)
Definition report (keys : list string) (h : hits_t) : string :=
  Join ((λ k, k +:+ " ×" +:+ Itoa (h k)) <$> sort_strings keys) ", ".

(** A secret whose end could be the start of another spelling is printed as it
    is when a write ends with it: here the one with the same first and last
    letter. *)
Lemma a_secret_at_the_end_leaks : let needles := newKVRedactor [("password", "secrets")] in
  written (masked needles [to_bytes "secrets"]) = to_bytes "secrets" ∧
  written (masked needles [to_bytes ("secrets" +:+ String "010" "")]) = to_bytes ("[REDACTED:password]" +:+ String "010" "") ∧
  (redact needles (to_bytes "secrets") (λ _, 0)).1 = to_bytes "[REDACTED:password]".
Proof. vm_compute. done. Qed.

(** ** Replacing one needle *)

Definition bracket_free (x : bytes) : Prop := "["%char ∉ x ∧ "]"%char ∉ x.

Lemma bracket_free_app x y : bracket_free (x ++ y) ↔ bracket_free x ∧ bracket_free y.
Proof. unfold bracket_free. set_solver. Qed.

Section one.
Context (n mid : bytes).
Hypothesis nonempty : n ≠ [].
Local Notation r := ("["%char :: mid ++ ["]"%char]).
Local Notation R := (replace_go n r 0).

Lemma replace_go_skip k : ∀ s, replace_go n r k s = R (drop k s).
Proof. induction k as [|k IH]; intros [|c s]; try done. cbn [replace_go drop]. apply IH. Qed.

Lemma R_hit t : R (n ++ t) = r ++ R t.
Proof.
  assert (∃ c n', n = c :: n') as (c & n' & E) by (destruct n as [|c n']; [done|by exists c, n']).
  assert (n ++ t = c :: n' ++ t) as Et by (by rewrite E). rewrite Et. cbn [replace_go]. unfold starts. rewrite bool_decide_true by (rewrite <-Et; by exists t).
  rewrite replace_go_skip. f_equal. f_equal. rewrite E. cbn [length Nat.sub]. by rewrite ?Nat.sub_0_r, drop_app_length.
Qed.

Lemma R_miss c t : ¬ n `prefix_of` c :: t → R (c :: t) = c :: R t.
Proof. intros H. cbn [replace_go]. unfold starts. by rewrite bool_decide_false. Qed.

(** Walking a text the way the replacement does. *)
Lemma R_ind (P : bytes → Prop) : P [] → (∀ t, P t → P (n ++ t)) → (∀ c t, ¬ n `prefix_of` c :: t → P t → P (c :: t)) → ∀ s, P s.
Proof.
  intros H0 Hh Hm s. remember (length s) as l eqn:El. revert s El. induction l as [l IH] using lt_wf_ind. intros s ->.
  destruct (decide (n `prefix_of` s)) as [[t ->]|Hn].
  - apply Hh. eapply IH; [|done]. rewrite length_app. destruct n; [done|cbn; lia].
  - destruct s as [|c t]; [done|]. apply Hm; [done|]. eapply IH; [|done]. cbn. lia.
Qed.

Lemma count_go_skip k : ∀ s, count_go n k s = count_go n 0 (drop k s).
Proof. induction k as [|k IH]; intros [|c s]; try done. cbn [count_go drop]. apply IH. Qed.

Lemma count_hit t : Count (n ++ t) n = 1 + Count t n.
Proof.
  unfold Count. assert (∃ c n', n = c :: n') as (c & n' & E) by (destruct n as [|c n']; [done|by exists c, n']).
  assert (n ++ t = c :: n' ++ t) as Et by (by rewrite E). rewrite Et. cbn [count_go]. unfold starts. rewrite bool_decide_true by (rewrite <-Et; by exists t).
  rewrite count_go_skip. f_equal. f_equal. rewrite E. cbn [length Nat.sub]. by rewrite ?Nat.sub_0_r, drop_app_length.
Qed.

Lemma count_miss c t : ¬ n `prefix_of` c :: t → Count (c :: t) n = Count t n.
Proof. intros H. unfold Count. cbn [count_go]. unfold starts. by rewrite bool_decide_false. Qed.

Lemma count_nonneg s : 0 ≤ Count s n.
Proof. induction s as [|t IH|c t Hn IH] using R_ind; [done|rewrite count_hit; lia|by rewrite count_miss]. Qed.

Lemma count_zero s : Count s n = 0 → R s = s.
Proof.
  induction s as [|t IH|c t Hn IH] using R_ind; [done| |].
  - rewrite count_hit. pose proof (count_nonneg t). lia.
  - rewrite count_miss, R_miss by done. intros H. by rewrite IH.
Qed.

(** A needle that lies across the border of two texts. *)
Definition straddles (a b : bytes) : Prop := ∃ x y, x ≠ [] ∧ y ≠ [] ∧ n = x ++ y ∧ x `suffix_of` a ∧ y `prefix_of` b.

Lemma straddles_app_l a a' b : straddles a b → straddles (a' ++ a) b.
Proof. intros (x & y & ? & ? & ? & ? & ?). exists x, y. split_and!; [done..|by apply suffix_app_r|done]. Qed.

Lemma R_app b a : ¬ straddles a b → R (a ++ b) = R a ++ R b ∧ Count (a ++ b) n = Count a n + Count b n.
Proof.
  induction a as [|t IH|c t Hn IH] using R_ind; intros Hs; [done| |].
  - rewrite <-app_assoc, !R_hit, !count_hit. destruct IH as [-> ->]; [|split; [by rewrite <-app_assoc|lia]].
    intros H. apply Hs. by apply straddles_app_l.
  - assert (¬ n `prefix_of` c :: t ++ b) as Hn'.
    { intros [u Hu]. change (c :: t ++ b) with ((c :: t) ++ b) in Hu. apply app_eq_inv in Hu as [(k & Hk & _)|(k & Hk & Hb)].
      - apply Hn. by exists k.
      - destruct k as [|x k]; [apply Hn; exists []; by rewrite app_nil_r in *|].
        apply Hs. exists (c :: t), (x :: k). split_and!; [done..|by exists u]. }
    change ((c :: t) ++ b) with (c :: t ++ b). rewrite !R_miss, !count_miss by done. destruct IH as [-> ->]; [|done].
    intros H. apply Hs. by apply (straddles_app_l t [c]).
Qed.

(** What a text without brackets sees of a replaced one. *)
Lemma suffix_app_split (x l1 l2 : bytes) c : x `suffix_of` l1 ++ [c] ++ l2 → c ∉ x → x `suffix_of` l2.
Proof.
  intros [k Hk] Hc. rewrite app_assoc in Hk. apply app_eq_inv in Hk as [(u & Hu & Hx)|(u & Hu & Hx)]; [|by exists u].
  destruct u as [|d u _] using rev_ind; [by exists []; rewrite Hx|]. exfalso. rewrite app_assoc in Hu. apply app_inj_tail in Hu as [_ ->]. set_solver.
Qed.

Lemma prefix_cons_bracket (x l : bytes) c : x `prefix_of` c :: l → c ∉ x → x = [].
Proof. destruct x as [|d x]; [done|]. intros ->%prefix_cons_inv_1. set_solver. Qed.

Lemma R_id s : bracket_free (R s) → R s = s.
Proof.
  induction s as [|t IH|c t Hn IH] using R_ind; [done| |].
  - rewrite R_hit. intros [H _]. set_solver.
  - rewrite R_miss by done. intros H. rewrite IH; [done|]. unfold bracket_free in *. set_solver.
Qed.

Lemma suffix_R x s : bracket_free x → x `suffix_of` R s → x `suffix_of` s.
Proof.
  intros Hx. induction s as [|t IH|c t Hn IH] using R_ind; [done| |].
  - rewrite R_hit. change (r ++ R t) with (("["%char :: mid ++ ["]"%char]) ++ R t). intros H. apply suffix_app_r, IH.
    eapply (suffix_app_split x ("["%char :: mid)); [|apply Hx]. by rewrite app_assoc.
  - rewrite R_miss by done. intros [k Hk]. destruct k as [|d k].
    + cbn in Hk. subst x. exists []. cbn. f_equal. symmetry. apply R_id. unfold bracket_free in *. set_solver.
    + injection Hk as -> Hk. apply suffix_cons_r, IH. by exists k.
Qed.

Lemma prefix_R y s : bracket_free y → y `prefix_of` R s → y `prefix_of` s.
Proof.
  revert y. induction s as [|t IH|c t Hn IH] using R_ind; [done| |]; intros y Hy.
  - rewrite R_hit. intros H. apply prefix_cons_bracket in H as ->; [apply prefix_nil|apply Hy].
  - rewrite R_miss by done. destruct y as [|d y]; [intros _; apply prefix_nil|]. intros H. pose proof (prefix_cons_inv_1 _ _ _ _ H) as ->.
    apply prefix_cons_inv_2 in H. apply prefix_cons, IH; [|done]. unfold bracket_free in *. set_solver.
Qed.

Definition infix (x s : bytes) : Prop := ∃ u v, s = u ++ x ++ v.

Lemma infix_cons x c s : infix x (c :: s) → x `prefix_of` c :: s ∨ infix x s.
Proof. intros ([|d u] & v & H); [left; by exists v|]. right. injection H as _ H. by exists u, v. Qed.

Lemma infix_app_split x c (l1 l2 : bytes) : infix x (l1 ++ c :: l2) → c ∉ x → infix x l1 ∨ infix x l2.
Proof.
  intros H Hc. induction l1 as [|d l1 IH]; cbn [app] in H.
  - apply infix_cons in H as [H|H]; [|by right]. apply prefix_cons_bracket in H as ->; [|done]. left. by exists [], [].
  - apply infix_cons in H as [[v H]|H].
    + left. change (d :: l1 ++ c :: l2) with ((d :: l1) ++ c :: l2) in H. apply app_eq_inv in H as [(k & Hk & _)|(k & Hk & Hc')].
      * exists [], k. done.
      * destruct k as [|e k]; [exists [], []; by rewrite !app_nil_r in *|]. injection Hc' as -> _. set_solver.
    + destruct (IH H) as [(u & v & ->)|]; [left; by exists (d :: u), v|by right].
Qed.

Lemma infix_R x s : bracket_free x → infix x (R s) → infix x s ∨ infix x mid.
Proof.
  intros Hx. induction s as [|t IH|c t Hn IH] using R_ind; [by left| |].
  - rewrite R_hit. intros H. change (r ++ R t) with ([] ++ "["%char :: ((mid ++ ["]"%char]) ++ R t)) in H.
    apply infix_app_split in H as [H|H]; [| |apply Hx]. 
    + destruct H as (u & v & H). destruct u, x, v; try done. left. by exists [], (n ++ t).
    + rewrite <-app_assoc in H. apply infix_app_split in H as [H|H]; [by right| |apply Hx]. destruct (IH H) as [(u & v & ->)|]; [left; exists (n ++ u), v; by rewrite <-app_assoc|by right].
  - rewrite R_miss by done. intros [H|H]%infix_cons.
    + rewrite <-R_miss in H by done. apply prefix_R in H as [v ->]; [|done]. left. by exists [], v.
    + destruct (IH H) as [(u & v & ->)|]; [left; by exists (c :: u), v|by right].
Qed.

Lemma no_needle_left s : bracket_free n → infix n (R s) → infix n mid.
Proof.
  intros Hx. induction s as [|t IH|c t Hn IH] using R_ind.
  - intros (u & v & H). exfalso. by destruct u, n, v.
  - rewrite R_hit. intros H. change (r ++ R t) with ([] ++ "["%char :: ((mid ++ ["]"%char]) ++ R t)) in H.
    apply infix_app_split in H as [H|H]; [| |apply Hx].
    + destruct H as (u & v & H). exfalso. by destruct u, n, v.
    + rewrite <-app_assoc in H. apply infix_app_split in H as [H|H]; [done|by apply IH|apply Hx].
  - rewrite R_miss by done. intros [H|H]%infix_cons; [|by apply IH]. rewrite <-R_miss in H by done. by apply prefix_R in H.
Qed.
End one.

(** ** Replacing all of them *)

Definition replace_needle (s : bytes) (n : kvNeedle) : bytes := ReplaceAll s (n_bytes n) (marker (n_key n)).
Definition text (N : list kvNeedle) (s : bytes) : bytes := foldl replace_needle s N.
Fixpoint counted (N : list kvNeedle) (s : bytes) (k : string) : Z :=
  match N with [] => 0 | n :: N' => (if String.eqb k (n_key n) then Count s (n_bytes n) else 0) + counted N' (replace_needle s n) k end.

Definition proper (N : list kvNeedle) : Prop := ∀ n, n ∈ N → n_bytes n ≠ [] ∧ bracket_free (n_bytes n).

(** No end of a spelling is the beginning of another, or of itself. *)
Definition separate (N : list kvNeedle) : Prop := ∀ n m x y z, n ∈ N → m ∈ N → x ≠ [] → y ≠ [] → z ≠ [] →
  n_bytes n = x ++ y → n_bytes m ≠ y ++ z.

(** No spelling occurs in what stands for one. *)
Definition clean (N : list kvNeedle) : Prop := ∀ n m, n ∈ N → m ∈ N → ¬ infix (n_bytes n) (to_bytes ("REDACTED:" +:+ n_key m)).

Definition uncrossed (N : list kvNeedle) (a b : bytes) : Prop := ∀ n, n ∈ N → ¬ straddles (n_bytes n) a b.

Lemma redact_spec N : proper N → ∀ s h, (redact N s h).1 = text N s ∧ ∀ k, (redact N s h).2 k = h k + counted N s k.
Proof.
  unfold redact. induction N as [|n N IH]; intros Hp s h; cbn [foldl text counted]; [split; [done|intros; cbn; lia]|].
  destruct (Hp n) as [Hn _]; [by left|]. specialize (IH (λ m Hm, Hp m (list_elem_of_further _ _ _ Hm))).
  pose proof (count_nonneg (n_bytes n) Hn s) as Hc. unfold redact_one at 2 4. cbn [fst snd]. destruct (Z.ltb_spec 0 (Count s (n_bytes n))) as [H0|H0].
  - destruct (IH (ReplaceAll s (n_bytes n) (marker (n_key n))) (add_hits h (n_key n) (Count s (n_bytes n)))) as [-> Hh]. split; [done|].
    intros k. rewrite Hh. unfold add_hits, replace_needle. destruct (String.eqb k (n_key n)); lia.
  - destruct (IH s h) as [-> Hh]. assert (replace_needle s n = s) as E by (unfold replace_needle, ReplaceAll, marker; apply count_zero; [done|lia]).
    rewrite E. split; [done|]. intros k. rewrite Hh. destruct (String.eqb k (n_key n)); lia.
Qed.

Lemma uncrossed_replaced n N a b : n_bytes n ≠ [] → (∀ m, m ∈ N → bracket_free (n_bytes m)) → uncrossed N a b →
  uncrossed N (replace_needle a n) (replace_needle b n).
Proof.
  intros Hn Hb H m Hm (x & y & Hx & Hy & E & Hs & Hp). pose proof (Hb m Hm) as Hf. rewrite E, bracket_free_app in Hf.
  apply (H m Hm). exists x, y. split_and!; [done..| |].
  - exact (suffix_R (n_bytes n) _ Hn x a (proj1 Hf) Hs).
  - exact (prefix_R (n_bytes n) _ Hn y b (proj2 Hf) Hp).
Qed.

Lemma text_app N : proper N → ∀ a b, uncrossed N a b → text N (a ++ b) = text N a ++ text N b ∧ ∀ k, counted N (a ++ b) k = counted N a k + counted N b k.
Proof.
  induction N as [|n N IH]; intros Hp a b Hu; cbn [text foldl counted]; [done|].
  destruct (Hp n) as [Hn _]; [by left|].
  destruct (R_app (n_bytes n) (to_bytes ("REDACTED:" +:+ n_key n)) Hn b a) as [Ha Hc]; [apply Hu; by left|].
  assert (replace_needle (a ++ b) n = replace_needle a n ++ replace_needle b n) as -> by exact Ha.
  destruct (IH (λ m Hm, Hp m (list_elem_of_further _ _ _ Hm)) (replace_needle a n) (replace_needle b n)) as [IHa IHb].
  { apply uncrossed_replaced; [done|intros m Hm; apply Hp; by right|]. intros m Hm. apply Hu. by right. }
  split; [exact IHa|]. intros k. rewrite IHb, Hc. destruct (String.eqb k (n_key n)); lia.
Qed.

Lemma infix_text N m : bracket_free (n_bytes m) → (∀ n, n ∈ N → n_bytes n ≠ []) → (∀ n, n ∈ N → ¬ infix (n_bytes m) (to_bytes ("REDACTED:" +:+ n_key n))) →
  ∀ s, ¬ infix (n_bytes m) s → ¬ infix (n_bytes m) (text N s).
Proof.
  intros Hb. induction N as [|n N IH]; intros Hn Hc s Hs; [done|]. cbn [text foldl]. apply IH; [intros; apply Hn; by right|intros; apply Hc; by right|].
  intros H. apply (infix_R (n_bytes n) _ (Hn n ltac:(left)) _ _ Hb) in H as [H|H]; [done|]. by apply (Hc n ltac:(left)).
Qed.

Lemma text_hides N : proper N → clean N → ∀ s m, m ∈ N → ¬ infix (n_bytes m) (text N s).
Proof.
  intros Hp Hc s m Hm. apply list_elem_of_split in Hm as (N1 & N2 & ->). unfold text. rewrite foldl_app. cbn [foldl]. apply infix_text.
  - apply Hp. set_solver.
  - intros n Hn. apply Hp. set_solver.
  - intros n Hn. apply Hc; set_solver.
  - destruct (Hp m) as [Hn Hb]; [set_solver|]. intros H. apply (no_needle_left (n_bytes m) _ Hn) in H; [|done]. revert H. apply Hc; set_solver.
Qed.

(** ** What is held back *)

Lemma held_of_spec n buf hold l : let res := held_of n buf hold l in
  (hold ≤ res)%nat ∧ (res = hold ∨ (res ≤ l)%nat ∧ take res n `suffix_of` buf) ∧ ∀ j, (j ≤ l)%nat → take j n `suffix_of` buf → (j ≤ res)%nat.
Proof.
  induction l as [|l IH]; cbn [held_of]; cbv zeta; [destruct (0 <=? hold)%nat; split_and!; [lia|by left|lia|lia|by left|lia]|].
  destruct (Nat.leb_spec (S l) hold) as [Hl|Hl]; [split_and!; [lia|by left|lia]|].
  unfold ends_with. case_bool_decide as Hs; [split_and!; [lia|by right|lia]|].
  destruct IH as (H1 & H2 & H3). split_and!; [done|destruct H2 as [|[? ?]]; [by left|right; split; [lia|done]]|].
  intros j Hj Hsuf. destruct (decide (j = S l)) as [->|]; [done|]. apply H3; [lia|done].
Qed.

Lemma holdback_spec N buf : let k := holdback N buf in
  (k = 0%nat ∨ ∃ m, m ∈ N ∧ (k < length (n_bytes m))%nat ∧ take k (n_bytes m) `suffix_of` buf) ∧
  ∀ m l, m ∈ N → (l < length (n_bytes m))%nat → take l (n_bytes m) `suffix_of` buf → (l ≤ k)%nat.
Proof.
  unfold holdback. cbv zeta. induction N as [|n N IH] using rev_ind; [split; [by left|intros m l H; by apply not_elem_of_nil in H]|].
  rewrite foldl_app. cbn [foldl]. destruct IH as [H1 H2]. set (k := foldl _ 0%nat N) in *.
  destruct (held_of_spec (n_bytes n) buf k (Nat.min (length (n_bytes n) - 1) (length buf))) as (Ha & Hb & Hc). set (k' := held_of _ _ _ _) in *. split.
  - destruct Hb as [->|[Hle Hs]].
    + destruct H1 as [|(m & ? & ? & ?)]; [by left|]. right. exists m. split_and!; [set_solver|done..].
    + destruct (decide (k' = 0%nat)); [by left|]. right. exists n. split_and!; [set_solver|lia|done].
  - intros m l [Hm| ->%list_elem_of_singleton]%elem_of_app Hl Hs; [specialize (H2 m l Hm Hl Hs); lia|].
    apply Hc; [|done]. assert (length (take l (n_bytes n)) = l) as El by (rewrite length_take; lia). apply suffix_length in Hs. lia.
Qed.

(** Where the writer cuts, no spelling is cut, now or later. *)
Lemma cut_uncrossed N buf b : separate N → let cut := (length buf - holdback N buf)%nat in uncrossed N (take cut buf) (drop cut buf ++ b).
Proof.
  intros Hsep cut n Hn (x & y & Hx & Hy & E & [u Hu] & [v Hv]). destruct (holdback_spec N buf) as [H1 H2]. cbv zeta in H1, H2.
  assert (holdback N buf ≤ length buf)%nat as Hk.
  { destruct H1 as [-> |(m & _ & Hlt & Hs%suffix_length)]; [lia|]. rewrite length_take in Hs. lia. }
  assert (length (drop cut buf) = holdback N buf) as Hlen by (rewrite length_drop; unfold cut; lia).
  assert (∀ z, drop cut buf = y ++ z → False) as Hshort.
  { intros z Hz. destruct H1 as [H0|(m & Hm & Hlt & [w Hw])].
    - rewrite H0, Hz, length_app in Hlen. destruct y; [done|cbn in Hlen; lia].
    - assert (drop cut buf = take (holdback N buf) (n_bytes m)) as Et.
      { assert (cut = length w) as -> by (pose proof (f_equal length Hw) as Hl; rewrite length_app, length_take in Hl; unfold cut; lia).
        rewrite Hw at 1. apply drop_app_length. }
      assert (n_bytes m = y ++ z ++ drop (holdback N buf) (n_bytes m)) as Em.
      { rewrite app_assoc, <-Hz, Et. by rewrite take_drop. }
      apply (Hsep n m x y (z ++ drop (holdback N buf) (n_bytes m)) Hn Hm Hx Hy); [|done|done].
      intros Hnil%app_nil. destruct Hnil as [_ Hd%(f_equal length)]. rewrite length_drop in Hd. cbn in Hd. lia. }
  apply app_eq_inv in Hv as [(z & Hz & _)|(y' & Hy' & _)]; [by eapply Hshort|].
  destruct y' as [|c y']; [apply (Hshort []); by rewrite !app_nil_r in *|].
  assert (take (length x + holdback N buf) (n_bytes n) = x ++ drop cut buf) as Et.
  { rewrite E, Hy', app_assoc, <-Hlen, <-length_app. apply take_app_length. }
  assert (length x + holdback N buf ≤ holdback N buf)%nat as Hle.
  { apply (H2 n); [done| |].
    - rewrite E, Hy', !length_app, Hlen. cbn [length]. lia.
    - rewrite Et. exists u. rewrite app_assoc, <-Hu. by rewrite take_drop. }
  destruct x; [done|cbn in Hle; lia].
Qed.

(** ** The writer *)

(** The stream so far: what has been cut off, and what is held. *)
Definition tracks (N : list kvNeedle) (mw : maskWriter) (stream : bytes) : Prop := ∃ past,
  stream = past ++ tail_ mw ∧ written mw = text N past ∧ (∀ k, w_hits mw k = counted N past k) ∧ ∀ b, uncrossed N past (tail_ mw ++ b).

Lemma Write_tracks N mw stream p : proper N → separate N → tracks N mw stream → tracks N (Write N true mw p).1 (stream ++ p).
Proof.
  intros Hp Hsep (past & -> & Hw & Hh & Hu). unfold Write. set (buf := tail_ mw ++ p). set (cut := (length buf - holdback N buf)%nat).
  destruct (redact_spec N Hp (take cut buf) (w_hits mw)) as [Ht Hc]. destruct (redact N (take cut buf) (w_hits mw)) as [out h]. cbn [fst snd] in Ht, Hc. subst out.
  cbn [fst]. exists (past ++ take cut buf). cbn [tail_ written w_hits].
  assert (uncrossed N past (take cut buf)) as Hb.
  { intros n Hn (x & y & Hx & Hy & E & Hs & Hpre). apply (Hu p n Hn). exists x, y. split_and!; [done..|]. fold buf. rewrite <-(take_drop cut buf). by apply prefix_app_r. }
  destruct (text_app N Hp _ _ Hb) as [Hta Htc]. split_and!.
  - rewrite <-!app_assoc, take_drop. done.
  - by rewrite Hw, Hta.
  - intros k. by rewrite Hc, Hh, Htc.
  - intros b n Hn (x & y & Hx & Hy & E & [u Hs] & Hpre). apply app_eq_inv in Hs as [(x' & Ha & Hx')|(x' & Hu' & Ha)].
    + destruct x' as [|c x'].
      * eapply (cut_uncrossed N buf b Hsep n Hn). exists x, y. split_and!; [done..| |exact Hpre]. exists []. cbn in Hx'. symmetry. exact Hx'.
      * apply (Hu (p ++ b) n Hn). exists (c :: x'), (take cut buf ++ y). split_and!; [done| | |by exists u|].
        { intros [_ ?]%app_nil. done. }
        { by rewrite E, Hx', <-app_assoc. }
        { rewrite app_assoc. fold buf. rewrite <-(take_drop cut buf) at 2. rewrite <-app_assoc. by apply prefix_app. }
    + eapply (cut_uncrossed N buf b Hsep n Hn). exists x, y. split_and!; [done..| |exact Hpre]. by exists x'.
Qed.

Lemma Flush_tracks N mw stream : proper N → tracks N mw stream →
  let mw' := (Flush N true mw).1 in written mw' = text N stream ∧ tail_ mw' = [] ∧ ∀ k, w_hits mw' k = counted N stream k.
Proof.
  intros Hp (past & -> & Hw & Hh & Hu). unfold Flush. case_bool_decide as E; cbn [fst].
  - rewrite E, app_nil_r. done.
  - destruct (redact_spec N Hp (tail_ mw) (w_hits mw)) as [Ht Hc]. destruct (redact N (tail_ mw) (w_hits mw)) as [out h]. cbn [fst snd written tail_ w_hits] in *. subst out.
    destruct (text_app N Hp past (tail_ mw)) as [Hta Htc]; [specialize (Hu []); by rewrite app_nil_r in Hu|].
    split_and!; [by rewrite Hw, Hta|done|]. intros k. by rewrite Hc, Hh, Htc.
Qed.

Lemma masked_text N pieces : proper N → separate N →
  written (masked N pieces) = text N (mjoin pieces) ∧ tail_ (masked N pieces) = [] ∧ ∀ k, w_hits (masked N pieces) k = counted N (mjoin pieces) k.
Proof.
  intros Hp Hs. unfold masked. apply Flush_tracks; [done|].
  assert (∀ mw stream, tracks N mw stream → tracks N (foldl (λ mw p, (Write N true mw p).1) mw pieces) (stream ++ mjoin pieces)) as H.
  { induction pieces as [|p pieces IH]; intros mw stream Ht; cbn [foldl mjoin list_join]; [by rewrite app_nil_r|].
    rewrite app_assoc. apply IH. by apply Write_tracks. }
  apply (H fresh []). exists []. split_and!; [done| |intros k|].
  - cbn. clear. induction N as [|n N IH]; [done|]. exact IH.
  - cbn. clear. induction N as [|n N IH]; cbn [counted]; [done|]. cbn. rewrite <-IH. by destruct (String.eqb k (n_key n)).
  - intros b n Hn (x & y & Hx & _ & _ & [u Hu] & _). by destruct u, x.
Qed.

(** C30. The filter does not depend on how the output arrives.  For spellings
    without a square bracket, of which none ends with the beginning of another or
    its own, however a command's output is cut into pieces, what comes out is
    what replacing the spellings in the whole output gives, with the same counts,
    nothing is kept back at the end, and, where no spelling is part of a marker,
    none of them is left in it. *)
Theorem masking_is_seamless N pieces : proper N → separate N →
  let whole := redact N (mjoin pieces) (λ _, 0) in
  written (masked N pieces) = whole.1 ∧ tail_ (masked N pieces) = [] ∧ (∀ k, w_hits (masked N pieces) k = whole.2 k) ∧
  (clean N → ∀ n, n ∈ N → ¬ infix (n_bytes n) (written (masked N pieces))).
Proof.
  intros Hp Hs. destruct (masked_text N pieces Hp Hs) as (Hw & Ht & Hh). destruct (redact_spec N Hp (mjoin pieces) (λ _, 0)) as [Hr Hc]. cbv zeta. split_and!.
  - by rewrite Hr.
  - done.
  - intros k. by rewrite Hh, Hc.
  - intros Hcl n Hn. rewrite Hw. by apply text_hides.
Qed.

(** ** Checking the conditions on given values *)

Fixpoint infix_b (x s : bytes) : bool := starts x s || match s with [] => false | _ :: s' => infix_b x s' end.

Lemma infix_b_complete x s : infix x s → infix_b x s = true.
Proof.
  intros (u & v & ->). induction u as [|c u IH]; cbn [app].
  - destruct (x ++ v) eqn:E; cbn [infix_b]; unfold starts; rewrite bool_decide_true; [done|by exists v|done|by exists v].
  - cbn [infix_b]. rewrite IH. apply orb_true_r.
Qed.

Definition separate_b (N : list kvNeedle) : bool :=
  forallb (λ n, forallb (λ m, forallb (λ k, negb (starts (drop k (n_bytes n)) (n_bytes m) && (length (n_bytes n) - k <? length (n_bytes m))%nat))
    (seq 1 (length (n_bytes n) - 1))) N) N.

Lemma separate_b_sound N : separate_b N = true → separate N.
Proof.
  intros H n m x y z Hn Hm Hx Hy Hz En Em. unfold separate_b in H. rewrite forallb_forall in H. specialize (H n (proj1 (list_elem_of_In _ _) Hn)).
  rewrite forallb_forall in H. specialize (H m (proj1 (list_elem_of_In _ _) Hm)). rewrite forallb_forall in H.
  assert (0 < length x ∧ 0 < length y ∧ 0 < length z)%nat as (Hlx & Hly & Hlz) by (destruct x, y, z; cbn; try done; lia).
  specialize (H (length x)). rewrite En, Em, drop_app_length in H. unfold starts in H. rewrite bool_decide_true in H by (by exists z).
  rewrite !length_app in H. rewrite (proj2 (Nat.ltb_lt _ _)) in H by lia. apply (negb_true_iff true) in H; [done|]. apply in_seq. lia.
Qed.

Definition proper_b (N : list kvNeedle) : bool :=
  forallb (λ n, negb (bool_decide (n_bytes n = [])) && negb (bool_decide ("["%char ∈ n_bytes n)) && negb (bool_decide ("]"%char ∈ n_bytes n))) N.
Lemma proper_b_sound N : proper_b N = true → proper N.
Proof.
  intros H n Hn. unfold proper_b in H. rewrite forallb_forall in H. specialize (H n (proj1 (list_elem_of_In _ _) Hn)). bool_simpl. done.
Qed.

Definition clean_b (N : list kvNeedle) : bool := forallb (λ n, forallb (λ m, negb (infix_b (n_bytes n) (to_bytes ("REDACTED:" +:+ n_key m)))) N) N.
Lemma clean_b_sound N : clean_b N = true → clean N.
Proof.
  intros H n m Hn Hm Hi%infix_b_complete. unfold clean_b in H. rewrite forallb_forall in H. specialize (H n (proj1 (list_elem_of_In _ _) Hn)).
  rewrite forallb_forall in H. specialize (H m (proj1 (list_elem_of_In _ _) Hm)). by rewrite Hi in H.
Qed.

Module Sample.
Definition needles : list kvNeedle := newKVRedactor [("password", "hunter2!"); ("pin", "123")].
Definition pieces : list bytes := to_bytes <$> ["login hun"; "ter2! and aHVudG"; "VyMiE= "; "hunter2"; "!"].

Lemma masking_is_seamless_witness : written (masked needles pieces) = to_bytes "login [REDACTED:password] and [REDACTED:password] [REDACTED:password]" ∧
  w_hits (masked needles pieces) "password" = 3 ∧ ∀ n, n ∈ needles → ¬ infix (n_bytes n) (written (masked needles pieces)).
Proof.
  destruct (masking_is_seamless needles pieces) as (Hw & _ & Hh & Hc).
  - apply proper_b_sound. vm_compute. reflexivity.
  - apply separate_b_sound. vm_compute. reflexivity.
  - split; [rewrite Hw; vm_compute; reflexivity|]. split; [rewrite Hh; vm_compute; reflexivity|].
    apply Hc. apply clean_b_sound. vm_compute. reflexivity.
Defined.

(** With a bracket in a spelling it does depend on it: the end of a marker and
    what follows can spell a value, which only the whole output shows. *)
Example a_bracket_meets_a_marker : let N := newKVRedactor [("k", "abcde"); ("j", "k]zz")] in
  separate_b N = true ∧ written (masked N (to_bytes <$> ["abcde"; "zz"])) = to_bytes "[REDACTED:k]zz" ∧
  (redact N (to_bytes "abcdezz") (λ _, 0)).1 = to_bytes "[REDACTED:[REDACTED:j]".
Proof. vm_compute. by split_and!. Qed.
End Sample.
