(* ===== verification/KvTree.v ===== *)
(** Finding a secret (internal/cli/kv_search.go, kv_resolve.go, kv.go,
    kv_get.go): the walk over the tree of folders, the search, and a word made
    into a path. *)

From Stdlib Require Import Ascii String ZArith Lia.
From stdpp Require Import sorting.
From S2P Require Import Prelude GoStrings VaultClient KvSet.
Open Scope Z_scope.

(** ** The walk *)

Record kvWalk := { Secrets : list string; Denied : list string; Folders : Z; Capped : bool }.

(** The walk in progress: what it has, the entries seen, and the next level. *)
Record walking := { w_Secrets : list string; w_Denied : list string; w_Folders : Z; w_Capped : bool; seen : nat; next : list string }.

Definition kvWalkLimit : nat := Z.to_nat 20000.

Definition is_folder (k : string) : bool := HasSuffix k "/".
Definition child (dir k : string) : string := dir +:+ "/" +:+ TrimSuffix k "/".

Fixpoint take_keys (limit : nat) (dir : string) (keys : list string) (w : walking) : walking :=
  match keys with
  | [] => w
  | k :: keys' =>
      if (seen w =? limit)%nat then
        {| w_Secrets := w_Secrets w; w_Denied := w_Denied w; w_Folders := w_Folders w; w_Capped := true; seen := seen w; next := next w |}
      else
        take_keys limit dir keys'
          {| w_Secrets := if is_folder k then w_Secrets w else w_Secrets w ++ [child dir k]; w_Denied := w_Denied w; w_Folders := w_Folders w;
             w_Capped := w_Capped w; seen := S (seen w); next := if is_folder k then next w ++ [child dir k] else next w |}
  end.

(** One folder's answer; [root]: it is the root's. *)
Definition take_answer (limit : nat) (root : bool) (dir : string) (r : result vault_error (list string)) (w : walking) : result vault_error walking :=
  match r with
  | Ok keys =>
      Ok (take_keys limit dir keys
            {| w_Secrets := w_Secrets w; w_Denied := w_Denied w; w_Folders := w_Folders w + 1; w_Capped := w_Capped w; seen := seen w; next := next w |})
  | Err e =>
      if IsPermissionDenied e then
        Ok {| w_Secrets := w_Secrets w; w_Denied := w_Denied w ++ [dir]; w_Folders := w_Folders w; w_Capped := w_Capped w; seen := seen w; next := next w |}
      else match e with
      | ErrKVNotFound _ => if root then Err e else Ok w
      | _ => Err e
      end
  end.

Fixpoint take_level (limit : nat) (root : bool) (answers : list (string * result vault_error (list string))) (w : walking) : result vault_error walking :=
  match answers with
  | [] => Ok w
  | (dir, r) :: answers' =>
      w' ← take_answer limit root dir r w;
      if w_Capped w' then Ok w' else take_level limit root answers' w'
  end.

Definition finished (w : walking) : kvWalk :=
  {| Secrets := sort_strings (w_Secrets w); Denied := sort_strings (w_Denied w); Folders := w_Folders w; Capped := w_Capped w |}.

(** [list depth dir]: the answer for a folder of that level; [None]: out of
    fuel. *)
Fixpoint walk_from (fuel : nat) (list_ : nat → string → result vault_error (list string)) (limit depth : nat) (frontier : list string) (w : walking)
    : option (result vault_error kvWalk) :=
  if bool_decide (frontier = []) || w_Capped w then Some (Ok (finished w))
  else match fuel with
  | O => None
  | S fuel' =>
      match take_level limit (depth =? 0)%nat ((λ d, (d, list_ depth d)) <$> frontier)
              {| w_Secrets := w_Secrets w; w_Denied := w_Denied w; w_Folders := w_Folders w; w_Capped := w_Capped w; seen := seen w; next := [] |} with
      | Err e => Some (Err e)
      | Ok w' => walk_from fuel' list_ limit (S depth) (next w') w'
      end
  end.

Definition empty_walk : walking := {| w_Secrets := []; w_Denied := []; w_Folders := 0; w_Capped := false; seen := 0; next := [] |}.

(** A level per entry seen is more than there can be. *)
Definition walkKV (list_ : nat → string → result vault_error (list string)) (root : string) (limit : nat) : option (result vault_error kvWalk) :=
  walk_from (limit + 1) list_ limit 0 [root] empty_walk.

(** ** Words *)

Definition matchesAllFold (s : string) (terms : list string) : bool := forallb (λ t, Contains (ToLower s) (ToLower t)) terms.

Definition lastSegment (p : string) : string := List.last (Split p "/") "".

Definition matchKVWord (secrets : list string) (query : string) : list string * list string :=
  let cands := filter (λ p, matchesAllFold p (Fields query) = true) secrets in
  (cands, filter (λ p, EqualFold (lastSegment p) query = true) cands).

Definition search (walk : kvWalk) (terms : list string) : list string := filter (λ p, matchesAllFold p terms = true) (Secrets walk).

Inductive choice :=
| Path (p : string)
| Pick (candidates : list string)             (* the picker decides *)
| Refused (why : string).

(** [walk]: the answer of the walk, made only when it is needed. *)
Definition resolveKVPath (terminal : bool) (walk : result vault_error kvWalk) (args : list string) : choice :=
  let query := match args with [a] => normalizeKVPath a | _ => "" end in
  if Contains query "/" then Path query
  else if String.eqb query "" && negb terminal then Refused "a secret path is required when there is no terminal to pick at"
  else match walk with
  | Err _ => Refused "the walk failed"
  | Ok w =>
      if String.eqb query "" then if bool_decide (Secrets w = []) then Refused "nothing to choose from" else Pick (Secrets w)
      else
        let '(cands, exact) := matchKVWord (Secrets w) query in
        match exact, cands with
        | [p], _ => Path p
        | _, [] => Refused "no secret matches"
        | _, [p] => Path p
        | _, _ => if terminal then Pick cands else Refused "several secrets match and there is no terminal to pick at"
        end
  end.

Definition kvPickGroup (path root : string) : string :=
  match Split (TrimPrefix (TrimPrefix path root) "/") "/" with
  | a :: b :: _ :: _ => a +:+ "/" +:+ b
  | [a; _] => a
  | _ => ""
  end.

(** The mount of the farm credentials' prefix; [None]: no configuration. *)
Definition kvRoot (farmPrefix : option string) : string :=
  match farmPrefix with
  | Some p => let mount := match Cut (Trim p "/") "/" with Some (m, _) => m | None => Trim p "/" end in if String.eqb mount "" then "kv" else mount
  | None => "kv"
  end.

Definition kvError (e : vault_error) (path : string) : string :=
  match e with
  | ErrKVNotFound _ => "nothing at " +:+ path
  | _ => if IsPermissionDenied e then path +:+ ": permission denied" else "error"
  end.

Definition fetchKVSecret (parse_time : string → option time_t) (sprint : json → string) (path : string) (version : Z) : prog (result string KVSecret) :=
  r ← ReadKVSecret parse_time sprint path version;
  match r with
  | Ok sec => Ret (Ok sec)
  | Err (ErrKVNotFound p) =>
      if version =? 0 then
        l ← ListKV path;
        Ret (Err match l with Ok (_ :: _) => path +:+ " is a folder, not a secret" | _ => kvError (ErrKVNotFound p) path end)
      else Ret (Err (kvError (ErrKVNotFound p) path))
  | Err e => Ret (Err (kvError e path))
  end.

(** What [kv get] hands to a structured output: the values only when asked. *)
Record kvGetOutput := {
  go_Path : string; go_Version : Z; go_CreatedAt : option time_t; go_DeletedAt : option time_t; go_Destroyed : bool; go_Keys : list string;
  NonStringKeys : list string; go_Data : option (gmap string string); go_CustomMetadata : list (string * string);
}.

Definition optionalTime (t : time_t) : option time_t := if IsZero t then None else Some t.

Definition newKVGetOutput (sec : KVSecret) (reveal : bool) : kvGetOutput :=
  {| go_Path := kv_Path sec; go_Version := kv_Version sec; go_CreatedAt := optionalTime (CreatedAt sec); go_DeletedAt := optionalTime (DeletedAt sec);
     go_Destroyed := Destroyed sec; go_Keys := keys_sorted (kv_Data sec); NonStringKeys := NonString sec;
     go_Data := if reveal then Some (kv_Data sec) else None; go_CustomMetadata := CustomMetadata sec |}.

(** ** The walk ends *)

Lemma take_keys_grows limit dir keys : ∀ w, (seen w ≤ limit)%nat → let w' := take_keys limit dir keys w in
  (seen w ≤ seen w' ≤ limit)%nat ∧ (length (next w') + seen w ≤ length (next w) + seen w')%nat ∧
  (length (w_Secrets w') + seen w ≤ length (w_Secrets w) + seen w')%nat.
Proof.
  induction keys as [|k keys IH]; intros w Hw; cbn [take_keys]; cbv zeta; [lia|].
  destruct (Nat.eqb_spec (seen w) limit); [cbn; lia|].
  match goal with |- context [take_keys limit dir keys ?x] => specialize (IH x) end. cbn [seen next w_Secrets] in IH. destruct IH as (? & ? & ?); [lia|].
  destruct (is_folder k); rewrite ?length_app in *; cbn [length] in *; lia.
Qed.

Lemma take_answer_grows limit root dir r w w' : (seen w ≤ limit)%nat → take_answer limit root dir r w = Ok w' →
  (seen w ≤ seen w' ≤ limit)%nat ∧ (length (next w') + seen w ≤ length (next w) + seen w')%nat ∧
  (length (w_Secrets w') + seen w ≤ length (w_Secrets w) + seen w')%nat.
Proof.
  intros Hw H. unfold take_answer in H. destruct r as [keys|e].
  - injection H as <-. match goal with |- context [take_keys _ _ _ ?x] => pose proof (take_keys_grows limit dir keys x) as Hg end. cbn [seen next w_Secrets] in Hg. specialize (Hg Hw). lia.
  - destruct (IsPermissionDenied e); [injection H as <-; cbn; lia|]. destruct e; try done. destruct root; [done|]. injection H as <-. lia.
Qed.

Lemma take_level_grows limit root answers : ∀ w w', (seen w ≤ limit)%nat → take_level limit root answers w = Ok w' →
  (seen w ≤ seen w' ≤ limit)%nat ∧ (length (next w') + seen w ≤ length (next w) + seen w')%nat ∧
  (length (w_Secrets w') + seen w ≤ length (w_Secrets w) + seen w')%nat.
Proof.
  induction answers as [|[dir r] answers IH]; intros w w' Hw H; cbn [take_level] in H; [injection H as <-; lia|].
  apply bind_Ok in H as (w1 & H1 & H). apply take_answer_grows in H1 as (? & ? & ?); [|done]. destruct (w_Capped w1); [injection H as <-; lia|].
  apply IH in H as (? & ? & ?); lia.
Qed.

Lemma walk_ends list_ limit fuel : ∀ depth frontier w, (seen w ≤ limit)%nat → (limit - seen w + (if bool_decide (frontier = []) then 0 else 1) ≤ fuel)%nat →
  is_Some (walk_from fuel list_ limit depth frontier w).
Proof.
  induction fuel as [|fuel IH]; intros depth frontier w Hw Hf; cbn [walk_from].
  - case_bool_decide; [by eexists|]. lia.
  - case_bool_decide as Hfr; [by eexists|]. destruct (w_Capped w); [by eexists|]. cbn [orb].
    destruct (take_level _ _ _ _) as [w'|e] eqn:E; [|by eexists]. apply take_level_grows in E as (? & Hn & _); [|done]. cbn [seen next length] in *.
    apply IH; [lia|]. case_bool_decide as Hn'; [lia|]. destruct (next w'); [done|]. cbn [length] in Hn. lia.
Qed.

(** ** The tree, level by level *)

Section tree.
Context (tree : string → result vault_error (list string)) (root : string).

Definition secrets_of (d : string) : list string :=
  match tree d with Ok keys => child d <$> filter (λ k, is_folder k = false) keys | Err _ => [] end.
Definition folders_of (d : string) : list string :=
  match tree d with Ok keys => child d <$> filter (λ k, is_folder k = true) keys | Err _ => [] end.
Definition denied (d : string) : bool := match tree d with Err e => IsPermissionDenied e | Ok _ => false end.

Fixpoint level (n : nat) : list string := match n with O => [root] | S n' => level n' ≫= folders_of end.

Definition holds_secret (s : string) : Prop := ∃ n d, d ∈ level n ∧ s ∈ secrets_of d.

Lemma take_keys_exact limit dir keys : ∀ w, let w' := take_keys limit dir keys w in
  w_Denied w' = w_Denied w ∧ w_Folders w' = w_Folders w ∧
  (∃ ss, w_Secrets w' = w_Secrets w ++ ss ∧ ss `prefix_of` (child dir <$> filter (λ k, is_folder k = false) keys) ∧
    (w_Capped w' = false → w_Capped w = false ∧ ss = child dir <$> filter (λ k, is_folder k = false) keys)) ∧
  (∃ fs, next w' = next w ++ fs ∧ (w_Capped w' = false → fs = child dir <$> filter (λ k, is_folder k = true) keys)).
Proof.
  induction keys as [|k keys IH]; intros w; cbn [take_keys]; cbv zeta.
  - split_and!; [done..|exists []; rewrite app_nil_r; done|exists []; by rewrite app_nil_r].
  - destruct (Nat.eqb (seen w) limit).
    { split_and!; [done..| |].
      - exists []. rewrite app_nil_r. split_and!; [done|apply prefix_nil|done].
      - exists []. rewrite app_nil_r. done. }
    match goal with |- context [take_keys limit dir keys ?x] => destruct (IH x) as (-> & -> & (ss & -> & Hp & Hs) & (fs & -> & Hf)) end. cbn [w_Denied w_Folders w_Secrets next w_Capped] in *.
    split_and!; [done..| |].
    + destruct (is_folder k) eqn:Ek.
      * exists ss. rewrite filter_cons_False by (by rewrite Ek). done.
      * exists (child dir k :: ss). rewrite filter_cons_True by done. rewrite <-app_assoc. split_and!; [done|by apply prefix_cons|].
        intros H. destruct (Hs H) as [? ->]. done.
    + destruct (is_folder k) eqn:Ek.
      * exists (child dir k :: fs). rewrite filter_cons_True by done. rewrite <-app_assoc. split; [done|]. intros H. by rewrite (Hf H).
      * exists fs. rewrite filter_cons_False by (by rewrite Ek). done.
Qed.

(** What a level adds, and all of it when the limit did not cut in. *)
Definition adds (dirs : list string) (w w' : walking) : Prop :=
  (∃ ss, w_Secrets w' = w_Secrets w ++ ss ∧ ss ⊆ dirs ≫= secrets_of ∧ (w_Capped w' = false → w_Capped w = false ∧ ss = dirs ≫= secrets_of)) ∧
  (∃ ds, w_Denied w' = w_Denied w ++ ds ∧ ds ⊆ filter (λ d, denied d = true) dirs ∧ (w_Capped w' = false → ds = filter (λ d, denied d = true) dirs)) ∧
  (∃ fs, next w' = next w ++ fs ∧ (w_Capped w' = false → fs = dirs ≫= folders_of)).

Lemma take_answer_adds limit at_root d w w' : take_answer limit at_root d (tree d) w = Ok w' → adds [d] w w'.
Proof.
  unfold take_answer, adds. intros H. destruct (tree d) as [keys|e] eqn:Et.
  - injection H as <-. assert (denied d = false) as Hd by (unfold denied; by rewrite Et).
    match goal with |- context [take_keys limit d keys ?x] => destruct (take_keys_exact limit d keys x) as (Hde & _ & (ss & Hs & Hp & Hc) & (fs & Hf & Hfc)) end.
    cbn [w_Denied w_Secrets next w_Capped] in *. cbn [mbind list_bind]. rewrite !app_nil_r. unfold secrets_of, folders_of. rewrite Et. split_and!.
    + exists ss. split_and!; [done| |done]. destruct Hp as [k ->]. set_solver.
    + exists []. rewrite app_nil_r, filter_cons_False by (by rewrite Hd). done.
    + exists fs. done.
  - assert (secrets_of d = [] ∧ folders_of d = []) as [Hs Hf] by (unfold secrets_of, folders_of; by rewrite Et).
    cbn [mbind list_bind]. rewrite Hs, Hf. cbn [app].
    destruct (IsPermissionDenied e) eqn:Ep.
    + assert (denied d = true) as Hd by (unfold denied; by rewrite Et). injection H as <-. cbn [w_Denied w_Secrets next w_Capped].
      split_and!; [exists []; by rewrite app_nil_r|exists [d]; by rewrite filter_cons_True|exists []; by rewrite app_nil_r].
    + assert (denied d = false) as Hd by (unfold denied; by rewrite Et).
      assert (w' = w) as -> by (destruct e; try done; destruct at_root; [done|by injection H]).
      split_and!; [exists []; by rewrite app_nil_r|exists []; rewrite app_nil_r, filter_cons_False by (by rewrite Hd); done|exists []; by rewrite app_nil_r].
Qed.

Lemma adds_app d dirs w w1 w' : w_Capped w1 = false → adds [d] w w1 → adds dirs w1 w' → adds (d :: dirs) w w'.
Proof.
  intros Hc ((s1 & Es1 & Hs1 & Cs1) & (d1 & Ed1 & Hd1 & Cd1) & (f1 & Ef1 & Cf1)) ((s2 & Es2 & Hs2 & Cs2) & (d2 & Ed2 & Hd2 & Cd2) & (f2 & Ef2 & Cf2)).
  destruct (Cs1 Hc) as [Hw ->]. rewrite (Cd1 Hc) in Ed1. rewrite (Cf1 Hc) in Ef1. cbn [mbind list_bind] in Es1, Ef1. rewrite app_nil_r in Es1, Ef1.
  unfold adds. cbn [mbind list_bind]. split_and!.
  - exists (secrets_of d ++ s2). rewrite Es2, Es1, app_assoc. split_and!; [done|set_solver|]. intros H. by destruct (Cs2 H) as [_ ->].
  - exists (filter (λ d, denied d = true) [d] ++ d2). rewrite Ed2, Ed1, app_assoc. rewrite (filter_app _ [d] dirs : filter _ (d :: dirs) = _).
    split_and!; [done|set_solver|]. intros H. by rewrite (Cd2 H).
  - exists (folders_of d ++ f2). rewrite Ef2, Ef1, app_assoc. split; [done|]. intros H. by rewrite (Cf2 H).
Qed.

Lemma adds_more d dirs w w' : w_Capped w' = true → adds [d] w w' → adds (d :: dirs) w w'.
Proof.
  intros Hc ((s1 & Es1 & Hs1 & _) & (d1 & Ed1 & Hd1 & _) & (f1 & Ef1 & _)). unfold adds. rewrite Hc. cbn [mbind list_bind] in *. split_and!.
  - exists s1. split_and!; [done| |done]. rewrite app_nil_r in Hs1. set_solver.
  - exists d1. rewrite (filter_app _ [d] dirs : filter _ (d :: dirs) = _). split_and!; [done|set_solver|done].
  - by exists f1.
Qed.

Lemma take_level_adds limit at_root dirs : ∀ w w', w_Capped w = false → take_level limit at_root ((λ d, (d, tree d)) <$> dirs) w = Ok w' → adds dirs w w'.
Proof.
  induction dirs as [|d dirs IH]; intros w w' Hw H; cbn [take_level fmap list_fmap] in H.
  - injection H as <-. unfold adds. split_and!; exists []; rewrite app_nil_r; done.
  - apply bind_Ok in H as (w1 & H1 & H). apply take_answer_adds in H1. destruct (w_Capped w1) eqn:Hc.
    + injection H as <-. by apply adds_more.
    + eapply adds_app; [done|done|by apply IH].
Qed.

Lemma take_level_error limit at_root dirs : ∀ w e, take_level limit at_root ((λ d, (d, tree d)) <$> dirs) w = Err e → ∃ d, d ∈ dirs ∧ tree d = Err e.
Proof.
  induction dirs as [|d dirs IH]; intros w e H; cbn [take_level fmap list_fmap] in H; [done|].
  destruct (take_answer limit at_root d (tree d) w) as [w1|e1] eqn:E.
  - change (Ok w1 ≫= _) with (if w_Capped w1 then Ok w1 else take_level limit at_root ((λ d, (d, tree d)) <$> dirs) w1) in H.
    destruct (w_Capped w1); [done|]. apply IH in H as (d' & ? & ?). exists d'. split; [by right|done].
  - injection H as <-. exists d. split; [by left|]. unfold take_answer in E. destruct (tree d) as [|e]; [done|].
    destruct (IsPermissionDenied e); [done|]. destruct e; try (injection E as <-; done). destruct at_root; [by injection E as <-|done].
Qed.

(** Before level [n]: everything above it. *)
Definition above (n : nat) (w : walking) : Prop :=
  (∀ s, s ∈ w_Secrets w ↔ ∃ i d, (i < n)%nat ∧ d ∈ level i ∧ s ∈ secrets_of d) ∧
  (∀ d, d ∈ w_Denied w ↔ ∃ i, (i < n)%nat ∧ d ∈ level i ∧ denied d = true).

Lemma level_elem n d : d ∈ level (S n) ↔ ∃ p, p ∈ level n ∧ d ∈ folders_of p.
Proof. cbn [level]. rewrite list_elem_of_bind. naive_solver. Qed.

Lemma level_empty n : level n = [] → ∀ i, (n ≤ i)%nat → level i = [].
Proof. intros H i Hi. induction Hi as [|i Hi IH]; [done|]. cbn [level]. by rewrite IH. Qed.

Lemma walk_from_exact limit fuel : ∀ n w r, w_Capped w = false → above n w → walk_from fuel (λ _, tree) limit n (level n) w = Some r →
  match r with
  | Ok k => (∀ s, s ∈ Secrets k → holds_secret s) ∧ (∀ d, d ∈ Denied k → ∃ i, d ∈ level i ∧ denied d = true) ∧
      (Capped k = false → (∀ s, holds_secret s → s ∈ Secrets k) ∧ (∀ i d, d ∈ level i → denied d = true → d ∈ Denied k))
  | Err e => ∃ i d, d ∈ level i ∧ tree d = Err e
  end.
Proof.
  induction fuel as [|fuel IH]; intros n w r Hc [Hs Hd] H; cbn [walk_from] in H.
  all: case_bool_decide as Hl; rewrite Hc in H; cbn [orb] in H; [|try done].
  1,2: injection H as <-; cbn [finished Secrets Denied Capped]; unfold sort_strings; split_and!;
    [intros s; rewrite sort_elem_of, Hs; intros (i & d & _ & ? & ?); by exists i, d|intros d; rewrite sort_elem_of, Hd; intros (i & _ & ? & ?); by exists i|];
    intros _; split; [intros s (i & d & Hi & Hsd)|intros i d Hi Hde]; rewrite sort_elem_of, ?Hs, ?Hd;
    (destruct (decide (i < n)%nat); [eauto 6|]; rewrite (level_empty n Hl i) in Hi by lia; by apply not_elem_of_nil in Hi).
  destruct (take_level _ _ _ _) as [w'|e] eqn:E.
  2: { injection H as <-. apply take_level_error in E as (d & ? & ?). eauto. }
  apply take_level_adds in E as ((ss & Es & Hss & Cs) & (ds & Ed & Hds & Cd) & (fs & Ef & Cf)); [|done]. cbn [w_Secrets w_Denied next w_Capped] in *.
  destruct (w_Capped w') eqn:Hc'.
  - assert (r = Ok (finished w')) as ->.
    { destruct fuel; cbn [walk_from] in H; rewrite Hc', orb_true_r in H; by injection H. }
    cbn [finished Secrets Denied Capped]. unfold sort_strings. split_and!; [| |by rewrite Hc'].
    + intros s. rewrite sort_elem_of, Es, elem_of_app, Hs. intros [(i & d & _ & ? & ?)|Hin]; [by exists i, d|].
      apply Hss, list_elem_of_bind in Hin as (d & ? & ?). by exists n, d.
    + intros d. rewrite sort_elem_of, Ed, elem_of_app, Hd. intros [(i & _ & ? & ?)|Hin]; [by exists i|].
      apply Hds, list_elem_of_filter in Hin as [? ?]. by exists n.
  - destruct (Cs eq_refl) as [_ ->]. rewrite (Cd eq_refl) in Ed. rewrite (Cf eq_refl) in Ef. cbn [app] in Ef.
    change (level n ≫= folders_of) with (level (S n)) in Ef. rewrite Ef in H. eapply IH; [done| |exact H]. split.
    + intros s. rewrite Es, elem_of_app, Hs, list_elem_of_bind. split.
      * intros [(i & d & ? & ? & ?)|(d & ? & ?)]; [exists i, d; split_and!; [lia|done..]|exists n, d; split_and!; [lia|done..]].
      * intros (i & d & Hi & ? & ?). destruct (decide (i = n)) as [->|]; [right; by exists d|left; exists i, d; split_and!; [lia|done..]].
    + intros d. rewrite Ed, elem_of_app, Hd, list_elem_of_filter. split.
      * intros [(i & ? & ? & ?)|[? ?]]; [exists i; split_and!; [lia|done..]|exists n; split_and!; [lia|done..]].
      * intros (i & Hi & ? & ?). destruct (decide (i = n)) as [->|]; [by right|left; exists i; split_and!; [lia|done..]].
Qed.
End tree.

Lemma walk_bounded list_ limit fuel : ∀ depth frontier w k, (seen w ≤ limit)%nat → (length (w_Secrets w) ≤ seen w)%nat →
  walk_from fuel list_ limit depth frontier w = Some (Ok k) → (length (Secrets k) ≤ limit)%nat.
Proof.
  induction fuel as [|fuel IH]; intros depth frontier w k Hw Hs H; cbn [walk_from] in H.
  all: destruct (_ || _) in H; [injection H as <-; cbn [finished Secrets]; unfold sort_strings; rewrite sort_length; lia|].
  { done. }
  destruct (take_level _ _ _ _) as [w'|e] eqn:E; [|done]. apply take_level_grows in E as (? & _ & ?); [|done]. cbn [seen w_Secrets] in *.
  apply IH in H; [done|lia..].
Qed.

Lemma walk_from_finished list_ limit fuel : ∀ depth frontier w k, walk_from fuel list_ limit depth frontier w = Some (Ok k) → ∃ w', k = finished w'.
Proof.
  induction fuel as [|fuel IH]; intros depth frontier w k H; cbn [walk_from] in H.
  all: destruct (_ || w_Capped w) in H; [injection H as <-; by eexists|].
  { done. }
  destruct (take_level _ _ _ _) as [w'|]; [by eapply IH|done].
Qed.

(** A search of the tree ends and misses nothing.  However the tree answers
    and changes while it is walked, the walk ends within one level per entry of
    its limit.  On a tree that stands still, what it returns is sorted, within
    the limit, and made of secrets that are there; a folder it reports as
    denied is one that was reached and refused; unless it says the limit cut in
    it has every secret that can be reached and every folder refused; and it
    fails only with an error that some folder on the way answered with. *)
Theorem walk_finds_all list_ tree root limit :
  is_Some (walkKV list_ root limit) ∧
  ∃ r, walkKV (λ _, tree) root limit = Some r ∧
  match r with
  | Ok k => StronglySorted (not_after string_ltb) (Secrets k) ∧ (length (Secrets k) ≤ limit)%nat ∧
      (∀ s, s ∈ Secrets k → holds_secret tree root s) ∧ (∀ d, d ∈ Denied k → ∃ i, d ∈ level tree root i ∧ denied tree d = true) ∧
      (Capped k = false → (∀ s, holds_secret tree root s → s ∈ Secrets k) ∧ (∀ i d, d ∈ level tree root i → denied tree d = true → d ∈ Denied k))
  | Err e => ∃ i d, d ∈ level tree root i ∧ tree d = Err e
  end.
Proof.
  assert (∀ l, is_Some (walkKV l root limit)) as Hend by (intros l; apply walk_ends; cbn; lia).
  split; [apply Hend|]. destruct (Hend (λ _, tree)) as [r Hr]. exists r. split; [done|].
  pose proof (walk_from_exact tree root limit (limit + 1) 0 empty_walk r eq_refl) as H. unfold walkKV in Hr.
  assert (above tree root 0 empty_walk) as Ha by (split; intros x; split; [by intros ?%not_elem_of_nil|intros (i & ? & ? & _); lia|by intros ?%not_elem_of_nil|intros (i & ? & _); lia]).
  specialize (H Ha Hr). destruct r as [k|e]; [|done]. destruct H as (H1 & H2 & H3).
  split; [|split; [eapply (walk_bounded (λ _, tree) limit (limit + 1) 0 [root] empty_walk); [cbn; lia..|exact Hr]|done]].
  apply walk_from_finished in Hr as [w ->].
  cbn [finished Secrets]. apply sort_sorted, _.
Qed.

(** The one secret of its own name, or else the one that matches at all. *)
Definition named (w : kvWalk) (query p : string) : Prop :=
  p ∈ Secrets w ∧ matchesAllFold p (Fields query) = true ∧
  ((EqualFold (lastSegment p) query = true ∧
    ∀ p', p' ∈ Secrets w → matchesAllFold p' (Fields query) = true → EqualFold (lastSegment p') query = true → p' = p) ∨
   ∀ p', p' ∈ Secrets w → matchesAllFold p' (Fields query) = true → p' = p).

(** Without a terminal nothing is guessed: a path comes back only if it was
    typed in full, or is the one secret the walk found whose own name is the
    word, or the one secret whose path has every part of it; and with one, the
    picker offers only secrets the walk found. *)
Theorem resolving_never_guesses terminal walk args :
  match resolveKVPath terminal walk args with
  | Path p =>
      (∃ a, args = [a] ∧ p = normalizeKVPath a ∧ Contains p "/" = true) ∨
      ∃ a w, args = [a] ∧ walk = Ok w ∧ named w (normalizeKVPath a) p
  | Pick l => terminal = true ∧ ∃ w, walk = Ok w ∧ l ≠ [] ∧ ∀ p, p ∈ l → p ∈ Secrets w
  | Refused _ => True
  end.
Proof.
  unfold resolveKVPath. set (query := match args with [a] => _ | _ => _ end).
  destruct (Contains query "/") eqn:Hc.
  { left. destruct args as [|a [|]]; [done| |done]. by exists a. }
  destruct (String.eqb_spec query "") as [Hq|Hq].
  - destruct terminal; cbn [andb negb]; [|done]. destruct walk as [w|]; [|done]. case_bool_decide as Hw; [done|]. split; [done|]. by exists w.
  - cbn [andb]. destruct walk as [w|]; [|done].
    assert (∃ a, args = [a] ∧ query = normalizeKVPath a) as (a & Ha & Hqa) by (unfold query in *; destruct args as [|a [|]]; [done|by exists a|done]).
    destruct (matchKVWord (Secrets w) query) as [cands exact] eqn:Em. unfold matchKVWord in Em. injection Em as Ec Ee.
    assert (∀ p, p ∈ cands ↔ matchesAllFold p (Fields query) = true ∧ p ∈ Secrets w) as Hcands by (intros p; by rewrite <-Ec, list_elem_of_filter).
    assert (∀ p, p ∈ exact ↔ EqualFold (lastSegment p) query = true ∧ matchesAllFold p (Fields query) = true ∧ p ∈ Secrets w) as Hexact.
    { intros p. rewrite <-Ee, list_elem_of_filter, Ec, Hcands. done. }
    assert (∀ p, exact = [p] → named w query p) as H1.
    { intros p E. destruct (proj1 (Hexact p)) as (? & ? & ?); [rewrite E; by left|]. split_and!; [done..|]. left. split; [done|].
      intros p' ???. apply list_elem_of_singleton. rewrite <-E. by apply Hexact. }
    assert (∀ p, cands = [p] → named w query p) as H2.
    { intros p E. destruct (proj1 (Hcands p)) as (? & ?); [rewrite E; by left|]. split_and!; [done..|]. right.
      intros p' ??. apply list_elem_of_singleton. rewrite <-E. by apply Hcands. }
    assert (∀ l, l = cands → l ≠ [] → terminal = true → terminal = true ∧ ∃ w0, Ok w = @Ok vault_error _ w0 ∧ l ≠ [] ∧ ∀ p, p ∈ l → p ∈ Secrets w0) as H3.
    { intros l -> Hl Ht. split; [done|]. exists w. split_and!; [done..|]. intros p Hp. by apply Hcands. }
    destruct exact as [|e1 [|e2 exact]]; [|right; exists a, w; rewrite <-Hqa; by split_and!; [..|apply H1]|];
      (destruct cands as [|c1 [|c2 cands]]; [done|right; exists a, w; rewrite <-Hqa; by split_and!; [..|apply H2]|]; destruct terminal; [by apply H3|done]).
Qed.

Module Sample.
Definition tree (d : string) : result vault_error (list string) :=
  if String.eqb d "kv" then Ok ["teams/"; "vctl-postgres"; "locked/"]
  else if String.eqb d "kv/teams" then Ok ["gitlab"; "gitlab-albert"]
  else if String.eqb d "kv/locked" then Err (VApi d (ResponseError 403 "permission denied"))
  else Err (ErrKVNotFound d).

Definition walked : result vault_error kvWalk := match walkKV (λ _, tree) "kv" 100 with Some r => r | None => Err ErrTokenDenied end.

Example walked_all : walked = Ok {| Secrets := ["kv/teams/gitlab"; "kv/teams/gitlab-albert"; "kv/vctl-postgres"]; Denied := ["kv/locked"]; Folders := 2; Capped := false |}.
Proof. vm_compute. reflexivity. Qed.

Example capped : match walkKV (λ _, tree) "kv" 2 with Some (Ok w) => (Secrets w, Capped w) | _ => ([], false) end = (["kv/vctl-postgres"], true).
Proof. vm_compute. reflexivity. Qed.

Example words : (resolveKVPath false walked ["gitlab"], resolveKVPath false walked ["ALBERT"], resolveKVPath false walked ["kv/teams/x"], resolveKVPath true walked ["teams"]) =
  (Path "kv/teams/gitlab", Path "kv/teams/gitlab-albert", Path "kv/teams/x", Pick ["kv/teams/gitlab"; "kv/teams/gitlab-albert"]).
Proof. vm_compute. reflexivity. Qed.
End Sample.
