(* ===== verification/KvExec.v ===== *)
(** [vctl kv exec] (internal/cli/kv_exec.go): taking the command line apart,
    filling a secret's fields into the command, and what the child is given and
    what of its output is let through. *)

From Stdlib Require Import Ascii String ZArith Lia.
From S2P Require Import Prelude GoStrings VaultClient KvSet KvRedact.
From S2P Require Import NodeProtocol.
Open Scope Z_scope.

(** ** The command line *)

Definition wantsHelp (args : list string) : bool := match args with a :: _ => String.eqb a "-h" || String.eqb a "--help" | [] => false end.

Definition splitKVExecArgs (args : list string) : result string (string * list string) :=
  match args with
  | [] => Err "name the secret first"
  | secret :: words =>
      if HasPrefix secret "-" then Err "name the secret first"
      else
        let words := match words with w :: ws => if String.eqb w "--" then ws else words | [] => [] end in
        if bool_decide (words = []) then Err "give the command to run after the secret" else Ok (secret, words)
  end.

(** ** Fields in braces *)

Definition name_byte : ascii → bool := in_set "_.-".

Fixpoint name_run (s : string) : string * string :=
  match s with
  | String c s' => if name_byte c then let '(k, rest) := name_run s' in (String c k, rest) else (EmptyString, s)
  | EmptyString => (EmptyString, EmptyString)
  end.

(** A match of [kvField] here: the key, whether a file is asked for, and the
    text matched. *)
Definition field_at (s : string) : option (string * bool * string) :=
  match s with
  | String "{" t =>
      let '(key, rest) := name_run t in
      if String.eqb key "" then None
      else if HasPrefix rest ":file}" then Some (key, true, "{" +:+ key +:+ ":file}")
      else if HasPrefix rest "}" then Some (key, false, "{" +:+ key +:+ "}")
      else None
  | _ => None
  end.

Inductive piece := Char (c : ascii) | Field (key : string) (asFile : bool) (typed : string).

(** The matches from left to right, with [skip] bytes of the last one to pass. *)
Fixpoint pieces_go (skip : nat) (s : string) : list piece :=
  match s with
  | EmptyString => []
  | String c s' =>
      match skip with
      | S k => pieces_go k s'
      | O => match field_at s with
             | Some (key, asFile, typed) => Field key asFile typed :: pieces_go (String.length typed - 1) s'
             | None => Char c :: pieces_go 0 s'
             end
      end
  end.
Definition pieces (s : string) : list piece := pieces_go 0 s.

Definition typed_of (p : piece) : string := match p with Char c => String c "" | Field _ _ t => t end.
Definition concat (l : list string) : string := String.concat "" l.

(** ** Filling in *)

Record kvFill := { argv : list string; f_env : list string; values : gmap string string }.

Section fill.
(** [file_for key v]: where the value was written, if that worked. *)
Context (file_for : string → string → option string).

Definition fill_piece (data : gmap string string) (acc : string * gmap string string * bool) (p : piece) : string * gmap string string * bool :=
  let '(out, vals, failed) := acc in
  match p with
  | Char c => (out +:+ String c "", vals, failed)
  | Field key asFile typed =>
      match data !! key with
      | None => (out +:+ typed, vals, failed)
      | Some v =>
          if asFile then match file_for key v with Some p => (out +:+ p, <[key := v]> vals, failed) | None => (out +:+ typed, <[key := v]> vals, true) end
          else (out +:+ v, <[key := v]> vals, failed)
      end
  end.

Definition fill (data : gmap string string) (vals : gmap string string) (s : string) : result string (string * gmap string string) :=
  let '(out, vals, failed) := foldl (fill_piece data) ("", vals, false) (pieces s) in
  if failed then Err "write the value to a file" else Ok (out, vals).

Definition envName (s : string) : bool :=
  let first c := is_upper c || is_lower c || Ascii.eqb c "_" in
  match s with String c s' => first c && string_all (λ c, first c || is_digit c) s' | EmptyString => false end.

(** The leading assignments, then the command. *)
Fixpoint fill_words (data : gmap string string) (leading : bool) (words : list string) (f : kvFill) : result string kvFill :=
  match words with
  | [] => Ok f
  | w :: words' =>
      match (if leading then Cut w "=" else None) with
      | Some (name, val) =>
          if envName name then
            '(filled, vals) ← fill data (values f) val;
            fill_words data true words' {| argv := argv f; f_env := f_env f ++ [name +:+ "=" +:+ filled]; values := vals |}
          else
            '(filled, vals) ← fill data (values f) w;
            fill_words data false words' {| argv := argv f ++ [filled]; f_env := f_env f; values := vals |}
      | None =>
          '(filled, vals) ← fill data (values f) w;
          fill_words data false words' {| argv := argv f ++ [filled]; f_env := f_env f; values := vals |}
      end
  end.

Definition fillKV (data : gmap string string) (words : list string) : result string kvFill :=
  fill_words data true words {| argv := []; f_env := []; values := ∅ |}.

(** ** Running *)

Definition envWithoutVaultToken (environ : list string) : list string := filter (λ kv, HasPrefix kv "VAULT_TOKEN=" = false) environ.

(** [child argv env]: what it writes to one of its streams, in pieces.  The
    command run, what came through, and the counts. *)
Definition runKVExec (sec : KVSecret) (words environ : list string) (visit : gmap string string → list (string * string))
    (child : list string → list string → list (list ascii)) : result string (list string * list string * maskWriter) :=
  f ← fillKV (kv_Data sec) words;
  if bool_decide (values f = ∅) then Err "nothing to fill in"
  else if bool_decide (argv f = []) then Err "no command after the NAME={key} assignments"
  else
    let env := envWithoutVaultToken environ ++ f_env f in
    Ok (argv f, env, masked (newKVRedactor (visit (values f))) (child (argv f) env)).
End fill.

Example filled : match fillKV (λ _ _, Some "/tmp/x/k") {["user" := "u"; "k" := "v"]} ["PGPASSWORD={k}"; "X=1"; "psql"; "-U={user}"; "{user"; "{nope}{k:file}{user}"; "A={k}"] with
  | Ok f => Some (argv f, f_env f) | Err _ => None end = Some (["psql"; "-U=u"; "{user"; "{nope}/tmp/x/ku"; "A=v"], ["PGPASSWORD=v"; "X=1"]).
Proof. vm_compute. reflexivity. Qed.

(** ** Lemmas *)

Lemma name_run_split s : s = (name_run s).1 +:+ (name_run s).2.
Proof.
  induction s as [|c s IH]; [done|]. cbn [name_run]. destruct (name_byte c); [|done]. destruct (name_run s) as [k rest]. cbn [fst snd] in *. by rewrite string_app_cons, <-IH.
Qed.

Lemma field_at_split s key asFile typed : field_at s = Some (key, asFile, typed) → typed ≠ "" ∧ ∃ t, s = typed +:+ t.
Proof.
  unfold field_at. destruct s as [|c t]; [done|]. destruct (Ascii.eqb_spec c "{") as [->|Hc].
  - pose proof (name_run_split t) as Hs. destruct (name_run t) as [k rest]. cbn [fst snd] in Hs. destruct (String.eqb k ""); [done|].
    destruct (HasPrefix rest ":file}") eqn:H1.
    { intros [= <- <- <-]. split; [done|]. apply HasPrefix_inv in H1 as [u ->]. exists u. rewrite Hs.
      change ("{" +:+ k +:+ ":file}") with (String "{" (k +:+ ":file}")). by rewrite (string_app_cons "{" (k +:+ ":file}") u), (string_app_assoc k). }
    destruct (HasPrefix rest "}") eqn:H2; [|done]. intros [= <- <- <-]. split; [done|]. apply HasPrefix_inv in H2 as [u ->]. exists u. rewrite Hs.
    change ("{" +:+ k +:+ "}") with (String "{" (k +:+ "}")). by rewrite (string_app_cons "{" (k +:+ "}") u), (string_app_assoc k).
  - destruct c as [[] [] [] [] [] [] [] []]; try done.
Qed.

Lemma pieces_go_skip k : ∀ s, pieces_go k s = pieces (drop_bytes k s).
Proof. induction k as [|k IH]; intros [|c s]; try done. cbn [pieces_go drop_bytes]. apply IH. Qed.

(** Nothing of the text is lost between the pieces. *)
Lemma pieces_typed s : concat (typed_of <$> pieces s) = s.
Proof.
  remember (String.length s) as l eqn:El. revert s El. induction l as [l IH] using lt_wf_ind. intros s ->. destruct s as [|c s]; [done|].
  unfold pieces. cbn [pieces_go]. destruct (field_at (String c s)) as [[[key asFile] typed]|] eqn:E.
  - apply field_at_split in E as [Hne [t Ht]]. destruct typed as [|d typed]; [done|]. rewrite string_app_cons in Ht. injection Ht as <- ->.
    rewrite pieces_go_skip. cbn [String.length Nat.sub]. rewrite ?Nat.sub_0_r, drop_bytes_app. cbn [fmap list_fmap typed_of].
    assert (∀ a l, concat (a :: l) = a +:+ concat l) as Hcons by (intros a [|b l']; [cbn; by rewrite string_app_nil_r|done]).
    rewrite Hcons. rewrite (IH (String.length t)); [done| |done]. cbn. rewrite length_string_app. lia.
  - cbn [fmap list_fmap typed_of]. assert (∀ a l, concat (a :: l) = a +:+ concat l) as Hcons by (intros a [|b l']; [cbn; by rewrite string_app_nil_r|done]).
    rewrite Hcons. fold (pieces s). rewrite (IH (String.length s)); [done|cbn; lia|done].
Qed.

Section filling.
Context (file_for : string → string → option string) (data : gmap string string).

(** The fields a word names, of those the secret has. *)
Definition names (s : string) : gset string :=
  list_to_set (omap (λ p, match p with Field key _ _ => if data !! key then Some key else None | Char _ => None end) (pieces s)).

(** What a piece becomes. *)
Definition shown (p : piece) : string :=
  match p with
  | Char c => String c ""
  | Field key asFile typed => match data !! key with None => typed | Some v => if asFile then default typed (file_for key v) else v end
  end.

Lemma fill_exact vals s out vals' : fill file_for data vals s = Ok (out, vals') →
  out = concat (shown <$> pieces s) ∧ (∀ key, vals' !! key = if decide (key ∈ names s) then data !! key else vals !! key).
Proof.
  unfold fill, names. assert (∀ ps acc vals failed, let '(out, vals', f') := foldl (fill_piece file_for data) (acc, vals, failed) ps in
    out = acc +:+ concat (shown <$> ps) ∧
    ∀ key, vals' !! key = if decide (key ∈ (list_to_set (omap (λ p, match p with Field key _ _ => if data !! key then Some key else None | Char _ => None end) ps) : gset string)) then data !! key else vals !! key) as H.
  { induction ps as [|p ps IH]; intros acc vs failed; cbn [foldl].
    - cbn. rewrite string_app_nil_r. split; [done|]. intros key. by rewrite decide_False by set_solver.
    - assert (∀ a l, concat (a :: l) = a +:+ concat l) as Hcons by (intros a [|b l']; [cbn; by rewrite string_app_nil_r|done]).
      destruct (fill_piece file_for data (acc, vs, failed) p) as [[acc1 vs1] f1] eqn:E. specialize (IH acc1 vs1 f1). destruct (foldl _ _ ps) as [[out' vals2] f2].
      destruct IH as [-> Hv]. cbn [fmap list_fmap]. rewrite Hcons, <-string_app_assoc. destruct p as [c|key asFile typed]; cbn [fill_piece shown omap list_omap] in *.
      + injection E as <- <- <-. split; [done|exact Hv].
      + destruct (data !! key) as [v|] eqn:Ed.
        * assert (acc1 = acc +:+ (if asFile then default typed (file_for key v) else v) ∧ vs1 = <[key := v]> vs) as [-> ->].
          { destruct asFile; [destruct (file_for key v)|]; by injection E as <- <- <-. }
          split; [done|]. intros k. rewrite Hv. cbn [list_to_set]. destruct (decide (k = key)) as [->|Hk].
          { rewrite lookup_insert_eq, (decide_True (P := key ∈ {[key]} ∪ _)) by set_solver. rewrite Ed. by case_decide. }
          rewrite lookup_insert_ne by done. repeat case_decide; set_solver.
        * injection E as <- <- <-. split; [done|exact Hv]. }
  intros E. specialize (H (pieces s) "" vals false). destruct (foldl _ _ _) as [[o v] f]. destruct f; [done|]. injection E as <- <-. exact H.
Qed.

Lemma fill_words_values leading words : ∀ f f', fill_words file_for data leading words f = Ok f' → (∀ k v, values f !! k = Some v → data !! k = Some v) →
  (∀ k v, values f' !! k = Some v → data !! k = Some v) ∧ (∀ k, is_Some (values f !! k) → is_Some (values f' !! k)).
Proof.
  revert leading. induction words as [|w words IH]; intros leading f f' H Hf; cbn [fill_words] in H; [injection H as <-; done|].
  assert (∀ txt filled vals, fill file_for data (values f) txt = Ok (filled, vals) → (∀ k v, vals !! k = Some v → data !! k = Some v) ∧ ∀ k, is_Some (values f !! k) → is_Some (vals !! k)) as Hstep.
  { intros txt filled vals [_ Hv]%fill_exact. split; intros k; rewrite Hv; case_decide as Hin; [done|auto| |done].
    intros [v Hk]. rewrite (Hf k v Hk). by eexists. }
  destruct (if leading then Cut w "=" else None) as [[name val]|]; [destruct (envName name)|];
    (apply bind_Ok in H as ([filled vals] & Hfill & H); destruct (Hstep _ _ _ Hfill) as [Hs1 Hs2]; apply IH in H as [? Hm]; [|done]; split; [done|]; intros k Hk; apply Hm; by apply Hs2).
Qed.

Definition render (w : string) : string := concat (shown <$> pieces w).
Definition render_assignment (w : string) : string := match Cut w "=" with Some (name, val) => name +:+ "=" +:+ render val | None => w end.
Definition assigned (w : string) : string := match Cut w "=" with Some (_, val) => val | None => w end.

(** The words come out filled in, one for one, and every field they name is
    among the values. *)
Lemma fill_words_exact words : ∀ leading f f', fill_words file_for data leading words f = Ok f' → (∀ k v, values f !! k = Some v → data !! k = Some v) →
  ∃ pre ws, words = pre ++ ws ∧ (leading = false → pre = []) ∧ argv f' = argv f ++ (render <$> ws) ∧ f_env f' = f_env f ++ (render_assignment <$> pre) ∧
    (∀ w k, w ∈ ws → k ∈ names w → is_Some (values f' !! k)) ∧ (∀ w k, w ∈ pre → k ∈ names (assigned w) → is_Some (values f' !! k)).
Proof.
  induction words as [|w words IH]; intros leading f f' H Hf.
  { cbn [fill_words] in H. injection H as <-. exists [], []. cbn. rewrite !app_nil_r. split_and!; try done; intros w k Hw; by apply not_elem_of_nil in Hw. }
  assert (∀ txt filled vals, fill file_for data (values f) txt = Ok (filled, vals) → filled = render txt ∧ (∀ k v, vals !! k = Some v → data !! k = Some v) ∧ ∀ k, k ∈ names txt → is_Some (vals !! k)) as Hstep.
  { intros txt filled vals [-> Hv]%fill_exact. split_and!; [done|intros k v; rewrite Hv; case_decide; [done|apply Hf]|].
    intros k Hk. rewrite Hv, decide_True by done. unfold names in Hk. apply elem_of_list_to_set, list_elem_of_omap in Hk as ([c|key af t] & _ & E); [done|].
    destruct (data !! key) eqn:Ed; [|done]. injection E as ->. by eexists. }
  assert (∀ filled vals, fill file_for data (values f) w = Ok (filled, vals) → fill_words file_for data false words {| argv := argv f ++ [filled]; f_env := f_env f; values := vals |} = Ok f' →
    ∃ pre ws, w :: words = pre ++ ws ∧ (leading = false → pre = []) ∧ argv f' = argv f ++ (render <$> ws) ∧ f_env f' = f_env f ++ (render_assignment <$> pre) ∧
    (∀ w k, w ∈ ws → k ∈ names w → is_Some (values f' !! k)) ∧ (∀ w k, w ∈ pre → k ∈ names (assigned w) → is_Some (values f' !! k))) as Hcommand.
  { intros filled vals Hfill Hw. destruct (Hstep _ _ _ Hfill) as (-> & Hs & Hn). pose proof (fill_words_values _ _ _ _ Hw Hs) as [_ Hm].
    apply IH in Hw as (pre & ws & -> & Hpre & Ha & He & Hws & _); [|done]. rewrite (Hpre eq_refl) in *. cbn [app fmap list_fmap] in *. exists [], (w :: ws).
    cbn [argv f_env values fmap list_fmap] in *. rewrite Ha, He, <-app_assoc. split_and!; [done..| |by intros ? ? ?%not_elem_of_nil].
    intros w' k [->|Hw']%elem_of_cons Hk; [apply Hm; cbn; by apply Hn|by eapply Hws]. }
  cbn [fill_words] in H. destruct leading; cbn iota in H.
  - destruct (Cut w "=") as [[name val]|] eqn:Ec; [destruct (envName name)|].
    + apply bind_Ok in H as ([filled vals] & Hfill & H). destruct (Hstep _ _ _ Hfill) as (-> & Hs & Hn). pose proof (fill_words_values _ _ _ _ H Hs) as [_ Hm].
      apply IH in H as (pre & ws & -> & _ & Ha & He & Hws & Hpre); [|done]. exists (w :: pre), ws. cbn [argv f_env values fmap list_fmap app] in *.
      rewrite Ha, He, <-app_assoc. split_and!; [done|done|done| |done|].
      * unfold render_assignment at 2. by rewrite Ec.
      * intros w' k [->|Hw']%elem_of_cons Hk; [|by eapply Hpre]. apply Hm. cbn. apply Hn. unfold assigned in Hk. by rewrite Ec in Hk.
    + apply bind_Ok in H as ([filled vals] & Hfill & H). by eapply Hcommand.
    + apply bind_Ok in H as ([filled vals] & Hfill & H). by eapply Hcommand.
  - apply bind_Ok in H as ([filled vals] & Hfill & H). by eapply Hcommand.
Qed.
End filling.

Lemma distinct_elem forms f : f ∈ distinct forms ↔ f ∈ forms.
Proof.
  unfold distinct. assert (∀ seen, f ∈ foldl (λ seen f, if bool_decide (f ∈ seen) then seen else seen ++ [f]) seen forms ↔ f ∈ seen ∨ f ∈ forms) as H.
  { induction forms as [|x forms IH]; intros seen; cbn [foldl]; [set_solver|]. rewrite IH. case_bool_decide; set_solver. }
  rewrite H. set_solver.
Qed.

(** Every spelling of a value that is long enough is a needle. *)
Lemma spelled_out vals key v form : (key, v) ∈ vals → (kvMaskMin ≤ String.length v)%nat → form ∈ redactedForms v →
  {| n_bytes := to_bytes form; n_key := key |} ∈ newKVRedactor vals.
Proof.
  intros Hin Hl Hf. unfold newKVRedactor. apply sort_elem_of, list_elem_of_bind. exists (key, v). split; [|done]. unfold needles_of. cbn [fst snd].
  rewrite (proj2 (Nat.ltb_ge _ _)) by done. apply list_elem_of_fmap. exists form. split; [done|]. by apply distinct_elem.
Qed.

(** C31. A secret's field reaches the command and not the screen.  The command
    run is the one typed, each [{field}] of the secret replaced by its value,
    or by the file it was written to, and nothing else changed; its environment
    is the caller's without the Vault token, and the assignments typed.  Every
    field filled in anywhere, if it is four bytes long or more, is among the
    texts filtered, in each of its spellings; and what passes the filter is
    what replacing them in the whole output leaves, as long as no spelling has a
    square bracket in it or ends as another begins. *)
Theorem exec_filters_what_it_fills file_for sec words environ visit child args env out : (∀ m, visit m ≡ₚ map_to_list m) →
  runKVExec file_for sec words environ visit child = Ok (args, env, out) →
  ∃ pre ws vals, words = pre ++ ws ∧ args = render file_for (kv_Data sec) <$> ws ∧ args ≠ [] ∧
    env = envWithoutVaultToken environ ++ (render_assignment file_for (kv_Data sec) <$> pre) ∧
    (∀ w k, (w ∈ ws ∧ k ∈ names (kv_Data sec) w) ∨ (w ∈ pre ∧ k ∈ names (kv_Data sec) (assigned w)) → ∃ v, kv_Data sec !! k = Some v ∧ vals !! k = Some v ∧
       ((4 ≤ String.length v)%nat → ∀ form, form ∈ redactedForms v → {| n_bytes := to_bytes form; n_key := k |} ∈ newKVRedactor (visit vals))) ∧
    (∀ kv, kv ∈ envWithoutVaultToken environ → HasPrefix kv "VAULT_TOKEN=" = false) ∧
    (proper (newKVRedactor (visit vals)) → separate (newKVRedactor (visit vals)) →
       written out = text (newKVRedactor (visit vals)) (mjoin (child args env)) ∧ tail_ out = []).
Proof.
  intros Hvisit H. unfold runKVExec in H. apply bind_Ok in H as (f & Hf & H). case_bool_decide; [done|]. case_bool_decide as Ha; [done|]. injection H as <- <- <-.
  assert (∀ k v, (∅ : gmap string string) !! k = Some v → kv_Data sec !! k = Some v) as Hnil by (intros k v Hkv; by rewrite lookup_empty in Hkv).
  pose proof (fill_words_values _ _ _ _ _ _ Hf Hnil) as [Hv _].
  apply fill_words_exact in Hf as (pre & ws & -> & _ & Hargv & Henv & Hws & Hpre); [|exact Hnil]. cbn [argv f_env app] in Hargv, Henv.
  exists pre, ws, (values f). split_and!; [done..|by rewrite Henv| | |].
  - intros w k Hk. assert (is_Some (values f !! k)) as [v Hkv] by (destruct Hk as [[? ?]|[? ?]]; eauto). exists v. split_and!; [by apply Hv|done|].
    intros Hl form Hform. eapply spelled_out; [|exact Hl|done]. rewrite Hvisit. by apply elem_of_map_to_list.
  - intros kv Hkv. unfold envWithoutVaultToken in Hkv. by apply list_elem_of_filter in Hkv as [? _].
  - intros Hp Hs. destruct (masked_text _ (child (argv f) (envWithoutVaultToken environ ++ f_env f)) Hp Hs) as (? & ? & _). done.
Qed.

Module Sample.
Definition sec : KVSecret :=
  {| kv_Path := "kv/x"; kv_Data := {["password" := "hunter2!"; "user" := "u"]}; NonString := []; kv_Version := 1; CreatedAt := 0; DeletedAt := 0; Destroyed := false; CustomMetadata := [] |}.
Definition child (args env : list string) : list (list ascii) := to_bytes <$> ["using hunt"; "er2!"; String "010" ""].
Definition ran := runKVExec (λ _ _, None) sec ["PGPASSWORD={password}"; "psql"; "-U"; "{user}"] ["VAULT_TOKEN=t"; "HOME=/"] map_to_list child.

Lemma exec_filters_what_it_fills_witness : ∃ args env out, ran = Ok (args, env, out) ∧ args = ["psql"; "-U"; "u"] ∧ env = ["HOME=/"; "PGPASSWORD=hunter2!"] ∧
  written out = to_bytes ("using [REDACTED:password]" +:+ String "010" "") ∧ ∃ vals : gmap string string, vals !! "password" = Some "hunter2!".
Proof.
  destruct ran as [[[args env] out]|e] eqn:E; [|vm_compute in E; discriminate E].
  destruct (exec_filters_what_it_fills (λ _ _, None) sec ["PGPASSWORD={password}"; "psql"; "-U"; "{user}"] ["VAULT_TOKEN=t"; "HOME=/"] map_to_list child args env out)
    as (pre & ws & vals & Hw & _ & _ & _ & Hn & _ & _); [done|exact E|].
  exists args, env, out. split; [done|]. vm_compute in E. injection E as <- <- <-. split_and!; [reflexivity|reflexivity|vm_compute; reflexivity|].
  exists vals. destruct (Hn "PGPASSWORD={password}" "password") as (v & Hd & Hv & _).
  - destruct pre as [|p0 pre].
    + left. cbn in Hw. rewrite <-Hw. split; [left|apply elem_of_list_to_set; vm_compute; left].
    + right. injection Hw as <- _. split; [left|apply elem_of_list_to_set; vm_compute; left].
  - rewrite Hv. vm_compute in Hd. by injection Hd as <-.
Defined.
End Sample.
