(* ===== verification/Effects.v ===== *)
(** Programs that ask the outside: a program is a tree of requests and of what
    it does with each answer.  [runs] are its complete exchanges, whatever the
    outside answers; [reaches] also those cut short, when the process dies. *)

From S2P Require Import Prelude.

Section effects.
(** The requests, and what each is answered with. *)
Context {E : Type} {R : E → Type}.

Inductive prog (A : Type) : Type :=
| Ret (a : A)
| Do (e : E) (k : R e → prog A).
Arguments Ret {A} a.
Arguments Do {A} e k.

Record event := Ev { asked : E; answered : R asked }.

#[export] Instance prog_ret : MRet prog := λ A a, Ret a.
#[export] Instance prog_bind : MBind prog := λ A B f,
  fix bind p := match p with Ret a => f a | Do e k => Do e (λ x, bind (k x)) end.

Definition ask (e : E) : prog (R e) := Do e Ret.

Fixpoint runs {A} (p : prog A) (tr : list event) (a : A) : Prop :=
  match p with
  | Ret a' => tr = [] ∧ a' = a
  | Do e k => ∃ x tr', tr = Ev e x :: tr' ∧ runs (k x) tr' a
  end.

Fixpoint reaches {A} (p : prog A) (tr : list event) : Prop :=
  tr = [] ∨
  match p with
  | Ret _ => False
  | Do e k => ∃ x tr', tr = Ev e x :: tr' ∧ reaches (k x) tr'
  end.

(** A program against an outside that answers by its state. *)
Fixpoint run {A W} (outside : ∀ e, W → R e * W) (p : prog A) (w : W) : list event * A * W :=
  match p with
  | Ret a => ([], a, w)
  | Do e k =>
      let '(x, w) := outside e w in
      let '(tr, a, w) := run outside (k x) w in
      (Ev e x :: tr, a, w)
  end.

Lemma run_runs {A W} (outside : ∀ e, W → R e * W) (p : prog A) w :
  runs p (run outside p w).1.1 (run outside p w).1.2.
Proof.
  revert w. induction p as [a|e k IH]; intros w; cbn; [done|].
  destruct (outside e w) as [x w1]. specialize (IH x w1). destruct (run outside (k x) w1) as [[tr a] w2]. by exists x, tr.
Qed.

Lemma runs_bind {A B} (p : prog A) (f : A → prog B) tr b :
  runs (p ≫= f) tr b ↔ ∃ t1 t2 a, tr = t1 ++ t2 ∧ runs p t1 a ∧ runs (f a) t2 b.
Proof.
  revert tr. induction p as [a|e k IH]; intros tr; cbn.
  - split; [intros H; by exists [], tr, a|]. by intros (t1 & t2 & a' & -> & [-> ->] & H).
  - split.
    + intros (x & tr' & -> & H). apply IH in H as (t1 & t2 & a & -> & H1 & H2). exists (Ev e x :: t1), t2, a. split_and!; [done| |done]. by exists x, t1.
    + intros (t1 & t2 & a & -> & (x & t1' & -> & H1) & H2). exists x, (t1' ++ t2). split; [done|]. apply IH. by exists t1', t2, a.
Qed.

Lemma reaches_cut {A} (p : prog A) tr a t1 t2 : runs p tr a → tr = t1 ++ t2 → reaches p t1.
Proof.
  revert tr t1. induction p as [a'|e k IH]; intros tr t1; cbn.
  - intros [-> _] H. symmetry in H. apply app_eq_nil in H as [-> _]. by left.
  - intros (x & tr' & -> & H) Heq. destruct t1 as [|ev t1]; [by left|]. injection Heq as <- ->. right. exists x, t1. split; [done|]. by eapply IH.
Qed.

Lemma reaches_bind {A B} (p : prog A) (f : A → prog B) tr :
  reaches (p ≫= f) tr ↔ reaches p tr ∨ ∃ t1 t2 a, tr = t1 ++ t2 ∧ runs p t1 a ∧ reaches (f a) t2.
Proof.
  revert tr. induction p as [a|e k IH]; intros tr; cbn.
  - split.
    + intros H. right. by exists [], tr, a.
    + intros [[->|[]]|(t1 & t2 & a' & -> & [-> ->] & H)]; [by destruct (f a); left|done].
  - split.
    + intros [->|(x & tr' & -> & H)]; [by left; left|]. apply IH in H as [H|(t1 & t2 & a & -> & H1 & H2)].
      * left. right. by exists x, tr'.
      * right. exists (Ev e x :: t1), t2, a. split_and!; [done| |done]. by exists x, t1.
    + intros [[->|(x & tr' & -> & H)]|(t1 & t2 & a & -> & (x & t1' & -> & H1) & H2)]; [by left| |]; right.
      * exists x, tr'. split; [done|]. apply IH. by left.
      * exists x, (t1' ++ t2). split; [done|]. apply IH. right. by exists t1', t2, a.
Qed.

(** Whatever is answered, every event is one of these. *)
Definition emits {A} (ok : event → Prop) (p : prog A) : Prop := ∀ tr, reaches p tr → Forall ok tr.

Lemma emits_ret {A} ok (a : A) : emits ok (mret a).
Proof. intros tr [->|[]]. constructor. Qed.

Lemma emits_ask ok e : (∀ x, ok (Ev e x)) → emits ok (ask e).
Proof. intros H tr [->|(x & tr' & -> & [->|[]])]; [constructor|]. by repeat constructor. Qed.

Lemma reaches_runs {A} (p : prog A) tr a : runs p tr a → reaches p tr.
Proof. intros H. eapply (reaches_cut p tr a tr []); [done|]. by rewrite app_nil_r. Qed.

Lemma emits_bind {A B} ok (p : prog A) (f : A → prog B) : emits ok p → (∀ a, emits ok (f a)) → emits ok (p ≫= f).
Proof.
  intros H1 H2 tr H. apply reaches_bind in H as [H|(t1 & t2 & a & -> & H & H')]; [by apply H1|].
  apply Forall_app. split; [by eapply H1, reaches_runs|by eapply H2].
Qed.

Lemma emits_mono {A} (ok ok' : event → Prop) (p : prog A) : (∀ ev, ok ev → ok' ev) → emits ok p → emits ok' p.
Proof. intros H Hp tr Hr. eapply Forall_impl; [by apply Hp|done]. Qed.
End effects.

(** Every event of a program that follows the exchange [h] is as it should be
    after what came before it. *)
Definition justified_after {A E : Type} {R : E → Type} (ok : list (@event E R) → @event E R → Prop) (h : list (@event E R)) (p : @prog E R A) : Prop :=
  ∀ t1 ev t2, reaches p (t1 ++ ev :: t2) → ok (h ++ t1) ev.

Section justified.
Context {E : Type} {R : E → Type} (ok : list (@event E R) → @event E R → Prop).

Lemma justified_ret {A} h (a : A) : justified_after ok h (mret a).
Proof. intros t1 ev t2 [H|[]]. by destruct t1. Qed.

Lemma justified_ask h e : (∀ x, ok h (Ev e x)) → justified_after ok h (ask e).
Proof.
  intros H t1 ev t2 [Hr|(x & tr & Hr & [->|[]])]; [by destruct t1|]. destruct t1 as [|? t1]; [|by destruct t1].
  injection Hr as -> _. by rewrite app_nil_r.
Qed.

Lemma justified_bind {A B} h (p : @prog E R A) (f : A → @prog E R B) :
  justified_after ok h p → (∀ t a, runs p t a → justified_after ok (h ++ t) (f a)) → justified_after ok h (p ≫= f).
Proof.
  intros Hp Hf t1 ev t2 H. apply reaches_bind in H as [H|(s1 & s2 & a & Heq & H1 & H2)]; [by apply Hp in H|].
  apply app_eq_inv in Heq as [(l & -> & ->)|(l & -> & Heq)].
  - apply (Hf _ _ H1 l ev t2) in H2. by rewrite <- (assoc_L (++)) in H2.
  - destruct l as [|? l]; [cbn in Heq; subst s2; rewrite app_nil_r in *; apply (Hf _ _ H1 [] ev t2) in H2; by rewrite app_nil_r in H2|].
    injection Heq as <- ->. apply reaches_runs in H1. by apply Hp in H1.
Qed.
End justified.

Arguments prog {E} R A.
Arguments event {E} R.

Section stateful.
Context {E : Type} {R : E → Type} {S : Type}.

(** Programs with a state of their own. *)
Definition sprog (A : Type) : Type := S → prog R (A * S).

#[export] Instance sprog_ret : MRet sprog := λ A a s, mret (a, s).
#[export] Instance sprog_bind : MBind sprog := λ A B f m s, r ← m s; f r.1 r.2.

Definition ask_s (e : E) : sprog (R e) := λ s, x ← ask e; mret (x, s).
Definition get_s : sprog S := λ s, mret (s, s).
Definition put_s (s : S) : sprog () := λ _, mret (tt, s).

Lemma runs_sbind {A B} (m : sprog A) (f : A → sprog B) s tr r :
  runs ((m ≫= f) s) tr r ↔ ∃ t1 t2 a s1, tr = t1 ++ t2 ∧ runs (m s) t1 (a, s1) ∧ runs (f a s1) t2 r.
Proof.
  unfold mbind, sprog_bind. rewrite runs_bind. split.
  - intros (t1 & t2 & [a s1] & -> & H1 & H2). by exists t1, t2, a, s1.
  - intros (t1 & t2 & a & s1 & -> & H1 & H2). by exists t1, t2, (a, s1).
Qed.

Lemma reaches_sbind {A B} (m : sprog A) (f : A → sprog B) s tr :
  reaches ((m ≫= f) s) tr ↔ reaches (m s) tr ∨ ∃ t1 t2 a s1, tr = t1 ++ t2 ∧ runs (m s) t1 (a, s1) ∧ reaches (f a s1) t2.
Proof.
  unfold mbind, sprog_bind. rewrite reaches_bind. split; (intros [H|H]; [by left|right]).
  - destruct H as (t1 & t2 & [a s1] & -> & H1 & H2). by exists t1, t2, a, s1.
  - destruct H as (t1 & t2 & a & s1 & -> & H1 & H2). by exists t1, t2, (a, s1).
Qed.

Lemma runs_sask e s tr r : runs (ask_s e s) tr r ↔ ∃ x, tr = [Ev e x] ∧ r = (x, s).
Proof.
  cbn. split.
  - intros (x & tr' & -> & [-> <-]). by exists x.
  - intros (x & -> & ->). by exists x, [].
Qed.

Lemma runs_sret {A} (a : A) s tr r : runs ((mret a : sprog A) s) tr r ↔ tr = [] ∧ r = (a, s).
Proof. cbn. split; intros [-> H]; by rewrite H. Qed.

(** Each event, from any state, is one of these. *)
Definition emits_s {A} (ok : event R → Prop) (m : sprog A) : Prop := ∀ s, emits ok (m s).

Lemma emits_sret {A} ok (a : A) : emits_s ok (mret a).
Proof. intros s. apply emits_ret. Qed.

Lemma emits_sask ok e : (∀ x, ok (Ev e x)) → emits_s ok (ask_s e).
Proof. intros H s. apply emits_bind; [by apply emits_ask|]. intros x. apply emits_ret. Qed.

Lemma emits_sbind {A B} ok (m : sprog A) (f : A → sprog B) : emits_s ok m → (∀ a, emits_s ok (f a)) → emits_s ok (m ≫= f).
Proof. intros H1 H2 s. apply emits_bind; [apply H1|]. intros [a s1]. apply H2. Qed.

Lemma emits_get ok : emits_s ok get_s.
Proof. intros s. apply emits_ret. Qed.

Lemma emits_put ok s : emits_s ok (put_s s).
Proof. intros s'. apply emits_ret. Qed.

(** What is justified of a program with a state, from any of its states. *)
Lemma emits_justified {A} (ok : list (event R) → event R → Prop) (ok' : event R → Prop) h (m : sprog A) s :
  (∀ h ev, ok' ev → ok h ev) → emits_s ok' m → justified_after ok h (m s).
Proof. intros Hok He t1 ev t2 H. apply He in H. apply Forall_app in H as [_ [H _]%Forall_cons]. by apply Hok. Qed.

Lemma justified_sbind {A B} (ok : list (event R) → event R → Prop) h (m : sprog A) (f : A → sprog B) s :
  justified_after ok h (m s) → (∀ t a s', runs (m s) t (a, s') → justified_after ok (h ++ t) (f a s')) → justified_after ok h ((m ≫= f) s).
Proof. intros Hm Hf. apply justified_bind; [done|]. intros t [a s'] Hr. by apply Hf. Qed.

Lemma justified_sask (ok : list (event R) → event R → Prop) h e s : (∀ x, ok h (Ev e x)) → justified_after ok h (ask_s e s).
Proof. intros H. apply justified_bind; [by apply justified_ask|]. intros t a _. apply justified_ret. Qed.

Lemma justified_sret {A} (ok : list (event R) → event R → Prop) h (a : A) s : justified_after ok h ((mret a : sprog A) s).
Proof. apply justified_ret. Qed.

Lemma emits_s_mono {A} (ok ok' : event R → Prop) (m : sprog A) : (∀ ev, ok ev → ok' ev) → emits_s ok m → emits_s ok' m.
Proof. intros H Hm s. by apply (emits_mono ok). Qed.
End stateful.

Arguments sprog {E} R S A.

(** The events of a program, by its structure. *)
Ltac emits_tac :=
  repeat first
    [ match goal with |- emits_s _ (mret _) => apply emits_sret | |- emits_s _ get_s => apply emits_get | |- emits_s _ (put_s _) => apply emits_put end
    | match goal with |- emits_s _ (ask_s ?e) => refine (emits_sask _ e _); intros ? end
    | match goal with |- emits_s _ (_ ≫= _) => apply emits_sbind; [|intros ?] end
    | progress cbv zeta
    | match goal with |- emits_s _ (match ?x with _ => _ end) => destruct x end ].

(** One step of a program with a state, and what it leaves to justify. *)
Ltac justified_step :=
  lazymatch goal with
  | |- justified_after ?ok ?h (mret ?a ?s) => refine (justified_sret ok h a s)
  | |- justified_after _ _ (get_s _) => apply justified_ret
  | |- justified_after _ _ (put_s _ _) => apply justified_ret
  | |- justified_after ?ok ?h (ask_s ?e ?s) => refine (justified_sask ok h e s _); intros ?
  | |- justified_after ?ok ?h ((?m ≫= ?f) ?s) => refine (justified_sbind ok h m f s _ _); [|intros ? ? ? ?]
  | |- justified_after ?ok ?h ((match ?x with _ => _ end) ?s) => destruct x
  end.

(** A finished run, taken apart. *)
Ltac runs_tac :=
  repeat match goal with
  | H : runs (mret _ _) _ _ |- _ => destruct H as [-> H]; simplify_eq
  | H : runs (get_s _) _ _ |- _ => destruct H as [-> H]; simplify_eq
  | H : runs (put_s _ _) _ _ |- _ => destruct H as [-> H]; simplify_eq
  | H : runs (ask_s _ _) _ _ |- _ => destruct H as (? & ? & -> & -> & H); simplify_eq
  | H : runs ((_ ≫= _) _) _ _ |- _ => apply runs_sbind in H as (? & ? & ? & ? & -> & ? & H)
  | H : runs ((match ?x with _ => _ end) _) _ _ |- _ => destruct x eqn:?
  end.
