(* ===== verification/Strutil.v ===== *)
(** The string helpers the commands share (src/internal/strutil). *)

From Stdlib Require Import Ascii String.
From S2P Require Import Prelude GoStrings.
Local Open Scope Z_scope.

Definition CompactDuration (d : duration) : string :=
  let d := Z.max d 0 in
  if d <? Minute then Itoa (d / Second) +:+ "s"
  else if d <? Hour then Itoa (d / Minute) +:+ "m"
  else if d <? 48 * Hour then Itoa (d / Hour) +:+ "h"
  else Itoa (d / (24 * Hour)) +:+ "d".

Definition OneLine (s : string) : string := Join (Fields s) " ".
