(* ===== verification/AccessLog.v ===== *)
(** Where an access record goes (LogAccess of internal/app/app.go, and
    spoolAccess and drainSpool of internal/app/inventory.go): to Postgres, to
    the outbox when Postgres is away, or, told to the caller, nowhere. *)

From S2P Require Import Prelude GoStrings AuditSpool.

(** The answer to the caller: nothing, queued with so many pending, or lost. *)
Inductive log_error := Spooled (cause : string) (pending : nat) | Lost (cause : string).

Section log.
(** A stored line's size, the spool's limit, and the name of a new claim file. *)
Context (line_size : line → Z) (MaxBytes : Z) (fresh : gmap fname file → string).

(** One access and what it meets: opening the audit store, the store, the disk
    (its answers to an append, that of [HasBacklog]'s stat and those to the
    drain), the clock. *)
Record meeting := {
  m_open : option string; m_sink : Sink; m_insert_error : string; m_append : AppendDisk; m_stat : bool; m_disk : Disk; m_now : time_t;
}.

Definition spoolAccess (w : world) (e : AccessEntry) (m : meeting) (cause : string) : world * option log_error :=
  match Append line_size (m_append m) MaxBytes (fs w) e (m_now m) with
  | (fs', Some _) => (with_fs w fs', Some (Lost cause))
  | (fs', None) => (with_fs w fs', Some (Spooled cause (Pending fs')))
  end.

(** [None] for the budget: the spool's own. *)
Definition drainSpool (w : world) (m : meeting) : world :=
  if m_stat m && HasBacklog line_size (fs w) then (Drain fresh (m_disk m) (m_sink m) 0 w).1.1 else w.

Definition App_LogAccess (w : world) (e : AccessEntry) (m : meeting) : world * option log_error :=
  match m_open m with
  | Some cause => spoolAccess w e m cause
  | None =>
      let '(w, ok) := LogAccess (m_sink m) w e in
      if ok then (drainSpool w m, None) else spoolAccess w e m (m_insert_error m)
  end.

(** Accesses one after another, with the answers. *)
Fixpoint accesses (w : world) (l : list (AccessEntry * meeting)) : world * list (option log_error) :=
  match l with
  | [] => (w, [])
  | (e, m) :: l' => let '(w, r) := App_LogAccess w e m in let '(w, rs) := accesses w l' in (w, r :: rs)
  end.

(** ** Nothing is lost quietly *)

(** The record as it is kept: a queued one has its time filled in. *)
Definition kept_as (e : AccessEntry) (m : meeting) (r : option log_error) : list AccessEntry :=
  match r with None => [e] | Some (Spooled _ _) => [stamped e (m_now m)] | Some (Lost _) => [] end.

Fixpoint kept_of (l : list (AccessEntry * meeting)) (rs : list (option log_error)) : list AccessEntry :=
  match l, rs with (e, m) :: l', r :: rs' => kept_as e m r ++ kept_of l' rs' | _, _ => [] end.

Definition trail (w : world) : list AccessEntry := delivered w ++ recs (fs w).

(** Nothing an access meets fails half way: the disk works, and a statement
    that fails did nothing. *)
Definition plain (m : meeting) : Prop := m_append m = append_ok ∧ (∀ op, m_disk m op = true) ∧ truthful (m_sink m).

(** Writes that were cut short. *)
Definition torn_writes (l : list (AccessEntry * meeting)) : list (AccessEntry * meeting) := filter (λ em, tears (a_write (m_append em.2))) l.

(** From a world to the next: nothing but [gone], which is at most what the
    rests of torn writes put at risk, leaves the trail. *)
Record stays (kept gone : list AccessEntry) (torn : nat) (exact : Prop) (w w' : world) : Prop := {
  st_readable : readable (fs w');
  st_kept : trail w ++ kept ⊆+ trail w' ++ gone;
  st_gone : (length gone + at_risk (fs w') ≤ at_risk (fs w) + 2 * torn)%nat;
  st_exact : exact → trail w ++ kept ≡ₚ trail w' ++ gone;
}.

Lemma stays_trans k1 k2 g1 g2 t1 t2 (x1 x2 : Prop) w1 w2 w3 : stays k1 g1 t1 x1 w1 w2 → stays k2 g2 t2 x2 w2 w3 → stays (k1 ++ k2) (g1 ++ g2) (t1 + t2) (x1 ∧ x2) w1 w3.
Proof.
  intros [R1 K1 G1 X1] [R2 K2 G2 X2]. split; [done| |rewrite length_app; lia|].
  - rewrite (assoc_L (++)). etrans; [by apply submseteq_skips_r|]. transitivity ((trail w2 ++ k2) ++ g1); [apply Permutation_submseteq; solve_Permutation|].
    etrans; [by apply submseteq_skips_r|]. apply Permutation_submseteq. solve_Permutation.
  - intros [E1%X1 E2%X2]. rewrite (assoc_L (++)), E1. transitivity ((trail w2 ++ k2) ++ g1); [solve_Permutation|]. rewrite E2. solve_Permutation.
Qed.

Context (Hfresh : ∀ m, m !! Claim (fresh m) = None).

Lemma spoolAccess_stays w e m cause w' r : readable (fs w) → spoolAccess w e m cause = (w', r) →
  r ≠ None ∧ ∃ gone, stays (kept_as e m r) gone (if tears (a_write (m_append m)) then 1 else 0) (plain m) w w'.
Proof.
  intros Hr. unfold spoolAccess. destruct (Append _ _ _ _ _ _) as [fs' err] eqn:E.
  pose proof (Append_risk _ _ _ _ _ _ _ _ E) as Hk. pose proof (Append_cases _ _ _ _ _ _ _ _ E) as Hc. apply Append_spec in E as (P & Hst & _). cbv zeta in P, Hst.
  set (gone := swallows _ _ _ _) in *. set (new := on_disk _ _ _) in *.
  assert (readable fs') as Hr'.
  { unfold readable in *. assert (Forall storable (recs (fs w) ++ new)) as HF; [|rewrite <-P in HF; by apply Forall_app in HF as [? _]].
    apply Forall_app. split; [done|]. subst new. unfold on_disk in *. destruct (_ && _); [|by constructor]. constructor; [by apply Hst|constructor]. }
  assert (∀ k, k ⊆+ new → (plain m → k ≡ₚ new) → stays k gone (if tears (a_write (m_append m)) then 1 else 0) (plain m) w (with_fs w fs')) as Hall.
  { intros k Hsub Hex. assert (trail w ++ new ≡ₚ trail (with_fs w fs') ++ gone) as T.
    { unfold trail. cbn. rewrite <-!(assoc_L (++)), P. done. }
    split; [done| |cbn; destruct (tears _); lia|]; [rewrite <-T; by apply submseteq_skips_l|]. intros Hx. by rewrite <-T, (Hex Hx). }
  destruct err as [x|]; intros [= <- <-]; (split; [done|]); exists gone; apply Hall; cbn [kept_as].
  - apply submseteq_nil_l.
  - intros (Ha & _). destruct Hc as [[_ Hw]|(o & _ & _ & _ & _ & Hw)]; [subst new; unfold on_disk; by rewrite Hw|]. assert (Some x = None); [|done]. apply Hw. by rewrite Ha.
  - destruct Hc as [[_ ?]|(o & _ & _ & _ & _ & Hw)]; [done|]. destruct (proj1 Hw eq_refl) as [Ew _]. subst new. by rewrite Ew.
  - intros _. destruct Hc as [[_ ?]|(o & _ & _ & _ & _ & Hw)]; [done|]. destruct (proj1 Hw eq_refl) as [Ew _]. subst new. by rewrite Ew.
Qed.

Lemma drainSpool_stays w m : readable (fs w) → stays [] [] 0 (plain m) w (drainSpool w m).
Proof.
  intros Hr. unfold drainSpool. case_if; [|split; rewrite ?app_nil_r; try done; cbn; lia]. destruct (Drain _ _ _ _ w) as [[w' r] err] eqn:E. cbn.
  pose proof (Drain_risk _ _ _ _ _ _ _ _ Hr (Hfresh _) E) as Hk. destruct (Drain_moves fresh _ _ _ _ _ _ _ Hr (Hfresh _) E) as [H1 _ H3 H4].
  split; [done|by rewrite !app_nil_r|cbn; lia|]. intros (_ & Hd & Ht). rewrite !app_nil_r. by apply H4.
Qed.

Lemma LogAccess_stays w e m w' r : readable (fs w) → App_LogAccess w e m = (w', r) →
  ∃ gone, stays (kept_as e m r) gone (if tears (a_write (m_append m)) then 1 else 0) (plain m) w w'.
Proof.
  intros Hr. unfold App_LogAccess. destruct (m_open m) as [cause|]; [intros H; by apply spoolAccess_stays in H as [_ H]|].
  destruct (LogAccess (m_sink m) w e) as [w1 ok] eqn:E. apply sink_call_delivers in E as (Hf & tw & Hd & Ht).
  assert (stays (if ok then [e] else []) [] 0 (plain m) w w1) as S1.
  { assert (trail w1 ≡ₚ (trail w ++ (if ok then [e] else [])) ++ tw) as P by (unfold trail; rewrite Hf, Hd; solve_Permutation).
    split; rewrite ?app_nil_r; [by rewrite Hf|rewrite P; by apply submseteq_inserts_r|rewrite Hf; cbn; lia|].
    intros (_ & _ & Hx). by rewrite P, (Ht (or_intror Hx)), app_nil_r. }
  assert (readable (fs w1)) as Hr1 by (by rewrite Hf). destruct ok.
  - intros [= <- <-]. exists []. pose proof (stays_trans _ _ _ _ _ _ _ _ _ _ _ S1 (drainSpool_stays w1 m Hr1)) as [R K G X].
    change (length ([] ++ [])) with 0%nat in G. split; [done|done|change (length []) with 0%nat; destruct (tears _); lia|]. intros Hx. by apply X.
  - intros H. apply spoolAccess_stays in H as [_ [gone S2]]; [|done]. exists gone. pose proof (stays_trans _ _ _ _ _ _ _ _ _ _ _ S1 S2) as [R K G X].
    split; [done..|]. intros Hx. by apply X.
Qed.

(** C20. The trail of accesses is whole.  Over any sequence of accesses, whatever
    becomes of opening the store, of each insert and each disk operation: every
    record is in Postgres or in the outbox, or its caller was told it is lost,
    but for those a torn write of the outbox took with it, at most two for each,
    one whose remains are already there included: [gone].  And when the disk works, and a statement that fails did nothing,
    the trail is exactly those records, none twice and none gone. *)
Theorem accesses_are_kept l : ∀ w w' rs, readable (fs w) → accesses w l = (w', rs) →
  length rs = length l ∧
  (∃ gone, trail w ++ kept_of l rs ⊆+ trail w' ++ gone ∧ (length gone ≤ at_risk (fs w) + 2 * length (torn_writes l))%nat) ∧
  (untorn (fs w) → Forall (λ em, plain em.2) l → trail w ++ kept_of l rs ≡ₚ trail w').
Proof.
  intros w w' rs Hr E. assert (length rs = length l ∧ ∃ gone, stays (kept_of l rs) gone (length (torn_writes l)) (Forall (λ em, plain em.2) l) w w') as [L [gone [R K G X]]].
  { revert w w' rs Hr E. induction l as [|[e m] l IH]; intros w w' rs Hr; cbn [accesses].
    - intros [= <- <-]. split; [done|]. exists []. split; cbn; rewrite ?app_nil_r; (done || lia).
    - destruct (App_LogAccess w e m) as [w1 r] eqn:E1. destruct (accesses w1 l) as [w2 rs2] eqn:E2. intros [= <- <-].
      apply LogAccess_stays in E1 as [g1 S1]; [|done]. destruct (IH w1 w2 rs2 (st_readable _ _ _ _ _ _ S1) E2) as [L [g2 S2]].
      split; [cbn; by rewrite L|]. exists (g1 ++ g2). destruct (stays_trans _ _ _ _ _ _ _ _ _ _ _ S1 S2) as [R K G X]. cbn [kept_of]. split; [done|done| |].
      + unfold torn_writes. rewrite list.filter_cons. cbn [snd]. destruct (tears (a_write (m_append m))).
        * rewrite decide_True by done. cbn [length]. unfold torn_writes in G. lia.
        * rewrite decide_False by (intros H; done). exact G.
      + intros [Hd Hl]%Forall_cons. by apply X. }
  split_and!; [done|exists gone; split; [done|lia]|]. intros Hu Hp. rewrite (X Hp). cut (gone = []); [intros ->; by rewrite app_nil_r|].
  apply length_zero_iff_nil. assert (torn_writes l = []) as Ht.
  { unfold torn_writes. clear -Hp. induction Hp as [|[e m] l (Ha & _) Hp IH]; [done|]. rewrite list.filter_cons. cbn [snd] in *.
    rewrite decide_False; [done|]. rewrite Ha. by intros ?. }
  assert (at_risk (fs w) = 0%nat) as Hk; [|rewrite Ht in G; cbn in G; lia].
  unfold at_risk. destruct (fs w !! Live) as [[ls t]|] eqn:EL; [|done]. by rewrite (Hu _ _ EL : t = None).
Qed.
End log.

Module Sample.
Definition unused (m : gmap fname file) : string := infinite_fresh (claim_names m).

Lemma unused_unused m : m !! Claim (unused m) = None.
Proof.
  destruct (m !! Claim (unused m)) eqn:E; [|done]. exfalso. apply (infinite_is_fresh (claim_names m)).
  apply claim_names_elem. by eexists.
Qed.

Definition entry (n : string) (t : time_t) : AccessEntry :=
  {| VaultUser := "alice"; Hostname := n; CertSerial := "7"; SignedAt := t; OK := true; SourceIP := ""; SourceAddr := ""; ClientHost := ""; ClientUser := "";
     TargetAddr := ""; JumpVia := ""; Error := "" |}.
Definition store_up : Sink := {| is_batch := true; accepts := λ _ _, true; lands := λ _ _, false |}.
Definition met (down : bool) : meeting :=
  {| m_open := if down then Some "no route to the database" else None; m_sink := store_up; m_insert_error := ""; m_append := append_ok; m_stat := true; m_disk := λ _, true; m_now := 1000000000 |}.
Definition nothing : world := {| fs := ∅; calls := 0; delivered := [] |}.
Definition logged := accesses (λ _, 200) 4096 unused nothing [(entry "a" 1000000000, met true); (entry "b" 1000000000, met false)].

Lemma accesses_are_kept_witness :
  logged.2 = [Some (Spooled "no route to the database" 1); None] ∧ trail logged.1 ≡ₚ [entry "a" 1000000000; entry "b" 1000000000] ∧
  delivered logged.1 = [entry "b" 1000000000; entry "a" 1000000000].
Proof.
  assert (logged.2 = [Some (Spooled "no route to the database" 1); None]) as E by (vm_compute; reflexivity).
  split_and!; [exact E| |vm_compute; reflexivity].
  pose proof (accesses_are_kept (λ _, 200) 4096 unused unused_unused [(entry "a" 1000000000, met true); (entry "b" 1000000000, met false)]
    nothing logged.1 logged.2) as H.
  destruct H as (_ & _ & H); [constructor|unfold logged; by destruct (accesses _ _ _ _ _)|].
  rewrite <- H by (by apply map_Forall_empty || (repeat constructor; by intros ?)). rewrite E. vm_compute. reflexivity.
Defined.

Definition torn (m : meeting) : meeting :=
  {| m_open := m_open m; m_sink := m_sink m; m_insert_error := m_insert_error m; m_append := cut_short; m_stat := m_stat m; m_disk := m_disk m; m_now := m_now m |}.

(** The record after one whose write was cut short is reported queued, with
    nothing in the queue. *)
Lemma a_torn_write_takes_the_next :
  let out := accesses (λ _, 200) 4096 unused nothing [(entry "a" 1000000000, torn (met true)); (entry "b" 1000000000, met true)] in
  out.2 = [Some (Lost "no route to the database"); Some (Spooled "no route to the database" 0)] ∧ trail out.1 = [].
Proof. vm_compute. split; reflexivity. Qed.

(** An insert whose answer was lost is queued and written again. *)
Definition answer_lost (m : meeting) : meeting :=
  {| m_open := None; m_sink := {| is_batch := true; accepts := λ n _, (0 <? n)%nat; lands := λ _ _, true |}; m_insert_error := "timeout"; m_append := append_ok;
     m_stat := true; m_disk := λ _, true; m_now := m_now m |}.

Lemma a_lost_answer_is_written_twice :
  delivered (accesses (λ _, 200) 4096 unused nothing [(entry "a" 1000000000, answer_lost (met false)); (entry "b" 1000000000, met false)]).1 =
  [entry "a" 1000000000; entry "b" 1000000000; entry "a" 1000000000].
Proof. vm_compute. reflexivity. Qed.
End Sample.
