(* ===== verification/Sshc.v ===== *)
(** SSH sessions with certificates of one use (internal/sshc/ssh.go and
    knownhosts.go): a key made for each hop, the certificate Vault signs for it,
    the chain of jump hosts, the shell or command at its end, and the judgement
    of host keys.  The ssh library, the terminal, Vault and the audit log are
    the outside ([io]). *)

From S2P Require Import Prelude GoStrings NetIP Effects AuditSpool.

(** An error, as far as its text and [errors.As] show it: [Wrap] is
    [fmt.Errorf] with [%w] at the end. *)
Inductive error := Msg (s : string) | OpError (op s : string) | Wrap (prefix : string) (e : error).

Fixpoint error_text (e : error) : string :=
  match e with Msg s | OpError _ s => s | Wrap p e => p +:+ error_text e end.

(** [errors.As] for a [net.OpError]: its operation. *)
Fixpoint as_op (e : error) : option string :=
  match e with Msg _ => None | OpError op _ => Some op | Wrap _ e => as_op e end.

Inductive Target : Type := MkTarget {
  Name : string;
  Addr : string;
  User : string;
  Role : string;
  SkipDirect : bool;
  ConfirmHostKey : bool;
  AutoAddHostKey : bool;
  Jump : option Target;
}.

(** Along the chain of jump hosts. *)
Lemma chain_ind (P : Target → Prop) : (∀ t, Jump t = None → P t) → (∀ t j, Jump t = Some j → P j → P t) → ∀ t, P t.
Proof.
  intros H0 H1. fix IH 1. intros t. destruct t as [n a u r sd ch aa jump]. destruct jump as [j|].
  - apply (H1 _ j); [done|]. apply IH.
  - by apply H0.
Qed.

Record ConnectionInfo := { SourceAddr : string; SourceIP : string; TargetAddr : string; ViaJump : bool; JumpHost : string }.

Record RunResult := { Stdout : string; Stderr : string; ExitCode : Z }.

(** A certificate with the key it is for, and what a client presents. *)
Record signer := { sg_Cert : string; sg_Key : string }.
Record config := { cfg_User : string; cfg_Signer : signer; cfg_Confirm : bool; cfg_AutoAdd : bool; cfg_Timeout : duration }.

(** An open client; [LocalAddr] as text, if the connection has one. *)
Record connection := { cn_id : nat; LocalAddr : option string }.

(** What a remote command or shell ends with. *)
Inductive session_error := Exited (code : Z) | Broken (e : error).
Inductive run_end := Finished (r : option session_error) | Cancelled (e : error).

Inductive io :=
| GenerateKey
| SignSSH (role publicKey : string) (principals : list string) (ttl : string) (extensions : list string)
| Dial (addr : string) (cfg : config)
| DialThrough (via : connection) (addr : string)
| NewClientConn (conn : nat) (addr : string) (cfg : config)
| CloseClient (c : connection)
| NewSession (c : connection)
| CloseSession (c : connection)
| IsTerminal
| MakeRaw
| RestoreTerminal
| GetSize
| RequestPty (c : connection) (term : string) (h w : Z) (modes : list (string * Z))
| WatchResize (c : connection)
| StartShell (c : connection)
| WaitShell (c : connection)
| RunCommand (c : connection) (command : string) (input : option string)
| Kill (c : connection)
| Now
| Identity
| LogAccess (e : AccessEntry)
| AuditWarning (e : error).

Definition io_answer (e : io) : Type :=
  match e with
  | GenerateKey | SignSSH _ _ _ _ _ => result error string
  | Dial _ _ | NewClientConn _ _ _ => result error connection
  | DialThrough _ _ => result error nat
  | NewSession _ | MakeRaw | RequestPty _ _ _ _ _ | StartShell _ | LogAccess _ => option error
  | CloseClient _ | CloseSession _ | RestoreTerminal | WatchResize _ | Kill _ | AuditWarning _ => unit
  | IsTerminal => bool
  | GetSize => option (Z * Z)
  | WaitShell _ => option session_error
  | RunCommand _ _ _ => string * string * run_end
  | Now => time_t
  | Identity => string * option error
  end.

Definition ptyExtensions : list string := ["permit-pty"].
Definition portForwardExtensions : list string := ["permit-port-forwarding"].

Section sshc.
(** [ssh.ParseAuthorizedKey]: its error, a plain key, or a certificate with its
    serial; [ssh.NewCertSigner]'s refusal of a certificate for another key; the
    TERM variable. *)
Context (ParseAuthorizedKey : string → result string (option Z)) (NewCertSigner : string → string → option error) (TERM : string).
Context {S : Type}.
Notation M := (sprog io_answer S).

(** A [SignFunc]. *)
Definition SignFunc : Type := string → string → list string → list string → M (result error string).

Definition CertSerial (certStr : string) : string :=
  match ParseAuthorizedKey certStr with Ok (Some serial) => Itoa serial | _ => "" end.

Definition certSigner (role user : string) (sign : SignFunc) (extensions : list string) : M (result error signer) :=
  key ← ask_s GenerateKey;
  match key : result error string with
  | Err e => mret (Err e)
  | Ok authKey =>
      r ← sign role authKey [user] extensions;
      mret match r with
      | Err e => Err e
      | Ok cert =>
          match ParseAuthorizedKey cert with
          | Err e => Err (Wrap "parse signed cert: " (Msg e))
          | Ok None => Err (Msg "signed result is not a certificate")
          | Ok (Some _) => match NewCertSigner cert authKey with Some e => Err e | None => Ok {| sg_Cert := cert; sg_Key := authKey |} end
          end
      end
  end.

Definition clientConfig (t : Target) (sign : SignFunc) (extensions : list string) : M (result error config) :=
  r ← certSigner (Role t) (User t) sign extensions;
  mret (s ← r; Ok {| cfg_User := User t; cfg_Signer := s; cfg_Confirm := ConfirmHostKey t; cfg_AutoAdd := AutoAddHostKey t; cfg_Timeout := 15 * Second |}).

(** A client with its cleanup: the clients to close, in order. *)
Notation opened := (connection * list connection)%type.

Definition dialSingle (t : Target) (sign : SignFunc) (extensions : list string) : M (result error opened) :=
  cfg ← clientConfig t sign extensions;
  match cfg with
  | Err e => mret (Err e)
  | Ok cfg =>
      c ← ask_s (Dial (Addr t) cfg);
      mret (c ← (c : result error connection); Ok (c, [c]))
  end.

Fixpoint cleanup (cs : list connection) : M () :=
  match cs with
  | [] => mret tt
  | c :: cs' => ask_s (CloseClient c);; cleanup cs'
  end.

Fixpoint dialChain (t : Target) (sign : SignFunc) (leafExtensions : list string) : M (result error opened) :=
  match Jump t with
  | None => dialSingle t sign leafExtensions
  | Some j =>
      r ← dialChain j sign portForwardExtensions;
      match r with
      | Err e => mret (Err (Wrap ("jump " +:+ Name j +:+ " connection: ") e))
      | Ok (jclient, jcleanup) =>
          conn ← ask_s (DialThrough jclient (Addr t));
          match conn : result error nat with
          | Err e => cleanup jcleanup;; mret (Err (Wrap ("connect through jump to " +:+ Addr t +:+ ": ") e))
          | Ok conn =>
              cfg ← clientConfig t sign leafExtensions;
              match cfg with
              | Err e => cleanup jcleanup;; mret (Err e)
              | Ok cfg =>
                  c ← ask_s (NewClientConn conn (Addr t) cfg);
                  match c : result error connection with
                  | Err e => cleanup jcleanup;; mret (Err (Wrap (Name t +:+ " handshake: ") e))
                  | Ok c => mret (Ok (c, c :: jcleanup))
                  end
              end
          end
      end
  end.

Definition addrIP (addr : string) : string :=
  let host := match SplitHostPort addr with Some (h, _) => h | None => addr end in
  match ParseIP host with Some _ => host | None => "" end.

Definition connectionInfo (client : option connection) (t : Target) (viaJump : bool) : ConnectionInfo :=
  let addr := c ← client; LocalAddr c in
  {| SourceAddr := default "" addr; SourceIP := from_option addrIP "" addr; TargetAddr := Addr t; ViaJump := viaJump;
     JumpHost := match Jump t with Some j => if viaJump then Name j else "" | None => "" end |}.

Definition dialJump (t : Target) (sign : SignFunc) : M (result error opened * ConnectionInfo) :=
  r ← dialChain t sign ptyExtensions;
  mret match r with
  | Err e => (Err e, connectionInfo None t true)
  | Ok (c, cl) => (Ok (c, cl), connectionInfo (Some c) t true)
  end.

Definition client_of (r : result error opened) : option connection := match r with Ok (c, _) => Some c | Err _ => None end.

Definition dialTarget (t : Target) (sign : SignFunc) : M (result error opened * ConnectionInfo) :=
  if SkipDirect t && bool_decide (is_Some (Jump t)) then dialJump t sign
  else
    r ← dialSingle t sign ptyExtensions;
    match r, Jump t with
    | Err directErr, Some _ =>
        j ← dialJump t sign;
        mret (match j.1 with
              | Err jumpErr => Err (Wrap ("direct connection failed: " +:+ error_text directErr +:+ "; jump connection failed: ") jumpErr)
              | Ok o => Ok o
              end, j.2)
    | _, _ => mret (r, connectionInfo (client_of r) t false)
    end.

(** ** The shell *)

Definition terminal_modes : list (string * Z) := [("ECHO", 1); ("TTY_OP_ISPEED", 14400); ("TTY_OP_OSPEED", 14400)].

(** From [RequestPty] on. *)
Definition shell_on (c : connection) (terminal : bool) (w h : Z) : M (option error) :=
  let term := if String.eqb TERM "" then "xterm-256color" else TERM in
  r ← ask_s (RequestPty c term h w terminal_modes);
  match r : option error with
  | Some e => mret (Some e)
  | None =>
      (if terminal then ask_s (WatchResize c) else mret tt);;
      r ← ask_s (StartShell c);
      match r : option error with
      | Some e => mret (Some e)
      | None =>
          r ← ask_s (WaitShell c);
          mret match r : option session_error with Some (Broken e) => Some e | _ => None end
      end
  end.

Definition shell (c : connection) : M (option error) :=
  r ← ask_s (NewSession c);
  match r : option error with
  | Some e => mret (Some e)
  | None =>
      terminal ← ask_s IsTerminal;
      if terminal : bool then
        raw ← ask_s MakeRaw;
        match raw : option error with
        | Some e => ask_s (CloseSession c);; mret (Some e)
        | None =>
            size ← ask_s GetSize;
            let '(w, h) := default (80, 24) (size : option (Z * Z)) in
            e ← shell_on c true w h;
            ask_s RestoreTerminal;; ask_s (CloseSession c);; mret e
        end
      else
        e ← shell_on c false 80 24;
        ask_s (CloseSession c);; mret e
  end.

(** [afterDial]: called between the connection and the shell. *)
Definition Connect (t : Target) (sign : SignFunc) (afterDial : ConnectionInfo → M ()) : M (ConnectionInfo * option error) :=
  d ← dialTarget t sign;
  match d.1 with
  | Err e => mret (d.2, Some e)
  | Ok (c, cl) => afterDial d.2;; e ← shell c; cleanup cl;; mret (d.2, e)
  end.

Definition no_result : RunResult := {| Stdout := ""; Stderr := ""; ExitCode := 0 |}.

Definition RunWithInput (t : Target) (sign : SignFunc) (command : string) (input : option string) : M (RunResult * ConnectionInfo * option error) :=
  d ← dialTarget t sign;
  match d.1 with
  | Err e => mret (no_result, d.2, Some e)
  | Ok (c, cl) =>
      s ← ask_s (NewSession c);
      match s : option error with
      | Some e => cleanup cl;; mret (no_result, d.2, Some e)
      | None =>
          r ← ask_s (RunCommand c command input);
          let '(out, err, how) := (r : string * string * run_end) in
          match how with
          | Cancelled e =>
              ask_s (Kill c);; ask_s (CloseSession c);; ask_s (CloseSession c);; cleanup cl;;
              mret ({| Stdout := out; Stderr := err; ExitCode := 0 |}, d.2, Some e)
          | Finished how =>
              ask_s (CloseSession c);; cleanup cl;;
              mret match how with
              | Some (Exited code) => ({| Stdout := out; Stderr := err; ExitCode := code |}, d.2, None)
              | Some (Broken e) => ({| Stdout := out; Stderr := err; ExitCode := 0 |}, d.2, Some e)
              | None => ({| Stdout := out; Stderr := err; ExitCode := 0 |}, d.2, None)
              end
          end
      end
  end.
End sshc.

Definition IsAuthFailure (e : option error) : bool :=
  match e with Some e => Contains (error_text e) "unable to authenticate" | None => false end.

(** ** Host keys *)

(** What the known_hosts file says of a host's key. *)
Inductive known := Recorded | Unknown | Mismatch (e : string).

(** The outside of one check: the home directory or the error; the error of
    reading the file, and what it says; the key's fingerprint; the terminal and
    the line typed there; the error of appending a line. *)
Record key_check := {
  kc_home : result string string;
  kc_load : option string;
  kc_verify : known;
  kc_fingerprint : string;
  kc_terminal : bool;
  kc_typed : option string;
  kc_append : option string;
}.

Inductive key_event := Prompted | Appended (addrs : list string).

Section host_keys.
(** [knownhosts.Normalize]. *)
Context (Normalize : string → string).

Definition confirmHostKey (w : key_check) : bool :=
  match kc_typed w with
  | None => false
  | Some line => let answer := ToLower (TrimSpace line) in String.eqb answer "y" || String.eqb answer "yes"
  end.

Definition known_line (hostname : string) (remote : option string) : list string :=
  let first := Normalize hostname in
  first :: match remote with Some r => if String.eqb (Normalize r) first then [] else [Normalize r] | None => [] end.

Definition appendKnownHost (w : key_check) (hostname : string) (remote : option string) : option string * list key_event :=
  match kc_append w with Some e => (Some e, []) | None => (None, [Appended (known_line hostname remote)]) end.

(** The error, or [None] for a trusted key, with what was prompted and added. *)
Definition hostKeyCallback (confirmUnknown autoAdd : bool) (w : key_check) (hostname : string) (remote : option string) : option string * list key_event :=
  let unavailable e := (Some ("host key verification unavailable for " +:+ hostname +:+ ": " +:+ e), []) in
  match kc_home w, kc_load w with
  | Err e, _ => unavailable ("home directory lookup: " +:+ e)
  | Ok home, Some e => unavailable ("known_hosts load " +:+ home +:+ "/.ssh/known_hosts: " +:+ e)
  | Ok _, None =>
      match kc_verify w with
      | Recorded => (None, [])
      | Mismatch e => (Some e, [])
      | Unknown =>
          if autoAdd then appendKnownHost w hostname remote
          else if negb confirmUnknown || negb (kc_terminal w) then 
            (Some ("unknown SSH host key for " +:+ hostname +:+ " (" +:+ kc_fingerprint w +:+ "); connect interactively once to verify it"), [])
          else if negb (confirmHostKey w) then (Some ("SSH host key for " +:+ hostname +:+ " was not trusted"), [Prompted])
          else let '(e, l) := appendKnownHost w hostname remote in (e, Prompted :: l)
      end
  end.
End host_keys.
