(* ===== verification/Access.v ===== *)
(** The connection pipeline (internal/access/access.go and monitor.go): every
    connection signs, dials and is written to the access log, and a monitor
    writes only what changed. *)

From S2P Require Import Prelude GoStrings GoFormat InvCache AuditSpool Effects Sshc.

Inductive HostKeyPolicy := HostKeyPrompt | HostKeyStrict | HostKeyAcceptNew.
#[export] Instance HostKeyPolicy_eq_dec : EqDecision HostKeyPolicy.
Proof. solve_decision. Defined.

(** On every hop of the chain. *)
Fixpoint apply (p : HostKeyPolicy) (t : Target) : Target :=
  {| Name := Name t; Addr := Addr t; Sshc.User := Sshc.User t; Role := Role t; SkipDirect := SkipDirect t;
     ConfirmHostKey := bool_decide (p = HostKeyPrompt); AutoAddHostKey := bool_decide (p = HostKeyAcceptNew);
     Jump := match Jump t with Some j => Some (apply p j) | None => None end |}.

Record Request := { rq_Target : Target; HostKey : HostKeyPolicy }.

Record Result := { r_Host : string; r_Addr : string; r_Stdout : string; r_Stderr : string; r_ExitCode : Z }.

(** Who runs the client: [user.Current], USER, [os.Hostname]. *)
Record client := { os_user : option string; env_USER : string; os_hostname : string }.

Definition truncateAuditError (s : string) : string :=
  if (String.length s <=? 500)%nat then s else take_bytes 500 s.

Definition accessEntry (me : client) (vaultUser : string) (tgt : Target) (info : ConnectionInfo) (certSerial : string) (signedAt : time_t)
    (connErr : option error) : AccessEntry :=
  {| AuditSpool.VaultUser := vaultUser; AuditSpool.Hostname := Name tgt; AuditSpool.CertSerial := certSerial; SignedAt := signedAt;
     OK := bool_decide (connErr = None);
     AuditSpool.SourceIP := SourceIP info; AuditSpool.SourceAddr := SourceAddr info; ClientHost := os_hostname me;
     ClientUser := (let u := default "" (os_user me) in if String.eqb u "" then env_USER me else u);
     AuditSpool.TargetAddr := FirstNonEmpty [TargetAddr info; Addr tgt]; AuditSpool.JumpVia := JumpHost info;
     Error := match connErr with Some e => truncateAuditError (error_text e) | None => "" end |}.

(** ** The connector *)

(** What one connection's closures share: the last certificate's serial, when it
    was signed, and whether the row was written. *)
Record attempt := { serial : string; signedAt : time_t; recorded : bool }.
Definition fresh : attempt := {| serial := ""; signedAt := 0; recorded := false |}.

Section connector.
Context (ParseAuthorizedKey : string → result string (option Z)) (NewCertSigner : string → string → option error) (TERM : string).
(** The connector's own fields: the certificate's lifetime, and whether somebody
    listens for audit errors. *)
Context (me : client) (SignTTL : string) (has_OnAuditError : bool).
Notation M := (sprog io_answer attempt).

Definition on_audit_error (e : error) : M () := if has_OnAuditError then ask_s (AuditWarning e) else mret tt.

Definition signFunc : @SignFunc attempt := λ role pub principals extensions,
  cert ← ask_s (SignSSH role pub principals SignTTL extensions);
  match cert : result error string with
  | Err e => mret (Err e)
  | Ok cert =>
      let s := CertSerial ParseAuthorizedKey cert in
      (if String.eqb s "" then mret tt
       else st ← get_s; t ← ask_s Now; put_s {| serial := s; signedAt := t; recorded := recorded st |});;
      mret (Ok cert)
  end.

Definition attributedIdentity : M string :=
  r ← ask_s Identity;
  let '(id, err) := (r : string * option error) in
  match err with
  | Some e => on_audit_error (Wrap "identity lookup failed; the audit row will carry no user: " e)
  | None => mret tt
  end;;
  mret id.

Definition record (entry : AccessEntry) : M () :=
  r ← ask_s (LogAccess entry);
  match r : option error with Some e => on_audit_error e | None => mret tt end.

Definition connect (req : Request) : M (option error) :=
  let t := apply (HostKey req) (rq_Target req) in
  vaultUser ← attributedIdentity;
  let after_dial dialed :=
    st ← get_s;
    record (accessEntry me vaultUser t dialed (serial st) (signedAt st) None);;
    put_s {| serial := serial st; signedAt := signedAt st; recorded := true |} in
  r ← Sshc.Connect ParseAuthorizedKey NewCertSigner TERM t signFunc after_dial;
  st ← get_s;
  (if recorded st then mret tt else record (accessEntry me vaultUser t r.1 (serial st) (signedAt st) r.2));;
  mret r.2.

(** [Connect], from its first line. *)
Definition Connect (req : Request) : prog io_answer (option error) := r ← connect req fresh; mret r.1.

(** The command without the row, and the row it is worth. *)
Definition run_ (req : Request) (command : string) (input : option string) : M (Result * AccessEntry * option error) :=
  let t := apply (HostKey req) (rq_Target req) in
  vaultUser ← attributedIdentity;
  r ← RunWithInput ParseAuthorizedKey NewCertSigner t signFunc command input;
  st ← get_s;
  let '(res, info, err) := r in
  mret ({| r_Host := Name t; r_Addr := Addr t; r_Stdout := Stdout res; r_Stderr := Stderr res; r_ExitCode := ExitCode res |},
        accessEntry me vaultUser t info (serial st) (signedAt st) err, err).

Definition ExecuteWithInput (req : Request) (command : string) (input : option string) : prog io_answer (Result * option error) :=
  r ← (r ← run_ req command input; record r.1.2;; mret (r.1.1, r.2)) fresh;
  mret r.1.

Definition Execute (req : Request) (command : string) : prog io_answer (Result * option error) := ExecuteWithInput req command None.

(** ** The monitor *)

Definition Monitor : gmap string bool := ∅.

Definition shouldRecord (seen : gmap string bool) (target : string) (ok : bool) : bool * gmap string bool :=
  (negb (bool_decide (seen !! target = Some ok)), <[target := ok]> seen).

Definition Poll (req : Request) (command : string) (seen : gmap string bool) : prog io_answer (Result * option error * gmap string bool) :=
  r ← (r ← run_ req command None;
       let '(write, seen') := shouldRecord seen (Name (rq_Target req)) (bool_decide (r.2 = None)) in
       (if write then record r.1.2 else mret tt);;
       mret (r.1.1, r.2, seen')) fresh;
  mret r.1.
End connector.

(** ** Resolving *)

Definition ResolveServer (resolve : string → result string (option Server * list Server)) (query : string) : result string Server :=
  '(sv, cands) ← resolve query;
  match sv with
  | Some sv => Ok sv
  | None =>
      if bool_decide (cands = []) then Err ("no server matches " +:+ Quote query)
      else Err (Quote query +:+ " is ambiguous (" +:+ Itoa (Z.of_nat (length cands)) +:+ " matches: " +:+ Join (InvCache.Hostname <$> cands) ", " +:+
                ") — pass an exact hostname")
  end.

Section build.
Context (Get : string → result string Server) (directFirst : bool).

Definition hop (sv : Server) (jump : option Target) : Target :=
  {| Name := InvCache.Hostname sv; Addr := JoinHostPort (InvCache.IP sv) (Itoa (Port sv)); Sshc.User := InvCache.User sv; Role := CARole sv; SkipDirect := negb directFirst;
     ConfirmHostKey := false; AutoAddHostKey := false; Jump := jump |}.

(** [None]: out of fuel. *)
Fixpoint buildTargetSeen (fuel : nat) (sv : Server) (seen : gset string) : option (result string Target) :=
  match fuel with
  | O => None
  | S fuel =>
      if bool_decide (InvCache.Hostname sv ∈ seen) then Some (Err ("jump host cycle detected: " +:+ InvCache.Hostname sv))
      else if String.eqb (InvCache.JumpVia sv) "" then Some (Ok (hop sv None))
      else match Get (InvCache.JumpVia sv) with
      | Err e => Some (Err ("lookup jump host " +:+ Quote (InvCache.JumpVia sv) +:+ ": " +:+ e))
      | Ok jsv =>
          j ← buildTargetSeen fuel jsv ({[InvCache.Hostname sv]} ∪ seen);
          Some (jt ← j; Ok (hop sv (Some jt)))
      end
  end.

Definition BuildTarget (fuel : nat) (sv : Server) : option (result string Target) := buildTargetSeen fuel sv ∅.
End build.

(** ** Reading a run *)

Notation event := (Effects.event io_answer).

Definition audit_of (ev : event) : option AccessEntry := match asked ev with LogAccess e => Some e | _ => None end.
(** The rows the audit store is given, whether or not it takes them. *)
Definition audits (tr : list event) : list AccessEntry := omap audit_of tr.

(** A session is asked for on a connection that stands, granted or refused. *)
Definition asks_session (ev : event) : bool := match asked ev with NewSession _ => true | _ => false end.
Definition is_success (ev : event) : bool := match asked ev with LogAccess e => OK e | _ => false end.

Definition opened_of (ev : event) : option connection :=
  let '(Ev e x) := ev in
  match e as e return io_answer e → option connection with
  | Dial _ _ | NewClientConn _ _ _ => λ x, match x with Ok c => Some c | Err _ => None end
  | _ => λ _, None
  end x.
Definition closed_of (ev : event) : option connection := match asked ev with CloseClient c => Some c | _ => None end.

Record grant := { g_Role : string; g_Principals : list string; g_TTL : string; g_Extensions : list string }.
Definition signed_of (ev : event) : option grant :=
  match asked ev with
  | SignSSH role _ principals ttl ext => Some {| g_Role := role; g_Principals := principals; g_TTL := ttl; g_Extensions := ext |}
  | _ => None
  end.

Notation opened_in tr := (omap opened_of tr).
Notation closed_in tr := (omap closed_of tr).
Notation signed_in tr := (omap signed_of tr).

(** The target and its jump hosts. *)
Fixpoint hops (t : Target) : list Target := t :: match Jump t with Some j => hops j | None => [] end.

(** An address a connection is opened to. *)
Definition dialed_of (ev : event) : option string :=
  match asked ev with Dial a _ | DialThrough _ a | NewClientConn _ a _ => Some a | _ => None end.

Section laws.
Context (ParseAuthorizedKey : string → result string (option Z)) (NewCertSigner : string → string → option error) (TERM : string).
Context (me : client) (SignTTL : string) (has_OnAuditError : bool).
Notation M := (sprog io_answer attempt).
Notation sign := (signFunc ParseAuthorizedKey SignTTL).

(** The last certificate that parses as one, and the clock's reading after it. *)
Definition stamp_step (s : string * time_t) (ev : event) : string * time_t :=
  let '(Ev e x) := ev in
  match e as e return io_answer e → string * time_t with
  | SignSSH _ _ _ _ _ => λ x,
      match x with
      | Ok cert => if String.eqb (CertSerial ParseAuthorizedKey cert) "" then s else (CertSerial ParseAuthorizedKey cert, s.2)
      | Err _ => s
      end
  | Now => λ t, (s.1, t)
  | _ => λ _, s
  end x.
Definition stamp_from (s : string * time_t) (tr : list event) : string * time_t := foldl stamp_step s tr.
Definition stamp_of (st : attempt) : string * time_t := (serial st, signedAt st).

(** What a hop's certificate is for. *)
Definition grant_of (t : Target) (ext : list string) : grant :=
  {| g_Role := Role t; g_Principals := [Sshc.User t]; g_TTL := SignTTL; g_Extensions := ext |}.

(** The certificates of a chain, jump hosts first. *)
Fixpoint chain_grants (t : Target) (ext : list string) : list grant :=
  match Jump t with Some j => chain_grants j portForwardExtensions | None => [] end ++ [grant_of t ext].

(** What dialing asks for. *)
Definition dialing (ev : event) : bool :=
  match asked ev with
  | GenerateKey | SignSSH _ _ _ _ _ | Now | Dial _ _ | DialThrough _ _ | NewClientConn _ _ _ | CloseClient _ => true
  | _ => false
  end.

(** What goes on in an open session. *)
Definition in_session (ev : event) : bool :=
  match asked ev with
  | CloseSession _ | IsTerminal | MakeRaw | RestoreTerminal | GetSize | RequestPty _ _ _ _ _ | WatchResize _ | StartShell _ | WaitShell _
  | RunCommand _ _ _ | Kill _ | NewSession _ => true
  | _ => false
  end.

Lemma sign_dials role pub ps ext : emits_s dialing (sign role pub ps ext).
Proof. unfold signFunc. emits_tac; done. Qed.

Lemma clientConfig_dials t ext : emits_s dialing (clientConfig ParseAuthorizedKey NewCertSigner t sign ext).
Proof. unfold clientConfig, certSigner. emits_tac; first [done|apply sign_dials]. Qed.

Lemma dialSingle_dials t ext : emits_s dialing (dialSingle ParseAuthorizedKey NewCertSigner t sign ext).
Proof. unfold dialSingle. emits_tac; first [done|apply clientConfig_dials]. Qed.

Lemma cleanup_dials cs : emits_s (S := attempt) dialing (cleanup cs).
Proof. induction cs; cbn; emits_tac; done. Qed.

Lemma dialChain_dials t : ∀ ext, emits_s dialing (dialChain ParseAuthorizedKey NewCertSigner t sign ext).
Proof.
  induction t as [[n a u r sd ch aa jump] Hj|[n a u r sd ch aa jump] j Hj IH] using chain_ind; intros ext; cbn in Hj; subst jump; cbn.
  - apply dialSingle_dials.
  - emits_tac; first [done|apply IH|apply cleanup_dials|apply clientConfig_dials].
Qed.

Lemma dialTarget_dials t : emits_s dialing (dialTarget ParseAuthorizedKey NewCertSigner t sign).
Proof. unfold dialTarget, dialJump. emits_tac; first [apply dialChain_dials|apply dialSingle_dials]. Qed.

Lemma shell_in_session c : emits_s (S := attempt) in_session (shell TERM c).
Proof. unfold shell, shell_on. emits_tac; done. Qed.

(** The stamp follows the certificates, and nothing else changes. *)
Definition kept (s : attempt) (tr : list event) (s' : attempt) : Prop :=
  stamp_of s' = stamp_from (stamp_of s) tr ∧ recorded s' = recorded s.

Lemma kept_app s t1 s1 t2 s2 : kept s t1 s1 → kept s1 t2 s2 → kept s (t1 ++ t2) s2.
Proof. intros [H1 H2] [H3 H4]. split; [|congruence]. unfold stamp_from. rewrite foldl_app. fold (stamp_from (stamp_of s) t1). by rewrite <- H1. Qed.

Lemma kept_one s ev : stamp_step (stamp_of s) ev = stamp_of s → kept s [ev] s.
Proof. by intros H. Qed.

Lemma sign_runs role pub ps ext s tr r : runs (sign role pub ps ext s) tr r →
  opened_in tr = [] ∧ closed_in tr = [] ∧ signed_in tr = [{| g_Role := role; g_Principals := ps; g_TTL := SignTTL; g_Extensions := ext |}] ∧ kept s tr r.2.
Proof.
  intros H. unfold signFunc in H. runs_tac; (split_and!; [done..|]); split; try done; cbn; unfold stamp_of; cbn; repeat case_match; simplify_eq; try done.
Qed.

(** The readings of an exchange made of others. *)
Ltac reading :=
  rewrite ?app_nil_r, ?omap_app; simpl;
  repeat match goal with E : omap _ ?x = _ |- context [omap _ ?x] => rewrite E end; simpl.
Ltac keeping :=
  rewrite ?app_nil_r; simpl;
  repeat first [done | eassumption | eapply kept_app | apply (kept_app _ [_] _ (_ :: _)) | apply (kept_app _ [_] _ (_ ++ _))].

Lemma clientConfig_runs t ext s tr r : runs (clientConfig ParseAuthorizedKey NewCertSigner t sign ext s) tr r →
  opened_in tr = [] ∧ closed_in tr = [] ∧ kept s tr r.2 ∧ signed_in tr `prefix_of` [grant_of t ext] ∧ (is_ok r.1 = true → signed_in tr = [grant_of t ext]).
Proof.
  intros H. unfold clientConfig, certSigner in H. runs_tac.
  all: repeat match goal with H : runs (signFunc _ _ _ _ _ _ _) _ _ |- _ => apply sign_runs in H as (? & ? & ? & ?) end.
  all: split_and!; [reading; done|reading; done|keeping| |]; reading; try done. apply prefix_nil.
Qed.

Lemma cleanup_runs cs s tr r : runs (cleanup cs (s : attempt)) tr r →
  opened_in tr = [] ∧ closed_in tr = cs ∧ signed_in tr = [] ∧ kept s tr r.2.
Proof.
  revert tr. induction cs as [|c cs IH]; cbn [cleanup]; intros tr H; runs_tac; [done|].
  match goal with H : runs (cleanup _ _) _ _ |- _ => apply IH in H as (? & ? & ? & ?) end.
  split_and!; [by reading..|keeping].
Qed.

(** What dialing a chain leaves. *)
Definition dialed (grants : list grant) (s : attempt) (tr : list event) (r : result error (connection * list connection) * attempt) : Prop :=
  kept s tr r.2 ∧ signed_in tr `prefix_of` grants ∧
  match r.1 with
  | Ok (c, cl) => opened_in tr = rev cl ∧ closed_in tr = [] ∧ signed_in tr = grants ∧ head cl = Some c
  | Err _ => closed_in tr = rev (opened_in tr)
  end.

Ltac parts :=
  repeat match goal with
  | H : runs (clientConfig _ _ _ _ _ _) _ _ |- _ => apply clientConfig_runs in H as (? & ? & ? & ? & ?)
  | H : runs (cleanup _ _) _ _ |- _ => apply cleanup_runs in H as (? & ? & ? & ?)
  | H : is_ok (Ok _, _).1 = true → _ |- _ => specialize (H eq_refl)
  end.

Lemma dialSingle_runs t ext s tr r : runs (dialSingle ParseAuthorizedKey NewCertSigner t sign ext s) tr r → dialed [grant_of t ext] s tr r.
Proof.
  intros H. unfold dialSingle in H. runs_tac; parts; unfold dialed.
  - destruct x5; split_and!; try by keeping; by reading.
  - split_and!; [keeping|by reading|by reading].
Qed.

Lemma dialChain_runs t : ∀ ext s tr r, runs (dialChain ParseAuthorizedKey NewCertSigner t sign ext s) tr r → dialed (chain_grants t ext) s tr r.
Proof.
  induction t as [[n a u ro sd ch aa jump] Hj|[n a u ro sd ch aa jump] j Hj IH] using chain_ind; intros ext s tr r H;
    cbn in Hj; subst jump; cbn in H; [by apply dialSingle_runs in H|].
  set (t := MkTarget _ _ _ _ _ _ _ _) in *. change (chain_grants t ext) with (chain_grants j portForwardExtensions ++ [grant_of t ext]).
  runs_tac; apply IH in H0 as (Hk & Hs & Hr); cbn in Hr; (try destruct Hr as (? & ? & ? & ?)); parts;
    (split_and!; [keeping|reading; rewrite ?app_nil_r; auto using prefix_app, prefix_app_r|reading; rewrite ?app_nil_r, ?rev_involutive; try done]).
Qed.

(** What an attempt at a target leaves: certificates for a direct attempt, then
    for the chain; every client it opened, closed last to first or handed on. *)
Definition reached (t : Target) (s : attempt) (tr : list event) (r : result error (connection * list connection) * ConnectionInfo * attempt) : Prop :=
  kept s tr r.2 ∧
  (∃ d c, signed_in tr = d ++ c ∧ d `prefix_of` [grant_of t ptyExtensions] ∧ c `prefix_of` chain_grants t ptyExtensions) ∧
  (∃ via, r.1.2 = connectionInfo (client_of r.1.1) t via) ∧
  match r.1.1 with
  | Ok (c, cl) => opened_in tr = rev cl ∧ closed_in tr = []
  | Err _ => closed_in tr = rev (opened_in tr)
  end.

Lemma dialJump_runs t s tr r : runs (dialJump ParseAuthorizedKey NewCertSigner t sign s) tr r →
  dialed (chain_grants t ptyExtensions) s tr (r.1.1, r.2) ∧ r.1.2 = connectionInfo (client_of r.1.1) t true.
Proof.
  intros H. unfold dialJump in H. runs_tac; apply dialChain_runs in H0 as (Hk & Hs & Hr); rewrite app_nil_r; destruct x1 as [[c cl]|e]; (split; [|done]); unfold dialed; by split_and!.
Qed.

Lemma single_Err g s tr e s' : dialed [g] s tr (Err e, s') → opened_in tr = [] → closed_in tr = [].
Proof. intros (_ & _ & ->) ->. done. Qed.

Lemma dialSingle_quiet t ext s tr e s' : runs (dialSingle ParseAuthorizedKey NewCertSigner t sign ext s) tr (Err e, s') → opened_in tr = [].
Proof. intros H. unfold dialSingle in H. runs_tac; parts; try destruct x5; simplify_eq/=; by reading. Qed.

Lemma dialTarget_runs t s tr r : runs (dialTarget ParseAuthorizedKey NewCertSigner t sign s) tr r → reached t s tr r.
Proof.
  intros H. unfold dialTarget in H. destruct (_ && _).
  - apply dialJump_runs in H as [(Hk & Hs & Hr) Hi]. split_and!; [done|exists [], (signed_in tr); split_and!; [done|apply prefix_nil|done]|by eexists|].
    cbn in Hr. destruct r.1.1 as [[c cl]|e]; [by destruct Hr as (? & ? & _)|done].
  - runs_tac; rewrite ?app_nil_r; pose proof H0 as Hd; apply dialSingle_runs in H0 as (Hk & Hs & Hr); cbn in Hr.
    + destruct a as [c cl], Hr as (? & ? & ? & _). split_and!; [done|exists (signed_in x), []; split_and!; [by rewrite app_nil_r|done|apply prefix_nil]|by eexists|done].
    + apply dialSingle_quiet in Hd as Ho. rewrite Ho in Hr. apply dialJump_runs in H1 as [(Hk2 & Hs2 & Hr2) Hi]. cbn in *.
      split_and!; [by eapply kept_app|exists (signed_in x), (signed_in x3); by rewrite omap_app| |].
      * exists true. cbn. rewrite Hi. by destruct x5.1 as [[??]|].
      * cbn. destruct x5.1 as [[c' cl]|e']; cbn in *; rewrite !omap_app, Ho, Hr; [by destruct Hr2 as (-> & -> & _)|done].
    + apply dialSingle_quiet in Hd as Ho. split_and!; [done|exists (signed_in x), []; split_and!; [by rewrite app_nil_r|done|apply prefix_nil]|by eexists|done].
Qed.

(** ** Around the dial *)

Definition noting (ev : event) : bool := match asked ev with Identity | AuditWarning _ => true | _ => false end.

Lemma no_sessions (ok : event → bool) tr : (∀ ev, ok ev = true → asks_session ev = false) → Forall ok tr → existsb asks_session tr = false.
Proof. intros Hok. induction 1 as [|ev tr H%Is_true_true_1 _ IH]; [done|]. cbn. by rewrite Hok, IH. Qed.

(** Nothing written, signed, opened or closed, and no certificate taken. *)
Definition silent (tr : list event) : Prop :=
  audits tr = [] ∧ signed_in tr = [] ∧ opened_in tr = [] ∧ closed_in tr = [] ∧ ∀ s, stamp_from s tr = s.

Lemma silent_in (ok : event → bool) tr :
  (∀ ev, ok ev = true → audit_of ev = None ∧ signed_of ev = None ∧ opened_of ev = None ∧ closed_of ev = None ∧ ∀ s, stamp_step s ev = s) →
  Forall ok tr → silent tr.
Proof.
  intros Hok. induction 1 as [|ev tr H%Is_true_true_1 _ (H1 & H2 & H3 & H4 & H5)]; [done|].
  apply Hok in H as (E1 & E2 & E3 & E4 & E5). unfold silent, audits in *. cbn [omap list_omap]. rewrite E1, E2, E3, E4.
  split_and!; try done. intros s. cbn. by rewrite E5.
Qed.

Lemma session_silent tr : Forall in_session tr → silent tr.
Proof. apply silent_in. intros [[] x]; cbn; try done; intros _; by destruct x. Qed.

Lemma noting_silent tr : Forall noting tr → silent tr.
Proof. apply silent_in. intros [[] x]; cbn; try done. Qed.

Lemma dialing_unaudited tr : Forall dialing tr → audits tr = [] ∧ existsb asks_session tr = false.
Proof.
  intros H. split; [|eapply no_sessions; [|done]; by intros [[] x]].
  induction H as [|[[] x] tr Hd _ IH]; cbn; try done.
Qed.

Lemma identity_notes : emits_s noting (attributedIdentity has_OnAuditError).
Proof. unfold attributedIdentity, on_audit_error. emits_tac; done. Qed.

Lemma identity_runs s tr r : runs (attributedIdentity has_OnAuditError s) tr r → silent tr ∧ r.2 = s ∧ Forall noting tr.
Proof.
  intros H. assert (Forall noting tr) as Hn by (eapply identity_notes, reaches_runs, H). split_and!; [by apply noting_silent| |done].
  unfold attributedIdentity, on_audit_error in H. by runs_tac.
Qed.

(** The write of a row, and the warning where it failed. *)
Lemma record_runs e s tr r : runs (record has_OnAuditError e s) tr r →
  r.2 = s ∧ audits tr = [e] ∧ signed_in tr = [] ∧ opened_in tr = [] ∧ closed_in tr = [] ∧ (∀ s, stamp_from s tr = s) ∧
  existsb asks_session tr = false ∧ existsb is_success tr = OK e.
Proof.
  intros H. unfold record, on_audit_error in H. runs_tac; (split_and!; try done); cbn; by destruct (OK e).
Qed.

Lemma record_unsessioned e : emits_s (λ ev, negb (asks_session ev)) (record has_OnAuditError e).
Proof. unfold record, on_audit_error. emits_tac; done. Qed.

Lemma shell_runs c s tr r : runs (shell TERM c (s : attempt)) tr r → r.2 = s ∧ silent tr ∧ existsb asks_session tr = true.
Proof.
  intros H. assert (silent tr) as Hs by (eapply session_silent, shell_in_session, reaches_runs, H).
  unfold shell, shell_on in H. runs_tac; by split_and!.
Qed.


Lemma stamp_app s t1 t2 : stamp_from s (t1 ++ t2) = stamp_from (stamp_from s t1) t2.
Proof. apply foldl_app. Qed.

Lemma cleanup_rest cs s tr r : runs (cleanup cs (s : attempt)) tr r →
  audits tr = [] ∧ existsb asks_session tr = false ∧ (∀ z, stamp_from z tr = z) ∧ r.2 = s.
Proof. revert tr. induction cs as [|c cs IH]; cbn [cleanup]; intros tr H; runs_tac; [done|]. by apply IH in H. Qed.

(** What a finished attempt leaves: its rows, that of the host, with the certificate
    the last signature made and its time; the clients closed, last opened first;
    certificates for the hops and nothing else. *)
Record accounted (t : Target) (tr : list event) (rows : list AccessEntry) (ok : bool) (err : option error) (e : AccessEntry) : Prop := {
  ac_row : audits tr = rows;
  ac_host : AuditSpool.Hostname e = Name t;
  ac_ok : OK e = ok;
  ac_error : OK e = false → ∃ x, err = Some x ∧ Error e = truncateAuditError (error_text x);
  ac_stamp : (AuditSpool.CertSerial e, SignedAt e) = stamp_from ("", 0) tr;
  ac_closed : closed_in tr = rev (opened_in tr);
  ac_signed : ∃ d c, signed_in tr = d ++ c ∧ d `prefix_of` [grant_of t ptyExtensions] ∧ c `prefix_of` chain_grants t ptyExtensions;
}.

Ltac gathering :=
  rewrite ?app_nil_r; split; unfold audits in *; rewrite ?existsb_app, ?stamp_app, ?omap_app;
  repeat match goal with
  | E : omap _ ?x = _ |- context [omap _ ?x] => rewrite E
  | E : existsb _ ?x = _ |- context [existsb _ ?x] => rewrite E
  | E : ∀ s, stamp_from s ?x = s |- context [stamp_from _ ?x] => rewrite E
  end; rewrite ?app_nil_r; cbn [app]; try done.

Lemma connect_runs req tr err : runs (Connect ParseAuthorizedKey NewCertSigner TERM me SignTTL has_OnAuditError req) tr err →
  ∃ e, accounted (apply (HostKey req) (rq_Target req)) tr [e] (existsb asks_session tr) err e.
Proof.
  intros H. unfold Connect in H. apply runs_bind in H as (t1 & t2 & [err' st'] & -> & H & Hr). destruct Hr as [-> <-]. rewrite app_nil_r. cbn.
  unfold connect, Sshc.Connect in H. set (t := apply _ _) in *. runs_tac.
  all: apply identity_runs in H0 as ((Ia & Is & Io & Ic & It) & Hst & In); cbn in Hst; subst x2.
  all: assert (existsb asks_session x = false) as Ins by (eapply no_sessions; [|exact In]; by intros [[] ?]).
  all: assert (audits x4 = [] ∧ existsb asks_session x4 = false) as [Da Dn] by (eapply dialing_unaudited, dialTarget_dials, reaches_runs; eassumption).
  all: apply dialTarget_runs in H as ((Hst & Hrec) & (d & c' & Hs & Hd & Hc) & (via & Hi) & Hres); cbn in *.
  - apply record_runs in H1 as (E & Wa & Ws & Wo & Wc & Wt & Wn & Wk); cbn in E; subst x14.
    apply shell_runs in H3 as (E & (Sa & Ss & So & Sc & St) & Sn); cbn in E; subst x13.
    apply cleanup_rest in H4 as Hcl. destruct Hcl as (Ca & Cn & Ct & _). apply cleanup_runs in H4 as (Co & Cc & Cs & _).
    rewrite Heqr in Hres. destruct Hres as [Ro Rc]. eexists. gathering.
    + by rewrite rev_involutive.
    + by exists d, c'.
  - congruence.
  - apply record_runs in H1 as (E & _); cbn in E; subst x17. apply shell_runs in H4 as (E & _); cbn in E; subst x16.
    apply cleanup_runs in H5 as (_ & _ & _ & _ & E). cbn in E. congruence.
  - apply record_runs in H2 as (E & Wa & Ws & Wo & Wc & Wt & Wn & Wk); cbn in E; subst x9. rewrite Heqr in Hres.
    eexists. gathering.
    + intros _. by exists e.
    + by exists d, c'.
Qed.

Ltac take_parts :=
  repeat match goal with
  | H : runs (attributedIdentity _ _) _ _ |- _ => apply identity_runs in H as ((? & ? & ? & ? & ?) & ? & _); cbn [fst snd] in *; simplify_eq
  | H : runs (dialTarget _ _ _ _ _) ?x _ |- _ =>
      assert (audits x = [] ∧ existsb asks_session x = false) as [? ?] by (eapply dialing_unaudited, dialTarget_dials, reaches_runs; exact H);
      apply dialTarget_runs in H as ((Hst & _) & (d & c' & ? & Hd & Hc) & _ & Hres); simpl in Hst
  | H : runs (cleanup _ _) _ _ |- _ =>
      pose proof (cleanup_rest _ _ _ _ H) as (? & ? & ? & ?); apply cleanup_runs in H as (? & ? & ? & _); cbn [fst snd] in *; simplify_eq
  end.

Lemma run_runs_ req command input tr r : runs (run_ ParseAuthorizedKey NewCertSigner me SignTTL has_OnAuditError req command input fresh) tr r →
  accounted (apply (HostKey req) (rq_Target req)) tr [] (bool_decide (r.1.2 = None)) r.1.2 r.1.1.2.
Proof.
  intros H. unfold run_, RunWithInput in H. set (t := apply _ _) in *. runs_tac; take_parts; simpl in Hres; rewrite Heqr in Hres.
  all: try match goal with H : match ?r with _ => _ end = (_, _, _) |- _ => destruct r as [[]|]; simplify_eq end.
  all: gathering; try (by exists d, c'); try (by destruct Hres as [-> ->]; cbn; rewrite ?rev_involutive, ?app_nil_r); try (intros _; by eexists).
Qed.

Lemma accounted_row t tr w e ok err : accounted t tr [] ok err e → audits w = [e] → signed_in w = [] → opened_in w = [] → closed_in w = [] →
  (∀ s, stamp_from s w = s) → accounted t (tr ++ w) [e] ok err e.
Proof. intros [H1 H2 H3 H4 H5 H6 H7] Wa Ws Wo Wc Wt. unfold audits in *. split; unfold audits; rewrite ?omap_app, ?stamp_app, ?H1, ?Wa, ?Ws, ?Wo, ?Wc, ?Wt, ?app_nil_r; done. Qed.

Lemma execute_runs req command input tr r : runs (ExecuteWithInput ParseAuthorizedKey NewCertSigner me SignTTL has_OnAuditError req command input) tr r →
  ∃ e, accounted (apply (HostKey req) (rq_Target req)) tr [e] (bool_decide (r.2 = None)) r.2 e.
Proof.
  intros H. unfold ExecuteWithInput in H. apply runs_bind in H as (t1 & t2 & [r' st'] & -> & H & Hr). destruct Hr as [-> <-]. rewrite app_nil_r. cbn.
  runs_tac. apply run_runs_ in H0. apply record_runs in H1 as (E & Wa & Ws & Wo & Wc & Wt & _). rewrite app_nil_r. destruct x1 as [[res e] err]. cbn in *.
  exists e. by apply accounted_row.
Qed.

(** ** No session before its row *)

Definition guarded {A} (m : M A) : Prop := ∀ s tr, reaches (m s) tr → existsb asks_session tr = true → existsb is_success tr = true.

Lemma guarded_quiet {A} (m : M A) : emits_s (λ ev, negb (asks_session ev)) m → guarded m.
Proof.
  intros He s tr Hr Hs. rewrite (no_sessions (λ ev, negb (asks_session ev)) tr) in Hs; [done| |by apply (He s)]. intros ev. by destruct (asks_session ev).
Qed.

Lemma guarded_dials {A} (m : M A) : emits_s dialing m → guarded m.
Proof. intros H. apply guarded_quiet. eapply emits_s_mono, H. by intros [[] ?]. Qed.

Lemma guarded_bind {A B} (m : M A) (f : A → M B) : guarded m → (∀ a, guarded (f a)) → guarded (m ≫= f).
Proof.
  intros Hm Hf s tr Hr Hs. apply reaches_sbind in Hr as [Hr|(t1 & t2 & a & s1 & -> & H1 & H2)]; [by eapply Hm|].
  rewrite existsb_app in *. apply orb_true_iff. apply orb_true_iff in Hs as [Hs|Hs]; [left|right; by eapply Hf].
  by eapply Hm; [eapply reaches_runs|].
Qed.

(** Once the row is written, anything goes. *)
Lemma guarded_by {A B} (m : M A) (f : A → M B) : guarded m → (∀ s tr r, runs (m s) tr r → existsb is_success tr = true) → guarded (m ≫= f).
Proof.
  intros Hm Hw s tr Hr Hs. apply reaches_sbind in Hr as [Hr|(t1 & t2 & a & s1 & -> & H1 & H2)]; [by eapply Hm|].
  rewrite existsb_app. by erewrite Hw by exact H1.
Qed.

Lemma guarded_ret {A} (a : A) : guarded (mret a).
Proof. apply guarded_quiet, emits_sret. Qed.

Lemma connect_guarded req : guarded (connect ParseAuthorizedKey NewCertSigner TERM me SignTTL has_OnAuditError req).
Proof.
  unfold connect, Sshc.Connect. apply guarded_bind; [apply guarded_quiet; eapply emits_s_mono, identity_notes; by intros [[] ?]|]. intros id. cbv zeta.
  apply guarded_bind.
  - apply guarded_bind; [apply guarded_dials, dialTarget_dials|]. intros [[[c cl]|e] info]; [|apply guarded_ret].
    apply guarded_by.
    + apply guarded_quiet. cbn. emits_tac; try done. apply record_unsessioned.
    + intros s tr r H. runs_tac. match goal with H : runs (record _ _ _) _ _ |- _ => rename H into H1 end. apply record_runs in H1 as (_ & _ & _ & _ & _ & _ & _ & E). cbn in *. by rewrite ?app_nil_r, E.
  - intros r. apply guarded_quiet. emits_tac; try done; apply record_unsessioned.
Qed.

(** C19. No connection goes unwritten.  Whatever Vault, the network, the
    terminal, the clock and the audit store answer: a finished connection or
    command gives the audit store exactly one row (which the store may refuse),
    of its host, with the serial of the last certificate signed for it and the
    time it was signed.  A connection's row says it worked exactly when a
    session was asked for on a connection that stood, be it granted or refused
    ([Sample.a_refused_terminal_is_logged_as_access]), and a process that dies
    in a session has asked for that row before it; a command's row says it
    worked exactly when no error is returned.  A failure's row has the error. *)
Theorem every_access_is_audited req :
  (∀ tr ev, reaches (Connect ParseAuthorizedKey NewCertSigner TERM me SignTTL has_OnAuditError req) (tr ++ [ev]) →
     asks_session ev = true → existsb is_success tr = true) ∧
  (∀ tr err, runs (Connect ParseAuthorizedKey NewCertSigner TERM me SignTTL has_OnAuditError req) tr err →
     ∃ e, audits tr = [e] ∧ AuditSpool.Hostname e = Name (rq_Target req) ∧ OK e = existsb asks_session tr ∧
       (AuditSpool.CertSerial e, SignedAt e) = stamp_from ("", 0) tr ∧
       (OK e = false → ∃ x, err = Some x ∧ Error e = truncateAuditError (error_text x))) ∧
  (∀ command input tr r, runs (ExecuteWithInput ParseAuthorizedKey NewCertSigner me SignTTL has_OnAuditError req command input) tr r →
     ∃ e, audits tr = [e] ∧ AuditSpool.Hostname e = Name (rq_Target req) ∧ OK e = bool_decide (r.2 = None) ∧
       (AuditSpool.CertSerial e, SignedAt e) = stamp_from ("", 0) tr ∧
       (OK e = false → ∃ x, r.2 = Some x ∧ Error e = truncateAuditError (error_text x))).
Proof.
  assert (Name (apply (HostKey req) (rq_Target req)) = Name (rq_Target req)) as Hn by (by destruct (rq_Target req)).
  split_and!.
  - intros tr ev H Hs. assert (reaches (connect ParseAuthorizedKey NewCertSigner TERM me SignTTL has_OnAuditError req fresh) (tr ++ [ev])) as Hr.
    { unfold Connect in H. apply reaches_bind in H as [H|(t1 & t2 & a & Heq & H & [->|[]])]; [done|]. rewrite app_nil_r in Heq. subst t1. by eapply reaches_runs. }
    apply (connect_guarded req fresh) in Hr; [|by rewrite existsb_app; cbn; rewrite Hs, orb_true_r]. rewrite existsb_app in Hr; cbn in Hr.
    apply orb_true_iff in Hr as [Hr|Hr]; [done|]. by destruct ev as [[] ?].
  - intros tr err H. apply connect_runs in H as [e [H1 H2 H3 H4 H5 _ _]]. exists e. by rewrite <- Hn.
  - intros command input tr r H. apply execute_runs in H as [e [H1 H2 H3 H4 H5 _ _]]. exists e. by rewrite <- Hn.
Qed.

(** A connection takes no more than it needs.  It has certificates signed for
    its hops alone, each with the hop's role, its one user and the configured
    lifetime: a terminal for the target, forwarding for the jump hosts, first
    for one direct attempt and then along the chain from its far end, and stops
    where one is refused.  Every connection it opened is closed again, the last
    one first, whether it worked or not. *)
Theorem connections_take_the_least req :
  let t := apply (HostKey req) (rq_Target req) in
  ∀ tr, ((∃ err, runs (Connect ParseAuthorizedKey NewCertSigner TERM me SignTTL has_OnAuditError req) tr err) ∨
         (∃ command input r, runs (ExecuteWithInput ParseAuthorizedKey NewCertSigner me SignTTL has_OnAuditError req command input) tr r)) →
  closed_in tr = rev (opened_in tr) ∧
  ∃ direct chain, signed_in tr = direct ++ chain ∧ direct `prefix_of` [grant_of t ptyExtensions] ∧ chain `prefix_of` chain_grants t ptyExtensions.
Proof.
  intros t tr [[err H]|(command & input & r & H)].
  - apply connect_runs in H as [e [_ _ _ _ _ H6 H7]]. done.
  - apply execute_runs in H as [e [_ _ _ _ _ H6 H7]]. done.
Qed.

(** ** Where it dials *)

(** A connection is opened directly to the target or to the far end of its
    chain, and through a client only to the hop before the one that client was
    opened to. *)
Definition opened_to (h : list event) (c : connection) (a : string) : Prop := ∃ ev, ev ∈ h ∧ dialed_of ev = Some a ∧ opened_of ev = Some c.

Definition dials_along (chain : list string) (h : list event) (ev : event) : Prop :=
  match asked ev with
  | Dial a _ => head chain = Some a ∨ last chain = Some a
  | DialThrough via a => ∃ pre b post, chain = pre ++ a :: b :: post ∧ opened_to h via b
  | NewClientConn conn a _ => a ∈ chain ∧ ∃ via, Ev (DialThrough via a : io) (Ok conn) ∈ h
  | _ => True
  end.

Lemma opened_to_mono h h' c a : h ⊆ h' → opened_to h c a → opened_to h' c a.
Proof. intros Hs (ev & Hin & H). exists ev. split; [by apply Hs|done]. Qed.

Lemma undialed_along chain ev h : dialed_of ev = None → dials_along chain h ev.
Proof. unfold dialed_of, dials_along. by destruct (asked ev). Qed.

Lemma undialed_justified {A} (m : M A) chain h s : emits_s (λ ev, dialed_of ev = None) m → justified_after (dials_along chain) h (m s).
Proof. intros He. eapply emits_justified; [|exact He]. intros h' ev. apply undialed_along. Qed.

Lemma clientConfig_quiet t ext : emits_s (λ ev, dialed_of ev = None) (clientConfig ParseAuthorizedKey NewCertSigner t sign ext).
Proof. unfold clientConfig, certSigner, signFunc. emits_tac; done. Qed.

Lemma cleanup_quiet cs : emits_s (S := attempt) (λ ev, dialed_of ev = None) (cleanup cs).
Proof. induction cs; cbn; emits_tac; done. Qed.

Lemma dialSingle_along chain t ext h s : head chain = Some (Addr t) ∨ last chain = Some (Addr t) →
  justified_after (dials_along chain) h (dialSingle ParseAuthorizedKey NewCertSigner t sign ext s).
Proof.
  intros Hc. unfold dialSingle. repeat justified_step.
  - apply undialed_justified, clientConfig_quiet.
  - exact Hc.
Qed.

Lemma dialSingle_opens t ext s tr c cl s' : runs (dialSingle ParseAuthorizedKey NewCertSigner t sign ext s) tr (Ok (c, cl), s') → opened_to tr c (Addr t).
Proof.
  intros H. unfold dialSingle in H. runs_tac. apply bind_Ok in H as (c' & -> & [= -> _]).
  eexists. split; [apply elem_of_app; right; left|done].
Qed.

Lemma dialChain_opens t ext s tr c cl s' : runs (dialChain ParseAuthorizedKey NewCertSigner t sign ext s) tr (Ok (c, cl), s') → opened_to tr c (Addr t).
Proof.
  destruct t as [n a u r sd ch aa [j|]]; cbn; [|by apply dialSingle_opens].
  intros H. runs_tac. eexists. split; [apply elem_of_app; right; right; apply elem_of_app; right; left|done].
Qed.

(** The hops from [t] on end the chain. *)
Lemma dialChain_along chain t : ∀ ext h s, (∃ pre, chain = pre ++ (Addr <$> hops t)) →
  justified_after (dials_along chain) h (dialChain ParseAuthorizedKey NewCertSigner t sign ext s).
Proof.
  induction t as [[n a u r sd ch aa jump] Hj|[n a u r sd ch aa jump] j Hj IH] using chain_ind; intros ext h s [pre Hc]; cbn in Hj, Hc; subst jump; cbn [dialChain Jump].
  - apply dialSingle_along. right. rewrite Hc. apply last_snoc.
  - assert (Addr <$> hops j = Addr j :: drop 1 (Addr <$> hops j)) as Ej by (by destruct j).
    justified_step; [apply IH; exists (pre ++ [a]); by rewrite Hc, <- (assoc_L (++))|].
    match goal with H : runs _ _ _ |- _ => rename H into H1 end. destruct a0 as [[c cl]|e]; [|justified_step]. apply dialChain_opens in H1.
    repeat justified_step; try (apply undialed_justified; first [apply clientConfig_quiet|apply cleanup_quiet]).
    + exists pre, (Addr j), (drop 1 (Addr <$> hops j)). split; [by rewrite <- Ej|]. eapply opened_to_mono; [|exact H1]. set_solver.
    + match goal with H : runs (ask_s (DialThrough _ _) _) _ _ |- _ => apply runs_sask in H as (? & -> & [= <- <-]) end.
      split; [rewrite Hc; set_solver|]. exists c. set_solver.
Qed.

Lemma dialTarget_along t h s : justified_after (dials_along (Addr <$> hops t)) h (dialTarget ParseAuthorizedKey NewCertSigner t sign s).
Proof.
  assert (∀ h s, justified_after (dials_along (Addr <$> hops t)) h (dialJump ParseAuthorizedKey NewCertSigner t sign s)) as Hj.
  { intros h' s'. unfold dialJump. repeat justified_step. apply dialChain_along. by exists []. }
  unfold dialTarget. repeat justified_step; try apply Hj. apply dialSingle_along. left. by destruct t.
Qed.

Lemma hops_apply p t : Addr <$> hops (apply p t) = Addr <$> hops t.
Proof. induction t as [[n a u r sd ch aa jump] Hj|[n a u r sd ch aa jump] j Hj IH] using chain_ind; cbn in Hj; subst jump; cbn; by rewrite ?IH. Qed.

Lemma Connect_along req h : justified_after (dials_along (Addr <$> hops (rq_Target req))) h (Connect ParseAuthorizedKey NewCertSigner TERM me SignTTL has_OnAuditError req).
Proof.
  rewrite <- (hops_apply (HostKey req)). apply justified_bind; [|intros; apply justified_ret]. unfold connect, Sshc.Connect, attributedIdentity. set (t := apply _ _).
  assert (∀ {A} (m : M A) h s, emits_s (λ ev, dialed_of ev = None) m → justified_after (dials_along (Addr <$> hops t)) h (m s)) as Hq by (intros; by apply undialed_justified).
  repeat justified_step; first [exact I|apply dialTarget_along|apply Hq, cleanup_quiet|apply Hq; unfold record, on_audit_error, shell, shell_on; emits_tac; done].
Qed.

(** ** The monitor *)

Lemma poll_runs req command seen tr r : runs (Poll ParseAuthorizedKey NewCertSigner me SignTTL has_OnAuditError req command seen) tr r →
  let n := Name (rq_Target req) in let ok := bool_decide (r.1.2 = None) in
  r.2 = <[n := ok]> seen ∧ ∃ e, AuditSpool.Hostname e = n ∧ OK e = ok ∧ audits tr = if bool_decide (seen !! n = Some ok) then [] else [e].
Proof.
  intros H. unfold Poll, shouldRecord in H. apply runs_bind in H as (t1 & t2 & [r' st'] & -> & H & Hr). destruct Hr as [-> <-]. rewrite app_nil_r. cbn.
  assert (Name (apply (HostKey req) (rq_Target req)) = Name (rq_Target req)) as Hn by (by destruct (rq_Target req)).
  runs_tac; (match goal with H : runs (run_ _ _ _ _ _ _ _ _ _) _ _ |- _ => apply run_runs_ in H as [Ha Hh Hok _ _ _ _] end); cbn in *.
  - match goal with H : runs (record _ _ _) _ _ |- _ => apply record_runs in H as (_ & Wa & _) end.
    split; [done|]. eexists. split_and!; [by rewrite <- Hn|done|]. unfold audits in *. rewrite !omap_app, Ha, Wa. by case_bool_decide.
  - split; [done|]. eexists. split_and!; [by rewrite <- Hn|done|]. unfold audits in *. rewrite !omap_app, Ha. by case_bool_decide.
Qed.

(** Polls one after another, with each one's host and outcome. *)
Fixpoint polls (l : list (Request * string)) (seen : gmap string bool) : prog io_answer (list (string * bool)) :=
  match l with
  | [] => mret []
  | (req, command) :: l' =>
      r ← Poll ParseAuthorizedKey NewCertSigner me SignTTL has_OnAuditError req command seen;
      rest ← polls l' r.2;
      mret ((Name (rq_Target req), bool_decide (r.1.2 = None)) :: rest)
  end.

(** The entries that differ from the one before. *)
Fixpoint changes (last : option bool) (l : list bool) : list bool :=
  match l with
  | [] => []
  | b :: l' => if bool_decide (last = Some b) then changes last l' else b :: changes (Some b) l'
  end.

Definition of_host (n : string) (l : list (string * bool)) : list bool := (filter (λ p, p.1 = n) l).*2.
Definition rows_of_host (n : string) (l : list AccessEntry) : list bool := OK <$> filter (λ e, AuditSpool.Hostname e = n) l.

Lemma polls_change l : ∀ seen tr outcomes n, runs (polls l seen) tr outcomes →
  rows_of_host n (audits tr) = changes (seen !! n) (of_host n outcomes).
Proof.
  induction l as [|[req command] l IH]; intros seen tr outcomes n H; [by destruct H as [-> <-]|].
  cbn [polls] in H. apply runs_bind in H as (t1 & t2 & r & -> & Hp & H). apply runs_bind in H as (t3 & t4 & rest & -> & Hr & [-> <-]).
  apply poll_runs in Hp as (Hseen & e & Hh & Hok & Ha). apply (IH _ _ _ n) in Hr. rewrite Hseen in Hr.
  set (ok := bool_decide _) in *. unfold rows_of_host, of_host, audits in *. rewrite app_nil_r, omap_app, filter_app, fmap_app, Ha, Hr, filter_cons. cbn [fst].
  destruct (decide (Name (rq_Target req) = n)) as [<-|Hne].
  - rewrite lookup_insert_eq. cbn [fmap list_fmap changes snd].
    case_bool_decide as Hs; [by rewrite Hs|]. rewrite filter_cons_True by done. cbn. by rewrite Hok.
  - rewrite lookup_insert_ne by done. case_bool_decide; [done|]. rewrite filter_cons_False by congruence. done.
Qed.

(** A monitor writes what changed and nothing else.  However many polls it
    makes of however many hosts, each host's rows say, in order, the outcome of
    its first poll and then every outcome that differs from the one before:
    each failure and each recovery once. *)
Theorem monitor_writes_changes l tr outcomes n : runs (polls l Monitor) tr outcomes →
  rows_of_host n (audits tr) = changes None (of_host n outcomes).
Proof. intros H. apply (polls_change _ _ _ _ n) in H. unfold Monitor in H. by rewrite H, lookup_empty. Qed.
End laws.

(** ** Host keys along the chain *)

Lemma apply_hops p t h : h ∈ hops (apply p t) → ConfirmHostKey h = bool_decide (p = HostKeyPrompt) ∧ AutoAddHostKey h = bool_decide (p = HostKeyAcceptNew).
Proof.
  induction t as [[n a u r sd ch aa jump] Hj|[n a u r sd ch aa jump] j Hj IH] using chain_ind; cbn in Hj; subst jump; cbn; intros [->|H]%elem_of_cons; [done|set_solver|done|by apply IH].
Qed.

(** C26. The policy holds at every hop.  Whichever host of the chain shows a key:
    a key that differs from the recorded one is refused, and nothing is asked or
    added; an unknown one is trusted only once it was added to known_hosts,
    which the strict policy never does, and prompting only after somebody at a
    terminal typed yes; accepting new keys never asks. *)
Theorem host_keys_follow_policy Normalize p t h w hostname remote : h ∈ hops (apply p t) →
  let r := hostKeyCallback Normalize (ConfirmHostKey h) (AutoAddHostKey h) w hostname remote in
  let added := Appended (known_line Normalize hostname remote) in
  (r.1 = None ↔ is_ok (kc_home w) = true ∧ kc_load w = None ∧ (kc_verify w = Recorded ∨ kc_verify w = Unknown ∧ added ∈ r.2)) ∧
  (added ∈ r.2 → kc_verify w = Unknown ∧ kc_append w = None ∧
     (p = HostKeyAcceptNew ∨ p = HostKeyPrompt ∧ kc_terminal w = true ∧ confirmHostKey w = true)) ∧
  (Prompted ∈ r.2 → p = HostKeyPrompt ∧ kc_terminal w = true ∧ kc_verify w = Unknown) ∧
  (p = HostKeyStrict → r.2 = []).
Proof.
  intros [-> ->]%apply_hops. cbv zeta. unfold hostKeyCallback, appendKnownHost.
  destruct (kc_home w); [|cbn; split_and!; [by split; [|intros [??]]|by intros ?%elem_of_nil..|done]].
  destruct (kc_load w); [cbn; split_and!; [by split; [|intros (?&?&?)]|by intros ?%elem_of_nil..|done]|].
  destruct (kc_verify w), p; cbn; destruct (kc_append w), (kc_terminal w), (confirmHostKey w); cbn; set_solver.
Qed.

(** ** The chain of jump hosts *)

Section chain.
Context (Get : string → result string Server) (directFirst : bool).

(** The hosts a connection to one goes through, from it to the first dialed. *)
Inductive route : Server → list Server → Prop :=
| route_end sv : InvCache.JumpVia sv = "" → route sv [sv]
| route_jump sv j l : InvCache.JumpVia sv ≠ "" → Get (InvCache.JumpVia sv) = Ok j → route j l → route sv (sv :: l).

Fixpoint target_of (l : list Server) : option Target :=
  match l with [] => None | sv :: l' => Some (hop directFirst sv (target_of l')) end.

Lemma route_det sv l l' : route sv l → route sv l' → l = l'.
Proof. intros H. revert l'. induction H as [|sv j l H1 H2 _ IH]; intros l' H'; inversion H'; subst; try done. f_equal. apply IH. congruence. Qed.

Lemma build_route fuel : ∀ sv seen r, buildTargetSeen Get directFirst fuel sv seen = Some r → ∀ t,
  r = Ok t ↔ ∃ l, route sv l ∧ NoDup (InvCache.Hostname <$> l) ∧ (∀ x, x ∈ l → InvCache.Hostname x ∉ seen) ∧ target_of l = Some t.
Proof.
  induction fuel as [|fuel IH]; [done|]. intros sv seen r H t. cbn in H. case_bool_decide as Hin.
  - injection H as <-. split; [done|]. intros (l & Hl & _ & Hs & _). exfalso. apply (Hs sv); [|done]. inversion Hl; subst; set_solver.
  - destruct (String.eqb_spec (InvCache.JumpVia sv) "") as [Hj|Hj].
    + injection H as <-. split.
      * intros [= <-]. exists [sv]. split_and!; [by constructor|apply NoDup_singleton|set_solver|done].
      * intros (l & Hl & _ & _ & Ht). inversion Hl; subst; [|done]. by injection Ht as <-.
    + destruct (Get (InvCache.JumpVia sv)) as [j|e] eqn:Eg.
      * destruct (buildTargetSeen _ _ fuel j _) as [rj|] eqn:Eb; [|done]. injection H as <-. specialize (IH _ _ _ Eb). split.
        { destruct rj as [jt|]; [|done]. intros [= <-]. destruct (proj1 (IH jt) eq_refl) as (l & Hl & Hnd & Hs & Ht). exists (sv :: l). split_and!.
          - by econstructor.
          - apply NoDup_cons. split; [|done]. intros (x & Hx & Hi)%list_elem_of_fmap. apply (Hs x Hi). set_solver.
          - intros x [->|Hx]%elem_of_cons; [done|]. intros Hi. apply (Hs x Hx). set_solver.
          - cbn. by rewrite Ht. }
        { intros (l & Hl & Hnd & Hs & Ht). inversion Hl as [|? j' l' ? Hg Hl']; subst; [done|]. rewrite Eg in Hg. injection Hg as <-.
          apply NoDup_cons in Hnd as [Hn Hnd]. cbn in Ht. injection Ht as <-.
          destruct (target_of l') as [jt|] eqn:El; [|by inversion Hl'; subst].
          assert (rj = Ok jt) as ->; [|done]. apply IH. exists l'. split_and!; [done..| |done].
          intros x Hx. apply not_elem_of_union. split; [|apply Hs; set_solver]. rewrite not_elem_of_singleton. intros Heq. apply Hn. rewrite <- Heq. apply list_elem_of_fmap. by exists x. }
      * injection H as <-. split; [done|]. intros (l & Hl & _). inversion Hl; subst; congruence.
Qed.

Context (names : gset string) (Hnames : ∀ q sv, Get q = Ok sv → InvCache.Hostname sv ∈ names).

Lemma build_total fuel : ∀ sv seen, InvCache.Hostname sv ∈ names → seen ⊆ names → (base.size (names ∖ seen) < fuel)%nat →
  is_Some (buildTargetSeen Get directFirst fuel sv seen).
Proof.
  induction fuel as [|fuel IH]; intros sv seen Hsv Hs Hf; [lia|]. cbn. case_bool_decide; [done|]. case_match; [done|].
  destruct (Get _) as [j|] eqn:Eg; [|done]. destruct (IH j ({[InvCache.Hostname sv]} ∪ seen)) as [r ->]; [by eapply Hnames|set_solver| |done].
  assert (names ∖ ({[InvCache.Hostname sv]} ∪ seen) ⊂ names ∖ seen) as Hlt%subset_size by set_solver. lia.
Qed.

(** A host's connection is its chain of jump hosts, and looking for it ends.
    On a finite inventory, one round per host is enough, whatever the hosts name
    as their jump hosts; a target comes back exactly if following them reaches
    a host without one and no host twice, and is those hosts in that order. *)
Theorem build_target_exact sv : InvCache.Hostname sv ∈ names →
  ∃ r, BuildTarget Get directFirst (S (base.size names)) sv = Some r ∧
  ∀ t, r = Ok t ↔ ∃ l, route sv l ∧ NoDup (InvCache.Hostname <$> l) ∧ target_of l = Some t.
Proof.
  intros Hsv. destruct (build_total (S (base.size names)) sv ∅) as [r Hr]; [done|set_solver| |].
  { assert (names ∖ ∅ ⊆ names) as Hle%subseteq_size by set_solver. lia. }
  exists r. split; [done|]. intros t. rewrite (build_route _ _ _ _ Hr t). split.
  - intros (l & H1 & H2 & _ & H3). by exists l.
  - intros (l & H1 & H2 & H3). exists l. split_and!; [done..|set_solver|done].
Qed.
End chain.

(** ** Samples *)

Module Sample.
Definition parse (cert : string) : result string (option Z) := if String.eqb cert "leaf" then Ok (Some 7) else if String.eqb cert "jump" then Ok (Some 5) else Err "no key".
Definition accepted (cert key : string) : option error := None.
Definition conn (n : nat) : connection := {| cn_id := n; LocalAddr := Some "192.0.2.9:50022" |}.
Definition bastion : Target := MkTarget "bastion" "203.0.113.1:22" "ops" "jump" false false false None.
Definition node : Target := MkTarget "node" "10.0.0.5:22" "ops" "leaf" true false false (Some bastion).

(** An outside that numbers its clients and counts the clock: which addresses
    answer, whether a terminal is given, what becomes of the [n]-th row. *)
Definition outside (answers : string → bool) (pty : bool) (row : nat → option error) (e : io) (w : nat) : io_answer e * nat :=
  match e as e return io_answer e * nat with
  | GenerateKey => (Ok "key", w)
  | SignSSH role _ _ _ _ => (Ok role, w)
  | Dial addr _ | NewClientConn _ addr _ => (if answers addr then Ok (conn w) else Err (OpError "dial" "no route"), S w)
  | DialThrough _ addr => (if answers addr then Ok 0%nat else Err (Msg "refused"), w)
  | NewSession _ | MakeRaw | StartShell _ => (None, w)
  | RequestPty _ _ _ _ _ => (if pty then None else Some (Msg "no pty"), w)
  | CloseClient _ | CloseSession _ | RestoreTerminal | WatchResize _ | Kill _ | AuditWarning _ => (tt, w)
  | IsTerminal => (false, w)
  | GetSize => (None, w)
  | WaitShell _ => (None, w)
  | RunCommand _ _ _ => ("out", "", Finished None, w)
  | Now => (Z.of_nat (100 + w), S w)
  | Identity => ("alice", None, w)
  | LogAccess _ => (row w, S w)
  end.

Definition me : client := {| os_user := Some "alice"; env_USER := ""; os_hostname := "laptop" |}.
Definition everywhere (addr : string) : bool := true.
Definition written (w : nat) : option error := None.
Definition connect (answers : string → bool) (pty : bool) : list event * option error * nat :=
  run (outside answers pty written) (Connect parse accepted "" me "2m" true {| rq_Target := node; HostKey := HostKeyStrict |}) 0%nat.

Lemma connections_take_the_least_witness :
  closed_in (connect everywhere true).1.1 = [conn 3; conn 1] ∧ opened_in (connect everywhere true).1.1 = [conn 1; conn 3] ∧
  closed_in (connect everywhere true).1.1 = rev (opened_in (connect everywhere true).1.1).
Proof.
  split_and!; [vm_compute; reflexivity|vm_compute; reflexivity|].
  refine (proj1 (connections_take_the_least parse accepted "" me "2m" true {| rq_Target := node; HostKey := HostKeyStrict |} (connect everywhere true).1.1 (or_introl _))).
  eexists. apply run_runs.
Defined.

Lemma every_access_is_audited_witness :
  AuditSpool.CertSerial <$> audits (connect everywhere true).1.1 = ["7"] ∧
  ∃ e, audits (connect everywhere true).1.1 = [e] ∧ OK e = true.
Proof.
  split; [vm_compute; reflexivity|].
  destruct (proj1 (proj2 (every_access_is_audited parse accepted "" me "2m" true {| rq_Target := node; HostKey := HostKeyStrict |}))
    (connect everywhere true).1.1 (connect everywhere true).1.2) as (e & Ha & _ & Hok & _); [apply run_runs|].
  exists e. split; [exact Ha|]. rewrite Hok. vm_compute. reflexivity.
Defined.

Definition shown : key_check :=
  {| kc_home := Ok "/root"; kc_load := None; kc_verify := Unknown; kc_fingerprint := "SHA256:x"; kc_terminal := true; kc_typed := Some ("y" +:+ String (Ascii.ascii_of_nat 10) "");
     kc_append := None |}.

Lemma host_keys_follow_policy_witness :
  (hostKeyCallback id true false shown "node" None).1 = None ∧ (HostKeyStrict = HostKeyStrict → (hostKeyCallback id false false shown "node" None).2 = []).
Proof.
  split; [vm_compute; reflexivity|].
  exact (proj2 (proj2 (proj2 (host_keys_follow_policy id HostKeyStrict bastion (apply HostKeyStrict bastion) shown "node" None ltac:(apply elem_of_cons; by left))))).
Defined.

Definition poll_list : list (Request * string) := let q := ({| rq_Target := bastion; HostKey := HostKeyAcceptNew |}, "wg show") in [q; q; q].
Definition polled (answers : string → bool) (row : nat → option error) : list event * list (string * bool) * nat :=
  run (outside answers true row) (polls parse accepted me "2m" true poll_list Monitor) 0%nat.

Lemma monitor_writes_changes_witness : rows_of_host "bastion" (audits (polled everywhere written).1.1) = [true].
Proof.
  rewrite (monitor_writes_changes parse accepted me "2m" true poll_list (polled everywhere written).1.1 (polled everywhere written).1.2 "bastion"); [vm_compute; reflexivity|].
  apply run_runs.
Defined.

(** The only row of a healthy session is lost when its write fails: no later
    poll tries again. *)
Lemma a_lost_transition_stays_lost : (λ e, OK e) <$> audits (polled everywhere (λ _, Some (Msg "database down"))).1.1 = [true].
Proof. vm_compute. reflexivity. Qed.

(** The row of a connection is written when the client is connected, before a
    terminal is asked for; one that is refused leaves a row that says it
    worked. *)
Lemma a_refused_terminal_is_logged_as_access :
  (connect everywhere false).1.2 = Some (Msg "no pty") ∧ OK <$> audits (connect everywhere false).1.1 = [true].
Proof. vm_compute. split; reflexivity. Qed.

(** Where the target cannot be reached through the jump host, its own
    certificate was never signed; the row has the jump host's serial. *)
Lemma a_failed_hop_lends_its_serial :
  (λ e, (AuditSpool.Hostname e, OK e, AuditSpool.CertSerial e)) <$> audits (connect (λ addr, String.eqb addr "203.0.113.1:22") true).1.1 = [("node", false, "5")] ∧
  g_Role <$> signed_in (connect (λ addr, String.eqb addr "203.0.113.1:22") true).1.1 = ["jump"].
Proof. vm_compute. split; reflexivity. Qed.

Definition host (name ip jump : string) : Server :=
  {| InvCache.Hostname := name; InvCache.IP := ip; Port := 22; InvCache.User := "ops"; InvCache.JumpVia := jump; DC := ""; CARole := "r"; CAKeyVersion := 0;
     LastSeenUp := None; ExtraIPs := []; ServerState := "active" |}.
Definition hosts (q : string) : result string Server :=
  if String.eqb q "a" then Ok (host "a" "192.0.2.1" "b") else if String.eqb q "b" then Ok (host "b" "192.0.2.2" "") else Err "not found".

Lemma build_target_exact_witness :
  (∃ r, BuildTarget hosts true 3 (host "a" "192.0.2.1" "b") = Some r ∧
     ∀ t, r = Ok t ↔ ∃ l, route hosts (host "a" "192.0.2.1" "b") l ∧ NoDup (InvCache.Hostname <$> l) ∧ target_of true l = Some t) ∧
  (λ r, is_ok r) <$> BuildTarget hosts true 3 (host "a" "192.0.2.1" "b") = Some true.
Proof.
  split; [|vm_compute; reflexivity].
  assert (∀ q sv, hosts q = Ok sv → InvCache.Hostname sv ∈ ({["a"; "b"]} : gset string)) as Hn.
  { intros q sv. unfold hosts. destruct (String.eqb q "a"); [intros [= <-]; set_solver|]. destruct (String.eqb q "b"); [intros [= <-]; set_solver|done]. }
  pose proof (build_target_exact hosts true {["a"; "b"]} Hn (host "a" "192.0.2.1" "b") ltac:(set_solver)) as H.
  replace (base.size ({["a"; "b"]} : gset string)) with 2%nat in H by (vm_compute; reflexivity). exact H.
Defined.
End Sample.
