(* ===== verification/SshCommand.v ===== *)
(** The ssh command (internal/cli/ssh.go and internal/access/vmtarget.go): what
    its words mean, how a VM is reached and as whom, and what it refuses. *)

From S2P Require Import Prelude GoStrings GoFormat NetIP NovaApi Reconcile VmAddress InvCache AuditSpool Effects Sshc Access Strutil.

(** ** The words *)

Record sshOptions := { o_server : string; o_vm : string; o_user : string; o_vmFarm : string; o_allowStale : bool }.

Record sshEndpoint := { ep_User : string; ep_Host : string; ep_Port : string }.

Definition parseUserAtAddr (arg : string) : option sshEndpoint :=
  match Cut arg "@" with
  | Some (user, host) =>
      if String.eqb user "" || String.eqb host "" then None
      else Some (match SplitHostPort host with
                 | Some (h, p) => {| ep_User := user; ep_Host := h; ep_Port := p |}
                 | None => {| ep_User := user; ep_Host := host; ep_Port := "22" |}
                 end)
  | None => None
  end.

Definition plain_target (name addr user role : string) (jump : option Target) : Target :=
  {| Name := name; Addr := addr; Sshc.User := user; Role := role; SkipDirect := false; ConfirmHostKey := false; AutoAddHostKey := false; Jump := jump |}.

(** [SSHDefaultUser] and [CARole] of the configuration. *)
Record ssh_config := { SSHDefaultUser : string; cf_CARole : string; OperatorNetworks : list string; SSHDirectFirst : bool }.

Definition endpoint_target (cfg : ssh_config) (e : sshEndpoint) : Target :=
  let user := if String.eqb (ep_User e) "" then SSHDefaultUser cfg else ep_User e in
  plain_target (ep_Host e) (JoinHostPort (ep_Host e) (ep_Port e)) user (cf_CARole cfg) None.

(** What a command line asks for. *)
Inductive plan :=
| ToVM (selector user farm : string) (allowStale : bool)
| ToAddress (e : sshEndpoint) (policy : HostKeyPolicy)
| ToServer (query : string) (policy : HostKeyPolicy)
| ToPick (args : list string) (policy : HostKeyPolicy).

(** [userChanged]: --user was given. *)
Definition runSSH (args : list string) (userChanged : bool) (o : sshOptions) : result string plan :=
  if negb (String.eqb (o_server o) "") && (0 <? length args)%nat then Err "pass the host via --server or as a positional argument, not both"
  else if negb (String.eqb (o_vm o) "") && (negb (String.eqb (o_server o) "") || (0 <? length args)%nat) then Err "pass a VM via --vm, or a host, not both"
  else if String.eqb (o_vm o) "" && userChanged then
    Err "--user goes with --vm; a host's login user comes from the inventory, and a direct target carries it in user@addr"
  else if negb (String.eqb (o_vm o) "") then Ok (ToVM (o_vm o) (o_user o) (o_vmFarm o) (o_allowStale o))
  else
    let query := if String.eqb (o_server o) "" then default "" (head args) else o_server o in
    let policy := if String.eqb (o_server o) "" then HostKeyPrompt else HostKeyStrict in
    match parseUserAtAddr query with
    | Some ep => Ok (ToAddress ep policy)
    | None => Ok (if String.eqb (o_server o) "" then ToPick args policy else ToServer (o_server o) policy)
    end.

(** ** A VM's identity *)

Definition is_hex (c : Ascii.ascii) : bool :=
  let n := byte_val c in (48 <=? n) && (n <=? 57) || (97 <=? n) && (n <=? 102) || (65 <=? n) && (n <=? 70).

Fixpoint uuid_from (i : nat) (v : string) : bool :=
  match v with
  | EmptyString => true
  | String c v' => (if bool_decide (i ∈ [8; 13; 18; 23]%nat) then byte_val c =? 45 else is_hex c) && uuid_from (S i) v'
  end.

Definition isUUID (v : string) : bool := (String.length v =? 36)%nat && uuid_from 0 v.

Definition NovaID (v : string) : option string :=
  let v := TrimPrefix (TrimSpace v) "openstack:///" in if isUUID v then Some v else None.

(** The fields of a [store.InstanceFilter] that are set here. *)
Record InstanceFilter := { f_DeploymentID : string; f_ProjectIDs : list string; f_InstanceID : string; f_IncludeMissing : bool }.

(** [Store.Instances] over the table's rows, in the query's order. *)
Definition instancesOn (rows : list StoreInstance) (f : InstanceFilter) : list StoreInstance :=
  filter (λ v, (f_DeploymentID f = "" ∨ si_DeploymentID v = f_DeploymentID f) ∧ (f_ProjectIDs f = [] ∨ si_ProjectID v ∈ f_ProjectIDs f) ∧
               (f_InstanceID f = "" ∨ si_InstanceID v = f_InstanceID f) ∧ (f_IncludeMissing f = true ∨ si_MissingSince v = None)) rows.

(** The one row of that id, in the deployment given if one was; [rows] is the
    table, or why it could not be read. *)
Definition OneVM (rows : result string (list StoreInstance)) (id deployment : string) : result string StoreInstance :=
  rows ← rows;
  let vms := instancesOn rows {| f_DeploymentID := deployment; f_ProjectIDs := []; f_InstanceID := id; f_IncludeMissing := true |} in
  match vms with
  | [] => Err ("no VM " +:+ id +:+ "; run 'vctl openstack reconcile' if it is new")
  | [v] => Ok v
  | _ => Err (id +:+ " is in " +:+ Itoa (Z.of_nat (length vms)) +:+ " deployments (" +:+ Join (si_DeploymentID <$> vms) ", " +:+ "); add --farm to say which")
  end.

(** [resolve]: the farm catalog's answer to a farm's name ([ResolveFarmID]). *)
Definition lookupVM (resolve : string → result string string) (rows : result string (list StoreInstance)) (id farm : string) : result string StoreInstance :=
  deployment ← (if String.eqb farm "" then Ok "" else resolve farm);
  OneVM rows id deployment.

(** ** Whether its record is current *)

Definition StaleProbeWindow : duration := 3 * Hour.

(** [terminal]: somebody is there; [confirmed]: what the form came back with. *)
Definition checkVMCurrent (v : StoreInstance) (id : string) (allowStale terminal : bool) (confirmed : result string bool) (now : time_t) : result string () :=
  match si_MissingSince v with
  | Some _ => Err (si_Name v +:+ " (" +:+ id +:+ ") is no longer listed by its control plane")
  | None =>
      let age := Sub now (si_ObservedAt v) in
      if (StaleProbeWindow <? age) && negb allowStale then
        let when := if IsZero (si_ObservedAt v) then "never collected" else CompactDuration age +:+ " ago" in
        if negb terminal then
          Err (NameOrID v +:+ " was last collected " +:+ when +:+ ", older than the collector's schedule; run 'vctl openstack reconcile' or pass --allow-stale")
        else
          ok ← confirmed;
          if ok : bool then Ok tt else Err "not connecting to a stale record"
      else Ok tt
  end.

(** ** Its target *)

Record VMPolicy := { vp_User : string; vp_Port : Z; vp_CARole : string; vp_OperatorNets : list string }.

Inductive vm_error :=
| NoUser (name : string)
| NoAddress (name : string)
| NoVouchedAddress (name : string) (known : list string)
| NoSiblings (name : string) (known : list string) (cause : string)
| NoJump (name : string) (known : list string).

Definition not_vouched_text (name : string) (known : list string) : string :=
  name +:+ " has no floating or operator-network address (only " +:+ Join known ", " +:+
  "); tenant ranges repeat across farms, so connecting to one would be a guess. Use 'vctl ssh <user>@<addr>' if you know that address is this VM".

Definition vm_error_text (e : vm_error) : string :=
  match e with
  | NoUser name => "no login user for " +:+ name +:+ ": a VM does not carry one, so pass --user"
  | NoAddress name => name +:+ " has no address at all"
  | NoVouchedAddress name known => not_vouched_text name known
  | NoSiblings name known cause => not_vouched_text name known +:+ " — and the search for a jump host failed: " +:+ cause
  | NoJump name known => not_vouched_text name known +:+ " — and no ACTIVE VM on its tenant network carries one to jump through"
  end.

Definition vm_port (p : VMPolicy) : string := Itoa (if vp_Port p =? 0 then 22 else vp_Port p).

Definition VMTarget (name : string) (addrs : list InstanceAddress) (p : VMPolicy) : result vm_error Target :=
  if String.eqb (vp_User p) "" then Err (NoUser name)
  else
    let addr := ConnectableAddress addrs (vp_OperatorNets p) in
    if String.eqb addr "" then Err (if bool_decide (addrs = []) then NoAddress name else NoVouchedAddress name (Address <$> addrs))
    else Ok (plain_target name (JoinHostPort addr (vm_port p)) (vp_User p) (vp_CARole p) None).

Definition VMTargetVia (name tenantAddr viaName viaAddr : string) (p : VMPolicy) : Target :=
  plain_target name (JoinHostPort tenantAddr (vm_port p)) (vp_User p) (vp_CARole p)
    (Some (plain_target viaName (JoinHostPort viaAddr (vm_port p)) (vp_User p) (vp_CARole p) None)).

(** [rows]: the table when the jump host is looked for. *)
Definition vmTarget (cfg : ssh_config) (rows : result string (list StoreInstance)) (v : StoreInstance) (u : string) : result vm_error Target :=
  let policy := {| vp_User := u; vp_Port := 0; vp_CARole := cf_CARole cfg; vp_OperatorNets := OperatorNetworks cfg |} in
  match VMTarget (si_Name v) (si_Addresses v) policy with
  | Err (NoVouchedAddress name known) =>
      match rows with
      | Err cause => Err (NoSiblings name known cause)
      | Ok rows =>
          let siblings := instancesOn rows {| f_DeploymentID := si_DeploymentID v; f_ProjectIDs := [si_ProjectID v]; f_InstanceID := ""; f_IncludeMissing := false |} in
          match TenantJump v siblings (OperatorNetworks cfg) with
          | None => Err (NoJump name known)
          | Some j => Ok (VMTargetVia (si_Name v) (tenantAddr j) (NameOrID (via j)) (viaAddr j) policy)
          end
      end
  | r => r
  end.

(** ** The users tried *)

Section logins.
Context (attempt : string → prog io_answer (option error)).

(** The user and error of the last attempt, and who was told of which next. *)
Fixpoint TryLoginUsers (cands : list string) : prog io_answer (string * option error * list (string * string)) :=
  match cands with
  | [] => mret ("", None, [])
  | u :: cands' =>
      err ← attempt u;
      match cands' with
      | [] => mret (u, err, [])
      | next :: _ =>
          if negb (IsAuthFailure err) then mret (u, err, [])
          else r ← TryLoginUsers cands'; mret (r.1.1, r.1.2, (u, next) :: r.2)
      end
  end.
End logins.

Section connect.
Context (ParseAuthorizedKey : string → result string (option Z)) (NewCertSigner : string → string → option error) (TERM : string).
Context (me : client) (SignTTL : string) (has_OnAuditError : bool) (cfg : ssh_config).
(** The table of instances as the store answers when a login is tried. *)
Context (rows_for : string → result string (list StoreInstance)).

Definition vm_attempt (v : StoreInstance) (policy : HostKeyPolicy) (u : string) : prog io_answer (option error) :=
  match vmTarget cfg (rows_for u) v u with
  | Err e => mret (Some (Msg (vm_error_text e)))
  | Ok t => Access.Connect ParseAuthorizedKey NewCertSigner TERM me SignTTL has_OnAuditError {| rq_Target := t; HostKey := policy |}
  end.

Definition login_users (v : StoreInstance) (user : string) : list string :=
  if String.eqb user "" then LoginCandidates (si_ImageName v) (SSHDefaultUser cfg) else [user].

Definition connectVM (v : StoreInstance) (user : string) (terminal : bool) : prog io_answer (option error) :=
  let policy := if terminal then HostKeyPrompt else HostKeyStrict in
  r ← TryLoginUsers (vm_attempt v policy) (login_users v user);
  mret r.1.2.

Definition sshVM (resolve : string → result string string) (rows : result string (list StoreInstance)) (selector user farm : string) (allowStale terminal : bool) (confirmed : result string bool) (now : time_t)
    : prog io_answer (option error) :=
  match NovaID selector with
  | None => mret (Some (Msg ("--vm takes a Nova instance id or openstack:///<id>, not " +:+ Quote selector +:+ "; run 'vctl openstack vm' to find it")))
  | Some id =>
      match (v ← lookupVM resolve rows id farm; checkVMCurrent v id allowStale terminal confirmed now;; Ok v) with
      | Err e => mret (Some (Msg e))
      | Ok v => connectVM v user terminal
      end
  end.
End connect.

(** Whether a failure may be an address the inventory has wrong. *)
Definition driftCouldExplain (sv : option Server) (connErr : option error) : bool :=
  match connErr, sv with
  | Some e, Some sv => String.eqb (InvCache.JumpVia sv) "" && bool_decide (as_op e = Some "dial")
  | _, _ => false
  end.

(** ** Where a VM connection goes *)

Lemma connectable_vouched addrs nets : ConnectableAddress addrs nets ≠ "" → ∃ a, a ∈ addrs ∧ Address a = ConnectableAddress addrs nets ∧ vouched nets a.
Proof.
  unfold ConnectableAddress, best_address. destruct (best_address_spec (connectable_rank nets) addrs) as [[-> _]|(pre & a & post & -> & -> & Hr & _)]; [done|].
  intros _. exists a. split_and!; [set_solver|done|]. by apply connectable_rank_spec.
Qed.

Lemma TenantJump_hop v siblings nets j : TenantJump v siblings nets = Some j → ∃ s, s ∈ siblings ∧ hop_of v s nets j.
Proof.
  unfold TenantJump. case_if; [done|]. case_bool_decide; [done|].
  apply (foldl_invariant (λ seen best, best = Some j → ∃ s, s ∈ seen ∧ hop_of v s nets j)); [done|]. intros seen best s IH. unfold jump_step.
  destruct (offer _ _ _ s) as [k|] eqn:Eo; [destruct (better_jump best k)|].
  - intros [= ->]. apply offer_hop in Eo as [Ho _]. exists s. set_solver.
  - intros (s' & ? & ?)%IH. exists s'. set_solver.
  - intros (s' & ? & ?)%IH. exists s'. set_solver.
Qed.

(** Another VM that is listed, in the project and the farm of [v]. *)
Definition sibling (rows : result string (list StoreInstance)) (v s : StoreInstance) : Prop :=
  ∃ l, rows = Ok l ∧ s ∈ l ∧ si_ProjectID s = si_ProjectID v ∧ (si_DeploymentID v = "" ∨ si_DeploymentID s = si_DeploymentID v) ∧ si_MissingSince s = None.

(** The ways a VM may be reached as a user: by its own vouched address, or
    through a sibling's into the network both are on. *)
Definition vm_route (cfg : ssh_config) (rows : result string (list StoreInstance)) (v : StoreInstance) (u : string) (t : Target) : Prop :=
  let nets := OperatorNetworks cfg in
  u ≠ "" ∧ Forall (λ h, Sshc.User h = u ∧ Role h = cf_CARole cfg) (hops t) ∧ Name t = si_Name v ∧
  match Jump t with
  | None => ∃ a, a ∈ si_Addresses v ∧ vouched nets a ∧ Addr t = JoinHostPort (Address a) "22"
  | Some j => Jump j = None ∧ ConnectableAddress (si_Addresses v) nets = "" ∧ ∃ s k, sibling rows v s ∧ hop_of v s nets k ∧
      Name j = NameOrID s ∧ Addr j = JoinHostPort (viaAddr k) "22" ∧ Addr t = JoinHostPort (tenantAddr k) "22"
  end.

Lemma vmTarget_route cfg rows v u t : vmTarget cfg rows v u = Ok t → vm_route cfg rows v u t.
Proof.
  unfold vmTarget, VMTarget. cbn [vp_User vp_OperatorNets]. destruct (String.eqb_spec u "") as [|Hu]; [done|].
  destruct (String.eqb_spec (ConnectableAddress (si_Addresses v) (OperatorNetworks cfg)) "") as [Hc|Hc].
  - case_bool_decide; [done|]. destruct rows as [l|]; [|done]. destruct (TenantJump v _ _) as [k|] eqn:Ej; [|done]. intros [= <-].
    apply TenantJump_hop in Ej as (s & Hs & Hk). split_and!; try done; [cbn; rewrite !Forall_cons; by split_and!|].
    cbn; split_and!; try done. apply list_elem_of_filter in Hs as [(H1 & H2 & _ & H4) Hs]. cbn in H1, H2, H4.
    exists s, k. split_and!; [|done|cbn; by destruct Hk as [-> _]|done..]. exists l. destruct H2 as [|H2%list_elem_of_singleton]; [done|]. destruct H4 as [|H4]; [done|]. by split_and!.
  - intros [= <-]. apply connectable_vouched in Hc as (a & Ha & E & Hv). split_and!; [done|cbn; rewrite Forall_cons; by split_and!|done|]. exists a. cbn. by rewrite E.
Qed.

(** The record was current enough, or somebody said so. *)
Definition current (v : StoreInstance) (allowStale terminal : bool) (confirmed : result string bool) (now : time_t) : Prop :=
  si_MissingSince v = None ∧
  (Sub now (si_ObservedAt v) ≤ StaleProbeWindow ∨ allowStale = true ∨ terminal = true ∧ confirmed = Ok true).

Lemma checkVMCurrent_ok v id allowStale terminal confirmed now : checkVMCurrent v id allowStale terminal confirmed now = Ok tt → current v allowStale terminal confirmed now.
Proof.
  unfold checkVMCurrent, current. destruct (si_MissingSince v); [done|]. intros H. split; [done|].
  destruct (Z.ltb_spec StaleProbeWindow (Sub now (si_ObservedAt v))); [|by left]. destruct allowStale; [by right; left|]. right; right. cbn in H.
  destruct terminal; [|done]. destruct confirmed as [[]|]; done.
Qed.

Lemma NovaID_nonempty selector id : NovaID selector = Some id → id ≠ "".
Proof. unfold NovaID. destruct (isUUID _) eqn:E; [|done]. intros [= <-] Hn. by rewrite Hn in E. Qed.

Lemma lookupVM_one resolve rows id farm v : id ≠ "" → lookupVM resolve rows id farm = Ok v →
  ∃ deployment l, (if String.eqb farm "" then deployment = "" else resolve farm = Ok deployment) ∧ rows = Ok l ∧
    filter (λ v, si_InstanceID v = id ∧ (deployment = "" ∨ si_DeploymentID v = deployment)) l = [v].
Proof.
  intros Hne H. apply bind_Ok in H as (deployment & Hd & H). apply bind_Ok in H as (l & -> & H). exists deployment, l.
  split_and!; [destruct (String.eqb farm ""); [by injection Hd|done]|done|].
  erewrite list_filter_iff; [destruct (instancesOn _ _) as [|v' [|]] eqn:E; [done| |done]; injection H as <-; exact E|].
  intros w. cbn. tauto.
Qed.

Section logins_laws.
Context (ParseAuthorizedKey : string → result string (option Z)) (NewCertSigner : string → string → option error) (TERM : string).
Context (me : client) (SignTTL : string) (has_OnAuditError : bool) (cfg : ssh_config).
Context (rows_for : string → result string (list StoreInstance)).
Notation attempt := (vm_attempt ParseAuthorizedKey NewCertSigner TERM me SignTTL has_OnAuditError cfg rows_for).
Notation connectVM := (connectVM ParseAuthorizedKey NewCertSigner TERM me SignTTL has_OnAuditError cfg rows_for).
Notation sshVM := (sshVM ParseAuthorizedKey NewCertSigner TERM me SignTTL has_OnAuditError cfg rows_for).

(** Connections are opened along the route of some user that was tried. *)
Definition vm_dials (v : StoreInstance) (user : string) (h : list event) (ev : event) : Prop :=
  ∀ a, dialed_of ev = Some a → ∃ u t, u ∈ login_users cfg v user ∧ vm_route cfg (rows_for u) v u t ∧ a ∈ Addr <$> hops t ∧ dials_along (Addr <$> hops t) h ev.

Lemma dials_along_in chain h ev a : dials_along chain h ev → dialed_of ev = Some a → a ∈ chain.
Proof.
  unfold dials_along, dialed_of. destruct (asked ev); try done.
  - intros [H|H] [= <-]; [destruct chain; [done|]; injection H as ->; by left|by apply last_Some_elem_of].
  - intros (pre & b & post & -> & _) [= <-]. set_solver.
  - by intros [H _] [= <-].
Qed.

Lemma attempt_dials v user policy u h : u ∈ login_users cfg v user → justified_after (vm_dials v user) h (attempt v policy u).
Proof.
  intros Hu. unfold vm_attempt. destruct (vmTarget cfg (rows_for u) v u) as [t|e] eqn:Et; [|apply justified_ret].
  intros t1 ev t2 Hr a Ha. apply Connect_along with (h := h) in Hr. exists u, t.
  split_and!; [done|by apply vmTarget_route|by eapply dials_along_in|done].
Qed.

Lemma logins_dials v user policy cands : ∀ h, (∀ u, u ∈ cands → u ∈ login_users cfg v user) → justified_after (vm_dials v user) h (TryLoginUsers (attempt v policy) cands).
Proof.
  induction cands as [|u cands IH]; intros h Hin; [apply justified_ret|]. cbn [TryLoginUsers]. apply justified_bind; [apply attempt_dials, Hin; by left|].
  intros t err _. destruct cands as [|next cands']; [apply justified_ret|]. case_if; [apply justified_ret|]. apply justified_bind; [|intros; apply justified_ret].
  apply IH. intros; apply Hin. by right.
Qed.

(** C21. A VM connection reaches that VM, or nothing.  Whatever the store, the
    network and Vault answer: an address is dialed only if what was typed is a
    VM's id, the table holds one row of that id (in the farm named, if one was),
    it is still listed and was collected in the last three hours, or staleness
    was accepted.  It is the address of one of its own that is floating or on an
    operator network; or, where it has none, its own on a network it shares with
    an ACTIVE listed sibling of its project and farm, or that sibling's vouched
    one.  These two are dialed directly; through a connection goes only the VM's
    own, and only through one opened to the sibling's.  All hops are as the one
    user being tried, with the configured role. *)
Theorem vm_connections_are_vouched resolve rows selector user farm allowStale terminal confirmed now tr ev a :
  reaches (sshVM resolve rows selector user farm allowStale terminal confirmed now) (tr ++ [ev]) → dialed_of ev = Some a →
  ∃ id deployment l v u t, NovaID selector = Some id ∧ (if String.eqb farm "" then deployment = "" else resolve farm = Ok deployment) ∧ rows = Ok l ∧
    filter (λ v, si_InstanceID v = id ∧ (deployment = "" ∨ si_DeploymentID v = deployment)) l = [v] ∧ current v allowStale terminal confirmed now ∧
    u ∈ login_users cfg v user ∧ vm_route cfg (rows_for u) v u t ∧ a ∈ Addr <$> hops t ∧ dials_along (Addr <$> hops t) tr ev.
Proof.
  unfold SshCommand.sshVM. assert (∀ e, reaches (mret (Some (Msg e)) : prog io_answer (option error)) (tr ++ [ev]) → False) as Hno.
  { intros e [H|[]]. by apply app_nil in H as [_ ?]. }
  destruct (NovaID selector) as [id|] eqn:Ei; [|by intros ?%Hno]. destruct (lookupVM resolve rows id farm) as [v|e] eqn:El; cbn; [|by intros ?%Hno].
  destruct (checkVMCurrent v id allowStale terminal confirmed now) as [[]|e] eqn:Ec; cbn; [|by intros ?%Hno].
  intros Hr Ha. assert (justified_after (vm_dials v user) [] (connectVM v user terminal)) as He.
  { apply justified_bind; [by apply logins_dials|intros; apply justified_ret]. }
  apply (He tr ev []) in Hr. destruct (Hr a Ha) as (u & t & Hu & Ht & Hin & Hd). apply lookupVM_one in El as (deployment & l & Hf & -> & Hl); [|by apply NovaID_nonempty in Ei].
  exists id, deployment, l, v, u, t. split_and!; try done. by eapply checkVMCurrent_ok.
Qed.

(** ** The walk over the users *)

(** One login tried: as whom, with what exchange and which answer. *)
Record login := { lg_user : string; lg_trace : list event; lg_error : option error }.

Lemma TryLoginUsers_runs v policy cands tr r : runs (TryLoginUsers (attempt v policy) cands) tr r → cands ≠ [] →
  ∃ tried l rest, cands = (lg_user <$> tried) ++ lg_user l :: rest ∧ tr = concat (lg_trace <$> tried ++ [l]) ∧ r.1 = (lg_user l, lg_error l) ∧
    Forall (λ l, runs (attempt v policy (lg_user l)) (lg_trace l) (lg_error l)) (tried ++ [l]) ∧
    Forall (λ l, IsAuthFailure (lg_error l) = true) tried ∧ (IsAuthFailure (lg_error l) = true → rest = []).
Proof.
  revert tr r. induction cands as [|u cands IH]; intros tr r H Hne; [done|]. cbn [TryLoginUsers] in H.
  apply runs_bind in H as (t1 & t2 & err & -> & H1 & H). set (l := {| lg_user := u; lg_trace := t1; lg_error := err |}).
  assert (t2 = [] → r = (u, err, []) → (IsAuthFailure err = true → cands = []) →
    ∃ tried l rest, u :: cands = (lg_user <$> tried) ++ lg_user l :: rest ∧ t1 ++ t2 = concat (lg_trace <$> tried ++ [l]) ∧ r.1 = (lg_user l, lg_error l) ∧
    Forall (λ l, runs (attempt v policy (lg_user l)) (lg_trace l) (lg_error l)) (tried ++ [l]) ∧
    Forall (λ l, IsAuthFailure (lg_error l) = true) tried ∧ (IsAuthFailure (lg_error l) = true → rest = [])) as Hone.
  { intros -> -> Hlast. exists [], l, cands. rewrite app_nil_r. split_and!; try done; [by cbn; rewrite app_nil_r|]. apply Forall_cons_2; [done|apply Forall_nil_2]. }
  destruct cands as [|next cands']; [destruct H as [-> <-]; by apply Hone|].
  destruct (negb (IsAuthFailure err)) eqn:Ea; [destruct H as [-> <-]; apply Hone; try done; by intros E; rewrite E in Ea|].
  apply negb_false_iff in Ea. apply runs_bind in H as (t3 & t4 & r' & -> & H2 & [-> <-]). rewrite app_nil_r.
  destruct (IH _ _ H2 ltac:(done)) as (tried & l' & rest & -> & -> & Hr & Hf & Ht & Hl).
  exists (l :: tried), l', rest. split_and!; try done; try by constructor. cbn. by destruct r'.1.
Qed.

(** The users are tried in order until one is an answer.  Whoever refuses: the
    logins tried are the candidates from the first, each refused for its
    identity but the last, whose answer is returned, and which is the last
    candidate if it too was refused; and the access log has one row for each
    login that had a target, all of them for this VM, the last of them a
    success exactly where a session was asked for. *)
Theorem logins_are_walked_and_written v user terminal tr err : runs (connectVM v user terminal) tr err → login_users cfg v user ≠ [] →
  ∃ tried l rest, login_users cfg v user = (lg_user <$> tried) ++ lg_user l :: rest ∧ tr = concat (lg_trace <$> tried ++ [l]) ∧ err = lg_error l ∧
    Forall (λ l, IsAuthFailure (lg_error l) = true) tried ∧ (IsAuthFailure err = true → rest = []) ∧
    Forall (λ l, AuditSpool.Hostname <$> audits (lg_trace l) = if is_ok (vmTarget cfg (rows_for (lg_user l)) v (lg_user l)) then [si_Name v] else []) (tried ++ [l]) ∧
    (OK <$> audits (lg_trace l) = [true] ↔ existsb asks_session (lg_trace l) = true).
Proof.
  intros H Hne. unfold SshCommand.connectVM in H. apply runs_bind in H as (t1 & t2 & r & -> & H & [-> <-]). rewrite app_nil_r.
  apply TryLoginUsers_runs in H as (tried & l & rest & H1 & -> & Hr & Hf & Ht & Hl); [|done]. rewrite Hr. exists tried, l, rest.
  assert (∀ l policy, runs (attempt v policy (lg_user l)) (lg_trace l) (lg_error l) →
    (AuditSpool.Hostname <$> audits (lg_trace l) = if is_ok (vmTarget cfg (rows_for (lg_user l)) v (lg_user l)) then [si_Name v] else []) ∧
    (OK <$> audits (lg_trace l) = [true] ↔ existsb asks_session (lg_trace l) = true)) as Hrow.
  { intros k policy Hk. unfold vm_attempt in Hk. destruct (vmTarget cfg (rows_for (lg_user k)) v (lg_user k)) as [t|e] eqn:Et; [|by destruct Hk as [-> _]].
    apply vmTarget_route in Et as (_ & _ & Hn & _). apply connect_runs in Hk as [e [Ha Hh Hok _ _ _ _]]. rewrite Ha. cbn. rewrite Hh, Hok. cbn. split.
    - destruct t; cbn in *; by rewrite Hn.
    - split; [by intros [= ->]|by intros ->]. }
  split_and!; try done.
  - eapply Forall_impl; [exact Hf|]. intros k Hk. exact (proj1 (Hrow k _ Hk)).
  - apply Forall_app in Hf as [_ Hf]. apply Forall_cons in Hf as [Hf _]. exact (proj2 (Hrow l _ Hf)).
Qed.
End logins_laws.

Module Sample.
Definition uuid : string := "3f2504e0-4f89-11d3-9a0c-0305e82c3301".
Definition vm : StoreInstance :=
  {| si_DeploymentID := "k1"; si_InstanceID := uuid; si_ProjectID := "p1"; si_ProjectName := ""; si_Name := "web"; si_Status := "ACTIVE";
     si_PowerState := ""; si_TaskState := ""; si_AvailabilityZone := ""; si_HypervisorHostname := ""; si_FlavorID := ""; si_ImageID := "";
     si_ImageName := "Ubuntu 24.04"; si_CreatedAt := None; si_UpdatedAt := None; si_ObservedAt := 0; si_MissingSince := None;
     si_Addresses := [demo_address "" "203.0.113.4" "floating"] |}.
Definition cfg : ssh_config := {| SSHDefaultUser := "ops"; cf_CARole := "leaf"; OperatorNetworks := []; SSHDirectFirst := true |}.
Definition no_siblings (u : string) : result string (list StoreInstance) := Ok [].

(** The VM refuses root; its certificate is refused there like any other. *)
Definition outside (e : io) (w : nat) : io_answer e * nat :=
  match e as e return io_answer e * nat with
  | Dial addr cfg =>
      (if String.eqb (cfg_User cfg) "root" then Err (Msg "ssh: handshake failed: ssh: unable to authenticate") else Ok (Access.Sample.conn w), S w)
  | e => Access.Sample.outside Access.Sample.everywhere true Access.Sample.written e w
  end.

Definition connect : prog io_answer (option error) :=
  connectVM Access.Sample.parse Access.Sample.accepted "" Access.Sample.me "2m" true cfg no_siblings vm "" false.
Definition ssh : prog io_answer (option error) :=
  sshVM Access.Sample.parse Access.Sample.accepted "" Access.Sample.me "2m" true cfg no_siblings Err (Ok [vm]) ("openstack:///" +:+ uuid) "" "" false false (Ok false) 7200000000000.

Lemma logins_are_walked_and_written_witness :
  (λ e, (AuditSpool.Hostname e, OK e)) <$> audits (run outside connect 0%nat).1.1 = [("web", false); ("web", true)] ∧
  ∃ tried l rest, ["root"; "ubuntu"; "ops"] = (lg_user <$> tried) ++ lg_user l :: rest ∧ (run outside connect 0%nat).1.1 = concat (lg_trace <$> tried ++ [l]).
Proof.
  split; [vm_compute; reflexivity|].
  destruct (logins_are_walked_and_written Access.Sample.parse Access.Sample.accepted "" Access.Sample.me "2m" true cfg no_siblings vm "" false
    (run outside connect 0%nat).1.1 (run outside connect 0%nat).1.2) as (tried & l & rest & H1 & H2 & _); [apply run_runs|vm_compute; discriminate|].
  exists tried, l, rest. split; [exact H1|exact H2].
Defined.

Lemma vm_connections_are_vouched_witness :
  dialed_of <$> last (take 5 (run outside ssh 0%nat).1.1) = Some (Some "203.0.113.4:22") ∧
  ∃ id deployment l v u t, NovaID ("openstack:///" +:+ uuid) = Some id ∧ deployment = "" ∧ Ok [vm] = Ok l :> result string (list StoreInstance) ∧
    filter (λ v, si_InstanceID v = id ∧ (deployment = "" ∨ si_DeploymentID v = deployment)) l = [v] ∧ current v false false (Ok false) 7200000000000 ∧
    u ∈ login_users cfg v "" ∧ vm_route cfg (no_siblings u) v u t ∧ "203.0.113.4:22" ∈ Addr <$> hops t.
Proof.
  split; [vm_compute; reflexivity|].
  destruct (last (take 5 (run outside ssh 0%nat).1.1)) as [ev|] eqn:E; [|vm_compute in E; discriminate].
  destruct (vm_connections_are_vouched Access.Sample.parse Access.Sample.accepted "" Access.Sample.me "2m" true cfg no_siblings
    Err (Ok [vm]) ("openstack:///" +:+ uuid) "" "" false false (Ok false) 7200000000000 (take 4 (run outside ssh 0%nat).1.1) ev "203.0.113.4:22")
    as (id & deployment & l & v & u & t & H1 & H2 & H3 & H4 & H5 & H6 & H7 & H8 & _).
  - eapply reaches_cut; [exact (run_runs outside ssh 0%nat)|]. rewrite <- (take_drop 5 (run outside ssh 0%nat).1.1) at 1. f_equal.
    vm_compute in E. injection E as <-. vm_compute. reflexivity.
  - vm_compute in E. injection E as <-. reflexivity.
  - exists id, deployment, l, v, u, t. split_and!; assumption.
Defined.
End Sample.
