(* ===== verification/DnsHosts.v ===== *)
(** The hosts-file dialect of the fleet's DNS records (src/internal/dnshosts):
    reading, adding and removing records, which file serves which zone, and the
    ConfigMap file that holds them in the repository. *)

From Stdlib Require Import Ascii String.
From S2P Require Import Prelude GoStrings GoFormat NetIP NetAddr.
Local Open Scope Z_scope.

Definition nls : string := String nl "".

(** ** Records *)

Record dns_record := { IP : string; Hostnames : list string }.

#[export] Instance dns_record_eq_dec : EqDecision dns_record.
Proof. solve_decision. Defined.

(** One line of a hosts file, where it is a record. *)
Definition parse_line (line : string) : option dns_record :=
  match Fields line with
  | ip :: h :: hs =>
      if HasPrefix ip "#" then None
      else match ParseAddr ip with
           | None => None
           | Some _ => Some {| IP := ip; Hostnames := h :: hs |}
           end
  | _ => None
  end.

Definition Parse (text : string) : list dns_record := omap parse_line (Split text nl).

Definition Lookup (text hostname : string) : option string :=
  IP <$> head (filter (λ r, hostname ∈ Hostnames r) (Parse text)).

(** Summed over the zone files, in whatever order the map yields them. *)
Definition RecordCount (data : gmap string string) : nat := map_fold (λ _ text n, (length (Parse text) + n)%nat) 0%nat data.

(** A line with its address in a column of its own. *)
Definition record_line (ip : string) (names : string) : string := PadRight 20 ip +:+ " " +:+ names.

Definition not_in_names : string := " " +:+ String "009" (String "010" (String "013" (String "011" (String "012" "#")))).

Definition Add (text ip hostname : string) : result string string :=
  match ParseAddr ip with
  | None => Err (Quote ip +:+ " is not an IP address")
  | Some addr =>
      let ip := addr_String addr in
      if String.eqb hostname "" || ContainsAny hostname not_in_names then Err (Quote hostname +:+ " is not a hostname")
      else match Lookup text hostname with
      | Some have => Err (hostname +:+ " already answers with " +:+ have)
      | None =>
          let line := record_line ip hostname in
          let out := TrimRightFunc (in_cutset nls) text in
          if String.eqb out "" then Ok (line +:+ nls)
          else Ok (out +:+ nls +:+ line +:+ nls)
      end
  end.

(** What becomes of one line: whether the name was on it, and the lines left. *)
Definition remove_line (hostname line : string) : bool * list string :=
  match Fields line with
  | ip :: ((_ :: _) as names) =>
      if HasPrefix ip "#" then (false, [line])
      else
        let keep := filter (λ h, h ≠ hostname) names in
        if bool_decide (length keep = length names) then (false, [line])
        else (true, match keep with [] => [] | _ => [record_line ip (Join keep " ")] end)
  | _ => (false, [line])
  end.

Definition Remove (text hostname : string) : string * bool :=
  let edited := remove_line hostname <$> Split (TrimRightFunc (in_cutset nls) text) nl in
  if negb (existsb fst edited) then (text, false)
  else
    let out := Join (concat (snd <$> edited)) nls in
    (if String.eqb out "" then out else out +:+ nls, true).

(** ** Zones *)

(** The zone of the server block the scan is in, and the bindings found. *)
Definition bindings_line (st : string * gmap string string) (line : string) : string * gmap string string :=
  let '(zone, out) := st in
  let t := TrimSpace line in
  if HasSuffix t "{" then
    let head := TrimSpace (TrimSuffix t "{") in
    if HasSuffix head ":53" then (TrimSuffix head ":53", out)
    else if HasPrefix head "hosts " && negb (String.eqb zone "") then
      match Fields head with
      | _ :: file :: _ =>
          match NetIP.LastIndex file "/" with
          | Some i => (zone, <[zone := drop_bytes (S i) file]> out)
          | None => (zone, out)
          end
      | _ => (zone, out)
      end
    else (zone, out)
  else (zone, out).

Definition ZoneBindings (corefile : string) : gmap string string := (foldl bindings_line ("", ∅) (Split corefile nl)).2.

(** The longest zone so far, with one more looked at. *)
Definition better_zone (hostname best z : string) : string :=
  if String.eqb z "." then best
  else if (String.eqb hostname z || HasSuffix hostname ("." +:+ z)) && (String.length best <? String.length z)%nat then z
  else best.

(** The loop over the zones, in the order [zs] that the map yields them. *)
Definition zone_of (hostname : string) (zs : list string) : string := foldl (better_zone hostname) "" zs.

Definition ZoneKeyFor (hostname : string) (bindings : gmap string string) : string * string :=
  let best := zone_of hostname (map_to_list bindings).*1 in
  if negb (String.eqb best "") then (best, default "" (bindings !! best)) else (".", default "" (bindings !! ".")).

(** ** The repository's file *)

Definition canonicalKeyOrder : list string := ["innogrid.hosts"; "sre.hosts"; "misc.hosts"].

Definition OrderedKeys (data : gmap string string) : list string :=
  filter (λ k, is_Some (data !! k)) canonicalKeyOrder ++
  sort_strings (filter (λ k, k ∉ canonicalKeyOrder) (map_to_list data).*1).

Definition Namespace : string := "dns-system".
Definition ConfigMapName : string := "coredns-hosts".

(** The part of the file a parse looks at. *)
Record configMapDoc := { Kind : string; doc_Name : string; doc_Namespace : string; Data : gmap string string }.

(** A zone's text with one newline at its end. *)
Definition normalize (v : string) : string := if String.eqb (TrimSpace v) "" then "" else TrimRightFunc (in_cutset nls) v +:+ nls.

(** [Unmarshal] is yaml.v3's. *)
Definition ParseConfigMapYAML (Unmarshal : string → result string configMapDoc) (y : string) : result string (gmap string string) :=
  match Unmarshal y with
  | Err e => Err ("not valid YAML: " +:+ e)
  | Ok doc =>
      if negb (String.eqb (Kind doc) "ConfigMap") || negb (String.eqb (doc_Name doc) ConfigMapName) || negb (String.eqb (doc_Namespace doc) Namespace) then
        Err ("not the " +:+ Namespace +:+ "/" +:+ ConfigMapName +:+ " ConfigMap (got kind " +:+ Quote (Kind doc) +:+ ", " +:+ doc_Namespace doc +:+ "/" +:+ doc_Name doc +:+ ")")
      else Ok (normalize <$> Data doc)
  end.

Definition bar : string := "# ============================================================".

Definition yaml_head : list string :=
  [bar; "# ConfigMap: " +:+ ConfigMapName; "# API가 수정하는 대상 — 레코드 추가/삭제/조회"; "# 키 이름 = 파일명으로 /etc/coredns/hosts/ 에 마운트됨"; bar;
   "apiVersion: v1"; "kind: ConfigMap"; "metadata:"; "  name: " +:+ ConfigMapName; "  namespace: " +:+ Namespace; "  labels:";
   "    app.kubernetes.io/name: coredns"; "    app.kubernetes.io/component: dns-records"; "data:"].

Definition render_lines (v : string) : list string :=
  (λ line, if String.eqb line "" then "" else "    " +:+ line) <$> Split (TrimRightFunc (in_cutset nls) v) nl.

Definition render_key (i : nat) (k v : string) : list string :=
  (if (0 <? i)%nat then [""] else []) ++ ("  " +:+ k +:+ ": |") :: render_lines v.

Definition RenderConfigMapYAML (data : gmap string string) : string :=
  String.concat "" ((λ line, line +:+ nls) <$> yaml_head ++ concat (imap (λ i k, render_key i k (default "" (data !! k))) (OrderedKeys data))).

(** ** Small files *)

Definition lines_of (l : list string) : string := Join l nls.

Example Parse_skips : Parse (lines_of ["# zone"; "10.0.0.1  a b"; "not-an-ip x"; "10.0.0.2"; ""; "2001:db8::1 c"]) =
  [{| IP := "10.0.0.1"; Hostnames := ["a"; "b"] |}; {| IP := "2001:db8::1"; Hostnames := ["c"] |}].
Proof. vm_compute. reflexivity. Qed.

Example Add_line : Add (lines_of ["10.0.0.1 a"; ""]) "2001:DB8::1" "b" = Ok (lines_of ["10.0.0.1 a"; "2001:db8::1          b"; ""]).
Proof. vm_compute. reflexivity. Qed.

Example Remove_lines : Remove (lines_of ["# a"; "10.0.0.1   a b"; "10.0.0.2 a"; "10.0.0.3 c"]) "a" =
  (lines_of ["# a"; "10.0.0.1             b"; "10.0.0.3 c"; ""], true).
Proof. vm_compute. reflexivity. Qed.

Example ZoneBindings_file :
  map_to_list (ZoneBindings (lines_of [".:53 {"; "  errors"; "  hosts /etc/coredns/hosts/misc.hosts {"; "    fallthrough"; "  }"; "}"; "sre.local:53 {"; "  hosts /etc/coredns/hosts/sre.hosts {"; "  }"; "}"])) ≡ₚ
  [(".", "misc.hosts"); ("sre.local", "sre.hosts")].
Proof. vm_compute. first [reflexivity | apply Permutation_swap]. Qed.

Example ZoneKeyFor_longest :
  ZoneKeyFor "a.b.sre.local" (list_to_map [(".", "misc.hosts"); ("sre.local", "sre.hosts"); ("b.sre.local", "b.hosts"); ("local", "l.hosts")]) = ("b.sre.local", "b.hosts").
Proof. vm_compute. reflexivity. Qed.

(** ** Texts as lines *)

Lemma Parse_cut a b : Parse (a +:+ String nl b) = Parse a ++ Parse b.
Proof. unfold Parse. by rewrite Split_cut, omap_app. Qed.

Lemma Parse_nil : Parse "" = [].
Proof. done. Qed.

Lemma nls_all t : string_all (in_cutset nls) t = true → Parse t = [].
Proof.
  induction t as [|c t IH]; [done|]. cbn [string_all]. intros [Hc Ht]%andb_true_iff. cbn in Hc. rewrite orb_false_r in Hc. apply Ascii.eqb_eq in Hc as ->.
  change (String nl t) with ("" +:+ String nl t). rewrite Parse_cut. by rewrite IH.
Qed.

(** The newlines at the end of a text hold no record. *)
Lemma Parse_trimmed text : Parse (TrimRightFunc (in_cutset nls) text) = Parse text.
Proof.
  destruct (TrimRightFunc_split (in_cutset nls) text) as (t & E & Ht). rewrite E at 2. destruct t as [|c t]; [by rewrite string_app_nil_r|].
  cbn [string_all] in Ht. apply andb_true_iff in Ht as [Hc Ht]. cbn in Hc. rewrite orb_false_r in Hc. apply Ascii.eqb_eq in Hc as ->.
  by rewrite Parse_cut, (nls_all t), app_nil_r.
Qed.

Lemma lacks_nl s : spaceless s = true → lacks nl s = true.
Proof. by apply spaceless_lacks. Qed.

Lemma Fields_Join_fields ws : Forall field ws → Fields (Join ws " ") = ws.
Proof.
  induction 1 as [|w ws Hw Hws IH]; [done|]. destruct ws as [|w' ws]; [by apply Fields_one|].
  change (Join (w :: w' :: ws) " ") with (w +:+ String " " (Join (w' :: ws) " ")). by rewrite Fields_cons, IH.
Qed.

Lemma spaces_snoc n s : spaces n +:+ String " " s = String " " (spaces n +:+ s).
Proof. induction n as [|n IH]; [done|]. change (spaces (S n)) with (String " " (spaces n)). by rewrite !string_app_cons, IH. Qed.

Lemma spaces_space n : string_all is_space (spaces n) = true.
Proof. induction n as [|n IH]; [done|]. exact IH. Qed.

Lemma Fields_record ip names : field ip → Forall field names → Fields (record_line ip (Join names " ")) = ip :: names.
Proof.
  intros Hip Hn. unfold record_line, PadRight. change (" " +:+ Join names " ") with (String " " (Join names " ")).
  rewrite string_app_assoc, spaces_snoc, Fields_cons by done. rewrite Fields_spaces by apply spaces_space. by rewrite Fields_Join_fields.
Qed.

Lemma lacks_record ip names : field ip → Forall field names → lacks nl (record_line ip (Join names " ")) = true.
Proof.
  intros [Hip _] Hn. unfold record_line, PadRight. rewrite !lacks_app, lacks_nl by done. cbn [andb].
  assert (lacks nl (spaces (20 - RuneCount ip)) = true) as -> by (generalize (20 - RuneCount ip)%nat; intros n; induction n as [|n IH]; [done|exact IH]).
  apply string_all_Join; [|done]. eapply Forall_impl; [exact Hn|]. intros w [Hw _]. by apply lacks_nl.
Qed.

Lemma Parse_line line : lacks nl line = true → Parse line = option_list (parse_line line).
Proof. intros H. unfold Parse. rewrite Split_lacks by done. cbn. by destruct (parse_line line). Qed.

Lemma Lookup_app a b h : (IP <$> head (filter (λ r, h ∈ Hostnames r) (a ++ b))) =
  match IP <$> head (filter (λ r, h ∈ Hostnames r) a) with Some ip => Some ip | None => IP <$> head (filter (λ r, h ∈ Hostnames r) b) end.
Proof. rewrite filter_app. by destruct (filter _ a). Qed.

Lemma hash_no_addr t : ParseAddr ("#" +:+ t) = None.
Proof.
  unfold ParseAddr. generalize ("#" +:+ t) at 1. intros s. induction s as [|c s IH]; [done|]. cbn [parse_addr].
  assert (∀ w, parseIPv6 ("#" +:+ w) = None) as H6 by done.
  destruct (Ascii.eqb c "."); [done|]. destruct (Ascii.eqb c ":"); [|by destruct (Ascii.eqb c "%")].
  destruct (Cut ("#" +:+ t) "%") as [[p z]|] eqn:E; [|by rewrite H6]. destruct (String.eqb z ""); [done|].
  destruct p as [|d p]; apply Cut_one_inv in E; [done|]. injection E as <- _. change (String "#" p) with ("#" +:+ p). by rewrite H6.
Qed.

(** ** Adding *)

Definition hostname_ok (h : string) : Prop := field h ∧ lacks "#" h = true.

Lemma hostname_ok_spec h : String.eqb h "" || ContainsAny h not_in_names = false ↔ hostname_ok h.
Proof.
  unfold hostname_ok, field. rewrite orb_false_iff, String.eqb_neq. unfold ContainsAny.
  assert (string_exists (in_cutset not_in_names) h = false ↔ spaceless h = true ∧ lacks "#" h = true) as ->; [|naive_solver].
  clear. unfold spaceless, lacks. induction h as [|c h IH]; [done|]. cbn [string_exists string_all]. rewrite orb_false_iff, IH, !andb_true_iff.
  assert (in_cutset not_in_names c = is_space c || Ascii.eqb c "#") as -> by (revert c; by intros [[] [] [] [] [] [] [] []]).
  destruct (is_space c), (Ascii.eqb c "#"); naive_solver.
Qed.

(** Adding appends one record.  It is refused exactly when the address does
    not parse, the name has white space or a hash in it, or the file already
    answers for it; otherwise the file holds the records it held and, last, the
    one asked for, with its address in the one canonical spelling: the name
    answers with it and every other name as before. *)
Theorem Add_appends text ip hostname :
  (is_ok (Add text ip hostname) = true ↔ is_Some (ParseAddr ip) ∧ hostname_ok hostname ∧ Lookup text hostname = None) ∧
  ∀ out, Add text ip hostname = Ok out → spaceless ip = true →
    ∃ a, ParseAddr ip = Some a ∧ ParseAddr (addr_String a) = Some a ∧
      Parse out = Parse text ++ [{| IP := addr_String a; Hostnames := [hostname] |}] ∧
      ∀ x, Lookup out x = if bool_decide (x = hostname) then Some (addr_String a) else Lookup text x.
Proof.
  unfold Add. destruct (ParseAddr ip) as [a|] eqn:Ea; [|split; [split; [done|by intros [[] _]]|done]].
  destruct (String.eqb hostname "" || ContainsAny hostname not_in_names) eqn:Eh.
  { split; [split; [done|]|done]. intros (_ & H%hostname_ok_spec & _). by rewrite Eh in H. }
  apply hostname_ok_spec in Eh as Hh. destruct (Lookup text hostname) eqn:El; [split; [split; [done|by intros (_ & _ & ?)]|done]|].
  split; [split; [intros _; split_and!; [by eexists|done|done]|intros _; cbv zeta; by destruct (String.eqb (TrimRightFunc _ _) _)]|].
  intros out Hout Hs. exists a. split; [done|]. split; [by eapply ParseAddr_canonical|].
  assert (field (addr_String a)) as Hf.
  { split; [by eapply spaceless_addr|]. pose proof (ParseAddr_canonical _ _ Ea) as H. intros E. by rewrite E in H. }
  set (r := {| IP := addr_String a; Hostnames := [hostname] |}).
  assert (Parse (record_line (addr_String a) hostname +:+ nls) = [r]) as Hl.
  { change (record_line (addr_String a) hostname) with (record_line (addr_String a) (Join [hostname] " ")). destruct Hh as [Hh _]. unfold nls. rewrite Parse_cut, Parse_nil, app_nil_r.
    rewrite Parse_line by (apply lacks_record; [done|by constructor]). unfold parse_line. rewrite Fields_record by (done || by constructor).
    assert (HasPrefix (addr_String a) "#" = false) as ->; [|by rewrite (ParseAddr_canonical _ _ Ea)].
    apply not_true_iff_false. intros [t E]%HasPrefix_inv. pose proof (ParseAddr_canonical _ _ Ea) as H. rewrite E, hash_no_addr in H. done. }
  assert (Parse out = Parse text ++ [r]) as Hp.
  { rewrite <- (Parse_trimmed text). destruct (String.eqb_spec (TrimRightFunc (in_cutset nls) text) "") as [E|_]; injection Hout as <-; [by rewrite E|].
    unfold nls at 2. rewrite string_app_cons. change ("" +:+ ?x) with x. rewrite Parse_cut. by f_equal. }
  split; [done|]. intros x. unfold Lookup at 1. rewrite Hp, Lookup_app. unfold Lookup in *.
  case_bool_decide as Hx.
  - subst x. rewrite El. by rewrite filter_cons_True by (cbn; set_solver).
  - rewrite filter_cons_False by (cbn; set_solver). change (filter (λ r0 : dns_record, x ∈ Hostnames r0) []) with (@nil dns_record). generalize (filter (λ r0 : dns_record, x ∈ Hostnames r0) (Parse text)). intros l. by destruct l.
Qed.

(** ** Removing *)

(** A record without a name, if any name is left. *)
Definition without (h : string) (r : dns_record) : option dns_record :=
  match filter (λ x, x ≠ h) (Hostnames r) with [] => None | keep => Some {| IP := IP r; Hostnames := keep |} end.

Lemma without_other h r : h ∉ Hostnames r → Hostnames r ≠ [] → without h r = Some r.
Proof.
  intros Hh Hne. unfold without. assert (filter (λ x, x ≠ h) (Hostnames r) = Hostnames r) as ->.
  { clear Hne. induction (Hostnames r) as [|x l IH]; [done|]. rewrite filter_cons_True by set_solver. f_equal. apply IH. set_solver. }
  by destruct r as [ip []].
Qed.

Lemma filter_length_eq {A} (P : A → Prop) `{HP : !∀ x, Decision (P x)} (l : list A) : length (filter P l) = length l → ∀ x, x ∈ l → P x.
Proof.
  induction l as [|y l IH]; intros Hlen x Hx; [by apply elem_of_nil in Hx|]. rewrite filter_cons in Hlen. pose proof (length_filter P l) as Hle.
  destruct (decide (P y)) as [Hy|]; cbn in Hlen; [|lia]. apply elem_of_cons in Hx as [->|Hx]; [done|]. apply IH; [lia|done].
Qed.

Lemma parse_remove h line : lacks nl line = true → omap parse_line (remove_line h line).2 = option_list (parse_line line ≫= without h).
Proof.
  intros Hl. unfold remove_line. pose proof (Fields_field line) as Hf. destruct (Fields line) as [|ip [|n names]] eqn:E;
    [cbn; unfold parse_line; by rewrite E..|]. set (ns := n :: names) in *. apply Forall_cons in Hf as [Hip Hns].
  destruct (HasPrefix ip "#") eqn:Eh; [cbn; unfold parse_line; by rewrite E; cbn; rewrite Eh|].
  case_bool_decide as Hk.
  - cbn. unfold parse_line. rewrite E. cbn. rewrite Eh. destruct (ParseAddr ip) eqn:Ea; [|done]. cbn.
    rewrite without_other; [done| |done]. cbn. intros Hin. by apply (filter_length_eq _ _ Hk) in Hin.
  - assert (parse_line line = match ParseAddr ip with None => None | Some _ => Some {| IP := ip; Hostnames := ns |} end) as -> by (unfold parse_line; rewrite E; cbn; by rewrite Eh).
    assert (Forall field (filter (λ x, x ≠ h) ns)) as Hkeep by (apply Forall_forall; intros x [_ Hx]%list_elem_of_filter; by rewrite Forall_forall in Hns; apply Hns).
    unfold without. destruct (ParseAddr ip) eqn:Ea; cbn [mbind option_bind IP Hostnames].
    + destruct (filter (λ x, x ≠ h) ns) as [|k ks] eqn:Ek; cbn [snd omap list_omap option_list]; [done|]. unfold parse_line. rewrite Fields_record by done. cbn. by rewrite Eh, Ea.
    + destruct (filter (λ x, x ≠ h) ns) as [|k ks] eqn:Ek; cbn [snd omap list_omap option_list]; [done|]. unfold parse_line. rewrite Fields_record by done. cbn. by rewrite Eh, Ea.
Qed.

(** A line that says the name, as a record or as what looks like one. *)
Definition says (h line : string) : Prop := ∃ ip names, Fields line = ip :: names ∧ HasPrefix ip "#" = false ∧ h ∈ names.

Lemma remove_says h line : (remove_line h line).1 = true ↔ says h line.
Proof.
  unfold remove_line, says. destruct (Fields line) as [|ip [|n names]].
  - split; [done|]. by intros (? & ? & ? & _).
  - split; [done|]. intros (? & ? & [= <- <-] & _ & H). by apply elem_of_nil in H.
  - set (ns := n :: names). destruct (HasPrefix ip "#") eqn:Eh.
    + split; [done|]. intros (? & ? & [= <- <-] & H & _). by rewrite H in Eh.
    + case_bool_decide as Hk; cbn.
      * split; [done|]. intros (? & ? & [= <- <-] & _ & H). exfalso. by apply (filter_length_eq _ _ Hk) in H.
      * split; [|done]. intros _. exists ip, ns. split_and!; [done..|]. destruct (decide (h ∈ ns)) as [|Hn]; [done|]. destruct Hk.
        clear -Hn. induction ns as [|x l IH]; [done|]. rewrite filter_cons_True by set_solver. cbn. f_equal. apply IH. set_solver.
Qed.

Lemma remove_keeps h line : (remove_line h line).1 = false → (remove_line h line).2 = [line].
Proof. unfold remove_line. by repeat case_match. Qed.

Lemma remove_lacks h line : lacks nl line = true → Forall (λ l, lacks nl l = true) (remove_line h line).2.
Proof.
  intros Hl. pose proof (Fields_field line) as Hf. unfold remove_line. destruct (Fields line) as [|ip [|n names]]; [by repeat constructor..|].
  destruct (HasPrefix ip "#"); [by repeat constructor|]. case_bool_decide; [by repeat constructor|]. apply Forall_cons in Hf as [Hip Hns]. cbn [snd].
  assert (Forall field (filter (λ x, x ≠ h) (n :: names))) as Hkeep by (apply Forall_forall; intros x [_ Hx]%list_elem_of_filter; by rewrite Forall_forall in Hns; apply Hns).
  destruct (filter _ _) as [|k ks]; constructor; [|constructor]. by apply lacks_record.
Qed.

Lemma Split_lines L : L ≠ [] → Forall (λ l, lacks nl l = true) L → Split (Join L nls) nl = L.
Proof. apply (Split_Join nl). Qed.

Lemma removed_lacks h ls : Forall (λ l, lacks nl l = true) ls → Forall (λ l, lacks nl l = true) (concat (snd <$> (remove_line h <$> ls))).
Proof. induction 1; [by constructor|]. cbn. apply Forall_app. split; [by apply remove_lacks|done]. Qed.

Lemma Parse_lines L : Forall (λ l, lacks nl l = true) L → Parse (Join L nls) = omap parse_line L.
Proof. intros H. destruct L as [|l L]; [done|]. unfold Parse. by rewrite Split_lines. Qed.

(** The lines of a text are those before its last newlines, and empty ones. *)
Lemma lines_trimmed text line : line ∈ Split text nl → line ∈ Split (TrimRightFunc (in_cutset nls) text) nl ∨ line = "".
Proof.
  destruct (TrimRightFunc_split (in_cutset nls) text) as (t & E & Ht). rewrite E at 1. destruct t as [|c t]; [rewrite string_app_nil_r; by left|].
  cbn [string_all] in Ht. apply andb_true_iff in Ht as [Hc Ht]. cbn in Hc. rewrite orb_false_r in Hc. apply Ascii.eqb_eq in Hc as ->.
  rewrite Split_cut. intros [H|H]%elem_of_app; [by left|right]. clear E. induction t as [|c t IH]; [by apply list_elem_of_singleton in H|].
  cbn [string_all] in Ht. apply andb_true_iff in Ht as [Hc Ht]. cbn in Hc. rewrite orb_false_r in Hc. apply Ascii.eqb_eq in Hc as ->.
  cbn in H. apply elem_of_cons in H as [->|H]; [done|by apply IH].
Qed.

Lemma trimmed_lines text line : line ∈ Split (TrimRightFunc (in_cutset nls) text) nl → line ∈ Split text nl.
Proof.
  intros H. destruct (TrimRightFunc_split (in_cutset nls) text) as (t & E & Ht). rewrite E. destruct t as [|c t]; [by rewrite string_app_nil_r|].
  cbn [string_all] in Ht. apply andb_true_iff in Ht as [Hc _]. cbn in Hc. rewrite orb_false_r in Hc. apply Ascii.eqb_eq in Hc as ->.
  rewrite Split_cut. apply elem_of_app. by left.
Qed.

Lemma Lookup_without h (l : list dns_record) : Forall (λ r, Hostnames r ≠ []) l → ∀ x,
  IP <$> head (filter (λ r, x ∈ Hostnames r) (omap (without h) l)) =
  if bool_decide (x = h) then None else IP <$> head (filter (λ r, x ∈ Hostnames r) l).
Proof.
  intros H x. induction H as [|r l Hr Hl IH]; [by case_bool_decide|]. cbn [omap list_omap]. unfold without at 1.
  assert (∀ y, y ∈ filter (λ z, z ≠ h) (Hostnames r) ↔ y ≠ h ∧ y ∈ Hostnames r) as Hf by (intros y; by rewrite list_elem_of_filter).
  destruct (filter (λ z, z ≠ h) (Hostnames r)) as [|k ks] eqn:Ek.
  - rewrite IH. case_bool_decide as Hx; [done|]. rewrite filter_cons_False; [done|]. intros Hin. by apply (elem_of_nil x), Hf.
  - destruct (decide (x ≠ h ∧ x ∈ Hostnames r)) as [[Hx Hin]|Hn].
    + rewrite filter_cons_True by (cbn; by apply Hf). rewrite bool_decide_eq_false_2 by done. by rewrite filter_cons_True.
    + rewrite filter_cons_False by (cbn; by intros ?%Hf). rewrite IH. case_bool_decide as Hx; [done|]. rewrite filter_cons_False; [done|]. by intros Hin; apply Hn.
Qed.

Lemma Parse_named text : Forall (λ r, Hostnames r ≠ []) (Parse text).
Proof.
  apply Forall_forall. intros r (line & _ & H)%list_elem_of_omap. unfold parse_line in H. destruct (Fields line) as [|ip [|h hs]]; [done..|].
  destruct (HasPrefix ip "#"); [done|]. destruct (ParseAddr ip); [|done]. by injection H as <-.
Qed.

(** The file without the name: what [Remove] makes of the lines. *)
Lemma Remove_records text h : Parse (Remove text h).1 = omap (without h) (Parse text).
Proof.
  set (ls := Split (TrimRightFunc (in_cutset nls) text) nl). pose proof (Split_all_lack nl (TrimRightFunc (in_cutset nls) text)) as Hl. fold ls in Hl.
  assert (Parse text = omap parse_line ls) as Ht by (by rewrite <- Parse_trimmed).
  assert (omap parse_line (concat (snd <$> (remove_line h <$> ls))) = omap (without h) (Parse text)) as Hr.
  { rewrite Ht. clear Ht. induction Hl as [|l ls' Hl Hls IH]; [done|]. cbn [fmap list_fmap concat]. rewrite omap_app, parse_remove, IH by done. cbn [omap list_omap].
    destruct (parse_line l) as [r|]; [|done]. cbn [mbind option_bind]. cbn [omap list_omap]. by destruct (without h r). }
  unfold Remove. fold ls. destruct (negb (existsb fst _)) eqn:E.
  - cbn [fst]. rewrite <- Hr, Ht. f_equal. apply negb_true_iff in E. clear -E. induction ls as [|l ls IH]; [done|].
    cbn in E. apply orb_false_iff in E as [E1 E2]. cbn. by rewrite remove_keeps, <- IH.
  - cbn [fst]. rewrite <- Hr, <- (Parse_lines _ (removed_lacks h ls Hl)). destruct (String.eqb _ ""); [done|]. unfold nls at 2. by rewrite Parse_cut, app_nil_r.
Qed.

(** Removing takes the name away and nothing else.  Every line that says it
    keeps its other names, or goes when there is none; all other lines stay as
    they are, comments included.  Then the name has no answer and every other
    name the one it had; without such a line the file is left alone and [false]
    returned. *)
Theorem Remove_exact text h : let '(out, ok) := Remove text h in
  (ok = true ↔ ∃ line, line ∈ Split text nl ∧ says h line) ∧ (ok = false → out = text) ∧
  Parse out = omap (without h) (Parse text) ∧
  (∀ x, Lookup out x = if bool_decide (x = h) then None else Lookup text x) ∧
  ∀ line, line ∈ Split text nl → line = "" ∨ says h line ∨ line ∈ Split out nl.
Proof.
  pose proof (Remove_records text h) as Hp. destruct (Remove text h) as [out ok] eqn:E. cbn [fst] in Hp.
  split_and!; [| |done|intros x; unfold Lookup; rewrite Hp; by apply Lookup_without, Parse_named|].
  all: unfold Remove in E; set (ls := Split (TrimRightFunc (in_cutset nls) text) nl) in *; destruct (negb (existsb fst (remove_line h <$> ls))) eqn:Eb; injection E as <- <-.
  - split; [done|]. intros (line & Hin & Hs). apply lines_trimmed in Hin as [Hin| ->]; [|by destruct Hs as (? & ? & ? & _)].
    apply negb_true_iff in Eb. apply remove_says in Hs. rewrite <- not_true_iff_false, existsb_exists in Eb. destruct Eb. exists (remove_line h line).
    split; [|done]. apply list_elem_of_In, list_elem_of_fmap. by exists line.
  - split; [|done]. intros _. apply negb_false_iff, existsb_exists in Eb as (e & He & Hs). apply list_elem_of_In, list_elem_of_fmap in He as (line & -> & Hin).
    exists line. split; [by apply trimmed_lines|by apply remove_says].
  - done.
  - done.
  - intros line Hin. by right; right.
  - intros line Hin. apply lines_trimmed in Hin as [Hin|Hin]; [|by left]. destruct ((remove_line h line).1) eqn:El; [right; left; by apply remove_says|right; right].
    assert (line ∈ concat (snd <$> (remove_line h <$> ls))) as Hc.
    { apply list_elem_of_In, in_concat. exists [line]. split; [|by left]. apply list_elem_of_In, list_elem_of_fmap. exists (remove_line h line). split; [by rewrite remove_keeps|].
      apply list_elem_of_fmap. by exists line. }
    pose proof (removed_lacks h ls (Split_all_lack nl _)) as Hl.
    set (L := concat _) in *. assert (line ∈ Split (Join L nls) nl) as Hj by (rewrite Split_lines; [done|by intros E; rewrite E in Hc; apply elem_of_nil in Hc|done]).
    destruct (String.eqb (Join L nls) ""); [done|]. unfold nls at 2. rewrite Split_cut. apply elem_of_app. by left.
Qed.

(** ** Which zone *)

Definition in_zone (hostname z : string) : Prop := z ≠ "." ∧ (hostname = z ∨ HasSuffix hostname ("." +:+ z) = true).

Lemma better_zone_spec hostname best z :
  (better_zone hostname best z = z ∧ in_zone hostname z ∧ (String.length best < String.length z)%nat) ∨
  (better_zone hostname best z = best ∧ (in_zone hostname z → (String.length z ≤ String.length best)%nat)).
Proof.
  unfold better_zone, in_zone. destruct (String.eqb_spec z "."); [right; naive_solver|].
  destruct ((String.eqb hostname z || HasSuffix hostname ("." +:+ z)) && (String.length best <? String.length z)%nat) eqn:E.
  - left. apply andb_true_iff in E as [E ?%Nat.ltb_lt]. apply orb_true_iff in E as [->%String.eqb_eq|E]; split_and!; auto.
  - right. split; [done|]. intros [_ H]. apply andb_false_iff in E as [E|?%Nat.ltb_ge]; [|lia]. apply orb_false_iff in E as [E1 E2].
    destruct H as [->|H]; [by rewrite String.eqb_refl in E1|by rewrite H in E2].
Qed.

(** The loop, begun anywhere. *)
Lemma zone_loop hostname zs : ∀ best, let r := foldl (better_zone hostname) best zs in
  (r = best ∨ (r ∈ zs ∧ in_zone hostname r)) ∧ (String.length best ≤ String.length r)%nat ∧
  ∀ z, z ∈ zs → in_zone hostname z → (String.length z ≤ String.length r)%nat.
Proof.
  induction zs as [|z zs IH]; intros best; cbn; [split_and!; [by left|lia|by intros z ?%elem_of_nil]|].
  destruct (IH (better_zone hostname best z)) as (H1 & H2 & H3). set (r := foldl _ _ zs) in *.
  destruct (better_zone_spec hostname best z) as [(E & Hz & Hl)|(E & Hl)]; rewrite E in *; split_and!.
  - right. destruct H1 as [->|[H1 H1']]; [by split; [left|]|split; [by right|done]].
  - lia.
  - intros w [->|Hw]%elem_of_cons Hwz; [lia|by apply H3].
  - destruct H1 as [->|[H1 H1']]; [by left|right; split; [by right|done]].
  - lia.
  - intros w [->|Hw]%elem_of_cons Hwz; [specialize (Hl Hwz); lia|by apply H3].
Qed.

(** Two zones of one name and one length are the same. *)
Lemma in_zone_unique hostname z z' : in_zone hostname z → in_zone hostname z' → String.length z = String.length z' → z = z'.
Proof.
  assert (∀ w, in_zone hostname w → ∃ t, reverse_string hostname = reverse_string w +:+ t) as Hw.
  { intros w [_ [->|H]]; [exists ""; by rewrite string_app_nil_r|]. unfold HasSuffix in H. apply HasPrefix_inv in H as [t E].
    rewrite reverse_string_app, string_app_assoc in E. by eexists. }
  intros [t E]%Hw [t' E']%Hw Hl. rewrite <- (reverse_string_involutive z), <- (reverse_string_involutive z'). f_equal.
  assert (∀ w, String.length (reverse_string w) = String.length w) as Hr.
  { clear. induction w as [|c w IH]; [done|]. rewrite reverse_string_cons, length_string_app, IH. cbn. lia. }
  rewrite <- (take_bytes_app (reverse_string z) t), <- E, E', Hr, Hl, <- (Hr z'). apply take_bytes_app.
Qed.

(** A name's file does not depend on the order of the map.  Whatever order
    the bindings come in, the zone is the longest declared one that the name is
    or ends in, on a label; the catch-all is taken exactly when none is, and
    the file is the one bound to the zone. *)
Theorem zone_is_longest_suffix hostname bindings zs : zs ≡ₚ (map_to_list bindings).*1 →
  zone_of hostname zs = zone_of hostname (map_to_list bindings).*1 ∧
  let '(zone, key) := ZoneKeyFor hostname bindings in
  key = default "" (bindings !! zone) ∧
  (zone = "." ∨ (is_Some (bindings !! zone) ∧ in_zone hostname zone)) ∧
  ∀ z, is_Some (bindings !! z) → in_zone hostname z → z ≠ "" → zone ≠ "." ∧ (String.length z ≤ String.length zone)%nat.
Proof.
  intros Hp. assert (∀ z, z ∈ (map_to_list bindings).*1 ↔ is_Some (bindings !! z)) as Hk.
  { intros z. rewrite list_elem_of_fmap. split; [intros ([z' k] & -> & H%elem_of_map_to_list); by exists k|intros [k H]; exists (z, k); by rewrite elem_of_map_to_list]. }
  destruct (zone_loop hostname (map_to_list bindings).*1 "") as (H1 & _ & H3). fold (zone_of hostname (map_to_list bindings).*1) in *. split.
  - destruct (zone_loop hostname zs "") as (G1 & _ & G3). fold (zone_of hostname zs) in *. set (other := zone_of hostname zs) in *.
    assert (∀ z, z ∈ zs ↔ z ∈ (map_to_list bindings).*1) as Hz by (intros z; by rewrite Hp). rewrite Hz in G1. setoid_rewrite Hz in G3.
    destruct H1 as [H1|[H1 H1']], G1 as [G1|[G1 G1']].
    + congruence.
    + specialize (H3 _ G1 G1'). rewrite H1 in *. cbn in H3. destruct other; [done|cbn in H3; lia].
    + specialize (G3 _ H1 H1'). rewrite G1 in *. cbn in G3. destruct (zone_of hostname (map_to_list bindings).*1); [done|cbn in G3; lia].
    + apply (in_zone_unique hostname); [done..|]. specialize (H3 _ G1 G1'). specialize (G3 _ H1 H1'). lia.
  - unfold ZoneKeyFor. set (best := zone_of hostname (map_to_list bindings).*1) in *. destruct (String.eqb_spec best "") as [Hb|Hb]; cbn.
    + split_and!; [done|by left|]. intros z Hz Hin Hne. specialize (H3 z ltac:(by apply Hk) Hin). rewrite Hb in H3. destruct z; [done|cbn in H3; lia].
    + destruct H1 as [H1|[H1 H1']]; [done|]. split_and!; [done|right; split; [by apply Hk|done]|]. intros z Hz Hin _. split; [by destruct H1'|]. apply H3; [by apply Hk|done].
Qed.

(** The file lists every zone file once. *)
Lemma OrderedKeys_all data : NoDup (OrderedKeys data) ∧ ∀ k, k ∈ OrderedKeys data ↔ is_Some (data !! k).
Proof.
  assert (∀ k, k ∈ (map_to_list data).*1 ↔ is_Some (data !! k)) as Hk.
  { intros k. rewrite list_elem_of_fmap. split; [intros ([k' v] & -> & H%elem_of_map_to_list); by exists v|intros [v H]; exists (k, v); by rewrite elem_of_map_to_list]. }
  unfold OrderedKeys, sort_strings. split.
  - apply NoDup_app. split_and!.
    + apply NoDup_filter. apply (bool_decide_unpack _). by vm_compute.
    + intros k [_ Hin]%list_elem_of_filter H. apply sort_elem_of, list_elem_of_filter in H as [H _]. done.
    + apply sort_NoDup, NoDup_filter, NoDup_fst_map_to_list.
  - intros k. rewrite elem_of_app, sort_elem_of, !list_elem_of_filter, Hk. destruct (decide (k ∈ canonicalKeyOrder)); naive_solver.
Qed.

(** ** What the dialect does not guard *)

(** A zone of an IPv6 address may hold a space, which then ends the address. *)
Lemma a_spaced_address_breaks_the_line :
  (Add "" "fe80::1%a evil.sre.local" "h" ≫= λ out, Ok (Parse out)) = Ok [{| IP := "fe80::1%a"; Hostnames := ["evil.sre.local"; "h"] |}].
Proof. vm_compute. reflexivity. Qed.

(** A comment after a record answers for its words, and is edited like names. *)
Lemma a_trailing_comment_is_names :
  let text := lines_of ["10.0.0.1 a # was b"; ""] in
  Lookup text "b" = Some "10.0.0.1" ∧ Remove text "b" = (lines_of ["10.0.0.1             a # was"; ""], true).
Proof. vm_compute. by split. Qed.

(** ** Samples *)

Module Sample.
Definition zone : string := lines_of ["# nodes"; "10.0.0.1   a b"; ""].

Lemma Add_appends_witness :
  Add zone "2001:DB8::2" "c" = Ok (lines_of ["# nodes"; "10.0.0.1   a b"; "2001:db8::2          c"; ""]) ∧
  ∀ x, Lookup (lines_of ["# nodes"; "10.0.0.1   a b"; "2001:db8::2          c"; ""]) x = if bool_decide (x = "c") then Some "2001:db8::2" else Lookup zone x.
Proof.
  split; [vm_compute; reflexivity|].
  destruct (proj2 (Add_appends zone "2001:DB8::2" "c") (lines_of ["# nodes"; "10.0.0.1   a b"; "2001:db8::2          c"; ""])) as (a & Ha & _ & _ & H); [vm_compute; reflexivity..|].
  vm_compute in Ha. injection Ha as <-. exact H.
Defined.

Definition bindings : gmap string string := list_to_map [(".", "misc.hosts"); ("sre.local", "sre.hosts"); ("local", "l.hosts")].

Lemma zone_is_longest_suffix_witness :
  zone_of "a.sre.local" (rev (map_to_list bindings).*1) = zone_of "a.sre.local" (map_to_list bindings).*1 ∧ ZoneKeyFor "a.sre.local" bindings = ("sre.local", "sre.hosts").
Proof.
  split; [|vm_compute; reflexivity].
  refine (proj1 (zone_is_longest_suffix "a.sre.local" bindings (rev (map_to_list bindings).*1) _)). rewrite <- Permutation_rev. done.
Defined.
End Sample.
