(* ===== verification/DnsWrite.v ===== *)
(** The dns command (src/internal/cli/dns.go) with the two clients it writes
    through (src/internal/gitlabapi, src/internal/kubeapi): a record is
    committed to the repository, the cluster is made to match the repository's
    head, and the resolver is asked until it answers. *)

From Stdlib Require Import Ascii String.
From S2P Require Import Prelude GoStrings GoFormat GoURL GoBase64 NetAddr Effects Strutil DnsHosts.
Local Open Scope Z_scope.

(** ** Errors and answers *)

(** An error, and whether [errors.Is] finds a conflict in it. *)
Record error := { text : string; conflict : bool }.
Definition plain (s : string) : error := {| text := s; conflict := false |}.
Definition wrap (before : string) (e : error) (after : string) : error := {| text := before +:+ text e +:+ after; conflict := conflict e |}.

(** An answer read whole; [JSON]: what its body decodes to. *)
Record response (A : Type) := { Status : Z; StatusText : string; Body : string; JSON : result string A }.
Arguments Status {A}. Arguments StatusText {A}. Arguments Body {A}. Arguments JSON {A}.

Definition OK {A} (r : response A) : bool := (200 <=? Status r) && (Status r <? 300).

Definition Snippet (b : string) (n : nat) : string :=
  let s := TrimSpace b in if (n <? String.length s)%nat then take_bytes n s +:+ "…" else s.

Definition decoded {A} (r : result string A) : result error A := match r with Ok a => Ok a | Err e => Err (plain e) end.

(** A write's answer is not decoded. *)
Definition written {A} (r : result error A) : result error () := match r with Ok _ => Ok tt | Err e => Err e end.

(** ** The repository's API *)

Record git_client := { gc_base : string; gc_token : string }.

Record File := { Content : string; LastCommitID : string }.
Record git_file := { gf_content : string; gf_encoding : string; gf_last_commit_id : string }.
Record git_update := { branch : string; content : string; commit_message : string; last_commit_id : string }.

(** [usable]: a certificate of the bundle parses. *)
Definition git_New (usable : string → bool) (base token caPEM : string) : result string git_client :=
  if String.eqb base "" || String.eqb token "" then Err "gitlab base url and token are both required"
  else if negb (String.eqb caPEM "") && negb (usable caPEM) then Err "gitlab CA: no usable certificate in the CA bundle"
  else Ok {| gc_base := TrimRightFunc (in_cutset "/") base; gc_token := token |}.

Definition segment_byte (c : ascii) : bool := unreserved c || in_cutset "$&+:=@" c.
Definition PathEscape : string → string := escape segment_byte.

Definition file_path (project path : string) : string :=
  "/api/v4/projects/" +:+ PathEscape project +:+ "/repository/files/" +:+ PathEscape path.

Definition fileURL (c : git_client) (project path ref : string) : string :=
  gc_base c +:+ file_path project path +:+ (if String.eqb ref "" then "" else "?ref=" +:+ QueryEscape ref).

Definition stale_sentence : string := "You are attempting to update a file that has changed".

(** The path an error names: the address's, unescaped. *)
Definition url_path (url : string) : string := match url_Parse url with Some u => GoURL.Path u | None => "" end.

Definition git_do {A} (url : string) (r : result string (response A)) (into : bool) : result error A :=
  match r with
  | Err e => Err (plain e)
  | Ok r =>
      if (Status r =? 409) || (Status r =? 400) && Contains (Body r) stale_sentence then
        Err {| text := url_path url +:+ ": the file changed since it was read"; conflict := true |}
      else if negb (OK r) then Err (plain (url_path url +:+ ": " +:+ StatusText r +:+ ": " +:+ Snippet (Body r) 300))
      else decoded (JSON r)
  end.

Definition file_of (path : string) (out : git_file) : result error File :=
  if String.eqb (gf_encoding out) "base64" then
    match StdDecodeString (gf_content out) with
    | None => Err (plain ("decode " +:+ path +:+ ": illegal base64 data"))
    | Some raw => Ok {| Content := raw; LastCommitID := gf_last_commit_id out |}
    end
  else Ok {| Content := gf_content out; LastCommitID := gf_last_commit_id out |}.

(** ** The cluster's API *)

Record kube_client := { kc_base : string; kc_token : string }.

Record ConfigMap := { ResourceVersion : string; cm_Data : gmap string string; Annotations : gmap string string }.
Record cm_patch := { p_resourceVersion : string; p_annotations : gmap string string; p_data : gmap string string }.

Definition kube_New (usable : string → bool) (server token caPEM : string) : result string kube_client :=
  if String.eqb server "" || String.eqb token "" then Err "kubernetes server and token are both required"
  else if String.eqb caPEM "" then Err "no usable certificate in the cluster CA"
  else if negb (usable caPEM) then Err "cluster CA: no usable certificate in the CA bundle"
  else Ok {| kc_base := TrimRightFunc (in_cutset "/") server; kc_token := token |}.

Definition cm_path (namespace name : string) : string := "/api/v1/namespaces/" +:+ PathEscape namespace +:+ "/configmaps/" +:+ PathEscape name.
Definition cmURL (c : kube_client) (namespace name : string) : string := kc_base c +:+ cm_path namespace name.

(** [message]: the body's own, where it decodes and has one. *)
Definition statusMessage (message : option string) (body : string) : string :=
  match message with Some m => if String.eqb m "" then Snippet body 2048 else m | None => Snippet body 2048 end.

Definition kube_do {A} (message : string → option string) (url : string) (r : result string (response A)) : result error A :=
  match r with
  | Err e => Err (plain e)
  | Ok r =>
      if Status r =? 409 then Err {| text := url_path url +:+ ": the object changed since it was read"; conflict := true |}
      else if negb (OK r) then Err (plain (url_path url +:+ ": " +:+ StatusText r +:+ ": " +:+ statusMessage (message (Body r)) (Body r)))
      else decoded (JSON r)
  end.

(** ** What the command asks of the outside *)

Inductive io :=
| EnsureLogin
| ReadKV (path : string)
| GitGet (token url : string)
| GitPut (token url : string) (body : git_update)
| KubeGet (token url : string)
| KubePatch (token url : string) (body : cm_patch)
| Actor
| Now
| Resolve (resolver name : string)
| Wait (d : duration).

(** A request's answer is an error also when it could not be made, for an
    address that is none.  [Actor]: the login name, where the system knows one.  [Wait]: the context's
    error, when it ended first. *)
Definition io_answer (e : io) : Type :=
  match e with
  | EnsureLogin => option string
  | ReadKV _ => result string (gmap string string)
  | GitGet _ _ => result string (response git_file)
  | GitPut _ _ _ => result string (response ())
  | KubeGet _ _ => result string (response ConfigMap)
  | KubePatch _ _ _ => result string (response ())
  | Actor => result string string
  | Now => time_t
  | Resolve _ _ => result string (list string)
  | Wait _ => option string
  end.

Notation P := (prog io_answer).

Record Config := { DNSKubeKVPath : string; DNSGitTokenKVPath : string; DNSGitBase : string; DNSGitProject : string; DNSResolver : string }.
Record dnsSession := { kube : kube_client; git : option git_client }.

Definition dnsRepoFile : string := "configmap-hosts.yaml".
Definition dnsRepoBranch : string := "main".
Definition dnsCorefileCM : string := "coredns-corefile".
Definition dnsStampAnn : string := "vctl.sre.local/last-change".
Definition dnsWriteAttempts : nat := 3.
Definition dnsVerifyStreak : nat := 3.
Definition dnsVerifyEvery : duration := 3 * Second.
Definition dnsVerifyFor : duration := 2 * Minute.

Section dns.
(** yaml.v3, the certificate parser, a cluster's status message, the embedded
    root, and the configuration. *)
Context (Unmarshal : string → result string configMapDoc) (usable : string → bool) (message : string → option string).
Context (SRERootCA : string) (cfg : Config).

(** ** The clients' calls *)

Definition GetFile (c : git_client) (path : string) : P (result error File) :=
  r ← ask (GitGet (gc_token c) (fileURL c (DNSGitProject cfg) path dnsRepoBranch));
  mret (out ← git_do (fileURL c (DNSGitProject cfg) path dnsRepoBranch) r true; file_of path out).

Definition UpdateFile (c : git_client) (path cont msg lastCommitID : string) : P (result error ()) :=
  r ← ask (GitPut (gc_token c) (fileURL c (DNSGitProject cfg) path "")
             {| branch := dnsRepoBranch; content := cont; commit_message := msg; last_commit_id := lastCommitID |});
  mret (written (git_do (fileURL c (DNSGitProject cfg) path "") r false)).

Definition GetConfigMap (c : kube_client) (name : string) : P (result error ConfigMap) :=
  r ← ask (KubeGet (kc_token c) (cmURL c Namespace name));
  mret (kube_do message (cmURL c Namespace name) r).

Definition PatchConfigMapData (c : kube_client) (name resourceVersion : string) (data annotations : gmap string string) : P (result error ()) :=
  r ← ask (KubePatch (kc_token c) (cmURL c Namespace name)
             {| p_resourceVersion := resourceVersion; p_annotations := annotations; p_data := data |});
  mret (written (kube_do message (cmURL c Namespace name) r)).

Definition field_of (m : gmap string string) (k : string) : string := default "" (m !! k).

Definition openDNS (forWrite : bool) : P (result error dnsSession) :=
  login ← ask EnsureLogin;
  match login : option string with
  | Some e => mret (Err (plain e))
  | None =>
      sec ← ask (ReadKV (DNSKubeKVPath cfg));
      match sec : result string (gmap string string) with
      | Err e => mret (Err (wrap ("no DNS credentials at " +:+ DNSKubeKVPath cfg +:+ " (") (plain e) ") — see the coredns repo's vctl-dns-rbac.yaml"))
      | Ok sec =>
          match kube_New usable (field_of sec "server") (field_of sec "token") (field_of sec "ca") with
          | Err e => mret (Err (plain e))
          | Ok kube =>
              if negb forWrite then mret (Ok {| kube := kube; git := None |})
              else
                tok ← ask (ReadKV (DNSGitTokenKVPath cfg));
                match tok : result string (gmap string string) with
                | Err e => mret (Err (wrap ("no GitLab token at " +:+ DNSGitTokenKVPath cfg +:+ " (") (plain e) ") — a DNS change must land in the IaC repo"))
                | Ok tok =>
                    match git_New usable (DNSGitBase cfg) (field_of tok "token") SRERootCA with
                    | Err e => mret (Err (plain e))
                    | Ok git => mret (Ok {| kube := kube; git := Some git |})
                    end
                end
          end
      end
  end.

(** ** The listing *)

(** The records of one zone file that match. *)
Definition matching (filter_ text : string) : list (string * string) :=
  filter (λ r, filter_ = "" ∨ Contains r.2 filter_ = true ∨ Contains r.1 filter_ = true)
    ((λ r, (IP r, Join (Hostnames r) " ")) <$> Parse text).

Definition listed (filter_ : string) (data : gmap string string) : list (string * list (string * string)) :=
  filter (λ g, g.2 ≠ []) ((λ key, (TrimSuffix key ".hosts", matching filter_ (field_of data key))) <$> OrderedKeys data).

(** The groups shown, and the live answer where one is. *)
Definition runDNSList (filter_ : string) : P (result error (list (string * list (string * string)) * list string)) :=
  s ← openDNS false;
  match s with
  | Err e => mret (Err e)
  | Ok s =>
      cm ← GetConfigMap (kube s) ConfigMapName;
      match cm with
      | Err e => mret (Err e)
      | Ok cm =>
          if negb (String.eqb filter_ "") && negb (ContainsAny filter_ " /") then
            addrs ← ask (Resolve (DNSResolver cfg) filter_);
            mret (Ok (listed filter_ (cm_Data cm), match addrs : result string (list string) with Ok l => l | Err _ => [] end))
          else mret (Ok (listed filter_ (cm_Data cm), []))
      end
  end.

(** ** The edits *)

(** An edit that stops: the repository has it already, or it is refused. *)
Inductive stop := NoChange | Refused (e : string).
Definition edit : Type := gmap string string → result stop (gmap string string).

Definition sorted_keys (m : gmap string string) : list string := sort_strings (map_to_list m).*1.

Definition dnsCanonicalIP (ip : string) : string := match ParseAddr ip with Some a => addr_String a | None => ip end.

Definition dnsZoneKey (bindings data : gmap string string) (hostname zoneFlag : string) : result string (string * string) :=
  '(key, zone) ←
    (if negb (String.eqb zoneFlag "") then
       match bindings !! zoneFlag with
       | None => Err ("no zone " +:+ Quote zoneFlag +:+ " in the Corefile (have: " +:+ Join (sorted_keys bindings) ", " +:+ ")")
       | Some k => Ok (k, zoneFlag)
       end
     else
       let '(zone, key) := ZoneKeyFor hostname bindings in
       if String.eqb key "" then Err ("the Corefile has no hosts file for zone " +:+ Quote zone) else Ok (key, zone));
  match data !! (key : string) with
  | None => Err ("the Corefile serves zone " +:+ Quote zone +:+ " from " +:+ key +:+ ", but the IaC repo file has no such key")
  | Some _ => Ok (key, zone)
  end.

(** The zone files in order: the first that answers otherwise, or the last that
    answers as asked. *)
Fixpoint registered (data : gmap string string) (hostname ip : string) (keys : list string) (matchKey : string) : result string string :=
  match keys with
  | [] => Ok matchKey
  | k :: keys =>
      match Lookup (field_of data k) hostname with
      | None => registered data hostname ip keys matchKey
      | Some have =>
          if negb (String.eqb have ip) then Err (hostname +:+ " already answers with " +:+ have +:+ " (in " +:+ k +:+ "); remove it first")
          else registered data hostname ip keys k
      end
  end.

Definition refused {A} (r : result string A) : result stop A := match r with Ok a => Ok a | Err e => Err (Refused e) end.

Definition add_edit (bindings : gmap string string) (hostname ip zoneFlag : string) : edit := λ data,
  '(key, _) ← refused (dnsZoneKey bindings data hostname zoneFlag);
  matchKey ← refused (registered data hostname ip (sorted_keys data) "");
  if negb (String.eqb matchKey "") then Err NoChange
  else next ← refused (Add (field_of data key) ip hostname); Ok (<[key := next]> data).

(** The files without the name, and how many had it. *)
Definition rm_key (hostname : string) (st : gmap string string * nat) (key : string) : gmap string string * nat :=
  let '(next, ok) := Remove (field_of st.1 key) hostname in
  if negb ok then st else (<[key := next]> st.1, S st.2).

Definition rm_edit (hostname : string) : edit := λ data,
  let '(data', removed) := foldl (rm_key hostname) (data, 0%nat) (sorted_keys data) in
  if (removed =? 0)%nat then Err (Refused (hostname +:+ " is not registered in any zone file (Corefile template wildcards are not records — see the Corefile)"))
  else Ok data'.

(** ** The write path *)

Definition dnsActor : P string :=
  u ← ask Actor;
  mret (match u : result string string with Ok u => if String.eqb u "" then "unknown" else u | Err _ => "unknown" end).

(** [more]: how many attempts may follow this one. *)
Fixpoint commit_from (g : git_client) (msg : string) (change : edit) (more : nat) : P (result error (gmap string string * bool)) :=
  file ← GetFile g dnsRepoFile;
  match file with
  | Err e => mret (Err (wrap ("read " +:+ dnsRepoFile +:+ " from the IaC repo: ") e ""))
  | Ok file =>
      match ParseConfigMapYAML Unmarshal (Content file) with
      | Err e => mret (Err (wrap ("the IaC repo's " +:+ dnsRepoFile +:+ " is not the hosts ConfigMap vctl edits (") (plain e) ") — fix the file first"))
      | Ok data =>
          match change data with
          | Err NoChange => mret (Ok (data, false))
          | Err (Refused e) => mret (Err (plain e))
          | Ok data =>
              let rendered := RenderConfigMapYAML data in
              if String.eqb rendered (Content file) then mret (Ok (data, false))
              else
                r ← UpdateFile g dnsRepoFile rendered msg (LastCommitID file);
                match r with
                | Ok _ => mret (Ok (data, true))
                | Err e =>
                    let failed := mret (Err (wrap "commit to the IaC repo: " e "")) in
                    if conflict e then match more with S more => commit_from g msg change more | O => failed end else failed
                end
          end
      end
  end.

Definition dnsCommit (g : git_client) (action : string) (change : edit) : P (result error (gmap string string * bool)) :=
  actor ← dnsActor;
  commit_from g ("dns: " +:+ action +:+ " (vctl by " +:+ actor +:+ ")") change (dnsWriteAttempts - 1).

Fixpoint project_from (g : git_client) (k : kube_client) (ann : gmap string string) (wantRecords more : nat) : P (result error ()) :=
  file ← GetFile g dnsRepoFile;
  match file with
  | Err e => mret (Err (wrap "the IaC repo holds the change, but re-reading it for the cluster failed (" e ") — the next ArgoCD sync (manual) will apply it"))
  | Ok file =>
      match ParseConfigMapYAML Unmarshal (Content file) with
      | Err e => mret (Err (wrap ("the IaC repo holds the change, but its " +:+ dnsRepoFile +:+ " no longer reads as the hosts ConfigMap (") (plain e) ") — the cluster was left as it was"))
      | Ok data =>
          cm ← GetConfigMap k ConfigMapName;
          match cm with
          | Err e => mret (Err (wrap "the IaC repo holds the change, but reading the live ConfigMap failed (" e ") — the next ArgoCD sync (manual) will apply it"))
          | Ok cm =>
              if (RecordCount data =? 0)%nat && (0 <? wantRecords)%nat then
                mret (Err (plain ("refusing to project the IaC repo onto the cluster: " +:+ dnsRepoFile +:+ " held " +:+ Itoa (Z.of_nat wantRecords) +:+
                  " records when this change was committed and has none now — something emptied it in between; the cluster was left as it was, fix the repo first")))
              else
                r ← PatchConfigMapData k ConfigMapName (ResourceVersion cm) data ann;
                match r with
                | Ok _ => mret (Ok tt)
                | Err e =>
                    let failed := mret (Err (wrap "the IaC repo holds the change, but the live ConfigMap patch failed (" e ") — retry, or sync the coredns app in ArgoCD")) in
                    if conflict e then match more with S more => project_from g k ann wantRecords more | O => failed end else failed
                end
          end
      end
  end.

Definition RFC3339 (t : time_t) : string := FormatDate t +:+ "T" +:+ FormatClock t +:+ "Z".

Definition dnsProject (g : git_client) (k : kube_client) (action : string) (wantRecords : nat) : P (result error ()) :=
  now ← ask Now;
  actor ← dnsActor;
  project_from g k {[dnsStampAnn := RFC3339 now +:+ " " +:+ actor +:+ " " +:+ action]} wantRecords (dnsWriteAttempts - 1).

Definition dnsMutate (g : git_client) (k : kube_client) (action : string) (change : edit) : P (result error ()) :=
  r ← dnsCommit g action change;
  match r with
  | Err e => mret (Err e)
  | Ok (data, _) => dnsProject g k action (RecordCount data)
  end.

Definition zoneBindings (k : kube_client) : P (result error (gmap string string)) :=
  core ← GetConfigMap k dnsCorefileCM;
  mret match core with
  | Err e => Err (wrap ("read the Corefile from " +:+ Namespace +:+ "/" +:+ dnsCorefileCM +:+ ": ") e "")
  | Ok core =>
      let bindings := ZoneBindings (field_of (cm_Data core) "Corefile") in
      if bool_decide (bindings = ∅) then Err (plain ("the Corefile in " +:+ Namespace +:+ "/" +:+ dnsCorefileCM +:+ " declares no hosts-file zones")) else Ok bindings
  end.

Definition dnsAdd (g : git_client) (k : kube_client) (hostname ip zoneFlag : string) : P (result error ()) :=
  bindings ← zoneBindings k;
  match bindings with
  | Err e => mret (Err e)
  | Ok bindings => dnsMutate g k ("add " +:+ hostname +:+ " " +:+ ip) (add_edit bindings hostname ip zoneFlag)
  end.

Definition dnsRm (g : git_client) (k : kube_client) (hostname : string) : P (result error ()) := dnsMutate g k ("rm " +:+ hostname) (rm_edit hostname).

(** ** Asking until it answers *)

(** [None]: out of fuel. *)
Fixpoint verify_from (fuel : nat) (resolver hostname ip : string) (deadline : time_t) (streak : nat) : P (option (result error ())) :=
  match fuel with
  | O => mret None
  | S fuel =>
      r ← ask (Resolve resolver hostname);
      let answers := match r : result string (list string) with Ok addrs => slices_Contains addrs ip | Err _ => false end in
      let streak := if answers then S streak else 0%nat in
      if answers && (dnsVerifyStreak <=? streak)%nat then mret (Some (Ok tt))
      else
        now ← ask Now;
        if After now deadline then
          let got := Join (match r with Ok addrs => addrs | Err _ => [] end) ", " in
          mret (Some (Err (plain ("registered, but " +:+ hostname +:+ " still answers " +:+ Quote (if String.eqb got "" then "no answer" else got) +:+ " after " +:+
            CompactDuration dnsVerifyFor +:+ " — check the coredns pods (`kubectl -n " +:+ Namespace +:+ " get pods`)"))))
        else
          w ← ask (Wait dnsVerifyEvery);
          match w : option string with
          | Some e => mret (Some (Err (plain e)))
          | None => verify_from fuel resolver hostname ip deadline streak
          end
  end.

Definition dnsVerifyAnswers (fuel : nat) (resolver hostname ip : string) : P (option (result error ())) :=
  start ← ask Now;
  verify_from fuel resolver hostname ip (Prelude.Add start dnsVerifyFor) 0.

(** [None]: out of fuel, or a session without a repository, which [openDNS]
    never opens for a write. *)
Definition runDNSAdd (fuel : nat) (hostname ip zoneFlag : string) : P (option (result error ())) :=
  s ← openDNS true;
  match s with
  | Err e => mret (Some (Err e))
  | Ok {| kube := k; git := Some g |} =>
      let ip := dnsCanonicalIP ip in
      r ← dnsAdd g k hostname ip zoneFlag;
      match r with
      | Err e => mret (Some (Err e))
      | Ok _ => dnsVerifyAnswers fuel (DNSResolver cfg) hostname ip
      end
  | Ok {| git := None |} => mret None
  end.

Definition runDNSRm (hostname : string) : P (option (result error ())) :=
  s ← openDNS true;
  match s with
  | Err e => mret (Some (Err e))
  | Ok {| kube := k; git := Some g |} => r ← dnsRm g k hostname; mret (Some r)
  | Ok {| git := None |} => mret None
  end.
End dns.

Notation event := (Effects.event io_answer).

Section laws.
Context (Unmarshal : string → result string configMapDoc) (usable : string → bool) (message : string → option string).
Context (SRERootCA : string) (cfg : Config) (g : git_client) (k : kube_client).
Notation ParseYAML := (ParseConfigMapYAML Unmarshal).
Notation commit_from := (commit_from Unmarshal cfg g).
Notation project_from := (project_from Unmarshal message cfg g k).
Notation dnsCommit := (dnsCommit Unmarshal cfg g).
Notation dnsProject := (dnsProject Unmarshal message cfg g k).
Notation dnsMutate := (dnsMutate Unmarshal message cfg g k).

(** ** What each write comes after *)

Definition file_answer (y : result string (response git_file)) : result error File :=
  out ← git_do (fileURL g (DNSGitProject cfg) dnsRepoFile dnsRepoBranch) y true; file_of dnsRepoFile out.
Definition put_answer (x : result string (response ())) : result error () :=
  written (git_do (fileURL g (DNSGitProject cfg) dnsRepoFile "") x false).
Definition cm_answer (z : result string (response ConfigMap)) : result error ConfigMap := kube_do message (cmURL k Namespace ConfigMapName) z.
Definition patch_answer (x : result string (response ())) : result error () := written (kube_do message (cmURL k Namespace ConfigMapName) x).

Definition git_get (y : result string (response git_file)) : event := Ev (GitGet (gc_token g) (fileURL g (DNSGitProject cfg) dnsRepoFile dnsRepoBranch)) y.
Definition git_put (b : git_update) (x : result string (response ())) : event := Ev (GitPut (gc_token g) (fileURL g (DNSGitProject cfg) dnsRepoFile "") b) x.
Definition kube_get (z : result string (response ConfigMap)) : event := Ev (KubeGet (kc_token k) (cmURL k Namespace ConfigMapName)) z.
Definition kube_patch (b : cm_patch) (x : result string (response ())) : event := Ev (KubePatch (kc_token k) (cmURL k Namespace ConfigMapName) b) x.

Section change.
Context (action : string) (change : edit).

(** The commit is the edit of the file as it was just read, and names that read. *)
Definition put_after (h : list event) (b : git_update) : Prop :=
  ∃ h0 y file data data', h = h0 ++ [git_get y] ∧ file_answer y = Ok file ∧ ParseYAML (Content file) = Ok data ∧
    change data = Ok data' ∧ content b = RenderConfigMapYAML data' ∧ last_commit_id b = LastCommitID file.

(** The change has been found in the repository, or committed to it. *)
Definition committed (h : list event) : Prop := ∃ tc r, tc `prefix_of` h ∧ runs (dnsCommit action change) tc (Ok r).

(** The patch is the repository's file, whole, as it was just read, and names the
    version of the object read after it. *)
Definition patch_after (h : list event) (b : cm_patch) : Prop :=
  ∃ h0 y z file cm, h = h0 ++ [git_get y; kube_get z] ∧ committed h0 ∧ file_answer y = Ok file ∧ ParseYAML (Content file) = Ok (p_data b) ∧
    cm_answer z = Ok cm ∧ p_resourceVersion b = ResourceVersion cm.

Definition write_after (h : list event) (ev : event) : Prop :=
  match asked ev with GitPut _ _ b => put_after h b | KubePatch _ _ b => patch_after h b | _ => True end.

Lemma committed_mono h t : committed h → committed (h ++ t).
Proof. intros (tc & r & Hp & Hr). exists tc, r. split; [by apply prefix_app_r|done]. Qed.

Lemma GetFile_runs t a : runs (GetFile cfg g dnsRepoFile) t a → ∃ y, t = [git_get y] ∧ a = file_answer y.
Proof. intros (y & tr & -> & -> & <-). by exists y. Qed.

Lemma GetConfigMap_runs t a : runs (GetConfigMap message k ConfigMapName) t a → ∃ z, t = [kube_get z] ∧ a = cm_answer z.
Proof. intros (z & tr & -> & -> & <-). by exists z. Qed.

Lemma UpdateFile_runs c msg i t a : runs (UpdateFile cfg g dnsRepoFile c msg i) t a →
  ∃ x, t = [git_put {| branch := dnsRepoBranch; content := c; commit_message := msg; last_commit_id := i |} x] ∧ a = put_answer x.
Proof. intros (x & tr & -> & -> & <-). by exists x. Qed.

Lemma Patch_runs v data ann t a : runs (PatchConfigMapData message k ConfigMapName v data ann) t a →
  ∃ x, t = [kube_patch {| p_resourceVersion := v; p_annotations := ann; p_data := data |} x] ∧ a = patch_answer x.
Proof. intros (x & tr & -> & -> & <-). by exists x. Qed.

Lemma one_call {B} h (e : io) (f : io_answer e → B) : (∀ x, write_after h (Ev e x)) → justified_after write_after h (x ← ask e; mret (f x) : P B).
Proof. intros H. apply justified_bind; [by apply justified_ask|intros; apply justified_ret]. Qed.

Lemma GetFile_justified h : justified_after write_after h (GetFile cfg g dnsRepoFile).
Proof. by apply one_call. Qed.

Lemma GetConfigMap_justified h : justified_after write_after h (GetConfigMap message k ConfigMapName).
Proof. by apply one_call. Qed.

Lemma dnsActor_justified h : justified_after write_after h dnsActor.
Proof. by apply one_call. Qed.

Lemma commit_from_justified msg more : ∀ h, justified_after write_after h (commit_from msg change more).
Proof.
  induction more as [|more IH]; intros h; cbn [DnsWrite.commit_from].
  all: apply justified_bind; [apply GetFile_justified|]; intros t file Hf;
    apply GetFile_runs in Hf as (y & -> & ->); destruct (file_answer y) as [file|e] eqn:Ey; [|apply justified_ret];
    destruct (ParseYAML (Content file)) as [data|e] eqn:Ep; [|apply justified_ret];
    destruct (change data) as [data'|[|e]] eqn:Ec; [|apply justified_ret..];
    destruct (String.eqb _ _); [apply justified_ret|];
    apply justified_bind; [apply one_call; intros x; cbn; by exists h, y, file, data, data'|];
    intros t r _; destruct r as [|e]; [apply justified_ret|]; destruct (conflict e); [|apply justified_ret].
  - apply justified_ret.
  - apply IH.
Qed.

Lemma project_from_justified ann want more : ∀ h, committed h → justified_after write_after h (project_from ann want more).
Proof.
  induction more as [|more IH]; intros h Hh; cbn [DnsWrite.project_from].
  all: apply justified_bind; [apply GetFile_justified|]; intros t file Hf;
    apply GetFile_runs in Hf as (y & -> & ->); destruct (file_answer y) as [file|e] eqn:Ey; [|apply justified_ret];
    destruct (ParseYAML (Content file)) as [data|e] eqn:Ep; [|apply justified_ret];
    apply justified_bind; [apply GetConfigMap_justified|]; intros t cm Hc;
    apply GetConfigMap_runs in Hc as (z & -> & ->); destruct (cm_answer z) as [cm|e] eqn:Ez; [|apply justified_ret];
    destruct (_ && _); [apply justified_ret|];
    apply justified_bind; [apply one_call; intros x; cbn; exists h, y, z, file, cm; by rewrite <- (assoc_L (++))|];
    intros t r _; destruct r as [|e]; [apply justified_ret|]; destruct (conflict e); [|apply justified_ret].
  - apply justified_ret.
  - apply IH. rewrite <- !(assoc_L (++)). by apply committed_mono.
Qed.

Lemma dnsMutate_justified : justified_after write_after [] (dnsMutate action change).
Proof.
  apply justified_bind.
  - apply justified_bind; [apply dnsActor_justified|intros t actor _; apply commit_from_justified].
  - intros t r Hr. destruct r as [[data b]|e]; [|apply justified_ret].
    apply justified_bind; [by apply justified_ask|]. intros t1 now _.
    apply justified_bind; [apply dnsActor_justified|]. intros t2 actor _.
    apply project_from_justified. exists t, (data, b). split; [|done]. rewrite <- !(assoc_L (++)). cbn. by apply prefix_app_r.
Qed.

(** What a commit that came back found or did, at the end of its exchange. *)
Definition settled (t : list event) (data : gmap string string) (wrote : bool) : Prop :=
  ∃ h y file old, file_answer y = Ok file ∧ ParseYAML (Content file) = Ok old ∧
  if wrote then
    ∃ b x, t = h ++ [git_get y; git_put b x] ∧ put_answer x = Ok tt ∧ change old = Ok data ∧ content b = RenderConfigMapYAML data ∧ last_commit_id b = LastCommitID file
  else t = h ++ [git_get y] ∧ (change old = Err NoChange ∧ data = old ∨ change old = Ok data ∧ RenderConfigMapYAML data = Content file).

Lemma settled_app h t data wrote : settled t data wrote → settled (h ++ t) data wrote.
Proof.
  intros (h0 & y & file & old & H1 & H2 & H3). exists (h ++ h0), y, file, old. split_and!; [done..|].
  destruct wrote; [destruct H3 as (b & x & -> & H3); exists b, x|destruct H3 as [-> H3]]; (split; [by rewrite <- (assoc_L (++))|done]).
Qed.

Lemma commit_from_settled msg more : ∀ t data wrote, runs (commit_from msg change more) t (Ok (data, wrote)) → settled t data wrote.
Proof.
  induction more as [|more IH]; intros t data wrote; cbn [DnsWrite.commit_from].
  all: intros H; apply runs_bind in H as (t1 & t2 & file & -> & Hf & H);
    apply GetFile_runs in Hf as (y & -> & ->); destruct (file_answer y) as [file|e] eqn:Ey; [|by destruct H as [_ H]];
    destruct (ParseYAML (Content file)) as [old|e] eqn:Ep; [|by destruct H as [_ H]];
    destruct (change old) as [data'|[|e]] eqn:Ec; [|destruct H as [-> H]; injection H as <- <-; exists [], y, file, old; split; [done|split; [done|split; [done|by left]]]|by destruct H as [_ H]];
    destruct (String.eqb_spec (RenderConfigMapYAML data') (Content file)) as [Er|_]; [destruct H as [-> H]; injection H as <- <-; exists [], y, file, old; split; [done|split; [done|split; [done|by right]]]|];
    apply runs_bind in H as (t3 & t4 & r & -> & Hu & H); apply UpdateFile_runs in Hu as (x & -> & ->);
    destruct (put_answer x) as [[]|e] eqn:Ex; [destruct H as [-> H]; injection H as <- <-; exists [], y, file, old; split_and!; [done..|]; by eexists _, x|].
  - by destruct (conflict e), H as [_ H].
  - destruct (conflict e); [|by destruct H as [_ H]]. apply IH in H. by apply (settled_app [git_get y; git_put _ x]).
Qed.

(** A projection that came back ends with the patch. *)
Lemma project_from_runs ann want more : ∀ t, runs (project_from ann want more) t (Ok tt) → ∃ h b x, t = h ++ [kube_patch b x] ∧ patch_answer x = Ok tt.
Proof.
  induction more as [|more IH]; intros t; cbn [DnsWrite.project_from].
  all: intros H; apply runs_bind in H as (t1 & t2 & file & -> & Hf & H);
    apply GetFile_runs in Hf as (y & -> & ->); destruct (file_answer y) as [file|e]; [|by destruct H as [_ H]];
    destruct (ParseYAML (Content file)) as [data|e]; [|by destruct H as [_ H]];
    apply runs_bind in H as (t3 & t4 & cm & -> & Hc & H); apply GetConfigMap_runs in Hc as (z & -> & ->);
    destruct (cm_answer z) as [cm|e]; [|by destruct H as [_ H]]; destruct (_ && _); [by destruct H as [_ H]|];
    apply runs_bind in H as (t5 & t6 & r & -> & Hu & H); apply Patch_runs in Hu as (x & -> & ->);
    destruct (patch_answer x) as [[]|e] eqn:Ex; [destruct H as [-> _]; eexists [git_get y; kube_get z], _, x; by rewrite app_nil_r|].
  - by destruct (conflict e), H as [_ H].
  - destruct (conflict e); [|by destruct H as [_ H]]. apply IH in H as (h & b & x' & -> & H). eexists (_ :: _ :: _ :: h), b, x'. split; [done|exact H].
Qed.
End change.

(** A session opened for a write has the repository. *)
Lemma openDNS_write t s : runs (openDNS usable SRERootCA cfg true) t (Ok s) → is_Some (git s).
Proof.
  intros H. unfold openDNS in H. apply runs_bind in H as (t1 & t2 & login & -> & _ & H). destruct login; [by destruct H as [_ H]|].
  apply runs_bind in H as (t3 & t4 & sec & -> & _ & H). destruct sec as [sec|e]; [|by destruct H as [_ H]]. destruct (kube_New _ _ _ _); [|by destruct H as [_ H]]. cbn [negb] in H.
  apply runs_bind in H as (t5 & t6 & tok & -> & _ & H). destruct tok as [tok|e]; [|by destruct H as [_ H]]. destruct (git_New _ _ _ _); [|by destruct H as [_ H]].
  destruct H as [_ H]. injection H as <-. by eexists.
Qed.

(** ** The two places, among other writers *)

(** The file's contents, oldest first, and the cluster's object. *)
Record site := { commits : list string; live : gmap string string; version : nat }.

(** The documented services: every commit and every version of the object has
    an identifier of its own. *)
Context (commit_id rv : nat → string) `{!Inj (=) (=) commit_id}.

(** Anybody else may commit and may write the object, which then has a new version. *)
Definition others (w w' : site) : Prop :=
  commits w `prefix_of` commits w' ∧ (version w ≤ version w')%nat ∧ (version w = version w' → live w = live w').

Definition accept_put (w : site) (b : git_update) (w' : site) : Prop :=
  last_commit_id b = commit_id (length (commits w)) ∧ w' = {| commits := commits w ++ [content b]; live := live w; version := version w |}.

(** A merge patch: the keys it names are written, the others stay. *)
Definition accept_patch (w : site) (b : cm_patch) (w' : site) : Prop :=
  p_resourceVersion b = rv (version w) ∧ w' = {| commits := commits w; live := p_data b ∪ live w; version := S (version w) |}.

(** One call, answered.  A write that is answered with success was made, with
    its precondition; one that is not may have been made all the same, unless
    it was a conflict. *)
Definition serves_one (w : site) (ev : event) (w' : site) : Prop :=
  match ev with
  | Ev e x =>
      match e as e return io_answer e → Prop with
      | GitGet _ _ => λ y, w' = w ∧ ∀ f, file_answer y = Ok f → last (commits w) = Some (Content f) ∧ LastCommitID f = commit_id (length (commits w))
      | GitPut _ _ b => λ x, match put_answer x with
                             | Ok _ => accept_put w b w'
                             | Err e => w' = w ∨ (conflict e = false ∧ accept_put w b w')
                             end
      | KubeGet _ u => λ z, w' = w ∧ ∀ cm, u = cmURL k Namespace ConfigMapName → cm_answer z = Ok cm → ResourceVersion cm = rv (version w) ∧ cm_Data cm = live w
      | KubePatch _ _ b => λ x, match patch_answer x with
                                | Ok _ => accept_patch w b w'
                                | Err e => w' = w ∨ (conflict e = false ∧ accept_patch w b w')
                                end
      | _ => λ _, w' = w
      end x
  end.

(** An exchange, with anything the others do before, between and after. *)
Inductive serves : site → list event → site → Prop :=
| serves_done w w' : others w w' → serves w [] w'
| serves_call w w1 w2 ev tr w' : others w w1 → serves_one w1 ev w2 → serves w2 tr w' → serves w (ev :: tr) w'.

Lemma others_refl w : others w w.
Proof. by split_and!. Qed.

Lemma others_trans w1 w2 w3 : others w1 w2 → others w2 w3 → others w1 w3.
Proof. intros (P1 & V1 & L1) (P2 & V2 & L2). split_and!; [by etrans|lia|]. intros H. rewrite L1 by lia. apply L2. lia. Qed.

Lemma others_serves w1 w2 tr w3 : others w1 w2 → serves w2 tr w3 → serves w1 tr w3.
Proof. intros Ho H. inversion H; subst; [apply serves_done; by eapply others_trans|eapply serves_call; [by eapply others_trans|done|done]]. Qed.

Lemma serves_app t1 : ∀ w t2 w', serves w (t1 ++ t2) w' → ∃ w1, serves w t1 w1 ∧ serves w1 t2 w'.
Proof.
  induction t1 as [|ev t1 IH]; intros w t2 w' H; [exists w; split; [apply serves_done, others_refl|done]|].
  inversion H as [|? w1 w2 ? ? ? Ho H1 H2]; subst. apply IH in H2 as (w3 & H2 & H3). exists w3. split; [by eapply serves_call|done].
Qed.

(** Nobody takes a commit back. *)
Lemma serves_one_grows w ev w' : serves_one w ev w' → commits w `prefix_of` commits w'.
Proof.
  destruct ev as [[] x]; cbn; try by intros ->.
  - by intros [-> _].
  - assert (∀ b, accept_put w b w' → commits w `prefix_of` commits w') as H by (intros b [_ ->]; by apply prefix_app_r).
    destruct (put_answer x); [by apply H|intros [->|[_ ?]]; [done|by eapply H]].
  - by intros [-> _].
  - destruct (patch_answer x); [by intros [_ ->]|by intros [->|[_ [_ ->]]]].
Qed.

Lemma serves_grows w tr w' : serves w tr w' → commits w `prefix_of` commits w'.
Proof. induction 1 as [w w' (H & _)|w w1 w2 ev tr w' (Ho & _) H1 H2 IH]; [done|]. etrans; [exact Ho|]. etrans; [by eapply serves_one_grows|done]. Qed.

(** Read and written without a change between: the commit lands on what was read. *)
Lemma put_lands w h y file b (x : result string (response ())) w' : serves w (h ++ [git_get y]) w' → file_answer y = Ok file → last_commit_id b = LastCommitID file →
  ∀ t u w1 w2, others w' w1 → serves_one w1 (Ev (GitPut t u b) x) w2 → w2 = w1 ∨ (accept_put w1 b w2 ∧ last (commits w1) = Some (Content file)).
Proof.
  intros Hs Hf Hb t u w1 w2 Ho Hp. assert (w2 = w1 ∨ accept_put w1 b w2) as [->|Ha]; [|by left|].
  { cbn in Hp. destruct (put_answer x); [by right|]. destruct Hp as [->|[_ ?]]; [by left|by right]. }
  right. split; [done|]. apply serves_app in Hs as (w0 & _ & Hs). inversion Hs as [|? wa wb ? ? ? _ Hg Hd]; subst.
  cbn in Hg. destruct Hg as [-> Hg]. destruct (Hg _ Hf) as [Hl Hi]. destruct Ha as [Ha _]. rewrite Hb, Hi in Ha. apply (inj commit_id) in Ha.
  apply serves_grows in Hd. destruct Ho as (Ho & _). assert (commits wa `prefix_of` commits w1) as [l Ht] by by etrans.
  rewrite Ht, length_app in Ha. destruct l; [|cbn in Ha; lia]. by rewrite Ht, app_nil_r.
Qed.

(** ** The change, in the repository and on the cluster *)

Section in_version.
Context (action : string) (change : edit).

(** A version the change is in: one it was found in, or one it was made in on
    top of the version before. *)
Definition in_version (cs : list string) (i : nat) : Prop :=
  (∃ c data, cs !! i = Some c ∧ ParseYAML c = Ok data ∧
     (change data = Err NoChange ∨ ∃ data', change data = Ok data' ∧ RenderConfigMapYAML data' = c)) ∨
  (∃ i' old data data', i = S i' ∧ cs !! i' = Some old ∧ ParseYAML old = Ok data ∧ change data = Ok data' ∧ cs !! i = Some (RenderConfigMapYAML data')).

Lemma in_version_mono cs cs' i : cs `prefix_of` cs' → in_version cs i → in_version cs' i.
Proof.
  intros Hp [(c & data & Hc & H)|(i' & old & data & data' & -> & Ho & H1 & H2 & H3)].
  - left. exists c, data. split; [by eapply prefix_lookup_Some|done].
  - right. exists i', old, data, data'. split_and!; [done|by eapply prefix_lookup_Some|done..|by eapply prefix_lookup_Some].
Qed.

Lemma last_index {A} (l : list A) x : last l = Some x → (0 < length l)%nat ∧ l !! (length l - 1)%nat = Some x.
Proof. destruct l as [|y l] using rev_ind; [done|]. rewrite last_snoc. intros [= ->]. rewrite length_app; cbn. split; [lia|]. rewrite lookup_app_r by lia. by replace (length l + 1 - 1 - length l)%nat with 0%nat by lia. Qed.

(** What the file was when it was read, and is part of since. *)
Lemma read_version w h y file w1 : serves w (h ++ [git_get y]) w1 → file_answer y = Ok file →
  ∃ w0, serves w h w0 ∧ commits w0 `prefix_of` commits w1 ∧ ∃ n, (length (commits w0) ≤ S n)%nat ∧ (n < length (commits w1))%nat ∧ commits w1 !! n = Some (Content file).
Proof.
  intros Hs Hf. apply serves_app in Hs as (w0 & Hh & Hs). inversion Hs as [|? wa wb ? ? ? Ho Hg Hd]; subst. cbn in Hg. destruct Hg as [-> Hg].
  destruct (Hg _ Hf) as [Hl _]. apply serves_grows in Hd. destruct Ho as (Ho & _). exists w0. split; [done|]. split; [by etrans|].
  apply last_index in Hl as [Hl Hn]. exists (length (commits wa) - 1)%nat. apply prefix_length in Hd as L1. apply prefix_length in Ho as L2.
  split_and!; [lia|lia|by eapply prefix_lookup_Some].
Qed.

Lemma settled_version w t data wrote w1 : serves w t w1 → settled change t data wrote → ∃ i, in_version (commits w1) i ∧ (i < length (commits w1))%nat.
Proof.
  intros Hs (h & y & file & old & Hf & Hp & Hw). destruct wrote.
  - destruct Hw as (b & x & -> & Hx & Hc & Hb & Hi). change (h ++ [git_get y; git_put b x]) with (h ++ [git_get y] ++ [git_put b x]) in Hs.
    rewrite (assoc_L (++)) in Hs. apply serves_app in Hs as (w0 & Hh & Hs). inversion Hs as [|? wa wb ? ? ? Ho Hg Hd]; subst.
    destruct (put_lands _ _ _ _ _ _ _ Hh Hf Hi _ _ _ _ Ho Hg) as [->|[[_ ->] Hl]].
    + exfalso. cbn in Hg. rewrite Hx in Hg. destruct Hg as [_ Hg]. apply (f_equal (length ∘ commits)) in Hg. cbn in Hg. rewrite length_app in Hg. cbn in Hg. lia.
    + apply serves_grows in Hd. cbn in Hd. apply last_index in Hl as [Hl Hn]. exists (length (commits wa)). apply prefix_length in Hd as L. rewrite length_app in L. cbn in L. split; [|lia].
      eapply in_version_mono; [exact Hd|]. right. exists (length (commits wa) - 1)%nat, (Content file), old, data. split_and!; [lia|by apply lookup_app_l_Some|done..|].
      rewrite lookup_app_r, Nat.sub_diag by lia. by rewrite <- Hb.
  - destruct Hw as [-> Hw]. destruct (read_version _ _ _ _ _ Hs Hf) as (w0 & _ & _ & n & _ & Hn & Hc). exists n. split; [|done]. left. exists (Content file), old. split_and!; [done..|].
    destruct Hw as [[Hw _]|[Hw1 Hw2]]; [by left|right; by exists data].
Qed.

Lemma committed_version w t w1 : serves w t w1 → committed action change t → ∃ i, in_version (commits w1) i ∧ (i < length (commits w1))%nat.
Proof.
  intros Hs (tc & [data wrote] & [t' ->] & Hr). apply serves_app in Hs as (w0 & Hs & Hd). unfold DnsWrite.dnsCommit in Hr.
  apply runs_bind in Hr as (t1 & t2 & actor & -> & _ & Hr). apply commit_from_settled, (settled_app change t1) in Hr.
  destruct (settled_version _ _ _ _ _ Hs Hr) as (i & Hi & Hl). apply serves_grows in Hd. exists i. split; [by eapply in_version_mono|]. apply prefix_length in Hd. lia.
Qed.

Lemma put_effect t1 t u b (x : result string (response ())) w w1 w2 w3 : put_after change t1 b → serves w t1 w1 → others w1 w2 → serves_one w2 (Ev (GitPut t u b) x) w3 →
  w3 = w2 ∨ live w3 = live w2 ∧ version w3 = version w2 ∧ ∃ old data data', last (commits w2) = Some old ∧ ParseYAML old = Ok data ∧ change data = Ok data' ∧
    commits w3 = commits w2 ++ [RenderConfigMapYAML data'].
Proof.
  intros (h0 & y & file & data & data' & -> & Hf & Hp & Hc & Hb & Hi) Hs Ho Hev.
  destruct (put_lands _ _ _ _ _ _ _ Hs Hf Hi _ _ _ _ Ho Hev) as [->|[[_ ->] Hl]]; [by left|right]. cbn [commits live version]. split_and!; [done..|].
  exists (Content file), data, data'. by rewrite <- Hb.
Qed.

Lemma patch_effect t1 t u b (x : result string (response ())) w w1 w2 w3 : patch_after action change t1 b → serves w t1 w1 → others w1 w2 → serves_one w2 (Ev (KubePatch t u b) x) w3 →
  w3 = w2 ∨ commits w3 = commits w2 ∧ ∃ i j head data, in_version (commits w2) i ∧ (i ≤ j)%nat ∧ commits w2 !! j = Some head ∧ ParseYAML head = Ok data ∧ live w3 = data ∪ live w2.
Proof.
  intros (h0 & y & z & file & cm & -> & Hc & Hf & Hp & _) Hs Ho Hev.
  assert (w3 = w2 ∨ accept_patch w2 b w3) as [->|[_ ->]]; [|by left|right].
  { cbn in Hev. destruct (patch_answer x); [by right|]. destruct Hev as [->|[_ ?]]; [by left|by right]. }
  cbn [commits live version]. split; [done|]. change (h0 ++ [git_get y; kube_get z]) with (h0 ++ [git_get y] ++ [kube_get z]) in Hs. rewrite (assoc_L (++)) in Hs.
  apply serves_app in Hs as (wa & Hs & Hd). destruct (read_version _ _ _ _ _ Hs Hf) as (w0 & Hh & Hp0 & n & Hn & _ & Hln).
  destruct (committed_version _ _ _ Hh Hc) as (i & Hi & Hil). apply serves_grows in Hd. destruct Ho as (Ho & _).
  assert (commits wa `prefix_of` commits w2) as Hpre by by etrans.
  exists i, n, (Content file), (p_data b). split_and!; [eapply in_version_mono; [|exact Hi]; by etrans|lia|by eapply prefix_lookup_Some|done..].
Qed.

(** C23. A change is made on top of what is there, and reaches the cluster with it.
    However other writers commit and write in between, and whichever answer is
    lost: a commit the command makes is its edit of the version before it, so
    it takes nobody's record away; a write to the cluster is made only when the
    repository has the change, and is a version of the file at least as new,
    whole; and success ends with such a write. *)
Theorem changes_build_on_the_head :
  (∀ t1 ev t2 w w1 w2 w3, reaches (dnsMutate action change) (t1 ++ ev :: t2) → serves w t1 w1 → others w1 w2 → serves_one w2 ev w3 →
    (commits w3 = commits w2 ∨ ∃ old data data', last (commits w2) = Some old ∧ ParseYAML old = Ok data ∧ change data = Ok data' ∧
       commits w3 = commits w2 ++ [RenderConfigMapYAML data']) ∧
    (live w3 = live w2 ∧ version w3 = version w2 ∨ ∃ i j head data, in_version (commits w2) i ∧ (i ≤ j)%nat ∧ commits w2 !! j = Some head ∧ ParseYAML head = Ok data ∧
       live w3 = data ∪ live w2)) ∧
  (∀ tr w w', runs (dnsMutate action change) tr (Ok tt) → serves w tr w' →
    ∃ t1 ev w1 w2 w3, tr = t1 ++ [ev] ∧ serves w t1 w1 ∧ others w1 w2 ∧ serves_one w2 ev w3 ∧ version w3 = S (version w2) ∧ others w3 w').
Proof.
  split.
  - intros t1 ev t2 w w1 w2 w3 Hr Hs Ho Hev. pose proof (dnsMutate_justified action change _ _ _ Hr) as Hj. cbn [app] in Hj.
    destruct ev as [[] x]; unfold write_after in Hj; cbn [asked] in Hj.
    all: try (cbn in Hev; subst w3; split; [by left|left; by split]).
    all: try (cbn in Hev; destruct Hev as [-> _]; split; [by left|left; by split]).
    + destruct (put_effect _ _ _ _ _ _ _ _ _ Hj Hs Ho Hev) as [->|(H1 & H2 & H3)]; (split; [auto|by left]).
    + destruct (patch_effect _ _ _ _ _ _ _ _ _ Hj Hs Ho Hev) as [->|(H1 & H2)]; (split; [by left|auto]).
  - intros tr w w' Hr Hs. unfold DnsWrite.dnsMutate in Hr. apply runs_bind in Hr as (ta & tb & r & -> & _ & Hr). destruct r as [[data wrote]|e]; [|by destruct Hr as [_ Hr]].
    unfold DnsWrite.dnsProject in Hr. apply runs_bind in Hr as (tc & td & now & -> & _ & Hr). apply runs_bind in Hr as (te & tf & actor & -> & _ & Hr).
    apply project_from_runs in Hr as (h & b & x & -> & Hx). exists (ta ++ tc ++ te ++ h), (kube_patch b x).
    rewrite !(assoc_L (++)) in Hs. rewrite !(assoc_L (++)). apply serves_app in Hs as (w1 & Hs & Hd). inversion Hd as [|? w2 w3 ? ? ? Ho Hg Hd']; subst.
    inversion Hd'; subst. exists w1, w2, w3. split_and!; [done..| |done]. cbn in Hg. rewrite Hx in Hg. by destruct Hg as [_ ->].
Qed.
End in_version.

(** ** A server that keeps its word, with others at work *)

Definition answer_of {A} (a : A) : result string (response A) := Ok {| Status := 200; StatusText := "200 OK"; Body := ""; JSON := Ok a |}.
Definition refusal {A} (status : Z) (body : string) : result string (response A) := Ok {| Status := status; StatusText := ""; Body := body; JSON := Err "" |}.

Definition honest (corefile : gmap string string) (login now : string * time_t) (e : io) (w : site) : io_answer e * site :=
  match e as e return io_answer e * site with
  | EnsureLogin => (None, w)
  | ReadKV _ => (Ok ∅, w)
  | GitGet _ _ =>
      (match last (commits w) with
       | Some c => answer_of {| gf_content := c; gf_encoding := "text"; gf_last_commit_id := commit_id (length (commits w)) |}
       | None => refusal 404 ""
       end, w)
  | GitPut _ _ b =>
      if String.eqb (last_commit_id b) (commit_id (length (commits w))) then
        (answer_of tt, {| commits := commits w ++ [content b]; live := live w; version := version w |})
      else (refusal 400 stale_sentence, w)
  | KubeGet _ u =>
      (answer_of (if String.eqb u (cmURL k Namespace ConfigMapName) then {| ResourceVersion := rv (version w); cm_Data := live w; Annotations := ∅ |}
                  else {| ResourceVersion := ""; cm_Data := corefile; Annotations := ∅ |}), w)
  | KubePatch _ _ b =>
      if String.eqb (p_resourceVersion b) (rv (version w)) then
        (answer_of tt, {| commits := commits w; live := p_data b ∪ live w; version := S (version w) |})
      else (refusal 409 "", w)
  | Actor => (Ok login.1, w)
  | Now => (now.2, w)
  | Resolve _ _ => (Ok [], w)
  | Wait _ => (None, w)
  end.

(** Before the [n]th call, [script n] happens. *)
Definition scripted (corefile : gmap string string) (login now : string * time_t) (script : nat → site → site) (e : io) (st : site * nat) : io_answer e * (site * nat) :=
  let '(x, w) := honest corefile login now e (script st.2 st.1) in (x, (w, S st.2)).

Lemma honest_serves corefile login now e w : serves_one w (Ev e (honest corefile login now e w).1) (honest corefile login now e w).2.
Proof.
  destruct e; cbn -[git_do kube_do file_answer cm_answer]; try done.
  - split; [done|]. destruct (last (commits w)) as [c|]; intros f [= <-]. done.
  - destruct (String.eqb_spec (last_commit_id body) (commit_id (length (commits w)))) as [He|]; [by split|by left].
  - split; [done|]. intros cm ->. rewrite String.eqb_refl. by intros [= <-].
  - destruct (String.eqb_spec (p_resourceVersion body) (rv (version w))) as [He|]; [by split|by left].
Qed.

Lemma scripted_serves {A} corefile login now script (p : P A) : (∀ n w, others w (script n w)) → ∀ w n,
  serves w (run (scripted corefile login now script) p (w, n)).1.1 (run (scripted corefile login now script) p (w, n)).2.1.
Proof.
  intros Ho. induction p as [a|e f IH]; intros w n; cbn [run]; [apply serves_done, others_refl|].
  unfold scripted at 1 3. cbn [fst snd]. pose proof (honest_serves corefile login now e (script n w)) as Hh.
  destruct (honest corefile login now e (script n w)) as [x w2] eqn:E. specialize (IH x w2 (S n)).
  destruct (run _ (f x) (w2, S n)) as [[tr a] w3]. cbn in *. eapply serves_call; [apply Ho|exact Hh|exact IH].
Qed.
End laws.

(** ** The edits *)

Lemma sorted_keys_all m : NoDup (sorted_keys m) ∧ ∀ k, k ∈ sorted_keys m ↔ is_Some (m !! k).
Proof.
  unfold sorted_keys, sort_strings. split; [apply sort_NoDup, NoDup_fst_map_to_list|]. intros k. rewrite sort_elem_of, list_elem_of_fmap.
  split; [intros ([k' v] & -> & H%elem_of_map_to_list); by exists v|intros [v H]; exists (k, v); by rewrite elem_of_map_to_list].
Qed.

Lemma Remove_false text h : (Remove text h).2 = false → (Remove text h).1 = text.
Proof. unfold Remove. by destruct (negb _). Qed.

Lemma rm_fold h keys : ∀ m n, NoDup keys → (∀ k, k ∈ keys → is_Some (m !! k)) → ∀ k,
  (foldl (rm_key h) (m, n) keys).1 !! k = if bool_decide (k ∈ keys) then (λ t, (Remove t h).1) <$> m !! k else m !! k.
Proof.
  induction keys as [|key keys IH]; intros m n Hd Hk k; [done|]. apply NoDup_cons in Hd as [Hn Hd]. cbn [foldl].
  destruct (Hk key) as [t Ht]; [by left|]. unfold rm_key at 2. cbn [fst]. unfold field_of. rewrite Ht. cbn [default from_option id].
  assert (∀ m', (∀ j, m' !! j = if bool_decide (j = key) then Some (Remove t h).1 else m !! j) → ∀ n', (foldl (rm_key h) (m', n') keys).1 !! k =
    if bool_decide (k ∈ key :: keys) then (λ t, (Remove t h).1) <$> m !! k else m !! k) as Hstep.
  { intros m' Hm' n'. rewrite IH; [|done|intros j Hj; rewrite Hm'; case_bool_decide; [by eexists|by apply Hk; right]]. rewrite Hm'.
    destruct (decide (k = key)) as [->|Hne].
    - rewrite (bool_decide_eq_false_2 (key ∈ keys)), !bool_decide_eq_true_2 by (done || by left). by rewrite Ht.
    - rewrite (bool_decide_eq_false_2 (k = key)) by done. by rewrite (bool_decide_ext (k ∈ key :: keys) (k ∈ keys)) by set_solver. }
  destruct (Remove t h) as [next ok] eqn:E. destruct ok; cbn [negb].
  - apply Hstep. intros j. destruct (decide (j = key)) as [->|Hj]; [by rewrite bool_decide_eq_true_2, lookup_insert_eq by done|by rewrite bool_decide_eq_false_2, lookup_insert_ne by done].
  - apply Hstep. intros j. pose proof (Remove_false t h) as Hf. rewrite E in Hf. cbn in Hf. rewrite Hf by done. destruct (decide (j = key)) as [->|Hj]; [by rewrite bool_decide_eq_true_2|by rewrite bool_decide_eq_false_2].
Qed.

(** Whether the scan says the name is there. *)
Lemma registered_spec data hostname ip keys : ∀ m r, registered data hostname ip keys m = Ok r →
  (∀ k, k ∈ keys → Lookup (field_of data k) hostname = None ∨ Lookup (field_of data k) hostname = Some ip) ∧
  ((r = m ∧ ∀ k, k ∈ keys → Lookup (field_of data k) hostname = None) ∨ (r ∈ keys ∧ Lookup (field_of data r) hostname = Some ip)).
Proof.
  induction keys as [|k keys IH]; intros m r; cbn [registered].
  - intros [= <-]. split; [by intros k ?%elem_of_nil|left; split; [done|by intros k ?%elem_of_nil]].
  - destruct (Lookup (field_of data k) hostname) as [have|] eqn:El.
    + destruct (String.eqb_spec have ip) as [->|]; [|done]. cbn. intros H. destruct (IH _ _ H) as [H1 H2]. split.
      * intros j [->|Hj]%elem_of_cons; [by right|by apply H1].
      * right. destruct H2 as [[-> _]|[Hr Hl]]; [by split; [left|]|by split; [right|]].
    + intros H. destruct (IH _ _ H) as [H1 H2]. split.
      * intros j [->|Hj]%elem_of_cons; [by left|by apply H1].
      * destruct H2 as [[-> H2]|[Hr Hl]]; [left; split; [done|]; intros j [->|Hj]%elem_of_cons; [done|by apply H2]|right; by split; [right|]].
Qed.

(** An edit concerns one name.  Registering leaves every zone file as it is
    but the one the name's zone is served from, which must be there and gains
    one record; it is made only when no file answers for the name, and is no
    change only when a file answers as asked and none otherwise.  Deregistering
    leaves no file answering for the name, every other name as it was, and every
    file in place. *)
Theorem edits_touch_one_name data hostname : data !! "" = None →
  (∀ bindings ip zone data', add_edit bindings hostname ip zone data = Ok data' → spaceless ip = true →
    ∃ a key text out, ParseAddr ip = Some a ∧ dnsZoneKey bindings data hostname zone = Ok (key, if String.eqb zone "" then (ZoneKeyFor hostname bindings).1 else zone) ∧
      data !! key = Some text ∧ data' = <[key := out]> data ∧
      Parse out = Parse text ++ [{| IP := addr_String a; Hostnames := [hostname] |}] ∧
      ∀ k t, data !! k = Some t → Lookup t hostname = None) ∧
  (∀ bindings ip zone, add_edit bindings hostname ip zone data = Err NoChange →
    (∃ k t, data !! k = Some t ∧ Lookup t hostname = Some ip) ∧ ∀ k t, data !! k = Some t → Lookup t hostname = None ∨ Lookup t hostname = Some ip) ∧
  (∀ data', rm_edit hostname data = Ok data' →
    ∀ k, match data !! k, data' !! k with
         | Some t, Some t' => ∀ x, Lookup t' x = if bool_decide (x = hostname) then None else Lookup t x
         | None, None => True
         | _, _ => False
         end).
Proof.
  intros Hempty. destruct (sorted_keys_all data) as [Hnd Hk]. assert ("" ∉ sorted_keys data) as Hne by (rewrite Hk, Hempty; by intros []).
  assert (∀ k t, data !! k = Some t → field_of data k = t ∧ k ∈ sorted_keys data) as Hf by (intros k t H; unfold field_of; rewrite H; split; [done|apply Hk; by eexists]).
  split_and!.
  - intros bindings ip zone data' H Hs. unfold add_edit in H. destruct (dnsZoneKey bindings data hostname zone) as [[key z]|] eqn:Ez; [|done]. cbn [refused mbind] in H.
    cbn in H. destruct (registered data hostname ip (sorted_keys data) "") as [m|] eqn:Er; [|done]. cbn in H.
    destruct (String.eqb_spec m "") as [->|]; [|done]. cbn in H. destruct (Add (field_of data key) ip hostname) as [out|] eqn:Ea; [|done]. injection H as <-.
    destruct (proj2 (Add_appends _ _ _) _ Ea Hs) as (a & Ha & _ & Hp & _).
    assert (z = (if String.eqb zone "" then (ZoneKeyFor hostname bindings).1 else zone) ∧ is_Some (data !! key)) as [-> [text Ht]].
    { unfold dnsZoneKey in Ez. destruct (String.eqb zone ""); cbn in Ez.
      - destruct (ZoneKeyFor hostname bindings) as [z' k']. destruct (String.eqb k' ""); [done|]. cbn in Ez. destruct (data !! k') eqn:E; [|done]. injection Ez as <- <-. split; [done|]. by eexists.
      - destruct (bindings !! zone) as [k'|]; [|done]. cbn in Ez. destruct (data !! k') eqn:E; [|done]. injection Ez as <- <-. split; [done|]. by eexists. }
    destruct (Hf _ _ Ht) as [Hfk Hin]. exists a, key, text, out. rewrite Hfk in Hp. split_and!; [done..|].
    intros k t Hkt. destruct (Hf _ _ Hkt) as [<- Hkin]. apply registered_spec in Er as [_ [[_ Er]|[Hbad _]]]; [by apply Er|done].
  - intros bindings ip zone H. unfold add_edit in H. destruct (dnsZoneKey bindings data hostname zone) as [[key z]|] eqn:Ez; [|done].
    cbn in H. destruct (registered data hostname ip (sorted_keys data) "") as [m|] eqn:Er; [|done]. cbn in H.
    destruct (String.eqb_spec m "") as [->|Hm]; [by destruct (Add (field_of data key) ip hostname)|].
    apply registered_spec in Er as [H1 [[-> _]|[Hm1 Hm2]]]; [done|]. split.
    + destruct (proj1 (Hk m) Hm1) as [t Ht]. exists m, t. by destruct (Hf _ _ Ht) as [<- _].
    + intros k t Hkt. destruct (Hf _ _ Hkt) as [<- Hkin]. by apply H1.
  - intros data' H k. unfold rm_edit in H. pose proof (rm_fold hostname (sorted_keys data) data 0 Hnd (λ k, proj1 (Hk k)) k) as Hr.
    destruct (foldl _ _ _) as [d n]. destruct (n =? 0)%nat; [done|]. injection H as <-. cbn [fst] in Hr. rewrite Hr.
    destruct (data !! k) as [t|] eqn:Ht; [|by case_bool_decide]. rewrite bool_decide_eq_true_2 by (apply Hk; by eexists). cbn.
    intros x. unfold Lookup. rewrite Remove_records. by apply Lookup_without, Parse_named.
Qed.

(** ** The record answers *)

Definition resolved (ev : event) : option (result string (list string)) :=
  match ev with Ev e x => match e as e return io_answer e → option (result string (list string)) with Resolve _ _ => λ x, Some x | _ => λ _, None end x end.
Definition clock (ev : event) : option time_t :=
  match ev with Ev e x => match e as e return io_answer e → option time_t with Now => λ t, Some t | _ => λ _, None end x end.
Definition gave_up (ev : event) : bool :=
  match ev with Ev e x => match e as e return io_answer e → bool with Wait _ => λ x, match x with Some _ => true | None => false end | _ => λ _, false end x end.

Definition answered_with (ip : string) (r : result string (list string)) : Prop := match r with Ok l => ip ∈ l | Err _ => False end.

(** A clock that does not go back, and passes the wait between two looks at it. *)
Fixpoint paced_from (t : time_t) (l : list time_t) : Prop :=
  match l with [] => True | u :: l => t ≤ u ∧ paced_from (u + dnsVerifyEvery) l end.
Definition paced (l : list time_t) : Prop := match l with [] => True | t :: l => paced_from t l end.

Section verify.
Context (resolver hostname ip : string).
Notation verify_from fuel := (DnsWrite.verify_from fuel resolver hostname ip).

(** One round: an answer, a look at the clock and a wait, as far as it goes. *)
Inductive round (deadline : time_t) (streak : nat) (x : result string (list string)) : list event → option (result error ()) + nat → Prop :=
| r_done : answered_with ip x → (dnsVerifyStreak ≤ S streak)%nat → round deadline streak x [] (inl (Some (Ok tt)))
| r_late now e : deadline < now → round deadline streak x [Ev Now now : event] (inl (Some (Err e)))
| r_stopped now e e' : round deadline streak x [Ev Now now : event; Ev (Wait dnsVerifyEvery) (Some e)] (inl (Some (Err e')))
| r_again now streak' : now ≤ deadline → (answered_with ip x ∧ streak' = S streak ∧ (S streak < dnsVerifyStreak)%nat ∨ ¬ answered_with ip x ∧ streak' = 0%nat) →
    round deadline streak x [Ev Now now : event; Ev (Wait dnsVerifyEvery) None] (inr streak').

Lemma verify_round fuel deadline streak tr r : runs (verify_from (S fuel) deadline streak) tr r →
  ∃ x t, (round deadline streak x t (inl r) ∧ tr = (Ev (Resolve resolver hostname) x : event) :: t) ∨
    ∃ streak' tr', round deadline streak x t (inr streak') ∧ tr = (Ev (Resolve resolver hostname) x : event) :: t ++ tr' ∧ runs (verify_from fuel deadline streak') tr' r.
Proof.
  cbn [DnsWrite.verify_from]. intros H. apply runs_bind in H as (ta & tr1 & x & -> & (? & ? & -> & -> & ->) & H). cbv zeta in H. set (answers := match x with Ok addrs => slices_Contains addrs ip | Err _ => false end) in *.
  assert (answers = true ↔ answered_with ip x) as Ha by (unfold answers, slices_Contains; destruct x; cbn; [by rewrite bool_decide_eq_true|done]).
  destruct (answers && (dnsVerifyStreak <=? (if answers then S streak else 0))%nat) eqn:Ed.
  - destruct H as [-> <-]. exists x, []. left. split; [|done]. apply andb_true_iff in Ed as [E1 E2]. rewrite E1 in E2. apply r_done; [by apply Ha|by apply Nat.leb_le].
  - apply runs_bind in H as (tb & tr2 & now & -> & (? & ? & -> & -> & ->) & H). unfold After in H. destruct (Z.ltb_spec deadline now).
    + destruct H as [-> <-]. exists x, [Ev Now now : event]. left. split; [by apply r_late|done].
    + apply runs_bind in H as (tc & tr3 & w & -> & (? & ? & -> & -> & ->) & H). destruct w as [e|].
      * destruct H as [-> <-]. exists x, [Ev Now now : event; Ev (Wait dnsVerifyEvery) (Some e)]. left. split; [apply r_stopped|done].
      * exists x, [Ev Now now : event; Ev (Wait dnsVerifyEvery) None]. right. eexists _, tr3. split_and!; [|done|exact H]. apply r_again; [done|].
        destruct answers; [left|right]; split_and!; try done; [by apply Ha|apply Nat.leb_gt; exact Ed|by rewrite <- Ha].
Qed.

Lemma verify_success fuel : ∀ deadline streak tr pre q, runs (verify_from fuel deadline streak) tr (Some (Ok tt)) →
  length q = streak → Forall (answered_with ip) q →
  ∃ e q3, (pre ++ q) ++ omap resolved tr = e ++ q3 ∧ (dnsVerifyStreak ≤ length q3)%nat ∧ Forall (answered_with ip) q3.
Proof.
  induction fuel as [|fuel IH]; intros deadline streak tr pre q H Hl Hq; [by destruct H|].
  apply verify_round in H as (x & t & [[H ->]|(streak' & tr' & H & -> & Hr)]).
  - inversion H as [Hx Hs|? ? Hnow|? ? ?|? ?]; subst. exists pre, (q ++ [x]). cbn. rewrite <- (assoc_L (++)). split_and!; [done|rewrite length_app; cbn; lia|].
    apply Forall_app. split; [done|by apply Forall_singleton].
  - inversion H as [|? ? Hnow|? ? ?|now ? Hnow [(Hx & Hs & _)|(Hx & Hs)]]; subst; cbn [omap list_omap app resolved clock].
    + destruct (IH _ _ _ pre (q ++ [x]) Hr) as (e & q3 & E & H1 & H2); [rewrite length_app; cbn; lia|apply Forall_app; split; [done|by apply Forall_singleton]|].
      exists e, q3. split_and!; [|done..]. by rewrite <- E, <- !(assoc_L (++)).
    + destruct (IH _ _ _ ((pre ++ q) ++ [x]) [] Hr) as (e & q3 & E & H1 & H2); [done|constructor|].
      exists e, q3. split_and!; [|done..]. by rewrite <- E, app_nil_r, <- !(assoc_L (++)).
Qed.

Lemma verify_fuel fuel : ∀ deadline streak tr t, runs (verify_from fuel deadline streak) tr None → paced_from t (omap clock tr) → (0 < fuel)%nat →
  t + dnsVerifyEvery * (Z.of_nat fuel - 1) ≤ deadline.
Proof.
  induction fuel as [|fuel IH]; intros deadline streak tr t H Hp Hf; [lia|]. apply verify_round in H as (x & t1 & [[H ->]|(streak' & tr' & H & -> & Hr)]); [inversion H|].
  inversion H as [| | |now ? Hnow _]; subst. cbn in Hp. destruct Hp as [Hp1 Hp2]. destruct fuel as [|fuel]; [unfold dnsVerifyEvery; lia|].
  specialize (IH _ _ _ _ Hr Hp2 ltac:(lia)). unfold dnsVerifyEvery, Second, Millisecond, Microsecond, Nanosecond in *. lia.
Qed.

Lemma verify_failure fuel : ∀ deadline streak tr e, runs (verify_from fuel deadline streak) tr (Some (Err e)) →
  existsb gave_up tr = true ∨ ∃ now, now ∈ omap clock tr ∧ deadline < now.
Proof.
  induction fuel as [|fuel IH]; intros deadline streak tr e H; [by destruct H|]. apply verify_round in H as (x & t1 & [[H ->]|(streak' & tr' & H & -> & Hr)]).
  - inversion H; subst; [right|by left]. eexists. split; [cbn; by left|done].
  - apply IH in Hr. inversion H; subst. destruct Hr as [Hr|(u & Hu & Hlt)]; [left; cbn; done|right; exists u; split; [cbn; by right|done]].
Qed.

(** C25. A record is called live when it is.  The command says so only after the
    resolver's last three answers all had the address; it says it is not only
    once two minutes are over, or when it was told to stop; and it comes back:
    with a clock that passes the wait between two looks, in at most 42 rounds. *)
Theorem verified_means_it_answers fuel tr r : runs (dnsVerifyAnswers fuel resolver hostname ip) tr r →
  (r = Some (Ok tt) → ∃ earlier last3, omap resolved tr = earlier ++ last3 ∧ (3 ≤ length last3)%nat ∧ Forall (answered_with ip) last3) ∧
  (∀ e, r = Some (Err e) → existsb gave_up tr = true ∨
     ∃ start now, head (omap clock tr) = Some start ∧ now ∈ omap clock tr ∧ 2 * Minute < now - start) ∧
  (paced (omap clock tr) → (42 ≤ fuel)%nat → r ≠ None).
Proof.
  intros (start & tr' & -> & H). split_and!.
  - intros ->. destruct (verify_success _ _ _ _ [] [] H) as (e & q & E & Hq); [done|constructor|]. by exists e, q.
  - intros e ->. apply verify_failure in H as [H|(now & Hn & Hl)]; [by left|right]. exists start, now. cbn. split_and!; [done|by right|].
    unfold Prelude.Add, dnsVerifyFor in Hl. lia.
  - intros Hp Hf ->. apply (verify_fuel _ _ _ _ start) in H; [|done|lia].
    unfold Prelude.Add, dnsVerifyFor, dnsVerifyEvery, Minute, Second, Millisecond, Microsecond, Nanosecond in H. lia.
Qed.
End verify.

(** ** Samples *)

Module Sample.
Definition line (ip name : string) : string := record_line ip name +:+ nls.
Definition file_a : gmap string string := {["sre.hosts" := line "10.0.0.1" "a.sre.local"]}.
Definition file_ab : gmap string string := {["sre.hosts" := line "10.0.0.1" "a.sre.local" +:+ line "10.0.0.2" "b.sre.local"]}.
Definition file_0 : gmap string string := {["sre.hosts" := ""]}.
Definition doc (data : gmap string string) : configMapDoc := {| Kind := "ConfigMap"; doc_Name := ConfigMapName; doc_Namespace := Namespace; Data := data |}.

(** The YAML of three files, read. *)
Definition Unmarshal (y : string) : result string configMapDoc :=
  if String.eqb y (RenderConfigMapYAML file_0) then Ok (doc file_0)
  else if String.eqb y (RenderConfigMapYAML file_a) then Ok (doc file_a)
  else if String.eqb y (RenderConfigMapYAML file_ab) then Ok (doc file_ab) else Err "not one of the files".

Definition bindings : gmap string string := {["sre.local" := "sre.hosts"]}.
Definition cfg : Config := {| DNSKubeKVPath := "k"; DNSGitTokenKVPath := "g"; DNSGitBase := "https://git"; DNSGitProject := "iac/dns"; DNSResolver := "10.0.0.53:53" |}.
Definition g : git_client := {| gc_base := "https://git"; gc_token := "t" |}.
Definition k : kube_client := {| kc_base := "https://kube"; kc_token := "t" |}.
Definition message (body : string) : option string := None.
Definition id (n : nat) : string := zeros n.

#[export] Instance id_inj : Inj (=) (=) id.
Proof.
  intros n m H. assert (∀ n, String.length (id n) = n) as Hl by (clear; induction n as [|n IH]; [done|]; change (id (S n)) with (String "0" (id n)); cbn; by rewrite IH).
  by rewrite <- (Hl n), H, Hl.
Qed.

Definition add_a : edit := add_edit bindings "a.sre.local" "10.0.0.1" "".
Definition mutate : P (result error ()) := dnsMutate Unmarshal message cfg g k "add a" add_a.
Definition start : site := {| commits := [RenderConfigMapYAML file_0]; live := file_0; version := 0 |}.

(** Somebody registers [b] while [a] is being projected, after [a]'s file was
    read and before the object was: their commit, and their own projection. *)
Definition meanwhile (n : nat) (w : site) : site :=
  if (n =? 6)%nat then {| commits := commits w ++ [RenderConfigMapYAML file_ab]; live := file_ab; version := S (version w) |} else w.

Lemma meanwhile_others n w : others w (meanwhile n w).
Proof. unfold meanwhile. destruct (n =? 6)%nat; [|apply others_refl]. split_and!; cbn; [by apply prefix_app_r|lia|lia]. Qed.

Definition alone : list event * result error () * (site * nat) :=
  run (scripted k id id ∅ ("me", 0) ("", 1000000000) (λ _ w, w)) mutate (start, 0%nat).
Definition raced : list event * result error () * (site * nat) :=
  run (scripted k id id ∅ ("me", 0) ("", 1000000000) meanwhile) mutate (start, 0%nat).

(** The projection reads the file before the version it names, so a file that is
    no longer the head passes with a version that is: both commands succeeded,
    the repository holds both records, and the cluster has lost the second. *)
Lemma a_stale_projection_reverts :
  raced.1.2 = Ok tt ∧ serves message cfg g k id id start raced.1.1 raced.2.1 ∧
  last (commits raced.2.1) = Some (RenderConfigMapYAML file_ab) ∧
  (∃ cm, raced.1.1 !! 6%nat = Some (kube_get k (answer_of cm)) ∧ Lookup (field_of (cm_Data cm) "sre.hosts") "b.sre.local" = Some "10.0.0.2") ∧
  Lookup (field_of (live raced.2.1) "sre.hosts") "b.sre.local" = None.
Proof.
  split_and!.
  - vm_compute. reflexivity.
  - apply scripted_serves, meanwhile_others.
  - vm_compute. reflexivity.
  - exists {| ResourceVersion := id 1; cm_Data := file_ab; Annotations := ∅ |}. split; vm_compute; reflexivity.
  - vm_compute. reflexivity.
Qed.

Lemma changes_build_on_the_head_witness :
  alone.1.2 = Ok tt ∧ commits alone.2.1 = [RenderConfigMapYAML file_0; RenderConfigMapYAML file_a] ∧ live alone.2.1 = file_a ∧
  ∃ t1 ev w1 w2 w3, alone.1.1 = t1 ++ [ev] ∧ serves message cfg g k id id start t1 w1 ∧ others w1 w2 ∧ serves_one message cfg g k id id w2 ev w3 ∧
    version w3 = S (version w2) ∧ others w3 alone.2.1.
Proof.
  split; [vm_compute; reflexivity|]. split; [vm_compute; reflexivity|]. split; [vm_compute; reflexivity|].
  apply (proj2 (changes_build_on_the_head Unmarshal message cfg g k id id "add a" add_a) alone.1.1 start alone.2.1).
  - assert (Ok tt = alone.1.2) as -> by (vm_compute; reflexivity). apply run_runs.
  - apply scripted_serves. intros n w. apply others_refl.
Defined.

Lemma edits_touch_one_name_witness :
  add_edit bindings "a.sre.local" "10.0.0.1" "" file_0 = Ok file_a ∧
  ∃ a key text out, ParseAddr "10.0.0.1" = Some a ∧ dnsZoneKey bindings file_0 "a.sre.local" "" = Ok (key, "sre.local") ∧ file_0 !! key = Some text ∧
    file_a = <[key := out]> file_0 ∧ Parse out = Parse text ++ [{| IP := addr_String a; Hostnames := ["a.sre.local"] |}] ∧
    ∀ k t, file_0 !! k = Some t → Lookup t "a.sre.local" = None.
Proof.
  split; [vm_compute; reflexivity|].
  exact (proj1 (edits_touch_one_name file_0 "a.sre.local" eq_refl) bindings "10.0.0.1" "" file_a eq_refl eq_refl).
Defined.

(** A resolver of several pods, one of which has the record at first. *)
Definition pods (e : io) (n : nat) : io_answer e * nat :=
  match e as e return io_answer e * nat with
  | Resolve _ _ => (if (n =? 1)%nat || (7 <? n)%nat then Ok ["10.0.0.1"] else Err "no such host", S n)
  | Now => (Z.of_nat n * Second, S n)
  | e => ((honest k id id ∅ ("me", 0) ("", 0) e start).1, S n)
  end.

Definition verifying : list event * option (result error ()) * nat := run pods (dnsVerifyAnswers 42 "10.0.0.53:53" "a.sre.local" "10.0.0.1") 0%nat.

Lemma verified_means_it_answers_witness :
  verifying.1.2 = Some (Ok tt) ∧ length (omap resolved verifying.1.1) = 6%nat ∧
  (∃ earlier last3, omap resolved verifying.1.1 = earlier ++ last3 ∧ (3 ≤ length last3)%nat ∧ Forall (answered_with "10.0.0.1") last3) ∧
  verifying.1.2 ≠ None.
Proof.
  split; [vm_compute; reflexivity|]. split; [vm_compute; reflexivity|].
  destruct (verified_means_it_answers "10.0.0.53:53" "a.sre.local" "10.0.0.1" 42 verifying.1.1 verifying.1.2 (run_runs pods _ 0%nat)) as (H1 & _ & H3).
  split; [apply H1; vm_compute; reflexivity|apply H3; [|lia]]. vm_compute. repeat split; discriminate.
Defined.
End Sample.
