(* ===== verification/Explore.v ===== *)
(** The fleet browser (src/internal/cli/openstack/explore_model.go): its state,
    and what every message does to it.  A terminal program in the style of a
    reducer: a message makes the next state and perhaps a command for the
    outside, whose answer is a later message. *)

From Stdlib Require Import Ascii String.
From S2P Require Import Prelude GoStrings GoFormat NovaApi Reconcile OpenStackFold Assessment FleetCatalog VmAddress Strutil.
Local Open Scope Z_scope.
Local Open Scope record_scope.

(** ** Data *)

(** One reading of the fleet (src/internal/cli/openstack/explore.go). *)
Record exploreData := {
  ed_Farms : list FleetCatalog.Farm; ed_Hosts : gmap string (list OpenStackHost); ed_VMs : gmap string (list StoreInstance);
  ed_Names : gmap string string; ed_Runs : gmap string ReconcileRun; ed_Nets : list string; ed_ReadAt : time_t;
  NeedsLogin : bool; ed_Cached : bool;
}.

(** [Farms] with its hosts, instances and last run, each under the farm's id. *)
Definition exploreDataFrom (operatorNetworks : list string) (cat : Catalog) : exploreData :=
  {| ed_Farms := Farms cat;
     ed_Hosts := foldl (λ m f, <[f_ID f := f_Hosts f]> m) ∅ (Farms cat);
     ed_VMs := foldl (λ m f, <[f_ID f := VMs cat (f_ID f)]> m) ∅ (Farms cat);
     ed_Names := Names cat;
     ed_Runs := foldl (λ m f, match RunOf cat (f_ID f) with Some run => <[f_ID f := run]> m | None => m end) ∅ (Farms cat);
     ed_Nets := operatorNetworks; ed_ReadAt := FleetCatalog.ReadAt (snap cat); NeedsLogin := false; ed_Cached := false |}.

Inductive connectMode := modeSubshell | modeConsole.
Inductive explorePane := paneFarms | paneRows.
Inductive exploreLeftKind := leftFarms | leftProjects.
Inductive exploreKind := kindVMs | kindHosts.

#[export] Instance explorePane_eq_dec : EqDecision explorePane.
Proof. solve_decision. Defined.
#[export] Instance exploreLeftKind_eq_dec : EqDecision exploreLeftKind.
Proof. solve_decision. Defined.
#[export] Instance exploreKind_eq_dec : EqDecision exploreKind.
Proof. solve_decision. Defined.

Record exploreConsole := {
  vm : StoreInstance; user : string; lines : list string; input : string; running : bool; history : list string; histIdx : nat;
}.

#[export] Instance console_rebuild : Rebuild exploreConsole := λ c,
  {| vm := vm c; user := user c; lines := lines c; input := input c; running := running c; history := history c; histIdx := histIdx c |}.

(** [can_refresh] and [can_exec]: the functions [refresh] and [execVM] are set. *)
Record exploreModel := {
  data : exploreData;
  width : Z; height : Z; focus : explorePane; kind : exploreKind; leftKind : exploreLeftKind;
  farmCur : Z; projectCur : Z; rowCur : Z; rowTop : Z; projectKey : string;
  farmFilter : string; projectSearch : string; rowFilter : string; typing : bool;
  detail : list string; detailTop : Z; detailOf : string; detailVM : option StoreInstance;
  carry : list string;
  userInput : string; connectVM : option StoreInstance; mode : connectMode; connectNote : string; defaultUser : string;
  console : option exploreConsole; can_exec : bool;
  can_refresh : bool; refreshing : bool; refreshErr : option string;
}.

#[export] Instance model_rebuild : Rebuild exploreModel := λ m,
  {| data := data m; width := width m; height := height m; focus := focus m; kind := kind m; leftKind := leftKind m;
     farmCur := farmCur m; projectCur := projectCur m; rowCur := rowCur m; rowTop := rowTop m; projectKey := projectKey m;
     farmFilter := farmFilter m; projectSearch := projectSearch m; rowFilter := rowFilter m; typing := typing m;
     detail := detail m; detailTop := detailTop m; detailOf := detailOf m; detailVM := detailVM m; carry := carry m;
     userInput := userInput m; connectVM := connectVM m; mode := mode m; connectNote := connectNote m; defaultUser := defaultUser m;
     console := console m; can_exec := can_exec m; can_refresh := can_refresh m; refreshing := refreshing m; refreshErr := refreshErr m |}.

Definition newExploreModel (d : exploreData) : exploreModel :=
  {| data := d; width := 100; height := 30; focus := paneFarms; kind := kindVMs; leftKind := leftFarms;
     farmCur := 0; projectCur := 0; rowCur := 0; rowTop := 0; projectKey := "";
     farmFilter := ""; projectSearch := ""; rowFilter := ""; typing := false;
     detail := []; detailTop := 0; detailOf := ""; detailVM := None; carry := [];
     userInput := ""; connectVM := None; mode := modeSubshell; connectNote := ""; defaultUser := "";
     console := None; can_exec := false; can_refresh := false; refreshing := false; refreshErr := None |}.

(** [newExploreScreen] (explore.go): the model wired to the outside. *)
Definition newExploreScreen (d : exploreData) : exploreModel :=
  newExploreModel d <| defaultUser := DefaultVMUser |> <| can_refresh := true |> <| can_exec := true |> <| refreshing := ed_Cached d && negb (NeedsLogin d) |>.

(** ** Messages and commands *)

(** The keys the code names; [KeyOther] any other. *)
Inductive KeyType := KeyEnter | KeyEsc | KeyCtrlC | KeyUp | KeyDown | KeyBackspace | KeySpace | KeyRunes | KeyOther.

(** [key_name]: what the library calls the key. *)
Record key := { Type_ : KeyType; Runes : string; key_name : string }.

Record vmRoute := { vr_via : option StoreInstance; vr_viaAddr : string; vr_tenantAddr : string }.

(** What one console command came to; [None]: no error. *)
Record vmExecResult := { out : string; code : Z; as_user : string; exec_err : option string }.

Inductive msg :=
| WindowSize (w h : Z)
| Refreshed (r : result string exploreData)
| Key (k : key)
| ConnectDone (name : string) (err : option string)
| ConsoleOutput (r : vmExecResult)
| OtherMsg.

(** A command: the end, a read of the fleet, this program run on the terminal,
    one command on a VM, or a message at once. *)
Inductive cmd :=
| Quit
| ReadFleet
| RunSelf (args : list string) (name : string)
| Exec (v : StoreInstance) (r : vmRoute) (user command : string)
| Say (m : msg).

Section explore.
(** The styles, and the detail screens of a host and of a VM, which are other
    commands' own: of the VM, its farm's names, networks and palette. *)
Context (Muted Failed : string → string).
Context (renderHost : OpenStackHost → string) (renderVM : StoreInstance → gmap string string → list string → option (list StoreInstance) → string).

(** ** What is on screen *)

Definition matchesFilter (q : string) (fields : list string) : bool :=
  let q := ToLower (TrimSpace q) in
  if String.eqb q "" then true else existsb (λ f, Contains (ToLower f) q) fields.

Definition clampIndex (i n : Z) : Z :=
  if n =? 0 then 0 else if i <? 0 then 0 else if n <=? i then n - 1 else i.

Definition len {A} (l : list A) : Z := Z.of_nat (length l).

(** The element a clamped index selects. *)
Definition pick {A} (i : Z) (l : list A) : option A := l !! Z.to_nat (clampIndex i (len l)).

Definition liveInstances (l : list StoreInstance) : list StoreInstance := filter (λ v, si_MissingSince v = None) l.

Definition count_role (m : gmap string Z) (r : string) : gmap string Z := <[r := default 0 (m !! r) + 1]> m.

Definition shapeRoles : nat := 3.

Definition farmShape (hosts : list OpenStackHost) (wide : bool) : string :=
  let count := foldl (λ m h, foldl count_role m (Roles h)) ∅ hosts in
  let n r := default 0 (count !! r) in
  let roles := sort (less_then (λ a b, b <? a) n string_ltb) (map_to_list count).*1 in
  let parts := (λ r, r +:+ " " +:+ Itoa (n r)) <$> roles in
  Join (if negb wide && (shapeRoles <? length parts)%nat
        then take shapeRoles parts ++ ["+" +:+ Itoa (Z.of_nat (length parts - shapeRoles)) +:+ " more"] else parts) " · ".

Definition visibleFarms (m : exploreModel) : list FleetCatalog.Farm :=
  if String.eqb (farmFilter m) "" then ed_Farms (data m)
  else filter (λ f, matchesFilter (farmFilter m) [f_ID f; f_Name f; f_Region f; farmShape (f_Hosts f) true] = true) (ed_Farms (data m)).

Definition currentFarm (m : exploreModel) : option FleetCatalog.Farm := pick (farmCur m) (visibleFarms m).

Definition farm_vms (m : exploreModel) (id : string) : list StoreInstance := liveInstances (default [] (ed_VMs (data m) !! id)).

Record exploreProject := { pj_Key : string; pj_ID : string; pj_Label : string; Count : Z }.

Definition vmProjectLabel (v : StoreInstance) : string := if String.eqb (si_ProjectName v) "" then si_ProjectID v else si_ProjectName v.

Definition keyOf (v : StoreInstance) : string :=
  if negb (String.eqb (si_ProjectID v) "") then "id:" +:+ si_ProjectID v
  else if negb (String.eqb (si_ProjectName v) "") then "name:" +:+ si_ProjectName v
  else "unassigned".

Definition group_project (byKey : gmap string exploreProject) (v : StoreInstance) : gmap string exploreProject :=
  let key := keyOf v in
  let p := default {| pj_Key := ""; pj_ID := ""; pj_Label := ""; Count := 0 |} (byKey !! key) in
  let label := if String.eqb (vmProjectLabel v) "" then "(no project)" else vmProjectLabel v in
  <[key := {| pj_Key := key; pj_ID := si_ProjectID v;
              pj_Label := if String.eqb (pj_Label p) "" || (String.eqb (pj_Label p) (si_ProjectID v) && negb (String.eqb label (si_ProjectID v))) then label else pj_Label p;
              Count := Count p + 1 |}]> byKey.

Definition label_project (nameCounts : gmap string Z) (p : exploreProject) : exploreProject :=
  if (1 <? default 0 (nameCounts !! pj_Label p)) && negb (String.eqb (pj_ID p) "") then
    {| pj_Key := pj_Key p; pj_ID := pj_ID p; pj_Label := pj_Label p +:+ " · " +:+ take_bytes 8 (pj_ID p); Count := Count p |}
  else p.

Definition project_less : exploreProject → exploreProject → bool := less_then string_ltb pj_Label (less_on string_ltb pj_Key).

Definition all_projects (n : Z) : exploreProject := {| pj_Key := ""; pj_ID := ""; pj_Label := "All projects"; Count := n |}.

Definition projectsForFarm (m : exploreModel) : list exploreProject :=
  match currentFarm m with
  | None => [all_projects 0]
  | Some f =>
      let all := farm_vms m (f_ID f) in
      let grouped := (map_to_list (foldl group_project ∅ all)).*2 in
      let nameCounts := foldl count_role ∅ (pj_Label <$> grouped) in
      all_projects (len all) :: sort project_less (label_project nameCounts <$> grouped)
  end.

Definition visibleProjects (m : exploreModel) : list exploreProject :=
  if String.eqb (projectSearch m) "" then projectsForFarm m
  else filter (λ p, matchesFilter (projectSearch m) [pj_Label p; pj_ID p] = true) (projectsForFarm m).

Definition selectedProjectLabel (m : exploreModel) : string :=
  if String.eqb (projectKey m) "" then ""
  else default "" (pj_Label <$> head (filter (λ p, pj_Key p = projectKey m) (projectsForFarm m))).

Definition visibleHosts (m : exploreModel) : list OpenStackHost :=
  match currentFarm m with
  | None => []
  | Some f =>
      let all := default [] (ed_Hosts (data m) !! f_ID f) in
      if String.eqb (rowFilter m) "" then all
      else filter (λ h, matchesFilter (rowFilter m) [h_Hostname h; DC h; Join (Roles h) " "] = true) all
  end.

Definition in_project (m : exploreModel) (v : StoreInstance) : bool := String.eqb (projectKey m) "" || String.eqb (keyOf v) (projectKey m).

Definition vm_fields (v : StoreInstance) : list string :=
  [si_Name v; si_InstanceID v; vmProjectLabel v; si_HypervisorHostname v; Join (Address <$> si_Addresses v) " "].

Definition visibleVMs (m : exploreModel) : list StoreInstance :=
  match currentFarm m with
  | None => []
  | Some f =>
      let all := farm_vms m (f_ID f) in
      if String.eqb (rowFilter m) "" then
        if String.eqb (projectKey m) "" then all else filter (λ v, keyOf v = projectKey m) all
      else filter (λ v, in_project m v && matchesFilter (rowFilter m) (vm_fields v) = true) all
  end.

Definition rowCount (m : exploreModel) : Z := match kind m with kindHosts => len (visibleHosts m) | kindVMs => len (visibleVMs m) end.

(** The heights of explore_view.go, which the cursor's window follows. *)
Definition chromeLines : Z := 5.
Definition bodyHeight (m : exploreModel) : Z := let h := height m - chromeLines in if h <? 3 then 3 else h.
Definition rowsHeight (m : exploreModel) : Z := let h := bodyHeight m - 2 in if 1 <? h then h else 1.

(** The rows of the pane as [rowPaneLines] draws them, and which is marked. *)
Definition rows_drawn {A} (m : exploreModel) (rows : list A) : list (A * bool) :=
  let last := Z.min (rowTop m + rowsHeight m) (len rows) in
  imap (λ k x, (x, Z.of_nat k + rowTop m =? clampIndex (rowCur m) (len rows))) (take (Z.to_nat (last - rowTop m)) (drop (Z.to_nat (rowTop m)) rows)).

(** ** Moving *)

Definition chooseProject (i : Z) (m : exploreModel) : exploreModel :=
  let projects := visibleProjects m in
  match pick i projects with
  | None => m <| projectCur := 0 |> <| projectKey := "" |>
  | Some p => m <| projectCur := clampIndex i (len projects) |> <| projectKey := pj_Key p |>
  end <| rowCur := 0 |> <| rowTop := 0 |>.

Definition scrollRows (m : exploreModel) : exploreModel :=
  let h := rowsHeight m in
  if h <=? 0 then m
  else
    let top := rowTop m in
    let top := if rowCur m <? top then rowCur m else top in
    let top := if top + h <=? rowCur m then rowCur m - h + 1 else top in
    m <| rowTop := if top <? 0 then 0 else top |>.

(** The farm under the cursor changes what the other pane shows. *)
Definition onto_farm (i : Z) (m : exploreModel) : exploreModel :=
  m <| farmCur := clampIndex i (len (visibleFarms m)) |> <| projectKey := "" |> <| projectCur := 0 |> <| projectSearch := "" |> <| rowCur := 0 |> <| rowTop := 0 |>.

Definition move (delta : Z) (m : exploreModel) : exploreModel :=
  match focus m, leftKind m with
  | paneFarms, leftProjects => chooseProject (projectCur m + delta) m
  | paneFarms, leftFarms => onto_farm (farmCur m + delta) m
  | paneRows, _ => scrollRows (m <| rowCur := clampIndex (rowCur m + delta) (rowCount m) |>)
  end.

Definition moveTo (i : Z) (m : exploreModel) : exploreModel :=
  match focus m, leftKind m with
  | paneFarms, leftProjects => chooseProject i m
  | paneFarms, leftFarms => onto_farm i m
  | paneRows, _ => scrollRows (m <| rowCur := clampIndex i (rowCount m) |>)
  end.

Definition moveByKey (k : string) (m : exploreModel) : exploreModel :=
  if slices_Contains ["up"; "k"] k then move (-1) m
  else if slices_Contains ["down"; "j"] k then move 1 m
  else if String.eqb k "pgup" then move (- rowsHeight m) m
  else if String.eqb k "pgdown" then move (rowsHeight m) m
  else if slices_Contains ["home"; "g"] k then moveTo 0 m
  else if slices_Contains ["end"; "G"] k then moveTo (2 ^ 30) m
  else m.

Definition switchFocus (k : string) (m : exploreModel) : exploreModel :=
  if slices_Contains ["left"; "h"] k then m <| focus := paneFarms |>
  else if slices_Contains ["right"; "l"] k then m <| focus := paneRows |>
  else match focus m with paneFarms => m <| focus := paneRows |> | paneRows => m <| focus := paneFarms |> end.

Definition showKind (k : exploreKind) (m : exploreModel) : exploreModel :=
  m <| kind := k |> <| rowCur := 0 |> <| rowTop := 0 |>
    <| leftKind := match k with kindHosts => leftFarms | kindVMs => leftKind m end |> <| focus := paneRows |>.

(** The first element that has a property, by position. *)
Definition position {A} (P : A → Prop) `{∀ x, Decision (P x)} (l : list A) : option Z := (λ e, Z.of_nat e.1) <$> list_find P l.

Definition showProjects (m : exploreModel) : exploreModel :=
  match kind m with
  | kindHosts => m
  | kindVMs =>
      let m := m <| leftKind := leftProjects |> <| focus := paneFarms |> in
      match position (λ p, pj_Key p = projectKey m) (visibleProjects m) with
      | Some i => m <| projectCur := i |>
      | None => chooseProject 0 m
      end
  end.

(** [selectFarmID]: the farm the command line names. *)
Definition selectFarmID (id : string) (m : exploreModel) : exploreModel :=
  match position (λ f, f_ID f = id) (visibleFarms m) with
  | Some i => m <| farmCur := i |> <| focus := paneRows |>
  | None => m
  end.

(** ** Filters *)

Definition activeFilter (m : exploreModel) : string :=
  match focus m, leftKind m with
  | paneFarms, leftProjects => projectSearch m
  | paneFarms, leftFarms => farmFilter m
  | paneRows, _ => rowFilter m
  end.

Definition setFilter (v : string) (m : exploreModel) : exploreModel :=
  match focus m, leftKind m with
  | paneFarms, leftProjects => chooseProject 0 (m <| projectSearch := v |>)
  | paneFarms, leftFarms => m <| farmFilter := v |> <| farmCur := 0 |> <| projectKey := "" |> <| projectCur := 0 |> <| projectSearch := "" |>
  | paneRows, _ => m <| rowFilter := v |>
  end <| rowCur := 0 |> <| rowTop := 0 |>.

(** The last rune away, of valid UTF-8 written backwards. *)
Fixpoint drop_rune (r : string) : string :=
  match r with
  | "" => ""
  | String c r => if continuation_byte c then drop_rune r else r
  end.

Definition editLine (s : string) (k : key) : string * bool :=
  match Type_ k with
  | KeyBackspace => (reverse_string (drop_rune (reverse_string s)), true)
  | KeySpace => (s +:+ " ", true)
  | KeyRunes => (s +:+ Runes k, true)
  | _ => (s, false)
  end.

Definition onFilterKey (k : key) (m : exploreModel) : exploreModel * option cmd :=
  match Type_ k with
  | KeyEnter => (m <| typing := false |>, None)
  | KeyEsc => (setFilter "" (m <| typing := false |>), None)
  | KeyCtrlC => (m, Some Quit)
  | _ => let '(v, ok) := editLine (activeFilter m) k in (if ok then setFilter v m else m, None)
  end.

(** ** Readings *)

Record exploreSelection := { s_farm : string; s_project : string; s_row : string }.

Definition row_name (m : exploreModel) : string :=
  match kind m with
  | kindHosts => default "" (h_Hostname <$> pick (rowCur m) (visibleHosts m))
  | kindVMs => default "" (si_InstanceID <$> pick (rowCur m) (visibleVMs m))
  end.

Definition selection (m : exploreModel) : exploreSelection :=
  {| s_farm := default "" (f_ID <$> currentFarm m); s_project := projectKey m; s_row := row_name m |}.

Definition restoreSelection (s : exploreSelection) (m : exploreModel) : exploreModel :=
  let m := m <| farmCur := 0 |> <| rowCur := 0 |> <| rowTop := 0 |> in
  let m := if String.eqb (s_farm s) "" then m
           else match position (λ f, f_ID f = s_farm s) (visibleFarms m) with Some i => m <| farmCur := i |> | None => m end in
  let m := m <| projectKey := "" |> <| projectCur := 0 |> in
  let m := if String.eqb (s_project s) "" then m
           else match position (λ p, pj_Key p = s_project s) (visibleProjects m) with
                | Some i => m <| projectCur := i |> <| projectKey := s_project s |>
                | None => m
                end in
  if String.eqb (s_row s) "" then m
  else
    let i := match kind m with
             | kindHosts => position (λ h, h_Hostname h = s_row s) (visibleHosts m)
             | kindVMs => position (λ v, si_InstanceID v = s_row s) (visibleVMs m)
             end in
    scrollRows (match i with Some i => m <| rowCur := i |> | None => m end).

Definition refreshCmd (m : exploreModel) : option cmd := if can_refresh m then Some ReadFleet else None.

Definition Init (m : exploreModel) : option cmd := if negb (refreshing m) then None else refreshCmd m.

Definition onRefreshed (r : result string exploreData) (m : exploreModel) : exploreModel :=
  let m := m <| refreshing := false |> in
  match r with
  | Err e => m <| refreshErr := Some e |>
  | Ok d =>
      let was := selection m in
      restoreSelection was (m <| data := d |> <| refreshErr := None |>)
  end.

Definition onRefreshKey (m : exploreModel) : exploreModel * option cmd :=
  if NeedsLogin (data m) then (m, None)
  else if refreshing m then (m, None)
  else let m := m <| refreshing := true |> <| refreshErr := None |> in (m, refreshCmd m).

(** ** Details *)

Definition farmPalette (m : exploreModel) : option (list StoreInstance) := (λ f, farm_vms m (f_ID f)) <$> currentFarm m.

Definition detail_lines (text : string) : list string := Split (TrimRightFunc (in_cutset (String nl "")) text) nl.

Definition openDetail (m : exploreModel) : exploreModel :=
  match kind m with
  | kindHosts =>
      match pick (rowCur m) (visibleHosts m) with
      | None => m
      | Some h => m <| detailOf := h_Hostname h |> <| detailVM := None |> <| detail := detail_lines (renderHost h) |> <| detailTop := 0 |>
      end
  | kindVMs =>
      match pick (rowCur m) (visibleVMs m) with
      | None => m
      | Some v =>
          m <| detailOf := NameOrID v |> <| detailVM := Some v |>
            <| detail := detail_lines (renderVM v (ed_Names (data m)) (ed_Nets (data m)) (farmPalette m)) |> <| detailTop := 0 |>
      end
  end.

Definition openSelected (m : exploreModel) : exploreModel :=
  match focus m with
  | paneFarms => m <| focus := paneRows |> <| rowCur := 0 |> <| rowTop := 0 |>
  | paneRows => openDetail m
  end.

(** ** Connecting *)

Definition routeTo (m : exploreModel) (v : StoreInstance) : option vmRoute :=
  if negb (String.eqb (ConnectableAddress (si_Addresses v) (ed_Nets (data m))) "") then Some {| vr_via := None; vr_viaAddr := ""; vr_tenantAddr := "" |}
  else
    match TenantJump v (default [] (ed_VMs (data m) !! si_DeploymentID v)) (ed_Nets (data m)) with
    | None => None
    | Some j => Some {| vr_via := Some (via j); vr_viaAddr := viaAddr j; vr_tenantAddr := tenantAddr j |}
    end.

Definition startConnect (v : StoreInstance) (md : connectMode) (m : exploreModel) : exploreModel :=
  match routeTo m v with
  | None =>
      m <| connectNote := NameOrID v +:+ " has no floating or operator-network address, and no ACTIVE VM on its tenant network carries one to jump through" |>
  | Some _ => m <| userInput := defaultUser m |> <| connectVM := Some v |> <| mode := md |> <| connectNote := "" |>
  end.

Definition connectCmd (v : StoreInstance) : cmd := RunSelf ["openstack"; "ssh"; si_InstanceID v] (NameOrID v).

Definition connectSelectedVM (m : exploreModel) : option cmd :=
  match kind m, focus m with
  | kindVMs, paneRows => connectCmd <$> pick (rowCur m) (visibleVMs m)
  | _, _ => None
  end.

Definition onConnectKey (k : key) (m : exploreModel) : exploreModel * option cmd :=
  match Type_ k with
  | KeyEnter =>
      let v := connectVM m in
      let m := m <| connectVM := None |> in
      let u := TrimSpace (userInput m) in
      match v with
      | None => (m, None)
      | Some v =>
          if String.eqb u "" then (m, None)
          else match mode m with
               | modeConsole => (m <| console := Some {| vm := v; user := u; lines := []; input := ""; running := false; history := []; histIdx := 0 |} |>, None)
               | modeSubshell => (m, Some (connectCmd v))
               end
      end
  | KeyEsc => (m <| connectVM := None |>, None)
  | KeyCtrlC => (m, Some Quit)
  | _ => (m <| userInput := (editLine (userInput m) k).1 |>, None)
  end.

(** ** The console *)

Definition consoleScrollback : nat := 400.

Definition consolePrompt (c : exploreConsole) : string := user c +:+ "@" +:+ NameOrID (vm c) +:+ " $ ".

Definition console_error (e : string) : vmExecResult := {| out := ""; code := 0; as_user := ""; exec_err := Some e |}.

Definition consoleRun (m : exploreModel) (c : exploreConsole) (command : string) : cmd :=
  if negb (can_exec m) then Say (ConsoleOutput (console_error "console has no executor wired"))
  else match routeTo m (vm c) with
       | None => Say (ConsoleOutput (console_error (NameOrID (vm c) +:+ " has no reachable address any more")))
       | Some r => Exec (vm c) r (user c) command
       end.

Definition onConsoleKey (k : key) (c : exploreConsole) (m : exploreModel) : exploreModel * option cmd :=
  let keep (c : exploreConsole) := m <| console := Some c |> in
  match Type_ k with
  | KeyEsc => (m <| console := None |>, None)
  | KeyCtrlC => if running c || negb (String.eqb (input c) "") then (keep (c <| input := "" |>), None) else (m <| console := None |>, None)
  | KeyEnter =>
      let command := TrimSpace (input c) in
      if String.eqb command "" || running c then (m, None)
      else
        let hist := if bool_decide (last (history c) = Some command) then history c else history c ++ [command] in
        let c' := c <| lines := lines c ++ [consolePrompt c +:+ command] |> <| history := hist |> <| histIdx := length hist |> <| input := "" |> <| running := true |> in
        (keep c', Some (consoleRun m c' command))
  | KeyUp =>
      (match histIdx c with
       | S i => keep (c <| histIdx := i |> <| input := default "" (history c !! i) |>)
       | O => m
       end, None)
  | KeyDown =>
      (if (histIdx c <? length (history c))%nat then keep (c <| histIdx := S (histIdx c) |> <| input := default "" (history c !! S (histIdx c)) |>) else m, None)
  | _ => (keep (c <| input := (editLine (input c) k).1 |>), None)
  end.

(** The lines one command leaves, and the user the pane goes on as. *)
Definition output_lines (r : vmExecResult) (c : exploreConsole) : list string * string :=
  let moved := bool_decide (exec_err r = None) && negb (String.eqb (as_user r) "") && negb (String.eqb (as_user r) (user c)) in
  let u := if moved then as_user r else user c in
  let text := TrimRightFunc (in_cutset (String nl "")) (out r) in
  ((if moved then [Muted (user c +:+ "@ rejected — continuing as " +:+ as_user r +:+ " (image account)")] else []) ++
   (if String.eqb text "" then [] else Split text nl) ++
   match exec_err r with
   | Some e =>
       Failed (OneLine e) ::
       (if Contains e "valid_principals" then [Muted ("the CA will not sign for login user " +:+ quote_mark +:+ u +:+ quote_mark +:+ " — esc, then enter to reconnect as a valid user")] else [])
   | None => if negb (code r =? 0) then [Muted ("exit " +:+ Itoa (code r))] else []
   end, u).

Definition onConsoleOutput (r : vmExecResult) (m : exploreModel) : exploreModel :=
  match console m with
  | None => m
  | Some c =>
      let '(more, u) := output_lines r c in
      let all := lines c ++ more in
      m <| console := Some (c <| running := false |> <| user := u |> <| lines := drop (length all - consoleScrollback) all |>) |>
  end.

(** ** One message *)

Definition askingUser (m : exploreModel) : bool := bool_decide (is_Some (connectVM m)).

Definition close_detail (m : exploreModel) : exploreModel := m <| detail := [] |> <| detailTop := 0 |> <| detailOf := "" |> <| detailVM := None |>.

Definition onDetailKey (k : key) (m : exploreModel) : exploreModel * option cmd :=
  match console m with
  | Some c => onConsoleKey k c m
  | None =>
      let s := key_name k in
      let last_top := Z.max 0 (len (detail m) - bodyHeight m) in
      if slices_Contains ["esc"; "q"] s then (close_detail m, None)
      else if String.eqb s "enter" then
        match detailVM m with
        | Some v => (startConnect v modeConsole m, None)
        | None => (close_detail m, None)
        end
      else if String.eqb s "c" then (m, connectCmd <$> detailVM m)
      else if String.eqb s "ctrl+c" then (m <| carry := detail m |>, Some Quit)
      else if slices_Contains ["up"; "k"] s then (m <| detailTop := Z.max 0 (detailTop m - 1) |>, None)
      else if slices_Contains ["down"; "j"] s then (m <| detailTop := Z.min (detailTop m + 1) last_top |>, None)
      else if String.eqb s "pgup" then (m <| detailTop := Z.max 0 (detailTop m - bodyHeight m) |>, None)
      else if String.eqb s "pgdown" then (m <| detailTop := Z.min (detailTop m + bodyHeight m) last_top |>, None)
      else if String.eqb s "p" then (m <| carry := detail m |>, Some Quit)
      else (m, None)
  end.

Definition onKey (k : key) (m : exploreModel) : exploreModel * option cmd :=
  if typing m then onFilterKey k m
  else if askingUser m then onConnectKey k m
  else if negb (bool_decide (detail m = [])) then onDetailKey k m
  else
    let s := key_name k in
    if slices_Contains ["q"; "ctrl+c"] s then (m, Some Quit)
    else if String.eqb s "esc" then if negb (String.eqb (activeFilter m) "") then (setFilter "" m, None) else (m, Some Quit)
    else if slices_Contains ["tab"; "shift+tab"; "left"; "right"; "h"; "l"] s then (switchFocus s m, None)
    else if slices_Contains ["up"; "k"; "down"; "j"; "pgup"; "pgdown"; "home"; "g"; "end"; "G"] s then (moveByKey s m, None)
    else if String.eqb s "v" then (showKind kindVMs m, None)
    else if String.eqb s "s" then (showKind kindHosts m, None)
    else if String.eqb s "p" then (showProjects m, None)
    else if String.eqb s "f" then (m <| leftKind := leftFarms |> <| focus := paneFarms |>, None)
    else if String.eqb s "/" then (m <| typing := true |>, None)
    else if String.eqb s "r" then onRefreshKey m
    else if String.eqb s "c" then (m, connectSelectedVM m)
    else if String.eqb s "enter" then (openSelected m, None)
    else (m, None).

Definition Update (g : msg) (m : exploreModel) : exploreModel * option cmd :=
  match g with
  | WindowSize w h => (m <| width := w |> <| height := h |>, None)
  | Refreshed r => (onRefreshed r m, None)
  | Key k => onKey k m
  | ConnectDone name err =>
      (match err with Some e => m <| connectNote := name +:+ ": " +:+ OneLine e |> | None => m end, None)
  | ConsoleOutput r => (onConsoleOutput r m, None)
  | OtherMsg => (m, None)
  end.
End explore.
