(* ===== verification/ExploreLaws.v ===== *)
(** What holds of the fleet browser of Explore.v: where its cursors can be, that
    a refresh keeps the reader's place, and what it ever asks of the outside. *)

From Stdlib Require Import Ascii String.
From S2P Require Import Prelude GoStrings GoFormat NovaApi Reconcile OpenStackFold FleetCatalog VmAddress Explore.
Local Open Scope Z_scope.
Local Open Scope record_scope.

(** ** Indexes *)

Lemma clampIndex_bounds i n : 0 ≤ n → 0 ≤ clampIndex i n ∧ (clampIndex i n < n ∨ clampIndex i n = 0).
Proof. unfold clampIndex. intros H. repeat (case_if; bool_simpl); lia. Qed.

Lemma clampIndex_id i n : 0 ≤ i < n → clampIndex i n = i.
Proof. unfold clampIndex. intros H. repeat (case_if; bool_simpl); lia. Qed.

Lemma len_nonneg {A} (l : list A) : 0 ≤ len l.
Proof. unfold len. lia. Qed.

Lemma pick_None {A} i (l : list A) : pick i l = None ↔ l = [].
Proof.
  unfold pick. split; [|by intros ->]. intros H. apply lookup_ge_None in H. destruct l; [done|].
  pose proof (clampIndex_bounds i (len (a :: l)) (len_nonneg _)). unfold len in *. cbn in *. lia.
Qed.

Lemma pick_elem {A} i (l : list A) x : pick i l = Some x → x ∈ l.
Proof. apply list_elem_of_lookup_2. Qed.

Lemma pick_at {A} i (l : list A) x : 0 ≤ i → l !! Z.to_nat i = Some x → pick i l = Some x.
Proof. intros Hi H. unfold pick. rewrite clampIndex_id; [done|]. apply lookup_lt_Some in H. unfold len. lia. Qed.

Lemma pick_0 {A} (l : list A) : pick 0 l = head l.
Proof. unfold pick. destruct l as [|x l]; [done|]. by rewrite clampIndex_id by (unfold len; cbn; lia). Qed.

(** [position] finds the first element that has the property. *)
Lemma position_Some {A} (P : A → Prop) `{!∀ x, Decision (P x)} l i : position P l = Some i → ∃ x, pick i l = Some x ∧ P x ∧ 0 ≤ i < len l.
Proof.
  unfold position. intros (e & He & ->)%fmap_Some. destruct e as [n x]. apply list_find_Some in He as (Hl & Hx & _). exists x.
  pose proof (lookup_lt_Some _ _ _ Hl). split_and!; [|done|unfold len; cbn; lia..]. apply pick_at; [cbn; lia|]. cbn. by rewrite Nat2Z.id.
Qed.

Lemma position_None {A} (P : A → Prop) `{!∀ x, Decision (P x)} l : position P l = None → ∀ x, x ∈ l → ¬ P x.
Proof. unfold position. intros Hn. apply fmap_None, list_find_None in Hn. by rewrite Forall_forall in Hn. Qed.

(** ** The window *)

Lemma bodyHeight_pos m : 3 ≤ bodyHeight m.
Proof. unfold bodyHeight. cbv zeta. case_if; bool_simpl; lia. Qed.

Lemma rowsHeight_pos m : 1 ≤ rowsHeight m.
Proof. unfold rowsHeight. cbv zeta. case_if; bool_simpl; lia. Qed.

Lemma rowsHeight_mono m m' : height m ≤ height m' → rowsHeight m ≤ rowsHeight m'.
Proof.
  intros H. assert (bodyHeight m ≤ bodyHeight m') as Hb by (unfold bodyHeight; cbv zeta; destruct (height m - chromeLines <? 3) eqn:E, (height m' - chromeLines <? 3) eqn:E'; bool_simpl; lia).
  unfold rowsHeight. cbv zeta. destruct (1 <? bodyHeight m - 2) eqn:E, (1 <? bodyHeight m' - 2) eqn:E'; bool_simpl; lia.
Qed.

(** The cursor is on a row of the list, and inside the window. *)
Definition row_ok (m : exploreModel) : Prop := 0 ≤ rowTop m ≤ rowCur m ∧ (rowCur m < rowCount m ∨ rowCur m = 0).
Definition shown (m : exploreModel) : Prop := rowCur m < rowTop m + rowsHeight m.

Lemma scrollRows_top m : ∃ t, scrollRows m = m <| rowTop := t |> ∧ (0 ≤ rowCur m → 0 ≤ t ≤ rowCur m ∧ rowCur m < t + rowsHeight m).
Proof.
  pose proof (rowsHeight_pos m) as Hh. unfold scrollRows. cbv zeta. destruct (rowsHeight m <=? 0) eqn:E; bool_simpl; [lia|]. eexists. split; [done|].
  intros Hc. set (t := if rowCur m <? rowTop m then _ else _) in *. assert (t ≤ rowCur m) as Ht by (unfold t; case_if; bool_simpl; lia).
  destruct (t + rowsHeight m <=? rowCur m) eqn:E2; bool_simpl; case_if; bool_simpl; lia.
Qed.

(** ** The rows by name *)

Definition row_names (m : exploreModel) : list string :=
  match kind m with kindHosts => h_Hostname <$> visibleHosts m | kindVMs => si_InstanceID <$> visibleVMs m end.

Lemma pick_fmap {A B} (f : A → B) i l : pick i (f <$> l) = f <$> pick i l.
Proof. unfold pick, len. by rewrite length_fmap, list_lookup_fmap. Qed.

Lemma position_fmap {A} (f : A → string) x l : position (λ y, f y = x) l = position (λ y, y = x) (f <$> l).
Proof. unfold position. rewrite list_find_fmap. by destruct (list_find _ l) as [[]|]. Qed.

Lemma row_name_names m : row_name m = default "" (pick (rowCur m) (row_names m)).
Proof. unfold row_name, row_names. by destruct (kind m); rewrite pick_fmap. Qed.

Lemma rowCount_names m : rowCount m = len (row_names m).
Proof. unfold rowCount, row_names, len. by destruct (kind m); rewrite length_fmap. Qed.

(** ** A place restored *)

(** What is looked for is where the index says, or the index is at the top. *)
Definition found {A} (name : A → string) (wanted : string) (l : list A) (i : Z) : Prop :=
  (wanted ≠ "" ∧ 0 ≤ i < len l ∧ ∃ x, pick i l = Some x ∧ name x = wanted) ∨ (i = 0 ∧ (wanted = "" ∨ wanted ∉ name <$> l)).

Lemma look_for {A} (name : A → string) wanted l :
  found name wanted l (if String.eqb wanted "" then 0 else default 0 (position (λ x, name x = wanted) l)).
Proof.
  destruct (String.eqb_spec wanted ""); [right; auto|]. destruct (position _ l) as [i|] eqn:E; cbn.
  - apply position_Some in E as (x & Hx & Hn & Hi). left. eauto.
  - right. split; [done|right]. intros (x & -> & Hx)%list_elem_of_fmap. by eapply position_None in E.
Qed.

Section place.
Context (s : exploreSelection) (m : exploreModel).

Definition at_farm (i : Z) : exploreModel := m <| farmCur := i |>.
Definition at_project (i : Z) (key : string) : exploreModel := at_farm i <| projectKey := key |>.

Lemma restoreSelection_spec : ∃ i j k t key,
  restoreSelection s m = m <| farmCur := i |> <| projectKey := key |> <| projectCur := j |> <| rowCur := k |> <| rowTop := t |> ∧
  found f_ID (s_farm s) (visibleFarms m) i ∧
  found pj_Key (s_project s) (visibleProjects (at_farm i)) j ∧
  key = (if decide (s_project s ∈ pj_Key <$> visibleProjects (at_farm i)) then s_project s else "") ∧
  found (λ x, x) (s_row s) (row_names (at_project i key)) k ∧
  0 ≤ t ≤ k ∧ k < t + rowsHeight m.
Proof.
  set (i := if String.eqb (s_farm s) "" then 0 else default 0 (position (λ f, f_ID f = s_farm s) (visibleFarms m))).
  set (j := if String.eqb (s_project s) "" then 0 else default 0 (position (λ p, pj_Key p = s_project s) (visibleProjects (at_farm i)))).
  set (key := if decide (s_project s ∈ pj_Key <$> visibleProjects (at_farm i)) then s_project s else "").
  set (k := if String.eqb (s_row s) "" then 0 else default 0 (position (λ x, x = s_row s) (row_names (at_project i key)))).
  pose proof (look_for f_ID (s_farm s) (visibleFarms m) : found _ _ _ i) as Hi.
  pose proof (look_for pj_Key (s_project s) (visibleProjects (at_farm i)) : found _ _ _ j) as Hj.
  pose proof (look_for (λ x, x) (s_row s) (row_names (at_project i key)) : found _ _ _ k) as Hk.
  assert (0 ≤ k) as Hk0 by (destruct Hk as [(_ & ? & _)|[-> _]]; lia).
  set (top := m <| farmCur := 0 |> <| rowCur := 0 |> <| rowTop := 0 |>).
  set (mp := m <| farmCur := i |> <| projectKey := key |> <| projectCur := j |> <| rowCur := 0 |> <| rowTop := 0 |>).
  assert ((if String.eqb (s_farm s) "" then top
           else match position (λ f, f_ID f = s_farm s) (visibleFarms top) with Some i => top <| farmCur := i |> | None => top end) = top <| farmCur := i |>) as E1.
  { unfold i. change (visibleFarms top) with (visibleFarms m). destruct (String.eqb _ _); [done|]. by destruct (position _ _). }
  clearbody i. set (mf := top <| farmCur := i |> <| projectKey := "" |> <| projectCur := 0 |>).
  assert ((if String.eqb (s_project s) "" then mf
           else match position (λ p, pj_Key p = s_project s) (visibleProjects mf) with
                | Some i => mf <| projectCur := i |> <| projectKey := s_project s |> | None => mf end) = mp) as E2.
  { unfold mp, key, j. change (visibleProjects mf) with (visibleProjects (at_farm i)). destruct (String.eqb_spec (s_project s) "") as [Hs|]; [rewrite Hs; by destruct (decide ("" ∈ _))|].
    destruct (position _ (visibleProjects _)) as [i'|] eqn:E; cbn [default].
    - apply position_Some in E as (p & Hp & Hn & _). rewrite decide_True; [done|]. apply list_elem_of_fmap. exists p. split; [done|]. by eapply pick_elem.
    - rewrite decide_False; [done|]. intros (p & Hs & Hp)%list_elem_of_fmap. by apply (position_None _ _ E p Hp). }
  exists i, j, k.
  assert (∃ t, restoreSelection s m = mp <| rowCur := k |> <| rowTop := t |> ∧ 0 ≤ t ≤ k ∧ k < t + rowsHeight m) as (t & -> & Ht); [|by exists t, key].
  unfold restoreSelection. cbv zeta. fold top. rewrite E1. fold mf. rewrite E2.
  set (o := position (λ x, x = s_row s) (row_names mp)).
  assert (k = if String.eqb (s_row s) "" then 0 else default 0 o) as Ek by done. clearbody k. subst k.
  destruct (String.eqb (s_row s) ""); [exists 0; split; [done|]; pose proof (rowsHeight_pos m); lia|].
  assert (match kind mp with
          | kindHosts => position (λ h, h_Hostname h = s_row s) (visibleHosts mp) | kindVMs => position (λ v, si_InstanceID v = s_row s) (visibleVMs mp)
          end = o) as -> by (unfold o, row_names; destruct (kind mp); apply position_fmap).
  assert (match o with Some i => mp <| rowCur := i |> | None => mp end = mp <| rowCur := default 0 o |>) as -> by by destruct o.
  destruct (scrollRows_top (mp <| rowCur := default 0 o |>)) as (t & -> & Ht). exists t. split; [done|]. by apply Ht.
Qed.
End place.

(** What a reading that landed changes. *)
Lemma refreshed_fields m d :
  let m' := onRefreshed (Ok d) m in
  m' = m <| data := d |> <| refreshing := false |> <| refreshErr := None |>
         <| farmCur := farmCur m' |> <| projectKey := projectKey m' |> <| projectCur := projectCur m' |> <| rowCur := rowCur m' |> <| rowTop := rowTop m' |>.
Proof.
  intros m'. set (m0 := m <| refreshing := false |> <| data := d |> <| refreshErr := None |>).
  destruct (restoreSelection_spec (selection m) m0) as (i & j & k & t & key & E & _).
  assert (m' = m <| data := d |> <| refreshing := false |> <| refreshErr := None |> <| farmCur := i |> <| projectKey := key |> <| projectCur := j |> <| rowCur := k |> <| rowTop := t |>) as Em by exact E.
  clear E. clearbody m'. by subst m'.
Qed.

(** A refresh keeps the reader's place.  One that failed changes nothing but
    what is said about it.  One that landed changes the reading and the cursors
    alone: the farm, the project and the row that were selected are selected
    again, by name, wherever the new reading still shows them under the same
    filters; a cursor whose row is gone goes to the top; and the row is inside
    the window. *)
Theorem refresh_keeps_the_place m :
  (∀ e, onRefreshed (Err e) m = m <| refreshing := false |> <| refreshErr := Some e |>) ∧
  ∀ d, let was := selection m in let m' := onRefreshed (Ok d) m in let now := selection m' in
    m' = m <| data := d |> <| refreshing := false |> <| refreshErr := None |>
           <| farmCur := farmCur m' |> <| projectKey := projectKey m' |> <| projectCur := projectCur m' |> <| rowCur := rowCur m' |> <| rowTop := rowTop m' |> ∧
    (if decide (s_farm was ≠ "" ∧ s_farm was ∈ f_ID <$> visibleFarms m') then s_farm now = s_farm was else farmCur m' = 0) ∧
    s_project now = (if decide (s_project was ∈ pj_Key <$> visibleProjects m') then s_project was else "") ∧
    (s_project now ≠ "" → pj_Key <$> pick (projectCur m') (visibleProjects m') = Some (s_project now)) ∧
    (if decide (s_row was ≠ "" ∧ s_row was ∈ row_names m') then s_row now = s_row was else rowCur m' = 0) ∧
    0 ≤ rowTop m' ≤ rowCur m' ∧ rowCur m' < rowTop m' + rowsHeight m'.
Proof.
  split; [done|]. intros d was m' now.
  set (m0 := m <| refreshing := false |> <| data := d |> <| refreshErr := None |>).
  destruct (restoreSelection_spec was m0) as (i & j & k & t & key & E & Hi & Hj & Ekey & Hk & Ht).
  assert (m' = m <| data := d |> <| refreshing := false |> <| refreshErr := None |> <| farmCur := i |> <| projectKey := key |> <| projectCur := j |> <| rowCur := k |> <| rowTop := t |>) as Em by exact E.
  clear E. unfold now. clearbody m'. subst m'. split; [done|]. split_and!.
  - match goal with |- if ?b then _ else _ => destruct b as [[Hne Hin]|Hd] end.
    + destruct Hi as [(_ & _ & f & Hf & Hid)|[-> [?|?]]]; [|done..]. rewrite <- Hid. cbn [selection s_farm]. unfold currentFarm. cbn [farmCur]. 
      match goal with |- context[pick ?a ?b] => change (pick a b) with (pick i (visibleFarms m0)) end. by rewrite Hf.
    + destruct Hi as [(Hne & _ & f & Hf & Hid)|[-> _]]; [|done]. destruct Hd. split; [done|]. apply list_elem_of_fmap. exists f. split; [done|]. by eapply pick_elem.
  - exact Ekey.
  - cbn [selection s_project projectKey]. intros Hne. destruct Hj as [(_ & _ & p & Hp & Hid)|[-> Hj]].
    + match goal with |- context[pick ?a ?b] => change (pick a b) with (pick j (visibleProjects (at_farm m0 i))) end.
      rewrite Hp. cbn. f_equal. rewrite Hid. rewrite Ekey. rewrite decide_True; [done|]. apply list_elem_of_fmap. exists p. split; [done|]. by eapply pick_elem.
    + destruct Hne. cbn. rewrite Ekey. match goal with |- (if ?b then _ else _) = _ => destruct b; [by destruct Hj|done] end.
  - match goal with |- if ?b then _ else _ => destruct b as [[Hne Hin]|Hd] end.
    + destruct Hk as [(_ & _ & x & Hx & Hid)|[-> [?|Hk]]]; [|done|by rewrite list_fmap_id in Hk].
      cbn [selection s_row]. rewrite row_name_names. match goal with |- context[pick ?a ?b] => change (pick a b) with (pick k (row_names (at_project m0 i key))) end.
      by rewrite Hx.
    + destruct Hk as [(Hne & _ & x & Hx & Hid)|[-> _]]; [|done]. destruct Hd. split; [done|]. rewrite <- Hid. by eapply pick_elem.
  - apply Ht.
  - apply Ht.
  - apply Ht.
Qed.

(** ** What always holds

    [P]: the window has not been made lower since the cursor last moved. *)

Record cursor_ok (P : Prop) (m : exploreModel) : Prop := {
  farm_in : 0 ≤ farmCur m ∧ (farmCur m < len (visibleFarms m) ∨ farmCur m = 0);
  row_in : 0 ≤ rowTop m ≤ rowCur m ∧ (rowCur m < rowCount m ∨ rowCur m = 0) ∧ (P → shown m);
  project_in : projectKey m = "" ∨ projectKey m ∈ pj_Key <$> visibleProjects m;
}.

(** One overlay has the keys: a filter being typed, the question for a user, a
    console, in that order over a detail. *)
Record overlay_ok (m : exploreModel) : Prop := {
  detail_in : 0 ≤ detailTop m ∧ detailTop m ≤ Z.max 0 (len (detail m) - 3);
  typing_alone : typing m = true → detail m = [] ∧ connectVM m = None ∧ console m = None;
  asking_over : ∀ v, connectVM m = Some v → detailVM m = Some v ∧ mode m = modeConsole ∧ detail m ≠ [] ∧ console m = None;
  console_over : ∀ c, console m = Some c → detailVM m = Some (vm c) ∧ detail m ≠ [] ∧ connectVM m = None ∧ typing m = false ∧
    user c ≠ "" ∧ (histIdx c ≤ length (history c))%nat ∧ (length (lines c) ≤ consoleScrollback + if running c then 1 else 0)%nat;
}.

Section moving.
Context (P : Prop).

Lemma at_top m : rowTop m = 0 → rowCur m = 0 → 0 ≤ rowTop m ≤ rowCur m ∧ (rowCur m < rowCount m ∨ rowCur m = 0) ∧ (P → shown m).
Proof. pose proof (rowsHeight_pos m). unfold shown. intuition lia. Qed.

Lemma rowCount_nonneg m : 0 ≤ rowCount m.
Proof. rewrite rowCount_names. apply len_nonneg. Qed.

Lemma chooseProject_ok i m : cursor_ok P m → cursor_ok P (chooseProject i m).
Proof.
  intros [Hf _ _]. unfold chooseProject. destruct (pick i (visibleProjects m)) as [p|] eqn:E; split; [exact Hf|by apply at_top| |exact Hf|by apply at_top|by left].
  right. apply list_elem_of_fmap. exists p. split; [done|]. exact (pick_elem _ _ _ E).
Qed.

Lemma onto_farm_ok i m : cursor_ok P (onto_farm i m).
Proof. split; [apply clampIndex_bounds, len_nonneg|by apply at_top|by left]. Qed.

Lemma onto_row_ok i m : cursor_ok P m → cursor_ok P (scrollRows (m <| rowCur := clampIndex i (rowCount m) |>)).
Proof.
  intros [Hf _ Hp]. destruct (clampIndex_bounds i (rowCount m) (rowCount_nonneg m)) as [H1 H2].
  destruct (scrollRows_top (m <| rowCur := clampIndex i (rowCount m) |>)) as (t & -> & Ht). specialize (Ht H1). split; [exact Hf| |exact Hp]. split_and!; [apply Ht|apply Ht|exact H2|intros _; apply Ht].
Qed.

Lemma move_ok delta m : cursor_ok P m → cursor_ok P (move delta m).
Proof. intros H. unfold move. destruct (focus m); [destruct (leftKind m); [apply onto_farm_ok|by apply chooseProject_ok]|by apply onto_row_ok]. Qed.

Lemma moveTo_ok i m : cursor_ok P m → cursor_ok P (moveTo i m).
Proof. intros H. unfold moveTo. destruct (focus m); [destruct (leftKind m); [apply onto_farm_ok|by apply chooseProject_ok]|by apply onto_row_ok]. Qed.

Lemma moveByKey_ok k m : cursor_ok P m → cursor_ok P (moveByKey k m).
Proof. intros H. unfold moveByKey. do 4 (case_if; [by apply move_ok|]). do 2 (case_if; [by apply moveTo_ok|]). done. Qed.

Lemma setFilter_ok v m : cursor_ok P m → cursor_ok P (setFilter v m).
Proof.
  intros H. unfold setFilter. destruct (focus m); [destruct (leftKind m)|].
  - split; [cbn; lia|by apply at_top|by left].
  - unfold chooseProject. destruct (pick 0 _) as [p|] eqn:E; split; [apply H|by apply at_top| |apply H|by apply at_top|by left].
    right. apply list_elem_of_fmap. exists p. split; [done|]. exact (pick_elem _ _ _ E).
  - split; [apply H|by apply at_top|apply H].
Qed.

Lemma showKind_ok k m : cursor_ok P m → cursor_ok P (showKind k m).
Proof. intros H. split; [apply H|by apply at_top|apply H]. Qed.

Lemma showProjects_ok m : cursor_ok P m → cursor_ok P (showProjects m).
Proof.
  intros H. unfold showProjects. destruct (kind m) eqn:Ek; [|done]. cbv zeta. destruct (position _ _) as [i|]; [|by apply chooseProject_ok; split; apply H].
  split; apply H.
Qed.

Lemma onRefreshed_ok r m : cursor_ok P m → cursor_ok P (onRefreshed r m).
Proof.
  intros H. destruct r as [d|e]; [|split; apply H].
  destruct (restoreSelection_spec (selection m) (m <| refreshing := false |> <| data := d |> <| refreshErr := None |>)) as (i & j & k & t & key & E & Hi & Hj & Ekey & Hk & Ht).
  assert (onRefreshed (Ok d) m = restoreSelection (selection m) (m <| refreshing := false |> <| data := d |> <| refreshErr := None |>)) as -> by done.
  rewrite E. split.
  - destruct Hi as [(_ & [? ?] & _)|[-> _]]; [split; [done|by left]|cbn; lia].
  - destruct Hk as [(_ & [? Hk] & _)|[-> _]].
    + split_and!; [apply Ht|apply Ht|left; rewrite rowCount_names; exact Hk|intros _; apply Ht].
    + split_and!; [apply Ht|apply Ht|by right|intros _; apply Ht].
  - rewrite Ekey. match goal with |- context[if ?b then _ else _] => destruct b as [Hin|] end; [right; exact Hin|by left].
Qed.
End moving.

(** ** What moving leaves alone *)

Definition moved (m m' : exploreModel) : Prop :=
  m' = m <| focus := focus m' |> <| kind := kind m' |> <| leftKind := leftKind m' |> <| farmCur := farmCur m' |> <| projectCur := projectCur m' |>
         <| rowCur := rowCur m' |> <| rowTop := rowTop m' |> <| projectKey := projectKey m' |>
         <| farmFilter := farmFilter m' |> <| projectSearch := projectSearch m' |> <| rowFilter := rowFilter m' |>.

Lemma moved_refl m : moved m m.
Proof. by destruct m. Qed.

Lemma moved_overlay m m' : moved m m' → overlay_ok m → overlay_ok m'.
Proof. intros E H. rewrite E. split; apply H. Qed.

Lemma scrollRows_moved i m : moved m (scrollRows (m <| rowCur := i |>)).
Proof. destruct (scrollRows_top (m <| rowCur := i |>)) as (t & -> & _). done. Qed.

Lemma chooseProject_moved i m : moved m (chooseProject i m).
Proof. unfold chooseProject. by destruct (pick _ _). Qed.

Lemma move_moved delta m : moved m (move delta m).
Proof. unfold move. destruct (focus m); [destruct (leftKind m); [done|apply chooseProject_moved]|apply scrollRows_moved]. Qed.

Lemma moveTo_moved i m : moved m (moveTo i m).
Proof. unfold moveTo. destruct (focus m); [destruct (leftKind m); [done|apply chooseProject_moved]|apply scrollRows_moved]. Qed.

Lemma moveByKey_moved k m : moved m (moveByKey k m).
Proof. unfold moveByKey. do 4 (case_if; [apply move_moved|]). do 2 (case_if; [apply moveTo_moved|]). apply moved_refl. Qed.

Lemma switchFocus_moved k m : moved m (switchFocus k m).
Proof. unfold switchFocus. do 2 (case_if; [done|]). by destruct (focus m). Qed.

Lemma showProjects_moved m : moved m (showProjects m).
Proof. unfold showProjects. destruct (kind m); [|apply moved_refl]. cbv zeta. destruct (position _ _); [done|]. unfold chooseProject. by destruct (pick _ _). Qed.

Lemma setFilter_moved v m : moved m (setFilter v m).
Proof. unfold setFilter. destruct (focus m); [destruct (leftKind m)|]; [done| |done]. unfold chooseProject. by destruct (pick _ _). Qed.

(** ** What is on screen *)

(** A machine one of the readings lists, and Nova with it. *)
Definition listed (seen : list exploreData) (v : StoreInstance) : Prop :=
  ∃ d id, d ∈ seen ∧ v ∈ liveInstances (default [] (ed_VMs d !! id)).

Lemma visibleVMs_listed seen m v : data m ∈ seen → v ∈ visibleVMs m → listed seen v.
Proof.
  intros Hd Hv. unfold visibleVMs in Hv. destruct (currentFarm m) as [f|]; [|by apply elem_of_nil in Hv]. exists (data m), (f_ID f). split; [done|].
  destruct (String.eqb (rowFilter m) ""); [destruct (String.eqb (projectKey m) ""); [done|]|]; by apply list_elem_of_filter in Hv as [_ Hv].
Qed.

Lemma listed_mono seen seen' v : seen ⊆ seen' → listed seen v → listed seen' v.
Proof. intros Hs (d & id & Hd & Hv). exists d, id. split; [by apply Hs|done]. Qed.

(** ** One message *)

Section update.
Context (Muted Failed : string → string).
Context (renderHost : OpenStackHost → string) (renderVM : StoreInstance → gmap string string → list string → option (list StoreInstance) → string).
Notation Update := (Update Muted Failed renderHost renderVM).
Notation onKey := (onKey renderHost renderVM).
Notation openDetail := (openDetail renderHost renderVM).
Notation openSelected := (openSelected renderHost renderVM).

Record good (P : Prop) (seen : list exploreData) (m : exploreModel) : Prop := {
  good_cursor : cursor_ok P m;
  good_overlay : overlay_ok m;
  good_data : data m ∈ seen;
  good_vm : ∀ v, detailVM m = Some v → listed seen v;
}.

(** What a command was asked for by: the key pressed, and the state it found.
    A key goes to the filter being typed, to the question for a user, to the
    console, to the open detail, or to the lists, in that order. *)
Definition asked (seen : list exploreData) (m : exploreModel) (g : msg) (c : cmd) : Prop :=
  match c with
  | Quit => ∃ k, g = Key k ∧ console m = None ∧
      (Type_ k = KeyCtrlC ∨
       typing m = false ∧ connectVM m = None ∧
       (key_name k = "ctrl+c" ∨ detail m ≠ [] ∧ key_name k = "p" ∨
        detail m = [] ∧ (key_name k = "q" ∨ key_name k = "esc" ∧ activeFilter m = "")))
  | ReadFleet => ∃ k, g = Key k ∧ key_name k = "r" ∧ typing m = false ∧ connectVM m = None ∧ detail m = [] ∧
      NeedsLogin (data m) = false ∧ refreshing m = false
  | RunSelf args name => ∃ k v, g = Key k ∧ key_name k = "c" ∧ typing m = false ∧ connectVM m = None ∧ console m = None ∧
      (if decide (detail m = []) then kind m = kindVMs ∧ focus m = paneRows ∧ pick (rowCur m) (visibleVMs m) = Some v else detailVM m = Some v) ∧
      listed seen v ∧ args = ["openstack"; "ssh"; si_InstanceID v] ∧ name = NameOrID v
  | Exec v r u command => ∃ k c, g = Key k ∧ Type_ k = KeyEnter ∧ typing m = false ∧ connectVM m = None ∧
      console m = Some c ∧ vm c = v ∧ user c = u ∧ u ≠ "" ∧ running c = false ∧ command = TrimSpace (input c) ∧ command ≠ "" ∧
      listed seen v ∧ routeTo m v = Some r
  | Say g' => ∃ k c e, g = Key k ∧ Type_ k = KeyEnter ∧ typing m = false ∧ connectVM m = None ∧
      console m = Some c ∧ running c = false ∧ TrimSpace (input c) ≠ "" ∧ (can_exec m = false ∨ routeTo m (vm c) = None) ∧ g' = ConsoleOutput (console_error e)
  end.

Definition reads (c : option cmd) : bool := match c with Some ReadFleet => true | _ => false end.

(** The next state, the command, and the read it starts. *)
Definition fine (P : Prop) (seen : list exploreData) (m : exploreModel) (g : msg) (r : exploreModel * option cmd) : Prop :=
  good P seen r.1 ∧ (∀ c, r.2 = Some c → asked seen m g c) ∧ height r.1 = height m ∧
  (if reads r.2 then refreshing r.1 = true else refreshing m = true → refreshing r.1 = true).

Section one_message.
Context (P : Prop) (seen : list exploreData) (m : exploreModel) (Hgood : good P seen m) (k : key).

Lemma fine_moved m' : moved m m' → cursor_ok P m' → fine P seen m (Key k) (m', None).
Proof.
  intros E Hc. split_and!; [|done|cbn [fst]; by rewrite E|cbn [fst snd reads]; by rewrite E].
  destruct Hgood. split; cbn [fst]; [done|by eapply moved_overlay|by rewrite E|by rewrite E].
Qed.

Lemma fine_same c : (∀ c', c = Some c' → asked seen m (Key k) c') → reads c = false → fine P seen m (Key k) (m, c).
Proof. intros Ha Hr. split_and!; [done..|]. cbn. by rewrite Hr. Qed.

Lemma fine_quit : asked seen m (Key k) Quit → fine P seen m (Key k) (m, Some Quit).
Proof. intros H. apply fine_same; [by intros ? [= <-]|done]. Qed.

Lemma fine_none : fine P seen m (Key k) (m, None).
Proof. by apply fine_same. Qed.

(** Only the overlays change. *)
Lemma fine_overlay m' c : m' = m <| typing := typing m' |> <| detail := detail m' |> <| detailTop := detailTop m' |> <| detailOf := detailOf m' |> <| detailVM := detailVM m' |>
      <| carry := carry m' |> <| userInput := userInput m' |> <| connectVM := connectVM m' |> <| mode := mode m' |> <| connectNote := connectNote m' |> <| console := console m' |> →
  overlay_ok m' → (∀ v, detailVM m' = Some v → listed seen v) → (∀ c', c = Some c' → asked seen m (Key k) c') → reads c = false → fine P seen m (Key k) (m', c).
Proof.
  intros E Ho Hv Ha Hr. destruct Hgood as [Hc _ Hd _]. split_and!; [split; [|done| |done]|done|cbn; by rewrite E|cbn; rewrite Hr, E; done].
  - rewrite E. split; apply Hc.
  - cbn. by rewrite E.
Qed.

Lemma onFilterKey_fine : typing m = true → fine P seen m (Key k) (onFilterKey k m).
Proof.
  intros Ht. pose proof Hgood as [Hc Ho Hd Hv]. unfold onFilterKey.
  assert (fine P seen m (Key k) (m <| typing := false |>, None)) as Hoff.
  { apply fine_overlay; [by destruct m| |done..]. split; [apply Ho|done|apply Ho|]. intros c Hcon. cbn in Hcon. by destruct (typing_alone _ Ho Ht) as (_ & _ & E); rewrite E in Hcon. }
  assert (∀ v ok, fine P seen m (Key k) (if ok : bool then setFilter v m else m, None)) as Hedit.
  { intros v []; [|apply fine_none]. apply fine_moved; [apply setFilter_moved|by apply setFilter_ok]. }
  destruct (Type_ k) eqn:Ek; try (destruct (editLine (activeFilter m) k) as [v ok]; apply Hedit).
  - exact Hoff.
  - destruct Hoff as ([Hc' Ho' Hd' Hv'] & _). cbn [fst] in *. pose proof (setFilter_moved "" (m <| typing := false |>)) as E.
    split_and!; [split|done|cbn [fst]; by rewrite E|cbn [fst snd reads]; by rewrite E]; cbn [fst].
    + by apply setFilter_ok.
    + by eapply moved_overlay.
    + by rewrite E.
    + by rewrite E.
  - apply fine_quit. destruct (typing_alone _ Ho Ht) as (_ & _ & ?). exists k. by auto.
Qed.

Lemma onConnectKey_fine v : typing m = false → connectVM m = Some v → fine P seen m (Key k) (onConnectKey k m).
Proof.
  intros Ht Hv. pose proof Hgood as [Hc Ho Hd Hl]. destruct (asking_over _ Ho _ Hv) as (Hdv & Hm & Hne & Hcon).
  assert (fine P seen m (Key k) (m <| connectVM := None |>, None)) as Hoff.
  { apply fine_overlay; [by destruct m| |done..]. split; [apply Ho|intros E; cbn in E; by rewrite Ht in E|done|intros c E; cbn in E; by rewrite Hcon in E]. }
  assert (∀ s, fine P seen m (Key k) (m <| userInput := s |>, None)) as Hedit.
  { intros s. apply fine_overlay; [by destruct m| |done..]. split; apply Ho. }
  unfold onConnectKey. destruct (Type_ k) eqn:Ek; try apply Hedit; [|exact Hoff|apply fine_quit; exists k; by auto].
  rewrite Hv. cbv zeta. change (userInput (m <| connectVM := None |>)) with (userInput m). change (mode (m <| connectVM := None |>)) with (mode m).
  destruct (String.eqb_spec (TrimSpace (userInput m)) "") as [|Hu]; [exact Hoff|]. rewrite Hm.
  apply fine_overlay; [by destruct m| |done..]. split; [apply Ho|intros E; cbn in E; by rewrite Ht in E|done|].
  intros c [= <-]. split_and!; try done; cbn; lia.
Qed.

Lemma console_fine c c' command : typing m = false → console m = Some c → vm c' = vm c → user c' ≠ "" → (histIdx c' ≤ length (history c'))%nat →
  (length (lines c') ≤ consoleScrollback + if running c' then 1 else 0)%nat → (∀ x, command = Some x → asked seen m (Key k) x) → reads command = false →
  fine P seen m (Key k) (m <| console := Some c' |>, command).
Proof.
  intros Ht Hc Hvm Hu Hh Hl Ha Hr. pose proof Hgood as [_ Ho _ Hlist]. destruct (console_over _ Ho _ Hc) as (Hdv & Hne & Hask & _).
  apply fine_overlay; [by destruct m| |done..]. split; [apply Ho|intros E; cbn in E; by rewrite Ht in E|intros v E; cbn in E; by rewrite Hask in E|].
  intros c0 [= <-]. by rewrite Hvm.
Qed.

Lemma onConsoleKey_fine c : typing m = false → console m = Some c → fine P seen m (Key k) (onConsoleKey k c m).
Proof.
  intros Ht Hc. pose proof Hgood as [_ Ho _ Hlist]. destruct (console_over _ Ho _ Hc) as (Hdv & Hne & Hask & _ & Hu & Hh & Hl).
  assert (fine P seen m (Key k) (m <| console := None |>, None)) as Hoff.
  { apply fine_overlay; [by destruct m| |done..]. split; [apply Ho|intros E; cbn in E; by rewrite Ht in E|intros v E; cbn in E; by rewrite Hask in E|done]. }
  unfold onConsoleKey. destruct (Type_ k) eqn:Ek; cbv zeta; try (by eapply console_fine).
  - destruct (String.eqb_spec (TrimSpace (input c)) "") as [|Hcmd]; [apply fine_none|]. destruct (running c) eqn:Hrun; [apply fine_none|]. cbn [orb].
    set (hist := if bool_decide _ then _ else _). eapply console_fine; [done|done|done|done|exact (le_n _)| | |].
    + unfold consoleScrollback in *. cbn. rewrite length_app. cbn. lia.
    + intros x [= <-]. unfold consoleRun. destruct (can_exec m) eqn:Hex; cbn [negb]; [|exists k, c; eexists; split_and!; auto].
      change (vm (c <| lines := _ |> <| history := hist |> <| histIdx := length hist |> <| input := "" |> <| running := true |>)) with (vm c).
      destruct (routeTo m (vm c)) as [r|] eqn:Er; [|exists k, c; eexists; split_and!; auto]. exists k, c. split_and!; try done. by apply Hlist.
    + unfold consoleRun. destruct (negb (can_exec m)); [done|]. by destruct (routeTo _ _).
  - exact Hoff.
  - destruct (running c || _); [by eapply console_fine|exact Hoff].
  - destruct (histIdx c) as [|i] eqn:Ei; [apply fine_none|]. eapply console_fine; try done. cbn. lia.
  - destruct (histIdx c <? length (history c))%nat eqn:Ei; [|apply fine_none]. apply Nat.ltb_lt in Ei. eapply console_fine; try done.
Qed.

Lemma startConnect_fine v : typing m = false → console m = None → detail m ≠ [] → detailVM m = Some v → fine P seen m (Key k) (startConnect v modeConsole m, None).
Proof.
  intros Ht Hc Hne Hv. pose proof Hgood as [_ Ho _ Hlist]. unfold startConnect. destruct (routeTo m v).
  - apply fine_overlay; [by destruct m| |done..]. split; [apply Ho|intros E; cbn in E; by rewrite Ht in E|by intros v' [= <-]|intros c E; cbn in E; by rewrite Hc in E].
  - apply fine_overlay; [by destruct m| |done..]. split; apply Ho.
Qed.

Lemma detailTop_fine t : 0 ≤ t → t ≤ Z.max 0 (len (detail m) - 3) → fine P seen m (Key k) (m <| detailTop := t |>, None).
Proof. intros H1 H2. pose proof Hgood as [_ Ho _ Hlist]. apply fine_overlay; [by destruct m| |done..]. split; [done|apply Ho..]. Qed.

Lemma onDetailKey_fine : typing m = false → connectVM m = None → detail m ≠ [] → fine P seen m (Key k) (onDetailKey k m).
Proof.
  intros Ht Hask Hne. pose proof Hgood as [_ Ho _ Hlist]. destruct (detail_in _ Ho) as [Ht0 Ht1]. pose proof (bodyHeight_pos m) as Hb.
  unfold onDetailKey. destruct (console m) as [c|] eqn:Hc; [by apply onConsoleKey_fine|]. cbv zeta.
  assert (fine P seen m (Key k) (close_detail m, None)) as Hclose.
  { apply fine_overlay; [by destruct m| |done..]. split; [done|done|intros v E; cbn in E; by rewrite Hask in E|intros c E; cbn in E; by rewrite Hc in E]. }
  assert (key_name k = "ctrl+c" ∨ key_name k = "p" → fine P seen m (Key k) (m <| carry := detail m |>, Some Quit)) as Hcarry.
  { intros Hk. apply fine_overlay; [by destruct m| |done| |done]; [split; apply Ho|]. intros ? [= <-]. exists k. naive_solver. }
  case_if; [exact Hclose|]. case_if.
  { destruct (detailVM m) as [v|] eqn:Hv; [by apply startConnect_fine|exact Hclose]. }
  case_if.
  { apply fine_same; [|by destruct (detailVM m)]. intros c (v & Hv & ->)%fmap_Some. exists k, v.
    rewrite decide_False by done. split_and!; try done; [by apply String.eqb_eq|by apply Hlist]. }
  case_if; [apply Hcarry; left; by apply String.eqb_eq|]. do 4 (case_if; [apply detailTop_fine; lia|]).
  case_if; [apply Hcarry; right; by apply String.eqb_eq|apply fine_none].
Qed.

Lemma openSelected_fine : typing m = false → connectVM m = None → detail m = [] → fine P seen m (Key k) (openSelected m, None).
Proof.
  intros Ht Hask Hnil. pose proof Hgood as [Hc Ho Hd Hlist]. unfold Explore.openSelected. destruct (focus m).
  { apply fine_moved; [by destruct m|]. split; [apply Hc|by apply at_top|apply Hc]. }
  assert (console m = None) as Hcon by (destruct (console m) as [c|] eqn:E; [|done]; by destruct (console_over _ Ho _ E) as (_ & ? & _)).
  assert (∀ m', detailTop m' = 0 → typing m' = false → connectVM m' = None → console m' = None → overlay_ok m') as Hov.
  { intros m' E1 E2 E3 E4. split; [rewrite E1; lia|by rewrite E2|by rewrite E3|by rewrite E4]. }
  unfold Explore.openDetail. destruct (kind m).
  - destruct (pick (rowCur m) (visibleVMs m)) as [v|] eqn:E; [|apply fine_none]. apply fine_overlay; [by destruct m|by apply Hov| |done..].
    intros v' [= <-]. apply (visibleVMs_listed seen m); [done|by eapply pick_elem].
  - destruct (pick (rowCur m) (visibleHosts m)) as [h|]; [|apply fine_none]. apply fine_overlay; [by destruct m|by apply Hov|done..].
Qed.

Lemma onRefreshKey_fine : key_name k = "r" → typing m = false → connectVM m = None → detail m = [] → fine P seen m (Key k) (onRefreshKey m).
Proof.
  intros Hk Ht Hask Hnil. pose proof Hgood as [Hc Ho Hd Hlist]. unfold onRefreshKey. destruct (NeedsLogin (data m)) eqn:El; [apply fine_none|]. destruct (refreshing m) eqn:Er; [apply fine_none|].
  cbv zeta. split_and!; cbn [fst snd]; [split; [split; apply Hc|split; apply Ho|exact Hd|exact Hlist]| |done|].
  - unfold refreshCmd. case_if; [|done]. intros c [= <-]. by exists k.
  - by destruct (reads _).
Qed.

Lemma connectSelectedVM_fine : key_name k = "c" → typing m = false → connectVM m = None → console m = None → detail m = [] →
  fine P seen m (Key k) (m, connectSelectedVM m).
Proof.
  intros Hk Ht Hask Hcon Hnil. pose proof Hgood as [_ _ Hd _]. unfold connectSelectedVM. destruct (kind m) eqn:Ek, (focus m) eqn:Ef; try apply fine_none. destruct (pick _ _) as [v|] eqn:E; [|apply fine_none].
  apply fine_same; [|done]. intros c [= <-]. exists k, v. rewrite decide_True by done. split_and!; try done.
  apply (visibleVMs_listed seen m); [done|by eapply pick_elem].
Qed.

Lemma onKey_fine : fine P seen m (Key k) (onKey k m).
Proof.
  pose proof Hgood as [Hc Ho Hd Hlist]. unfold Explore.onKey. destruct (typing m) eqn:Ht; [by apply onFilterKey_fine|].
  unfold askingUser. destruct (connectVM m) as [v|] eqn:Hask; [by eapply onConnectKey_fine|]. rewrite (bool_decide_eq_false_2 (is_Some (None : option StoreInstance))) by by intros [].
  destruct (decide (detail m = [])) as [Hnil|Hne]; [rewrite (bool_decide_eq_true_2 (detail m = [])) by done|rewrite (bool_decide_eq_false_2 (detail m = [])) by done; by apply onDetailKey_fine].
  assert (console m = None) as Hcon by (destruct (console m) as [c|] eqn:E; [|done]; by destruct (console_over _ Ho _ E) as (_ & ? & _)).
  cbn [negb]. cbv zeta. case_if.
  { apply fine_quit. exists k. unfold slices_Contains in *. case_bool_decide as Hin; [|done]. set_solver. }
  case_if.
  { destruct (String.eqb_spec (activeFilter m) "") as [Hf|]; cbn [negb]; [apply fine_quit; exists k; split_and!; [done..|]; right; split_and!; [done..|]; do 2 right; split; [done|]; right; split; [by apply String.eqb_eq|done]|]. apply fine_moved; [apply setFilter_moved|by apply setFilter_ok]. }
  case_if; [apply fine_moved; [apply switchFocus_moved|]; pose proof (switchFocus_moved (key_name k) m) as E; rewrite E|].
  { unfold switchFocus. repeat (case_if; [split; apply Hc|]). destruct (focus m); split; apply Hc. }
  case_if; [apply fine_moved; [apply moveByKey_moved|by apply moveByKey_ok]|].
  do 2 (case_if; [apply fine_moved; [done|by apply showKind_ok]|]).
  case_if; [apply fine_moved; [apply showProjects_moved|by apply showProjects_ok]|].
  case_if; [apply fine_moved; [by destruct m|split; apply Hc]|].
  case_if; [apply fine_overlay; [by destruct m| |done..]|].
  { split; [apply Ho| | |]; cbn.
    - done.
    - by rewrite Hask.
    - intros c E. by destruct (console_over _ Ho _ E) as (_ & ? & _). }
  case_if; [apply onRefreshKey_fine; try done; by apply String.eqb_eq|]. case_if; [apply connectSelectedVM_fine; try done; by apply String.eqb_eq|]. case_if; [by apply openSelected_fine|apply fine_none].
Qed.
End one_message.

(** ** Many messages *)

Definition landed (g : msg) : list exploreData := match g with Refreshed (Ok d) => [d] | _ => [] end.
Definition is_refreshed (g : msg) : bool := match g with Refreshed _ => true | _ => false end.

(** The message makes the window lower than it is. *)
Definition lowers (m : exploreModel) (g : msg) : Prop := match g with WindowSize _ h => h < height m | _ => False end.

Definition after (m : exploreModel) (gs : list msg) : exploreModel := foldl (λ m g, (Update g m).1) m gs.

(** Every message with the state it found and the command it made. *)
Fixpoint history_of (m : exploreModel) (gs : list msg) : list (exploreModel * msg * option cmd) :=
  match gs with [] => [] | g :: gs => (m, g, (Update g m).2) :: history_of (Update g m).1 gs end.

Lemma good_weaken (P Q : Prop) seen seen' m : (Q → P) → seen ⊆ seen' → good P seen m → good Q seen' m.
Proof.
  intros HQ Hs [Hc Ho Hd Hv]. split; [|done|by apply Hs|intros v E; eapply listed_mono; [exact Hs|by apply Hv]].
  destruct Hc as [H1 (H2 & H3 & H4) H5]. split; [done| |done]. split_and!; [apply H2|apply H2|done|auto].
Qed.

Lemma asked_mono seen seen' m g c : seen ⊆ seen' → asked seen m g c → asked seen' m g c.
Proof.
  intros Hs. destruct c; cbn; try done.
  - intros (k & v & H). exists k, v. destruct_and! H. split_and!; try done. by eapply listed_mono.
  - intros (k & c & H). exists k, c. destruct_and! H. split_and!; try done. by eapply listed_mono.
Qed.

Lemma onConsoleOutput_good P seen r m : good P seen m → good P seen (onConsoleOutput Muted Failed r m).
Proof.
  intros [Hc Ho Hd Hv]. unfold onConsoleOutput. destruct (console m) as [c|] eqn:E; [|done].
  destruct (console_over _ Ho _ E) as (Hdv & Hne & Hask & Ht & Hu & Hh & Hl). destruct (output_lines Muted Failed r c) as [more u] eqn:Eo.
  assert (u ≠ "") as Hu'.
  { unfold output_lines in Eo. injection Eo as _ <-. destruct (_ && negb (String.eqb (as_user r) "") && _) eqn:Em; [|done].
    by apply andb_true_iff in Em as [[_ Em%negb_true_iff%String.eqb_neq]%andb_true_iff _]. }
  split; [split; apply Hc| |done|done]. split; [apply Ho|intros E'; cbn in E'; by rewrite Ht in E'|intros v E'; cbn in E'; by rewrite Hask in E'|].
  intros c' [= <-]. split_and!; [done..|]. cbn [running lines set_field]. rewrite length_drop. generalize (length (lines c ++ more)). lia.
Qed.

Lemma Update_good P seen m g : good P seen m → let r := Update g m in
  good (P ∧ ¬ lowers m g) (seen ++ landed g) r.1 ∧ (∀ c, r.2 = Some c → asked seen m g c) ∧
  (if reads r.2 then refreshing m = false ∧ refreshing r.1 = true else is_refreshed g = false → refreshing m = true → refreshing r.1 = true).
Proof.
  intros Hg. pose proof Hg as [Hc Ho Hd Hv].
  assert (∀ m', good P seen m' → good (P ∧ ¬ lowers m g) (seen ++ landed g) m') as Hw by (intros m' H; apply (good_weaken P _ seen); [by intros [? _]|set_solver|done]).
  cbv zeta. destruct g as [w h|r|k|name err|r|]; cbn [Explore.Update fst snd reads].
  - split_and!; [|done|done]. rewrite app_nil_r. destruct Hc as [H1 (H2 & H3 & H4) H5]. split; [split; [exact H1| |exact H5]|split; apply Ho|exact Hd|exact Hv].
    split_and!; [apply H2|apply H2|exact H3|]. intros [HP Hl]. cbn in Hl. specialize (H4 HP). unfold shown in *. cbn [rowCur rowTop set_field].
    assert (height m ≤ height (m <| width := w |> <| height := h |>)) as Hh by (change (height m ≤ h); lia). apply rowsHeight_mono in Hh. cbn [rowCur rowTop]. lia.
  - split_and!; [|done|done]. assert (cursor_ok P (onRefreshed r m)) as Hc' by by apply onRefreshed_ok. apply (good_weaken P _ (seen ++ landed (Refreshed r))); [by intros [? _]|done|].
    destruct r as [d|e]; [|split; [done|split; apply Ho|set_solver|intros v E; eapply listed_mono; [|by apply Hv]; set_solver]].
    pose proof (refreshed_fields m d) as E. split; [done| | |].
    + rewrite E. split; apply Ho.
    + rewrite E. cbn. set_solver.
    + rewrite E. intros v Ev. eapply listed_mono; [|by apply Hv]. set_solver.
  - destruct (onKey_fine P seen m Hg k) as (H1 & H2 & _ & H4). split_and!; [by apply Hw|done|]. destruct (reads _) eqn:Er; [|done]. split; [|done].
    destruct ((onKey k m).2) as [[]|]; try done. by destruct (H2 ReadFleet eq_refl) as (? & ? & ? & ? & ? & ? & ? & ?).
  - split_and!; [apply Hw|done|by destruct err]. destruct err; [split; [split; apply Hc|split; apply Ho|exact Hd|exact Hv]|done].
  - split_and!; [by apply Hw, onConsoleOutput_good|done|]. cbn [reads]. intros _ H. unfold onConsoleOutput. destruct (console m); [|done]. by destruct (output_lines _ _ _ _).
  - split_and!; [by apply Hw|done|done].
Qed.

Definition readings (m : exploreModel) (gs : list msg) : list exploreData := data m :: (gs ≫= landed).

Definition never_lowered (m : exploreModel) (gs : list msg) : Prop := Forall (λ e, ¬ lowers e.1.1 e.1.2) (history_of m gs).

Definition read_count (l : list (exploreModel * msg * option cmd)) : nat := length (filter (λ e, reads e.2 = true) l).
Definition answers (gs : list msg) : nat := length (filter (λ g, is_refreshed g = true) gs).

Lemma after_good gs : ∀ P seen m, good P seen m → good (P ∧ never_lowered m gs) (seen ++ (gs ≫= landed)) (after m gs).
Proof.
  induction gs as [|g gs IH]; intros P seen m Hg; [apply (good_weaken P _ seen); [by intros [? _]|set_solver|done]|].
  destruct (Update_good P seen m g Hg) as (H & _). apply IH in H. rewrite <- (assoc_L (++)) in H. eapply good_weaken; [|done|exact H].
  intros [HP Hl]. apply Forall_cons in Hl as [Hl Hls]. done.
Qed.

Lemma history_asked gs : ∀ P seen m, good P seen m → ∀ s g c, (s, g, Some c) ∈ history_of m gs → asked (seen ++ (gs ≫= landed)) s g c.
Proof.
  induction gs as [|g0 gs IH]; intros P seen m Hg s g c; [by intros ?%elem_of_nil|]. destruct (Update_good P seen m g0 Hg) as (H & Ha & _).
  cbn [history_of]. intros [E|Hin]%elem_of_cons; [injection E as -> -> E; eapply asked_mono; [|by apply Ha]; set_solver|].
  rewrite bind_cons, (assoc_L (++)). by eapply IH.
Qed.

(** Reads begun and answered, from a state that may be waiting for one. *)
Lemma history_reads gs : ∀ P seen m, good P seen m →
  (read_count (history_of m gs) + (if refreshing m then 1 else 0) ≤ answers gs + (if refreshing (after m gs) then 1 else 0))%nat.
Proof.
  induction gs as [|g gs IH]; intros P seen m Hg; [done|]. destruct (Update_good P seen m g Hg) as (H & _ & Hr). specialize (IH _ _ _ H).
  cbn [history_of after foldl]. unfold read_count, answers in *. cbn [history_of]. rewrite !filter_cons. cbn [snd] in *.
  set (r := Update g m) in *. change (foldl _ r.1 gs) with (after r.1 gs).
  destruct (decide (reads r.2 = true)) as [E|E].
  - rewrite E in Hr. destruct Hr as [Hr1 Hr2]. rewrite Hr1. rewrite Hr2 in IH. case_decide; cbn [length]; lia.
  - apply not_true_iff_false in E. rewrite E in Hr. case_decide as Eg; cbn [length].
    + destruct (refreshing m), (refreshing r.1); lia.
    + apply not_true_iff_false in Eg. specialize (Hr Eg). destruct (refreshing m); [rewrite Hr in IH by done; lia|destruct (refreshing r.1); lia].
Qed.

(** ** The screen *)

(** The browser as it comes up, on the farm the command line named, if it did. *)
Definition opened (d : exploreData) (farm : option string) : exploreModel :=
  match farm with Some id => selectFarmID id (newExploreScreen d) | None => newExploreScreen d end.

Lemma opened_good d farm : good True [d] (opened d farm).
Proof.
  assert (∀ m, farmCur m = 0 ∨ 0 ≤ farmCur m < len (visibleFarms m) → rowCur m = 0 → rowTop m = 0 → projectKey m = "" → detailTop m = 0 → typing m = false → connectVM m = None →
    console m = None → detailVM m = None → data m = d → good True [d] m) as H.
  { intros m H1 H2 H3 H4 H5 H6 H7 H8 H9 H10. split; [split; [lia|by apply at_top|by left]|split| |].
    - rewrite H5. lia.
    - by rewrite H6.
    - by rewrite H7.
    - by rewrite H8.
    - rewrite H10. by left.
    - by rewrite H9. }
  destruct farm as [id|]; cbn [opened]; [|apply H; by (left || idtac)].
  unfold selectFarmID. destruct (position _ _) as [i|] eqn:E; [|apply H; by (left || idtac)]. apply position_Some in E as (_ & _ & _ & Hi). apply H; try done. right. exact Hi.
Qed.

Lemma opened_data d farm : data (opened d farm) = d ∧ refreshing (opened d farm) = ed_Cached d && negb (NeedsLogin d).
Proof. destruct farm as [id|]; [|done]. cbn [opened]. unfold selectFarmID. by destruct (position _ _). Qed.

(** Rows drawn, one of them marked. *)
Lemma rows_drawn_marked {A} (m : exploreModel) (rows : list A) x : 0 ≤ rowTop m ≤ rowCur m → rowCur m < rowTop m + rowsHeight m →
  pick (rowCur m) rows = Some x → filter (λ r, r.2 = true) (rows_drawn m rows) = [(x, true)] ∨ ¬ rowCur m < len rows.
Proof.
  intros H1 H2 Hx. destruct (decide (rowCur m < len rows)) as [Hlt|]; [left|by right]. unfold rows_drawn. rewrite clampIndex_id by lia.
  unfold pick in Hx. rewrite clampIndex_id in Hx by lia. set (t := Z.to_nat (rowTop m)). set (n := Z.to_nat _).
  set (c := (Z.to_nat (rowCur m) - t)%nat). assert (c < n)%nat as Hc by lia. assert (Z.to_nat (rowCur m) = t + c)%nat as Ec by lia.
  assert (take n (drop t rows) !! c = Some x) as Hl by (rewrite lookup_take_lt, lookup_drop by lia; by rewrite <- Ec).
  assert (∀ k, (Z.of_nat k + rowTop m =? rowCur m) = bool_decide (k = c)) as Ek.
  { intros k. destruct (decide (k = c)); [rewrite bool_decide_eq_true_2 by done; lia|rewrite bool_decide_eq_false_2 by done; lia]. }
  rewrite <- (take_drop_middle _ _ _ Hl). rewrite imap_app. cbn [imap]. rewrite filter_app, filter_cons. cbn [snd fmap].
  assert (length (take c (take n (drop t rows))) = c) as El by (apply lookup_lt_Some in Hl; rewrite length_take; lia). rewrite El.
  rewrite decide_True by (cbn; rewrite Ek, Nat.add_0_r; by apply bool_decide_eq_true_2).
  assert (∀ (l : list A) f, (∀ k, (k < length l)%nat → f k = false) → filter (λ r : A * bool, r.2 = true) (imap (λ k y, (y, f k)) l) = []) as Hnone.
  { clear. intros l. induction l as [|y l IH]; intros f H; [done|]. cbn [imap]. rewrite filter_cons_False by (cbn; rewrite H by (cbn; lia); done).
    rewrite <- (IH (f ∘ S)); [|intros k Hk; apply H; cbn; lia]. done. }
  rewrite (Hnone _ (λ k, Z.of_nat k + rowTop m =? rowCur m)) by (intros k Hk; rewrite Ek; apply bool_decide_eq_false_2; lia).
  cbn [app]. f_equal; [by rewrite Ek, Nat.add_0_r, bool_decide_eq_true_2|].
  rewrite <- (Hnone (drop (S c) (take n (drop t rows))) (λ k, Z.of_nat (c + S k) + rowTop m =? rowCur m)); [done|]. intros k _. rewrite Ek. apply bool_decide_eq_false_2. lia.
Qed.

(** C24. The browser holds together.  Whatever messages come, in whatever order:
    its cursors are on rows that exist, or at the top; the project chosen is one
    the sidebar shows; at most one overlay has the keys, the question for a user
    and the console are about the machine of the open detail, and only the
    console asks; a console keeps at most 400 lines and the one being run; and
    while nobody made the window lower, exactly one of the rows drawn is marked,
    the one the keys act on. *)
Theorem the_browser_holds_together d farm gs : let m := after (opened d farm) gs in
  cursor_ok (never_lowered (opened d farm) gs) m ∧ overlay_ok m ∧
  (never_lowered (opened d farm) gs → row_names m ≠ [] → filter (λ r, r.2 = true) (rows_drawn m (row_names m)) = [(row_name m, true)]).
Proof.
  intros m. pose proof (after_good gs _ _ _ (opened_good d farm)) as H. fold m in H. destruct H as [Hc Ho _ _]. 
  assert (cursor_ok (never_lowered (opened d farm) gs) m) as Hc' by (destruct Hc as [H1 (H2 & H3 & H4) H5]; split; [exact H1|split; [exact H2|split; [exact H3|by intros Hn; apply H4]]|exact H5]).
  split_and!; [done..|]. intros Hn Hne. destruct (row_in _ _ Hc') as (H1 & H2 & H3). specialize (H3 Hn).
  destruct (pick (rowCur m) (row_names m)) as [x|] eqn:E; [|by apply pick_None in E]. rewrite row_name_names, E. cbn [default].
  destruct (rows_drawn_marked m (row_names m) x H1 H3 E) as [->|Hbad]; [done|]. rewrite rowCount_names in H2. destruct Hbad, H2 as [|H2]; [done|]. rewrite H2.
  destruct (row_names m); [done|]. unfold len. cbn. lia.
Qed.

(** C22. The browser asks for nothing unasked.  In whatever order messages come, a
    command is made only by a key pressed.  A command is run on a machine only by
    enter, with the keys going to an idle console open on it, with the words typed
    there, as the console's user, over a route the data on screen gives; the
    program is started for a machine only by c, on its row or in its detail; both
    only for one that a reading showed and Nova had.  The fleet is read only by r
    at the lists, when no login would be asked for, and never twice at once.  The
    screen is left only by ctrl+c, p, q or esc, none of them with a console
    open. *)
Theorem nothing_is_unasked d farm gs : let m := opened d farm in
  (∀ s g c, (s, g, Some c) ∈ history_of m gs → asked (readings m gs) s g c) ∧
  (∀ c, Init m = Some c → c = ReadFleet ∧ NeedsLogin d = false) ∧
  ((if reads (Init m) then 1 else 0) + read_count (history_of m gs) ≤ answers gs + 1)%nat.
Proof.
  intros m. destruct (opened_data d farm) as [Hd Hr]. fold m in Hd, Hr. split_and!.
  - intros s g c Hin. pose proof (history_asked gs _ _ _ (opened_good d farm) s g c Hin) as H. eapply asked_mono; [|exact H]. unfold readings. fold m. rewrite Hd. set_solver.
  - unfold Init. rewrite Hr. destruct (ed_Cached d); [|done]. destruct (NeedsLogin d); [done|]. cbn. unfold refreshCmd. case_if; [|done]. by intros c [= <-].
  - pose proof (history_reads gs _ _ _ (opened_good d farm)) as H. fold m in H. unfold Init. 
    destruct (refreshing m); cbn [negb]; [destruct (reads (refreshCmd m))|cbn]; destruct (refreshing (after m gs)); lia.
Qed.
End update.

(** ** Samples *)

Module Sample.
Definition plain (s : string) : string := s.
Definition host_text (h : OpenStackHost) : string := h_Hostname h.
Definition vm_text (v : StoreInstance) (_ : gmap string string) (_ : list string) (_ : option (list StoreInstance)) : string := si_Name v.

Definition machine (id project : string) (addrs : list InstanceAddress) : StoreInstance :=
  {| si_DeploymentID := "f"; si_InstanceID := id; si_ProjectID := project; si_ProjectName := project; si_Name := id; si_Status := "ACTIVE"; si_PowerState := "";
     si_TaskState := ""; si_AvailabilityZone := ""; si_HypervisorHostname := ""; si_FlavorID := ""; si_ImageID := ""; si_ImageName := "";
     si_CreatedAt := None; si_UpdatedAt := None; si_ObservedAt := 0; si_MissingSince := None; si_Addresses := addrs |}.
Definition floating (a : string) : InstanceAddress := {| NetworkName := "n"; Address := a; AddrType := "floating"; IPVersion := 4 |}.

Definition farm_f : FleetCatalog.Farm := {| f_ID := "f"; f_Name := "f"; f_Region := ""; f_State := ""; f_HorizonURL := ""; f_Hosts := []; f_Unsettled := 0 |}.
Definition reading (vms : list StoreInstance) : exploreData :=
  {| ed_Farms := [farm_f]; ed_Hosts := ∅; ed_VMs := {["f" := vms]}; ed_Names := ∅; ed_Runs := ∅; ed_Nets := []; ed_ReadAt := 0; NeedsLogin := false; ed_Cached := false |}.

Definition k (n : string) (t : KeyType) : msg := Key {| Type_ := t; Runes := n; key_name := n |}.
Definition letter (n : string) : msg := k n KeyRunes.
Definition enter : msg := k "enter" KeyEnter.
Definition esc : msg := k "esc" KeyEsc.
Definition down : msg := k "down" KeyDown.

Notation after := (after plain plain host_text vm_text).
Notation history_of := (history_of plain plain host_text vm_text).

Definition two : exploreData := reading [machine "a" "p" [floating "203.0.113.1"]; machine "b" "p" [floating "203.0.113.2"]].

(** From the rows: the detail, the question, the console; a word, and run. *)
Definition run_word (w : string) : list msg := [enter; enter; enter; letter w; enter].

Lemma the_browser_holds_together_witness :
  let m := after (opened two None) [letter "l"; down; enter; enter; enter] in
  never_lowered plain plain host_text vm_text (opened two None) [letter "l"; down; enter; enter; enter] ∧ row_names m = ["a"; "b"] ∧
  filter (λ r, r.2 = true) (rows_drawn m (row_names m)) = [("b", true)] ∧ (vm <$> console m) = Some (machine "b" "p" [floating "203.0.113.2"]).
Proof.
  assert (never_lowered plain plain host_text vm_text (opened two None) [letter "l"; down; enter; enter; enter]) as Hn.
  { unfold never_lowered. cbn [ExploreLaws.history_of]. repeat (apply Forall_cons; split; [by intros []|]). by apply Forall_nil. }
  split; [exact Hn|]. split; [vm_compute; reflexivity|]. split; [|vm_compute; reflexivity].
  exact (proj2 (proj2 (the_browser_holds_together plain plain host_text vm_text two None [letter "l"; down; enter; enter; enter])) Hn ltac:(vm_compute; discriminate)).
Defined.

Lemma nothing_is_unasked_witness :
  let h := history_of (opened two None) (letter "l" :: run_word "w") in
  (λ e, e.2) <$> h = [None; None; None; None; None; Some (Exec (machine "a" "p" [floating "203.0.113.1"]) {| vr_via := None; vr_viaAddr := ""; vr_tenantAddr := "" |} "root" "w")] ∧
  ∀ s g c, (s, g, Some c) ∈ h → asked (readings (opened two None) (letter "l" :: run_word "w")) s g c.
Proof.
  split; [vm_compute; reflexivity|]. exact (proj1 (nothing_is_unasked plain plain host_text vm_text two None (letter "l" :: run_word "w"))).
Defined.

(** The machine the cursor is on moves down a row, and the cursor with it. *)
Example refreshed_in_place :
  let m' := onRefreshed (Ok (reading [machine "0" "p" []; machine "b" "p" []; machine "a" "p" []])) (after (opened two None) [letter "l"; down]) in
  (row_names m', rowCur m', row_name m') = (["0"; "b"; "a"], 1, "b").
Proof. vm_compute. reflexivity. Qed.

(** An answer does not say which console it is for: the output of a command on
    [a], whose console was closed, lands in [b]'s, and ends the wait for [b]'s
    own command. *)
Definition crossed : list msg := (letter "l" :: run_word "x") ++ [esc; esc; down] ++ run_word "y".
Definition answer : msg := ConsoleOutput {| out := "of a"; code := 0; as_user := "root"; exec_err := None |}.

Lemma output_lands_in_another_pane :
  let m := after (opened two None) crossed in let m' := after (opened two None) (crossed ++ [answer]) in
  (λ c, (si_Name (vm c), running c)) <$> console m = Some ("b", true) ∧
  (λ c, (si_Name (vm c), running c, lines c)) <$> console m' = Some ("b", false, ["root@b $ y"; "of a"]) ∧
  omap (λ e, match e.2 with Some (Exec v _ _ w) => Some (si_Name v, w) | _ => None end) (history_of (opened two None) (crossed ++ [answer; letter "z"; enter])) =
    [("a", "x"); ("b", "y"); ("b", "z")].
Proof. vm_compute. by split_and!. Qed.

(** A window made lower leaves the cursor outside it; enter opens the row. *)
Definition many : exploreData := reading ((λ n, machine (Itoa (Z.of_nat n)) "p" []) <$> seq 0 40).

Lemma a_lower_window_hides_the_cursor :
  let m := after (opened many None) [letter "l"; letter "G"; WindowSize 80 12] in
  row_name m = "39" ∧ filter (λ r, r.2 = true) (rows_drawn m (row_names m)) = [] ∧
  detailOf (after (opened many None) [letter "l"; letter "G"; WindowSize 80 12; enter]) = "39".
Proof. vm_compute. by split_and!. Qed.

(** The detail's machine is as it was when it was opened, addresses included. *)
Lemma a_new_address_is_not_seen :
  let m := after (opened (reading [machine "a" "" []]) None) [letter "l"; enter; Refreshed (Ok (reading [machine "a" "" [floating "203.0.113.1"]])); enter] in
  si_Addresses <$> visibleVMs m = [[floating "203.0.113.1"]] ∧ connectVM m = None ∧ String.eqb (connectNote m) "" = false.
Proof. vm_compute. by split_and!. Qed.

(** The sidebar's marker on one project, the rows of all. *)
Lemma a_refresh_parts_marker_and_rows :
  let m := after (opened (reading [machine "a" "web1" []; machine "c" "db" []]) None)
             [letter "p"; letter "/"; letter "web"; enter; Refreshed (Ok (reading [machine "b" "web2" []; machine "c" "db" []]))] in
  (pj_Label <$> pick (projectCur m) (visibleProjects m)) = Some "web2" ∧ row_names m = ["b"; "c"].
Proof. vm_compute. by split_and!. Qed.
End Sample.
