(* ===== verification/Migrate.v ===== *)
(** Schema migrations (src/internal/store/migrate.go): the ledger, one migrator
    as a program over a Postgres transaction, and any number of them at once. *)

From Stdlib Require Import Ascii String.
From S2P Require Import Prelude GoStrings Effects.
Local Open Scope Z_scope.

(** ** Data *)

(** An error of the database, and its SQLSTATE, where it has one. *)
Record db_error := { db_text : string; SQLSTATE : option string }.

Definition wrapped (before : string) (e : db_error) : db_error := {| db_text := before +:+ db_text e; SQLSTATE := SQLSTATE e |}.
Definition said (s : string) : db_error := {| db_text := s; SQLSTATE := None |}.

Definition pgerrcodeUndefinedTable : string := "42P01".
Definition isUndefinedTable (e : db_error) : bool := bool_decide (SQLSTATE e = Some pgerrcodeUndefinedTable).

Definition migrateLockKey : Z := 0x7663746c6d696772.
Definition migrateLockTimeout : duration := 60 * Second.

Record AppliedMigration := { am_Version : string; am_Checksum : string; am_AppliedAt : time_t }.
Record migrationFile := { mf_name : string; sql : string; checksum : string }.

#[export] Instance migrationFile_eq_dec : EqDecision migrationFile.
Proof. solve_decision. Defined.

Definition file_names (files : list migrationFile) : list string := mf_name <$> files.

Definition short (sum : string) : string := if (String.length sum <=? 12)%nat then sum else take_bytes 12 sum.

(** One entry of the embedded directory. *)
Record embedded := { en_name : string; is_dir : bool; content : string }.

(** [hex_sha256]: the hash, in hexadecimal. *)
Definition embeddedMigrations (hex_sha256 : string → string) (entries : list embedded) : list migrationFile :=
  sort (less_on string_ltb mf_name)
    ((λ e, {| mf_name := en_name e; sql := content e; checksum := hex_sha256 (content e) |}) <$> filter (λ e, is_dir e = false) entries).

(** ** What is asked of Postgres *)

Inductive statement :=
| SetRole (owner : string)
| SetLockTimeout (ms : Z)
| LiftStatementTimeout
| TakeLock (key : Z)
| CreateLedger
| GrantLedger
| RunSQL (text : string)
| Record_ (version sum : string).

Inductive db_op :=
| Begin
| Exec (s : statement)
| QueryChecksums
| Commit
| Rollback
| QueryApplied.

Definition db_answer (o : db_op) : Type :=
  match o with
  | Begin | Exec _ | Commit | Rollback => result db_error ()
  | QueryChecksums => result db_error (gmap string string)
  | QueryApplied => result db_error (list AppliedMigration)
  end.

Notation P := (prog db_answer).

(** ** One migrator *)

Definition outcome : Type := result db_error (list string).

(** Returning, with the deferred rollback. *)
Definition finish (r : outcome) : P outcome := _ ← ask Rollback; mret r.

(** One statement; its error is returned, prefixed. *)
Definition exec (s : statement) (before : string) (next : P outcome) : P outcome :=
  r ← ask (Exec s);
  match r : result db_error () with Ok _ => next | Err e => finish (Err (wrapped before e)) end.

Definition changed_text (f : migrationFile) (was : string) : string :=
  "migration " +:+ mf_name f +:+ " changed after it was applied (recorded " +:+ short was +:+ ", now " +:+ short (checksum f) +:+
  "): add a new migration instead of editing an applied one".

Fixpoint apply_files (files : list migrationFile) (applied : gmap string string) (ran : list string) : P outcome :=
  match files with
  | [] =>
      r ← ask Commit;
      match r : result db_error () with Ok _ => finish (Ok ran) | Err e => finish (Err e) end
  | f :: files =>
      match applied !! mf_name f with
      | Some was => if negb (String.eqb was (checksum f)) then finish (Err (said (changed_text f was))) else apply_files files applied ran
      | None =>
          exec (RunSQL (sql f)) ("migration " +:+ mf_name f +:+ ": ")
            (exec (Record_ (mf_name f) (checksum f)) ("record migration " +:+ mf_name f +:+ ": ")
               (apply_files files applied (ran ++ [mf_name f])))
      end
  end.

Definition appliedChecksums (next : gmap string string → P outcome) : P outcome :=
  r ← ask QueryChecksums;
  match r : result db_error (gmap string string) with Ok applied => next applied | Err e => finish (Err (wrapped "read schema_migrations: " e)) end.

Definition locked (files : list migrationFile) : P outcome :=
  exec CreateLedger "create schema_migrations: "
    (exec GrantLedger "grant on schema_migrations: "
       (appliedChecksums (λ applied, apply_files files applied []))).

Definition prepare (files : list migrationFile) : P outcome :=
  exec (SetLockTimeout (migrateLockTimeout / Millisecond)) "set lock timeout: "
    (exec LiftStatementTimeout "lift statement timeout: "
       (exec (TakeLock migrateLockKey) "acquire migration lock (another migration may be running): " (locked files))).

(** [Sanitize]: the driver's quoting of a name. *)
Definition MigrateAsOwner (Sanitize : string → string) (files : list migrationFile) (owner : string) : P outcome :=
  r ← ask Begin;
  match r : result db_error () with
  | Err e => mret (Err e)
  | Ok _ =>
      if negb (String.eqb owner "") then exec (SetRole (Sanitize owner)) ("set migration owner " +:+ owner +:+ ": ") (prepare files)
      else prepare files
  end.

Definition Migrate (Sanitize : string → string) (files : list migrationFile) : P (result db_error ()) :=
  r ← MigrateAsOwner Sanitize files "";
  mret match r with Ok _ => Ok tt | Err e => Err e end.

(** ** Reports *)

Definition AppliedMigrations : P (result db_error (list AppliedMigration)) := ask QueryApplied.

Definition PendingMigrations (files : list migrationFile) : P outcome :=
  r ← ask QueryApplied;
  mret match r : result db_error (list AppliedMigration) with
  | Err e => if isUndefinedTable e then Ok (file_names files) else Err e
  | Ok applied => Ok (mf_name <$> filter (λ f, mf_name f ∉ am_Version <$> applied) files)
  end.

(** ** The database, with many migrators

    What is committed: whether the ledger is there, and the migrations run and
    recorded, oldest first.  A transaction has its own of both until it commits;
    the advisory lock is held to the end of the transaction that took it. *)

Record ledger_row := { row_version : string; row_sum : string }.

Record txn := { made_ledger : bool; did : list string; recorded : list ledger_row }.
Record database := { has_ledger : bool; scripts : list string; ledger : list ledger_row; lock : option nat; txns : gmap nat txn }.

Definition rows_map (l : list ledger_row) : gmap string string := foldl (λ m r, <[row_version r := row_sum r]> m) ∅ l.

Definition with_txn (d : database) (p : nat) (t : txn) : database :=
  {| has_ledger := has_ledger d; scripts := scripts d; ledger := ledger d; lock := lock d; txns := <[p := t]> (txns d) |}.

Definition unlocked (d : database) (p : nat) : option nat := if decide (lock d = Some p) then None else lock d.

(** The transaction is over, and left nothing. *)
Definition dropped (d : database) (p : nat) : database :=
  {| has_ledger := has_ledger d; scripts := scripts d; ledger := ledger d; lock := unlocked d p; txns := delete p (txns d) |}.

Definition published (d : database) (p : nat) (t : txn) : database :=
  {| has_ledger := has_ledger d || made_ledger t; scripts := scripts d ++ did t; ledger := ledger d ++ recorded t; lock := unlocked d p; txns := delete p (txns d) |}.

(** What a statement does, in the transaction [t] of its process.  The lock is
    waited for; a version is recorded once. *)
Inductive does (d : database) (p : nat) (t : txn) : statement → database → Prop :=
| d_set s : match s with SetRole _ | SetLockTimeout _ | LiftStatementTimeout | GrantLedger => True | _ => False end → does d p t s d
| d_lock k : lock d = None ∨ lock d = Some p →
    does d p t (TakeLock k) {| has_ledger := has_ledger d; scripts := scripts d; ledger := ledger d; lock := Some p; txns := txns d |}
| d_create : does d p t CreateLedger (with_txn d p {| made_ledger := true; did := did t; recorded := recorded t |})
| d_run x : does d p t (RunSQL x) (with_txn d p {| made_ledger := made_ledger t; did := did t ++ [x]; recorded := recorded t |})
| d_record v c : has_ledger d || made_ledger t = true → v ∉ row_version <$> ledger d ++ recorded t →
    does d p t (Record_ v c) (with_txn d p {| made_ledger := made_ledger t; did := did t; recorded := recorded t ++ [{| row_version := v; row_sum := c |}] |}).

(** What Postgres may answer a process, and become.  Anything may fail; a commit
    whose answer is lost was made, or was not. *)
Definition serve (d : database) (p : nat) (o : db_op) : db_answer o → database → Prop :=
  match o return db_answer o → database → Prop with
  | Begin => λ r d',
      match r with
      | Ok _ => txns d !! p = None ∧ d' = with_txn d p {| made_ledger := false; did := []; recorded := [] |}
      | Err _ => d' = d
      end
  | Exec s => λ r d', match r with Ok _ => ∃ t, txns d !! p = Some t ∧ does d p t s d' | Err _ => d' = d end
  | QueryChecksums => λ r d',
      d' = d ∧ match r with Ok m => ∃ t, txns d !! p = Some t ∧ has_ledger d || made_ledger t = true ∧ m = rows_map (ledger d ++ recorded t) | Err _ => True end
  | Commit => λ r d',
      match r with Ok _ => False | Err _ => d' = dropped d p end ∨ ∃ t, txns d !! p = Some t ∧ d' = published d p t
  | Rollback => λ _ d', d' = dropped d p
  | QueryApplied => λ _ d', d' = d
  end.

(** One call of a program, and how it goes on. *)
Definition calls (d : database) (p : nat) (c c' : P outcome) (d' : database) : Prop :=
  match c with Ret _ _ => False | Do _ o k => ∃ x, serve d p o x d' ∧ c' = k x end.

(** Migrators, each with the files of its own build, take turns with one call.
    A process may die, and a connection, which ends its transaction. *)
Record system := { db : database; procs : gmap nat (P outcome) }.

Inductive step (s : system) : system → Prop :=
| step_call p c c' d : procs s !! p = Some c → calls (db s) p c c' d → step s {| db := d; procs := <[p := c']> (procs s) |}
| step_lost p : step s {| db := dropped (db s) p; procs := procs s |}
| step_dies p : step s {| db := dropped (db s) p; procs := delete p (procs s) |}.

(** ** One migration after another *)

Definition row_of (f : migrationFile) : ledger_row := {| row_version := mf_name f; row_sum := checksum f |}.

(** The files a database that has had [l] run has not. *)
Definition pending (files l : list migrationFile) : list migrationFile := filter (λ f, mf_name f ∉ file_names l) files.

(** No file has been edited since it was run. *)
Definition agrees (files l : list migrationFile) : Prop := ∀ f g, f ∈ files → g ∈ l → mf_name f = mf_name g → checksum f = checksum g.

Lemma rows_map_snoc l r : rows_map (l ++ [r]) = <[row_version r := row_sum r]> (rows_map l).
Proof. unfold rows_map. by rewrite foldl_app. Qed.

Lemma rows_map_None l v : rows_map l !! v = None ↔ v ∉ row_version <$> l.
Proof.
  induction l as [|r l IH] using rev_ind; [split; [by intros _ ?%elem_of_nil|done]|]. rewrite rows_map_snoc, fmap_app, not_elem_of_app, <- IH. cbn.
  destruct (decide (v = row_version r)) as [->|Hne]; [rewrite lookup_insert_eq; split; [done|]; intros [_ H]; destruct H; by left|].
  rewrite lookup_insert_ne by done. split; [intros H; split; [done|]; by intros ?%list_elem_of_singleton|by intros [? _]].
Qed.

Lemma rows_map_Some l v c : rows_map l !! v = Some c → {| row_version := v; row_sum := c |} ∈ l.
Proof.
  induction l as [|r l IH] using rev_ind; [done|]. rewrite rows_map_snoc, elem_of_app. destruct (decide (v = row_version r)) as [->|Hne].
  - rewrite lookup_insert_eq. intros [= <-]. right. apply list_elem_of_singleton. by destruct r.
  - rewrite lookup_insert_ne by done. intros H. left. by apply IH.
Qed.

(** Among the rows of migrations named once, a name says the checksum. *)
Lemma recorded_sum l n c g : NoDup (file_names l) → rows_map (row_of <$> l) !! n = Some c → g ∈ l → mf_name g = n → checksum g = c.
Proof.
  intros Hn H Hg E. apply rows_map_Some, list_elem_of_fmap in H as (h & Hh & Hin). injection Hh as Hv Hc. rewrite Hc. f_equal.
  apply list_elem_of_lookup in Hg as [i Hi], Hin as [j Hj].
  assert (i = j) as ->; [|congruence].
  apply (NoDup_lookup (file_names l) i j n Hn); unfold file_names; rewrite list_lookup_fmap; [by rewrite Hi; cbn; rewrite E|by rewrite Hj; cbn; rewrite <- Hv].
Qed.

Lemma unrecorded_name l n : rows_map (row_of <$> l) !! n = None ↔ n ∉ file_names l.
Proof. rewrite rows_map_None. unfold file_names. by rewrite <- list_fmap_compose. Qed.

Lemma recorded_name l n c : rows_map (row_of <$> l) !! n = Some c → n ∈ file_names l.
Proof. intros H. destruct (decide (n ∈ file_names l)) as [|Hn]; [done|]. apply unrecorded_name in Hn. congruence. Qed.

Lemma pending_snoc files l f : pending (files ++ [f]) l = pending files l ++ (if decide (mf_name f ∉ file_names l) then [f] else []).
Proof. unfold pending. by rewrite filter_app, filter_cons. Qed.

Section migrators.
Context (Sanitize : string → string) (files : nat → list migrationFile) (owner : nat → string).
(** The names of a directory's entries differ. *)
Context (Hfiles : ∀ p, NoDup (file_names (files p))).

(** What a database that had [l0] run has had run: whole migrations, one after
    another, each of what its process's files have and those before had not;
    with the names each ran. *)
Inductive serial (l0 : list migrationFile) : list (nat * list string) → list migrationFile → Prop :=
| serial_none : serial l0 [] l0
| serial_next h p l : serial l0 h l → p ∉ (fst <$> h : list nat) → agrees (files p) l →
    serial l0 (h ++ [(p, file_names (pending (files p) l))]) (l ++ pending (files p) l).

Lemma serial_NoDup l0 h l : NoDup (file_names l0) → serial l0 h l → NoDup (file_names l).
Proof.
  intros H0. induction 1 as [|h p l _ IH _ _]; [done|]. unfold file_names in *. rewrite fmap_app. apply NoDup_app. split_and!; [done| |].
  - intros n Hn (f & -> & Hf)%list_elem_of_fmap. by apply list_elem_of_filter in Hf as [Hf _].
  - eapply sublist_NoDup; [apply (Hfiles p)|]. apply fmap_sublist. apply sublist_filter.
Qed.

(** *** Where a migrator is *)

Definition started (p : nat) : P outcome := MigrateAsOwner Sanitize (files p) (owner p).

(** The statements before the lock, and between it and the ledger. *)
Inductive setup (fs : list migrationFile) : bool → P outcome → Prop :=
| su_set held s b next :
    match s with SetRole _ | SetLockTimeout _ | LiftStatementTimeout | CreateLedger | GrantLedger => True | _ => False end →
    setup fs held next → setup fs held (exec s b next)
| su_lock k b next : setup fs true next → setup fs false (exec (TakeLock k) b next)
| su_query : setup fs true (appliedChecksums (λ applied, apply_files fs applied [])).

(** What a transaction under the lock has done, once [before] is dealt with. *)
Record halfway (l : list migrationFile) (d : database) (p : nat) (t : txn) (before : list migrationFile) (applied : gmap string string) (ran : list string) : Prop := {
  holds_lock : lock d = Some p;
  knows : applied = rows_map (row_of <$> l);
  unedited : agrees before l;
  recorded_so : recorded t = row_of <$> pending before l;
  ran_so : ran = file_names (pending before l) }.

Inductive stage (h : list (nat * list string)) (l : list migrationFile) (d : database) (p : nat) : P outcome → Prop :=
| st_begin : p ∉ (fst <$> h) → stage h l d p (started p)
| st_setup held c : setup (files p) held c → p ∉ (fst <$> h) →
    (∀ t, txns d !! p = Some t → did t = [] ∧ recorded t = [] ∧ (held = true → lock d = Some p)) → stage h l d p c
| st_files before rest applied ran : files p = before ++ rest → p ∉ (fst <$> h) →
    (∀ t, txns d !! p = Some t → halfway l d p t before applied ran ∧ did t = sql <$> pending before l) →
    stage h l d p (apply_files rest applied ran)
| st_record before f rest applied ran b : files p = before ++ f :: rest → p ∉ (fst <$> h) →
    (∀ t, txns d !! p = Some t → halfway l d p t before applied ran ∧ mf_name f ∉ file_names l ∧ did t = (sql <$> pending before l) ++ [sql f]) →
    stage h l d p (exec (Record_ (mf_name f) (checksum f)) b (apply_files rest applied (ran ++ [mf_name f])))
| st_finish r : (∀ ran, r = Ok ran → (p, ran) ∈ h) → stage h l d p (finish r)
| st_over r : (∀ ran, r = Ok ran → (p, ran) ∈ h) → stage h l d p (mret r : P outcome).

(** The process goes on, having published nothing, or all that its files had pending. *)
Definition goes_on (h : list (nat * list string)) (l : list migrationFile) (d : database) (p : nat) (c : P outcome) (d' : database) : Prop :=
  (stage h l d' p c ∧ scripts d' = scripts d ∧ ledger d' = ledger d) ∨
  (lock d = Some p ∧ p ∉ (fst <$> h) ∧ agrees (files p) l ∧
   stage (h ++ [(p, file_names (pending (files p) l))]) (l ++ pending (files p) l) d' p c ∧
   scripts d' = scripts d ++ (sql <$> pending (files p) l) ∧ ledger d' = ledger d ++ (row_of <$> pending (files p) l)).

Lemma goes_failed h l d p e : goes_on h l d p (finish (Err e)) d.
Proof. left. by split_and!; [constructor|..]. Qed.

(** A statement of the setup: it fails, or leaves the transaction clean. *)
Lemma goes_set h l d p held s b next c' d' :
  match s with SetRole _ | SetLockTimeout _ | LiftStatementTimeout | CreateLedger | GrantLedger => True | _ => False end →
  setup (files p) held next → p ∉ (fst <$> h) →
  (∀ t, txns d !! p = Some t → did t = [] ∧ recorded t = [] ∧ (held = true → lock d = Some p)) →
  calls d p (exec s b next) c' d' → goes_on h l d p c' d'.
Proof.
  intros Hs Hn Hp Ht (x & Hx & ->). destruct x as [[]|e]; cbn in *; [|subst; apply goes_failed].
  destruct Hx as (t & E & D). destruct (Ht t E) as (D1 & D2 & D3). left. inversion D; subst; try done.
  - split_and!; [by apply (st_setup _ _ _ _ held)|done..].
  - split_and!; [|done..]. apply (st_setup _ _ _ _ held); [done..|]. cbn. intros t'. rewrite lookup_insert_eq. by intros [= <-].
Qed.

Lemma halfway_mono l d d' p t t' before applied ran : halfway l d p t before applied ran → lock d' = lock d → recorded t' = recorded t → halfway l d' p t' before applied ran.
Proof. intros [] E1 E2. split; [congruence..|done|congruence|done]. Qed.

(** The migrations, from any point of them. *)
Lemma goes_files h l d p before rest applied ran c' d' :
  NoDup (file_names l) → files p = before ++ rest → p ∉ (fst <$> h) →
  (∀ t, txns d !! p = Some t → halfway l d p t before applied ran ∧ did t = sql <$> pending before l) →
  calls d p (apply_files rest applied ran) c' d' → goes_on h l d p c' d'.
Proof.
  intros Hl. revert before. induction rest as [|f rest IH]; intros before Hf Hp Ht; cbn [apply_files].
  - rewrite app_nil_r in Hf. subst before. intros (x & Hx & ->). destruct Hx as [Hx|(t & E & ->)].
    + destruct x as [|e]; [done|]. cbn in *. subst. left. by split_and!; [constructor|..].
    + destruct (Ht t E) as [[H1 H2 H3 H4 H5] H6]. right. cbn. rewrite H4, H6. split_and!; try done.
      destruct x as [[]|e]; constructor; [|done]. intros r [= <-]. rewrite H5. apply elem_of_app. right. by apply list_elem_of_singleton.
  - destruct (applied !! mf_name f) as [was|] eqn:Ha.
    + destruct (String.eqb_spec was (checksum f)) as [->|]; cbn; [|intros (x & Hx & ->); cbn in Hx; subst; left; by split_and!; [constructor|..]].
      apply (IH (before ++ [f])); [by rewrite <- (assoc_L (++))|done|]. intros t E. destruct (Ht t E) as [[H1 H2 H3 H4 H5] H6].
      rewrite H2 in Ha. assert (HE : pending (before ++ [f]) l = pending before l).
      { rewrite pending_snoc, decide_False; [apply app_nil_r|]. intros []. by eapply recorded_name. }
      split; [split|]; rewrite ?HE; try done. intros f' g [Hf'| ->%list_elem_of_singleton]%elem_of_app Hg E'; [by apply H3|].
      symmetry. by eapply recorded_sum.
    + intros (x & Hx & ->). destruct x as [[]|e]; cbn in *; [|subst; apply goes_failed]. destruct Hx as (t & E & D). left. inversion D; subst; [done|].
      split_and!; [|done..]. eapply st_record; [done..|]. cbn. intros t'. rewrite lookup_insert_eq. intros [= <-]. destruct (Ht t E) as [H H6].
      split_and!; [by eapply halfway_mono| |cbn; by rewrite H6]. rewrite (knows _ _ _ _ _ _ _ H) in Ha. by apply unrecorded_name.
Qed.

Lemma goes_record h l d p before f rest applied ran b c' d' :
  files p = before ++ f :: rest → p ∉ (fst <$> h) →
  (∀ t, txns d !! p = Some t → halfway l d p t before applied ran ∧ mf_name f ∉ file_names l ∧ did t = (sql <$> pending before l) ++ [sql f]) →
  calls d p (exec (Record_ (mf_name f) (checksum f)) b (apply_files rest applied (ran ++ [mf_name f]))) c' d' → goes_on h l d p c' d'.
Proof.
  intros Hf Hp Ht (x & Hx & ->). destruct x as [[]|e]; cbn in *; [|subst; apply goes_failed]. destruct Hx as (t & E & D). left. inversion D; subst; [done|].
  split_and!; [|done..]. apply (st_files _ _ _ _ (before ++ [f])); [by rewrite <- (assoc_L (++))|done|]. cbn. intros t'. rewrite lookup_insert_eq. intros [= <-].
  destruct (Ht t E) as ([K1 K2 K3 K4 K5] & K6 & K7). cbn.
  assert (HE : pending (before ++ [f]) l = pending before l ++ [f]) by (by rewrite pending_snoc, decide_True).
  split; [split|]; rewrite ?HE; cbn; try done.
  - intros f' g [Hf'| ->%list_elem_of_singleton]%elem_of_app Hg E'; [by apply K3|]. destruct K6. rewrite E'. by apply list_elem_of_fmap_2.
  - by rewrite K4, fmap_app.
  - unfold file_names in *. by rewrite K5, fmap_app.
  - by rewrite K7, fmap_app.
Qed.

Lemma setup_prepare fs : setup fs false (prepare fs).
Proof. unfold prepare, locked. repeat first [apply su_lock | apply su_query | apply su_set; [done|]]. Qed.

(** Each call goes on from a stage to a stage. *)
Lemma stage_goes_on h l d p c c' d' :
  NoDup (file_names l) → ledger d = row_of <$> l → stage h l d p c → calls d p c c' d' → goes_on h l d p c' d'.
Proof.
  intros Hl Hd [Hp|held c0 Hc Hp Ht|before rest applied ran Hf Hp Ht|before f rest applied ran b Hf Hp Ht|r Hr|r Hr] H.
  - destruct H as (x & Hx & ->). cbn. destruct x as [[]|e]; cbn in *; [|subst; left; split_and!; [by apply st_over|done..]]. destruct Hx as [_ ->].
    left. split_and!; [|done..].
    assert (∀ t, txns (with_txn d p {| made_ledger := false; did := []; recorded := [] |}) !! p = Some t → did t = [] ∧ recorded t = [] ∧ (false = true → lock d = Some p)).
    { cbn. intros t. rewrite lookup_insert_eq. by intros [= <-]. }
    destruct (negb _); apply (st_setup _ _ _ _ false); try done; [apply su_set; [done|]|]; apply setup_prepare.
  - destruct Hc as [held s b next Hs Hn|k b next Hn|].
    + by eapply goes_set.
    + destruct H as (x & Hx & ->). destruct x as [[]|e]; cbn in *; [|subst; apply goes_failed]. destruct Hx as (t & E & D). inversion D; subst; [done|].
      left. split_and!; [|done..]. apply (st_setup _ _ _ _ true); [done..|]. cbn. intros t' E'. destruct (Ht t' E') as (? & ? & ?). done.
    + destruct H as (x & (-> & Hx) & ->). destruct x as [m|e]; cbn; [|apply goes_failed]. left. split_and!; [|done..].
      apply (st_files _ _ _ _ []); [done..|]. intros t E. destruct (Ht t E) as (D1 & D2 & D3). destruct Hx as (t' & E' & _ & ->). simplify_eq.
      split; [|done]. split; [by apply D3|by rewrite D2, app_nil_r, Hd| |done|done]. intros f g Hf. by apply elem_of_nil in Hf.
  - by eapply goes_files.
  - by eapply goes_record.
  - destruct H as (x & -> & ->). cbn. left. split_and!; [by apply st_over|done..].
  - done.
Qed.

(** What another's step leaves of a stage. *)
Lemma stage_frame h l d p c h' l' d' :
  stage h l d p c → (∀ t, txns d' !! p = Some t → txns d !! p = Some t ∧ (lock d = Some p → lock d' = Some p ∧ l' = l)) →
  (∀ x, x ∈ h → x ∈ h') → (p ∉ (fst <$> h) → p ∉ (fst <$> h')) → stage h' l' d' p c.
Proof.
  intros [Hp|held c0 Hc Hp Ht|before rest applied ran Hf Hp Ht|before f rest applied ran b Hf Hp Ht|r Hr|r Hr] Hd Hh Hn.
  - apply st_begin. by apply Hn.
  - apply (st_setup _ _ _ _ held); [done|by apply Hn|]. intros t E. destruct (Hd t E) as [E' HL]. destruct (Ht t E') as (? & ? & Hk).
    split_and!; [done..|]. intros Hheld. by apply HL, Hk.
  - apply (st_files _ _ _ _ before); [done|by apply Hn|]. intros t E. destruct (Hd t E) as [E' HL]. destruct (Ht t E') as [Hw Hs].
    destruct (HL (holds_lock _ _ _ _ _ _ _ Hw)) as [L ->]. split; [|done]. eapply halfway_mono; [done| |done]. rewrite L. symmetry. by eapply holds_lock.
  - apply (st_record _ _ _ _ before); [done|by apply Hn|]. intros t E. destruct (Hd t E) as [E' HL]. destruct (Ht t E') as (Hw & Hs).
    destruct (HL (holds_lock _ _ _ _ _ _ _ Hw)) as [L ->]. split; [|done]. eapply halfway_mono; [done| |done]. rewrite L. symmetry. by eapply holds_lock.
  - apply st_finish. intros ran E. by apply Hh, Hr.
  - apply st_over. intros ran E. by apply Hh, Hr.
Qed.

Lemma dropped_frame d p q : q ≠ p → txns (dropped d p) !! q = txns d !! q ∧ (lock d = Some q → lock (dropped d p) = Some q).
Proof. intros Hq. cbn. rewrite lookup_delete_ne by done. split; [done|]. unfold unlocked. intros ->. rewrite decide_False; congruence. Qed.

Lemma calls_frame d p c c' d' q : calls d p c c' d' → q ≠ p → txns d' !! q = txns d !! q ∧ (lock d = Some q → lock d' = Some q).
Proof.
  destruct c as [|o k]; [done|]. intros (x & Hx & _) Hq. pose proof (dropped_frame d p q Hq) as HD. destruct o as [|s| | | |]; cbn in x, Hx.
  - destruct x; [destruct Hx as [_ ->]|by subst]. cbn. by rewrite lookup_insert_ne.
  - destruct x; [|by subst]. destruct Hx as (t & _ & D). destruct D as [| k' [HL|HL] | | |]; cbn; rewrite ?lookup_insert_ne by done; try done; (split; [done|congruence]).
  - destruct Hx as [-> _]. done.
  - destruct Hx as [Hx|(t & _ & ->)]; [|exact HD]. destruct x; [done|]. by subst.
  - by subst.
  - by subst.
Qed.

(** *** Every reachable state *)

Definition sound (l0 : list migrationFile) (s : system) : Prop :=
  ∃ h l, serial l0 h l ∧ scripts (db s) = sql <$> l ∧ ledger (db s) = row_of <$> l ∧ ∀ p c, procs s !! p = Some c → stage h l (db s) p c.

Lemma step_keeps_sound l0 s s' : NoDup (file_names l0) → sound l0 s → step s s' → sound l0 s'.
Proof.
  intros H0 (h & l & Hs & H1 & H2 & H3) [p c c' d Hc Hk|p|p]; cbn.
  - pose proof (serial_NoDup l0 h l H0 Hs) as Hl. pose proof (λ q, calls_frame _ _ _ _ _ q Hk) as HF.
    destruct (stage_goes_on h l _ p c c' d Hl H2 (H3 p c Hc) Hk) as [(Hg & E1 & E2)|(HL & Hp & Ha & Hg & E1 & E2)].
    + exists h, l. cbn. split_and!; [done|congruence..|]. intros q cq [[<- <-]|[Hq E]]%lookup_insert_Some; [done|].
      eapply stage_frame; [by apply H3| |done|done]. destruct (HF q) as [HT HK]; [done|]. intros t. rewrite HT. intros Ht. split; [done|]. intros HKq. split; [by apply HK|done].
    + exists (h ++ [(p, file_names (pending (files p) l))]), (l ++ pending (files p) l). cbn. split_and!; [by apply serial_next|by rewrite E1, H1, fmap_app|by rewrite E2, H2, fmap_app|].
      intros q cq [[<- <-]|[Hq E]]%lookup_insert_Some; [done|].
      eapply stage_frame; [by apply H3| | |].
      * destruct (HF q) as [HT HK]; [done|]. intros t. rewrite HT. intros Ht. split; [done|]. intros HKq. congruence.
      * intros x Hx. apply elem_of_app. by left.
      * rewrite fmap_app. intros Hn. apply not_elem_of_app. split; [done|]. by intros ?%list_elem_of_singleton.
  - exists h, l. cbn. split_and!; [done..|]. intros q cq E. eapply stage_frame; [by apply H3| |done|done].
    cbn. intros t [Hq Ht]%lookup_delete_Some. split; [done|]. intros HK. split; [|done]. by apply (dropped_frame (db s) p q).
  - exists h, l. cbn. split_and!; [done..|]. intros q cq [Hq E]%lookup_delete_Some. eapply stage_frame; [by apply H3| |done|done].
    cbn. intros t [_ Ht]%lookup_delete_Some. split; [done|]. intros HK. split; [|done]. by apply (dropped_frame (db s) p q).
Qed.

Lemma runs_sound l0 s s' : NoDup (file_names l0) → sound l0 s → rtc step s s' → sound l0 s'.
Proof. intros H0 H. induction 1 as [|s s1 s2 Hs _ IH]; [done|]. apply IH. by eapply step_keeps_sound. Qed.

Lemma stage_returned h l d p c : stage h l d p c → match c with Ret _ r => ∀ ran, r = Ok ran → (p, ran) ∈ h | Do _ _ _ => True end.
Proof.
  intros [Hp|held c0 [] Hp Ht|before rest applied ran Hf Hp Ht|before f rest applied ran b Hf Hp Ht|r Hr|r Hr]; try exact I; [|done].
  clear Ht Hf. revert ran. induction rest as [|f rest IH]; intros ran; cbn [apply_files]; [exact I|].
  destruct (applied !! mf_name f); [|exact I]. destruct (negb _); [exact I|apply IH].
Qed.

(** A database no one is migrating, and processes about to. *)
Definition starting (l0 : list migrationFile) (s : system) : Prop :=
  NoDup (file_names l0) ∧ scripts (db s) = sql <$> l0 ∧ ledger (db s) = row_of <$> l0 ∧ txns (db s) = ∅ ∧
  ∀ p c, procs s !! p = Some c → c = started p.

(** C13. However many processes migrate at once, whatever fails, and whoever dies or
    loses its connection at whatever call, the migrations a database has run and
    those its ledger names are the same, in the same order, none twice: what whole
    migrations, one after another, would have made, each of what the ledger then
    lacked and none against a file that had changed.  And a process that returns
    without error was one of them, and returns what it ran itself. *)
Theorem migrators_are_serial l0 s s' (H0 : starting l0 s) (Hr : rtc step s s') :
  ∃ h l, serial l0 h l ∧ NoDup (file_names l) ∧ NoDup (fst <$> h) ∧ scripts (db s') = sql <$> l ∧ ledger (db s') = row_of <$> l ∧
  ∀ p ran, procs s' !! p = Some (mret (Ok ran) : P outcome) → (p, ran) ∈ h.
Proof.
  destruct H0 as (Hl & E1 & E2 & _ & Hp).
  assert (sound l0 s') as (h & l & Hs & H1 & H2 & H3).
  { eapply runs_sound; [done| |done]. exists [], l0. split_and!; [constructor|done..|]. intros p c ->%Hp. apply st_begin. apply not_elem_of_nil. }
  exists h, l. split_and!; [done|by eapply serial_NoDup| |done..|].
  - clear -Hs. induction Hs as [|h p l _ IH Hp _]; [constructor|]. rewrite fmap_app. apply NoDup_app. split_and!; [done| |apply NoDup_singleton].
    by intros x Hx ->%list_elem_of_singleton.
  - intros p ran E. apply H3, stage_returned in E. by apply E.
Qed.
End migrators.

(** ** A database that does what it can *)

Definition perform (d : database) (p : nat) (t : txn) (s : statement) : option database :=
  match s with
  | SetRole _ | SetLockTimeout _ | LiftStatementTimeout | GrantLedger => Some d
  | TakeLock _ =>
      if bool_decide (lock d = None ∨ lock d = Some p)
      then Some {| has_ledger := has_ledger d; scripts := scripts d; ledger := ledger d; lock := Some p; txns := txns d |} else None
  | CreateLedger => Some (with_txn d p {| made_ledger := true; did := did t; recorded := recorded t |})
  | RunSQL x => Some (with_txn d p {| made_ledger := made_ledger t; did := did t ++ [x]; recorded := recorded t |})
  | Record_ v c =>
      if bool_decide (has_ledger d || made_ledger t = true ∧ v ∉ row_version <$> ledger d ++ recorded t)
      then Some (with_txn d p {| made_ledger := made_ledger t; did := did t; recorded := recorded t ++ [{| row_version := v; row_sum := c |}] |}) else None
  end.

Definition no_answer : db_error := said "canceling statement due to lock timeout".

Definition answer (d : database) (p : nat) (o : db_op) : db_answer o * database :=
  match o with
  | Begin =>
      match txns d !! p with
      | None => (Ok tt, with_txn d p {| made_ledger := false; did := []; recorded := [] |})
      | Some _ => (Err no_answer, d)
      end
  | Exec s => match txns d !! p ≫= λ t, perform d p t s with Some d => (Ok tt, d) | None => (Err no_answer, d) end
  | QueryChecksums =>
      match txns d !! p with
      | Some t => if has_ledger d || made_ledger t then (Ok (rows_map (ledger d ++ recorded t)), d) else (Err no_answer, d)
      | None => (Err no_answer, d)
      end
  | Commit => match txns d !! p with Some t => (Ok tt, published d p t) | None => (Err no_answer, dropped d p) end
  | Rollback => (Ok tt, dropped d p)
  | QueryApplied => (Ok ((λ r, {| am_Version := row_version r; am_Checksum := row_sum r; am_AppliedAt := 0 |}) <$> ledger d), d)
  end.

Lemma perform_does d p t s d' : perform d p t s = Some d' → does d p t s d'.
Proof.
  destruct s; cbn; try (intros [= <-]; by constructor).
  - case_bool_decide; [|done]. intros [= <-]. by constructor.
  - case_bool_decide as H; [|done]. destruct H. intros [= <-]. by constructor.
Qed.

Lemma answer_serves d p o : serve d p o (answer d p o).1 (answer d p o).2.
Proof.
  destruct o as [|s| | | |]; cbn; try done.
  - by destruct (txns d !! p) eqn:E.
  - destruct (txns d !! p) as [t|] eqn:E; cbn; [|done]. destruct (perform d p t s) as [d'|] eqn:D; cbn; [|done]. exists t. split; [done|]. by apply perform_does.
  - destruct (txns d !! p) as [t|] eqn:E; [|done]. destruct (_ || _) eqn:L; [|done]. split; [done|]. by exists t.
  - destruct (txns d !! p) as [t|] eqn:E; [|by left]. right. by exists t.
Qed.

(** The processes' calls, in this order. *)
Fixpoint turns (ps : list nat) (s : system) : system :=
  match ps with
  | [] => s
  | p :: ps =>
      turns ps match procs s !! p with
               | Some (Do _ o k) => {| db := (answer (db s) p o).2; procs := <[p := k (answer (db s) p o).1]> (procs s) |}
               | _ => s
               end
  end.

Lemma turns_steps ps s : rtc step s (turns ps s).
Proof.
  revert s. induction ps as [|p ps IH]; intros s; cbn; [constructor|]. destruct (procs s !! p) as [[a|o k]|] eqn:E; [apply IH| |apply IH].
  eapply rtc_l; [|apply IH]. eapply step_call; [done|]. exists (answer (db s) p o).1. split; [apply answer_serves|done].
Qed.

(** ** Two deploys at once *)

Module Sample.

Definition a_file : migrationFile := {| mf_name := "001_hosts.sql"; sql := "CREATE TABLE hosts"; checksum := "aa" |}.
Definition b_file : migrationFile := {| mf_name := "002_kind.sql"; sql := "ALTER TABLE hosts"; checksum := "bb" |}.
Definition builds (p : nat) : list migrationFile := if decide (p = O) then [a_file] else [a_file; b_file].
Definition no_owner (_ : nat) : string := "".
Definition as_is (s : string) : string := s.

Definition fresh_db : database := {| has_ledger := false; scripts := []; ledger := []; lock := None; txns := ∅ |}.
Definition two : system := {| db := fresh_db; procs := <[0%nat := started as_is builds no_owner 0]> (<[1%nat := started as_is builds no_owner 1]> ∅) |}.

(** The second begins while the first holds the lock, and finds [a_file] done. *)
Definition order : list nat := [0; 1; 0; 1; 0; 0; 0; 0; 0; 1; 0; 0; 0; 0; 1; 1; 1; 1; 1; 1; 1; 1]%nat.

Lemma builds_NoDup p : NoDup (file_names (builds p)).
Proof. unfold builds. destruct (decide _); vm_compute; repeat constructor; set_solver. Qed.

Lemma migrators_are_serial_witness :
  procs (turns order two) !! 1%nat = Some (mret (Ok ["002_kind.sql"])) ∧
  ∃ h l, serial builds [] h l ∧ NoDup (file_names l) ∧ NoDup (fst <$> h) ∧ scripts (db (turns order two)) = sql <$> l ∧ ledger (db (turns order two)) = row_of <$> l ∧
  ∀ p ran, procs (turns order two) !! p = Some (mret (Ok ran) : P outcome) → (p, ran) ∈ h.
Proof.
  split; [vm_compute; reflexivity|].
  apply (migrators_are_serial as_is builds no_owner builds_NoDup [] two); [|apply turns_steps].
  split_and!; [constructor|done..|]. cbn. intros p c [[<- <-]|[_ [[<- <-]|[_ H]]%lookup_insert_Some]]%lookup_insert_Some; done.
Defined.
End Sample.
