(* ===== verification/Inventory.v ===== *)
(** The inventory's edits (src/internal/store/dcedit.go, the upserts of
    store.go, and the add and edit commands of src/internal/cli): the statements
    as what they do to the tables, a database that may fail any of them, and the
    commands over both. *)

From Stdlib Require Import Ascii String.
From S2P Require Import Prelude GoStrings GoFormat NetIP OpenStackFold InvCache.
Local Open Scope Z_scope.
Local Open Scope record_scope.

(** ** Tables *)

(** The tables whose rows are a server's, and go with it by a foreign key.
    [o_key1] and [o_key2] are the rest of the primary key: interface and peer for
    WireGuard, kind and role for a capability, deployment for a membership. *)
Inductive owned_table :=
| server_status | server_capabilities | openstack_memberships | server_specs | server_assets | wg_interfaces | wg_peers | wg_peer_status.

#[export] Instance owned_table_eq_dec : EqDecision owned_table.
Proof. solve_decision. Defined.

Record annotation := { public_key : string; inventory_host : string; parent_hostname : string; an_rest : string }.
Record allocation := { al_ip : string; al_hostname : string; al_rest : string }.
(** access_log, audit_session, kernel_event and node_access_audit. *)
Record audit_row := { au_hostname : string; au_rest : string }.

Definition HostStates : list string := [StateActive; StateMaintenance; "broken"; StateRetired].
Definition ValidState (s : string) : bool := slices_Contains HostStates s.

Section tables.
(** Postgres's address type. *)
Context {inet : Type}.

Record server_row := {
  hostname : string; ip : inet; ssh_port : Z; ssh_user : string; jump_via : option string; dc : string; ca_role : string;
  last_seen_up : option time_t; state : string; extra_ips : list inet;
}.
#[export] Instance server_rebuild : Rebuild server_row := λ r,
  {| hostname := hostname r; ip := ip r; ssh_port := ssh_port r; ssh_user := ssh_user r; jump_via := jump_via r; dc := dc r; ca_role := ca_role r;
     last_seen_up := last_seen_up r; state := state r; extra_ips := extra_ips r |}.

(** [observed_ips]: of a server_status row. *)
Record owned_row := { o_table : owned_table; o_host : string; o_key1 : string; o_key2 : string; observed_ips : list inet; o_rest : string }.
#[export] Instance owned_rebuild : Rebuild owned_row := λ r,
  {| o_table := o_table r; o_host := o_host r; o_key1 := o_key1 r; o_key2 := o_key2 r; observed_ips := observed_ips r; o_rest := o_rest r |}.

Record inventory := { servers : list server_row; owned : list owned_row; annotations : list annotation; allocations : list allocation; audits : list audit_row }.
#[export] Instance inventory_rebuild : Rebuild inventory := λ d,
  {| servers := servers d; owned := owned d; annotations := annotations d; allocations := allocations d; audits := audits d |}.

Definition hostnames (d : inventory) : list string := hostname <$> servers d.

(** ** Statements *)

(** UPDATE servers SET ... WHERE hostname=$1, and the number of rows. *)
Definition update_server (h : string) (f : server_row → server_row) (d : inventory) : inventory * nat :=
  (d <| servers := (λ r, if String.eqb (hostname r) h then f r else r) <$> servers d |>, length (filter (λ r, hostname r = h) (servers d))).

(** The foreign keys: [c] belongs to [p]. *)
Definition child_of (p c : owned_row) : bool :=
  String.eqb (o_host p) (o_host c) && String.eqb (o_key1 p) (o_key1 c) &&
  match o_table p, o_table c with
  | wg_interfaces, wg_peers => true
  | wg_peers, wg_peer_status => String.eqb (o_key2 p) (o_key2 c)
  | _, _ => false
  end.

(** The rows an update or a delete of the rows [hit] takes along. *)
Definition cascade (hit : owned_row → bool) (rows : list owned_row) (r : owned_row) : bool :=
  hit r || existsb (λ p, child_of p r && (hit p || existsb (λ q, child_of q p && hit q) rows)) rows.

Definition delete_owned (hit : owned_row → bool) (d : inventory) : inventory :=
  d <| owned := filter (λ r, cascade hit (owned d) r = false) (owned d) |>.

Definition references_servers (t : owned_table) : bool := match t with wg_peers | wg_peer_status => false | _ => true end.

Definition delete_server (h : string) (d : inventory) : inventory * nat :=
  if bool_decide (h ∈ hostnames d) then
    ((delete_owned (λ r, references_servers (o_table r) && String.eqb (o_host r) h) d) <| servers := filter (λ r, hostname r ≠ h) (servers d) |>, 1%nat)
  else (d, 0%nat).

Definition renamed_to (old new s : string) : string := if String.eqb s old then new else s.

Definition owned_key (r : owned_row) : owned_table * string * string * string := (o_table r, o_host r, o_key1 r, o_key2 r).

(** UPDATE servers SET hostname=$2 WHERE hostname=$1, with the foreign keys'
    ON UPDATE CASCADE; [None]: a name or a key is taken. *)
Definition rename_server (old new : string) (d : inventory) : option (inventory * nat) :=
  if bool_decide (old ∉ hostnames d) then Some (d, 0%nat)
  else if negb (String.eqb old new) && bool_decide (new ∈ hostnames d) then None
  else
    let moves := cascade (λ r, references_servers (o_table r) && String.eqb (o_host r) old) (owned d) in
    let owned' := (λ r, if moves r then r <| o_host := new |> else r) <$> owned d in
    if bool_decide (NoDup (owned_key <$> owned')) then
      Some (d <| servers := (λ r, r <| hostname := renamed_to old new (hostname r) |>) <$> servers d |> <| owned := owned' |>, 1%nat)
    else None.

Definition repoint_jumps (old new : string) (d : inventory) : inventory :=
  d <| servers := (λ r, r <| jump_via := renamed_to old new <$> jump_via r |>) <$> servers d |>.

(** The tables and columns of [renameCarried]; [keyed]: part of the primary key. *)
Inductive carried :=
| host_of (t : owned_table)
| wg_endpoint_annotations_inventory_host
| wg_endpoint_annotations_parent_hostname
| ip_allocations_hostname.

Definition renameCarried : list (carried * bool) :=
  [(host_of server_status, true); (host_of wg_interfaces, true); (host_of wg_peers, true); (host_of wg_peer_status, true);
   (wg_endpoint_annotations_inventory_host, false); (wg_endpoint_annotations_parent_hostname, false); (ip_allocations_hostname, false)].

(** DELETE FROM table WHERE column=$1 *)
Definition delete_where (c : carried) (h : string) (d : inventory) : inventory :=
  match c with
  | host_of t => delete_owned (λ r, bool_decide (o_table r = t) && String.eqb (o_host r) h) d
  | wg_endpoint_annotations_inventory_host => d <| annotations := filter (λ a, inventory_host a ≠ h) (annotations d) |>
  | wg_endpoint_annotations_parent_hostname => d <| annotations := filter (λ a, parent_hostname a ≠ h) (annotations d) |>
  | ip_allocations_hostname => d <| allocations := filter (λ a, al_hostname a ≠ h) (allocations d) |>
  end.

(** UPDATE table SET column=$2 WHERE column=$1 *)
Definition update_where (c : carried) (old new : string) (d : inventory) : inventory :=
  match c with
  | host_of t => d <| owned := (λ r, if bool_decide (o_table r = t) then r <| o_host := renamed_to old new (o_host r) |> else r) <$> owned d |>
  | wg_endpoint_annotations_inventory_host =>
      d <| annotations := (λ a, {| public_key := public_key a; inventory_host := renamed_to old new (inventory_host a); parent_hostname := parent_hostname a; an_rest := an_rest a |}) <$> annotations d |>
  | wg_endpoint_annotations_parent_hostname =>
      d <| annotations := (λ a, {| public_key := public_key a; inventory_host := inventory_host a; parent_hostname := renamed_to old new (parent_hostname a); an_rest := an_rest a |}) <$> annotations d |>
  | ip_allocations_hostname =>
      d <| allocations := (λ a, {| al_ip := al_ip a; al_hostname := renamed_to old new (al_hostname a); al_rest := al_rest a |}) <$> allocations d |>
  end.
End tables.
Arguments server_row : clear implicits.
Arguments owned_row : clear implicits.
Arguments inventory : clear implicits.

(** ** A database that may fail *)

(** What Postgres says to a statement: nothing is wrong, or this error, with the
    statement done or not. *)
Notation trouble := (option (string * bool)).

Section store.
Context {inet : Type} `{!EqDecision inet}.
(** Postgres's ::inet and host(). *)
Context (cast : string → option inet) (host : inet → string).
Notation db := (inventory inet).

Record world := { inv : db; troubles : list trouble }.
#[export] Instance world_rebuild : Rebuild world := λ w, {| inv := inv w; troubles := troubles w |}.

Definition W (A : Type) : Type := world → result string A * world.
#[export] Instance W_ret : MRet W := λ A a w, (Ok a, w).
#[export] Instance W_bind : MBind W := λ A B f m w, let '(r, w) := m w in match r with Ok a => f a w | Err e => (Err e, w) end.
Definition fail {A} (e : string) : W A := λ w, (Err e, w).

Definition next (w : world) : trouble * world := (default None (head (troubles w)), w <| troubles := tail (troubles w) |>).

(** A statement on its own, which is a transaction. *)
Definition statement {A} (f : db → result string (A * db)) : W A := λ w,
  let '(t, w) := next w in
  match t with
  | None => match f (inv w) with Ok (a, d) => (Ok a, w <| inv := d |>) | Err e => (Err e, w) end
  | Some (e, made) => (Err e, if made then match f (inv w) with Ok (_, d) => w <| inv := d |> | Err _ => w end else w)
  end.

Definition query {A} (f : db → result string A) : W A := statement (λ d, a ← f d; Ok (a, d)).

Definition to_inet (s : string) : result string inet :=
  match cast s with Some a => Ok a | None => Err ("invalid input syntax for type inet: " +:+ Quote s) end.

Fixpoint to_inets (l : list string) : result string (list inet) :=
  match l with [] => Ok [] | s :: l => a ← to_inet s; l ← to_inets l; Ok (a :: l) end.

Definition execMatched (f : db → result string (db * nat)) : W bool := statement (λ d, r ← f d; Ok ((0 <? r.2)%nat, r.1)).

(** ** Edits of one row *)

Definition Delete (h : string) : W bool := execMatched (λ d, Ok (delete_server h d)).
Definition SetDC (h v : string) : W bool := execMatched (λ d, Ok (update_server h (λ r, r <| dc := v |>) d)).
Definition SetUser (h v : string) : W bool := execMatched (λ d, Ok (update_server h (λ r, r <| ssh_user := v |>) d)).
Definition nullIfEmpty (s : string) : option string := if String.eqb s "" then None else Some s.
Definition SetJumpVia (h jump : string) : W bool := execMatched (λ d, Ok (update_server h (λ r, r <| jump_via := nullIfEmpty jump |>) d)).
Definition SetExtraIPs (h : string) (ips : list string) : W bool :=
  execMatched (λ d, l ← to_inets ips; Ok (update_server h (λ r, r <| extra_ips := l |>) d)).
Definition SetState (h v : string) : W bool :=
  if ValidState v then execMatched (λ d, Ok (update_server h (λ r, r <| state := v |>) d))
  else fail ("unknown state " +:+ Quote v +:+ " (want one of " +:+ Join HostStates ", " +:+ ")").

(** Who holds the address, but for the host itself. *)
Definition holders (h : string) (a : inet) (d : db) : list string :=
  hostname <$> filter (λ r, host (ip r) = host a ∧ hostname r ≠ h) (servers d).

Definition SetIP (h v : string) : W bool :=
  matched ← execMatched (λ d, a ← to_inet v; Ok (if bool_decide (holders h a d = []) then update_server h (λ r, r <| ip := a |>) d else (d, 0%nat)));
  if matched : bool then mret true
  else
    holder ← query (λ d, a ← to_inet v; Ok (head (holders h a d)));
    match holder : option string with
    | Some holder => fail (v +:+ " already belongs to " +:+ holder +:+ " — sync refuses an address two hosts hold and would skip both")
    | None => mret false
    end.

Definition Insert (sv : Server) : W bool :=
  execMatched (λ d,
    a ← to_inet (InvCache.IP sv); l ← to_inets (ExtraIPs sv);
    Ok (if bool_decide (Hostname sv ∈ hostnames d) then (d, 0%nat)
        else (d <| servers := servers d ++ [{| hostname := Hostname sv; ip := a; ssh_port := Port sv; ssh_user := InvCache.User sv; jump_via := nullIfEmpty (JumpVia sv); dc := DC sv;
                ca_role := CARole sv; last_seen_up := None; state := StateActive; extra_ips := l |}] |>, 1%nat))).

(** ** Renaming *)

Fixpoint each {A} (f : A → W ()) (l : list A) : W () := match l with [] => mret tt | x :: l => _ ← f x; each f l end.

(** The statements of the transaction, on its own view. *)
Definition rename_body (old new : string) : W bool :=
  _ ← each (λ '(c, keyed), if (keyed : bool) then statement (λ d, Ok (tt, delete_where c new d)) else mret tt) renameCarried;
  n ← statement (λ d, match rename_server old new d with Some (d, n) => Ok (n, d) | None => Err "duplicate key value violates unique constraint" end);
  if (n =? 0)%nat then mret false
  else
    _ ← statement (λ d, Ok (tt, repoint_jumps old new d));
    _ ← each (λ '(c, keyed), if (keyed : bool) then mret tt else statement (λ d, Ok (tt, update_where c old new d))) renameCarried;
    mret true.

(** Begin, the statements, and Commit or the deferred Rollback. *)
Definition Rename (old new : string) : W bool := λ w,
  let '(b, w1) := next w in
  match b with
  | Some (e, _) => (Err e, w1)
  | None =>
      let '(r, w2) := rename_body old new w1 in
      match r with
      | Ok true =>
          let '(c, w3) := next w2 in
          match c with
          | None => (Ok true, w3)
          | Some (e, made) => (Err e, if made then w3 else w3 <| inv := inv w |>)
          end
      | _ => (r, w2 <| inv := inv w |>)
      end
  end.

(** ** Upserts *)

Record SyncOutcome := { KeptAddress : bool; Address : string }.

Definition same_address (a b : inet) : bool := bool_decide (a = b ∨ host a = host b).

(** The host's agent reports addresses, and not this one. *)
Definition unreported (h : string) (a : inet) (d : db) : bool :=
  existsb (λ r, bool_decide (o_table r = server_status ∧ o_host r = h ∧ observed_ips r ≠ []) && negb (existsb (λ b, same_address b a) (observed_ips r))) (owned d).

Definition keepStored (guardAddress : bool) (sv : Server) (a : inet) (d : db) : bool :=
  guardAddress && bool_decide (LastSeenUp sv = None) && unreported (Hostname sv) a d.

Definition insert_or_refresh (guardAddress : bool) (sv : Server) (a : inet) (d : db) : (string * bool) * db :=
  let kept := keepStored guardAddress sv a d in
  let refreshed r :=
    (if kept then r else r <| ip := a |> <| last_seen_up := LastSeenUp sv |>) <| ssh_port := Port sv |> <| ca_role := CARole sv |> in
  match filter (λ r, hostname r = Hostname sv) (servers d) with
  | r :: _ =>
      ((host (ip (refreshed r)), negb (String.eqb (host (ip (refreshed r))) (host a))), (update_server (Hostname sv) refreshed d).1)
  | [] =>
      ((host a, false),
       d <| servers := servers d ++ [{| hostname := Hostname sv; ip := a; ssh_port := Port sv; ssh_user := InvCache.User sv; jump_via := nullIfEmpty (JumpVia sv); dc := DC sv; ca_role := CARole sv;
              last_seen_up := LastSeenUp sv; state := StateActive; extra_ips := [] |}] |>)
  end.

Definition upsert (sv : Server) (guardAddress : bool) : W SyncOutcome :=
  existing ← query (λ d, a ← to_inet (InvCache.IP sv); Ok (sort_strings (hostname <$> filter (λ r, same_address (ip r) a = true) (servers d))));
  match existing : list string with
  | [h] =>
      _ ← statement (λ d, Ok (tt, (update_server h (λ r, r <| ssh_port := Port sv |> <| ca_role := CARole sv |> <| last_seen_up := LastSeenUp sv |>) d).1));
      mret {| KeptAddress := false; Address := InvCache.IP sv |}
  | [] =>
      r ← statement (λ d, a ← to_inet (InvCache.IP sv); Ok (insert_or_refresh guardAddress sv a d));
      mret {| KeptAddress := (r : string * bool).2; Address := r.1 |}
  | _ => fail ("primary IP " +:+ InvCache.IP sv +:+ " belongs to multiple servers: " +:+ Join existing ", ")
  end.

Definition Upsert (sv : Server) : W () := _ ← upsert sv false; mret tt.
Definition UpsertSynced (sv : Server) : W SyncOutcome := upsert sv true.

(** Every host; the columns a listing adds are not read here. *)
Definition ListInventory : W (list (server_row inet)) := query (λ d, Ok (servers d)).

(** ** vctl edit *)

Definition login_char_error (u : string) (c : ascii) : option string :=
  if is_space c || in_range 0 31 c || (byte_val c =? 127) then Some ("login user " +:+ Quote u +:+ " contains whitespace or control characters")
  else if in_cutset "@:/" c then Some ("login user " +:+ Quote u +:+ " contains '" +:+ String c ("', which is not part of a user name"))
  else None.

Fixpoint login_error (u rest : string) : option string :=
  match rest with
  | String c rest => match login_char_error u c with Some e => Some e | None => login_error u rest end
  | EmptyString => None
  end.

Definition validLoginUser (u : string) : option string :=
  if String.eqb u "" then Some "login user is empty"
  else if HasPrefix u "-" then Some ("login user " +:+ Quote u +:+ " must not start with '-'")
  else login_error u u.

Record hostEdits := { e_DC : string; e_IP : string; e_User : string; e_JumpVia : string; e_Name : string; e_State : string; e_ExtraIPs : list string; clearIPs : bool }.

Definition empty_edits (e : hostEdits) : bool :=
  String.eqb (e_DC e) "" && String.eqb (e_IP e) "" && String.eqb (e_User e) "" && String.eqb (e_JumpVia e) "" && String.eqb (e_Name e) "" && String.eqb (e_State e) "" &&
  bool_decide (e_ExtraIPs e = []) && negb (clearIPs e).

Definition jumpDirect : string := "direct".

Definition step : Type := string * W bool.
Definition when (b : bool) (s : step) : list step := if b then [s] else [].
Definition given (s : string) : bool := negb (String.eqb s "").

Definition edit_steps (e : hostEdits) (h : string) : list step :=
  when (given (e_DC e)) ("dc=" +:+ e_DC e, SetDC h (e_DC e)) ++
  when (given (e_User e)) ("user=" +:+ e_User e, SetUser h (e_User e)) ++
  when (given (e_IP e)) ("ip=" +:+ e_IP e, SetIP h (e_IP e)) ++
  (if clearIPs e then [("extra-ips=(none)", SetExtraIPs h [])]
   else when (negb (bool_decide (e_ExtraIPs e = []))) ("extra-ips=" +:+ Itoa (Z.of_nat (length (e_ExtraIPs e))), SetExtraIPs h (e_ExtraIPs e))) ++
  when (given (e_State e)) ("state=" +:+ e_State e, SetState h (e_State e)) ++
  when (given (e_JumpVia e))
    (if String.eqb (e_JumpVia e) jumpDirect then ("jump=(direct)", SetJumpVia h "") else ("jump=" +:+ e_JumpVia e, SetJumpVia h (e_JumpVia e))) ++
  when (given (e_Name e)) ("name=" +:+ e_Name e, Rename h (e_Name e)).

(** [s.run()], its error prefixed with the label. *)
Definition labelled {A} (label : string) (m : W A) : W A := λ w,
  let '(r, w) := m w in (match r with Ok a => Ok a | Err e => Err (label +:+ ": " +:+ e) end, w).

Fixpoint run_steps (h : string) (steps : list step) : W () :=
  match steps with
  | [] => mret tt
  | (label, m) :: steps => ok ← labelled label m; if (ok : bool) then run_steps h steps else fail (label +:+ ": no host named " +:+ Quote h)
  end.

Definition apply_edits (e : hostEdits) (h : string) : W () :=
  match (if given (e_User e) then validLoginUser (e_User e) else None) with
  | Some err => fail ("invalid --user: " +:+ err)
  | None => run_steps h (edit_steps e h)
  end.

(** A read whose failure is let pass. *)
Definition courtesy {A} (m : W A) : W (option A) := λ w, let '(r, w) := m w in (Ok match r with Ok a => Some a | Err _ => None end, w).

Definition jumpHostExists (jump : string) : W () :=
  rows ← courtesy ListInventory;
  match rows : option (list (server_row inet)) with
  | Some rows => if bool_decide (jump ∈ hostname <$> rows) then mret tt else fail ("jump host " +:+ Quote jump +:+ " is not in the inventory")
  | None => mret tt
  end.

Definition FindHost (h : string) : W (server_row inet) :=
  rows ← ListInventory;
  match filter (λ r, hostname r = h) (rows : list (server_row inet)) with r :: _ => mret r | [] => fail ("no host named " +:+ Quote h +:+ " in the inventory") end.

Definition bad_ip (s : string) : bool := match ParseIP s with None => true | Some _ => false end.

Definition validate (e : hostEdits) (h : string) : W () :=
  match find (λ s, bad_ip (TrimSpace s)) (e_ExtraIPs e) with
  | Some s => fail ("invalid --extra-ip: " +:+ Quote s)
  | None =>
      if given (e_State e) && negb (ValidState (e_State e)) then fail ("unknown --state " +:+ Quote (e_State e) +:+ " (want one of " +:+ Join HostStates ", " +:+ ")")
      else if String.eqb (e_Name e) h then fail "--name is the current hostname"
      else
        taken ← (if given (e_Name e) then courtesy (FindHost (e_Name e)) else mret None);
        match taken with
        | Some _ => fail (Quote (e_Name e) +:+ " is already in the inventory")
        | None =>
            if String.eqb (e_JumpVia e) "" || String.eqb (e_JumpVia e) jumpDirect then mret tt
            else if String.eqb (e_JumpVia e) (if given (e_Name e) then e_Name e else h) then fail "--jump points at the host itself"
            else jumpHostExists (e_JumpVia e)
        end
  end.

(** What the form was left with, as the edits it asks for. *)
Definition splitIPList (v : string) : list string := filter (λ p, p ≠ "") (TrimSpace <$> Split v ",").

Record form_fields := { ff_dc : string; ff_user : string; ff_jump : string; ff_extra : string; ff_state : string; ff_name : string }.

Definition prompt_seed (cur : Server) : form_fields :=
  {| ff_dc := DC cur; ff_user := InvCache.User cur; ff_jump := (if String.eqb (JumpVia cur) "" then jumpDirect else JumpVia cur);
     ff_extra := Join (ExtraIPs cur) ", "; ff_state := StateOrActive (ServerState cur); ff_name := Hostname cur |}.

Definition changed (now was : string) : string := if String.eqb now was then "" else now.

Definition prompted (cur : Server) (f : form_fields) : hostEdits :=
  let jump := TrimSpace (ff_jump f) in let got := splitIPList (ff_extra f) in let same := bool_decide (got = ExtraIPs cur) in
  {| e_DC := changed (TrimSpace (ff_dc f)) (DC cur); e_IP := ""; e_User := changed (TrimSpace (ff_user f)) (InvCache.User cur);
     e_JumpVia := (if String.eqb jump jumpDirect && String.eqb (JumpVia cur) "" then "" else changed jump (JumpVia cur));
     e_Name := changed (TrimSpace (ff_name f)) (Hostname cur); e_State := changed (ff_state f) (StateOrActive (ServerState cur));
     e_ExtraIPs := (if same then [] else got); clearIPs := negb same && bool_decide (got = []) |}.

(** The command, on a host that was found, with the flags or the form's answer. *)
Definition edit_found (e : hostEdits) (h : string) : W () :=
  if empty_edits e then mret tt
  else _ ← validate e h; apply_edits e h.

Definition runEdit (e : hostEdits) (h : string) : W () :=
  cur ← FindHost h;
  if empty_edits e then fail "nothing to change: pass at least one of --dc, --user, --jump, --extra-ip, --name, --state"
  else edit_found e (hostname (cur : server_row inet)).

(** ** vctl add *)

Definition validateServer (sv : Server) : W () :=
  if String.eqb (TrimSpace (Hostname sv)) "" then fail "--host is required"
  else if bad_ip (InvCache.IP sv) then fail ("invalid --ip: " +:+ Quote (InvCache.IP sv))
  else if String.eqb (TrimSpace (InvCache.User sv)) "" then fail "--user is required"
  else match validLoginUser (InvCache.User sv) with
  | Some err => fail ("invalid --user: " +:+ err)
  | None =>
      if String.eqb (TrimSpace (DC sv)) "" then fail "--dc is required"
      else if (Port sv <=? 0) || (65535 <? Port sv) then fail ("invalid --port: " +:+ Itoa (Port sv))
      else match find (λ s, bad_ip (TrimSpace s) || String.eqb (TrimSpace s) (InvCache.IP sv)) (ExtraIPs sv) with
      | Some s => if bad_ip (TrimSpace s) then fail ("invalid --extra-ip: " +:+ Quote s) else fail ("--extra-ip " +:+ Quote s +:+ " repeats --ip")
      | None =>
          if String.eqb (JumpVia sv) "" then mret tt
          else if String.eqb (JumpVia sv) (Hostname sv) then fail "--jump points at the host itself"
          else jumpHostExists (JumpVia sv)
      end
  end.

(** Complete flags; the form is outside. *)
Definition runAdd (sv : Server) (force : bool) : W () :=
  if String.eqb (Hostname sv) "" || String.eqb (InvCache.IP sv) "" || String.eqb (InvCache.User sv) "" || String.eqb (DC sv) ""
  then fail "--host, --ip, --user and --dc are required when there is no terminal to prompt at"
  else
    _ ← validateServer sv;
    created ← Insert sv;
    if (created : bool) then mret tt
    else if negb force then fail (Hostname sv +:+ " is already in the inventory; change it with vctl edit, or pass --force to overwrite probe fields")
    else Upsert sv.
End store.
