(* ===== verification/InventoryLaws.v ===== *)
(** What the inventory's edits keep: a rename is whole or nothing and carries
    all that describes the host, an edit writes what was asked in order, and a
    sync leaves what people entered. *)

From Stdlib Require Import Ascii String.
From S2P Require Import Prelude GoStrings NetIP OpenStackFold InvCache Sshc Access Inventory.
Local Open Scope Z_scope.
Local Open Scope record_scope.

Section laws.
Context {inet : Type} `{!EqDecision inet} (cast : string → option inet) (host : inet → string).
Notation db := (inventory inet).
Notation W := (Inventory.W (inet:=inet)).

(** ** Statements that may fail *)

(** One statement: it is done and answered, or its error is given and it was done or not. *)
Lemma statement_cases {A} (f : db → result string (A * db)) w r w' : statement f w = (r, w') →
  (∃ a d, f (inv w) = Ok (a, d) ∧ inv w' = d ∧ r = Ok a) ∨ (∃ e, r = Err e ∧ (inv w' = inv w ∨ ∃ a, f (inv w) = Ok (a, inv w'))).
Proof.
  unfold statement, next. cbn. destruct (default None (head (troubles w))) as [[e made]|]; cbn.
  - intros [= <- <-]. right. exists e. split; [done|]. destruct made; [|by left]. destruct (f (inv w)) as [[a d]|e'] eqn:E; cbn; [right; by exists a|by left].
  - destruct (f (inv w)) as [[a d]|e] eqn:E; intros [= <- <-]; [left; by exists a, d|right; exists e; split; [done|by left]].
Qed.

Lemma statement_quiet {A} (f : db → result string (A * db)) w a d : troubles w = [] → f (inv w) = Ok (a, d) → statement f w = (Ok a, {| inv := d; troubles := [] |}).
Proof. intros E H. unfold statement, next. destruct w as [i t]. cbn in *. subst t. cbn. by rewrite H. Qed.

Lemma bind_cases {A B} (m : W A) (f : A → W B) w r w' : (m ≫= f) w = (r, w') →
  (∃ a w1, m w = (Ok a, w1) ∧ f a w1 = (r, w')) ∨ (∃ e, m w = (Err e, w') ∧ r = Err e).
Proof. unfold mbind, W_bind. destruct (m w) as [[a|e] w1]; [intros H; left; by exists a, w1|intros [= <- <-]; right; by exists e]. Qed.

Lemma bind_ok {A B} (m : W A) (f : A → W B) w a w1 : m w = (Ok a, w1) → (m ≫= f) w = f a w1.
Proof. intros H. unfold mbind, W_bind. by rewrite H. Qed.

(** Statements that cannot refuse: the last state is the composition, or one before it. *)
Lemma each_ok {A} (g : A → db → db) (run : A → W ()) l w r w' :
  (∀ x w r w', run x w = (r, w') → r = Ok tt → inv w' = g x (inv w)) →
  each run l w = (r, w') → r = Ok tt → inv w' = foldl (λ d x, g x d) (inv w) l.
Proof.
  intros Hrun. revert w. induction l as [|x l IH]; intros w H Hr; cbn in *; [by injection H as <- <-|].
  apply bind_cases in H as [([] & w1 & H1 & H2)|(e & _ & ->)]; [|done]. apply IH in H2; [|done]. apply Hrun in H1; [|done]. by rewrite H2, H1.
Qed.

Lemma each_quiet {A} (g : A → db → db) (run : A → W ()) l w :
  (∀ x w, troubles w = [] → run x w = (Ok tt, {| inv := g x (inv w); troubles := [] |})) → troubles w = [] →
  each run l w = (Ok tt, {| inv := foldl (λ d x, g x d) (inv w) l; troubles := [] |}).
Proof.
  intros Hrun. revert w. induction l as [|x l IH]; intros w Hw; cbn; [by destruct w; cbn in *; subst|].
  erewrite bind_ok by by apply Hrun. by rewrite IH.
Qed.

(** ** A rename *)

Section rename.
Context (old new : string) (Hne : old ≠ new).
Notation rn := (renamed_to old new).

(** The same inventory, the host under its new name.  The audit keeps the old. *)
Definition renamed (d : db) : db :=
  {| servers := (λ r, r <| hostname := rn (hostname r) |> <| jump_via := rn <$> jump_via r |>) <$> servers d;
     owned := (λ r, r <| o_host := rn (o_host r) |>) <$> owned d;
     annotations := (λ a, {| public_key := public_key a; inventory_host := rn (inventory_host a); parent_hostname := rn (parent_hostname a); an_rest := an_rest a |}) <$> annotations d;
     allocations := (λ a, {| al_ip := al_ip a; al_hostname := rn (al_hostname a); al_rest := al_rest a |}) <$> allocations d;
     audits := audits d |}.

(** A heartbeat or a tunnel someone left under the new name. *)
Definition leftover (r : owned_row inet) : bool :=
  String.eqb (o_host r) new && bool_decide (o_table r ∈ [server_status; wg_interfaces; wg_peers; wg_peer_status]).

Definition cleared (d : db) : db := d <| owned := filter (λ r, leftover r = false) (owned d) |>.

(** The host's own rows hang together: its peers have their interface. *)
Definition direct (h : string) (r : owned_row inet) : bool := references_servers (o_table r) && String.eqb (o_host r) h.
Definition intact (h : string) (d : db) : Prop := ∀ r, r ∈ owned d → o_host r = h → cascade (direct h) (owned d) r = true.

Lemma child_host (p c : owned_row inet) : child_of p c = true → o_host p = o_host c.
Proof. unfold child_of. intros H. apply andb_true_iff in H as [H _]. apply andb_true_iff in H as [H _]. by apply String.eqb_eq in H. Qed.

Lemma child_tables (p c : owned_row inet) : child_of p c = true → o_table c = wg_peers ∨ o_table c = wg_peer_status.
Proof. unfold child_of. destruct (o_table p), (o_table c); rewrite ?andb_false_r; try done; [by left|by right]. Qed.

Lemma cascade_true hit rows (r : owned_row inet) : cascade hit rows r = true ↔
  hit r = true ∨ ∃ p, p ∈ rows ∧ child_of p r = true ∧ (hit p = true ∨ ∃ q, q ∈ rows ∧ child_of q p = true ∧ hit q = true).
Proof.
  unfold cascade. rewrite orb_true_iff, existsb_exists. split; (intros [H|H]; [by left|right]).
  - destruct H as (p & Hp & H). apply andb_true_iff in H as [Hc H]. exists p. split_and!; [by apply list_elem_of_In|done|].
    apply orb_true_iff in H as [H|H]; [by left|right]. apply existsb_exists in H as (q & Hq & H). apply andb_true_iff in H as [H1 H2]. exists q. by rewrite list_elem_of_In.
  - destruct H as (p & Hp & Hc & H). exists p. split; [by apply list_elem_of_In|]. rewrite Hc. cbn. apply orb_true_iff. destruct H as [H|(q & Hq & H1 & H2)]; [by left|right].
    apply existsb_exists. exists q. rewrite H1, H2. split; [by apply list_elem_of_In|done].
Qed.

(** What goes along is of the same host. *)
Lemma cascade_host h hit rows (r : owned_row inet) : (∀ x, hit x = true → o_host x = h) → cascade hit rows r = true → o_host r = h.
Proof.
  intros Hh H. apply cascade_true in H as [H|(p & _ & Hc & [H|(q & _ & Hq & H)])]; [by apply Hh|..].
  - rewrite <- (child_host _ _ Hc). by apply Hh.
  - rewrite <- (child_host _ _ Hc), <- (child_host _ _ Hq). by apply Hh.
Qed.
Definition with_owned (l : list (owned_row inet)) (d : db) : db := d <| owned := l |>.

Lemma with_owned_id d : with_owned (owned d) d = d.
Proof. by destruct d. Qed.

(** Each delete takes the leftovers of its table, and only leftovers. *)
Definition clears (T : list owned_table) (d d' : db) : Prop :=
  ∃ Q : owned_row inet → bool, d' = with_owned (filter (λ r, Q r = true) (owned d)) d ∧
    (∀ r, leftover r = false → Q r = true) ∧ ∀ r, o_host r = new → o_table r ∈ T → Q r = false.

Lemma clears_more T t d d' : t ∈ [server_status; wg_interfaces; wg_peers; wg_peer_status] → clears T d d' → clears (T ++ [t]) d (delete_where (host_of t) new d').
Proof.
  clear cast host. intros Ht (Q & -> & H1 & H2).
  set (hit := λ r : owned_row inet, bool_decide (o_table r = t) && String.eqb (o_host r) new). set (rows := filter (λ r, Q r = true) (owned d)).
  assert (Hhit : ∀ r, hit r = true → o_table r = t ∧ o_host r = new).
  { unfold hit. intros r H. apply andb_true_iff in H as [H Hh]. by apply bool_decide_eq_true in H; apply String.eqb_eq in Hh. }
  exists (λ r, Q r && negb (cascade hit rows r)). split_and!.
  - change (delete_where (host_of t) new (with_owned rows d)) with (with_owned (filter (λ r, cascade hit rows r = false) rows) d). f_equal.
    rewrite (list_filter_filter (λ r, cascade hit rows r = false) (λ r, Q r = true) (owned d) : filter _ rows = _). apply list_filter_iff. intros r. destruct (Q r), (cascade hit rows r); cbn; naive_solver.
  - intros r Hr. rewrite H1 by done. cbn. destruct (cascade hit rows r) eqn:E; [|done].
    assert (o_host r = new) as Eh by (apply (cascade_host new hit rows); [intros x Hx; by apply Hhit|done]).
    assert (leftover r = true); [|congruence]. unfold leftover. rewrite Eh, String.eqb_refl. apply bool_decide_eq_true.
    apply cascade_true in E as [E|(p & _ & Hc & _)]; [apply Hhit in E as [-> _]; done|].
    destruct (child_tables _ _ Hc) as [-> | ->]; set_solver.
  - intros r Hh [HT|HT%list_elem_of_singleton]%elem_of_app; [by rewrite H2|].
    assert (cascade hit rows r = true) as ->; [|by rewrite andb_false_r]. apply cascade_true. left. unfold hit. rewrite HT, Hh, String.eqb_refl. by rewrite bool_decide_eq_true_2.
Qed.

Notation stale_step := (λ (d : db) (x : carried * bool), if x.2 then delete_where x.1 new d else d).

Lemma stale_rows_go d : foldl stale_step d renameCarried = cleared d.
Proof.
  clear cast host.
  assert (clears [server_status; wg_interfaces; wg_peers; wg_peer_status] d (foldl stale_step d renameCarried)) as (Q & -> & H1 & H2).
  { cbn [foldl renameCarried fst snd].
    apply (clears_more [server_status; wg_interfaces; wg_peers]); [set_solver|]. apply (clears_more [server_status; wg_interfaces]); [set_solver|].
    apply (clears_more [server_status]); [set_solver|]. apply (clears_more []); [set_solver|]. exists (λ _, true). split_and!; [|done|].
    - rewrite <- (with_owned_id d) at 1. f_equal.
      induction (owned d) as [|r l IH]; [done|]. rewrite filter_cons, decide_True by done. by rewrite <- IH.
    - intros r _ Hr. by apply elem_of_nil in Hr. }
  unfold cleared. change (with_owned (filter (λ r, Q r = true) (owned d)) d = with_owned (filter (λ r, leftover r = false) (owned d)) d). f_equal.
  apply list_filter_iff. intros r. split; [|apply H1]. intros HQ. destruct (leftover r) eqn:E; [|done]. unfold leftover in E. apply andb_true_iff in E as [E1 E2].
  apply String.eqb_eq in E1. apply bool_decide_eq_true in E2. rewrite (H2 r E1 E2) in HQ. done.
Qed.

Lemma rn_other s : s ≠ old → rn s = s.
Proof. intros H. unfold renamed_to. by destruct (String.eqb_spec s old). Qed.

Lemma rn_inj s t : s ≠ new → t ≠ new → rn s = rn t → s = t.
Proof. unfold renamed_to. destruct (String.eqb_spec s old), (String.eqb_spec t old); congruence. Qed.

(** The rows that go with the server are all the host's. *)
Lemma moves_all d : intact old d → ∀ r, r ∈ owned d →
  (if cascade (direct old) (owned d) r then r <| o_host := new |> else r) = r <| o_host := rn (o_host r) |>.
Proof.
  intros Hi r Hr. unfold renamed_to. destruct (String.eqb_spec (o_host r) old) as [E|E]; [by rewrite (Hi r Hr E)|].
  destruct (cascade (direct old) (owned d) r) eqn:Ec; [|by destruct r].
  destruct E. apply (cascade_host old (direct old) (owned d)); [|done]. unfold direct. intros x H. apply andb_true_iff in H as [_ H]. by apply String.eqb_eq in H.
Qed.

Lemma cleared_intact d : intact old d → intact old (cleared d).
Proof.
  intros Hi r Hr Eh. apply list_elem_of_filter in Hr as [_ Hr]. pose proof (Hi r Hr Eh) as H. apply cascade_true. apply cascade_true in H.
  assert (Hstay : ∀ x, x ∈ owned d → o_host x = old → x ∈ owned (cleared d)).
  { intros x Hx Ex. apply list_elem_of_filter. split; [|done]. unfold leftover. destruct (String.eqb_spec (o_host x) new); [congruence|done]. }
  destruct H as [H|(p & Hp & Hc & H)]; [by left|right]. assert (o_host p = old) as Ep by (by rewrite (child_host _ _ Hc)).
  exists p. split_and!; [by apply Hstay|done|]. destruct H as [H|(q & Hq & Hcq & H)]; [by left|right].
  exists q. split_and!; [apply Hstay; [done|]; by rewrite (child_host _ _ Hcq)|done..].
Qed.

Definition keys_fit (d : db) : Prop := NoDup (owned_key <$> owned (renamed d)).

Notation carry_step := (λ (d : db) (x : carried * bool), if x.2 then d else update_where x.1 old new d).

(** The statements of the transaction. *)
Lemma rename_server_cases d : intact old d →
  match rename_server old new d with
  | None => new ∈ hostnames d ∨ ¬ keys_fit d
  | Some (d', n) => (n = 0%nat ∧ old ∉ hostnames d ∧ d' = d) ∨
      (n = 1%nat ∧ old ∈ hostnames d ∧ new ∉ hostnames d ∧ keys_fit d ∧ foldl carry_step (repoint_jumps old new d') renameCarried = renamed d)
  end.
Proof.
  intros Hi. unfold rename_server. case_bool_decide as Ho; [left; by split_and!|].
  destruct (String.eqb_spec old new) as [|_]; [done|]. cbn [negb andb]. case_bool_decide as Hn; [by left|].
  set (moved := (λ r, if cascade _ (owned d) r then _ else r) <$> owned d).
  assert (moved = owned (renamed d)) as E.
  { unfold moved. cbn [renamed owned]. apply list_fmap_ext. intros i r Hr. apply (moves_all d Hi). by eapply list_elem_of_lookup_2. }
  rewrite E. case_bool_decide as Hk; [|by right]. right. split_and!; [done|by destruct (decide (old ∈ hostnames d))|done|done|].
    set (d' := d <| servers := _ |> <| owned := _ |>).
    change (foldl carry_step (repoint_jumps old new d') renameCarried) with
      {| servers := (λ r, r <| jump_via := rn <$> jump_via r |>) <$> ((λ r, r <| hostname := rn (hostname r) |>) <$> servers d); owned := owned (renamed d);
         annotations := (λ a, {| public_key := public_key a; inventory_host := inventory_host a; parent_hostname := rn (parent_hostname a); an_rest := an_rest a |}) <$>
           ((λ a, {| public_key := public_key a; inventory_host := rn (inventory_host a); parent_hostname := parent_hostname a; an_rest := an_rest a |}) <$> annotations d);
         allocations := allocations (renamed d); audits := audits d |}.
    rewrite <- !list_fmap_compose. done.
Qed.
Notation stale_run := (λ '(c, keyed), if (keyed : bool) then statement (λ d : db, Ok (tt, delete_where c new d)) else (mret tt : W ())).
Notation carry_run := (λ '(c, keyed), if (keyed : bool) then (mret tt : W ()) else statement (λ d : db, Ok (tt, update_where c old new d))).

Lemma plain_statement (f : db → db) w r w' : statement (λ d, Ok (tt, f d)) w = (r, w') → r = Ok tt → inv w' = f (inv w).
Proof. intros H ->. by apply statement_cases in H as [(a & d & [= <- <-] & -> & _)|(e & ? & _)]. Qed.

Lemma rename_body_cases w r w' : intact old (inv w) → rename_body old new w = (r, w') →
  match r with
  | Ok true => old ∈ hostnames (inv w) ∧ new ∉ hostnames (inv w) ∧ inv w' = renamed (cleared (inv w))
  | Ok false => old ∉ hostnames (inv w)
  | Err _ => True
  end.
Proof.
  intros Hi H. unfold rename_body in H. apply bind_cases in H as [([] & w1 & H1 & H)|(e & _ & ->)]; [|done].
  apply (each_ok (λ x d, stale_step d x)) in H1; [|intros [c []] w0 r0 w0' E Hr; [by eapply plain_statement|by injection E as <- <-]|done].
  cbv beta in H1. rewrite stale_rows_go in H1.
  apply bind_cases in H as [(n & w2 & H2 & H)|(e & _ & ->)]; [|done].
  apply statement_cases in H2 as [(n' & d2 & E2 & Ed & [= <-])|(e & ? & _)]; [|done].
  pose proof (rename_server_cases (inv w1) ltac:(rewrite H1; by apply cleared_intact)) as HC. destruct (rename_server old new (inv w1)) as [[d n']|]; [|done].
  injection E2 as <- <-. rewrite H1 in HC. destruct HC as [(-> & Ho & _)|(-> & Ho & Hn & _ & HE)]; cbn [Nat.eqb] in H; [by injection H as <- <-|].
  apply bind_cases in H as [([] & w3 & H3 & H)|(e & _ & ->)]; [|done]. apply plain_statement in H3; [|done].
  apply bind_cases in H as [([] & w4 & H4 & H)|(e & _ & ->)]; [|done]. injection H as <- <-.
  apply (each_ok (λ x d, carry_step d x)) in H4; [|intros [c []] w0 r0 w0' E Hr; [by injection E as <- <-|by eapply plain_statement]|done].
  split_and!; [done..|]. rewrite H4, H3, Ed. exact HE.
Qed.

Lemma rename_body_quiet w : intact old (inv w) → troubles w = [] → new ∉ hostnames (inv w) → keys_fit (cleared (inv w)) →
  ∃ w', rename_body old new w = (Ok (bool_decide (old ∈ hostnames (inv w))), w') ∧ troubles w' = [].
Proof.
  intros Hi Hw Hn Hk. unfold rename_body.
  erewrite bind_ok; [|apply (each_quiet (λ x d, stale_step d x)); [|done]]; [|intros [c []] w0 E; [by apply statement_quiet|by destruct w0; cbn in *; subst]].
  cbv beta. rewrite stale_rows_go. pose proof (rename_server_cases (cleared (inv w)) (cleared_intact _ Hi)) as HC.
  destruct (rename_server old new (cleared (inv w))) as [[d n]|] eqn:E; [|by destruct HC].
  erewrite bind_ok; [|apply statement_quiet; [done|cbn; by rewrite E]]. destruct HC as [(-> & Ho & _)|(-> & Ho & _ & _ & HE)]; cbn [Nat.eqb].
  - rewrite bool_decide_eq_false_2 by done. by eexists.
  - rewrite bool_decide_eq_true_2 by done. erewrite bind_ok; [|by apply statement_quiet].
    erewrite bind_ok; [|apply (each_quiet (λ x d, carry_step d x)); [|done]]; [|intros [c []] w0 E0; [by destruct w0; cbn in *; subst|by apply statement_quiet]].
    by eexists.
Qed.
End rename.

Lemma rename_outcome w old new r w' : old ≠ new → intact old (inv w) → Rename old new w = (r, w') →
  let d := inv w in let d' := inv w' in
  (d' = d ∨ old ∈ hostnames d ∧ new ∉ hostnames d ∧ d' = renamed old new (cleared new d)) ∧
  match r with
  | Ok true => old ∈ hostnames d ∧ d' = renamed old new (cleared new d)
  | Ok false => old ∉ hostnames d ∧ d' = d
  | Err _ => True
  end.
Proof.
  intros Hne Hi. unfold Rename, next. cbn -[rename_body]. destruct (default None (head (troubles w))) as [[e made]|]; [intros [= <- <-]; by split; [left|]|].
  set (w1 := w <| troubles := tail (troubles w) |>). destruct (rename_body old new w1) as [rb w2] eqn:E.
  pose proof (rename_body_cases old new Hne w1 rb w2 Hi E) as HC. change (inv w1) with (inv w) in HC. clearbody w1. destruct rb as [[]|e].
  - destruct HC as (Ho & Hn & Ed). destruct (default None (head (troubles w2))) as [[e made]|]; intros [= <- <-]; cbn.
    + destruct made; (split; [|done]); [right; by rewrite <- Ed|by left].
    + change (inv (w2 <| troubles := tail (troubles w2) |>)) with (inv w2). by split; [right|].
  - intros [= <- <-]. cbn. by split; [left|].
  - intros [= <- <-]. cbn. by split; [left|].
Qed.

Lemma rename_quiet w old new : old ≠ new → intact old (inv w) → troubles w = [] → new ∉ hostnames (inv w) → keys_fit old new (cleared new (inv w)) →
  (Rename old new w).1 = Ok (bool_decide (old ∈ hostnames (inv w))).
Proof.
  intros Hne Hi Ht Hn Hk. unfold Rename, next. rewrite Ht. cbn -[rename_body].
  destruct (rename_body_quiet old new Hne (w <| troubles := [] |>)) as (w2 & -> & E2); [done..|]. change (inv (w <| troubles := [] |>)) with (inv w).
  destruct (bool_decide (old ∈ hostnames (inv w))); [|done]. by rewrite E2.
Qed.

(** C14. A rename is whole or is nothing.  Whatever statement fails, and whether or
    not a failed commit was made, the inventory afterwards is what it was or the
    same inventory with the host's name replaced wherever it stands for the host,
    what was left over under the new name gone, and the audit as it was; it is
    the second exactly when the command says so, but for a commit whose answer
    was lost.  It is refused for a name that is taken; no host by the old name is
    not an error; and when nothing fails it is done. *)
Theorem rename_is_whole w old new : old ≠ new → intact old (inv w) →
  let '(r, w') := Rename old new w in let d := inv w in let d' := inv w' in
  (d' = d ∨ old ∈ hostnames d ∧ new ∉ hostnames d ∧ d' = renamed old new (cleared new d)) ∧
  match r with
  | Ok true => old ∈ hostnames d ∧ d' = renamed old new (cleared new d)
  | Ok false => old ∉ hostnames d ∧ d' = d
  | Err _ => True
  end ∧
  (troubles w = [] → keys_fit old new (cleared new d) → r = Ok (bool_decide (old ∈ hostnames d)) ∨ new ∈ hostnames d).
Proof.
  intros Hne Hi. pose proof (rename_quiet w old new Hne Hi) as Hq. destruct (Rename old new w) as [r w'] eqn:E.
  destruct (rename_outcome w old new r w' Hne Hi E) as [H1 H2]. split_and!; [done..|]. intros Ht Hk.
  destruct (decide (new ∈ hostnames (inv w))); [by right|left]. by apply Hq.
Qed.

(** ** What a renamed inventory says *)

Definition srv (r : server_row inet) : Server :=
  {| Hostname := hostname r; InvCache.IP := host (ip r); Port := ssh_port r; InvCache.User := ssh_user r; JumpVia := default "" (jump_via r); DC := dc r; CARole := ca_role r;
     CAKeyVersion := 1; LastSeenUp := last_seen_up r; ExtraIPs := host <$> extra_ips r; ServerState := state r |}.

(** [Store.Get]. *)
Definition row_named (q : string) (d : db) : option (server_row inet) := head (filter (λ r, hostname r = q) (servers d)).
Definition get_of (d : db) (q : string) : result string Server := match row_named q d with Some r => Ok (srv r) | None => Err "no rows in result set" end.

Fixpoint rename_target (old new : string) (t : Target) : Target :=
  {| Name := renamed_to old new (Name t); Addr := Addr t; Sshc.User := Sshc.User t; Role := Role t; SkipDirect := SkipDirect t; ConfirmHostKey := ConfirmHostKey t;
     AutoAddHostKey := AutoAddHostKey t; Jump := match Jump t with Some j => Some (rename_target old new j) | None => None end |}.

Definition renamed_row (old new : string) (r : server_row inet) : server_row inet :=
  r <| hostname := renamed_to old new (hostname r) |> <| jump_via := renamed_to old new <$> jump_via r |>.

Section chains.
Context (old new : string) (d : db) (Hold : old ≠ "") (Hnew : new ≠ "") (Hfree : new ∉ hostnames d) (directFirst : bool).
Notation rn := (renamed_to old new).

Lemma host_not_new r : r ∈ servers d → hostname r ≠ new.
Proof. intros Hr E. apply Hfree. apply list_elem_of_fmap. by exists r. Qed.

Lemma row_named_in q r : row_named q d = Some r → r ∈ servers d ∧ hostname r = q.
Proof. unfold row_named. intros H. apply head_Some_elem_of in H. by apply list_elem_of_filter in H as [? ?]. Qed.

Lemma row_renamed q r : row_named q d = Some r → row_named (rn q) (renamed old new d) = Some (renamed_row old new r).
Proof.
  intros H. pose proof (row_named_in _ _ H) as [Hin Eq]. assert (q ≠ new) as Hq by (rewrite <- Eq; by apply host_not_new).
  unfold row_named in *. cbn [renamed servers]. pose proof host_not_new as Hn. clear Hin. revert H. induction (servers d) as [|x l IH]; [done|].
  rewrite fmap_cons, !filter_cons. intros H. destruct (decide (hostname x = q)) as [E|E].
  - rewrite decide_True by (change (rn (hostname x) = rn q); by rewrite E). injection H as ->. done.
  - rewrite decide_False; [apply IH; [intros y Hy; apply Hn; by right|done]|]. change (rn (hostname x) ≠ rn q). intros Ex. apply E. eapply rn_inj; [|done|done]. apply Hn. by left.
Qed.

Lemma jump_renamed r : JumpVia (srv (renamed_row old new r)) = if String.eqb (JumpVia (srv r)) "" then "" else rn (JumpVia (srv r)).
Proof.
  cbn. change (jump_via (renamed_row old new r)) with (rn <$> jump_via r). destruct (jump_via r) as [j|]; [|done]. cbn.
  destruct (String.eqb_spec j "") as [->|]; [|done]. by apply rn_other.
Qed.

Lemma chain_renamed fuel : ∀ r seen t, r ∈ servers d → (∀ x, x ∈ seen → x ≠ new) →
  buildTargetSeen (get_of d) directFirst fuel (srv r) seen = Some (Ok t) →
  buildTargetSeen (get_of (renamed old new d)) directFirst fuel (srv (renamed_row old new r)) (set_map rn seen) = Some (Ok (rename_target old new t)).
Proof.
  induction fuel as [|fuel IH]; intros r seen t Hr Hs; [done|]. cbn [buildTargetSeen]. rewrite jump_renamed.
  change (Hostname (srv r)) with (hostname r). change (Hostname (srv (renamed_row old new r))) with (rn (hostname r)).
  case_bool_decide as Hin; [done|]. rewrite bool_decide_eq_false_2.
  2:{ intros (x & E & Hx)%elem_of_map. apply Hin. assert (hostname r = x) as ->; [|done]. eapply rn_inj; [by apply host_not_new|by apply Hs|done]. }
  destruct (String.eqb_spec (JumpVia (srv r)) "") as [Ej|Ej]; [rewrite String.eqb_refl; by intros [= <-]|].
  destruct (String.eqb_spec (rn (JumpVia (srv r))) "") as [E0|_].
  { unfold renamed_to in E0. destruct (String.eqb_spec (JumpVia (srv r)) old); congruence. }
  unfold get_of at 1. destruct (row_named (JumpVia (srv r)) d) as [j|] eqn:Eg; [|done]. unfold get_of at 2. rewrite (row_renamed _ _ Eg).
  destruct (row_named_in _ _ Eg) as [Hj _].
  destruct (buildTargetSeen (get_of d) directFirst fuel (srv j) _) as [[jt|]|] eqn:Eb; [|done..]. intros [= <-].
  apply IH in Eb; [|done|intros x [->%elem_of_singleton|Hx]%elem_of_union; [by apply host_not_new|by apply Hs]].
  rewrite set_map_union_L, set_map_singleton_L in Eb. by rewrite Eb.
Qed.
End chains.

(** A renamed host keeps its place.  Nothing but the audit names it as before,
    every other name is as it was, and every connection that could be built
    through the inventory, the host itself or a jump host on the way or not in
    it, is built as before with the new name in the old one's place. *)
Theorem a_renamed_host_keeps_its_place (d : db) old new : old ≠ new → old ≠ "" → new ≠ "" → new ∉ hostnames d →
  let d' := renamed old new d in
  (∀ h, h ∈ hostnames d' ↔ h = new ∧ old ∈ hostnames d ∨ h ≠ old ∧ h ∈ hostnames d) ∧
  (∀ r, r ∈ servers d' → jump_via r ≠ Some old) ∧ (∀ r, r ∈ owned d' → o_host r ≠ old) ∧
  (∀ a, a ∈ annotations d' → inventory_host a ≠ old ∧ parent_hostname a ≠ old) ∧ (∀ a, a ∈ allocations d' → al_hostname a ≠ old) ∧ audits d' = audits d ∧
  ∀ directFirst fuel r t, r ∈ servers d → BuildTarget (get_of d) directFirst fuel (srv r) = Some (Ok t) →
    renamed_row old new r ∈ servers d' ∧ BuildTarget (get_of d') directFirst fuel (srv (renamed_row old new r)) = Some (Ok (rename_target old new t)).
Proof.
  intros Hne Hold Hnew Hfree d'. assert (Hrn : ∀ s, renamed_to old new s ≠ old).
  { intros s. unfold renamed_to. by destruct (String.eqb_spec s old). }
  assert (Hall : ∀ {A} (f : A → A) (P : A → Prop) l, (∀ x, P (f x)) → ∀ y, y ∈ f <$> l → P y) by (intros A f P l H y (x & -> & _)%list_elem_of_fmap; apply H).
  split_and!.
  - intros h. unfold d', hostnames. cbn [renamed servers]. rewrite <- list_fmap_compose. split.
    + intros (r & -> & Hr)%list_elem_of_fmap. change ((hostname ∘ _) r) with (renamed_to old new (hostname r)). unfold renamed_to. destruct (String.eqb_spec (hostname r) old) as [E|E].
      * left. split; [done|]. rewrite <- E. by apply list_elem_of_fmap_2.
      * right. split; [done|]. by apply list_elem_of_fmap_2.
    + intros [[-> H]|[Hh H]]; apply list_elem_of_fmap in H as (r & E & Hr); apply list_elem_of_fmap; exists r; (split; [|done]);
        change ((hostname ∘ _) r) with (renamed_to old new (hostname r)); rewrite <- E; [by unfold renamed_to; rewrite String.eqb_refl|by rewrite rn_other].
  - apply Hall. intros r. change (renamed_to old new <$> jump_via r ≠ Some old). destruct (jump_via r) as [j|]; [|done]. cbn. intros [= E]. by destruct (Hrn j).
  - apply Hall. intros r. apply Hrn.
  - apply Hall. intros a. split; apply Hrn.
  - apply Hall. intros a. apply Hrn.
  - done.
  - intros df fuel r t Hr H. split; [by apply (list_elem_of_fmap_2 (renamed_row old new))|]. unfold BuildTarget in *.
    pose proof (chain_renamed old new d Hold Hnew Hfree df fuel r ∅ t Hr ltac:(set_solver) H) as HC. by rewrite set_map_empty in HC.
Qed.

(** ** An edit *)

Notation update := (λ h f d, (update_server (inet:=inet) h f d).1).

(** What each requested edit makes of the inventory, in order. *)
Definition edit_effects (e : hostEdits) (h : string) : list (db → db) :=
  (if given (e_DC e) then [update h (λ r, r <| dc := e_DC e |>)] else []) ++
  (if given (e_User e) then [update h (λ r, r <| ssh_user := e_User e |>)] else []) ++
  (if given (e_IP e) then [update h (λ r, r <| ip := default (ip r) (cast (e_IP e)) |>)] else []) ++
  (if clearIPs e then [update h (λ r, r <| extra_ips := [] |>)]
   else match to_inets cast (e_ExtraIPs e) with Ok (a :: l) => [update h (λ r, r <| extra_ips := a :: l |>)] | Ok [] => [] | Err _ => [λ d, d] end) ++
  (if given (e_State e) then [update h (λ r, r <| state := e_State e |>)] else []) ++
  (if given (e_JumpVia e) then [update h (λ r, r <| jump_via := if String.eqb (e_JumpVia e) jumpDirect then None else Some (e_JumpVia e) |>)] else []) ++
  (if given (e_Name e) then [λ d, renamed h (e_Name e) (cleared (e_Name e) d)] else []).

Definition done_so_far (k : nat) (effects : list (db → db)) (d : db) : db := foldl (λ d f, f d) d (take k effects).

(** A step makes its effect or leaves things as they are, and is right when it says it worked. *)
Definition makes (P : db → Prop) (m : W bool) (f : db → db) : Prop :=
  ∀ w r w', P (inv w) → m w = (r, w') → (inv w' = inv w ∨ inv w' = f (inv w)) ∧ (r = Ok true → inv w' = f (inv w)).

Lemma execMatched_makes P f g : (∀ d d' n, P d → f d = Ok (d', n) → (n = 0%nat ∧ d' = d) ∨ d' = g d) →
  makes P (execMatched f) g.
Proof.
  intros H w r w' HP E. apply statement_cases in E as [(a & d & Ef & -> & ->)|(e & -> & [->|(a & Ef)])]; [| by split; [left|]|];
    destruct (f (inv w)) as [[d' n]|] eqn:Ew; try done; injection Ef as <- <-; destruct (H _ _ _ HP Ew) as [[-> E]|E]; cbn in *.
  - split; [by left|done].
  - split; [by right|done].
  - split; [by left|done].
  - split; [by right|done].
Qed.

Lemma update_makes P h f : makes P (execMatched (λ d, Ok (update_server h f d))) (update h f).
Proof. apply execMatched_makes; intros d d' n _ [= E1 E2]. right. by rewrite <- E1. Qed.

Lemma SetIP_makes P h v : makes P (SetIP cast host h v) (update h (λ r, r <| ip := default (ip r) (cast v) |>)).
Proof.
  assert (makes P (execMatched (λ d, a ← to_inet cast v; Ok (if bool_decide (holders host h a d = []) then update_server h (λ r, r <| ip := a |>) d else (d, 0%nat))))
    (update h (λ r, r <| ip := default (ip r) (cast v) |>))) as HM.
  { apply execMatched_makes. intros d d' n _ E. unfold to_inet in E. destruct (cast v) as [a|]; cbn in E; [|done].
    case_bool_decide; injection E as <- <-; [by right|by left]. }
  intros w r w' HP E. unfold SetIP in E. apply bind_cases in E as [(b & w1 & E1 & E)|(e & E1 & ->)].
  - apply HM in E1 as [H1 H2]; [|done]. destruct b; [injection E as <- <-; by split|].
    assert (inv w' = inv w1 ∧ r ≠ Ok true) as [-> Hr]; [|by split].
    apply bind_cases in E as [(o & w2 & E2 & E)|(e & E2 & ->)].
    + assert (inv w2 = inv w1) as E3.
      { apply statement_cases in E2 as [(x & d & Ef & -> & _)|(e & ? & _)]; [|done]. destruct (to_inet cast v); [|done]. by injection Ef as _ <-. }
      destruct o as [o|]; injection E as <- <-; by split.
    + split; [|done]. apply statement_cases in E2 as [(x & d & _ & _ & ?)|(e' & _ & [->|(x & Ef)])]; [done|done|]. destruct (to_inet cast v); [|done]. by injection Ef as _ ->.
  - apply HM in E1 as [H1 H2]; [|done]. split; [done|done].
Qed.

Lemma SetExtraIPs_makes P h ips l : to_inets cast ips = Ok l → makes P (SetExtraIPs cast h ips) (update h (λ r, r <| extra_ips := l |>)).
Proof. intros E. apply execMatched_makes. intros d d' n _ Ed. rewrite E in Ed. injection Ed as E1 E2. right. by rewrite <- E1. Qed.

Lemma SetExtraIPs_refused P h ips e : to_inets cast ips = Err e → makes P (SetExtraIPs cast h ips) (λ d, d).
Proof. intros E. apply execMatched_makes. intros d d' n _ Ed. by rewrite E in Ed. Qed.

Lemma SetState_makes P h v : makes P (SetState h v) (update h (λ r, r <| state := v |>)).
Proof. unfold SetState. destruct (ValidState v); [apply update_makes|]. intros w r w' _ [= <- <-]. split; [by left|done]. Qed.

Lemma Rename_makes h n : h ≠ n → makes (intact h) (Rename h n) (λ d, renamed h n (cleared n d)).
Proof.
  intros Hne w r w' Hi E. destruct (rename_outcome w h n r w' Hne Hi E) as (H1 & H2).
  split; [destruct H1 as [?|(_ & _ & ?)]; [by left|by right]|]. intros ->. apply H2.
Qed.

(** The steps made, in order. *)
Definition made_in_order (P : db → Prop) (steps : list step) (effects : list (db → db)) : Prop :=
  Forall2 (λ (s : @step inet) f, makes P s.2 f ∧ ∀ d, P d → P (f d)) steps effects.

Lemma run_steps_made P h steps effects w r w' : made_in_order P steps effects → P (inv w) → run_steps h steps w = (r, w') →
  (∃ k, (k ≤ length effects)%nat ∧ inv w' = done_so_far k effects (inv w)) ∧ (r = Ok tt → inv w' = done_so_far (length effects) effects (inv w)).
Proof.
  unfold done_so_far. intros H. revert w. induction H as [|[label m] f steps effects [Hm Hf] _ IH]; intros w HP E.
  - injection E as <- <-. split; [by exists 0%nat|done].
  - cbn [run_steps] in E. apply bind_cases in E as [(b & w1 & E1 & E)|(e & E1 & ->)]; unfold labelled in E1; destruct (m w) as [[b'|e'] w2] eqn:Em; try done.
    + injection E1 as <- <-. destruct (Hm _ _ _ HP Em) as [H1 H2]. destruct b'.
      * rewrite (H2 eq_refl) in *. apply IH in E as [(k & Hk & Ek) Hr]; [|rewrite (H2 eq_refl); by apply Hf].
        rewrite (H2 eq_refl) in *. split; [exists (S k); split; [cbn; lia|done]|done].
      * injection E as <- <-. split; [|done]. destruct H1 as [->| ->]; [exists 0%nat|exists 1%nat]; cbn; (split; [lia|]); by rewrite ?take_0.
    + injection E1 as <- <-. destruct (Hm _ _ _ HP Em) as [H1 _]. split; [|done]. destruct H1 as [->| ->]; [exists 0%nat|exists 1%nat]; cbn; (split; [lia|]); by rewrite ?take_0.
Qed.

Lemma one_step P (m : W bool) f label : makes P m f → (∀ d, P d → P (f d)) → made_in_order P [(label, m)] [f].
Proof. intros H1 H2. constructor; [by split|constructor]. Qed.

Lemma when_step P (b : bool) (m : W bool) f label : (b = true → makes P m f) → (∀ d, P d → P (f d)) → made_in_order P (when b (label, m)) (if b then [f] else []).
Proof. intros H1 H2. destruct b; [apply one_step; [by apply H1|done]|constructor]. Qed.

Lemma update_intact h f d : intact h d → intact h (update h f d).
Proof. done. Qed.

Lemma edit_made e h : e_Name e ≠ h → made_in_order (intact h) (edit_steps cast host e h) (edit_effects e h).
Proof.
  intros Hn. unfold edit_steps, edit_effects.
  apply Forall2_app; [apply when_step; [intros _; apply update_makes|by apply update_intact]|].
  apply Forall2_app; [apply when_step; [intros _; apply update_makes|by apply update_intact]|].
  apply Forall2_app; [apply when_step; [intros _; apply SetIP_makes|by apply update_intact]|].
  apply Forall2_app.
  { destruct (clearIPs e); [apply one_step; [by apply SetExtraIPs_makes|by apply update_intact]|].
    destruct (e_ExtraIPs e) as [|x ips] eqn:Ei; [constructor|]. cbn [to_inets]. destruct (to_inet cast x) as [a|] eqn:Ex; cbn [mbind result_bind].
    2:{ apply one_step; [|done]. eapply SetExtraIPs_refused. cbn. by rewrite Ex. }
    destruct (to_inets cast ips) as [l|] eqn:El; cbn.
    - apply one_step; [|by apply update_intact]. apply SetExtraIPs_makes. cbn. by rewrite Ex; cbn; rewrite El.
    - apply one_step; [|done]. eapply SetExtraIPs_refused. cbn. by rewrite Ex; cbn; rewrite El. }
  apply Forall2_app; [apply when_step; [intros _; apply SetState_makes|by apply update_intact]|].
  apply Forall2_app.
  { destruct (String.eqb (e_JumpVia e) jumpDirect) eqn:Ej; apply when_step; try by apply update_intact; intros Hg.
    - intros Hg. apply update_makes.
    - intros Hg. unfold SetJumpVia, nullIfEmpty. unfold given in Hg. destruct (String.eqb _ ""); [done|]. apply update_makes. }
  apply when_step; [intros _; apply Rename_makes; congruence|]. intros d _ r Hr Eh. exfalso.
  apply list_elem_of_fmap in Hr as (x & -> & _). change (renamed_to h (e_Name e) (o_host x) = h) in Eh. unfold renamed_to in Eh. by destruct (String.eqb_spec (o_host x) h).
Qed.

Lemma query_keeps {A} (f : db → result string A) w r w' : query f w = (r, w') →
  inv w' = inv w ∧ (∀ a, r = Ok a → f (inv w) = Ok a) ∧ (troubles w = [] → troubles w' = [] ∧ r = f (inv w)).
Proof.
  unfold query, statement, next. cbn. destruct (default None (head (troubles w))) as [[e made]|] eqn:E; cbn.
  - intros [= <- <-]. split_and!; [destruct made; [by destruct (f (inv w))|done]|done|]. intros Ht. by rewrite Ht in E.
  - destruct (f (inv w)) as [a|e] eqn:Ef; cbn; intros [= <- <-]; (split_and!; [done| |intros Ht; cbn; by rewrite Ht]); [by intros a' [= <-]|done].
Qed.

Lemma FindHost_keeps h (w : world (inet:=inet)) r w' : FindHost h w = (r, w') → inv w' = inv w ∧ (∀ x, r = Ok x → hostname x = h ∧ h ∈ hostnames (inv w)) ∧
  (troubles w = [] → troubles w' = [] ∧ (is_ok r = true ↔ h ∈ hostnames (inv w))).
Proof.
  intros H. unfold FindHost in H. apply bind_cases in H as [(rows & w1 & H1 & H)|(e & H1 & ->)]; apply query_keeps in H1 as (E1 & E2 & E3).
  - specialize (E2 _ eq_refl). injection E2 as <-. pose proof (λ x, list_elem_of_filter (λ r, hostname r = h) (servers (inv w)) x) as HF.
    destruct (filter _ (servers (inv w))) as [|x l] eqn:Ef; injection H as <- <-; (split_and!; [done| |]).
    + done.
    + intros Ht. destruct (E3 Ht) as [-> _]. split; [done|]. split; [done|]. intros (y & E & Hy)%list_elem_of_fmap. exfalso. apply (elem_of_nil y). by apply HF.
    + intros y [= <-]. destruct (proj1 (HF x) (list_elem_of_here _ _)) as [<- Hx]. split; [done|]. by apply list_elem_of_fmap_2.
    + intros Ht. destruct (E3 Ht) as [-> _]. split; [done|]. split; [|done]. intros _. destruct (proj1 (HF x) (list_elem_of_here _ _)) as [<- Hx]. by apply list_elem_of_fmap_2.
  - split_and!; [done..|]. intros Ht. by destruct (E3 Ht).
Qed.

(** What validation lets through, when its reads are answered. *)
Definition sensible (e : hostEdits) (h : string) (d : db) : Prop :=
  e_Name e ≠ h ∧ (given (e_Name e) = true → e_Name e ∉ hostnames d) ∧ (given (e_State e) = true → ValidState (e_State e) = true) ∧
  Forall (λ s, is_Some (ParseIP (TrimSpace s))) (e_ExtraIPs e) ∧
  (given (e_JumpVia e) = true → e_JumpVia e ≠ jumpDirect → e_JumpVia e ∈ hostnames d ∧ e_JumpVia e ≠ (if given (e_Name e) then e_Name e else h)).

Lemma find_none {A} (P : A → bool) l : find P l = None → Forall (λ x, P x = false) l.
Proof. induction l as [|x l IH]; cbn; [constructor|]. destruct (P x) eqn:E; [done|]. constructor; [done|by apply IH]. Qed.

Lemma courtesy_spec {A} (m : W A) w r w' : courtesy m w = (r, w') → ∃ r0, m w = (r0, w') ∧ r = Ok match r0 with Ok a => Some a | Err _ => None end.
Proof. unfold courtesy. destruct (m w) as [r0 w1]. intros [= <- <-]. by exists r0. Qed.

Lemma jumpHostExists_keeps jump (w : world (inet:=inet)) r w' : jumpHostExists jump w = (r, w') → inv w' = inv w ∧ (troubles w = [] → r = Ok tt → jump ∈ hostnames (inv w)).
Proof.
  intros H. unfold jumpHostExists in H. apply bind_cases in H as [(o & w1 & H1 & H)|(e & H1 & ->)]; apply courtesy_spec in H1 as (r0 & H1 & E); [|done].
  injection E as ->. apply query_keeps in H1 as (E1 & _ & E3). destruct r0 as [rows|e].
  - case_bool_decide as Hj; injection H as <- <-; (split; [done|]); [|done]. intros Ht _. destruct (E3 Ht) as [_ E]. by injection E as ->.
  - injection H as <- <-. split; [done|]. intros Ht. by destruct (E3 Ht).
Qed.

Lemma validate_keeps e h (w : world (inet:=inet)) r w' : validate e h w = (r, w') → inv w' = inv w ∧ (r = Ok tt → e_Name e ≠ h ∧ (troubles w = [] → sensible e h (inv w))).
Proof.
  unfold validate, sensible. destruct (find _ (e_ExtraIPs e)) as [s|] eqn:Ef; [by intros [= <- <-]|]. apply find_none in Ef.
  assert (Forall (λ s, is_Some (ParseIP (TrimSpace s))) (e_ExtraIPs e)) as Hx.
  { eapply Forall_impl; [exact Ef|]. intros s. cbn. unfold bad_ip. destruct (ParseIP _); [by eexists|done]. }
  destruct (given (e_State e) && negb (ValidState (e_State e))) eqn:Es; [by intros [= <- <-]|].
  assert (given (e_State e) = true → ValidState (e_State e) = true) as Hs by (by intros Hg; rewrite Hg in Es; destruct (ValidState _)).
  destruct (String.eqb_spec (e_Name e) h) as [|Hn]; [by intros [= <- <-]|]. intros H.
  assert (∃ (taken : option (server_row inet)) w1, inv w1 = inv w ∧ (troubles w = [] → troubles w1 = [] ∧ (taken = None → given (e_Name e) = true → e_Name e ∉ hostnames (inv w))) ∧
    match taken with
    | Some _ => r ≠ Ok tt ∧ inv w' = inv w
    | None => (if String.eqb (e_JumpVia e) "" || String.eqb (e_JumpVia e) jumpDirect then mret tt
               else if String.eqb (e_JumpVia e) (if given (e_Name e) then e_Name e else h) then fail "--jump points at the host itself" else jumpHostExists (e_JumpVia e)) w1 = (r, w')
    end) as (taken & w1 & E1 & Ht & H1).
  { apply bind_cases in H as [(taken & w1 & H1 & H)|(err & H1 & ->)].
    - exists taken, w1. destruct (given (e_Name e)).
      + apply courtesy_spec in H1 as (r0 & H1 & E). apply FindHost_keeps in H1 as (E1 & _ & E3). injection E as ->. split_and!; [done| |].
        * intros Ht. destruct (E3 Ht) as [? Hi]. split; [done|]. intros Hr _. destruct r0; [done|]. by intros Hin%Hi.
        * destruct r0; [by injection H as <- <-|done].
      + injection H1 as <- <-. done.
    - destruct (given (e_Name e)); [apply courtesy_spec in H1 as (r0 & _ & ?)|]; done. }
  destruct taken as [x|]; [destruct H1 as [? ->]; by split|]. rewrite <- E1.
  destruct (String.eqb_spec (e_JumpVia e) "") as [Ej|Ej]; cbn [orb] in H1.
  { injection H1 as <- <-. split; [done|]. intros _. split; [done|]. intros Hw. destruct (Ht Hw) as [_ Hk]. split_and!; [done|rewrite E1; by apply Hk|done..|]. unfold given. by rewrite Ej. }
  destruct (String.eqb_spec (e_JumpVia e) jumpDirect) as [Ed|Ed].
  { injection H1 as <- <-. split; [done|]. intros _. split; [done|]. intros Hw. destruct (Ht Hw) as [_ Hk]. split_and!; [done|rewrite E1; by apply Hk|done..]. }
  destruct (String.eqb_spec (e_JumpVia e) (if given (e_Name e) then e_Name e else h)) as [|Eh]; [injection H1 as <- <-; by split|].
  apply jumpHostExists_keeps in H1 as [E2 Hj]. split; [done|]. intros ->. split; [done|]. intros Hw. destruct (Ht Hw) as [Hw1 Hk].
  split_and!; [done|rewrite E1; by apply Hk|done..|]. intros _ _. split; [by apply Hj|done].
Qed.

(** An edit writes what was asked.  Of the fields mentioned, and no others,
    the first so many are written, in the order dc, user, ip, extra addresses,
    state, jump and the name last, whatever fails on the way; all of them when
    the command says it worked, and it does so for a host that is there and,
    when the database answers its questions, with a name no one has, a jump host
    that is registered and is not the host, and a state the database knows. *)
Theorem edits_land_in_order e h w : intact h (inv w) →
  let '(r, w') := runEdit cast host e h w in let effects := edit_effects e h in
  (∃ k, (k ≤ length effects)%nat ∧ inv w' = done_so_far k effects (inv w)) ∧
  (r = Ok tt → h ∈ hostnames (inv w) ∧ empty_edits e = false ∧ inv w' = done_so_far (length effects) effects (inv w) ∧ (troubles w = [] → sensible e h (inv w))).
Proof.
  intros Hi. destruct (runEdit cast host e h w) as [r w'] eqn:E. cbv zeta. unfold runEdit in E.
  apply bind_cases in E as [(cur & w1 & E1 & E)|(err & E1 & ->)]; apply FindHost_keeps in E1 as (K1 & K2 & K3);
    [|split; [|done]; exists 0%nat; split; [lia|exact K1]]. destruct (K2 _ eq_refl) as [Eh Hin].
  assert (Hnone : inv w' = inv w → ∃ k, (k ≤ length (edit_effects e h))%nat ∧ inv w' = done_so_far k (edit_effects e h) (inv w)) by (intros ->; exists 0%nat; split; [lia|done]).
  destruct (empty_edits e) eqn:Ee; [injection E as <- <-; split; [by apply Hnone|done]|]. unfold edit_found in E. rewrite Ee, Eh in E.
  apply bind_cases in E as [([] & w2 & E2 & E)|(err & E2 & ->)]; apply validate_keeps in E2 as [V1 V2]; [|split; [apply Hnone; congruence|done]].
  destruct (V2 eq_refl) as [Hne Hv]. unfold apply_edits in E.
  destruct (if given (e_User e) then validLoginUser (e_User e) else None); [injection E as <- <-; split; [apply Hnone; congruence|done]|].
  assert (inv w2 = inv w) as E0 by congruence.
  apply (run_steps_made (intact h) h _ (edit_effects e h)) in E as [(k & Hk & Ek) Hr]; [|by apply edit_made|by rewrite E0].
  rewrite E0 in *. split; [by exists k|]. intros ->. split_and!; [done|done|by apply Hr|]. intros Hw. destruct (K3 Hw) as [Hw1 _]. rewrite <- K1. by apply Hv.
Qed.

(** ** A sync *)

(** What a person entered about a host. *)
Definition entered (r : server_row inet) : string * string * option string * string * string * list inet :=
  (hostname r, ssh_user r, jump_via r, dc r, state r, extra_ips r).

(** A host's row before and after. *)
Record refreshed (sv : Server) (guarded : bool) (d : db) (r r' : server_row inet) : Prop := {
  keeps_entered : entered r' = entered r;
  one_host : r' ≠ r → hostname r = Hostname sv ∨ ∃ a x, cast (InvCache.IP sv) = Some a ∧ x ∈ servers d ∧ hostname x = hostname r ∧ same_address host (ip x) a = true;
  moves_only : ip r' ≠ ip r → hostname r = Hostname sv ∧ ∃ a, cast (InvCache.IP sv) = Some a ∧ ip r' = a ∧
    (∀ x, x ∈ servers d → same_address host (ip x) a = false) ∧
    (guarded = true → LastSeenUp sv ≠ None ∨ unreported host (Hostname sv) a d = false) }.

Lemma refreshed_same sv g d r : refreshed sv g d r r.
Proof. by split. Qed.

Definition new_row (sv : Server) (r : server_row inet) : Prop :=
  hostname r = Hostname sv ∧ cast (InvCache.IP sv) = Some (ip r) ∧ ssh_user r = InvCache.User sv ∧ dc r = DC sv ∧ jump_via r = nullIfEmpty (JumpVia sv) ∧ state r = StateActive.

Definition synced (sv : Server) (guarded : bool) (d d' : db) : Prop :=
  (∃ rows extra, servers d' = rows ++ extra ∧ Forall2 (refreshed sv guarded d) (servers d) rows ∧
    (extra = [] ∨ ∃ r, extra = [r] ∧ new_row sv r ∧ Hostname sv ∉ hostnames d ∧ ∀ x, x ∈ servers d → same_address host (ip x) (ip r) = false)) ∧
  owned d' = owned d ∧ annotations d' = annotations d ∧ allocations d' = allocations d ∧ audits d' = audits d.

Lemma synced_refl sv g d : synced sv g d d.
Proof. split; [|done]. exists (servers d), []. rewrite app_nil_r. split_and!; [done| |by left]. apply Forall_Forall2_diag, Forall_forall. intros r _. apply refreshed_same. Qed.

(** A host of that name, or of that address, whose row is refreshed. *)
Lemma synced_update sv g d h f : (∀ r, r ∈ servers d → hostname r = h → refreshed sv g d r (f r)) → synced sv g d (update h f d).
Proof.
  intros H. split; [|done]. exists ((λ r, if String.eqb (hostname r) h then f r else r) <$> servers d), []. rewrite app_nil_r. split_and!; [done| |by left].
  apply Forall2_fmap_r, Forall_Forall2_diag, Forall_forall. intros r Hr. cbn.
  destruct (String.eqb_spec (hostname r) h); [by apply H|apply refreshed_same].
Qed.

Lemma refresh_row sv g d r a k : hostname r = Hostname sv → cast (InvCache.IP sv) = Some a → (∀ x, x ∈ servers d → same_address host (ip x) a = false) →
  (k = false → g = true → LastSeenUp sv ≠ None ∨ unreported host (Hostname sv) a d = false) →
  refreshed sv g d r ((if k : bool then r else r <| ip := a |> <| last_seen_up := LastSeenUp sv |>) <| ssh_port := Port sv |> <| ca_role := CARole sv |>).
Proof.
  intros Hh Hc Hf Hk. split; [by destruct k|by left|]. destruct k; [by intros []|]. intros _. split; [done|]. exists a. split_and!; [done..|by apply Hk].
Qed.

Lemma upsert_synced sv g w r w' : upsert cast host sv g w = (r, w') →
  synced sv g (inv w) (inv w') ∧
  ∀ o, r = Ok o → KeptAddress o = true →
    g = true ∧ LastSeenUp sv = None ∧ ∃ a x, cast (InvCache.IP sv) = Some a ∧ x ∈ servers (inv w') ∧ hostname x = Hostname sv ∧ Address o = host (ip x) ∧ host (ip x) ≠ host a ∧ unreported host (Hostname sv) a (inv w) = true.
Proof.
  intros H. unfold upsert in H. apply bind_cases in H as [(existing & w1 & H1 & H)|(e & H1 & ->)]; apply query_keeps in H1 as (E1 & E2 & _);
    [|split; [rewrite E1; apply synced_refl|done]].
  specialize (E2 _ eq_refl). unfold to_inet in E2. destruct (cast (InvCache.IP sv)) as [a|] eqn:Ec; [|done]. cbn in E2. injection E2 as E2.
  assert (Hex : ∀ x, x ∈ existing ↔ ∃ y, y ∈ servers (inv w) ∧ hostname y = x ∧ same_address host (ip y) a = true).
  { intros x. rewrite <- E2. unfold sort_strings. rewrite sort_elem_of, list_elem_of_fmap. setoid_rewrite list_elem_of_filter. naive_solver. }
  clear E2. destruct existing as [|h [|h2 rest]].
  - assert (Hfree : ∀ x, x ∈ servers (inv w) → same_address host (ip x) a = false).
    { intros x Hx. destruct (same_address host (ip x) a) eqn:E; [|done]. destruct (elem_of_nil (hostname x)) as [Hb _]. destruct Hb. apply Hex. by exists x. }
    assert (HS : synced sv g (inv w) (insert_or_refresh host g sv a (inv w)).2).
    { unfold insert_or_refresh. destruct (filter _ (servers (inv w))) as [|x l] eqn:Ef.
      - split; [|done]. eexists (servers (inv w)), [_]. split_and!; [done| |right; eexists; split; [done|]].
        + apply Forall_Forall2_diag, Forall_forall. intros r0 _. apply refreshed_same.
        + split; [split_and!; done|]. split; [|exact Hfree]. intros (y & E & Hy)%list_elem_of_fmap. apply (elem_of_nil y). rewrite <- Ef. by apply list_elem_of_filter.
      - apply synced_update. intros y Hy Eh. apply refresh_row; [done..|]. intros Hk ->. unfold keepStored in Hk. cbn in Hk. apply andb_false_iff in Hk as [Hk|Hk]; [left|by right].
        by apply bool_decide_eq_false in Hk. }
    apply bind_cases in H as [([st kept] & w2 & H2 & H)|(e & H2 & ->)]; apply statement_cases in H2 as [(y & d & Ef & Ed & E)|(e' & E & Ed)]; try done.
    + injection H as <- <-. injection E as <-. unfold to_inet in Ef. rewrite Ec in Ef. cbn in Ef. rewrite E1 in Ef. injection Ef as Ef. rewrite Ed. rewrite Ef in HS. split; [exact HS|].
      intros o [= <-] Hk. cbn in Hk. subst kept. unfold insert_or_refresh in Ef.
      destruct (filter (λ r, hostname r = Hostname sv) (servers (inv w))) as [|x l] eqn:Efl; [by injection Ef|]. 
      destruct (keepStored host g sv a (inv w)) eqn:Ek; [|injection Ef as _ E3 _; cbn in E3; by rewrite String.eqb_refl in E3].
      unfold keepStored in Ek. apply andb_true_iff in Ek as [Ek Hu]. apply andb_true_iff in Ek as [-> Hl]. apply bool_decide_eq_true in Hl. split_and!; [done|done|].
      injection Ef as Es E3 Edd. exists a, (x <| ssh_port := Port sv |> <| ca_role := CARole sv |>). split_and!; [done| | |symmetry; exact Es| |done].
      * rewrite <- Edd. cbn [update_server fst]. apply list_elem_of_fmap. exists x. assert (x ∈ x :: l) as Hx by by left. rewrite <- Efl in Hx. apply list_elem_of_filter in Hx as [Hh Hx].
        split; [|exact Hx]. by rewrite Hh, String.eqb_refl.
      * assert (x ∈ x :: l) as Hx by by left. rewrite <- Efl in Hx. by apply list_elem_of_filter in Hx as [Hh _].
      * intros E4. cbn in E3. change (ip (x <| ssh_port := Port sv |> <| ca_role := CARole sv |>)) with (ip x) in *. rewrite E4, String.eqb_refl in E3. done.
    + split; [|done]. unfold to_inet in Ed. rewrite Ec in Ed. cbn in Ed. rewrite E1 in Ed. destruct Ed as [->|(y & Ey)]; [apply synced_refl|]. injection Ey as Ey. by rewrite Ey in HS.
  - assert (HS : synced sv g (inv w) (update h (λ r, r <| ssh_port := Port sv |> <| ca_role := CARole sv |> <| last_seen_up := LastSeenUp sv |>) (inv w))).
    { apply synced_update. intros x Hx Eh. split; [done| |by intros []]. intros _. right. destruct (proj1 (Hex h) (list_elem_of_here _ _)) as (y & Hy & Ey & Ea).
      exists a, y. split_and!; [done..|congruence|done]. }
    apply bind_cases in H as [([] & w2 & H2 & H)|(e & H2 & ->)]; apply statement_cases in H2 as [(y & d & Ef & Ed & E)|(e' & E & Ed)]; try done.
    + injection H as <- <-. injection Ef as _ Ef. rewrite Ed, <- Ef, E1. split; [exact HS|]. by intros o [= <-].
    + split; [|done]. rewrite E1 in Ed. destruct Ed as [->|(y & Ey)]; [apply synced_refl|]. injection Ey as _ Ey. by rewrite <- Ey.
  - injection H as <- <-. split; [rewrite E1; apply synced_refl|done].
Qed.

(** C15. A sync leaves what people entered.  Whatever fails, a sync of one host
    changes no name, user, jump host, datacenter, state or extra address of any
    row, nor any other table; it touches rows of that name or that address; it
    moves a host to a new address only if no host holds it, and then, unless a
    person asked, only if it answered or the host's agent does not say
    otherwise; it adds at most one row, for a name and an address no host has;
    and it says an address was kept only where it was. *)
Theorem a_sync_keeps_what_people_entered sv g w : let '(r, w') := upsert cast host sv g w in
  synced sv g (inv w) (inv w') ∧
  ∀ o, r = Ok o → KeptAddress o = true →
    g = true ∧ LastSeenUp sv = None ∧ ∃ a x, cast (InvCache.IP sv) = Some a ∧ x ∈ servers (inv w') ∧ hostname x = Hostname sv ∧ Address o = host (ip x) ∧ host (ip x) ≠ host a ∧ unreported host (Hostname sv) a (inv w) = true.
Proof. destruct (upsert cast host sv g w) as [r w'] eqn:E. by apply upsert_synced in E. Qed.
End laws.

(** ** A small inventory *)

Module Sample.

(** Addresses as Postgres takes them: a network's mask is left to host(). *)
Definition cast (s : string) : option string := if string_all (in_cutset "0123456789./") s && negb (String.eqb s "") then Some s else None.
Definition host (a : string) : string := match Cut a "/" with Some (h, _) => h | None => a end.

Definition row (name a : string) (jump : option string) : server_row string :=
  {| hostname := name; ip := a; ssh_port := 22; ssh_user := "ubuntu"; jump_via := jump; dc := "seoul"; ca_role := "sre-core"; last_seen_up := None; state := StateActive; extra_ips := [] |}.
Definition belongs (t : owned_table) (name k1 k2 : string) (ips : list string) : owned_row string :=
  {| o_table := t; o_host := name; o_key1 := k1; o_key2 := k2; observed_ips := ips; o_rest := "" |}.

Definition fleet : inventory string :=
  {| servers := [row "gw" "192.0.2.1" None; row "db" "192.0.2.2" (Some "gw")];
     owned := [belongs server_status "gw" "" "" ["192.0.2.1"]; belongs wg_interfaces "gw" "wg0" "" []; belongs wg_peers "gw" "wg0" "k" []; belongs wg_peer_status "edge" "wg0" "k" []];
     annotations := [{| public_key := "k"; inventory_host := "db"; parent_hostname := "gw"; an_rest := "" |}];
     allocations := [{| al_ip := "192.0.2.1"; al_hostname := "gw"; al_rest := "" |}]; audits := [{| au_hostname := "gw"; au_rest := "login" |}] |}.
Definition at_rest (d : inventory string) : world := {| inv := d; troubles := [] |}.

Lemma fleet_intact : intact "gw" fleet.
Proof.
  assert (Forall (λ r, o_host r = "gw" → cascade (direct "gw") (owned fleet) r = true) (owned fleet)) as H.
  { repeat (constructor; [first [intros _; vm_compute; reflexivity|done]|]). constructor. }
  intros r. by apply (proj1 (Forall_forall _ _) H).
Qed.

(** The heartbeat someone left as edge's tunnel is gone, the gateway's is kept. *)
Lemma rename_is_whole_witness : let '(r, w') := Rename "gw" "edge" (at_rest fleet) in
  r = Ok true ∧
  (inv w' = fleet ∨ "gw" ∈ hostnames fleet ∧ "edge" ∉ hostnames fleet ∧ inv w' = renamed "gw" "edge" (cleared "edge" fleet)) ∧
  match r with Ok true => "gw" ∈ hostnames fleet ∧ inv w' = renamed "gw" "edge" (cleared "edge" fleet) | Ok false => "gw" ∉ hostnames fleet ∧ inv w' = fleet | Err _ => True end ∧
  (@nil trouble = [] → keys_fit "gw" "edge" (cleared "edge" fleet) → r = Ok (bool_decide ("gw" ∈ hostnames fleet)) ∨ "edge" ∈ hostnames fleet).
Proof.
  pose proof (rename_is_whole (at_rest fleet) "gw" "edge" ltac:(done) fleet_intact) as H. destruct (Rename "gw" "edge" (at_rest fleet)) as [r w'] eqn:E.
  split; [|exact H]. assert ((Rename "gw" "edge" (at_rest fleet)).1 = Ok true) as E1 by (vm_compute; reflexivity). by rewrite E in E1.
Defined.

Lemma a_renamed_host_keeps_its_place_witness : let d' := renamed "gw" "edge" (cleared "edge" fleet) in
  hostnames d' = ["edge"; "db"] ∧
  renamed_row "gw" "edge" (row "db" "192.0.2.2" (Some "gw")) ∈ servers d' ∧
  BuildTarget (get_of host d') false 3 (srv host (renamed_row "gw" "edge" (row "db" "192.0.2.2" (Some "gw")))) =
    Some (Ok (rename_target "gw" "edge" (default {| Name := ""; Addr := ""; Sshc.User := ""; Role := ""; SkipDirect := false; ConfirmHostKey := false; AutoAddHostKey := false; Jump := None |}
      (match BuildTarget (get_of host (cleared "edge" fleet)) false 3 (srv host (row "db" "192.0.2.2" (Some "gw"))) with Some (Ok t) => Some t | _ => None end)))).
Proof.
  split; [vm_compute; reflexivity|].
  pose proof (a_renamed_host_keeps_its_place host (cleared "edge" fleet) "gw" "edge" ltac:(done) ltac:(done) ltac:(done) ltac:(apply (bool_decide_unpack _); vm_compute; exact I)) as (_ & _ & _ & _ & _ & _ & H).
  destruct (BuildTarget (get_of host (cleared "edge" fleet)) false 3 (srv host (row "db" "192.0.2.2" (Some "gw")))) as [[t|e]|] eqn:E; [|vm_compute in E; discriminate..].
  apply (H false 3%nat _ t); [right; left|exact E].
Defined.

Definition to_mark : hostEdits :=
  {| e_DC := "busan"; e_IP := "192.0.2.9"; e_User := ""; e_JumpVia := ""; e_Name := "edge"; e_State := "maintenance"; e_ExtraIPs := ["192.0.2.10"]; clearIPs := false |}.

Lemma edits_land_in_order_witness : let '(r, w') := runEdit cast host to_mark "gw" (at_rest fleet) in
  r = Ok tt ∧
  (∃ k, (k ≤ length (edit_effects cast to_mark "gw"))%nat ∧ inv w' = done_so_far k (edit_effects cast to_mark "gw") fleet) ∧
  (r = Ok tt → "gw" ∈ hostnames fleet ∧ empty_edits to_mark = false ∧ inv w' = done_so_far (length (edit_effects cast to_mark "gw")) (edit_effects cast to_mark "gw") fleet ∧
     (@nil trouble = [] → sensible to_mark "gw" fleet)).
Proof.
  pose proof (edits_land_in_order cast host to_mark "gw" (at_rest fleet) fleet_intact) as H.
  destruct (runEdit cast host to_mark "gw" (at_rest fleet)) as [r w'] eqn:E. split; [|exact H].
  assert ((runEdit cast host to_mark "gw" (at_rest fleet)).1 = Ok tt) as E1 by (vm_compute; reflexivity). by rewrite E in E1.
Defined.

(** *** What the code does not say *)

Definition from_file (name a : string) : Server :=
  {| Hostname := name; InvCache.IP := a; Port := 22; InvCache.User := "ubuntu"; JumpVia := ""; DC := "seoul"; CARole := "sre-core"; CAKeyVersion := 1; LastSeenUp := Some 5; ExtraIPs := []; ServerState := "" |}.

(** [vctl add] takes an address another host holds; the next sync refuses it. *)
Lemma an_added_host_takes_a_held_address : let '(r, w') := runAdd cast host (from_file "new" "192.0.2.1") false (at_rest fleet) in
  r = Ok tt ∧ holders host "new" "192.0.2.1" (inv w') = ["gw"] ∧
  (UpsertSynced cast host (from_file "gw" "192.0.2.1") w').1 = Err "primary IP 192.0.2.1 belongs to multiple servers: gw, new".
Proof. split_and!; vm_compute; reflexivity. Qed.

(** The update of [SetIP], whose look at the other hosts is of the snapshot [seen]. *)
Definition set_ip_seeing (seen : inventory string) (h a : string) (d : inventory string) : inventory string :=
  if bool_decide (holders host h a seen = []) then (update_server h (λ r, r <| ip := a |>) d).1 else d.

(** Two of them at once, each seeing what was there before both. *)
Lemma two_edits_take_one_address : let d := set_ip_seeing fleet "gw" "192.0.2.7" fleet in let d' := set_ip_seeing fleet "db" "192.0.2.7" d in
  inv (SetIP cast host "gw" "192.0.2.7" (at_rest fleet)).2 = d ∧ holders host "gw" "192.0.2.7" d' = ["db"] ∧ holders host "db" "192.0.2.7" d' = ["gw"].
Proof. split_and!; vm_compute; reflexivity. Qed.

Definition new_address (a : string) : hostEdits :=
  {| e_DC := "busan"; e_IP := a; e_User := ""; e_JumpVia := ""; e_Name := ""; e_State := ""; e_ExtraIPs := []; clearIPs := false |}.

(** An address ssh cannot dial is written, and one Postgres refuses is found out
    after the datacenter is. *)
Lemma an_address_is_not_checked :
  (let '(r, w') := runEdit cast host (new_address "192.0.2.0/24") "gw" (at_rest fleet) in r = Ok tt ∧ bad_ip "192.0.2.0/24" = true) ∧
  (let '(r, w') := runEdit cast host (new_address "gateway") "gw" (at_rest fleet) in
   is_ok r = false ∧ (dc <$> servers (inv w')) = ["busan"; "seoul"]).
Proof. split_and!; vm_compute; split; reflexivity. Qed.

(** A capability left under the name, which is not cleared, makes it unusable. *)
Lemma a_stale_capability_blocks_the_name :
  let d := fleet <| owned := owned fleet ++ [belongs server_capabilities "gw" "openstack" "compute" []; belongs server_capabilities "edge" "openstack" "compute" []] |> in
  (Rename "gw" "edge" (at_rest d)).1 = Err "duplicate key value violates unique constraint".
Proof. vm_compute. reflexivity. Qed.
End Sample.
