(* ===== verification/Login.v ===== *)
(** Logging in to Vault (internal/app/app.go, internal/vaultc/oidc.go,
    internal/agent/agent.go, and the login and status commands of internal/cli):
    which identity a process takes on, when it keeps the token it has, and what
    it asks of Vault, of the terminal and of the browser for another.

    A login is a program over what it asks the outside; each request to Vault
    carries the token the client then holds.  Messages are not kept. *)

From Stdlib Require Import Ascii String ZArith Lia.
From S2P Require Import Prelude GoStrings GoURL VaultClient VaultToken Effects.
Open Scope Z_scope.

(** ** What a login asks *)

(** A request to the loopback listener. *)
Record http_request := { Method : string; rq_Path : string; rq_RawQuery : string }.

(** What happens while the callback is awaited, in the order it is seen. *)
Inductive happening := Arrived (r : http_request) | Expired3Minutes | Cancelled (e : string).

Inductive question :=
| Vault (token : string) (q : request)
| Now
| StoreToken (t : cachedToken)
| RemoveToken
| ReadFile (path : string)
| WriteFile (path content : string)
| GetenvUSER
| ReadString
| ReadPassword
| Listen
| OpenBrowser (url : string)
| Callbacks
| RecordSeenUser (identity : string)
| Wait (d : duration).

(** A file is absent, unreadable, or its content; waiting says whether the
    context ended meanwhile. *)
Definition reply (q : question) : Type :=
  match q with
  | Vault _ _ => answer
  | Now => time_t
  | StoreToken _ | RemoveToken | WriteFile _ _ | Listen | RecordSeenUser _ | Wait _ => bool
  | ReadFile _ => option (option string)
  | GetenvUSER | ReadString => string
  | ReadPassword => result string string
  | OpenBrowser _ => unit
  | Callbacks => list happening
  end.

(** The client in memory and the file that holds its token. *)
Record session := { client : Client; token_file : option cachedToken }.

Notation M := (sprog reply session).
Notation outcome := (result vault_error unit).

Definition token_of (s : session) : string := api_token (client s).

(** ** The client: internal/vaultc *)

(** The requests of the Vault client, sent with the token in use. *)
Fixpoint lift {A} (p : VaultClient.prog A) : M A :=
  match p with
  | VaultClient.Ret a => mret a
  | VaultClient.Ask q k => s ← get_s; a ← ask_s (Vault (token_of s) q); lift (k a)
  end.

Definition set_session (c : Client) (f : option cachedToken) : M unit := put_s {| client := c; token_file := f |}.

(** The clock is read and the file written only for an answer with a token. *)
Definition apply_auth (sec : option secret) : M outcome :=
  match sec with
  | Some {| Auth := Some a |} =>
      if String.eqb (ClientToken a) "" then mret (Err (VMsg "vault auth response has no token"))
      else
        now ← ask_s Now;
        stored ← ask_s (StoreToken {| ct_Token := ClientToken a; Expires := Add now (auth_ttl a); ct_Renewable := sa_Renewable a |});
        s ← get_s;
        let '(c, f, ok) := applyAuth now stored (client s) (token_file s) sec in
        set_session c f;; mret (if ok then Ok tt else Err (VMsg "write token"))
  | _ => mret (Err (VMsg "vault auth response has no token"))
  end.

(** A login or a renewal: its request, then the token of the answer. *)
Definition finish (p : VaultClient.prog (result vault_error (option secret))) : M outcome :=
  r ← lift p; match r with Ok sec => apply_auth sec | Err e => mret (Err e) end.

Definition valid_token : M bool :=
  s ← get_s; if String.eqb (token_of s) "" then mret false else now ← ask_s Now; mret (HasValidToken now (client s)).

Definition ttl_left : M duration :=
  s ← get_s; if IsZero (tokenExp (client s)) then mret 0 else now ← ask_s Now; mret (token_TTL now (client s)).

Definition validate_token : M (result vault_error unit) := s ← get_s; lift (ValidateToken (token_of s)).

Definition renew_token : M outcome := s ← get_s; finish (Renew (client s)).

Definition logout : M unit :=
  removed ← ask_s RemoveToken; s ← get_s; let '(c, f, _) := Logout removed (token_file s) in set_session c f.

(** ** The browser: oidc.go *)

Definition oidcRedirect : string := "http://localhost:8250/oidc/callback".

Definition oidcState (rawURL : string) : result vault_error string :=
  match url_RawQuery rawURL with
  | None => Err (VMsg "oidc auth_url parse")
  | Some q => let state := query_Get q "state" in if String.eqb state "" then Err (VMsg "oidc auth_url has no state") else Ok state
  end.

(** Where to send the browser, and the state its callback must echo. *)
Definition oidcAuthURL (mount role : string) : VaultClient.prog (result vault_error (string * string)) :=
  and_then (writePath ("auth/" +:+ mount +:+ "/oidc/auth_url") (Some [("role", JStr role); ("redirect_uri", JStr oidcRedirect)])) (λ r,
    let authURL := str_field "auth_url" r.2 in
    VaultClient.Ret (if String.eqb authURL "" then Err (VMsg "oidc: auth_url is empty") else state ← oidcState authURL; Ok (authURL, state))).

Record callback_params := { p_state : string; p_code : string; p_id_token : string }.

(** The handler's status, and what it puts in the channel. *)
Definition callback (expectedState : string) (r : http_request) : Z * option callback_params :=
  if negb (String.eqb (Method r) "GET") then (405, None)
  else
    let q := query_Get (rq_RawQuery r) in
    let params := {| p_state := q "state"; p_code := q "code"; p_id_token := q "id_token" |} in
    if String.eqb (p_state params) "" || negb (String.eqb (p_state params) expectedState) ||
       (String.eqb (p_code params) "" && String.eqb (p_id_token params) "")
    then (400, None) else (200, Some params).

(** The first callback that counts; the mux hands the handler its path only,
    and the timer ends what nothing else does. *)
Fixpoint await_callback (expectedState : string) (l : list happening) : result vault_error callback_params :=
  match l with
  | [] | Expired3Minutes :: _ => Err (VMsg "oidc: callback timeout after 3 minutes")
  | Cancelled e :: _ => Err (VMsg e)
  | Arrived r :: l =>
      if negb (String.eqb (rq_Path r) "/oidc/callback") then await_callback expectedState l
      else match (callback expectedState r).2 with Some p => Ok p | None => await_callback expectedState l end
  end.

Definition awaitOIDCCallback (authURL expectedState : string) : M (result vault_error callback_params) :=
  bound ← ask_s Listen;
  if negb (bound : bool) then mret (Err (VMsg "oidc callback port 8250 bind failed"))
  else _ ← ask_s (OpenBrowser authURL); l ← ask_s Callbacks; mret (await_callback expectedState l).

Definition callback_read (mount : string) (p : callback_params) : request :=
  ReadData ("auth/" +:+ mount +:+ "/oidc/callback") [("state", p_state p); ("code", p_code p); ("id_token", p_id_token p)].

Definition exchangeOIDCCallback (mount : string) (p : callback_params) : M outcome :=
  finish (a ← VaultClient.ask (callback_read mount p);
          VaultClient.Ret (match a with Err e => Err (VApi "oidc callback exchange" e) | Ok sec => Ok sec end)).

Definition LoginOIDC (mount role : string) : M outcome :=
  r ← lift (oidcAuthURL mount role);
  match r with
  | Err e => mret (Err e)
  | Ok (authURL, expectedState) =>
      p ← awaitOIDCCallback authURL expectedState;
      match p with Err e => mret (Err e) | Ok params => exchangeOIDCCallback mount params end
  end.

(** ** The login order: app.go *)

(** The settings a login reads. *)
Record Config := {
  AuthMethod : string; OIDCMount : string; OIDCRole : string;
  AppRoleMount : string; AppRoleID : string; AppRoleSecretID : string; AppRoleIDFile : string; AppRoleSecretIDFile : string; AppRoleSelfRole : string;
  KubernetesMount : string; KubernetesRole : string; KubernetesTokenFile : string;
}.

Definition DefaultServiceAccountTokenPath : string := "/var/run/secrets/kubernetes.io/serviceaccount/token".

Section login.
(** [tty]: somebody is there to answer ([App.Interactive]). *)
Context (Cfg : Config) (tty : bool).

Definition readFileTrim (path : string) : M string :=
  if String.eqb path "" then mret ""
  else b ← ask_s (ReadFile path); mret (match (b : option (option string)) with Some (Some c) => TrimSpace c | _ => "" end).

Definition AppRoleCreds : M (string * string * bool) :=
  f ← readFileTrim (AppRoleIDFile Cfg);
  let roleID := FirstNonEmpty [AppRoleID Cfg; f] in
  g ← readFileTrim (AppRoleSecretIDFile Cfg);
  let secretID := FirstNonEmpty [AppRoleSecretID Cfg; g] in
  mret (roleID, secretID, negb (String.eqb roleID "") && negb (String.eqb secretID "")).

(** Whether there was anything to try, and how it went. *)
Definition tryAppRoleLogin : M (bool * outcome) :=
  '(id, sec, have) ← AppRoleCreds;
  if negb have then mret (false, Ok tt)
  else r ← finish (LoginAppRole (AppRoleMount Cfg) id sec); mret (true, r).

Definition tryKubernetesLogin : M (bool * outcome) :=
  if String.eqb (KubernetesRole Cfg) "" then mret (false, Ok tt)
  else
    let path := if String.eqb (KubernetesTokenFile Cfg) "" then DefaultServiceAccountTokenPath else KubernetesTokenFile Cfg in
    b ← ask_s (ReadFile path);
    match ReadServiceAccountToken b with
    | Err e => mret (true, Err (VMsg e))
    | Ok None => mret (false, Ok tt)
    | Ok (Some jwt) => r ← finish (LoginKubernetes (KubernetesMount Cfg) (KubernetesRole Cfg) jwt); mret (true, r)
    end.

Definition loginUserpass : M outcome :=
  def ← ask_s GetenvUSER;
  line ← ask_s ReadString;
  let username := TrimSpace line in
  let username := if String.eqb username "" then def else username in
  if String.eqb username "" then mret (Err (VMsg "username is required"))
  else
    pw ← ask_s ReadPassword;
    match (pw : result string string) with
    | Err e => mret (Err (VMsg e))
    | Ok pw => finish (LoginUserpass username pw)
    end.

Definition Login (method : string) : M outcome :=
  let m := ToLower method in
  if String.eqb m "oidc" then LoginOIDC (OIDCMount Cfg) (OIDCRole Cfg)
  else if String.eqb m "approle" then
    r ← tryAppRoleLogin; mret (if negb r.1 then Err (VMsg "missing AppRole credentials") else r.2)
  else if String.eqb m "kubernetes" then
    r ← tryKubernetesLogin; mret (if negb r.1 then Err (VMsg "kubernetes auth needs a role and a projected service account token") else r.2)
  else if String.eqb m "" || String.eqb m "userpass" then loginUserpass
  else mret (Err (VMsg "unknown auth method")).

Inductive login_method := loginConfigured | loginAppRole | loginKubernetes.

Definition preferConfiguredLogin : bool :=
  let m := ToLower (AuthMethod Cfg) in if String.eqb m "userpass" || String.eqb m "oidc" then tty else false.

Definition loginOrder : list login_method :=
  if preferConfiguredLogin then [loginConfigured] else [loginAppRole; loginKubernetes; loginConfigured].

Definition worked (r : bool * outcome) : bool := match r with (true, Ok _) => true | _ => false end.

Fixpoint walk_order (l : list login_method) : M outcome :=
  match l with
  | [] => Login (AuthMethod Cfg)
  | loginConfigured :: _ => Login (AuthMethod Cfg)
  | loginAppRole :: l => r ← tryAppRoleLogin; if worked r then mret (Ok tt) else walk_order l
  | loginKubernetes :: l => r ← tryKubernetesLogin; if worked r then mret (Ok tt) else walk_order l
  end.

Definition renewAhead : duration := Hour.

(** A token that is renewable and lives: renewed if that works, else another
    login. *)
Definition renew_or_login : M outcome :=
  s ← get_s;
  again ← (if renewable (client s) then d ← ttl_left; mret (0 <? d) else mret false);
  if negb again then walk_order loginOrder
  else r ← renew_token; match r with Ok _ => mret (Ok tt) | Err _ => walk_order loginOrder end.

(** Within the hour before the expiry, for the best. *)
Definition renew_early : M unit :=
  s ← get_s;
  if renewable (client s) then d ← ttl_left; if d <? renewAhead then _ ← renew_token; mret tt else mret tt else mret tt.

Definition EnsureLogin : M outcome :=
  valid ← valid_token;
  if negb valid then renew_or_login
  else
    verdict ← validate_token;
    match verdict with
    | Ok _ => renew_early;; mret (Ok tt)
    | Err ErrTokenDenied => logout;; renew_or_login
    | Err _ => mret (Ok tt)
    end.

Definition ReAuthNonInteractive : M outcome :=
  r ← tryAppRoleLogin; mret (if negb r.1 then Err (VMsg "missing AppRole credentials for non-interactive re-auth") else r.2).

Definition ReAuth : M outcome :=
  r ← ReAuthNonInteractive; match r with Ok _ => mret (Ok tt) | Err _ => Login (AuthMethod Cfg) end.

(** ** The commands *)

(** [None] when it worked. *)
Definition RegisterAgent : M (option vault_error) :=
  '(_, _, have) ← AppRoleCreds;
  if have : bool then mret None
  else if String.eqb (AppRoleSelfRole Cfg) "" then mret (Some (VMsg "no approle_self_role configured"))
  else
    rid ← lift (AppRoleRoleID (AppRoleMount Cfg) (AppRoleSelfRole Cfg));
    match rid with
    | Err e => mret (Some e)
    | Ok rid =>
        sid ← lift (GenerateSecretID (AppRoleMount Cfg) (AppRoleSelfRole Cfg));
        match sid with
        | Err e => mret (Some e)
        | Ok sid =>
            if String.eqb (AppRoleIDFile Cfg) "" || String.eqb (AppRoleSecretIDFile Cfg) "" then mret (Some (VMsg "approle credential file paths not set"))
            else
              w ← ask_s (WriteFile (AppRoleIDFile Cfg) (rid +:+ String "010" ""));
              if negb (w : bool) then mret (Some (VMsg "write role id"))
              else
                w ← ask_s (WriteFile (AppRoleSecretIDFile Cfg) (sid +:+ String "010" ""));
                mret (if negb (w : bool) then Some (VMsg "write secret id") else None)
        end
    end.

(** The person is noted by their identity, unless that fails; the store it is
    written to is opened by the same answer. *)
Definition note_person : M unit :=
  s ← get_s;
  info ← lift (LookupToken elements (token_of s));
  match info with
  | Ok i => if String.eqb (ti_Identity i) "" then mret tt else _ ← ask_s (RecordSeenUser (ti_Identity i)); mret tt
  | Err _ => mret tt
  end.

Definition runLogin (method : string) (register : bool) : M outcome :=
  let m := if String.eqb method "" then AuthMethod Cfg else method in
  r ← Login m;
  match r with
  | Err e => mret (Err e)
  | Ok _ =>
      (if negb (String.eqb m "approle") && negb (String.eqb m "kubernetes") then note_person else mret tt);;
      (if register then _ ← RegisterAgent; mret tt else mret tt);;
      mret (Ok tt)
  end.

Inductive token_state := token_valid | approle_failed | token_valid_approle | token_missing.

(** The token's row of [vctl status], and whether the checks below it run. *)
Definition tokenStatus : M (token_state * bool) :=
  valid ← valid_token;
  if valid : bool then mret (token_valid, true)
  else
    '(_, _, have) ← AppRoleCreds;
    if negb have then mret (token_missing, false)
    else r ← ReAuthNonInteractive; mret (match r with Ok _ => (token_valid_approle, true) | Err _ => (approle_failed, false) end).

(** ** The agent: internal/agent *)

(** Two thirds of the lifetime left, in bounds; the product is an int64. *)
Definition renewWait (ttl : duration) : duration :=
  if ttl <=? 0 then 5 * Second
  else
    let w := Z.quot (wrap64 (ttl * 2)) 3 in
    let w := if w <? 5 * Second then 5 * Second else w in
    if 30 * Minute <? w then 30 * Minute else w.

Inductive loop_end := still_running | stopped | gave_up.

(** The first [n] rounds. *)
Fixpoint Keepalive (n : nat) : M loop_end :=
  match n with
  | O => mret still_running
  | S n =>
      d ← ttl_left;
      ended ← ask_s (Wait (renewWait d));
      if ended : bool then mret stopped
      else
        r ← renew_token;
        match r with
        | Ok _ => Keepalive n
        | Err _ => r ← ReAuthNonInteractive; match r with Ok _ => Keepalive n | Err _ => mret gave_up end
        end
  end.

(** Stops at the first sink that cannot be written. *)
Fixpoint writeSinks (sinks : list string) : M bool :=
  match sinks with
  | [] => mret true
  | p :: sinks =>
      if String.eqb p "" then writeSinks sinks
      else s ← get_s; w ← ask_s (WriteFile p (token_of s)); if negb (w : bool) then mret false else writeSinks sinks
  end.

Fixpoint run_rounds (sinks : list string) (n : nat) : M loop_end :=
  match n with
  | O => mret still_running
  | S n =>
      d ← ttl_left;
      ended ← ask_s (Wait (renewWait d));
      if ended : bool then mret stopped
      else
        r ← renew_token;
        r ← match r with Ok _ => mret (Ok tt) | Err _ => ReAuth end;
        match (r : outcome) with
        | Err _ => ended ← ask_s (Wait (10 * Second)); if ended : bool then mret stopped else run_rounds sinks n
        | Ok _ => _ ← writeSinks sinks; run_rounds sinks n
        end
  end.

Definition Manager_Run (sinks : list string) (n : nat) : M loop_end :=
  r ← EnsureLogin;
  match r with
  | Err _ => mret gave_up
  | Ok _ => w ← writeSinks sinks; if negb w then mret gave_up else run_rounds sinks n
  end.
End login.

(** ** Where tokens come from *)

Notation events := (list (event reply)).

(** Vault gave this token in answer to such a request. *)
Definition issued (by_request : request → Prop) (tr : events) (tok : string) : Prop :=
  tok ≠ "" ∧ ∃ sent q x a, Ev (Vault sent q) (Ok (Some x)) ∈ tr ∧ by_request q ∧ Auth x = Some a ∧ ClientToken a = tok.

Notation anything := (λ _ : request, True).

(** No token, the one held at first, or one Vault gave meanwhile. *)
Definition known (t0 : string) (h : events) (tok : string) : Prop := tok = "" ∨ tok = t0 ∨ issued anything h tok.

(** What is sent to Vault or written to a sink is a known token. *)
Definition sends_known (t0 : string) (h : events) (ev : event reply) : Prop :=
  match asked ev with Vault tok _ => known t0 h tok | WriteFile _ c => known t0 h c | _ => True end.

Definition honest {A} (m : M A) : Prop :=
  ∀ t0 h s, known t0 h (token_of s) →
    justified_after (sends_known t0) h (m s) ∧ ∀ tr a s', runs (m s) tr (a, s') → known t0 (h ++ tr) (token_of s').

Lemma issued_mono by_request h t tok : issued by_request h tok → issued by_request (h ++ t) tok.
Proof. intros (? & sent & q & x & a & H & ?). split; [done|]. exists sent, q, x, a. split; [|done]. apply elem_of_app. by left. Qed.

Lemma known_mono t0 h t tok : known t0 h tok → known t0 (h ++ t) tok.
Proof. intros [?|[?|?]]; [by left|by right; left|by right; right; apply issued_mono]. Qed.

Lemma bind_ask_runs {A} q (f : reply q → M A) s tr r : runs ((ask_s q ≫= f) s) tr r ↔ ∃ x t, tr = Ev q x :: t ∧ runs (f x s) t r.
Proof.
  rewrite runs_sbind. split.
  - intros (t1 & t2 & x & s1 & -> & H1 & H). apply runs_sask in H1 as (x' & -> & [= -> ->]). by exists x', t2.
  - intros (x & t & -> & H). exists [Ev q x], t, x, s. split_and!; [done| |done]. apply runs_sask. by exists x.
Qed.

Lemma get_bind_runs {A} (f : session → M A) s tr r : runs ((get_s ≫= f) s) tr r ↔ runs (f s s) tr r.
Proof. done. Qed.

Lemma known_mono_l t0 h t tok : known t0 t tok → known t0 (h ++ t) tok.
Proof.
  intros [?|[?|(? & sent & q & x & a & H & ?)]]; [by left|by right; left|]. right. right. split; [done|]. exists sent, q, x, a. split; [|done].
  apply elem_of_app. by right.
Qed.

Lemma honest_ret {A} (a : A) : honest (mret a).
Proof. intros t0 h s Hs. split; [apply justified_ret|]. intros tr a' s' [-> [= <- <-]]. by rewrite app_nil_r. Qed.

Lemma honest_bind {A B} (m : M A) (f : A → M B) : honest m → (∀ a, honest (f a)) → honest (m ≫= f).
Proof.
  intros Hm Hf t0 h s Hs. split.
  - apply justified_bind; [by apply Hm|]. intros t [a s1] Hr. apply Hf. by eapply Hm.
  - intros tr b s' H. apply runs_sbind in H as (t1 & t2 & a & s1 & -> & H1 & H2). rewrite (assoc_L (++)). eapply Hf; [|done]. by eapply Hm.
Qed.

Lemma honest_get_bind {A} (f : session → M A) :
  (∀ t0 h s, known t0 h (token_of s) → justified_after (sends_known t0) h (f s s) ∧ ∀ tr a s', runs (f s s) tr (a, s') → known t0 (h ++ tr) (token_of s')) →
  honest (s ← get_s; f s).
Proof. intros H. exact H. Qed.

Lemma honest_get : honest get_s.
Proof. intros t0 h s Hs. split; [apply justified_ret|]. intros tr a s' [-> [= <- <-]]. by rewrite app_nil_r. Qed.

Lemma honest_ask q : match q with Vault _ _ | WriteFile _ _ => False | _ => True end → honest (ask_s q).
Proof.
  intros Hq t0 h s Hs. split.
  - apply justified_bind; [|intros; apply justified_ret]. apply justified_ask. intros x. unfold sends_known. cbn. by destruct q.
  - intros tr a s' H. apply (runs_sask (R:=reply)) in H as (x & -> & [= -> ->]). by apply known_mono.
Qed.

Lemma honest_lift {A} (p : VaultClient.prog A) : honest (lift p).
Proof.
  induction p as [a|q k IH]; [apply honest_ret|]. cbn [lift]. apply honest_get_bind. intros t0 h s Hs. split.
  - apply justified_bind.
    + apply justified_bind; [|intros; apply justified_ret]. by apply justified_ask.
    + intros t [x s1] (x' & t' & -> & -> & [= -> ->]). apply IH. by apply known_mono.
  - intros tr b s' H. apply (bind_ask_runs (Vault _ _)) in H as (x & t & -> & H). rewrite (cons_middle _ h). rewrite (assoc_L (++)).
    eapply IH; [|done]. by apply known_mono.
Qed.

(** A login's program: one request, and its answer as it came. *)
Definition forwards (by_request : request → Prop) (p : VaultClient.prog (result vault_error (option secret))) : Prop :=
  (∃ e, p = VaultClient.Ret (Err e)) ∨
  ∃ q f, by_request q ∧ p = VaultClient.Ask q (λ a, VaultClient.Ret (match a with Err e => Err (f e) | Ok sec => Ok sec end)).

Lemma LoginAppRole_forwards mount id sec :
  forwards (λ q, q = WriteData ("auth/" +:+ (if String.eqb mount "" then "approle" else mount) +:+ "/login") (Some [("role_id", JStr id); ("secret_id", JStr sec)]))
    (LoginAppRole mount id sec).
Proof. unfold LoginAppRole. destruct (_ || _); [left|right]; eauto. Qed.

Lemma LoginUserpass_forwards u p : forwards (λ q, q = WriteData ("auth/userpass/login/" +:+ u) (Some [("password", JStr p)])) (LoginUserpass u p).
Proof. right. eexists _, _. split; reflexivity. Qed.

Lemma LoginKubernetes_forwards mount role jwt : forwards anything (LoginKubernetes mount role jwt).
Proof. unfold LoginKubernetes. destruct (String.eqb role ""); [left; eauto|]. destruct (String.eqb (TrimSpace jwt) ""); [left|right]; eauto. Qed.

Lemma Renew_forwards c : forwards (λ q, q = RenewSelf) (Renew c).
Proof. unfold Renew. destruct (String.eqb (api_token c) ""); [left|right]; eauto. Qed.

Lemma callback_forwards mount p :
  forwards (λ q, q = callback_read mount p)
    (a ← VaultClient.ask (callback_read mount p); VaultClient.Ret (match a with Err e => Err (VApi "oidc callback exchange" e) | Ok sec => Ok sec end)).
Proof. right. eexists _, _. split; reflexivity. Qed.

Lemma forwards_mono (P Q : request → Prop) p : (∀ q, P q → Q q) → forwards P p → forwards Q p.
Proof. intros H [?|(q & f & ? & ?)]; [by left|right; exists q, f; split; auto]. Qed.

(** What an answer without a token does, and what one with a token does. *)
Lemma apply_auth_runs sec s tr r s' : runs (apply_auth sec s) tr (r, s') →
  (tr = [] ∧ s' = s ∧ r ≠ Ok tt) ∨
  ∃ x a now stored, sec = Some x ∧ Auth x = Some a ∧ ClientToken a ≠ "" ∧ token_of s' = ClientToken a ∧ (r = Ok tt ↔ stored = true) ∧
    tr = [Ev Now now; Ev (StoreToken {| ct_Token := ClientToken a; Expires := Add now (auth_ttl a); ct_Renewable := sa_Renewable a |}) stored].
Proof.
  unfold apply_auth. destruct sec as [[x1 x2 x3 x4 [a|]]|]; [|by intros [-> [= <- <-]]; left..].
  destruct (String.eqb_spec (ClientToken a) "") as [|Ht]; [by intros [-> [= <- <-]]; left|].
  intros H. apply (bind_ask_runs Now) in H as (now & t & -> & H). apply (bind_ask_runs (StoreToken _)) in H as (stored & t' & -> & H).
  right. eexists _, a, _, _. cbn in H. rewrite (proj2 (String.eqb_neq _ _) Ht) in H. unfold saveToken in H. destruct H as [-> [= <- <-]].
  split_and!; [done..| |done]. match goal with |- context [if ?b then _ else _] => by destruct b end.
Qed.

(** A login or renewal: nothing but its request, and either no token came of it
    or the token of the answer is in use. *)
Lemma finish_runs by_request p s tr r s' : forwards by_request p → runs (finish p s) tr (r, s') →
  (token_of s' = token_of s ∧ r ≠ Ok tt) ∨ issued by_request tr (token_of s').
Proof.
  intros [[e ->]|(q & f & Hq & ->)] H.
  - left. by destruct H as [-> [= <- <-]].
  - apply runs_sbind in H as (t1 & t2 & a & s1 & -> & H1 & H). cbn in H1. destruct H1 as (x & ? & -> & -> & [= <- <-]).
    destruct x as [sec|e]; [|by destruct H as [-> [= <- <-]]; left].
    apply apply_auth_runs in H as [(-> & -> & Hr)|(x & a & now & stored & -> & Ha & Ht & Ht' & Hr & ->)]; [by left|].
    right. split; [congruence|]. eexists _, q, x, a. split_and!; [|done..]. apply list_elem_of_here.
Qed.

Lemma issued_known by_request t0 h tr tok : issued by_request tr tok → known t0 (h ++ tr) tok.
Proof.
  intros (? & sent & q & x & a & H & _ & ?). right. right. split; [done|]. exists sent, q, x, a. split; [|done]. apply elem_of_app. by right.
Qed.

Lemma apply_auth_sends t0 h sec s : justified_after (sends_known t0) h (apply_auth sec s).
Proof.
  unfold apply_auth. destruct sec as [[x1 x2 x3 x4 [a|]]|]; [|apply justified_ret..].
  destruct (String.eqb (ClientToken a) ""); [apply justified_ret|].
  apply justified_bind; [apply justified_bind; [by apply justified_ask|intros; apply justified_ret]|]. intros t1 [now s1] _.
  apply justified_bind; [apply justified_bind; [by apply justified_ask|intros; apply justified_ret]|]. intros t2 [stored s2] _.
  cbn. destruct (String.eqb (ClientToken a) ""); apply justified_ret.
Qed.

Lemma honest_finish by_request p : forwards by_request p → honest (finish p).
Proof.
  intros Hp t0 h s Hs. split.
  - apply justified_bind; [by apply honest_lift|]. intros t [[sec|e] s1] _; [apply apply_auth_sends|apply justified_ret].
  - intros tr r s' H. apply (finish_runs _ _ _ _ _ _ Hp) in H as [[-> _]|H]; [by apply known_mono|by eapply issued_known].
Qed.

Lemma honest_logout : honest logout.
Proof.
  intros t0 h s Hs. split.
  - apply justified_bind; [apply justified_bind; [by apply justified_ask|intros; apply justified_ret]|]. intros t1 [now s1] _. apply justified_ret.
  - intros tr [] s' H. apply (bind_ask_runs RemoveToken) in H as (x & t & -> & -> & [= <-]). by left.
Qed.

Create HintDb honest.
#[export] Hint Resolve honest_ret honest_get honest_lift honest_logout LoginAppRole_forwards LoginUserpass_forwards LoginKubernetes_forwards
  Renew_forwards callback_forwards : honest.
#[export] Hint Extern 1 (honest (ask_s _)) => apply honest_ask; exact I : honest.
#[export] Hint Extern 1 (honest (finish _)) => eapply honest_finish : honest.
#[export] Hint Extern 2 (honest (_ ≫= _)) => apply honest_bind; [|intros] : honest.
#[export] Hint Extern 3 (honest _) => progress cbv beta zeta : honest.
#[export] Hint Extern 4 (honest (if ?b then _ else _)) => destruct b : honest.
#[export] Hint Extern 4 (honest (match ?x with _ => _ end)) => destruct x : honest.

(** Every operation, from the leaves up. *)
Section honest.
Context (Cfg : Config).

Lemma honest_readFileTrim path : honest (readFileTrim path).
Proof. unfold readFileTrim. auto with honest. Qed.
Hint Resolve honest_readFileTrim : honest.

Lemma honest_AppRoleCreds : honest (AppRoleCreds Cfg).
Proof. unfold AppRoleCreds. auto with honest. Qed.
Hint Resolve honest_AppRoleCreds : honest.

Lemma honest_tryAppRoleLogin : honest (tryAppRoleLogin Cfg).
Proof. unfold tryAppRoleLogin. eauto 10 with honest. Qed.
Hint Resolve honest_tryAppRoleLogin : honest.

Lemma honest_tryKubernetesLogin : honest (tryKubernetesLogin Cfg).
Proof. unfold tryKubernetesLogin. eauto 10 with honest. Qed.
Hint Resolve honest_tryKubernetesLogin : honest.

Lemma honest_LoginOIDC mount role : honest (LoginOIDC mount role).
Proof. unfold LoginOIDC, awaitOIDCCallback, exchangeOIDCCallback. eauto 12 with honest. Qed.
Hint Resolve honest_LoginOIDC : honest.

Lemma honest_Login method : honest (Login Cfg method).
Proof. unfold Login, loginUserpass. eauto 24 with honest. Qed.
Hint Resolve honest_Login : honest.

Lemma honest_walk_order l : honest (walk_order Cfg l).
Proof. induction l as [|[] l IH]; cbn [walk_order]; eauto 10 with honest. Qed.
Hint Resolve honest_walk_order : honest.

Lemma honest_renew_or_login tty : honest (renew_or_login Cfg tty).
Proof. unfold renew_or_login, ttl_left, renew_token. eauto 20 with honest. Qed.
Hint Resolve honest_renew_or_login : honest.

Lemma honest_EnsureLogin tty : honest (EnsureLogin Cfg tty).
Proof. unfold EnsureLogin, renew_early, valid_token, validate_token, ttl_left, renew_token. eauto 24 with honest. Qed.
End honest.

(** ** Which questions a login may ask *)

(** The requests of a client program, whatever Vault answers. *)
Fixpoint requests_only {A} (P : request → Prop) (p : VaultClient.prog A) : Prop :=
  match p with VaultClient.Ret _ => True | VaultClient.Ask q k => P q ∧ ∀ a, requests_only P (k a) end.

Lemma requests_only_forwards (P : request → Prop) p : forwards P p → requests_only P p.
Proof. intros [[e ->]|(q & f & Hq & ->)]; cbn; [done|]. by split; [|intros]. Qed.

Definition stays {A} (ok : question → Prop) (m : M A) : Prop := emits_s (λ ev, ok (asked ev)) m.

Section stays.
Context (ok : question → Prop).

Lemma stays_ask q : ok q → stays ok (ask_s q).
Proof. intros H. by apply emits_sask. Qed.

Lemma stays_bind {A B} (m : M A) (f : A → M B) : stays ok m → (∀ a, stays ok (f a)) → stays ok (m ≫= f).
Proof. apply emits_sbind. Qed.

Lemma stays_lift {A} (p : VaultClient.prog A) : requests_only (λ q, ∀ tok, ok (Vault tok q)) p → stays ok (lift p).
Proof.
  induction p as [a|q k IH]; cbn [lift requests_only]; [intros _; apply emits_sret|]. intros [Hq Hk].
  apply stays_bind; [apply emits_get|]. intros s. apply (stays_bind (ask_s (Vault (token_of s) q))); [by apply stays_ask|]. intros a. by apply IH.
Qed.

Lemma stays_apply_auth sec : ok Now → (∀ t, ok (StoreToken t)) → stays ok (apply_auth sec).
Proof.
  intros Hn Ht. unfold apply_auth. destruct sec as [[x1 x2 x3 x4 [a|]]|]; [|apply emits_sret..].
  destruct (String.eqb (ClientToken a) ""); [apply emits_sret|].
  apply (stays_bind (ask_s Now)); [by apply stays_ask|]. intros now.
  apply (stays_bind (ask_s (StoreToken _))); [by apply stays_ask|]. intros stored.
  apply stays_bind; [apply emits_get|]. intros s. destruct (applyAuth _ _ _ _ _) as [[c f] b]. apply stays_bind; [apply emits_put|intros; apply emits_sret].
Qed.

Lemma stays_finish p : ok Now → (∀ t, ok (StoreToken t)) → requests_only (λ q, ∀ tok, ok (Vault tok q)) p → stays ok (finish p).
Proof. intros Hn Ht Hp. apply stays_bind; [by apply stays_lift|]. intros [sec|e]; [by apply stays_apply_auth|apply emits_sret]. Qed.
End stays.

(** One step of following a program's text. *)
Ltac stay :=
  lazymatch goal with
  | |- stays _ (mret _) => apply emits_sret
  | |- stays _ get_s => apply emits_get
  | |- stays _ (set_session _ _) => apply emits_put
  | |- stays _ (ask_s _) => apply stays_ask
  | |- stays _ (lift _) => apply stays_lift
  | |- stays _ (finish _) => apply stays_finish
  | |- stays _ (_ ≫= _) => apply stays_bind; [|intros ?]
  | |- stays _ (if ?b then _ else _) => destruct b
  | |- stays _ (match ?x with _ => _ end) => destruct x
  | |- stays _ _ => progress cbv beta zeta
  end.

(** ** The identity that was configured *)

(** The login requests of the configured method, when it asks a person. *)
Definition configured_request (Cfg : Config) (q : request) : Prop :=
  if String.eqb (ToLower (AuthMethod Cfg)) "userpass" then ∃ user password, q = WriteData ("auth/userpass/login/" +:+ user) (Some [("password", JStr password)])
  else
    q = WriteData ("auth/" +:+ OIDCMount Cfg +:+ "/oidc/auth_url") (Some [("role", JStr (OIDCRole Cfg)); ("redirect_uri", JStr oidcRedirect)]) ∨
    ∃ p, q = callback_read (OIDCMount Cfg) p.

(** No credential file is read; Vault is asked about the token, for its renewal
    and for the configured login. *)
Definition own_question (Cfg : Config) (q : question) : Prop :=
  match q with
  | Vault _ q => q = LookupSelf ∨ q = RenewSelf ∨ configured_request Cfg q
  | ReadFile _ | WriteFile _ _ | RecordSeenUser _ | Wait _ => False
  | _ => True
  end.

Section own_identity.
Context (Cfg : Config) (Hm : ToLower (AuthMethod Cfg) = "userpass" ∨ ToLower (AuthMethod Cfg) = "oidc").

Lemma requests_only_oidcAuthURL P mount role :
  P (WriteData ("auth/" +:+ mount +:+ "/oidc/auth_url") (Some [("role", JStr role); ("redirect_uri", JStr oidcRedirect)])) →
  requests_only P (oidcAuthURL mount role).
Proof using. intros H. split; [done|]. intros [[sec|]|]; cbn; [|done..]. by destruct (Data sec). Qed.

Lemma stays_own_login : stays (own_question Cfg) (Login Cfg (AuthMethod Cfg)).
Proof using Hm.
  destruct Hm as [E|E].
  - assert (Login Cfg (AuthMethod Cfg) = loginUserpass) as -> by (unfold Login; by rewrite E).
    unfold loginUserpass. repeat stay; try done. split; [|done]. intros tok. right. right. unfold configured_request. rewrite E, String.eqb_refl. eauto.
  - assert (Login Cfg (AuthMethod Cfg) = LoginOIDC (OIDCMount Cfg) (OIDCRole Cfg)) as -> by (unfold Login; by rewrite E).
    assert (∀ q, (q = WriteData ("auth/" +:+ OIDCMount Cfg +:+ "/oidc/auth_url") (Some [("role", JStr (OIDCRole Cfg)); ("redirect_uri", JStr oidcRedirect)]) ∨
      ∃ p, q = callback_read (OIDCMount Cfg) p) → ∀ tok, own_question Cfg (Vault tok q)) as Hq.
    { intros q Hq tok. right. right. unfold configured_request. by rewrite E. }
    unfold LoginOIDC, awaitOIDCCallback, exchangeOIDCCallback. repeat stay; try done.
    + apply requests_only_oidcAuthURL. apply Hq. by left.
    + split; [|done]. apply Hq. right. eauto.
Qed.

Lemma stays_EnsureLogin : stays (own_question Cfg) (EnsureLogin Cfg true).
Proof using Hm.
  assert (walk_order Cfg (loginOrder Cfg true) = Login Cfg (AuthMethod Cfg)) as Hw.
  { unfold loginOrder, preferConfiguredLogin. destruct Hm as [->| ->]; done. }
  assert (∀ c, requests_only (λ q, ∀ tok, own_question Cfg (Vault tok q)) (Renew c)) as Hr.
  { intros c. apply requests_only_forwards, (forwards_mono (λ q, q = RenewSelf)); [|apply Renew_forwards]. intros q -> tok. by right; left. }
  unfold EnsureLogin, renew_early, renew_or_login, valid_token, validate_token, ttl_left, renew_token, logout. rewrite Hw.
  repeat first [apply stays_own_login | stay]; try done.
  unfold ValidateToken. destruct (String.eqb _ ""); cbn; [done|]. by split; [left|].
Qed.
End own_identity.

(** The token in use was kept, or is one Vault gave for such a request. *)
Definition kept_or_issued (by_request : request → Prop) (s : session) (tr : events) (s' : session) : Prop :=
  token_of s' = token_of s ∨ issued by_request tr (token_of s').

Lemma issued_where by_request (ok : question → Prop) tr tok :
  (∀ t q, ok (Vault t q) → by_request q) → Forall (λ ev, ok (asked ev)) tr → issued anything tr tok → issued by_request tr tok.
Proof.
  intros Hok Hf (Ht & sent & q & x & a & Hin & _ & Ha). split; [done|]. exists sent, q, x, a. split_and!; [done| |by apply Ha..].
  eapply Hok. rewrite Forall_forall in Hf. by apply (Hf _ Hin).
Qed.

(** C5. The identity an installation names is the one it gets.  Where the
    configured method asks a person and somebody is there, a process that needs
    a token reads no AppRole and no Kubernetes credential and sends Vault
    nothing but questions about the token, its renewal, and the configured
    login, whatever Vault, the browser and the terminal answer and wherever the
    process is cut short; the token it ends with is the one it had, one renewed
    from it, or one the configured login gave. *)
Theorem the_configured_identity_is_kept Cfg s :
  ToLower (AuthMethod Cfg) = "userpass" ∨ ToLower (AuthMethod Cfg) = "oidc" →
  (∀ tr, reaches (EnsureLogin Cfg true s) tr → Forall (λ ev, own_question Cfg (asked ev)) tr) ∧
  (∀ tr r s', runs (EnsureLogin Cfg true s) tr (r, s') →
     token_of s' = "" ∨ kept_or_issued (λ q, q = LookupSelf ∨ q = RenewSelf ∨ configured_request Cfg q) s tr s').
Proof.
  intros Hm. pose proof (stays_EnsureLogin Cfg Hm s) as Hs. split; [done|]. intros tr r s' H.
  pose proof (Hs _ (reaches_runs _ _ _ H)) as Hf.
  destruct (honest_EnsureLogin Cfg true (token_of s) [] s (or_intror (or_introl eq_refl))) as [_ Hh].
  destruct (Hh _ _ _ H) as [?|[?|?]]; [by left|right; by left|right; right]. by eapply (issued_where _ (own_question Cfg)).
Qed.

(** ** A login that worked leaves Vault's token *)

Definition earns {A} (P : A → Prop) (m : M A) : Prop := ∀ s tr a s', runs (m s) tr (a, s') → P a → issued anything tr (token_of s').

Notation success := (λ r : outcome, r = Ok tt).

Lemma earns_ret {A} (P : A → Prop) a : ¬ P a → earns P (mret a).
Proof. intros H s tr a' s' [-> [= <- <-]] Ha. done. Qed.

Lemma issued_app_r by_request t1 t2 tok : issued by_request t2 tok → issued by_request (t1 ++ t2) tok.
Proof. intros (? & sent & q & x & a & H & ?). split; [done|]. exists sent, q, x, a. split; [|done]. apply elem_of_app. by right. Qed.

Lemma earns_bind_r {A B} (P : B → Prop) (m : M A) (f : A → M B) : (∀ a, earns P (f a)) → earns P (m ≫= f).
Proof. intros H s tr b s' Hr Hb. apply runs_sbind in Hr as (t1 & t2 & a & s1 & -> & _ & H2). apply issued_app_r. by eapply H. Qed.

(** The first part earned it, and the rest only passes it on; or the rest does. *)
Lemma earns_bind {A B} (Q : A → Prop) (P : B → Prop) (m : M A) (f : A → M B) :
  earns Q m → (∀ a, earns P (f a) ∨ Q a ∧ ∃ b, f a = mret b) → earns P (m ≫= f).
Proof.
  intros Hm Hf s tr b s' Hr Hb. apply runs_sbind in Hr as (t1 & t2 & a & s1 & -> & H1 & H2).
  destruct (Hf a) as [He|[Ha [b' Hb']]]; [apply issued_app_r; by eapply He|]. rewrite Hb' in H2. destruct H2 as [-> [= <- <-]].
  apply issued_mono. by eapply Hm.
Qed.

Lemma earns_finish by_request p : forwards by_request p → earns success (finish p).
Proof.
  intros Hp s tr r s' H ->. apply (finish_runs _ _ _ _ _ _ Hp) in H as [[_ ?]|(? & sent & q & x & a & ? & _ & ?)]; [done|]. split; [done|]. by exists sent, q, x, a.
Qed.

Create HintDb earns.
#[export] Hint Resolve LoginAppRole_forwards LoginUserpass_forwards LoginKubernetes_forwards Renew_forwards callback_forwards : earns.
#[export] Hint Extern 1 (earns _ (finish _)) => eapply earns_finish : earns.
#[export] Hint Extern 1 (earns _ (mret _)) => apply earns_ret; (done || by intros [= ?]) : earns.
#[export] Hint Extern 2 (earns _ (_ ≫= _)) => apply earns_bind_r; intros : earns.
#[export] Hint Extern 3 (earns _ _) => progress cbv beta zeta : earns.
#[export] Hint Extern 4 (earns _ (if ?b then _ else _)) => destruct b : earns.
#[export] Hint Extern 4 (earns _ (match ?x with _ => _ end)) => destruct x : earns.

Section earns.
Context (Cfg : Config).
Notation tried := (λ r : bool * outcome, worked r = true).

Lemma earns_try by_request p : forwards by_request p → earns tried (r ← finish p; mret (true, r)).
Proof.
  intros Hp. apply (earns_bind success); [by eapply earns_finish|]. intros [[]|e]; [by right; eauto|left]. by apply earns_ret.
Qed.

Lemma earns_tryAppRoleLogin : earns tried (tryAppRoleLogin Cfg).
Proof.
  apply earns_bind_r. intros [[id sec] have]. destruct (negb have) eqn:E; [|eapply earns_try, LoginAppRole_forwards]. by apply earns_ret.
Qed.

Lemma earns_tryKubernetesLogin : earns tried (tryKubernetesLogin Cfg).
Proof.
  unfold tryKubernetesLogin. destruct (String.eqb (KubernetesRole Cfg) ""); [by apply earns_ret|]. apply earns_bind_r. intros b.
  destruct (ReadServiceAccountToken b) as [[jwt|]|e]; [eapply earns_try, LoginKubernetes_forwards|by apply earns_ret..].
Qed.

Lemma earns_given (m : M (bool * outcome)) e : earns tried m → earns success (r ← m; mret (if negb r.1 then Err e else r.2)).
Proof.
  intros Hm. apply (earns_bind tried); [done|]. intros [[] [[]|e']]; [right; eauto|left; by apply earns_ret..].
Qed.

Lemma earns_Login method : earns success (Login Cfg method).
Proof.
  unfold Login. destruct (String.eqb _ "oidc"); [unfold LoginOIDC, exchangeOIDCCallback; eauto 12 with earns|].
  destruct (String.eqb _ "approle"); [apply earns_given, earns_tryAppRoleLogin|].
  destruct (String.eqb _ "kubernetes"); [apply earns_given, earns_tryKubernetesLogin|]. destruct (_ || _); [unfold loginUserpass|]; eauto 12 with earns.
Qed.

Lemma earns_walk_order l : earns success (walk_order Cfg l).
Proof.
  induction l as [|[] l IH]; cbn [walk_order]; [apply earns_Login..| |].
  - apply (earns_bind tried); [apply earns_tryAppRoleLogin|]. intros r. destruct (worked r); [right|left]; eauto.
  - apply (earns_bind tried); [apply earns_tryKubernetesLogin|]. intros r. destruct (worked r); [right|left]; eauto.
Qed.

Lemma earns_renew_or_login tty : earns success (renew_or_login Cfg tty).
Proof.
  apply earns_bind_r. intros s. apply earns_bind_r. intros [|]; cbn [negb]; [|apply earns_walk_order].
  apply (earns_bind success); [apply earns_bind_r; intros s1; eapply earns_finish, Renew_forwards|].
  intros [[]|e]; [right; eauto|left; apply earns_walk_order].
Qed.
End earns.

(** ** What EnsureLogin does with the token it has *)

Definition renewal_question (q : question) : Prop :=
  match q with Now | StoreToken _ => True | Vault _ q => q = RenewSelf | _ => False end.

Lemma ttl_left_runs s tr d s' : runs (ttl_left s) tr (d, s') → s' = s ∧ Forall (λ ev, asked ev = Now) tr.
Proof.
  unfold ttl_left. intros H. apply get_bind_runs in H. destruct (IsZero _).
  - by destruct H as [-> [= _ <-]].
  - apply (bind_ask_runs Now) in H as (now & t & -> & -> & [= _ <-]). by repeat constructor.
Qed.

Lemma renew_token_runs s tr r s' : runs (renew_token s) tr (r, s') →
  kept_or_issued (λ q, q = RenewSelf) s tr s' ∧ Forall (λ ev, renewal_question (asked ev)) tr.
Proof.
  intros H. split.
  - apply get_bind_runs in H. apply (finish_runs _ _ _ _ _ _ (Renew_forwards _)) in H as [[E _]|H]; [by left|by right].
  - assert (stays renewal_question renew_token) as Hs; [|by apply (Hs s), (reaches_runs _ _ (r, s'))].
    unfold renew_token. apply stays_bind; [apply emits_get|]. intros c. apply stays_finish; [done..|].
    apply requests_only_forwards, (forwards_mono (λ q, q = RenewSelf)); [by intros q ->|apply Renew_forwards].
Qed.

Lemma renew_early_runs s tr u s' : runs (renew_early s) tr (u, s') →
  kept_or_issued (λ q, q = RenewSelf) s tr s' ∧ Forall (λ ev, renewal_question (asked ev)) tr.
Proof.
  unfold renew_early. intros H. apply get_bind_runs in H. destruct (renewable _); [|by destruct H as [-> [= _ <-]]; split; [left|]].
  apply runs_sbind in H as (t1 & t3 & d & s1 & -> & H1 & H). apply ttl_left_runs in H1 as [-> H1].
  assert (Forall (λ ev, renewal_question (asked ev)) t1) as H1' by (eapply Forall_impl; [exact H1|]; intros ev E; by rewrite E).
  destruct (d <? renewAhead).
  - apply runs_sbind in H as (t4 & t5 & r & s1 & -> & H2 & [-> [= _ <-]]). apply renew_token_runs in H2 as [[Hk|Hk] Hf].
    + cbn. rewrite app_nil_r. split; [by left|by apply Forall_app].
    + cbn. rewrite app_nil_r. split; [right; by apply issued_app_r|by apply Forall_app].
  - destruct H as [-> [= _ <-]]. cbn. rewrite app_nil_r. by split; [left|].
Qed.

Lemma validate_runs s tr r s' : token_of s ≠ "" → runs (validate_token s) tr (r, s') →
  s' = s ∧ ∃ a, tr = [Ev (Vault (token_of s) LookupSelf) a] ∧
    match a with
    | Ok _ => r = Ok tt
    | Err (ResponseError code text) => r = Err (if code =? 403 then ErrTokenDenied else VApi "vault: token lookup" (ResponseError code text))
    | Err e => r = Err (VApi "vault: token lookup" e)
    end.
Proof.
  intros Ht H. apply get_bind_runs in H.
  unfold ValidateToken in H. rewrite (proj2 (String.eqb_neq _ _) Ht) in H. destruct H as (a & t & -> & -> & [= <- <-]).
  split; [done|]. exists a. split; [done|]. by destruct a as [?|[]].
Qed.

(** Vault itself rejects the token. *)
Definition denied (a : answer) : bool := match a with Err (ResponseError code _) => code =? 403 | _ => false end.

(** C7. Vault's word on a token outranks the clock, and its silence does not.
    A process that holds a token looks at the clock first.  While the token
    counts as valid Vault is asked about it: accepted, it is kept, renewed at
    most, and nobody is asked to log in; denied, it is dropped, and whatever is
    sent to Vault from then on carries no token or one Vault gave since, as
    does the process in the end; with no verdict the process goes on with the
    token as it is and asks nothing else.  A success leaves a token. *)
Theorem vaults_verdict_is_obeyed Cfg tty s tr r s' :
  token_of s ≠ "" → runs (EnsureLogin Cfg tty s) tr (r, s') →
  (r = Ok tt → token_of s' ≠ "") ∧
  ∃ now rest, tr = Ev Now now :: rest ∧
    (HasValidToken now (client s) = true → ∃ a later, rest = Ev (Vault (token_of s) LookupSelf) a :: later ∧
      match a with
      | Ok _ => r = Ok tt ∧ kept_or_issued (λ q, q = RenewSelf) s later s' ∧ Forall (λ ev, renewal_question (asked ev)) later
      | Err _ =>
          if denied a then (∀ u ev v, later = u ++ ev :: v → sends_known "" u ev) ∧ known "" later (token_of s')
          else r = Ok tt ∧ later = [] ∧ s' = s
      end).
Proof.
  intros Ht H. unfold EnsureLogin in H. apply runs_sbind in H as (t1 & t2 & valid & s1 & -> & H1 & H).
  apply get_bind_runs in H1. rewrite (proj2 (String.eqb_neq _ _) Ht) in H1.
  apply (bind_ask_runs Now) in H1 as (now & t & -> & -> & [= <- <-]). destruct (HasValidToken now (client s)) eqn:Hv; cbn [negb] in H; cycle 1.
  { split; [|exists now, t2; split; [done|congruence]]. intros ->. by apply earns_renew_or_login in H as [??]. }
  apply runs_sbind in H as (t3 & t4 & verdict & s1 & -> & H1 & H). apply validate_runs in H1 as (-> & a & -> & Ha); [|done].
  assert (∀ P : Prop, r = Ok tt → token_of s' = token_of s → P → (r = Ok tt → token_of s' ≠ "") ∧ P) as Hkept by (intros P -> E HP; split; [by rewrite E|done]).
  destruct a as [sec|[code text|text]].
  - subst verdict. apply runs_sbind in H as (t5 & t6 & u & s1 & -> & H1 & [-> [= <- <-]]). apply renew_early_runs in H1 as [Hk Hf].
    split; [intros _; destruct Hk as [->|[? _]]; done|]. eexists now, _. split; [done|]. intros _. eexists _, _. split; [done|]. by rewrite app_nil_r.
  - destruct (Z.eqb_spec code 403) as [->|Hc]; subst verdict.
    + apply runs_sbind in H as (t5 & t6 & u & s1 & -> & H1 & H).
      assert (token_of s1 = "" ∧ ∃ b, t5 = [Ev RemoveToken b]) as [Hs1 [b ->]].
      { apply (bind_ask_runs RemoveToken) in H1 as (b & t & -> & -> & [= _ <-]). split; [done|by exists b]. }
      destruct (honest_renew_or_login Cfg tty "" [] s1 (or_introl Hs1)) as [Hj Hr].
      split. { intros ->. by apply earns_renew_or_login in H as [??]. }
      eexists now, _. split; [done|]. intros _. eexists _, _. split; [done|]. split.
      * intros l ev v E. destruct l as [|e0 l]; [by injection E as <- _|]. injection E as <- E. subst t6. apply reaches_runs in H.
        specialize (Hj l ev v H). unfold sends_known in *. destruct (asked ev); try done; by apply (known_mono_l "" [_]).
      * apply (known_mono_l "" [_]). by apply Hr in H.
    + destruct H as [-> [= <- <-]]. apply Hkept; [done..|]. eexists now, _. split; [done|]. intros _. eexists _, _. split; [done|].
      cbn [denied]. by rewrite (proj2 (Z.eqb_neq _ _) Hc).
  - subst verdict. destruct H as [-> [= <- <-]]. apply Hkept; [done..|]. eexists now, _. split; [done|]. intros _. eexists _, _. by split_and!.
Qed.

(** ** The callback of a browser login *)

(** The handler takes this request for the awaited callback. *)
Definition counts (state : string) (r : http_request) (p : callback_params) : Prop :=
  Method r = "GET" ∧ rq_Path r = "/oidc/callback" ∧
  p = {| p_state := query_Get (rq_RawQuery r) "state"; p_code := query_Get (rq_RawQuery r) "code"; p_id_token := query_Get (rq_RawQuery r) "id_token" |} ∧
  p_state p = state ∧ state ≠ "" ∧ (p_code p ≠ "" ∨ p_id_token p ≠ "").

(** The first request that counts, before the time is over. *)
Definition first_callback (state : string) (l : list happening) (p : callback_params) : Prop :=
  ∃ before r after, l = (Arrived <$> before) ++ Arrived r :: after ∧ (∀ r' p', r' ∈ before → ¬ counts state r' p') ∧ counts state r p.

Lemma callback_counts state r p : rq_Path r = "/oidc/callback" → (callback state r).2 = Some p ↔ counts state r p.
Proof.
  intros Hp. unfold callback, counts. destruct (String.eqb_spec (Method r) "GET") as [Hg|Hg]; cbn [negb snd]; [|split; [done|by intros [? _]]].
  cbn [p_state p_code p_id_token]. set (st := query_Get (rq_RawQuery r) "state"). set (co := query_Get (rq_RawQuery r) "code"). set (id := query_Get (rq_RawQuery r) "id_token").
  destruct (String.eqb_spec st ""), (String.eqb_spec st state), (String.eqb_spec co ""), (String.eqb_spec id ""); cbn; naive_solver congruence.
Qed.

Lemma await_callback_exact state l p : await_callback state l = Ok p ↔ first_callback state l p.
Proof.
  unfold first_callback. induction l as [|[r| |e] l IH]; cbn [await_callback].
  - split; [done|]. intros (b & r & a & H & _). by destruct b.
  - assert ((∀ p', ¬ counts state r p') → await_callback state l = Ok p ↔ first_callback state (Arrived r :: l) p) as Hskip.
    { intros Hr. rewrite IH. unfold first_callback. split.
      - intros (b & r1 & a & -> & Hb & Hc). exists (r :: b), r1, a. split_and!; [done| |done]. intros r' p' [->|H]%elem_of_cons; [apply Hr|by apply Hb].
      - intros ([|r0 b] & r1 & a & H & Hb & Hc); [injection H as <- <-; by apply Hr in Hc|]. injection H as <- ->. exists b, r1, a. split_and!; [done| |done].
        intros r' p' H. apply Hb. by apply elem_of_cons; right. }
    destruct (String.eqb_spec (rq_Path r) "/oidc/callback") as [Hp|Hp]; cbn [negb]; [|apply Hskip; by intros p' (_ & ? & _)].
    destruct ((callback state r).2) as [p0|] eqn:E.
    + apply callback_counts in E; [|done]. split.
      * intros [= <-]. exists [], r, l. split_and!; [done| |done]. by intros ? ? ?%elem_of_nil.
      * intros ([|r0 b] & r1 & a & H & Hb & Hc); [|injection H as <- _; by apply Hb in E; [|apply list_elem_of_here]].
        injection H as <- _. destruct E as (_ & _ & -> & _), Hc as (_ & _ & -> & _). done.
    + apply Hskip. intros p' Hc. apply callback_counts in Hc; [congruence|done].
  - split; [done|]. intros (b & r & a & H & _). by destruct b.
  - split; [done|]. intros (b & r & a & H & _). by destruct b.
Qed.

Definition auth_request (mount role : string) : request :=
  WriteData ("auth/" +:+ mount +:+ "/oidc/auth_url") (Some [("role", JStr role); ("redirect_uri", JStr oidcRedirect)]).

(** What was asked until a callback counted: Vault for the address, the port
    before the browser, and the callbacks of that address's state. *)
Definition awaited (mount role tok : string) (h : events) (p : callback_params) : Prop :=
  ∃ sec data q l,
    h = [Ev (Vault tok (auth_request mount role)) (Ok (Some sec)); Ev Listen true; Ev (OpenBrowser (str_field "auth_url" data)) tt; Ev Callbacks l] ∧
    Data sec = Some data ∧ url_RawQuery (str_field "auth_url" data) = Some q ∧ first_callback (query_Get q "state") l p.

Lemma lift_auth_runs mount role s tr r s' : runs (lift (oidcAuthURL mount role) s) tr (r, s') →
  s' = s ∧ ∃ a, tr = [Ev (Vault (token_of s) (auth_request mount role)) a] ∧
    ∀ url state, r = Ok (url, state) → ∃ sec data q, a = Ok (Some sec) ∧ Data sec = Some data ∧ url = str_field "auth_url" data ∧ url_RawQuery url = Some q ∧ state = query_Get q "state".
Proof.
  intros (a & t & -> & H). destruct a as [[sec|]|e]; [|by destruct H as [-> [= <- <-]]; split; [done|eexists; split]..].
  destruct (Data sec) as [data|] eqn:Ed; cbn in H; rewrite Ed in H; [|by destruct H as [-> [= <- <-]]; split; [done|eexists; split]].
  destruct H as [-> [= <- <-]]. split; [done|]. eexists. split; [done|]. intros url state. cbn [snd].
  destruct (String.eqb _ ""); [done|]. unfold oidcState. destruct (url_RawQuery _) as [q|] eqn:Eq; [|done]. cbn.
  destruct (String.eqb (query_Get q "state") ""); [done|]. intros [= <- <-]. by exists sec, data, q.
Qed.

Lemma await_runs url state s tr r s' : runs (awaitOIDCCallback url state s) tr (r, s') →
  s' = s ∧ ∀ p, r = Ok p → ∃ l, tr = [Ev Listen true; Ev (OpenBrowser url) tt; Ev Callbacks l] ∧ first_callback state l p.
Proof.
  intros (b & t & -> & H). destruct b; cbn in H; [|by destruct H as [-> [= <- <-]]].
  destruct H as ([] & t1 & -> & l & t2 & -> & -> & [= <- <-]). split; [done|]. intros p Hp. exists l. split; [done|]. by apply await_callback_exact.
Qed.

(** Cutting an exchange where a part that lacks such events ends. *)
Lemma cut_after {X} (P : X → Prop) (u1 u2 t1 t2 : list X) ev :
  Forall (λ e, ¬ P e) u1 → P ev → t1 ++ ev :: t2 = u1 ++ u2 → ∃ t, t1 = u1 ++ t ∧ u2 = t ++ ev :: t2.
Proof.
  intros Hf Hp E. apply app_eq_inv in E as [(l & -> & ->)|(l & -> & E)].
  - by exists l.
  - destruct l as [|e l]; [exists []; cbn in E; by rewrite !app_nil_r|]. injection E as <- _.
    apply Forall_app in Hf as [_ Hf]. by apply Forall_cons in Hf as [? _].
Qed.

Definition is_read (ev : event reply) : Prop := match asked ev with Vault _ (ReadData _ _) => True | _ => False end.

Definition no_vault (q : question) : Prop := match q with Vault _ _ => False | _ => True end.

Lemma read_is_vault ev : is_read ev → ¬ no_vault (asked ev).
Proof. unfold is_read, no_vault. destruct (asked ev); tauto. Qed.

Lemma stays_Forall {A} (ok : question → Prop) (m : M A) s tr : (∀ ev, is_read ev → ¬ ok (asked ev)) → stays ok m → reaches (m s) tr → Forall (λ e, ¬ is_read e) tr.
Proof. intros Hok Hm H. eapply Forall_impl; [by apply (Hm s)|]. intros ev H1 H2. by apply (Hok ev). Qed.

(** An exchange is one request; what follows asks Vault nothing. *)
Lemma exchange_reaches mount p s tr : reaches (exchangeOIDCCallback mount p s) tr →
  tr = [] ∨ ∃ a t, tr = Ev (Vault (token_of s) (callback_read mount p)) a :: t ∧ Forall (λ e, ¬ is_read e) t.
Proof.
  intros [->|(x & t & -> & H)]; [by left|]. right. exists x, t. split; [done|]. destruct x as [sec|e].
  - exact (stays_Forall no_vault (apply_auth sec) s t read_is_vault (stays_apply_auth no_vault sec I (λ _, I)) H).
  - destruct H as [->|[]]. constructor.
Qed.

(** C6. A login is finished by the callback it was begun for.  Vault is sent a
    code or an identity token only after it named the address, the port was
    bound before the browser was sent there, and a request to the callback path
    came in time that carries the state of that very address, not empty, and a
    code or an identity token; it is the first such request, its parameters are
    sent as they came, and whatever else came to the port changed nothing.  A
    login that succeeds holds the token Vault gave for that exchange. *)
Theorem a_callback_answers_the_login_it_began mount role s :
  (∀ t1 tok path ps a t2, reaches (LoginOIDC mount role s) (t1 ++ Ev (Vault tok (ReadData path ps)) a :: t2) →
     tok = token_of s ∧ ∃ p, ReadData path ps = callback_read mount p ∧ awaited mount role (token_of s) t1 p) ∧
  (∀ tr s', runs (LoginOIDC mount role s) tr (Ok tt, s') →
     ∃ h p rest, tr = h ++ rest ∧ awaited mount role (token_of s) h p ∧ issued (λ q, q = callback_read mount p) rest (token_of s')).
Proof.
  assert (∀ r s1 u1 p s2 u2, runs (lift (oidcAuthURL mount role) s) u1 (Ok r, s1) → runs (awaitOIDCCallback r.1 r.2 s1) u2 (Ok p, s2) →
    s2 = s ∧ awaited mount role (token_of s) (u1 ++ u2) p) as Hh.
  { intros [url state] s1 u1 p s2 u2 H1 H2. apply lift_auth_runs in H1 as (-> & a & -> & H1).
    destruct (H1 _ _ eq_refl) as (sec & data & q & -> & Hd & -> & Hq & ->). apply await_runs in H2 as [-> H2].
    destruct (H2 _ eq_refl) as (l & -> & Hl). split; [done|]. by exists sec, data, q, l. }
  split.
  - intros t1 tok path ps a t2 H. assert (is_read (Ev (Vault tok (ReadData path ps)) a)) as Hread by done.
    apply reaches_sbind in H as [H|(u1 & u2 & r & s1 & E & H1 & H)].
    { apply (stays_Forall (λ q, ∃ t, q = Vault t (auth_request mount role))) in H; [| |apply stays_lift, requests_only_oidcAuthURL; eauto].
      - by apply Forall_app in H as [_ [? _]%Forall_cons].
      - intros ev He [t Ht]. unfold is_read in He. by rewrite Ht in He. }
    pose proof (lift_auth_runs _ _ _ _ _ _ H1) as (-> & a0 & Eu & _).
    apply (cut_after is_read) in E as (t & -> & ->); [|rewrite Eu; repeat constructor; by intros []|done]. clear Eu a0.
    destruct r as [[url state]|e]; [|by destruct H as [H|[]]; destruct t]. apply reaches_sbind in H as [H|(v1 & v2 & r & s1 & E & H2 & H)].
    { apply (stays_Forall no_vault) in H.
      - by apply Forall_app in H as [_ [? _]%Forall_cons].
      - exact read_is_vault.
      - unfold awaitOIDCCallback. by repeat stay. }
    assert (Forall (λ e, ¬ is_read e) v1) as Hv.
    { apply (stays_Forall no_vault (awaitOIDCCallback url state) s); [|unfold awaitOIDCCallback; by repeat stay|by eapply reaches_runs].
      exact read_is_vault. }
    apply (cut_after is_read) in E as (t' & -> & ->); [|done..]. destruct r as [p|e]; [|by destruct H as [H|[]]; destruct t'].
    destruct (Hh (url, state) s u1 p s1 v1) as [-> Ha]; [done..|]. apply exchange_reaches in H as [H|(x & tr & E & H)]; [by destruct t'|].
    destruct t' as [|e t']; [|injection E as _ <-; by apply Forall_app in H as [_ [? _]%Forall_cons]].
    apply (f_equal (λ l, default Now (asked <$> head l))) in E. injection E as -> -> ->. split; [done|]. exists p. by rewrite app_nil_r.
  - intros tr s' H. apply runs_sbind in H as (u1 & u2 & r & s1 & -> & H1 & H). destruct r as [[url state]|e]; [|by destruct H as [_ [= ]]].
    apply runs_sbind in H as (v1 & v2 & r & s2 & -> & H2 & H). destruct r as [p|e]; [|by destruct H as [_ [= ]]].
    destruct (Hh (url, state) s1 u1 p s2 v1) as [-> Ha]; [done..|]. exists (u1 ++ v1), p, v2. split_and!; [by rewrite (assoc_L (++))|done|].
    apply (finish_runs _ _ _ _ _ _ (callback_forwards mount p)) in H as [[_ ?]|?]; done.
Qed.

(** ** The agent *)

Lemma honest_writeSinks sinks : honest (writeSinks sinks).
Proof.
  induction sinks as [|p sinks IH]; cbn [writeSinks]; [apply honest_ret|]. destruct (String.eqb p ""); [done|].
  apply honest_get_bind. intros t0 h s Hs. split.
  - apply justified_bind; [apply justified_bind; [by apply justified_ask|intros; apply justified_ret]|].
    intros t [w s1] (x & t' & -> & -> & [= -> ->]). destruct (negb _); [apply justified_ret|]. apply IH. by apply known_mono.
  - intros tr b s' H. apply (bind_ask_runs (WriteFile _ _)) in H as (w & t & -> & H). rewrite (cons_middle _ h). rewrite (assoc_L (++)).
    destruct (negb w); [|eapply IH; [|done]; by apply known_mono]. destruct H as [-> [= _ <-]]. rewrite app_nil_r. by apply known_mono.
Qed.
#[export] Hint Resolve honest_writeSinks honest_tryAppRoleLogin honest_Login honest_EnsureLogin : honest.

Lemma honest_run_rounds Cfg sinks n : honest (run_rounds Cfg sinks n).
Proof.
  induction n as [|n IH]; cbn [run_rounds]; [apply honest_ret|]. unfold ttl_left, renew_token, ReAuth, ReAuthNonInteractive. eauto 24 with honest.
Qed.
#[export] Hint Resolve honest_run_rounds : honest.

Lemma honest_Manager_Run Cfg tty sinks n : honest (Manager_Run Cfg tty sinks n).
Proof. unfold Manager_Run. eauto 12 with honest. Qed.

Lemma renewWait_bounds ttl : 5 * Second ≤ renewWait ttl ≤ 30 * Minute ∧ (0 ≤ ttl → 15 * Second ≤ 2 * ttl → 3 * renewWait ttl ≤ 2 * ttl).
Proof.
  unfold renewWait. change (30 * Minute) with 1800000000000. change (5 * Second) with 5000000000. change (15 * Second) with 15000000000.
  destruct (Z.leb_spec ttl 0); [lia|]. set (w := Z.quot (wrap64 (ttl * 2)) 3). split.
  - destruct (Z.ltb_spec w 5000000000), (Z.ltb_spec 1800000000000 5000000000); try lia; destruct (Z.ltb_spec 1800000000000 w); lia.
  - intros Ht H15. destruct (Z.ltb_spec w 5000000000), (Z.ltb_spec 1800000000000 5000000000); try lia.
    assert (wrap64 (ttl * 2) ≤ ttl * 2) by (unfold wrap64; pose proof (Z.mod_le (ttl * 2 + 2 ^ 63) (2 ^ 64) ltac:(lia) ltac:(lia)); lia).
    assert (3 * w ≤ 2 * ttl).
    { subst w. destruct (Z.leb_spec 0 (wrap64 (ttl * 2))); [pose proof (Z.mul_quot_le (wrap64 (ttl * 2)) 3); lia|].
      pose proof (Z.quot_opp_l (wrap64 (ttl * 2)) 3). pose proof (Z.quot_pos (- wrap64 (ttl * 2)) 3). lia. }
    destruct (Z.ltb_spec 1800000000000 w); lia.
Qed.

(** What a process may ask while its terminal belongs to another. *)
Definition unattended (Cfg : Config) (q : question) : Prop :=
  match q with
  | Vault _ q => q = RenewSelf ∨ ∃ mount id sec, q = WriteData ("auth/" +:+ mount +:+ "/login") (Some [("role_id", JStr id); ("secret_id", JStr sec)])
  | Now | StoreToken _ => True
  | ReadFile p => p = AppRoleIDFile Cfg ∨ p = AppRoleSecretIDFile Cfg
  | Wait d => 5 * Second ≤ d ≤ 30 * Minute
  | _ => False
  end.

Lemma stays_tryAppRoleLogin Cfg : stays (unattended Cfg) (tryAppRoleLogin Cfg).
Proof.
  assert (∀ p, p = AppRoleIDFile Cfg ∨ p = AppRoleSecretIDFile Cfg → stays (unattended Cfg) (readFileTrim p)) as Hf.
  { intros p Hp. unfold readFileTrim. repeat stay. done. }
  unfold tryAppRoleLogin, AppRoleCreds. repeat first [apply Hf; by auto | stay]; try done.
  eapply requests_only_forwards, forwards_mono; [|apply LoginAppRole_forwards]. intros q -> tok. right. eauto.
Qed.

Lemma stays_Keepalive Cfg n : stays (unattended Cfg) (Keepalive Cfg n).
Proof.
  induction n as [|n IH]; cbn [Keepalive]; [apply emits_sret|]. unfold ttl_left, renew_token, ReAuthNonInteractive.
  repeat first [apply stays_tryAppRoleLogin | apply IH | stay]; try done; [apply renewWait_bounds|].
  apply requests_only_forwards, (forwards_mono (λ q, q = RenewSelf)); [|apply Renew_forwards]. intros q -> tok. by left.
Qed.

(** Everything but the sinks is read only. *)
Definition sinks_only (sinks : list string) (q : question) : Prop := match q with WriteFile p _ => p ∈ sinks | _ => True end.

Section sinks.
Context (sinks : list string).
Notation quiet := (stays (sinks_only sinks)).

Lemma quiet_lift {A} (p : VaultClient.prog A) : quiet (lift p).
Proof. apply stays_lift. induction p as [|q k IH]; cbn; [done|]. by split. Qed.

Lemma quiet_finish p : quiet (finish p).
Proof. apply stays_bind; [apply quiet_lift|]. intros [sec|e]; [by apply stays_apply_auth|apply emits_sret]. Qed.

Lemma quiet_readFileTrim path : quiet (readFileTrim path).
Proof. unfold readFileTrim. by repeat stay. Qed.

Ltac quiet := repeat first [apply quiet_readFileTrim | apply quiet_finish | apply quiet_lift | stay]; try done.

Lemma quiet_tryAppRoleLogin Cfg : quiet (tryAppRoleLogin Cfg).
Proof. unfold tryAppRoleLogin, AppRoleCreds. quiet. Qed.

Lemma quiet_tryKubernetesLogin Cfg : quiet (tryKubernetesLogin Cfg).
Proof. unfold tryKubernetesLogin. quiet. Qed.

Lemma quiet_Login Cfg method : quiet (Login Cfg method).
Proof.
  unfold Login, LoginOIDC, awaitOIDCCallback, exchangeOIDCCallback, loginUserpass.
  repeat first [apply quiet_tryAppRoleLogin | apply quiet_tryKubernetesLogin | progress quiet].
Qed.

Lemma quiet_walk_order Cfg l : quiet (walk_order Cfg l).
Proof.
  induction l as [|[] l IH]; cbn [walk_order]; [apply quiet_Login..| |]; repeat first [apply quiet_tryAppRoleLogin | apply quiet_tryKubernetesLogin | apply IH | stay].
Qed.

Lemma quiet_EnsureLogin Cfg tty : quiet (EnsureLogin Cfg tty).
Proof.
  unfold EnsureLogin, renew_early, renew_or_login, valid_token, validate_token, ttl_left, renew_token, logout.
  repeat first [apply quiet_walk_order | progress quiet].
Qed.

Lemma quiet_writeSinks l : l ⊆ sinks → quiet (writeSinks l).
Proof.
  induction l as [|p l IH]; intros Hl; cbn [writeSinks]; [apply emits_sret|].
  assert (quiet (writeSinks l)) by (apply IH; set_solver). repeat first [assumption | stay]. cbn. set_solver.
Qed.

Lemma quiet_run_rounds Cfg n : quiet (run_rounds Cfg sinks n).
Proof.
  induction n as [|n IH]; cbn [run_rounds]; [apply emits_sret|]. unfold ttl_left, renew_token, ReAuth, ReAuthNonInteractive.
  repeat first [apply quiet_tryAppRoleLogin | apply quiet_Login | apply IH | apply quiet_writeSinks; done | progress quiet].
Qed.

Lemma quiet_Manager_Run Cfg tty n : quiet (Manager_Run Cfg tty sinks n).
Proof. unfold Manager_Run. repeat first [apply quiet_EnsureLogin | apply quiet_writeSinks; done | apply quiet_run_rounds | stay]. Qed.
End sinks.

(** The agent works alone and hands on what Vault gave.  Beside a child
    that owns the terminal nothing is ever prompted for: however many rounds
    run and whatever is answered, only the renewal and the AppRole login are
    asked of Vault, only the two credential files are read, and each wait is
    from five seconds to half an hour.  The agent's own loop writes nothing but
    its sinks, and into them no token but the one it began with and those Vault
    gave before.  A renewal comes within two thirds of the lifetime left, where
    that is five seconds at least. *)
Theorem the_agent_keeps_to_its_token Cfg s n :
  (∀ tr, reaches (Keepalive Cfg n s) tr → Forall (λ ev, unattended Cfg (asked ev)) tr) ∧
  (∀ tty sinks t1 path content w t2, reaches (Manager_Run Cfg tty sinks n s) (t1 ++ Ev (WriteFile path content) w :: t2) →
     path ∈ sinks ∧ known (token_of s) t1 content) ∧
  (∀ ttl, 0 ≤ ttl → 5 * Second ≤ renewWait ttl ≤ 30 * Minute ∧ (15 * Second ≤ 2 * ttl → 3 * renewWait ttl ≤ 2 * ttl)).
Proof.
  split_and!; [by apply stays_Keepalive| |].
  - intros tty sinks t1 path content w t2 H. split.
    + apply (quiet_Manager_Run sinks Cfg tty n s) in H. by apply Forall_app in H as [_ [? _]%Forall_cons].
    + destruct (honest_Manager_Run Cfg tty sinks n (token_of s) [] s (or_intror (or_introl eq_refl))) as [Hj _]. by apply (Hj _ _ _ H).
  - intros ttl Ht. destruct (renewWait_bounds ttl) as [? H]. split; [done|]. by apply H.
Qed.

(** ** Runs *)

Module Sample.
Definition at_hour : time_t := 100 * Hour.

Definition given (tok : string) : answer :=
  Ok (Some {| LeaseID := ""; LeaseDuration := 0; sec_Renewable := false; Data := None;
              Auth := Some {| ClientToken := tok; sa_LeaseDuration := 7200; sa_Renewable := true |} |}).

Definition data (o : object) : answer := Ok (Some {| LeaseID := ""; LeaseDuration := 0; sec_Renewable := false; Data := Some o; Auth := None |}).

Definition vault (deny : string) (tok : string) (q : request) : answer :=
  match q with
  | WriteData p _ =>
      if String.eqb p "auth/approle/login" then given "shared"
      else if HasPrefix p "auth/userpass/login/" then given "alice's"
      else data [("auth_url", JStr "https://sso.example/authorize?client_id=vault&state=s%2B1")]
  | ReadData _ _ => given "alice's"
  | LookupSelf => if String.eqb tok deny then Err (ResponseError 403 "permission denied") else data [("display_name", JStr "approle")]
  | _ => Err (Transport "no route to host")
  end.

Definition get (query : string) : happening := Arrived {| Method := "GET"; rq_Path := "/oidc/callback"; rq_RawQuery := query |}.

(** A workstation whose service account token cannot be read. *)
Definition outside (deny : string) (q : question) (w : unit) : reply q * unit :=
  (match q return reply q with
   | Vault tok q => vault deny tok q
   | Now => at_hour
   | StoreToken _ | RemoveToken | WriteFile _ _ | Listen | RecordSeenUser _ => true
   | ReadFile p => if String.eqb p DefaultServiceAccountTokenPath then Some None else None
   | GetenvUSER => "alice"
   | ReadString => String "010" ""
   | ReadPassword => Ok "hunter2"
   | OpenBrowser _ => tt
   | Callbacks => [get "state=forged&code=evil"; get "state=&code=x"; get "state=s%2B1"; get "code=c0de&state=s%2B1"; Expired3Minutes]
   | Wait d => false
   end, w).

Definition does {A} (deny : string) (m : M A) (s : session) : events * (A * session) := (run (outside deny) (m s) tt).1.

Definition config (method id kube : string) : Config :=
  {| AuthMethod := method; OIDCMount := "oidc"; OIDCRole := "vctl"; AppRoleMount := ""; AppRoleID := id; AppRoleSecretID := id;
     AppRoleIDFile := "/home/alice/.vctl/role-id"; AppRoleSecretIDFile := "/home/alice/.vctl/secret-id"; AppRoleSelfRole := "vctl-user";
     KubernetesMount := ""; KubernetesRole := kube; KubernetesTokenFile := "" |}.

Definition holding (tok : string) (until : time_t) : session :=
  {| client := {| api_token := tok; tokenExp := until; renewable := false |}; token_file := None |}.

Definition nothing : session := holding "" 0.

(** A person's token that lapsed, beside AppRole credentials. *)
Definition person : Config := config "UserPass" "role" "".

Lemma does_runs {A} deny (m : M A) s : runs (m s) (does deny m s).1 (does deny m s).2.
Proof. apply (run_runs (outside deny) (m s) tt). Qed.

Lemma the_configured_identity_is_kept_witness :
  let '(tr, (r, s')) := does "none" (EnsureLogin person true) nothing in
  r = Ok tt ∧ token_of s' = "alice's" ∧ length tr = 6%nat ∧ Forall (λ ev, own_question person (asked ev)) tr.
Proof.
  pose proof (does_runs "none" (EnsureLogin person true) nothing) as H. destruct (does "none" (EnsureLogin person true) nothing) as [tr [r s']] eqn:E.
  apply reaches_runs in H. apply the_configured_identity_is_kept in H; [|left; vm_compute; reflexivity].
  vm_compute in E. injection E as <- <- <-. split_and!; [reflexivity|reflexivity|reflexivity|exact H].
Defined.

(** A token Vault revoked, long before its record runs out. *)
Lemma vaults_verdict_is_obeyed_witness :
  let '(tr, (r, s')) := does "old" (EnsureLogin (config "" "role" "") false) (holding "old" (200 * Hour)) in
  r = Ok tt ∧ token_of s' = "shared" ∧ token_of s' ≠ "".
Proof.
  pose proof (does_runs "old" (EnsureLogin (config "" "role" "") false) (holding "old" (200 * Hour))) as H.
  destruct (does "old" _ _) as [tr [r s']] eqn:E. apply vaults_verdict_is_obeyed in H as [H _]; [|discriminate].
  vm_compute in E. injection E as <- <- <-. split_and!; [reflexivity|reflexivity|apply H; reflexivity].
Defined.

(** Two forged callbacks and one without a code come first. *)
Lemma a_callback_answers_the_login_it_began_witness :
  let tr := (does "none" (LoginOIDC "oidc" "vctl") nothing).1 in
  ∃ p, callback_read "oidc" p = ReadData "auth/oidc/oidc/callback" [("state", "s+1"); ("code", "c0de"); ("id_token", "")] ∧ awaited "oidc" "vctl" "" (take 4 tr) p.
Proof.
  intros tr. pose proof (reaches_runs _ _ _ (does_runs "none" (LoginOIDC "oidc" "vctl") nothing)) as H. fold tr in H.
  assert (tr = take 4 tr ++ Ev (Vault "" (ReadData "auth/oidc/oidc/callback" [("state", "s+1"); ("code", "c0de"); ("id_token", "")])) (given "alice's") :: drop 5 tr) as E
    by (vm_compute; reflexivity).
  rewrite E in H. destruct (a_callback_answers_the_login_it_began "oidc" "vctl" nothing) as [Ha _].
  destruct (Ha _ _ _ _ _ _ H) as (_ & p & Hp & Hw). exists p. split; [symmetry; exact Hp|exact Hw].
Defined.

Lemma the_agent_keeps_to_its_token_witness :
  let cfg := config "" "role" "" in
  let tr := (does "none" (Keepalive cfg 3) nothing).1 in
  length tr = 22%nat ∧ Forall (λ ev, unattended cfg (asked ev)) tr.
Proof.
  intros cfg tr. split; [vm_compute; reflexivity|].
  destruct (the_agent_keeps_to_its_token cfg nothing 3) as [Hk _]. apply Hk. exact (reaches_runs _ _ _ (does_runs "none" (Keepalive cfg 3) nothing)).
Defined.

(** *** What the comments promise and the runs do *)

Definition asked_of {A} deny (m : M A) s : list question := asked <$> (does deny m s).1.
Definition approle_login : request := WriteData "auth/approle/login" (Some [("role_id", JStr "role"); ("secret_id", JStr "role")]).

(** A look at the status turns a person into the shared identity: the token it
    logs in with is stored, and the next login finds it valid. *)
Lemma a_status_changes_the_identity :
  let s := (does "none" (tokenStatus person) nothing).2.2 in
  token_of s = "shared" ∧ token_file s ≠ None ∧
  (does "none" (EnsureLogin person true) s).2 = (Ok tt, s) ∧ asked_of "none" (EnsureLogin person true) s = [Now; Vault "shared" LookupSelf; Now] ∧
  token_of (does "none" (EnsureLogin person true) nothing).2.2 = "alice's".
Proof. vm_compute. by split_and!. Qed.

(** The agent's re-authentication takes the AppRole where EnsureLogin asks the
    person. *)
Lemma the_agent_downgrades :
  token_of (does "none" (ReAuth person) (holding "old" (90 * Hour))).2.2 = "shared" ∧
  token_of (does "none" (EnsureLogin person true) (holding "old" (90 * Hour))).2.2 = "alice's".
Proof. vm_compute. by split. Qed.

(** The method's spelling decides whether a workload is put among people. *)
Lemma a_workload_is_listed_as_a_person :
  let seen m := omap (λ q, match q with RecordSeenUser i => Some i | _ => None end) (asked_of "none" (runLogin (config "" "role" "") m false) nothing) in
  seen "approle" = [] ∧ seen "AppRole" = ["approle"].
Proof. vm_compute. by split. Qed.

(** An unreadable service account token is passed over for a password. *)
Lemma an_unreadable_pod_token_prompts :
  (does "none" (tryKubernetesLogin (config "" "" "pod")) nothing).2.1 = (true, Err (VMsg "read service account token")) ∧
  existsb (λ q, match q with ReadPassword => true | _ => false end) (asked_of "none" (EnsureLogin (config "" "" "pod") false) nothing) = true.
Proof. vm_compute. by split. Qed.
End Sample.
