(* ===== verification/AppStore.v ===== *)
(** How a command reaches the inventory (internal/app/app.go OpenStore and
    openRole, internal/app/inventory.go OpenInventory, and the pool of
    internal/store/store.go): which database role a purpose gets, over which
    connection, with which credential, and when the snapshot answers instead.

    pgx is outside: how it reads a DSN is a parameter, and a connection is a
    question.  So is the credential cache, whose answers are [DbCreds]'s. *)

From Stdlib Require Import Ascii String ZArith Lia.
From S2P Require Import Prelude GoStrings GoFormat NetIP InvCache DbCreds VaultToken Effects Login.
Open Scope Z_scope.
Local Open Scope record_scope.

(** ** The pool: internal/store/store.go *)

Inductive Workload := WorkloadInteractive | WorkloadSerial.

Record tls_config := { RootCAs : string; ServerName : string; MinVersion : Z }.

(** What of pgxpool's configuration the source reads or sets. *)
Record pool_config := {
  pc_Host : string; pc_Port : Z; pc_User : string; pc_Password : string; Fallbacks : list string; TLSConfig : option tls_config;
  MaxConns : Z; statement_timeout : option string; MaxConnLifetime : duration; MaxConnLifetimeJitter : duration; MaxConnIdleTime : duration;
}.
#[export] Instance pool_config_rebuild : Rebuild pool_config := λ c,
  {| pc_Host := pc_Host c; pc_Port := pc_Port c; pc_User := pc_User c; pc_Password := pc_Password c; Fallbacks := Fallbacks c; TLSConfig := TLSConfig c; MaxConns := MaxConns c;
     statement_timeout := statement_timeout c; MaxConnLifetime := MaxConnLifetime c; MaxConnLifetimeJitter := MaxConnLifetimeJitter c;
     MaxConnIdleTime := MaxConnIdleTime c |}.

Definition VersionTLS12 : Z := 771.

Definition interactiveStatementTimeout : string := "30s".
Definition serialStatementTimeout : string := "5min".

Definition tunePoolFor (cfg : pool_config) (workload : Workload) : pool_config :=
  let cfg := cfg <| MaxConns := 4 |> <| statement_timeout := Some interactiveStatementTimeout |> in
  let cfg := match workload with
             | WorkloadSerial => cfg <| MaxConns := 1 |> <| statement_timeout := Some serialStatementTimeout |>
             | WorkloadInteractive => cfg
             end in
  cfg <| MaxConnLifetime := 20 * Minute |> <| MaxConnLifetimeJitter := 5 * Minute |> <| MaxConnIdleTime := 10 * Minute |>.

Definition isLoopback (ip : NetIP.IP) : bool :=
  if bool_decide (take 12 ip = mapped_prefix) then bool_decide (nth_error ip 12 = Some 127) else bool_decide (ip = replicate 15 0 ++ [1]).

Definition isLoopbackHost (host : string) : bool :=
  if String.eqb host "localhost" then true else match ParseIP host with Some ip => isLoopback ip | None => false end.

Example isLoopbackHost_samples :
  isLoopbackHost <$> ["localhost"; "127.0.0.1"; "127.0.0.53"; "::1"; "::ffff:127.0.0.1"; "db.example.com"; "10.0.0.5"; "0.0.0.0"; "/var/run/postgresql"; ""] =
  [true; true; true; true; true; false; false; false; false; false].
Proof. vm_compute. reflexivity. Qed.

Section store.
(** How pgx reads a DSN, and whether a PEM text holds certificates. *)
Context (ParseConfig : string → option pool_config) (AppendCertsFromPEM : string → bool).

(** The oldest a pooled connection gets. *)
Definition MaxConnAge : duration :=
  match ParseConfig "postgres://localhost:5432/postgres" with
  | None => 50 * Minute
  | Some cfg => let cfg := tunePoolFor cfg WorkloadInteractive in MaxConnLifetime cfg + MaxConnLifetimeJitter cfg
  end.

Definition store_dsn (host : string) (port : Z) (dbname : string) : string :=
  "postgres://" +:+ host +:+ ":" +:+ Itoa port +:+ "/" +:+ dbname +:+ "?sslmode=verify-full&connect_timeout=10".

(** [OpenFor] up to the first connection. *)
Definition for_config (host : string) (port : Z) (dbname serverName caPEM : string) (workload : Workload) : result string pool_config :=
  match ParseConfig (store_dsn host port dbname) with
  | None => Err "parse dsn"
  | Some cfg =>
      if negb (String.eqb caPEM "") && negb (AppendCertsFromPEM caPEM) then Err "parse embedded CA"
      else
        let serverName := if String.eqb serverName "" then host else serverName in
        Ok (tunePoolFor (cfg <| TLSConfig := Some {| RootCAs := caPEM; ServerName := serverName; MinVersion := VersionTLS12 |} |> <| Fallbacks := [] |>) workload)
  end.

(** [OpenLocal] up to the first connection: the user and password are the
    DSN's own, as pgx read them. *)
Definition local_config (dsn : string) : result string pool_config :=
  match ParseConfig dsn with
  | None => Err "parse local dsn"
  | Some cfg =>
      if forallb isLoopbackHost (pc_Host cfg :: Fallbacks cfg) then Ok (cfg <| MaxConns := 4 |>) else Err "local dsn host must be loopback"
  end.

(** The pool's [BeforeConnect], where there is one. *)
Definition before_connect (cred : string * string) (cfg : pool_config) : pool_config := cfg <| pc_User := cred.1 |> <| pc_Password := cred.2 |>.

Definition DSNEndpoint (dsn : string) : option string := (λ cfg, JoinHostPort (pc_Host cfg) (Itoa (pc_Port cfg))) <$> ParseConfig dsn.
End store.

(** ** The application: internal/app *)

(** The settings the application reads beside a login's. *)
Record app_config := {
  login : Config; LocalDBDSN : string; DBHost : string; DBServerName : string; DBPort : Z; DBName : string; SRERootCA : string;
  DBRoleRO : string; DBRoleRW : string; DBRoleStatus : string; DBRoleIdentity : string; DBRoleAuditRO : string; DBRoleAuditWrite : string;
  DBRoleAuditIngest : string; DBRoleAuditPrune : string; DBRoleOpenStackPrune : string; DBRoleReconcile : string; DBRoleMigrate : string;
  DBRoleNodeAccessAudit : string; CacheRefreshInterval : duration; CacheStaleLimit : duration;
}.

#[export] Instance app_config_rebuild : Rebuild app_config := λ c,
  {| login := login c; LocalDBDSN := LocalDBDSN c; DBHost := DBHost c; DBServerName := DBServerName c; DBPort := DBPort c; DBName := DBName c; SRERootCA := SRERootCA c;
     DBRoleRO := DBRoleRO c; DBRoleRW := DBRoleRW c; DBRoleStatus := DBRoleStatus c; DBRoleIdentity := DBRoleIdentity c; DBRoleAuditRO := DBRoleAuditRO c;
     DBRoleAuditWrite := DBRoleAuditWrite c; DBRoleAuditIngest := DBRoleAuditIngest c; DBRoleAuditPrune := DBRoleAuditPrune c; DBRoleOpenStackPrune := DBRoleOpenStackPrune c;
     DBRoleReconcile := DBRoleReconcile c; DBRoleMigrate := DBRoleMigrate c; DBRoleNodeAccessAudit := DBRoleNodeAccessAudit c; CacheRefreshInterval := CacheRefreshInterval c;
     CacheStaleLimit := CacheStaleLimit c |}.

Definition PurposeInventoryRead : Z := 0.
Definition PurposeInventoryWrite : Z := 1.
Definition PurposeStatus : Z := 2.
Definition PurposeIdentity : Z := 3.
Definition PurposeAuditRead : Z := 4.
Definition PurposeAuditWrite : Z := 5.
Definition PurposeAuditIngest : Z := 6.
Definition PurposeAuditPrune : Z := 7.
Definition PurposeOpenStackPrune : Z := 8.
Definition PurposeOpenStackReconcile : Z := 9.
Definition PurposeMigrate : Z := 10.
Definition PurposeNodeAccessAudit : Z := 11.

(** A purpose is an int; an unknown one has no role. *)
Definition roleFor (Cfg : app_config) (p : Z) : result string string :=
  if p =? PurposeInventoryRead then Ok (DBRoleRO Cfg)
  else if p =? PurposeInventoryWrite then Ok (DBRoleRW Cfg)
  else if p =? PurposeStatus then Ok (DBRoleStatus Cfg)
  else if p =? PurposeIdentity then Ok (DBRoleIdentity Cfg)
  else if p =? PurposeAuditRead then Ok (DBRoleAuditRO Cfg)
  else if p =? PurposeAuditWrite then Ok (DBRoleAuditWrite Cfg)
  else if p =? PurposeAuditIngest then Ok (DBRoleAuditIngest Cfg)
  else if p =? PurposeAuditPrune then Ok (DBRoleAuditPrune Cfg)
  else if p =? PurposeOpenStackPrune then Ok (DBRoleOpenStackPrune Cfg)
  else if p =? PurposeOpenStackReconcile then Ok (DBRoleReconcile Cfg)
  else if p =? PurposeMigrate then Ok (DBRoleMigrate Cfg)
  else if p =? PurposeNodeAccessAudit then Ok (DBRoleNodeAccessAudit Cfg)
  else Err "unknown database purpose".

Definition workload_for (p : Z) : Workload :=
  if bool_decide (p ∈ [PurposeStatus; PurposeAuditIngest; PurposeAuditPrune; PurposeOpenStackPrune; PurposeOpenStackReconcile])
  then WorkloadSerial else WorkloadInteractive.

Inductive app_question :=
| Ask (q : question)
| Credential (role : string)
| Connect (cfg : pool_config)
| Dial (endpoint : string)
| ListAll.

Definition app_reply (q : app_question) : Type :=
  match q with
  | Ask q => reply q
  | Credential _ => result string (string * string)
  | Connect _ => option string
  | Dial _ => bool
  | ListAll => result string (list ServerWithStatus)
  end.

(** The login's session and the snapshot on disk. *)
Record app_state := { ses : session; cache : CacheConfig }.

Notation A := (sprog app_reply app_state).

Fixpoint embed {T} (p : Effects.prog reply T) : Effects.prog app_reply T :=
  match p with Effects.Ret _ a => mret a | Effects.Do _ e k => x ← ask (Ask e : app_question); embed (k x) end.

(** A login step of the application. *)
Definition as_app {T} (m : M T) : A T := λ s,
  r ← embed (m (ses s)); mret (r.1, {| ses := r.2; cache := cache s |}).

Section app.
Context (ParseConfig : string → option pool_config) (AppendCertsFromPEM : string → bool).
Context (Cfg : app_config) (tty : bool).

(** The pool's credential callback: a session first, then the cache. *)
Definition getCreds (role : string) : A (result string (string * string)) :=
  r ← as_app (EnsureLogin (login Cfg) tty);
  match r with Err _ => mret (Err "login") | Ok _ => ask_s (Credential role) end.

(** The first connection asks for its credential, then is made. *)
Definition OpenStore (p : Z) : A (result string pool_config) :=
  match roleFor Cfg p with
  | Err e => mret (Err e)
  | Ok role =>
      if negb (String.eqb (LocalDBDSN Cfg) "") then
        match local_config ParseConfig (LocalDBDSN Cfg) with
        | Err e => mret (Err e)
        | Ok cfg => e ← ask_s (Connect cfg); mret (match (e : option string) with None => Ok cfg | Some e => Err e end)
        end
      else
        match for_config ParseConfig AppendCertsFromPEM (DBHost Cfg) (DBPort Cfg) (DBName Cfg) (DBServerName Cfg) (SRERootCA Cfg) (workload_for p) with
        | Err e => mret (Err e)
        | Ok cfg =>
            creds ← getCreds role;
            match creds with
            | Err e => mret (Err e)
            | Ok up => e ← ask_s (Connect (before_connect up cfg)); mret (match (e : option string) with None => Ok cfg | Some e => Err e end)
            end
        end
  end.

Definition WouldPromptForLogin : A bool :=
  if negb (String.eqb (LocalDBDSN Cfg) "") then mret false
  else
    valid ← as_app valid_token;
    if valid : bool then mret false
    else '(_, _, have) ← as_app (AppRoleCreds (login Cfg)); mret (negb have).

Definition dbEndpoint : string :=
  if negb (String.eqb (LocalDBDSN Cfg) "") then default "" (DSNEndpoint ParseConfig (LocalDBDSN Cfg))
  else if String.eqb (DBHost Cfg) "" then "" else JoinHostPort (DBHost Cfg) (Itoa (DBPort Cfg)).

Definition databaseAccepts : A bool := if String.eqb dbEndpoint "" then mret true else ask_s (Dial dbEndpoint).

Definition snapshotUsable (now : time_t) (snap : Snapshot) : bool := HasInventory (Some snap) && negb (Expired snap now (CacheStaleLimit Cfg)).

(** The stored snapshot, when it may be served; the clock is read only for one
    that holds hosts. *)
Definition usable_snapshot : A (option Snapshot) :=
  s ← get_s;
  match readCache (cache s) with
  | None => mret None
  | Some snap =>
      if negb (HasInventory (Some snap)) then mret None
      else now ← ask_s (Ask Now); mret (if snapshotUsable now snap then Some snap else None)
  end.

Definition snapshotToServeInstead : A (option Snapshot) :=
  would ← WouldPromptForLogin;
  if negb would then mret None
  else
    snap ← usable_snapshot;
    match snap with
    | None => mret None
    | Some snap => up ← databaseAccepts; mret (if up : bool then None else Some snap)
    end.

(** Rows are asked for only when the snapshot has aged. *)
Definition refresh_snapshot : A unit :=
  now ← ask_s (Ask Now);
  s ← get_s;
  let snap := default empty_snapshot (readCache (cache s)) in
  if CacheDisabled (cache s) || negb (NeedsRefresh snap now (CacheRefreshInterval Cfg)) then mret tt
  else
    rows ← ask_s ListAll;
    s ← get_s;
    put_s {| ses := ses s; cache := RefreshSnapshot (cache s) rows (CacheRefreshInterval Cfg) now |}.

Inductive inventory := ModeLive (st : pool_config) | ModeCached (snap : Snapshot).

Definition OpenInventory : A (result string inventory) :=
  served ← snapshotToServeInstead;
  match served with
  | Some snap => mret (Ok (ModeCached snap))
  | None =>
      st ← OpenStore PurposeInventoryRead;
      match st with
      | Ok st => refresh_snapshot;; mret (Ok (ModeLive st))
      | Err e => snap ← usable_snapshot; mret (match snap with Some snap => Ok (ModeCached snap) | None => Err e end)
      end
  end.
End app.

(** ** What the application's programs ask *)

Definition in_app (ev : event reply) : event app_reply := Ev (Ask (asked ev) : app_question) (answered ev).

Lemma runs_embed {T} (p : Effects.prog reply T) tr a : runs (embed p) tr a ↔ ∃ t, tr = in_app <$> t ∧ runs p t a.
Proof.
  revert tr. induction p as [b|e k IH]; intros tr; cbn.
  - split; [intros [-> ->]; by exists []|]. by intros (t & -> & -> & ->).
  - split.
    + intros (x & tr' & -> & H). apply IH in H as (t & -> & H). exists (Ev e x :: t). split; [done|]. by exists x, t.
    + intros (t & -> & x & t' & -> & H). exists x, (in_app <$> t'). split; [done|]. apply IH. by exists t'.
Qed.

Lemma reaches_embed {T} (p : Effects.prog reply T) tr : reaches (embed p) tr → ∃ t, tr = in_app <$> t ∧ reaches p t.
Proof.
  revert tr. induction p as [b|e k IH]; intros tr; cbn.
  - intros [->|[]]. exists []. split; [done|by left].
  - intros [->|(x & tr' & -> & H)]; [exists []; split; [done|by left]|]. apply IH in H as (t & -> & H). exists (Ev e x :: t). split; [done|]. right. by exists x, t.
Qed.

Lemma as_app_runs {T} (m : M T) s tr a s' :
  runs (as_app m s) tr (a, s') ↔ ∃ t ss, tr = in_app <$> t ∧ runs (m (ses s)) t (a, ss) ∧ s' = {| ses := ss; cache := cache s |}.
Proof.
  unfold as_app. rewrite runs_bind. split.
  - intros (t1 & t2 & [b ss] & -> & H & [-> [= <- <-]]). apply runs_embed in H as (t & -> & H). exists t, ss. by rewrite app_nil_r.
  - intros (t & ss & -> & H & ->). exists (in_app <$> t), [], (a, ss). rewrite app_nil_r. split_and!; [done|apply runs_embed; by exists t|done..].
Qed.

Definition is_ask (ev : event app_reply) : Prop := match asked ev with Ask _ => True | _ => False end.

Lemma in_app_asks t : Forall is_ask (in_app <$> t).
Proof. induction t; by constructor. Qed.

Lemma as_app_reaches {T} (m : M T) s tr : reaches (as_app m s) tr → Forall is_ask tr.
Proof.
  intros H. apply reaches_bind in H as [H|(t1 & t2 & r & -> & H & [->|[]])].
  - apply reaches_embed in H as (t & -> & _). apply in_app_asks.
  - apply runs_embed in H as (t & -> & _). rewrite app_nil_r. apply in_app_asks.
Qed.

Section facts.
Context (ParseConfig : string → option pool_config) (AppendCertsFromPEM : string → bool) (Cfg : app_config) (tty : bool).
Notation open_store := (OpenStore ParseConfig AppendCertsFromPEM Cfg tty).

(** A connection that is about to be made. *)
Definition is_connect (ev : event app_reply) : Prop := match asked ev with Connect _ => True | _ => False end.

Lemma getCreds_runs role s tr r s' : runs (getCreds Cfg tty role s) tr (Ok r, s') →
  ∃ t ss, tr = (in_app <$> t) ++ [Ev (Credential role : app_question) (Ok r)] ∧ runs (EnsureLogin (login Cfg) tty (ses s)) t (Ok tt, ss).
Proof.
  intros H. apply runs_sbind in H as (t1 & t2 & o & s1 & -> & H1 & H). apply as_app_runs in H1 as (t & ss & -> & H1 & ->).
  destruct o as [[]|e]; [|by destruct H as [_ [= ]]]. destruct H as (x & t3 & -> & -> & [= -> <-]). by exists t, ss.
Qed.

Lemma getCreds_quiet role s tr : reaches (getCreds Cfg tty role s) tr → Forall (λ ev, ¬ is_connect ev) tr.
Proof.
  assert (∀ t, Forall is_ask t → Forall (λ ev, ¬ is_connect ev) t) as Hq.
  { intros t Ht. eapply Forall_impl; [exact Ht|]. intros ev. unfold is_ask, is_connect. destruct (asked ev); tauto. }
  intros H. apply reaches_sbind in H as [H|(t1 & t2 & o & s1 & -> & H1 & H)]; [eapply Hq, as_app_reaches, H|].
  apply Forall_app. split; [apply Hq; by eapply as_app_reaches, reaches_runs|]. destruct o as [u|e]; [|by destruct H as [->|[]]].
  destruct H as [->|(x & t & -> & [->|[]])]; repeat constructor. by intros [].
Qed.

(** The connection of an opened store, made last. *)
Lemma connect_reaches cfg s (f : option string → result string pool_config) t1 cfg' x t2 :
  reaches ((e ← ask_s (Connect cfg); mret (f (e : option string)) : A _) s) (t1 ++ Ev (Connect cfg') x :: t2) → t1 = [] ∧ cfg' = cfg.
Proof.
  intros [H|(y & t & E & [->|[]])]; [by destruct t1|]. destruct t1 as [|? [|]]; [|by injection E..].
  apply (f_equal (λ l, default ListAll (asked <$> head l))) in E. by injection E as ->.
Qed.

(** C8. The inventory database is reached one way.  Whatever the purpose and
    wherever the process dies, a connection is made only for a purpose with a
    role.  Without the local setting it has no fallback host, verifies the
    server's name against the embedded roots, and sends the user and password
    the cache just gave for that role, asked for only by a process whose login
    had worked; with it nothing was asked before (no login, no credential of a
    role), what is sent is the user and password of that setting, with the TLS
    it says, and every host that may be dialled is this machine. *)
Theorem a_store_is_reached_one_way p s t1 cfg x t2 :
  reaches (open_store p s) (t1 ++ Ev (Connect cfg) x :: t2) →
  ∃ role, roleFor Cfg p = Ok role ∧
    if String.eqb (LocalDBDSN Cfg) "" then
      (∃ t ss up, t1 = (in_app <$> t) ++ [Ev (Credential role : app_question) (Ok up)] ∧ runs (EnsureLogin (login Cfg) tty (ses s)) t (Ok tt, ss) ∧
         up = (pc_User cfg, pc_Password cfg)) ∧
      Fallbacks cfg = [] ∧
      TLSConfig cfg = Some {| RootCAs := SRERootCA Cfg; ServerName := FirstNonEmpty [DBServerName Cfg; DBHost Cfg]; MinVersion := VersionTLS12 |} ∧
      (SRERootCA Cfg ≠ "" → AppendCertsFromPEM (SRERootCA Cfg) = true)
    else
      (∃ c, ParseConfig (LocalDBDSN Cfg) = Some c ∧ pc_User cfg = pc_User c ∧ pc_Password cfg = pc_Password c ∧ TLSConfig cfg = TLSConfig c) ∧
      t1 = [] ∧ Forall (λ h, isLoopbackHost h = true) (pc_Host cfg :: Fallbacks cfg).
Proof.
  unfold OpenStore. intros H. destruct (roleFor Cfg p) as [role|e]; [|by destruct H as [H|[]]; destruct t1]. exists role. split; [done|].
  destruct (String.eqb (LocalDBDSN Cfg) ""); cbn [negb] in H.
  - destruct (for_config _ _ _ _ _ _ _ _) as [c|e] eqn:Ec; [|by destruct H as [H|[]]; destruct t1].
    apply reaches_sbind in H as [H|(u1 & u2 & r & s1 & E & H1 & H)].
    { apply getCreds_quiet in H. apply Forall_app in H as [_ [H _]%Forall_cons]. by destruct H. }
    apply (cut_after is_connect) in E as (t & -> & ->); [|by eapply getCreds_quiet, reaches_runs|done].
    destruct r as [up|e]; [|by destruct H as [H|[]]; destruct t]. apply connect_reaches in H as (-> & ->). rewrite app_nil_r. split.
    + apply getCreds_runs in H1 as (t & ss & -> & H1). exists t, ss, up. by destruct up.
    + unfold for_config in Ec. destruct (ParseConfig _) as [c0|]; [|done]. destruct (negb _ && negb _) eqn:Eca; [done|]. injection Ec as <-.
      split_and!; [by destruct (workload_for p)| |].
      * unfold FirstNonEmpty. cbn. destruct (workload_for p); cbn; (destruct (String.eqb_spec (DBServerName Cfg) "") as [->|Hn]; [|by rewrite decide_True]);
          rewrite decide_False by (by intros []); destruct (decide (DBHost Cfg ≠ "")) as [|Hh]; [done| |done|]; by apply dec_stable in Hh as ->.
      * intros Hca. apply String.eqb_neq in Hca. rewrite Hca in Eca. by destruct (AppendCertsFromPEM _).
  - destruct (local_config _ _) as [c|e] eqn:Ec; [|by destruct H as [H|[]]; destruct t1]. apply connect_reaches in H as (-> & ->). unfold local_config in Ec. destruct (ParseConfig _) as [c0|]; [|done]. destruct (forallb _ _) eqn:Ef; [|done]. injection Ec as <-.
    split_and!; [by exists c0|done|]. apply Forall_forall. intros h Hh. by apply (proj1 (forallb_forall _ _) Ef), list_elem_of_In.
Qed.

(** ** The inventory a command reads *)

(** Looking at files, at the clock and at the database's port. *)
Definition looks (ev : event app_reply) : Prop :=
  match asked ev with Ask Now | Ask (ReadFile _) => True | Dial e => e = dbEndpoint ParseConfig Cfg | _ => False end.

Lemma as_app_looks {T} (m : M T) s tr a s' : stays (λ q, match q with Now | ReadFile _ => True | _ => False end) m → (∀ s0 t b s1, runs (m s0) t (b, s1) → s1 = s0) →
  runs (as_app m s) tr (a, s') → s' = s ∧ Forall looks tr.
Proof.
  intros Hs Hk H. apply as_app_runs in H as (t & ss & -> & H & ->). rewrite (Hk _ _ _ _ H). split; [by destruct s|].
  apply Forall_fmap. eapply Forall_impl; [eapply (Hs (ses s)), reaches_runs, H|]. intros [e x]. unfold looks. by destruct e.
Qed.

Lemma valid_token_keeps s tr b s' : runs (valid_token s) tr (b, s') → s' = s.
Proof.
  intros H. apply get_bind_runs in H. destruct (String.eqb _ ""); [by destruct H as [_ [= _ <-]]|].
  apply (bind_ask_runs Login.Now) in H as (now & t & -> & _ & [= _ <-]). done.
Qed.

Lemma readFileTrim_keeps path s tr b s' : runs (readFileTrim path s) tr (b, s') → s' = s.
Proof.
  unfold readFileTrim. destruct (String.eqb path ""); [by intros [_ [= _ <-]]|]. intros H.
  apply (bind_ask_runs (ReadFile _)) in H as (x & t & -> & _ & [= _ <-]). done.
Qed.

Lemma AppRoleCreds_keeps s tr b s' : runs (AppRoleCreds (login Cfg) s) tr (b, s') → s' = s.
Proof.
  intros H. apply runs_sbind in H as (t1 & t2 & f & s1 & -> & H1 & H). apply runs_sbind in H as (t3 & t4 & g & s2 & -> & H2 & [_ [= _ <-]]).
  apply readFileTrim_keeps in H1 as ->. by apply readFileTrim_keeps in H2.
Qed.

(** A setting that is empty, as is the file named for it. *)
Definition unset (setting path : string) (tr : list (event app_reply)) : Prop :=
  setting = "" ∧ (path = "" ∨ ∃ b, Ev (Ask (ReadFile path) : app_question) b ∈ tr ∧ match b with Some (Some c) => TrimSpace c = "" | _ => True end).

(** The database needs a login, there is no token that counts as valid, and one
    of the two AppRole values is missing. *)
Definition prompt_in_the_way (s : app_state) (tr : list (event app_reply)) : Prop :=
  LocalDBDSN Cfg = "" ∧
  (token_of (ses s) = "" ∨ ∃ now, Ev (Ask Now : app_question) now ∈ tr ∧ HasValidToken now (client (ses s)) = false) ∧
  (unset (AppRoleID (login Cfg)) (AppRoleIDFile (login Cfg)) tr ∨ unset (AppRoleSecretID (login Cfg)) (AppRoleSecretIDFile (login Cfg)) tr).

Lemma unset_mono setting path t t' : unset setting path t → t ⊆ t' → unset setting path t'.
Proof. intros [Hs [Hp|(b & Hb & Hm)]] Hsub; (split; [done|]); [by left|right; exists b; auto]. Qed.

Lemma prompt_mono s t t' : prompt_in_the_way s t → t ⊆ t' → prompt_in_the_way s t'.
Proof.
  intros (Hl & Ht & Ha) Hsub. split_and!; [done| |].
  - destruct Ht as [|(now & Hn & Hv)]; [by left|right; exists now; auto].
  - destruct Ha as [Ha|Ha]; [left|right]; by eapply unset_mono.
Qed.

Lemma FirstNonEmpty_unset a b : FirstNonEmpty [a; b] = "" → a = "" ∧ b = "".
Proof.
  unfold FirstNonEmpty. cbn. destruct (decide (a ≠ "")) as [|Ha]; [done|]. apply dec_stable in Ha. destruct (decide (b ≠ "")) as [|Hb]; [done|]. by apply dec_stable in Hb.
Qed.

Lemma readFileTrim_unset setting path s t v s' : runs (readFileTrim path s) t (v, s') → FirstNonEmpty [setting; v] = "" → unset setting path (in_app <$> t).
Proof.
  intros H [Hs Hv]%FirstNonEmpty_unset. split; [done|]. unfold readFileTrim in H. destruct (String.eqb_spec path "") as [|_]; [by left|right].
  apply (bind_ask_runs (ReadFile path)) in H as (x & t' & -> & -> & [= <- _]). exists x. split; [apply list_elem_of_here|]. by destruct x as [[c|]|].
Qed.

Lemma AppRoleCreds_unset s t b s' : runs (AppRoleCreds (login Cfg) s) t (b, s') → b.2 = false →
  unset (AppRoleID (login Cfg)) (AppRoleIDFile (login Cfg)) (in_app <$> t) ∨ unset (AppRoleSecretID (login Cfg)) (AppRoleSecretIDFile (login Cfg)) (in_app <$> t).
Proof.
  intros H Hb. apply runs_sbind in H as (t1 & t2 & f & s1 & -> & H1 & H). apply runs_sbind in H as (t3 & t4 & g & s2 & -> & H2 & [-> [= <- _]]).
  rewrite app_nil_r, fmap_app. cbn in Hb. apply andb_false_iff in Hb as [Hb|Hb]; apply negb_false_iff, String.eqb_eq in Hb; [left|right].
  - eapply unset_mono; [by eapply readFileTrim_unset|set_solver].
  - eapply unset_mono; [by eapply readFileTrim_unset|set_solver].
Qed.

Lemma valid_token_unset s t s' : runs (valid_token s) t (false, s') →
  token_of s = "" ∨ ∃ now, Ev (Ask Now : app_question) now ∈ (in_app <$> t : list (event app_reply)) ∧ HasValidToken now (client s) = false.
Proof.
  intros H. apply get_bind_runs in H. destruct (String.eqb_spec (token_of s) ""); [by left|right].
  apply (bind_ask_runs Login.Now) in H as (now & t' & -> & -> & [= <- _]). exists now. split; [apply list_elem_of_here|done].
Qed.

Lemma WouldPromptForLogin_true s tr s' : runs (WouldPromptForLogin Cfg s) tr (true, s') → prompt_in_the_way s tr.
Proof.
  unfold WouldPromptForLogin. destruct (String.eqb_spec (LocalDBDSN Cfg) "") as [Hl|]; cbn [negb]; [|by intros [_ [= ]]]. intros H.
  apply runs_sbind in H as (t1 & t2 & v & s1 & -> & H1 & H). apply as_app_runs in H1 as (t & ss & -> & H1 & ->).
  destruct v; [by destruct H as [_ [= ]]|]. pose proof (valid_token_keeps _ _ _ _ H1) as ->.
  apply runs_sbind in H as (t3 & t4 & [[i x] have] & s1 & -> & H2 & [-> [= Hh _]]). apply as_app_runs in H2 as (t' & ss & -> & H2 & ->).
  apply AppRoleCreds_unset in H2; [|by destruct have]. apply valid_token_unset in H1. rewrite app_nil_r. split_and!; [done| |].
  - destruct H1 as [|(now & Hn & Hv)]; [by left|right; exists now; set_solver].
  - destruct H2 as [H2|H2]; [left|right]; (eapply unset_mono; [exact H2|set_solver]).
Qed.

Lemma WouldPromptForLogin_runs s tr b s' : runs (WouldPromptForLogin Cfg s) tr (b, s') → s' = s ∧ Forall looks tr.
Proof.
  unfold WouldPromptForLogin. destruct (String.eqb _ ""); cbn [negb]; [|by intros [-> [= _ <-]]]. intros H.
  apply runs_sbind in H as (t1 & t2 & v & s1 & -> & H1 & H). apply as_app_looks in H1 as [-> H1]; [|unfold valid_token; by repeat stay|apply valid_token_keeps].
  destruct v; [destruct H as [-> [= _ <-]]; by rewrite app_nil_r|].
  apply runs_sbind in H as (t3 & t4 & [[i x] have] & s1 & -> & H2 & [-> [= _ <-]]).
  apply as_app_looks in H2 as [-> H2]; [|unfold AppRoleCreds, readFileTrim; by repeat stay|apply AppRoleCreds_keeps]. rewrite app_nil_r. split; [done|]. by apply Forall_app.
Qed.

Lemma get_bind_app {T} (f : app_state → A T) s tr r : runs ((get_s ≫= f) s) tr r ↔ runs (f s s) tr r.
Proof. done. Qed.

(** Nothing usable: no snapshot, or one without hosts, or one too old now. *)
Definition nothing_usable (c : CacheConfig) (t : list (event app_reply)) : Prop :=
  ∀ snap, readCache c = Some snap → HasInventory (Some snap) = false ∨ ∃ now, Ev (Ask Now : app_question) now ∈ t ∧ snapshotUsable Cfg now snap = false.

Lemma usable_snapshot_runs s tr o s' : runs (usable_snapshot Cfg s) tr (o, s') → s' = s ∧ Forall looks tr ∧
  match o with
  | Some snap => readCache (cache s) = Some snap ∧ ∃ now, Ev (Ask Now : app_question) now ∈ tr ∧ snapshotUsable Cfg now snap = true
  | None => nothing_usable (cache s) tr
  end.
Proof.
  unfold usable_snapshot, nothing_usable. intros H. apply get_bind_app in H.
  destruct (readCache (cache s)) as [snap|]; [|by destruct H as [-> [= <- <-]]]. destruct (HasInventory (Some snap)) eqn:Hi; cbn [negb] in H.
  - destruct H as (now & t & -> & -> & [= <- <-]). split; [done|]. split; [by repeat constructor|].
    destruct (snapshotUsable Cfg now snap) eqn:Hu; [split; [done|]|intros ? [= <-]; right]; exists now; (split; [apply list_elem_of_here|done]).
  - destruct H as [-> [= <- <-]]. split_and!; [done..|]. intros ? [= <-]. by left.
Qed.

Lemma snapshotToServeInstead_runs s tr o s' : runs (snapshotToServeInstead ParseConfig Cfg s) tr (o, s') → s' = s ∧ Forall looks tr ∧
  ∀ snap, o = Some snap → readCache (cache s) = Some snap ∧ (∃ now, Ev (Ask Now : app_question) now ∈ tr ∧ snapshotUsable Cfg now snap = true) ∧
    prompt_in_the_way s tr ∧ Ev (Dial (dbEndpoint ParseConfig Cfg) : app_question) false ∈ tr.
Proof.
  intros H. apply runs_sbind in H as (t1 & t2 & w & s1 & -> & H1 & H). pose proof (WouldPromptForLogin_true s t1) as Hw.
  pose proof (WouldPromptForLogin_runs _ _ _ _ H1) as [-> Hl]. destruct w; cbn [negb] in H; [|destruct H as [-> [= <- <-]]; by rewrite app_nil_r].
  specialize (Hw _ H1). rename Hl into H1'. clear H1. rename H1' into H1.
  apply runs_sbind in H as (t3 & t4 & o1 & s1 & -> & H2 & H). apply usable_snapshot_runs in H2 as (-> & H2 & Ho).
  destruct o1 as [snap|]; [|by destruct H as [-> [= <- <-]]; rewrite app_nil_r; split_and!; [|apply Forall_app|]]. destruct Ho as [Hr (now & Hn & Hu)].
  apply runs_sbind in H as (t5 & t6 & up & s1 & -> & H3 & [-> [= <- <-]]). rewrite app_nil_r.
  assert (s1 = s ∧ Forall looks t5 ∧ (up = false → Ev (Dial (dbEndpoint ParseConfig Cfg) : app_question) false ∈ t5)) as (-> & H4 & Hd).
  { unfold databaseAccepts in H3. destruct (String.eqb _ ""); [by destruct H3 as [-> [= <- <-]]|]. destruct H3 as (x & t & -> & -> & [= <- <-]).
    split_and!; [done|by repeat constructor|intros ->; apply list_elem_of_here]. }
  split_and!; [done|by rewrite !Forall_app|]. destruct up; [done|]. intros ? [= <-]. split_and!; [done| |eapply prompt_mono; [exact Hw|set_solver]|set_solver]. exists now. split; [set_solver|done].
Qed.

Lemma refresh_snapshot_runs s tr u s' : runs (refresh_snapshot Cfg s) tr (u, s') → ∀ id, CachedGrants (cache s') id = CachedGrants (cache s) id.
Proof.
  intros H id. destruct H as (now & t & -> & H). apply get_bind_app in H. cbv zeta in H. destruct (_ || _); [by destruct H as [_ [= _ <-]]|].
  destruct H as (rows & t' & -> & -> & [= _ <-]). apply CachedGrants_RefreshSnapshot.
Qed.

(** The store was tried, and this is how it went. *)
Definition store_tried (c : CacheConfig) (r : result string pool_config) (t : list (event app_reply)) : Prop :=
  ∃ t1 t2 t3 s1 s2, t = t1 ++ t2 ++ t3 ∧ cache s1 = c ∧ runs (open_store PurposeInventoryRead s1) t2 (r, s2) ∧
    ∀ e, r = Err e → Forall looks t3.

Lemma OpenStore_cache p s tr r s' : runs (open_store p s) tr (r, s') → cache s' = cache s.
Proof.
  unfold OpenStore. destruct (roleFor Cfg p) as [role|e]; [|by intros [_ [= _ <-]]]. destruct (negb _).
  - destruct (local_config _ _); [|by intros [_ [= _ <-]]]. intros (x & t & _ & _ & [= _ <-]). done.
  - destruct (for_config _ _ _ _ _ _ _ _); [|by intros [_ [= _ <-]]]. intros H. apply runs_sbind in H as (t1 & t2 & c & s1 & -> & H1 & H).
    apply runs_sbind in H1 as (t3 & t4 & o & s2 & -> & H1 & H2). apply as_app_runs in H1 as (t & ss & -> & _ & ->).
    assert (cache s1 = cache s) as <-.
    { destruct o as [u|e]; [|by destruct H2 as [_ [= _ <-]]]. by destruct H2 as (x & t5 & -> & _ & [= _ <-]). }
    destruct c as [up|e]; [|by destruct H as [_ [= _ <-]]]. by destruct H as (x & t5 & _ & _ & [= _ <-]).
Qed.

(** C9. What a command reads is the inventory, or a copy that may stand for it.
    A live answer is an opened store.  A cached one is the stored snapshot, with
    hosts and within the age limit at a reading of the clock, left as it is, and
    only when the store could not be opened, or when a login prompt stood in the
    way (a database that needs a login, no token that counts as valid, and an
    AppRole value missing) and nothing listened at the database, and then nobody
    was asked for anything.  An error is the store's own, with no snapshot to stand for it.
    Whatever happens the cached grants are untouched. *)
Theorem an_open_inventory_is_current s tr r s' :
  runs (OpenInventory ParseConfig AppendCertsFromPEM Cfg tty s) tr (r, s') →
  (∀ id, CachedGrants (cache s') id = CachedGrants (cache s) id) ∧
  match r with
  | Ok (ModeLive cfg) => store_tried (cache s) (Ok cfg) tr
  | Ok (ModeCached snap) =>
      readCache (cache s) = Some snap ∧ cache s' = cache s ∧ (∃ now, Ev (Ask Now : app_question) now ∈ tr ∧ snapshotUsable Cfg now snap = true) ∧
      (Forall looks tr ∧ prompt_in_the_way s tr ∧ Ev (Dial (dbEndpoint ParseConfig Cfg) : app_question) false ∈ tr ∨ ∃ e, store_tried (cache s) (Err e) tr)
  | Err e => cache s' = cache s ∧ store_tried (cache s) (Err e) tr ∧ nothing_usable (cache s) tr
  end.
Proof.
  intros H. apply runs_sbind in H as (t1 & t2 & served & s1 & -> & H1 & H). apply snapshotToServeInstead_runs in H1 as (-> & H1 & Hs).
  destruct served as [snap|].
  { destruct H as [-> [= <- <-]]. destruct (Hs snap) as (Hr & Hu & Hp & Hd); [done|]. rewrite app_nil_r. split_and!; [done..|]. by left. }
  apply runs_sbind in H as (t3 & t4 & st & s2 & -> & H2 & H). pose proof (OpenStore_cache _ _ _ _ _ H2) as Hc. destruct st as [cfg|e].
  - apply runs_sbind in H as (t5 & t6 & u & s3 & -> & H3 & [-> [= <- <-]]). pose proof (refresh_snapshot_runs _ _ _ _ H3) as Hg. rewrite Hc in Hg. split; [done|].
    exists t1, t3, (t5 ++ []), s, s2. by split_and!.
  - apply runs_sbind in H as (t5 & t6 & o & s3 & -> & H3 & [-> [= <- <-]]). apply usable_snapshot_runs in H3 as (-> & H3 & Ho). rewrite Hc in Ho |- *. rewrite !app_nil_r.
    assert (store_tried (cache s) (Err e) (t1 ++ t3 ++ t5)) as Ht by (by exists t1, t3, t5, s, s2).
    split; [done|]. destruct o as [snap|].
    + destruct Ho as [Hr (now & Hn & Hu)]. split_and!; [done..| |right; by exists e]. exists now. split; [set_solver|done].
    + split_and!; [done..|]. intros snap Hsnap. destruct (Ho _ Hsnap) as [?|(now & Hn & ?)]; [by left|right]. exists now. split; [set_solver|done].
Qed.

(** ** A connection and its credential *)

Definition credentialSafetyMargin : duration := 5 * Minute.
Definition renewalIncrement : duration := 24 * Hour.

(** C10. A connection is gone before its credential is.  The credential the
    cache hands out for a connection, under the floor the pool's own lifetimes
    set, is still leased when the pool drops that connection at the end of its
    lifetime and jitter, where it was made within the margin after the cache
    last looked at the clock. *)
Theorem a_connection_ends_before_its_lease `{Issuer W} (c c' : Cache W) user pass t host port dbname serverName caPEM workload cfg made jitter :
  for_config ParseConfig AppendCertsFromPEM host port dbname serverName caPEM workload = Ok cfg →
  Get (MaxConnAge ParseConfig + credentialSafetyMargin) renewalIncrement c = (Ok (user, pass), c') →
  last_reading (log c') = Some t → made ≤ t + credentialSafetyMargin → jitter ≤ MaxConnLifetimeJitter cfg →
  made + (MaxConnLifetime cfg + jitter) ≤ expires c'.
Proof.
  intros Hf Hg Ht Hm Hj. apply Get_outlives in Hg as (_ & _ & _ & t' & Ht' & Hx). rewrite Ht in Ht'. injection Ht' as <-.
  assert (MaxConnLifetime cfg = 20 * Minute ∧ MaxConnLifetimeJitter cfg = 5 * Minute) as [Hl Hjt].
  { unfold for_config in Hf. destruct (ParseConfig _); [|done]. destruct (negb _ && negb _); [done|]. injection Hf as <-. by destruct workload. }
  assert (25 * Minute ≤ MaxConnAge ParseConfig) as Ha by (unfold MaxConnAge; destruct (ParseConfig "postgres://localhost:5432/postgres"); vm_compute; discriminate).
  assert (30 * Minute ≤ expires c' - t).
  { assert (Minute = 60000000000) as HM by reflexivity. apply Sub_ge in Hx; unfold credentialSafetyMargin, int64_min in *; rewrite HM in *; lia. }
  rewrite Hl. rewrite Hjt in Hj. unfold credentialSafetyMargin in Hm. lia.
Qed.
End facts.

(** ** Runs *)

Module Sample.
Definition pool (host : string) (fallbacks : list string) : pool_config :=
  {| pc_Host := host; pc_Port := 5432; pc_User := "dev"; pc_Password := "dev-secret"; Fallbacks := fallbacks; TLSConfig := None; MaxConns := 4; statement_timeout := None;
     MaxConnLifetime := Hour; MaxConnLifetimeJitter := 0; MaxConnIdleTime := 0 |}.

(** A reader of DSNs that knows four; the default sslmode has a fallback. *)
Definition parse (dsn : string) : option pool_config :=
  if String.eqb dsn "postgres://127.0.0.1/vctl" then Some (pool "127.0.0.1" [])
  else if String.eqb dsn "postgres://127.0.0.1,db.example.com/vctl" then Some (pool "127.0.0.1" ["db.example.com"])
  else if String.eqb dsn "not a dsn" then None
  else Some (pool "db.sre.local" ["db.sre.local"]).

Definition settings (dsn method : string) : app_config :=
  {| login := Login.Sample.config method "role" ""; LocalDBDSN := dsn; DBHost := "db.sre.local"; DBServerName := ""; DBPort := 5432; DBName := "vctl"; SRERootCA := "PEM";
     DBRoleRO := "vctl-ro"; DBRoleRW := "vctl-rw"; DBRoleStatus := "vctl-status"; DBRoleIdentity := "vctl-identity"; DBRoleAuditRO := "vctl-audit-ro";
     DBRoleAuditWrite := "vctl-audit-write"; DBRoleAuditIngest := "vctl-audit-ingest"; DBRoleAuditPrune := "vctl-audit-prune"; DBRoleOpenStackPrune := "vctl-os-prune";
     DBRoleReconcile := "vctl-reconcile"; DBRoleMigrate := "vctl-migrate"; DBRoleNodeAccessAudit := "vctl-node-access"; CacheRefreshInterval := Hour; CacheStaleLimit := 168 * Hour |}.

(** The database is up, or nothing listens. *)
Definition outside (up : bool) (q : app_question) (w : unit) : app_reply q * unit :=
  (match q return app_reply q with
   | Ask q => (Login.Sample.outside "none" q tt).1
   | Credential role => Ok ("v-" +:+ role, "secret")
   | Connect _ => if up then None else Some "connection refused"
   | Dial _ => up
   | ListAll => Err "not now"
   end, w).

Definition does {T} (up : bool) (m : A T) (s : app_state) : list (event app_reply) * (T * app_state) := (Effects.run (outside up) (m s) tt).1.

Lemma app_does_runs {T} up (m : A T) s : runs (m s) (does up m s).1 (does up m s).2.
Proof. apply (run_runs (outside up) (m s) tt). Qed.

Definition host : ServerWithStatus :=
  {| server := {| Hostname := "sre-srv-0001"; InvCache.IP := "10.0.0.1"; Port := 22; InvCache.User := "ubuntu"; JumpVia := ""; DC := "dc1"; CARole := "vctl"; CAKeyVersion := 1;
                  LastSeenUp := None; ExtraIPs := []; ServerState := "" |}; status := None |}.

Definition snapshot (age : duration) : Snapshot :=
  {| Version := snapshotVersion; CapturedAt := Login.Sample.at_hour - age; Servers := [host]; Grants := ∅ |}.

Definition with_snapshot (age : duration) : app_state :=
  {| ses := Login.Sample.nothing; cache := {| CacheDisabled := false; cache_file := {| path_set := true; disk_ok := true; file := Some (snapshot age) |} |} |}.

Lemma a_store_is_reached_one_way_witness :
  let tr := (does true (OpenStore parse (λ _, true) (settings "" "") false PurposeAuditWrite) (with_snapshot Hour)).1 in
  (∃ cfg, last tr = Some (Ev (Connect (before_connect ("v-vctl-audit-write", "secret") cfg) : app_question) None) ∧ Fallbacks cfg = []) ∧ length tr = 7%nat.
Proof.
  intros tr. pose proof (reaches_runs _ _ _ (app_does_runs true (OpenStore parse (λ _, true) (settings "" "") false PurposeAuditWrite) (with_snapshot Hour))) as H. fold tr in H.
  split; [|vm_compute; reflexivity].
  set (cfg := tunePoolFor ((pool "db.sre.local" []) <| TLSConfig := Some {| RootCAs := "PEM"; ServerName := "db.sre.local"; MinVersion := VersionTLS12 |} |>) WorkloadInteractive).
  assert (tr = take 6 tr ++ [Ev (Connect (before_connect ("v-vctl-audit-write", "secret") cfg) : app_question) None]) as E by (vm_compute; reflexivity).
  rewrite E in H. apply a_store_is_reached_one_way in H as (role & _ & H). exists cfg. split; [rewrite E; apply last_snoc|]. exact (proj1 (proj2 H)).
Defined.

(** An outage, a lapsed token and no AppRole: the copy is served, unasked. *)
Lemma an_open_inventory_is_current_witness :
  let out := does false (OpenInventory parse (λ _, true) (settings "" "oidc" <| login := Login.Sample.config "oidc" "" "" |>) true) (with_snapshot Hour) in
  out.2.1 = Ok (ModeCached (snapshot Hour)) ∧ readCache (cache (with_snapshot Hour)) = Some (snapshot Hour) ∧ length out.1 = 4%nat.
Proof.
  intros out. assert (out.2 = (Ok (ModeCached (snapshot Hour)), with_snapshot Hour)) as E by (vm_compute; reflexivity).
  pose proof (app_does_runs false (OpenInventory parse (λ _, true) (settings "" "oidc" <| login := Login.Sample.config "oidc" "" "" |>) true) (with_snapshot Hour)) as H. fold out in H.
  rewrite E in H. apply an_open_inventory_is_current in H as (_ & H & _). split; [rewrite E; reflexivity|]. split; [exact H|vm_compute; reflexivity].
Defined.

#[local] Existing Instance demo_issuer.

Lemma a_connection_ends_before_its_lease_witness :
  let c' := (Get (MaxConnAge parse + credentialSafetyMargin) renewalIncrement demo_cache).2 in
  2 * Hour + 5 * Minute + (20 * Minute + 5 * Minute) ≤ expires c' ∧ expires c' = 3 * Hour.
Proof.
  intros c'. split; [|vm_compute; reflexivity].
  refine (a_connection_ends_before_its_lease parse (λ _, true) demo_cache c' "v-new" "p" (2 * Hour) "db.sre.local" 5432 "vctl" "" "PEM" WorkloadSerial
    (tunePoolFor ((pool "db.sre.local" []) <| TLSConfig := Some {| RootCAs := "PEM"; ServerName := "db.sre.local"; MinVersion := VersionTLS12 |} |>) WorkloadSerial)
    (2 * Hour + 5 * Minute) (5 * Minute) _ _ _ _ _); vm_compute; (reflexivity || discriminate).
Defined.

(** The local setting refuses a list that leaves this machine. *)
Example local_hosts :
  (does true (OpenStore parse (λ _, true) (settings "postgres://127.0.0.1,db.example.com/vctl" "") true PurposeInventoryRead) (with_snapshot Hour)).1 = [] ∧
  asked <$> (does true (OpenStore parse (λ _, true) (settings "postgres://127.0.0.1/vctl" "") true PurposeInventoryRead) (with_snapshot Hour)).1 = [Connect (pool "127.0.0.1" [])].
Proof. vm_compute. by split. Qed.

(** With AppRole credentials on disk a prompt is said not to be coming, and the
    configured login prompts: in an outage with a good snapshot a password is
    asked for and the database fails all the same. *)
Lemma a_prompt_is_not_foreseen :
  let app := settings "" "userpass" in
  let out := does false (OpenInventory parse (λ _, true) app true) (with_snapshot Hour) in
  (does false (WouldPromptForLogin app) (with_snapshot Hour)).2.1 = false ∧
  existsb (λ ev, match asked ev with Ask ReadPassword => true | _ => false end) out.1 = true ∧
  out.2.1 = Ok (ModeCached (snapshot Hour)).
Proof. vm_compute. by split_and!. Qed.
End Sample.
