(* ===== verification/AuditRedact.v ===== *)
(** The filter over process arguments (internal/auditredact): seven regular
    expressions, each with what it puts back, applied one after another before
    a command line enters the audit database.

    Go's [regexp] is modelled as far as these expressions use it: a match is the
    leftmost one and, there, the first of the alternatives in the order a
    backtracking search tries them, repetition being greedy.  All repetition
    here is of a single class of bytes. *)

From Stdlib Require Import Ascii String ZArith Lia.
From S2P Require Import Prelude GoStrings.

Local Open Scope Z_scope.

(** ** Regular expressions *)

Local Notation text := (list ascii).

Inductive re :=
| Cls (p : ascii → bool)
| Cat (a b : re)
| Alt (a b : re)
| Eps
| Star (p : ascii → bool)
| Bol
| WordB.

Definition Plus (p : ascii → bool) : re := Cat (Cls p) (Star p).

Fixpoint runs_of (p : ascii → bool) (s : text) : list (text * text) :=
  match s with
  | [] => [([], [])]
  | c :: s' => if p c then ((λ m, (c :: m.1, m.2)) <$> runs_of p s') ++ [([], s)] else [([], s)]
  end.

Definition is_word (c : ascii) : bool := is_alnum c || Ascii.eqb c "_".
Definition wordly (c : option ascii) : bool := from_option is_word false c.

(** The byte before the rest, [prev] having stood before the match. *)
Definition before (prev : option ascii) (m : text) : option ascii := match last m with Some c => Some c | None => prev end.

(** What [r] may match at the start of [s], first choice first, each with the
    rest. *)
Fixpoint ends (r : re) (prev : option ascii) (s : text) : list (text * text) :=
  match r with
  | Cls p => match s with c :: s' => if p c then [([c], s')] else [] | [] => [] end
  | Cat a b => m ← ends a prev s; (λ m', (m.1 ++ m'.1, m'.2)) <$> ends b (before prev m.1) m.2
  | Alt a b => ends a prev s ++ ends b prev s
  | Eps => [([], s)]
  | Star p => runs_of p s
  | Bol => match prev with None => [([], s)] | Some _ => [] end
  | WordB => if Bool.eqb (wordly prev) (wordly (head s)) then [] else [([], s)]
  end.

(** ** Classes and literals *)

Definition re_space (c : ascii) : bool := bool_decide (byte_val c ∈ [9; 10; 12; 13; 32]).
Definition solid (c : ascii) : bool := negb (re_space c).
Definition chr (k : ascii) : re := Cls (Ascii.eqb k).
(** Under [(?i)]. *)
Definition fold_chr (k : ascii) : re := Cls (λ c, Ascii.eqb (lower_char k) (lower_char c)).
Definition lit (w : string) : re := foldr (λ c r, Cat (fold_chr c) r) Eps (String.list_ascii_of_string w).
Definition one_of (ws : list string) : re :=
  match ws with [] => Cls (λ _, false) | w :: ws => foldl (λ r w, Alt r (lit w)) (lit w) ws end.
Definition spaces : re := Plus re_space.
Definition in_class (s : string) (c : ascii) : bool := existsb (Ascii.eqb c) (String.list_ascii_of_string s).

(** ** The rules *)

(** What is put back, what is replaced, and what is put back after it. *)
Record rule := { keep : re; secret : re; keep_after : re }.

Definition equals_or_spaces : re := Alt (chr "=") spaces.

Definition flag_names : list string := ["password"; "passwd"; "token"; "secret"; "client-secret"; "api-key"; "access-key"].
Definition flag_rule : rule := {| keep := Cat (Cat (lit "--") (one_of flag_names)) equals_or_spaces; secret := Plus solid; keep_after := Eps |}.

Definition header_rule : rule :=
  {| keep := Cat (one_of ["authorization"; "proxy-authorization"]) (Cat (chr ":") (Cat (Star re_space) (Cat (one_of ["bearer"; "basic"]) spaces)));
     secret := Plus solid; keep_after := Eps |}.

Definition env_names : list string := ["password"; "passwd"; "pwd"; "token"; "secret"; "api_key"; "access_key"].
Definition env_rule : rule :=
  {| keep := Cat (Alt Bol (Cls re_space)) (Cat (Star is_word) (Cat (one_of env_names) (chr "="))); secret := Plus solid; keep_after := Eps |}.

Definition literal_rule : rule :=
  {| keep := Cat (lit "--from-literal") (Cat equals_or_spaces (Cat (Plus solid) (chr "="))); secret := Plus solid; keep_after := Eps |}.

Definition vault_rule : rule :=
  {| keep := Cat WordB (Cat (lit "vault") (Cat spaces (Cat (lit "login") spaces)));
     secret := Cat (Cls (λ c, solid c && negb (Ascii.eqb c "-"))) (Star solid); keep_after := Eps |}.

Definition user_rule : rule :=
  {| keep := Cat (one_of ["-u"; "--user"]) (Cat spaces (Cat (Plus (λ c, solid c && negb (Ascii.eqb c ":"))) (chr ":"))); secret := Plus solid; keep_after := Eps |}.

Definition letter (c : ascii) : bool := is_upper c || is_lower c.
Definition uri_rule : rule :=
  {| keep := Cat (Cls letter) (Cat (Star (λ c, is_alnum c || in_class "+.-" c)) (Cat (chr ":") (Cat (chr "/") (Cat (chr "/")
               (Cat (Plus (λ c, solid c && negb (in_class ":/@" c))) (chr ":"))))));
     secret := Plus (λ c, solid c && negb (Ascii.eqb c "@")); keep_after := chr "@" |}.

Definition rules : list rule := [flag_rule; header_rule; env_rule; literal_rule; vault_rule; user_rule; uri_rule].

(** ** Replacing *)

Definition mask : text := String.list_ascii_of_string "[REDACTED]".

(** The first match of the rule here: kept, replaced, kept after, the rest. *)
Definition match_here (r : rule) (prev : option ascii) (s : text) : option (text * text * text * text) :=
  head (k ← ends (keep r) prev s;
        v ← ends (secret r) (before prev k.1) k.2;
        (λ a, (k.1, v.1, a.1, a.2)) <$> ends (keep_after r) (before (before prev k.1) v.1) v.2).

Fixpoint replace_from (fuel : nat) (r : rule) (prev : option ascii) (s : text) : text :=
  match fuel with
  | O => s
  | S fuel =>
      match match_here r prev s with
      | Some (k, v, a, rest) => k ++ mask ++ a ++ replace_from fuel r (before prev (k ++ v ++ a)) rest
      | None => match s with [] => [] | c :: s' => c :: replace_from fuel r (Some c) s' end
      end
  end.

Definition ReplaceAll (r : rule) (s : text) : text := replace_from (S (length s)) r None s.

Definition Arguments (args : string) : string :=
  String.string_of_list_ascii (foldl (λ s r, ReplaceAll r s) (String.list_ascii_of_string args) rules).

Example redacts_flags : Arguments "curl --token=abc --password hunter2 --Client-Secret=x" = "curl --token=[REDACTED] --password [REDACTED] --Client-Secret=[REDACTED]".
Proof. by vm_compute. Qed.
Example redacts_headers : Arguments "curl -H Authorization: Bearer abc.def" = "curl -H Authorization: Bearer [REDACTED]".
Proof. by vm_compute. Qed.
Example redacts_env : Arguments "env VAULT_TOKEN=hvs.x PGPASSWORD=y keep=z" = "env VAULT_TOKEN=[REDACTED] PGPASSWORD=[REDACTED] keep=z".
Proof. by vm_compute. Qed.
Example redacts_vault_login : Arguments "vault login hvs.secret" = "vault login [REDACTED]" ∧ Arguments "vault login -method=oidc" = "vault login -method=oidc".
Proof. by vm_compute. Qed.
Example redacts_user_and_uri : Arguments "curl -u kim:pw https://a:b@h/x" = "curl -u kim:[REDACTED] https://a:[REDACTED]@h/x".
Proof. by vm_compute. Qed.
Example redacts_from_literal : Arguments "kubectl create secret generic x --from-literal=key=top" = "kubectl create secret generic x --from-literal=key=[REDACTED]".
Proof. by vm_compute. Qed.

(** ** What a match consumes *)

Lemma runs_of_splits p s m : m ∈ runs_of p s → s = m.1 ++ m.2.
Proof.
  revert m. induction s as [|c s IH]; intros m; simpl; [by intros H%list_elem_of_singleton; subst m|].
  destruct (p c); [|by intros H%list_elem_of_singleton; subst m].
  intros [(m' & -> & Hm)%list_elem_of_fmap|Hm%list_elem_of_singleton]%elem_of_app; [|by subst m]. simpl. f_equal. by apply IH.
Qed.

Lemma ends_splits r prev s m : m ∈ ends r prev s → s = m.1 ++ m.2.
Proof.
  revert prev s m. induction r as [p|a IHa b IHb|a IHa b IHb| |p| |]; intros prev s m; simpl.
  - destruct s as [|c s]; [by intros ?%elem_of_nil|]. destruct (p c); [|by intros ?%elem_of_nil]. by intros H%list_elem_of_singleton; subst m.
  - intros (ma & Hm & Ha)%list_elem_of_bind. apply list_elem_of_fmap in Hm as (mb & -> & Hb). simpl.
    apply IHa in Ha. apply IHb in Hb. by rewrite Ha, Hb, (assoc_L (++)).
  - intros [?|?]%elem_of_app; eauto.
  - by intros H%list_elem_of_singleton; subst m.
  - apply runs_of_splits.
  - destruct prev; [by intros ?%elem_of_nil|by intros H%list_elem_of_singleton; subst m].
  - destruct (Bool.eqb _ _); [by intros ?%elem_of_nil|by intros H%list_elem_of_singleton; subst m].
Qed.

(** Every match of [r] takes a byte. *)
Fixpoint eats (r : re) : bool :=
  match r with Cls _ => true | Cat a b => eats a || eats b | Alt a b => eats a && eats b | Eps | Star _ | Bol | WordB => false end.

Lemma ends_eats r prev s m : eats r = true → m ∈ ends r prev s → m.1 ≠ [].
Proof.
  revert prev s m. induction r as [p|a IHa b IHb|a IHa b IHb| |p| |]; intros prev s m; simpl; try done.
  - intros _. destruct s as [|c s]; [by intros ?%elem_of_nil|]. destruct (p c); [|by intros ?%elem_of_nil]. by intros H%list_elem_of_singleton; subst m.
  - intros He (ma & Hm & Ha)%list_elem_of_bind. apply list_elem_of_fmap in Hm as (mb & -> & Hb). simpl.
    apply orb_true_iff in He as [He|He]; [specialize (IHa _ _ _ He Ha)|specialize (IHb _ _ _ He Hb)]; by intros [? ?]%app_nil.
  - intros [? ?]%andb_true_iff [?|?]%elem_of_app; eauto.
Qed.

(** No assertion looks at what stood before. *)
Fixpoint plain (r : re) : bool :=
  match r with Cat a b | Alt a b => plain a && plain b | Bol | WordB => false | _ => true end.

Lemma ends_plain r prev prev' s : plain r = true → ends r prev s = ends r prev' s.
Proof.
  revert prev prev' s. induction r as [p|a IHa b IHb|a IHa b IHb| |p| |]; intros prev prev' s; simpl; try done; intros [Ha Hb]%andb_true_iff.
  - rewrite (IHa prev prev' s Ha). apply list_bind_ext; [|done]. intros m. f_equal. by apply IHb.
  - by rewrite (IHa prev prev' s Ha), (IHb prev prev' s Hb).
Qed.

Lemma match_here_splits r prev s k v a rest : match_here r prev s = Some (k, v, a, rest) → s = k ++ v ++ a ++ rest ∧ (eats (secret r) = true → v ≠ []).
Proof.
  unfold match_here. intros Hm%head_Some_elem_of.
  apply list_elem_of_bind in Hm as (mk & Hm & Hk). apply list_elem_of_bind in Hm as (mv & Hm & Hv).
  apply list_elem_of_fmap in Hm as (ma & [= -> -> -> ->] & Ha).
  split; [|intros He; by eapply ends_eats].
  apply ends_splits in Hk. apply ends_splits in Hv. apply ends_splits in Ha. by rewrite Hk, Hv, Ha.
Qed.

(** Any fuel beyond the text's length is enough. *)
Lemma replace_from_fuel r : eats (secret r) = true → ∀ fuel fuel' prev s, (length s < fuel)%nat → (length s < fuel')%nat → replace_from fuel r prev s = replace_from fuel' r prev s.
Proof.
  intros He. induction fuel as [|fuel IH]; intros fuel' prev s Hf Hf'; [lia|]. destruct fuel' as [|fuel']; [lia|]. simpl.
  destruct (match_here r prev s) as [[[[k v] a] rest]|] eqn:Hm.
  - apply match_here_splits in Hm as [-> Hv]. specialize (Hv He). rewrite !length_app in *. destruct v as [|c v]; [done|]. simpl in *.
    by rewrite (IH fuel' _ rest) by lia.
  - destruct s as [|c s]; [done|]. simpl in *. f_equal. apply IH; lia.
Qed.

Lemma rules_eat : Forall (λ r, eats (secret r) = true) rules.
Proof. by repeat constructor. Qed.

(** ** A secret after an equals sign *)

(** No class of [r] takes the byte. *)
Fixpoint never (k : ascii) (r : re) : bool :=
  match r with Cls p | Star p => negb (p k) | Cat a b | Alt a b => never k a && never k b | Eps | Bol | WordB => true end.

Section cut.
Context (k : ascii) (w w' : text).

(** The same match in two texts that differ only after [k]. *)
Definition same_cut (u : text) (m m' : text * text) : Prop :=
  m.1 = m'.1 ∧ ∃ rest, u = m.1 ++ rest ∧ m.2 = rest ++ k :: w ∧ m'.2 = rest ++ k :: w'.

(** Or one that takes everything up to [k], and it. *)
Definition same_keep (u : text) (m m' : text * text) : Prop :=
  same_cut u m m' ∨ (m = (u ++ [k], w) ∧ m' = (u ++ [k], w')).

Lemma runs_of_cut p u : p k = false → Forall2 (same_cut u) (runs_of p (u ++ k :: w)) (runs_of p (u ++ k :: w')).
Proof.
  intros Hk. induction u as [|c u IH]; simpl.
  - rewrite Hk. constructor; [|done]. split; [done|]. by exists [].
  - destruct (p c); [|constructor; [|done]; split; [done|]; by exists (c :: u)].
    apply Forall2_app; [|constructor; [|done]; split; [done|]; by exists (c :: u)].
    apply Forall2_fmap. eapply Forall2_impl; [exact IH|]. intros m m' (E & rest & -> & E1 & E2). split; simpl; [by rewrite E|]. by exists rest.
Qed.

Lemma Forall2_bind_in {A B C D} (R : A → B → Prop) (S : C → D → Prop) (f : A → list C) (g : B → list D) l l' :
  Forall2 R l l' → (∀ a b, R a b → Forall2 S (f a) (g b)) → Forall2 S (l ≫= f) (l' ≫= g).
Proof. intros H Hf. induction H; csimpl; [done|]. apply Forall2_app; auto. Qed.

Lemma same_cut_more u x rest m m' : u = x ++ rest → same_cut rest m m' → same_cut u (x ++ m.1, m.2) (x ++ m'.1, m'.2).
Proof. intros -> (E & tl & -> & E1 & E2). split; simpl; [by rewrite E|]. exists tl. by rewrite (assoc_L (++)). Qed.

Lemma same_keep_more u x rest m m' : u = x ++ rest → same_keep rest m m' → same_keep u (x ++ m.1, m.2) (x ++ m'.1, m'.2).
Proof.
  intros Hu [H|[-> ->]]; [left; by eapply same_cut_more|right]. simpl. by rewrite Hu, (assoc_L (++)).
Qed.

Lemma ends_cut r prev u : never k r = true → Forall2 (same_cut u) (ends r prev (u ++ k :: w)) (ends r prev (u ++ k :: w')).
Proof.
  revert prev u. induction r as [p|a IHa b IHb|a IHa b IHb| |p| |]; intros prev u; simpl; intros Hk; bool_simpl.
  - destruct u as [|c u]; simpl; [by rewrite Hk|]. destruct (p c); [|done]. constructor; [|done]. split; [done|]. by exists u.
  - eapply Forall2_bind_in; [by apply IHa|]. intros [x s] [x' s'] (E & rest & Hu & E1 & E2). simpl in *. subst.
    apply Forall2_fmap. eapply Forall2_impl; [by apply IHb|]. intros m m' Hm. by eapply same_cut_more.
  - apply Forall2_app; auto.
  - constructor; [|done]. split; [done|]. by exists u.
  - by apply runs_of_cut.
  - destruct prev; [done|]. constructor; [|done]. split; [done|]. by exists u.
  - destruct u as [|c u]; simpl; destruct (Bool.eqb _ _); (constructor; [|done]) || done; (split; [done|]); [by exists []|by exists (c :: u)].
Qed.

(** A prefix that stops at [k]: [core], then [k] or spaces. *)
Lemma ends_keep core alt prev u : never k core = true → never k alt = true → 
  Forall2 (same_keep u) (ends (Cat core (Alt (chr k) alt)) prev (u ++ k :: w)) (ends (Cat core (Alt (chr k) alt)) prev (u ++ k :: w')).
Proof.
  intros Hc Ha. simpl. eapply Forall2_bind_in; [by apply ends_cut|]. intros [x s] [x' s'] (E & rest & Hu & E1 & E2). simpl in *. subst.
  apply Forall2_fmap, Forall2_app.
  - destruct rest as [|c rest]; simpl.
    + rewrite Ascii.eqb_refl. constructor; [|done]. right. by rewrite !app_nil_r.
    + destruct (Ascii.eqb k c) eqn:E; [|done]. apply Ascii.eqb_eq in E as <-. constructor; [|done]. left. split; [done|]. exists rest. simpl. by rewrite <-(assoc_L (++)).
  - eapply Forall2_impl; [by apply ends_cut|]. intros m m' Hm. left. by eapply same_cut_more.
Qed.
End cut.

(** *** The longest run *)

Fixpoint run_of (p : ascii → bool) (s : text) : text * text :=
  match s with
  | [] => ([], [])
  | c :: s' => if p c then (c :: (run_of p s').1, (run_of p s').2) else ([], s)
  end.

Lemma runs_of_head p s : ∃ tl, runs_of p s = run_of p s :: tl.
Proof.
  induction s as [|c s [tl IH]]; simpl; [by exists []|]. destruct (p c); [|by exists []]. rewrite IH. csimpl. by eexists.
Qed.

Lemma run_of_app p a s : forallb p a = true → run_of p (a ++ s) = (a ++ (run_of p s).1, (run_of p s).2).
Proof. induction a as [|c a IH]; simpl; [by destruct (run_of p s)|]. intros [Hc Ha]%andb_true_iff. by rewrite Hc, IH. Qed.

Lemma run_of_stop p a c s : forallb p a = true → p c = false → run_of p (a ++ c :: s) = (a, c :: s).
Proof. intros Ha Hc. rewrite run_of_app by done. simpl. rewrite Hc. by rewrite app_nil_r. Qed.

(** A text is all of one class, or splits at the first byte that is not. *)
Lemma run_split p (s : text) : forallb p s = true ∨ ∃ a c b, s = a ++ c :: b ∧ forallb p a = true ∧ p c = false.
Proof.
  induction s as [|c s IH]; [by left|]. simpl. destruct (p c) eqn:Hc; [|right; by exists [], c, s].
  destruct IH as [H|(a & c' & b & -> & Ha & Hc')]; [by left|right]. exists (c :: a), c', b. simpl. by rewrite Hc.
Qed.

(** What is replaced after what is kept, when it is a run of non-spaces. *)
Definition value_here (k s : text) : option (text * text * text * text) :=
  match s with
  | c :: _ => if solid c then Some (k, (run_of solid s).1, [], (run_of solid s).2) else None
  | [] => None
  end.

Lemma head_value prev prev' k s : 
  head (v ← ends (Plus solid) prev s; (λ a, (k, v.1, a.1, a.2)) <$> ends Eps (prev' v) v.2) = value_here k s.
Proof.
  destruct s as [|c s]; [done|]. simpl. destruct (solid c); [|done]. csimpl. destruct (runs_of_head solid s) as [tl ->]. done.
Qed.

Lemma head_bind {A B} (f : A → list B) l : head (l ≫= f) = head (omap (λ x, head (f x)) l).
Proof. induction l as [|x l IH]; [done|]. csimpl. by destruct (f x). Qed.

Lemma head_omap_related {A A' B B'} (R : A → A' → Prop) (S : option B → option B' → Prop) (f : A → option B) (g : A' → option B') l l' :
  S None None → (∀ x, ¬ S (Some x) None) → (∀ y, ¬ S None (Some y)) → Forall2 R l l' → (∀ a b, R a b → S (f a) (g b)) → S (head (omap f l)) (head (omap g l')).
Proof.
  intros H0 HS HS' Hl Hf. induction Hl as [|a b l l' Hab Hl IH]; csimpl; [done|]. specialize (Hf a b Hab).
  destruct (f a), (g b); simpl; [done|by edestruct HS|by edestruct HS'|done].
Qed.

Section value.
Context (v v' post : text) (Hv : forallb solid v = true ∧ v ≠ []) (Hv' : forallb solid v' = true ∧ v' ≠ []) (Hpost : from_option re_space true (head post) = true).

Lemma run_of_post : run_of solid post = ([], post).
Proof. destruct post as [|c p]; [done|]. simpl in *. unfold solid at 1. by rewrite Hpost. Qed.

Lemma run_of_value (x : text) : forallb solid x = true → run_of solid (x ++ post) = (x, post).
Proof. intros Hx. rewrite run_of_app, run_of_post by done. simpl. by rewrite app_nil_r. Qed.

(** Two matches that keep the same text and take no different one. *)
Definition alike (u : text) (m m' : option (text * text * text * text)) : Prop :=
  match m, m' with
  | None, None => True
  | Some (k, x, a, rest), Some (k', x', a', rest') =>
      k = k' ∧ a = [] ∧ a' = [] ∧
      (rest = post ∧ rest' = post ∨
       ∃ c u2, x = x' ∧ u = (k ++ x) ++ c :: u2 ∧ re_space c = true ∧ rest = (c :: u2) ++ "="%char :: v ++ post ∧ rest' = (c :: u2) ++ "="%char :: v' ++ post)
  | _, _ => False
  end.

Lemma value_alike u m m' : same_keep "="%char (v ++ post) (v' ++ post) u m m' → alike u (value_here m.1 m.2) (value_here m'.1 m'.2).
Proof.
  intros [(E & rest & Hu & E1 & E2)|[-> ->]]; simpl.
  - rewrite E1, E2, <-E. destruct (run_split solid rest) as [Hs|(a & c & b & -> & Ha & Hc)].
    + assert (∀ x, forallb solid x = true → value_here m.1 (rest ++ "="%char :: x ++ post) = Some (m.1, rest ++ "="%char :: x, [], post)) as Hval.
      { intros x Hx. unfold value_here. replace (rest ++ "="%char :: x ++ post) with ((rest ++ "="%char :: x) ++ post) by (by rewrite <-(assoc_L (++))).
        rewrite run_of_value by (rewrite forallb_app; simpl; by rewrite Hs, Hx).
        destruct rest as [|r rest]; simpl; [done|]. simpl in Hs. apply andb_true_iff in Hs as [-> _]. done. }
      rewrite (Hval v (proj1 Hv)), (Hval v' (proj1 Hv')). simpl. split_and!; [done|done|done|by left].
    + destruct a as [|d a]; simpl.
      * by rewrite Hc.
      * simpl in Ha. apply andb_true_iff in Ha as [-> Ha]. rewrite <-!(assoc_L (++)). simpl. rewrite (run_of_stop solid a c (b ++ "="%char :: v ++ post)), (run_of_stop solid a c (b ++ "="%char :: v' ++ post)) by done. simpl.
        split_and!; try done. right. exists c, b. split_and!; [done| |unfold solid in Hc; by destruct (re_space c)|done|done].
        rewrite Hu. by rewrite <-!(assoc_L (++)).
  - assert (∀ x, forallb solid x = true ∧ x ≠ [] → value_here (u ++ ["="%char]) (x ++ post) = Some (u ++ ["="%char], x, [], post)) as Hval.
    { intros x [Hx Hne]. unfold value_here. rewrite run_of_value by done. destruct x as [|c x]; [done|]. simpl in *. by apply andb_true_iff in Hx as [-> _]. }
    rewrite (Hval v Hv), (Hval v' Hv'). simpl. split_and!; [done|done|done|by left].
Qed.
End value.

(** *** The rule for flags *)

Definition plain_rule (r : rule) : bool := plain (keep r) && plain (secret r) && plain (keep_after r).

Lemma match_here_plain r prev prev' s : plain_rule r = true → match_here r prev s = match_here r prev' s.
Proof.
  unfold plain_rule, match_here. intros H. bool_simpl. f_equal. erewrite ends_plain by done.
  apply list_bind_ext; [|done]. intros k. erewrite ends_plain by done. apply list_bind_ext; [|done]. intros m. by erewrite ends_plain.
Qed.

Lemma replace_from_plain r fuel prev prev' s : plain_rule r = true → replace_from fuel r prev s = replace_from fuel r prev' s.
Proof.
  intros Hr. revert prev prev' s. induction fuel as [|fuel IH]; intros prev prev' s; [done|]. simpl. rewrite (match_here_plain r prev prev' s Hr).
  destruct (match_here r prev' s) as [[[[k v] a] rest]|]; [|done]. by rewrite (IH _ (before prev' (k ++ v ++ a))).
Qed.

Lemma match_flag prev s : match_here flag_rule prev s = head (omap (λ m, value_here m.1 m.2) (ends (keep flag_rule) prev s)).
Proof.
  unfold match_here. rewrite head_bind. f_equal. apply list_omap_ext. induction (ends (keep flag_rule) prev s) as [|m l IH]; constructor; [|done].
  exact (head_value (before prev m.1) (λ w, before (before prev m.1) w.1) m.1 m.2).
Qed.

Lemma replace_from_any fuel fuel' prev prev' s : (length s < fuel)%nat → (length s < fuel')%nat → replace_from fuel flag_rule prev s = replace_from fuel' flag_rule prev' s.
Proof. intros Hf Hf'. rewrite (replace_from_plain flag_rule fuel prev prev') by done. by apply replace_from_fuel. Qed.

Lemma not_solid c : re_space c = true → solid c = false.
Proof. unfold solid. by intros ->. Qed.

(** What follows a space before the end of a word holds the word. *)
Lemma suffix_keeps_word (pre K a : text) d u2 : pre ++ K = a ++ d :: u2 → forallb solid K = true → solid d = false → ∃ pre2, d :: u2 = pre2 ++ K.
Proof.
  intros [(z & -> & ->)|(z & -> & E)]%app_eq_inv HK Hd; [by exists z|].
  rewrite E, forallb_app in HK. simpl in HK. rewrite Hd in HK. by destruct (forallb solid z).
Qed.

Section flag.
Context (v v' post : text) (Hv : forallb solid v = true ∧ v ≠ []) (Hv' : forallb solid v' = true ∧ v' ≠ []) (Hpost : from_option re_space true (head post) = true).

Lemma flag_alike prev u : alike v v' post u (match_here flag_rule prev (u ++ "="%char :: v ++ post)) (match_here flag_rule prev (u ++ "="%char :: v' ++ post)).
Proof.
  rewrite !match_flag. apply (head_omap_related (same_keep "="%char (v ++ post) (v' ++ post) u)); [done|by intros [[[? ?] ?] ?] []|by intros [[[? ?] ?] ?] []| |].
  - by apply ends_keep.
  - intros m m'. by apply value_alike.
Qed.

Context (K : text) (HK : forallb solid K = true) (Hmatch : ∀ prev w, ends (keep flag_rule) prev (K ++ "="%char :: w) = [(K ++ ["="%char], w)]).

Lemma flag_found prev x : forallb solid x = true ∧ x ≠ [] → match_here flag_rule prev (K ++ "="%char :: x ++ post) ≠ None.
Proof.
  intros [Hx Hne]. rewrite match_flag, Hmatch. unfold value_here. destruct x as [|c x]; [done|]. simpl in *. by apply andb_true_iff in Hx as [-> _].
Qed.

Lemma flag_scan fuel fuel' prev pre : (length (pre ++ K ++ "="%char :: v ++ post) < fuel)%nat → (length (pre ++ K ++ "="%char :: v' ++ post) < fuel')%nat →
  replace_from fuel flag_rule prev (pre ++ K ++ "="%char :: v ++ post) = replace_from fuel' flag_rule prev (pre ++ K ++ "="%char :: v' ++ post).
Proof.
  revert fuel' prev pre. induction fuel as [|fuel IH]; intros fuel' prev pre Hf Hf'; [lia|]. destruct fuel' as [|fuel']; [lia|]. simpl.
  pose proof (flag_alike prev (pre ++ K)) as Ha. rewrite <-!(assoc_L (++)) in Ha.
  destruct (match_here flag_rule prev (pre ++ K ++ "="%char :: v ++ post)) as [[[[k x] a] rest]|] eqn:Hm,
    (match_here flag_rule prev (pre ++ K ++ "="%char :: v' ++ post)) as [[[[k' x'] a'] rest']|] eqn:Hm'; try done.
  - apply match_here_splits in Hm as [E Hx]. apply match_here_splits in Hm' as [E' Hx']. specialize (Hx eq_refl). specialize (Hx' eq_refl).
    rewrite E in Hf. rewrite E' in Hf'. rewrite !length_app in Hf, Hf'. destruct x as [|c x]; [done|]. destruct x' as [|c' x']; [done|]. simpl in Hf, Hf'.
    destruct Ha as (<- & -> & -> & [[-> ->]|(d & u2 & Ex & Hu & Hd & -> & ->)]).
    + simpl in Hf, Hf'. by rewrite (replace_from_any fuel fuel' _ (before prev (k ++ (c' :: x') ++ []))) by lia.
    + destruct (suffix_keeps_word pre K (k ++ c :: x) d u2) as [pre2 E2]; [done|done|by apply not_solid|].
      injection Ex as <- <-. rewrite E2 in *. rewrite <-!(assoc_L (++)) in Hf, Hf'.
      rewrite <-(assoc_L (++) pre2 K ("="%char :: v ++ post)), <-(assoc_L (++) pre2 K ("="%char :: v' ++ post)).
      simpl in Hf, Hf'. by rewrite (IH fuel' (before prev (k ++ (c :: x) ++ [])) pre2) by lia.
  - destruct pre as [|c pre]; simpl in *; [by destruct (flag_found prev v Hv)|]. f_equal. apply IH; simpl in *; lia.
Qed.
End flag.

(** *** Spellings *)

Definition same_fold (c d : ascii) : Prop := lower_char c = lower_char d.

(** No class tells two cases of a letter apart, and nothing is asserted. *)
Fixpoint folds (r : re) : Prop :=
  match r with
  | Cls p | Star p => ∀ c d, same_fold c d → p c = p d
  | Cat a b | Alt a b => folds a ∧ folds b
  | Eps => True
  | Bol | WordB => False
  end.

Definition same_split (m m' : text * text) : Prop := Forall2 same_fold m.1 m'.1 ∧ Forall2 same_fold m.2 m'.2.

Lemma runs_of_folds p s s' : (∀ c d, same_fold c d → p c = p d) → Forall2 same_fold s s' → Forall2 same_split (runs_of p s) (runs_of p s').
Proof.
  intros Hp H. induction H as [|c d s s' Hcd Hs IH]; simpl; [by repeat constructor|]. rewrite (Hp c d Hcd).
  destruct (p d); [|by repeat constructor]. apply Forall2_app; [|by repeat constructor].
  apply Forall2_fmap. eapply Forall2_impl; [exact IH|]. intros m m' [H1 H2]. split; simpl; [by constructor|done].
Qed.

Lemma ends_folds r prev prev' s s' : folds r → Forall2 same_fold s s' → Forall2 same_split (ends r prev s) (ends r prev' s').
Proof.
  revert prev prev' s s'. induction r as [p|a IHa b IHb|a IHa b IHb| |p| |]; intros prev prev' s s'; simpl; intros Hr Hs; try done.
  - destruct Hs as [|c d s s' Hcd Hs]; [done|]. rewrite (Hr c d Hcd). destruct (p d); [|done]. by repeat constructor.
  - destruct Hr as [Ha Hb]. eapply Forall2_bind_in; [by apply IHa|]. intros m m' [H1 H2].
    apply Forall2_fmap. eapply Forall2_impl; [by apply IHb|]. intros n n' [H3 H4]. split; simpl; [by apply Forall2_app|done].
  - destruct Hr. apply Forall2_app; auto.
  - by repeat constructor.
  - by apply runs_of_folds.
Qed.

Lemma class_folds (p : ascii → bool) : forallb (λ n, Bool.eqb (p (ascii_of_nat n)) (p (lower_char (ascii_of_nat n)))) (seq 0 256) = true → ∀ c d, same_fold c d → p c = p d.
Proof.
  intros H c d Hcd. assert (∀ c, p c = p (lower_char c)) as Hl; [|by rewrite (Hl c), (Hl d), Hcd].
  intros x. rewrite forallb_forall in H. specialize (H (nat_of_ascii x)). rewrite ascii_nat_embedding in H.
  apply eqb_prop, H, in_seq. pose proof (nat_ascii_bounded x). lia.
Qed.

Lemma flag_rule_folds : folds (keep flag_rule).
Proof.
  repeat (split || done || (hnf; apply class_folds; by vm_compute)).
Qed.

(** A flag in any spelling. *)
Definition is_flag (flag : string) : Prop := ToLower flag ∈ flag_names.

Lemma flag_ends flag prev w : flag ∈ flag_names → let K := String.list_ascii_of_string ("--" +:+ flag) in
  ends (keep flag_rule) prev (K ++ "="%char :: w) = [(K ++ ["="%char], w)] ∧ forallb solid K = true.
Proof.
  unfold flag_names. intros Hf. repeat (apply elem_of_cons in Hf as [->|Hf]; [split; reflexivity|]). by apply elem_of_nil in Hf.
Qed.

Lemma letters_app (a b : string) : String.list_ascii_of_string (a +:+ b) = String.list_ascii_of_string a ++ String.list_ascii_of_string b.
Proof. induction a as [|c a IH]; [done|]. rewrite string_app_cons. cbn [String.list_ascii_of_string app]. by rewrite IH. Qed.

Lemma lower_char_idem c : lower_char (lower_char c) = lower_char c.
Proof. destruct c as [[] [] [] [] [] [] [] []]; by vm_compute. Qed.

Lemma chars_fold s : Forall2 same_fold (String.list_ascii_of_string s) (String.list_ascii_of_string (ToLower s)).
Proof. induction s as [|c s IH]; simpl; constructor; [|done]. unfold same_fold. by rewrite lower_char_idem. Qed.

Lemma solid_folds c d : same_fold c d → solid c = solid d.
Proof. revert c d. apply class_folds. by vm_compute. Qed.

Lemma forallb_folds p (s s' : text) : (∀ c d, same_fold c d → p c = p d) → Forall2 same_fold s s' → forallb p s = forallb p s'.
Proof. intros Hp. induction 1 as [|c d s s' Hcd Hs IH]; [done|]. simpl. by rewrite (Hp c d Hcd), IH. Qed.

Lemma same_fold_refl (s : text) : Forall2 same_fold s s.
Proof. induction s; by constructor. Qed.

Lemma spelled_ends flag prev w : is_flag flag → let K := String.list_ascii_of_string ("--" +:+ flag) in
  ends (keep flag_rule) prev (K ++ "="%char :: w) = [(K ++ ["="%char], w)] ∧ forallb solid K = true.
Proof.
  intros Hf K. destruct (flag_ends (ToLower flag) prev w Hf) as [He Hs].
  set (K0 := String.list_ascii_of_string ("--" +:+ ToLower flag)) in *.
  assert (Forall2 same_fold K K0) as HK.
  { unfold K, K0. rewrite !letters_app. apply Forall2_app; [by repeat constructor|apply chars_fold]. }
  split; [|by rewrite (forallb_folds solid K K0 solid_folds HK)].
  assert (Forall2 same_fold (K ++ "="%char :: w) (K0 ++ "="%char :: w)) as Hall.
  { apply Forall2_app; [done|]. constructor; [done|]. apply same_fold_refl. }
  pose proof (ends_folds _ prev prev _ _ flag_rule_folds Hall) as HE. rewrite He in HE.
  destruct (ends (keep flag_rule) prev (K ++ "="%char :: w)) as [|[x rest] tl] eqn:El; [by inversion HE|].
  apply Forall2_cons_1 in HE as [[Hx _] Htl]. apply Forall2_nil_inv_r in Htl as ->. f_equal. cbn [fst] in Hx.
  assert (K ++ "="%char :: w = x ++ rest) as Hsplit by (apply (ends_splits (keep flag_rule) prev _ (x, rest)); rewrite El; by left).
  rewrite cons_middle, (assoc_L (++)) in Hsplit. apply app_inj_1 in Hsplit as [<- <-]; [done|].
  apply Forall2_length in Hx. apply Forall2_length in HK. rewrite Hx, !length_app, HK. done.
Qed.

(** ** The theorem *)

(** A word of a command line, and what may follow one. *)
Definition arg (v : string) : Prop := forallb solid (String.list_ascii_of_string v) = true ∧ v ≠ "".
Definition after_arg (post : string) : Prop := from_option re_space true (head (String.list_ascii_of_string post)) = true.

(** C4. What a credential flag was given is not in the audit log.  Wherever
    [--password=], [--token=], [--client-secret=] or another of the filter's
    flags stands in a command line, in any spelling and after any text, the
    filtered line is the same whatever the flag's value is: it tells nothing of
    the value, not its length nor any part of it. *)
Theorem a_flags_value_is_not_seen pre flag v v' post :
  is_flag flag → arg v → arg v' → after_arg post →
  Arguments (pre +:+ "--" +:+ flag +:+ "=" +:+ v +:+ post) = Arguments (pre +:+ "--" +:+ flag +:+ "=" +:+ v' +:+ post).
Proof.
  intros Hf [Hv Hne] [Hv' Hne'] Hpost. unfold Arguments. cbn [foldl rules]. do 7 f_equal.
  assert (∀ x, String.list_ascii_of_string (pre +:+ "--" +:+ flag +:+ "=" +:+ x +:+ post) =
    String.list_ascii_of_string pre ++ String.list_ascii_of_string ("--" +:+ flag) ++ "="%char :: String.list_ascii_of_string x ++ String.list_ascii_of_string post) as Htext.
  { intros x. by rewrite !letters_app, <-!(assoc_L (++)). }
  rewrite !Htext. unfold ReplaceAll. apply flag_scan; try done; try lia.
  - split; [done|]. by destruct v.
  - split; [done|]. by destruct v'.
  - by apply (spelled_ends flag None []).
  - intros prev w. by apply spelled_ends.
Qed.

Module Sample.
Lemma a_flags_value_is_not_seen_witness :
  is_flag "Client-Secret" ∧ Arguments ("run -v " +:+ "--" +:+ "Client-Secret" +:+ "=" +:+ "k--token=7" +:+ " https://u:p@h") = Arguments ("run -v " +:+ "--" +:+ "Client-Secret" +:+ "=" +:+ "x" +:+ " https://u:p@h").
Proof.
  split; [by apply (bool_decide_unpack _); vm_compute|].
  apply a_flags_value_is_not_seen; [by apply (bool_decide_unpack _); vm_compute|by split; vm_compute|by split; vm_compute|by vm_compute].
Defined.

(** A literal's secret is everything after its first equals sign, but what is
    kept runs to the last one that a byte follows: a padded base64 value stays. *)
Lemma a_padded_literal_stays :
  Arguments "kubectl create secret generic x --from-literal=pw=c2VjcmV0PQ==" = "kubectl create secret generic x --from-literal=pw=c2VjcmV0PQ=[REDACTED]".
Proof. by vm_compute. Qed.

(** A password with an [@] in it ends, for the filter, at the first. *)
Lemma a_password_with_an_at_stays : Arguments "psql postgres://u:pa@ss@db/x" = "psql postgres://u:[REDACTED]@ss@db/x".
Proof. by vm_compute. Qed.

(** A flag given as another's value takes the mask that its own value needed. *)
Lemma a_flag_behind_a_flag_stays : Arguments "run --token --secret abc" = "run --token [REDACTED] abc".
Proof. by vm_compute. Qed.
End Sample.
