(* ===== verification/AuditStore.v ===== *)
(** The audit tables (internal/store/session_store.go, kernel_event_store.go,
    and the prune command of internal/cli/retention.go): sessions recorded and
    ended, kernel events attributed to them on the way in, and the retention
    pass that deletes what is past its horizon.

    A statement is a function of the tables and happens whole; ids are drawn
    upwards.  Columns that hold NULL for an empty text are the text. *)

From Stdlib Require Import Ascii String ZArith Lia.
From S2P Require Import Prelude GoStrings AuditSpool.
Open Scope Z_scope.
Local Open Scope record_scope.

(** ** Rows *)

Record KernelEvent := {
  SessionID : option Z; ke_CertSerial : string; ke_Hostname : string; TS : time_t; Kind : string; PID : Z; PPID : Z; ke_CgroupID : Z;
  Binary : string; Args : string; CWD : string; UID : Z; Filename : string; DestAddr : string; ExitCode : option Z;
}.
#[export] Instance KernelEvent_eq_dec : EqDecision KernelEvent.
Proof. solve_decision. Defined.

(** What a host reports of a session; its id is the database's. *)
Record AuditSession := {
  as_CertSerial : string; as_VaultUser : string; as_Hostname : string; LoginUser : string; as_SourceIP : string; LeaderPID : Z; CgroupID : Z;
  StartedAt : time_t; Summary : string;
}.

Record session_row := {
  s_id : Z; s_serial : string; s_vault_user : string; s_hostname : string; s_login : string; s_source_ip : string; s_leader : Z; s_cgroup : Z;
  s_started : time_t; s_ended : option time_t; s_summary : string;
}.
#[export] Instance session_row_rebuild : Rebuild session_row := λ r,
  {| s_id := s_id r; s_serial := s_serial r; s_vault_user := s_vault_user r; s_hostname := s_hostname r; s_login := s_login r; s_source_ip := s_source_ip r;
     s_leader := s_leader r; s_cgroup := s_cgroup r; s_started := s_started r; s_ended := s_ended r; s_summary := s_summary r |}.

Record event_row := { e_id : Z; e_session : option Z; e_event : KernelEvent }.
Record access_row := { a_id : Z; a_entry : AccessEntry }.

Record audit_db := { sessions : list session_row; events : list event_row; accesses : list access_row; next_id : Z }.
#[export] Instance audit_db_rebuild : Rebuild audit_db := λ d,
  {| sessions := sessions d; events := events d; accesses := accesses d; next_id := next_id d |}.

Definition empty_db : audit_db := {| sessions := []; events := []; accesses := []; next_id := 1 |}.

Definition coalesce (a b : string) : string := if String.eqb a "" then b else a.

(** ** Sessions: session_store.go *)

Definition same_session (host : string) (leader : Z) (started : time_t) (r : session_row) : bool :=
  String.eqb (s_hostname r) host && (s_leader r =? leader) && (s_started r =? started).

Section record.
(** The cast to Postgres's address type; [None] is its error. *)
Context (inet : string → option string).

(** [now] is the database's clock; an error leaves the tables as they are. *)
Definition RecordSession (now : time_t) (a : AuditSession) (d : audit_db) : result string Z * audit_db :=
  let started := if IsZero (StartedAt a) then now else StartedAt a in
  match (if String.eqb (as_SourceIP a) "" then Some "" else inet (as_SourceIP a)) with
  | None => (Err "invalid input syntax for type inet", d)
  | Some ip =>
      if String.eqb (as_CertSerial a) "" then (Err "null value in column cert_serial violates not-null constraint", d)
      else if String.eqb (as_Hostname a) "" then (Err "null value in column hostname violates not-null constraint", d)
      else
        let bump := d <| next_id := next_id d + 1 |> in
        let here := same_session (as_Hostname a) (LeaderPID a) started in
        match List.find here (sessions d) with
        | Some r =>
            (Ok (s_id r), bump <| sessions := (λ r, if here r then
               r <| s_serial := as_CertSerial a |> <| s_vault_user := coalesce (as_VaultUser a) (s_vault_user r) |>
                 <| s_login := coalesce (LoginUser a) (s_login r) |> <| s_source_ip := coalesce ip (s_source_ip r) |> <| s_cgroup := CgroupID a |>
               else r) <$> sessions d |>)
        | None =>
            (Ok (next_id d), bump <| sessions := sessions d ++
               [{| s_id := next_id d; s_serial := as_CertSerial a; s_vault_user := as_VaultUser a; s_hostname := as_Hostname a; s_login := LoginUser a;
                   s_source_ip := ip; s_leader := LeaderPID a; s_cgroup := CgroupID a; s_started := started; s_ended := None; s_summary := Summary a |}] |>)
        end
  end.
End record.

Definition EndSession (id : Z) (endedAt : time_t) (summary : string) (d : audit_db) : audit_db :=
  d <| sessions := (λ r, if s_id r =? id then r <| s_ended := Some (Z.max endedAt (s_started r)) |> <| s_summary := coalesce summary (s_summary r) |> else r) <$> sessions d |>.

(** Id and leader of each. *)
Definition UnendedSessions (host : string) (d : audit_db) : list (Z * Z) :=
  (λ r, (s_id r, s_leader r)) <$> filter (λ r, s_hostname r = host ∧ s_ended r = None) (sessions d).

(** ** Kernel events: kernel_event_store.go *)

Definition links (e : KernelEvent) (r : session_row) : bool :=
  String.eqb (s_hostname r) (ke_Hostname e) &&
  ((negb (ke_CgroupID e =? 0) && (s_cgroup r =? ke_CgroupID e)) || (negb (String.eqb (ke_CertSerial e) "") && String.eqb (s_serial r) (ke_CertSerial e))).

(** The row that began last, the first of several. *)
Definition later (best : option session_row) (r : session_row) : option session_row :=
  match best with Some b => if s_started b <? s_started r then Some r else best | None => Some r end.

(** The session of an event: the one it names, or the latest that links. *)
Definition attributed_to (rows : list session_row) (e : KernelEvent) : option Z :=
  match SessionID e with
  | Some s => Some s
  | None => s_id <$> foldl later None (filter (λ r, links e r = true) rows)
  end.

(** How a batch's transaction goes. *)
Inductive batch_end := Committed | NoTransaction | FailsAt (k : nat) | CommitFails (made : bool).

Definition lands (rows : list session_row) (requireSession : bool) (e : KernelEvent) : bool :=
  negb requireSession || bool_decide (is_Some (attributed_to rows e)).

Fixpoint insert_events (d : audit_db) (requireSession : bool) (evs : list KernelEvent) : audit_db :=
  match evs with
  | [] => d
  | e :: evs =>
      if lands (sessions d) requireSession e then
        insert_events (d <| events := events d ++ [{| e_id := next_id d; e_session := attributed_to (sessions d) e; e_event := e |}] |> <| next_id := next_id d + 1 |>)
          requireSession evs
      else insert_events d requireSession evs
  end.

(** The indices of the events that do not land. *)
Definition misses (rows : list session_row) (requireSession : bool) (evs : list KernelEvent) : list nat :=
  (λ p, p.1) <$> filter (λ p, lands rows requireSession p.2 = false) (imap pair evs).

Definition landed (rows : list session_row) (requireSession : bool) (evs : list KernelEvent) : list KernelEvent :=
  filter (λ e, lands rows requireSession e = true) evs.

(** Rows inserted, indices missed, the error, and the tables. *)
Definition insertKernelEvents (how : batch_end) (requireSession : bool) (evs : list KernelEvent) (d : audit_db) : nat * list nat * option string * audit_db :=
  if bool_decide (evs = []) then (0%nat, [], None, d)
  else match how with
  | Committed => (length (landed (sessions d) requireSession evs), misses (sessions d) requireSession evs, None, insert_events d requireSession evs)
  | NoTransaction => (0%nat, [], Some "begin", d)
  | FailsAt k => (length (landed (sessions d) requireSession (take k evs)), [], Some "insert", d)
  | CommitFails made => (0%nat, [], Some "commit", if made then insert_events d requireSession evs else d)
  end.

Definition InsertKernelEventsAttributed (how : batch_end) : list KernelEvent → audit_db → nat * list nat * option string * audit_db := insertKernelEvents how true.
Definition InsertKernelEvents (how : batch_end) (evs : list KernelEvent) (d : audit_db) : nat * option string * audit_db :=
  let '(n, _, e, d) := insertKernelEvents how false evs d in (n, e, d).

(** ** Retention *)

Record AuditCutoff := { KernelEventsBefore : time_t; SessionsBefore : option time_t; AccessLogsBefore : option time_t }.
Record AuditPruneResult := { pr_KernelEvents : nat; pr_Sessions : nat; pr_AccessLogs : nat }.
Definition nothing_pruned : AuditPruneResult := {| pr_KernelEvents := 0; pr_Sessions := 0; pr_AccessLogs := 0 |}.

Section batches.
Context {X : Type} (id : X → Z) (key : X → time_t) (eligible : X → bool).

(** The oldest [n] eligible rows. *)
Definition oldest (n : nat) (rows : list X) : list X := take n (sort (λ a b, key a <? key b) (filter (λ x, eligible x = true) rows)).
Definition doomed (n : nat) (rows : list X) : list Z := id <$> oldest n rows.

(** DELETE ... USING doomed, and the rows affected. *)
Definition delete_batch (n : nat) (rows : list X) : list X * nat :=
  let gone := doomed n rows in (filter (λ x, id x ∉ gone) rows, length (filter (λ x, id x ∈ gone) rows)).

(** How one loop of statements went: the rows left, how many went, the next
    statement's number, and whether it got to its end. *)
Record pass := { left_rows : list X; gone_rows : nat; next_stmt : nat; completed : bool }.

(** Batch after batch until one is not full.  [fails k]: the pass's k-th
    statement fails.  [None] when the fuel is out. *)
Fixpoint delete_batches (fuel : nat) (fails : nat → bool) (n : nat) (k : nat) (out : nat) (rows : list X) : option pass :=
  match fuel with
  | O => None
  | S fuel =>
      if fails k then Some {| left_rows := rows; gone_rows := out; next_stmt := S k; completed := false |}
      else
        let '(rows', m) := delete_batch n rows in
        if (m <? n)%nat then Some {| left_rows := rows'; gone_rows := out + m; next_stmt := S k; completed := true |}
        else delete_batches fuel fails n (S k) (out + m) rows'
  end.

Definition delete_expired (fails : nat → bool) (n k : nat) (rows : list X) : option pass :=
  delete_batches (S (length rows)) fails n k 0 rows.
End batches.
Arguments pass X : clear implicits.

Definition event_expired (cut : time_t) (r : event_row) : bool := After cut (TS (e_event r)).
Definition session_expired (evs : list event_row) (cut : time_t) (r : session_row) : bool :=
  After cut (s_started r) && bool_decide (is_Some (s_ended r)) && negb (existsb (λ e, bool_decide (e_session e = Some (s_id r))) evs).
Definition access_expired (cut : time_t) (r : access_row) : bool := After cut (SignedAt (a_entry r)).

Definition no_pass {X} (k : nat) (rows : list X) : pass X :=
  {| left_rows := rows; gone_rows := 0; next_stmt := k; completed := true |}.

Definition batch_of (batchSize : Z) : nat := Z.to_nat (if batchSize <=? 0 then 10000 else batchSize).

(** The three loops, each begun when the one before got to its end.  Deleting a
    session clears the references to it, of which there are none. *)
Definition prune_events (fails : nat → bool) (cutoff : AuditCutoff) (n : nat) (d : audit_db) : option (pass event_row) :=
  delete_expired e_id (λ r, TS (e_event r)) (event_expired (KernelEventsBefore cutoff)) fails n 0 (events d).

Definition prune_sessions (fails : nat → bool) (cutoff : AuditCutoff) (n : nat) (pe : pass event_row) (d : audit_db) : option (pass session_row) :=
  if completed pe then
    match SessionsBefore cutoff with
    | Some cut => delete_expired s_id s_started (session_expired (left_rows pe) cut) fails n (next_stmt pe) (sessions d)
    | None => Some (no_pass (next_stmt pe) (sessions d))
    end
  else Some (no_pass (next_stmt pe) (sessions d) ).

Definition prune_accesses (fails : nat → bool) (cutoff : AuditCutoff) (n : nat) (done : bool) (k : nat) (d : audit_db) : option (pass access_row) :=
  if done then
    match AccessLogsBefore cutoff with
    | Some cut => delete_expired a_id (λ r, SignedAt (a_entry r)) (access_expired cut) fails n k (accesses d)
    | None => Some (no_pass k (accesses d))
    end
  else Some (no_pass k (accesses d)).

Definition prune_refusal (cutoff : AuditCutoff) : option string :=
  if IsZero (KernelEventsBefore cutoff) then Some "kernel event cutoff is required"
  else if bool_decide (SessionsBefore cutoff = None) && bool_decide (is_Some (AccessLogsBefore cutoff)) then Some "access logs cannot expire while sessions are retained forever"
  else if match SessionsBefore cutoff, AccessLogsBefore cutoff with Some s, Some a => negb (After s a) | _, _ => false end
  then Some "access log cutoff must be older than session cutoff to preserve attribution"
  else None.

Definition PruneAudit (fails : nat → bool) (cutoff : AuditCutoff) (batchSize : Z) (d : audit_db) : option (AuditPruneResult * option string * audit_db) :=
  match prune_refusal cutoff with
  | Some e => Some (nothing_pruned, Some e, d)
  | None =>
      let n := batch_of batchSize in
      pe ← prune_events fails cutoff n d;
      ps ← prune_sessions fails cutoff n pe d;
      let done := completed pe && completed ps in
      pa ← prune_accesses fails cutoff n done (next_stmt ps) d;
      Some ({| pr_KernelEvents := gone_rows pe; pr_Sessions := gone_rows ps; pr_AccessLogs := gone_rows pa |},
            (if done && completed pa then None else Some "delete"),
            {| sessions := left_rows ps; events := left_rows pe; accesses := left_rows pa; next_id := next_id d |})
  end.

(** *** The retention counts, and the prune command *)

Definition CountKernelEventsBefore (t : time_t) (d : audit_db) : nat := length (filter (λ r, event_expired t r = true) (events d)).
Definition CountSessionsBefore (t : time_t) (d : audit_db) : nat := length (filter (λ r, session_expired (events d) t r = true) (sessions d)).
Definition CountAccessLogsBefore (t : time_t) (d : audit_db) : nat := length (filter (λ r, access_expired t r = true) (accesses d)).

Record pruneOptions := { po_days : Z; po_sessionDays : Z; po_accessDays : Z; po_batchSize : Z }.

Section command.
(** [now.AddDate(0, 0, -days)], in the process's own zone. *)
Context (days_before : time_t → Z → time_t).

Definition prune_cutoff (now : time_t) (o : pruneOptions) : AuditCutoff :=
  {| KernelEventsBefore := days_before now (po_days o);
     SessionsBefore := if 0 <? po_sessionDays o then Some (days_before now (po_sessionDays o)) else None;
     AccessLogsBefore := if 0 <? po_accessDays o then Some (days_before now (po_accessDays o)) else None |}.

Definition prune_usage (o : pruneOptions) : option string :=
  if po_days o <=? 0 then Some "kernel retention days must be > 0"
  else if po_sessionDays o <? 0 then Some "session retention days must be >= 0"
  else if po_accessDays o <? 0 then Some "access retention days must be >= 0"
  else if (0 <? po_accessDays o) && (po_sessionDays o =? 0) then Some "access logs cannot expire while sessions are retained forever"
  else if (0 <? po_accessDays o) && (0 <? po_sessionDays o) && (po_accessDays o <=? po_sessionDays o) then Some "access retention days must exceed session retention days"
  else if po_batchSize o <=? 0 then Some "batch size must be > 0"
  else None.

(** The error, what went, and the tables; [o] is the flags over the
    configuration. *)
Definition runPrune (fails : nat → bool) (now : time_t) (o : pruneOptions) (d : audit_db) : option (AuditPruneResult * option string * audit_db) :=
  match prune_usage o with
  | Some e => Some (nothing_pruned, Some e, d)
  | None => PruneAudit fails (prune_cutoff now o) (po_batchSize o) d
  end.
End command.

(** ** What a pass leaves *)

(** [rows'] is [rows] without some of those that may go, in their order. *)
Definition keeps {X} (may : X → bool) (rows rows' : list X) : Prop :=
  rows' `sublist_of` rows ∧ ∀ x, x ∈ rows → x ∈ rows' ∨ may x = true.

Lemma keeps_refl {X} (may : X → bool) rows : keeps may rows rows.
Proof. split; [done|]. by left. Qed.

Lemma keeps_trans {X} (may : X → bool) a b c : keeps may a b → keeps may b c → keeps may a c.
Proof.
  intros [Hab Ha] [Hbc Hb]. split; [by transitivity b|]. intros x [Hx|Hx]%Ha; [|by right]. by apply Hb.
Qed.

(** Nothing that may go is left: the rows are those that must stay. *)
Lemma keeps_all {X} (may : X → bool) rows rows' :
  NoDup rows → keeps may rows rows' → Forall (λ x, may x = false) rows' → rows' = filter (λ x, may x = false) rows.
Proof.
  intros Hnd [Hs Hk] Hno. revert Hnd Hk Hno. induction Hs as [|x a b Hs IH|x a b Hs IH]; intros Hnd Hk Hno; [done| |].
  - apply NoDup_cons in Hnd as [Hx Hnd]. apply Forall_cons in Hno as [Hmx Hno]. rewrite list.filter_cons, decide_True by done. f_equal.
    apply IH; [done| |done]. intros y Hy. destruct (Hk y) as [[->|]%elem_of_cons|]; [by right|done|by left|by right].
  - apply NoDup_cons in Hnd as [Hx Hnd]. rewrite list.filter_cons.
    destruct (Hk x) as [Hin|Hm]; [by left| |].
    + destruct Hx. by eapply list.elem_of_sublist.
    + rewrite decide_False by congruence. apply IH; [done| |done]. intros y Hy. apply Hk. by right.
Qed.

Lemma fmap_sublist {X Y} (f : X → Y) (a b : list X) : a `sublist_of` b → f <$> a `sublist_of` f <$> b.
Proof. induction 1; simpl; by constructor. Qed.

Section passes.
Context {X : Type} (id : X → Z) (key : X → time_t) (eligible : X → bool).
Implicit Types rows : list X.

Definition keyed rows : Prop := NoDup (id <$> rows).

Lemma keyed_sublist rows rows' : keyed rows → rows' `sublist_of` rows → keyed rows'.
Proof. intros Hk Hs. eapply sublist_NoDup; [exact Hk|]. by apply fmap_sublist. Qed.

Lemma keyed_NoDup rows : keyed rows → NoDup rows.
Proof. apply NoDup_fmap_1. Qed.

Lemma keyed_inj rows x y : keyed rows → x ∈ rows → y ∈ rows → id x = id y → x = y.
Proof.
  intros Hk Hx Hy E. apply list_elem_of_lookup in Hx as [i Hi]. apply list_elem_of_lookup in Hy as [j Hj].
  assert (i = j) as ->; [|congruence]. eapply NoDup_lookup; [exact Hk| |]; rewrite list_lookup_fmap; [by rewrite Hi|rewrite Hj; simpl; congruence].
Qed.

Lemma oldest_elem n rows x : x ∈ oldest key eligible n rows → eligible x = true ∧ x ∈ rows.
Proof. intros Hx. apply subseteq_take, sort_elem_of in Hx. by apply list_elem_of_filter in Hx. Qed.

(** An eligible row is among the oldest, or there are [n] of those. *)
Lemma oldest_full n rows x : x ∈ rows → eligible x = true → x ∈ oldest key eligible n rows ∨ length (oldest key eligible n rows) = n.
Proof.
  intros Hx He. unfold oldest. set (S := sort _ _). assert (x ∈ S) as HS by (unfold S; rewrite sort_elem_of; by apply list_elem_of_filter).
  rewrite length_take. destruct (decide (n ≤ length S)%nat); [right; lia|left]. by rewrite take_ge by lia.
Qed.

Lemma oldest_NoDup n rows : NoDup rows → NoDup (oldest key eligible n rows).
Proof. intros Hnd. eapply sublist_NoDup; [|apply sublist_take]. by apply sort_NoDup, NoDup_filter. Qed.

Lemma doomed_elem n rows x : keyed rows → x ∈ rows → id x ∈ doomed id key eligible n rows → eligible x = true.
Proof.
  unfold doomed. intros Hk Hx (y & E & [He Hy]%oldest_elem)%list_elem_of_fmap. by rewrite (keyed_inj rows x y).
Qed.

(** One statement: it takes the oldest [n], all of which may go, and a short
    count says none is left. *)
Lemma delete_batch_keeps n rows rows' m :
  keyed rows → delete_batch id key eligible n rows = (rows', m) →
  keeps eligible rows rows' ∧ (length rows' + m = length rows)%nat ∧ ((m < n)%nat → Forall (λ x, eligible x = false) rows').
Proof.
  intros Hk. unfold delete_batch. intros [= <- <-]. split_and!.
  - split; [apply sublist_filter|]. intros x Hx.
    destruct (decide (id x ∈ doomed id key eligible n rows)) as [Hd|Hd]; [right; by eapply doomed_elem|left].
    by apply list_elem_of_filter.
  - pose proof (Permutation_length (filter_app_complement (λ x, id x ∈ doomed id key eligible n rows) rows)) as E.
    rewrite length_app in E. by rewrite Nat.add_comm.
  - intros Hm. apply Forall_forall. intros x [Hx Hin]%list_elem_of_filter. destruct (eligible x) eqn:He; [exfalso|done].
    destruct (oldest_full n rows x Hin He) as [Ho|Hn]; [by apply Hx, list_elem_of_fmap_2|].
    cut (length (oldest key eligible n rows) ≤ length (filter (λ x, id x ∈ doomed id key eligible n rows) rows))%nat; [lia|].
    apply submseteq_length, NoDup_submseteq; [by apply oldest_NoDup, keyed_NoDup|].
    intros y Hy. apply list_elem_of_filter. split; [by apply list_elem_of_fmap_2|]. by apply oldest_elem in Hy as [_ ?].
Qed.

(** The loop ends, and got through when no statement failed. *)
Lemma delete_batches_keeps fails n fuel k out rows :
  keyed rows → (0 < n)%nat → (length rows < fuel)%nat → ∃ p, delete_batches id key eligible fuel fails n k out rows = Some p ∧
    keeps eligible rows (left_rows p) ∧ (length (left_rows p) + gone_rows p = length rows + out)%nat ∧
    (completed p = true → Forall (λ x, eligible x = false) (left_rows p)) ∧ ((∀ i, fails i = false) → completed p = true).
Proof.
  revert k out rows. induction fuel as [|fuel IH]; intros k out rows Hk Hn Hf; [lia|]. cbn [delete_batches].
  destruct (fails k) eqn:Hfail.
  { eexists. split; [done|]. cbn. split_and!; [apply keeps_refl|lia|done|]. intros Hno. by rewrite Hno in Hfail. }
  destruct (delete_batch id key eligible n rows) as [rows' m] eqn:Hd.
  apply delete_batch_keeps in Hd as (Hks & Hlen & Hlast); [|done].
  destruct (m <? n)%nat eqn:Hm.
  { apply Nat.ltb_lt in Hm. eexists. split; [done|]. cbn. split_and!; [done|lia|by intros _; apply Hlast|done]. }
  apply Nat.ltb_ge in Hm.
  destruct (IH (S k) (out + m)%nat rows') as (p & -> & Hkp & Hlp & Hdone & Hcomp); [by eapply keyed_sublist; [|apply Hks]|done|lia|].
  exists p. split_and!; [done|by eapply keeps_trans|lia|done|done].
Qed.

Lemma delete_expired_keeps fails n k rows :
  keyed rows → (0 < n)%nat → ∃ p, delete_expired id key eligible fails n k rows = Some p ∧
    keeps eligible rows (left_rows p) ∧ (length (left_rows p) + gone_rows p = length rows)%nat ∧
    (completed p = true → left_rows p = filter (λ x, eligible x = false) rows) ∧ ((∀ i, fails i = false) → completed p = true).
Proof.
  intros Hk Hn. destruct (delete_batches_keeps fails n (S (length rows)) k 0 rows Hk Hn) as (p & E & Hks & Hlen & Hdone & Hc); [lia|].
  exists p. split_and!; [done|done|lia| |done]. intros Hp. eapply keeps_all; [by apply keyed_NoDup|done|by apply Hdone].
Qed.
End passes.

(** ** Retention keeps what is needed *)

Definition well_keyed (d : audit_db) : Prop := keyed e_id (events d) ∧ keyed s_id (sessions d) ∧ keyed a_id (accesses d).

(** What a table's horizon lets go; no horizon, nothing. *)
Definition past {X} (f : time_t → X → bool) (cut : option time_t) (x : X) : bool := match cut with Some c => f c x | None => false end.

Lemma batch_of_pos b : (0 < batch_of b)%nat.
Proof. unfold batch_of. case_if; bool_simpl; lia. Qed.

(** What one of the three loops promises. *)
Definition pruned {X} (may : X → bool) (rows : list X) (p : pass X) : Prop :=
  keeps may rows (left_rows p) ∧ (length (left_rows p) + gone_rows p = length rows)%nat.

Definition pruned_whole {X} (may : X → bool) (rows : list X) (p : pass X) : Prop :=
  left_rows p = filter (λ x, may x = false) rows.

Lemma no_pass_pruned {X} (may : X → bool) k rows : pruned may rows (no_pass k rows).
Proof. split; [apply keeps_refl|simpl; lia]. Qed.

Lemma no_pass_whole {X} (f : time_t → X → bool) k rows : pruned_whole (past f None) rows (no_pass k rows).
Proof.
  unfold pruned_whole. simpl. symmetry. induction rows as [|x rows IH]; [done|]. by rewrite list.filter_cons, decide_True, IH.
Qed.

Section prune.
Context (fails : nat → bool) (cutoff : AuditCutoff) (n : nat) (d : audit_db) (Hn : (0 < n)%nat).

Definition may_event : event_row → bool := event_expired (KernelEventsBefore cutoff).
Definition may_session (evs : list event_row) : session_row → bool := past (session_expired evs) (SessionsBefore cutoff).
Definition may_access : access_row → bool := past access_expired (AccessLogsBefore cutoff).

Lemma prune_events_spec : keyed e_id (events d) → ∃ p, prune_events fails cutoff n d = Some p ∧ pruned may_event (events d) p ∧
  (completed p = true → pruned_whole may_event (events d) p) ∧ ((∀ i, fails i = false) → completed p = true).
Proof.
  intros Hk. destruct (delete_expired_keeps e_id (λ r, TS (e_event r)) may_event fails n 0 (events d)) as (p & ? & ? & ? & ? & ?); [done|done|].
  by exists p.
Qed.

Lemma prune_sessions_spec pe : keyed s_id (sessions d) → ∃ p, prune_sessions fails cutoff n pe d = Some p ∧
  pruned (may_session (left_rows pe)) (sessions d) p ∧
  (completed pe = true → completed p = true → pruned_whole (may_session (left_rows pe)) (sessions d) p) ∧
  ((∀ i, fails i = false) → completed p = true).
Proof.
  intros Hk. unfold prune_sessions, may_session. destruct (completed pe); [destruct (SessionsBefore cutoff) as [cut|]|].
  - destruct (delete_expired_keeps s_id s_started (session_expired (left_rows pe) cut) fails n (next_stmt pe) (sessions d)) as (p & ? & ? & ? & ? & ?); [done|done|].
    exists p. split_and!; [done|by split|done|done].
  - eexists. split; [done|]. split_and!; [apply no_pass_pruned|intros; apply no_pass_whole|done].
  - eexists. split; [done|]. split_and!; [apply no_pass_pruned|done|done].
Qed.

Lemma prune_accesses_spec done k : keyed a_id (accesses d) → ∃ p, prune_accesses fails cutoff n done k d = Some p ∧
  pruned may_access (accesses d) p ∧ (done = true → completed p = true → pruned_whole may_access (accesses d) p) ∧
  ((∀ i, fails i = false) → completed p = true).
Proof.
  intros Hk. unfold prune_accesses, may_access. destruct done; [destruct (AccessLogsBefore cutoff) as [cut|]|].
  - destruct (delete_expired_keeps a_id (λ r, SignedAt (a_entry r)) (access_expired cut) fails n k (accesses d)) as (p & ? & ? & ? & ? & ?); [done|done|].
    exists p. split_and!; [done|by split|done|done].
  - eexists. split; [done|]. split_and!; [apply no_pass_pruned|intros; apply no_pass_whole|done].
  - eexists. split; [done|]. split_and!; [apply no_pass_pruned|done|done].
Qed.
End prune.

(** The pass in full, for horizons it accepts. *)
Lemma PruneAudit_spec fails cutoff batch d :
  well_keyed d → prune_refusal cutoff = None → ∃ out err d', PruneAudit fails cutoff batch d = Some (out, err, d') ∧
    keeps (may_event cutoff) (events d) (events d') ∧ keeps (may_session cutoff (events d')) (sessions d) (sessions d') ∧ keeps (may_access cutoff) (accesses d) (accesses d') ∧
    (length (events d') + pr_KernelEvents out = length (events d) ∧ length (sessions d') + pr_Sessions out = length (sessions d) ∧ length (accesses d') + pr_AccessLogs out = length (accesses d))%nat ∧
    (err = None → events d' = filter (λ x, may_event cutoff x = false) (events d) ∧ sessions d' = filter (λ x, may_session cutoff (events d') x = false) (sessions d) ∧
                  accesses d' = filter (λ x, may_access cutoff x = false) (accesses d)) ∧
    ((∀ i, fails i = false) → err = None).
Proof.
  intros (Hke & Hks & Hka) Hr. unfold PruneAudit. rewrite Hr. pose proof (batch_of_pos batch) as Hn.
  destruct (prune_events_spec fails cutoff (batch_of batch) d Hn Hke) as (pe & -> & [Pe Le] & We & Ce). simpl.
  destruct (prune_sessions_spec fails cutoff (batch_of batch) d Hn pe Hks) as (ps & -> & [Ps Ls] & Ws & Cs). simpl.
  destruct (prune_accesses_spec fails cutoff (batch_of batch) d Hn (completed pe && completed ps) (next_stmt ps) Hka) as (pa & -> & [Pa La] & Wa & Ca). simpl.
  eexists _, _, _. split; [done|]. simpl. split_and!; try done.
  - destruct (completed pe) eqn:Ece, (completed ps) eqn:Ecs, (completed pa) eqn:Eca; simpl; try done.
    intros _. split_and!; [by apply We|by apply Ws|by apply Wa].
  - intros Hno. by rewrite (Ce Hno), (Cs Hno), (Ca Hno).
Qed.

(** A session that may go is referred to by no event that stays. *)
Lemma session_expired_unreferenced evs cut e s : session_expired evs cut s = true → e ∈ evs → e_session e ≠ Some (s_id s).
Proof.
  unfold session_expired. intros Hs He E. bool_simpl.
  match goal with H : existsb _ _ = false |- _ => apply not_true_iff_false in H; apply H end.
  apply existsb_exists. exists e. split; [by apply list_elem_of_In|]. by apply bool_decide_eq_true.
Qed.

Lemma no_such_left {X} (f : X → bool) (rows : list X) : length (filter (λ x, f x = true) (filter (λ x, f x = false) rows)) = 0%nat.
Proof. induction rows as [|x rows IH]; [done|]. rewrite list.filter_cons. case_decide; [rewrite list.filter_cons, decide_False by congruence|]; apply IH. Qed.

(** C3. A retention pass takes only what is past its horizon and nothing else
    needs.  Whatever statement fails, the pass ends; every event and access
    row within its horizon stays, every session still open or begun within
    its own horizon stays, and so does every session an event that stays
    belongs to.  The counts it reports are what went, also when it stops half
    way.  Access rows outlive the sessions' horizon, so no session begun within
    it loses the person signed for since.  A pass that reports success leaves
    nothing that may go, and with no failing statement an accepted pass
    succeeds. *)
Theorem a_prune_keeps_what_is_needed fails cutoff batch d :
  well_keyed d → ∃ out err d', PruneAudit fails cutoff batch d = Some (out, err, d') ∧
    (events d' `sublist_of` events d ∧ sessions d' `sublist_of` sessions d ∧ accesses d' `sublist_of` accesses d) ∧
    (∀ e, e ∈ events d → KernelEventsBefore cutoff ≤ TS (e_event e) → e ∈ events d') ∧
    (∀ s, s ∈ sessions d → s_ended s = None ∨ from_option (λ c, c ≤ s_started s) True (SessionsBefore cutoff) → s ∈ sessions d') ∧
    (∀ e s, e ∈ events d' → s ∈ sessions d → e_session e = Some (s_id s) → s ∈ sessions d') ∧
    (∀ a, a ∈ accesses d → from_option (λ c, c ≤ SignedAt (a_entry a)) True (SessionsBefore cutoff) → a ∈ accesses d') ∧
    (length (events d') + pr_KernelEvents out = length (events d) ∧ length (sessions d') + pr_Sessions out = length (sessions d) ∧ length (accesses d') + pr_AccessLogs out = length (accesses d))%nat ∧
    (err = None → (CountKernelEventsBefore (KernelEventsBefore cutoff) d' = 0 ∧ from_option (λ c, CountSessionsBefore c d') 0 (SessionsBefore cutoff) = 0 ∧
                   from_option (λ c, CountAccessLogsBefore c d') 0 (AccessLogsBefore cutoff) = 0)%nat) ∧
    (prune_refusal cutoff = None → (∀ i, fails i = false) → err = None).
Proof.
  intros Hwk. destruct (prune_refusal cutoff) as [e|] eqn:Hr.
  { exists nothing_pruned, (Some e), d. unfold PruneAudit. rewrite Hr. simpl. split_and!; [done|done|done|done|by auto..|lia|lia|lia|done|done]. }
  destruct (PruneAudit_spec fails cutoff batch d Hwk Hr) as (out & err & d' & E & [Se Ke] & [Ss Ks] & [Sa Ka] & Hlen & Hdone & Hok).
  exists out, err, d'. split; [done|]. split; [done|]. split_and!; try apply Hlen; try done.
  - intros e He Hc. destruct (Ke e He) as [|Hm]; [done|]. unfold may_event, event_expired, After in Hm. bool_simpl. lia.
  - intros s Hs Hc. destruct (Ks s Hs) as [|Hm]; [done|]. unfold may_session, past, session_expired, After in Hm.
    destruct (SessionsBefore cutoff) as [c|]; [|done]. bool_simpl. destruct Hc as [Hc|Hc]; [|simpl in Hc; lia].
    rewrite Hc in *. by match goal with H : is_Some None |- _ => destruct H end.
  - intros e s He Hs Hes. destruct (Ks s Hs) as [|Hm]; [done|]. unfold may_session, past in Hm.
    destruct (SessionsBefore cutoff) as [c|]; [|done]. by edestruct session_expired_unreferenced.
  - intros a Ha Hc. destruct (Ka a Ha) as [|Hm]; [done|]. unfold may_access, past, access_expired, After in Hm.
    unfold prune_refusal in Hr. destruct (AccessLogsBefore cutoff) as [ca|]; [|done].
    destruct (SessionsBefore cutoff) as [c|]; [|by destruct (IsZero _)]. simpl in *. unfold After in Hr.
    destruct (IsZero _); [done|]. destruct (ca <? c) eqn:Hlt; [|done]. bool_simpl. lia.
  - intros Herr. destruct (Hdone Herr) as (He & Hs & Ha). split_and!.
    + unfold CountKernelEventsBefore. rewrite He. apply no_such_left.
    + destruct (SessionsBefore cutoff) as [c|] eqn:Ec; [|done]. simpl. unfold CountSessionsBefore. rewrite Hs. unfold may_session. rewrite Ec. apply no_such_left.
    + destruct (AccessLogsBefore cutoff) as [c|] eqn:Ec; [|done]. simpl. unfold CountAccessLogsBefore. rewrite Ha. unfold may_access. rewrite Ec. apply no_such_left.
Qed.

(** The command hands the store horizons it accepts, when more days back is
    earlier. *)
Lemma prune_usage_accepted days_before now o :
  (∀ a b, a < b → days_before now b < days_before now a) → days_before now (po_days o) ≠ 0 →
  prune_usage o = None → prune_refusal (prune_cutoff days_before now o) = None.
Proof.
  intros Hdays Hnz. unfold prune_usage, prune_refusal, prune_cutoff, IsZero, After. simpl.
  destruct (po_days o <=? 0) eqn:E1; [done|]. destruct (po_sessionDays o <? 0) eqn:E2; [done|]. destruct (po_accessDays o <? 0) eqn:E3; [done|].
  rewrite (proj2 (Z.eqb_neq _ _) Hnz).
  destruct (0 <? po_accessDays o) eqn:E4; destruct (0 <? po_sessionDays o) eqn:E5; simpl.
  - replace (po_sessionDays o =? 0) with false by (symmetry; bool_simpl; lia). simpl.
    destruct (po_accessDays o <=? po_sessionDays o) eqn:E6; [done|]. intros _.
    rewrite (proj2 (Z.ltb_lt _ _)); [done|]. apply Hdays. bool_simpl. lia.
  - replace (po_sessionDays o =? 0) with true by (symmetry; bool_simpl; lia). done.
  - done.
  - done.
Qed.

Module Sample.
Definition login (id : Z) (leader : Z) (serial : string) (started : time_t) (ended : option time_t) : session_row :=
  {| s_id := id; s_serial := serial; s_vault_user := ""; s_hostname := "gpu01"; s_login := "root"; s_source_ip := ""; s_leader := leader; s_cgroup := 7;
     s_started := started; s_ended := ended; s_summary := "" |}.
Definition ran (id : Z) (s : option Z) (t : time_t) (args : string) : event_row :=
  {| e_id := id; e_session := s; e_event := {| SessionID := None; ke_CertSerial := ""; ke_Hostname := "gpu01"; TS := t; Kind := "exec"; PID := 10; PPID := 1; ke_CgroupID := 7;
     Binary := "/usr/bin/vi"; Args := args; CWD := "/"; UID := 0; Filename := ""; DestAddr := ""; ExitCode := None |} |}.
Definition signed (id : Z) (serial : string) (t : time_t) : access_row :=
  {| a_id := id; a_entry := {| VaultUser := "kim"; Hostname := "gpu01"; CertSerial := serial; SignedAt := t; OK := true;
     SourceIP := ""; SourceAddr := ""; ClientHost := ""; ClientUser := ""; TargetAddr := ""; JumpVia := ""; Error := "" |} |}.

Definition d0 : audit_db :=
  {| sessions := [login 1 100 "s1" (10 * day) (Some (11 * day)); login 2 101 "s2" (40 * day) None; login 3 102 "s3" (20 * day) (Some (21 * day))];
     events := [ran 1 (Some 1) (10 * day) "a"; ran 2 (Some 1) (10 * day + 1) "b"; ran 3 (Some 3) (90 * day) "c"];
     accesses := [signed 1 "s1" (10 * day); signed 2 "s2" (40 * day); signed 3 "s3" (20 * day)]; next_id := 4 |}.

Lemma d0_keyed : well_keyed d0.
Proof. by split_and!; apply (bool_decide_unpack _); vm_compute. Qed.

Definition horizons : AuditCutoff := {| KernelEventsBefore := 60 * day; SessionsBefore := Some (30 * day); AccessLogsBefore := Some (15 * day) |}.

Example pass_in_batches_of_one : (λ r, (r.1, e_id <$> events r.2, s_id <$> sessions r.2, a_id <$> accesses r.2)) <$> PruneAudit (λ _, false) horizons 1 d0 =
  Some (({| pr_KernelEvents := 2; pr_Sessions := 1; pr_AccessLogs := 1 |}, None), [3], [2; 3], [2; 3]).
Proof. by vm_compute. Qed.

(** The third statement fails: what went stays gone, and is counted. *)
Example pass_stops : (λ r, (r.1, e_id <$> events r.2, s_id <$> sessions r.2)) <$> PruneAudit (λ k, (k =? 1)%nat) horizons 1 d0 =
  Some (({| pr_KernelEvents := 1; pr_Sessions := 0; pr_AccessLogs := 0 |}, Some "delete"), [2; 3], [1; 2; 3]).
Proof. by vm_compute. Qed.

Lemma a_prune_keeps_what_is_needed_witness : well_keyed d0 ∧ ∃ out d', PruneAudit (λ _, false) horizons 1 d0 = Some (out, None, d') ∧
  ∀ e s, e ∈ events d' → s ∈ sessions d0 → e_session e = Some (s_id s) → s ∈ sessions d'.
Proof.
  split; [apply d0_keyed|].
  destruct (a_prune_keeps_what_is_needed (λ _, false) horizons 1 d0 d0_keyed) as (out & err & d' & E & _ & _ & _ & Hrefs & _ & _ & _ & Hok).
  exists out, d'. split; [|done]. rewrite E, Hok; [done|reflexivity|done].
Defined.

(** The horizons are checked against each other so that a session keeps the
    person it belongs to; the events' horizon is not among them.  A session
    that long-kept events hold on to, and one that never ended, stay without
    the access row that names the person. *)
Definition long_events : AuditCutoff := {| KernelEventsBefore := 1 * day; SessionsBefore := Some (60 * day); AccessLogsBefore := Some (50 * day) |}.

Lemma a_kept_session_loses_its_person : prune_refusal long_events = None ∧
  (λ r, (s_id <$> sessions r.2, a_id <$> accesses r.2)) <$> PruneAudit (λ _, false) long_events 0 d0 = Some ([1; 2; 3], []).
Proof. by vm_compute. Qed.
End Sample.
