(* ===== verification/KernelCollect.v ===== *)
(** The kernel event collector (internal/cli/collect.go and collect_hold.go):
    one process per host that reads Tetragon's events line by line, writes them
    in batches, and holds those that belong to no session yet for a while.

    The collector is run against the audit tables of [AuditStore]; what the
    outside decides at a step (the clock's readings, how the batch's transaction
    goes, what other processes did to the sessions) is an argument of it.  The
    hold's two slices of one length are a list of pairs. *)

From Stdlib Require Import Ascii String ZArith Lia.
From S2P Require Import Prelude GoStrings AuditRedact AuditStore.

Local Open Scope Z_scope.
Local Open Scope record_scope.

(** ** Tetragon's events *)

Record tetraProcess := { tp_PID : Z; tp_UID : Z; tp_CWD : string; tp_Binary : string; tp_Arguments : string; tp_CgroupID : string }.
Record tetraExec := { te_Process : tetraProcess; te_Parent : tetraProcess }.
Record tetraExit := { tx_Process : tetraProcess; tx_Status : Z }.
Record tetraEvent := { NodeName : string; te_Time : time_t; ProcessExec : option tetraExec; ProcessExit : option tetraExit }.

Definition cgroup (p : tetraProcess) : Z := (ParseInt10 (tp_CgroupID p)).1.

Definition no_kernel_event : KernelEvent :=
  {| SessionID := None; ke_CertSerial := ""; ke_Hostname := ""; TS := 0; Kind := ""; PID := 0; PPID := 0; ke_CgroupID := 0; Binary := ""; Args := ""; CWD := ""; UID := 0;
     Filename := ""; DestAddr := ""; ExitCode := None |}.

(** The event, and whether it is one to keep. *)
Definition mapTetra (now : time_t) (te : tetraEvent) (hostOverride serial : string) : KernelEvent * bool :=
  let host := if String.eqb hostOverride "" then NodeName te else hostOverride in
  let ts := if IsZero (te_Time te) then now else te_Time te in
  match ProcessExec te, ProcessExit te with
  | Some x, _ =>
      let p := te_Process x in
      ({| SessionID := None; ke_CertSerial := serial; ke_Hostname := host; TS := ts; Kind := "exec"; PID := tp_PID p; PPID := tp_PID (te_Parent x); ke_CgroupID := cgroup p;
          Binary := tp_Binary p; Args := Arguments (tp_Arguments p); CWD := tp_CWD p; UID := tp_UID p; Filename := ""; DestAddr := ""; ExitCode := None |},
       negb (String.eqb host "") && negb (String.eqb (tp_Binary p) ""))
  | None, Some x =>
      let p := tx_Process x in
      ({| SessionID := None; ke_CertSerial := serial; ke_Hostname := host; TS := ts; Kind := "exit"; PID := tp_PID p; PPID := 0; ke_CgroupID := cgroup p;
          Binary := tp_Binary p; Args := ""; CWD := ""; UID := tp_UID p; Filename := ""; DestAddr := ""; ExitCode := Some (tx_Status x) |},
       negb (String.eqb host ""))
  | None, None => (no_kernel_event, false)
  end.

(** ** The hold: collect_hold.go *)

Record attributionHold := {
  grace : duration; maxHeld : Z;
  held : list (KernelEvent * time_t);  (* events and firstAt *)
  offered : list time_t; dropped : nat;
}.
#[export] Instance attributionHold_rebuild : Rebuild attributionHold := λ h,
  {| grace := grace h; maxHeld := maxHeld h; held := held h; offered := offered h; dropped := dropped h |}.

Definition newAttributionHold (g : duration) (batch : Z) : attributionHold :=
  {| grace := g; maxHeld := 20 * (if batch <=? 0 then 200 else batch); held := []; offered := []; dropped := 0 |}.

(** Past its grace at [t]. *)
Definition overdue (h : attributionHold) (t : time_t) (p : KernelEvent * time_t) : bool :=
  if grace h <=? 0 then true else After (Add t (- grace h)) p.2.

Definition expire (t : time_t) (h : attributionHold) : attributionHold :=
  if grace h <=? 0 then h <| dropped := (dropped h + length (held h))%nat |> <| held := [] |>
  else h <| dropped := (dropped h + length (filter (λ p, overdue h t p = true) (held h)))%nat |> <| held := filter (λ p, overdue h t p = false) (held h) |>.

(** The clock is read for the grace, and again for the new events. *)
Definition merge (t1 t2 : time_t) (fresh : list KernelEvent) (h : attributionHold) : list KernelEvent * attributionHold :=
  let h := expire t1 h in
  ((fst <$> held h) ++ fresh, h <| offered := (snd <$> held h) ++ ((λ _, t2) <$> fresh) |> <| held := [] |>).

Definition trim (h : attributionHold) : attributionHold :=
  let over := Z.of_nat (length (held h)) - maxHeld h in
  if 0 <? over then h <| dropped := (dropped h + Z.to_nat over)%nat |> <| held := drop (Z.to_nat over) (held h) |> else h.

(** [now] is the stamp of an event with no earlier one. *)
Definition hold_one (now : time_t) (evs : list KernelEvent) (h : attributionHold) (i : nat) : attributionHold :=
  match evs !! i with
  | Some e => h <| held := held h ++ [(e, default now (offered h !! i))] |>
  | None => h
  end.

Definition hold (now : time_t) (evs : list KernelEvent) (missed : list nat) (h : attributionHold) : attributionHold :=
  trim (foldl (hold_one now evs) h missed).

Definition holdAll (now : time_t) (evs : list KernelEvent) (h : attributionHold) : attributionHold := hold now evs (seq 0 (length evs)) h.

Definition drain (h : attributionHold) : list KernelEvent * attributionHold := (fst <$> held h, h <| held := [] |>).

(** ** The collector: collect.go *)

Record collectOptions := { co_host : string; co_serial : string; co_batch : Z; co_requireSession : bool; co_grace : duration }.

Record collector := { buf : list KernelEvent; holding : attributionHold; total : nat; skipped : nat }.
#[export] Instance collector_rebuild : Rebuild collector := λ c, {| buf := buf c; holding := holding c; total := total c; skipped := skipped c |}.

Definition newCollector (o : collectOptions) : collector :=
  {| buf := []; holding := newAttributionHold (co_grace o) (co_batch o); total := 0; skipped := 0 |}.

(** What the outside answers to one write: the clock, read three times, and the
    transaction. *)
Record answer := { t_expire : time_t; t_merge : time_t; t_hold : time_t; outcome : batch_end }.

Definition write (o : collectOptions) (how : batch_end) (evs : list KernelEvent) (d : audit_db) : nat * list nat * option string * audit_db :=
  if co_requireSession o then InsertKernelEventsAttributed how evs d
  else let '(n, e, d) := InsertKernelEvents how evs d in (n, [], e, d).

Definition flush (o : collectOptions) (a : answer) (c : collector) (d : audit_db) : option string * collector * audit_db :=
  let '(pending, h) := merge (t_expire a) (t_merge a) (buf c) (holding c) in
  let c := c <| buf := [] |> <| holding := h |> in
  if bool_decide (pending = []) then (None, c, d)
  else
    let '(n, missed, err, d) := write o (outcome a) pending d in
    let c := c <| total := (total c + n)%nat |> in
    match err with
    | Some e => (Some e, c <| holding := holdAll (t_hold a) pending h |>, d)
    | None => (None, c <| holding := hold (t_hold a) pending missed h |>, d)
    end.

(** Every held event that the mode accepts, when the collector stops. *)
Definition drainHeld (o : collectOptions) (a : answer) (h : attributionHold) (d : audit_db) : nat * option string * attributionHold * audit_db :=
  let '(rest, h) := drain h in
  if bool_decide (rest = []) then (0%nat, None, h, d)
  else let '(n, _, e, d) := write o (outcome a) rest d in (n, e, h, d).

Section input.
(** [json.Unmarshal] into a [tetraEvent]; [None] is its error. *)
Context (unmarshal : string → option tetraEvent).

(** The event of a line that has one; [now] stamps one that has no time. *)
Definition event_of (o : collectOptions) (now : time_t) (line : string) : option KernelEvent :=
  te ← unmarshal (TrimSpace line);
  let '(e, ok) := mapTetra now te (co_host o) (co_serial o) in
  if ok then Some e else None.

Definition ingest (o : collectOptions) (a : answer) (now : time_t) (line : string) (c : collector) (d : audit_db) : collector * audit_db :=
  if String.eqb (TrimSpace line) "" then (c, d)
  else match event_of o now line with
  | None => (c <| skipped := S (skipped c) |>, d)
  | Some e =>
      let c := c <| buf := buf c ++ [e] |> in
      if co_batch o <=? Z.of_nat (length (buf c)) then let '(_, c, d) := flush o a c d in (c, d) else (c, d)
  end.

(** What happens to a running collector: a line, its timer, and what other
    processes do to the sessions. *)
Inductive happening := Reads (line : string) (now : time_t) (a : answer) | Ticks (a : answer) | Others (rows : list session_row).

Definition happens (o : collectOptions) (s : collector * audit_db) (h : happening) : collector * audit_db :=
  match h with
  | Reads line now a => ingest o a now line s.1 s.2
  | Ticks a => let '(_, c, d) := flush o a s.1 s.2 in (c, d)
  | Others rows => (s.1, s.2 <| sessions := rows |>)
  end.

(** The end of the input, with the scanner's report. *)
Definition finish (o : collectOptions) (scanErr : option string) (a b : answer) (c : collector) (d : audit_db) : option string * collector * audit_db :=
  let '(e, c, d) := flush o a c d in
  match e with
  | Some e => (Some e, c, d)
  | None =>
      match scanErr with
      | Some e => (Some "input scan aborted", c, d)
      | None => let '(n, _, h, d) := drainHeld o b (holding c) d in (None, c <| total := (total c + n)%nat |> <| holding := h |>, d)
      end
  end.

(** A stop asked for by a signal. *)
Definition finalFlushOnShutdown (o : collectOptions) (a b : answer) (c : collector) (d : audit_db) : collector * audit_db :=
  let '(_, c, d) := flush o a c d in
  let '(n, _, h, d) := drainHeld o b (holding c) d in
  (c <| total := (total c + n)%nat |> <| holding := h |>, d).

Inductive ending := Eof (scanErr : option string) (a b : answer) | Signal (a b : answer).

Definition ends_with (o : collectOptions) (s : collector * audit_db) (e : ending) : option string * collector * audit_db :=
  match e with
  | Eof scanErr a b => finish o scanErr a b s.1 s.2
  | Signal a b => let '(c, d) := finalFlushOnShutdown o a b s.1 s.2 in (Some "context canceled", c, d)
  end.

Definition runCollect (o : collectOptions) (hs : list happening) (e : ending) (d : audit_db) : option string * option collector * audit_db :=
  if co_batch o <=? 0 then (Some "--batch must be > 0", None, d)
  else let '(err, c, d) := ends_with o (foldl (happens o) (newCollector o, d) hs) e in (err, Some c, d).

(** The events read. *)
Definition read_of (o : collectOptions) (h : happening) : list KernelEvent :=
  match h with
  | Reads line now _ => if String.eqb (TrimSpace line) "" then [] else option_list (event_of o now line)
  | _ => []
  end.
Definition read (o : collectOptions) (hs : list happening) : list KernelEvent := hs ≫= read_of o.
End input.

(** ** What a write does *)

Definition unlinked (rows : list session_row) (need : bool) (evs : list KernelEvent) : list KernelEvent := filter (λ e, lands rows need e = false) evs.

Lemma landed_unlinked rows need evs : landed rows need evs ++ unlinked rows need evs ≡ₚ evs.
Proof.
  unfold landed, unlinked. induction evs as [|e evs IH]; [done|]. rewrite !list.filter_cons. destruct (lands rows need e); simpl.
  - by rewrite IH.
  - by rewrite <-Permutation_middle, IH.
Qed.

(** The rows a whole batch adds. *)
Lemma insert_events_spec need evs d : sessions (insert_events d need evs) = sessions d ∧
  ∃ rows, events (insert_events d need evs) = events d ++ rows ∧ e_event <$> rows = landed (sessions d) need evs ∧
    Forall (λ r, e_session r = attributed_to (sessions d) (e_event r) ∧ lands (sessions d) need (e_event r) = true) rows.
Proof.
  revert d. induction evs as [|e evs IH]; intros d; simpl; [split; [done|]; exists []; by rewrite app_nil_r|].
  unfold landed. rewrite list.filter_cons. destruct (lands (sessions d) need e) eqn:He; simpl; [|apply IH].
  set (d1 := d <| events := _ |> <| next_id := _ |>). destruct (IH d1) as (Hs & rows & E & Er & Hr). change (sessions d1) with (sessions d) in *.
  split; [done|]. eexists (_ :: rows). split_and!; [rewrite E; unfold d1; cbn; by rewrite <-(assoc_L (++))|cbn; by rewrite Er|].
  constructor; [by split|done].
Qed.

(** ** What the hold keeps *)

Lemma expire_eq t h : expire t h = h <| dropped := (dropped h + length (filter (λ p, overdue h t p = true) (held h)))%nat |> <| held := filter (λ p, overdue h t p = false) (held h) |>.
Proof.
  unfold expire, overdue. destruct (grace h <=? 0); [|done].
  assert (filter (λ _ : KernelEvent * time_t, true = true) (held h) = held h) as -> by (induction (held h); [done|by rewrite list.filter_cons, decide_True, IHl]).
  by assert (filter (λ _ : KernelEvent * time_t, true = false) (held h) = []) as -> by (induction (held h); [done|by rewrite list.filter_cons, decide_False]).
Qed.

Section picks.
Context (now : time_t) (P : list (KernelEvent * time_t)).

(** Held again by index, each event has the stamp it was offered with. *)
Lemma hold_picks js h : offered h = snd <$> P → Forall (λ i, i < length P)%nat js →
  foldl (hold_one now (fst <$> P)) h js = h <| held := held h ++ omap (λ i, P !! i) js |>.
Proof.
  revert h. induction js as [|i js IH]; intros h Ho His; csimpl; [by destruct h; cbn; rewrite app_nil_r|].
  apply Forall_cons in His as [Hi His]. destruct (lookup_lt_is_Some_2 P i Hi) as [p Hp]. rewrite Hp.
  assert (hold_one now (fst <$> P) h i = h <| held := held h ++ [p] |>) as ->.
  { unfold hold_one. rewrite list_lookup_fmap, Hp, Ho, list_lookup_fmap, Hp. by destruct p. }
  rewrite IH by done. cbn. by rewrite <-(assoc_L (++)).
Qed.
End picks.

Lemma omap_of_fmap {A B C} (f : B → option C) (g : A → B) (l : list A) : omap f (g <$> l) = omap (λ x, f (g x)) l.
Proof. induction l as [|x l IH]; csimpl; [done|]. by rewrite IH. Qed.

Lemma pick_all (P : list (KernelEvent * time_t)) : omap (λ i, P !! i) (seq 0 (length P)) = P.
Proof.
  induction P as [|p P IH]; [done|]. cbn [length seq]. csimpl. f_equal. rewrite <-fmap_S_seq, omap_of_fmap. exact IH.
Qed.

Lemma misses_cons rows need e evs : misses rows need (e :: evs) = (if lands rows need e then [] else [0%nat]) ++ (S <$> misses rows need evs).
Proof.
  unfold misses. simpl. rewrite list.filter_cons. simpl.
  assert (filter (λ p : nat * KernelEvent, lands rows need p.2 = false) (imap (pair ∘ S) evs) = (λ p, (S p.1, p.2)) <$> filter (λ p, lands rows need p.2 = false) (imap pair evs)) as E.
  { assert (imap (pair ∘ S) evs = (λ p : nat * KernelEvent, (S p.1, p.2)) <$> imap pair evs) as -> by (by rewrite fmap_imap).
    generalize (imap pair evs). intros l. induction l as [|p l IH]; [done|]. csimpl. rewrite !list.filter_cons. simpl. case_decide; csimpl; by rewrite IH. }
  destruct (lands rows need e); simpl; [|csimpl; f_equal]; rewrite E, <-!list_fmap_compose; by apply list_fmap_ext.
Qed.

Lemma pick_misses rows need (P : list (KernelEvent * time_t)) :
  Forall (λ i, i < length P)%nat (misses rows need (fst <$> P)) ∧ omap (λ i, P !! i) (misses rows need (fst <$> P)) = filter (λ p, lands rows need p.1 = false) P.
Proof.
  induction P as [|p P [IH1 IH2]]; [done|]. cbn [fmap list_fmap]. rewrite misses_cons, list.filter_cons. split.
  - apply Forall_app. split; [destruct (lands rows need p.1); constructor; simpl; [lia|done]|].
    apply Forall_fmap. eapply Forall_impl; [exact IH1|]. intros i Hi. simpl in *. lia.
  - assert (∀ l : list nat, omap (λ i, (p :: P) !! S i) l = omap (λ i, P !! i) l) as Hshift by done.
    rewrite omap_app, omap_of_fmap. rewrite Hshift, IH2.
    destruct (lands rows need p.1); simpl; done.
Qed.

Lemma trim_eq h : let over := Z.to_nat (Z.of_nat (length (held h)) - maxHeld h) in trim h = h <| dropped := (dropped h + over)%nat |> <| held := drop over (held h) |>.
Proof.
  unfold trim. destruct (0 <? Z.of_nat (length (held h)) - maxHeld h) eqn:E; [done|]. bool_simpl.
  replace (Z.to_nat (Z.of_nat (length (held h)) - maxHeld h)) with 0%nat by lia. destruct h. cbn. by rewrite Nat.add_0_r.
Qed.

(** The hold after a write that gave [back] some of [P]. *)
Definition holds (h : attributionHold) (back : list (KernelEvent * time_t)) : attributionHold :=
  let over := Z.to_nat (Z.of_nat (length back) - maxHeld h) in h <| dropped := (dropped h + over)%nat |> <| held := drop over back |>.

Lemma hold_eq now P missed h : offered h = snd <$> P → held h = [] → Forall (λ i, i < length P)%nat missed →
  hold now (fst <$> P) missed h = holds h (omap (λ i, P !! i) missed).
Proof. intros Ho Hh Hm. unfold hold. rewrite (hold_picks now P) by done. rewrite Hh, trim_eq. done. Qed.

Lemma holdAll_eq now P h : offered h = snd <$> P → held h = [] → holdAll now (fst <$> P) h = holds h P.
Proof.
  intros Ho Hh. unfold holdAll. rewrite length_fmap, (hold_eq now P), pick_all; [done|done|done|].
  apply Forall_forall. intros i Hi. by apply elem_of_seq in Hi as [_ ?].
Qed.

(** ** What a flush does *)

Definition old (a : answer) (c : collector) : list (KernelEvent * time_t) := filter (λ p, overdue (holding c) (t_expire a) p = true) (held (holding c)).
Definition tried (a : answer) (c : collector) : list (KernelEvent * time_t) :=
  filter (λ p, overdue (holding c) (t_expire a) p = false) (held (holding c)) ++ ((λ e, (e, t_merge a)) <$> buf c).

Lemma merge_eq a c : ∃ h, merge (t_expire a) (t_merge a) (buf c) (holding c) = (fst <$> tried a c, h) ∧
  offered h = snd <$> tried a c ∧ held h = [] ∧ dropped h = (dropped (holding c) + length (old a c))%nat ∧ grace h = grace (holding c) ∧ maxHeld h = maxHeld (holding c).
Proof.
  unfold merge. rewrite expire_eq. eexists. split.
  - f_equal. unfold tried. rewrite fmap_app, <-list_fmap_compose. cbn. f_equal. symmetry. apply list_fmap_id.
  - cbn. split_and!; try done. unfold tried. rewrite fmap_app, <-list_fmap_compose. done.
Qed.

(** What a write makes of a batch: the rows it adds, and what comes back. *)
Definition honest (a : answer) : Prop := outcome a ≠ CommitFails true.
Definition clean (a : answer) : Prop := outcome a = Committed ∨ outcome a = NoTransaction ∨ outcome a = CommitFails false.

Record flushed (o : collectOptions) (a : answer) (c : collector) (d : audit_db) (err : option string) (c' : collector) (d' : audit_db)
    (rows : list event_row) (back : list (KernelEvent * time_t)) : Prop := {
  fl_rows : events d' = events d ++ rows;
  fl_sessions : sessions d' = sessions d;
  fl_buf : buf c' = [];
  fl_limits : grace (holding c') = grace (holding c) ∧ maxHeld (holding c') = maxHeld (holding c);
  fl_held : held (holding c') = drop (Z.to_nat (Z.of_nat (length back) - maxHeld (holding c))) back;
  fl_dropped : dropped (holding c') = (dropped (holding c) + length (old a c) + Z.to_nat (Z.of_nat (length back) - maxHeld (holding c)))%nat;
  fl_parts : honest a → (e_event <$> rows) ++ (fst <$> back) ≡ₚ fst <$> tried a c;
  fl_back : ∀ p, p ∈ back → p ∈ tried a c;
  fl_linked : Forall (λ r, e_session r = attributed_to (sessions d) (e_event r) ∧ lands (sessions d) (co_requireSession o) (e_event r) = true) rows;
  fl_total : clean a → total c' = (total c + length rows)%nat;
  fl_left : err = None → Forall (λ p, lands (sessions d) (co_requireSession o) p.1 = false) back;
}.

Lemma write_eq o how evs d : write o how evs d =
  let '(n, missed, e, d) := insertKernelEvents how (co_requireSession o) evs d in (n, if co_requireSession o then missed else [], e, d).
Proof.
  unfold write, InsertKernelEventsAttributed, InsertKernelEvents. destruct (co_requireSession o); by destruct (insertKernelEvents how _ evs d) as [[[? ?] ?] ?].
Qed.

Lemma misses_false rows evs : misses rows false evs = [].
Proof. induction evs as [|e evs IH]; [done|]. rewrite misses_cons, IH. done. Qed.

Lemma fmap_filter_fst rows need (P : list (KernelEvent * time_t)) : fst <$> filter (λ p, lands rows need p.1 = false) P = unlinked rows need (fst <$> P).
Proof. unfold unlinked. induction P as [|p P IH]; [done|]. csimpl. rewrite !list.filter_cons. case_decide; csimpl; by rewrite IH. Qed.

(** The rows a write adds and the events it does not, by what came back. *)
Definition returned (P : list (KernelEvent * time_t)) (err : option string) (missed : list nat) : list (KernelEvent * time_t) :=
  match err with Some _ => P | None => omap (λ i, P !! i) missed end.

Lemma write_spec o a P d : P ≠ [] → ∃ n missed err d' rows, write o (outcome a) (fst <$> P) d = (n, missed, err, d') ∧
  events d' = events d ++ rows ∧ sessions d' = sessions d ∧
  Forall (λ r, e_session r = attributed_to (sessions d) (e_event r) ∧ lands (sessions d) (co_requireSession o) (e_event r) = true) rows ∧
  (honest a → (e_event <$> rows) ++ (fst <$> returned P err missed) ≡ₚ fst <$> P) ∧
  Forall (λ i, i < length P)%nat missed ∧ (∀ p, p ∈ returned P err missed → p ∈ P) ∧ (clean a → n = length rows) ∧
  (err = None → Forall (λ p, lands (sessions d) (co_requireSession o) p.1 = false) (returned P err missed)) ∧ (outcome a = Committed → err = None).
Proof.
  intros HP. rewrite write_eq. unfold insertKernelEvents. rewrite bool_decide_false by (by intros ?%fmap_nil_inv).
  assert (∀ rows' (d' : audit_db), d' = d → events d' = events d ++ [] ∧ sessions d' = sessions d) as Hsame by (intros ? ? ->; by rewrite app_nil_r).
  destruct (outcome a) as [| |k|made] eqn:Ho.
  - destruct (insert_events_spec (co_requireSession o) (fst <$> P) d) as (Hs & rows & He & Hr & Hl).
    destruct (pick_misses (sessions d) (co_requireSession o) P) as [Hb Hpick].
    assert ((if co_requireSession o then misses (sessions d) (co_requireSession o) (fst <$> P) else []) = misses (sessions d) (co_requireSession o) (fst <$> P)) as ->.
    { destruct (co_requireSession o); [done|by rewrite misses_false]. }
    eexists _, _, _, _, rows. split; [done|]. cbn [returned]. rewrite Hpick, fmap_filter_fst, Hr. split_and!; try done.
    + intros _. apply landed_unlinked.
    + by intros p [_ ?]%list_elem_of_filter.
    + intros _. by rewrite <-Hr, length_fmap.
    + intros _. apply Forall_forall. by intros p [? _]%list_elem_of_filter.
  - eexists _, _, _, _, []. split; [done|]. cbn [returned]. rewrite app_nil_r. split_and!; try done. by destruct (co_requireSession o).
  - eexists _, _, _, _, []. split; [done|]. cbn [returned]. rewrite app_nil_r. split_and!; try done; [by destruct (co_requireSession o)|].
    unfold clean. rewrite Ho. naive_solver.
  - destruct made.
    + destruct (insert_events_spec (co_requireSession o) (fst <$> P) d) as (Hs & rows & He & Hr & Hl).
      eexists _, _, _, _, rows. split; [done|]. cbn [returned]. split_and!; try done; [by destruct (co_requireSession o)|].
      unfold clean. rewrite Ho. naive_solver.
    + eexists _, _, _, _, []. split; [done|]. cbn [returned]. rewrite app_nil_r. split_and!; try done. by destruct (co_requireSession o).
Qed.

Lemma flush_spec o a c d err c' d' : 0 ≤ maxHeld (holding c) → flush o a c d = (err, c', d') → ∃ rows back, flushed o a c d err c' d' rows back.
Proof.
  intros Hmax. unfold flush. destruct (merge_eq a c) as (h & -> & Ho & Hh & Hd & Hg & Hm). destruct (decide (tried a c = [])) as [E|E].
  - rewrite E. cbn. intros [= <- <- <-]. exists [], []. split; cbn; rewrite ?app_nil_r, ?E; try done.
    + by rewrite drop_nil.
    + rewrite Hd. lia.
  - rewrite bool_decide_false by (by intros ?%fmap_nil_inv).
    destruct (write_spec o a (tried a c) d E) as (n & missed & er & d1 & rows & -> & He & Hs & Hl & Hp & Hb & Hback & Hn & Hleft & _).
    intros H. exists rows, (returned (tried a c) er missed).
    assert (c' = c <| buf := [] |> <| holding := holds h (returned (tried a c) er missed) |> <| total := (total c + n)%nat |> ∧ err = er ∧ d' = d1) as (-> & -> & ->).
    { destruct er; cbn in H; injection H as <- <- <-; cbn; split_and!; try done; [by rewrite (holdAll_eq _ (tried a c))|by rewrite (hold_eq _ (tried a c))]. }
    split; cbn; rewrite ?Hm, ?Hd; try done. intros Hc. by rewrite (Hn Hc).
Qed.

(** ** Every event is accounted for *)

(** An event given up: when it was first tried, and when it was found overdue. *)
Definition gave_up : Type := KernelEvent * time_t * time_t.

(** Where the events [R] are, after the answers [As]: in the table, in the
    buffer, held, given up or pushed out of a full hold. *)
Record accounts (o : collectOptions) (d0 : audit_db) (R : list KernelEvent) (As : list answer) (c : collector) (d : audit_db)
    (rows : list event_row) (late : list gave_up) (crowded : list KernelEvent) : Prop := {
  ac_rows : events d = events d0 ++ rows;
  ac_all : R ≡ₚ (e_event <$> rows) ++ buf c ++ (fst <$> held (holding c)) ++ ((λ x : gave_up, x.1.1) <$> late) ++ crowded;
  ac_dropped : dropped (holding c) = (length late + length crowded)%nat;
  ac_late : Forall (λ x : gave_up, x.1.2 ∈ t_merge <$> As ∧ x.2 ∈ t_expire <$> As ∧ (co_grace o ≤ 0 ∨ x.1.2 + co_grace o < x.2)) late;
  ac_crowded : crowded ≠ [] → maxHeld (holding c) < Z.of_nat (length R);
  ac_stamps : Forall (λ p, p.2 ∈ t_merge <$> As) (held (holding c));
  ac_limits : grace (holding c) = co_grace o ∧ maxHeld (holding c) = 20 * co_batch o;
  ac_room : Z.of_nat (length (held (holding c))) ≤ maxHeld (holding c);
  ac_linked : co_requireSession o = true → Forall (λ r, is_Some (e_session r)) rows;
  ac_total : Forall clean As → total c = length rows;
}.

Local Notation ke_dec := (λ x y : KernelEvent, decide (x = y)).

Lemma Permutation_by_count (l l' : list KernelEvent) : (∀ x, count_occ ke_dec l x = count_occ ke_dec l' x) → l ≡ₚ l'.
Proof. apply (Permutation_count_occ ke_dec). Qed.

Lemma count_of (l l' : list KernelEvent) x : l ≡ₚ l' → count_occ ke_dec l x = count_occ ke_dec l' x.
Proof. intros H. by apply (Permutation_count_occ ke_dec). Qed.

Lemma overdue_waited h t p : overdue h t p = true → grace h ≤ 0 ∨ p.2 + grace h < t.
Proof. unfold overdue, After, Add. destruct (grace h <=? 0) eqn:E; intros H; bool_simpl; [by left|right; lia]. Qed.

Section step.
Context (o : collectOptions) (Hbatch : 0 < co_batch o).

Lemma flush_accounts d0 R As a c d rows late crowded err c' d' : accounts o d0 R As c d rows late crowded → honest a → flush o a c d = (err, c', d') →
  ∃ rows' late' crowded', accounts o d0 R (As ++ [a]) c' d' rows' late' crowded' ∧ sessions d' = sessions d ∧ buf c' = [].
Proof.
  intros [Hr Hall Hd Hl Hc Hst Hlim Hroom Hlk Ht] Hh Hf. destruct Hlim as [Hg Hm].
  apply flush_spec in Hf as (new & back & [F1 F2 F3 [F4 F5] F6 F7 F8 F9 F10 F11 F12]); [|lia].
  set (k := Z.to_nat (Z.of_nat (length back) - maxHeld (holding c))) in *.
  assert (held (holding c) ≡ₚ old a c ++ filter (λ p, overdue (holding c) (t_expire a) p = false) (held (holding c))) as Hsplit.
  { rewrite <-(filter_app_complement (λ p, overdue (holding c) (t_expire a) p = true) (held (holding c))) at 1. unfold old. f_equiv.
    rewrite (filter_ext_in (λ p, ¬ overdue (holding c) (t_expire a) p = true) (λ p, overdue (holding c) (t_expire a) p = false)); [done|].
    intros p _. by rewrite not_true_iff_false. }
  assert (∀ p, p ∈ tried a c → p.2 ∈ t_merge <$> As ++ [a]) as Htried.
  { intros p [[_ Hp]%list_elem_of_filter|(e & -> & _)%list_elem_of_fmap]%elem_of_app; rewrite fmap_app.
    - rewrite Forall_forall in Hst. apply elem_of_app. left. by apply Hst.
    - apply elem_of_app. right. by left. }
  exists (rows ++ new), (late ++ ((λ p, (p, t_expire a)) <$> old a c)), (crowded ++ (fst <$> take k back)). split; [|done]. split.
  - by rewrite F1, Hr, (assoc_L (++)).
  - specialize (F8 Hh). apply Permutation_by_count. intros x.
    apply (count_of _ _ x) in Hall. apply (fmap_Permutation fst) in Hsplit. apply (count_of _ _ x) in Hsplit. apply (count_of _ _ x) in F8.
    unfold tried in F8. rewrite F3, F6. rewrite <-(take_drop k back), !fmap_app, !count_occ_app in F8. rewrite fmap_app, !count_occ_app in Hsplit.
    rewrite <-!list_fmap_compose in F8. rewrite !count_occ_app in Hall. rewrite !fmap_app, <-!list_fmap_compose, !count_occ_app.
    change (fst ∘ (λ e : KernelEvent, (e, t_merge a))) with (λ e : KernelEvent, e) in F8. rewrite list_fmap_id in F8.
    change ((λ x : gave_up, x.1.1) ∘ (λ p : KernelEvent * time_t, (p, t_expire a))) with (fst : KernelEvent * time_t → KernelEvent). simpl. lia.
  - rewrite F7, Hd, !length_app, !length_fmap, length_take. lia.
  - apply Forall_app. split.
    + eapply Forall_impl; [exact Hl|]. intros y (H1 & H2 & H3). rewrite !fmap_app. split_and!; [set_solver|set_solver|done].
    + apply Forall_fmap, Forall_forall. intros p [Hp Hin]%list_elem_of_filter. simpl. rewrite !fmap_app. split_and!.
      * rewrite Forall_forall in Hst. apply elem_of_app. left. by apply Hst.
      * apply elem_of_app. right. by left.
      * rewrite <-Hg. by apply overdue_waited.
  - rewrite F5. intros Hne. destruct (decide (crowded = [])) as [->|]; [|by apply Hc]. simpl in Hne.
    assert (0 < k)%nat as Hk by (destruct k; [done|lia]).
    assert (length back ≤ length (tried a c))%nat as Hlen.
    { specialize (F8 Hh). apply Permutation_length in F8. rewrite length_app, !length_fmap in F8. lia. }
    assert (length (tried a c) ≤ length R)%nat; [|lia].
    apply Permutation_length in Hall. rewrite !length_app, !length_fmap in Hall. unfold tried. rewrite length_app, length_fmap.
    pose proof (length_filter (λ p, overdue (holding c) (t_expire a) p = false) (held (holding c))). lia.
  - rewrite F6. apply Forall_forall. intros p Hp. apply Htried, F9. by apply (subseteq_drop k).
  - by rewrite F4, F5.
  - rewrite F6, F5, length_drop. lia.
  - intros Hn. apply Forall_app. split; [by apply Hlk|]. eapply Forall_impl; [exact F10|]. intros r [E Hland]. unfold lands in Hland.
    rewrite Hn in Hland. simpl in Hland. rewrite E. by apply bool_decide_eq_true in Hland.
  - intros [HA Ha]%Forall_app. apply Forall_cons in Ha as [Ha _]. rewrite (F11 Ha), (Ht HA), length_app. done.
Qed.
End step.

(** The answers a happening may use, and an ending. *)
Definition answers_of (h : happening) : list answer := match h with Reads _ _ a | Ticks a => [a] | Others _ => [] end.
Definition last_answers (e : ending) : answer * answer := match e with Eof _ a b | Signal a b => (a, b) end.
Definition by_signal (e : ending) : bool := match e with Signal _ _ => true | Eof _ _ _ => false end.

Section run.
Context (unmarshal : string → option tetraEvent) (o : collectOptions) (Hbatch : 0 < co_batch o).

Lemma accounts_more d0 R As As' c d rows late crowded : accounts o d0 R As c d rows late crowded → accounts o d0 R (As ++ As') c d rows late crowded.
Proof.
  intros [Hr Hall Hd Hl Hc Hst Hlim Hroom Hlk Ht]. split; try done.
  - eapply Forall_impl; [exact Hl|]. intros y (H1 & H2 & H3). rewrite !fmap_app. split_and!; [set_solver|set_solver|done].
  - eapply Forall_impl; [exact Hst|]. intros p Hp. rewrite fmap_app. set_solver.
  - intros [HA _]%Forall_app. by apply Ht.
Qed.

Lemma accounts_read d0 R As c d rows late crowded e : accounts o d0 R As c d rows late crowded → accounts o d0 (R ++ [e]) As (c <| buf := buf c ++ [e] |>) d rows late crowded.
Proof.
  intros [Hr Hall Hd Hl Hc Hst Hlim Hroom Hlk Ht]. split; try done.
  - change (buf (c <| buf := buf c ++ [e] |>)) with (buf c ++ [e]). apply Permutation_by_count. intros x. apply (count_of _ _ x) in Hall.
    rewrite !count_occ_app in *. cbn. lia.
  - intros Hne. specialize (Hc Hne). rewrite length_app. change (maxHeld (holding (c <| buf := buf c ++ [e] |>))) with (maxHeld (holding c)). lia.
Qed.

Definition running d0 R As (s : collector * audit_db) : Prop :=
  (∃ rows late crowded, accounts o d0 R As s.1 s.2 rows late crowded) ∧ Z.of_nat (length (buf s.1)) < co_batch o.

Lemma happens_accounts d0 R As s h : running d0 R As s → Forall honest (answers_of h) → running d0 (R ++ read_of unmarshal o h) (As ++ answers_of h) (happens unmarshal o s h).
Proof.
  destruct s as [c d]. intros [(rows & late & crowded & Hac) Hbuf] Hh. simpl in *. destruct h as [line now a|a|rs]; simpl in *.
  - apply Forall_cons in Hh as [Ha _]. unfold ingest. destruct (String.eqb (TrimSpace line) ""); [rewrite app_nil_r; split; [|done]; eexists _, _, _; by apply accounts_more|].
    destruct (event_of unmarshal o now line) as [e|]; simpl.
    + destruct (co_batch o <=? _) eqn:Hfull.
      * destruct (flush o a _ d) as [[err c'] d'] eqn:Hf. eapply flush_accounts in Hf as (rows' & late' & crowded' & Hac' & _ & Hb); [|done|by apply accounts_read|done].
        split; [by eexists _, _, _|]. simpl. rewrite Hb. simpl. lia.
      * bool_simpl. split; [|cbn in *; lia]. eexists _, _, _. by apply accounts_more, accounts_read.
    + rewrite app_nil_r. split; [|done]. eexists _, _, _. by destruct (accounts_more d0 R As [a] c d rows late crowded Hac).
  - apply Forall_cons in Hh as [Ha _]. rewrite app_nil_r. destruct (flush o a c d) as [[err c'] d'] eqn:Hf.
    eapply flush_accounts in Hf as (rows' & late' & crowded' & Hac' & _ & Hb); [|done|done|done].
    split; [by eexists _, _, _|]. simpl. rewrite Hb. simpl. lia.
  - rewrite !app_nil_r. split; [|done]. exists rows, late, crowded. by destruct Hac.
Qed.

Lemma run_accounts hs d0 R As s : running d0 R As s → Forall honest (hs ≫= answers_of) →
  running d0 (R ++ read unmarshal o hs) (As ++ (hs ≫= answers_of)) (foldl (happens unmarshal o) s hs).
Proof.
  revert R As s. induction hs as [|h hs IH]; intros R As s Hs Hh; csimpl; [by rewrite !app_nil_r|].
  unfold read in *. csimpl in *. apply Forall_app in Hh as [H1 H2]. rewrite !(assoc_L (++)). apply IH; [|done]. by apply happens_accounts.
Qed.

Lemma starts_accounted d : running d [] [] (newCollector o, d).
Proof.
  split; [|simpl; lia]. exists [], [], []. unfold newCollector, newAttributionHold. split; cbn; try done; [by rewrite app_nil_r| |].
  - split; [done|]. destruct (co_batch o <=? 0) eqn:E; bool_simpl; lia.
  - destruct (co_batch o <=? 0); lia.
Qed.

(** The last writes: what they store of what is held, and what they leave. *)
Lemma drain_accounts d0 R As a c d rows late crowded n err h d' : accounts o d0 R As c d rows late crowded → buf c = [] → honest a → drainHeld o a (holding c) d = (n, err, h, d') →
  ∃ rows' left, events d' = events d0 ++ rows' ∧ R ≡ₚ (e_event <$> rows') ++ left ++ ((λ x : gave_up, x.1.1) <$> late) ++ crowded ∧
    dropped h = dropped (holding c) ∧ sessions d' = sessions d ∧ (co_requireSession o = true → Forall (λ r, is_Some (e_session r)) rows') ∧
    (Forall clean (As ++ [a]) → (total c + n)%nat = length rows') ∧
    (outcome a = Committed → Forall (λ e, lands (sessions d') (co_requireSession o) e = false) left).
Proof.
  intros [Hr Hall Hd _ _ _ _ _ Hlk Ht] Hb Hh. rewrite Hb in Hall. unfold drainHeld, drain. cbn [fst snd].
  destruct (decide (held (holding c) = [])) as [E|E].
  - rewrite E. cbn. intros [= <- <- <- <-]. exists rows, []. rewrite E in Hall. cbn in *. split_and!; try done.
    intros [HA _]%Forall_app. rewrite (Ht HA). lia.
  - rewrite bool_decide_false by (by intros ?%fmap_nil_inv).
    destruct (write_spec o a (held (holding c)) d E) as (n' & missed & er & d1 & new & -> & He & Hs & Hl & Hp & _ & _ & Hn & Hleft & Hok).
    intros [= <- <- <- <-]. exists (rows ++ new), (fst <$> returned (held (holding c)) er missed). split_and!.
    + by rewrite He, Hr, (assoc_L (++)).
    + specialize (Hp Hh). apply Permutation_by_count. intros x. apply (count_of _ _ x) in Hall. apply (count_of _ _ x) in Hp.
      rewrite fmap_app, !count_occ_app in *. simpl in *. lia.
    + done.
    + done.
    + intros Hneed. apply Forall_app. split; [by apply Hlk|]. eapply Forall_impl; [exact Hl|]. intros r [Er Hland]. unfold lands in Hland.
      rewrite Hneed in Hland. simpl in Hland. rewrite Er. by apply bool_decide_eq_true in Hland.
    + intros [HA Ha]%Forall_app. apply Forall_cons in Ha as [Ha _]. by rewrite (Hn Ha), (Ht HA), length_app.
    + intros Ho. rewrite Hs. apply Forall_fmap. by apply Hleft, Hok.
Qed.

(** The end of a run: either the last flush and the drain, or a return with
    events still held. *)
Lemma end_accounts d0 R As s e err c' d' rows late crowded : accounts o d0 R As s.1 s.2 rows late crowded → honest (last_answers e).1 → honest (last_answers e).2 →
  ends_with o s e = (err, c', d') →
  ∃ rows' late' crowded' left, events d' = events d0 ++ rows' ∧ R ≡ₚ (e_event <$> rows') ++ left ++ ((λ x : gave_up, x.1.1) <$> late') ++ crowded' ∧
    dropped (holding c') = (length late' + length crowded')%nat ∧
    Forall (λ x : gave_up, x.1.2 ∈ t_merge <$> As ++ [(last_answers e).1] ∧ x.2 ∈ t_expire <$> As ++ [(last_answers e).1] ∧ (co_grace o ≤ 0 ∨ x.1.2 + co_grace o < x.2)) late' ∧
    (crowded' ≠ [] → 20 * co_batch o < Z.of_nat (length R)) ∧
    (co_requireSession o = true → Forall (λ r, is_Some (e_session r)) rows') ∧
    (Forall clean (As ++ [(last_answers e).1; (last_answers e).2]) → total c' = length rows') ∧
    (err = None ∨ by_signal e = true → outcome (last_answers e).2 = Committed → Forall (λ ev, lands (sessions d') (co_requireSession o) ev = false) left).
Proof.
  destruct s as [c d]. simpl. intros Hac Ha Hb He.
  assert (∃ er c1 d1, flush o (last_answers e).1 c d = (er, c1, d1)) as (er & c1 & d1 & Hf) by (destruct (flush _ _ _ _) as [[? ?] ?]; by eexists _, _, _).
  destruct (flush_accounts o Hbatch d0 R As _ c d rows late crowded er c1 d1 Hac Ha Hf) as (rows1 & late1 & crowded1 & Hac1 & Hs1 & Hb1).
  assert (∃ n er2 h d2, drainHeld o (last_answers e).2 (holding c1) d1 = (n, er2, h, d2)) as (n & er2 & h & d2 & Hd) by (destruct (drainHeld _ _ _ _) as [[[? ?] ?] ?]; by eexists _, _, _, _).
  destruct (drain_accounts d0 R _ _ c1 d1 rows1 late1 crowded1 n er2 h d2 Hac1 Hb1 Hb Hd) as (rows2 & left & D1 & D2 & D3 & D4 & D5 & D6 & D7).
  destruct Hac1 as [Hr Hall Hdr Hl Hc Hst [Hg Hm] Hroom Hlk Ht]. rewrite Hm in Hc. rewrite Hb1 in Hall.
  assert ((holding c' = h ∧ total c' = (total c1 + n)%nat ∧ d' = d2) ∨ (c' = c1 ∧ d' = d1 ∧ err ≠ None ∧ by_signal e = false)) as [(-> & -> & ->)|(-> & -> & Hne & Hsig)].
  { destruct e as [scanErr a b|a b]; simpl in *; unfold finish, finalFlushOnShutdown in He; rewrite Hf in He.
    - destruct er; [by injection He as <- <- <-; right|]. destruct scanErr; [by injection He as <- <- <-; right|].
      rewrite Hd in He. injection He as <- <- <-. by left.
    - rewrite Hd in He. injection He as <- <- <-. by left. }
  - exists rows2, late1, crowded1, left. split_and!; try done; [by rewrite D3|by rewrite <-(assoc_L (++)) in D6].
  - exists rows1, late1, crowded1, (fst <$> held (holding c1)). split_and!; try done.
    + intros Hcl. apply Ht. rewrite cons_middle, (assoc_L (++)) in Hcl. by apply Forall_app in Hcl as [? _].
    + intros [?|Ht2]; [done|]. by rewrite Hsig in Ht2.
Qed.
End run.

(** ** The theorem *)

(** The answers a whole run may use. *)
Definition all_answers (hs : list happening) (e : ending) : list answer := (hs ≫= answers_of) ++ [(last_answers e).1; (last_answers e).2].

(** C1. The collector loses count of nothing.  Through every run (lines and
    timer ticks in any order, writes that fail, other processes changing the
    sessions) in which no commit took effect and reported failure, each event
    read is stored once, still held at the end, or among those counted as
    dropped.  A dropped event waited longer than the grace between a write that
    tried it and the one that gave it up, or was pushed out of a full hold,
    which takes more than twenty batches read.  With [--require-session] every
    stored row has a session.  While it runs it buffers less than a batch and
    holds at most twenty.  At a clean end, or after a signal, when the last
    write committed, what is left over are events the mode does not store; with
    [--require-session=false] there are none.  The total it reports is the rows
    stored, when no write failed half way. *)
Theorem no_event_goes_unaccounted unmarshal o hs e d :
  0 < co_batch o → Forall honest (all_answers hs e) →
  let s := foldl (happens unmarshal o) (newCollector o, d) hs in
  (Z.of_nat (length (buf s.1)) < co_batch o ∧ Z.of_nat (length (held (holding s.1))) ≤ 20 * co_batch o) ∧
  ∃ err c d' rows late crowded left, runCollect unmarshal o hs e d = (err, Some c, d') ∧
    events d' = events d ++ rows ∧
    read unmarshal o hs ≡ₚ (e_event <$> rows) ++ left ++ ((λ x : gave_up, x.1.1) <$> late) ++ crowded ∧
    dropped (holding c) = (length late + length crowded)%nat ∧
    Forall (λ x : gave_up, x.1.2 ∈ t_merge <$> all_answers hs e ∧ x.2 ∈ t_expire <$> all_answers hs e ∧ (co_grace o ≤ 0 ∨ x.1.2 + co_grace o < x.2)) late ∧
    (crowded ≠ [] → 20 * co_batch o < Z.of_nat (length (read unmarshal o hs))) ∧
    (co_requireSession o = true → Forall (λ r, is_Some (e_session r)) rows) ∧
    (Forall clean (all_answers hs e) → total c = length rows) ∧
    (err = None ∨ by_signal e = true → outcome (last_answers e).2 = Committed →
      Forall (λ ev, lands (sessions d') (co_requireSession o) ev = false) left ∧ (co_requireSession o = false → left = [])).
Proof.
  intros Hbatch Hh s. unfold all_answers in *. apply Forall_app in Hh as [Hh1 Hh2]. apply Forall_cons in Hh2 as [Ha Hh2]. apply Forall_cons in Hh2 as [Hb _].
  destruct (run_accounts unmarshal o Hbatch hs d [] [] (newCollector o, d)) as [(rows0 & late0 & crowded0 & Hac) Hbuf]; [by apply starts_accounted|done|].
  simpl in Hac, Hbuf. fold s in Hac, Hbuf. split; [split; [done|]; destruct Hac as [_ _ _ _ _ _ [_ <-] ? _ _]; done|].
  destruct (ends_with o s e) as [[err c'] d'] eqn:He.
  destruct (end_accounts o Hbatch d _ _ s e err c' d' _ _ _ Hac Ha Hb He) as (rows & late & crowded & left & E1 & E2 & E3 & E4 & E5 & E6 & E7 & E8).
  exists err, c', d', rows, late, crowded, left. split_and!; try done.
  - unfold runCollect. replace (co_batch o <=? 0) with false by (symmetry; apply Z.leb_gt; lia). fold s. by rewrite He.
  - eapply Forall_impl; [exact E4|]. intros x (H1 & H2 & H3). rewrite !fmap_app in *. simpl in *. split_and!; [set_solver|set_solver|done].
  - intros H1 H2. specialize (E8 H1 H2). split; [done|]. intros Hn. rewrite Hn in E8. destruct left as [|ev left]; [done|]. by apply Forall_cons in E8 as [? _].
Qed.

(** ** Whose event it is *)

Lemma later_spec rows best : match foldl later best rows with
  | Some s => (s ∈ rows ∨ best = Some s) ∧ (∀ s', s' ∈ rows ∨ best = Some s' → s_started s' ≤ s_started s)
  | None => rows = [] ∧ best = None
  end.
Proof.
  revert best. induction rows as [|r rows IH]; intros best; simpl; [destruct best as [b|]; [|done]; split; [by right|intros s' [?%elem_of_nil|[= <-]]; done]|].
  specialize (IH (later best r)). destruct (foldl later (later best r) rows) as [s|].
  - destruct IH as [Hin Hmax]. assert (s_started r ≤ s_started s ∧ ∀ b, best = Some b → s_started b ≤ s_started s) as [Hr Hb].
    { unfold later in Hmax. destruct best as [b|]; [|split; [by apply Hmax; right|done]]. destruct (s_started b <? s_started r) eqn:E; bool_simpl.
      - specialize (Hmax r (or_intror eq_refl)). split; [done|intros b' [= <-]; lia].
      - specialize (Hmax b (or_intror eq_refl)). split; [lia|by intros b' [= <-]]. }
    split; [|intros s' [[->|?]%elem_of_cons|?]; [done|apply Hmax; by left|by apply Hb]].
    destruct Hin as [?|Hl]; [left; by right|]. unfold later in Hl. destruct best as [b|]; [|injection Hl as ->; left; by left].
    destruct (s_started b <? s_started r); [injection Hl as ->; left; by left|by right].
  - destruct IH as [_ Hl]. unfold later in Hl. by destruct best as [b|]; [destruct (s_started b <? s_started r)|].
Qed.

(** An event read by the collector is put under the latest session of its own
    host with its control group or certificate, and under none when there is
    none. *)
Lemma attributed_to_its_session rows e : SessionID e = None → match attributed_to rows e with
  | Some i => ∃ s, s ∈ rows ∧ s_id s = i ∧ links e s = true ∧ ∀ s', s' ∈ rows → links e s' = true → s_started s' ≤ s_started s
  | None => ∀ s, s ∈ rows → links e s = false
  end.
Proof.
  unfold attributed_to. intros ->. pose proof (later_spec (filter (λ r, links e r = true) rows) None) as H.
  destruct (foldl later None _) as [s|]; simpl.
  - destruct H as [[[Hl Hin]%list_elem_of_filter|?] Hmax]; [|done]. exists s. split_and!; try done.
    intros s' Hs' Hl'. apply Hmax. left. by apply list_elem_of_filter.
  - destruct H as [H _]. intros s Hs. destruct (links e s) eqn:Hl; [|done].
    assert (s ∈ filter (λ r, links e r = true) rows) as Hin by (by apply list_elem_of_filter). rewrite H in Hin. by apply elem_of_nil in Hin.
Qed.

Module Sample.
Definition proc (pid : Z) (args cg : string) : tetraProcess := {| tp_PID := pid; tp_UID := 0; tp_CWD := "/root"; tp_Binary := "/usr/bin/mysql"; tp_Arguments := args; tp_CgroupID := cg |}.
Definition unmarshal (s : string) : option tetraEvent :=
  if String.eqb s "exec" then Some {| NodeName := "aio01"; te_Time := 5; ProcessExec := Some {| te_Process := proc 10 "--password=x" "7"; te_Parent := proc 1 "" "" |}; ProcessExit := None |}
  else if String.eqb s "exit" then Some {| NodeName := "aio01"; te_Time := 0; ProcessExec := None; ProcessExit := Some {| tx_Process := proc 10 "" "7"; tx_Status := 0 |} |}
  else if String.eqb s "other" then Some {| NodeName := "aio01"; te_Time := 6; ProcessExec := Some {| te_Process := proc 20 "" "9"; te_Parent := proc 1 "" "" |}; ProcessExit := None |}
  else None.

Definition opts (need : bool) : collectOptions := {| co_host := "gpu01"; co_serial := ""; co_batch := 3; co_requireSession := need; co_grace := 30 * Second |}.
Definition at_ (t : time_t) (how : batch_end) : answer := {| t_expire := t; t_merge := t; t_hold := t; outcome := how |}.
Definition session7 : session_row :=
  {| s_id := 1; s_serial := "s1"; s_vault_user := ""; s_hostname := "gpu01"; s_login := "root"; s_source_ip := ""; s_leader := 100; s_cgroup := 7;
     s_started := 4; s_ended := None; s_summary := "" |}.

(** The first commands arrive before their session; a write fails; a line is
    not JSON; an event of no login is given up. *)
Definition morning : list happening :=
  [Reads " exec " 1 (at_ 1 Committed); Reads "other" 1 (at_ 1 Committed); Ticks (at_ (1 * Second) Committed); Reads "oops" 2 (at_ 2 Committed);
   Others [session7]; Ticks (at_ (2 * Second) NoTransaction); Ticks (at_ (3 * Second) Committed); Ticks (at_ (32 * Second) Committed); Reads "exit" 7 (at_ 7 Committed)].
Definition evening : ending := Eof None (at_ (33 * Second) Committed) (at_ (33 * Second) Committed).

Example a_day : (λ r, (r.1.1, (λ c, (total c, skipped c, dropped (holding c))) <$> r.1.2, (λ e, (e_session e, Args (e_event e), TS (e_event e))) <$> events r.2))
    (runCollect unmarshal (opts true) morning evening empty_db) =
  (None, Some (2, 1, 1)%nat, [(Some 1, "--password=[REDACTED]", 5); (Some 1, "", 7)]).
Proof. by vm_compute. Qed.

Lemma no_event_goes_unaccounted_witness : Forall honest (all_answers morning evening) ∧
  ∃ err c d' rows late crowded left, runCollect unmarshal (opts true) morning evening empty_db = (err, Some c, d') ∧ events d' = events empty_db ++ rows ∧
    read unmarshal (opts true) morning ≡ₚ (e_event <$> rows) ++ left ++ ((λ x : gave_up, x.1.1) <$> late) ++ crowded ∧ crowded = [].
Proof.
  assert (Forall honest (all_answers morning evening)) as Hh by (repeat constructor; discriminate). split; [exact Hh|].
  destruct (no_event_goes_unaccounted unmarshal (opts true) morning evening empty_db ltac:(reflexivity) Hh) as (_ & err & c & d' & rows & late & crowded & left & E & He & Hr & _ & _ & Hc & _).
  exists err, c, d', rows, late, crowded, left. split_and!; [exact E|exact He|exact Hr|].
  destruct crowded as [|e l]; [reflexivity|]. exfalso. specialize (Hc ltac:(discriminate)). revert Hc. vm_compute. discriminate.
Defined.

Definition soon : ending := Eof None (at_ 3 Committed) (at_ 3 Committed).

(** A commit that takes effect and is reported as failed stores its batch
    twice: the rows carry nothing that tells a retry from a new event. *)
Lemma a_lost_commit_stores_twice :
  (λ r, (length (events r.2), total <$> r.1.2)) (runCollect unmarshal (opts false) [Reads "exec" 1 (at_ 1 Committed); Ticks (at_ 2 (CommitFails true))] soon empty_db) = (2, Some 1)%nat.
Proof. by vm_compute. Qed.

(** Rows counted before the statement that failed are gone with it, and
    counted again by the retry. *)
Lemma the_total_counts_rolled_back_rows :
  (λ r, (length (events r.2), total <$> r.1.2)) (runCollect unmarshal (opts false)
    [Reads "exec" 1 (at_ 1 Committed); Reads "other" 1 (at_ 1 Committed); Ticks (at_ 2 (FailsAt 1))] soon empty_db) = (2, Some 3)%nat.
Proof. by vm_compute. Qed.

(** Both ways to stop are said to drain what is held.  The end of the input
    does not when its last flush fails: the event is neither stored nor
    counted. *)
Lemma a_failed_last_flush_skips_the_drain :
  let hs := [Reads "exec" 1 (at_ 1 Committed)] in let failing := at_ 2 NoTransaction in let fine := at_ 2 Committed in
  (λ r, (length (events r.2), (λ c, dropped (holding c)) <$> r.1.2)) (runCollect unmarshal (opts false) hs (Eof None failing fine) empty_db) = (0, Some 0)%nat ∧
  (λ r, (length (events r.2), (λ c, dropped (holding c)) <$> r.1.2)) (runCollect unmarshal (opts false) hs (Signal failing fine) empty_db) = (1, Some 0)%nat.
Proof. by vm_compute. Qed.
End Sample.
