(* ===== verification/SessionWatch.v ===== *)
(** The session registrar (internal/cli/watch.go, watch_process_unix.go and
    periodic.go): a host daemon that turns the markers login shells drop into a
    directory into session rows, and ends the sessions whose leader is gone.

    A scan is given the directory as it finds it, and what the outside does
    while it runs: which statements and removals fail, which processes live.
    What it removes is part of its answer. *)

From Stdlib Require Import Ascii String ZArith Lia.
From S2P Require Import Prelude GoStrings AuditStore.

Local Open Scope Z_scope.
Local Open Scope record_scope.

(** ** Markers *)

Record sessionMarker := { Serial : string; Login : string; RHost : string; mk_LeaderPID : Z; mk_Host : string; Started : string }.

(** A directory entry: its name, and the marker in it; [None] for a
    subdirectory and for a file that does not read or decode. *)
Definition entry : Type := string * option sessionMarker.

Definition stripPort (addr : string) : string := match Cut addr " " with Some (a, _) => a | None => addr end.

Definition reportedHostname (override : string) (os : option string) : option string :=
  if String.eqb override "" then os else Some override.

(** ** Processes: watch_process_unix.go *)

(** The text after the last [sep]. *)
Fixpoint after_last (s sep : string) : option string :=
  match s with
  | EmptyString => None
  | String _ s' =>
      match after_last s' sep with
      | Some rest => Some rest
      | None => if HasPrefix s sep then Some (drop_bytes (String.length sep) s) else None
      end
  end.

(** What the outside is during a scan. *)
Record host := {
  signalable : Z → bool;  (* signal 0 reaches the process *)
  proc_cgroup : Z → option string;  (* /proc/<pid>/cgroup *)
  inode : string → option Z;  (* of a path below /sys/fs/cgroup *)
  inet : string → option string;
  parse_rfc3339 : string → option time_t;
  now : time_t;  (* the host's clock *)
  db_now : time_t;  (* the database's *)
  record_fails : string → bool; record_lost : string → bool;  (* not done, done but reported as failed *)
  end_fails : string → bool; remove_fails : string → bool;
}.

Section scan.
Context (H : host).

Definition processAlive (pid : Z) : bool := if pid <=? 0 then false else signalable H pid.

Definition cgroupID (pid : Z) : Z :=
  if pid <=? 0 then 0
  else match proc_cgroup H pid with
  | None => 0
  | Some b =>
      match after_last (TrimSpace b) "::" with
      | None => 0
      | Some rest => default 0 (inode H (TrimPrefix rest "/"))
      end
  end.

(** ** One scan: watch.go *)

(** The session a marker tells of. *)
Definition session_of (hostname : string) (m : sessionMarker) : AuditSession :=
  {| as_CertSerial := Serial m; as_VaultUser := ""; as_Hostname := if String.eqb hostname "" then mk_Host m else hostname; LoginUser := Login m;
     as_SourceIP := stripPort (RHost m); LeaderPID := mk_LeaderPID m; CgroupID := cgroupID (mk_LeaderPID m);
     StartedAt := default 0 (parse_rfc3339 H (Started m)); Summary := "" |}.

(** Marker path to session id, the tables, and the paths removed. *)
Record scanning := { seen : gmap string Z; db : audit_db; removed : list string }.
#[export] Instance scanning_rebuild : Rebuild scanning := λ s, {| seen := seen s; db := db s; removed := removed s |}.

Definition closeIfEnded (path : string) (m : option sessionMarker) (id : Z) (s : scanning) : scanning :=
  match m with
  | None => s
  | Some m =>
      if processAlive (mk_LeaderPID m) then s
      else
        let s := if end_fails H path then s else s <| db := EndSession id (now H) "" (db s) |> in
        let s := if remove_fails H path then s else s <| removed := removed s ++ [path] |> in
        s <| seen := delete path (seen s) |>
  end.

(** The first marker that cannot be recorded stops the scan. *)
Fixpoint scan_entries (hostname : string) (es : list entry) (s : scanning) : option string * scanning :=
  match es with
  | [] => (None, s)
  | (path, m) :: es =>
      if negb (HasSuffix path ".json") then scan_entries hostname es s
      else match seen s !! path with
      | Some id => scan_entries hostname es (closeIfEnded path m id s)
      | None =>
          match m with
          | None => scan_entries hostname es s
          | Some m =>
              if record_fails H path then (Some ("record session " +:+ path), s)
              else match RecordSession (inet H) (db_now H) (session_of hostname m) (db s) with
              | (Err e, d) => (Some ("record session " +:+ path), s <| db := d |>)
              | (Ok id, d) =>
                  if record_lost H path then (Some ("record session " +:+ path), s <| db := d |>)
                  else scan_entries hostname es (s <| db := d |> <| seen := <[path := id]> (seen s) |>)
              end
          end
      end
  end.

(** [es] is [None] when the directory cannot be read. *)
Definition scanMarkers (hostname : string) (es : option (list entry)) (sn : gmap string Z) (d : audit_db) : option string * scanning :=
  let s := {| seen := sn; db := d; removed := [] |} in
  match es with None => (Some "watch", s) | Some es => scan_entries hostname es s end.

(** Sessions a prior run left open whose leader is gone; [end_ok] says which
    statements succeed, [os] is the host's own name. *)
Definition reconcileStaleSessions (hostname : string) (os : option string) (lists : bool) (end_ok : Z → bool) (d : audit_db) : audit_db :=
  match reportedHostname hostname os with
  | None => d
  | Some hn =>
      if lists then
        foldl (λ d p, if processAlive p.2 then d else if end_ok p.1 then EndSession p.1 (now H) "" d else d) d (UnendedSessions hn d)
      else d
  end.
End scan.

(** ** The loop: periodic.go *)

(** The waits of a run of [runWatchLoop] whose scans went as [oks] says. *)
Fixpoint watch_delays (interval maxBackoff retryDelay : duration) (oks : list bool) : list duration :=
  match oks with
  | [] => []
  | true :: oks => interval :: watch_delays interval maxBackoff interval oks
  | false :: oks => retryDelay :: watch_delays interval maxBackoff (Z.min (wrap64 (retryDelay * 2)) maxBackoff) oks
  end.

Definition runWatchLoop (interval maxBackoff : duration) (oks : list bool) : list duration :=
  let interval := if interval <=? 0 then 10 * Second else interval in
  let maxBackoff := if maxBackoff <? interval then interval else maxBackoff in
  watch_delays interval maxBackoff interval oks.

(** [r] is the random number drawn below [2 * span + 1]. *)
Definition jitterWatchDelay (r : Z) (delay : duration) : duration :=
  if delay <=? 0 then delay
  else let span := Z.quot delay 5 in if span <=? 0 then delay else delay - span + r.

Definition watchBackoff : duration := 5 * Minute.

(** ** The sessions stay sound *)










(** ** One scan *)










Section one_scan.
Context (H : host) (hostname : string).











End one_scan.


(** ** A restart *)

Section restart.
Context (H : host) (ok : Z → bool).



End restart.


(** ** A host's history *)

(** What happens to the registrar and its tables: scans, restarts (which lose
    the watched paths), and other hosts' registrars. *)
Inductive deed :=
| Scans (H : host) (hostname : string) (es : option (list entry))
| Restarts (H : host) (hostname : string) (os : option string) (lists : bool) (end_ok : Z → bool)
| Elsewhere (inet : string → option string) (now : time_t) (a : AuditSession)
| EndsElsewhere (id : Z) (t : time_t) (summary : string).

Definition does (s : gmap string Z * audit_db) (x : deed) : gmap string Z * audit_db :=
  match x with
  | Scans H hostname es => let '(_, s') := scanMarkers H hostname es s.1 s.2 in (seen s', db s')
  | Restarts H hostname os lists end_ok => (∅, reconcileStaleSessions H hostname os lists end_ok s.2)
  | Elsewhere inet now a => (s.1, (RecordSession inet now a s.2).2)
  | EndsElsewhere id t summary => (s.1, EndSession id t summary s.2)
  end.






(** ** The retry schedule *)

(** The delay after the [k]-th failure in a row. *)
Definition backoff (interval maxBackoff : duration) (k : nat) : duration := Z.min (interval * 2 ^ Z.of_nat k) maxBackoff.

Lemma backoff_next interval maxBackoff k : 0 < interval → maxBackoff < 2 ^ 62 → interval ≤ maxBackoff →
  Z.min (wrap64 (backoff interval maxBackoff k * 2)) maxBackoff = backoff interval maxBackoff (S k).
Proof.
  intros Hi Hm Hle. unfold backoff. rewrite Nat2Z.inj_succ, Z.pow_succ_r by lia.
  assert (1 ≤ 2 ^ Z.of_nat k) by (pose proof (Z.pow_pos_nonneg 2 (Z.of_nat k)); lia).
  assert (0 < interval * 2 ^ Z.of_nat k) by nia. rewrite wrap64_id by (unfold in_int64, int64_min, int64_max; lia). lia.
Qed.

(** The failures in a row just before scan [i], [k] having come before. *)
Fixpoint failures_before (k : nat) (oks : list bool) (i : nat) : nat :=
  match oks, i with
  | ok :: oks, S i => failures_before (if ok : bool then 0%nat else S k) oks i
  | _, _ => k
  end.

Lemma watch_delays_spec interval maxBackoff k oks : 0 < interval → maxBackoff < 2 ^ 62 → interval ≤ maxBackoff → ∀ i ok, oks !! i = Some ok →
  watch_delays interval maxBackoff (backoff interval maxBackoff k) oks !! i = Some (if ok : bool then interval else backoff interval maxBackoff (failures_before k oks i)).
Proof.
  intros H1 H2 H3. revert k. induction oks as [|b oks IH]; intros k i ok Hi; [done|]. destruct i as [|i]; simpl in *.
  - injection Hi as ->. by destruct ok.
  - destruct b; simpl; [|by rewrite backoff_next by done; apply IH].
    replace (watch_delays interval maxBackoff interval oks) with (watch_delays interval maxBackoff (backoff interval maxBackoff 0) oks); [by apply IH|].
    unfold backoff. f_equal. simpl. lia.
Qed.

Lemma backoff_range interval maxBackoff k : 0 < interval → interval ≤ maxBackoff → interval ≤ backoff interval maxBackoff k ≤ maxBackoff.
Proof. intros. unfold backoff. assert (1 ≤ 2 ^ Z.of_nat k) by (pose proof (Z.pow_pos_nonneg 2 (Z.of_nat k)); lia). nia. Qed.

(** The wait after each scan: the interval after a success, and after a failure
    the interval doubled once for each failure just before, up to the limit. *)
Lemma runWatchLoop_waits interval maxBackoff oks i ok : 0 < interval < 2 ^ 62 → maxBackoff < 2 ^ 62 → oks !! i = Some ok →
  runWatchLoop interval maxBackoff oks !! i = Some (if ok : bool then interval else backoff interval (Z.max interval maxBackoff) (failures_before 0 oks i)).
Proof.
  intros H1 H2 Hi. unfold runWatchLoop. replace (interval <=? 0) with false by (symmetry; apply Z.leb_gt; lia).
  replace (if maxBackoff <? interval then interval else maxBackoff) with (Z.max interval maxBackoff) by (destruct (maxBackoff <? interval) eqn:E; bool_simpl; lia).
  rewrite <-(watch_delays_spec interval (Z.max interval maxBackoff) 0 oks) by (done || lia). f_equal. f_equal. unfold backoff. simpl. lia.
Qed.

Lemma jitter_range r delay : 0 ≤ r ≤ 2 * Z.quot delay 5 → 0 < delay → delay - Z.quot delay 5 ≤ jitterWatchDelay r delay ≤ delay + Z.quot delay 5.
Proof.
  intros Hr Hd. unfold jitterWatchDelay. replace (delay <=? 0) with false by (symmetry; apply Z.leb_gt; lia).
  pose proof (Z.quot_pos delay 5). destruct (Z.quot delay 5 <=? 0) eqn:E; bool_simpl; lia.
Qed.

Module Sample.
Definition machine (alive : list Z) : host :=
  {| signalable := λ p, bool_decide (p ∈ alive); proc_cgroup := λ p, Some ("0::/user.slice/s" +:+ Itoa p); inode := λ rel, if String.eqb rel "user.slice/s100" then Some 77 else None;
     inet := λ a, if Contains a "." then Some a else None; parse_rfc3339 := λ s, if String.eqb s "" then None else Some (Z.of_nat (String.length s));
     now := 9; db_now := 50; record_fails := λ _, false; record_lost := λ p, String.eqb p "lost.json"; end_fails := λ _, false; remove_fails := λ _, false |}.
Definition login (serial : string) (pid : Z) (rhost started : string) : option sessionMarker :=
  Some {| Serial := serial; Login := "root"; RHost := rhost; mk_LeaderPID := pid; mk_Host := "aio01"; Started := started |}.
Definition here : string := "incheon-aio01".

Definition found : list entry := [("100.json", login "s1" 100 "10.0.0.9 22" "start"); ("200.json", login "s2" 200 "" "begin!"); ("note.txt", None); ("torn.json", None)].

(** Two logins, a restart, and one of them gone. *)
Definition past : list deed :=
  [Scans (machine [100; 200]) here (Some found); Restarts (machine [100; 200]) here (Some "aio01") true (λ _, true); Scans (machine [100; 200]) here (Some found);
   Scans (machine [200]) here (Some found)].

Example registered : (λ s, (s.1 !! "100.json", s.1 !! "200.json", (λ r, (s_id r, s_serial r, s_hostname r, s_cgroup r, s_started r, s_ended r)) <$> sessions s.2)) (foldl does (∅, empty_db) past) =
  (None, Some 2, [(1, "s1", here, 77, 5, Some 9); (2, "s2", here, 0, 6, None)]).
Proof. by vm_compute. Qed.



(** A login without a certificate leaves a marker with no serial, which the
    table refuses; each scan stops there, and later logins are never recorded. *)
Lemma a_plain_key_login_blocks_the_rest :
  let es := [("100.json", login "" 100 "" "start"); ("200.json", login "s2" 200 "" "begin!")] in
  (λ r, (r.1, length (sessions (db r.2)))) (scanMarkers (machine [100; 200]) here (Some es) ∅ empty_db) = (Some "record session 100.json", 0%nat).
Proof. by vm_compute. Qed.

(** A marker is forgotten and removed whether or not its session was ended. *)
Lemma a_failed_end_is_forgotten :
  let H := machine [200] in
  let H' := {| signalable := signalable H; proc_cgroup := proc_cgroup H; inode := inode H; inet := inet H; parse_rfc3339 := parse_rfc3339 H; now := now H; db_now := db_now H;
               record_fails := record_fails H; record_lost := record_lost H; end_fails := λ _, true; remove_fails := remove_fails H |} in
  let s := foldl does (∅, empty_db) [Scans (machine [100; 200]) here (Some found)] in
  (λ r, (seen r.2 !! "100.json", removed r.2, s_ended <$> sessions (db r.2))) (scanMarkers H' here (Some found) s.1 s.2) = (None, ["100.json"], [None; None]).
Proof. by vm_compute. Qed.

(** Without [--hostname] a session is recorded under the marker's host name, and
    a restart looks for the host's own. *)
Lemma a_restart_misses_a_renamed_host :
  let s := foldl does (∅, empty_db) [Scans (machine [100; 200]) "" (Some found)] in
  s_ended <$> sessions (reconcileStaleSessions (machine []) "" (Some "aio01.example") true (λ _, true) s.2) = [None; None].
Proof. by vm_compute. Qed.

(** A new login that got the old leader's number before the next scan is taken
    for the old session, whose path it has. *)
Lemma a_reused_pid_is_the_old_session :
  let s := foldl does (∅, empty_db) [Scans (machine [100]) here (Some [("100.json", login "s1" 100 "" "start")])] in
  s_serial <$> sessions (db (scanMarkers (machine [100]) here (Some [("100.json", login "s9" 100 "" "restart")]) s.1 s.2).2) = ["s1"].
Proof. by vm_compute. Qed.
End Sample.
